(* ===== verification/_CoqProject ===== *)
-Q . S2P
Prelude.v
GoMath.v
GoHeap.v
Keccak.v
KeccakSpec.v
Sponge.v
Rlp.v
RlpStream.v
RlpStreamSpec.v
TrieEncoding.v
Trie.v
TrieSpec.v
TrieUpdate.v
TrieNode.v
TrieDatabase.v
TrieHasher.v
TrieHashSpec.v
TrieHashOk.v
TrieProof.v
SecureTrie.v
TrieIterator.v
Params.v
VmStack.v
VmMemory.v
Opcodes.v
Analysis.v
StateInterface.v
StateDB.v
JournalSpec.v
FinaliseSpec.v
World.v
Machine.v
Gas.v
Instructions.v
JumpTable.v
Precompiles.v
Interpreter.v
EvmInv.v
ExecSafe.v
ExecFlow.v
TableSafe.v
EvmSafe.v
CallSafe.v
StateTransition.v
Sample.v
BlockTypes.v
RlpTypes.v
Receipts.v
HeaderChain.v
Hashimoto.v
Ethash.v
HeaderPipeline.v
TxSigning.v
Processor.v
Clique.v
CliqueSpec.v
CliqueEngine.v
TxOrder.v
TxList.v
TxListSpec.v
TxPool.v
TxPoolSpec.v
EvmTheorems.v
ArithTheorems.v
VmTheorems.v
StateTheorems.v
TxTheorems.v
RlpTheorems.v
TrieTheorems.v
RootSpec.v
TypesTheorems.v
TrieProofTheorems.v
TrieIteratorTheorems.v
KeccakTheorems.v
EthashTheorems.v
ProcessorSpec.v
ProcessorTheorems.v
HeaderChainTheorems.v
CliqueTheorems.v
TxPoolTheorems.v
