(* ===== verification/Prelude.v ===== *)
(** * go-ethereum: blocks, execution, state, tries, consensus, chain and pool

    A verification development for the parts of go-ethereum that decide which
    blocks and transactions are accepted and what they do.  Paths are relative
    to [src/go-ethereum-master_read].  This file is the prelude that every other
    file loads; its own content is described at the end of this comment.

    ** How the program is put together

    Execution.  [ApplyMessage] (core/state_transition.go) checks the nonce,
    takes the price of all the gas from the sender and the gas from the pool of
    the block, pays the intrinsic gas, and runs [EVM.Call] or [EVM.Create]; then
    it refunds what is left and pays the miner.  A call operation
    (core/vm/evm.go) takes a snapshot of the state, transfers the value, makes a
    [Contract] and runs [Interpreter.Run] (core/vm/interpreter.go) or a
    precompiled contract (core/vm/contracts.go), and rolls the state back to the
    snapshot on an error.  The interpreter looks an opcode up in the jump table
    (core/vm/jump_table.go), checks the stack, the write protection and the gas
    (core/vm/gas_table.go), grows the memory and executes the instruction
    (core/vm/instructions.go), which may read and write the state through the
    interface [vm.StateDB] (core/vm/interface.go) and call back into the EVM.

    State.  [state.StateDB] (core/state/statedb.go) implements the interface with
    live objects in front of the account trie and a journal
    (core/state/journal.go) of what has to be undone; [Finalise] writes the
    objects to the tries.  A trie (trie/trie.go) loads its nodes lazily from a
    cache with reference counts (trie/database.go) in front of the disk, is
    hashed by collapsing its nodes (trie/hasher.go) to RLP (rlp/) and Keccak
    (crypto/sha3), and yields Merkle proofs (trie/proof.go).

    Consensus.  A header is accepted by an engine: proof of work
    (consensus/ethash, with the dataset of algorithm.go) or proof of authority
    (consensus/clique, whose snapshots of signers and votes follow from the
    headers).  The engines read headers through a chain interface and hash them
    with core/types.

    Blocks.  [Process] (core/state_processor.go) applies the transactions of a
    block one after the other, whose senders are recovered from their signatures
    (core/types/transaction_signing.go), collects receipts and logs, and lets the
    engine pay the rewards and compute the root of the state; [BlockValidator]
    (core/block_validator.go) compares the result with the header.  The roots of
    transactions and receipts are those of tries (core/types/derive_sha.go).

    Chain.  [HeaderChain] (core/headerchain.go) stores headers with their total
    difficulties under the keys of core/rawdb and follows the heaviest branch;
    headers, transactions and blocks are stored and sent as RLP (rlp/, the
    structs of core/types).

    Pool.  [TxPool] (core/tx_pool.go) keeps the transactions that wait for a
    block, sorted by nonce per account and by price over all
    (core/tx_list.go), against the state of the head block.

    ** Files, in dependency order

    Models of the code:
    - [GoMath]: common/math, common/bytes.go and the conversions of
      common/types.go; [math/big] integers are [Z], a [uint64] is a [Z] with its
      wrap-around written out.
    - [GoHeap]: container/heap, with the proofs that heaps keep their order and
      their elements.
    - [Keccak]: crypto/sha3 (permutation, sponge, hash constructors) and the
      one-shot functions of crypto/crypto.go.
    - [Rlp], [RlpStream], [RlpTypes]: rlp/encode.go, raw.go and decode.go; the
      decoders for types with those of headers, transactions and blocks.
    - [TrieEncoding], [Trie], [TrieNode], [TrieDatabase], [TrieHasher],
      [TrieProof], [SecureTrie], [TrieIterator]: trie/encoding.go, trie.go and
      node.go, database.go with ethdb/memory_database.go, hasher.go, proof.go,
      secure_trie.go, iterator.go.
    - [Params]: params/protocol_params.go, gas_table.go, config.go: constants,
      gas tables, fork rules, the check that two configurations are compatible.
    - [VmStack], [VmMemory]: core/vm/stack.go, stack_table.go, memory.go,
      memory_table.go, common.go, and the errors of errors.go.  [None] is a Go
      panic (index or slice out of range).
    - [Opcodes], [Analysis]: core/vm/opcodes.go and analysis.go,
      the bitmap of push arguments.
    - [StateInterface]: the interface [vm.StateDB] as a type class, the abstract
      world (a map of accounts, logs, preimages, refund counter) and the class
      [StateDBSpec], what the machine may rely on.
    - [StateDB] (modules [Obj] and [State]): core/state/state_object.go,
      statedb.go and journal.go.
    - [Machine]: core/vm/contract.go and the structs of evm.go, interpreter.go.
    - [Gas], [Instructions], [JumpTable], [Precompiles]: core/vm/gas.go and
      gas_table.go, instructions.go, jump_table.go, contracts.go.
    - [Interpreter]: interpreter.go, evm.go and the transfer functions of
      core/evm.go.
    - [StateTransition]: core/state_transition.go and gaspool.go.
    - [BlockTypes], [Receipts], [TxSigning], [TxOrder]: core/types: block.go,
      transaction.go, bloom9.go, log.go; receipt.go and derive_sha.go;
      transaction_signing.go; the order a miner takes transactions in.
    - [HeaderChain]: core/headerchain.go with its store (core/rawdb) and caches
      (golang-lru), and its callers in blockchain.go and genesis.go.
    - [Hashimoto], [Ethash], [HeaderPipeline]: consensus/ethash/algorithm.go;
      consensus.go with consensus/misc; the goroutines of [VerifyHeaders] as a
      step relation.
    - [Processor]: core/state_processor.go, block_validator.go, the context of
      core/evm.go and [Finalize] of both engines.
    - [Clique], [CliqueEngine]: consensus/clique/snapshot.go and clique.go.
    - [TxList], [TxPool]: core/tx_list.go; core/tx_pool.go with
      core/state/managed_state.go.

    Invariants and refinement:
    - [KeccakSpec], [Sponge]: the permutation and the sponge of FIPS 202.
    - [RlpStreamSpec]: what the stream accepts.
    - [TrieSpec], [TrieUpdate]: a trie as a finite map;
      [TrieHashSpec], [TrieHashOk], the root hash as a function of the entries;
      [RootSpec], that a root binds the entries, and the tries of lists.
    - [JournalSpec]: the world a [stateDB] stands for, what each journal entry
      undoes, and the instance of [StateDBSpec]: the journal refines a stack of
      copies of the world.  [FinaliseSpec]: what [Finalise] and [Commit] leave in
      the tries, and what a copy shows.
    - [World]: the sum of all balances, and how a world may evolve.
    - [EvmInv]: the invariant of the EVM and the contracts between loop,
      instruction and call; [ExecSafe], [ExecFlow] show it of the instructions,
      [TableSafe] of the gas functions and of every entry of the four
      instruction sets, [EvmSafe] of an iteration, [CallSafe] of the loop and of
      the five call operations.  These files are proved against [StateDBSpec]
      and so hold for any state with that contract.
    - [ProcessorSpec]: receipts, logs, gas and balances along a block.
    - [CliqueSpec]: well-formed snapshots; what their cache and database may hold
      is in [CliqueEngine].
    - [TxListSpec]: the sorted map as a map, the price heap; [TxPoolSpec]: the invariant of the pool and every operation on it.

    Theorems, each with a concrete instance ([Sample] is a small chain with four
    accounts and three contracts):
    - [EvmTheorems]: a call always returns, is undone when it fails, creates no
      value, costs all its gas when it fails without reverting; a static call
      only observes; a creation returns and is rolled back; an iteration makes
      progress; jumps land on instructions; fuel does not matter.
    - [StateTheorems]: any program of state operations, snapshots and rollbacks
      agrees with the same program on the abstract world; a rollback restores
      the world of its snapshot; reads return the world; [Finalise]; what is
      committed is shown again; copies.
    - [TxTheorems]: a message is applied or refused, what it costs and what a
      refusal leaves behind; the intrinsic gas.
    - [VmTheorems]: jump analysis, precompiles and modular exponentiation,
      memory and its fee, the 63/64 rule, push, dup, swap, call data, opcode
      names, configuration checks, encodings, checked arithmetic.
    - [ArithTheorems]: the arithmetic instructions against the operations on
      numbers they stand for.
    - [RlpTheorems]: the encoder writes the recursive definition of the format,
      the decoder accepts exactly it, also into types; blocks are read back as
      they were written.
    - [KeccakTheorems]: the hash functions are the sponges of the standard.
    - [TrieTheorems], [TrieProofTheorems]: the trie is a finite map, its root a
      function of the entries; commit and reload; proofs are complete and sound;
      the trie with hashed keys.
    - [TrieIteratorTheorems]: walking a trie gives its entries in order.
    - [TypesTheorems]: roots commit to their entries and lists, a signature names
      its account and its chain, the order by price and nonce, bloom filters.
    - [ProcessorTheorems]: a block is processed with receipts, logs, gas and
      supply as they should be, and accepted exactly when it is the block that
      would be assembled; block hashes seen by contracts; the gas limit.
    - [HeaderChainTheorems]: the header chain is a set of headers that follows
      the heaviest branch; inserting chains, rewinding, ancestors.
    - [EthashTheorems]: difficulty and header rules, uncles and rewards, light
      and full verification agree, batches are verified completely and in order.
    - [CliqueTheorems]: snapshots stay well-formed and do not depend on what is
      kept, signers take turns, what [Seal] produces verifies.
    - [TxPoolTheorems]: the sorted map refines a map, the pool never panics and
      keeps its tables consistent, pending nonces have no gap between
      reorganisations, the limits, the price cut.

    ** Conventions and bounds

    Stateful code is a state monad [M] with three outcomes: [Ret] a result,
    [Panic] a Go run-time panic, [OutOfFuel] an exhausted recursion of the
    model.  Errors the code returns are values ([vmErr], [txErr], [poolErr]).  A
    theorem that an operation returns excludes the last two outcomes.

    The interpreter loop runs on fuel, one unit per iteration, also those of
    nested calls.  The operations [EVM_Call] and so on give it the gas of the
    call plus one: every iteration that goes on costs gas, and a callee gets
    strictly less than its caller has, so this is always enough, and any larger
    amount gives the same result ([call_result_independent_of_fuel]).  The other
    fuels: a heap loop runs on the length of the heap; the rounds that equalise
    the offenders of the pool on the number of pending transactions plus one;
    the walks of [reset] and [GetHashFn] along the chain on the block numbers,
    those of [WriteHeader] and [SetHead] on a block number and the sizes of the
    store and the header cache; the verification of the genesis block from within
    a clique snapshot on two levels; an iterator over a trie on more than the
    number of its nodes.  Each is shown to be enough.

    Gas is below 2^60 ([gas_limit]; the block gas limit is far below): this
    keeps sums of gas and of lengths inside 64 bits, where the code adds
    without checks, and keeps the memory below the 2^32 words at which the
    memory fee wraps ([memory_fee_overflows]).  Code, input and return data are
    shorter than 2^62 bytes ([short]), the range of a Go slice.  The call depth
    is at most 1025.

    What the theorems assume of code that is not modelled are classes or
    arguments:
    - [Crypto] gathers hash and curve functions and the address of a new
      contract, [CryptoSizes] their documented output sizes, [CodeHashIdeal] that
      different programs have different code hashes (the jump analysis is cached
      by hash); [Sha3] and [Sha3_512] are the hash functions of tries, blocks and
      proof of work, with their output lengths.
    - [Database] is the tries and the code store under [state.StateDB],
      [DatabaseOk] that the zero root is the empty trie and that the code store
      returns code with the requested hash; [NodeReader] loads a trie node.
    - [AccountTrie], [BlockStore] and [Engine] are the root of the account trie,
      the stored blocks and the engine block processing works with.
    - [ChainReader] is the chain an engine reads, [PowData] the cached datasets,
      [SnapshotStores] the cache and the database of clique snapshots, with the
      laws [StoresLaws]; signature recovery and the clock are arguments.
    - The pool gets a record [Surroundings]: the sender of a transaction, the
      orders in which Go ranges over its maps, the third-party priority queue
      and the sorting by heartbeat, blocks and states of the chain, the clock;
      [surroundings_ok] says that orders are permutations and that distinct
      transactions of the universe have distinct hashes.
    [Sample] and the samples beside the theorems instantiate all of them.

    ** What is not modelled

    The debug tracer, and the pool of [big.Int] objects: instructions are
    modelled on values, and a refinement that no pooled object is still in use
    would be a development of its own.  The abort flag is an oracle read once per
    iteration.  The references between trie nodes that
    [Commit] of core/state sets, its dumps and its iterators.  Input slices are
    values, except where a write through an alias is visible ([ecrecover_Run]).
    The reflection by which rlp/ finds the fields of a type.  The iterators over
    differences and unions of tries, and trie sync.  The stored blocks with bodies, receipts and states
    (core/blockchain.go): block processing is modelled against them as an
    interface, only their headers are stored here.  The goroutines of the sealers
    and the caches of ethash on disk.  The journal file, events, reports and event
    loop of the pool: each operation is one step under its lock.  Elliptic
    curves, mining, networking, RPC, accounts and commands.

    ** This file

    Fixed-width integers, bytes and slices with Go's bounds checks, big-endian
    numbers, the monad [M] with its notations in [go_scope], the hint databases
    [width] (ranges), [zlen] (lengths) and [runs] (totality), and the tactics
    [zbool], [split_if] and [run_step]. *)

From Stdlib Require Import ZArith Lia Bool.
From Stdlib Require Export Strings.Byte.
From stdpp Require Export base option list numbers countable gmap strings.

#[global] Set Default Goal Selector "!".

Declare Scope go_scope.
Delimit Scope go_scope with go.
Local Open Scope Z_scope.

(** ** Fixed-width Go integers

    A [uint64], an [int64] or a [byte] is a [Z] together with the operation
    that wraps a mathematical result back into the width. *)

Definition u64_modulus : Z := 2 ^ 64.

(** [uint64(z)]: the wrap-around of every unsigned 64-bit operation. *)
Definition u64 (z : Z) : Z := z mod u64_modulus.

(** [int64(z)]: two's complement wrap-around. *)
Definition i64 (z : Z) : Z := (z + 2 ^ 63) mod u64_modulus - 2 ^ 63.

Definition MaxUint64 : Z := 2 ^ 64 - 1.

(** The range of a [uint64], of a 256-bit stack word, of an address. *)
Definition is_u64 (z : Z) : Prop := 0 <= z < 2 ^ 64.
Definition is_word (z : Z) : Prop := 0 <= z < 2 ^ 256.
Definition is_addr (z : Z) : Prop := 0 <= z < 2 ^ 160.

Notation "a +u b" := (u64 (a + b)) (at level 50, left associativity) : go_scope.
Notation "a -u b" := (u64 (a - b)) (at level 50, left associativity) : go_scope.
Notation "a *u b" := (u64 (a * b)) (at level 40, left associativity) : go_scope.

Lemma u64_range z : is_u64 (u64 z).
Proof. unfold u64, is_u64, u64_modulus. apply Z.mod_pos_bound. lia. Qed.

Lemma u64_small z : is_u64 z -> u64 z = z.
Proof. unfold u64, is_u64, u64_modulus. intros. apply Z.mod_small. lia. Qed.

Lemma i64_small z : 0 <= z < 2 ^ 63 -> i64 z = z.
Proof. unfold i64, u64_modulus. intros. rewrite Z.mod_small; lia. Qed.

Lemma i64_u64 z : i64 (u64 z) = i64 z.
Proof.
  unfold i64, u64, u64_modulus. f_equal.
  rewrite Zplus_mod_idemp_l. reflexivity.
Qed.

Create HintDb width.
#[export] Hint Resolve u64_range : width.

(** ** Bytes *)

Definition byteZ (b : byte) : Z := Z.of_N (Byte.to_N b).

Definition Zbyte (z : Z) : byte :=
  default x00 (Byte.of_N (Z.to_N (z mod 256))).

Lemma byteZ_range b : 0 <= byteZ b < 256.
Proof.
  unfold byteZ. pose proof (Byte.to_N_bounded b). lia.
Qed.

Lemma byteZ_Zbyte z : byteZ (Zbyte z) = z mod 256.
Proof.
  unfold byteZ, Zbyte.
  pose proof (Z.mod_pos_bound z 256 ltac:(lia)) as Hb.
  destruct (Byte.of_N (Z.to_N (z mod 256))) as [b|] eqn:E; cbn.
  - apply Byte.to_of_N in E. rewrite E. lia.
  - apply Byte.of_N_None_iff in E. lia.
Qed.

Lemma Zbyte_byteZ b : Zbyte (byteZ b) = b.
Proof.
  unfold Zbyte. rewrite Z.mod_small by apply byteZ_range.
  unfold byteZ. rewrite N2Z.id, Byte.of_to_N. reflexivity.
Qed.

Lemma byteZ_inj b c : byteZ b = byteZ c -> b = c.
Proof. intros H. rewrite <- (Zbyte_byteZ b), <- (Zbyte_byteZ c), H. done. Qed.

#[export] Instance byte_eq_dec : EqDecision byte := Byte.byte_eq_dec.

(** ** Lengths and slices

    [zlen] is Go's [len]; [slice l a b] is [l\[a:b\]], [None] where Go panics.
    Go checks [b] against the capacity; the model checks it against the
    length, so it panics at least wherever the code does. *)

Definition zlen {A} (l : list A) : Z := Z.of_nat (length l).

Definition slice {A} (l : list A) (a b : Z) : option (list A) :=
  if (0 <=? a) && (a <=? b) && (b <=? zlen l)
  then Some (take (Z.to_nat (b - a)) (drop (Z.to_nat a) l))
  else None.

(** [l\[i\]] and [l\[i\] = x], [None] where Go panics. *)
Definition index {A} (l : list A) (i : Z) : option A :=
  if 0 <=? i then l !! Z.to_nat i else None.

Definition store {A} (l : list A) (i : Z) (x : A) : option (list A) :=
  if (0 <=? i) && (i <? zlen l) then Some (<[Z.to_nat i := x]> l) else None.

(** [copy(dst\[off:off+n\], src)] for a destination range already known to be
    inside [dst]: at most [n] bytes, and at most [len src], are copied. *)
Definition splice {A} (dst : list A) (off n : Z) (src : list A) : list A :=
  let s := take (Z.to_nat n) src in
  take (Z.to_nat off) dst ++ s ++ drop (Z.to_nat off + length s) dst.

Lemma zlen_nonneg {A} (l : list A) : 0 <= zlen l.
Proof. unfold zlen. lia. Qed.

Lemma zlen_app {A} (l k : list A) : zlen (l ++ k) = zlen l + zlen k.
Proof. unfold zlen. rewrite length_app. lia. Qed.

Lemma zlen_cons {A} (x : A) l : zlen (x :: l) = zlen l + 1.
Proof. unfold zlen. cbn [length]. lia. Qed.

Lemma zlen_replicate {A} n (x : A) : zlen (replicate n x) = Z.of_nat n.
Proof. unfold zlen. rewrite length_replicate. done. Qed.

Lemma slice_Some {A} (l : list A) a b :
  0 <= a <= b -> b <= zlen l ->
  slice l a b = Some (take (Z.to_nat (b - a)) (drop (Z.to_nat a) l)).
Proof.
  intros Hab Hb. unfold slice.
  replace (0 <=? a) with true by lia.
  replace (a <=? b) with true by lia.
  replace (b <=? zlen l) with true by lia. done.
Qed.

Lemma slice_zlen {A} (l : list A) a b s :
  slice l a b = Some s -> zlen s = b - a.
Proof.
  unfold slice. destruct (_ && _) eqn:E; [|done]. intros [= <-].
  unfold zlen in *. rewrite length_take, length_drop. lia.
Qed.

Lemma index_Some {A} (l : list A) i :
  0 <= i < zlen l -> is_Some (index l i).
Proof.
  unfold index, zlen. intros H. replace (0 <=? i) with true by lia.
  apply lookup_lt_is_Some. lia.
Qed.

Lemma store_Some {A} (l : list A) i x :
  0 <= i < zlen l -> store l i x = Some (<[Z.to_nat i := x]> l).
Proof.
  unfold store. intros H.
  replace (0 <=? i) with true by lia. replace (i <? zlen l) with true by lia.
  done.
Qed.

Lemma splice_zlen {A} (dst src : list A) off n :
  0 <= off -> 0 <= n -> off + n <= zlen dst ->
  zlen (splice dst off n src) = zlen dst.
Proof.
  unfold splice, zlen. intros.
  rewrite !length_app, length_drop, !length_take. lia.
Qed.

Lemma splice_lookup_in {A} (dst src : list A) off n i :
  0 <= off -> off + n <= zlen dst -> n <= zlen src ->
  off <= Z.of_nat i < off + n ->
  splice dst off n src !! i = src !! (i - Z.to_nat off)%nat.
Proof.
  unfold splice, zlen. intros.
  rewrite lookup_app_r by (rewrite length_take; lia).
  rewrite length_take, Nat.min_l by lia.
  rewrite lookup_app_l by (rewrite length_take; lia).
  rewrite lookup_take_lt by lia. done.
Qed.

Lemma splice_lookup_out {A} (dst src : list A) off n i :
  0 <= off -> 0 <= n -> off + n <= zlen dst ->
  (Z.of_nat i < off \/ off + n <= Z.of_nat i) ->
  splice dst off n src !! i = dst !! i.
Proof.
  unfold splice, zlen. intros H0 Hn Hle [Hi|Hi].
  - rewrite lookup_app_l by (rewrite length_take; lia).
    by rewrite lookup_take_lt by lia.
  - rewrite lookup_app_r by (rewrite length_take; lia).
    rewrite lookup_app_r by (rewrite !length_take; lia).
    rewrite lookup_drop. f_equal. rewrite !length_take. lia.
Qed.

#[export] Hint Resolve zlen_nonneg : width.
Create Rewrite HintDb zlen.
#[export] Hint Rewrite @zlen_app @zlen_cons @zlen_replicate : zlen.

(** ** Big-endian encodings *)

(** [new(big.Int).SetBytes(l)]. *)
Definition SetBytes (l : list byte) : Z :=
  fold_left (fun acc b => acc * 256 + byteZ b) l 0.

(** The [n]-byte big-endian encoding of [z], truncated from the left. *)
Fixpoint be_bytes (n : nat) (z : Z) : list byte :=
  match n with
  | O => []
  | S n' => be_bytes n' (z / 256) ++ [Zbyte z]
  end.

Lemma SetBytes_snoc l b : SetBytes (l ++ [b]) = SetBytes l * 256 + byteZ b.
Proof. unfold SetBytes. by rewrite fold_left_app. Qed.

Lemma SetBytes_range l : 0 <= SetBytes l < 256 ^ zlen l.
Proof.
  induction l as [|b l IH] using rev_ind; [done|].
  rewrite SetBytes_snoc, zlen_app. change (zlen [b]) with 1.
  rewrite Z.pow_add_r by (pose proof (zlen_nonneg l); lia).
  change (256 ^ 1) with 256. pose proof (byteZ_range b).
  generalize dependent (256 ^ zlen l). lia.
Qed.

Lemma length_be_bytes n z : length (be_bytes n z) = n.
Proof.
  revert z. induction n as [|n IH]; intros z; cbn; [done|].
  rewrite length_app, IH. cbn. lia.
Qed.

Lemma SetBytes_be_bytes n z :
  0 <= z -> SetBytes (be_bytes n z) = z mod 256 ^ Z.of_nat n.
Proof.
  revert z. induction n as [|n IH]; intros z Hz.
  - cbn. by rewrite Z.mod_1_r.
  - cbn [be_bytes]. rewrite SetBytes_snoc, byteZ_Zbyte, IH by (apply Z.div_pos; lia).
    rewrite Nat2Z.inj_succ, Z.pow_succ_r by lia.
    rewrite Z.rem_mul_r by lia. lia.
Qed.

Lemma be_bytes_SetBytes l : be_bytes (length l) (SetBytes l) = l.
Proof.
  induction l as [|b l IH] using rev_ind; [done|].
  rewrite length_app, Nat.add_comm. cbn [length Nat.add be_bytes].
  rewrite SetBytes_snoc. pose proof (byteZ_range b).
  rewrite Z.div_add_l by lia. rewrite (Z.div_small (byteZ b)), Z.add_0_r by lia.
  rewrite IH. f_equal. f_equal. apply byteZ_inj.
  rewrite byteZ_Zbyte, Z.add_comm, Z_mod_plus_full. apply Z.mod_small. lia.
Qed.

Lemma SetBytes_word l : zlen l <= 32 -> is_word (SetBytes l).
Proof.
  intros H. pose proof (SetBytes_range l) as Hr. unfold is_word.
  split; [lia|]. eapply Z.lt_le_trans; [apply Hr|].
  transitivity (256 ^ 32); [apply Z.pow_le_mono_r; lia | done].
Qed.

(** ** The outcome of a Go call

    A call returns, panics, or (in the model only) runs out of the fuel that
    bounds the interpreter loop. *)

Inductive outcome (A : Type) : Type :=
| Ret (a : A)
| Panic
| OutOfFuel.
Arguments Ret {A} a.
Arguments Panic {A}.
Arguments OutOfFuel {A}.

(** Code that runs over a mutable state [St]. *)
Definition M (St A : Type) : Type := St -> outcome (A * St).

Definition ret {St A} (a : A) : M St A := fun s => Ret (a, s).

Definition bind {St A B} (m : M St A) (f : A -> M St B) : M St B :=
  fun s =>
    match m s with
    | Ret (a, s') => f a s'
    | Panic => Panic
    | OutOfFuel => OutOfFuel
    end.

Definition panic {St A} : M St A := fun _ => Panic.
Definition get {St} : M St St := fun s => Ret (s, s).
Definition put {St} (s : St) : M St unit := fun _ => Ret (tt, s).
Definition gets {St A} (f : St -> A) : M St A := fun s => Ret (f s, s).
Definition modify {St} (f : St -> St) : M St unit := fun s => Ret (tt, f s).

(** [nil] dereferences and failed bounds checks: [None] panics. *)
Definition must {St A} (o : option A) : M St A :=
  match o with Some a => ret a | None => panic end.

Notation "'let*' x := m 'in' k" := (bind m (fun x => k))
  (at level 10, x name, m at level 100, k at level 200) : go_scope.
Notation "'let*' ' p := m 'in' k" := (bind m (fun x => match x with p => k end))
  (at level 10, p strict pattern, m at level 100, k at level 200) : go_scope.
Notation "m ;; k" := (bind m (fun _ => k))
  (at level 100, right associativity) : go_scope.

(** [runs m s P]: from [s], [m] neither panics nor runs out of fuel, and its
    result and final state satisfy [P]. *)
Definition runs {St A} (m : M St A) (s : St) (P : A -> St -> Prop) : Prop :=
  exists a s', m s = Ret (a, s') /\ P a s'.

Section runs.
Context {St A B : Type}.
Implicit Types (s : St) (m : M St A).

Lemma runs_ret s (a : A) (P : A -> St -> Prop) : P a s -> runs (ret a) s P.
Proof. intros H. by exists a, s. Qed.

Lemma runs_bind s m (f : A -> M St B) (P : B -> St -> Prop) :
  runs m s (fun a s' => runs (f a) s' P) -> runs (bind m f) s P.
Proof.
  intros (a & s' & Hm & b & s'' & Hf & HP). exists b, s''.
  unfold bind. rewrite Hm. done.
Qed.

Lemma runs_mono s m (P Q : A -> St -> Prop) :
  runs m s P -> (forall a s', P a s' -> Q a s') -> runs m s Q.
Proof. intros (a & s' & Hm & HP) HQ. exists a, s'. eauto. Qed.

Lemma runs_must s (o : option A) (P : A -> St -> Prop) :
  (exists a, o = Some a /\ P a s) -> runs (must o) s P.
Proof. intros (a & -> & H). by exists a, s. Qed.

Lemma runs_get s (P : St -> St -> Prop) : P s s -> runs get s P.
Proof. intros H. by exists s, s. Qed.

Lemma runs_gets s (f : St -> A) (P : A -> St -> Prop) :
  P (f s) s -> runs (gets f) s P.
Proof. intros H. by exists (f s), s. Qed.

Lemma runs_modify s (f : St -> St) (P : unit -> St -> Prop) :
  P tt (f s) -> runs (modify f) s P.
Proof. intros H. by exists tt, (f s). Qed.

Lemma runs_put s s1 (P : unit -> St -> Prop) : P tt s1 -> runs (put s1) s P.
Proof. intros H. by exists tt, s1. Qed.
End runs.

Create HintDb runs.
#[export] Hint Resolve runs_ret runs_bind runs_get runs_gets runs_modify : runs.

(** ** Tactics *)

(** Turn the boolean comparisons of the code into facts [lia] reads. *)
Ltac zbool :=
  repeat match goal with
  | H : (_ && _)%bool = true |- _ => apply andb_prop in H as [? ?]
  | H : (_ || _)%bool = false |- _ => apply orb_false_elim in H as [? ?]
  | H : negb _ = true |- _ => apply negb_true_iff in H
  | H : negb _ = false |- _ => apply negb_false_iff in H
  | H : (_ =? _) = true |- _ => apply Z.eqb_eq in H
  | H : (_ =? _) = false |- _ => apply Z.eqb_neq in H
  | H : (_ <? _) = true |- _ => apply Z.ltb_lt in H
  | H : (_ <? _) = false |- _ => apply Z.ltb_ge in H
  | H : (_ <=? _) = true |- _ => apply Z.leb_le in H
  | H : (_ <=? _) = false |- _ => apply Z.leb_gt in H
  | H : (_ >? _) = true |- _ => rewrite Z.gtb_lt in H
  | H : (_ >? _) = false |- _ => rewrite Z.gtb_ltb in H; apply Z.ltb_ge in H
  | H : (_ >=? _) = true |- _ => rewrite Z.geb_leb in H; apply Z.leb_le in H
  | H : (_ >=? _) = false |- _ => rewrite Z.geb_leb in H; apply Z.leb_gt in H
  end.

(** Case on the condition of the next [if] of the goal. *)
Ltac split_if :=
  match goal with
  | |- context [if ?b then _ else _] =>
      let E := fresh "E" in destruct b eqn:E; zbool
  end.

(** One step of symbolic execution of monadic code. *)
Ltac run_step :=
  lazymatch goal with
  | |- runs (bind _ _) _ _ => apply runs_bind
  | |- runs (ret _) _ _ => apply runs_ret
  | |- runs get _ _ => apply runs_get
  | |- runs (gets _) _ _ => apply runs_gets
  | |- runs (modify _) _ _ => apply runs_modify
  end; cbn beta.

(** ** Focusing on a part of the state *)

(** Run code over a component [get s] of the state, put back by [set]. *)
Definition zoom {B A X} (getter : B -> A) (setter : A -> B -> B)
    (m : M A X) : M B X :=
  fun s =>
    match m (getter s) with
    | Ret (x, a) => Ret (x, setter a s)
    | Panic => Panic
    | OutOfFuel => OutOfFuel
    end.

Lemma runs_zoom {B A X} (g : B -> A) (st : A -> B -> B) (m : M A X) s
    (P : X -> B -> Prop) :
  runs m (g s) (fun x a => P x (st a s)) -> runs (zoom g st m) s P.
Proof.
  intros (x & a & Hm & HP). exists x, (st a s). unfold zoom. rewrite Hm. done.
Qed.

(** Running a first step whose outcome is known. *)
Lemma runs_bind_eq {St A B} (m : M St A) (k : A -> M St B) s x s'
    (P : B -> St -> Prop) :
  m s = Ret (x, s') -> runs (k x) s' P -> runs (bind m k) s P.
Proof. intros Hm (b & s'' & Hk & HP). exists b, s''. unfold bind. by rewrite Hm. Qed.
