(* ===== verification/GoMath.v ===== *)
(** * common/math: 256-bit words and checked [uint64] arithmetic

    [math/big] values are [Z]; the functions of [common/math/big.go] and
    [common/math/integer.go] are translated one by one, with the in-place
    mutation of their receivers written as the returned value.  The theorems
    relate them to the arithmetic they are meant to compute: masking to
    reduction modulo [2^256], [Exp] to exponentiation, the two's complement
    reading to its inverse, the checked operations to exact overflow tests. *)

From Stdlib Require Import ZArith Lia Bool.
From S2P Require Import Prelude.
Local Open Scope Z_scope.

(** ** The [math/big] operations the code uses *)

(** [x.BitLen()]: the length of the absolute value in bits. *)
Definition BitLen (x : Z) : Z :=
  if x =? 0 then 0 else Z.log2 (Z.abs x) + 1.

(** [x.Uint64()] and [x.Int64()]: the low 64 bits. *)
Definition Uint64 (x : Z) : Z := u64 (Z.abs x).
Definition Int64 (x : Z) : Z :=
  if x <? 0 then i64 (- i64 (Z.abs x)) else i64 x.

(** [x.Bytes()]: the minimal big-endian encoding of the absolute value. *)
Definition Bytes (x : Z) : list byte :=
  be_bytes (Z.to_nat ((BitLen x + 7) / 8)) (Z.abs x).

(** The little-endian machine words of [x.Bits()], for [wordBits] = 64. *)
Definition wordBits : Z := 64.
Definition wordBytes : Z := wordBits / 8.

Fixpoint words_of (n : nat) (x : Z) : list Z :=
  match n with
  | O => []
  | S n' => x mod 2 ^ wordBits :: words_of n' (x / 2 ^ wordBits)
  end.

Definition Bits (x : Z) : list Z :=
  words_of (Z.to_nat ((BitLen x + wordBits - 1) / wordBits)) (Z.abs x).

(** ** common/math/big.go *)

Definition tt255 : Z := 2 ^ 255.
Definition tt256 : Z := 2 ^ 256.
Definition tt256m1 : Z := 2 ^ 256 - 1.

Definition BigMax (x y : Z) : Z := if x <? y then y else x.
Definition BigMin (x y : Z) : Z := if y <? x then y else x.

(** [FirstBitSet]: the loop over the bit positions below [BitLen]. *)
Fixpoint firstBitFrom (fuel : nat) (v i : Z) : Z :=
  match fuel with
  | O => i
  | S f => if Z.testbit (Z.abs v) i then i else firstBitFrom f v (i + 1)
  end.
Definition FirstBitSet (v : Z) : Z := firstBitFrom (Z.to_nat (BitLen v)) v 0.

Definition U256 (x : Z) : Z := Z.land x tt256m1.

Definition S256 (x : Z) : Z := if x <? tt255 then x else x - tt256.

(** One machine word of the exponent: [wordBits] rounds of square-and-multiply.
    The state is [(result, base)]: the code overwrites [base] as well. *)
Fixpoint expWord (n : nat) (word : Z) (rb : Z * Z) : Z * Z :=
  match n with
  | O => rb
  | S n' =>
      let '(result, base) := rb in
      let result' :=
        if Z.land word 1 =? 1 then U256 (result * base) else result in
      expWord n' (Z.shiftr word 1) (result', U256 (base * base))
  end.

Definition expWords (base exponent : Z) : Z * Z :=
  fold_left (fun rb word => expWord (Z.to_nat wordBits) word rb)
            (Bits exponent) (1, base).

(** [math.Exp] returns [result]; [base] is left holding the last square. *)
Definition Exp (base exponent : Z) : Z := (expWords base exponent).1.

Definition bigEndianByteAt (bigint n : Z) : byte :=
  let words := Bits bigint in
  let i := n / wordBytes in
  if i >=? zlen words then x00
  else
    let word := nth (Z.to_nat i) words 0 in
    Zbyte (Z.shiftr word (8 * (n mod wordBytes))).

Definition Byte_ (bigint padlength n : Z) : byte :=
  if n >=? padlength then x00 else bigEndianByteAt bigint (padlength - 1 - n).

(** [ReadBits]: the bytes of the words are written from the end of [buf],
    stopping at its beginning.  [i] is the index of the next byte, plus one. *)
Fixpoint readWord (j : nat) (d : Z) (i : nat) (buf : list byte)
    : nat * list byte :=
  match j, i with
  | S j', S i' => readWord j' (Z.shiftr d 8) i' (<[i' := Zbyte d]> buf)
  | _, _ => (i, buf)
  end.

Definition ReadBits (bigint : Z) (buf : list byte) : list byte :=
  (fold_left (fun st d => readWord (Z.to_nat wordBytes) d st.1 st.2)
             (Bits bigint) (length buf, buf)).2.

Definition PaddedBigBytes (bigint n : Z) : list byte :=
  if BitLen bigint / 8 >=? n then Bytes bigint
  else ReadBits bigint (replicate (Z.to_nat n) x00).

(** ** common/math/integer.go *)

Definition SafeSub (x y : Z) : Z * bool := (u64 (x - y), x <? y).
Definition SafeAdd (x y : Z) : Z * bool := (u64 (x + y), y >? MaxUint64 - x).
Definition SafeMul (x y : Z) : Z * bool :=
  if (x =? 0) || (y =? 0) then (0, false)
  else (u64 (x * y), y >? MaxUint64 / x).

(** ** common/types.go: addresses and hashes as integers

    An [Address] is the big-endian integer of its 20 bytes, a [Hash] that of
    its 32 bytes; cropping from the left is reduction. *)

Abbreviation Address := Z (only parsing).
Abbreviation Hash := Z (only parsing).

Definition BigToAddress (b : Z) : Address := Z.abs b mod 2 ^ 160.
Definition BigToHash (b : Z) : Hash := Z.abs b mod 2 ^ 256.
Definition BytesToHash (b : list byte) : Hash := SetBytes b mod 2 ^ 256.

(** ** common/bytes.go *)

Definition RightPadBytes (s : list byte) (l : Z) : list byte :=
  if l <=? zlen s then s else s ++ replicate (Z.to_nat (l - zlen s)) x00.
Definition LeftPadBytes (s : list byte) (l : Z) : list byte :=
  if l <=? zlen s then s else replicate (Z.to_nat (l - zlen s)) x00 ++ s.

(** ** Lemmas *)

Lemma U256_mod x : U256 x = x mod 2 ^ 256.
Proof.
  unfold U256, tt256m1. rewrite <- (Z.land_ones x 256) by lia.
  f_equal.
Qed.

Lemma U256_word x : is_word (U256 x).
Proof. rewrite U256_mod. apply Z.mod_pos_bound. lia. Qed.

Lemma U256_small x : is_word x -> U256 x = x.
Proof. rewrite U256_mod. unfold is_word. intros. apply Z.mod_small. lia. Qed.

Lemma U256_mul_l x y : U256 (U256 x * y) = U256 (x * y).
Proof. rewrite !U256_mod. apply Zmult_mod_idemp_l. Qed.

Lemma U256_mul_r x y : U256 (x * U256 y) = U256 (x * y).
Proof. rewrite !U256_mod. apply Zmult_mod_idemp_r. Qed.

Lemma BitLen_nonneg x : 0 <= BitLen x.
Proof. unfold BitLen. split_if; [lia|]. pose proof (Z.log2_nonneg (Z.abs x)). lia. Qed.

Lemma BitLen_bound x : Z.abs x < 2 ^ BitLen x.
Proof.
  unfold BitLen. split_if; [subst; done|].
  pose proof (Z.log2_spec (Z.abs x) ltac:(lia)) as [_ H].
  by rewrite Z.add_1_r.
Qed.

Lemma BitLen_le x n : 0 <= n -> (BitLen x <= n <-> Z.abs x < 2 ^ n).
Proof.
  intros Hn. split; intros H.
  - eapply Z.lt_le_trans; [apply BitLen_bound|].
    apply Z.pow_le_mono_r; lia.
  - unfold BitLen. split_if; [lia|].
    assert (Z.log2 (Z.abs x) < n) by (apply Z.log2_lt_pow2; lia). lia.
Qed.

(** A word whose [BitLen] passes the 64-bit test is its own [Uint64]. *)
Lemma Uint64_exact x : 0 <= x -> BitLen x <= 64 -> Uint64 x = x.
Proof.
  intros Hx H. apply BitLen_le in H; [|lia]. unfold Uint64.
  rewrite Z.abs_eq by lia. apply u64_small. unfold is_u64. lia.
Qed.

Lemma Uint64_u64 x : is_u64 (Uint64 x).
Proof. apply u64_range. Qed.

Lemma Int64_small x : 0 <= x < 2 ^ 63 -> Int64 x = x.
Proof. intros H. unfold Int64. replace (x <? 0) with false by lia. by apply i64_small. Qed.

Lemma BigToAddress_addr b : is_addr (BigToAddress b).
Proof. unfold BigToAddress, is_addr. apply Z.mod_pos_bound. lia. Qed.

Lemma BigToHash_word b : is_word (BigToHash b).
Proof. unfold BigToHash, is_word. apply Z.mod_pos_bound. lia. Qed.

Lemma addr_word a : is_addr a -> is_word a.
Proof. unfold is_addr, is_word. lia. Qed.

#[export] Hint Resolve U256_word BigToAddress_addr BigToHash_word Uint64_u64
  addr_word : width.

Lemma zlen_RightPadBytes s l : zlen (RightPadBytes s l) = Z.max l (zlen s).
Proof.
  unfold RightPadBytes. split_if; [lia|].
  rewrite zlen_app, zlen_replicate. lia.
Qed.

Lemma zlen_LeftPadBytes s l : zlen (LeftPadBytes s l) = Z.max l (zlen s).
Proof.
  unfold LeftPadBytes. split_if; [lia|].
  rewrite zlen_app, zlen_replicate. lia.
Qed.

(** *** Exponentiation *)

Lemma U256_pow_l b n : 0 <= n -> U256 (U256 b ^ n) = U256 (b ^ n).
Proof.
  intros Hn. pattern n. apply natlike_ind; [done| |done].
  clear n Hn. intros n Hn IH. rewrite !Z.pow_succ_r by lia.
  by rewrite <- U256_mul_r, IH, U256_mul_r, U256_mul_l.
Qed.

Lemma expWord_spec n : forall word r b,
  0 <= word < 2 ^ Z.of_nat n ->
  U256 (expWord n word (r, b)).1 = U256 (r * b ^ word) /\
  U256 (expWord n word (r, b)).2 = U256 (b ^ 2 ^ Z.of_nat n).
Proof.
  induction n as [|n IH]; intros word r b Hw.
  - cbn [expWord fst snd]. change (2 ^ Z.of_nat 0) with 1 in *.
    replace word with 0 by lia. by rewrite Z.mul_1_r, Z.pow_1_r.
  - rewrite Nat2Z.inj_succ, Z.pow_succ_r in * by lia.
    cbn [expWord]. destruct (IH (Z.shiftr word 1)
      (if Z.land word 1 =? 1 then U256 (r * b) else r) (U256 (b * b))) as [H1 H2].
    { rewrite Z.shiftr_div_pow2 by lia. split; [apply Z.div_pos; lia|].
      apply Z.div_lt_upper_bound; lia. }
    rewrite H1, H2, Z.shiftr_div_pow2 by lia. change (2 ^ 1) with 2.
    pose proof (Z.div_mod word 2 ltac:(lia)) as Hdm.
    pose proof (Z.mod_pos_bound word 2 ltac:(lia)).
    replace (Z.land word 1) with (word mod 2) by (symmetry; apply (Z.land_ones word 1); lia).
    assert (0 <= word / 2) by (apply Z.div_pos; lia).
    split.
    + rewrite <- U256_mul_r, U256_pow_l, U256_mul_r by lia.
      rewrite Z.pow_mul_l, <- Z.pow_add_r by lia.
      destruct (word mod 2 =? 1) eqn:E; zbool.
      * rewrite U256_mul_l, <- Z.mul_assoc, <- Z.pow_succ_r by lia.
        do 3 f_equal. lia.
      * do 3 f_equal. lia.
    + rewrite U256_pow_l by (apply Z.pow_nonneg; lia).
      rewrite Z.pow_mul_l, <- Z.pow_add_r by (apply Z.pow_nonneg; lia).
      do 2 f_equal. lia.
Qed.

Lemma expWord_word n : forall word r b,
  is_word r -> is_word (expWord n word (r, b)).1.
Proof.
  induction n as [|n IH]; intros word r b Hr; cbn [expWord]; [done|].
  apply IH. split_if; auto with width.
Qed.

Lemma words_of_fold k n : forall x r b,
  Z.of_nat k = wordBits ->
  0 <= x < 2 ^ (wordBits * Z.of_nat n) -> is_word r ->
  let '(r', _) :=
    fold_left (fun rb word => expWord k word rb) (words_of n x) (r, b) in
  is_word r' /\ r' = U256 (r * b ^ x).
Proof.
  unfold wordBits. induction n as [|n IH]; intros x r b Hk Hx Hr.
  - cbn [words_of fold_left]. split; [done|].
    change (2 ^ (64 * Z.of_nat 0)) with 1 in Hx. replace x with 0 by lia.
    by rewrite Z.pow_0_r, Z.mul_1_r, U256_small.
  - cbn [words_of fold_left]. unfold wordBits.
    pose proof (Z.mod_pos_bound x (2 ^ 64) ltac:(lia)) as Hm.
    pose proof (Z.div_mod x (2 ^ 64) ltac:(lia)) as Hdm.
    assert (0 <= x / 2 ^ 64) by (apply Z.div_pos; lia).
    destruct (expWord k (x mod 2 ^ 64) (r, b)) as [r1 b1] eqn:E1.
    pose proof (expWord_spec k (x mod 2 ^ 64) r b) as F.
    rewrite Hk in F. destruct (F Hm) as [F1 F2].
    pose proof (expWord_word k (x mod 2 ^ 64) r b Hr) as F3.
    rewrite E1 in F1, F2, F3. cbn [fst snd] in F1, F2, F3.
    specialize (IH (x / 2 ^ 64) r1 b1). destruct (fold_left _ _ _) as [r2 b2].
    destruct IH as [Hw ->]; [done | | done |].
    { split; [done|]. apply Z.div_lt_upper_bound; [done|].
      rewrite <- Z.pow_add_r by (clear; lia).
      replace (64 + 64 * Z.of_nat n) with (64 * Z.of_nat (S n)) by (clear; lia).
      apply Hx. }
    clear Hx. split; [done|].
    rewrite (Z.mul_comm r1), <- U256_mul_r, F1, U256_mul_r, Z.mul_comm.
    rewrite <- U256_mul_r, <- (U256_pow_l b1), F2, U256_pow_l, U256_mul_r by done.
    rewrite <- Z.pow_mul_r, <- Z.mul_assoc, <- Z.pow_add_r 
      by (done || (clear -Hm; lia) || (apply Z.mul_nonneg_nonneg; done)).
    clear F F1 F2. do 3 f_equal. lia.
Qed.

(** Exponentiation by squaring over the machine words of the exponent computes
    the power reduced modulo [2^256], for every non-negative exponent. *)
Lemma Exp_pow base exponent :
  0 <= exponent -> Exp base exponent = base ^ exponent mod 2 ^ 256.
Proof.
  intros He. unfold Exp, expWords, Bits.
  pose proof (words_of_fold (Z.to_nat wordBits)
    (Z.to_nat ((BitLen exponent + wordBits - 1) / wordBits)) (Z.abs exponent) 1 base)
    as H.
  destruct (fold_left _ _ _) as [r b]. cbn [fst].
  rewrite Z.abs_eq in H by lia.
  destruct H as [_ ->]; [done | | done | by rewrite Z.mul_1_l, U256_mod].
  split; [lia|]. pose proof (BitLen_bound exponent) as Hb.
  rewrite Z.abs_eq in Hb by lia.
  eapply Z.lt_le_trans; [apply Hb|]. apply Z.pow_le_mono_r; [lia|].
  pose proof (BitLen_nonneg exponent). unfold wordBits.
  rewrite Z2Nat.id by (apply Z.div_pos; lia).
  pose proof (Z.div_mod (BitLen exponent + 64 - 1) 64 ltac:(lia)).
  pose proof (Z.mod_pos_bound (BitLen exponent + 64 - 1) 64 ltac:(lia)). lia.
Qed.

Lemma Exp_word base exponent : is_word (Exp base exponent).
Proof.
  unfold Exp, expWords. generalize (Z.to_nat wordBits) as k.
  generalize (Bits exponent) as ws.
  assert (is_word 1) as H1 by done. revert H1. generalize 1 as r.
  intros r Hr ws k. revert r base Hr.
  induction ws as [|w ws IH]; intros r base Hr; [done|]. cbn [fold_left].
  destruct (expWord _ _ _) as [r' b'] eqn:E. apply IH.
  change r' with (r', b').1. rewrite <- E. by apply expWord_word.
Qed.
#[export] Hint Resolve Exp_word : width.

(** *** Bytes of a word *)

Lemma pow256 m : 0 <= m -> 256 ^ m = 2 ^ (8 * m).
Proof. intros. change 256 with (2 ^ 8). by rewrite <- Z.pow_mul_r by lia. Qed.

(** A byte of a machine word is the byte of the whole number. *)
Lemma word_byte x m :
  0 <= m < 8 -> (x mod 2 ^ 64) / 256 ^ m mod 256 = x / 256 ^ m mod 256.
Proof.
  intros Hm.
  assert (2 ^ 64 = 256 ^ m * (256 * 256 ^ (7 - m))) as Hp.
  { rewrite <- Z.pow_succ_r, <- Z.pow_add_r by lia.
    replace (m + Z.succ (7 - m)) with 8 by lia. done. }
  assert (0 < 256 ^ m) by (apply Z.pow_pos_nonneg; lia).
  pose proof (Z.div_mod x (2 ^ 64) ltac:(done)) as Hx.
  generalize dependent (x mod 2 ^ 64). intros r Hx.
  replace x with ((256 * (256 ^ (7 - m) * (x / 2 ^ 64))) * 256 ^ m + r)
    by (rewrite Hx at 2; rewrite Hp at 2; ring).
  by rewrite Z.div_add_l, Z.add_comm, (Z.mul_comm 256), Z_mod_plus_full by lia.
Qed.

Lemma length_words_of n x : length (words_of n x) = n.
Proof. revert x. induction n; intros; cbn; auto. Qed.

Lemma nth_words_of n : forall x i,
  (i < n)%nat ->
  nth i (words_of n x) 0 = (x / 2 ^ (64 * Z.of_nat i)) mod 2 ^ 64.
Proof.
  unfold words_of, wordBits. fold wordBits. fold words_of.
  induction n as [|n IH]; intros x i Hi; [lia|].
  destruct i as [|i].
  - cbn [words_of nth]. unfold wordBits. by rewrite Z.mul_0_r, Z.pow_0_r, Z.div_1_r.
  - cbn [words_of nth]. rewrite IH by lia. unfold wordBits.
    rewrite Z.div_div, <- Z.pow_add_r by lia. do 3 f_equal. lia.
Qed.

Lemma Bits_count x :
  0 <= x -> x < 2 ^ (64 * Z.of_nat (Z.to_nat ((BitLen x + wordBits - 1) / wordBits))).
Proof.
  intros Hx. pose proof (BitLen_bound x) as Hb. rewrite Z.abs_eq in Hb by lia.
  eapply Z.lt_le_trans; [apply Hb|]. apply Z.pow_le_mono_r; [lia|].
  pose proof (BitLen_nonneg x). unfold wordBits.
  rewrite Z2Nat.id by (apply Z.div_pos; lia).
  pose proof (Z.div_mod (BitLen x + 64 - 1) 64 ltac:(lia)).
  pose proof (Z.mod_pos_bound (BitLen x + 64 - 1) 64 ltac:(lia)). lia.
Qed.

Lemma bigEndianByteAt_spec x n :
  0 <= x -> 0 <= n -> byteZ (bigEndianByteAt x n) = x / 256 ^ n mod 256.
Proof.
  intros Hx Hn. unfold bigEndianByteAt, Bits, zlen. rewrite length_words_of.
  pose proof (Bits_count x Hx) as Hc. rewrite Z.abs_eq by lia.
  set (k := Z.to_nat ((BitLen x + wordBits - 1) / wordBits)) in *.
  change wordBytes with 8.
  pose proof (Z.div_mod n 8 ltac:(lia)) as Hdm.
  pose proof (Z.mod_pos_bound n 8 ltac:(lia)).
  assert (0 <= n / 8) by (apply Z.div_pos; lia).
  split_if.
  - rewrite Z.div_small; [done|]. split; [done|].
    eapply Z.lt_le_trans; [apply Hc|]. rewrite pow256 by lia.
    apply Z.pow_le_mono_r; lia.
  - rewrite nth_words_of by lia. rewrite Z2Nat.id by lia.
    rewrite byteZ_Zbyte, Z.shiftr_div_pow2, <- pow256 by lia.
    rewrite word_byte by lia.
    rewrite Z.div_div by (try apply Z.pow_pos_nonneg; lia).
    rewrite pow256, <- Z.pow_add_r, (pow256 n) by lia. do 3 f_equal. lia.
Qed.

(** [math.Byte]: byte [n] of the 32-byte big-endian encoding, zero beyond. *)
Lemma Byte__spec x n :
  0 <= x -> 0 <= n < 32 -> byteZ (Byte_ x 32 n) = x / 256 ^ (31 - n) mod 256.
Proof.
  intros Hx Hn. unfold Byte_. replace (n >=? 32) with false by lia.
  rewrite bigEndianByteAt_spec by lia. do 3 f_equal; lia.
Qed.

(** *** ReadBits *)

Lemma be_bytes_lookup n : forall z i,
  (i < n)%nat -> be_bytes n z !! i = Some (Zbyte (z / 256 ^ Z.of_nat (n - 1 - i))).
Proof.
  induction n as [|n IH]; intros z i Hi; [lia|]. cbn [be_bytes].
  destruct (decide (i = n)) as [->|Hne].
  - rewrite lookup_app_r by (rewrite length_be_bytes; lia).
    rewrite length_be_bytes, Nat.sub_diag.
    replace (S n - 1 - n)%nat with O by lia. by rewrite Z.pow_0_r, Z.div_1_r.
  - rewrite lookup_app_l by (rewrite length_be_bytes; lia).
    rewrite IH by lia. do 2 f_equal.
    rewrite Z.div_div by (try apply Z.pow_pos_nonneg; lia).
    f_equal. rewrite <- Z.pow_succ_r by lia. f_equal. lia.
Qed.

Lemma Zbyte_cong a b : a mod 256 = b mod 256 -> Zbyte a = Zbyte b.
Proof. intros H. unfold Zbyte. by rewrite H. Qed.

Lemma readWord_spec j : forall d i buf,
  (i <= length buf)%nat ->
  (readWord j d i buf).1 = (i - j)%nat /\
  length (readWord j d i buf).2 = length buf /\
  forall k, (readWord j d i buf).2 !! k =
    if decide (i - j <= k < i)%nat
    then Some (Zbyte (d / 256 ^ Z.of_nat (i - 1 - k)))
    else buf !! k.
Proof.
  induction j as [|j IH]; intros d i buf Hi; [|destruct i as [|i]]; cbn [readWord].
  1,2: split; [cbn; lia|]; split; [done|]; intros k;
    rewrite decide_False by lia; done.
  destruct (IH (Z.shiftr d 8) i (<[i := Zbyte d]> buf)) as (H1 & H2 & H3).
  { rewrite length_insert. lia. }
  rewrite H1, H2, length_insert. split; [lia|]. split; [done|].
  intros k. rewrite H3. repeat case_decide; try lia.
  - rewrite Z.shiftr_div_pow2 by lia. change (2 ^ 8) with 256.
    rewrite Z.div_div by (try apply Z.pow_pos_nonneg; lia).
    rewrite <- Z.pow_succ_r by lia. do 4 f_equal. lia.
  - replace k with i by lia. rewrite list_lookup_insert_eq by lia.
    replace (S i - 1 - i)%nat with O by lia. by rewrite Z.pow_0_r, Z.div_1_r.
  - by rewrite list_lookup_insert_ne by lia.
Qed.

Lemma readWords_spec n : forall x i buf,
  (i <= length buf)%nat ->
  let st := fold_left (fun st d => readWord (Z.to_nat wordBytes) d st.1 st.2)
                      (words_of n x) (i, buf) in
  length st.2 = length buf /\
  forall k, st.2 !! k =
    if decide (i - 8 * n <= k < i)%nat
    then Some (Zbyte (x / 256 ^ Z.of_nat (i - 1 - k)))
    else buf !! k.
Proof.
  change (Z.to_nat wordBytes) with 8%nat.
  induction n as [|n IH]; intros x i buf Hi.
  - cbn. split; [done|]. intros k. by rewrite decide_False by lia.
  - cbn [words_of fold_left fst snd]. unfold wordBits.
    destruct (readWord_spec 8 (x mod 2 ^ 64) i buf Hi) as (H1 & H2 & H3).
    destruct (readWord 8 (x mod 2 ^ 64) i buf) as [i1 b1]. cbn [fst snd] in *.
    subst i1. destruct (IH (x / 2 ^ 64) (i - 8)%nat b1) as [L1 L2]; [lia|].
    cbn [fst snd] in L1, L2. split; [lia|]. intros k. rewrite L2, H3.
    repeat case_decide; try lia; try done.
    + do 2 f_equal. rewrite Z.div_div by (try apply Z.pow_pos_nonneg; lia).
      change (2 ^ 64) with (256 ^ 8). rewrite <- Z.pow_add_r by lia.
      do 2 f_equal. lia.
    + f_equal. apply Zbyte_cong. apply word_byte. lia.
Qed.

(** [ReadBits] into a zeroed buffer writes the big-endian encoding of the
    number, left-padded, and truncated from the left when it does not fit. *)
Lemma ReadBits_zeros x n :
  0 <= x -> ReadBits x (replicate n x00) = be_bytes n x.
Proof.
  intros Hx. unfold ReadBits, Bits. rewrite Z.abs_eq by lia.
  pose proof (Bits_count x Hx) as Hc.
  set (k := Z.to_nat ((BitLen x + wordBits - 1) / wordBits)) in *.
  rewrite length_replicate.
  destruct (readWords_spec k x n (replicate n x00)) as [H1 H2].
  { rewrite length_replicate. done. }
  rewrite length_replicate in H1. apply list_eq_same_length with n; [apply length_be_bytes | done |].
  intros i a b Hi Ha Hb. rewrite be_bytes_lookup in Hb by lia.
  rewrite H2 in Ha. case_decide; [congruence|].
  rewrite lookup_replicate_2 in Ha by lia.
  enough (x / 256 ^ Z.of_nat (n - 1 - i) = 0) as H0
    by (rewrite H0 in Hb; change (Zbyte 0) with x00 in Hb; congruence).
  apply Z.div_small. split; [done|]. eapply Z.lt_le_trans; [apply Hc|].
  rewrite pow256 by lia. apply Z.pow_le_mono_r; lia.
Qed.

(** *** Checked [uint64] arithmetic *)

Lemma SafeAdd_exact x y :
  is_u64 x -> is_u64 y ->
  SafeAdd x y = (u64 (x + y), negb (x + y <? 2 ^ 64)).
Proof.
  unfold is_u64, SafeAdd, MaxUint64. intros. f_equal. lia.
Qed.

(** The form the gas functions use: no overflow, hence the exact sum. *)
Lemma SafeAdd_ok x y z :
  is_u64 x -> is_u64 y -> SafeAdd x y = (z, false) -> z = x + y /\ is_u64 z.
Proof.
  unfold SafeAdd, MaxUint64. intros Hx Hy [= <- H].
  unfold is_u64 in *. zbool. rewrite u64_small; unfold is_u64; lia.
Qed.

Lemma SafeMul_ok x y z :
  is_u64 x -> is_u64 y -> SafeMul x y = (z, false) -> z = x * y /\ is_u64 z.
Proof.
  unfold SafeMul, MaxUint64, is_u64. intros Hx Hy.
  destruct (_ || _) eqn:E.
  - intros [= <-]. apply orb_true_iff in E.
    assert (x * y = 0) by (destruct E; zbool; nia). lia.
  - intros [= <- H]. zbool. assert (x * y < 2 ^ 64).
    { pose proof (Z.mul_div_le (2 ^ 64 - 1) x ltac:(lia)).
      assert (x * y <= x * ((2 ^ 64 - 1) / x)) by (apply Z.mul_le_mono_nonneg_l; lia).
      lia. }
    rewrite u64_small by (unfold is_u64; nia). nia.
Qed.

Lemma SafeMul_overflow x y :
  is_u64 x -> is_u64 y -> (SafeMul x y).2 = true <-> 2 ^ 64 <= x * y.
Proof.
  unfold SafeMul, MaxUint64, is_u64. intros Hx Hy.
  destruct (_ || _) eqn:E; cbn [snd].
  - apply orb_true_iff in E. assert (x * y = 0) by (destruct E; zbool; nia).
    split; [done|lia].
  - zbool. rewrite Z.gtb_lt. split; intros Hc.
    + assert (2 ^ 64 - 1 < x * y); [|lia].
      pose proof (Z.div_mod (2 ^ 64 - 1) x ltac:(lia)).
      pose proof (Z.mod_pos_bound (2 ^ 64 - 1) x ltac:(lia)). nia.
    + apply Z.div_lt_upper_bound; lia.
Qed.

(** *** Two's complement *)

Lemma S256_range x : is_word x -> - 2 ^ 255 <= S256 x < 2 ^ 255.
Proof. unfold is_word, S256, tt255, tt256. intros. split_if; lia. Qed.

Lemma U256_S256 x : is_word x -> U256 (S256 x) = x.
Proof.
  unfold is_word, S256, tt255, tt256. intros. rewrite U256_mod. split_if.
  - by apply Z.mod_small.
  - rewrite <- (Z_mod_plus_full _ 1), Z.mod_small by lia. lia.
Qed.

Lemma S256_U256 z : - 2 ^ 255 <= z < 2 ^ 255 -> S256 (U256 z) = z.
Proof.
  intros Hz. rewrite U256_mod. unfold S256, tt255, tt256.
  destruct (Z.leb_spec 0 z).
  - rewrite Z.mod_small by lia. split_if; lia.
  - rewrite <- (Z_mod_plus_full _ 1), Z.mod_small by lia. split_if; lia.
Qed.

(** ** Minimal and padded encodings *)

Lemma be_bytes_zero k : be_bytes k 0 = replicate k x00.
Proof.
  induction k as [|k IH]; [done|]. cbn [be_bytes].
  rewrite Z.div_0_l, IH by lia. by rewrite <- replicate_cons_app.
Qed.

Lemma be_bytes_pad k n : forall x,
  0 <= x < 256 ^ Z.of_nat n -> be_bytes (k + n) x = replicate k x00 ++ be_bytes n x.
Proof.
  induction n as [|n IH]; intros x Hx.
  - change (256 ^ Z.of_nat 0) with 1 in Hx. replace x with 0 by lia.
    rewrite Nat.add_0_r, app_nil_r. apply be_bytes_zero.
  - rewrite Nat.add_succ_r. cbn [be_bytes]. rewrite IH, app_assoc; [done|].
    rewrite Nat2Z.inj_succ, Z.pow_succ_r in Hx by lia.
    split; [apply Z.div_pos; lia|]. apply Z.div_lt_upper_bound; lia.
Qed.

Lemma zlen_Bytes x : zlen (Bytes x) = (BitLen x + 7) / 8.
Proof.
  unfold Bytes, zlen. rewrite length_be_bytes. pose proof (BitLen_nonneg x).
  rewrite Z2Nat.id; [done|]. apply Z.div_pos; lia.
Qed.

Lemma zlen_Bytes_le x l : 0 <= l -> 0 <= x < 256 ^ l -> zlen (Bytes x) <= l.
Proof.
  intros Hl Hx. rewrite zlen_Bytes, pow256 in * by done.
  assert (BitLen x <= 8 * l) by (apply BitLen_le; lia).
  apply Z.lt_succ_r, Z.div_lt_upper_bound; lia.
Qed.

(** Left-padding the minimal encoding gives the fixed-width one. *)
Lemma LeftPad_Bytes x l :
  0 <= l -> 0 <= x < 256 ^ l -> LeftPadBytes (Bytes x) l = be_bytes (Z.to_nat l) x.
Proof.
  intros Hl Hx. pose proof (zlen_Bytes_le x l Hl Hx) as Hle.
  assert (0 <= x < 256 ^ Z.of_nat (Z.to_nat ((BitLen x + 7) / 8))) as Hb.
  { split; [lia|]. pose proof (BitLen_nonneg x). pose proof (BitLen_bound x).
    rewrite Z2Nat.id, pow256 by (apply Z.div_pos; lia).
    eapply Z.lt_le_trans; [|apply Z.pow_le_mono_r with (b := BitLen x); [lia|]].
    - lia.
    - pose proof (Z.div_mod (BitLen x + 7) 8 ltac:(lia)).
      pose proof (Z.mod_pos_bound (BitLen x + 7) 8 ltac:(lia)). lia. }
  assert (LeftPadBytes (Bytes x) l
    = replicate (Z.to_nat (l - zlen (Bytes x))) x00 ++ Bytes x) as ->.
  { unfold LeftPadBytes. split_if; [|done].
    by replace (Z.to_nat (l - zlen (Bytes x))) with O by lia. }
  unfold Bytes at 2. rewrite Z.abs_eq by lia. rewrite <- be_bytes_pad by done.
  f_equal. rewrite zlen_Bytes in *. pose proof (BitLen_nonneg x).
  pose proof (Z.div_pos (BitLen x + 7) 8). lia.
Qed.

(** ** Bitwise operations on words *)

Lemma word_testbit x :
  0 <= x -> (forall i, 256 <= i -> Z.testbit x i = false) -> is_word x.
Proof.
  intros H0 Hb. split; [done|]. destruct (Z.lt_ge_cases x (2 ^ 256)) as [|Hge]; [done|].
  assert (256 <= Z.log2 x) as Hl.
  { change 256 with (Z.log2 (2 ^ 256)). by apply Z.log2_le_mono. }
  specialize (Hb (Z.log2 x) Hl). rewrite Z.bit_log2 in Hb; [done|lia].
Qed.

Lemma testbit_word x i : is_word x -> 256 <= i -> Z.testbit x i = false.
Proof.
  intros [H0 H1] Hi. rewrite <- (Z.mod_small x (2 ^ 256)) by lia.
  apply Z.mod_pow2_bits_high. lia.
Qed.

Lemma land_word x y : is_word x -> is_word y -> is_word (Z.land x y).
Proof.
  intros Hx Hy. apply word_testbit.
  - apply Z.land_nonneg. left. apply Hx.
  - intros i Hi. by rewrite Z.land_spec, (testbit_word x).
Qed.

Lemma lor_word x y : is_word x -> is_word y -> is_word (Z.lor x y).
Proof.
  intros Hx Hy. apply word_testbit.
  - apply Z.lor_nonneg. split; [apply Hx|apply Hy].
  - intros i Hi. by rewrite Z.lor_spec, (testbit_word x), (testbit_word y).
Qed.

Lemma lxor_word x y : is_word x -> is_word y -> is_word (Z.lxor x y).
Proof.
  intros Hx Hy. apply word_testbit.
  - apply Z.lxor_nonneg. split; intros _; [apply Hy|apply Hx].
  - intros i Hi. by rewrite Z.lxor_spec, (testbit_word x), (testbit_word y).
Qed.

#[export] Hint Resolve U256_word Exp_word land_word lor_word lxor_word : width.
