(* ===== verification/GoHeap.v ===== *)
(** * container/heap

    The binary heaps of the standard library over a slice, as [core] uses them:
    [up], [down], [Init], [Push], [Pop], [Remove], [Fix].  A heap keeps a permutation of
    its elements with each below its parent ([heap_ok]); [Pop] gives a least one.
    Indices are natural numbers; out of range nothing is found, which the calls
    exclude. *)

From Stdlib Require Import ZArith Lia Bool.
From S2P Require Import Prelude.

Section heap.
Context {A : Type}.
Variable less : A -> A -> bool.

Definition Less (h : list A) (i j : nat) : bool :=
  match h !! i, h !! j with Some x, Some y => less x y | _, _ => false end.

Definition Swap (h : list A) (i j : nat) : list A :=
  match h !! i, h !! j with Some x, Some y => <[i := y]> (<[j := x]> h) | _, _ => h end.

(** The parent of an index, [(j-1)/2]; Go's division gives 0 at 0. *)
Definition parent (j : nat) : nat := (j - 1) / 2.

Fixpoint up (fuel : nat) (h : list A) (j : nat) : list A :=
  match fuel with
  | O => h
  | S fuel =>
      let i := parent j in
      if (i =? j)%nat || negb (Less h j i) then h else up fuel (Swap h i j) i
  end.

(** The new slice, and the index where the element has come to rest. *)
Fixpoint down (fuel : nat) (h : list A) (i n : nat) : list A * nat :=
  match fuel with
  | O => (h, i)
  | S fuel =>
      let j1 := (2 * i + 1)%nat in
      if (n <=? j1)%nat then (h, i)
      else
        let j := if (j1 + 1 <? n)%nat && Less h (j1 + 1) j1 then (j1 + 1)%nat else j1 in
        if negb (Less h j i) then (h, i) else down fuel (Swap h i j) j n
  end.

Definition Down (h : list A) (i n : nat) : list A * nat := down n h i n.

Fixpoint initLoop (h : list A) (n k : nat) : list A :=
  match k with
  | O => h
  | S i => initLoop (Down h i n).1 n i
  end.

Definition Init (h : list A) : list A := initLoop h (length h) (length h / 2).

Definition Push (h : list A) (x : A) : list A := up (length h + 1) (h ++ [x]) (length h).

(** The last element, [h.Pop()] of the slice. *)
Definition popLast (h : list A) : option (A * list A) :=
  match last h with Some x => Some (x, removelast h) | None => None end.

(** [None] is the panic on an empty heap. *)
Definition Pop (h : list A) : option (A * list A) :=
  let n := (length h - 1)%nat in popLast (Down (Swap h 0 n) 0 n).1.

Definition Remove (h : list A) (i : nat) : option (A * list A) :=
  let n := (length h - 1)%nat in
  if (n =? i)%nat then popLast h
  else
    let '(h, j) := Down (Swap h i n) i n in
    popLast (if (i <? j)%nat then h else up (i + 1) h i).

Definition Fix (h : list A) (i : nat) : list A :=
  let '(h, j) := Down h i (length h) in
  if (i <? j)%nat then h else up (i + 1) h i.
End heap.

(** ** The laws of a heap *)

Lemma parent_iff c i : (0 < c)%nat -> parent c = i <-> c = (2 * i + 1)%nat \/ c = (2 * i + 2)%nat.
Proof.
  intros Hc. unfold parent. pose proof (Nat.div_mod (c - 1) 2 ltac:(lia)).
  pose proof (Nat.mod_upper_bound (c - 1) 2 ltac:(lia)). lia.
Qed.

Lemma parent_lt c : (0 < c)%nat -> (parent c < c)%nat.
Proof. intros Hc. destruct (proj1 (parent_iff c (parent c) Hc) eq_refl); lia. Qed.

(** ** Swaps *)

Section swap.
Context {A : Type}.
Implicit Types (l : list A).

Lemma insert_perm l i x y : l !! i = Some x -> x :: <[i := y]> l ≡ₚ y :: l.
Proof.
  intros Hi. rewrite <- (take_drop_middle l i x Hi) at 2. rewrite insert_take_drop by by eapply lookup_lt_Some.
  rewrite <- !Permutation_middle. apply perm_swap.
Qed.

Lemma swap_perm l i j : Swap l i j ≡ₚ l.
Proof.
  unfold Swap. destruct (l !! i) as [x|] eqn:Hi; [|done]. destruct (l !! j) as [y|] eqn:Hj; [|done].
  destruct (decide (i = j)) as [->|Hne].
  - rewrite Hi in Hj. injection Hj as ->. by rewrite list_insert_insert_eq, list_insert_id.
  - apply (Permutation_cons_inv (a := x)). rewrite insert_perm by by rewrite list_lookup_insert_ne.
    by apply insert_perm.
Qed.

Lemma Swap_length l i j : length (Swap l i j) = length l.
Proof. by rewrite swap_perm. Qed.

Lemma swap_lookup l i j k : (i < length l)%nat -> (j < length l)%nat ->
  Swap l i j !! k = if decide (k = i) then l !! j else if decide (k = j) then l !! i else l !! k.
Proof.
  intros Hi Hj. unfold Swap. destruct (lookup_lt_is_Some_2 l i Hi) as [x Ex], (lookup_lt_is_Some_2 l j Hj) as [y Ey].
  rewrite Ex, Ey. destruct (decide (k = i)) as [->|Hki].
  - rewrite list_lookup_insert_eq; [done|]. by rewrite length_insert.
  - rewrite list_lookup_insert_ne by done. destruct (decide (k = j)) as [->|Hkj].
    + by rewrite list_lookup_insert_eq.
    + by rewrite list_lookup_insert_ne.
Qed.
End swap.

(** ** The order *)

(** [less] is a strict weak order. *)
Class WeakOrder {A} (less : A -> A -> bool) := {
  less_asym x y : less x y = true -> less y x = false;
  less_trans x y z : less y x = false -> less z y = false -> less z x = false
}.

Section heap.
Context {A : Type} (less : A -> A -> bool) {W : WeakOrder less}.
Implicit Types (l h : list A).

(** The element at [a] is not above the one at [b]. *)
Definition below l (a b : nat) : Prop :=
  forall x y, l !! a = Some x -> l !! b = Some y -> less y x = false.

(** The heap order of the first [n] elements, at and below the parents from
    [lo] on. *)
Definition ordered (lo n : nat) l : Prop :=
  forall k, (0 < k < n)%nat -> (lo <= parent k)%nat -> below l (parent k) k.

Definition heap_ok l : Prop := ordered 0 (length l) l.

Lemma below_trans l a b c : (b < length l)%nat -> below l a b -> below l b c -> below l a c.
Proof.
  intros Hb H1 H2 x z Ex Ez. destruct (lookup_lt_is_Some_2 l b Hb) as [y Ey].
  eapply less_trans; [by apply H1|by apply H2].
Qed.

Lemma Less_true l a b : Less less l a b = true -> below l a b.
Proof. unfold Less. intros E x y Ex Ey. rewrite Ex, Ey in E. by apply less_asym. Qed.

Lemma Less_false l a b : Less less l a b = false -> below l b a.
Proof. unfold Less. intros E x y Ex Ey. by rewrite Ex, Ey in E. Qed.

Lemma below_swap l i j a b a' b' : (i < length l)%nat -> (j < length l)%nat ->
  a' = (if decide (a = i) then j else if decide (a = j) then i else a) ->
  b' = (if decide (b = i) then j else if decide (b = j) then i else b) ->
  below l a' b' -> below (Swap l i j) a b.
Proof.
  intros Hi Hj -> -> H x y. rewrite !swap_lookup by done. intros Ex Ey. apply (H x y).
  - rewrite <- Ex. by repeat destruct (decide _).
  - rewrite <- Ey. by repeat destruct (decide _).
Qed.

(** ** up *)

(** The order holds but between [j] and its parent. *)
Record up_inv (n : nat) l (j : nat) : Prop := {
  ui_rest k : (0 < k < n)%nat -> k <> j -> below l (parent k) k;
  ui_kids c : (0 < c < n)%nat -> parent c = j -> (0 < j)%nat -> below l (parent j) c
}.

Lemma up_perm fuel l j : up less fuel l j ≡ₚ l.
Proof.
  revert l j. induction fuel as [|fuel IH]; intros l j; [done|]. cbn [up].
  destruct (_ || _); [done|]. by rewrite IH, swap_perm.
Qed.

Lemma up_step n l j : (n <= length l)%nat -> (0 < j < n)%nat -> up_inv n l j -> Less less l j (parent j) = true ->
  up_inv n (Swap l (parent j) j) (parent j).
Proof.
  intros Hn Hj [H1 H2] HL. pose proof (parent_lt j ltac:(lia)) as Hp. apply Less_true in HL. split.
  - intros k Hk Hne. pose proof (parent_lt k ltac:(lia)) as Hpk. destruct (decide (k = j)) as [->|Hkj].
    + eapply below_swap; [lia|lia|reflexivity|reflexivity|]. by rewrite !decide_True, decide_False, decide_True by lia.
    + eapply below_swap; [lia|lia|reflexivity|reflexivity|]. rewrite (decide_False (P := k = parent j)), (decide_False (P := k = j)) by done.
      destruct (decide (parent k = parent j)) as [E|E].
      * apply (below_trans _ _ (parent j)); [lia|done|]. rewrite <- E. apply H1; [lia|done].
      * destruct (decide (parent k = j)) as [E2|E2]; [apply H2; [lia|done|lia]|apply H1; [lia|done]].
  - intros c Hc Epc Hpos. pose proof (parent_lt (parent j) Hpos) as Hpp.
    eapply below_swap; [lia|lia|reflexivity|reflexivity|].
    rewrite (decide_False (P := parent (parent j) = parent j)), (decide_False (P := parent (parent j) = j)) by lia.
    pose proof (parent_lt c ltac:(lia)). rewrite (decide_False (P := c = parent j)) by lia.
    destruct (decide (c = j)) as [->|Hcj]; [apply H1; lia|].
    apply (below_trans _ _ (parent j)); [lia|apply H1; lia|]. rewrite <- Epc. apply H1; [lia|done].
Qed.

Lemma up_ok n fuel l j : (n <= length l)%nat -> (j < n)%nat -> (j < fuel)%nat -> up_inv n l j ->
  ordered 0 n (up less fuel l j).
Proof.
  revert l j. induction fuel as [|fuel IH]; intros l j Hn Hj Hf Hi; [lia|]. cbn [up].
  destruct (Nat.eqb_spec (parent j) j) as [E|E]; cbn [orb].
  - assert (j = 0%nat) as -> by (destruct j; [done|]; pose proof (parent_lt (S j) ltac:(lia)); lia).
    intros k Hk _. apply Hi; lia.
  - assert (0 < j)%nat as Hj0 by (destruct j; [by destruct E|lia]). pose proof (parent_lt j Hj0).
    destruct (Less less l j (parent j)) eqn:HL; cbn [negb].
    + apply IH; [by rewrite Swap_length|lia|lia|]. by apply up_step.
    + intros k Hk _. destruct (decide (k = j)) as [->|Hne]; [by apply Less_false|by apply Hi].
Qed.

Lemma up_keeps n fuel l j k : (n <= length l)%nat -> (j < n)%nat -> (n <= k)%nat -> up less fuel l j !! k = l !! k.
Proof.
  revert l j. induction fuel as [|fuel IH]; intros l j Hn Hj Hk; [done|]. cbn [up].
  destruct (Nat.eqb_spec (parent j) j) as [E|E]; [done|]. cbn [orb]. destruct (negb _); [done|].
  assert (parent j < j)%nat by (apply parent_lt; destruct j; [by destruct E|lia]).
  rewrite IH by (rewrite ?Swap_length; lia). rewrite swap_lookup by lia. by rewrite !decide_False by lia.
Qed.

(** ** down *)

(** The order holds but around [i]. *)
Record down_inv (lo n : nat) l (i : nat) : Prop := {
  di_rest k : (0 < k < n)%nat -> (lo <= parent k)%nat -> k <> i -> parent k <> i -> below l (parent k) k;
  di_kids c : (0 < c < n)%nat -> parent c = i -> (0 < i)%nat -> (lo <= parent i)%nat -> below l (parent i) c
}.

Lemma down_perm fuel l i n : (down less fuel l i n).1 ≡ₚ l.
Proof.
  revert l i. induction fuel as [|fuel IH]; intros l i; [done|]. cbn [down].
  destruct (n <=? _)%nat; [done|]. destruct (negb _); [done|]. by rewrite IH, swap_perm.
Qed.

(** The smaller child. *)
Definition child l (i n : nat) : nat :=
  if (2 * i + 1 + 1 <? n)%nat && Less less l (2 * i + 1 + 1) (2 * i + 1) then (2 * i + 1 + 1)%nat else (2 * i + 1)%nat.

Lemma child_spec l i n : (n <= length l)%nat -> (2 * i + 1 < n)%nat ->
  (i < child l i n < n)%nat /\ parent (child l i n) = i /\
  forall c, (0 < c < n)%nat -> parent c = i -> below l (child l i n) c.
Proof.
  intros Hn Hi. assert (forall a, below l a a) as Hrefl.
  { intros a x y Ex Ey. rewrite Ex in Ey. injection Ey as <-.
    destruct (less x x) eqn:E; [|done]. pose proof (less_asym _ _ E). congruence. }
  unfold child. destruct (Nat.ltb_spec (2 * i + 1 + 1) n); cbn [andb];
    [destruct (Less less l (2 * i + 1 + 1) (2 * i + 1)) eqn:HL|].
  all: split; [lia|split; [apply parent_iff; lia|]]; intros c Hc Ec; apply parent_iff in Ec as [->| ->]; try lia.
  all: try apply Hrefl.
  - replace (2 * i + 1 + 1)%nat with (2 * i + 2)%nat in * by lia. by apply Less_true.
  - replace (2 * i + 2)%nat with (2 * i + 1 + 1)%nat by lia. apply Hrefl.
  - replace (2 * i + 2)%nat with (2 * i + 1 + 1)%nat by lia. by apply Less_false.
Qed.

Lemma down_step lo n l i j : (n <= length l)%nat -> (lo <= i)%nat -> (i < j < n)%nat -> parent j = i ->
  (forall c, (0 < c < n)%nat -> parent c = i -> below l j c) -> below l j i -> down_inv lo n l i ->
  down_inv lo n (Swap l i j) j /\ below (Swap l i j) i j /\
  ((0 < i)%nat -> (lo <= parent i)%nat -> below (Swap l i j) (parent i) i).
Proof.
  intros Hn Hlo Hij Ep Hmin Hji [H1 H2].
  assert (below (Swap l i j) i j) as Hs.
  { eapply below_swap; [lia|lia|reflexivity|reflexivity|]. by rewrite !decide_True, decide_False, decide_True by lia. }
  assert ((0 < i)%nat -> (lo <= parent i)%nat -> below (Swap l i j) (parent i) i) as Hup.
  { intros Hi Hl. pose proof (parent_lt i Hi). eapply below_swap; [lia|lia|reflexivity|reflexivity|].
    rewrite (decide_False (P := parent i = i)), (decide_False (P := parent i = j)), (decide_True (P := i = i)) by lia.
    apply H2; [lia|done|done|done]. }
  split; [|done]. split.
  - intros k Hk Hl Hkj Hpj. destruct (decide (k = i)) as [->|Hki]; [by apply Hup; lia|].
    eapply below_swap; [lia|lia|reflexivity|reflexivity|].
    rewrite (decide_False (P := k = i)), (decide_False (P := k = j)), (decide_False (P := parent k = j)) by done.
    destruct (decide (parent k = i)) as [E|E]; [by apply Hmin|by apply H1].
  - intros c Hc Ec Hj Hl. pose proof (parent_lt c ltac:(lia)). rewrite Ep.
    eapply below_swap; [lia|lia|reflexivity|reflexivity|].
    rewrite (decide_True (P := i = i)), (decide_False (P := c = i)), (decide_False (P := c = j)) by lia.
    rewrite <- Ec. apply H1; lia.
Qed.

Lemma down_spec lo n fuel l i : (n <= length l)%nat -> (lo <= i < n)%nat -> (n <= fuel + i)%nat -> down_inv lo n l i ->
  match down less fuel l i n with
  | (l', j) => (forall k, (n <= k)%nat -> l' !! k = l !! k) /\
      (j = i /\ l' = l /\ (forall c, (0 < c < n)%nat -> parent c = i -> below l i c) \/
       (i < j)%nat /\ ordered lo n l')
  end.
Proof.
  revert l i. induction fuel as [|fuel IH]; intros l i Hn Hi Hf Hinv; [lia|]. cbn [down]. cbv zeta.
  fold (child l i n). destruct (Nat.leb_spec n (2 * i + 1)) as [Hle|Hgt].
  { split; [done|]. left. split; [done|]. split; [done|]. intros c Hc Ec. apply parent_iff in Ec; lia. }
  destruct (child_spec l i n Hn Hgt) as (Hj & Ep & Hmin). set (j := child l i n) in *.
  destruct (Less less l j i) eqn:HL; cbn [negb].
  - apply Less_true in HL.
    destruct (down_step lo n l i j Hn ltac:(lia) Hj Ep Hmin HL Hinv) as (Hinv' & Hs & Hup).
    specialize (IH (Swap l i j) j ltac:(by rewrite Swap_length) ltac:(lia) ltac:(lia) Hinv').
    destruct (down less fuel (Swap l i j) j n) as [l' j']. destruct IH as [Hk IH]. split.
    + intros k Hk'. rewrite Hk by done. rewrite swap_lookup by lia. by rewrite !decide_False by lia.
    + right. destruct IH as [(-> & -> & Hc)|[Hlt Ho]]; [|split; [lia|done]]. split; [lia|].
      intros k Hk0 Hl. destruct (decide (k = j)) as [->|Hkj]; [by rewrite Ep|].
      destruct (decide (parent k = j)) as [E|E]; [rewrite E; by apply Hc|]. by apply Hinv'.
  - split; [done|]. left. split; [done|]. split; [done|]. apply Less_false in HL. intros c Hc Ec.
    apply (below_trans _ _ j); [lia|done|by apply Hmin].
Qed.

(** ** The operations *)

Lemma Init_ok l : Init less l ≡ₚ l /\ heap_ok (Init less l).
Proof.
  unfold Init, heap_ok. assert (forall k h, length h = length l -> (k <= length l)%nat -> h ≡ₚ l -> ordered k (length l) h ->
    initLoop less h (length l) k ≡ₚ l /\ ordered 0 (length l) (initLoop less h (length l) k)) as H.
  { induction k as [|k IH]; intros h Hl Hk Hp Ho; [done|]. cbn [initLoop]. unfold Down.
    pose proof (down_perm (length l) h k (length l)) as Hd.
    pose proof (down_spec k (length l) (length l) h k ltac:(lia) ltac:(lia) ltac:(lia)) as Hs.
    destruct (down less (length l) h k (length l)) as [h' j] eqn:E. cbn [fst] in *. apply IH.
    - by rewrite Hd.
    - lia.
    - by rewrite Hd.
    - destruct Hs as [_ [(-> & -> & Hc)|[_ Ho']]]; [| |done].
      { split; [intros c Hc Hlo Hne Hp'; apply Ho; lia|]. intros c Hc Ec Hk0 Hlo. pose proof (parent_lt k Hk0). lia. }
      intros c Hc' Hlo. destruct (decide (parent c = k)) as [E2|E2]; [rewrite E2; by apply Hc|apply Ho; lia]. }
  destruct (H (length l / 2)%nat l) as [H1 H2]; [done| |done| |].
  - apply Nat.Div0.div_le_upper_bound. lia.
  - intros k Hk Hlo. pose proof (proj1 (parent_iff k _ ltac:(lia)) eq_refl).
    pose proof (Nat.div_mod (length l) 2 ltac:(lia)). pose proof (Nat.mod_upper_bound (length l) 2 ltac:(lia)). lia.
  - split; [done|]. assert (length (initLoop less l (length l) (length l / 2)) = length l) as -> by by rewrite H1. done.
Qed.

Lemma ordered_ext lo n l l' : (forall k, (k < n)%nat -> l !! k = l' !! k) -> ordered lo n l -> ordered lo n l'.
Proof.
  intros He Ho k Hk Hlo x y Ex Ey. pose proof (parent_lt k ltac:(lia)). rewrite <- He in Ex, Ey by lia. by eapply Ho.
Qed.

Lemma Push_ok l x : heap_ok l -> Push less l x ≡ₚ x :: l /\ heap_ok (Push less l x).
Proof.
  intros Ho. unfold Push. assert (up less (length l + 1) (l ++ [x]) (length l) ≡ₚ x :: l) as Hp.
  { by rewrite up_perm, <- Permutation_cons_append. }
  split; [done|]. unfold heap_ok. rewrite (Permutation_length Hp). cbn [length].
  apply up_ok; [rewrite length_app; cbn [length]; lia|lia|lia|]. split.
  - intros k Hk Hne a b. pose proof (parent_lt k ltac:(lia)). rewrite !lookup_app_l by lia. apply Ho; lia.
  - intros c Hc Ec. pose proof (parent_lt c ltac:(lia)). lia.
Qed.

(** The root is a least element. *)
Lemma root_least l x : heap_ok l -> l !! 0%nat = Some x -> Forall (fun y => less y x = false) l.
Proof.
  intros Ho H0. apply Forall_lookup. intros k. induction k as [k IH] using lt_wf_ind. intros y Hy.
  destruct (decide (k = 0%nat)) as [->|Hk].
  - rewrite H0 in Hy. injection Hy as <-. destruct (less x x) eqn:E; [|done]. pose proof (less_asym _ _ E). congruence.
  - pose proof (lookup_lt_Some _ _ _ Hy) as Hlt. pose proof (parent_lt k ltac:(lia)) as Hp.
    destruct (lookup_lt_is_Some_2 l (parent k) ltac:(lia)) as [p Ep].
    eapply less_trans; [by eapply (IH (parent k))|]. apply (Ho k ltac:(lia) ltac:(lia) p y Ep Hy).
Qed.

Lemma popLast_snoc h (x : A) : popLast (h ++ [x]) = Some (x, h).
Proof. unfold popLast. by rewrite last_snoc, removelast_last. Qed.

(** A slice without its last element. *)
Lemma split_last h (x : A) n : length h = S n -> h !! n = Some x -> h = take n h ++ [x].
Proof. intros Hl Hx. rewrite <- (take_S_r h n x Hx). by rewrite take_ge by lia. Qed.

Lemma Pop_ok l : heap_ok l -> l <> [] ->
  exists x l', Pop less l = Some (x, l') /\ l !! 0%nat = Some x /\ l ≡ₚ x :: l' /\ heap_ok l' /\
    Forall (fun y => less y x = false) l.
Proof.
  intros Ho Hne. destruct (length l) as [|n] eqn:Hl; [by destruct l|].
  destruct (lookup_lt_is_Some_2 l 0 ltac:(lia)) as [x Hx]. unfold Pop, Down. rewrite Hl.
  replace (S n - 1)%nat with n by lia.
  pose proof (down_perm n (Swap l 0 n) 0 n) as Hp.
  assert (length (down less n (Swap l 0 n) 0 n).1 = S n) as Hlen by (by rewrite Hp, swap_perm).
  assert ((down less n (Swap l 0 n) 0 n).1 !! n = Some x /\ ordered 0 n (down less n (Swap l 0 n) 0 n).1) as [Hn Hord].
  { assert (Swap l 0 n !! n = Some x) as Hs.
    { rewrite swap_lookup by lia. destruct (decide (n = 0%nat)) as [E|_]; [by rewrite E|by rewrite decide_True]. }
    destruct (decide (n = 0%nat)) as [->|Hn]; [split; [done|intros k Hk; lia]|].
    pose proof (down_spec 0 n n (Swap l 0 n) 0 ltac:(rewrite Swap_length; lia) ltac:(lia) ltac:(lia)) as Hd.
    destruct (down less n (Swap l 0 n) 0 n) as [l' j]. cbn [fst] in *. destruct Hd as [Hk Hd].
    { split; [|lia]. intros k Hk _ Hk0 Hp0 a b. rewrite !swap_lookup by lia. pose proof (parent_lt k ltac:(lia)).
      rewrite !decide_False by lia. apply Ho; lia. }
    split; [by rewrite Hk|]. destruct Hd as [(-> & -> & Hc)|[_ Hd]]; [|done].
    intros k Hk' _. destruct (decide (parent k = 0%nat)) as [E|E]; [rewrite E; by apply Hc|].
    intros a b. rewrite !swap_lookup by lia. pose proof (parent_lt k ltac:(lia)). rewrite !decide_False by lia. apply Ho; lia. }
  set (h := (down less n (Swap l 0 n) 0 n).1) in *. rewrite (split_last h x n Hlen Hn), popLast_snoc.
  exists x, (take n h). split; [done|]. split; [done|]. split; [|split].
  - rewrite Permutation_cons_append, <- (split_last h x n Hlen Hn). by rewrite Hp, swap_perm.
  - unfold heap_ok. rewrite length_take, Nat.min_l by lia. eapply ordered_ext; [|exact Hord].
    intros k Hk. by rewrite lookup_take_lt.
  - by apply root_least.
Qed.

Lemma Pop_empty : Pop less [] = None.
Proof. done. Qed.

Lemma Remove_ok l i x : heap_ok l -> l !! i = Some x ->
  exists l', Remove less l i = Some (x, l') /\ l ≡ₚ x :: l' /\ heap_ok l'.
Proof.
  intros Ho Hx. pose proof (lookup_lt_Some _ _ _ Hx) as Hlt. destruct (length l) as [|n] eqn:Hl; [lia|].
  unfold Remove, Down. rewrite Hl. replace (S n - 1)%nat with n by lia.
  assert (forall h, h ≡ₚ l -> h !! n = Some x -> ordered 0 n h ->
    exists l', popLast h = Some (x, l') /\ l ≡ₚ x :: l' /\ heap_ok l') as Hend.
  { intros h Hp Hn Hord. assert (length h = S n) as Hlen by by rewrite Hp.
    rewrite (split_last h x n Hlen Hn), popLast_snoc. exists (take n h). split; [done|]. split.
    - by rewrite Permutation_cons_append, <- (split_last h x n Hlen Hn).
    - unfold heap_ok. rewrite length_take, Nat.min_l by lia. eapply ordered_ext; [|exact Hord].
      intros k Hk. by rewrite lookup_take_lt. }
  destruct (Nat.eqb_spec n i) as [->|Hni].
  { apply Hend; [done|done|]. intros k Hk _. apply Ho; lia. }
  assert (Swap l i n !! n = Some x) as Hs.
  { rewrite swap_lookup by lia. by rewrite decide_False, decide_True by lia. }
  assert (forall a b, (a < n)%nat -> (b < n)%nat -> a <> i -> b <> i -> below l a b -> below (Swap l i n) a b) as Hoth.
  { intros a b Ha Hb Hai Hbi Hab y z. rewrite !swap_lookup by lia. rewrite !decide_False by lia. apply Hab. }
  assert (down_inv 0 n (Swap l i n) i) as Hinv.
  { split.
    - intros k Hk _ Hki Hpi. pose proof (parent_lt k ltac:(lia)). apply Hoth; [lia|lia|done|done|]. apply Ho; lia.
    - intros c Hc Ec Hi _. pose proof (parent_lt i Hi). pose proof (parent_lt c ltac:(lia)).
      apply Hoth; [lia..|]. apply (below_trans _ _ i); [lia|apply Ho; lia|]. rewrite <- Ec. apply Ho; lia. }
  pose proof (down_perm n (Swap l i n) i n) as Hp.
  pose proof (down_spec 0 n n (Swap l i n) i ltac:(rewrite Swap_length; lia) ltac:(lia) ltac:(lia) Hinv) as Hd.
  destruct (down less n (Swap l i n) i n) as [h j]. cbn [fst] in Hp. destruct Hd as [Hk Hd].
  assert (length h = S n) as Hlen by by rewrite Hp, swap_perm.
  destruct Hd as [(-> & -> & Hc)|[Hij Hd]].
  - rewrite Nat.ltb_irrefl. apply Hend.
    + by rewrite up_perm, swap_perm.
    + rewrite (up_keeps n) by (rewrite ?Swap_length; lia). done.
    + apply up_ok; [rewrite Swap_length; lia|lia|lia|]. split.
      * intros k Hk' Hki. destruct (decide (parent k = i)) as [E|E]; [rewrite E; by apply Hc|]. apply Hinv; lia || done.
      * intros c Hc' Ec Hi. apply Hinv; lia || done.
  - destruct (Nat.ltb_spec i j); [|lia]. apply Hend; [by rewrite Hp, swap_perm|by rewrite Hk|done].
Qed.

(** A new root is moved to its place. *)
Lemma Fix_root_ok l x y : heap_ok l -> l !! 0%nat = Some x ->
  exists l', Fix less (<[0%nat := y]> l) 0 = l' /\ x :: l' ≡ₚ y :: l /\ heap_ok l'.
Proof.
  intros Ho Hx. pose proof (lookup_lt_Some _ _ _ Hx) as Hlt. set (h := <[0%nat := y]> l).
  assert (length h = length l) as Hl by apply length_insert. unfold Fix, Down. rewrite Hl.
  pose proof (down_perm (length l) h 0 (length l)) as Hp.
  pose proof (down_spec 0 (length l) (length l) h 0 ltac:(lia) ltac:(lia) ltac:(lia)) as Hd.
  assert (forall k, (k <> 0)%nat -> h !! k = l !! k) as Hh by (intros k Hk; by apply list_lookup_insert_ne).
  assert (forall k, (0 < k < length l)%nat -> parent k <> 0%nat -> below h (parent k) k) as Hrest.
  { intros k Hk Hp0 a b. rewrite !Hh by lia. apply Ho; lia. }
  destruct (down less (length l) h 0 (length l)) as [l' j]. cbn [fst] in *. destruct Hd as [_ Hd]; [split; [auto|lia]|].
  assert (heap_ok l') as Ho'.
  { unfold heap_ok. rewrite (Permutation_length Hp), Hl. destruct Hd as [(-> & -> & Hc)|[_ Hd]]; [|done].
    intros k Hk _. destruct (decide (parent k = 0%nat)) as [E|E]; [rewrite E; by apply Hc|by apply Hrest]. }
  eexists. split; [done|]. destruct (0 <? j)%nat.
  - split; [|done]. rewrite Hp. by apply insert_perm.
  - cbn [up Nat.add]. change (parent 0) with 0%nat. cbn [Nat.eqb orb]. split; [|done]. rewrite Hp. by apply insert_perm.
Qed.
End heap.
