(* ===== verification/Keccak.v ===== *)
(** * crypto/sha3: the Keccak permutation and the sponge

    [keccakf.go] (the portable permutation, four rounds of the loop written
    out), [sha3.go] (the sponge), [xor_generic.go], [xor_unaligned.go],
    [hashes.go], [shake.go], and the helpers of [crypto/crypto.go] on top.  A
    [uint64] is a [Z] below 2^64.  The assembly of [keccakf_amd64.s] is not
    modelled. *)

From Stdlib Require Import ZArith Lia Bool.
From S2P Require Import Prelude GoMath.
Local Open Scope Z_scope.

(** ** keccakf.go *)

Definition rc : list Z :=
  [0x0000000000000001; 0x0000000000008082; 0x800000000000808A; 0x8000000080008000;
   0x000000000000808B; 0x0000000080000001; 0x8000000080008081; 0x8000000000008009;
   0x000000000000008A; 0x0000000000000088; 0x0000000080008009; 0x000000008000000A;
   0x000000008000808B; 0x800000000000008B; 0x8000000000008089; 0x8000000000008003;
   0x8000000000008002; 0x8000000000000080; 0x000000000000800A; 0x800000008000000A;
   0x8000000080008081; 0x8000000000008080; 0x0000000080000001; 0x8000000080008008].

Declare Scope word_scope.
Local Open Scope word_scope.
Local Notation "x ^^ y" := (Z.lxor x y) (at level 50, left associativity) : word_scope.
Local Notation "x &^ y" := (Z.ldiff x y) (at level 40, left associativity) : word_scope.

(** [t << n | t >> (64 - n)]. *)
Definition rotl (t n : Z) : Z := Z.lor (u64 (Z.shiftl t n)) (Z.shiftr t (64 - n)).

(** Round 1 of the unrolled loop. *)
Definition round1 (rci : Z) (a : list Z) : list Z :=
  match a with
  | [a0; a1; a2; a3; a4; a5; a6; a7; a8; a9; a10; a11; a12; a13; a14; a15; a16; a17; a18; a19;
     a20; a21; a22; a23; a24] =>
      let bc0 := a0 ^^ a5 ^^ a10 ^^ a15 ^^ a20 in
      let bc1 := a1 ^^ a6 ^^ a11 ^^ a16 ^^ a21 in
      let bc2 := a2 ^^ a7 ^^ a12 ^^ a17 ^^ a22 in
      let bc3 := a3 ^^ a8 ^^ a13 ^^ a18 ^^ a23 in
      let bc4 := a4 ^^ a9 ^^ a14 ^^ a19 ^^ a24 in
      let d0 := bc4 ^^ rotl bc1 1 in
      let d1 := bc0 ^^ rotl bc2 1 in
      let d2 := bc1 ^^ rotl bc3 1 in
      let d3 := bc2 ^^ rotl bc4 1 in
      let d4 := bc3 ^^ rotl bc0 1 in

      let bc0 := a0 ^^ d0 in
      let t := a6 ^^ d1 in
      let bc1 := rotl t 44 in
      let t := a12 ^^ d2 in
      let bc2 := rotl t 43 in
      let t := a18 ^^ d3 in
      let bc3 := rotl t 21 in
      let t := a24 ^^ d4 in
      let bc4 := rotl t 14 in
      let a0 := bc0 ^^ (bc2 &^ bc1) ^^ rci in
      let a6 := bc1 ^^ (bc3 &^ bc2) in
      let a12 := bc2 ^^ (bc4 &^ bc3) in
      let a18 := bc3 ^^ (bc0 &^ bc4) in
      let a24 := bc4 ^^ (bc1 &^ bc0) in

      let t := a10 ^^ d0 in
      let bc2 := rotl t 3 in
      let t := a16 ^^ d1 in
      let bc3 := rotl t 45 in
      let t := a22 ^^ d2 in
      let bc4 := rotl t 61 in
      let t := a3 ^^ d3 in
      let bc0 := rotl t 28 in
      let t := a9 ^^ d4 in
      let bc1 := rotl t 20 in
      let a10 := bc0 ^^ (bc2 &^ bc1) in
      let a16 := bc1 ^^ (bc3 &^ bc2) in
      let a22 := bc2 ^^ (bc4 &^ bc3) in
      let a3 := bc3 ^^ (bc0 &^ bc4) in
      let a9 := bc4 ^^ (bc1 &^ bc0) in

      let t := a20 ^^ d0 in
      let bc4 := rotl t 18 in
      let t := a1 ^^ d1 in
      let bc0 := rotl t 1 in
      let t := a7 ^^ d2 in
      let bc1 := rotl t 6 in
      let t := a13 ^^ d3 in
      let bc2 := rotl t 25 in
      let t := a19 ^^ d4 in
      let bc3 := rotl t 8 in
      let a20 := bc0 ^^ (bc2 &^ bc1) in
      let a1 := bc1 ^^ (bc3 &^ bc2) in
      let a7 := bc2 ^^ (bc4 &^ bc3) in
      let a13 := bc3 ^^ (bc0 &^ bc4) in
      let a19 := bc4 ^^ (bc1 &^ bc0) in

      let t := a5 ^^ d0 in
      let bc1 := rotl t 36 in
      let t := a11 ^^ d1 in
      let bc2 := rotl t 10 in
      let t := a17 ^^ d2 in
      let bc3 := rotl t 15 in
      let t := a23 ^^ d3 in
      let bc4 := rotl t 56 in
      let t := a4 ^^ d4 in
      let bc0 := rotl t 27 in
      let a5 := bc0 ^^ (bc2 &^ bc1) in
      let a11 := bc1 ^^ (bc3 &^ bc2) in
      let a17 := bc2 ^^ (bc4 &^ bc3) in
      let a23 := bc3 ^^ (bc0 &^ bc4) in
      let a4 := bc4 ^^ (bc1 &^ bc0) in

      let t := a15 ^^ d0 in
      let bc3 := rotl t 41 in
      let t := a21 ^^ d1 in
      let bc4 := rotl t 2 in
      let t := a2 ^^ d2 in
      let bc0 := rotl t 62 in
      let t := a8 ^^ d3 in
      let bc1 := rotl t 55 in
      let t := a14 ^^ d4 in
      let bc2 := rotl t 39 in
      let a15 := bc0 ^^ (bc2 &^ bc1) in
      let a21 := bc1 ^^ (bc3 &^ bc2) in
      let a2 := bc2 ^^ (bc4 &^ bc3) in
      let a8 := bc3 ^^ (bc0 &^ bc4) in
      let a14 := bc4 ^^ (bc1 &^ bc0) in
      [a0; a1; a2; a3; a4; a5; a6; a7; a8; a9; a10; a11; a12; a13; a14; a15; a16; a17; a18; a19;
         a20; a21; a22; a23; a24]
  | _ => a
  end.

(** Round 2 of the unrolled loop. *)
Definition round2 (rci : Z) (a : list Z) : list Z :=
  match a with
  | [a0; a1; a2; a3; a4; a5; a6; a7; a8; a9; a10; a11; a12; a13; a14; a15; a16; a17; a18; a19;
     a20; a21; a22; a23; a24] =>
      let bc0 := a0 ^^ a5 ^^ a10 ^^ a15 ^^ a20 in
      let bc1 := a1 ^^ a6 ^^ a11 ^^ a16 ^^ a21 in
      let bc2 := a2 ^^ a7 ^^ a12 ^^ a17 ^^ a22 in
      let bc3 := a3 ^^ a8 ^^ a13 ^^ a18 ^^ a23 in
      let bc4 := a4 ^^ a9 ^^ a14 ^^ a19 ^^ a24 in
      let d0 := bc4 ^^ rotl bc1 1 in
      let d1 := bc0 ^^ rotl bc2 1 in
      let d2 := bc1 ^^ rotl bc3 1 in
      let d3 := bc2 ^^ rotl bc4 1 in
      let d4 := bc3 ^^ rotl bc0 1 in

      let bc0 := a0 ^^ d0 in
      let t := a16 ^^ d1 in
      let bc1 := rotl t 44 in
      let t := a7 ^^ d2 in
      let bc2 := rotl t 43 in
      let t := a23 ^^ d3 in
      let bc3 := rotl t 21 in
      let t := a14 ^^ d4 in
      let bc4 := rotl t 14 in
      let a0 := bc0 ^^ (bc2 &^ bc1) ^^ rci in
      let a16 := bc1 ^^ (bc3 &^ bc2) in
      let a7 := bc2 ^^ (bc4 &^ bc3) in
      let a23 := bc3 ^^ (bc0 &^ bc4) in
      let a14 := bc4 ^^ (bc1 &^ bc0) in

      let t := a20 ^^ d0 in
      let bc2 := rotl t 3 in
      let t := a11 ^^ d1 in
      let bc3 := rotl t 45 in
      let t := a2 ^^ d2 in
      let bc4 := rotl t 61 in
      let t := a18 ^^ d3 in
      let bc0 := rotl t 28 in
      let t := a9 ^^ d4 in
      let bc1 := rotl t 20 in
      let a20 := bc0 ^^ (bc2 &^ bc1) in
      let a11 := bc1 ^^ (bc3 &^ bc2) in
      let a2 := bc2 ^^ (bc4 &^ bc3) in
      let a18 := bc3 ^^ (bc0 &^ bc4) in
      let a9 := bc4 ^^ (bc1 &^ bc0) in

      let t := a15 ^^ d0 in
      let bc4 := rotl t 18 in
      let t := a6 ^^ d1 in
      let bc0 := rotl t 1 in
      let t := a22 ^^ d2 in
      let bc1 := rotl t 6 in
      let t := a13 ^^ d3 in
      let bc2 := rotl t 25 in
      let t := a4 ^^ d4 in
      let bc3 := rotl t 8 in
      let a15 := bc0 ^^ (bc2 &^ bc1) in
      let a6 := bc1 ^^ (bc3 &^ bc2) in
      let a22 := bc2 ^^ (bc4 &^ bc3) in
      let a13 := bc3 ^^ (bc0 &^ bc4) in
      let a4 := bc4 ^^ (bc1 &^ bc0) in

      let t := a10 ^^ d0 in
      let bc1 := rotl t 36 in
      let t := a1 ^^ d1 in
      let bc2 := rotl t 10 in
      let t := a17 ^^ d2 in
      let bc3 := rotl t 15 in
      let t := a8 ^^ d3 in
      let bc4 := rotl t 56 in
      let t := a24 ^^ d4 in
      let bc0 := rotl t 27 in
      let a10 := bc0 ^^ (bc2 &^ bc1) in
      let a1 := bc1 ^^ (bc3 &^ bc2) in
      let a17 := bc2 ^^ (bc4 &^ bc3) in
      let a8 := bc3 ^^ (bc0 &^ bc4) in
      let a24 := bc4 ^^ (bc1 &^ bc0) in

      let t := a5 ^^ d0 in
      let bc3 := rotl t 41 in
      let t := a21 ^^ d1 in
      let bc4 := rotl t 2 in
      let t := a12 ^^ d2 in
      let bc0 := rotl t 62 in
      let t := a3 ^^ d3 in
      let bc1 := rotl t 55 in
      let t := a19 ^^ d4 in
      let bc2 := rotl t 39 in
      let a5 := bc0 ^^ (bc2 &^ bc1) in
      let a21 := bc1 ^^ (bc3 &^ bc2) in
      let a12 := bc2 ^^ (bc4 &^ bc3) in
      let a3 := bc3 ^^ (bc0 &^ bc4) in
      let a19 := bc4 ^^ (bc1 &^ bc0) in
      [a0; a1; a2; a3; a4; a5; a6; a7; a8; a9; a10; a11; a12; a13; a14; a15; a16; a17; a18; a19;
         a20; a21; a22; a23; a24]
  | _ => a
  end.

(** Round 3 of the unrolled loop. *)
Definition round3 (rci : Z) (a : list Z) : list Z :=
  match a with
  | [a0; a1; a2; a3; a4; a5; a6; a7; a8; a9; a10; a11; a12; a13; a14; a15; a16; a17; a18; a19;
     a20; a21; a22; a23; a24] =>
      let bc0 := a0 ^^ a5 ^^ a10 ^^ a15 ^^ a20 in
      let bc1 := a1 ^^ a6 ^^ a11 ^^ a16 ^^ a21 in
      let bc2 := a2 ^^ a7 ^^ a12 ^^ a17 ^^ a22 in
      let bc3 := a3 ^^ a8 ^^ a13 ^^ a18 ^^ a23 in
      let bc4 := a4 ^^ a9 ^^ a14 ^^ a19 ^^ a24 in
      let d0 := bc4 ^^ rotl bc1 1 in
      let d1 := bc0 ^^ rotl bc2 1 in
      let d2 := bc1 ^^ rotl bc3 1 in
      let d3 := bc2 ^^ rotl bc4 1 in
      let d4 := bc3 ^^ rotl bc0 1 in

      let bc0 := a0 ^^ d0 in
      let t := a11 ^^ d1 in
      let bc1 := rotl t 44 in
      let t := a22 ^^ d2 in
      let bc2 := rotl t 43 in
      let t := a8 ^^ d3 in
      let bc3 := rotl t 21 in
      let t := a19 ^^ d4 in
      let bc4 := rotl t 14 in
      let a0 := bc0 ^^ (bc2 &^ bc1) ^^ rci in
      let a11 := bc1 ^^ (bc3 &^ bc2) in
      let a22 := bc2 ^^ (bc4 &^ bc3) in
      let a8 := bc3 ^^ (bc0 &^ bc4) in
      let a19 := bc4 ^^ (bc1 &^ bc0) in

      let t := a15 ^^ d0 in
      let bc2 := rotl t 3 in
      let t := a1 ^^ d1 in
      let bc3 := rotl t 45 in
      let t := a12 ^^ d2 in
      let bc4 := rotl t 61 in
      let t := a23 ^^ d3 in
      let bc0 := rotl t 28 in
      let t := a9 ^^ d4 in
      let bc1 := rotl t 20 in
      let a15 := bc0 ^^ (bc2 &^ bc1) in
      let a1 := bc1 ^^ (bc3 &^ bc2) in
      let a12 := bc2 ^^ (bc4 &^ bc3) in
      let a23 := bc3 ^^ (bc0 &^ bc4) in
      let a9 := bc4 ^^ (bc1 &^ bc0) in

      let t := a5 ^^ d0 in
      let bc4 := rotl t 18 in
      let t := a16 ^^ d1 in
      let bc0 := rotl t 1 in
      let t := a2 ^^ d2 in
      let bc1 := rotl t 6 in
      let t := a13 ^^ d3 in
      let bc2 := rotl t 25 in
      let t := a24 ^^ d4 in
      let bc3 := rotl t 8 in
      let a5 := bc0 ^^ (bc2 &^ bc1) in
      let a16 := bc1 ^^ (bc3 &^ bc2) in
      let a2 := bc2 ^^ (bc4 &^ bc3) in
      let a13 := bc3 ^^ (bc0 &^ bc4) in
      let a24 := bc4 ^^ (bc1 &^ bc0) in

      let t := a20 ^^ d0 in
      let bc1 := rotl t 36 in
      let t := a6 ^^ d1 in
      let bc2 := rotl t 10 in
      let t := a17 ^^ d2 in
      let bc3 := rotl t 15 in
      let t := a3 ^^ d3 in
      let bc4 := rotl t 56 in
      let t := a14 ^^ d4 in
      let bc0 := rotl t 27 in
      let a20 := bc0 ^^ (bc2 &^ bc1) in
      let a6 := bc1 ^^ (bc3 &^ bc2) in
      let a17 := bc2 ^^ (bc4 &^ bc3) in
      let a3 := bc3 ^^ (bc0 &^ bc4) in
      let a14 := bc4 ^^ (bc1 &^ bc0) in

      let t := a10 ^^ d0 in
      let bc3 := rotl t 41 in
      let t := a21 ^^ d1 in
      let bc4 := rotl t 2 in
      let t := a7 ^^ d2 in
      let bc0 := rotl t 62 in
      let t := a18 ^^ d3 in
      let bc1 := rotl t 55 in
      let t := a4 ^^ d4 in
      let bc2 := rotl t 39 in
      let a10 := bc0 ^^ (bc2 &^ bc1) in
      let a21 := bc1 ^^ (bc3 &^ bc2) in
      let a7 := bc2 ^^ (bc4 &^ bc3) in
      let a18 := bc3 ^^ (bc0 &^ bc4) in
      let a4 := bc4 ^^ (bc1 &^ bc0) in
      [a0; a1; a2; a3; a4; a5; a6; a7; a8; a9; a10; a11; a12; a13; a14; a15; a16; a17; a18; a19;
         a20; a21; a22; a23; a24]
  | _ => a
  end.

(** Round 4 of the unrolled loop. *)
Definition round4 (rci : Z) (a : list Z) : list Z :=
  match a with
  | [a0; a1; a2; a3; a4; a5; a6; a7; a8; a9; a10; a11; a12; a13; a14; a15; a16; a17; a18; a19;
     a20; a21; a22; a23; a24] =>
      let bc0 := a0 ^^ a5 ^^ a10 ^^ a15 ^^ a20 in
      let bc1 := a1 ^^ a6 ^^ a11 ^^ a16 ^^ a21 in
      let bc2 := a2 ^^ a7 ^^ a12 ^^ a17 ^^ a22 in
      let bc3 := a3 ^^ a8 ^^ a13 ^^ a18 ^^ a23 in
      let bc4 := a4 ^^ a9 ^^ a14 ^^ a19 ^^ a24 in
      let d0 := bc4 ^^ rotl bc1 1 in
      let d1 := bc0 ^^ rotl bc2 1 in
      let d2 := bc1 ^^ rotl bc3 1 in
      let d3 := bc2 ^^ rotl bc4 1 in
      let d4 := bc3 ^^ rotl bc0 1 in

      let bc0 := a0 ^^ d0 in
      let t := a1 ^^ d1 in
      let bc1 := rotl t 44 in
      let t := a2 ^^ d2 in
      let bc2 := rotl t 43 in
      let t := a3 ^^ d3 in
      let bc3 := rotl t 21 in
      let t := a4 ^^ d4 in
      let bc4 := rotl t 14 in
      let a0 := bc0 ^^ (bc2 &^ bc1) ^^ rci in
      let a1 := bc1 ^^ (bc3 &^ bc2) in
      let a2 := bc2 ^^ (bc4 &^ bc3) in
      let a3 := bc3 ^^ (bc0 &^ bc4) in
      let a4 := bc4 ^^ (bc1 &^ bc0) in

      let t := a5 ^^ d0 in
      let bc2 := rotl t 3 in
      let t := a6 ^^ d1 in
      let bc3 := rotl t 45 in
      let t := a7 ^^ d2 in
      let bc4 := rotl t 61 in
      let t := a8 ^^ d3 in
      let bc0 := rotl t 28 in
      let t := a9 ^^ d4 in
      let bc1 := rotl t 20 in
      let a5 := bc0 ^^ (bc2 &^ bc1) in
      let a6 := bc1 ^^ (bc3 &^ bc2) in
      let a7 := bc2 ^^ (bc4 &^ bc3) in
      let a8 := bc3 ^^ (bc0 &^ bc4) in
      let a9 := bc4 ^^ (bc1 &^ bc0) in

      let t := a10 ^^ d0 in
      let bc4 := rotl t 18 in
      let t := a11 ^^ d1 in
      let bc0 := rotl t 1 in
      let t := a12 ^^ d2 in
      let bc1 := rotl t 6 in
      let t := a13 ^^ d3 in
      let bc2 := rotl t 25 in
      let t := a14 ^^ d4 in
      let bc3 := rotl t 8 in
      let a10 := bc0 ^^ (bc2 &^ bc1) in
      let a11 := bc1 ^^ (bc3 &^ bc2) in
      let a12 := bc2 ^^ (bc4 &^ bc3) in
      let a13 := bc3 ^^ (bc0 &^ bc4) in
      let a14 := bc4 ^^ (bc1 &^ bc0) in

      let t := a15 ^^ d0 in
      let bc1 := rotl t 36 in
      let t := a16 ^^ d1 in
      let bc2 := rotl t 10 in
      let t := a17 ^^ d2 in
      let bc3 := rotl t 15 in
      let t := a18 ^^ d3 in
      let bc4 := rotl t 56 in
      let t := a19 ^^ d4 in
      let bc0 := rotl t 27 in
      let a15 := bc0 ^^ (bc2 &^ bc1) in
      let a16 := bc1 ^^ (bc3 &^ bc2) in
      let a17 := bc2 ^^ (bc4 &^ bc3) in
      let a18 := bc3 ^^ (bc0 &^ bc4) in
      let a19 := bc4 ^^ (bc1 &^ bc0) in

      let t := a20 ^^ d0 in
      let bc3 := rotl t 41 in
      let t := a21 ^^ d1 in
      let bc4 := rotl t 2 in
      let t := a22 ^^ d2 in
      let bc0 := rotl t 62 in
      let t := a23 ^^ d3 in
      let bc1 := rotl t 55 in
      let t := a24 ^^ d4 in
      let bc2 := rotl t 39 in
      let a20 := bc0 ^^ (bc2 &^ bc1) in
      let a21 := bc1 ^^ (bc3 &^ bc2) in
      let a22 := bc2 ^^ (bc4 &^ bc3) in
      let a23 := bc3 ^^ (bc0 &^ bc4) in
      let a24 := bc4 ^^ (bc1 &^ bc0) in
      [a0; a1; a2; a3; a4; a5; a6; a7; a8; a9; a10; a11; a12; a13; a14; a15; a16; a17; a18; a19;
         a20; a21; a22; a23; a24]
  | _ => a
  end.

(** One pass of the loop: the rounds [i], [i+1], [i+2] and [i+3]. *)
Definition fourRounds (a : list Z) (i : nat) : list Z :=
  let rci k := nth (i + k) rc 0 in
  round4 (rci 3%nat) (round3 (rci 2%nat) (round2 (rci 1%nat) (round1 (rci 0%nat) a))).

Definition keccakF1600 (a : list Z) : list Z :=
  fold_left fourRounds [0; 4; 8; 12; 16; 20]%nat a.

(** ** xor_generic.go, xor_unaligned.go *)

(** [binary.LittleEndian]. *)
Definition Uint64LE (b : list byte) : Z := SetBytes (rev (take 8 b)).
Definition PutUint64LE (w : Z) : list byte := rev (be_bytes 8 w).

(** [d.a\[i\] ^= w]. *)
Definition xorAt (i : nat) (w : Z) (a : list Z) : option (list Z) :=
  match a !! i with Some x => Some (<[i := Z.lxor x w]> a) | None => None end.

Fixpoint xorWords (n i : nat) (buf : list byte) (a : list Z) : option (list Z) :=
  match n with
  | O => Some a
  | S n =>
      match xorAt i (Uint64LE buf) a with
      | Some a => xorWords n (S i) (drop 8 buf) a
      | None => None
      end
  end.

Definition xorInGeneric (a : list Z) (buf : list byte) : option (list Z) :=
  xorWords (length buf / 8) 0 buf a.

(** The words of the state over the bytes of [b]; a rest of [b] shorter than a
    word keeps its content. *)
Fixpoint copyWords (n : nat) (a : list Z) (b : list byte) : option (list byte) :=
  match n with
  | O => Some b
  | S n =>
      match a with
      | [] => None
      | w :: a =>
          match copyWords n a (drop 8 b) with
          | Some r => Some (PutUint64LE w ++ r)
          | None => None
          end
      end
  end.

Definition copyOutGeneric (a : list Z) (b : list byte) : option (list byte) :=
  copyWords (length b / 8) a b.

(** [xorInUnaligned]: the words of the buffer are read through a pointer; here
    on a little-endian machine. *)
Fixpoint xorRange (i n : nat) (buf : list byte) (a : list Z) : option (list Z) :=
  match n with
  | O => Some a
  | S n =>
      match xorAt i (Uint64LE (drop (8 * i) buf)) a with
      | Some a => xorRange (S i) n buf a
      | None => None
      end
  end.

Definition xorIf (c : bool) (i n : nat) (buf : list byte) (a : option (list Z)) : option (list Z) :=
  match a with
  | Some a => if c then xorRange i n buf a else Some a
  | None => None
  end.

Definition xorInUnaligned (a : list Z) (buf : list byte) : option (list Z) :=
  let n := length buf in
  let a := xorIf (72 <=? n)%nat 0 9 buf (Some a) in
  let a := xorIf (104 <=? n)%nat 9 4 buf a in
  let a := xorIf (136 <=? n)%nat 13 4 buf a in
  let a := xorIf (144 <=? n)%nat 17 1 buf a in
  xorIf (168 <=? n)%nat 18 3 buf a.

(** The bytes of the state, as far as they go, over [b]. *)
Definition copyOutUnaligned (a : list Z) (b : list byte) : list byte :=
  let ab := take 168 (concat (map PutUint64LE a)) in
  take (length b) ab ++ drop (length ab) b.

(** ** sha3.go *)

Inductive spongeDirection := spongeAbsorbing | spongeSqueezing.

Definition maxRate : nat := 168.

(** [buf] is [storage\[off : off+len\]]; a nil [buf] is the empty one. *)
Record state := mkState {
  sp_a : list Z;
  sp_off : nat;
  sp_len : nat;
  sp_rate : nat;
  sp_dsbyte : byte;
  sp_storage : list byte;
  sp_outputLen : nat;
  sp_state : spongeDirection
}.

Definition newState (rate outputLen : nat) (dsbyte : byte) : state :=
  mkState (replicate 25 0) 0 0 rate dsbyte (replicate maxRate x00) outputLen spongeAbsorbing.

Definition set_a (a : list Z) (d : state) : state :=
  mkState a (sp_off d) (sp_len d) (sp_rate d) (sp_dsbyte d) (sp_storage d) (sp_outputLen d) (sp_state d).
Definition set_buf (off len : nat) (d : state) : state :=
  mkState (sp_a d) off len (sp_rate d) (sp_dsbyte d) (sp_storage d) (sp_outputLen d) (sp_state d).
Definition set_storage (s : list byte) (d : state) : state :=
  mkState (sp_a d) (sp_off d) (sp_len d) (sp_rate d) (sp_dsbyte d) s (sp_outputLen d) (sp_state d).
Definition set_dir (s : spongeDirection) (d : state) : state :=
  mkState (sp_a d) (sp_off d) (sp_len d) (sp_rate d) (sp_dsbyte d) (sp_storage d) (sp_outputLen d) s.

(** The bytes of [d.buf]. *)
Definition bufOf (d : state) : list byte := take (sp_len d) (drop (sp_off d) (sp_storage d)).

(** Writing [b] at position [p] of the storage. *)
Definition storeAt (p : nat) (b : list byte) (d : state) : state :=
  set_storage (take p (sp_storage d) ++ b ++ drop (p + length b) (sp_storage d)) d.

(** [d.buf = append(d.buf, b...)], within the storage. *)
Definition appendBuf (b : list byte) (d : state) : state :=
  set_buf (sp_off d) (sp_len d + length b) (storeAt (sp_off d + sp_len d) b d).

Local Open Scope go_scope.

Definition BlockSize (d : state) : nat := sp_rate d.
Definition Size (d : state) : nat := sp_outputLen d.

Definition Reset (d : state) : state :=
  set_buf 0 0 (set_dir spongeAbsorbing (set_a (replicate (length (sp_a d)) 0) d)).

(** The slice expression panics on a negative bound; the capacity of [d.buf]
    is what is left of the storage. *)
Definition clone (d : state) : option state :=
  match sp_state d with
  | spongeAbsorbing => Some (set_buf 0 (sp_len d) d)
  | spongeSqueezing =>
      let cap := (maxRate - sp_off d)%nat in
      if (cap <=? sp_rate d)%nat
      then Some (set_buf (sp_rate d - cap) cap d)
      else None
  end.

Section sponge.
(** [xorIn] and [copyOut] are variables of the package, one pair per machine. *)
Variable xorIn : list Z -> list byte -> option (list Z).
Variable copyOut : list Z -> list byte -> option (list byte).

Definition xorInM (b : list byte) : M state unit :=
  let* d := get in
  let* a := must (xorIn (sp_a d) b) in
  put (set_a a d).

Definition keccakM : M state unit := modify (fun d => set_a (keccakF1600 (sp_a d)) d).

(** [d.buf = d.storage\[:d.rate\]; copyOut(d, d.buf)]. *)
Definition copyOutM : M state unit :=
  modify (fun d => set_buf 0 (sp_rate d) d) ;;
  let* d := get in
  let* b := must (copyOut (sp_a d) (bufOf d)) in
  put (storeAt 0 b d).

Definition permute : M state unit :=
  let* d := get in
  match sp_state d with
  | spongeAbsorbing =>
      xorInM (bufOf d) ;;
      modify (set_buf 0 0) ;;
      keccakM
  | spongeSqueezing => keccakM ;; copyOutM
  end.

(** [x ^= 0x80]. *)
Definition flipTop (x : byte) : byte := Zbyte (Z.lxor (byteZ x) 0x80).

Definition padAndPermute (dsbyte : byte) : M state unit :=
  modify (appendBuf [dsbyte]) ;;
  let* d := get in
  let zerosStart := sp_len d in
  put (storeAt zerosStart (replicate (sp_rate d - zerosStart) x00) (set_buf 0 (sp_rate d) d)) ;;
  let* d := get in
  let* last := must (bufOf d !! (sp_rate d - 1)%nat) in
  put (storeAt (sp_rate d - 1) [flipTop last] d) ;;
  permute ;;
  modify (set_dir spongeSqueezing) ;;
  copyOutM.

(** Every round takes something off [p]. *)
Fixpoint writeLoop (fuel : nat) (p : list byte) : M state unit :=
  match p with
  | [] => ret tt
  | _ =>
      match fuel with
      | O => fun _ => OutOfFuel
      | S fuel =>
          let* d := get in
          if (sp_len d =? 0)%nat && (sp_rate d <=? length p)%nat then
            xorInM (take (sp_rate d) p) ;;
            keccakM ;;
            writeLoop fuel (drop (sp_rate d) p)
          else
            let todo := Nat.min (sp_rate d - sp_len d) (length p) in
            modify (appendBuf (take todo p)) ;;
            let* d := get in
            (if (sp_len d =? sp_rate d)%nat then permute else ret tt) ;;
            writeLoop fuel (drop todo p)
      end
  end.

Definition Write (p : list byte) : M state unit :=
  let* d := get in
  match sp_state d with
  | spongeAbsorbing => writeLoop (length p) p
  | spongeSqueezing => panic
  end.

(** [n] bytes are still to be written to [out]. *)
Fixpoint readLoop (fuel n : nat) : M state (list byte) :=
  match n with
  | O => ret []
  | _ =>
      match fuel with
      | O => fun _ => OutOfFuel
      | S fuel =>
          let* d := get in
          let k := Nat.min n (sp_len d) in
          let b := take k (bufOf d) in
          put (set_buf (sp_off d + k) (sp_len d - k) d) ;;
          let* d := get in
          (if (sp_len d =? 0)%nat then permute else ret tt) ;;
          let* out := readLoop fuel (n - k) in
          ret (b ++ out)
      end
  end.

(** [Read] into a slice of [n] bytes. *)
Definition Read (n : nat) : M state (list byte) :=
  let* d := get in
  (match sp_state d with
   | spongeAbsorbing => padAndPermute (sp_dsbyte d)
   | spongeSqueezing => ret tt
   end) ;;
  readLoop n n.

(** [Sum] works on a copy. *)
Definition Sum (inp : list byte) (d : state) : outcome (list byte) :=
  match clone d with
  | None => Panic
  | Some dup =>
      match Read (sp_outputLen dup) dup with
      | Ret (hash, _) => Ret (inp ++ hash)
      | Panic => Panic
      | OutOfFuel => OutOfFuel
      end
  end.

(** ** hashes.go and shake.go *)

Definition NewKeccak256 : state := newState 136 32 x01.
Definition NewKeccak512 : state := newState 72 64 x01.
Definition New224 : state := newState 144 28 x06.
Definition New256 : state := newState 136 32 x06.
Definition New384 : state := newState 104 48 x06.
Definition New512 : state := newState 72 64 x06.
Definition NewShake128 : state := newState 168 0 x1f.
Definition NewShake256 : state := newState 136 0 x1f.

(** Writing [data] piece by piece to a fresh hash and summing up. *)
Definition writeAll (data : list (list byte)) : M state unit :=
  fold_right (fun b m => Write b ;; m) (ret tt) data.

Definition sumOf (h : state) (data : list (list byte)) (inp : list byte) : outcome (list byte) :=
  match writeAll data h with
  | Ret (_, h) => Sum inp h
  | Panic => Panic
  | OutOfFuel => OutOfFuel
  end.

Definition Sum224 (data : list byte) := sumOf New224 [data] [].
Definition Sum256 (data : list byte) := sumOf New256 [data] [].
Definition Sum384 (data : list byte) := sumOf New384 [data] [].
Definition Sum512 (data : list byte) := sumOf New512 [data] [].

Definition shakeSum (h : state) (n : nat) (data : list byte) : outcome (list byte) :=
  match (Write data ;; Read n) h with
  | Ret (hash, _) => Ret hash
  | Panic => Panic
  | OutOfFuel => OutOfFuel
  end.
Definition ShakeSum128 (n : nat) (data : list byte) := shakeSum NewShake128 n data.
Definition ShakeSum256 (n : nat) (data : list byte) := shakeSum NewShake256 n data.

(** ** crypto.go *)

Definition Keccak256 (data : list (list byte)) : outcome (list byte) := sumOf NewKeccak256 data [].
Definition Keccak512 (data : list (list byte)) : outcome (list byte) := sumOf NewKeccak512 data [].

(** [d.Sum(h\[:0\])] writes into the array of [h]. *)
Definition Keccak256Hash (data : list (list byte)) : outcome Hash :=
  match sumOf NewKeccak256 data [] with
  | Ret h => Ret (SetBytes h)
  | Panic => Panic
  | OutOfFuel => OutOfFuel
  end.
End sponge.

(** The hash of the empty string. *)
Example Keccak256_empty :
  Keccak256Hash xorInGeneric copyOutGeneric [[]]
  = Ret 0xc5d2460186f7233c927e7db2dcc703c0e500b653ca82273b7bfad8045d85a470.
Proof. vm_compute. reflexivity. Qed.
