(* ===== verification/KeccakSpec.v ===== *)
(** * The permutation against its definition

    [Fips202] is the permutation as the standard defines it, on the bits of the
    state: five step maps, the rotation offsets by the walk over the lanes and
    the round constants by the shift register.  Shown: the unrolled rounds of
    [keccakF1600], which leave every lane where its input was, compute it. *)

From Stdlib Require Import ZArith Lia Bool Btauto Setoid Morphisms.
From S2P Require Import Prelude GoMath Keccak.
Local Open Scope Z_scope.

(** ** The definition *)

Module Fips202.
Local Open Scope nat_scope.

(** [A x y z], with [x] and [y] below 5 and [z] below 64. *)
Definition bits : Type := nat -> nat -> nat -> bool.

Definition parity (A : bits) (x z : nat) : bool :=
  xorb (xorb (xorb (xorb (A x 0 z) (A x 1 z)) (A x 2 z)) (A x 3 z)) (A x 4 z).

Definition theta (A : bits) : bits := fun x y z =>
  xorb (A x y z) (xorb (parity A ((x + 4) mod 5) z) (parity A ((x + 1) mod 5) ((z + 63) mod 64))).

(** The walk of [rho]: lane and offset for each [t]. *)
Fixpoint walk (n t x y : nat) : list ((nat * nat) * nat) :=
  match n with
  | O => []
  | S n => ((x, y), ((t + 1) * (t + 2) / 2) mod 64) :: walk n (t + 1) y ((2 * x + 3 * y) mod 5)
  end.

Definition offset (x y : nat) : nat :=
  match find (fun e => (e.1.1 =? x) && (e.1.2 =? y)) (walk 24 0 1 0) with
  | Some e => e.2
  | None => 0
  end.

Definition rho (A : bits) : bits := fun x y z => A x y ((z + (64 - offset x y)) mod 64).
Definition pi (A : bits) : bits := fun x y z => A ((x + 3 * y) mod 5) x z.
Definition chi (A : bits) : bits := fun x y z =>
  xorb (A x y z) (negb (A ((x + 1) mod 5) y z) && A ((x + 2) mod 5) y z).

(** The shift register of the round constants. *)
Definition shift (R : list bool) : list bool :=
  match R with
  | [r0; r1; r2; r3; r4; r5; r6; r7] =>
      [r7; r0; r1; r2; xorb r3 r7; xorb r4 r7; xorb r5 r7; r6]
  | _ => R
  end.
Definition rcbit (t : nat) : bool :=
  nth 0 (Nat.iter (t mod 255) shift [true; false; false; false; false; false; false; false]) false.

Definition RC (ir z : nat) : bool :=
  existsb (fun j => (z =? 2 ^ j - 1) && rcbit (j + 7 * ir)) (seq 0 7).

Definition iota (ir : nat) (A : bits) : bits := fun x y z =>
  if (x =? 0) && (y =? 0) then xorb (A x y z) (RC ir z) else A x y z.

Definition Rnd (A : bits) (ir : nat) : bits := iota ir (chi (pi (rho (theta A)))).
Definition keccak_f (A : bits) : bits := fold_left Rnd (seq 0 24) A.

(** Equality of states. *)
Record eqv (A B : bits) : Prop := same {
  eqv_at : forall x y z, x < 5 -> y < 5 -> z < 64 -> A x y z = B x y z
}.

#[global] Instance eqv_equivalence : Equivalence eqv.
Proof.
  split; [done| |].
  - intros A B [H]. split. intros x y z Hx Hy Hz. by rewrite H.
  - intros A B C [H1] [H2]. split. intros x y z Hx Hy Hz. by rewrite H1, H2.
Qed.

Lemma mod5 n : n mod 5 < 5. Proof. by apply Nat.mod_upper_bound. Qed.
Lemma mod64 n : n mod 64 < 64. Proof. by apply Nat.mod_upper_bound. Qed.
#[local] Hint Resolve mod5 mod64 : core.

(** Every step map only looks at bits inside the state. *)
Ltac step_proper f := intros A B [H]; split; intros x y z Hx Hy Hz; unfold f; rewrite !H by (auto; lia); done.

#[global] Instance theta_proper : Proper (eqv ==> eqv) theta.
Proof. unfold theta. step_proper parity. Qed.
#[global] Instance rho_proper : Proper (eqv ==> eqv) rho.
Proof. step_proper rho. Qed.
#[global] Instance pi_proper : Proper (eqv ==> eqv) pi.
Proof. step_proper pi. Qed.
#[global] Instance chi_proper : Proper (eqv ==> eqv) chi.
Proof. step_proper chi. Qed.
#[global] Instance iota_proper ir : Proper (eqv ==> eqv) (iota ir).
Proof. step_proper iota. Qed.
#[global] Instance Rnd_proper : Proper (eqv ==> eq ==> eqv) Rnd.
Proof. intros A B H ir ? <-. unfold Rnd. by rewrite H. Qed.

Lemma rounds_proper l : Proper (eqv ==> eqv) (fold_left Rnd l).
Proof. induction l as [|ir l IH]; intros A B H; [done|]. cbn. apply IH. by rewrite H. Qed.
End Fips202.

(** ** The same on lanes *)

Definition at_ (a : list Z) (x y : nat) : Z := nth (x + 5 * y) a 0.

Definition tab (f : nat -> nat -> Z) : list Z :=
  flat_map (fun y => map (fun x => f x y) (seq 0 5)) (seq 0 5).

Definition lparity (a : list Z) (x : nat) : Z :=
  Z.lxor (Z.lxor (Z.lxor (Z.lxor (at_ a x 0) (at_ a x 1)) (at_ a x 2)) (at_ a x 3)) (at_ a x 4).

(** [theta] with the parities given. *)
Definition ltheta (p : nat -> Z) (a : list Z) : list Z := tab (fun x y =>
  Z.lxor (at_ a x y) (Z.lxor (p ((x + 4) mod 5)%nat) (rotl (p ((x + 1) mod 5)%nat) 1))).

Definition lrho (a : list Z) : list Z := tab (fun x y =>
  match Fips202.offset x y with O => at_ a x y | n => rotl (at_ a x y) (Z.of_nat n) end).

Definition lpi (a : list Z) : list Z := tab (fun x y => at_ a ((x + 3 * y) mod 5) x).

Definition lchi (a : list Z) : list Z := tab (fun x y =>
  Z.lxor (at_ a x y) (Z.ldiff (at_ a ((x + 2) mod 5) y) (at_ a ((x + 1) mod 5) y))).

Definition liota (rci : Z) (a : list Z) : list Z := tab (fun x y =>
  if (x =? 0)%nat && (y =? 0)%nat then Z.lxor (at_ a x y) rci else at_ a x y).

Definition lround (p : nat -> Z) (rci : Z) (a : list Z) : list Z :=
  liota rci (lchi (lpi (lrho (ltheta p a)))).
Definition lrnd (a : list Z) (j : nat) : list Z := lround (lparity a) (nth j rc 0) a.

(** ** The unrolled rounds *)

(** Where the code keeps the lane [x], [y] after [k] rounds. *)
Fixpoint place (k x y : nat) : nat :=
  match k with
  | O => x + 5 * y
  | S k => place k x ((x + 2 * y) mod 5)
  end.

(** The state after [k] rounds. *)
Definition logical (k : nat) (a : list Z) : list Z := tab (fun x y => nth (place k x y) a 0).

Lemma list25 (a : list Z) : length a = 25%nat ->
  exists a0 a1 a2 a3 a4 a5 a6 a7 a8 a9 a10 a11 a12 a13 a14 a15 a16 a17 a18 a19 a20 a21 a22 a23 a24,
  a = [a0; a1; a2; a3; a4; a5; a6; a7; a8; a9; a10; a11; a12; a13; a14; a15; a16; a17; a18; a19;
       a20; a21; a22; a23; a24].
Proof.
  intros H. do 25 (destruct a as [|? a]; [discriminate H|]). destruct a; [|discriminate H].
  by do 25 eexists.
Qed.

Ltac on_lanes H :=
  destruct (list25 _ H) as (a0 & a1 & a2 & a3 & a4 & a5 & a6 & a7 & a8 & a9 & a10 & a11 & a12 & a13 &
    a14 & a15 & a16 & a17 & a18 & a19 & a20 & a21 & a22 & a23 & a24 & ->).

Ltac one_round H := on_lanes H; cbv -[Z.lxor Z.ldiff rotl]; reflexivity.

Lemma round1_ok rci a :
  length a = 25%nat -> logical 1 (round1 rci a) = lround (lparity a) rci (logical 0 a).
Proof. intros H. one_round H. Qed.
Lemma round2_ok rci a :
  length a = 25%nat -> logical 2 (round2 rci a) = lround (lparity a) rci (logical 1 a).
Proof. intros H. one_round H. Qed.
Lemma round3_ok rci a :
  length a = 25%nat -> logical 3 (round3 rci a) = lround (lparity a) rci (logical 2 a).
Proof. intros H. one_round H. Qed.
Lemma round4_ok rci a :
  length a = 25%nat -> logical 4 (round4 rci a) = lround (lparity a) rci (logical 3 a).
Proof. intros H. one_round H. Qed.

(** Lanes stay in their column, so that the parities are the same. *)
Lemma lparity_logical k a x :
  length a = 25%nat -> (x < 5)%nat -> (k < 4)%nat -> lparity (logical k a) x = lparity a x.
Proof.
  intros H Hx Hk. on_lanes H. apply Z.bits_inj. intros z.
  do 5 (destruct x as [|x]; [do 4 (destruct k as [|k]; [by cbv -[Z.lxor Z.testbit xorb]; rewrite !Z.lxor_spec; btauto|]); lia|]).
  lia.
Qed.

Lemma tab_ext f g :
  (forall x y, (x < 5)%nat -> (y < 5)%nat -> f x y = g x y) -> tab f = tab g.
Proof. intros H. unfold tab. cbn. by rewrite !H by lia. Qed.

Lemma lround_logical k rci a :
  length a = 25%nat -> (k < 4)%nat ->
  lround (lparity a) rci (logical k a) = lround (lparity (logical k a)) rci (logical k a).
Proof.
  intros H Hk. unfold lround. do 4 f_equal. apply tab_ext. intros x y Hx Hy.
  rewrite !lparity_logical; [done|done|apply Nat.mod_upper_bound; lia|done|done|apply Nat.mod_upper_bound; lia|done].
Qed.

Lemma logical0 a : length a = 25%nat -> logical 0 a = a.
Proof. intros H. by on_lanes H. Qed.
Lemma logical4 a : length a = 25%nat -> logical 4 a = a.
Proof. intros H. by on_lanes H. Qed.

Lemma round_length rci a : length a = 25%nat ->
  length (round1 rci a) = 25%nat /\ length (round2 rci a) = 25%nat /\
  length (round3 rci a) = 25%nat /\ length (round4 rci a) = 25%nat.
Proof. intros H. by on_lanes H. Qed.

Lemma fourRounds_ok a i :
  length a = 25%nat ->
  fourRounds a i = fold_left lrnd [i; i + 1; i + 2; i + 3]%nat a /\
  length (fourRounds a i) = 25%nat.
Proof.
  intros H. unfold fourRounds. rewrite Nat.add_0_r. cbn [fold_left].
  destruct (round_length (nth i rc 0) a H) as (H1 & _).
  destruct (round_length (nth (i + 1) rc 0) _ H1) as (_ & H2 & _).
  destruct (round_length (nth (i + 2) rc 0) _ H2) as (_ & _ & H3 & _).
  destruct (round_length (nth (i + 3) rc 0) _ H3) as (_ & _ & _ & H4).
  split; [|done].
  pose proof (eq_trans (round1_ok (nth i rc 0) a H) (lround_logical 0 _ a H ltac:(lia))) as E1.
  pose proof (eq_trans (round2_ok (nth (i + 1) rc 0) _ H1) (lround_logical 1 _ _ H1 ltac:(lia))) as E2.
  pose proof (eq_trans (round3_ok (nth (i + 2) rc 0) _ H2) (lround_logical 2 _ _ H2 ltac:(lia))) as E3.
  pose proof (eq_trans (round4_ok (nth (i + 3) rc 0) _ H3) (lround_logical 3 _ _ H3 ltac:(lia))) as E4.
  generalize dependent (round4 (nth (i + 3) rc 0) (round3 (nth (i + 2) rc 0)
    (round2 (nth (i + 1) rc 0) (round1 (nth i rc 0) a)))). intros b4 H4 E4.
  generalize dependent (round3 (nth (i + 2) rc 0) (round2 (nth (i + 1) rc 0) (round1 (nth i rc 0) a))).
  intros b3 H3 E3 E4.
  generalize dependent (round2 (nth (i + 1) rc 0) (round1 (nth i rc 0) a)). intros b2 H2 E2 E3.
  generalize dependent (round1 (nth i rc 0) a). intros b1 H1 E1 E2.
  rewrite (logical0 a H) in E1. rewrite (logical4 b4 H4) in E4.
  unfold lrnd. rewrite <- E1, <- E2, <- E3, <- E4. reflexivity.
Qed.

Lemma keccakF1600_lanes a :
  length a = 25%nat ->
  keccakF1600 a = fold_left lrnd (seq 0 24) a /\ length (keccakF1600 a) = 25%nat.
Proof.
  intros H. unfold keccakF1600.
  assert (forall l a, length a = 25%nat ->
    fold_left fourRounds l a = fold_left lrnd (flat_map (fun i => [i; i + 1; i + 2; i + 3]) l)%nat a /\
    length (fold_left fourRounds l a) = 25%nat) as Hl.
  { clear. induction l as [|i l IH]; intros a H; [done|]. cbn [flat_map fold_left].
    destruct (fourRounds_ok a i H) as [E Hn]. destruct (IH _ Hn) as [E' Hn']. split; [|done].
    by rewrite fold_left_app, <- E, E'. }
  by apply Hl.
Qed.

(** ** Bits of the lanes *)

Definition bit_of (a : list Z) : Fips202.bits := fun x y z => Z.testbit (at_ a x y) (Z.of_nat z).

Definition words (a : list Z) : Prop := Forall is_u64 a.

Lemma tab_at f x y : (x < 5)%nat -> (y < 5)%nat -> at_ (tab f) x y = f x y.
Proof.
  intros Hx Hy. unfold at_. do 5 (destruct y as [|y]; [do 5 (destruct x as [|x]; [done|]); lia|]). lia.
Qed.

Lemma tab_length f : length (tab f) = 25%nat.
Proof. done. Qed.

Lemma tab_words f : (forall x y, (x < 5)%nat -> (y < 5)%nat -> is_u64 (f x y)) -> words (tab f).
Proof. intros H. unfold words, tab. cbn. repeat (constructor; [apply H; lia|]). constructor. Qed.

Lemma words_at a x y : words a -> is_u64 (at_ a x y).
Proof.
  intros H. unfold at_. destruct (nth_in_or_default (x + 5 * y) a 0) as [Hin| ->]; [|done].
  unfold words in H. rewrite List.Forall_forall in H. by apply H.
Qed.

Lemma is_u64_bits w : 0 <= w -> is_u64 w <-> (forall i, 64 <= i -> Z.testbit w i = false).
Proof.
  intros Hw. split.
  - intros [_ H] i Hi. destruct (Z.eq_dec w 0) as [->|]; [apply Z.testbit_0_l|].
    apply Z.bits_above_log2; [done|]. enough (Z.log2 w < 64) by lia. apply Z.log2_lt_pow2; [lia|].
    unfold u64_modulus in H. lia.
  - intros H. unfold is_u64. split; [done|]. destruct (Z.eq_dec w 0) as [->|]; [done|].
    destruct (Z.le_gt_cases (2 ^ 64) w) as [Hle|]; [|done]. exfalso.
    assert (Z.testbit w (Z.log2 w) = true) as Hb by (apply Z.bit_log2; lia).
    rewrite H in Hb; [done|]. apply Z.log2_le_pow2 in Hle; lia.
Qed.

Lemma lxor_u64 a b : is_u64 a -> is_u64 b -> is_u64 (Z.lxor a b).
Proof.
  intros Ha Hb. assert (0 <= Z.lxor a b) by (apply Z.lxor_nonneg; destruct Ha, Hb; lia).
  apply is_u64_bits; [done|]. intros i Hi. rewrite Z.lxor_spec.
  rewrite (proj1 (is_u64_bits a (proj1 Ha)) Ha i Hi), (proj1 (is_u64_bits b (proj1 Hb)) Hb i Hi). done.
Qed.

Lemma ldiff_u64 a b : is_u64 a -> is_u64 (Z.ldiff a b).
Proof.
  intros Ha. assert (0 <= Z.ldiff a b) by (apply Z.ldiff_nonneg; destruct Ha; lia).
  apply is_u64_bits; [done|]. intros i Hi. rewrite Z.ldiff_spec.
  by rewrite (proj1 (is_u64_bits a (proj1 Ha)) Ha i Hi).
Qed.

(** Rotation moves bit [i - n] to bit [i]. *)
Lemma rotl_bit t n i :
  is_u64 t -> 0 < n < 64 -> 0 <= i < 64 -> Z.testbit (rotl t n) i = Z.testbit t ((i + (64 - n)) mod 64).
Proof.
  intros Ht Hn Hi. unfold rotl, u64, u64_modulus. rewrite Z.lor_spec, Z.mod_pow2_bits_low by lia.
  rewrite Z.shiftl_spec, Z.shiftr_spec by lia. destruct (Z.ltb_spec i n) as [Hlt|Hge].
  - rewrite (Z.testbit_neg_r t (i - n)) by lia. cbn [orb]. rewrite Z.mod_small by lia. done.
  - rewrite (proj1 (is_u64_bits t (proj1 Ht)) Ht (i + (64 - n))) by lia. rewrite orb_false_r.
    replace (i + (64 - n)) with (i - n + 1 * 64) by lia. rewrite Z.mod_add, Z.mod_small by lia. done.
Qed.

Lemma rotl_u64 t n : is_u64 t -> 0 < n < 64 -> is_u64 (rotl t n).
Proof.
  intros Ht Hn. assert (0 <= rotl t n).
  { unfold rotl. apply Z.lor_nonneg. split; [apply Z.mod_pos_bound; done|].
    apply Z.shiftr_nonneg, Ht. }
  apply is_u64_bits; [done|]. intros i Hi. unfold rotl, u64, u64_modulus.
  rewrite Z.lor_spec, Z.mod_pow2_bits_high, Z.shiftr_spec by lia.
  by rewrite (proj1 (is_u64_bits t (proj1 Ht)) Ht) by lia.
Qed.

(** ** Each step *)

Local Notation "A ≃ B" := (Fips202.eqv A B) (at level 70).

Lemma m5 n : (n mod 5 < 5)%nat.
Proof. by apply Nat.mod_upper_bound. Qed.

Lemma lparity_u64 a x : words a -> is_u64 (lparity a x).
Proof. intros H. unfold lparity. repeat apply lxor_u64; by apply words_at. Qed.

Lemma lparity_bit a x z :
  Z.testbit (lparity a x) (Z.of_nat z) = Fips202.parity (bit_of a) x z.
Proof. unfold lparity, Fips202.parity, bit_of. by rewrite !Z.lxor_spec. Qed.

Lemma rotl_bit_nat t n z :
  is_u64 t -> (0 < n < 64)%nat -> (z < 64)%nat ->
  Z.testbit (rotl t (Z.of_nat n)) (Z.of_nat z) = Z.testbit t (Z.of_nat ((z + (64 - n)) mod 64)).
Proof.
  intros Ht Hn Hz. rewrite rotl_bit by (done || lia). f_equal.
  rewrite Nat2Z.inj_mod. f_equal. lia.
Qed.

Lemma ltheta_ok a : words a -> words (ltheta (lparity a) a) /\
  bit_of (ltheta (lparity a) a) ≃ Fips202.theta (bit_of a).
Proof.
  intros H. split.
  - apply tab_words. intros x y Hx Hy. apply lxor_u64; [by apply words_at|]. apply lxor_u64; [by apply lparity_u64|].
    apply rotl_u64; [by apply lparity_u64|lia].
  - split. intros x y z Hx Hy Hz. unfold bit_of at 1, ltheta. rewrite tab_at by done. rewrite !Z.lxor_spec.
    unfold Fips202.theta. rewrite lparity_bit. change 1 with (Z.of_nat 1).
    rewrite rotl_bit_nat by (lia || by apply lparity_u64). by rewrite lparity_bit.
Qed.

Lemma offset_lt x y : (Fips202.offset x y < 64)%nat.
Proof.
  unfold Fips202.offset. destruct (find _ _) as [e|] eqn:E; [|lia]. apply find_some in E as [E _].
  revert E. set (l := Fips202.walk _ _ _ _).
  assert (Forall (fun e => (e.2 < 64)%nat) l) as Hl.
  { apply (bool_decide_unpack _). by vm_compute. }
  rewrite List.Forall_forall in Hl. apply Hl.
Qed.

Lemma lrho_ok a : words a -> words (lrho a) /\ bit_of (lrho a) ≃ Fips202.rho (bit_of a).
Proof.
  intros H. split.
  - apply tab_words. intros x y Hx Hy. pose proof (offset_lt x y). destruct (Fips202.offset x y) eqn:E.
    + by apply words_at.
    + apply rotl_u64; [by apply words_at|lia].
  - split. intros x y z Hx Hy Hz. unfold bit_of at 1, lrho, Fips202.rho. rewrite tab_at by done.
    pose proof (offset_lt x y). destruct (Fips202.offset x y) as [|n] eqn:E.
    + unfold bit_of. do 2 f_equal. rewrite Nat.sub_0_r.
      replace (z + 64)%nat with (z + 1 * 64)%nat by lia. by rewrite Nat.Div0.mod_add, Nat.mod_small.
    + by rewrite rotl_bit_nat by (lia || by apply words_at).
Qed.

Lemma lpi_ok a : words a -> words (lpi a) /\ bit_of (lpi a) ≃ Fips202.pi (bit_of a).
Proof.
  intros H. split; [apply tab_words; intros; by apply words_at|].
  split. intros x y z Hx Hy Hz. unfold bit_of at 1, lpi. by rewrite tab_at.
Qed.

Lemma lchi_ok a : words a -> words (lchi a) /\ bit_of (lchi a) ≃ Fips202.chi (bit_of a).
Proof.
  intros H. split.
  - apply tab_words. intros x y Hx Hy. apply lxor_u64; [by apply words_at|]. by apply ldiff_u64, words_at.
  - split. intros x y z Hx Hy Hz. unfold bit_of at 1, lchi. rewrite tab_at by done.
    rewrite Z.lxor_spec, Z.ldiff_spec. unfold Fips202.chi, bit_of. by rewrite andb_comm.
Qed.

(** The table of round constants is the output of the shift register. *)
Lemma rc_bits ir z :
  (ir < 24)%nat -> (z < 64)%nat -> Z.testbit (nth ir rc 0) (Z.of_nat z) = Fips202.RC ir z.
Proof.
  intros Hi Hz.
  assert (forallb (fun ir => forallb (fun z =>
    eqb (Z.testbit (nth ir rc 0) (Z.of_nat z)) (Fips202.RC ir z)) (seq 0 64)) (seq 0 24) = true) as H
    by (vm_compute; reflexivity).
  rewrite forallb_forall in H. specialize (H ir). rewrite in_seq in H. specialize (H ltac:(lia)).
  rewrite forallb_forall in H. specialize (H z). rewrite in_seq in H. specialize (H ltac:(lia)).
  by apply eqb_prop.
Qed.

Lemma rc_u64 ir : is_u64 (nth ir rc 0).
Proof.
  assert (Forall is_u64 rc) as H by (unfold rc, is_u64; repeat constructor; lia).
  destruct (nth_in_or_default ir rc 0) as [Hin| ->]; [|done].
  rewrite List.Forall_forall in H. by apply H.
Qed.

Lemma liota_ok ir a : (ir < 24)%nat -> words a ->
  words (liota (nth ir rc 0) a) /\ bit_of (liota (nth ir rc 0) a) ≃ Fips202.iota ir (bit_of a).
Proof.
  intros Hi H. split.
  - apply tab_words. intros x y Hx Hy. destruct (_ && _); [|by apply words_at].
    apply lxor_u64; [by apply words_at|apply rc_u64].
  - split. intros x y z Hx Hy Hz. unfold bit_of at 1, liota, Fips202.iota. rewrite tab_at by done.
    destruct (_ && _); [|done]. by rewrite Z.lxor_spec, rc_bits.
Qed.

Lemma lrnd_ok ir a : (ir < 24)%nat -> words a ->
  words (lrnd a ir) /\ bit_of (lrnd a ir) ≃ Fips202.Rnd (bit_of a) ir.
Proof.
  intros Hi H. unfold lrnd, lround, Fips202.Rnd.
  destruct (ltheta_ok a H) as [H1 E1]. destruct (lrho_ok _ H1) as [H2 E2].
  destruct (lpi_ok _ H2) as [H3 E3]. destruct (lchi_ok _ H3) as [H4 E4].
  destruct (liota_ok ir _ Hi H4) as [H5 E5]. split; [done|].
  by rewrite E5, E4, E3, E2, E1.
Qed.

Lemma lrnds_ok l : forall a, Forall (fun ir => ir < 24)%nat l -> words a ->
  words (fold_left lrnd l a) /\ bit_of (fold_left lrnd l a) ≃ fold_left Fips202.Rnd l (bit_of a).
Proof.
  induction l as [|ir l IH]; intros a Hl Ha; [done|]. apply Forall_cons in Hl as [Hi Hl].
  cbn [fold_left]. destruct (lrnd_ok ir a Hi Ha) as [H1 E1]. destruct (IH _ Hl H1) as [H2 E2].
  split; [done|]. rewrite E2. by apply Fips202.rounds_proper.
Qed.

Lemma keccakF1600_ok a :
  length a = 25%nat -> words a ->
  length (keccakF1600 a) = 25%nat /\ words (keccakF1600 a) /\
  bit_of (keccakF1600 a) ≃ Fips202.keccak_f (bit_of a).
Proof.
  intros Hn Ha. destruct (keccakF1600_lanes a Hn) as [E Hl]. split; [done|]. rewrite E.
  apply lrnds_ok; [|done]. apply List.Forall_forall. intros ir Hi. apply in_seq in Hi. lia.
Qed.
