(* ===== verification/Sponge.v ===== *)
(** * The sponge against its definition

    The state of [crypto/sha3] buffers input and output in one array.  Shown:
    whatever the pieces in which data is written, the state depends on their
    concatenation only; reading delivers, in pieces of any size, the byte
    stream of the sponge construction over the padded message. *)

From Stdlib Require Import ZArith Lia Bool.
From S2P Require Import Prelude GoMath Keccak KeccakSpec.
Local Open Scope nat_scope.
#[local] Opaque keccakF1600.

(** ** The construction *)

(** The state as 200 bytes, and bytes as lanes. *)
Definition bytesOf (a : list Z) : list byte := concat (map PutUint64LE a).

Fixpoint wordsOf (n : nat) (b : list byte) : list Z :=
  match n with O => [] | S n => Uint64LE b :: wordsOf n (drop 8 b) end.

(** A block is combined with the first lanes of the state. *)
Definition mix (a : list Z) (b : list byte) : list Z :=
  zip_with Z.lxor a (wordsOf (length b / 8) b) ++ drop (length b / 8) a.

Definition absorb1 (a : list Z) (b : list byte) : list Z := keccakF1600 (mix a b).

(** Whole blocks are absorbed, the rest is left. *)
Fixpoint absorb (fuel r : nat) (a : list Z) (m : list byte) : list Z * list byte :=
  match fuel with
  | O => (a, m)
  | S fuel => if r <=? length m then absorb fuel r (absorb1 a (take r m)) (drop r m) else (a, m)
  end.
Definition absorbed (r : nat) (a : list Z) (m : list byte) : list Z * list byte :=
  absorb (length m) r a m.

(** The domain bits, a one, zeros, and a one in the last bit of a block. *)
Definition padding (r : nat) (ds : byte) (len : nat) : list byte :=
  match r - len mod r with
  | S (S k) => ds :: replicate k x00 ++ [x80]
  | _ => [flipTop ds]
  end.

Definition zeroState : list Z := replicate 25 0%Z.

(** Byte [i] of the output of state [a]. *)
Definition byte_at (r : nat) (a : list Z) (i : nat) : byte :=
  nth (i mod r) (bytesOf (Nat.iter (i / r) keccakF1600 a)) x00.

Definition squeezed (r : nat) (a : list Z) (pos n : nat) : list byte := map (byte_at r a) (seq pos n).

(** The state that has absorbed the padded message. *)
Definition absorbedState (r : nat) (ds : byte) (m : list byte) : list Z :=
  (absorbed r zeroState (m ++ padding r ds (length m))).1.

Definition sponge (r : nat) (ds : byte) (m : list byte) (n : nat) : list byte :=
  squeezed r (absorbedState r ds m) 0 n.

(** ** Absorbing *)

Definition rate_ok (r : nat) : Prop := r ∈ [72; 104; 136; 144; 168].

Lemma rate_bounds r : rate_ok r -> 0 < r <= 168 /\ r mod 8 = 0.
Proof. intros H. unfold rate_ok in H. rewrite !elem_of_cons, elem_of_nil in H. intuition subst; lia || done. Qed.

Lemma absorb_fuel r a m : 0 < r -> forall f, length m <= f -> absorb f r a m = absorbed r a m.
Proof.
  intros Hr. unfold absorbed. remember (length m) as n eqn:En. revert a m En.
  induction n as [n IH] using lt_wf_ind. intros a m -> f Hf.
  destruct f as [|f]; [by replace (length m) with 0 by lia|].
  destruct (length m) as [|k] eqn:E.
  { cbn. destruct (Nat.leb_spec r (length m)); [lia|done]. }
  cbn [absorb]. destruct (Nat.leb_spec r (length m)) as [Hle|]; [|done].
  assert (length (drop r m) = S k - r) as Hd by (rewrite length_drop; lia).
  rewrite (IH (length (drop r m))) by (lia || done). symmetry. apply (IH (length (drop r m))); lia || done.
Qed.

Lemma absorbed_short r a m : length m < r -> absorbed r a m = (a, m).
Proof.
  intros H. unfold absorbed. destruct (length m) as [|n] eqn:E; [done|]. cbn [absorb].
  destruct (Nat.leb_spec r (length m)); [lia|done].
Qed.

Lemma absorbed_block r a b m :
  0 < r -> length b = r -> absorbed r a (b ++ m) = absorbed r (absorb1 a b) m.
Proof.
  intros Hr Hb. unfold absorbed at 1. rewrite length_app, Hb. destruct r as [|r]; [lia|]. cbn [absorb Nat.add].
  rewrite length_app, Hb. destruct (Nat.leb_spec (S r) (S r + length m)); [|lia].
  rewrite <- Hb, take_app_length, drop_app_length. apply absorb_fuel; lia.
Qed.

(** What is left is shorter than a block. *)
Lemma absorbed_rest r a m : 0 < r -> length (absorbed r a m).2 < r.
Proof.
  intros Hr. remember (length m) as n eqn:En. revert a m En. induction n as [n IH] using lt_wf_ind.
  intros a m ->. destruct (Nat.ltb_spec (length m) r); [by rewrite absorbed_short|].
  rewrite <- (take_drop r m), absorbed_block by (done || rewrite length_take; lia).
  apply (IH (length (drop r m))); [rewrite length_drop; lia|done].
Qed.

(** Only the concatenation matters. *)
Lemma absorbed_app r a m p :
  0 < r -> absorbed r a (m ++ p) = absorbed r (absorbed r a m).1 ((absorbed r a m).2 ++ p).
Proof.
  intros Hr. remember (length m) as n eqn:En. revert a m En. induction n as [n IH] using lt_wf_ind.
  intros a m ->. destruct (Nat.ltb_spec (length m) r); [by rewrite (absorbed_short r a m)|].
  assert (length (take r m) = r) as Hb by (rewrite length_take; lia).
  rewrite <- (take_drop r m), <- app_assoc, (absorbed_block r a (take r m) (drop r m)) by done.
  rewrite (absorbed_block r a (take r m) (drop r m ++ p)) by done.
  apply (IH (length (drop r m))); [rewrite length_drop; lia|done].
Qed.

(** The length of the rest. *)
Lemma absorbed_length r a m : 0 < r -> length (absorbed r a m).2 = length m mod r.
Proof.
  intros Hr. remember (length m) as n eqn:En. revert a m En. induction n as [n IH] using lt_wf_ind.
  intros a m ->. destruct (Nat.ltb_spec (length m) r).
  { rewrite absorbed_short by done. by rewrite Nat.mod_small. }
  rewrite <- (take_drop r m) at 1. rewrite absorbed_block by (done || rewrite length_take; lia).
  rewrite (IH (length (drop r m))) by (done || rewrite length_drop; lia). rewrite length_drop.
  replace (length m) with (length m - r + 1 * r) at 2 by lia. by rewrite Nat.Div0.mod_add.
Qed.

(** ** Combining blocks with the state *)

(** What the sponge needs of [xorIn] and [copyOut]. *)
Class SpongeIO (xorIn : list Z -> list byte -> option (list Z))
    (copyOut : list Z -> list byte -> option (list byte)) : Prop := {
  xorIn_ok r a b : rate_ok r -> length a = 25 -> length b = r -> xorIn a b = Some (mix a b);
  copyOut_ok r a b : rate_ok r -> length a = 25 -> length b = r ->
    copyOut a b = Some (take r (bytesOf a))
}.

Lemma wordsOf_length n b : length (wordsOf n b) = n.
Proof. revert b. induction n; intros b; cbn; auto. Qed.

Lemma xorWords_ok n : forall i buf a,
  i + n <= length a ->
  xorWords n i buf a =
    Some (take i a ++ zip_with Z.lxor (drop i a) (wordsOf n buf) ++ drop (i + n) a).
Proof.
  induction n as [|n IH]; intros i buf a Hi; cbn [xorWords wordsOf].
  { rewrite zip_with_nil_r. cbn. by rewrite Nat.add_0_r, take_drop. }
  destruct (lookup_lt_is_Some_2 a i) as [w Ew]; [lia|]. unfold xorAt. rewrite Ew.
  rewrite IH by (rewrite length_insert; lia). f_equal.
  assert (i < length a) by lia.
  rewrite (drop_S a w i Ew). cbn [zip_with].
  rewrite (take_S_r _ i (Z.lxor w (Uint64LE buf))) by (rewrite list_lookup_insert_eq; [done|lia]).
  rewrite <- !app_assoc. cbn [app]. rewrite take_insert_ge by lia.
  rewrite !drop_insert_lt by lia. by rewrite <- Nat.add_succ_comm.
Qed.

Lemma mix_xorWords r a b :
  rate_ok r -> length a = 25 -> length b = r -> xorWords (r / 8) 0 b a = Some (mix a b).
Proof.
  intros Hr Ha Hb. apply rate_bounds in Hr as [Hr Hm].
  rewrite xorWords_ok; [|pose proof (Nat.Div0.div_le_mono r 168 8); change (168 / 8) with 21 in *; lia].
  unfold mix. rewrite Hb. done.
Qed.

Lemma PutUint64LE_length w : length (PutUint64LE w) = 8.
Proof. unfold PutUint64LE. by rewrite length_rev, length_be_bytes. Qed.

Lemma bytesOf_length a : length (bytesOf a) = 8 * length a.
Proof.
  unfold bytesOf. induction a as [|w a IH]; [done|]. cbn [map concat length].
  rewrite length_app, PutUint64LE_length, IH. lia.
Qed.

Lemma bytesOf_cons w a : bytesOf (w :: a) = PutUint64LE w ++ bytesOf a.
Proof. done. Qed.

Lemma copyWords_ok n : forall a b,
  n <= length a -> length b = 8 * n -> copyWords n a b = Some (take (8 * n) (bytesOf a)).
Proof.
  induction n as [|n IH]; intros a b Ha Hb; cbn [copyWords].
  { destruct b; [done|]. cbn in Hb. lia. }
  destruct a as [|w a]; [cbn in Ha; lia|]. rewrite IH; [|cbn in Ha; lia|rewrite length_drop; lia].
  f_equal. rewrite bytesOf_cons, take_app_ge by (rewrite PutUint64LE_length; lia).
  rewrite PutUint64LE_length. do 2 f_equal. lia.
Qed.

#[export] Instance generic_io : SpongeIO xorInGeneric copyOutGeneric.
Proof.
  split; intros r a b Hr Ha Hb.
  - unfold xorInGeneric. rewrite Hb. by apply mix_xorWords.
  - apply rate_bounds in Hr as [Hr Hm]. unfold copyOutGeneric. rewrite Hb.
    apply Nat.Lcm0.mod_divide in Hm as [k ->]. rewrite Nat.div_mul by lia.
    rewrite copyWords_ok by lia. by rewrite (Nat.mul_comm 8).
Qed.

(** *** The unrolled version *)

Lemma xorRange_ok n : forall i buf a, xorRange i n buf a = xorWords n i (drop (8 * i) buf) a.
Proof.
  induction n as [|n IH]; intros i buf a; [done|]. cbn [xorRange xorWords].
  destruct (xorAt _ _ _); [|done]. rewrite IH, drop_drop. do 2 f_equal. lia.
Qed.

Lemma xorWords_app n m : forall i buf a,
  xorWords (n + m) i buf a =
    match xorWords n i buf a with
    | Some a => xorWords m (i + n) (drop (8 * n) buf) a
    | None => None
    end.
Proof.
  induction n as [|n IH]; intros i buf a; [by rewrite Nat.add_0_r|]. cbn [xorWords Nat.add].
  destruct (xorAt _ _ _); [|done]. rewrite IH. destruct (xorWords _ _ _ _); [|done].
  rewrite drop_drop. f_equal; [lia|f_equal; lia].
Qed.

Lemma xorIf_ok i n buf a :
  xorIf true i n buf (xorWords i 0 buf a) = xorWords (i + n) 0 buf a.
Proof. rewrite xorWords_app. unfold xorIf. destruct (xorWords i 0 buf a); [|done]. apply xorRange_ok. Qed.

#[export] Instance unaligned_io : SpongeIO xorInUnaligned (fun a b => Some (copyOutUnaligned a b)).
Proof.
  split; intros r a b Hr Ha Hb.
  - rewrite <- (mix_xorWords r a b Hr Ha Hb). unfold xorInUnaligned. rewrite Hb.
    assert (Some a = xorWords 0 0 b a) as -> by done.
    unfold rate_ok in Hr. rewrite !elem_of_cons, elem_of_nil in Hr.
    assert (forall i n o, xorIf false i n b o = o) as Hf by (by intros i n [|]).
    destruct Hr as [->|[->|[->|[->|[->|[]]]]]]; cbn [Nat.leb]; rewrite ?Hf, !xorIf_ok; done.
  - apply rate_bounds in Hr as [Hr Hm]. unfold copyOutUnaligned. fold (bytesOf a).
    assert (length (take 168 (bytesOf a)) = 168) as Hl by (rewrite length_take, bytesOf_length; lia).
    rewrite Hl, drop_ge, app_nil_r by lia. rewrite take_take. by rewrite Hb, Nat.min_l by lia.
Qed.

(** ** The state of the code *)

Section code.
Context {xorIn : list Z -> list byte -> option (list Z)}.
Context {copyOut : list Z -> list byte -> option (list byte)}.
Context {IO : SpongeIO xorIn copyOut}.
(** The fields that never change. *)
Variables (r : nat) (ds : byte) (outputLen : nat).
Hypothesis r_ok : rate_ok r.

Record fixed (d : state) : Prop := {
  fx_rate : sp_rate d = r;
  fx_ds : sp_dsbyte d = ds;
  fx_out : sp_outputLen d = outputLen;
  fx_storage : length (sp_storage d) = maxRate;
  fx_lanes : length (sp_a d) = 25
}.

(** Absorbing, with lanes [a] and the bytes [rest] in the buffer. *)
Record absorbing (a : list Z) (rest : list byte) (d : state) : Prop := {
  ab_fixed : fixed d;
  ab_dir : sp_state d = spongeAbsorbing;
  ab_a : sp_a d = a;
  ab_off : sp_off d = 0;
  ab_len : sp_len d = length rest;
  ab_buf : bufOf d = rest
}.

(** Squeezing, after [pos] bytes of the output of [a]. *)
Record squeezing (a : list Z) (pos : nat) (d : state) : Prop := {
  sq_fixed : fixed d;
  sq_dir : sp_state d = spongeSqueezing;
  sq_a : sp_a d = Nat.iter (pos / r) keccakF1600 a;
  sq_off : sp_off d = pos mod r;
  sq_len : sp_len d = r - pos mod r;
  sq_storage : take r (sp_storage d) = take r (bytesOf (sp_a d))
}.

Lemma r_bounds : 0 < r <= 168.
Proof. apply rate_bounds, r_ok. Qed.

Lemma keccakF1600_length a : length a = 25 -> length (keccakF1600 a) = 25.
Proof. apply keccakF1600_lanes. Qed.

Lemma mix_length a b : length a = 25 -> length b = r -> length (mix a b) = 25.
Proof.
  intros Ha Hb. pose proof r_bounds as Hr. unfold mix.
  rewrite length_app, length_zip_with, wordsOf_length, length_drop, Ha, Hb.
  assert (r / 8 <= 21) by (change 21 with (168 / 8); apply Nat.Div0.div_le_mono; lia). lia.
Qed.

Lemma appendBuf_ok a rest b d :
  absorbing a rest d -> length rest + length b <= r -> absorbing a (rest ++ b) (appendBuf b d).
Proof.
  intros [[F1 F2 F3 F4 F5] D A O L B] Hl. pose proof r_bounds. unfold maxRate in F4.
  unfold bufOf in B. rewrite O, drop_0, L in B.
  split; [split; try done| | | | |]; try done; unfold appendBuf, storeAt, bufOf; cbn; rewrite ?O, ?L; cbn [Nat.add]; rewrite ?drop_0.
  - rewrite !length_app, length_take, length_drop, F4. unfold maxRate. lia.
  - by rewrite length_app.
  - rewrite B, app_assoc, <- length_app. apply take_app_length.
Qed.

Lemma permute_absorbs a rest d :
  absorbing a rest d -> length rest = r ->
  runs (permute xorIn copyOut) d (fun _ d' => absorbing (absorb1 a rest) [] d').
Proof.
  intros [[F1 F2 F3 F4 F5] D A O L B] Hl. unfold permute. apply runs_bind, runs_get. rewrite D, B.
  unfold xorInM. apply runs_bind, runs_bind, runs_get. rewrite A in *.
  rewrite (xorIn_ok r a rest r_ok F5 Hl). apply runs_bind, runs_ret, runs_put.
  apply runs_bind, runs_modify, runs_modify.
  split; [split|..]; cbn [sp_rate sp_dsbyte sp_outputLen sp_storage sp_a sp_state sp_off sp_len set_a set_buf]; try done.
  by apply keccakF1600_length, mix_length.
Qed.

(** ** Writing *)

(** The buffered step of the loop. *)
Lemma write_slow fuel q a rest d :
  (forall p a rest d, absorbing a rest d -> length rest < r -> length p <= fuel ->
     runs (writeLoop xorIn copyOut fuel p) d (fun _ d' =>
       absorbing (absorbed r a (rest ++ p)).1 (absorbed r a (rest ++ p)).2 d')) ->
  absorbing a rest d -> length rest < r -> length q <= S fuel -> 0 < length q ->
  runs (let todo := Nat.min (r - length rest) (length q) in
        modify (appendBuf (take todo q)) ;;
        let* d := get in
        (if (sp_len d =? sp_rate d)%nat then permute xorIn copyOut else ret tt) ;;
        writeLoop xorIn copyOut fuel (drop todo q))%go d (fun _ d' =>
    absorbing (absorbed r a (rest ++ q)).1 (absorbed r a (rest ++ q)).2 d').
Proof.
  intros IH Hd Hrest Hq Hq0. cbv zeta. set (todo := Nat.min _ _).
  assert (length (take todo q) = todo) as Ht by (rewrite length_take; lia).
  apply runs_bind, runs_modify. pose proof (appendBuf_ok a rest (take todo q) d Hd ltac:(lia)) as Hd1.
  apply runs_bind, runs_get. rewrite (ab_len _ _ _ Hd1), (fx_rate _ (ab_fixed _ _ _ Hd1)).
  replace (rest ++ q) with ((rest ++ take todo q) ++ drop todo q)
    by (rewrite <- app_assoc; by rewrite take_drop).
  apply runs_bind.
  assert (length (drop todo q) <= fuel) as Hdq by (rewrite length_drop; lia).
  rewrite length_app, Ht. destruct (Nat.eqb_spec (length rest + todo) r) as [Ef|Ef].
  - eapply runs_mono; [apply (permute_absorbs a (rest ++ take todo q)); [done|rewrite length_app; lia]|].
    intros [] d2 Hd2. rewrite absorbed_block by (rewrite ?length_app; lia).
    apply (IH (drop todo q) _ []); [done|cbn; lia|done].
  - apply runs_ret. apply IH; [done|rewrite length_app; lia|done].
Qed.

Lemma writeLoop_ok fuel : forall p a rest d,
  absorbing a rest d -> length rest < r -> length p <= fuel ->
  runs (writeLoop xorIn copyOut fuel p) d (fun _ d' =>
    absorbing (absorbed r a (rest ++ p)).1 (absorbed r a (rest ++ p)).2 d').
Proof.
  pose proof r_bounds as Hr.
  induction fuel as [|fuel IH]; intros p a rest d Hd Hrest Hp.
  { destruct p; [|cbn in Hp; lia]. apply runs_ret. by rewrite app_nil_r, absorbed_short. }
  destruct p as [|x p]; [apply runs_ret; by rewrite app_nil_r, absorbed_short|].
  cbn [writeLoop]. remember (x :: p) as q eqn:Eq. apply runs_bind, runs_get.
  pose proof Hd as [[F1 F2 F3 F4 F5] D A O L B]. rewrite F1, L.
  destruct (Nat.eqb_spec (length rest) 0) as [E0|E0]; cbn [andb];
    [destruct (Nat.leb_spec r (length q)) as [Hq|Hq]|].
  - destruct rest; [|done]. unfold xorInM. apply runs_bind, runs_bind, runs_get.
    assert (length (take r q) = r) as Ht by (rewrite length_take; lia).
    rewrite A, (xorIn_ok r a _ r_ok) by (done || by rewrite <- A). apply runs_bind, runs_ret, runs_put.
    apply runs_bind, runs_modify.
    replace ([] ++ q) with (take r q ++ drop r q) by (by rewrite take_drop).
    rewrite absorbed_block by (done || lia).
    apply (IH (drop r q) (absorb1 a (take r q)) []); [|cbn; lia|rewrite length_drop; subst q; cbn in *; lia].
    split; [split|..]; cbn [sp_rate sp_dsbyte sp_outputLen sp_storage sp_a sp_state sp_off sp_len set_a]; try done.
    apply keccakF1600_length, mix_length; [by rewrite <- A|done].
  - apply (write_slow fuel q a rest d IH); [done|done|subst q; cbn in *; lia|subst q; cbn; lia].
  - apply (write_slow fuel q a rest d IH); [done|done|subst q; cbn in *; lia|subst q; cbn; lia].
Qed.

Lemma Write_ok p a rest d :
  absorbing a rest d -> length rest < r ->
  runs (Write xorIn copyOut p) d (fun _ d' =>
    absorbing (absorbed r a (rest ++ p)).1 (absorbed r a (rest ++ p)).2 d').
Proof.
  intros Hd Hrest. unfold Write. apply runs_bind, runs_get. rewrite (ab_dir _ _ _ Hd).
  by apply writeLoop_ok.
Qed.

Lemma newState_absorbing : absorbing zeroState [] (newState r outputLen ds).
Proof. by split; [split|..]. Qed.

(** The data written so far. *)
Definition written (m : list byte) (d : state) : Prop :=
  absorbing (absorbed r zeroState m).1 (absorbed r zeroState m).2 d.

Lemma writeAll_ok data : forall m d,
  written m d -> runs (writeAll xorIn copyOut data) d (fun _ d' => written (m ++ concat data) d').
Proof.
  pose proof r_bounds as Hr.
  induction data as [|b data IH]; intros m d Hd; cbn [writeAll fold_right concat].
  { apply runs_ret. by rewrite app_nil_r. }
  apply runs_bind. eapply runs_mono; [apply Write_ok; [exact Hd|apply absorbed_rest; lia]|].
  intros [] d1 Hd1. rewrite <- absorbed_app in Hd1 by lia. rewrite app_assoc. by apply IH.
Qed.

(** ** Reading *)

Lemma storeAt_all b d : length b = sp_rate d -> sp_rate d <= length (sp_storage d) ->
  take (sp_rate d) (sp_storage (storeAt 0 b d)) = b /\
  length (sp_storage (storeAt 0 b d)) = length (sp_storage d).
Proof.
  intros Hb Hl. unfold storeAt. cbn [set_storage sp_storage Nat.add]. rewrite take_0, app_nil_l. split.
  - rewrite <- Hb. apply take_app_length.
  - rewrite length_app, length_drop. lia.
Qed.

Lemma copyOutM_ok d :
  fixed d ->
  runs (copyOutM copyOut) d (fun _ d' => fixed d' /\ sp_a d' = sp_a d /\ sp_state d' = sp_state d /\
    sp_off d' = 0 /\ sp_len d' = r /\ take r (sp_storage d') = take r (bytesOf (sp_a d))).
Proof.
  intros [F1 F2 F3 F4 F5]. pose proof r_bounds as Hr. unfold copyOutM, maxRate in *.
  apply runs_bind, runs_modify, runs_bind, runs_get, runs_bind.
  set (d1 := set_buf 0 (sp_rate d) d).
  assert (length (bufOf d1) = r) as Hb.
  { unfold d1, bufOf. cbn [sp_len sp_off sp_storage set_buf]. rewrite drop_0, length_take. lia. }
  change (sp_a d1) with (sp_a d). rewrite (copyOut_ok r _ _ r_ok F5 Hb). apply runs_ret, runs_put.
  assert (length (take r (bytesOf (sp_a d))) = sp_rate d1) as Hl.
  { rewrite length_take, bytesOf_length, F5. change (sp_rate d1) with (sp_rate d). lia. }
  destruct (storeAt_all _ d1 Hl) as [E1 E2]; [change (sp_rate d <= length (sp_storage d)); lia|].
  change (sp_rate d1) with (sp_rate d) in E1. rewrite F1 in E1.
  split; [split|]; try done. rewrite E2. unfold maxRate. done.
Qed.

(** Overwriting the last byte of a full block. *)
Lemma storeLast_ok a l x d :
  absorbing a l d -> length l = r ->
  absorbing a (take (r - 1) l ++ [x]) (storeAt (r - 1) [x] d).
Proof.
  intros [[F1 F2 F3 F4 F5] D A O L B] Hl. pose proof r_bounds as Hr. unfold maxRate in F4.
  unfold bufOf in B. rewrite O, drop_0, L, Hl in B.
  split; [split|..]; unfold storeAt, bufOf; cbn [sp_rate sp_dsbyte sp_outputLen sp_storage sp_a sp_state sp_off sp_len set_storage];
    try done.
  - rewrite !length_app, length_take, length_drop, F4. cbn [length]. unfold maxRate. lia.
  - rewrite length_app, length_take. cbn [length]. lia.
  - rewrite O, drop_0, L, Hl. rewrite <- B, take_take, Nat.min_l by lia. rewrite app_assoc.
    rewrite take_app_length'; [done|]. rewrite length_app, length_take, F4. cbn [length]. lia.
Qed.

(** The padded block. *)
Lemma padded_block rest :
  length rest < r ->
  exists last, (rest ++ [ds] ++ replicate (r - S (length rest)) x00) !! (r - 1) = Some last /\
    take (r - 1) (rest ++ [ds] ++ replicate (r - S (length rest)) x00) ++ [flipTop last]
      = rest ++ padding r ds (length rest).
Proof.
  intros Hl. unfold padding. rewrite (Nat.mod_small (length rest)) by done.
  destruct (r - length rest) as [|[|k]] eqn:E; [lia| |].
  - replace (r - S (length rest)) with 0 by lia. cbn [replicate]. rewrite app_nil_r.
    replace (r - 1) with (length rest) by lia. exists ds. rewrite list_lookup_middle by done.
    by rewrite take_app_length.
  - replace (r - S (length rest)) with (S k) by lia.
    assert (rest ++ [ds] ++ replicate (S k) x00 = (rest ++ ds :: replicate k x00) ++ [x00]) as ->.
    { rewrite replicate_S_end, <- app_assoc. done. }
    assert (r - 1 = length (rest ++ ds :: replicate k x00)) as ->.
    { rewrite length_app. cbn [length]. rewrite length_replicate. lia. }
    exists x00. rewrite list_lookup_middle by done. rewrite take_app_length. split; [done|].
    rewrite <- app_assoc. done.
Qed.

Lemma absorb1_length a b : length a = 25 -> length b = r -> length (absorb1 a b) = 25.
Proof. intros Ha Hb. by apply keccakF1600_length, mix_length. Qed.

Lemma padding_length rest : length rest < r -> length (rest ++ padding r ds (length rest)) = r.
Proof.
  intros Hl. destruct (padded_block rest Hl) as (x & _ & <-).
  rewrite length_app, length_take, !length_app, length_replicate. cbn [length]. lia.
Qed.

Lemma padAndPermute_ok a rest d :
  absorbing a rest d -> length rest < r ->
  runs (padAndPermute xorIn copyOut ds) d (fun _ d' =>
    squeezing (absorb1 a (rest ++ padding r ds (length rest))) 0 d').
Proof.
  intros Hd Hl. pose proof r_bounds as Hr. unfold padAndPermute. apply runs_bind, runs_modify.
  pose proof (appendBuf_ok a rest [ds] d Hd ltac:(cbn; lia)) as Hd1. set (d1 := appendBuf [ds] d) in *.
  apply runs_bind, runs_get, runs_bind, runs_put.
  assert (sp_len d1 = S (length rest)) as El by (rewrite (ab_len _ _ _ Hd1), length_app; cbn; lia).
  assert (sp_rate d1 = r) as Er by apply Hd1. assert (sp_off d1 = 0) as Eo by apply Hd1.
  rewrite El, Er. set (zeros := replicate (r - S (length rest)) x00).
  assert (storeAt (S (length rest)) zeros (set_buf 0 r d1) = appendBuf zeros d1) as ->.
  { unfold appendBuf. rewrite El, Eo. unfold storeAt, set_buf, set_storage. cbn. f_equal.
    unfold zeros. rewrite length_replicate. lia. }
  pose proof (appendBuf_ok a _ zeros d1 Hd1) as Hd2. rewrite <- app_assoc in Hd2.
  specialize (Hd2 ltac:(unfold zeros; rewrite length_replicate, length_app; cbn; lia)).
  set (d2 := appendBuf zeros d1) in *. clearbody d2.
  apply runs_bind, runs_get. assert (sp_rate d2 = r) as Er2 by apply Hd2. rewrite Er2, (ab_buf _ _ _ Hd2).
  destruct (padded_block rest Hl) as (x & Ex & Eb). fold zeros in Ex, Eb. rewrite Ex.
  apply runs_bind, runs_ret, runs_bind, runs_put.
  pose proof (storeLast_ok a _ (flipTop x) d2 Hd2) as Hd3. rewrite Eb in Hd3.
  specialize (Hd3 ltac:(unfold zeros; rewrite !length_app, length_replicate; cbn; lia)).
  pose proof (padding_length rest Hl) as Hbl.
  apply runs_bind. eapply runs_mono; [by apply permute_absorbs|]. intros [] d4 [F4 D4 A4 O4 L4 B4].
  apply runs_bind, runs_modify.
  assert (fixed (set_dir spongeSqueezing d4)) as F5 by (by destruct F4).
  eapply runs_mono; [by apply copyOutM_ok|]. intros [] d5 (F6 & A6 & D6 & O6 & L6 & S6).
  change (sp_a (set_dir spongeSqueezing d4)) with (sp_a d4) in *.
  split; [done|by rewrite D6| | | |].
  - rewrite A6, A4. by rewrite Nat.Div0.div_0_l.
  - by rewrite O6, Nat.Div0.mod_0_l.
  - rewrite L6, Nat.Div0.mod_0_l. lia.
  - by rewrite S6, A6.
Qed.

Lemma byte_at_near a pos i :
  pos mod r + i < r ->
  byte_at r a (pos + i) = nth (pos mod r + i) (bytesOf (Nat.iter (pos / r) keccakF1600 a)) x00.
Proof.
  intros Hi. unfold byte_at.
  assert (pos + i = r * (pos / r) + (pos mod r + i)) as E
    by (pose proof (Nat.div_mod_eq pos r); lia).
  rewrite <- (Nat.div_unique (pos + i) r (pos / r) (pos mod r + i)) by (done || lia).
  by rewrite <- (Nat.mod_unique (pos + i) r (pos / r) (pos mod r + i)) by (done || lia).
Qed.

(** The bytes in the buffer are the next of the stream. *)
Lemma squeezing_buf a pos k d :
  squeezing a pos d -> k <= sp_len d -> take k (bufOf d) = squeezed r a pos k.
Proof.
  intros [F D A O L S] Hk. pose proof r_bounds as Hr. destruct F as [F1 F2 F3 F4 F5].
  assert (pos mod r < r) by (apply Nat.mod_upper_bound; lia).
  assert (length (bytesOf (sp_a d)) = 200) as Hb by (rewrite bytesOf_length, F5; done).
  unfold bufOf. rewrite take_take, Nat.min_l, O by lia.
  assert (take k (drop (pos mod r) (sp_storage d)) = take k (drop (pos mod r) (bytesOf (sp_a d)))) as ->.
  { rewrite !take_drop_commute. f_equal. apply (f_equal (take (pos mod r + k))) in S.
    by rewrite !take_take, !Nat.min_l in S by lia. }
  apply list_eq. intros i. destruct (Nat.ltb_spec i k) as [Hi|Hi].
  - rewrite lookup_take_lt, lookup_drop by done. unfold squeezed.
    rewrite list_lookup_fmap, lookup_seq_lt by done. cbn [fmap option_fmap option_map].
    rewrite byte_at_near by lia. rewrite <- A.
    destruct (nth_lookup_or_length (bytesOf (sp_a d)) (pos mod r + i) x00); [done|lia].
  - rewrite !lookup_ge_None_2; [done| |]; unfold squeezed; rewrite ?length_map, ?length_seq, ?length_take; lia.
Qed.

(** Taking [k] bytes from the buffer; an empty buffer is refilled. *)
Lemma take_buf {X} (next : M state X) P a pos k d :
  squeezing a pos d -> k <= sp_len d -> 0 < k ->
  (forall d', squeezing a (pos + k) d' -> runs next d' P) ->
  runs (put (set_buf (sp_off d + k) (sp_len d - k) d) ;;
        let* d := get in
        (if (sp_len d =? 0)%nat then permute xorIn copyOut else ret tt) ;;
        next)%go d P.
Proof.
  intros [F D A O L S] Hk Hk0 Hnext. pose proof r_bounds as Hr.
  pose proof (Nat.div_mod_eq pos r) as Ed.
  assert (pos mod r < r) by (apply Nat.mod_upper_bound; lia).
  apply runs_bind, runs_put, runs_bind, runs_get, runs_bind. set (d1 := set_buf _ _ d).
  apply (runs_mono _ _ (fun _ d' => squeezing a (pos + k) d')); [|intros [] d' Hd'; by apply Hnext].
  assert (fixed d1) as F1 by (by destruct F).
  change (sp_len d1) with (sp_len d - k). destruct (Nat.eqb_spec (sp_len d - k) 0) as [E|E].
  - unfold permute. apply runs_bind, runs_get. change (sp_state d1) with (sp_state d). rewrite D.
    apply runs_bind, runs_modify. set (d2 := set_a _ d1).
    assert (fixed d2) as F2.
    { destruct F1. split; try done. by apply keccakF1600_length. }
    eapply runs_mono; [by apply copyOutM_ok|]. intros [] d3 (F3 & A3 & D3 & O3 & L3 & S3).
    assert (pos + k = r * (pos / r + 1) + 0) as Ep by lia.
    assert ((pos + k) / r = pos / r + 1) as Eq by (symmetry; by apply (Nat.div_unique _ r _ 0); [lia|]).
    assert ((pos + k) mod r = 0) as Em by (symmetry; by apply (Nat.mod_unique _ r (pos / r + 1)); [lia|]).
    split; [done|by rewrite D3| | | |].
    + rewrite A3, Eq, Nat.add_1_r. unfold d2. cbn [set_a sp_a Nat.iter]. change (sp_a d1) with (sp_a d). by rewrite A.
    + by rewrite O3, Em.
    + rewrite L3, Em. lia.
    + by rewrite S3, A3.
  - apply runs_ret.
    assert (pos + k = r * (pos / r) + (pos mod r + k)) as Ep by lia.
    assert ((pos + k) / r = pos / r) as Eq
      by (symmetry; apply (Nat.div_unique _ r _ (pos mod r + k)); [lia|done]).
    assert ((pos + k) mod r = pos mod r + k) as Em
      by (symmetry; apply (Nat.mod_unique _ r (pos / r)); [lia|done]).
    split; [done|done| | | |]; unfold d1; cbn [set_buf sp_a sp_off sp_len sp_storage].
    + by rewrite Eq.
    + by rewrite Em, O.
    + rewrite Em, L. lia.
    + done.
Qed.

Lemma readLoop_ok fuel : forall n a pos d,
  squeezing a pos d -> n <= fuel ->
  runs (readLoop xorIn copyOut fuel n) d (fun out d' => out = squeezed r a pos n /\ squeezing a (pos + n) d').
Proof.
  pose proof r_bounds as Hr.
  induction fuel as [|fuel IH]; intros n a pos d Hd Hn; (destruct n as [|n];
    [apply runs_ret; split; [done|by rewrite Nat.add_0_r]|]); [lia|].
  cbn [readLoop]. remember (S n) as n' eqn:En. apply runs_bind, runs_get.
  assert (pos mod r < r) by (apply Nat.mod_upper_bound; lia). pose proof (sq_len _ _ _ Hd) as HL.
  set (k := Nat.min n' (sp_len d)).
  rewrite (squeezing_buf a pos k d Hd) by lia.
  apply (take_buf _ _ a pos k d Hd); [lia|lia|]. intros d1 Hd1. apply runs_bind.
  eapply runs_mono; [apply (IH (n' - k)); [exact Hd1|lia]|]. intros out d2 [-> Hd2]. apply runs_ret.
  replace (pos + n') with (pos + k + (n' - k)) by lia. split; [|done]. unfold squeezed.
  rewrite <- map_app, <- seq_app. do 2 f_equal. lia.
Qed.

(** Reading starts the squeezing if need be. *)
Lemma Read_squeezing n a pos d :
  squeezing a pos d ->
  runs (Read xorIn copyOut n) d (fun out d' => out = squeezed r a pos n /\ squeezing a (pos + n) d').
Proof.
  intros Hd. unfold Read. apply runs_bind, runs_get. rewrite (sq_dir _ _ _ Hd).
  apply runs_bind, runs_ret. by apply readLoop_ok.
Qed.

Lemma absorbedState_rest m :
  absorbedState r ds m = absorb1 (absorbed r zeroState m).1
    ((absorbed r zeroState m).2 ++ padding r ds (length (absorbed r zeroState m).2)).
Proof.
  pose proof r_bounds as Hr. unfold absorbedState. rewrite absorbed_app by lia.
  set (a := (absorbed r zeroState m).1). set (rest := (absorbed r zeroState m).2).
  assert (length rest < r) as Hl by (apply absorbed_rest; lia).
  assert (padding r ds (length m) = padding r ds (length rest)) as ->.
  { unfold padding, rest. rewrite absorbed_length by lia. by rewrite Nat.Div0.mod_mod. }
  pose proof (padding_length rest Hl) as Hb.
  rewrite <- (app_nil_r (rest ++ padding r ds (length rest))) at 1.
  rewrite absorbed_block by (done || lia). rewrite absorbed_short; [done|cbn; lia].
Qed.

Lemma Read_absorbing n m d :
  written m d ->
  runs (Read xorIn copyOut n) d (fun out d' =>
    out = sponge r ds m n /\ squeezing (absorbedState r ds m) n d').
Proof.
  intros Hd. pose proof r_bounds as Hr. unfold Read. apply runs_bind, runs_get. rewrite (ab_dir _ _ _ Hd).
  rewrite (fx_ds _ (ab_fixed _ _ _ Hd)). apply runs_bind.
  eapply runs_mono; [by apply padAndPermute_ok; [exact Hd|apply absorbed_rest; lia]|].
  intros [] d1 Hd1. rewrite <- absorbedState_rest in Hd1.
  eapply runs_mono; [by apply readLoop_ok|]. intros out d2 [-> Hd2]. by split.
Qed.

Lemma Sum_ok m inp d :
  written m d -> Sum xorIn copyOut inp d = Ret (inp ++ sponge r ds m outputLen).
Proof.
  intros Hd. unfold Sum, clone. rewrite (ab_dir _ _ _ Hd).
  assert (written m (set_buf 0 (sp_len d) d)) as Hc.
  { destruct Hd as [[F1 F2 F3 F4 F5] D A O L B]. split; [by split|done..|]. unfold bufOf in *. cbn. by rewrite O in B. }
  destruct (Read_absorbing outputLen m _ Hc) as (out & d' & E & -> & _).
  change (sp_outputLen (set_buf 0 (sp_len d) d)) with (sp_outputLen d).
  rewrite (fx_out _ (ab_fixed _ _ _ Hd)), E. done.
Qed.
End code.
