(* ===== verification/Rlp.v ===== *)
(** * rlp: encoding, and splitting encoded values

    [rlp/encode.go]: a value is written into an [encbuf], which collects the
    string data and, separately, the positions and sizes of the list headers;
    [toBytes] puts the headers in.  The values are those the encoder sees
    through reflection as byte slices and as slices of interfaces ([item]); the
    writers of the other basic types are functions of the same buffer.
    [rlp/raw.go]: [Split] and its variants take an encoding apart.

    Shown: [encode] produces the recursive definition [rlp] of the format, and
    [Split] accepts exactly the headers [rlp] writes. *)

From Stdlib Require Import ZArith Lia Bool.
From S2P Require Import Prelude GoMath.
Local Open Scope Z_scope.
Local Open Scope go_scope.

(** ** decode.go: errors and kinds *)

Inductive rlpErr :=
| EOL | ErrExpectedString | ErrExpectedList | ErrCanonInt | ErrCanonSize
| ErrElemTooLarge | ErrValueTooLarge | ErrMoreThanOneValue
| errNotInList | errNotAtEOL | errUintOverflow
| errNegativeBigInt | errInvalidBool
| errTooFewElements | errStringTooLong | errStringTooShort
| io_EOF | io_ErrUnexpectedEOF.

#[export] Instance rlpErr_eq_dec : EqDecision rlpErr.
Proof. solve_decision. Defined.

Inductive Kind := KByte | KString | KList.

#[export] Instance Kind_eq_dec : EqDecision Kind.
Proof. solve_decision. Defined.

(** ** encode.go: headers *)

(** The bytes [putint] writes. *)
Definition putint (i : Z) : list byte :=
  if i <? Z.shiftl 1 8 then [Zbyte i]
  else if i <? Z.shiftl 1 16 then [Zbyte (Z.shiftr i 8); Zbyte i]
  else if i <? Z.shiftl 1 24 then [Zbyte (Z.shiftr i 16); Zbyte (Z.shiftr i 8); Zbyte i]
  else if i <? Z.shiftl 1 32 then
    [Zbyte (Z.shiftr i 24); Zbyte (Z.shiftr i 16); Zbyte (Z.shiftr i 8); Zbyte i]
  else if i <? Z.shiftl 1 40 then
    [Zbyte (Z.shiftr i 32); Zbyte (Z.shiftr i 24); Zbyte (Z.shiftr i 16);
     Zbyte (Z.shiftr i 8); Zbyte i]
  else if i <? Z.shiftl 1 48 then
    [Zbyte (Z.shiftr i 40); Zbyte (Z.shiftr i 32); Zbyte (Z.shiftr i 24);
     Zbyte (Z.shiftr i 16); Zbyte (Z.shiftr i 8); Zbyte i]
  else if i <? Z.shiftl 1 56 then
    [Zbyte (Z.shiftr i 48); Zbyte (Z.shiftr i 40); Zbyte (Z.shiftr i 32);
     Zbyte (Z.shiftr i 24); Zbyte (Z.shiftr i 16); Zbyte (Z.shiftr i 8); Zbyte i]
  else
    [Zbyte (Z.shiftr i 56); Zbyte (Z.shiftr i 48); Zbyte (Z.shiftr i 40);
     Zbyte (Z.shiftr i 32); Zbyte (Z.shiftr i 24); Zbyte (Z.shiftr i 16);
     Zbyte (Z.shiftr i 8); Zbyte i].

(** [for size = 1; ; size++ { if i >>= 8; i == 0 { return size } }]: eight
    rounds are enough for a [uint64]. *)
Fixpoint intsizeLoop (rounds : nat) (i size : Z) : Z :=
  match rounds with
  | O => size
  | S r =>
      let i := Z.shiftr i 8 in
      if i =? 0 then size else intsizeLoop r i (size + 1)
  end.
Definition intsize (i : Z) : Z := intsizeLoop 8 i 1.

Definition headsize (size : Z) : Z := if size <? 56 then 1 else 1 + intsize size.

(** The bytes [puthead] writes. *)
Definition puthead (smalltag largetag size : Z) : list byte :=
  if size <? 56 then [Zbyte (smalltag + size)]
  else
    let s := putint size in
    Zbyte (largetag + zlen s) :: s.

(** ** encode.go: the buffer *)

Record listhead := mkListhead { lh_offset : Z; lh_size : Z }.

(** [sizebuf] is scratch space. *)
Record encbuf := mkEncbuf {
  eb_str : list byte;
  eb_lheads : list listhead;
  eb_lhsize : Z
}.

Definition eb_reset : encbuf := mkEncbuf [] [] 0.

(** [w.str = append(w.str, b...)]. *)
Definition eb_write (b : list byte) (w : encbuf) : encbuf :=
  mkEncbuf (eb_str w ++ b) (eb_lheads w) (eb_lhsize w).

Definition listhead_encode (head : listhead) : list byte := puthead 0xC0 0xF7 (lh_size head).

Definition encodeStringHeader (size : Z) (w : encbuf) : encbuf :=
  if size <? 56 then eb_write [Zbyte (0x80 + size)] w
  else
    let s := putint size in
    eb_write (Zbyte (0xB7 + zlen s) :: s) w.

Definition encodeString (b : list byte) (w : encbuf) : encbuf :=
  match b with
  | [x] => if byteZ x <=? 0x7F then eb_write [x] w
           else eb_write b (encodeStringHeader (zlen b) w)
  | _ => eb_write b (encodeStringHeader (zlen b) w)
  end.

(** The size of the encoding so far. *)
Definition eb_size (w : encbuf) : Z := zlen (eb_str w) + eb_lhsize w.

(** The pointer [list] returns is the index of the header. *)
Definition eb_list (w : encbuf) : nat * encbuf :=
  (length (eb_lheads w),
   mkEncbuf (eb_str w) (eb_lheads w ++ [mkListhead (zlen (eb_str w)) (eb_lhsize w)]) (eb_lhsize w)).

Definition listEnd (lh : nat) (w : encbuf) : encbuf :=
  match eb_lheads w !! lh with
  | None => w
  | Some h =>
      let size := eb_size w - lh_offset h - lh_size h in
      mkEncbuf (eb_str w) (<[lh := mkListhead (lh_offset h) size]> (eb_lheads w))
        (if size <? 56 then eb_lhsize w + 1 else eb_lhsize w + (1 + intsize size))
  end.

(** The loop of [toBytes]; [out] is what has been written, of an array of
    [size] bytes.  Slicing out of range, or a header that does not fit, panics. *)
Fixpoint toBytesLoop (size : Z) (str : list byte) (heads : list listhead) (strpos : Z)
    (out : list byte) : option (Z * list byte) :=
  match heads with
  | [] => Some (strpos, out)
  | head :: heads' =>
      match slice str strpos (lh_offset head) with
      | None => None
      | Some piece =>
          let copied := take (Z.to_nat (size - zlen out)) piece in
          let out := out ++ copied in
          let enc := listhead_encode head in
          if zlen out + zlen enc <=? size
          then toBytesLoop size str heads' (strpos + zlen copied) (out ++ enc)
          else None
      end
  end.

Definition toBytes (w : encbuf) : option (list byte) :=
  let size := eb_size w in
  match toBytesLoop size (eb_str w) (eb_lheads w) 0 [] with
  | None => None
  | Some (strpos, out) =>
      match slice (eb_str w) strpos (zlen (eb_str w)) with
      | None => None
      | Some piece =>
          let out := out ++ take (Z.to_nat (size - zlen out)) piece in
          Some (out ++ replicate (Z.to_nat (size - zlen out)) x00)
      end
  end.

(** ** encode.go: writers *)

Definition writeUint (i : Z) (w : encbuf) : encbuf :=
  if i =? 0 then eb_write [x80] w
  else if i <? 128 then eb_write [Zbyte i] w
  else
    let s := putint i in
    eb_write (Zbyte (0x80 + zlen s) :: s) w.

Definition writeBool (b : bool) (w : encbuf) : encbuf :=
  if b then eb_write [x01] w else eb_write [x80] w.

Definition writeBigInt (i : Z) (w : encbuf) : rlpErr + encbuf :=
  if i <? 0 then inl errNegativeBigInt
  else if i =? 0 then inr (eb_write [x80] w)
  else inr (encodeString (Bytes i) w).

#[local] Set Warnings "-register-all".

(** A value that is a byte slice, or a slice of such values. *)
Inductive item :=
| Str (b : list byte)
| Lst (l : list item).

(** [writeBytes] and [makeSliceWriter]. *)
Fixpoint writeItem (v : item) (w : encbuf) : encbuf :=
  match v with
  | Str b => encodeString b w
  | Lst l =>
      let '(lh, w) := eb_list w in
      let w := fold_left (fun w x => writeItem x w) l w in
      listEnd lh w
  end.

Definition EncodeToBytes (v : item) : option (list byte) := toBytes (writeItem v eb_reset).

(** ** raw.go *)

Definition ListSize (contentSize : Z) : Z := u64 (headsize contentSize + contentSize).

(** Byte [i] of [b] as a [uint64]; [readSize] has checked the length. *)
Definition byteAt (b : list byte) (i : nat) : Z := byteZ (nth i b x00).

Definition readSize (b : list byte) (slen : Z) : rlpErr + Z :=
  if slen >? zlen b then inl io_ErrUnexpectedEOF
  else
    let at_ i n := Z.shiftl (byteAt b i) n in
    let s :=
      match Z.to_nat slen with
      | 1%nat => byteAt b 0
      | 2%nat => Z.lor (at_ 0%nat 8) (byteAt b 1)
      | 3%nat => Z.lor (Z.lor (at_ 0%nat 16) (at_ 1%nat 8)) (byteAt b 2)
      | 4%nat => Z.lor (Z.lor (Z.lor (at_ 0%nat 24) (at_ 1%nat 16)) (at_ 2%nat 8)) (byteAt b 3)
      | 5%nat =>
          Z.lor (Z.lor (Z.lor (Z.lor (at_ 0%nat 32) (at_ 1%nat 24)) (at_ 2%nat 16))
            (at_ 3%nat 8)) (byteAt b 4)
      | 6%nat =>
          Z.lor (Z.lor (Z.lor (Z.lor (Z.lor (at_ 0%nat 40) (at_ 1%nat 32)) (at_ 2%nat 24))
            (at_ 3%nat 16)) (at_ 4%nat 8)) (byteAt b 5)
      | 7%nat =>
          Z.lor (Z.lor (Z.lor (Z.lor (Z.lor (Z.lor (at_ 0%nat 48) (at_ 1%nat 40)) (at_ 2%nat 32))
            (at_ 3%nat 24)) (at_ 4%nat 16)) (at_ 5%nat 8)) (byteAt b 6)
      | 8%nat =>
          Z.lor (Z.lor (Z.lor (Z.lor (Z.lor (Z.lor (Z.lor (at_ 0%nat 56) (at_ 1%nat 48))
            (at_ 2%nat 40)) (at_ 3%nat 32)) (at_ 4%nat 24)) (at_ 5%nat 16)) (at_ 6%nat 8))
            (byteAt b 7)
      | _ => 0
      end in
    if (s <? 56) || (byteAt b 0 =? 0) then inl ErrCanonSize else inr s.

(** The switch of [readKind] on the first byte. *)
Definition readTag (b0 : byte) (rest : list byte) : rlpErr + Kind * Z * Z :=
  let b := byteZ b0 in
  if b <? 0x80 then inr (KByte, 0, 1)
  else if b <? 0xB8 then
    let contentsize := b - 0x80 in
    match rest with
    | b1 :: _ => if (contentsize =? 1) && (byteZ b1 <? 128) then inl ErrCanonSize
                 else inr (KString, 1, contentsize)
    | [] => inr (KString, 1, contentsize)
    end
  else if b <? 0xC0 then
    match readSize rest (b - 0xB7) with
    | inl e => inl e
    | inr cs => inr (KString, (b - 0xB7) + 1, cs)
    end
  else if b <? 0xF8 then inr (KList, 1, b - 0xC0)
  else
    match readSize rest (b - 0xF7) with
    | inl e => inl e
    | inr cs => inr (KList, (b - 0xF7) + 1, cs)
    end.

(** The kind, the size of the tag and the size of the content. *)
Definition readKind (buf : list byte) : rlpErr + Kind * Z * Z :=
  match buf with
  | [] => inl io_ErrUnexpectedEOF
  | b0 :: rest =>
      match readTag b0 rest with
      | inl e => inl e
      | inr (k, tagsize, contentsize) =>
          if contentsize >? u64 (zlen buf - tagsize) then inl ErrValueTooLarge
          else inr (k, tagsize, contentsize)
      end
  end.

(** [None] is a slice out of range. *)
Definition Split (b : list byte) : option (rlpErr + Kind * list byte * list byte) :=
  match readKind b with
  | inl e => Some (inl e)
  | inr (k, ts, cs) =>
      match slice b ts (u64 (ts + cs)), slice b (u64 (ts + cs)) (zlen b) with
      | Some content, Some rest => Some (inr (k, content, rest))
      | _, _ => None
      end
  end.

Definition SplitString (b : list byte) : option (rlpErr + list byte * list byte) :=
  match Split b with
  | None => None
  | Some (inl e) => Some (inl e)
  | Some (inr (k, content, rest)) =>
      if bool_decide (k = KList) then Some (inl ErrExpectedString) else Some (inr (content, rest))
  end.

Definition SplitList (b : list byte) : option (rlpErr + list byte * list byte) :=
  match Split b with
  | None => None
  | Some (inl e) => Some (inl e)
  | Some (inr (k, content, rest)) =>
      if bool_decide (k = KList) then Some (inr (content, rest)) else Some (inl ErrExpectedList)
  end.

(** Every round takes at least one byte off [b]. *)
Fixpoint CountValuesLoop (rounds : nat) (b : list byte) (i : Z) : option (rlpErr + Z) :=
  match rounds, b with
  | _, [] => Some (inr i)
  | O, _ => None
  | S r, _ =>
      match readKind b with
      | inl e => Some (inl e)
      | inr (_, tagsize, size) =>
          match slice b (u64 (tagsize + size)) (zlen b) with
          | None => None
          | Some b => CountValuesLoop r b (i + 1)
          end
      end
  end.
Definition CountValues (b : list byte) : option (rlpErr + Z) := CountValuesLoop (length b) b 0.

(** ** The format *)

Definition rlp_head (small large : Z) (n : Z) : list byte :=
  if n <? 56 then [Zbyte (small + n)]
  else Zbyte (large + zlen (Bytes n)) :: Bytes n.

Definition rlp_string (b : list byte) : list byte :=
  match b with
  | [x] => if byteZ x <? 128 then [x] else rlp_head 0x80 0xB7 1 ++ b
  | _ => rlp_head 0x80 0xB7 (zlen b) ++ b
  end.

Definition rlp_list (content : list byte) : list byte :=
  rlp_head 0xC0 0xF7 (zlen content) ++ content.

Fixpoint rlp (v : item) : list byte :=
  match v with
  | Str b => rlp_string b
  | Lst l => rlp_list (concat (map rlp l))
  end.

Example rlp_dog : rlp (Lst [Str [x63; x61; x74]; Str [x7f]; Lst []]) =
  [xc6; x83; x63; x61; x74; x7f; xc0].
Proof. reflexivity. Qed.
Example encode_dog : EncodeToBytes (Lst [Str [x63; x61; x74]; Str [x7f]; Lst []]) =
  Some [xc6; x83; x63; x61; x74; x7f; xc0].
Proof. reflexivity. Qed.
Example split_dog : Split [xc6; x83; x63; x61; x74; x7f; xc0; x05] =
  Some (inr (KList, [x83; x63; x61; x74; x7f; xc0], [x05])).
Proof. reflexivity. Qed.

(** ** Lemmas: headers *)

Lemma Bytes_be k x :
  0 < Z.of_nat k -> 256 ^ (Z.of_nat k - 1) <= x < 256 ^ Z.of_nat k -> Bytes x = be_bytes k x.
Proof.
  intros Hk [Hl Hu]. assert (0 < 256 ^ (Z.of_nat k - 1)) by (apply Z.pow_pos_nonneg; lia).
  unfold Bytes. rewrite Z.abs_eq by lia. f_equal. rewrite pow256 in Hl, Hu by lia.
  assert (BitLen x <= 8 * Z.of_nat k) by (apply BitLen_le; lia).
  assert (8 * (Z.of_nat k - 1) < BitLen x).
  { destruct (Z.lt_ge_cases (8 * (Z.of_nat k - 1)) (BitLen x)) as [|Hge]; [done|].
    apply BitLen_le in Hge; [|lia]. rewrite pow256 in * by lia. lia. }
  assert ((BitLen x + 7) / 8 = Z.of_nat k); [|lia].
  symmetry. apply Z.div_unique with (BitLen x + 7 - 8 * Z.of_nat k); lia.
Qed.

(** The most significant byte first. *)
Lemma be_bytes_cons n i : be_bytes (S n) i = Zbyte (Z.shiftr i (8 * Z.of_nat n)) :: be_bytes n i.
Proof.
  revert i. induction n as [|n IH]; intros i; [cbn; by rewrite Z.shiftr_0_r|].
  change (be_bytes (S (S n)) i) with (be_bytes (S n) (i / 256) ++ [Zbyte i]).
  rewrite IH. cbn [app]. f_equal. f_equal. change 256 with (2 ^ 8).
  rewrite <- Z.shiftr_div_pow2, Z.shiftr_shiftr by lia. f_equal. lia.
Qed.

(** The number of bytes of a positive [uint64]. *)
Lemma byte_count i :
  0 < i < 2 ^ 64 ->
  exists k : nat, 0 < Z.of_nat k <= 8 /\ 256 ^ (Z.of_nat k - 1) <= i < 256 ^ Z.of_nat k.
Proof.
  intros Hi. destruct (Z.lt_ge_cases i (256 ^ 1)); [exists 1%nat; lia|].
  destruct (Z.lt_ge_cases i (256 ^ 2)); [exists 2%nat; lia|].
  destruct (Z.lt_ge_cases i (256 ^ 3)); [exists 3%nat; lia|].
  destruct (Z.lt_ge_cases i (256 ^ 4)); [exists 4%nat; lia|].
  destruct (Z.lt_ge_cases i (256 ^ 5)); [exists 5%nat; lia|].
  destruct (Z.lt_ge_cases i (256 ^ 6)); [exists 6%nat; lia|].
  destruct (Z.lt_ge_cases i (256 ^ 7)); [exists 7%nat; lia|].
  exists 8%nat. lia.
Qed.

Lemma putint_Bytes i : 0 < i < 2 ^ 64 -> putint i = Bytes i.
Proof.
  intros Hi. unfold putint. change (Z.shiftl 1 8) with (256 ^ 1).
  change (Z.shiftl 1 16) with (256 ^ 2). change (Z.shiftl 1 24) with (256 ^ 3).
  change (Z.shiftl 1 32) with (256 ^ 4). change (Z.shiftl 1 40) with (256 ^ 5).
  change (Z.shiftl 1 48) with (256 ^ 6). change (Z.shiftl 1 56) with (256 ^ 7).
  repeat split_if;
    first [rewrite (Bytes_be 1) by lia | rewrite (Bytes_be 2) by lia | rewrite (Bytes_be 3) by lia
          | rewrite (Bytes_be 4) by lia | rewrite (Bytes_be 5) by lia | rewrite (Bytes_be 6) by lia
          | rewrite (Bytes_be 7) by lia | rewrite (Bytes_be 8) by lia];
    rewrite !be_bytes_cons; cbn [be_bytes]; change (8 * Z.of_nat 0) with 0;
    by rewrite Z.shiftr_0_r.
Qed.

Lemma intsizeLoop_spec r : forall k i size,
  0 < Z.of_nat k <= Z.of_nat r -> 256 ^ (Z.of_nat k - 1) <= i < 256 ^ Z.of_nat k ->
  intsizeLoop r i size = size + Z.of_nat k - 1.
Proof.
  induction r as [|r IH]; intros k i size Hk Hi; [lia|]. cbn [intsizeLoop].
  rewrite Z.shiftr_div_pow2 by lia. change (2 ^ 8) with 256.
  destruct k as [|[|k]]; [lia| |].
  - rewrite Z.div_small by lia. cbn. lia.
  - replace (Z.of_nat (S (S k)) - 1) with (Z.of_nat k + 1) in Hi by lia.
    replace (Z.of_nat (S (S k))) with (Z.of_nat k + 1 + 1) in Hi by lia.
    rewrite !Z.pow_add_r in Hi by lia. change (256 ^ 1) with 256 in Hi.
    assert (0 < 256 ^ Z.of_nat k) by (apply Z.pow_pos_nonneg; lia).
    assert (256 ^ Z.of_nat k <= i / 256 < 256 ^ Z.of_nat k * 256).
    { split; [apply Z.div_le_lower_bound; lia|apply Z.div_lt_upper_bound; lia]. }
    replace (i / 256 =? 0) with false by lia.
    rewrite (IH (S k)); [lia|lia|]. replace (Z.of_nat (S k) - 1) with (Z.of_nat k) by lia.
    replace (Z.of_nat (S k)) with (Z.of_nat k + 1) by lia. rewrite Z.pow_add_r by lia.
    change (256 ^ 1) with 256. lia.
Qed.

Lemma intsize_Bytes i : 0 < i < 2 ^ 64 -> intsize i = zlen (Bytes i).
Proof.
  intros Hi. destruct (byte_count i Hi) as (k & Hk & Hb). unfold intsize.
  rewrite (intsizeLoop_spec 8 k), (Bytes_be k) by lia. unfold zlen. rewrite length_be_bytes. lia.
Qed.

Lemma puthead_rlp small large n :
  0 <= n < 2 ^ 64 -> puthead small large n = rlp_head small large n.
Proof.
  intros Hn. unfold puthead, rlp_head. split_if; [done|]. by rewrite putint_Bytes by lia.
Qed.

Lemma zlen_rlp_head small large n :
  0 <= n < 2 ^ 64 -> zlen (rlp_head small large n) = headsize n.
Proof.
  intros Hn. unfold rlp_head, headsize. split_if; [done|].
  rewrite zlen_cons, intsize_Bytes by lia. lia.
Qed.

(** ** Lemmas: the buffer *)

Lemma item_ind' (P : item -> Prop) :
  (forall b, P (Str b)) -> (forall l, Forall P l -> P (Lst l)) -> forall v, P v.
Proof.
  intros HS HL. fix IH 1. intros [b|l]; [apply HS|]. apply HL.
  induction l as [|v l IHl]; constructor; [apply IH|exact IHl].
Qed.

(** The bytes a buffer stands for: string data that starts at [pos], with the
    headers put in. *)
Fixpoint render (pos : Z) (hs : list listhead) (s : list byte) : list byte :=
  match hs with
  | [] => s
  | h :: hs' =>
      take (Z.to_nat (lh_offset h - pos)) s ++ listhead_encode h ++
      render (lh_offset h) hs' (drop (Z.to_nat (lh_offset h - pos)) s)
  end.

(** Headers in order, at positions from [lo] to [hi]. *)
Fixpoint heads_in (lo hi : Z) (hs : list listhead) : Prop :=
  match hs with
  | [] => lo <= hi
  | h :: hs' => lo <= lh_offset h /\ heads_in (lh_offset h) hi hs'
  end.

Lemma heads_in_le hs : forall lo hi, heads_in lo hi hs -> lo <= hi.
Proof.
  induction hs as [|h hs IH]; intros lo hi; cbn; [done|]. intros [H1 H2].
  apply IH in H2. lia.
Qed.

Lemma heads_in_app hs1 hs2 : forall lo mid hi,
  heads_in lo mid hs1 -> heads_in mid hi hs2 -> heads_in lo hi (hs1 ++ hs2).
Proof.
  induction hs1 as [|h hs1 IH]; intros lo mid hi; cbn.
  - intros Hle. destruct hs2 as [|h hs2]; cbn; [lia|]. intros [? ?]. split; [lia|done].
  - intros [H1 H2] H3. split; [done|]. by eapply IH.
Qed.

Lemma render_app hs1 hs2 : forall pos hi s1 s2,
  heads_in pos (pos + zlen s1) hs1 -> heads_in (pos + zlen s1) hi hs2 ->
  render pos (hs1 ++ hs2) (s1 ++ s2) = render pos hs1 s1 ++ render (pos + zlen s1) hs2 s2.
Proof.
  induction hs1 as [|h hs1 IH]; intros pos hi s1 s2; cbn.
  - intros _. destruct hs2 as [|h hs2]; cbn; [done|]. intros [Hle _].
    replace (Z.to_nat (lh_offset h - pos))
      with (length s1 + Z.to_nat (lh_offset h - (pos + zlen s1)))%nat by (unfold zlen in *; lia).
    by rewrite take_app_add, drop_app_add, <- app_assoc.
  - intros [H1 H2] H3. pose proof (heads_in_le _ _ _ H2) as Hle.
    set (n := Z.to_nat (lh_offset h - pos)).
    assert (n <= length s1)%nat as Hn by (unfold n, zlen in *; lia).
    assert (lh_offset h + zlen (drop n s1) = pos + zlen s1) as Hd.
    { unfold zlen, n in *. rewrite length_drop. lia. }
    rewrite take_app_le, drop_app_le by done.
    rewrite (IH _ hi); [|by rewrite Hd..]. by rewrite Hd, !app_assoc.
Qed.

(** [w'] is [w] with the encoding [out] written behind it. *)
Definition writes (w w' : encbuf) (out : list byte) : Prop :=
  exists s hs n,
    w' = mkEncbuf (eb_str w ++ s) (eb_lheads w ++ hs) (eb_lhsize w + n) /\
    heads_in (zlen (eb_str w)) (zlen (eb_str w) + zlen s) hs /\
    render (zlen (eb_str w)) hs s = out /\ zlen out = zlen s + n.

Lemma writes_refl w : writes w w [].
Proof.
  exists [], [], 0. destruct w. cbn. rewrite !app_nil_r, Z.add_0_r.
  split; [done|]. split; [cbn; unfold zlen; cbn; lia|done].
Qed.

Lemma writes_str w b : writes w (eb_write b w) b.
Proof.
  exists b, [], 0. destruct w. unfold eb_write. cbn. rewrite !app_nil_r, !Z.add_0_r.
  split; [done|]. pose proof (zlen_nonneg b). split; [lia|done].
Qed.

Lemma writes_trans w1 w2 w3 o1 o2 : writes w1 w2 o1 -> writes w2 w3 o2 -> writes w1 w3 (o1 ++ o2).
Proof.
  intros (s1 & h1 & n1 & -> & H1 & R1 & Z1) (s2 & h2 & n2 & -> & H2 & R2 & Z2). cbn in *.
  rewrite zlen_app in *. exists (s1 ++ s2), (h1 ++ h2), (n1 + n2).
  rewrite !zlen_app, !app_assoc, !Z.add_assoc. split; [done|].
  split; [by eapply heads_in_app|]. split; [|lia].
  rewrite (render_app h1 h2 _ (zlen (eb_str w1) + zlen s1 + zlen s2)) by done. by rewrite R1, R2.
Qed.

Lemma encodeString_writes b w :
  zlen b < 2 ^ 63 -> writes w (encodeString b w) (rlp_string b).
Proof.
  intros Hb. pose proof (zlen_nonneg b).
  assert (forall n b', 0 <= n < 2 ^ 63 ->
    writes w (eb_write b' (encodeStringHeader n w)) (rlp_head 0x80 0xB7 n ++ b')) as Hh.
  { intros n b' Hn. eapply writes_trans; [|apply writes_str].
    rewrite <- puthead_rlp by lia. unfold encodeStringHeader, puthead.
    split_if; apply writes_str. }
  unfold encodeString, rlp_string. destruct b as [|x [|y b]]; try (apply Hh; lia).
  destruct (Z.leb_spec (byteZ x) 127); destruct (Z.ltb_spec (byteZ x) 128); try lia.
  - apply writes_str.
  - by apply Hh.
Qed.

Lemma list_writes w w2 out :
  zlen out < 2 ^ 63 ->
  writes (eb_list w).2 w2 out -> writes w (listEnd (eb_list w).1 w2) (rlp_list out).
Proof.
  intros Hout (s & hs & n & -> & H & R & Zn). cbn in *. pose proof (zlen_nonneg out).
  unfold listEnd. cbn [eb_lheads eb_str eb_lhsize].
  rewrite <- app_assoc. cbn [app]. rewrite list_lookup_middle by done. cbn [lh_offset lh_size eb_size eb_str eb_lhsize].
  set (size := eb_size _ - _ - _).
  assert (size = zlen out) as Hsize.
  { unfold size, eb_size. cbn. rewrite zlen_app. lia. }
  exists s, (mkListhead (zlen (eb_str w)) size :: hs), (n + headsize size).
  rewrite insert_app_r_alt, Nat.sub_diag by done.
  split; [|split; [|split]].
  - f_equal. unfold headsize. destruct (size <? 56); lia.
  - cbn. split; [lia|done].
  - cbn [render lh_offset]. rewrite Z.sub_diag. change (Z.to_nat 0) with O.
    rewrite take_0, drop_0. cbn [app]. rewrite R. unfold rlp_list, listhead_encode.
    cbn [lh_size]. by rewrite Hsize, puthead_rlp by lia.
  - unfold rlp_list. rewrite zlen_app, zlen_rlp_head, Hsize by lia. lia.
Qed.

Lemma zlen_rlp_list c : zlen c <= zlen (rlp_list c).
Proof. unfold rlp_list. rewrite zlen_app. pose proof (zlen_nonneg (rlp_head 0xC0 0xF7 (zlen c))). lia. Qed.

Lemma zlen_rlp_string b : zlen b <= zlen (rlp_string b).
Proof.
  assert (forall n, zlen b <= zlen (rlp_head 0x80 0xB7 n ++ b)) as H.
  { intros n. rewrite zlen_app. pose proof (zlen_nonneg (rlp_head 0x80 0xB7 n)). lia. }
  unfold rlp_string. destruct b as [|x [|]]; try apply H. destruct (_ <? _); [done|apply H].
Qed.

Lemma writeItem_writes v : forall w, zlen (rlp v) < 2 ^ 63 -> writes w (writeItem v w) (rlp v).
Proof.
  induction v as [b|l IH] using item_ind'; intros w Hsz.
  { apply encodeString_writes. pose proof (zlen_rlp_string b). cbn in Hsz. lia. }
  cbn [rlp writeItem] in *. pose proof (zlen_rlp_list (concat (map rlp l))) as Hc.
  destruct (eb_list w) as [lh w1] eqn:El.
  assert (forall w, writes w (fold_left (fun w x => writeItem x w) l w) (concat (map rlp l))) as Hl.
  { assert (zlen (concat (map rlp l)) < 2 ^ 63) as Hsz' by lia. clear - IH Hsz'.
    induction IH as [|v l Hv _ IHl]; intros w; cbn in *; [apply writes_refl|].
    rewrite zlen_app in Hsz'. pose proof (zlen_nonneg (rlp v)).
    pose proof (zlen_nonneg (concat (map rlp l))).
    eapply writes_trans; [apply Hv; lia|apply IHl; lia]. }
  replace lh with (eb_list w).1 by by rewrite El. apply list_writes; [lia|].
  rewrite El. apply Hl.
Qed.

Lemma toBytesLoop_spec size str hs : forall pos out,
  0 <= pos -> heads_in pos (zlen str) hs ->
  size = zlen out + zlen (render pos hs (drop (Z.to_nat pos) str)) ->
  exists pos' out', toBytesLoop size str hs pos out = Some (pos', out') /\ 0 <= pos' <= zlen str /\
    out' ++ drop (Z.to_nat pos') str = out ++ render pos hs (drop (Z.to_nat pos) str).
Proof.
  induction hs as [|h hs IH]; intros pos out Hp Hin Hsz; cbn [toBytesLoop render heads_in] in *.
  { exists pos, out. split; [done|]. split; [lia|done]. }
  destruct Hin as [Hle Hin]. pose proof (heads_in_le _ _ _ Hin) as Hle2.
  rewrite slice_Some by lia. set (n := Z.to_nat (lh_offset h - pos)) in *.
  set (piece := take n (drop (Z.to_nat pos) str)) in *.
  assert (zlen piece = lh_offset h - pos) as Hpl.
  { unfold piece, zlen, n in *. rewrite length_take, length_drop. lia. }
  rewrite !zlen_app in Hsz. set (rest := render (lh_offset h) hs _) in *.
  pose proof (zlen_nonneg rest). pose proof (zlen_nonneg (listhead_encode h)).
  rewrite take_ge by (unfold zlen in *; lia). rewrite zlen_app.
  replace (_ <=? size) with true by lia.
  replace (pos + zlen piece) with (lh_offset h) by lia.
  assert (drop n (drop (Z.to_nat pos) str) = drop (Z.to_nat (lh_offset h)) str) as Hd.
  { rewrite drop_drop. f_equal. unfold n. lia. }
  unfold rest in *. rewrite Hd in *.
  destruct (IH (lh_offset h) ((out ++ piece) ++ listhead_encode h)) as (pos' & out' & E & Hb & Ho);
    [lia|done|rewrite !zlen_app; lia|].
  exists pos', out'. split; [done|]. split; [done|]. by rewrite Ho, <- !app_assoc.
Qed.

(** What has been written comes out of [toBytes]. *)
Lemma toBytes_writes w e : writes eb_reset w e -> toBytes w = Some e.
Proof.
  intros (s & hs & n & -> & Hin & R & Zn). unfold toBytes, eb_size.
  cbn [eb_str eb_lheads eb_lhsize eb_reset app] in *. rewrite !Z.add_0_l in *.
  change (zlen (@nil byte)) with 0 in *.
  destruct (toBytesLoop_spec (zlen s + n) s hs 0 []) as (pos & out & -> & Hb & Ho);
    [lia|done|by rewrite drop_0, R|].
  cbn [app] in Ho. change (Z.to_nat 0) with O in Ho. rewrite drop_0, R in Ho.
  rewrite slice_Some by lia. f_equal.
  rewrite (take_ge (drop _ _)) by (unfold zlen in *; rewrite length_drop; lia).
  assert (zlen out + (zlen s - pos) = zlen s + n) as Hz.
  { rewrite <- Zn, <- Ho, zlen_app. f_equal. unfold zlen in *. rewrite length_drop. lia. }
  rewrite take_ge by (unfold zlen in *; rewrite length_drop; lia). rewrite Ho.
  rewrite Zn, Z.sub_diag. apply app_nil_r.
Qed.

(** The optimised encoder computes the recursive format. *)
Lemma EncodeToBytes_rlp v : zlen (rlp v) < 2 ^ 63 -> EncodeToBytes v = Some (rlp v).
Proof. intros Hsz. by apply toBytes_writes, writeItem_writes. Qed.

(** ** Lemmas: sizes *)

Lemma lor_add n x y :
  0 <= n -> x mod 2 ^ n = 0 -> 0 <= y < 2 ^ n -> Z.lor x y = x + y.
Proof.
  intros Hn Hx Hy. symmetry. apply Z.add_nocarry_lor. apply Z.bits_inj'. intros i Hi.
  rewrite Z.land_spec, Z.bits_0.
  destruct (Z.lt_ge_cases i n) as [Hlt|Hge].
  - rewrite (Z.div_mod x (2 ^ n)), Hx, Z.add_0_r, Z.mul_comm by lia.
    by rewrite Z.mul_pow2_bits_low.
  - destruct (Z.eq_dec y 0) as [->|]; [by rewrite Z.bits_0, andb_comm|].
    rewrite andb_comm, (Z.bits_above_log2 y); [done|lia|]. apply Z.log2_lt_pow2; [lia|].
    eapply Z.lt_le_trans; [apply Hy|]. apply Z.pow_le_mono_r; lia.
Qed.

(** The bytes shifted into place one after the other. *)
Definition be_or (l : list Z) : Z := fold_left (fun s x => Z.lor (Z.shiftl s 8) x) l 0.

Lemma be_or_SetBytes l : be_or (map byteZ l) = SetBytes l.
Proof.
  induction l as [|b l IH] using rev_ind; [done|].
  unfold be_or in *. rewrite map_app, fold_left_app, IH, SetBytes_snoc. cbn.
  rewrite Z.shiftl_mul_pow2 by lia. apply (lor_add 8); [lia| |apply byteZ_range].
  change (2 ^ 8) with 256. apply Z.mod_mul. lia.
Qed.

Lemma readSize_spec b slen :
  1 <= slen <= 8 ->
  readSize b slen =
    if slen >? zlen b then inl io_ErrUnexpectedEOF
    else
      let s := SetBytes (take (Z.to_nat slen) b) in
      if (s <? 56) || (byteAt b 0 =? 0) then inl ErrCanonSize else inr s.
Proof.
  intros Hs. unfold readSize. destruct (slen >? zlen b) eqn:E; [done|]. zbool. cbv zeta.
  rewrite <- be_or_SetBytes.
  assert (slen = 1 \/ slen = 2 \/ slen = 3 \/ slen = 4 \/ slen = 5 \/ slen = 6 \/ slen = 7 \/ slen = 8)
    as H by lia.
  unfold zlen in E.
  repeat destruct H as [->|H]; [..|subst slen];
    repeat (destruct b as [|? b]; [cbn [length] in E; lia|]);
    match goal with |- context [Z.to_nat ?k] =>
      let n := eval vm_compute in (Z.to_nat k) in change (Z.to_nat k) with n end;
    unfold be_or, byteAt; cbn [nth take map fold_left];
    rewrite Z.shiftl_0_l, Z.lor_0_l, ?Z.shiftl_lor, ?Z.shiftl_shiftl by lia; reflexivity.
Qed.

(** ** Lemmas: minimal big-endian numbers *)

Lemma SetBytes_cons x l : SetBytes (x :: l) = byteZ x * 256 ^ zlen l + SetBytes l.
Proof.
  induction l as [|y l IH] using rev_ind.
  { unfold SetBytes. cbn [fold_left]. change (256 ^ zlen (@nil byte)) with 1. lia. }
  rewrite app_comm_cons, !SetBytes_snoc, IH, zlen_app. change (zlen [y]) with 1.
  rewrite Z.pow_add_r by (pose proof (zlen_nonneg l); lia). change (256 ^ 1) with 256. lia.
Qed.

Lemma Bytes_SetBytes x l : byteZ x <> 0 -> Bytes (SetBytes (x :: l)) = x :: l.
Proof.
  intros Hx. pose proof (byteZ_range x). pose proof (SetBytes_range (x :: l)) as Hr.
  rewrite <- (be_bytes_SetBytes (x :: l)) at 2. apply Bytes_be; [cbn; lia|].
  unfold zlen in Hr. split; [|lia]. rewrite SetBytes_cons.
  pose proof (SetBytes_range l) as Hl. unfold zlen in *. cbn [length] in *.
  replace (Z.of_nat (S (length l)) - 1) with (Z.of_nat (length l)) by lia. nia.
Qed.

Lemma Bytes_head n :
  0 < n < 2 ^ 64 ->
  exists x l, Bytes n = x :: l /\ byteZ x <> 0 /\ SetBytes (Bytes n) = n /\ 1 <= zlen (Bytes n) <= 8.
Proof.
  intros Hn. destruct (byte_count n Hn) as (k & Hk & Hb). rewrite (Bytes_be k) by lia.
  assert (zlen (be_bytes k n) = Z.of_nat k) as Hz by (unfold zlen; by rewrite length_be_bytes).
  assert (SetBytes (be_bytes k n) = n) as Hs.
  { rewrite SetBytes_be_bytes by lia. apply Z.mod_small. lia. }
  destruct k as [|k]; [lia|]. replace (Z.of_nat (S k) - 1) with (Z.of_nat k) in Hb by lia.
  rewrite be_bytes_cons in *. eexists _, _. split; [done|]. split; [|split; [done|lia]].
  intros H0. rewrite SetBytes_cons, H0 in Hs. pose proof (SetBytes_range (be_bytes k n)) as Hr.
  unfold zlen in Hr. rewrite length_be_bytes in Hr. lia.
Qed.

Lemma zlen_rlp_short b : zlen b < 56 -> zlen (rlp (Str b)) <= 1 + zlen b.
Proof.
  intros Hb. cbn [rlp]. unfold rlp_string.
  assert (zlen (rlp_head 0x80 0xB7 (zlen b) ++ b) <= 1 + zlen b).
  { unfold rlp_head. replace (zlen b <? 56) with true by lia. rewrite zlen_app, zlen_cons.
    change (zlen (@nil byte)) with 0. lia. }
  destruct b as [|x [|]]; try done. split_if; [change (zlen [x]) with 1; lia|done].
Qed.

Lemma SetBytes_Bytes x : 0 <= x -> SetBytes (Bytes x) = x.
Proof.
  intros Hx. unfold Bytes. rewrite Z.abs_eq, SetBytes_be_bytes by done. pose proof (BitLen_nonneg x). pose proof (BitLen_bound x).
  apply Z.mod_small. split; [done|]. rewrite Z2Nat.id, pow256 by (apply Z.div_pos; lia).
  eapply Z.lt_le_trans; [|apply Z.pow_le_mono_r with (b := BitLen x); [lia|]]; [lia|].
  pose proof (Z.div_mod (BitLen x + 7) 8 ltac:(lia)). pose proof (Z.mod_pos_bound (BitLen x + 7) 8 ltac:(lia)). lia.
Qed.

(** ** Lemmas: taking an encoding apart *)

(** The encoding of a value of kind [k] with content [c]. *)
Definition enc (k : Kind) (c : list byte) : list byte :=
  match k with KList => rlp_list c | _ => rlp_string c end.

Definition kind_ok (k : Kind) (c : list byte) : Prop :=
  match k with
  | KByte => exists x, c = [x] /\ byteZ x < 128
  | KString => forall x, c = [x] -> 128 <= byteZ x
  | KList => True
  end.

Definition smalltag (k : Kind) : Z := match k with KList => 0xC0 | _ => 0x80 end.
Definition largetag (k : Kind) : Z := match k with KList => 0xF7 | _ => 0xB7 end.

(** Everything but a single small byte is a header in front of its content. *)
Lemma enc_head k c :
  kind_ok k c -> k <> KByte -> enc k c = rlp_head (smalltag k) (largetag k) (zlen c) ++ c.
Proof.
  intros Hk Hn. destruct k; [done| |done]. cbn [enc kind_ok] in *. unfold rlp_string.
  destruct c as [|x [|]]; try done.
  specialize (Hk x eq_refl). by replace (byteZ x <? 128) with false by lia.
Qed.

Lemma readSize_Bytes n r :
  56 <= n < 2 ^ 64 -> readSize (Bytes n ++ r) (zlen (Bytes n)) = inr n.
Proof.
  intros Hn. destruct (Bytes_head n ltac:(lia)) as (x & l & E & Hx & Hs & Hl).
  rewrite readSize_spec by done. rewrite zlen_app. pose proof (zlen_nonneg r).
  replace (zlen (Bytes n) >? zlen (Bytes n) + zlen r) with false by lia. cbv zeta.
  replace (Z.to_nat (zlen (Bytes n))) with (length (Bytes n)) by (unfold zlen; lia).
  rewrite take_app_length, Hs. replace (n <? 56) with false by lia.
  rewrite E. unfold byteAt. cbn [app nth orb]. by replace (byteZ x =? 0) with false by lia.
Qed.

(** The last check of [readKind]. *)
Lemma fits n m t : 0 <= n -> 0 <= m -> n + m < 2 ^ 63 -> (n >? u64 (n + m + t - t)) = false.
Proof. intros. rewrite u64_small by (unfold is_u64; lia). lia. Qed.

Lemma readKind_small k c rest :
  kind_ok k c -> k <> KByte -> zlen c < 56 -> zlen c + zlen rest < 2 ^ 63 ->
  readKind (Zbyte (smalltag k + zlen c) :: c ++ rest) = inr (k, 1, zlen c).
Proof.
  intros Hk Hn Hc Hsz. pose proof (zlen_nonneg c). pose proof (zlen_nonneg rest).
  cbn [readKind]. unfold readTag. rewrite zlen_cons, zlen_app.
  assert (byteZ (Zbyte (smalltag k + zlen c)) = smalltag k + zlen c) as ->.
  { rewrite byteZ_Zbyte. apply Z.mod_small. unfold smalltag. destruct k; lia. }
  destruct k; [done| |]; unfold smalltag.
  - replace (_ <? 0x80) with false by lia. replace (_ <? 0xB8) with true by lia.
    replace (0x80 + zlen c - 0x80) with (zlen c) by lia.
    destruct (c ++ rest) as [|x l] eqn:El; [by rewrite fits|].
    replace ((zlen c =? 1) && (byteZ x <? 128)) with false; [by rewrite fits|].
    destruct (zlen c =? 1) eqn:E1; [|done]. unfold zlen in E1. zbool.
    destruct c as [|y [|]]; cbn [length] in E1; try lia.
    injection El as -> _. specialize (Hk x eq_refl). symmetry. apply Z.ltb_ge. lia.
  - replace (_ <? 0x80) with false by lia. replace (_ <? 0xB8) with false by lia.
    replace (_ <? 0xC0) with false by lia. replace (_ <? 0xF8) with true by lia.
    replace (0xC0 + zlen c - 0xC0) with (zlen c) by lia. by rewrite fits.
Qed.

Lemma readKind_large k c rest :
  let s := Bytes (zlen c) in
  k <> KByte -> 56 <= zlen c -> zlen c + zlen rest < 2 ^ 62 ->
  readKind (Zbyte (largetag k + zlen s) :: s ++ c ++ rest) = inr (k, zlen s + 1, zlen c).
Proof.
  intros s Hn Hc Hsz. pose proof (zlen_nonneg rest).
  destruct (Bytes_head (zlen c) ltac:(lia)) as (_ & _ & _ & _ & _ & Hl). fold s in Hl.
  cbn [readKind]. unfold readTag. rewrite zlen_cons, !zlen_app.
  assert (byteZ (Zbyte (largetag k + zlen s)) = largetag k + zlen s) as ->.
  { rewrite byteZ_Zbyte. apply Z.mod_small. unfold largetag. destruct k; lia. }
  assert (readSize (s ++ c ++ rest) (zlen s) = inr (zlen c)) as Hrs by (apply readSize_Bytes; lia).
  assert ((zlen c >? u64 (zlen s + (zlen c + zlen rest) + 1 - (zlen s + 1))) = false) as Hfit.
  { rewrite u64_small by (unfold is_u64; lia). lia. }
  destruct k; [done| |]; unfold largetag.
  - replace (_ <? 0x80) with false by lia. replace (_ <? 0xB8) with false by lia.
    replace (_ <? 0xC0) with true by lia.
    replace (0xB7 + zlen s - 0xB7) with (zlen s) by lia. by rewrite Hrs, Hfit.
  - replace (_ <? 0x80) with false by lia. replace (_ <? 0xB8) with false by lia.
    replace (_ <? 0xC0) with false by lia. replace (_ <? 0xF8) with false by lia.
    replace (0xF7 + zlen s - 0xF7) with (zlen s) by lia. by rewrite Hrs, Hfit.
Qed.

(** A header, read back. *)
Lemma readKind_enc k c rest :
  kind_ok k c -> zlen c + zlen rest < 2 ^ 62 ->
  readKind (enc k c ++ rest) = inr (k, zlen (enc k c) - zlen c, zlen c).
Proof.
  intros Hk Hsz. pose proof (zlen_nonneg c). pose proof (zlen_nonneg rest).
  destruct (decide (k = KByte)) as [->|Hn].
  { destruct Hk as (x & -> & Hx). cbn [enc rlp_string].
    replace (byteZ x <? 128) with true by lia. cbn [app readKind]. unfold readTag.
    replace (byteZ x <? 128) with true by lia. rewrite !zlen_cons in *.
    rewrite u64_small by (unfold is_u64; change (zlen (@nil byte)) with 0 in *; lia).
    by replace (1 >? _) with false by lia. }
  rewrite enc_head by done. rewrite zlen_app, Z.add_simpl_r, <- app_assoc.
  unfold rlp_head. destruct (zlen c <? 56) eqn:E56; zbool.
  - cbn [app]. apply readKind_small; [done|done|done|lia].
  - rewrite zlen_cons. cbn [app]. by apply readKind_large.
Qed.

(** What [readSize] accepts. *)
Lemma readSize_inv b slen s :
  1 <= slen <= 8 -> readSize b slen = inr s ->
  56 <= s /\ slen <= zlen b /\ Bytes s = take (Z.to_nat slen) b.
Proof.
  intros Hs. rewrite readSize_spec by done. destruct (slen >? zlen b) eqn:E; [done|]. cbv zeta.
  destruct (_ <? 56) eqn:E1; [done|]. destruct (byteAt b 0 =? 0) eqn:E2; [done|].
  intros [= <-]. zbool. split; [done|]. split; [done|].
  destruct b as [|x b]; [change (zlen (@nil byte)) with 0 in E; lia|].
  destruct (Z.to_nat slen) as [|n] eqn:En; [lia|]. cbn [take]. apply Bytes_SetBytes.
  by unfold byteAt in E2.
Qed.

(** [readTag] accepts nothing but the headers of the format. *)
Lemma readTag_inv b0 l k ts cs :
  readTag b0 l = inr (k, ts, cs) ->
  (k = KByte /\ ts = 0 /\ cs = 1 /\ byteZ b0 < 128) \/
  (k <> KByte /\ 0 <= cs /\
   exists r, b0 :: l = rlp_head (smalltag k) (largetag k) cs ++ r /\
     ts = zlen (rlp_head (smalltag k) (largetag k) cs) /\
     (k = KString -> cs = 1 -> forall x r', r = x :: r' -> 128 <= byteZ x)).
Proof.
  pose proof (byteZ_range b0). unfold readTag.
  assert (forall tag n, byteZ b0 = tag + n -> b0 = Zbyte (tag + n)) as Hb
    by (intros tag n Htag; by rewrite <- Htag, Zbyte_byteZ).
  assert (forall large small, byteZ b0 - large <= 8 -> 1 <= byteZ b0 - large ->
    forall cs', readSize l (byteZ b0 - large) = inr cs' ->
    0 <= cs' /\ exists r, b0 :: l = rlp_head small large cs' ++ r /\
      byteZ b0 - large + 1 = zlen (rlp_head small large cs') /\ 56 <= cs') as Hlarge.
  { intros large small Hl1 Hl2 cs' Hrs. apply readSize_inv in Hrs as (H56 & Hle & HB); [|lia].
    assert (zlen (Bytes cs') = byteZ b0 - large) as Hz.
    { rewrite HB. unfold zlen in *. rewrite length_take. lia. }
    split; [lia|]. exists (drop (Z.to_nat (byteZ b0 - large)) l). unfold rlp_head.
    replace (cs' <? 56) with false by lia. rewrite zlen_cons, Hz. split; [|split; [done|lia]].
    cbn [app]. f_equal; [apply Hb; lia|]. by rewrite HB, take_drop. }
  destruct (byteZ b0 <? 0x80) eqn:E1; zbool.
  { intros [= <- <- <-]. left. done. }
  assert (forall k' n, k' <> KByte -> byteZ b0 = smalltag k' + n -> 0 <= n < 56 ->
    b0 :: l = rlp_head (smalltag k') (largetag k') n ++ l /\
    1 = zlen (rlp_head (smalltag k') (largetag k') n)) as Hsmall.
  { intros k' n _ Hn Hr. unfold rlp_head. replace (n <? 56) with true by lia.
    split; [|done]. cbn [app]. f_equal. by apply Hb. }
  destruct (byteZ b0 <? 0xB8) eqn:E2; zbool.
  { destruct (Hsmall KString (byteZ b0 - 0x80) ltac:(done) ltac:(cbn; lia) ltac:(lia)) as [S1 S2].
    destruct l as [|b1 l'].
    - intros [= <- <- <-]. right. split; [done|]. split; [lia|]. exists []. done.
    - destruct (_ && _) eqn:E3; [done|]. intros [= <- <- <-]. right. split; [done|].
      split; [lia|]. exists (b1 :: l'). split; [done|]. split; [done|].
      intros _ H1 x r' [= <- <-]. rewrite H1 in E3. cbn in E3. lia. }
  destruct (byteZ b0 <? 0xC0) eqn:E3; zbool.
  { destruct (readSize l _) as [|cs'] eqn:Er; [done|]. intros [= <- <- <-].
    destruct (Hlarge 0xB7 0x80 ltac:(lia) ltac:(lia) _ Er) as (? & r & R1 & R2 & R3).
    right. split; [done|]. split; [done|]. exists r. split; [done|]. split; [done|lia]. }
  destruct (byteZ b0 <? 0xF8) eqn:E4; zbool.
  { destruct (Hsmall KList (byteZ b0 - 0xC0) ltac:(done) ltac:(cbn; lia) ltac:(lia)) as [S1 S2].
    intros [= <- <- <-]. right. split; [done|]. split; [lia|]. by exists l. }
  destruct (readSize l _) as [|cs'] eqn:Er; [done|]. intros [= <- <- <-].
  destruct (Hlarge 0xF7 0xC0 ltac:(lia) ltac:(lia) _ Er) as (? & r & R1 & R2 & R3).
  right. split; [done|]. split; [done|]. by exists r.
Qed.

Lemma readKind_inv b k ts cs :
  zlen b < 2 ^ 62 -> readKind b = inr (k, ts, cs) ->
  exists c rest, b = enc k c ++ rest /\ kind_ok k c /\ zlen c = cs /\ ts = zlen (enc k c) - cs.
Proof.
  intros Hsz. destruct b as [|b0 l]; [done|]. cbn [readKind]. pose proof (zlen_nonneg l).
  destruct (readTag b0 l) as [|[[k' t] c]] eqn:Et; [done|].
  destruct (c >? _) eqn:Ec; [done|]. intros [= -> -> ->].
  apply readTag_inv in Et as [(-> & -> & -> & Hb)|(Hk & Hc0 & r & E & -> & Hx)].
  - exists [b0], l. cbn [enc rlp_string]. replace (byteZ b0 <? 128) with true by lia.
    split; [done|]. split; [by exists b0|done].
  - rewrite E in Hsz, Ec |- *. set (h := rlp_head _ _ _) in *. rewrite zlen_app in *.
    pose proof (zlen_nonneg h). pose proof (zlen_nonneg r).
    rewrite u64_small in Ec by (unfold is_u64; lia).
    exists (take (Z.to_nat cs) r), (drop (Z.to_nat cs) r).
    assert (zlen (take (Z.to_nat cs) r) = cs) as Hlen by (unfold zlen in *; rewrite length_take; lia).
    assert (kind_ok k (take (Z.to_nat cs) r)) as Hok.
    { destruct k; [done| |done]. intros x Ex. rewrite Ex in Hlen.
      destruct r as [|y r']; [by rewrite take_nil in Ex|].
      change (zlen [x]) with 1 in Hlen. subst cs. injection Ex as ->. by eapply Hx. }
    rewrite enc_head by done. rewrite Hlen, <- app_assoc, take_drop. fold h.
    split; [done|]. split; [done|]. split; [done|]. rewrite zlen_app, Hlen. lia.
Qed.

(** [Split] never panics, and succeeds exactly on an encoding followed by
    anything. *)
Lemma Split_total b : zlen b < 2 ^ 62 -> Split b <> None.
Proof.
  intros Hsz. unfold Split. destruct (readKind b) as [|[[k ts] cs]] eqn:E; [done|].
  destruct (readKind_inv _ _ _ _ Hsz E) as (c & rest & -> & _ & Hc & Hts).
  rewrite zlen_app in *. pose proof (zlen_nonneg c). pose proof (zlen_nonneg rest).
  assert (zlen c <= zlen (enc k c)) by (destruct k; [apply zlen_rlp_string..|apply zlen_rlp_list]).
  rewrite u64_small by (unfold is_u64; lia).
  by rewrite !slice_Some by (rewrite ?zlen_app; lia).
Qed.

Lemma Split_enc k c rest :
  kind_ok k c -> zlen c + zlen rest < 2 ^ 61 ->
  Split (enc k c ++ rest) = Some (inr (k, c, rest)).
Proof.
  intros Hk Hsz. unfold Split. rewrite readKind_enc by (done || lia).
  pose proof (zlen_nonneg c). pose proof (zlen_nonneg rest).
  assert (exists h, enc k c = h ++ c /\ zlen h <= 9) as (h & -> & Hh).
  { destruct (decide (k = KByte)) as [->|Hn].
    - destruct Hk as (x & -> & Hx). exists []. cbn. by replace (byteZ x <? 128) with true by lia.
    - rewrite enc_head by done. eexists. split; [done|].
      rewrite zlen_rlp_head by lia. unfold headsize. split_if; [lia|].
      rewrite intsize_Bytes by lia. destruct (Bytes_head (zlen c) ltac:(lia)) as (_&_&_&_&_&?). lia. }
  pose proof (zlen_nonneg h). rewrite !zlen_app. rewrite u64_small by (unfold is_u64; lia).
  rewrite !slice_Some by (rewrite ?zlen_app; lia). f_equal. f_equal. f_equal; [f_equal|].
  - rewrite <- app_assoc. replace (Z.to_nat (zlen h + zlen c - zlen c)) with (length h) by (unfold zlen; lia).
    rewrite drop_app_length. replace (Z.to_nat _) with (length c) by (unfold zlen; lia).
    apply take_app_length.
  - replace (Z.to_nat (zlen h + zlen c - zlen c + zlen c)) with (length (h ++ c))
      by (rewrite length_app; unfold zlen; lia).
    rewrite drop_app_length. apply take_ge. unfold zlen in *. lia.
Qed.

Lemma Split_inv b k c rest :
  zlen b < 2 ^ 61 -> Split b = Some (inr (k, c, rest)) -> b = enc k c ++ rest /\ kind_ok k c.
Proof.
  intros Hsz. unfold Split at 1. destruct (readKind b) as [|[[k' ts] cs]] eqn:E; [done|].
  destruct (readKind_inv b _ _ _ ltac:(lia) E) as (c' & rest' & -> & Hk & Hc & Hts).
  rewrite zlen_app in Hsz. pose proof (zlen_nonneg rest').
  assert (zlen c' <= zlen (enc k' c')) by (destruct k'; [apply zlen_rlp_string..|apply zlen_rlp_list]).
  pose proof (Split_enc k' c' rest' Hk ltac:(lia)) as Hs. unfold Split in Hs. rewrite E in Hs.
  rewrite Hs. by intros [= -> -> ->].
Qed.
