(* ===== verification/RlpStreamSpec.v ===== *)
(** * rlp/decode.go: what the decoding stream accepts

    A stream between two values has some bytes left to deliver and some room
    in the innermost list.  [Kind] reads a header of the format or fails;
    [decodeInterface] returns [it] exactly where the bytes ahead start with
    [rlp it] and that fits into the list. *)

From Stdlib Require Import ZArith Lia Bool.
From S2P Require Import Prelude GoMath Rlp RlpStream.
Local Open Scope Z_scope.
Local Open Scope go_scope.

(** ** Triples for operations with errors *)

Definition sruns {A} (m : SM A) (s : Stream) (E : rlpErr -> Stream -> Prop)
    (P : A -> Stream -> Prop) : Prop :=
  runs m s (fun v s' => match v with inl e => E e s' | inr a => P a s' end).

Lemma sruns_bind {A B} (m : SM A) (f : A -> SM B) s E P :
  sruns m s E (fun a s' => sruns (f a) s' E P) -> sruns (sbind m f) s E P.
Proof.
  intros (v & s' & Hm & H). unfold sruns, runs, sbind, bind. rewrite Hm.
  destruct v as [e|a]; [by exists (inl e), s'|done].
Qed.

Lemma sruns_mono {A} (m : SM A) s (E E' : rlpErr -> Stream -> Prop) (P P' : A -> Stream -> Prop) :
  sruns m s E P -> (forall e s', E e s' -> E' e s') -> (forall a s', P a s' -> P' a s') ->
  sruns m s E' P'.
Proof. intros (v & s' & Hm & H) HE HP. exists v, s'. split; [done|]. destruct v; auto. Qed.

Lemma sruns_ret {A} (a : A) s (E : rlpErr -> Stream -> Prop) (P : A -> Stream -> Prop) :
  P a s -> sruns (sok a) s E P.
Proof. intros H. by exists (inr a), s. Qed.

Lemma sruns_err {A} e s (E : rlpErr -> Stream -> Prop) (P : A -> Stream -> Prop) :
  E e s -> sruns (serr e) s E P.
Proof. intros H. by exists (inl e), s. Qed.

(** ** Streams *)

(** Every list on the stack fits into what is left of the one around it. *)
Fixpoint stk_ok (stk : list listpos) : Prop :=
  match stk with
  | [] => True
  | t :: up =>
      0 <= lp_pos t <= lp_size t /\ lp_size t < 2 ^ 63 /\
      match up with [] => True | u :: _ => lp_size t <= lp_size u - lp_pos u end /\
      stk_ok up
  end.

(** The bytes that may still be read without leaving the innermost list. *)
Definition room (r : list byte) (stk : list listpos) : Z :=
  match stk with
  | [] => zlen r
  | t :: _ => Z.min (zlen r) (lp_size t - lp_pos t)
  end.

Definition adv (n : Z) (stk : list listpos) : list listpos :=
  match stk with
  | [] => []
  | t :: up => mkListpos (lp_pos t + n) (lp_size t) :: up
  end.

(** [r] is ahead, inside of [stk]. *)
Record ahead (s : Stream) (r : list byte) (stk : list listpos) : Prop := {
  ah_r : st_r s = r;
  ah_rem : st_remaining s = zlen r;
  ah_lim : st_limited s = true;
  ah_stk : st_stack s = stk;
  ah_len : zlen r < 2 ^ 62;
  ah_ok : stk_ok stk
}.

(** Between two values. *)
Definition bnd (s : Stream) r stk : Prop := st_kind s = None /\ ahead s r stk.

(** After a header. *)
Definition seen (s : Stream) k cs r stk : Prop :=
  st_kind s = Some k /\ st_size s = cs /\ st_kinderr s = None /\ ahead s r stk.

Lemma stk_ok_adv n stk r : stk_ok stk -> 0 <= n <= room r stk -> stk_ok (adv n stk).
Proof.
  destruct stk as [|t [|u up]]; cbn [stk_ok adv room lp_pos lp_size]; intros H Hn;
    repeat match goal with H : _ /\ _ |- _ => destruct H end; repeat split; done || lia.
Qed.

Lemma room_adv n h r stk : zlen h = n -> room r (adv n stk) = room (h ++ r) stk - n.
Proof. intros <-. destruct stk; cbn [room adv lp_pos lp_size]; rewrite zlen_app; lia. Qed.

Lemma adv_adv n m stk : adv n (adv m stk) = adv (m + n) stk.
Proof. destruct stk as [|t stk]; [done|]. cbn. f_equal. f_equal. lia. Qed.

Lemma room_le r stk : room r stk <= zlen r.
Proof. destruct stk; cbn [room]; lia. Qed.

(** Errors that end decoding: all but the end of a list. *)
Definition hard (e : rlpErr) (s : Stream) : Prop := e <> EOL.

(** ** Reading *)

(** After [willRead n]: counted, not read. *)
Lemma willRead_ok n s r stk :
  ahead s r stk -> 0 <= n ->
  sruns (willRead n) s (fun e s' => hard e s' /\ room r stk < n)
    (fun _ s' => n <= room r stk /\ st_r s' = r /\
       s' = mkStream r (zlen r - n) true None (st_size s) (st_byteval s) (st_kinderr s) (adv n stk)).
Proof.
  intros [Hr Hrem Hlim Hstk Hlen Hok] Hn. destruct s as [sr srem slim sk ssz sbv ske sstk].
  cbn in Hr, Hrem, Hlim, Hstk. subst. unfold sruns, runs, willRead, bind, modify, get, sbind.
  pose proof (zlen_nonneg r).
  assert (u64 (zlen r - n) = zlen r - n \/ zlen r < n) as Hu.
  { destruct (Z.lt_ge_cases (zlen r) n); [by right|left].
    apply u64_small. unfold is_u64. lia. }
  destruct stk as [|t up]; cbn -[zlen u64 Z.add].
  - destruct (n >? zlen r) eqn:E; zbool; cbn -[zlen u64].
    + eexists (inl _), _. split; [done|]. cbn -[zlen]. by unfold hard.
    + eexists (inr _), _. split; [done|]. destruct Hu as [->|?]; [|lia]. done.
  - cbn [stk_ok] in Hok. destruct Hok as (Hp & Hs & _). rewrite (u64_small (_ - _)) by (unfold is_u64; lia).
    destruct (n >? lp_size t - lp_pos t) eqn:E; zbool; cbn -[zlen u64 Z.add].
    { eexists (inl _), _. split; [done|]. cbn [room]. split; [done|lia]. }
    rewrite (u64_small (_ + _)) by (unfold is_u64; lia).
    destruct (n >? zlen r) eqn:E'; zbool; cbn -[zlen u64].
    + eexists (inl _), _. split; [done|]. cbn [room]. split; [done|lia].
    + eexists (inr _), _. split; [done|]. destruct Hu as [->|?]; [|lia].
      cbn [room]. split; [lia|done].
Qed.

Lemma readFull_ok n s r stk :
  ahead s r stk -> 0 <= n ->
  sruns (readFull n) s (fun e s' => hard e s' /\ room r stk < n)
    (fun b s' => exists r', r = b ++ r' /\ zlen b = n /\ n <= room r stk /\
       bnd s' r' (adv n stk) /\ st_byteval s' = st_byteval s).
Proof.
  intros Ha Hn. unfold readFull. apply sruns_bind.
  eapply sruns_mono; [by apply willRead_ok|done|]. intros _ s' (Hroom & _ & ->).
  pose proof (room_le r stk).
  unfold sruns, runs, bind, get, put. cbn -[zlen Z.sub].
  replace (zlen r <? n) with false by lia.
  eexists (inr _), _. split; [done|]. exists (drop (Z.to_nat n) r).
  assert (zlen (take (Z.to_nat n) r) = n) by (unfold zlen in *; rewrite length_take; lia).
  assert (zlen (drop (Z.to_nat n) r) = zlen r - n) by (unfold zlen in *; rewrite length_drop; lia).
  split; [by rewrite take_drop|]. do 2 (split; [done|]). split; [|done]. split; [done|].
  destruct Ha. split; cbn [st_r st_remaining st_limited st_stack set_r]; try done; [lia..|].
  apply (stk_ok_adv _ _ r); [done|]. lia.
Qed.

Lemma readByte_ok s r stk :
  ahead s r stk ->
  sruns readByte s (fun e s' => hard e s' /\ room r stk < 1)
    (fun b s' => exists r', r = b :: r' /\ 1 <= room r stk /\
       bnd s' r' (adv 1 stk) /\ st_byteval s' = st_byteval s).
Proof.
  intros Ha. unfold readByte. apply sruns_bind.
  eapply sruns_mono; [by apply willRead_ok|done|]. intros _ s' (Hroom & _ & ->).
  pose proof (room_le r stk).
  unfold sruns, runs, bind, get, put. cbn -[zlen Z.sub].
  destruct r as [|b r']; [change (zlen (@nil byte)) with 0 in *; lia|].
  eexists (inr _), _. split; [done|]. exists r'. rewrite zlen_cons in *.
  do 2 (split; [done|]). split; [|done]. split; [done|].
  destruct Ha. rewrite zlen_cons in *. split; cbn [st_r st_remaining st_limited st_stack set_r]; try done; [lia..|].
  eapply (stk_ok_adv _ _ (b :: r')); [done|]. lia.
Qed.

(** A number of [n] bytes without leading zeros; a single zero is accepted. *)
Lemma readUint_ok n s r stk :
  ahead s r stk -> 1 <= n ->
  sruns (readUint n) s
    (fun e s' => hard e s' /\ (room r stk < n \/ byteAt r 0 = 0))
    (fun v s' => exists b r', r = b ++ r' /\ zlen b = n /\ n <= room r stk /\
       v = SetBytes b /\ (byteAt r 0 = 0 -> v = 0) /\
       bnd s' r' (adv n stk) /\ st_byteval s' = st_byteval s).
Proof.
  intros Ha Hn. unfold readUint. replace (n =? 0) with false by lia.
  destruct (n =? 1) eqn:E; zbool.
  - subst n. apply sruns_bind. eapply sruns_mono; [by apply readByte_ok| |].
    { intros e s' [? ?]. split; [done|by left]. }
    intros b s' (r' & -> & ? & ?). apply sruns_ret. exists [b], r'.
    assert (SetBytes [b] = byteZ b) by (rewrite SetBytes_cons; change (zlen []) with 0; cbn; lia).
    split; [done|]. split; [done|]. split; [done|]. split; [done|]. split; [|done].
    unfold byteAt. done.
  - apply sruns_bind. eapply sruns_mono; [apply readFull_ok; [done|lia]| |].
    { intros e s' [? ?]. split; [done|by left]. }
    intros b s' (r' & -> & Hb & ? & ?).
    assert (byteAt (b ++ r') 0 = byteAt b 0) as Hat.
    { destruct b; [change (zlen (@nil byte)) with 0 in Hb; lia|done]. }
    rewrite Hat. destruct (byteAt b 0 =? 0) eqn:E0; zbool.
    + apply sruns_err. split; [done|by right].
    + apply sruns_ret. exists b, r'. split; [done|]. split; [done|]. split; [done|].
      split; [done|]. split; [|done]. lia.
Qed.

(** ** Headers *)

(** The bytes in front of the content of a value; a single small byte is its
    own header, kept by the stream. *)
Definition header (k : Kind) (cs : Z) (bv : byte) (h : list byte) : Prop :=
  match k with
  | KByte => cs = 0 /\ h = [bv] /\ byteZ bv < 128
  | _ => 0 <= cs < 2 ^ 64 /\ h = rlp_head (smalltag k) (largetag k) cs
  end.

Lemma header_inv k cs bv h :
  header k cs bv h ->
  exists b0 h', h = b0 :: h' /\
    ((k = KByte /\ byteZ b0 < 128) \/
     (k <> KByte /\ 0 <= cs < 56 /\ byteZ b0 = smalltag k + cs) \/
     (k <> KByte /\ 56 <= cs < 2 ^ 64 /\ byteZ b0 = largetag k + zlen h' /\ h' = Bytes cs /\
      1 <= zlen h' <= 8)).
Proof.
  intros H. destruct (decide (k = KByte)) as [->|Hk].
  { destruct H as (_ & -> & ?). exists bv, []. split; [done|]. by left. }
  assert (0 <= cs < 2 ^ 64 /\ h = rlp_head (smalltag k) (largetag k) cs) as [Hcs ->]
    by (by destruct k).
  unfold rlp_head. destruct (cs <? 56) eqn:E; zbool; eexists _, _; (split; [done|]); right.
  - left. split; [done|]. split; [lia|]. rewrite byteZ_Zbyte. apply Z.mod_small.
    unfold smalltag. destruct k; lia.
  - right. destruct (Bytes_head cs ltac:(lia)) as (_ & _ & _ & _ & _ & Hl).
    split; [done|]. split; [lia|]. split; [|done]. rewrite byteZ_Zbyte. apply Z.mod_small.
    unfold largetag. destruct k; lia.
Qed.

Lemma readLong_ok k n s r stk :
  ahead s r stk -> 1 <= n <= 8 ->
  runs (readLong k n) s (fun '(k', cs, err) s' => k' = k /\
    match err with
    | None => exists r', r = Bytes cs ++ r' /\ zlen (Bytes cs) = n /\ 56 <= cs < 2 ^ 64 /\
                n <= room r stk /\ bnd s' r' (adv n stk)
    | Some e => e <> EOL /\
        forall cs r', r = Bytes cs ++ r' -> 56 <= cs < 2 ^ 64 -> zlen (Bytes cs) = n ->
          room r stk < n
    end).
Proof.
  intros Ha Hn. apply runs_bind.
  destruct (readUint_ok n s r stk Ha ltac:(lia)) as ([e|v] & s' & Hm & H);
    eexists _, s'; (split; [exact Hm|]); apply runs_ret; (split; [done|]).
  - destruct H as [He H]. split; [done|]. intros cs r' -> Hcs Hz.
    destruct H as [H|H]; [done|exfalso].
    destruct (Bytes_head cs ltac:(lia)) as (x & l & E & Hx & _). rewrite E in H. done.
  - destruct H as (b & r1 & -> & Hb & Hroom & -> & Hz & Hbnd & _).
    pose proof (SetBytes_range b) as Hrange.
    assert (256 ^ zlen b <= 256 ^ 8) by (apply Z.pow_le_mono_r; lia).
    destruct (SetBytes b <? 56) eqn:E; zbool.
    + split; [done|]. intros cs r' Heq Hcs Hl. exfalso.
      destruct (Bytes_head cs ltac:(lia)) as (_ & _ & _ & _ & Hs & _).
      apply app_inj_1 in Heq as [-> _]; [lia|]. unfold zlen in *. lia.
    + destruct b as [|x b]; [change (zlen (@nil byte)) with 0 in *; lia|].
      assert (byteZ x <> 0) by (intros H0; unfold byteAt in Hz; cbn [app nth] in Hz; lia).
      exists r1. rewrite Bytes_SetBytes by done. split; [done|]. split; [done|].
      split; [lia|done].
Qed.

Lemma ahead_byteval b s r stk : ahead s r stk -> ahead (set_byteval b s) r stk.
Proof. by intros []. Qed.
Lemma bnd_byteval b s r stk : bnd s r stk -> bnd (set_byteval b s) r stk.
Proof. by intros [? []]. Qed.

(** The two sides of reading a header. *)
Definition headOk (r : list byte) stk k cs (s' : Stream) : Prop :=
  exists h r', r = h ++ r' /\ zlen h <= room r stk /\ header k cs (st_byteval s') h /\
    bnd s' r' (adv (zlen h) stk).
Definition headBad (r : list byte) stk : Prop :=
  forall k cs bv h r', r = h ++ r' -> header k cs bv h -> zlen h <= room r stk -> False.

Lemma header_large k k' cs bv b0 h :
  header k' cs bv (b0 :: h) -> k <> KByte -> 1 <= byteZ b0 - largetag k <= 8 ->
  k' = k /\ h = Bytes cs /\ zlen h = byteZ b0 - largetag k /\ 56 <= cs < 2 ^ 64.
Proof.
  intros Hh Hk Hb.
  apply header_inv in Hh as (? & ? & [= <- <-] & [(Hk' & ?)|[(Hk' & ? & H)|(Hk' & ? & H & ? & ?)]]);
    destruct k, k'; cbn [largetag smalltag] in *; try done; repeat split; first [done | lia | exfalso; lia].
Qed.

Lemma readLong_head k b0 s r stk :
  ahead s r (adv 1 stk) -> 1 <= room (b0 :: r) stk -> k <> KByte ->
  1 <= byteZ b0 - largetag k <= 8 ->
  runs (readLong k (byteZ b0 - largetag k)) s (fun '(k, cs, err) s' =>
    match err with
    | None => headOk (b0 :: r) stk k cs s'
    | Some e => e <> EOL /\ headBad (b0 :: r) stk
    end).
Proof.
  intros Ha Hroom Hk Hn. eapply runs_mono; [by apply readLong_ok|].
  pose proof (room_adv 1 [b0] r stk eq_refl) as Hra. cbn [app] in Hra.
  intros [[k' cs] [e|]] s' [-> Hl].
  - destruct Hl as [He Hl]. split; [done|]. intros k' cs' bv h r' Heq Hh Hz.
    destruct (header_inv _ _ _ _ Hh) as (? & h' & -> & _). injection Heq as <- ->.
    destruct (header_large _ _ _ _ _ _ Hh Hk Hn) as (-> & -> & Hz' & Hcs).
    specialize (Hl cs' r' eq_refl Hcs Hz'). rewrite zlen_cons in Hz. lia.
  - destruct Hl as (r' & -> & Hz & Hcs & Hrm & Hbn).
    exists (b0 :: Bytes cs), r'. split; [done|]. rewrite zlen_cons, Hz.
    split; [lia|]. rewrite adv_adv in Hbn. split; [|by rewrite Z.add_comm].
    assert (b0 :: Bytes cs = rlp_head (smalltag k) (largetag k) cs) as ->; [|destruct k; [done|split; [lia|done]..]].
    unfold rlp_head. replace (cs <? 56) with false by lia. f_equal.
    rewrite Hz. replace (_ + _) with (byteZ b0) by lia. by rewrite Zbyte_byteZ.
Qed.

Lemma header_small k b0 bv :
  k <> KByte -> 0 <= byteZ b0 - smalltag k < 56 -> header k (byteZ b0 - smalltag k) bv [b0].
Proof.
  intros Hk Hb. assert ([b0] = rlp_head (smalltag k) (largetag k) (byteZ b0 - smalltag k)) as ->.
  { unfold rlp_head. replace (_ <? 56) with true by lia.
    replace (_ + _) with (byteZ b0) by lia. by rewrite Zbyte_byteZ. }
  destruct k; [done|split; [lia|done]..].
Qed.

Lemma readKindS_ok s r stk :
  ahead s r stk ->
  runs readKindS s (fun '(k, cs, err) s' =>
    match err with
    | None => headOk r stk k cs s'
    | Some e => e <> EOL /\ headBad r stk
    end).
Proof.
  intros Ha. unfold readKindS. run_step. run_step. run_step.
  destruct (readByte_ok s r stk Ha) as ([e|b0] & s1 & Hm & H);
    eexists _, s1; (split; [exact Hm|]); cbn beta iota.
  { apply runs_ret. destruct H as [He Hroom]. split; [by destruct (st_stack s), e|].
    intros k cs bv h r' -> Hh Hl. apply header_inv in Hh as (? & h' & -> & _).
    rewrite zlen_cons in Hl. pose proof (zlen_nonneg h'). lia. }
  destruct H as (r' & -> & Hroom & Hb & _). run_step. run_step. cbv zeta.
  pose proof (byteZ_range b0). apply (bnd_byteval x00) in Hb. set (s2 := set_byteval x00 s1) in *.
  assert (forall k, k <> KByte -> 0 <= byteZ b0 - smalltag k < 56 ->
    headOk (b0 :: r') stk k (byteZ b0 - smalltag k) s2) as Hsmall.
  { intros k Hk Hr. exists [b0], r'. split; [done|]. split; [done|]. split; [|done].
    by apply header_small. }
  repeat split_if.
  - run_step. run_step. apply runs_ret. exists [b0], r'. split; [done|]. split; [done|].
    split; [done|]. by apply bnd_byteval.
  - apply runs_ret. apply (Hsmall KString); [done|cbn; lia].
  - apply (readLong_head KString); [apply Hb|done|done|cbn; lia].
  - apply runs_ret. apply (Hsmall KList); [done|cbn; lia].
  - apply (readLong_head KList); [apply Hb|done|done|cbn; lia].
Qed.

Lemma header_unique k1 cs1 bv1 h1 r1 k2 cs2 bv2 h2 r2 :
  header k1 cs1 bv1 h1 -> header k2 cs2 bv2 h2 -> h1 ++ r1 = h2 ++ r2 ->
  k1 = k2 /\ cs1 = cs2 /\ h1 = h2 /\ r1 = r2.
Proof.
  intros H1 H2 E.
  assert (k1 = k2 /\ cs1 = cs2) as [-> ->].
  { destruct (header_inv _ _ _ _ H1) as (b1 & l1 & -> & C1).
    destruct (header_inv _ _ _ _ H2) as (b2 & l2 & -> & C2). injection E as <- E.
    assert (k1 = KByte -> cs1 = 0) by (intros ->; apply H1).
    assert (k2 = KByte -> cs2 = 0) by (intros ->; apply H2).
    destruct C1 as [(K1 & ?)|[(K1 & ? & ?)|(K1 & ? & ? & El & ?)]],
      C2 as [(K2 & ?)|[(K2 & ? & ?)|(K2 & ? & ? & El2 & ?)]]; subst;
      try (split; [done|]; transitivity 0; [by auto|by symmetry; auto]);
      try (destruct k1; cbn [smalltag largetag] in *; done || lia);
      try (destruct k2; cbn [smalltag largetag] in *; done || lia);
      try (destruct k1, k2; cbn [smalltag largetag] in *; split; done || lia).
    assert (k1 = k2) as -> by (destruct k1, k2; cbn [smalltag largetag] in *; done || lia).
    split; [done|]. apply app_inj_1 in E as [E _]; [|unfold zlen in *; lia].
    destruct (Bytes_head cs1 ltac:(lia)) as (_ & _ & _ & _ & S1 & _).
    destruct (Bytes_head cs2 ltac:(lia)) as (_ & _ & _ & _ & S2 & _). by rewrite <- S1, E. }
  assert (length h1 = length h2) as Hl.
  { destruct k2.
    - by destruct H1 as (_ & -> & _), H2 as (_ & -> & _).
    - by destruct H1 as [_ ->], H2 as [_ ->].
    - by destruct H1 as [_ ->], H2 as [_ ->]. }
  by apply app_inj_1 in E as [-> ->].
Qed.

(** ** Kind *)

Lemma room_nonneg r stk : stk_ok stk -> 0 <= room r stk.
Proof.
  pose proof (zlen_nonneg r).
  destruct stk; cbn [room stk_ok]; [done|intros (? & _)]. lia.
Qed.

Definition eol (stk : list listpos) : bool :=
  match stk with [] => false | t :: _ => lp_pos t =? lp_size t end.

(** What the lists around a value leave for its content. *)
Definition space (r : list byte) (stk : list listpos) : Z :=
  match stk with [] => zlen r | t :: _ => lp_size t - lp_pos t end.

Definition kindOk r stk k cs s' : Prop :=
  exists h r', r = h ++ r' /\ zlen h <= room r stk /\ header k cs (st_byteval s') h /\
    cs <= space r' (adv (zlen h) stk) /\ seen s' k cs r' (adv (zlen h) stk).
(** No header with room for its content is ahead. *)
Definition kindBad (r : list byte) stk : Prop :=
  forall k cs bv h r', r = h ++ r' -> header k cs bv h -> zlen h <= room r stk ->
    cs <= room r' (adv (zlen h) stk) -> False.

Lemma room_space r stk : room r stk <= space r stk.
Proof. destruct stk; cbn [room space]; lia. Qed.

Lemma kindCheck_ok s r stk :
  ahead s r stk ->
  kindCheck s =
    if st_size s <=? space r stk then None
    else Some (match stk with [] => ErrValueTooLarge | _ => ErrElemTooLarge end).
Proof.
  intros []. unfold kindCheck. rewrite ah_stk0. destruct stk as [|t up]; cbn [space].
  - rewrite ah_lim0, ah_rem0. cbn [andb]. rewrite Z.gtb_ltb, Z.ltb_antisym.
    by destruct (_ <=? _).
  - cbn [stk_ok] in ah_ok0. rewrite u64_small by (unfold is_u64; lia).
    rewrite Z.gtb_ltb, Z.ltb_antisym. by destruct (_ <=? _).
Qed.

Lemma Kind_eol s r stk :
  bnd s r stk -> eol stk = true -> exists s', Kind_ s = Ret (inl EOL, s') /\ bnd s' r stk.
Proof.
  intros [Hk Ha] He. unfold Kind_, bind, get, modify, ret. rewrite Hk. unfold atEOL.
  rewrite (ah_stk _ _ _ Ha). unfold eol in He. rewrite He. eexists. split; [done|].
  split; [done|]. by destruct Ha.
Qed.

Lemma Kind_seen s k cs r stk : seen s k cs r stk -> Kind_ s = Ret (inr (k, cs), s).
Proof.
  intros (Hk & Hs & He & _). unfold Kind_, bind, get, ret. by rewrite Hk, He, Hk, Hs.
Qed.

Lemma Kind_ok s r stk :
  bnd s r stk -> eol stk = false ->
  sruns Kind_ s (fun e s' => hard e s' /\ kindBad r stk) (fun '(k, cs) s' => kindOk r stk k cs s').
Proof.
  intros [Hk Ha] He. unfold Kind_, sruns. run_step. run_step. run_step. rewrite Hk.
  run_step. run_step. replace (atEOL s) with false
    by (unfold atEOL; by rewrite (ah_stk _ _ _ Ha)).
  run_step. eapply runs_mono; [apply readKindS_ok; by destruct Ha|].
  intros [[k cs] [e|]] s1 H; cbn beta iota in H |- *; repeat run_step; cbn [st_kinderr st_kind set_kinderr set_size set_kind].
  - apply runs_ret. split; [apply H|].
    intros k' cs' bv h r' E Hh Hl _. destruct H as [_ H]. by eapply H.
  - destruct H as (h & r' & -> & Hl & Hh & _ & Ha1).
    set (s2 := set_kinderr None (set_size cs (set_kind (Some k) s1))).
    assert (ahead s2 r' (adv (zlen h) stk)) as Ha2 by (by destruct Ha1).
    rewrite (kindCheck_ok s2 r' (adv (zlen h) stk) Ha2). change (st_size s2) with cs.
    destruct (cs <=? _) eqn:E; zbool; cbn [st_kinderr set_kinderr st_kind s2 set_size set_kind].
    + apply runs_ret. exists h, r'. split; [done|]. split; [done|]. split; [done|].
      split; [done|]. split; [done|]. split; [done|]. split; [done|]. by destruct Ha2.
    + apply runs_ret. split; [by destruct (adv (zlen h) stk)|].
      intros k' cs' bv h' r'' Eq Hh' Hl' Hc.
      destruct (header_unique _ _ _ _ _ _ _ _ _ _ Hh Hh' Eq) as (<- & <- & <- & <-).
      pose proof (room_space r' (adv (zlen h) stk)). lia.
Qed.

(** ** Values *)

(** An encoding is a header and a content. *)
Lemma rlp_parts it :
  zlen (rlp it) < 2 ^ 64 ->
  exists k bv h c, rlp it = h ++ c /\ header k (zlen c) bv h /\
    match it with
    | Lst l => k = KList /\ c = concat (map rlp l)
    | Str b => (k = KByte /\ c = [] /\ b = [bv]) \/ (k = KString /\ c = b /\ kind_ok KString b)
    end.
Proof.
  destruct it as [b|l]; cbn [rlp]; intros Hz.
  - pose proof (zlen_rlp_string b). pose proof (zlen_nonneg b).
    assert ((exists x, b = [x] /\ byteZ x < 128) \/ kind_ok KString b) as [(x & -> & Hx)|Hk].
    { destruct b as [|x [|]]; [by right| |by right].
      destruct (Z.lt_ge_cases (byteZ x) 128); [left; by exists x|right]. by intros ? [= <-]. }
    + exists KByte, x, [x], []. cbn [rlp_string]. replace (byteZ x <? 128) with true by lia.
      split; [done|]. split; [done|]. by left.
    + exists KString, x00, (rlp_head 0x80 0xB7 (zlen b)), b.
      split; [by apply (enc_head KString)|]. split; [split; [lia|done]|]. by right.
  - pose proof (zlen_rlp_list (concat (map rlp l))). pose proof (zlen_nonneg (concat (map rlp l))).
    exists KList, x00, (rlp_head 0xC0 0xF7 (zlen (concat (map rlp l)))), (concat (map rlp l)).
    split; [done|]. split; [split; [lia|done]|done].
Qed.

Lemma rlp_nonempty it : 1 <= zlen (rlp it).
Proof.
  assert (forall a b n c, 1 <= zlen (rlp_head a b n ++ c)) as H.
  { intros a b n c. rewrite zlen_app. pose proof (zlen_nonneg c). unfold rlp_head.
    split_if; rewrite zlen_cons; [|pose proof (zlen_nonneg (Bytes n))];
      change (zlen (@nil byte)) with 0 in *; lia. }
  destruct it as [b|l]; cbn [rlp]; [|apply H]. unfold rlp_string.
  destruct b as [|x [|]]; try apply H. split_if; [done|apply H].
Qed.

Lemma rlp_not_nil it : rlp it <> [].
Proof. intros E. pose proof (rlp_nonempty it) as H. by rewrite E in H. Qed.

(** No encoding is a proper prefix of another. *)
Lemma rlp_prefix i1 : forall i2 r1 r2,
  zlen (rlp i1) < 2 ^ 64 -> zlen (rlp i2) < 2 ^ 64 ->
  rlp i1 ++ r1 = rlp i2 ++ r2 -> i1 = i2 /\ r1 = r2.
Proof.
  induction i1 as [b1|l1 IH] using item_ind'; intros i2 r1 r2 Z1 Z2 E;
    destruct (rlp_parts _ Z1) as (k1 & v1 & h1 & c1 & E1 & H1 & D1);
    destruct (rlp_parts _ Z2) as (k2 & v2 & h2 & c2 & E2 & H2 & D2);
    rewrite E1, E2, <- !app_assoc in E;
    destruct (header_unique _ _ _ _ _ _ _ _ _ _ H1 H2 E) as (Ek & Ec & Eh & Er);
    (apply app_inj_1 in Er as [Ecc Er]; [|unfold zlen in Ec; lia]); (split; [|done]).
  - destruct i2 as [b2|l2]; [|destruct D2 as [-> _]; by destruct D1 as [[-> _]|[-> _]]].
    f_equal. destruct D1 as [(-> & -> & ->)|(-> & -> & _)], D2 as [(-> & -> & ->)|(-> & -> & _)]; try done.
    destruct H1 as (_ & -> & _), H2 as (_ & -> & _). done.
  - destruct i2 as [b2|l2]; [destruct D1 as [-> _]; by destruct D2 as [[-> _]|[-> _]]|]. f_equal.
    destruct D1 as [_ ->], D2 as [_ ->]. clear E1 E2 E H1 H2 Ek Ec Er.
    assert (zlen (concat (map rlp l1)) < 2 ^ 64) as Hz.
    { cbn [rlp] in Z1. pose proof (zlen_rlp_list (concat (map rlp l1))). lia. }
    clear Z1 Z2. revert l2 Ecc. induction IH as [|i l Hi _ IHl]; intros [|j l2] E; try done;
      cbn [map concat] in E.
    + symmetry in E. apply app_nil in E as [E _]. by apply rlp_not_nil in E.
    + apply app_nil in E as [E _]. by apply rlp_not_nil in E.
    + cbn [map concat] in Hz. pose proof (f_equal zlen E) as Hl. rewrite !zlen_app in Hl.
      rewrite zlen_app in Hz.
      pose proof (zlen_nonneg (concat (map rlp l))). pose proof (zlen_nonneg (concat (map rlp l2))).
      pose proof (zlen_nonneg (rlp i)).
      apply Hi in E as [-> E]; [|lia..]. f_equal. apply IHl; [lia|done].
Qed.

(** [it] has been read. *)
Definition itemOk (r : list byte) stk it (s' : Stream) : Prop :=
  exists r', r = rlp it ++ r' /\ zlen (rlp it) <= room r stk /\ bnd s' r' (adv (zlen (rlp it)) stk).
(** No value is ahead. *)
Definition itemBad (r : list byte) stk : Prop :=
  forall it r', r = rlp it ++ r' -> zlen (rlp it) <= room r stk -> False.

Lemma itemBad_kind r stk : zlen r < 2 ^ 62 -> kindBad r stk -> itemBad r stk.
Proof.
  intros Hr Hk it r' -> Hz. rewrite zlen_app in Hr. pose proof (zlen_nonneg r').
  destruct (rlp_parts it) as (k & bv & h & c & E & Hh & _); [lia|]. rewrite E in *.
  rewrite zlen_app in Hz. pose proof (zlen_nonneg h). pose proof (zlen_nonneg c).
  eapply (Hk k _ bv h (c ++ r')); [by rewrite <- app_assoc|done|lia|].
  rewrite (room_adv _ h) by done. rewrite app_assoc. lia.
Qed.

(** The values that can follow a header. *)
Lemma itemBad_header' k cs bv h r stk (Q : item -> Prop) :
  header k cs bv h -> zlen (h ++ r) < 2 ^ 62 ->
  (forall it c r', r = c ++ r' -> zlen c = cs -> cs <= room r (adv (zlen h) stk) ->
     match it with
     | Lst l => k = KList /\ c = concat (map rlp l)
     | Str b => k = KString /\ c = b /\ kind_ok KString b
     end -> Q it) ->
  k <> KByte -> forall it r', h ++ r = rlp it ++ r' -> zlen (rlp it) <= room (h ++ r) stk -> Q it.
Proof.
  intros Hh Hr HP Hk it r' E Hz. rewrite E, zlen_app in Hr. pose proof (zlen_nonneg r').
  destruct (rlp_parts it) as (k' & bv' & h' & c & Ei & Hh' & D); [lia|].
  rewrite Ei, <- app_assoc in E.
  destruct (header_unique _ _ _ _ _ _ _ _ _ _ Hh Hh' E) as (<- & -> & <- & ->).
  eapply (HP it c r'); [done|done| |].
  - rewrite (room_adv _ h) by done. rewrite Ei, zlen_app in Hz. lia.
  - destruct it; [|done]. by destruct D as [(? & _)|].
Qed.

Lemma itemBad_header k cs bv h r stk :
  header k cs bv h -> zlen (h ++ r) < 2 ^ 62 ->
  (forall it c r', r = c ++ r' -> zlen c = cs -> cs <= room r (adv (zlen h) stk) ->
     match it with
     | Lst l => k = KList /\ c = concat (map rlp l)
     | Str b => k = KString /\ c = b /\ kind_ok KString b
     end -> False) ->
  k <> KByte -> itemBad (h ++ r) stk.
Proof. intros H1 H2 H3 H4. exact (itemBad_header' k cs bv h r stk (fun _ => False) H1 H2 H3 H4). Qed.

(** [Bytes] after [Kind] has seen the header of a string. *)
Lemma Stream_Bytes_ok s k cs h r stk :
  seen s k cs r (adv (zlen h) stk) -> header k cs (st_byteval s) h -> k <> KList ->
  zlen h <= room (h ++ r) stk -> zlen (h ++ r) < 2 ^ 62 ->
  sruns Stream_Bytes s (fun e s' => hard e s' /\ itemBad (h ++ r) stk)
    (fun b s' => itemOk (h ++ r) stk (Str b) s').
Proof.
  intros Hs Hh Hk Hroom Hr. unfold Stream_Bytes. apply sruns_bind.
  exists (inr (k, cs)), s. split; [by eapply Kind_seen|].
  destruct k; [| |done].
  - exists (inr [st_byteval s]), (set_kind None s). split; [done|]. destruct Hh as (_ & -> & Hb).
    exists r. cbn [rlp rlp_string]. replace (_ <? 128) with true by lia.
    split; [done|]. split; [done|]. split; [done|]. by destruct Hs as (_ & _ & _ & []).
  - assert (Hcs := Hh). destruct Hcs as [Hcs Eh].
    apply sruns_bind. eapply sruns_mono; [apply readFull_ok; [apply Hs|lia]| |].
    { intros e s' [He Hlt]. split; [done|].
      eapply itemBad_header; [done|done|intros; lia|done]. }
    intros b s' (r' & -> & Hb & Hle & Hbn & _). rewrite adv_adv in Hbn.
    rewrite (room_adv _ h) in Hle by done.
    destruct ((cs =? 1) && _) eqn:E; zbool.
    + apply sruns_err. split; [done|]. eapply itemBad_header; [done|done| |done].
      intros it c r'' Ec Hz _ D. apply app_inj_1 in Ec as [-> _]; [|unfold zlen in *; lia].
      destruct it; [|by destruct D]. destruct D as (_ & -> & Hok).
      destruct b as [|x [|]]; unfold zlen in *; cbn [length] in *; try lia.
      specialize (Hok x eq_refl). unfold byteAt in *. cbn [nth] in *. lia.
    + apply sruns_ret. exists r'.
      assert (kind_ok KString b) as Hok.
      { intros x ->. change (zlen [x]) with 1 in Hb. subst cs. cbn [Z.eqb Pos.eqb andb] in E.
        apply Z.ltb_ge in E. done. }
      assert (rlp (Str b) = h ++ b) as ->.
      { change (rlp (Str b)) with (enc KString b). rewrite enc_head, Hb by done. by rewrite Eh. }
      rewrite <- app_assoc, zlen_app, Hb. split; [done|]. split; [lia|done].
Qed.

(** ** Lists *)

Lemma Stream_List_ok s cs r stk :
  seen s KList cs r stk -> 0 <= cs <= space r stk ->
  exists s', Stream_List s = Ret (inr cs, s') /\ bnd s' r (mkListpos 0 cs :: stk).
Proof.
  intros Hs Hcs. unfold Stream_List, sbind, bind. rewrite (Kind_seen _ _ _ _ _ Hs).
  cbn [bool_decide decide]. eexists. split; [done|]. split; [done|].
  destruct Hs as (_ & _ & _ & []). split; cbn; try done; [by f_equal|].
  split; [lia|]. destruct stk as [|t up]; cbn [space stk_ok] in *; [split; [lia|done]|].
  split; [lia|]. split; [lia|done].
Qed.

Lemma Stream_ListEnd_ok s cs r stk :
  bnd s r (mkListpos cs cs :: stk) ->
  exists s', Stream_ListEnd s = Ret (inr tt, s') /\ bnd s' r (adv cs stk).
Proof.
  intros [Hk []]. unfold Stream_ListEnd, bind, get, put. rewrite ah_stk0.
  cbn [lp_pos lp_size]. rewrite Z.eqb_refl. cbn [negb]. eexists. split; [done|].
  cbn [stk_ok lp_pos lp_size] in ah_ok0. destruct ah_ok0 as (Hc & Hc' & Hup & Hok).
  split; [done|]. split; cbn [st_r st_remaining st_limited st_stack set_size set_kind set_liststack]; try done.
  - destruct stk as [|u up]; [done|]. cbn [adv stk_ok] in *. rewrite u64_small by (unfold is_u64; lia). done.
  - destruct stk as [|u [|v up]]; [done|..]; cbn [adv stk_ok lp_pos lp_size] in *;
      repeat match goal with H : _ /\ _ |- _ => destruct H end; repeat split; done || lia.
Qed.

(** ** Decoders of values

    A decoder that turns the item ahead into a value, as [parse] says. *)

Definition parseOk {A} (parse : item -> option A) (r : list byte) stk (v : A) (s' : Stream) : Prop :=
  exists it, parse it = Some v /\ itemOk r stk it s'.
Definition parseBad {A} (parse : item -> option A) (r : list byte) stk : Prop :=
  forall it v r', parse it = Some v -> r = rlp it ++ r' -> zlen (rlp it) <= room r stk -> False.

Lemma itemBad_parse {A} (parse : item -> option A) r stk : itemBad r stk -> parseBad parse r stk.
Proof. intros H it v r' _. apply H. Qed.

(** The specification of an element decoder: it reports the end of the list
    there, returns the value ahead, or fails where there is none. *)
Definition dec_ok {A} (bound : nat) (parse : item -> option A) (m : SM A) : Prop :=
  forall s r stk, bnd s r stk -> (length r <= bound)%nat ->
    if eol stk then exists s', m s = Ret (inl EOL, s') /\ bnd s' r stk
    else sruns m s (fun e s' => hard e s' /\ parseBad parse r stk) (parseOk parse r stk).

(** Elements from position [p] of a list of [cs] bytes. *)
Lemma decodeSliceElems_ok {A} bound (parse : item -> option A) m cs stk :
  dec_ok bound parse m -> forall rounds s r p,
  bnd s r (mkListpos p cs :: stk) -> (length r <= bound)%nat -> (length r < rounds)%nat ->
  sruns (decodeSliceElems rounds m) s
    (fun e s' => hard e s' /\
       forall l vs r', mapM parse l = Some vs -> r = concat (map rlp l) ++ r' -> p + zlen (concat (map rlp l)) = cs -> False)
    (fun vs s' => exists l r', mapM parse l = Some vs /\ r = concat (map rlp l) ++ r' /\
       p + zlen (concat (map rlp l)) = cs /\ bnd s' r' (mkListpos cs cs :: stk)).
Proof.
  intros Hm. induction rounds as [|rounds IH]; intros s r p Hb Hlen Hr; [lia|].
  cbn [decodeSliceElems]. specialize (Hm s r _ Hb Hlen). cbn [eol lp_pos lp_size] in Hm.
  destruct (p =? cs) eqn:Ep; zbool.
  { destruct Hm as (s' & Hm & Hb'). eapply runs_bind_eq; [exact Hm|]. subst p.
    apply sruns_ret. exists [], r. change (concat (map rlp [])) with (@nil byte).
    change (zlen (@nil byte)) with 0. split; [done|]. split; [done|]. split; [lia|done]. }
  destruct Hm as ([e|v] & s' & Hm & Hres); (eapply runs_bind_eq; [exact Hm|]).
  - destruct Hres as [He Hbad]. assert (e <> EOL) by done. destruct e; try done;
      (apply sruns_err; split; [done|]; intros [|it l] vs r' Hl -> Hp;
       [change (zlen (concat (map rlp []))) with 0 in Hp; lia|];
       apply mapM_Some_1, Forall2_cons_inv_l in Hl as (v & vs' & Hv & _ & _);
       cbn [map concat] in *; rewrite zlen_app in Hp;
       apply (Hbad it v (concat (map rlp l) ++ r')); [done|by rewrite <- app_assoc|];
       cbn [room lp_pos lp_size]; rewrite !zlen_app;
       pose proof (zlen_nonneg (concat (map rlp l))); pose proof (zlen_nonneg r'); lia).
  - destruct Hres as (it & Hv & r' & -> & Hz & Hb'). cbn [adv lp_pos lp_size] in Hb'.
    pose proof (rlp_nonempty it) as Hne. rewrite length_app in *.
    assert (zlen (rlp it) = Z.of_nat (length (rlp it))) as Hzl by done.
    apply sruns_bind. eapply sruns_mono; [apply (IH _ r' _ Hb'); lia| |].
    + intros e s'' [He Hbad]. split; [done|]. intros [|it' l] vs r'' Hl E Hp.
      { change (zlen (concat (map rlp []))) with 0 in Hp. lia. }
      apply mapM_Some_1, Forall2_cons_inv_l in Hl as (v' & vs' & Hv' & Hl & _).
      cbn [map concat] in *. rewrite <- app_assoc, zlen_app in *.
      destruct Hb as [_ [_ _ _ _ Hlt _]]. pose proof (f_equal zlen E) as Hle.
      rewrite !zlen_app in *. pose proof (zlen_nonneg (concat (map rlp l))).
      pose proof (zlen_nonneg r''). pose proof (zlen_nonneg r').
      apply rlp_prefix in E as [<- E]; [|lia..]. eapply Hbad; [by apply mapM_Some_2|exact E|lia].
    + intros vs s'' (l & r'' & Hl & -> & Hp & Hb''). apply sruns_ret. exists (it :: l), r''. cbn [map concat].
      rewrite <- app_assoc, zlen_app. split; [|split; [done|split; [lia|done]]].
      apply mapM_Some_2. constructor; [done|by apply mapM_Some_1].
Qed.

(** A list of values. *)
Definition parseList {A} (parse : item -> option A) (it : item) : option (list A) :=
  match it with Lst l => mapM parse l | Str _ => None end.

(** The bytes of a list behind its header. *)
Lemma rlp_Lst h cs bv l : header KList cs bv h -> zlen (concat (map rlp l)) = cs -> rlp (Lst l) = h ++ concat (map rlp l).
Proof. intros [_ Eh] Hz. cbn [rlp]. unfold rlp_list. by rewrite Hz, Eh. Qed.

Lemma itemOk_list h cs bv l r' stk s' :
  header KList cs bv h -> zlen (concat (map rlp l)) = cs -> cs <= space (concat (map rlp l) ++ r') (adv (zlen h) stk) ->
  zlen h <= room (h ++ concat (map rlp l) ++ r') stk -> bnd s' r' (adv cs (adv (zlen h) stk)) ->
  itemOk (h ++ concat (map rlp l) ++ r') stk (Lst l) s'.
Proof.
  intros Hh Hz Hsp Hroom Hb. exists r'. rewrite adv_adv in Hb. rewrite (rlp_Lst _ _ _ _ Hh Hz).
  rewrite <- app_assoc, zlen_app, Hz. split; [done|]. split; [|done].
  destruct stk as [|t up]; cbn [room space adv lp_pos lp_size] in *; rewrite ?zlen_app in *;
    pose proof (zlen_nonneg r'); lia.
Qed.

(** [decodeListSlice] after [Kind] has seen the header of a list. *)
Lemma decodeListSlice_ok {A} bound (parse : item -> option A) m s cs h r stk :
  dec_ok bound parse m -> (length r <= bound)%nat ->
  seen s KList cs r (adv (zlen h) stk) -> header KList cs (st_byteval s) h ->
  cs <= space r (adv (zlen h) stk) -> zlen h <= room (h ++ r) stk -> zlen (h ++ r) < 2 ^ 62 ->
  sruns (decodeListSlice m) s (fun e s' => hard e s' /\ parseBad (parseList parse) (h ++ r) stk)
    (parseOk (parseList parse) (h ++ r) stk).
Proof.
  intros Hm Hlen Hs Hh Hcs Hroom Hr. pose proof Hh as [Hcs0 Eh].
  unfold decodeListSlice. apply sruns_bind.
  destruct (Stream_List_ok _ _ _ _ Hs ltac:(lia)) as (s1 & E1 & Hb1).
  exists (inr cs), s1. split; [done|]. destruct (cs =? 0) eqn:E0; zbool.
  - subst cs. apply sruns_bind. destruct (Stream_ListEnd_ok _ _ _ _ Hb1) as (s2 & E2 & Hb2).
    exists (inr tt), s2. split; [done|]. apply sruns_ret. exists (Lst []). split; [done|].
    by eapply (itemOk_list h 0 _ [] r).
  - eapply runs_bind_eq; [reflexivity|]. assert (st_r s1 = r) as -> by apply Hb1. apply sruns_bind.
    eapply sruns_mono; [eapply (decodeSliceElems_ok bound parse m cs _ Hm); [done|done|lia]| |].
    + intros e s' [He Hbad]. split; [done|]. intros it v r' Hv E Hz.
      revert it r' E Hz Hv. eapply (itemBad_header' KList cs _ h r stk (fun it => parseList parse it = Some v -> False)); [done|done| |done].
      intros it c r' -> Hzc _ D Hv. destruct it as [b|l]; [done|]. destruct D as [_ ->].
      by apply (Hbad l v r').
    + intros vs s' (l & r' & Hl & -> & Hz & Hb'). apply sruns_bind.
      destruct (Stream_ListEnd_ok _ _ _ _ Hb') as (s2 & E2 & Hb2).
      exists (inr tt), s2. split; [done|]. apply sruns_ret. exists (Lst l). split; [done|]. by eapply itemOk_list.
Qed.

Lemma mapM_Some_id (l : list item) : mapM Some l = Some l.
Proof. apply mapM_Some_2. by induction l; constructor. Qed.

Lemma decodeInterface_ok d : dec_ok d Some (decodeInterface (S d)).
Proof.
  induction d as [d IH] using lt_wf_ind. intros s r stk Hb Hlen.
  destruct (eol stk) eqn:Ee.
  { destruct (Kind_eol _ _ _ Hb Ee) as (s' & E & Hb'). exists s'. split; [|done].
    cbn [decodeInterface]. unfold sbind, bind. by rewrite E. }
  assert (zlen r < 2 ^ 62) as Hr by apply Hb.
  cbn [decodeInterface]. apply sruns_bind.
  eapply sruns_mono; [by apply Kind_ok| |].
  { intros e s' [He Hbad]. split; [done|]. by apply itemBad_parse, itemBad_kind. }
  intros [k cs] s' (h & r' & -> & Hroom & Hh & Hcs & Hs).
  destruct (header_inv _ _ _ _ Hh) as (b0 & h' & Eh & _).
  rewrite length_app in Hlen. assert (1 <= length h)%nat by (rewrite Eh; cbn; lia).
  case_bool_decide as Hk.
  - subst k. apply sruns_bind. destruct d as [|d]; [lia|].
    eapply sruns_mono; [apply (decodeListSlice_ok d Some _ s' cs h r' stk); [apply (IH d); lia|lia|done..]| |].
    + intros e s'' [He Hbad]. split; [done|]. intros it v r'' _ E Hz.
      revert it r'' E Hz. eapply (itemBad_header KList cs _ h r' stk); [exact Hh|rewrite zlen_app in *; done| |done].
      intros it c r'' E Hzc Hle D. destruct it as [b|l]; [by destruct D|]. destruct D as [_ ->].
      apply (Hbad (Lst l) l r''); [apply mapM_Some_id| |].
      * subst r'. by rewrite (rlp_Lst _ _ _ _ Hh Hzc), <- app_assoc.
      * rewrite (room_adv _ h) in Hle by done. rewrite (rlp_Lst _ _ _ _ Hh Hzc), zlen_app. lia.
    + intros l s'' (it & Hl & Hok). apply sruns_ret. exists (Lst l). split; [done|].
      destruct it as [b|l']; [done|]. cbn [parseList] in Hl. rewrite mapM_Some_id in Hl. by injection Hl as ->.
  - apply sruns_bind. eapply sruns_mono; [by eapply Stream_Bytes_ok| |].
    + intros e s'' [He Hbad]. split; [done|]. by apply itemBad_parse.
    + intros b s'' Hok. apply sruns_ret. by exists (Str b).
Qed.

(** ** DecodeBytes *)

(** [DecodeBytes] always returns; it returns the value whose encoding the
    input is, and an error where there is none. *)
Lemma DecodeBytes_spec b :
  zlen b < 2 ^ 62 ->
  exists v, DecodeBytes b = Ret v /\
    match v with
    | inr it => b = rlp it
    | inl _ => forall it, b <> rlp it
    end.
Proof.
  intros Hb. unfold DecodeBytes.
  assert (bnd (NewStream b (zlen b)) b []) as Hbnd.
  { split; [done|]. split; cbn [NewStream st_r st_remaining st_limited st_stack stk_ok]; try done.
    by destruct (zlen b >? 0). }
  destruct (decodeInterface_ok (length b) _ _ _ Hbnd ltac:(lia)) as ([e|it] & s' & E & H); rewrite E.
  - exists (inl e). split; [done|]. intros it ->. destruct H as [_ H].
    apply (H it it []); [done|by rewrite app_nil_r|]. cbn [room]. lia.
  - destruct H as (it' & [= ->] & r' & -> & Hz & _ & Ha). rewrite (ah_r _ _ _ Ha).
    destruct r' as [|x r'].
    + exists (inr it). split; [done|]. by rewrite app_nil_r.
    + exists (inl ErrMoreThanOneValue). split; [done|]. intros it' E'.
      rewrite zlen_app in Hb. pose proof (zlen_nonneg (x :: r')).
      pose proof (f_equal zlen E') as Hl. rewrite zlen_app in Hl.
      rewrite <- (app_nil_r (rlp it')) in E'.
      apply rlp_prefix in E' as [_ ?]; [done|lia..].
Qed.

(** ** Integers *)

Lemma Bytes_0 : Bytes 0 = [].
Proof. done. Qed.

Lemma Bytes_small x : 0 < byteZ x -> Bytes (byteZ x) = [x].
Proof.
  intros Hx. rewrite <- (Bytes_SetBytes x []) by lia. f_equal.
Qed.

(** [v] has been read: the string of its big-endian bytes. *)
Definition uintOk (w : Z) (r : list byte) stk v (s' : Stream) : Prop :=
  0 <= v < 256 ^ w /\ itemOk r stk (Str (Bytes v)) s'.
Definition uintBad (w : Z) (r : list byte) stk : Prop :=
  forall v r', 0 <= v < 256 ^ w -> r = rlp (Str (Bytes v)) ++ r' ->
    zlen (rlp (Str (Bytes v))) <= room r stk -> False.

Lemma uintBad_item w r stk : itemBad r stk -> uintBad w r stk.
Proof. intros H v r' _ E Hz. by eapply H. Qed.

(** The header of an integer. *)
Lemma uintBad_header w k cs bv h r stk :
  header k cs bv h -> zlen (h ++ r) < 2 ^ 62 -> 0 <= w <= 8 ->
  (forall v r', 0 <= v < 256 ^ w ->
     (k = KByte /\ [bv] = Bytes v) \/
     (k = KString /\ r = Bytes v ++ r' /\ zlen (Bytes v) = cs /\ kind_ok KString (Bytes v) /\
      cs <= room r (adv (zlen h) stk)) -> False) ->
  uintBad w (h ++ r) stk.
Proof.
  intros Hh Hr Hw HP v r' Hv E Hz. rewrite E, zlen_app in Hr. pose proof (zlen_nonneg r').
  destruct (rlp_parts (Str (Bytes v))) as (k' & bv' & h' & c & Ei & Hh' & D); [lia|].
  rewrite Ei, <- app_assoc in E.
  destruct (header_unique _ _ _ _ _ _ _ _ _ _ Hh Hh' E) as (<- & -> & <- & ->).
  apply (HP v r' Hv). destruct D as [(-> & -> & Hb)|(-> & -> & Hok)].
  - left. split; [done|]. rewrite Hb. destruct Hh as (_ & -> & _), Hh' as (_ & [= ->] & _). done.
  - right. do 4 (split; [done|]). rewrite (room_adv _ h) by done.
    rewrite Ei, zlen_app in Hz. lia.
Qed.

Lemma readUint_0 s r stk :
  ahead s r stk -> exists s', readUint 0 s = Ret (inr 0, s') /\ bnd s' r stk.
Proof. intros Ha. eexists. split; [done|]. split; [done|]. by destruct Ha. Qed.

(** The first byte of an integer is not zero. *)
Lemma Bytes_first v w x b :
  0 <= v < 256 ^ w -> 0 <= w <= 8 -> Bytes v = x :: b -> byteZ x <> 0 /\ SetBytes (x :: b) = v.
Proof.
  intros Hv Hw E. assert (256 ^ w <= 256 ^ 8) by (apply Z.pow_le_mono_r; lia).
  assert (v <> 0) by (intros ->; done).
  destruct (Bytes_head v ltac:(lia)) as (y & l & Ev & Hy & HS & _). rewrite E in Ev, HS.
  by injection Ev as -> ->.
Qed.

Lemma Bytes_128 v : 0 < v < 128 -> ~ kind_ok KString (Bytes v).
Proof.
  intros Hv Hk. assert (byteZ (Zbyte v) = v) as Hbv by (rewrite byteZ_Zbyte; apply Z.mod_small; lia).
  specialize (Hk (Zbyte v)). rewrite <- Bytes_small, Hbv in Hk by lia. specialize (Hk eq_refl). lia.
Qed.

(** The continuation of [Stream_uint] at a string of [cs] bytes. *)
Definition uintString (cs : Z) : SM Z :=
  let* r := readUint cs in
  match r with
  | inl ErrCanonSize => serr ErrCanonInt
  | inl e => serr e
  | inr v => if (cs >? 0) && (v <? 128) then serr ErrCanonSize else sok v
  end.

Lemma uintString_ok w s cs h r stk :
  1 <= w <= 8 -> cs <= w -> seen s KString cs r (adv (zlen h) stk) ->
  header KString cs (st_byteval s) h -> zlen h <= room (h ++ r) stk -> zlen (h ++ r) < 2 ^ 62 ->
  sruns (uintString cs) s (fun e s' => hard e s' /\ uintBad w (h ++ r) stk)
    (uintOk w (h ++ r) stk).
Proof.
  intros Hw Hcw Hs Hh Hroom Hr. pose proof Hh as [Hcs0 Eh].
  assert (ahead s r (adv (zlen h) stk)) as Ha by apply Hs.
  assert (forall v r', r = Bytes v ++ r' -> zlen (Bytes v) = cs -> kind_ok KString (Bytes v) ->
    0 <= v < 256 ^ w -> cs <= room r (adv (zlen h) stk) ->
    forall s', bnd s' r' (adv cs (adv (zlen h) stk)) -> uintOk w (h ++ r) stk v s') as Hok.
  { intros v r' -> Hz Hk Hv Hle s' Hb. split; [done|]. exists r'. rewrite adv_adv in Hb.
    rewrite (room_adv _ h) in Hle by done.
    assert (rlp (Str (Bytes v)) = h ++ Bytes v) as ->.
    { change (rlp (Str (Bytes v))) with (enc KString (Bytes v)). rewrite enc_head, Hz by done. by rewrite Eh. }
    rewrite <- app_assoc, zlen_app, Hz. split; [done|]. split; [lia|done]. }
  destruct (Z.eq_dec cs 0) as [->|Hn].
  { destruct (readUint_0 s r _ Ha) as (s2 & E2 & Hb2).
    eapply runs_bind_eq; [exact E2|]. apply sruns_ret.
    assert (0 < 256 ^ w) by (apply Z.pow_pos_nonneg; lia).
    apply (Hok 0 r); [done|done|done|lia| |by rewrite adv_adv, Z.add_0_r].
    apply room_nonneg, Ha. }
  destruct (readUint_ok cs s r _ Ha ltac:(lia)) as ([e|v] & s2 & E2 & H2);
    (eapply runs_bind_eq; [exact E2|]).
  - assert (uintBad w (h ++ r) stk) as Hbad.
    { eapply uintBad_header; [done|done|lia|].
      intros v r' Hv [[? _]|(_ & -> & Hz & _ & Hle)]; [done|].
      destruct H2 as [_ [?|H0]]; [lia|]. destruct (Bytes v) as [|x b] eqn:Ev; [done|].
      by destruct (Bytes_first v w x b Hv ltac:(lia) Ev). }
    destruct H2 as [He2 _]. destruct e; try done; by apply sruns_err.
  - destruct H2 as (b & r' & -> & Hzb & Hle & -> & H0 & Hb2 & _).
    replace (cs >? 0) with true by lia. cbn [andb].
    destruct b as [|x b]; [change (zlen (@nil byte)) with 0 in *; lia|].
    pose proof (SetBytes_range (x :: b)) as Hrange.
    destruct (_ <? 128) eqn:E128; zbool.
    + apply sruns_err. split; [done|]. eapply uintBad_header; [done|done|lia|].
      intros v r3 Hv [[? _]|(_ & E & Hz & Hk & _)]; [done|].
      apply app_inj_1 in E as [E _]; [|unfold zlen in *; lia]. symmetry in E.
      destruct (Bytes_first v w x b Hv ltac:(lia) E) as [_ HS]. rewrite HS in E128.
      apply (Bytes_128 v); [|done]. assert (v <> 0) by (intros ->; done). lia.
    + assert (byteZ x <> 0) by (intros Hx; unfold byteAt in H0; cbn [app nth] in H0; lia).
      apply sruns_ret. assert (256 ^ zlen (x :: b) <= 256 ^ w) by (apply Z.pow_le_mono_r; lia).
      apply (Hok _ r'); rewrite ?Bytes_SetBytes by done; try done; [|lia].
      intros y [= -> ->]. unfold SetBytes in E128. cbn in E128. lia.
Qed.

Lemma Stream_uint_ok w s r stk :
  bnd s r stk -> eol stk = false -> 1 <= w <= 8 ->
  sruns (Stream_uint (8 * w)) s (fun e s' => hard e s' /\ uintBad w r stk) (uintOk w r stk).
Proof.
  intros Hb He Hw. assert (zlen r < 2 ^ 62) as Hr by apply Hb.
  unfold Stream_uint. apply sruns_bind. eapply sruns_mono; [by apply Kind_ok| |].
  { intros e s' [? ?]. split; [done|]. by apply uintBad_item, itemBad_kind. }
  intros [k cs] s' (h & r' & -> & Hroom & Hh & Hcs & Hs). destruct k.
  - eapply runs_bind_eq; [reflexivity|]. pose proof (byteZ_range (st_byteval s')).
    destruct (_ =? 0) eqn:E0; zbool.
    + apply sruns_err. split; [done|]. eapply uintBad_header; [done|done|lia|].
      intros v _ Hv [[_ E]|[? _]]; [|done]. symmetry in E.
      by destruct (Bytes_first v w _ _ Hv ltac:(lia) E).
    + eapply runs_bind_eq; [reflexivity|]. apply sruns_ret.
      assert (256 <= 256 ^ w) by (change 256 with (256 ^ 1) at 1; apply Z.pow_le_mono_r; lia).
      split; [lia|].
      rewrite Bytes_small by lia. destruct Hh as (_ & -> & Hlt). exists r'.
      cbn [rlp rlp_string]. replace (_ <? 128) with true by lia.
      split; [done|]. split; [done|]. split; [done|]. by destruct Hs as (_ & _ & _ & []).
  - assert (8 * w / 8 = w) as -> by (rewrite Z.mul_comm; by apply Z.div_mul).
    destruct (cs >? w) eqn:Ew; zbool; [|by apply uintString_ok].
    apply sruns_err. split; [done|]. eapply uintBad_header; [done|done|lia|].
    intros v r'' Hv [[? _]|(_ & -> & Hz & _)]; [done|].
    pose proof (zlen_Bytes_le v w ltac:(lia) Hv). lia.
  - apply sruns_err. split; [done|]. eapply uintBad_header; [done|done|lia|].
    by intros v r'' Hv [[? _]|[? _]].
Qed.

(** ** Sequences of values *)

Lemma string_enc b : exists k, k <> KList /\ rlp (Str b) = enc k b /\ kind_ok k b.
Proof.
  destruct b as [|x [|]]; [by exists KString| |by exists KString].
  destruct (Z.lt_ge_cases (byteZ x) 128).
  - exists KByte. split; [done|]. split; [done|]. by exists x.
  - exists KString. split; [done|]. split; [done|]. by intros ? [= <-].
Qed.

Lemma rlp_enc it : exists k c, rlp it = enc k c /\ kind_ok k c.
Proof.
  destruct it as [b|l]; [|by exists KList, (concat (map rlp l))].
  destruct (string_enc b) as (k & _ & E & Hk). by exists k, b.
Qed.

Lemma zlen_enc k c : zlen c <= zlen (enc k c).
Proof. destruct k; [apply zlen_rlp_string..|apply zlen_rlp_list]. Qed.

Lemma CountValuesLoop_rlp l : forall rounds i,
  (length (concat (map rlp l)) <= rounds)%nat -> zlen (concat (map rlp l)) < 2 ^ 61 ->
  CountValuesLoop rounds (concat (map rlp l)) i = Some (inr (i + zlen l)).
Proof.
  induction l as [|it l IH]; intros rounds i Hr Hz.
  { destruct rounds; cbn; by rewrite Z.add_0_r. }
  cbn [map concat] in *. rewrite length_app in Hr. rewrite zlen_app in Hz.
  pose proof (rlp_nonempty it) as Hne. pose proof (zlen_nonneg (concat (map rlp l))).
  destruct (rlp_enc it) as (k & c & E & Hk). pose proof (zlen_enc k c).
  pose proof (zlen_nonneg c). rewrite E in *.
  destruct rounds as [|rounds]; [unfold zlen in Hne; lia|].
  pose proof (readKind_enc k c (concat (map rlp l)) Hk ltac:(lia)) as Hrk.
  destruct (enc k c ++ concat (map rlp l)) as [|x b] eqn:Eb.
  { apply app_nil in Eb as [Eb _]. rewrite Eb in Hne. done. }
  cbn [CountValuesLoop]. rewrite Hrk, <- Eb, zlen_app, u64_small by (unfold is_u64; lia).
  rewrite slice_Some by (rewrite ?zlen_app; lia).
  replace (Z.to_nat (zlen (enc k c) - zlen c + zlen c)) with (length (enc k c)) by (unfold zlen; lia).
  rewrite drop_app_length, take_ge by (unfold zlen in *; lia).
  rewrite IH by (unfold zlen in *; lia). f_equal. f_equal. rewrite zlen_cons. lia.
Qed.

(** ** Integers, and injectivity *)

(** An integer is written as the string of its bytes. *)
Lemma writeUint_rlp i w :
  0 <= i < 2 ^ 64 -> writeUint i w = eb_write (rlp (Str (Bytes i))) w.
Proof.
  intros Hi. unfold writeUint. destruct (i =? 0) eqn:E0; zbool; [by subst|].
  destruct (i <? 128) eqn:E1; zbool.
  - assert (byteZ (Zbyte i) = i) as Hb by (rewrite byteZ_Zbyte; apply Z.mod_small; lia).
    rewrite <- Hb at 2. rewrite Bytes_small by lia. cbn [rlp rlp_string].
    by replace (byteZ (Zbyte i) <? 128) with true by lia.
  - rewrite putint_Bytes by lia. f_equal. cbn [rlp].
    destruct (Bytes_head i ltac:(lia)) as (x & l & E & Hx & HS & Hl).
    change (rlp_string (Bytes i)) with (enc KString (Bytes i)). rewrite enc_head; [|..|done].
    + unfold rlp_head. by replace (zlen (Bytes i) <? 56) with true by lia.
    + intros y Ey. rewrite Ey in HS. rewrite SetBytes_cons in HS.
      change (zlen (@nil byte)) with 0 in HS. unfold SetBytes in HS. cbn in HS. lia.
Qed.

Lemma rlp_inj i1 i2 : zlen (rlp i1) < 2 ^ 62 -> rlp i1 = rlp i2 -> i1 = i2.
Proof.
  intros Hz E. assert (rlp i1 ++ [] = rlp i2 ++ []) as E' by (by rewrite E).
  apply rlp_prefix in E' as [-> _]; [done|lia|]. rewrite <- E. lia.
Qed.
