(* ===== verification/TrieEncoding.v ===== *)
(** * trie/encoding.go: the encodings of trie keys

    A key is used as its bytes, as one byte per nibble with a terminator 16
    behind the nibbles of a complete key (HEX), and packed with a flag byte in
    stored nodes (COMPACT).

    Shown: the conversions are inverse to each other on the keys the trie uses,
    and on everything [hexToCompact] can produce. *)

From Stdlib Require Import ZArith Lia Bool.
From S2P Require Import Prelude GoMath Rlp.
Local Open Scope Z_scope.

(** ** Conversions.  [None] is an index or a slice out of range. *)

Definition hasTerm (s : list byte) : bool :=
  match last s with Some b => byteZ b =? 16 | None => false end.

(** [b1<<4 | b2] of two bytes. *)
Definition pack (b1 b2 : byte) : byte :=
  Zbyte (Z.lor (Z.shiftl (byteZ b1) 4 mod 256) (byteZ b2)).

(** [decodeNibbles(nibbles, bytes)] with room for half the nibbles. *)
Fixpoint decodeNibbles (nibbles : list byte) : option (list byte) :=
  match nibbles with
  | [] => Some []
  | [_] => None
  | n1 :: n2 :: nibbles =>
      match decodeNibbles nibbles with
      | Some bytes => Some (pack n1 n2 :: bytes)
      | None => None
      end
  end.

Definition hexToCompact (hex : list byte) : option (list byte) :=
  let '(terminator, hex) :=
    if hasTerm hex then (1, take (length hex - 1) hex) else (0, hex) in
  let flag := Z.shiftl terminator 5 in
  if Z.land (zlen hex) 1 =? 1 then
    match hex with
    | [] => None
    | h0 :: hex =>
        match decodeNibbles hex with
        | Some bytes => Some (Zbyte (Z.lor (Z.lor flag (Z.shiftl 1 4)) (byteZ h0)) :: bytes)
        | None => None
        end
    end
  else
    match decodeNibbles hex with
    | Some bytes => Some (Zbyte flag :: bytes)
    | None => None
    end.

Definition hexOf (str : list byte) : list byte :=
  concat (map (fun b => [Zbyte (byteZ b / 16); Zbyte (byteZ b mod 16)]) str).

Definition keybytesToHex (str : list byte) : list byte := hexOf str ++ [x10].

Definition compactToHex (compact : list byte) : option (list byte) :=
  let base := keybytesToHex compact in
  match base with
  | [] => None
  | b0 :: _ =>
      let base := if byteZ b0 <? 2 then take (length base - 1) base else base in
      let chop := 2 - Z.land (byteZ b0) 1 in
      slice base chop (zlen base)
  end.

(** The second panic is explicit in the code. *)
Definition hexToKeybytes (hex : list byte) : option (list byte) :=
  let hex := if hasTerm hex then take (length hex - 1) hex else hex in
  if negb (Z.land (zlen hex) 1 =? 0) then None else decodeNibbles hex.

Fixpoint prefixLen (a b : list byte) : nat :=
  match a, b with
  | x :: a, y :: b => if bool_decide (x = y) then S (prefixLen a b) else O
  | _, _ => O
  end.

Example compact_odd_leaf : hexToCompact [x01; x02; x03; x10] = Some [x31; x23].
Proof. reflexivity. Qed.
Example compact_even_ext : hexToCompact [x01; x02] = Some [x00; x12].
Proof. reflexivity. Qed.
Example hex_even_leaf : compactToHex [x20; x0f; x1c] = Some [x00; x0f; x01; x0c; x10].
Proof. reflexivity. Qed.
(** The empty string is no compact key; converting it panics. *)
Example compact_empty : compactToHex [] = None.
Proof. reflexivity. Qed.

(** ** Nibbles *)

Definition nibble (b : byte) : Prop := byteZ b < 16.
Definition nibbles (l : list byte) : Prop := Forall nibble l.

(** A complete key: nibbles and the terminator. *)
Definition hexkey (k : list byte) : Prop := exists ns, k = ns ++ [x10] /\ nibbles ns.

Lemma byteZ_x10 : byteZ x10 = 16.
Proof. done. Qed.

Lemma pack_nibbles b1 b2 : nibble b1 -> nibble b2 -> byteZ (pack b1 b2) = byteZ b1 * 16 + byteZ b2.
Proof.
  unfold nibble, pack. intros H1 H2. pose proof (byteZ_range b1). pose proof (byteZ_range b2).
  rewrite Z.shiftl_mul_pow2 by lia. rewrite (Z.mod_small (_ * _)) by lia.
  rewrite (lor_add 4); [|lia|by apply Z.mod_mul|lia]. change (2 ^ 4) with 16.
  rewrite byteZ_Zbyte. apply Z.mod_small. lia.
Qed.

Lemma hexOf_app a b : hexOf (a ++ b) = hexOf a ++ hexOf b.
Proof. unfold hexOf. by rewrite map_app, concat_app. Qed.

Lemma length_hexOf s : length (hexOf s) = (2 * length s)%nat.
Proof. induction s as [|b s IH]; [done|].
  change (length (hexOf (b :: s))) with (S (S (length (hexOf s)))). rewrite IH. cbn [length]. lia.
Qed.

Lemma byteZ_high b : byteZ (Zbyte (byteZ b / 16)) = byteZ b / 16.
Proof.
  rewrite byteZ_Zbyte. apply Z.mod_small. pose proof (byteZ_range b).
  split; [apply Z.div_pos; lia|]. apply Z.div_lt_upper_bound; lia.
Qed.

Lemma byteZ_low b : byteZ (Zbyte (byteZ b mod 16)) = byteZ b mod 16.
Proof. rewrite byteZ_Zbyte. apply Z.mod_small. pose proof (Z.mod_pos_bound (byteZ b) 16). lia. Qed.

Lemma hexOf_nibbles s : nibbles (hexOf s).
Proof.
  induction s as [|b s IH]; [constructor|]. unfold nibbles. cbn [hexOf map concat app].
  pose proof (byteZ_range b). repeat constructor; [unfold nibble..|done].
  - rewrite byteZ_high. apply Z.div_lt_upper_bound; lia.
  - rewrite byteZ_low. by apply Z.mod_pos_bound.
Qed.

Lemma hexOf_pack n1 n2 : nibble n1 -> nibble n2 -> hexOf [pack n1 n2] = [n1; n2].
Proof.
  intros H1 H2. cbn. rewrite pack_nibbles by done. unfold nibble in *.
  pose proof (byteZ_range n1). pose proof (byteZ_range n2).
  rewrite Z.div_add_l by lia. rewrite (Z.div_small (byteZ n2)), Z.add_0_r by lia.
  rewrite Z.add_comm, Z.mod_add, Z.mod_small by lia. by rewrite !Zbyte_byteZ.
Qed.

(** [decodeNibbles] inverts [hexOf], both ways. *)
Lemma decodeNibbles_hexOf s : decodeNibbles (hexOf s) = Some s.
Proof.
  induction s as [|b s IH]; [done|].
  change (hexOf (b :: s)) with (Zbyte (byteZ b / 16) :: Zbyte (byteZ b mod 16) :: hexOf s).
  cbn [decodeNibbles]. rewrite IH. do 2 f_equal. apply byteZ_inj.
  pose proof (byteZ_range b).
  rewrite pack_nibbles; unfold nibble; rewrite ?byteZ_high, ?byteZ_low.
  - pose proof (Z.div_mod (byteZ b) 16). lia.
  - apply Z.div_lt_upper_bound; lia.
  - by apply Z.mod_pos_bound.
Qed.

Lemma decodeNibbles_even k : forall ns,
  length ns = (2 * k)%nat -> nibbles ns -> exists s, decodeNibbles ns = Some s /\ hexOf s = ns.
Proof.
  induction k as [|k IH]; intros ns Hl Hn.
  { destruct ns; [|done]. by exists []. }
  destruct ns as [|n1 [|n2 ns]]; [done|cbn in Hl; lia|].
  apply Forall_cons in Hn as [H1 Hn]. apply Forall_cons in Hn as [H2 Hn].
  destruct (IH ns) as (s & E & Hs); [cbn in Hl; lia|done|].
  exists (pack n1 n2 :: s). cbn [decodeNibbles]. rewrite E. split; [done|].
  change (pack n1 n2 :: s) with ([pack n1 n2] ++ s). by rewrite hexOf_app, hexOf_pack, Hs.
Qed.

Lemma hasTerm_app ns : hasTerm (ns ++ [x10]) = true.
Proof. unfold hasTerm. by rewrite last_snoc. Qed.

Lemma hasTerm_nibbles ns : nibbles ns -> hasTerm ns = false.
Proof.
  intros H. unfold hasTerm. destruct (last ns) as [b|] eqn:E; [|done].
  apply last_Some_elem_of in E. apply (proj1 (Forall_forall _ _) H) in E. unfold nibble in E. lia.
Qed.

Lemma take_snoc {A} (l : list A) x : take (length (l ++ [x]) - 1) (l ++ [x]) = l.
Proof. rewrite length_app. cbn [length]. rewrite Nat.add_sub. apply take_app_length. Qed.

Lemma hexkey_keybytes key : hexkey (keybytesToHex key).
Proof. exists (hexOf key). split; [done|]. apply hexOf_nibbles. Qed.

Lemma hexToKeybytes_keybytes key : hexToKeybytes (keybytesToHex key) = Some key.
Proof.
  unfold hexToKeybytes, keybytesToHex. rewrite hasTerm_app, take_snoc. unfold zlen.
  rewrite length_hexOf. replace (Z.of_nat (2 * length key)) with (2 * Z.of_nat (length key)) by lia.
  assert (Z.land (2 * Z.of_nat (length key)) 1 = 0) as ->.
  { change 1 with (Z.ones 1). rewrite Z.land_ones by lia. rewrite Z.mul_comm. by apply Z.mod_mul. }
  apply decodeNibbles_hexOf.
Qed.

Lemma keybytesToHex_inj a b : keybytesToHex a = keybytesToHex b -> a = b.
Proof. intros H. apply (f_equal hexToKeybytes) in H. rewrite !hexToKeybytes_keybytes in H. by injection H. Qed.

(** ** The compact encoding *)

(** A key of a short node: of an extension, or of a leaf. *)
Definition key_of (leaf : bool) (ns : list byte) : list byte := if leaf then ns ++ [x10] else ns.

Lemma land1_odd (n : nat) : (Z.land (Z.of_nat n) 1 =? 1) = Nat.odd n.
Proof.
  change 1 with (Z.ones 1) at 1. rewrite Z.land_ones by lia. change (2 ^ 1) with 2.
  destruct (Nat.Even_or_Odd n) as [[m ->]|[m ->]].
  - rewrite Nat.odd_mul. cbn [Nat.odd]. rewrite Nat2Z.inj_mul, Z.mul_comm. by rewrite Z.mod_mul.
  - replace (Nat.odd (2 * m + 1)) with true
      by (rewrite Nat.add_comm, Nat.odd_add, Nat.odd_mul; done).
    replace (Z.of_nat (2 * m + 1)) with (1 + Z.of_nat m * 2) by lia. by rewrite Z.mod_add.
Qed.

Lemma key_of_term leaf ns :
  nibbles ns ->
  (if hasTerm (key_of leaf ns) then (1, take (length (key_of leaf ns) - 1) (key_of leaf ns))
   else (0, key_of leaf ns)) = (Z.b2z leaf, ns).
Proof.
  intros Hn. destruct leaf; cbn [key_of].
  - by rewrite hasTerm_app, take_snoc.
  - by rewrite hasTerm_nibbles.
Qed.

(** The flag byte and the packed nibbles. *)
Definition flagNibble (leaf odd : bool) : Z := 2 * Z.b2z leaf + Z.b2z odd.

Lemma flag_even leaf : Z.shiftl (Z.b2z leaf) 5 = 16 * flagNibble leaf false.
Proof. by destruct leaf. Qed.

Lemma flag_odd leaf h :
  nibble h -> Z.lor (Z.lor (Z.shiftl (Z.b2z leaf) 5) (Z.shiftl 1 4)) (byteZ h) =
    16 * flagNibble leaf true + byteZ h.
Proof.
  unfold nibble. intros Hh. pose proof (byteZ_range h).
  assert (Z.lor (Z.shiftl (Z.b2z leaf) 5) (Z.shiftl 1 4) = 16 * flagNibble leaf true) as -> by (by destruct leaf).
  apply (lor_add 4); [lia| |lia]. rewrite Z.mul_comm. by apply Z.mod_mul.
Qed.

(** What [hexToCompact] returns, as nibbles. *)
Lemma hexToCompact_hexOf leaf ns :
  nibbles ns ->
  exists c, hexToCompact (key_of leaf ns) = Some c /\
    hexOf c = if Nat.odd (length ns) then Zbyte (flagNibble leaf true) :: ns
              else Zbyte (flagNibble leaf false) :: x00 :: ns.
Proof.
  intros Hn. unfold hexToCompact. rewrite key_of_term by done. cbv zeta beta iota.
  unfold zlen. rewrite land1_odd.
  assert (forall l o h, 0 <= byteZ h < 16 ->
    hexOf [Zbyte (16 * flagNibble l o + byteZ h)] = [Zbyte (flagNibble l o); h]) as Hflag.
  { intros l o h Hh. assert (0 <= flagNibble l o < 4) by (by destruct l, o).
    unfold hexOf. cbn [map concat app]. rewrite byteZ_Zbyte, Z.mod_small by lia.
    rewrite Z.mul_comm, Z.div_add_l, (Z.div_small (byteZ h)), Z.add_0_r by lia.
    by rewrite Z.add_comm, Z.mod_add, Z.mod_small, Zbyte_byteZ by lia. }
  destruct (Nat.odd (length ns)) eqn:Eo.
  - destruct ns as [|h ns]; [done|]. apply Forall_cons in Hn as [Hh Hn].
    apply Nat.odd_spec in Eo as [m Em]. cbn [length] in Em.
    destruct (decodeNibbles_even m ns) as (s & -> & Es); [lia|done|].
    eexists. split; [done|]. rewrite flag_odd by done.
    change (?b :: s) with ([b] ++ s). rewrite hexOf_app, Hflag, Es; [done|].
    pose proof (byteZ_range h). unfold nibble in Hh. lia.
  - assert (Nat.even (length ns) = true) as Ee by (by rewrite <- Nat.negb_odd, Eo).
    apply Nat.even_spec in Ee as [m Em].
    destruct (decodeNibbles_even m ns) as (s & -> & Es); [lia|done|].
    eexists. split; [done|]. rewrite flag_even, <- (Z.add_0_r (16 * _)). change 0 with (byteZ x00).
    change (?b :: s) with ([b] ++ s). by rewrite hexOf_app, Hflag, Es.
Qed.

(** What [compactToHex] makes of such nibbles. *)
Lemma compactToHex_nibbles leaf odd ns c :
  hexOf c = Zbyte (flagNibble leaf odd) :: (if odd then ns else x00 :: ns) ->
  compactToHex c = Some (key_of leaf ns).
Proof.
  intros E. unfold compactToHex, keybytesToHex. rewrite E. cbn [app].
  assert (byteZ (Zbyte (flagNibble leaf odd)) = flagNibble leaf odd) as -> by (by destruct leaf, odd).
  set (b0 := Zbyte _).
  assert (forall l, slice (b0 :: l) 1 (zlen (b0 :: l)) = Some l) as H1.
  { intros l. pose proof (zlen_nonneg l). rewrite slice_Some by (rewrite ?zlen_cons; lia).
    f_equal. rewrite zlen_cons. change (Z.to_nat 1) with 1%nat. cbn [drop].
    apply take_ge. unfold zlen. lia. }
  assert (forall l, slice (b0 :: x00 :: l) 2 (zlen (b0 :: x00 :: l)) = Some l) as H2.
  { intros l. pose proof (zlen_nonneg l). rewrite slice_Some by (rewrite ?zlen_cons; lia).
    f_equal. rewrite !zlen_cons. change (Z.to_nat 2) with 2%nat. cbn [drop].
    apply take_ge. unfold zlen. lia. }
  assert (forall l : list byte, take (length (b0 :: l ++ [x10]) - 1) (b0 :: l ++ [x10]) = b0 :: l) as Ht.
  { intros l. apply (take_snoc (b0 :: l)). }
  destruct leaf, odd; cbn [flagNibble Z.b2z Z.mul Z.add key_of]; cbn [Z.ltb Z.compare Pos.compare Pos.compare_cont].
  all: try (change (2 - Z.land _ 1) with 1); try (change (2 - Z.land _ 1) with 2).
  - apply H1.
  - apply H2.
  - rewrite Ht. apply H1.
  - change (b0 :: (x00 :: ns) ++ [x10]) with (b0 :: (x00 :: ns) ++ [x10]). rewrite (Ht (x00 :: ns)). apply H2.
Qed.

Lemma compact_round_trip leaf ns :
  nibbles ns ->
  exists c, hexToCompact (key_of leaf ns) = Some c /\ compactToHex c = Some (key_of leaf ns).
Proof.
  intros Hn. destruct (hexToCompact_hexOf leaf ns Hn) as (c & E & H). exists c. split; [done|].
  apply (compactToHex_nibbles leaf (Nat.odd (length ns))). rewrite H. by destruct (Nat.odd _).
Qed.

(** The compact keys: a flag nibble below 4, followed by a zero nibble when
    the number of nibbles is even. *)
Definition compact_ok (c : list byte) : Prop :=
  match hexOf c with
  | f :: l :: _ => byteZ f < 4 /\ (Z.land (byteZ f) 1 = 0 -> l = x00)
  | _ => False
  end.

Lemma hexOf_inj a b : hexOf a = hexOf b -> a = b.
Proof. intros H. apply (f_equal decodeNibbles) in H. rewrite !decodeNibbles_hexOf in H. by injection H. Qed.

Lemma compact_unique c :
  compact_ok c -> exists k, compactToHex c = Some k /\ hexToCompact k = Some c.
Proof.
  unfold compact_ok. pose proof (hexOf_nibbles c) as Hn. pose proof (length_hexOf c) as Hl.
  destruct (hexOf c) as [|f [|l ns]] eqn:E; [done..|]. intros [Hf H0].
  apply Forall_cons in Hn as [_ Hn]. pose proof (byteZ_range f).
  assert (exists leaf odd, f = Zbyte (flagNibble leaf odd) /\ (odd = false -> l = x00)) as (leaf & odd & -> & Hodd).
  { assert (byteZ f = 0 \/ byteZ f = 1 \/ byteZ f = 2 \/ byteZ f = 3) as D by lia.
    exists (2 <=? byteZ f), (Z.odd (byteZ f)). rewrite <- (Zbyte_byteZ f) at 1.
    destruct D as [D|[D|[D|D]]]; rewrite D in *; (split; [done|]); intros; try done; by apply H0. }
  set (k := if odd then l :: ns else ns).
  assert (nibbles k) as Hk by (destruct odd; [done|by apply Forall_cons in Hn as [_ ?]]).
  exists (key_of leaf k). split.
  - apply (compactToHex_nibbles leaf odd). rewrite E. destruct odd; [done|]. by rewrite Hodd.
  - destruct (hexToCompact_hexOf leaf k Hk) as (c' & Ec & Hc'). rewrite Ec. f_equal.
    apply hexOf_inj. rewrite Hc', E. unfold k. cbn [length] in Hl. destruct odd; cbn [length].
    + replace (Nat.odd (S (length ns))) with true; [done|].
      symmetry. apply Nat.odd_spec. exists (length c - 1)%nat. lia.
    + replace (Nat.odd (length ns)) with false; [by rewrite Hodd|].
      symmetry. rewrite <- Nat.negb_even. apply negb_false_iff, Nat.even_spec.
      exists (length c - 1)%nat. lia.
Qed.

(** ** Common prefixes *)

Lemma prefixLen_le_l a : forall b, (prefixLen a b <= length a)%nat.
Proof.
  induction a as [|x a IH]; intros [|y b]; cbn; try lia.
  case_bool_decide; [|lia]. specialize (IH b). lia.
Qed.

Lemma prefixLen_take a : forall b, take (prefixLen a b) a = take (prefixLen a b) b.
Proof.
  induction a as [|x a IH]; intros [|y b]; cbn; try done.
  case_bool_decide as E; [|done]. subst. cbn. by rewrite IH.
Qed.

Lemma prefixLen_comm a : forall b, prefixLen a b = prefixLen b a.
Proof.
  induction a as [|x a IH]; intros [|y b]; cbn; try done.
  do 2 case_bool_decide; subst; try done. by rewrite IH.
Qed.

(** Behind the common prefix the keys differ. *)
Lemma prefixLen_split a b :
  exists p a' b', a = p ++ a' /\ b = p ++ b' /\ length p = prefixLen a b /\
    (forall x y, head a' = Some x -> head b' = Some y -> x <> y).
Proof.
  revert b. induction a as [|x a IH]; intros [|y b]; cbn.
  - exists [], [], []. done.
  - exists [], [], (y :: b). done.
  - exists [], (x :: a), []. done.
  - case_bool_decide as E.
    + subst. destruct (IH b) as (p & a' & b' & -> & -> & Hl & Hd).
      exists (y :: p), a', b'. cbn. by rewrite Hl.
    + exists [], (x :: a), (y :: b). split; [done|]. split; [done|]. split; [done|].
      cbn. by intros ? ? [= <-] [= <-].
Qed.
