(* ===== verification/Trie.v ===== *)
(** * trie/trie.go, node.go: the Merkle Patricia trie in memory

    Nodes with their cache flags, and the operations of [Trie] on them.  Nodes
    that are not in memory are [hashNode]s; they are loaded through the
    interface [NodeReader], which [trie.Database] implements. *)

From Stdlib Require Import ZArith Lia Bool.
From S2P Require Import Prelude GoMath TrieEncoding.
Local Open Scope Z_scope.

(** ** node.go *)

(** [gen] is a [uint16]; the hash may be nil. *)
Record nodeFlag := mkFlag {
  nf_hash : option (list byte);
  nf_gen : Z;
  nf_dirty : bool
}.

#[local] Set Warnings "-register-all".

(** The types behind the interface [node], and nil. *)
Inductive node :=
| NilNode
| fullNode (Children : list node) (flags : nodeFlag)
| shortNode (Key : list byte) (Val : node) (flags : nodeFlag)
| hashNode (h : list byte)
| valueNode (v : list byte).

Definition u16 (z : Z) : Z := z mod 2 ^ 16.

Definition canUnloadFlag (n : nodeFlag) (cachegen cachelimit : Z) : bool :=
  negb (nf_dirty n) && (u16 (cachegen - nf_gen n) >=? cachelimit).

Definition canUnload (n : node) (gen limit : Z) : bool :=
  match n with
  | fullNode _ fl | shortNode _ _ fl => canUnloadFlag fl gen limit
  | _ => false
  end.

(** [cache]: the cached hash, and whether the node is dirty. *)
Definition cache (n : node) : option (list byte) * bool :=
  match n with
  | fullNode _ fl | shortNode _ _ fl => (nf_hash fl, nf_dirty fl)
  | _ => (None, true)
  end.

Definition isNil (n : node) : bool := match n with NilNode => true | _ => false end.
Definition isHash (n : node) : bool := match n with hashNode _ => true | _ => false end.

(** ** Errors *)

Inductive trieErr := MissingNodeError (NodeHash : Hash) (Path : list byte).

(** Results with errors of type [E]. *)
Definition res (E A : Type) : Type := outcome (E + A).
Definition TM : Type -> Type := res trieErr.
Definition tok {E A} (a : A) : res E A := Ret (inr a).
Definition terr {E A} (e : E) : res E A := Ret (inl e).
Definition tbind {E A B} (m : res E A) (f : A -> res E B) : res E B :=
  match m with
  | Ret (inr a) => f a
  | Ret (inl e) => Ret (inl e)
  | Panic => Panic
  | OutOfFuel => OutOfFuel
  end.

Declare Scope trie_scope.
Notation "'do' x := m 'in' k" := (tbind m (fun x => k))
  (at level 10, x name, m at level 100, k at level 200) : trie_scope.
Notation "'do' ' p := m 'in' k" := (tbind m (fun x => match x with p => k end))
  (at level 10, p pattern, m at level 100, k at level 200) : trie_scope.
Local Open Scope trie_scope.

(** An index expression that panics out of range. *)
Definition tget {E A B} (o : option A) (f : A -> res E B) : res E B :=
  match o with Some a => f a | None => Panic end.
Notation "'idx' x := o 'in' k" := (tget o (fun x => k))
  (at level 10, x name, o at level 100, k at level 200) : trie_scope.

(** ** Loading nodes *)

(** [Database.node]: nil where there is no such node. *)
Class NodeReader := dbNode : Hash -> Z -> outcome node.

(** The known root hash of an empty trie. *)
Definition emptyRoot : Hash :=
  0x56e81f171bcc55a6ff8345e692c0f86e5b48e01b996cadc001622fb5e363b421.

Section trie.
Context {R : NodeReader}.

Record Trie := mkTrie {
  t_root : node;
  t_originalRoot : Hash;
  t_cachegen : Z;
  t_cachelimit : Z
}.

Definition set_root (n : node) (t : Trie) : Trie :=
  mkTrie n (t_originalRoot t) (t_cachegen t) (t_cachelimit t).
Definition SetCacheLimit (l : Z) (t : Trie) : Trie :=
  mkTrie (t_root t) (t_originalRoot t) (t_cachegen t) l.

Definition newFlag (gen : Z) : nodeFlag := mkFlag None gen true.

Definition resolveHash (gen : Z) (n prefix : list byte) : TM node :=
  let hash := BytesToHash n in
  match dbNode hash gen with
  | Ret NilNode => terr (MissingNodeError hash prefix)
  | Ret node => tok node
  | Panic => Panic
  | OutOfFuel => OutOfFuel
  end.

Definition resolve (gen : Z) (n : node) (prefix : list byte) : TM node :=
  match n with hashNode h => resolveHash gen h prefix | _ => tok n end.

(** [New] with a database. *)
Definition New (root : Hash) : TM Trie :=
  let trie := mkTrie NilNode root 0 0 in
  if negb (root =? 0) && negb (root =? emptyRoot) then
    do rootnode := resolveHash (t_cachegen trie) (be_bytes 32 root) [] in
    tok (set_root rootnode trie)
  else tok trie.

(** ** Reading *)

(** A child of a full node, [Children\[b\]]. *)
Definition child (b : byte) (cs : list node) : option node := cs !! Z.to_nat (byteZ b).
Definition setChild (b : byte) (n : node) (cs : list node) : list node :=
  <[Z.to_nat (byteZ b) := n]> cs.

(** The value, the node to replace [origNode] by, and whether nodes were
    loaded.  Every call but those on loaded nodes uses up some of the key. *)
Fixpoint tryGet (fuel : nat) (gen : Z) (origNode : node) (key : list byte) (pos : nat) :
    TM (option (list byte) * node * bool) :=
  match fuel with
  | O => OutOfFuel
  | S fuel =>
      match origNode with
      | NilNode => tok (None, NilNode, false)
      | valueNode v => tok (Some v, origNode, false)
      | shortNode nKey nVal fl =>
          if (length key - pos <? length nKey)%nat
             || negb (bool_decide (nKey = take (length nKey) (drop pos key)))
          then tok (None, origNode, false)
          else
            do '(value, newnode, didResolve) := tryGet fuel gen nVal key (pos + length nKey) in
            if (didResolve : bool)
            then tok (value, shortNode nKey newnode (mkFlag (nf_hash fl) gen (nf_dirty fl)), didResolve)
            else tok (value, origNode, didResolve)
      | fullNode cs fl =>
          idx b := key !! pos in
          idx c := child b cs in
          do '(value, newnode, didResolve) := tryGet fuel gen c key (pos + 1) in
          if (didResolve : bool)
          then tok (value, fullNode (setChild b newnode cs) (mkFlag (nf_hash fl) gen (nf_dirty fl)), didResolve)
          else tok (value, origNode, didResolve)
      | hashNode h =>
          do c := resolveHash gen h (take pos key) in
          do '(value, newnode, _) := tryGet fuel gen c key pos in
          tok (value, newnode, true)
      end
  end.

(** Two calls per nibble, and one for the end. *)
Definition keyFuel (key : list byte) : nat := 2 * length key + 3.

Definition TryGet (t : Trie) (key : list byte) : TM (option (list byte) * Trie) :=
  let key := keybytesToHex key in
  do '(value, newroot, didResolve) := tryGet (keyFuel key) (t_cachegen t) (t_root t) key 0 in
  tok (value, if (didResolve : bool) then set_root newroot t else t).

(** ** Inserting *)

Definition isDirty (v : list byte) (value : node) : TM bool :=
  match value with
  | valueNode w => tok (negb (bool_decide (v = w)))
  | _ => Panic
  end.

Fixpoint insert (fuel : nat) (gen : Z) (n : node) (prefix key : list byte) (value : node) :
    TM (bool * node) :=
  match fuel with
  | O => OutOfFuel
  | S fuel =>
      match key with
      | [] =>
          match n with
          | valueNode v => do d := isDirty v value in tok (d, value)
          | _ => tok (true, value)
          end
      | k0 :: krest =>
          match n with
          | shortNode nKey nVal fl =>
              let matchlen := prefixLen key nKey in
              if (matchlen =? length nKey)%nat then
                do '(dirty, nn) :=
                  insert fuel gen nVal (prefix ++ take matchlen key) (drop matchlen key) value in
                if (dirty : bool) then tok (true, shortNode nKey nn (newFlag gen)) else tok (false, n)
              else
                let branch := replicate 17 NilNode in
                idx b1 := nKey !! matchlen in
                do '(_, c1) := insert fuel gen NilNode (prefix ++ take (matchlen + 1) nKey)
                                 (drop (matchlen + 1) nKey) nVal in
                idx _ := child b1 branch in
                let branch := setChild b1 c1 branch in
                idx b2 := key !! matchlen in
                do '(_, c2) := insert fuel gen NilNode (prefix ++ take (matchlen + 1) key)
                                 (drop (matchlen + 1) key) value in
                idx _ := child b2 branch in
                let branch := fullNode (setChild b2 c2 branch) (newFlag gen) in
                if (matchlen =? 0)%nat then tok (true, branch)
                else tok (true, shortNode (take matchlen key) branch (newFlag gen))
          | fullNode cs fl =>
              idx c := child k0 cs in
              do '(dirty, nn) := insert fuel gen c (prefix ++ [k0]) krest value in
              if (dirty : bool) then tok (true, fullNode (setChild k0 nn cs) (newFlag gen))
              else tok (false, n)
          | NilNode => tok (true, shortNode key value (newFlag gen))
          | hashNode h =>
              do rn := resolveHash gen h prefix in
              do '(dirty, nn) := insert fuel gen rn prefix key value in
              if (dirty : bool) then tok (true, nn) else tok (false, rn)
          | valueNode _ => Panic
          end
      end
  end.

(** ** Deleting *)

(** The loop over the children: the position of the only one that is left, or
    [None] when there are two ([-2] in the code) or none ([-1]). *)
Fixpoint onlyChildFrom (i : nat) (cs : list node) : option nat :=
  match cs with
  | [] => None
  | c :: cs => if isNil c then onlyChildFrom (S i) cs
               else if forallb isNil cs then Some i else None
  end.
Definition onlyChild (cs : list node) : option nat := onlyChildFrom 0 cs.

Fixpoint delete (fuel : nat) (gen : Z) (n : node) (prefix key : list byte) : TM (bool * node) :=
  match fuel with
  | O => OutOfFuel
  | S fuel =>
      match n with
      | shortNode nKey nVal fl =>
          let matchlen := prefixLen key nKey in
          if (matchlen <? length nKey)%nat then tok (false, n)
          else if (matchlen =? length key)%nat then tok (true, NilNode)
          else
            do '(dirty, c) := delete fuel gen nVal (prefix ++ take (length nKey) key)
                                (drop (length nKey) key) in
            if (dirty : bool) then
              match c with
              | shortNode cKey cVal _ => tok (true, shortNode (nKey ++ cKey) cVal (newFlag gen))
              | _ => tok (true, shortNode nKey c (newFlag gen))
              end
            else tok (false, n)
      | fullNode cs fl =>
          idx k0 := key !! 0%nat in
          idx c := child k0 cs in
          do '(dirty, nn) := delete fuel gen c (prefix ++ [k0]) (drop 1 key) in
          if (dirty : bool) then
            let cs := setChild k0 nn cs in
            match onlyChild cs with
            | Some pos =>
                idx c := cs !! pos in
                let byte_pos := Zbyte (Z.of_nat pos) in
                do merged :=
                  if negb (pos =? 16)%nat then
                    do cnode := resolve gen c prefix in
                    match cnode with
                    | shortNode cKey cVal _ =>
                        tok (Some (shortNode (byte_pos :: cKey) cVal (newFlag gen)))
                    | _ => tok None
                    end
                  else tok None in
                match merged with
                | Some n => tok (true, n)
                | None => tok (true, shortNode [byte_pos] c (newFlag gen))
                end
            | None => tok (true, fullNode cs (newFlag gen))
            end
          else tok (false, n)
      | valueNode _ => tok (true, NilNode)
      | NilNode => tok (false, NilNode)
      | hashNode h =>
          do rn := resolveHash gen h prefix in
          do '(dirty, nn) := delete fuel gen rn prefix key in
          if (dirty : bool) then tok (true, nn) else tok (false, rn)
      end
  end.

Definition TryUpdate (t : Trie) (key value : list byte) : TM Trie :=
  let k := keybytesToHex key in
  if negb (zlen value =? 0) then
    do '(_, n) := insert (keyFuel k) (t_cachegen t) (t_root t) [] k (valueNode value) in
    tok (set_root n t)
  else
    do '(_, n) := delete (keyFuel k) (t_cachegen t) (t_root t) [] k in
    tok (set_root n t).

Definition TryDelete (t : Trie) (key : list byte) : TM Trie :=
  let k := keybytesToHex key in
  do '(_, n) := delete (keyFuel k) (t_cachegen t) (t_root t) [] k in
  tok (set_root n t).
End trie.

(** Values under [doe], [dog] and [dogglesworth], and one taken out again. *)
Section example.
#[local] Instance noNodes : NodeReader := fun _ _ => Ret NilNode.
Definition doe := [x64; x6f; x65].
Definition dog := [x64; x6f; x67].
Definition dogglesworth := [x64; x6f; x67; x67; x6c; x65; x73; x77; x6f; x72; x74; x68].

Example three_keys :
  (do t := TryUpdate (mkTrie NilNode 0 0 0) doe [x01] in
   do t := TryUpdate t dog [x02] in
   do t := TryUpdate t dogglesworth [x03] in
   do t := TryDelete t doe in
   do '(v1, t) := TryGet t doe in
   do '(v2, t) := TryGet t dog in
   do '(v3, t) := TryGet t dogglesworth in
   tok (v1, v2, v3)) = tok (E := trieErr) (None, Some [x02], Some [x03]).
Proof. reflexivity. Qed.
End example.
