(* ===== verification/TrieSpec.v ===== *)
(** * The trie as a finite map

    A trie with its hash nodes resolved is a [ptree].  Its entries are the
    complete keys it leads to ([plookup]).  The trees the operations build are
    canonical: no empty extensions, no extension behind an extension, no full
    node with less than two entries.  A canonical tree is determined by its
    entries, so the shape of a trie, and with it its root hash, does not depend
    on the order in which it was filled. *)

From Stdlib Require Import ZArith Lia Bool.
From S2P Require Import Prelude GoMath TrieEncoding Trie.
Local Open Scope Z_scope.

(** ** Resolved tries *)

#[local] Set Warnings "-register-all".

Inductive ptree :=
| PNil
| PVal (v : list byte)
| PShort (k : list byte) (c : ptree)
| PFull (cs : list ptree).

Fixpoint plookup (t : ptree) (key : list byte) {struct t} : option (list byte) :=
  match t with
  | PNil => None
  | PVal v => match key with [] => Some v | _ => None end
  | PShort k c =>
      if bool_decide (take (length k) key = k) then plookup c (drop (length k) key) else None
  | PFull cs =>
      match key with
      | [] => None
      | b :: key =>
          (fix go (cs : list ptree) (i : nat) : option (list byte) :=
             match cs, i with
             | [], _ => None
             | c :: _, O => plookup c key
             | _ :: cs, S i => go cs i
             end) cs (Z.to_nat (byteZ b))
      end
  end.

Definition bidx (b : byte) : nat := Z.to_nat (byteZ b).

Lemma plookup_full cs b key :
  plookup (PFull cs) (b :: key) =
    match cs !! bidx b with Some c => plookup c key | None => None end.
Proof.
  cbn [plookup]. fold (bidx b). generalize (bidx b). induction cs as [|c cs IH]; intros [|i]; try done.
Qed.

Lemma plookup_short_app k c key : plookup (PShort k c) (k ++ key) = plookup c key.
Proof. cbn. rewrite take_app_length, drop_app_length. by rewrite bool_decide_eq_true_2. Qed.

Lemma plookup_leaf k v : plookup (PShort k (PVal v)) k = Some v.
Proof. rewrite <- (app_nil_r k) at 2. by rewrite plookup_short_app. Qed.

Lemma plookup_short_inv k c key v :
  plookup (PShort k c) key = Some v -> exists key', key = k ++ key' /\ plookup c key' = Some v.
Proof.
  cbn. case_bool_decide as E; [|done]. intros H. exists (drop (length k) key). split; [|done].
  rewrite <- E at 1. by rewrite take_drop.
Qed.

Lemma plookup_short_None k c key :
  (forall key', key <> k ++ key') -> plookup (PShort k c) key = None.
Proof.
  intros H. destruct (plookup _ _) as [v|] eqn:E; [|done].
  apply plookup_short_inv in E as (key' & -> & _). by destruct (H key').
Qed.

(** ** Canonical trees *)

(** A subtree that is neither empty nor a value. *)
Inductive canon : ptree -> Prop :=
| canon_leaf k v : hexkey k -> v <> [] -> canon (PShort k (PVal v))
| canon_ext k cs : k <> [] -> nibbles k -> canon (PFull cs) -> canon (PShort k (PFull cs))
| canon_full cs :
    length cs = 17%nat ->
    (forall i c, (i < 16)%nat -> cs !! i = Some c -> c <> PNil -> canon c) ->
    (forall c, cs !! 16%nat = Some c -> c <> PNil -> exists v, c = PVal v /\ v <> []) ->
    (exists i j ci cj, i <> j /\ cs !! i = Some ci /\ cs !! j = Some cj /\ ci <> PNil /\ cj <> PNil) ->
    canon (PFull cs).

Lemma pnil_dec (t : ptree) : {t = PNil} + {t <> PNil}.
Proof. destruct t; by (left + right). Qed.

Definition canon0 (t : ptree) : Prop := t = PNil \/ canon t.

(** The keys that are looked up below a node: complete ones, or the empty one
    behind a terminator. *)
Definition slot (t : ptree) (key : list byte) : Prop :=
  match key with
  | [] => t = PNil \/ exists v, t = PVal v /\ v <> []
  | _ => hexkey key /\ canon0 t
  end.

Lemma hexkey_cons b key : hexkey (b :: key) -> (b = x10 /\ key = []) \/ (nibble b /\ hexkey key).
Proof.
  intros ([|n ns] & E & Hn).
  - injection E as -> ->. by left.
  - injection E as -> ->. apply Forall_cons in Hn as [Hb Hn]. right. split; [done|]. by exists ns.
Qed.

Lemma hexkey_app ns key : nibbles ns -> hexkey key -> hexkey (ns ++ key).
Proof.
  intros Hn (ms & -> & Hm). exists (ns ++ ms). rewrite app_assoc. split; [done|]. by apply Forall_app.
Qed.

Lemma hexkey_app_inv p key : hexkey (p ++ key) -> key <> [] -> nibbles p /\ hexkey key.
Proof.
  induction p as [|b p IH]; intros H Hne; [split; [constructor|done]|].
  cbn in H. apply hexkey_cons in H as [[_ E]|[Hb H]].
  - apply app_nil in E as [_ ->]. done.
  - destruct (IH H Hne) as [Hp Hk]. split; [by constructor|done].
Qed.

(** No complete key is a proper prefix of another. *)
Lemma hexkey_prefix k key : hexkey k -> hexkey (k ++ key) -> key = [].
Proof.
  intros (ns & -> & Hn) H. destruct key as [|b key]; [done|].
  apply hexkey_app_inv in H as [Hp _]; [|done]. apply Forall_app in Hp as [_ Hp].
  apply Forall_cons in Hp as [Hp _]. unfold nibble in Hp. by rewrite byteZ_x10 in Hp.
Qed.

Lemma hexkey_nibbles k : hexkey k -> nibbles k -> False.
Proof.
  intros (ns & -> & _) H. apply Forall_app in H as [_ H]. apply Forall_cons in H as [H _].
  unfold nibble in H. by rewrite byteZ_x10 in H.
Qed.

Lemma hexkey_term : hexkey [x10].
Proof. exists []. split; [done|constructor]. Qed.

Lemma hexkey_nonempty : ~ hexkey [].
Proof. intros (ns & E & _). by destruct ns. Qed.

Lemma bidx_inj a b : bidx a = bidx b -> a = b.
Proof.
  unfold bidx. intros H. pose proof (byteZ_range a). pose proof (byteZ_range b).
  apply byteZ_inj. lia.
Qed.

Lemma bidx_nibble b : nibble b -> (bidx b < 16)%nat.
Proof. unfold nibble, bidx. pose proof (byteZ_range b). lia. Qed.

Lemma bidx_term : bidx x10 = 16%nat.
Proof. done. Qed.

Lemma bidx_Zbyte i : (i < 256)%nat -> bidx (Zbyte (Z.of_nat i)) = i.
Proof. intros H. unfold bidx. rewrite byteZ_Zbyte, Z.mod_small by lia. lia. Qed.

Lemma nibble_Zbyte i : (i < 16)%nat -> nibble (Zbyte (Z.of_nat i)).
Proof. intros H. unfold nibble. rewrite byteZ_Zbyte, Z.mod_small by lia. lia. Qed.

(** A child of a canonical full node, at the key it is looked up with. *)
Lemma canon_child cs b key c :
  canon (PFull cs) -> hexkey (b :: key) -> cs !! bidx b = Some c -> slot c key.
Proof.
  intros H Hk Hc. inversion H as [| |? Hl Hn Hv _]; subst.
  apply hexkey_cons in Hk as [[-> ->]|[Hb Hk]].
  - rewrite bidx_term in Hc. destruct (pnil_dec c); [by left|right; by apply Hv].
  - destruct key as [|b' key]; [by apply hexkey_nonempty in Hk|].
    split; [done|]. destruct (pnil_dec c); [by left|right]. eapply Hn; [by apply bidx_nibble|done..].
Qed.

Lemma full_child cs b key :
  canon (PFull cs) -> hexkey (b :: key) -> exists c, cs !! bidx b = Some c.
Proof.
  intros H Hk. inversion H as [| |? Hl _ _ _]; subst.
  apply lookup_lt_is_Some_2. rewrite Hl.
  apply hexkey_cons in Hk as [[-> _]|[Hb _]]; [by rewrite bidx_term; lia|].
  apply bidx_nibble in Hb. lia.
Qed.

(** ** Entries *)

(** A canonical tree has an entry. *)
Lemma canon_entry t : canon t -> exists key v, hexkey key /\ plookup t key = Some v.
Proof.
  induction 1 as [k v Hk Hv|k cs Hne Hk _ (key & v & Hkey & E)|cs Hl Hn IHn Hv (i & j & ci & cj & Hij & Ei & Ej & Ci & Cj)].
  - exists k, v. split; [done|]. apply plookup_leaf.
  - exists (k ++ key), v. split; [by apply hexkey_app|]. by rewrite plookup_short_app.
  - assert (i < 17)%nat by (rewrite <- Hl; by eapply lookup_lt_Some).
    destruct (decide (i = 16%nat)) as [->|].
    + destruct (Hv ci Ei Ci) as (v & -> & _). exists [x10], v. split; [apply hexkey_term|].
      by rewrite plookup_full, bidx_term, Ei.
    + destruct (IHn i ci ltac:(lia) Ei Ci) as (key & v & Hkey & E).
      exists (Zbyte (Z.of_nat i) :: key), v. split.
      * apply (hexkey_app [_]); [|done]. constructor; [apply nibble_Zbyte; lia|constructor].
      * rewrite plookup_full, bidx_Zbyte by lia. by rewrite Ei.
Qed.

(** Behind every child of a full node there is an entry. *)
Lemma full_entry cs i c :
  canon (PFull cs) -> cs !! i = Some c -> c <> PNil ->
  (i < 17)%nat /\ exists key v, hexkey (Zbyte (Z.of_nat i) :: key) /\ plookup c key = Some v /\
    plookup (PFull cs) (Zbyte (Z.of_nat i) :: key) = Some v.
Proof.
  intros H Ei Ci. inversion H as [| |? Hl Hn Hv _]; subst.
  assert (i < 17)%nat by (rewrite <- Hl; by eapply lookup_lt_Some). split; [done|].
  assert (exists key v, hexkey (Zbyte (Z.of_nat i) :: key) /\ plookup c key = Some v) as (key & v & Hk & E).
  { destruct (decide (i = 16%nat)) as [->|].
    - destruct (Hv c Ei Ci) as (v & -> & _). exists [], v. split; [apply hexkey_term|done].
    - destruct (canon_entry c) as (key & v & Hkey & E); [by apply (Hn i); [lia|..]|].
      exists key, v. split; [|done]. apply (hexkey_app [_]); [|done].
      constructor; [apply nibble_Zbyte; lia|constructor]. }
  exists key, v. split; [done|]. split; [done|].
  rewrite plookup_full, bidx_Zbyte by lia. by rewrite Ei.
Qed.

(** A full node has two entries that differ in the first nibble. *)
Lemma full_two_entries cs :
  canon (PFull cs) ->
  exists a b ka kb va vb, a <> b /\ hexkey (a :: ka) /\ hexkey (b :: kb) /\
    plookup (PFull cs) (a :: ka) = Some va /\ plookup (PFull cs) (b :: kb) = Some vb.
Proof.
  intros H. inversion H as [| |? _ _ _ (i & j & ci & cj & Hij & Ei & Ej & Ci & Cj)]; subst.
  destruct (full_entry _ _ _ H Ei Ci) as (Hi & ka & va & Ha & _ & La).
  destruct (full_entry _ _ _ H Ej Cj) as (Hj & kb & vb & Hb & _ & Lb).
  exists (Zbyte (Z.of_nat i)), (Zbyte (Z.of_nat j)), ka, kb, va, vb.
  split; [|done]. intros E. apply (f_equal bidx) in E. rewrite !bidx_Zbyte in E by lia. done.
Qed.

(** ** Uniqueness *)

Definition same_entries (t1 t2 : ptree) : Prop :=
  forall key, hexkey key -> plookup t1 key = plookup t2 key.

(** [p] is in front of every entry. *)
Definition leads (p : list byte) (t : ptree) : Prop :=
  forall key v, hexkey key -> plookup t key = Some v -> exists key', key = p ++ key'.

Lemma leads_short k c : leads k (PShort k c).
Proof. intros key v _ H. apply plookup_short_inv in H as (key' & -> & _). by exists key'. Qed.

(** The prefix of an extension is the longest one. *)
Lemma leads_ext p k cs :
  canon (PFull cs) -> nibbles k -> leads p (PShort k (PFull cs)) -> exists q, k = p ++ q.
Proof.
  intros Hc Hk Hp.
  destruct (full_two_entries _ Hc) as (a & b & ka & kb & va & vb & Hab & Ha & Hb & La & Lb).
  destruct (Hp (k ++ a :: ka) va) as (qa & Ea); [by apply hexkey_app|by rewrite plookup_short_app|].
  destruct (Hp (k ++ b :: kb) vb) as (qb & Eb); [by apply hexkey_app|by rewrite plookup_short_app|].
  clear Hp La Lb Hk Ha Hb. revert k Ea Eb. induction p as [|x p IH]; intros [|y k] Ea Eb; cbn in *.
  - by exists [].
  - by exists (y :: k).
  - congruence.
  - injection Ea as -> Ea. injection Eb as Eb. destruct (IH k Ea Eb) as (q & ->). by exists q.
Qed.

Lemma leads_full p cs : canon (PFull cs) -> leads p (PFull cs) -> p = [].
Proof.
  intros Hc Hp.
  destruct (full_two_entries _ Hc) as (a & b & ka & kb & va & vb & Hab & Ha & Hb & La & Lb).
  destruct (Hp _ va Ha La) as (qa & Ea). destruct (Hp _ vb Hb Lb) as (qb & Eb).
  destruct p; [done|]. cbn in *. congruence.
Qed.

Lemma same_sym t1 t2 : same_entries t1 t2 -> same_entries t2 t1.
Proof. intros H key Hk. by rewrite H. Qed.

Lemma same_leads p t1 t2 : same_entries t1 t2 -> leads p t1 -> leads p t2.
Proof. intros H Hp key v Hk E. rewrite <- H in E by done. by eapply Hp. Qed.

(** The number of entries tells a leaf from the other trees. *)
Lemma leaf_not_ext k v p cs :
  hexkey k -> canon (PFull cs) -> nibbles p -> ~ same_entries (PShort k (PVal v)) (PShort p (PFull cs)).
Proof.
  intros Hk Hc Hp H.
  destruct (full_two_entries _ Hc) as (a & b & ka & kb & va & vb & Hab & Ha & Hb & La & Lb).
  assert (forall x kx vx, hexkey (x :: kx) -> plookup (PFull cs) (x :: kx) = Some vx -> p ++ x :: kx = k) as Hx.
  { intros x kx vx Hkx L. assert (plookup (PShort k (PVal v)) (p ++ x :: kx) = Some vx) as E.
    { rewrite H by (by apply hexkey_app). by rewrite plookup_short_app. }
    apply plookup_short_inv in E as ([|y key'] & E & Ek); [by rewrite E, app_nil_r|done]. }
  pose proof (Hx _ _ _ Ha La) as Ea. rewrite <- (Hx _ _ _ Hb Lb) in Ea.
  apply app_inv_head in Ea. congruence.
Qed.

Lemma leaf_not_full k v cs : hexkey k -> canon (PFull cs) -> ~ same_entries (PShort k (PVal v)) (PFull cs).
Proof.
  intros Hk Hc H. apply (leaf_not_ext k v [] cs); [done|done|constructor|].
  intros key Hkey. rewrite H by done. by rewrite <- (plookup_short_app [] (PFull cs) key).
Qed.

(** A canonical tree is determined by its entries. *)
Lemma canon_unique t1 : canon t1 -> forall t2, canon t2 -> same_entries t1 t2 -> t1 = t2.
Proof.
  induction 1 as [k v Hk Hv|k cs Hne Hk Hcs IH|cs Hl Hn IHn Hv Hex]; intros t2 H2 Hs;
    inversion H2 as [k2 v2 Hk2 Hv2|k2 cs2 Hne2 Hkn2 Hcs2|cs2 Hl2 Hn2 Hvv2 Hex2]; subst.
  - destruct (leads_short k (PVal v) k2 v2) as (q & Eq); [done| |].
    { rewrite Hs by done. apply plookup_leaf. }
    subst k2. pose proof (hexkey_prefix _ _ Hk Hk2) as ->. rewrite app_nil_r in *.
    specialize (Hs k Hk). rewrite !plookup_leaf in Hs. by injection Hs as ->.
  - by apply leaf_not_ext in Hs.
  - by apply leaf_not_full in Hs.
  - by apply same_sym, leaf_not_ext in Hs.
  - destruct (leads_ext k k2 cs2 Hcs2 Hkn2) as (q & Eq).
    { eapply same_leads; [done|apply leads_short]. }
    destruct (leads_ext k2 k cs Hcs Hk) as (q' & Eq').
    { eapply same_leads; [by apply same_sym|apply leads_short]. }
    assert (q = []) as ->.
    { rewrite Eq in Eq'. apply (f_equal length) in Eq'. rewrite !length_app in Eq'.
      destruct q; [done|]. cbn in Eq'. lia. }
    rewrite app_nil_r in Eq. subst k2. f_equal. apply IH; [done|].
    intros key Hkey. specialize (Hs (k ++ key)). rewrite !plookup_short_app in Hs.
    apply Hs. by apply hexkey_app.
  - destruct Hne. apply (leads_full _ cs2); [done|]. eapply same_leads; [done|apply leads_short].
  - apply same_sym, leaf_not_full in Hs; [done|done|by constructor].
  - destruct Hne2. apply (leads_full _ cs); [by constructor|].
    eapply same_leads; [by apply same_sym|apply leads_short].
  - f_equal. apply list_eq. intros i.
    assert (canon (PFull cs)) as Hc by (by constructor).
    destruct (decide (i < 17)%nat) as [Hi|Hi]; [|rewrite !lookup_ge_None_2 by lia; done].
    destruct (lookup_lt_is_Some_2 cs i) as [c Ec]; [lia|].
    destruct (lookup_lt_is_Some_2 cs2 i) as [c2 Ec2]; [lia|]. rewrite Ec, Ec2. f_equal.
    set (b := Zbyte (Z.of_nat i)). assert (bidx b = i) as Hb by (apply bidx_Zbyte; lia).
    assert (forall key, hexkey (b :: key) -> plookup c key = plookup c2 key) as Hkey.
    { intros key Hk. specialize (Hs _ Hk). by rewrite !plookup_full, Hb, Ec, Ec2 in Hs. }
    destruct (pnil_dec c) as [->|Hc1], (pnil_dec c2) as [->|Hc2].
    + done.
    + destruct (full_entry _ _ _ H2 Ec2 Hc2) as (_ & key & v & Hk & L & _).
      rewrite <- Hkey in L by done. done.
    + destruct (full_entry _ _ _ Hc Ec Hc1) as (_ & key & v & Hk & L & _).
      rewrite Hkey in L by done. done.
    + destruct (decide (i = 16%nat)) as [->|].
      * destruct (Hv c Ec Hc1) as (v & -> & _), (Hvv2 c2 Ec2 Hc2) as (v2 & -> & _).
        specialize (Hkey [] hexkey_term). cbn in Hkey. by injection Hkey as ->.
      * apply (IHn i); [lia|done|done|apply (Hn2 i); [lia|done..]|].
        intros key Hk. apply Hkey. apply (hexkey_app [b]); [|done].
        constructor; [apply nibble_Zbyte; lia|constructor].
Qed.
