(* ===== verification/TrieUpdate.v ===== *)
(** * Reading, inserting into and deleting from the trie *)

From Stdlib Require Import ZArith Lia Bool.
From S2P Require Import Prelude GoMath TrieEncoding Trie TrieSpec.
Local Open Scope Z_scope.

(** ** Reading, and the trees nodes stand for

    [expands n t]: loading all hash nodes turns the node [n] into the tree [t].
    On such nodes the operations of [trie.go] never fail; reading returns the
    entry, inserting and deleting change that entry only and keep the tree
    canonical. *)

(** ** Children of a full node *)

Definition childOk (i : nat) (t : ptree) : Prop :=
  t <> PNil -> if (i <? 16)%nat then canon t else exists v, t = PVal v /\ v <> [].

Lemma canon_full_iff ts :
  canon (PFull ts) <->
  length ts = 17%nat /\ (forall i t, ts !! i = Some t -> childOk i t) /\
  (exists i j ti tj, i <> j /\ ts !! i = Some ti /\ ts !! j = Some tj /\ ti <> PNil /\ tj <> PNil).
Proof.
  split.
  - intros H. inversion H as [| |? Hl Hn Hv Hex]; subst. split; [done|]. split; [|done].
    intros i t E Ht. assert (i < 17)%nat by (rewrite <- Hl; by eapply lookup_lt_Some).
    destruct (Nat.ltb_spec i 16); [by eapply Hn|].
    replace i with 16%nat in E by lia. by apply Hv.
  - intros (Hl & Hc & Hex). constructor; [done| | |done].
    + intros i t Hi E Ht. specialize (Hc i t E Ht). apply Nat.ltb_lt in Hi. by rewrite Hi in Hc.
    + intros t E Ht. by apply (Hc 16%nat t E Ht).
Qed.

Lemma childOk_slot b key t : hexkey (b :: key) -> slot t key -> childOk (bidx b) t.
Proof.
  intros Hk Hs Hne. apply hexkey_cons in Hk as [[-> ->]|[Hb Hk]].
  - rewrite bidx_term. cbn [Nat.ltb Nat.leb]. by destruct Hs.
  - apply bidx_nibble in Hb. apply Nat.ltb_lt in Hb as ->.
    destruct key; [by apply hexkey_nonempty in Hk|]. by destruct Hs as [_ [|]].
Qed.

Lemma bidx_hexkey b key : hexkey (b :: key) -> (bidx b < 17)%nat.
Proof.
  intros Hk. apply hexkey_cons in Hk as [[-> _]|[Hb _]]; [rewrite bidx_term; lia|].
  apply bidx_nibble in Hb. lia.
Qed.

(** Replacing a child by one that is not empty. *)
Lemma canon_full_insert ts b key t :
  canon (PFull ts) -> hexkey (b :: key) -> slot t key -> t <> PNil ->
  canon (PFull (<[bidx b := t]> ts)).
Proof.
  rewrite !canon_full_iff. intros (Hl & Hc & (i & j & ti & tj & Hij & Ei & Ej & Hi & Hj)) Hk Hs Ht.
  pose proof (bidx_hexkey _ _ Hk) as Hb.
  split; [by rewrite length_insert|]. split.
  - intros k u E. destruct (decide (k = bidx b)) as [->|].
    + rewrite list_lookup_insert_eq in E by lia. injection E as <-. by apply (childOk_slot b key).
    + rewrite list_lookup_insert_ne in E by done. by apply Hc.
  - assert (forall k tk, ts !! k = Some tk -> tk <> PNil ->
      exists tk', <[bidx b := t]> ts !! k = Some tk' /\ tk' <> PNil) as Hkeep.
    { intros k tk E Hne. destruct (decide (k = bidx b)) as [->|].
      - exists t. by rewrite list_lookup_insert_eq by lia.
      - exists tk. by rewrite list_lookup_insert_ne. }
    destruct (Hkeep i ti Ei Hi) as (ti' & ? & ?), (Hkeep j tj Ej Hj) as (tj' & ? & ?).
    by exists i, j, ti', tj'.
Qed.

(** A new full node with two children. *)
Definition branch2 (i j : nat) (ti tj : ptree) : list ptree :=
  <[j := tj]> (<[i := ti]> (replicate 17 PNil)).

Lemma branch2_lookup i j ti tj k :
  (i < 17)%nat -> (j < 17)%nat -> (k < 17)%nat ->
  branch2 i j ti tj !! k =
    Some (if decide (k = j) then tj else if decide (k = i) then ti else PNil).
Proof.
  intros Hi Hj Hk. unfold branch2. case_decide as E1; [subst; by rewrite list_lookup_insert_eq
    by (rewrite length_insert, length_replicate; lia)|].
  rewrite list_lookup_insert_ne by done. case_decide as E2; [subst; by rewrite list_lookup_insert_eq
    by (rewrite length_replicate; lia)|].
  rewrite list_lookup_insert_ne by done. by rewrite lookup_replicate_2.
Qed.

Lemma canon_branch2 i j ti tj :
  (i < 17)%nat -> (j < 17)%nat -> i <> j -> ti <> PNil -> tj <> PNil ->
  childOk i ti -> childOk j tj -> canon (PFull (branch2 i j ti tj)).
Proof.
  intros Hi Hj Hij Ti Tj Ci Cj. apply canon_full_iff.
  assert (length (branch2 i j ti tj) = 17%nat) as Hl
    by (unfold branch2; by rewrite !length_insert, length_replicate).
  split; [done|]. split.
  - intros k t E. assert (k < 17)%nat by (rewrite <- Hl; by eapply lookup_lt_Some).
    rewrite branch2_lookup in E by done. injection E as <-.
    repeat case_decide; subst; [done..|by intros []].
  - exists i, j, ti, tj. rewrite !branch2_lookup by done.
    by rewrite (decide_False (P := i = j)), !(decide_True (P := _ = _)).
Qed.

(** ** Short nodes *)

(** A prefix in front of a tree; no node for the empty prefix. *)
Definition pshort (k : list byte) (c : ptree) : ptree :=
  match k with [] => c | _ => PShort k c end.

Lemma plookup_pshort k c key : plookup (pshort k c) key = plookup (PShort k c) key.
Proof. destruct k as [|b k]; [|done]. symmetry. apply (plookup_short_app [] c key). Qed.

(** Going down a short node. *)
Lemma slot_short k c key : slot (PShort k c) (k ++ key) -> slot c key.
Proof.
  destruct (k ++ key) as [|b r] eqn:E; cbn [slot].
  { intros [|(v & ? & _)]; done. }
  intros [Hk [|Hc]]; [done|]. rewrite <- E in Hk. inversion Hc as [? v Hk' Hv|? cs Hne Hk' Hcs|]; subst.
  - pose proof (hexkey_prefix _ _ Hk' Hk) as ->. right. by exists v.
  - destruct key as [|b' key].
    + rewrite app_nil_r in Hk. by destruct (hexkey_nibbles k).
    + destruct (hexkey_app_inv k (b' :: key)) as [_ ?]; [done..|]. split; [done|]. by right.
Qed.

Lemma canon_short_nonempty k c : canon (PShort k c) -> (1 <= length k)%nat.
Proof.
  intros H. destruct k; [|cbn; lia]. inversion H; subst; [|done]. by destruct hexkey_nonempty.
Qed.

Lemma slot_short_nonempty k c key : slot (PShort k c) key -> (1 <= length k)%nat.
Proof.
  destruct key; cbn [slot]; [intros [|(v & ? & _)]; done|]. intros [_ [|H]]; [done|].
  by apply canon_short_nonempty in H.
Qed.

Lemma slot_full ts key :
  slot (PFull ts) key -> exists b r, key = b :: r /\ hexkey (b :: r) /\ canon (PFull ts).
Proof.
  destruct key as [|b r]; cbn [slot]; [intros [|(v & ? & _)]; done|]. intros [? [|]]; [done|].
  by exists b, r.
Qed.

Lemma slot_val v key : slot (PVal v) key -> key = [] /\ v <> [].
Proof.
  destruct key as [|b r]; cbn [slot]; [intros [|(w & [= ->] & ?)]; done|].
  intros [_ [|H]]; [done|]. by inversion H.
Qed.

(** ** Expansion *)

(** What is known of the flags of a node that expands to a tree, and of a hash
    node.  The first argument tells the root from the nodes below it. *)
Class FlagInv := {
  fl_ok : bool -> ptree -> nodeFlag -> Prop;
  hn_ok : bool -> list byte -> ptree -> Prop;
  fl_new b t gen : fl_ok b t (newFlag gen);
  fl_gen b t fl gen : fl_ok b t fl -> fl_ok b t (mkFlag (nf_hash fl) gen (nf_dirty fl))
}.

(** Nothing is known. *)
#[export, refine] Instance noInv : FlagInv | 100 :=
  {| fl_ok := fun _ _ _ => True; hn_ok := fun _ _ _ => True |}.
Proof. all: done. Defined.

Section ops.
Context {R : NodeReader} {F : FlagInv}.

Inductive expands : bool -> node -> ptree -> Prop :=
| ex_nil b : expands b NilNode PNil
| ex_val b v : expands b (valueNode v) (PVal v)
| ex_short b k c t fl :
    expands false c t -> fl_ok b (PShort k t) fl -> expands b (shortNode k c fl) (PShort k t)
| ex_full b cs ts fl :
    length cs = length ts ->
    (forall i c t, cs !! i = Some c -> ts !! i = Some t -> expands false c t) ->
    fl_ok b (PFull ts) fl ->
    expands b (fullNode cs fl) (PFull ts)
| ex_hash b h f t :
    (forall g, dbNode (BytesToHash h) g = Ret (f g)) ->
    (forall g, isHash (f g) = false /\ isNil (f g) = false) ->
    (forall g, expands b (f g) t) ->
    hn_ok b h t ->
    expands b (hashNode h) t.

Lemma expands_nil b n t : expands b n t -> isNil n = true <-> t = PNil.
Proof.
  induction 1 as [| | | |b h f t Hr Hn He IH _]; try done. split; [done|].
  intros ->. specialize (IH 0). destruct (Hn 0) as [_ H]. rewrite H in IH. by apply IH.
Qed.

(** Loading a node. *)
Lemma resolveHash_ok gen b h prefix t :
  expands b (hashNode h) t ->
  exists n, resolveHash gen h prefix = tok n /\ isHash n = false /\ expands b n t.
Proof.
  intros H. inversion H as [| | | |? ? f ? Hr Hn He _]; subst. exists (f gen).
  unfold resolveHash. rewrite Hr. destruct (Hn gen) as [H1 H2].
  split; [by destruct (f gen)|]. split; [done|apply He].
Qed.

Lemma expands_child bb cs ts fl b t :
  expands bb (fullNode cs fl) (PFull ts) -> ts !! bidx b = Some t ->
  exists c, child b cs = Some c /\ expands false c t.
Proof.
  intros H Et. inversion H as [| | |? ? ? ? Hl He _|]; subst.
  destruct (lookup_lt_is_Some_2 cs (bidx b)) as [c Ec].
  { rewrite Hl. by eapply lookup_lt_Some. }
  exists c. split; [done|]. by eapply He.
Qed.

Lemma expands_setChild bb bb' cs ts fl fl' b c t :
  expands bb (fullNode cs fl) (PFull ts) -> (bidx b < length ts)%nat -> expands false c t ->
  fl_ok bb' (PFull (<[bidx b := t]> ts)) fl' ->
  expands bb' (fullNode (setChild b c cs) fl') (PFull (<[bidx b := t]> ts)).
Proof.
  intros H Hb Hc Hfl. inversion H as [| | |? ? ? ? Hl He _|]; subst.
  constructor; [unfold setChild; by rewrite !length_insert| |done].
  intros i c' t' E1 E2. unfold setChild in E1. fold (bidx b) in E1.
  destruct (decide (i = bidx b)) as [->|].
  - rewrite list_lookup_insert_eq in E1 by lia. rewrite list_lookup_insert_eq in E2 by lia. by simplify_eq.
  - rewrite list_lookup_insert_ne in E1 by done. rewrite list_lookup_insert_ne in E2 by done. by eapply He.
Qed.

(** Putting back what expands to the same. *)
Lemma expands_setChild_same bb cs ts fl fl' b c t :
  expands bb (fullNode cs fl) (PFull ts) -> ts !! bidx b = Some t -> expands false c t ->
  fl_ok bb (PFull ts) fl' ->
  expands bb (fullNode (setChild b c cs) fl') (PFull ts).
Proof.
  intros H Et Hc Hfl. rewrite <- (list_insert_id ts (bidx b) t) by done.
  eapply expands_setChild; [done| |done|by rewrite list_insert_id]. by eapply lookup_lt_Some.
Qed.

Definition hashCost (n : node) : nat := if isHash n then 1 else 0.

(** ** Reading *)

Lemma tryGet_ok fuel gen : forall b n t key pos,
  expands b n t -> (pos <= length key)%nat -> slot t (drop pos key) ->
  (2 * (length key - pos) + 1 + hashCost n <= fuel)%nat ->
  exists n' d, tryGet fuel gen n key pos = tok (plookup t (drop pos key), n', d) /\ expands b n' t.
Proof.
  induction fuel as [|fuel IH]; intros b n t key pos He Hpos Hs Hf; [lia|].
  assert (length (drop pos key) = length key - pos)%nat as Hlen by apply length_drop.
  destruct n as [|cs fl|nKey nVal fl|h|v]; cbn [tryGet].
  - inversion He; subst. exists NilNode, false. done.
  - inversion He as [| | |? ? ts ? Hl Hc Hfl|]; subst.
    destruct (slot_full _ _ Hs) as (x & r & E & Hk & Hcan). rewrite E in *. cbn [length] in Hlen.
    assert (key !! pos = Some x) as -> by (by rewrite <- (Nat.add_0_r pos), <- lookup_drop, E).
    destruct (full_child _ _ _ Hcan Hk) as (t & Et).
    destruct (expands_child _ _ _ _ _ _ He Et) as (c & Ec & Hct). cbn [tget]. rewrite Ec. cbn [tget].
    assert (drop (pos + 1) key = r) as Hr by (by rewrite <- drop_drop, E).
    destruct (IH false c t key (pos + 1)%nat) as (n' & d & En & Hn'); [done|lia| | |].
    { rewrite Hr. by eapply canon_child. }
    { unfold hashCost. destruct (isHash c); lia. }
    rewrite En, plookup_full, Et, Hr. cbn [tbind tok].
    destruct d; [|by eexists _, _]. eexists _, _. split; [done|]. eapply expands_setChild_same; [done..|by apply fl_gen].
  - inversion He as [| |? ? ? t' ? Hc Hfl| |]; subst. pose proof (slot_short_nonempty _ _ _ Hs) as Hne.
    rewrite <- Hlen. cbn [plookup].
    destruct (bool_decide (take (length nKey) (drop pos key) = nKey)) eqn:Eb.
    + apply bool_decide_eq_true in Eb.
      assert (length nKey <= length (drop pos key))%nat as Hle
        by (rewrite <- Eb at 1; rewrite length_take; lia).
      replace (length (drop pos key) <? length nKey)%nat with false by (symmetry; apply Nat.ltb_ge; lia).
      rewrite bool_decide_eq_true_2 by (by rewrite Eb). cbn [orb negb].
      rewrite drop_drop. set (pos' := (pos + length nKey)%nat).
      destruct (IH false nVal t' key pos') as (n' & d & En & Hn'); [done|lia| | |].
      { apply (slot_short nKey). unfold pos'. rewrite <- drop_drop. rewrite <- Eb at 2.
        by rewrite take_drop. }
      { unfold hashCost. destruct (isHash nVal); lia. }
      rewrite En. cbn [tbind tok]. destruct d; [|by eexists _, _].
      eexists _, _. split; [done|]. constructor; [done|by apply fl_gen].
    + apply bool_decide_eq_false in Eb. rewrite (bool_decide_eq_false_2 (nKey = _)) by (by intros E; apply Eb).
      cbn [negb]. rewrite orb_true_r. by eexists _, _.
  - destruct (resolveHash_ok gen b h (take pos key) t He) as (c & -> & Hh & Hc). cbn [tbind tok].
    destruct (IH b c t key pos) as (n' & d & En & Hn'); [done|done|done| |].
    { unfold hashCost in *. rewrite Hh. cbn [isHash] in Hf. lia. }
    rewrite En. cbn [tbind tok]. by eexists _, _.
  - inversion He; subst. apply slot_val in Hs as [-> _]. by eexists _, _.
Qed.
End ops.

(** ** Changing one entry *)

(** [t'] has [o] under [key] and otherwise the entries of [t]. *)
Definition updated (t t' : ptree) (key : list byte) (o : option (list byte)) : Prop :=
  forall k, k = [] \/ hexkey k -> plookup t' k = if decide (k = key) then o else plookup t k.

Lemma updated_ext t1 t1' t2 t2' key o :
  updated t1 t1' key o -> (forall k, plookup t1 k = plookup t2 k) ->
  (forall k, plookup t1' k = plookup t2' k) -> updated t2 t2' key o.
Proof. intros H H1 H2 k Hk. rewrite <- H2, <- H1. by apply H. Qed.

Lemma updated_short p c c' key o :
  updated c c' key o -> updated (PShort p c) (PShort p c') (p ++ key) o.
Proof.
  intros H k Hk. destruct (decide (take (length p) k = p)) as [E|E].
  - assert (exists q, k = p ++ q) as [q ->].
    { exists (drop (length p) k). rewrite <- E at 1. by rewrite take_drop. }
    rewrite !plookup_short_app, H.
    + destruct (decide (q = key)) as [->|D]; [by rewrite decide_True|].
      rewrite decide_False; [done|]. intros E'. by apply app_inv_head in E'.
    + destruct Hk as [Hk|Hk]; [left; by apply app_nil in Hk as [_ ->]|].
      destruct q as [|b q]; [by left|right]. by apply hexkey_app_inv in Hk as [_ ?].
  - cbn [plookup]. rewrite !bool_decide_eq_false_2 by done. case_decide as D; [|done].
    subst. by rewrite take_app_length in E.
Qed.

Lemma updated_full ts b t t' key o :
  ts !! bidx b = Some t -> updated t t' key o -> hexkey (b :: key) ->
  updated (PFull ts) (PFull (<[bidx b := t']> ts)) (b :: key) o.
Proof.
  intros Et H Hbk k Hk. destruct k as [|a k]; [by rewrite decide_False|].
  destruct Hk as [|Hk]; [done|]. rewrite !plookup_full.
  destruct (decide (a = b)) as [->|Hab].
  - rewrite list_lookup_insert_eq by (by eapply lookup_lt_Some). rewrite Et, H.
    + do 2 case_decide; congruence.
    + apply hexkey_cons in Hk as [[_ ->]|[_ ?]]; [by left|by right].
  - rewrite list_lookup_insert_ne by (intros E; apply Hab; by apply bidx_inj).
    rewrite decide_False by congruence. done.
Qed.

(** A new leaf. *)
Lemma updated_leaf key v : hexkey key -> updated PNil (PShort key (PVal v)) key (Some v).
Proof.
  intros Hkey k Hk. case_decide as D; [subst; apply plookup_leaf|].
  apply plookup_short_None. intros k' ->. destruct Hk as [Hk|Hk].
  - by apply app_nil in Hk as [-> ->].
  - pose proof (hexkey_prefix _ _ Hkey Hk) as ->. by rewrite app_nil_r in D.
Qed.

Lemma updated_value t v : slot t [] -> updated t (PVal v) [] (Some v).
Proof.
  intros Hs k [->|Hk]; [done|]. destruct k as [|b k]; [by apply hexkey_nonempty in Hk|].
  by destruct Hs as [->|(w & -> & _)].
Qed.

(** ** Splitting a short node *)

(** Where two keys part, none of the two ends. *)
Lemma split_key nk c p x nk' key' :
  nk = p ++ x :: nk' -> slot (PShort nk c) (p ++ key') ->
  (forall y, head key' = Some y -> x <> y) ->
  nibbles p /\ exists y r, key' = y :: r /\ hexkey (y :: r) /\ y <> x.
Proof.
  intros -> Hs Hd. destruct (p ++ key') as [|b r] eqn:E.
  { cbn [slot] in Hs. destruct Hs as [|(v & ? & _)]; done. }
  destruct Hs as [Hk [|Hc]]; [done|]. rewrite <- E in Hk.
  destruct key' as [|y r'].
  - exfalso. rewrite app_nil_r in Hk. inversion Hc as [? v Hk' Hv|? cs Hne Hk' Hcs|]; subst.
    + by pose proof (hexkey_prefix _ _ Hk Hk').
    + apply Forall_app in Hk' as [Hp _]. by apply (hexkey_nibbles p).
  - destruct (hexkey_app_inv p (y :: r')) as [Hp Hy]; [done..|]. split; [done|].
    exists y, r'. split; [done|]. split; [done|]. intros ->. by apply (Hd x).
Qed.

(** The part of the short node behind the branch. *)
Lemma split_child p x nk' c :
  canon (PShort (p ++ x :: nk') c) ->
  pshort nk' c <> PNil /\ childOk (bidx x) (pshort nk' c) /\ (bidx x < 17)%nat.
Proof.
  intros H. inversion H as [? v Hk Hv|? cs Hne Hk Hcs|]; subst.
  - apply hexkey_app_inv in Hk as [_ Hk]; [|done]. pose proof (bidx_hexkey _ _ Hk) as Hb.
    split; [by destruct nk'|]. split; [|done]. apply (childOk_slot x nk'); [done|].
    destruct nk' as [|b nk']; [right; by exists v|]. apply hexkey_cons in Hk as [[_ ?]|[_ Hk]]; [done|].
    split; [done|]. right. by constructor.
  - apply Forall_app in Hk as [_ Hk]. apply Forall_cons in Hk as [Hx Hk]. apply bidx_nibble in Hx.
    split; [by destruct nk'|]. split; [|lia]. intros _. apply Nat.ltb_lt in Hx as ->.
    destruct nk' as [|b nk']; [done|]. by constructor.
Qed.

(** Two short nodes in a row are one. *)
Lemma plookup_short_short p q c k : plookup (PShort p (PShort q c)) k = plookup (PShort (p ++ q) c) k.
Proof.
  destruct (decide (take (length p) k = p)) as [E|E].
  - assert (exists r, k = p ++ r) as [r ->].
    { exists (drop (length p) k). rewrite <- E at 1. by rewrite take_drop. }
    rewrite plookup_short_app. cbn [plookup]. rewrite !length_app.
    rewrite take_app_add, drop_app_add.
    destruct (decide (take (length q) r = q)) as [D|D].
    + rewrite !bool_decide_eq_true_2 by congruence. done.
    + rewrite bool_decide_eq_false_2 by done. rewrite bool_decide_eq_false_2; [done|].
      intros D'. by apply app_inv_head in D'.
  - cbn [plookup]. rewrite bool_decide_eq_false_2 by done. rewrite bool_decide_eq_false_2; [done|].
    intros D. apply E. rewrite length_app in D. apply (f_equal (take (length p))) in D.
    rewrite take_take, take_app_length in D. by rewrite Nat.min_l in D by lia.
Qed.

Lemma updated_split p x y nk' r c v :
  x <> y -> hexkey (y :: r) -> (bidx x < 17)%nat ->
  updated (PShort (p ++ x :: nk') c)
    (pshort p (PFull (branch2 (bidx x) (bidx y) (pshort nk' c) (pshort r (PVal v)))))
    (p ++ y :: r) (Some v).
Proof.
  intros Hxy Hy Hx. set (B := branch2 _ _ _ _).
  assert (updated (PShort (x :: nk') c) (PFull B) (y :: r) (Some v)) as H.
  { pose proof (bidx_hexkey _ _ Hy) as Hyb. intros [|b k] Hk; [by rewrite decide_False|].
    destruct Hk as [|Hk]; [done|]. pose proof (bidx_hexkey _ _ Hk) as Hb.
    rewrite plookup_full. unfold B. rewrite branch2_lookup by done.
    destruct (decide (b = y)) as [->|Hby].
    - rewrite (decide_True (P := _ = _)) by done. rewrite plookup_pshort.
      case_decide as D; [injection D as ->; apply plookup_leaf|].
      rewrite (plookup_short_None (x :: nk')) by (intros k'; cbn; congruence).
      apply plookup_short_None. intros k' ->. destruct r as [|z r].
      + cbn [app] in *. apply hexkey_cons in Hy as [[-> _]|[_ Hy]]; [|by apply hexkey_nonempty in Hy].
        apply hexkey_cons in Hk as [[_ ->]|[Hk _]]; [done|]. unfold nibble in Hk. by rewrite byteZ_x10 in Hk.
      + pose proof (hexkey_prefix (y :: z :: r) k' Hy Hk) as ->. by rewrite app_nil_r in D.
    - rewrite (decide_False (P := bidx b = bidx y)) by (intros E; by apply bidx_inj in E).
      rewrite (decide_False (P := b :: k = y :: r)) by congruence.
      destruct (decide (b = x)) as [->|Hbx].
      + rewrite (decide_True (P := _ = _)) by done. rewrite plookup_pshort.
        change (x :: nk') with ([x] ++ nk'). cbn [plookup length app take drop].
        destruct (decide (take (length nk') k = nk')) as [D|D].
        * rewrite !bool_decide_eq_true_2 by congruence. done.
        * rewrite !bool_decide_eq_false_2 by congruence. done.
      + rewrite (decide_False (P := bidx b = bidx x)) by (intros E; by apply bidx_inj in E).
        rewrite plookup_short_None; [done|]. intros k'. cbn. congruence. }
  apply (updated_short p) in H. eapply updated_ext; [exact H| |intros k; by rewrite plookup_pshort].
  intros k. by rewrite plookup_short_short.
Qed.

(** ** Inserting *)

Definition is_full (t : ptree) : Prop := match t with PFull _ => True | _ => False end.

Lemma slot_short_up k c c' key :
  slot (PShort k c) (k ++ key) -> slot c' key -> c' <> PNil -> (is_full c -> is_full c') ->
  slot (PShort k c') (k ++ key).
Proof.
  destruct (k ++ key) as [|b r] eqn:E; cbn [slot].
  { intros [|(v & ? & _)]; done. }
  intros [Hk [|Hc]] Hs Hne Hf; [done|]. split; [done|]. right. rewrite <- E in Hk.
  inversion Hc as [? v Hk' Hv|? cs Hnek Hk' Hcs|]; subst.
  - pose proof (hexkey_prefix _ _ Hk' Hk) as ->. destruct Hs as [|(w & -> & Hw)]; [done|]. by constructor.
  - destruct c' as [| | |cs']; try (by destruct Hf). destruct key as [|b' key].
    + by destruct Hs as [|(w & ? & _)].
    + destruct Hs as [_ [|Hc']]; [done|]. by constructor.
Qed.

Lemma slot_pshort p cs y r :
  nibbles p -> hexkey (y :: r) -> canon (PFull cs) -> slot (pshort p (PFull cs)) (p ++ y :: r).
Proof.
  intros Hp Hy Hc. pose proof (hexkey_app p _ Hp Hy) as Hk.
  assert (canon0 (pshort p (PFull cs))) as Hcan.
  { right. destruct p as [|b p]; [done|]. by constructor. }
  destruct p; by split.
Qed.

Lemma pval_pshort r v : pshort r (PVal v) <> PNil.
Proof. by destruct r. Qed.

Lemma childOk_leaf y r v : hexkey (y :: r) -> v <> [] -> childOk (bidx y) (pshort r (PVal v)).
Proof.
  intros Hy Hv. apply (childOk_slot y r); [done|]. destruct r as [|z r]; [right; by exists v|].
  apply hexkey_cons in Hy as [[_ ?]|[_ Hy]]; [done|]. split; [done|]. right. by constructor.
Qed.

Lemma NoDup_prefix_full p (a : list byte) : length p = length (p ++ a) -> a = [].
Proof. rewrite length_app. destruct a; [done|cbn; lia]. Qed.

Section ops.
Context {R : NodeReader} {F : FlagInv}.
Variable gen : Z.

Lemma insert_nil fuel prefix key value :
  (1 <= fuel)%nat ->
  insert fuel gen NilNode prefix key value =
    tok (true, match key with [] => value | _ => shortNode key value (newFlag gen) end).
Proof. destruct fuel; [lia|]. by destruct key. Qed.

Lemma expands_pshort key value t :
  expands false value t ->
  expands false (match key with [] => value | _ => shortNode key value (newFlag gen) end) (pshort key t).
Proof. destruct key; [done|]. constructor; [done|apply fl_new]. Qed.

Lemma expands_nils : expands false (fullNode (replicate 17 NilNode) (newFlag gen)) (PFull (replicate 17 PNil)).
Proof.
  constructor; [done| |apply fl_new]. intros i c t E1 E2. apply lookup_replicate in E1 as [-> _].
  apply lookup_replicate in E2 as [-> _]. constructor.
Qed.

Lemma expands_branch2 b b1 b2 c1 c2 t1 t2 :
  expands false c1 t1 -> expands false c2 t2 -> (bidx b1 < 17)%nat -> (bidx b2 < 17)%nat ->
  expands b (fullNode (setChild b2 c2 (setChild b1 c1 (replicate 17 NilNode))) (newFlag gen))
    (PFull (branch2 (bidx b1) (bidx b2) t1 t2)).
Proof.
  intros H1 H2 Hb1 Hb2. eapply (expands_setChild false _ _ _ (newFlag gen)); [|rewrite length_insert; exact Hb2|done|apply fl_new].
  eapply (expands_setChild false); [apply expands_nils|exact Hb1|done|apply fl_new].
Qed.

(** What [insert] returns. *)
Definition insOk (b : bool) (t : ptree) (key v : list byte) (d : bool) (n' : node) : Prop :=
  if d then exists t', expands b n' t' /\ slot t' key /\ t' <> PNil /\ updated t t' key (Some v) /\
                       (is_full t -> is_full t')
  else plookup t key = Some v /\ expands b n' t.

(** Splitting a short node. *)
Lemma insert_split b fuel nKey nVal c fl prefix key v :
  (1 <= fuel)%nat -> expands false nVal c -> slot (PShort nKey c) key -> v <> [] -> key <> [] ->
  prefixLen key nKey <> length nKey ->
  exists n', insert (S fuel) gen (shortNode nKey nVal fl) prefix key (valueNode v) = tok (true, n') /\
    insOk b (PShort nKey c) key v true n'.
Proof.
  intros Hfuel He Hs Hv Hne Hm.
  destruct (prefixLen_split key nKey) as (p & key' & nk' & Ek & En & Hp & Hd).
  destruct nk' as [|x nk']; [destruct Hm; by rewrite <- Hp, En, app_nil_r|].
  destruct (split_key nKey c p x nk' key' En) as (Hpn & y & r & -> & Hy & Hyx).
  { by rewrite <- Ek. }
  { intros y Hy E. by apply (Hd y x). }
  assert (canon (PShort nKey c)) as Hc by (by destruct key; [|destruct Hs as [_ [|]]]).
  rewrite En in Hc. destruct (split_child _ _ _ _ Hc) as (Cn & Cok & Cb).
  pose proof (bidx_hexkey _ _ Hy) as Hb.
  cbn [insert]. destruct key as [|k0 krest] eqn:Ekey; [done|]. rewrite <- Ekey in *. clear Ekey k0 krest.
  replace (prefixLen key nKey =? length nKey)%nat with false by (symmetry; by apply Nat.eqb_neq).
  rewrite <- Hp.
  assert (forall (l l' : list byte) z, l = p ++ z :: l' ->
    l !! length p = Some z /\ drop (length p + 1) l = l') as Hat.
  { intros l l' z ->. split; [by apply list_lookup_middle|]. by rewrite <- drop_drop, drop_app_length. }
  destruct (Hat _ _ _ En) as [-> ->], (Hat _ _ _ Ek) as [-> ->]. cbn [tget].
  rewrite !insert_nil by done. cbn [tbind tok].
  assert (forall z cs, length cs = 17%nat -> (bidx z < 17)%nat -> exists c, child z cs = Some c) as Hch.
  { intros z cs Hl Hbb. apply (lookup_lt_is_Some_2 cs (bidx z)). lia. }
  destruct (Hch x (replicate 17 NilNode)) as (? & ->); [done|done|]. cbn [tget].
  match goal with |- context [child y ?cs] => destruct (Hch y cs) as (? & ->); [|done|] end.
  { unfold setChild. by rewrite length_insert. }
  cbn [tget]. eexists. split; [|exists (pshort p (PFull (branch2 (bidx x) (bidx y) (pshort nk' c) (pshort r (PVal v)))))].
  { instantiate (1 := if (length p =? 0)%nat then _ else _). by destruct (length p =? 0)%nat. }
  split; [|split; [|split; [by destruct p|split; [|done]]]].
  - assert (take (length p) key = p) as -> by (by rewrite Ek, take_app_length).
    pose proof (fun bb => expands_branch2 bb x y _ _ _ _ (expands_pshort nk' nVal c He)
      (expands_pshort r (valueNode v) (PVal v) (ex_val _ v)) Cb Hb) as Hbr.
    destruct p as [|z p]; [apply Hbr|]. cbn [length Nat.eqb pshort]. constructor; [apply Hbr|apply fl_new].
  - rewrite Ek. apply slot_pshort; [done|done|]. apply canon_branch2; try done.
    + intros E. apply bidx_inj in E. congruence.
    + apply pval_pshort.
    + by apply childOk_leaf.
  - rewrite Ek, En. apply updated_split; [congruence|done|done].
Qed.

Lemma insert_ok v : v <> [] -> forall fuel b n t prefix key,
  expands b n t -> slot t key -> (2 * length key + 1 + hashCost n <= fuel)%nat ->
  exists d n', insert fuel gen n prefix key (valueNode v) = tok (d, n') /\ insOk b t key v d n'.
Proof.
  intros Hv. induction fuel as [|fuel IH]; intros b n t prefix key He Hs Hf; [lia|].
  destruct key as [|k0 krest].
  { assert (insOk b t [] v true (valueNode v)) as Hok.
    { exists (PVal v). split; [constructor|]. split; [right; by exists v|]. split; [done|].
      split; [by apply updated_value|]. by destruct Hs as [->|(w & -> & _)]. }
    cbn [insert]. destruct n as [| | | |w]; try (by eexists _, _).
    cbn [isDirty tbind tok]. inversion He; subst. case_bool_decide as E; cbn [negb]; eexists _, _; (split; [done|]).
    - subst w. split; [done|constructor].
    - done. }
  set (key := k0 :: krest) in *. assert (key <> []) as Hne by done.
  destruct n as [|cs fl|nKey nVal fl|h|w].
  - inversion He; subst. cbn [insert key]. eexists _, _. split; [done|].
    destruct Hs as [Hk _]. exists (PShort key (PVal v)). split; [constructor; [constructor|apply fl_new]|].
    split; [split; [done|right; by constructor]|]. split; [done|]. split; [by apply updated_leaf|done].
  - inversion He as [| | |? ? ts ? Hl Hc Hfl|]; subst.
    destruct (slot_full _ _ Hs) as (x & r & [= <- <-] & Hk & Hcan).
    destruct (full_child _ _ _ Hcan Hk) as (t & Et).
    destruct (expands_child _ _ _ _ _ _ He Et) as (c & Ec & Hct).
    cbn [insert key]. rewrite Ec. cbn [tget].
    destruct (IH false c t (prefix ++ [k0]) krest Hct) as (d & n' & -> & Hok).
    { by eapply canon_child. }
    { cbn [key length] in Hf. unfold hashCost. destruct (isHash c); lia. }
    cbn [tbind tok]. destruct d; eexists _, _; (split; [done|]).
    + destruct Hok as (t' & Ht' & Hs' & Hne' & Hu & _). exists (PFull (<[bidx k0 := t']> ts)).
      split; [eapply expands_setChild; [done| |done|apply fl_new]; by eapply lookup_lt_Some|].
      split; [split; [done|right; by eapply canon_full_insert]|]. split; [done|].
      split; [by eapply updated_full|done].
    + destruct Hok as [Hl' _]. split; [|done]. unfold key. by rewrite plookup_full, Et.
  - inversion He as [| |? ? ? c ? Hc Hfl| |]; subst. pose proof (slot_short_nonempty _ _ _ Hs) as Hnk.
    destruct (decide (prefixLen key nKey = length nKey)) as [Em|Em].
    + destruct (prefixLen_split key nKey) as (p & key' & nk' & Ek & En & Hp & _).
      assert (nk' = []) as -> by (apply (NoDup_prefix_full p); rewrite <- En; congruence).
      rewrite app_nil_r in En. subst p.
      cbn [insert key]. fold key. rewrite Em, Nat.eqb_refl. rewrite Ek in Hs |- *.
      rewrite take_app_length, drop_app_length.
      destruct (IH false nVal c (prefix ++ nKey) key' Hc) as (d & n' & -> & Hok).
      { by apply (slot_short nKey). }
      { rewrite Ek, length_app in Hf. unfold hashCost. destruct (isHash nVal); lia. }
      cbn [tbind tok]. destruct d; eexists _, _; (split; [done|]).
      * destruct Hok as (t' & Ht' & Hs' & Hne' & Hu & Hfull). exists (PShort nKey t').
        split; [constructor; [done|apply fl_new]|]. split; [by eapply slot_short_up|]. split; [done|].
        split; [by apply updated_short|done].
      * destruct Hok as [Hl' _]. split; [by rewrite plookup_short_app|done].
    + destruct (insert_split b fuel nKey nVal c fl prefix key v) as (n' & E & Hok); try done.
      { cbn [key length] in Hf. lia. }
      by exists true, n'.
  - destruct (resolveHash_ok gen b h prefix t He) as (rn & Er & Hh & Hrn).
    cbn [insert key]. fold key. rewrite Er. cbn [tbind tok].
    destruct (IH b rn t prefix key Hrn Hs) as (d & n' & -> & Hok).
    { unfold hashCost in *. rewrite Hh. cbn [isHash] in Hf. lia. }
    cbn [tbind tok]. destruct d; eexists _, _; (split; [done|]); [done|].
    by destruct Hok.
  - inversion He; subst. by apply slot_val in Hs as [? _].
Qed.
End ops.

(** ** Deleting *)

Lemma onlyChildFrom_spec cs : forall i0,
  match onlyChildFrom i0 cs with
  | Some i => exists j c, i = (i0 + j)%nat /\ cs !! j = Some c /\ isNil c = false /\
      forall j' c', cs !! j' = Some c' -> j' <> j -> isNil c' = true
  | None => (forall j c, cs !! j = Some c -> isNil c = true) \/
      exists i j ci cj, i <> j /\ cs !! i = Some ci /\ cs !! j = Some cj /\
        isNil ci = false /\ isNil cj = false
  end.
Proof.
  induction cs as [|c cs IH]; intros i0; cbn [onlyChildFrom]; [by left|].
  destruct (isNil c) eqn:Ec.
  - specialize (IH (S i0)). destruct (onlyChildFrom (S i0) cs) as [i|].
    + destruct IH as (j & c' & -> & Hj & Hc' & Hn). exists (S j), c'. split; [lia|].
      split; [done|]. split; [done|]. intros [|j'] c'' E Hne; [by injection E as <-|].
      by apply (Hn j' c''); [|lia].
    + destruct IH as [Hall|(i & j & ci & cj & Hij & ? & ? & ? & ?)].
      * left. intros [|j] c' E; [by injection E as <-|]. by apply (Hall j).
      * right. exists (S i), (S j), ci, cj. split; [lia|done].
  - destruct (forallb isNil cs) eqn:Ef.
    + exists 0%nat, c. split; [lia|]. split; [done|]. split; [done|].
      intros [|j'] c' E Hne; [done|]. rewrite forallb_forall in Ef. apply Ef.
      apply list_elem_of_In. by eapply list_elem_of_lookup_2.
    + right. assert (exists j cj, cs !! j = Some cj /\ isNil cj = false) as (j & cj & Ej & Hj).
      { clear - Ef. induction cs as [|a cs IH]; [done|]. cbn in Ef. destruct (isNil a) eqn:Ea.
        - destruct IH as (j & cj & ? & ?); [done|]. by exists (S j), cj.
        - by exists 0%nat, a. }
      exists 0%nat, (S j), c, cj. done.
Qed.

Lemma updated_removed key v : hexkey key -> updated (PShort key (PVal v)) PNil key None.
Proof.
  intros Hk k Hkk. cbn. case_decide as D; [done|].
  pose proof (updated_leaf key v Hk k Hkk) as H. by rewrite decide_False in H by done.
Qed.

(** A prefix of nibbles in front of a canonical tree. *)
Lemma canon_prefix p k c : nibbles p -> canon (PShort k c) -> canon (PShort (p ++ k) c).
Proof.
  intros Hp H. inversion H as [? v Hk Hv|? cs Hne Hk Hcs|]; subst.
  - constructor; [by apply hexkey_app|done].
  - constructor; [|by apply Forall_app|done]. intros E. by apply app_nil in E as [_ ->].
Qed.

Lemma slot_of_canon t key : hexkey key -> canon t -> slot t key.
Proof. intros Hk Hc. destruct key; [by apply hexkey_nonempty in Hk|]. split; [done|by right]. Qed.

(** The only child of a full node, lifted into its place. *)
Lemma single_entries ts i ti :
  length ts = 17%nat -> ts !! i = Some ti ->
  (forall j tj, ts !! j = Some tj -> j <> i -> tj = PNil) ->
  forall k, plookup (PFull ts) k = plookup (PShort [Zbyte (Z.of_nat i)] ti) k.
Proof.
  intros Hl Ei Hother k. assert (i < 17)%nat by (rewrite <- Hl; by eapply lookup_lt_Some).
  destruct k as [|b k]; [done|]. rewrite plookup_full. cbn [plookup length take drop].
  destruct (decide (b = Zbyte (Z.of_nat i))) as [->|Hb].
  - rewrite bidx_Zbyte, Ei by lia. by rewrite bool_decide_eq_true_2.
  - rewrite bool_decide_eq_false_2 by congruence.
    destruct (ts !! bidx b) as [t|] eqn:E; [|done].
    rewrite (Hother (bidx b) t E); [done|]. intros Hi. apply Hb. apply bidx_inj.
    by rewrite bidx_Zbyte by lia.
Qed.

Section del.
Context {R : NodeReader} {F : FlagInv}.
Variable gen : Z.

(** What [delete] returns. *)
Definition delOk (b : bool) (t : ptree) (key : list byte) (d : bool) (n' : node) : Prop :=
  if d then plookup t key <> None /\ isHash n' = false /\
            exists t', expands b n' t' /\ slot t' key /\ updated t t' key None /\ (is_full t -> canon t')
  else plookup t key = None /\ expands b n' t.

Lemma resolve_ok b n prefix t :
  expands b n t -> exists n', resolve gen n prefix = tok n' /\ isHash n' = false /\ expands b n' t.
Proof.
  intros He. destruct n; try (by eexists). apply resolveHash_ok. done.
Qed.

(** The short node that replaces a full node with one child. *)
Lemma lift_child b c t pos :
  expands false c t -> childOk pos t -> t <> PNil -> (pos < 17)%nat ->
  forall prefix cnode, (resolve gen c prefix = tok cnode /\ isHash cnode = false /\ expands false cnode t) ->
  exists n' t',
    (if negb (pos =? 16)%nat
     then match cnode with
          | shortNode cKey cVal _ => shortNode (Zbyte (Z.of_nat pos) :: cKey) cVal (newFlag gen)
          | _ => shortNode [Zbyte (Z.of_nat pos)] c (newFlag gen)
          end
     else shortNode [Zbyte (Z.of_nat pos)] c (newFlag gen)) = n' /\
    isHash n' = false /\ expands b n' t' /\ canon t' /\
    forall k, plookup t' k = plookup (PShort [Zbyte (Z.of_nat pos)] t) k.
Proof.
  intros He Hok Hne Hpos prefix cnode (_ & Hh & Hc).
  assert (canon (PShort [Zbyte (Z.of_nat pos)] t) ->
    exists n' t', shortNode [Zbyte (Z.of_nat pos)] c (newFlag gen) = n' /\
      isHash n' = false /\ expands b n' t' /\ canon t' /\
      forall k, plookup t' k = plookup (PShort [Zbyte (Z.of_nat pos)] t) k) as Hplain.
  { intros Hcan. eexists _, (PShort _ t). split; [done|]. split; [done|]. split; [constructor; [done|apply fl_new]|]. done. }
  specialize (Hok Hne). destruct (Nat.eqb_spec pos 16) as [->|Hp16]; cbn [negb].
  - cbn [Nat.ltb Nat.leb] in Hok. destruct Hok as (v & -> & Hv). apply Hplain.
    constructor; [apply hexkey_term|done].
  - assert (pos < 16)%nat as Hlt by lia. assert (Hlt' := Hlt). apply Nat.ltb_lt in Hlt'. rewrite Hlt' in Hok.
    assert (nibbles [Zbyte (Z.of_nat pos)]) as Hn by (constructor; [by apply nibble_Zbyte|constructor]).
    destruct cnode as [|cs' fl'|cKey cVal fl'|h|w]; try done; inversion Hc; subst; [done|..].
    + apply Hplain. constructor; done.
    + eexists _, (PShort (_ :: cKey) _). split; [done|]. split; [done|]. split; [constructor; [done|apply fl_new]|].
      split; [by apply (canon_prefix [_])|]. intros k. by rewrite plookup_short_short.
    + by inversion Hok.
Qed.

Lemma expands_lookup_r b cs ts fl k tk :
  expands b (fullNode cs fl) (PFull ts) -> ts !! k = Some tk ->
  exists ck, cs !! k = Some ck /\ expands false ck tk.
Proof.
  intros H E. inversion H as [| | |? ? ? ? Hl He _|]; subst.
  destruct (lookup_lt_is_Some_2 cs k) as [ck Eck]; [rewrite Hl; by eapply lookup_lt_Some|].
  exists ck. split; [done|]. by eapply He.
Qed.

Lemma expands_lookup_l b cs ts fl k ck :
  expands b (fullNode cs fl) (PFull ts) -> cs !! k = Some ck ->
  exists tk, ts !! k = Some tk /\ expands false ck tk /\ (isNil ck = false -> tk <> PNil).
Proof.
  intros H E. inversion H as [| | |? ? ? ? Hl He _|]; subst.
  destruct (lookup_lt_is_Some_2 ts k) as [tk Etk]; [rewrite <- Hl; by eapply lookup_lt_Some|].
  assert (expands false ck tk) as Hx by (by eapply He). exists tk. split; [done|]. split; [done|].
  intros Hn Ht. apply (expands_nil _ _ _ Hx) in Ht. congruence.
Qed.

(** [onlyChild] decides whether a full node stays canonical. *)
Lemma onlyChild_canon b cs ts fl :
  expands b (fullNode cs fl) (PFull ts) -> length ts = 17%nat ->
  (forall k tk, ts !! k = Some tk -> childOk k tk) ->
  (exists k tk, ts !! k = Some tk /\ tk <> PNil) ->
  match onlyChild cs with
  | Some pos => exists cp tp, cs !! pos = Some cp /\ ts !! pos = Some tp /\ expands false cp tp /\
      tp <> PNil /\ forall j tj, ts !! j = Some tj -> j <> pos -> tj = PNil
  | None => canon (PFull ts)
  end.
Proof.
  intros He Hl Hch (k & tk & Ek & Hk). pose proof (onlyChildFrom_spec cs 0) as Hspec.
  fold (onlyChild cs) in Hspec. destruct (onlyChild cs) as [pos|].
  - destruct Hspec as (j0 & cp & -> & Ecp & Hcp & Hothers). cbn [Nat.add] in *.
    destruct (expands_lookup_l _ _ _ _ _ _ He Ecp) as (tp & Etp & Hx & Hn).
    exists cp, tp. split; [done|]. split; [done|]. split; [done|]. split; [by apply Hn|].
    intros j tj E Hne. destruct (expands_lookup_r _ _ _ _ _ _ He E) as (cj & Ej & Hxj).
    apply (expands_nil _ _ _ Hxj). by eapply Hothers.
  - apply canon_full_iff. split; [done|]. split; [done|].
    destruct Hspec as [Hall|(i & j & ci & cj & Hne & E1 & E2 & N1 & N2)].
    + exfalso. destruct (expands_lookup_r _ _ _ _ _ _ He Ek) as (ck & Eck & Hx).
      apply Hk, (expands_nil _ _ _ Hx). by eapply Hall.
    + destruct (expands_lookup_l _ _ _ _ _ _ He E1) as (ti & ? & _ & Hti).
      destruct (expands_lookup_l _ _ _ _ _ _ He E2) as (tj & ? & _ & Htj).
      exists i, j, ti, tj. split; [done|]. split; [done|]. split; [done|]. split; [by apply Hti|by apply Htj].
Qed.

(** The children after one of them was replaced. *)
Lemma insert_children ts b r t' :
  canon (PFull ts) -> hexkey (b :: r) -> slot t' r ->
  (forall k tk, <[bidx b := t']> ts !! k = Some tk -> childOk k tk) /\
  (exists k tk, <[bidx b := t']> ts !! k = Some tk /\ tk <> PNil).
Proof.
  intros Hcan Hk Hs. pose proof (bidx_hexkey _ _ Hk) as Hb.
  apply canon_full_iff in Hcan as (Hl & Hch & (i & j & ti & tj & Hij & Ei & Ej & Hi & Hj)). split.
  - intros k tk E. destruct (decide (k = bidx b)) as [->|].
    + rewrite list_lookup_insert_eq in E by lia. injection E as <-. by apply (childOk_slot b r).
    + rewrite list_lookup_insert_ne in E by done. by apply Hch.
  - destruct (decide (i = bidx b)) as [->|].
    + exists j, tj. by rewrite list_lookup_insert_ne.
    + exists i, ti. by rewrite list_lookup_insert_ne.
Qed.

Lemma delete_full bb fuel cs fl ts b r prefix c t d n' :
  expands bb (fullNode cs fl) (PFull ts) -> canon (PFull ts) -> hexkey (b :: r) ->
  ts !! bidx b = Some t -> child b cs = Some c ->
  delete fuel gen c (prefix ++ [b]) r = tok (d, n') -> delOk false t r d n' ->
  exists d' n'', delete (S fuel) gen (fullNode cs fl) prefix (b :: r) = tok (d', n'') /\
    delOk bb (PFull ts) (b :: r) d' n''.
Proof.
  intros He Hcan Hk Et Ec Ed Hok. cbn [delete lookup list_lookup tget drop]. rewrite Ec. cbn [tget].
  change (drop 0 r) with r. rewrite Ed. cbn [tbind tok].
  assert (plookup (PFull ts) (b :: r) = plookup t r) as Hl by (by rewrite plookup_full, Et).
  destruct d; [|eexists _, _; split; [done|]; destruct Hok as [? _]; by split; [rewrite Hl|]].
  destruct Hok as (Hsome & Hh & t' & He' & Hs' & Hu & _).
  pose proof (updated_full _ _ _ _ _ _ Et Hu Hk) as Huf.
  destruct (insert_children ts b r t' Hcan Hk Hs') as [Hch Hex].
  assert (bidx b < length ts)%nat by (by eapply lookup_lt_Some).
  assert (length ts = 17%nat) as Hlen by (by apply canon_full_iff in Hcan as [? _]).
  set (ts' := <[bidx b := t']> ts) in *. set (cs' := setChild b n' cs).
  assert (expands bb (fullNode cs' (newFlag gen)) (PFull ts')) as Hexp
    by (eapply expands_setChild; [done..|apply fl_new]).
  assert (length ts' = 17%nat) as Hlen' by (unfold ts'; by rewrite length_insert).
  pose proof (onlyChild_canon _ _ _ _ Hexp Hlen' Hch Hex) as Honly.
  destruct (onlyChild cs') as [pos|].
  - destruct Honly as (cp & tp & Ecp & Etp & Hcp & Htp & Hothers). rewrite Ecp. cbn [tget].
    assert (pos < 17)%nat by (rewrite <- Hlen'; by eapply lookup_lt_Some).
    destruct (resolve_ok false cp prefix tp Hcp) as (cnode & Er & Hnh & Hcn).
    destruct (lift_child bb cp tp pos Hcp (Hch _ _ Etp) Htp ltac:(lia) prefix cnode)
      as (n'' & t'' & En & Hh'' & He'' & Hc'' & Hl''); [done|].
    exists true, n''. split.
    { rewrite <- En. destruct (negb (pos =? 16)%nat); [|done]. rewrite Er. cbn [tbind tok].
      by destruct cnode. }
    split; [by rewrite Hl|]. split; [done|]. exists t''. split; [done|].
    split; [by apply slot_of_canon|]. split; [|done].
    eapply updated_ext; [exact Huf|done|]. intros k. rewrite Hl''. by apply single_entries.
  - exists true, (fullNode cs' (newFlag gen)). split; [done|]. split; [by rewrite Hl|].
    split; [done|]. exists (PFull ts').
    split; [done|]. split; [by apply slot_of_canon|]. split; [done|done].
Qed.

(** Behind the key of an extension. *)
Lemma delete_short b fuel nKey nVal c fl key' prefix d n' :
  expands b (shortNode nKey nVal fl) (PShort nKey c) -> slot (PShort nKey c) (nKey ++ key') ->
  key' <> [] ->
  delete fuel gen nVal (prefix ++ nKey) key' = tok (d, n') -> delOk false c key' d n' ->
  exists d' n'', delete (S fuel) gen (shortNode nKey nVal fl) prefix (nKey ++ key') = tok (d', n'') /\
    delOk b (PShort nKey c) (nKey ++ key') d' n''.
Proof.
  intros He Hs Hne Ed Hok. assert (canon (PShort nKey c)) as Hcan.
  { destruct (nKey ++ key') eqn:E; [by apply app_nil in E as [_ ->]|]. by destruct Hs as [_ [|]]. }
  assert (hexkey (nKey ++ key')) as Hk.
  { destruct (nKey ++ key') eqn:E; [by apply app_nil in E as [_ ->]|]. apply Hs. }
  assert (nibbles nKey /\ is_full c) as [Hnib Hfull].
  { inversion Hcan as [? v Hk' Hv|? cs Hnek Hk' Hcs|]; subst; [|done].
    by pose proof (hexkey_prefix _ _ Hk' Hk). }
  assert (prefixLen (nKey ++ key') nKey = length nKey) as Em.
  { clear. induction nKey as [|x l IH]; [by destruct key'|]. cbn. by rewrite bool_decide_eq_true_2, IH. }
  cbn [delete]. rewrite Em, Nat.ltb_irrefl, length_app.
  replace (length nKey =? length nKey + length key')%nat with false
    by (symmetry; apply Nat.eqb_neq; destruct key'; [done|cbn; lia]).
  rewrite take_app_length, drop_app_length, Ed. cbn [tbind tok].
  destruct d; [|eexists _, _; split; [done|]; destruct Hok as [? _]; by split; [rewrite plookup_short_app|]].
  destruct Hok as (Hsome & Hh & t' & He' & Hs' & Hu & Hcanf). specialize (Hcanf Hfull).
  apply (updated_short nKey) in Hu.
  assert (plookup (PShort nKey c) (nKey ++ key') <> None) as Hsome' by (by rewrite plookup_short_app).
  destruct n' as [|cs' fl'|cKey cVal fl'|h|w]; try done; inversion He'; subst.
  - by inversion Hcanf.
  - eexists _, _. split; [done|]. split; [done|]. split; [done|]. eexists. split; [constructor; [done|apply fl_new]|].
    split; [|by split]. apply slot_of_canon; [done|]. constructor; [|done|done].
    intros ->. by apply canon_short_nonempty in Hcan; cbn in Hcan; lia.
  - eexists _, _. split; [done|]. split; [done|]. split; [done|]. eexists. split; [constructor; [done|apply fl_new]|].
    split; [apply slot_of_canon; [done|by apply canon_prefix]|]. split; [|done].
    eapply updated_ext; [exact Hu|done|]. intros k. by rewrite plookup_short_short.
  - by inversion Hcanf.
Qed.

Lemma delete_ok fuel : forall b n t prefix key,
  expands b n t -> slot t key -> (2 * length key + 1 + hashCost n <= fuel)%nat ->
  exists d n', delete fuel gen n prefix key = tok (d, n') /\ delOk b t key d n'.
Proof.
  induction fuel as [|fuel IH]; intros b n t prefix key He Hs Hf; [lia|].
  destruct n as [|cs fl|nKey nVal fl|h|w].
  - inversion He; subst. exists false, NilNode. done.
  - inversion He as [| | |? ? ts ? Hl Hc Hfl|]; subst.
    destruct (slot_full _ _ Hs) as (x & r & -> & Hk & Hcan).
    destruct (full_child _ _ _ Hcan Hk) as (t & Et).
    destruct (expands_child _ _ _ _ _ _ He Et) as (c & Ec & Hct).
    destruct (IH false c t (prefix ++ [x]) r Hct) as (d & n' & Ed & Hok).
    { by eapply canon_child. }
    { cbn [length] in Hf. unfold hashCost. destruct (isHash c); lia. }
    by eapply delete_full.
  - inversion He as [| |? ? ? c ? Hc Hfl| |]; subst. pose proof (slot_short_nonempty _ _ _ Hs) as Hnk.
    destruct (prefixLen_split key nKey) as (p & key' & nk' & Ek & En & Hp & Hd).
    destruct nk' as [|x nk'].
    + rewrite app_nil_r in En. subst p key. destruct key' as [|y key'].
      * rewrite app_nil_r in *. cbn [delete]. rewrite <- Hp, Nat.ltb_irrefl, Nat.eqb_refl.
        eexists _, _. split; [done|]. split; [|split; [done|]].
        -- destruct nKey as [|x nKey]; [cbn in Hnk; lia|]. destruct Hs as [Hk [|Hcan]]; [done|].
           inversion Hcan; subst; [by rewrite plookup_leaf|]. by destruct (hexkey_nibbles (x :: nKey)).
        -- exists PNil. split; [constructor|]. destruct nKey as [|x nKey]; [cbn in Hnk; lia|].
           destruct Hs as [Hk [|Hcan]]; [done|]. split; [by split; [|left]|]. split; [|done].
           inversion Hcan; subst; [by apply updated_removed|]. by destruct (hexkey_nibbles (x :: nKey)).
      * destruct (IH false nVal c (prefix ++ nKey) (y :: key') Hc) as (d & n' & Ed & Hok).
        { by apply (slot_short nKey). }
        { rewrite length_app in Hf. unfold hashCost. destruct (isHash nVal); lia. }
        by eapply delete_short.
    + cbn [delete]. rewrite <- Hp. replace (length p <? length nKey)%nat with true
        by (symmetry; apply Nat.ltb_lt; rewrite En, length_app; cbn; lia).
      eexists _, _. split; [done|]. split; [|done]. apply plookup_short_None. intros k' E.
      rewrite Ek, En, <- app_assoc in E. apply app_inv_head in E. subst key'.
      by apply (Hd x x).
  - destruct (resolveHash_ok gen b h prefix t He) as (rn & Er & Hh & Hrn).
    cbn [delete]. rewrite Er. cbn [tbind tok].
    destruct (IH b rn t prefix key Hrn Hs) as (d & n' & -> & Hok).
    { unfold hashCost in *. rewrite Hh. cbn [isHash] in Hf. lia. }
    cbn [tbind tok]. destruct d; eexists _, _; (split; [done|]); [done|]. by destruct Hok.
  - inversion He; subst. apply slot_val in Hs as [-> Hv]. cbn [delete].
    eexists _, _. split; [done|]. split; [done|]. split; [done|]. exists PNil. split; [constructor|].
    split; [by left|]. split; [|done]. intros k [->|Hk]; [done|]. cbn.
    destruct k; [by apply hexkey_nonempty in Hk|]. by rewrite decide_False.
Qed.
End del.
