(* ===== verification/TrieNode.v ===== *)
(** * trie/node.go: nodes as RLP, and trie/database.go: nodes in the cache

    A node whose children are collapsed to hashes is stored either as its RLP
    encoding, read back by [decodeNode], or, in the cache of [trie.Database],
    as an object without flags, read back by [expandNode].

    Shown: both ways give the same node. *)

From Stdlib Require Import ZArith Lia Bool.
From S2P Require Import Prelude GoMath Rlp RlpStreamSpec TrieEncoding Trie.
Local Open Scope Z_scope.
Local Open Scope trie_scope.

(** ** Encoding *)

(** The value [rlp.Encode] sees: the exported fields of a short node, the
    seventeen children of a full node with nil as the empty string
    ([fullNode.EncodeRLP]), byte strings; a nil interface is an empty list. *)
Fixpoint nodeItem (n : node) : item :=
  match n with
  | NilNode => Lst []
  | fullNode cs _ =>
      Lst (map (fun c => match c with NilNode => Str [] | _ => nodeItem c end) cs)
  | shortNode k v _ => Lst [Str k; nodeItem v]
  | hashNode h => Str h
  | valueNode v => Str v
  end.

Definition encodeNode (n : node) : option (list byte) := EncodeToBytes (nodeItem n).

(** ** Decoding *)

Inductive decErr :=
| DEUnexpectedEOF
| DERlp (e : rlpErr)
| DECount (c : Z)
| DEOversized (size : Z)
| DEStringSize (n : Z).

Definition DM : Type -> Type := res decErr.

(** A result of package rlp, where [None] is a panic. *)
Definition ofRlp {A} (r : option (rlpErr + A)) : DM A :=
  match r with
  | None => Panic
  | Some (inl e) => terr (DERlp e)
  | Some (inr a) => tok a
  end.

Definition hashLen : Z := 32.

(** [decodeFull]: sixteen references. *)
Fixpoint decodeRefs (n : nat) (decodeRef : list byte -> DM (node * list byte)) (elems : list byte) :
    DM (list node * list byte) :=
  match n with
  | O => tok ([], elems)
  | S n =>
      do '(cld, rest) := decodeRef elems in
      do '(clds, rest) := decodeRefs n decodeRef rest in
      tok (cld :: clds, rest)
  end.

Definition decodeFull (decodeRef : list byte -> DM (node * list byte)) (flag : nodeFlag)
    (elems : list byte) : DM node :=
  do '(cs, elems) := decodeRefs 16 decodeRef elems in
  do '(val, _) := ofRlp (SplitString elems) in
  tok (fullNode (cs ++ [if zlen val >? 0 then valueNode val else NilNode]) flag).

Definition decodeShort (decodeRef : list byte -> DM (node * list byte)) (flag : nodeFlag)
    (elems : list byte) : DM node :=
  do '(kbuf, rest) := ofRlp (SplitString elems) in
  idx key := compactToHex kbuf in
  if hasTerm key then
    do '(val, _) := ofRlp (SplitString rest) in
    tok (shortNode key (valueNode val) flag)
  else
    do '(r, _) := decodeRef rest in
    tok (shortNode key r flag).

(** [CountValues], whose error is dropped. *)
Definition countElems (elems : list byte) : DM Z :=
  match CountValues elems with
  | None => Panic
  | Some (inl _) => tok 0
  | Some (inr c) => tok c
  end.

(** [decodeRef], given [decodeNode] for an embedded node. *)
Definition decodeRef (decodeNode : list byte -> DM node) (buf : list byte) : DM (node * list byte) :=
  do '(kind, val, rest) := ofRlp (Split buf) in
  match kind with
  | KList =>
      let size := zlen buf - zlen rest in
      if size >? hashLen then terr (DEOversized size)
      else do n := decodeNode buf in tok (n, rest)
  | KString =>
      if zlen val =? 0 then tok (NilNode, rest)
      else if zlen val =? 32 then tok (hashNode val, rest)
      else terr (DEStringSize (zlen val))
  | KByte => terr (DEStringSize (zlen val))
  end.

(** [decodeNode]; an embedded node is part of its parent's content, so that the
    length of the input bounds the nesting. *)
Fixpoint decodeNodeFuel (fuel : nat) (hash : option (list byte)) (cachegen : Z) (buf : list byte) :
    DM node :=
  match fuel with
  | O => OutOfFuel
  | S fuel =>
      let ref := decodeRef (decodeNodeFuel fuel None cachegen) in
      if zlen buf =? 0 then terr DEUnexpectedEOF
      else
        do '(elems, _) := ofRlp (SplitList buf) in
        do c := countElems elems in
        let flag := mkFlag hash cachegen false in
        if c =? 2 then decodeShort ref flag elems
        else if c =? 17 then decodeFull ref flag elems
        else terr (DECount c)
  end.

Definition decodeNode (hash : option (list byte)) (buf : list byte) (cachegen : Z) : DM node :=
  decodeNodeFuel (S (length buf)) hash cachegen buf.

Definition mustDecodeNode (hash buf : list byte) (cachegen : Z) : outcome node :=
  match decodeNode (Some hash) buf cachegen with
  | Ret (inr n) => Ret n
  | Ret (inl _) => Panic
  | Panic => Panic
  | OutOfFuel => OutOfFuel
  end.

(** ** Nodes in the cache *)

#[local] Set Warnings "-register-all".

(** [rawNode], [rawFullNode], [rawShortNode] and the nodes without flags. *)
Inductive rnode :=
| RNil
| rawNode (blob : list byte)
| rawFullNode (cs : list rnode)
| rawShortNode (Key : list byte) (Val : rnode)
| rhash (h : list byte)
| rvalue (v : list byte).

(** All results, or none. *)
Fixpoint all {A} (l : list (option A)) : option (list A) :=
  match l with
  | [] => Some []
  | None :: _ => None
  | Some a :: l => match all l with Some l => Some (a :: l) | None => None end
  end.

(** [None]: the panic on an unknown node type, here nil. *)
Fixpoint simplifyNode (n : node) : option rnode :=
  match n with
  | shortNode k v _ =>
      match simplifyNode v with Some v => Some (rawShortNode k v) | None => None end
  | fullNode cs _ =>
      match all (map (fun c => match c with NilNode => Some RNil | _ => simplifyNode c end) cs) with
      | Some cs => Some (rawFullNode cs)
      | None => None
      end
  | valueNode v => Some (rvalue v)
  | hashNode h => Some (rhash h)
  | NilNode => None
  end.

(** [None]: that panic, or the one of [compactToHex]. *)
Fixpoint expandNode (hash : option (list byte)) (n : rnode) (cachegen : Z) : option node :=
  match n with
  | rawShortNode k v =>
      match compactToHex k, expandNode None v cachegen with
      | Some k, Some v => Some (shortNode k v (mkFlag hash cachegen false))
      | _, _ => None
      end
  | rawFullNode cs =>
      match all (map (fun c => match c with RNil => Some NilNode | _ => expandNode None c cachegen end) cs) with
      | Some cs => Some (fullNode cs (mkFlag hash cachegen false))
      | None => None
      end
  | rvalue v => Some (valueNode v)
  | rhash h => Some (hashNode h)
  | rawNode _ | RNil => None
  end.

(** What the encoder sees of a cached node ([rawFullNode.EncodeRLP] is that of
    a full node). *)
Fixpoint rnodeItem (n : rnode) : item :=
  match n with
  | RNil => Lst []
  | rawFullNode cs =>
      Lst (map (fun c => match c with RNil => Str [] | _ => rnodeItem c end) cs)
  | rawShortNode k v => Lst [Str k; rnodeItem v]
  | rhash h => Str h
  | rvalue v => Str v
  | rawNode b => Str b
  end.

Example decode_leaf :
  decodeNode None [xc4; x82; x20; x12; x05] 3 =
    tok (shortNode [x01; x02; x10] (valueNode [x05]) (mkFlag None 3 false)).
Proof. reflexivity. Qed.
(** A short node with an empty key makes the decoder panic instead of
    returning an error. *)
Example decode_empty_key : decodeNode None [xc2; x80; x80] 0 = Panic.
Proof. reflexivity. Qed.

(** ** Loading nodes: from the encoding and from the cache

    [collapsed c]: [c] is a node as the hasher stores it, with compact keys,
    and children that are hashes or small enough to be embedded. *)

(** A reference to a child: a hash, or an embedded node. *)
Definition refSize (c : node) : Prop :=
  match c with
  | hashNode h => zlen h = 32
  | _ => zlen (rlp (nodeItem c)) < 32
  end.

Inductive collapsed : node -> Prop :=
| col_leaf ck k v fl :
    compactToHex ck = Some k -> hasTerm k = true -> collapsed (shortNode ck (valueNode v) fl)
| col_ext ck k c fl :
    compactToHex ck = Some k -> hasTerm k = false ->
    (isHash c = false -> collapsed c) -> refSize c -> collapsed (shortNode ck c fl)
| col_full cs fl :
    length cs = 17%nat ->
    (forall i c, (i < 16)%nat -> cs !! i = Some c -> c <> NilNode -> isHash c = false -> collapsed c) ->
    (forall i c, (i < 16)%nat -> cs !! i = Some c -> c <> NilNode -> refSize c) ->
    (forall c, cs !! 16%nat = Some c -> c <> NilNode -> exists v, c = valueNode v /\ v <> []) ->
    collapsed (fullNode cs fl).

(** The node in memory. *)
Fixpoint expandC (hash : option (list byte)) (gen : Z) (c : node) : node :=
  match c with
  | shortNode k v _ =>
      shortNode (match compactToHex k with Some k => k | None => [] end) (expandC None gen v)
        (mkFlag hash gen false)
  | fullNode cs _ => fullNode (map (expandC None gen) cs) (mkFlag hash gen false)
  | _ => c
  end.

Lemma nil_dec (c : node) : {c = NilNode} + {c <> NilNode}.
Proof. destruct c; by (left + right). Qed.

(** ** From the cache *)

Lemma all_map {A B} (f : A -> option B) (g : A -> B) l :
  (forall i a, l !! i = Some a -> f a = Some (g a)) -> all (map f l) = Some (map g l).
Proof.
  induction l as [|a l IH]; intros H; [done|]. cbn. rewrite (H 0%nat a) by done.
  rewrite IH; [done|]. intros i b E. by apply (H (S i)).
Qed.

Fixpoint simplifyC (c : node) : rnode :=
  match c with
  | shortNode k v _ => rawShortNode k (simplifyC v)
  | fullNode cs _ => rawFullNode (map simplifyC cs)
  | valueNode v => rvalue v
  | hashNode h => rhash h
  | NilNode => RNil
  end.

Lemma collapsed_not_nil c : collapsed c -> c <> NilNode.
Proof. by intros []. Qed.

Lemma simplify_ref c : (isHash c = false -> collapsed c /\ simplifyNode c = Some (simplifyC c)) ->
  simplifyNode c = Some (simplifyC c).
Proof. destruct c; try done; intros H; by destruct H. Qed.

Lemma simplify_collapsed c : collapsed c -> simplifyNode c = Some (simplifyC c).
Proof.
  induction 1 as [ck k v fl Hk Ht|ck k c fl Hk Ht Hc IH Hs|cs fl Hl Hc IH Hs Hv]; cbn [simplifyNode simplifyC].
  - done.
  - rewrite (simplify_ref c) by auto. done.
  - rewrite (all_map _ simplifyC); [done|]. intros i c E.
    destruct (nil_dec c) as [->|Hn]; [done|].
    assert (i < 17)%nat by (rewrite <- Hl; by eapply lookup_lt_Some).
    assert (simplifyNode c = Some (simplifyC c)) as Hsc.
    { destruct (decide (i = 16%nat)) as [->|]; [by destruct (Hv c E Hn) as (v & -> & _)|].
      apply simplify_ref. intros Hh. split; [apply (Hc i)|apply (IH i)]; done || lia. }
    by destruct c.
Qed.

Lemma expand_ref c gen :
  (isHash c = false -> forall hash, expandNode hash (simplifyC c) gen = Some (expandC hash gen c)) ->
  expandNode None (simplifyC c) gen = Some (expandC None gen c).
Proof. destruct c; intros H; try done; by apply H. Qed.

Lemma expand_collapsed gen c :
  collapsed c -> forall hash, expandNode hash (simplifyC c) gen = Some (expandC hash gen c).
Proof.
  induction 1 as [ck k v fl Hk Ht|ck k c fl Hk Ht Hc IH Hs|cs fl Hl Hc IH Hs Hv]; intros hash;
    cbn [expandNode simplifyC expandC].
  - by rewrite Hk.
  - rewrite Hk, (expand_ref c) by auto. done.
  - rewrite map_map, (all_map _ (expandC None gen)); [done|]. intros i c E.
    destruct (nil_dec c) as [->|Hn]; [done|].
    assert (i < 17)%nat by (rewrite <- Hl; by eapply lookup_lt_Some).
    assert (expandNode None (simplifyC c) gen = Some (expandC None gen c)) as Hsc.
    { destruct (decide (i = 16%nat)) as [->|]; [by destruct (Hv c E Hn) as (v & -> & _)|].
      apply expand_ref. intros Hh. apply (IH i); done || lia. }
    by destruct c.
Qed.

(** ** From the encoding *)

(** The item of a child. *)
Definition refItem (c : node) : item := match c with NilNode => Str [] | _ => nodeItem c end.

Lemma nodeItem_full cs fl : nodeItem (fullNode cs fl) = Lst (map refItem cs).
Proof. done. Qed.

Lemma collapsed_list c : collapsed c -> exists l, nodeItem c = Lst l.
Proof. intros []; by eexists. Qed.

Lemma SplitString_rlp b rest :
  zlen (rlp (Str b)) + zlen rest < 2 ^ 61 -> ofRlp (SplitString (rlp (Str b) ++ rest)) = tok (b, rest).
Proof.
  intros Hz. pose proof (zlen_nonneg rest). destruct (string_enc b) as (k & Hn & E & Hk).
  pose proof (zlen_enc k b). rewrite E in Hz |- *. unfold SplitString. rewrite Split_enc by (done || lia).
  by rewrite bool_decide_eq_false_2.
Qed.

Lemma SplitList_rlp l rest :
  zlen (rlp (Lst l)) + zlen rest < 2 ^ 61 ->
  ofRlp (SplitList (rlp (Lst l) ++ rest)) = tok (concat (map rlp l), rest).
Proof.
  intros Hz. pose proof (zlen_enc KList (concat (map rlp l))). unfold SplitList.
  change (rlp (Lst l)) with (enc KList (concat (map rlp l))) in *.
  rewrite Split_enc by (done || lia). done.
Qed.

(** The references of a node. *)
Definition refOk (decodeRef : list byte -> DM (node * list byte)) (gen : Z) (bound : Z) (c : node) : Prop :=
  forall rest, zlen (rlp (refItem c)) + zlen rest < bound ->
    decodeRef (rlp (refItem c) ++ rest) = tok (expandC None gen c, rest).

Lemma decodeRefs_ok decodeRef gen bound cs : forall rest,
  Forall (refOk decodeRef gen bound) cs ->
  zlen (concat (map rlp (map refItem cs)) ++ rest) < bound ->
  decodeRefs (length cs) decodeRef (concat (map rlp (map refItem cs)) ++ rest) =
    tok (map (expandC None gen) cs, rest).
Proof.
  induction cs as [|c cs IH]; intros rest Hr Hz; [done|]. apply Forall_cons in Hr as [Hc Hr].
  cbn [length decodeRefs map concat] in *. rewrite <- app_assoc in Hz |- *.
  rewrite zlen_app in Hz. pose proof (zlen_nonneg (rlp (refItem c))).
  rewrite Hc by done. cbn [tbind tok]. rewrite IH by (done || lia). done.
Qed.

Lemma decodeFull_ok decodeRef gen bound cs fl hash :
  length cs = 17%nat -> bound <= 2 ^ 60 ->
  (forall i c, (i < 16)%nat -> cs !! i = Some c -> refOk decodeRef gen bound c) ->
  (forall c, cs !! 16%nat = Some c -> c <> NilNode -> exists v, c = valueNode v /\ v <> []) ->
  zlen (concat (map rlp (map refItem cs))) < bound ->
  decodeFull decodeRef (mkFlag hash gen false) (concat (map rlp (map refItem cs))) =
    tok (expandC hash gen (fullNode cs fl)).
Proof.
  intros Hl Hbd Hc Hv Hz. destruct (lookup_lt_is_Some_2 cs 16) as [cv Ev]; [lia|].
  pose proof (take_drop_middle cs 16 cv Ev) as Ecs. rewrite drop_ge in Ecs by lia.
  set (c16 := take 16 cs) in *. assert (length c16 = 16%nat) as Hl16 by (unfold c16; rewrite length_take; lia).
  unfold decodeFull. rewrite <- Ecs in Hz |- *. rewrite !map_app, concat_app in *. cbn [map concat] in *.
  rewrite app_nil_r in *. rewrite <- Hl16, (decodeRefs_ok _ gen bound).
  2: { apply Forall_lookup. intros i c E. unfold c16 in E.
    rewrite lookup_take_Some in E. destruct E as [E Hi]. by apply (Hc i). }
  2: done.
  cbn [tbind tok]. rewrite zlen_app in Hz. pose proof (zlen_nonneg (concat (map rlp (map refItem c16)))).
  assert (exists v, refItem cv = Str v /\
    (if zlen v >? 0 then valueNode v else NilNode) = expandC None gen cv) as (v & Er & Ex).
  { destruct (nil_dec cv) as [->|Hn]; [by exists []|]. destruct (Hv cv Ev Hn) as (v & -> & Hne).
    exists v. split; [done|]. destruct v as [|x v]; [done|].
    rewrite zlen_cons. pose proof (zlen_nonneg v). by replace (zlen v + 1 >? 0) with true by lia. }
  rewrite Er in Hz |- *. rewrite <- (app_nil_r (rlp (Str v))), SplitString_rlp
    by (change (zlen (@nil byte)) with 0; lia).
  cbn [tbind tok expandC]. by rewrite map_app, Ex.
Qed.

Lemma refOk_nil rec gen bound : bound <= 2 ^ 60 -> refOk (decodeRef rec) gen bound NilNode.
Proof.
  intros Hb rest Hz. unfold decodeRef. cbn [refItem] in *.
  change (rlp (Str [])) with (enc KString []) in *. change (zlen (enc KString [])) with 1 in Hz.
  rewrite Split_enc; [done|done|]. change (zlen (@nil byte)) with 0. lia.
Qed.

Lemma refOk_hash rec gen bound h : bound <= 2 ^ 60 -> zlen h = 32 -> refOk (decodeRef rec) gen bound (hashNode h).
Proof.
  intros Hb Hh rest Hz. unfold decodeRef. cbn [refItem nodeItem] in *.
  assert (rlp (Str h) = enc KString h) as E by done. rewrite E in *. pose proof (zlen_enc KString h).
  rewrite Split_enc; [|by intros x ->|lia]. cbn [ofRlp tbind tok].
  by rewrite Hh.
Qed.

Lemma refOk_embedded rec gen bound c :
  bound <= 2 ^ 60 -> collapsed c -> zlen (rlp (nodeItem c)) < 32 ->
  (forall rest, zlen (rlp (nodeItem c)) + zlen rest < bound ->
     rec (rlp (nodeItem c) ++ rest) = tok (expandC None gen c)) ->
  refOk (decodeRef rec) gen bound c.
Proof.
  intros Hb Hc Hs Hrec rest Hz. destruct (collapsed_list c Hc) as (l & El).
  assert (refItem c = nodeItem c) as Er by (by destruct c; [apply collapsed_not_nil in Hc|..]).
  rewrite Er in *. specialize (Hrec rest Hz). rewrite El in *. unfold decodeRef.
  pose proof (zlen_enc KList (concat (map rlp l))).
  change (rlp (Lst l)) with (enc KList (concat (map rlp l))) in *.
  rewrite Split_enc by (done || lia). cbn [ofRlp tbind tok]. rewrite zlen_app.
  replace (_ + zlen rest - zlen rest >? hashLen) with false by (unfold hashLen; lia).
  by rewrite Hrec.
Qed.

(** A reference of any kind. *)
Lemma refOk_ref rec gen bound c :
  bound <= 2 ^ 60 -> c <> NilNode -> refSize c ->
  (isHash c = false -> collapsed c /\
     forall rest, zlen (rlp (nodeItem c)) + zlen rest < bound ->
       rec (rlp (nodeItem c) ++ rest) = tok (expandC None gen c)) ->
  refOk (decodeRef rec) gen bound c.
Proof.
  intros Hb Hn Hs Hc. destruct (isHash c) eqn:Eh.
  - destruct c; try done. by apply refOk_hash.
  - destruct (Hc eq_refl) as [Hcol Hrec]. apply refOk_embedded; [done|done| |done]. by destruct c.
Qed.

Lemma countElems_rlp l : zlen (concat (map rlp l)) < 2 ^ 61 -> countElems (concat (map rlp l)) = tok (zlen l).
Proof. intros Hz. unfold countElems, CountValues. by rewrite CountValuesLoop_rlp. Qed.

(** The length of a part of a list's encoding. *)
Lemma part_length it l : In it l -> (length (rlp it) < length (rlp (Lst l)))%nat.
Proof.
  intros Hin. assert (length (rlp it) <= length (concat (map rlp l)))%nat.
  { induction l as [|x l IH]; [done|]. cbn [map concat]. rewrite length_app.
    destruct Hin as [->|Hin]; [lia|]. specialize (IH Hin). lia. }
  cbn [rlp]. unfold rlp_list. rewrite length_app. unfold rlp_head. split_if; cbn [length]; lia.
Qed.

(** One level of [decodeNode] on a list of values. *)
Lemma decode_step fuel hash gen l rest :
  zlen (rlp (Lst l)) + zlen rest < 2 ^ 60 ->
  decodeNodeFuel (S fuel) hash gen (rlp (Lst l) ++ rest) =
    (let ref := decodeRef (decodeNodeFuel fuel None gen) in
     if zlen l =? 2 then decodeShort ref (mkFlag hash gen false) (concat (map rlp l))
     else if zlen l =? 17 then decodeFull ref (mkFlag hash gen false) (concat (map rlp l))
     else terr (DECount (zlen l))).
Proof.
  intros Hz. pose proof (rlp_nonempty (Lst l)). pose proof (zlen_nonneg rest).
  pose proof (zlen_enc KList (concat (map rlp l))). cbn [decodeNodeFuel]. rewrite zlen_app.
  replace (zlen (rlp (Lst l)) + zlen rest =? 0) with false by (symmetry; apply Z.eqb_neq; lia).
  rewrite SplitList_rlp by lia. cbn [tbind tok].
  rewrite countElems_rlp by (change (rlp (Lst l)) with (enc KList (concat (map rlp l))) in *; lia).
  done.
Qed.

(** The content of a list is shorter than its encoding. *)
Lemma content_bound l (rest : list byte) bound :
  zlen (rlp (Lst l)) + zlen rest < bound -> zlen (concat (map rlp l)) < bound.
Proof.
  intros Hz. pose proof (zlen_rlp_list (concat (map rlp l))). pose proof (zlen_nonneg rest).
  cbn [rlp] in Hz. lia.
Qed.

Lemma decode_collapsed gen c : collapsed c -> forall fuel hash rest,
  (length (rlp (nodeItem c)) < fuel)%nat -> zlen (rlp (nodeItem c)) + zlen rest < 2 ^ 60 ->
  decodeNodeFuel fuel hash gen (rlp (nodeItem c) ++ rest) = tok (expandC hash gen c).
Proof.
  induction 1 as [ck k v fl Hk Ht|ck k c fl Hk Ht Hc IH Hs|cs fl Hl Hc IH Hs Hv];
    intros fuel hash rest Hf Hz; (destruct fuel as [|fuel]; [lia|]).
  - cbn [nodeItem] in *. rewrite decode_step by done. cbv zeta. apply content_bound in Hz.
    change (zlen [Str ck; Str v] =? 2) with true. cbv iota. unfold decodeShort. cbn [map concat] in *.
    rewrite app_nil_r, zlen_app in *. rewrite SplitString_rlp by lia. cbn [tbind tok]. rewrite Hk.
    cbn [tget]. rewrite Ht. pose proof (zlen_nonneg (rlp (Str ck))).
    rewrite <- (app_nil_r (rlp (Str v))), SplitString_rlp by (change (zlen (@nil byte)) with 0; lia).
    cbn [tbind tok expandC]. by rewrite Hk.
  - cbn [nodeItem] in *. rewrite decode_step by done. cbv zeta. apply content_bound in Hz.
    pose proof (part_length (nodeItem c) [Str ck; nodeItem c] ltac:(right; by left)) as Hpl.
    change (zlen [Str ck; nodeItem c] =? 2) with true. cbv iota. unfold decodeShort. cbn [map concat] in *.
    rewrite app_nil_r, zlen_app in *. rewrite SplitString_rlp by lia. cbn [tbind tok]. rewrite Hk.
    cbn [tget]. rewrite Ht. pose proof (zlen_nonneg (rlp (Str ck))).
    assert (c <> NilNode) as Hn.
    { intros ->. specialize (Hc eq_refl). by apply collapsed_not_nil in Hc. }
    assert (refOk (decodeRef (decodeNodeFuel fuel None gen)) gen (2 ^ 60) c) as Hr.
    { apply refOk_ref; [lia|done|done|]. intros Hh. split; [by apply Hc|]. intros r Hzr.
      apply IH; [done| |done]. lia. }
    assert (refItem c = nodeItem c) as Er by (by destruct c).
    rewrite <- (app_nil_r (rlp (nodeItem c))), <- Er, Hr
      by (rewrite Er; change (zlen (@nil byte)) with 0; lia).
    cbn [tbind tok expandC]. by rewrite Hk.
  - rewrite nodeItem_full in *. rewrite decode_step by done. cbv zeta. apply content_bound in Hz.
    assert (zlen (map refItem cs) = 17) as -> by (unfold zlen; rewrite length_map, Hl; done).
    change (17 =? 2) with false. change (17 =? 17) with true. cbv iota.
    apply (decodeFull_ok _ _ (2 ^ 60)); [done|lia| |done|done].
    intros i c Hi E. destruct (nil_dec c) as [->|Hn]; [by apply refOk_nil|].
    apply refOk_ref; [lia|done|by apply (Hs i)|]. intros Hh. split; [by apply (Hc i)|].
    intros r Hzr. apply (IH i); [done..| |done].
    pose proof (part_length (refItem c) (map refItem cs)) as Hpl.
    assert (refItem c = nodeItem c) as Er by (by destruct c). rewrite Er in Hpl.
    specialize (Hpl ltac:(rewrite <- Er; apply in_map, list_elem_of_In; by eapply list_elem_of_lookup_2)). lia.
Qed.

(** Both ways of loading a node agree. *)
Lemma load_agree hash gen c :
  collapsed c -> zlen (rlp (nodeItem c)) < 2 ^ 60 ->
  exists blob r n, encodeNode c = Some blob /\ simplifyNode c = Some r /\
    decodeNode hash blob gen = tok n /\ expandNode hash r gen = Some n /\ n = expandC hash gen c.
Proof.
  intros Hc Hz. exists (rlp (nodeItem c)), (simplifyC c), (expandC hash gen c).
  split; [apply EncodeToBytes_rlp; lia|]. split; [by apply simplify_collapsed|].
  split; [|split; [by apply expand_collapsed|done]]. unfold decodeNode.
  rewrite <- (app_nil_r (rlp (nodeItem c))) at 2. apply decode_collapsed; [done|lia|].
  change (zlen (@nil byte)) with 0. lia.
Qed.
