(* ===== verification/TrieDatabase.v ===== *)
(** * trie/database.go: the cache between tries and disk

    [Database] keeps collapsed trie nodes with reference counts and a list in
    insertion order (the flush-list), and writes them to disk in batches.  The
    disk is [ethdb.MemDatabase], whose operations cannot fail.  Locks, timers
    and statistics are left out; [StorageSize] is a float used for integers
    far below 2^53 and modelled as an integer. *)

From Stdlib Require Import ZArith Lia Bool.
From S2P Require Import Prelude GoMath Rlp TrieEncoding Trie TrieNode.
Local Open Scope Z_scope.
Local Open Scope go_scope.

#[export] Instance byte_countable : Countable byte := inj_countable' byteZ Zbyte Zbyte_byteZ.

(** ** ethdb/memory_database.go *)

Module Mem.
Abbreviation db := (gmap (list byte) (list byte)).

Definition Put (key value : list byte) (d : db) : db := <[key := value]> d.
Definition Get (key : list byte) (d : db) : option (list byte) := d !! key.
Definition Has (key : list byte) (d : db) : bool := bool_decide (is_Some (d !! key)).
Definition Delete (key : list byte) (d : db) : db := base.delete key d.

(** [memBatch]; the value of a deletion is nil. *)
Record batch := mkBatch { b_writes : list (list byte * option (list byte)); b_size : Z }.
Definition NewBatch : batch := mkBatch [] 0.
Definition batch_Put (key value : list byte) (b : batch) : batch :=
  mkBatch (b_writes b ++ [(key, Some value)]) (b_size b + zlen value).
Definition batch_Delete (key : list byte) (b : batch) : batch :=
  mkBatch (b_writes b ++ [(key, None)]) (b_size b).
Definition applyWrite (d : db) (kv : list byte * option (list byte)) : db :=
  match kv.2 with None => base.delete kv.1 d | Some v => <[kv.1 := v]> d end.
Definition batch_Write (b : batch) (d : db) : db := fold_left applyWrite (b_writes b) d.
Definition batch_ValueSize (b : batch) : Z := b_size b.
Definition batch_Reset (b : batch) : batch := mkBatch [] 0.
Definition IdealBatchSize : Z := 100 * 1024.
End Mem.

(** ** The cache *)

Record cachedNode := mkCached {
  cn_node : rnode;
  cn_size : Z;
  cn_parents : Z;
  cn_children : gmap Hash Z;
  cn_flushPrev : Hash;
  cn_flushNext : Hash
}.

Record Database := mkDatabase {
  d_diskdb : Mem.db;
  d_nodes : gmap Hash cachedNode;
  d_oldest : Hash;
  d_newest : Hash;
  d_preimages : gmap Hash (list byte);
  d_nodesSize : Z;
  d_preimagesSize : Z
}.

Definition set_disk v d := mkDatabase v (d_nodes d) (d_oldest d) (d_newest d) (d_preimages d)
  (d_nodesSize d) (d_preimagesSize d).
Definition set_nodes v d := mkDatabase (d_diskdb d) v (d_oldest d) (d_newest d) (d_preimages d)
  (d_nodesSize d) (d_preimagesSize d).
Definition set_oldest v d := mkDatabase (d_diskdb d) (d_nodes d) v (d_newest d) (d_preimages d)
  (d_nodesSize d) (d_preimagesSize d).
Definition set_newest v d := mkDatabase (d_diskdb d) (d_nodes d) (d_oldest d) v (d_preimages d)
  (d_nodesSize d) (d_preimagesSize d).
Definition set_nodesSize v d := mkDatabase (d_diskdb d) (d_nodes d) (d_oldest d) (d_newest d)
  (d_preimages d) v (d_preimagesSize d).
Definition set_preimages v n d := mkDatabase (d_diskdb d) (d_nodes d) (d_oldest d) (d_newest d)
  v (d_nodesSize d) n.

Definition set_parents v c := mkCached (cn_node c) (cn_size c) v (cn_children c) (cn_flushPrev c) (cn_flushNext c).
Definition set_children v c := mkCached (cn_node c) (cn_size c) (cn_parents c) v (cn_flushPrev c) (cn_flushNext c).
Definition set_flushPrev v c := mkCached (cn_node c) (cn_size c) (cn_parents c) (cn_children c) v (cn_flushNext c).
Definition set_flushNext v c := mkCached (cn_node c) (cn_size c) (cn_parents c) (cn_children c) (cn_flushPrev c) v.

(** [NewDatabase]: the entry of the zero hash is the meta root. *)
Definition NewDatabase (diskdb : Mem.db) : Database :=
  mkDatabase diskdb {[ 0 := mkCached RNil 0 0 ∅ 0 0 ]} 0 0 ∅ 0 0.

(** ** Cached nodes *)

Definition cached_rlp (n : cachedNode) : option (list byte) :=
  match cn_node n with
  | rawNode b => Some b
  | r => EncodeToBytes (rnodeItem r)
  end.

Definition cached_obj (hash : list byte) (gen : Z) (n : cachedNode) : outcome node :=
  match cn_node n with
  | rawNode b => mustDecodeNode hash b gen
  | r => match expandNode (Some hash) r gen with Some n => Ret n | None => Panic end
  end.

(** The hashes in a collapsed node.  A raw blob inside a node panics in the
    code; nodes are built without them. *)
Fixpoint gatherChildren (n : rnode) : list Hash :=
  match n with
  | rawShortNode _ v => gatherChildren v
  | rawFullNode cs => concat (take 16 (map gatherChildren cs))
  | rhash h => [BytesToHash h]
  | _ => []
  end.

Definition childs (n : cachedNode) : list Hash :=
  (map_to_list (cn_children n)).*1 ++ gatherChildren (cn_node n).

(** ** Reading *)

Definition hashBytes (h : Hash) : list byte := be_bytes 32 h.

(** [Database.node]; [NilNode] where there is none. *)
Definition Database_node (d : Database) (hash : Hash) (cachegen : Z) : outcome node :=
  match d_nodes d !! hash with
  | Some n => cached_obj (hashBytes hash) cachegen n
  | None =>
      match Mem.Get (hashBytes hash) (d_diskdb d) with
      | None => Ret NilNode
      | Some enc => mustDecodeNode (hashBytes hash) enc cachegen
      end
  end.

(** [Database.Node]; [inl] is the error of the disk, [None] a panic. *)
Definition Database_Node (d : Database) (hash : Hash) : option (unit + list byte) :=
  match d_nodes d !! hash with
  | Some n => match cached_rlp n with Some b => Some (inr b) | None => None end
  | None =>
      match Mem.Get (hashBytes hash) (d_diskdb d) with
      | None => Some (inl tt)
      | Some enc => Some (inr enc)
      end
  end.

(** The interface the trie reads through. *)
Definition reader (d : Database) : NodeReader := Database_node d.

(** The bytes of [secure-key-], put in front of preimages on disk. *)
Definition secureKeyPrefix : list byte :=
  [x73; x65; x63; x75; x72; x65; x2d; x6b; x65; x79; x2d].
Definition secureKey (key : list byte) : list byte := secureKeyPrefix ++ key.

Definition Database_preimage (d : Database) (hash : Hash) : option (list byte) :=
  match d_preimages d !! hash with
  | Some p => Some p
  | None => Mem.Get (secureKey (hashBytes hash)) (d_diskdb d)
  end.

(** ** Inserting *)

Abbreviation DBM := (M Database).

(** A field of [db.nodes\[h\]]; a missing entry is a nil pointer. *)
Definition updNode (h : Hash) (f : cachedNode -> cachedNode) : DBM unit :=
  let* d := get in
  let* n := must (d_nodes d !! h) in
  put (set_nodes (<[h := f n]> (d_nodes d)) d).

(** The same where a missing entry is passed over. *)
Definition updIfPresent (h : Hash) (f : cachedNode -> cachedNode) : DBM unit :=
  modify (fun d => set_nodes (alter f h (d_nodes d)) d).

Fixpoint forEach {A} (f : A -> DBM unit) (l : list A) : DBM unit :=
  match l with [] => ret tt | a :: l => f a ;; forEach f l end.

(** The size of the entry is added in 16 bits, and taken off again in [int]. *)
Definition insert_entry (hash : Hash) (blob : list byte) (r : rnode) : DBM unit :=
  let* d := get in
  match d_nodes d !! hash with
  | Some _ => ret tt
  | None =>
      let entry := mkCached r (u16 (zlen blob)) 0 ∅ (d_newest d) 0 in
      forEach (fun child => updIfPresent child (fun c => set_parents (u16 (cn_parents c + 1)) c))
        (childs entry) ;;
      modify (fun d => set_nodes (<[hash := entry]> (d_nodes d)) d) ;;
      let* d := get in
      (if d_oldest d =? 0 then put (set_oldest hash (set_newest hash d))
       else
         updNode (d_newest d) (set_flushNext hash) ;;
         modify (set_newest hash)) ;;
      modify (fun d => set_nodesSize (d_nodesSize d + u16 (32 + cn_size entry)) d)
  end.

Definition Database_insert (hash : Hash) (blob : list byte) (n : node) : DBM unit :=
  let* d := get in
  match d_nodes d !! hash with
  | Some _ => ret tt
  | None => let* r := must (simplifyNode n) in insert_entry hash blob r
  end.

Definition InsertBlob (hash : Hash) (blob : list byte) : DBM unit :=
  insert_entry hash blob (rawNode blob).

Definition insertPreimage (hash : Hash) (preimage : list byte) : DBM unit :=
  let* d := get in
  match d_preimages d !! hash with
  | Some _ => ret tt
  | None =>
      put (set_preimages (<[hash := preimage]> (d_preimages d))
             (d_preimagesSize d + (32 + zlen preimage)) d)
  end.

(** ** References *)

Definition childCount (child : Hash) (c : cachedNode) : Z :=
  match cn_children c !! child with Some n => n | None => 0 end.

Definition Reference (child parent : Hash) : DBM unit :=
  let* d := get in
  match d_nodes d !! child with
  | None => ret tt
  | Some _ =>
      let* p := must (d_nodes d !! parent) in
      if bool_decide (is_Some (cn_children p !! child)) && negb (parent =? 0) then ret tt
      else
        updNode child (fun c => set_parents (u16 (cn_parents c + 1)) c) ;;
        updNode parent (fun p =>
          set_children (<[child := u16 (childCount child p + 1)]> (cn_children p)) p)
  end.

(** Taking a node out of the flush-list. *)
Definition unlink (hash : Hash) (node : cachedNode) : DBM unit :=
  let* d := get in
  if hash =? d_oldest d then put (set_oldest (cn_flushNext node) d)
  else
    updNode (cn_flushPrev node) (set_flushNext (cn_flushNext node)) ;;
    updNode (cn_flushNext node) (set_flushPrev (cn_flushPrev node)).

Definition remove (hash : Hash) (node : cachedNode) : DBM unit :=
  modify (fun d => set_nodesSize (d_nodesSize d - (32 + cn_size node))
                     (set_nodes (base.delete hash (d_nodes d)) d)).

(** The recursion follows references; the fuel bounds its depth. *)
Fixpoint dereference (fuel : nat) (child parent : Hash) : DBM unit :=
  match fuel with
  | O => fun _ => OutOfFuel
  | S fuel =>
      let* d := get in
      let* p := must (d_nodes d !! parent) in
      (if childCount child p >? 0 then
         let n := childCount child p - 1 in
         updNode parent (set_children
           (if n =? 0 then base.delete child (cn_children p) else <[child := n]> (cn_children p)))
       else ret tt) ;;
      let* d := get in
      match d_nodes d !! child with
      | None => ret tt
      | Some node =>
          let parents := if cn_parents node >? 0 then cn_parents node - 1 else cn_parents node in
          updNode child (set_parents parents) ;;
          if parents =? 0 then
            unlink child node ;;
            forEach (fun hash => dereference fuel hash child) (childs node) ;;
            remove child node
          else ret tt
      end
  end.

Definition depth : DBM nat := gets (fun d => S (S (size (d_nodes d)))).

Definition Dereference (root : Hash) : DBM unit :=
  let* n := depth in dereference n root 0.

(** ** Writing to disk *)

(** The operations that write keep the batch beside the database. *)
Definition putBatch (key value : list byte) (ideal : bool) (b : Mem.batch) : DBM Mem.batch :=
  let b := Mem.batch_Put key value b in
  if ideal then
    modify (fun d => set_disk (Mem.batch_Write b (d_diskdb d)) d) ;;
    ret (Mem.batch_Reset b)
  else ret b.

(** [batch.ValueSize() > IdealBatchSize] after a preimage, [>=] after a node. *)
Definition overIdeal (strict : bool) (value : list byte) (b : Mem.batch) : bool :=
  let size := Mem.batch_ValueSize b + zlen value in
  if strict then size >? Mem.IdealBatchSize else size >=? Mem.IdealBatchSize.

Fixpoint putPreimages (l : list (Hash * list byte)) (b : Mem.batch) : DBM Mem.batch :=
  match l with
  | [] => ret b
  | (hash, p) :: l =>
      let* b := putBatch (secureKey (hashBytes hash)) p (overIdeal true p b) b in
      putPreimages l b
  end.

Fixpoint commit (fuel : nat) (hash : Hash) (b : Mem.batch) : DBM Mem.batch :=
  match fuel with
  | O => fun _ => OutOfFuel
  | S fuel =>
      let* d := get in
      match d_nodes d !! hash with
      | None => ret b
      | Some node =>
          let* b :=
            (fix all (l : list Hash) (b : Mem.batch) : DBM Mem.batch :=
               match l with
               | [] => ret b
               | child :: l => let* b := commit fuel child b in all l b
               end) (childs node) b in
          let* enc := must (cached_rlp node) in
          putBatch (hashBytes hash) enc (overIdeal false enc b) b
      end
  end.

Fixpoint uncache (fuel : nat) (hash : Hash) : DBM unit :=
  match fuel with
  | O => fun _ => OutOfFuel
  | S fuel =>
      let* d := get in
      match d_nodes d !! hash with
      | None => ret tt
      | Some node =>
          unlink hash node ;;
          forEach (uncache fuel) (childs node) ;;
          remove hash node
      end
  end.

Definition writeBatch (b : Mem.batch) : DBM unit :=
  modify (fun d => set_disk (Mem.batch_Write b (d_diskdb d)) d).

Definition Commit (node : Hash) : DBM unit :=
  let* d := get in
  let* n := depth in
  let* b := putPreimages (map_to_list (d_preimages d)) Mem.NewBatch in
  let* b := commit n node b in
  writeBatch b ;;
  modify (set_preimages ∅ 0) ;;
  uncache n node.

(** The first loop of [Cap]: nodes from the front of the flush-list until the
    size is below the limit; returns the new front. *)
Fixpoint capWrite (fuel : nat) (size limit : Z) (oldest : Hash) (b : Mem.batch) :
    DBM (Hash * Mem.batch) :=
  match fuel with
  | O => fun _ => OutOfFuel
  | S fuel =>
      if (size >? limit) && negb (oldest =? 0) then
        let* d := get in
        let* node := must (d_nodes d !! oldest) in
        let* enc := must (cached_rlp node) in
        let* b := putBatch (hashBytes oldest) enc (overIdeal false enc b) b in
        capWrite fuel (size - (3 * 32 + cn_size node)) limit (cn_flushNext node) b
      else ret (oldest, b)
  end.

(** The second loop: dropping what was written. *)
Fixpoint capDrop (fuel : nat) (oldest : Hash) : DBM unit :=
  match fuel with
  | O => fun _ => OutOfFuel
  | S fuel =>
      let* d := get in
      if d_oldest d =? oldest then ret tt
      else
        let* node := must (d_nodes d !! d_oldest d) in
        put (set_nodesSize (d_nodesSize d - (32 + cn_size node))
               (set_oldest (cn_flushNext node)
                  (set_nodes (base.delete (d_oldest d) (d_nodes d)) d))) ;;
        capDrop fuel oldest
  end.

Definition Cap (limit : Z) : DBM unit :=
  let* d := get in
  let* n := depth in
  let size := d_nodesSize d + (Z.of_nat (base.size (d_nodes d)) - 1) * 2 * 32 in
  let flushPreimages := d_preimagesSize d >? 4 * 1024 * 1024 in
  let* b := if flushPreimages then putPreimages (map_to_list (d_preimages d)) Mem.NewBatch
            else ret Mem.NewBatch in
  let* '(oldest, b) := capWrite n size limit (d_oldest d) b in
  writeBatch b ;;
  (if flushPreimages then modify (set_preimages ∅ 0) else ret tt) ;;
  capDrop n oldest ;;
  let* d := get in
  if negb (d_oldest d =? 0) then updNode (d_oldest d) (set_flushPrev 0) else ret tt.

(** ** Examples *)

Definition leafNode (v : byte) : node := shortNode [x20] (valueNode [v]) (mkFlag None 0 true).

Definition three (d : Database) : outcome (unit * Database) :=
  (Database_insert 1 [x00] (leafNode x01) ;;
   Database_insert 2 [x00] (leafNode x02) ;;
   Reference 1 0 ;; Reference 2 0 ;;
   Dereference 1 ;;
   Database_insert 3 [x00] (leafNode x03)) d.

(** Collecting the oldest node leaves the cache usable ... *)
Example collect_oldest :
  match three (NewDatabase ∅) with
  | Ret (_, d) => bool_decide (d_oldest d = 2 /\ d_newest d = 3)
  | _ => false
  end = true.
Proof. vm_compute. reflexivity. Qed.
