(* ===== verification/TrieHasher.v ===== *)
(** * trie/hasher.go: collapsing a trie to its root hash

    [hash] replaces the children of a node by their hashes where their
    encoding has 32 bytes or more, and returns the collapsed node and the node
    with the computed hashes cached in its flags.  With a database (a commit)
    it also stores the collapsed nodes and may drop clean old nodes from
    memory.  The Keccak sponge of [crypto/sha3] is a parameter. *)

From Stdlib Require Import ZArith Lia Bool.
From S2P Require Import Prelude GoMath Rlp TrieEncoding Trie TrieNode TrieDatabase.
Local Open Scope Z_scope.
Local Open Scope go_scope.

(** The hash function of the trie. *)
Class Sha3 := {
  keccak256 : list byte -> list byte;
  keccak256_length : forall b, length (keccak256 b) = 32%nat
}.

Section hasher.
Context {K : Sha3}.
(** The fields of [hasher]; [tmp] and [sha] are scratch. *)
Variables (cachegen cachelimit : Z).
Variable onleaf : option (list byte -> Hash -> Database -> Database).

(** The database, or nil. *)
Abbreviation HM := (M (option Database)).

Definition inDatabase (m : M Database unit) : HM unit := fun o =>
  match o with
  | None => Ret (tt, None)
  | Some d =>
      match m d with
      | Ret (_, d) => Ret (tt, Some d)
      | Panic => Panic
      | OutOfFuel => OutOfFuel
      end
  end.

Definition makeHashNode (data : list byte) : list byte := keccak256 data.

(** The calls of [onleaf]; its result is dropped. *)
Definition leafCalls (n : node) (hash : Hash) (d : Database) : Database :=
  match onleaf with
  | None => d
  | Some f =>
      match n with
      | shortNode _ (valueNode v) _ => f v hash d
      | fullNode cs _ =>
          fold_left (fun d c => match c with valueNode v => f v hash d | _ => d end) (take 16 cs) d
      | _ => d
      end
  end.

Definition store (n : node) (force : bool) : HM node :=
  if isNil n || isHash n then ret n
  else
    let* tmp := must (encodeNode n) in
    if (zlen tmp <? 32) && negb force then ret n
    else
      let hash := match (cache n).1 with Some h => h | None => makeHashNode tmp end in
      inDatabase (Database_insert (BytesToHash hash) tmp n ;;
                  modify (leafCalls n (BytesToHash hash))) ;;
      ret (hashNode hash).

(** Setting the cached hash, and the node clean in a commit. *)
Definition cacheHash (hashed : node) (commit : bool) (cached : node) : node :=
  let h := match hashed with hashNode h => Some h | _ => None end in
  let upd fl := mkFlag h (nf_gen fl) (if commit then false else nf_dirty fl) in
  match cached with
  | shortNode k v fl => shortNode k v (upd fl)
  | fullNode cs fl => fullNode cs (upd fl)
  | n => n
  end.

(** The cases in which the cached hash is used. *)
Definition useCache (n : node) (commit : bool) : option (node * node) :=
  let '(hash, dirty) := cache n in
  match hash with
  | None => None
  | Some h =>
      if negb commit then Some (hashNode h, n)
      else if canUnload n cachegen cachelimit then Some (hashNode h, hashNode h)
      else if negb dirty then Some (hashNode h, n)
      else None
  end.

(** The loop of [hashChildren] over the first sixteen children. *)
Definition hashKids (hashf : node -> HM (node * node)) : nat -> list node -> HM (list node * list node) :=
  fix go (i : nat) (cs : list node) : HM (list node * list node) :=
    match cs with
    | [] => ret ([], [])
    | c :: cs =>
        let* '(c1, c2) := if (i <? 16)%nat && negb (isNil c) then hashf c else ret (c, c) in
        let* '(cs1, cs2) := go (S i) cs in
        ret (c1 :: cs1, c2 :: cs2)
    end.

(** [hashChildren], given [hash]. *)
Definition hashChildren (hashf : node -> HM (node * node)) (n : node) : HM (node * node) :=
  match n with
  | shortNode k v fl =>
      let* ck := must (hexToCompact k) in
      let* '(v1, v2) := match v with valueNode _ => ret (v, v) | _ => hashf v end in
      ret (shortNode ck v1 fl, shortNode k v2 fl)
  | fullNode cs fl =>
      let* '(cs1, cs2) := hashKids hashf 0 cs in
      ret (fullNode cs1 fl, fullNode cs2 fl)
  | _ => ret (n, n)
  end.

(** [hash]: the collapsed node and the cached one.  A method call on nil
    panics. *)
Fixpoint hash (n : node) (force : bool) {struct n} : HM (node * node) :=
  let* db := get in
  let commit := bool_decide (is_Some db) in
  if isNil n then panic
  else
    match useCache n commit with
    | Some r => ret r
    | None =>
        let* '(collapsed, cached) := hashChildren (fun c => hash c false) n in
        let* hashed := store collapsed force in
        ret (hashed, cacheHash hashed commit cached)
    end.
End hasher.

(** ** trie.go: Hash and Commit *)

Section root.
Context {K : Sha3}.

Definition hashRoot (t : Trie) onleaf : M (option Database) (node * node) :=
  match t_root t with
  | NilNode => ret (hashNode (be_bytes 32 emptyRoot), NilNode)
  | n => hash (t_cachegen t) (t_cachelimit t) onleaf n true
  end.

(** The conversion [hash.(hashNode)] panics on other nodes. *)
Definition rootHash (n : node) : option Hash :=
  match n with hashNode h => Some (BytesToHash h) | _ => None end.

Definition Hash_ (t : Trie) : outcome (Hash * Trie) :=
  match hashRoot t None None with
  | Ret ((h, cached), _) =>
      match rootHash h with Some h => Ret (h, set_root cached t) | None => Panic end
  | Panic => Panic
  | OutOfFuel => OutOfFuel
  end.

Definition Trie_Commit (t : Trie) onleaf (d : Database) : outcome (Hash * Trie * Database) :=
  match hashRoot t onleaf (Some d) with
  | Ret ((h, cached), Some d) =>
      match rootHash h with
      | Some h =>
          Ret (h, mkTrie cached (t_originalRoot t) (u16 (t_cachegen t + 1)) (t_cachelimit t), d)
      | None => Panic
      end
  | Ret (_, None) => Panic
  | Panic => Panic
  | OutOfFuel => OutOfFuel
  end.
End root.
