(* ===== verification/TrieHashSpec.v ===== *)
(** * The root hash as a function of the entries

    [pcol t] is the collapsed node of a canonical tree, and [H t] the hash of
    its encoding.  The hasher computes it whatever is cached or still on disk. *)

From Stdlib Require Import ZArith Lia Bool.
From S2P Require Import Prelude GoMath Rlp RlpStreamSpec TrieEncoding Trie TrieSpec TrieUpdate.
From S2P Require Import TrieNode TrieDatabase TrieHasher.
Local Open Scope Z_scope.

Section spec.
Context {K : Sha3}.

(** ** Collapsed trees *)

Definition compact (k : list byte) : list byte :=
  match hexToCompact k with Some c => c | None => [] end.

Definition noFlag : nodeFlag := mkFlag None 0 false.

(** A node, or its hash where its encoding has 32 bytes or more. *)
Definition squash (n : node) : node :=
  match n with
  | shortNode _ _ _ | fullNode _ _ =>
      if zlen (rlp (nodeItem n)) <? 32 then n else hashNode (keccak256 (rlp (nodeItem n)))
  | _ => n
  end.

Fixpoint pcol (t : ptree) : node :=
  match t with
  | PNil => NilNode
  | PVal v => valueNode v
  | PShort k c => shortNode (compact k) (squash (pcol c)) noFlag
  | PFull cs => fullNode (map (fun c => squash (pcol c)) cs) noFlag
  end.

Definition pref (t : ptree) : node := squash (pcol t).
Definition enc_of (t : ptree) : list byte := rlp (nodeItem (pcol t)).
Definition H (t : ptree) : list byte := keccak256 (enc_of t).
Definition key_of_hash (t : ptree) : Hash := BytesToHash (H t).

(** The root hash of the tree. *)
Definition rootOf (t : ptree) : Hash :=
  match t with PNil => emptyRoot | _ => key_of_hash t end.

Definition isNode (t : ptree) : Prop :=
  match t with PShort _ _ | PFull _ => True | _ => False end.

Lemma canon_isNode t : canon t -> isNode t.
Proof. by intros []. Qed.

Definition large (t : ptree) : bool := 32 <=? zlen (enc_of t).

Lemma pref_node t : isNode t -> pref t = if large t then hashNode (H t) else pcol t.
Proof.
  intros Ht. unfold pref, squash, large, H, enc_of. rewrite Z.leb_antisym.
  destruct t; try done; cbn [pcol]; by destruct (_ <? _).
Qed.

Lemma H_length t : length (H t) = 32%nat.
Proof. apply keccak256_length. Qed.

Lemma hashBytes_key t : hashBytes (key_of_hash t) = H t.
Proof.
  unfold hashBytes, key_of_hash, BytesToHash. pose proof (SetBytes_range (H t)) as Hr.
  unfold zlen in Hr. rewrite H_length in Hr. change (256 ^ Z.of_nat 32) with (2 ^ 256) in Hr.
  rewrite Z.mod_small by lia. rewrite <- (H_length t). apply be_bytes_SetBytes.
Qed.

(** ** Subtrees *)

Inductive sub : ptree -> ptree -> Prop :=
| sub_refl t : sub t t
| sub_short u k c : sub u c -> sub u (PShort k c)
| sub_full u i c cs : cs !! i = Some c -> sub u c -> sub u (PFull cs).

Lemma sub_trans a b c : sub a b -> sub b c -> sub a c.
Proof.
  intros Hab Hbc. revert Hab. induction Hbc; intros Hab; [done|apply sub_short; auto|].
  eapply sub_full; [done|auto].
Qed.

Lemma sub_atom u t : sub u t -> ~ isNode t -> ~ isNode u.
Proof. by intros []. Qed.

Lemma canon_sub u t : sub u t -> canon t -> isNode u -> canon u.
Proof.
  induction 1 as [t|u k c Hs IH|u i c cs Ec Hs IH]; intros Hc Hu; [done|..].
  - inversion Hc; subst; [exfalso; apply (sub_atom _ _ Hs); [by intros []|done]|by apply IH].
  - inversion Hc as [| |? Hl Hn Hv _]; subst.
    assert (i < 17)%nat by (rewrite <- Hl; by eapply lookup_lt_Some).
    destruct (pnil_dec c) as [->|Hne]; [exfalso; apply (sub_atom _ _ Hs); [by intros []|done]|].
    destruct (decide (i = 16%nat)) as [->|].
    + destruct (Hv c Ec Hne) as (v & -> & _). exfalso; apply (sub_atom _ _ Hs); [by intros []|done].
    + apply IH; [|done]. apply (Hn i); [lia|done..].
Qed.

Definition bounded (t : ptree) : Prop := forall u, sub u t -> zlen (enc_of u) < 2 ^ 60.

Lemma bounded_sub u t : sub u t -> bounded t -> bounded u.
Proof. intros Hs Hb w Hw. apply Hb. by eapply sub_trans. Qed.

(** ** The collapsed node is one the database can load *)

Lemma key_of_leaf ns : ns ++ [x10] = key_of true ns.
Proof. done. Qed.

Lemma compact_hexkey k : hexkey k -> hexToCompact k = Some (compact k) /\ compactToHex (compact k) = Some k /\ hasTerm k = true.
Proof.
  intros (ns & -> & Hn). destruct (compact_round_trip true ns Hn) as (c & E & E'). cbn [key_of] in *.
  unfold compact. rewrite E. split; [done|]. split; [done|]. apply hasTerm_app.
Qed.

Lemma compact_nibbles k : nibbles k -> hexToCompact k = Some (compact k) /\ compactToHex (compact k) = Some k /\ hasTerm k = false.
Proof.
  intros Hn. destruct (compact_round_trip false k Hn) as (c & E & E'). cbn [key_of] in *.
  unfold compact. rewrite E. split; [done|]. split; [done|]. by apply hasTerm_nibbles.
Qed.

Lemma pref_ref t : canon t -> collapsed (pcol t) ->
  (isHash (pref t) = false -> collapsed (pref t)) /\ refSize (pref t) /\ pref t <> NilNode.
Proof.
  intros Hc Hcol. rewrite pref_node by (by apply canon_isNode). unfold large, enc_of.
  destruct (32 <=? _) eqn:E; zbool.
  - split; [done|]. split; [|done]. cbn [refSize]. unfold zlen. by rewrite H_length.
  - split; [done|]. split; [by destruct t|]. by apply collapsed_not_nil.
Qed.

Lemma pref_nil c : c <> PNil -> pref c <> NilNode.
Proof. destruct c; try done; intros _; unfold pref; cbn [pcol squash]; by split_if. Qed.

Lemma pcol_collapsed t : canon t -> collapsed (pcol t).
Proof.
  induction 1 as [k v Hk Hv|k cs Hne Hk Hcs IH|cs Hl Hn IH Hv Hex]; cbn [pcol].
  - destruct (compact_hexkey k Hk) as (_ & E & Ht). by eapply col_leaf.
  - destruct (compact_nibbles k Hk) as (_ & E & Ht). destruct (pref_ref _ Hcs IH) as (P1 & P2 & P3).
    by eapply col_ext.
  - apply col_full.
    + by rewrite length_map.
    + intros i c Hi E Hc Hh. rewrite list_lookup_fmap in E. destruct (cs !! i) as [t|] eqn:Et; [|done].
      injection E as <-. destruct (pnil_dec t) as [->|Ht]; [done|].
      by apply (pref_ref t (Hn i t Hi Et Ht) (IH i t Hi Et Ht)).
    + intros i c Hi E Hc. rewrite list_lookup_fmap in E. destruct (cs !! i) as [t|] eqn:Et; [|done].
      injection E as <-. destruct (pnil_dec t) as [->|Ht]; [done|].
      by apply (pref_ref t (Hn i t Hi Et Ht) (IH i t Hi Et Ht)).
    + intros c E Hc. rewrite list_lookup_fmap in E. destruct (cs !! 16%nat) as [t|] eqn:Et; [|done].
      injection E as <-. destruct (pnil_dec t) as [->|Ht]; [done|].
      destruct (Hv t eq_refl Ht) as (v & -> & Hne). by exists v.
Qed.

(** ** Nodes in a database *)

(** The database holds the collapsed node of [t] under its hash. *)
Definition entry (d : Database) (t : ptree) : Prop :=
  match d_nodes d !! key_of_hash t with
  | Some cn => cn_node cn = simplifyC (pcol t) \/ cn_node cn = rawNode (enc_of t)
  | None => d_diskdb d !! H t = Some (enc_of t)
  end.

(** It holds [t] and everything below it that is not embedded. *)
Definition stored (d : Database) (t : ptree) : Prop :=
  isNode t /\ forall u, sub u t -> isNode u -> u = t \/ large u = true -> entry d u.

Lemma simplifyC_not_raw n b : simplifyC n <> rawNode b.
Proof. by destruct n. Qed.

(** Loading it gives the node back, clean and with its hash. *)
Lemma entry_load d t gen :
  canon t -> zlen (enc_of t) < 2 ^ 60 -> entry d t ->
  Database_node d (key_of_hash t) gen = Ret (expandC (Some (H t)) gen (pcol t)).
Proof.
  intros Hc Hz He. unfold entry, Database_node in *. rewrite hashBytes_key.
  pose proof (pcol_collapsed t Hc) as Hcol.
  assert (mustDecodeNode (H t) (enc_of t) gen = Ret (expandC (Some (H t)) gen (pcol t))) as Hdec.
  { unfold mustDecodeNode, decodeNode.
    rewrite <- (app_nil_r (enc_of t)) at 2. unfold enc_of in *.
    rewrite decode_collapsed; [done|done|lia|]. change (zlen (@nil byte)) with 0. lia. }
  destruct (d_nodes d !! key_of_hash t) as [cn|].
  - unfold cached_obj. destruct He as [->| ->]; [|done].
    destruct (simplifyC (pcol t)) eqn:E; try (by rewrite <- E, expand_collapsed).
    by apply simplifyC_not_raw in E.
  - unfold Mem.Get. by rewrite He.
Qed.

(** ** Nodes in memory *)

(** [A] tells which trees the database holds. *)
Variable A : ptree -> Prop.

(** The cached hash of a node is right, below the root only large nodes have
    one; clean nodes are in the database, or embedded in their parent. *)
#[refine] Definition hashInv : FlagInv :=
  {| fl_ok b t fl :=
       (forall h, nf_hash fl = Some h -> h = H t /\ (b = false -> large t = true)) /\
       (nf_dirty fl = false ->
          (nf_hash fl <> None /\ A t) \/ (b = false /\ nf_hash fl = None /\ large t = false));
     hn_ok b h t := h = H t /\ (b = false -> large t = true) /\ A t /\ isNode t |}.
Proof. all: done. Defined.

(** The node stands for the tree; hash nodes are taken on trust. *)
Inductive held : bool -> node -> ptree -> Prop :=
| held_nil b : held b NilNode PNil
| held_val b v : held b (valueNode v) (PVal v)
| held_short b k c t fl :
    held false c t -> fl_ok (FlagInv := hashInv) b (PShort k t) fl -> held b (shortNode k c fl) (PShort k t)
| held_full b cs ts fl :
    length cs = length ts ->
    (forall i c t, cs !! i = Some c -> ts !! i = Some t -> held false c t) ->
    fl_ok (FlagInv := hashInv) b (PFull ts) fl ->
    held b (fullNode cs fl) (PFull ts)
| held_hash b h t : hn_ok (FlagInv := hashInv) b h t -> held b (hashNode h) t.

Lemma held_PNil b n : held b n PNil -> n = NilNode.
Proof.
  intros Hh. inversion Hh as [| | | |? ? ? Hn]; subst; [done|]. by destruct Hn as (_ & _ & _ & []).
Qed.

Lemma held_PVal b n v : held b n (PVal v) -> n = valueNode v.
Proof.
  intros Hh. inversion Hh as [| | | |? ? ? Hn]; subst; [done|]. by destruct Hn as (_ & _ & _ & []).
Qed.

Lemma expands_held (R : NodeReader) b n t : expands (F := hashInv) b n t -> held b n t.
Proof. induction 1; by constructor. Qed.
End spec.

Section load.
Context {K : Sha3}.

Lemma held_mono (A A' : ptree -> Prop) b n t :
  held A b n t -> (forall u, sub u t -> A u -> A' u) -> held A' b n t.
Proof.
  assert (forall b t fl, (A t -> A' t) -> fl_ok (FlagInv := hashInv A) b t fl ->
    fl_ok (FlagInv := hashInv A') b t fl) as Hfl.
  { intros b' t' fl HA [H1 H2]. split; [done|]. intros Hd. destruct (H2 Hd) as [[? ?]|?]; [left|by right]. auto. }
  induction 1 as [| |b k c t fl Hc IH Hf|b cs ts fl Hl Hc IH Hf|b h t (E & Hs & Ha & Ht)]; intros HA.
  - constructor.
  - constructor.
  - constructor.
    + apply IH. intros u Hu. apply HA. by constructor.
    + apply Hfl; [|done]. apply HA. constructor.
  - constructor; [done| |].
    + intros i c t Ec Et. apply (IH i c t Ec Et). intros u Hu. apply HA. by eapply sub_full.
    + apply Hfl; [|done]. apply HA. constructor.
  - constructor. split; [done|]. split; [done|]. split; [|done]. apply HA; [constructor|done].
Qed.

Variable d : Database.
Abbreviation A := (stored d).

#[local] Instance rd : NodeReader := reader d.
#[local] Instance fi : FlagInv := hashInv A.

(** Everything below [t] that is not embedded is in the database. *)
Definition below (t : ptree) : Prop := forall u, sub u t -> isNode u -> large u = true -> entry d u.

Lemma below_sub u t : sub u t -> below t -> below u.
Proof. intros Hs Hb w Hw. apply Hb. by eapply sub_trans. Qed.

Lemma stored_below t : stored d t -> below t.
Proof. intros [_ Hs] u Hu Hn Hl. apply Hs; auto. Qed.

Lemma below_stored t : below t -> isNode t -> large t = true -> stored d t.
Proof. intros Hb Hn Hl. split; [done|]. intros u Hu Hun [->|Hlu]; by apply Hb. Qed.

Lemma stored_entry t : stored d t -> entry d t.
Proof. intros [Hn Hs]. apply Hs; [constructor|done|by left]. Qed.

Definition loads (t : ptree) : Prop :=
  forall b hash g, fl_ok b t (mkFlag hash g false) -> expands b (expandC hash g (pcol t)) t.

Lemma hash_expands b t :
  canon t -> zlen (enc_of t) < 2 ^ 60 -> stored d t -> (b = false -> large t = true) -> loads t ->
  expands b (hashNode (H t)) t.
Proof.
  intros Hc Hz Hs Hb Hl. apply (ex_hash _ _ (fun g => expandC (Some (H t)) g (pcol t))).
  - intros g. by apply entry_load, stored_entry.
  - intros g. by destruct Hc.
  - intros g. apply Hl. split; [by intros h [= <-]|]. intros _. left. done.
  - split; [done|]. split; [done|]. split; [done|]. by apply canon_isNode.
Qed.

Lemma pref_expands t g :
  canon t -> zlen (enc_of t) < 2 ^ 60 -> below t -> loads t -> expands false (expandC None g (pref t)) t.
Proof.
  intros Hc Hz Hb Hl. pose proof (canon_isNode t Hc) as Hn. rewrite pref_node by done.
  destruct (large t) eqn:E.
  - cbn [expandC]. apply hash_expands; auto. by apply below_stored.
  - apply Hl. split; [done|]. intros _. by right.
Qed.

Lemma canon_loads t : canon t -> bounded t -> below t -> loads t.
Proof.
  induction 1 as [k v Hk Hv|k cs Hne Hk Hcs IH|cs Hl Hn IH Hv Hex]; intros Hbd Hb b hash g Hf;
    cbn [pcol expandC].
  - destruct (compact_hexkey k Hk) as (_ & -> & _). constructor; [constructor|done].
  - destruct (compact_nibbles k Hk) as (_ & -> & _). constructor; [|done].
    assert (sub (PFull cs) (PShort k (PFull cs))) as Hsub by (constructor; constructor).
    apply (pref_expands (PFull cs) g); [done|by apply Hbd|by eapply below_sub|].
    apply IH; [by eapply bounded_sub|by eapply below_sub].
  - constructor; [by rewrite !length_map| |done]. intros i c t Ec Et.
    rewrite !list_lookup_fmap, Et in Ec. injection Ec as <-.
    assert (sub t (PFull cs)) as Hsub by (eapply sub_full; [done|constructor]).
    destruct (pnil_dec t) as [->|Ht]; [constructor|].
    assert (i < 17)%nat by (rewrite <- Hl; by eapply lookup_lt_Some).
    destruct (decide (i = 16%nat)) as [->|].
    + destruct (Hv t Et Ht) as (v & -> & _). constructor.
    + apply (pref_expands t g); [apply (Hn i); [lia|done..]|by apply Hbd|by eapply below_sub|].
      apply (IH i); [lia|done|done|by eapply bounded_sub|by eapply below_sub].
Qed.

Lemma stored_expands b t :
  canon t -> bounded t -> stored d t -> (b = false -> large t = true) -> expands b (hashNode (H t)) t.
Proof.
  intros Hc Hbd Hs Hb. apply hash_expands; [done|apply Hbd; constructor|done|done|].
  apply canon_loads; [done|done|by apply stored_below].
Qed.

(** What is held can be loaded. *)
Lemma held_expands b n t : held A b n t -> canon0 t \/ (exists v, t = PVal v) -> bounded t -> expands b n t.
Proof.
  induction 1 as [| |b k c t fl Hc IH Hf|b cs ts fl Hl Hc IH Hf|b h t (-> & Hs & Ha & Ht)]; intros Hcan Hbd.
  - constructor.
  - constructor.
  - constructor; [|done]. apply IH; [|eapply bounded_sub; [|done]; constructor; constructor].
    destruct Hcan as [[|Hcan]|(v & ?)]; [done| |done]. inversion Hcan; subst; [right; by eexists|left; by right].
  - constructor; [done| |done]. intros i c t Ec Et. apply (IH i c t Ec Et).
    + destruct Hcan as [[|Hcan]|(v & ?)]; [done| |done]. inversion Hcan as [| |? Hl17 Hn Hv _]; subst.
      destruct (pnil_dec t) as [->|Hne]; [left; by left|].
      assert (i < 17)%nat by (rewrite <- Hl17; by eapply lookup_lt_Some).
      destruct (decide (i = 16%nat)) as [->|].
      * destruct (Hv t Et Hne) as (v & -> & _). right. by eexists.
      * left. right. apply (Hn i); [lia|done..].
    + eapply bounded_sub; [|done]. eapply sub_full; [done|constructor].
  - destruct Hcan as [[->|Hcan]|(v & ->)]; [done| |done]. by apply stored_expands.
Qed.
End load.
