(* ===== verification/TrieHashOk.v ===== *)
(** * The hasher computes the root hash

    Under a bound on the sizes of the entries, every node fits the cache, and
    [hash] and [Commit] return the root that [TrieHashSpec] defines. *)

From Stdlib Require Import ZArith Lia Bool.
From S2P Require Import Prelude GoMath Rlp RlpStreamSpec TrieEncoding Trie TrieSpec TrieUpdate TrieNode TrieDatabase TrieHasher TrieHashSpec.
Local Open Scope Z_scope.
Local Open Scope go_scope.

(** ** The size of collapsed nodes

    A node refers to its children by at most 32 bytes, so that the encodings
    are small whenever the keys and values are. *)

Lemma zlen_head_le small large n : 0 <= n < 2 ^ 64 -> zlen (rlp_head small large n) <= 9.
Proof.
  intros Hn. rewrite zlen_rlp_head by done. unfold headsize. split_if; [lia|].
  rewrite intsize_Bytes by lia. destruct (Bytes_head n ltac:(lia)) as (_ & _ & _ & _ & _ & ?). lia.
Qed.

Lemma zlen_rlp_Str b : zlen b < 2 ^ 64 -> zlen (rlp (Str b)) <= 9 + zlen b.
Proof.
  intros Hb. pose proof (zlen_nonneg b). cbn [rlp]. unfold rlp_string.
  assert (zlen (rlp_head 0x80 0xB7 (zlen b) ++ b) <= 9 + zlen b).
  { rewrite zlen_app. pose proof (zlen_head_le 0x80 0xB7 (zlen b)). lia. }
  destruct b as [|x [|]]; try done. split_if; [change (zlen [x]) with 1; lia|done].
Qed.

Lemma zlen_rlp_Lst l :
  zlen (concat (map rlp l)) < 2 ^ 64 -> zlen (rlp (Lst l)) <= 9 + zlen (concat (map rlp l)).
Proof.
  intros Hb. pose proof (zlen_nonneg (concat (map rlp l))). cbn [rlp]. unfold rlp_list.
  rewrite zlen_app. pose proof (zlen_head_le 0xC0 0xF7 (zlen (concat (map rlp l)))). lia.
Qed.

Lemma zlen_concat_le {A} (ls : list (list A)) b :
  Forall (fun l => zlen l <= b) ls -> zlen (concat ls) <= b * zlen ls.
Proof.
  induction 1 as [|l ls Hl _ IH]; [unfold zlen; cbn [concat length Z.of_nat]; lia|]. cbn [concat]. rewrite zlen_app, zlen_cons. lia.
Qed.

Lemma zlen_key_of leaf ns c :
  nibbles ns -> hexToCompact (key_of leaf ns) = Some c -> zlen c <= zlen (key_of leaf ns) + 1.
Proof.
  intros Hn E. destruct (hexToCompact_hexOf leaf ns Hn) as (c' & E' & Hc).
  assert (c' = c) as -> by congruence. pose proof (length_hexOf c) as Hl. rewrite Hc in Hl.
  assert (zlen ns <= zlen (key_of leaf ns)).
  { destruct leaf; cbn [key_of]; [rewrite zlen_app; change (zlen [x10]) with 1; lia|lia]. }
  unfold zlen in *. destruct (Nat.odd (length ns)); cbn [length] in Hl; lia.
Qed.

Section size.
Context {K : Sha3}.

Definition limit : Z := 2 ^ 40.

(** All entries are small. *)
Definition small (t : ptree) : Prop :=
  forall key v, hexkey key -> plookup t key = Some v -> zlen key < limit /\ zlen v < limit.

Lemma zlen_compact k : hexkey k \/ nibbles k -> zlen (compact k) <= zlen k + 1.
Proof.
  intros [Hk|Hk].
  - destruct (compact_hexkey k Hk) as (E & _). destruct Hk as (ns & -> & Hn).
    by apply (zlen_key_of true ns).
  - destruct (compact_nibbles k Hk) as (E & _). by apply (zlen_key_of false k).
Qed.

Lemma zlen_pref t : isNode t -> zlen (rlp (nodeItem (pref t))) <= 41.
Proof.
  intros Ht. rewrite pref_node by done. unfold large. destruct (32 <=? _) eqn:E; zbool.
  - cbn [nodeItem]. assert (zlen (H t) = 32) as Hz by (unfold zlen; by rewrite H_length).
    pose proof (zlen_rlp_Str (H t)). lia.
  - unfold enc_of in E. lia.
Qed.

Lemma refItem_node t : isNode t -> refItem (pref t) = nodeItem (pref t).
Proof. intros Ht. rewrite pref_node by done. destruct (large t); [done|]. by destruct t. Qed.

Lemma small_ext k c : nibbles k -> small (PShort k c) -> small c.
Proof.
  intros Hk Hs key v Hkey E. destruct (Hs (k ++ key) v) as [H1 H2].
  - by apply hexkey_app.
  - by rewrite plookup_short_app.
  - rewrite zlen_app in H1. pose proof (zlen_nonneg k). lia.
Qed.

Lemma small_child cs i c :
  (i < 16)%nat -> cs !! i = Some c -> small (PFull cs) -> small c.
Proof.
  intros Hi Ec Hs key v Hkey E. destruct (Hs (Zbyte (Z.of_nat i) :: key) v) as [H1 H2].
  - apply (hexkey_app [_]); [|done]. constructor; [by apply nibble_Zbyte|constructor].
  - rewrite plookup_full, bidx_Zbyte, Ec by lia. done.
  - rewrite zlen_cons in H1. lia.
Qed.

Lemma enc_leaf k v :
  hexkey k -> zlen k < limit -> zlen v < limit -> zlen (enc_of (PShort k (PVal v))) < 2 ^ 60.
Proof.
  unfold limit. intros Hk H1 H2. unfold enc_of. cbn [pcol squash nodeItem].
  pose proof (zlen_compact k (or_introl Hk)). pose proof (zlen_rlp_Str (compact k)).
  pose proof (zlen_rlp_Str v). pose proof (zlen_rlp_Lst [Str (compact k); Str v]) as Hl.
  cbn [map concat] in Hl. rewrite app_nil_r, zlen_app in Hl. lia.
Qed.

Lemma enc_ext k c :
  nibbles k -> isNode c -> zlen k < limit -> zlen (enc_of (PShort k c)) < 2 ^ 60.
Proof.
  unfold limit. intros Hk Hc H1. unfold enc_of. cbn [pcol nodeItem]. fold (pref c).
  pose proof (zlen_compact k (or_intror Hk)). pose proof (zlen_rlp_Str (compact k)).
  pose proof (zlen_pref c Hc). pose proof (zlen_rlp_Lst [Str (compact k); nodeItem (pref c)]) as Hl.
  cbn [map concat] in Hl. rewrite app_nil_r, zlen_app in Hl. lia.
Qed.

(** A child, by its place. *)
Lemma ref_child cs i c :
  canon (PFull cs) -> small (PFull cs) -> cs !! i = Some c ->
  zlen (rlp (refItem (pref c))) <= limit + 41.
Proof.
  intros Hc Hs Ec. unfold limit. destruct (pnil_dec c) as [->|Hne]; [change (zlen (rlp (refItem (pref PNil)))) with 1; lia|].
  apply canon_full_iff in Hc as (Hl & Hch & _). pose proof (Hch i c Ec Hne) as Hok.
  assert (i < 17)%nat by (rewrite <- Hl; by eapply lookup_lt_Some).
  destruct (Nat.ltb_spec i 16).
  - apply canon_isNode in Hok. rewrite refItem_node by done. pose proof (zlen_pref c Hok). lia.
  - destruct Hok as (v & -> & _). replace i with 16%nat in Ec by lia.
    destruct (Hs [x10] v) as [_ Hv]; [apply hexkey_term|by rewrite plookup_full, bidx_term, Ec|].
    unfold limit in Hv. change (refItem (pref (PVal v))) with (Str v).
    pose proof (zlen_rlp_Str v). lia.
Qed.

Lemma enc_full cs : canon (PFull cs) -> small (PFull cs) -> zlen (enc_of (PFull cs)) < 2 ^ 60.
Proof.
  intros Hc Hs. unfold enc_of. cbn [pcol]. rewrite nodeItem_full.
  assert (Forall (fun l => zlen l <= limit + 41) (map rlp (map refItem (map pref cs)))) as HF.
  { apply Forall_map, Forall_map, Forall_map, Forall_lookup. intros i c Ec. by eapply ref_child. }
  apply zlen_concat_le in HF. unfold limit in HF.
  assert (zlen (map rlp (map refItem (map pref cs))) = 17) as Hlen.
  { unfold zlen. rewrite !length_map. by apply canon_full_iff in Hc as [-> _]. }
  rewrite Hlen in HF. change (map (fun c => squash (pcol c)) cs) with (map pref cs).
  pose proof (zlen_rlp_Lst (map refItem (map pref cs))). lia.
Qed.

Lemma enc_val v : zlen v < limit -> zlen (enc_of (PVal v)) < 2 ^ 60.
Proof.
  unfold limit. intros Hv. unfold enc_of. cbn [pcol nodeItem]. pose proof (zlen_rlp_Str v). lia.
Qed.

Lemma small_bounded t : canon t -> small t -> bounded t.
Proof.
  induction 1 as [k v Hk Hv|k cs Hne Hk Hcs IH|cs Hl Hn IH Hv Hex]; intros Hs u Hu.
  - destruct (Hs k v Hk (plookup_leaf k v)) as [H1 H2].
    inversion Hu as [|? ? ? Hu'|]; subst; [by apply enc_leaf|]. inversion Hu'; subst. by apply enc_val.
  - inversion Hu as [|? ? ? Hu'|]; subst.
    + destruct (canon_entry _ Hcs) as (key & v & Hkey & E).
      destruct (Hs (k ++ key) v) as [H1 _]; [by apply hexkey_app|by rewrite plookup_short_app|].
      rewrite zlen_app in H1. pose proof (zlen_nonneg key). apply enc_ext; [done|done|lia].
    + apply IH; [|done]. by apply (small_ext k).
  - assert (canon (PFull cs)) as Hc by (by constructor).
    inversion Hu as [|?|? i c ? Ec Hu']; subst; [by apply enc_full|].
    destruct (pnil_dec c) as [->|Hne]; [inversion Hu'; subst; done|].
    assert (i < 17)%nat by (rewrite <- Hl; by eapply lookup_lt_Some).
    destruct (decide (i = 16%nat)) as [->|].
    + destruct (Hv c Ec Hne) as (v & -> & _). inversion Hu'; subst.
      destruct (Hs [x10] v) as [_ Hvl]; [apply hexkey_term|by rewrite plookup_full, bidx_term, Ec|].
      by apply enc_val.
    + apply (IH i c); [lia|done|done| |done]. apply (small_child cs i); [lia|done|done].
Qed.

Lemma bounded_nil : bounded PNil.
Proof. intros u Hu. inversion Hu; subst. done. Qed.
End size.

(** ** Flags do not matter *)

Lemma node_ind' (P : node -> Prop) :
  P NilNode -> (forall cs fl, Forall P cs -> P (fullNode cs fl)) ->
  (forall k v fl, P v -> P (shortNode k v fl)) -> (forall h, P (hashNode h)) ->
  (forall v, P (valueNode v)) -> forall n, P n.
Proof.
  intros HN HF HS HH HV. fix IH 1. intros [|cs fl|k v fl|h|v]; [done| |by apply HS|done|done].
  apply HF. induction cs as [|c cs IHl]; constructor; [apply IH|exact IHl].
Qed.

Fixpoint erase (n : node) : node :=
  match n with
  | fullNode cs _ => fullNode (map erase cs) noFlag
  | shortNode k v _ => shortNode k (erase v) noFlag
  | n => n
  end.

Lemma map_Forall_eq {A B} (f g : A -> B) l : Forall (fun a => f a = g a) l -> map f l = map g l.
Proof. induction 1 as [|a l E _ IH]; [done|]. cbn. by rewrite E, IH. Qed.

Lemma nodeItem_erase n : nodeItem (erase n) = nodeItem n.
Proof.
  induction n as [|cs fl IH|k v fl IH| |] using node_ind'; try done; cbn [erase nodeItem].
  - f_equal. rewrite map_map. apply map_Forall_eq. eapply Forall_impl; [exact IH|].
    intros c E. by destruct c.
  - by rewrite IH.
Qed.

Lemma simplifyNode_erase n : simplifyNode (erase n) = simplifyNode n.
Proof.
  induction n as [|cs fl IH|k v fl IH| |] using node_ind'; try done; cbn [erase simplifyNode].
  - rewrite map_map. erewrite map_Forall_eq; [done|]. eapply Forall_impl; [exact IH|].
    intros c E. by destruct c.
  - by rewrite IH.
Qed.

Lemma isNil_erase n : isNil (erase n) = isNil n.
Proof. by destruct n. Qed.
Lemma isHash_erase n : isHash (erase n) = isHash n.
Proof. by destruct n. Qed.

(** ** Inserting into the database *)

(** The flush-list can be extended. *)
Definition flush_ok (d : Database) : Prop := d_oldest d <> 0 -> is_Some (d_nodes d !! d_newest d).

(** Same nodes, whatever the reference counts. *)
Definition same_nodes (d d' : Database) : Prop :=
  d_diskdb d' = d_diskdb d /\
  (forall h, cn_node <$> d_nodes d' !! h = cn_node <$> d_nodes d !! h).

Lemma addParents_ok l d :
  exists d', forEach (fun child => updIfPresent child (fun c => set_parents (u16 (cn_parents c + 1)) c)) l d
      = Ret (tt, d') /\ same_nodes d d' /\ d_oldest d' = d_oldest d /\ d_newest d' = d_newest d.
Proof.
  revert d. induction l as [|h l IH]; intros d; [by exists d|].
  cbn [forEach]. unfold bind, updIfPresent at 1, modify.
  match goal with |- context [forEach _ l ?d1] => destruct (IH d1) as (d' & -> & [Hdk Hn] & Ho & Hne) end.
  exists d'. split; [done|]. split; [|done]. split; [done|]. intros k. rewrite Hn. cbn [d_nodes set_nodes].
  destruct (decide (k = h)) as [->|]; [|by rewrite lookup_alter_ne].
  rewrite lookup_alter_eq. by destruct (d_nodes d !! h).
Qed.

Lemma Database_insert_ok h blob n r d :
  simplifyNode n = Some r -> flush_ok d ->
  exists d', Database_insert h blob n d = Ret (tt, d') /\ flush_ok d' /\ d_diskdb d' = d_diskdb d /\
    (forall k, cn_node <$> d_nodes d' !! k =
       if decide (k = h) then Some (match d_nodes d !! h with Some c => cn_node c | None => r end)
       else cn_node <$> d_nodes d !! k).
Proof.
  intros Hr Hf. unfold Database_insert, bind, get, must. destruct (d_nodes d !! h) as [cn|] eqn:Eh.
  { exists d. split; [done|]. split; [done|]. split; [done|]. intros k. case_decide as D; [|done].
    subst. by rewrite Eh. }
  rewrite Hr. cbn. unfold insert_entry, bind, get. rewrite Eh.
  set (entry := mkCached r _ _ _ _ _).
  destruct (addParents_ok (childs entry) d) as (d1 & -> & [Hdk Hn] & Ho & Hne). unfold modify.
  cbn [d_oldest set_nodes d_newest d_nodes].
  assert (forall k, cn_node <$> <[h := entry]> (d_nodes d1) !! k =
    if decide (k = h) then Some r else cn_node <$> d_nodes d !! k) as Hk.
  { intros k. case_decide as D; [subst; by rewrite lookup_insert_eq|].
    rewrite lookup_insert_ne by done. apply Hn. }
  rewrite Ho. destruct (d_oldest d =? 0) eqn:E0; zbool.
  - eexists. split; [done|]. split; [|split; [done|exact Hk]].
    intros _. cbn. rewrite lookup_insert_eq. by eexists.
  - destruct (Hf E0) as [cn En]. unfold updNode, bind, get, must, put. cbn [d_nodes set_nodes]. rewrite Hne.
    assert (is_Some (<[h := entry]> (d_nodes d1) !! d_newest d)) as [cn' Ecn'].
    { destruct (decide (d_newest d = h)) as [->|]; [rewrite lookup_insert_eq; by eexists|].
      rewrite lookup_insert_ne by done. apply fmap_is_Some with cn_node. rewrite Hn, En. by eexists. }
    rewrite Ecn'. eexists. split; [done|]. split; [|split; [done|]].
    + intros _. cbn. destruct (decide (d_newest d = h)) as [->|].
      * rewrite lookup_insert_eq. by eexists.
      * rewrite lookup_insert_ne, lookup_insert_eq by done. by eexists.
    + intros k. cbn [d_nodes set_nodesSize set_newest set_nodes]. rewrite <- Hk.
      destruct (decide (k = d_newest d)) as [->|]; [|by rewrite lookup_insert_ne].
      by rewrite lookup_insert_eq, Ecn'.
Qed.

(** ** The walk *)

Section walk.
Context {K : Sha3}.
Variables (cachegen cachelimit : Z).
Variable onleaf : option (list byte -> Hash -> Database -> Database).
(** The tree that is hashed. *)
Variable T : ptree.
Hypothesis T_bounded : bounded T.
(** Keccak does not map two nodes of the tree to the same hash. *)
Definition injective : Prop := forall u w, sub u T -> sub w T -> isNode u -> isNode w ->
  key_of_hash u = key_of_hash w -> pcol u = pcol w.

(** The nodes of the tree that the cache has are the right ones. *)
Definition nocoll (d : Database) : Prop :=
  forall u cn, sub u T -> isNode u -> d_nodes d !! key_of_hash u = Some cn ->
    cn_node cn = simplifyC (pcol u) \/ cn_node cn = rawNode (enc_of u).

Definition dbok (o : option Database) : Prop :=
  match o with None => True | Some d => flush_ok d /\ nocoll d /\ injective end.

Definition grows (o o' : option Database) : Prop :=
  match o, o' with
  | None, None => True
  | Some d, Some d' => d_diskdb d' = d_diskdb d /\
      forall h r, cn_node <$> d_nodes d !! h = Some r -> cn_node <$> d_nodes d' !! h = Some r
  | _, _ => False
  end.

(** The callback only touches reference counts. *)
Hypothesis leaf_ok : forall f v h d, onleaf = Some f -> flush_ok d ->
  flush_ok (f v h d) /\ same_nodes d (f v h d).

(** What the walk may rely on, and what it has stored. *)
Variable A0 : ptree -> Prop.
Definition Ao (o : option Database) : ptree -> Prop :=
  match o with None => A0 | Some d => stored d end.
Definition belowO (o : option Database) (t : ptree) : Prop :=
  match o with None => True | Some d => below d t end.
Definition storedO (o : option Database) (t : ptree) : Prop :=
  match o with None => True | Some d => stored d t end.

Lemma grows_refl o : grows o o.
Proof. by destruct o. Qed.

Lemma grows_trans o1 o2 o3 : grows o1 o2 -> grows o2 o3 -> grows o1 o3.
Proof.
  destruct o1, o2, o3; try done. intros [D1 N1] [D2 N2]. split; [by rewrite D2|]. auto.
Qed.

Lemma entry_grows d d' u :
  grows (Some d) (Some d') -> nocoll d' -> sub u T -> isNode u -> entry d u -> entry d' u.
Proof.
  intros [Hd Hn] Hc Hs Hu He. unfold entry in *.
  destruct (d_nodes d' !! key_of_hash u) as [cn'|] eqn:E'; [by apply Hc|].
  destruct (d_nodes d !! key_of_hash u) as [cn|] eqn:E.
  - specialize (Hn (key_of_hash u) (cn_node cn)). rewrite E, E' in Hn. by specialize (Hn eq_refl).
  - by rewrite Hd.
Qed.

Lemma below_grows o o' t : grows o o' -> dbok o' -> sub t T -> belowO o t -> belowO o' t.
Proof.
  destruct o as [d|], o' as [d'|]; try done. intros Hg (_ & Hc & _) Hs Hb u Hu Hn Hl.
  eapply entry_grows; [done|done|by eapply sub_trans|done|by apply Hb].
Qed.

Lemma Ao_grows o o' u : grows o o' -> dbok o' -> sub u T -> Ao o u -> Ao o' u.
Proof.
  destruct o as [d|], o' as [d'|]; try done. intros Hg (_ & Hc & _) Hs [Hn Hall]. split; [done|].
  intros w Hw Hwn Hl. eapply entry_grows; [done|done|by eapply sub_trans|done|by apply Hall].
Qed.

Lemma held_grows o o' b n t : grows o o' -> dbok o' -> sub t T -> held (Ao o) b n t -> held (Ao o') b n t.
Proof.
  intros Hg Hc Hs Hh. eapply held_mono; [done|]. intros u Hu. apply Ao_grows; [done|done|].
  by eapply sub_trans.
Qed.

Lemma leafCalls_ok n h d :
  flush_ok d -> flush_ok (leafCalls onleaf n h d) /\ same_nodes d (leafCalls onleaf n h d).
Proof.
  intros Hf. unfold leafCalls. destruct onleaf as [f|] eqn:Ef; [|by split].
  destruct n as [|cs fl|k v fl|h'|w]; try (by split).
  - generalize (take 16 cs). intros l. revert d Hf. induction l as [|c l IH]; intros d Hf; [by split|].
    cbn [fold_left].
    assert (flush_ok (match c with valueNode v => f v h d | _ => d end) /\
      same_nodes d (match c with valueNode v => f v h d | _ => d end)) as [Hf1 [Hs1 Hs2]].
    { destruct c; try (by split). by apply leaf_ok. }
    destruct (IH _ Hf1) as [Hf2 [Hd2 Hn2]]. split; [done|]. split; [by rewrite Hd2|].
    intros k. by rewrite Hn2.
  - destruct v; try (by split). by apply leaf_ok.
Qed.

(** Storing the collapsed node of [t]. *)
Lemma insert_tree t c o :
  sub t T -> canon t -> erase c = pcol t -> dbok o ->
  exists o', inDatabase (Database_insert (key_of_hash t) (enc_of t) c ;;
                         modify (leafCalls onleaf c (key_of_hash t))) o = Ret (tt, o') /\
    dbok o' /\ grows o o' /\ (match o' with Some d' => entry d' t | None => True end).
Proof.
  intros Hs Hc Ee Hok. destruct o as [d|]; [|by exists None]. destruct Hok as (Hf & Hn & T_inj).
  assert (simplifyNode c = Some (simplifyC (pcol t))) as Hsim.
  { rewrite <- simplifyNode_erase, Ee. by apply simplify_collapsed, pcol_collapsed. }
  destruct (Database_insert_ok (key_of_hash t) (enc_of t) c _ d Hsim Hf) as (d1 & E1 & Hf1 & Hd1 & Hn1).
  destruct (leafCalls_ok c (key_of_hash t) d1 Hf1) as [Hf2 [Hd2 Hn2]].
  set (d2 := leafCalls onleaf c (key_of_hash t) d1) in *.
  unfold inDatabase, bind, modify. rewrite E1. exists (Some d2). split; [done|].
  assert (nocoll d2) as Hc2.
  { intros u cn Hu Hun E. specialize (Hn2 (key_of_hash u)). rewrite E, Hn1 in Hn2. cbn in Hn2.
    case_decide as D.
    - injection Hn2 as ->. rewrite <- (T_inj u t) by (done || by apply canon_isNode).
      destruct (d_nodes d !! key_of_hash t) as [cn'|] eqn:E'; [|by left].
      rewrite <- D in E'. by apply (Hn u).
    - destruct (d_nodes d !! key_of_hash u) as [cn'|] eqn:E'; [|done]. cbn in Hn2. injection Hn2 as ->.
      by apply (Hn u). }
  split; [done|]. split.
  - split; [by rewrite Hd2|]. intros h r Hr. rewrite Hn2, Hn1. case_decide as D; [|done].
    subst. by destruct (d_nodes d !! key_of_hash t).
  - unfold entry. specialize (Hn2 (key_of_hash t)). rewrite Hn1, decide_True in Hn2 by done.
    destruct (d_nodes d2 !! key_of_hash t) as [cn|] eqn:E; [|done].
    apply (Hc2 t cn); [done|by apply canon_isNode|done].
Qed.

Lemma store_ok t c force o :
  sub t T -> canon t -> erase c = pcol t -> dbok o ->
  (forall h, (cache c).1 = Some h -> h = H t) ->
  exists n o', store onleaf c force o = Ret (n, o') /\ dbok o' /\ grows o o' /\
    (if force || large t then n = hashNode (H t) /\ match o' with Some d' => entry d' t | None => True end
     else n = c).
Proof.
  intros Hs Hc Ee Hok Hcache. unfold store.
  assert (isNil c || isHash c = false) as ->.
  { rewrite <- isNil_erase, <- isHash_erase, Ee. by destruct Hc. }
  assert (encodeNode c = Some (enc_of t)) as ->.
  { unfold encodeNode. rewrite <- nodeItem_erase, Ee. apply EncodeToBytes_rlp.
    pose proof (T_bounded t Hs). unfold enc_of in *. lia. }
  unfold bind, must. cbn [ret]. unfold large. rewrite Z.leb_antisym.
  destruct (zlen (enc_of t) <? 32) eqn:E; destruct force; cbn [andb negb orb].
  2: { exists c, o. split; [done|]. split; [done|]. split; [apply grows_refl|done]. }
  all: assert (match (cache c).1 with Some h => h | None => makeHashNode (enc_of t) end = H t) as ->
    by (destruct (cache c).1 as [h|]; [by apply Hcache|done]).
  all: destruct (insert_tree t c o Hs Hc Ee Hok) as (o' & E' & Hok' & Hg & Hent).
  all: unfold key_of_hash, bind in E'; rewrite E'.
  all: by exists (hashNode (H t)), o'.
Qed.

(** The specification of [hash] on a node. *)
Definition hashed (n : node) : Prop := forall force t o,
  held (Ao o) force n t -> sub t T -> canon t -> dbok o ->
  exists n1 n2 o', hash cachegen cachelimit onleaf n force o = Ret ((n1, n2), o') /\
    dbok o' /\ grows o o' /\ erase n1 = (if force then hashNode (H t) else pref t) /\
    held (Ao o') force n2 t /\ belowO o' t /\ (force = true -> storedO o' t).

Lemma hashKids_cons f i c cs :
  hashKids f i (c :: cs) =
    (let* '(c1, c2) := if (i <? 16)%nat && negb (isNil c) then f c else ret (c, c) in
     let* '(cs1, cs2) := hashKids f (S i) cs in
     ret (c1 :: cs1, c2 :: cs2)).
Proof. done. Qed.

Lemma kids_ok cs : forall i ts o,
  Forall hashed cs -> length cs = length ts ->
  (forall j c t, cs !! j = Some c -> ts !! j = Some t -> held (Ao o) false c t) ->
  (forall j t, ts !! j = Some t -> sub t T /\ childOk (i + j) t) -> dbok o ->
  exists cs1 cs2 o',
    hashKids (fun c => hash cachegen cachelimit onleaf c false) i cs o = Ret ((cs1, cs2), o') /\
    dbok o' /\ grows o o' /\ map erase cs1 = map pref ts /\ length cs2 = length ts /\
    (forall j c t, cs2 !! j = Some c -> ts !! j = Some t -> held (Ao o') false c t) /\
    (forall j t, ts !! j = Some t -> belowO o' t).
Proof.
  induction cs as [|c cs IH]; intros i ts o HF Hl Hheld Hts Hok.
  { destruct ts; [|done]. exists [], [], o. split; [done|]. split; [done|]. split; [apply grows_refl|].
    split; [done|]. split; [done|]. done. }
  destruct ts as [|t ts]; [done|]. apply Forall_cons in HF as [Hhc HF].
  destruct (Hts 0%nat t eq_refl) as [Hst Hch]. rewrite Nat.add_0_r in Hch.
  pose proof (Hheld 0%nat c t eq_refl eq_refl) as Hc.
  assert (exists c1 c2 o1, (if (i <? 16)%nat && negb (isNil c)
      then hash cachegen cachelimit onleaf c false else ret (c, c)) o = Ret ((c1, c2), o1) /\
    dbok o1 /\ grows o o1 /\ erase c1 = pref t /\ held (Ao o1) false c2 t /\ belowO o1 t)
    as (c1 & c2 & o1 & E1 & Hok1 & Hg1 & Ee1 & Hh1 & Hb1).
  { destruct (pnil_dec t) as [->|Hne].
    - apply held_PNil in Hc as ->. rewrite andb_false_r.
      exists NilNode, NilNode, o. split; [done|]. split; [done|]. split; [apply grows_refl|]. split; [done|].
      split; [constructor|]. destruct o; [|done]. intros u Hu Hn. destruct (sub_atom _ _ Hu); [by intros []|done].
    - assert (isNil c = false) as -> by (destruct c; [by inversion Hc; subst|done..]). cbn [negb].
      rewrite andb_true_r. specialize (Hch Hne). destruct (i <? 16)%nat eqn:Ei.
      + destruct (Hhc false t o Hc Hst Hch Hok) as (n1 & n2 & o1 & E & H1 & H2 & H3 & H4 & H5 & _).
        by exists n1, n2, o1.
      + destruct Hch as (v & -> & _). apply held_PVal in Hc as ->.
        exists (valueNode v), (valueNode v), o. split; [done|]. split; [done|]. split; [apply grows_refl|].
        split; [done|]. split; [constructor|]. destruct o; [|done]. intros u Hu Hn.
        destruct (sub_atom _ _ Hu); [by intros []|done]. }
  destruct (IH (S i) ts o1 HF) as (cs1 & cs2 & o2 & E2 & Hok2 & Hg2 & Ee2 & Hl2 & Hh2 & Hb2).
  { by injection Hl. }
  { intros j c' t' Ec' Et'. eapply held_grows; [done|done|by apply (Hts (S j))|by apply (Hheld (S j))]. }
  { intros j t' Et'. destruct (Hts (S j) t' Et') as [Hsj Hcj]. split; [done|].
    by replace (S i + j)%nat with (i + S j)%nat by lia. }
  { done. }
  exists (c1 :: cs1), (c2 :: cs2), o2. rewrite hashKids_cons. unfold bind.
  rewrite E1, E2. split; [done|]. split; [done|].
  split; [by eapply grows_trans|]. split; [cbn; by rewrite Ee1, Ee2|]. split; [cbn; by rewrite Hl2|]. split.
  - intros [|j] c' t' Ec' Et'; [|by apply (Hh2 j)]. injection Ec' as <-. injection Et' as <-.
    by eapply held_grows.
  - intros [|j] t' Et'; [|by apply (Hb2 j)]. injection Et' as <-. by eapply below_grows.
Qed.

Definition isCommit (o : option Database) : bool := bool_decide (is_Some o).

Lemma hash_eq n force o :
  isNil n = false ->
  hash cachegen cachelimit onleaf n force o =
    match useCache cachegen cachelimit n (isCommit o) with
    | Some r => Ret (r, o)
    | None =>
        (let* '(collapsed, cached) :=
           hashChildren (fun c => hash cachegen cachelimit onleaf c false) n in
         let* hashed := store onleaf collapsed force in
         ret (hashed, cacheHash hashed (isCommit o) cached)) o
    end.
Proof. intros Hn. destruct n; try done; unfold isCommit; cbn [hash]; unfold bind, get; by destruct useCache. Qed.

(** The flags of a node that is not a hash. *)
Definition flagsOf (n : node) : option nodeFlag :=
  match n with fullNode _ fl | shortNode _ _ fl => Some fl | _ => None end.

Lemma held_flags B b n t fl :
  held B b n t -> flagsOf n = Some fl -> fl_ok (FlagInv := hashInv B) b t fl.
Proof. intros Hh Hf. inversion Hh; subst; try done; by injection Hf as <-. Qed.

(** Using the cached hash. *)
Lemma cache_hit n force t o n1 n2 :
  held (Ao o) force n t -> isNode t ->
  useCache cachegen cachelimit n (isCommit o) = Some (n1, n2) ->
  erase n1 = (if force then hashNode (H t) else pref t) /\ held (Ao o) force n2 t /\
  belowO o t /\ (force = true -> storedO o t).
Proof.
  intros Hh Ht Hu.
  assert (exists fl h, flagsOf n = Some fl /\ nf_hash fl = Some h /\ n1 = hashNode h /\
    (o = None /\ n2 = n \/ nf_dirty fl = false /\ (n2 = n \/ n2 = hashNode h))) as (fl & h & Hfl & Eh & -> & Hn2).
  { unfold useCache in Hu. destruct n as [|cs fl|k v fl| |]; try done; cbn [cache] in Hu;
      (destruct (nf_hash fl) as [h|] eqn:Eh; [|done]); exists fl, h;
      (destruct o as [d|]; cbn in Hu; [|injection Hu as <- <-; repeat split; auto 8]);
      unfold canUnloadFlag in Hu;
      destruct (nf_dirty fl); cbn [negb andb] in Hu; try done;
      destruct (_ >=? _); injection Hu as <- <-; repeat split; auto 8. }
  destruct (held_flags _ _ _ _ _ Hh Hfl) as [Hhash Hclean].
  destruct (Hhash h Eh) as [-> Hlarge].
  assert (nf_dirty fl = false -> Ao o t) as HA.
  { intros Hd. destruct (Hclean Hd) as [[_ ?]|(_ & ? & _)]; [done|congruence]. }
  split; [|split; [|split]].
  - cbn [erase]. destruct force; [done|]. rewrite pref_node by done. by rewrite Hlarge.
  - destruct Hn2 as [[_ ->]|[Hd [->| ->]]]; [done|done|]. constructor. split; [done|]. split; [done|].
    split; [by apply HA|done].
  - destruct o as [d|]; [|done]. destruct Hn2 as [[? _]|[Hd _]]; [done|]. apply stored_below. by apply HA.
  - intros _. destruct o as [d|]; [|done]. destruct Hn2 as [[? _]|[Hd _]]; [done|]. by apply HA.
Qed.

(** On a miss without a database there is no hash. *)
Lemma cache_miss n fl :
  flagsOf n = Some fl -> useCache cachegen cachelimit n (isCommit None) = None -> nf_hash fl = None.
Proof. intros Hf Hu. destruct n; try done; injection Hf as <-; unfold useCache in Hu; cbn in Hu; by destruct nf_hash. Qed.

(** The flags after the hash has been computed. *)
Lemma flag_after t fl o o' force n1 gen :
  isNode t -> fl_ok (FlagInv := hashInv (Ao o)) force t fl -> (o = None -> nf_hash fl = None) ->
  grows o o' -> belowO o' t ->
  (if force || large t then n1 = hashNode (H t) /\ match o' with Some d' => entry d' t | None => True end
   else isHash n1 = false) ->
  fl_ok (FlagInv := hashInv (Ao o')) force t
    (mkFlag (match n1 with hashNode h => Some h | _ => None end) gen
       (if isCommit o then false else nf_dirty fl)).
Proof.
  intros Ht [Hh Hc] Hmiss Hg Hb Hn. split; cbn [nf_hash nf_dirty].
  - intros h E. destruct (force || large t) eqn:Ef.
    + destruct Hn as [-> _]. injection E as <-. split; [done|]. intros ->. done.
    + by destruct n1.
  - destruct o as [d|], o' as [d'|]; try done; cbn [isCommit]; intros Hd.
    + destruct (force || large t) eqn:Ef.
      * destruct Hn as [-> He]. left. split; [done|]. split; [done|].
        intros u Hu Hun [->|Hl]; [done|by apply Hb].
      * right. apply orb_false_elim in Ef as [-> ->]. split; [done|]. split; [by destruct n1|done].
    + rewrite Hmiss in Hc by done. destruct (Hc Hd) as [[? _]|(-> & _ & Hl)]; [done|].
      rewrite Hl in Hn. right. split; [done|]. split; [by destruct n1|done].
Qed.

(** What [hashChildren] returns for a node with flags [fl]. *)
Definition childrenOk (n : node) (fl : nodeFlag) (t : ptree) (o : option Database) : Prop :=
  exists c n' o', hashChildren (fun c => hash cachegen cachelimit onleaf c false) n o = Ret ((c, n'), o') /\
    dbok o' /\ grows o o' /\ erase c = pcol t /\ (cache c).1 = nf_hash fl /\
    (forall u, sub u t -> isNode u -> large u = true ->
       u = t \/ match o' with Some d' => entry d' u | None => True end) /\
    (forall fl' b o2, grows o' o2 -> dbok o2 -> fl_ok (FlagInv := hashInv (Ao o2)) b t fl' ->
       held (Ao o2) b (match n' with
         | shortNode k v _ => shortNode k v fl'
         | fullNode cs _ => fullNode cs fl'
         | n => n end) t) /\
    flagsOf n' = Some fl.

(** From the children to the node. *)
Lemma hash_node n fl force t o :
  held (Ao o) force n t -> flagsOf n = Some fl -> sub t T -> canon t ->
  (dbok o -> childrenOk n fl t o) -> dbok o ->
  exists n1 n2 o', hash cachegen cachelimit onleaf n force o = Ret ((n1, n2), o') /\
    dbok o' /\ grows o o' /\ erase n1 = (if force then hashNode (H t) else pref t) /\
    held (Ao o') force n2 t /\ belowO o' t /\ (force = true -> storedO o' t).
Proof.
  intros Hh Hfl Hs Hc Hch Hok. pose proof (canon_isNode t Hc) as Ht.
  rewrite hash_eq by (by destruct n). destruct (useCache _ _ n _) as [[n1 n2]|] eqn:Eu.
  { exists n1, n2, o. destruct (cache_hit _ _ _ _ _ _ Hh Ht Eu) as (H1 & H2 & H3 & H4).
    split; [done|]. split; [done|]. split; [apply grows_refl|]. done. }
  destruct (Hch Hok) as (c & n' & o1 & E1 & Hok1 & Hg1 & Ee & Ec & Hb1 & Hheld & Hfl').
  pose proof (held_flags _ _ _ _ _ Hh Hfl) as Hflok.
  destruct (store_ok t c force o1 Hs Hc Ee Hok1) as (n1 & o2 & E2 & Hok2 & Hg2 & Hn1).
  { intros h Eh. rewrite Ec in Eh. by apply Hflok. }
  unfold bind. rewrite E1, E2. cbn [ret].
  assert (belowO o2 t) as Hb2.
  { destruct o2 as [d2|]; [|done]. intros u Hu Hun Hul.
    destruct (Hb1 u Hu Hun Hul) as [->|He].
    - rewrite Hul, orb_true_r in Hn1. by destruct Hn1.
    - destruct o1 as [d1|]; [|done]. eapply entry_grows; [exact Hg2|apply Hok2|by eapply sub_trans|done|done]. }
  exists n1, (cacheHash n1 (isCommit o) n'), o2. split; [done|]. split; [done|].
  split; [by eapply grows_trans|]. split; [|split; [|split; [done|]]].
  - destruct force; cbn [orb] in Hn1; [by destruct Hn1 as [-> _]|]. rewrite pref_node by done.
    destruct (large t); [by destruct Hn1 as [-> _]|]. by rewrite Hn1.
  - assert (forall g, fl_ok (FlagInv := hashInv (Ao o2)) force t
      (mkFlag (match n1 with hashNode h => Some h | _ => None end) g (if isCommit o then false else nf_dirty fl)))
      as Hfa.
    { intros g. apply (flag_after t fl o o2); [done|done| |by eapply grows_trans|done|].
      - intros ->. by apply (cache_miss n).
      - destruct (force || large t); [done|]. subst n1. rewrite <- isHash_erase, Ee. by destruct Hc. }
    specialize (Hheld _ force o2 Hg2 Hok2 (Hfa (nf_gen fl))).
    destruct n' as [|cs' fl1|k' v' fl1| |]; try done; injection Hfl' as ->; exact Hheld.
  - intros ->. destruct o2 as [d2|]; [|done]. destruct Hn1 as [_ He]. split; [done|].
    intros u Hu Hun [->|Hl]; [done|by apply Hb2].
Qed.

Lemma children_full cs fl force t o :
  Forall hashed cs -> held (Ao o) force (fullNode cs fl) t -> sub t T -> canon t -> dbok o ->
  childrenOk (fullNode cs fl) fl t o.
Proof.
  intros IH Hh Hs Hc Hok.
  inversion Hh as [| | |? ? ts ? Hl Hkids Hfl|]; subst.
  pose proof (proj1 (canon_full_iff ts) Hc) as (Hl17 & Hch & _).
  destruct (kids_ok cs 0 ts o IH Hl Hkids) as (cs1 & cs2 & o' & E & Hok' & Hg & Ee & Hl2 & Hh2 & Hb2); [|done|].
  { intros j t Et. split; [|by apply Hch]. eapply sub_trans; [|done]. eapply sub_full; [done|constructor]. }
  exists (fullNode cs1 fl), (fullNode cs2 fl), o'. cbn [hashChildren]. unfold bind. rewrite E.
  split; [done|]. split; [done|]. split; [done|]. split; [cbn [erase pcol]; by rewrite Ee|].
  split; [done|]. split; [|split; [|done]].
  - intros u Hu Hun Hul. destruct o' as [d'|]; [|by right].
    inversion Hu as [|? ? ? ?|? i c ? Ec Hsub]; subst; [by left|right]. by apply (Hb2 i c Ec).
  - intros fl' b o2 Hg2 Hok2 Hf. constructor; [done| |done]. intros i c t Ec Et.
    eapply held_grows; [exact Hg2|done| |by apply (Hh2 i)]. eapply sub_trans; [|done].
    eapply sub_full; [done|constructor].
Qed.

Lemma children_short k v fl force t o :
  hashed v -> held (Ao o) force (shortNode k v fl) t -> sub t T -> canon t -> dbok o ->
  childrenOk (shortNode k v fl) fl t o.
Proof.
  intros IH Hh Hs Hc Hok.
  inversion Hh as [| |? ? ? c ? Hv Hfl| |]; subst.
  assert (sub c T) as Hsc by (eapply sub_trans; [|done]; constructor; constructor).
  assert (exists v1 v2 o', (match v with valueNode _ => ret (v, v)
      | _ => hash cachegen cachelimit onleaf v false end) o = Ret ((v1, v2), o') /\
    dbok o' /\ grows o o' /\ erase v1 = pref c /\ held (Ao o') false v2 c /\ belowO o' c /\
    hexToCompact k = Some (compact k)) as (v1 & v2 & o' & E & Hok' & Hg & Ee & Hh2 & Hb & Ek).
  { inversion Hc as [? w Hk Hw|? cs Hne Hk Hcs|]; subst.
    - apply held_PVal in Hv as ->. exists (valueNode w), (valueNode w), o.
      split; [done|]. split; [done|]. split; [apply grows_refl|]. split; [done|]. split; [constructor|].
      split; [|by apply compact_hexkey]. destruct o; [|done]. intros u Hu Hn.
      destruct (sub_atom _ _ Hu); [by intros []|done].
    - destruct (IH false (PFull cs) o Hv Hsc Hcs Hok) as (n1 & n2 & o' & E & H1 & H2 & H3 & H4 & H5 & _).
      exists n1, n2, o'. split; [|by destruct (compact_nibbles k Hk)].
      destruct v; try done. by inversion Hv. }
  exists (shortNode (compact k) v1 fl), (shortNode k v2 fl), o'. cbn [hashChildren]. rewrite Ek.
  unfold bind, must. cbn [ret]. rewrite E. split; [done|]. split; [done|]. split; [done|].
  split; [cbn [erase pcol]; by rewrite Ee|]. split; [done|]. split; [|split; [|done]].
  + intros u Hu Hun Hul. destruct o' as [d'|]; [|by right].
    inversion Hu; subst; [by left|right]. by apply Hb.
  + intros fl' b o2 Hg2 Hok2 Hf. constructor; [|done]. by eapply held_grows.
Qed.

Lemma hash_ok n : hashed n.
Proof.
  induction n as [|cs fl IH|k v fl IH|h|w] using node_ind'; intros force t o Hh Hs Hc Hok.
  - inversion Hh; subst. by inversion Hc.
  - eapply hash_node; [done|done|done|done| |done]. intros _. by eapply children_full.
  - eapply hash_node; [done|done|done|done| |done]. intros _. by eapply children_short.
  - inversion Hh as [| | | |? ? ? Hn]; subst. destruct Hn as (-> & Hl & Ha & Ht).
    exists (hashNode (H t)), (hashNode (H t)), o. split; [done|]. split; [done|]. split; [apply grows_refl|].
    split; [cbn [erase]; destruct force; [done|]; rewrite pref_node by done; by rewrite Hl|].
    split; [done|]. split; [destruct o; [by apply stored_below|done]|]. intros _. by destruct o.
  - inversion Hh; subst. by inversion Hc.
Qed.

(** Collapsing the children of one node. *)
Lemma children_ok n fl force t o :
  held (Ao o) force n t -> flagsOf n = Some fl -> sub t T -> canon t -> dbok o -> childrenOk n fl t o.
Proof.
  intros Hh Hf Hs Hc Hok. destruct n as [|cs fl'|k v fl'| |]; try done; injection Hf as ->.
  - eapply children_full; [|done..]. apply Forall_forall. intros c _. apply hash_ok.
  - eapply children_short; [apply hash_ok|done..].
Qed.
End walk.
