(* ===== verification/TrieProof.v ===== *)
(** * trie/proof.go: Merkle proofs

    [Prove] writes the encoded nodes on the path of a key into a database,
    keyed by their hashes; [VerifyProof] walks from a root hash through such a
    database.  The database is [ethdb.MemDatabase].

    Shown: the proof of a key leads the verifier to the value the trie has
    there, and no database whose keys are the hashes of its values can lead it
    to anything else. *)

From Stdlib Require Import ZArith Lia Bool.
From S2P Require Import Prelude GoMath Rlp RlpStreamSpec TrieEncoding Trie TrieSpec TrieUpdate.
From S2P Require Import TrieNode TrieDatabase TrieHasher TrieHashSpec TrieHashOk.
Local Open Scope Z_scope.
Local Open Scope trie_scope.

(** ** Prove *)

Section prove.
Context {R : NodeReader} {K : Sha3}.

(** The loop that collects the nodes on the path.  The fuel is that of a
    lookup. *)
Fixpoint proofNodes (fuel : nat) (gen : Z) (tn : node) (key : list byte) : TM (list node) :=
  match key with
  | [] => tok []
  | b :: rest =>
      match fuel with
      | O => OutOfFuel
      | S fuel =>
          match tn with
          | NilNode => tok []
          | shortNode k v _ =>
              if (length key <? length k)%nat || negb (bool_decide (k = take (length k) key))
              then tok [tn]
              else do nodes := proofNodes fuel gen v (drop (length k) key) in tok (tn :: nodes)
          | fullNode cs _ =>
              idx c := child b cs in
              do nodes := proofNodes fuel gen c rest in tok (tn :: nodes)
          | hashNode h => do n := resolveHash gen h [] in proofNodes fuel gen n key
          | valueNode _ => Panic
          end
      end
  end.

(** One round of the second loop; [first] is [i == 0]. *)
Definition proofElem (first : bool) (n : node) (fromLevel : Z) (proofDb : Mem.db) :
    outcome (Z * Mem.db) :=
  match hashChildren (fun c => hash 0 0 None c false) n None with
  | Ret ((n, _), _) =>
      match store None n false None with
      | Ret (hn, _) =>
          if isHash hn || first then
            if fromLevel >? 0 then Ret (fromLevel - 1, proofDb)
            else
              match encodeNode n with
              | Some enc =>
                  let hash := match hn with hashNode h => h | _ => keccak256 enc end in
                  Ret (fromLevel, Mem.Put hash enc proofDb)
              | None => Panic
              end
          else Ret (fromLevel, proofDb)
      | Panic => Panic
      | OutOfFuel => OutOfFuel
      end
  | Panic => Panic
  | OutOfFuel => OutOfFuel
  end.

Fixpoint proofElems (first : bool) (nodes : list node) (fromLevel : Z) (proofDb : Mem.db) :
    outcome Mem.db :=
  match nodes with
  | [] => Ret proofDb
  | n :: nodes =>
      match proofElem first n fromLevel proofDb with
      | Ret (fromLevel, proofDb) => proofElems false nodes fromLevel proofDb
      | Panic => Panic
      | OutOfFuel => OutOfFuel
      end
  end.

Definition Prove (t : Trie) (key : list byte) (fromLevel : Z) (proofDb : Mem.db) : TM Mem.db :=
  let key := keybytesToHex key in
  do nodes := proofNodes (keyFuel key) (t_cachegen t) (t_root t) key in
  match proofElems true nodes fromLevel proofDb with
  | Ret proofDb => tok proofDb
  | Panic => Panic
  | OutOfFuel => OutOfFuel
  end.
End prove.

(** ** VerifyProof *)

(** [get]: follows [key] inside one decoded node. *)
Fixpoint proofGet (tn : node) (key : list byte) {struct tn} : outcome (list byte * node) :=
  match tn with
  | shortNode k v _ =>
      if (length key <? length k)%nat || negb (bool_decide (k = take (length k) key))
      then Ret ([], NilNode)
      else proofGet v (drop (length k) key)
  | fullNode cs _ =>
      match key with
      | [] => Panic
      | b :: key =>
          (fix go (cs : list node) (i : nat) : outcome (list byte * node) :=
             match cs, i with
             | [], _ => Panic
             | c :: _, O => proofGet c key
             | _ :: cs, S i => go cs i
             end) cs (bidx b)
      end
  | hashNode _ => Ret (key, tn)
  | NilNode => Ret (key, NilNode)
  | valueNode _ => Ret ([], tn)
  end.

Inductive proofErr :=
| ProofNodeMissing (i : Z) (wantHash : Hash)
| BadProofNode (i : Z) (e : decErr).

(** The value and the number of nodes used; the fuel bounds the number of
    nodes. *)
Fixpoint verifyLoop (fuel : nat) (i : Z) (wantHash : Hash) (key : list byte) (proofDb : Mem.db) :
    res proofErr (option (list byte) * Z) :=
  match fuel with
  | O => OutOfFuel
  | S fuel =>
      match Mem.Get (hashBytes wantHash) proofDb with
      | None => terr (ProofNodeMissing i wantHash)
      | Some buf =>
          match decodeNode (Some (hashBytes wantHash)) buf 0 with
          | Ret (inr n) =>
              match proofGet n key with
              | Ret (keyrest, cld) =>
                  match cld with
                  | NilNode => tok (None, i)
                  | hashNode h => verifyLoop fuel (i + 1) (BytesToHash h) keyrest proofDb
                  | valueNode v => tok (Some v, i + 1)
                  | _ => verifyLoop fuel (i + 1) wantHash key proofDb
                  end
              | Panic => Panic
              | OutOfFuel => OutOfFuel
              end
          | Ret (inl e) => terr (BadProofNode i e)
          | Panic => Panic
          | OutOfFuel => OutOfFuel
          end
      end
  end.

Definition VerifyProof (fuel : nat) (rootHash : Hash) (key : list byte) (proofDb : Mem.db) :
    res proofErr (option (list byte) * Z) :=
  verifyLoop fuel 0 rootHash (keybytesToHex key) proofDb.

(** ** The path of a key *)

(** The nodes a lookup visits. *)
Fixpoint path (t : ptree) (key : list byte) {struct t} : list ptree :=
  match t with
  | PShort k c =>
      t :: (if bool_decide (take (length k) key = k) then path c (drop (length k) key) else [])
  | PFull cs =>
      match key with
      | [] => []
      | b :: key =>
          t :: (fix go (cs : list ptree) (i : nat) : list ptree :=
                  match cs, i with
                  | [], _ => []
                  | c :: _, O => path c key
                  | _ :: cs, S i => go cs i
                  end) cs (bidx b)
      end
  | _ => []
  end.

Lemma path_full cs b key :
  path (PFull cs) (b :: key) = PFull cs :: match cs !! bidx b with Some c => path c key | None => [] end.
Proof.
  cbn [path]. f_equal. generalize (bidx b). induction cs as [|c cs IH]; intros [|i]; done.
Qed.

Lemma proofGet_full cs fl b key :
  proofGet (fullNode cs fl) (b :: key) =
    match cs !! bidx b with Some c => proofGet c key | None => Panic end.
Proof.
  cbn [proofGet]. generalize (bidx b). induction cs as [|c cs IH]; intros [|i]; done.
Qed.

(** The test for a prefix, as the code writes it. *)
Lemma prefix_test (k key : list byte) :
  (length key <? length k)%nat || negb (bool_decide (k = take (length k) key)) =
    negb (bool_decide (take (length k) key = k)).
Proof.
  destruct (decide (take (length k) key = k)) as [E|E].
  - rewrite !bool_decide_eq_true_2 by (by rewrite ?E). rewrite orb_false_r. apply Nat.ltb_ge.
    rewrite <- E. rewrite length_take. lia.
  - rewrite !bool_decide_eq_false_2 by (intros E'; apply E; by rewrite <- E'). apply orb_true_r.
Qed.

(** ** Inside one node *)

Section get.
Context {K : Sha3}.

(** Where [get] stops: at the end of the lookup, or at the hash of a subtree
    with the rest of the key. *)
Inductive stops (t : ptree) (key : list byte) : list byte * node -> Prop :=
| stop_nil rest : plookup t key = None -> stops t key (rest, NilNode)
| stop_val rest v : plookup t key = Some v -> stops t key (rest, valueNode v)
| stop_hash u rest :
    canon u -> sub u t -> large u = true -> slot u rest -> plookup t key = plookup u rest ->
    (forall w, w ∈ path u rest -> w ∈ path t key) ->
    (length rest <= length key)%nat -> stops t key (rest, hashNode (H u)).

(** The node of [t] is followed to such a place, and a hash has cost a part of
    the key. *)
Definition follows (t : ptree) : Prop := forall hash g key,
  slot t key -> exists r, proofGet (expandC hash g (pcol t)) key = Ret r /\ stops t key r /\
    (isHash r.2 = true -> (length r.1 < length key)%nat).

Lemma follow_ref t g key :
  canon t -> slot t key -> follows t ->
  exists r, proofGet (expandC None g (pref t)) key = Ret r /\ stops t key r.
Proof.
  intros Hc Hs Hf. rewrite pref_node by (by apply canon_isNode). destruct (large t) eqn:E.
  - eexists. split; [done|]. by apply stop_hash; [|constructor|..].
  - destruct (Hf None g key Hs) as (r & E1 & E2 & _). by exists r.
Qed.

Lemma stops_up t c key rest r :
  stops c rest r -> plookup t key = plookup c rest -> (forall u, sub u c -> sub u t) ->
  (forall w, w ∈ path c rest -> w ∈ path t key) -> (length rest < length key)%nat ->
  stops t key r /\ (isHash r.2 = true -> (length r.1 < length key)%nat).
Proof.
  intros Hst El Hsub Hp Hlen. destruct Hst as [rest' E|rest' v E|u rest' Hu Hs Hl Hsl E Hpu Hle].
  - split; [|done]. apply stop_nil. congruence.
  - split; [|done]. apply stop_val. congruence.
  - split; [|cbn; lia]. apply stop_hash; [done|by apply Hsub|done|done|congruence|by auto|lia].
Qed.

Lemma follows_leaf k v : hexkey k -> follows (PShort k (PVal v)).
Proof.
  intros Hk hash g key Hs. cbn [pcol squash expandC]. destruct (compact_hexkey k Hk) as (_ & -> & _).
  cbn [proofGet]. rewrite prefix_test. case_bool_decide as E; cbn [negb]; eexists; (split; [done|]); (split; [|done]).
  - apply stop_val. assert (key = k ++ drop (length k) key) as Ek by (rewrite <- E at 1; by rewrite take_drop).
    rewrite Ek in Hs |- *. apply slot_short, slot_val in Hs as [Hd _]. rewrite Hd, app_nil_r. apply plookup_leaf.
  - apply stop_nil. cbn [plookup]. by rewrite bool_decide_eq_false_2.
Qed.

Lemma follows_ext k cs : nibbles k -> canon (PFull cs) -> follows (PFull cs) -> follows (PShort k (PFull cs)).
Proof.
  intros Hk Hc IH hash g key Hs. cbn [pcol expandC]. destruct (compact_nibbles k Hk) as (_ & -> & _).
  pose proof (slot_short_nonempty _ _ _ Hs) as Hne. cbn [proofGet]. rewrite prefix_test.
  case_bool_decide as E; cbn [negb]; [|eexists; split; [done|]; split; [|done]].
  - assert (key = k ++ drop (length k) key) as Ek by (rewrite <- E at 1; by rewrite take_drop).
    assert (slot (PFull cs) (drop (length k) key)) as Hs' by (rewrite Ek in Hs; by apply slot_short in Hs).
    destruct (follow_ref (PFull cs) g _ Hc Hs' IH) as (r & Er & Hr). unfold pref in Er. cbn [pcol] in Er.
    exists r. split; [exact Er|]. eapply stops_up; [exact Hr| | | |].
    + cbn [plookup]. by rewrite bool_decide_eq_true_2.
    + intros u Hu. by apply sub_short.
    + intros w Hw. cbn [path]. rewrite bool_decide_eq_true_2 by done. by right.
    + rewrite Ek, length_app. rewrite drop_app_length. lia.
  - apply stop_nil. cbn [plookup]. by rewrite bool_decide_eq_false_2.
Qed.

Lemma follows_full cs :
  canon (PFull cs) ->
  (forall i c, (i < 16)%nat -> cs !! i = Some c -> c <> PNil -> follows c) -> follows (PFull cs).
Proof.
  intros Hc IH hash g key Hs. destruct (slot_full _ _ Hs) as (b & r & -> & Hk & _).
  destruct (full_child _ _ _ Hc Hk) as (t & Et). pose proof (canon_child _ _ _ _ Hc Hk Et) as Hst.
  cbn [pcol expandC]. rewrite proofGet_full, !list_lookup_fmap, Et. cbn [fmap option_fmap option_map].
  assert (exists q, proofGet (expandC None g (squash (pcol t))) r = Ret q /\ stops t r q) as (q & Eq & Hq).
  { destruct (pnil_dec t) as [->|Hne].
    - eexists. split; [done|]. by apply stop_nil.
    - apply canon_full_iff in Hc as (Hl & Hch & _). pose proof (Hch _ _ Et Hne) as Hok.
      unfold childOk in Hok. destruct (Nat.ltb_spec (bidx b) 16).
      + by apply (follow_ref t g r Hok Hst), (IH (bidx b)).
      + destruct Hok as (v & -> & _). apply slot_val in Hst as [-> _]. eexists. split; [done|]. by apply stop_val. }
  exists q. split; [exact Eq|]. eapply stops_up; [exact Hq| | | |].
  - by rewrite plookup_full, Et.
  - intros u Hu. by eapply sub_full.
  - intros w Hw. rewrite path_full, Et. by right.
  - cbn [length]. lia.
Qed.

Lemma canon_follows t : canon t -> follows t.
Proof.
  induction 1 as [k v Hk Hv|k cs Hne Hk Hcs IH|cs Hl Hn IH Hv Hex].
  - by apply follows_leaf.
  - by apply follows_ext.
  - apply follows_full; [by constructor|]. intros i c Hi Ec Hc. by apply (IH i).
Qed.
End get.

(** ** The verifier *)

Section verify.
Context {K : Sha3}.
Variable T : ptree.
Hypothesis T_bounded : bounded T.
Variable proofDb : Mem.db.

(** Under the hash of a node of the tree the database has that node, if any. *)
Definition genuine : Prop := forall u b,
  sub u T -> isNode u -> proofDb !! H u = Some b -> b = enc_of u.
Hypothesis db_genuine : genuine.

Lemma path_self t key : canon t -> slot t key -> t ∈ path t key.
Proof.
  intros Hc Hs. destruct Hc; cbn [path]; [by left|by left|].
  destruct (slot_full _ _ Hs) as (b & r & -> & _). by left.
Qed.

(** The node under the hash of [t], decoded. *)
Lemma verify_decode t :
  canon t -> sub t T ->
  decodeNode (Some (H t)) (enc_of t) 0 = Ret (inr (expandC (Some (H t)) 0 (pcol t))).
Proof.
  intros Hc Hs. pose proof (T_bounded t Hs) as Hz. unfold decodeNode.
  rewrite <- (app_nil_r (enc_of t)) at 2. unfold enc_of in *.
  apply decode_collapsed; [by apply pcol_collapsed|lia|]. change (zlen (@nil byte)) with 0. lia.
Qed.

(** The verifier returns what a lookup returns, or misses a node on the path. *)
Lemma verifyLoop_ok fuel : forall i t key,
  canon t -> sub t T -> slot t key ->
  (exists n, verifyLoop fuel i (key_of_hash t) key proofDb = tok (plookup t key, n)) \/
  (exists j w, w ∈ path t key /\ (w = t \/ large w = true) /\ proofDb !! H w = None /\
     verifyLoop fuel i (key_of_hash t) key proofDb = terr (ProofNodeMissing j (key_of_hash w))) \/
  (verifyLoop fuel i (key_of_hash t) key proofDb = OutOfFuel /\ (fuel <= length key)%nat).
Proof.
  induction fuel as [|fuel IH]; intros i t key Hc Hs Hsl; [right; right; split; [done|lia]|].
  cbn [verifyLoop]. rewrite hashBytes_key. unfold Mem.Get.
  destruct (proofDb !! H t) as [buf|] eqn:E.
  2: { right. left. exists i, t. split; [by apply path_self|]. by auto. }
  rewrite (db_genuine t buf Hs (canon_isNode t Hc) E), verify_decode by done.
  destruct (canon_follows t Hc (Some (H t)) 0 key Hsl) as ([rest cld] & Eg & Hst & Hlen). rewrite Eg.
  inversion Hst as [? En|? v Ev|u ? Hu Hsu Hlu Hslu El Hpu Hle]; subst.
  - left. rewrite En. by eexists.
  - left. rewrite Ev. by eexists.
  - specialize (Hlen eq_refl). cbn [fst] in Hlen.
    destruct (IH (i + 1) u rest Hu (sub_trans _ _ _ Hsu Hs) Hslu) as [(n & En)|[(j & w & Hw & Hor & Hn & En)|[En Hf]]].
    + left. exists n. by rewrite El.
    + right. left. exists j, w. split; [by apply Hpu|]. split; [|done]. right. by destruct Hor as [->|].
    + right. right. split; [done|lia].
Qed.
End verify.

(** ** The prover *)

Section prover.
Context {R : NodeReader} {K : Sha3}.
Variable A : ptree -> Prop.
Local Instance prover_inv : FlagInv := hashInv A.
Variable T : ptree.
Hypothesis T_bounded : bounded T.

(** A node in memory and the subtree it stands for. *)
Definition onPath (n : node) (u : ptree) : Prop :=
  (exists b, expands b n u) /\ (exists fl, flagsOf n = Some fl) /\ canon u /\ sub u T.

Lemma proofNodes_ok fuel gen : forall b n t key,
  expands b n t -> slot t key -> sub t T -> (2 * length key + hashCost n <= fuel)%nat ->
  exists ns, proofNodes fuel gen n key = tok ns /\ Forall2 onPath ns (path t key).
Proof.
  induction fuel as [|fuel IH]; intros b n t key He Hs Hsub Hf.
  { destruct key; [|cbn in Hf; lia]. exists []. split; [done|].
    destruct Hs as [->|(v & -> & _)]; constructor. }
  destruct key as [|x r].
  { exists []. split; [done|]. destruct Hs as [->|(v & -> & _)]; constructor. }
  remember (x :: r) as key eqn:Ekey.
  assert (t = PNil \/ canon t) as Hcan by (subst key; apply Hs).
  destruct n as [|cs fl|k v fl|h|v].
  - inversion He; subst. by exists [].
  - inversion He as [| | |? ? ts ? Hl Hc Hfl|]; subst t b0 cs0 fl0. destruct Hcan as [|Hcan]; [done|].
    destruct (slot_full _ _ Hs) as (y & r' & E & Hk & _). rewrite Ekey in E. injection E as <- <-.
    destruct (full_child _ _ _ Hcan Hk) as (t & Et).
    destruct (expands_child _ _ _ _ _ _ He Et) as (c & Ec & Hct).
    destruct (IH false c t r Hct) as (ns & En & Hns).
    { by eapply canon_child. }
    { eapply sub_trans; [|done]. eapply sub_full; [done|constructor]. }
    { subst key. cbn [length] in Hf. unfold hashCost. destruct (isHash c); lia. }
    exists (fullNode cs fl :: ns). rewrite Ekey. cbn [proofNodes]. rewrite Ec. cbn [tget]. rewrite En. split; [done|].
    rewrite path_full, Et. constructor; [|done].
    split; [by exists b|]. split; [by exists fl|]. done.
  - inversion He as [| |? ? ? t' ? Hc Hfl| |]; subst t b0 k0 c fl0. destruct Hcan as [|Hcan]; [done|].
    pose proof (slot_short_nonempty _ _ _ Hs) as Hne.
    assert (onPath (shortNode k v fl) (PShort k t')) as Hon.
    { split; [by exists b|]. split; [by exists fl|]. done. }
    assert (proofNodes (S fuel) gen (shortNode k v fl) key =
      if bool_decide (take (length k) key = k)
      then do nodes := proofNodes fuel gen v (drop (length k) key) in tok (shortNode k v fl :: nodes)
      else tok [shortNode k v fl]) as ->.
    { rewrite Ekey at 1. cbn [proofNodes]. rewrite <- Ekey, prefix_test. by destruct (bool_decide _). }
    cbn [path]. case_bool_decide as E; [|by exists [shortNode k v fl]; split; [|constructor]].
    assert (key = k ++ drop (length k) key) as Ek by (rewrite <- E at 1; by rewrite take_drop).
    destruct (IH false v t' (drop (length k) key) Hc) as (ns & En & Hns).
    { rewrite Ek in Hs. by apply slot_short in Hs. }
    { eapply sub_trans; [|done]. apply sub_short. constructor. }
    { apply (f_equal length) in Ek. rewrite length_app in Ek. unfold hashCost in *. destruct (isHash v); cbn [isHash] in Hf; lia. }
    rewrite En. eexists. split; [done|]. by constructor.
  - destruct (resolveHash_ok gen b h [] t He) as (c & Er & Hh & Hc).
    destruct (IH b c t key Hc Hs Hsub) as (ns & En & Hns).
    { unfold hashCost in *. rewrite Hh. cbn [isHash] in Hf. lia. }
    exists ns. split; [|done]. rewrite Ekey at 1. cbn [proofNodes]. rewrite Er, <- Ekey. exact En.
  - inversion He; subst. apply slot_val in Hs as [? _]. done.
Qed.

Lemma no_leaf_calls : forall f v h d, (None : option (list byte -> Hash -> Database -> Database)) = Some f ->
  flush_ok d -> flush_ok (f v h d) /\ same_nodes d (f v h d).
Proof. done. Qed.

(** A node becomes an element of the proof if it is large, or the root. *)
Lemma proofElem_ok first n u fromLevel proofDb :
  onPath n u ->
  proofElem first n fromLevel proofDb = Ret (
    if large u || first then
      if fromLevel >? 0 then (fromLevel - 1, proofDb) else (fromLevel, <[H u := enc_of u]> proofDb)
    else (fromLevel, proofDb)).
Proof.
  intros ((b & He) & (fl & Hfl) & Hc & Hs). unfold proofElem.
  assert (held (Ao A None) b n u) as Hh by (by eapply expands_held).
  destruct (children_ok 0 0 None T T_bounded no_leaf_calls A n fl b u None Hh Hfl Hs Hc I)
    as (c & n' & o' & E & _ & Hg & Ee & Ec & _). rewrite E. destruct o'; [done|].
  assert (forall h, (cache c).1 = Some h -> h = H u) as Hcache.
  { intros h Eh. rewrite Ec in Eh. by apply (held_flags _ _ _ _ _ Hh Hfl). }
  destruct (store_ok None T T_bounded no_leaf_calls u c false None Hs Hc Ee I Hcache) as (hn & o2 & E2 & _ & _ & Hn).
  rewrite E2. cbn [orb] in Hn.
  assert (encodeNode c = Some (enc_of u)) as Een.
  { unfold encodeNode. rewrite <- nodeItem_erase, Ee. apply EncodeToBytes_rlp.
    pose proof (T_bounded u Hs). unfold enc_of in *. lia. }
  destruct (large u) eqn:El; cbn [orb].
  - destruct Hn as [-> _]. cbn [isHash orb]. rewrite Een. by destruct (_ >? _).
  - subst hn. assert (isHash c = false) as Eh by (rewrite <- isHash_erase, Ee; by destruct Hc).
    rewrite Eh. cbn [orb]. destruct first; [|done]. rewrite Een. destruct (_ >? _); [done|].
    by destruct c.
Qed.

(** The elements that are in the database afterwards. *)
Lemma proofElems_ok ns : forall us first proofDb,
  Forall2 onPath ns us -> injective T ->
  exists db', proofElems first ns 0 proofDb = Ret db' /\
    (forall u, u ∈ us -> large u = true \/ (first = true /\ head us = Some u) -> db' !! H u = Some (enc_of u)) /\
    (forall u, isNode u -> sub u T -> proofDb !! H u = Some (enc_of u) -> db' !! H u = Some (enc_of u)) /\
    (forall k b, db' !! k = Some b -> proofDb !! k = Some b \/ exists u, u ∈ us /\ k = H u /\ b = enc_of u).
Proof.
  induction ns as [|n ns IH]; intros us first proofDb Hus Hinj; inversion Hus as [|? u ? us' Hn Hns]; subst.
  { exists proofDb. split; [done|]. split; [intros u Hu; by apply elem_of_nil in Hu|]. split; [done|]. by left. }
  cbn [proofElems]. rewrite (proofElem_ok _ _ _ _ _ Hn). change (0 >? 0) with false. cbv iota.
  set (db1 := if large u || first then <[H u := enc_of u]> proofDb else proofDb).
  replace (if large u || first then (0, <[H u := enc_of u]> proofDb) else (0, proofDb)) with (0, db1)
    by (unfold db1; by destruct (large u || first)). cbv iota beta.
  destruct (IH us' false db1 Hns Hinj) as (db' & E & Hin & Hkeep & Hfrom). exists db'. split; [done|].
  destruct Hn as (_ & _ & Hcu & Hsu). pose proof (canon_isNode u Hcu) as Hnu.
  assert (forall w, isNode w -> sub w T -> H w = H u -> enc_of w = enc_of u) as Hsame.
  { intros w Hw Hsw Eh. unfold enc_of. rewrite (Hinj w u Hsw Hsu Hw Hnu); [done|].
    unfold key_of_hash. by rewrite Eh. }
  split; [|split].
  - intros w Hw Hor. apply elem_of_cons in Hw as [->|Hw].
    + apply Hkeep; [done|done|]. unfold db1. replace (large u || first) with true; [by rewrite lookup_insert_eq|].
      destruct Hor as [->|[-> _]]; [done|by rewrite orb_true_r].
    + destruct Hor as [Hl|[-> Hhd]]; [apply Hin; auto|]. injection Hhd as <-.
      apply Hkeep; [done|done|]. unfold db1. by rewrite orb_true_r, lookup_insert_eq.
  - intros w Hw Hsw Ew. apply Hkeep; [done|done|]. unfold db1. destruct (large u || first); [|done].
    destruct (decide (H u = H w)) as [Eh|]; [|by rewrite lookup_insert_ne].
    rewrite Eh, lookup_insert_eq. f_equal. symmetry. by apply Hsame.
  - intros k b Eb. destruct (Hfrom k b Eb) as [E1|(w & Hw & -> & ->)]; [|right; exists w; by split; [right|]].
    unfold db1 in E1. destruct (large u || first); [|by left].
    destruct (decide (H u = k)) as [<-|]; [|rewrite lookup_insert_ne in E1 by done; by left].
    rewrite lookup_insert_eq in E1. injection E1 as <-. right. exists u. by split; [left|].
Qed.
End prover.
