(* ===== verification/SecureTrie.v ===== *)
(** * trie/secure_trie.go: tries with hashed keys

    A [SecureTrie] hashes every key before it reaches the trie and remembers
    the keys it has hashed, so that they can be found again; [Commit] moves
    them to the database.  The cache of keys belongs to one object: a copy of
    the object still points to the owner and starts a cache of its own on its
    first use.  Objects have an identity for that. *)

From Stdlib Require Import ZArith Lia Bool.
From S2P Require Import Prelude GoMath TrieEncoding Trie TrieNode TrieDatabase TrieHasher TrieHashSpec TrieHashOk.
Local Open Scope Z_scope.
Local Open Scope trie_scope.

Section secure.
Context {K : Sha3}.

Record SecureTrie := mkSecure {
  st_trie : Trie;
  st_secKeyCache : gmap (list byte) (list byte);
  st_secKeyCacheOwner : option nat;
  st_self : nat
}.

Definition set_strie (tr : Trie) (t : SecureTrie) : SecureTrie :=
  mkSecure tr (st_secKeyCache t) (st_secKeyCacheOwner t) (st_self t).
Definition set_cache (c : gmap (list byte) (list byte)) (t : SecureTrie) : SecureTrie :=
  mkSecure (st_trie t) c (st_secKeyCacheOwner t) (st_self t).

Definition NewSecure {R : NodeReader} (self : nat) (root : Hash) (cachelimit : Z) : TM SecureTrie :=
  do trie := New root in
  tok (mkSecure (SetCacheLimit cachelimit trie) ∅ None self).

Definition hashKey (key : list byte) : list byte := keccak256 key.

(** The object after the cache has been looked up. *)
Definition getSecKeyCache (t : SecureTrie) : SecureTrie :=
  if bool_decide (st_secKeyCacheOwner t = Some (st_self t)) then t
  else mkSecure (st_trie t) ∅ (Some (st_self t)) (st_self t).

Section ops.
Context {R : NodeReader}.

(** The value, or the error; the object is updated in both cases. *)
Definition STryGet (t : SecureTrie) (key : list byte) : outcome ((trieErr + option (list byte)) * SecureTrie) :=
  match TryGet (st_trie t) (hashKey key) with
  | Ret (inr (v, tr)) => Ret (inr v, set_strie tr t)
  | Ret (inl e) => Ret (inl e, t)
  | Panic => Panic
  | OutOfFuel => OutOfFuel
  end.

Definition STryUpdate (t : SecureTrie) (key value : list byte) : outcome (option trieErr * SecureTrie) :=
  let hk := hashKey key in
  match TryUpdate (st_trie t) hk value with
  | Ret (inr tr) =>
      let t := getSecKeyCache (set_strie tr t) in
      Ret (None, set_cache (<[hk := key]> (st_secKeyCache t)) t)
  | Ret (inl e) => Ret (Some e, t)
  | Panic => Panic
  | OutOfFuel => OutOfFuel
  end.

Definition STryDelete (t : SecureTrie) (key : list byte) : outcome (option trieErr * SecureTrie) :=
  let hk := hashKey key in
  let t := getSecKeyCache t in
  let t := set_cache (base.delete hk (st_secKeyCache t)) t in
  match TryDelete (st_trie t) hk with
  | Ret (inr tr) => Ret (None, set_strie tr t)
  | Ret (inl e) => Ret (Some e, t)
  | Panic => Panic
  | OutOfFuel => OutOfFuel
  end.
End ops.

(** The key, and the object; an unknown preimage is nil. *)
Definition GetKey (d : Database) (t : SecureTrie) (shaKey : list byte) : option (list byte) * SecureTrie :=
  let t := getSecKeyCache t in
  match st_secKeyCache t !! shaKey with
  | Some key => (Some key, t)
  | None => (Database_preimage d (BytesToHash shaKey), t)
  end.

Definition insertPreimages (l : list (list byte * list byte)) : M Database unit :=
  forEach (fun e => insertPreimage (BytesToHash e.1) e.2) l.

Definition SCommit (t : SecureTrie) onleaf (d : Database) : outcome (Hash * SecureTrie * Database) :=
  let t := getSecKeyCache t in
  let '(t, pre) :=
    if bool_decide (st_secKeyCache t = ∅) then (t, [])
    else (set_cache ∅ t, map_to_list (st_secKeyCache t)) in
  match insertPreimages pre d with
  | Ret (_, d) =>
      match Trie_Commit (st_trie t) onleaf d with
      | Ret (h, tr, d) => Ret (h, set_strie tr t, d)
      | Panic => Panic
      | OutOfFuel => OutOfFuel
      end
  | Panic => Panic
  | OutOfFuel => OutOfFuel
  end.

Definition SHash (t : SecureTrie) : outcome (Hash * SecureTrie) :=
  match Hash_ (st_trie t) with
  | Ret (h, tr) => Ret (h, set_strie tr t)
  | Panic => Panic
  | OutOfFuel => OutOfFuel
  end.

(** The copy is a new object. *)
Definition Copy (self : nat) (t : SecureTrie) : SecureTrie :=
  mkSecure (st_trie t) (st_secKeyCache t) (st_secKeyCacheOwner t) self.

(** ** Preimages survive a commit of the trie *)

Definition same_preimages (o o' : option Database) : Prop :=
  match o, o' with
  | Some d, Some d' => d_preimages d' = d_preimages d
  | None, None => True
  | _, _ => False
  end.

Lemma same_preimages_refl o : same_preimages o o.
Proof. by destruct o. Qed.

Lemma same_preimages_trans o1 o2 o3 : same_preimages o1 o2 -> same_preimages o2 o3 -> same_preimages o1 o3.
Proof. destruct o1, o2, o3; try done. cbn. congruence. Qed.

Lemma forEach_keeps {X} (f : X -> M Database unit) l d r d' :
  (forall x d r d', f x d = Ret (r, d') -> d_preimages d' = d_preimages d) ->
  forEach f l d = Ret (r, d') -> d_preimages d' = d_preimages d.
Proof.
  intros Hf. revert d. induction l as [|x l IH]; intros d E; cbn [forEach] in E.
  - by injection E as _ <-.
  - unfold bind in E. destruct (f x d) as [[u d1]| |] eqn:Ef; try done.
    rewrite (IH d1 E). by eapply Hf.
Qed.

Lemma Database_insert_keeps h blob n d r d' :
  Database_insert h blob n d = Ret (r, d') -> d_preimages d' = d_preimages d.
Proof.
  unfold Database_insert, bind, get. destruct (d_nodes d !! h); [by intros [= _ <-]|].
  unfold must. destruct (simplifyNode n) as [rn|]; [|done]. cbn. unfold insert_entry, bind, get.
  destruct (d_nodes d !! h); [by intros [= _ <-]|].
  destruct (forEach _ _ d) as [[u d1]| |] eqn:Ef; try done.
  apply forEach_keeps in Ef; [|intros x e r0 e'; unfold updIfPresent, modify; by intros [= _ <-]].
  unfold modify. cbn [d_oldest set_nodes]. destruct (d_oldest d1 =? 0); [by intros [= _ <-]|].
  unfold updNode, bind, get, must, put. cbn [d_nodes set_nodes d_newest].
  destruct (<[h:=_]> (d_nodes d1) !! d_newest d1); [|done]. by intros [= _ <-].
Qed.

Section walk.
Variables (cachegen cachelimit : Z).
Variable onleaf : option (list byte -> Hash -> Database -> Database).
Hypothesis leaf_keeps : forall f v h d, onleaf = Some f -> d_preimages (f v h d) = d_preimages d.

Lemma leafCalls_keeps n h d : d_preimages (leafCalls onleaf n h d) = d_preimages d.
Proof.
  unfold leafCalls. destruct onleaf as [f|] eqn:Ef; [|done]. destruct n as [|cs fl|k v fl| |]; try done.
  - generalize (take 16 cs). intros l. revert d. induction l as [|c l IH]; intros d; [done|]. cbn [fold_left].
    rewrite IH. destruct c; try done. by apply leaf_keeps.
  - destruct v; try done. by apply leaf_keeps.
Qed.

Lemma store_keeps n force o r o' : store onleaf n force o = Ret (r, o') -> same_preimages o o'.
Proof.
  unfold store. destruct (isNil n || isHash n); [intros [= _ <-]; apply same_preimages_refl|].
  unfold bind, must. destruct (encodeNode n) as [tmp|]; [|done]. cbn [ret].
  destruct (_ && _); [intros [= _ <-]; apply same_preimages_refl|].
  destruct o as [d|]; cbn [inDatabase]; [|by intros [= _ <-]].
  destruct (Database_insert _ tmp n d) as [[u d1]| |] eqn:Ei; try done.
  unfold modify. intros [= _ <-]. cbn. rewrite leafCalls_keeps. by eapply Database_insert_keeps.
Qed.

Definition keeps (n : node) : Prop := forall force o r o',
  hash cachegen cachelimit onleaf n force o = Ret (r, o') -> same_preimages o o'.

Lemma hashKids_keeps cs : Forall keeps cs -> forall i o r o',
  hashKids (fun c => hash cachegen cachelimit onleaf c false) i cs o = Ret (r, o') -> same_preimages o o'.
Proof.
  induction 1 as [|c cs Hc _ IH]; intros i o r o' E; [injection E as _ <-; apply same_preimages_refl|].
  rewrite hashKids_cons in E. unfold bind in E.
  destruct ((if (i <? 16)%nat && negb (isNil c) then hash cachegen cachelimit onleaf c false
    else ret (c, c)) o) as [[[c1 c2] o1]| |] eqn:E1; try done.
  destruct (hashKids _ (S i) cs o1) as [[[cs1 cs2] o2]| |] eqn:E2; try done. injection E as _ <-.
  apply (same_preimages_trans _ o1); [|by eapply IH].
  destruct (_ && _); [by eapply Hc|]. injection E1 as _ _ <-. apply same_preimages_refl.
Qed.

Lemma hash_keeps n : keeps n.
Proof.
  induction n as [|cs fl IH|k v fl IH|h|w] using node_ind'; intros force o r o' E; [done|..];
    rewrite hash_eq in E by done;
    (destruct (useCache _ _ _ _); [injection E as _ <-; apply same_preimages_refl|]);
    unfold bind in E at 1; cbn [hashChildren] in E.
  - unfold bind in E at 1. destruct (hashKids _ 0 cs o) as [[[cs1 cs2] o1]| |] eqn:E1; try done.
    cbn [ret] in E. unfold bind in E. destruct (store _ _ _ o1) as [[hd o2]| |] eqn:E2; try done.
    injection E as _ <-. apply (same_preimages_trans _ o1); [by eapply hashKids_keeps|by eapply store_keeps].
  - unfold bind in E at 1. unfold must in E. destruct (hexToCompact k) as [ck|]; [|done]. cbn [ret] in E.
    unfold bind in E at 1.
    destruct (match v with valueNode _ => ret (v, v) | _ => hash cachegen cachelimit onleaf v false end o)
      as [[[v1 v2] o1]| |] eqn:E1; try done.
    cbn [ret] in E. unfold bind in E. destruct (store _ _ _ o1) as [[hd o2]| |] eqn:E2; try done.
    injection E as _ <-. apply (same_preimages_trans _ o1); [|by eapply store_keeps].
    destruct v; try (by eapply IH). injection E1 as _ _ <-. apply same_preimages_refl.
  - cbn [ret] in E. unfold bind in E. destruct (store _ _ _ o) as [[hd o2]| |] eqn:E2; try done.
    injection E as _ <-. by eapply store_keeps.
  - cbn [ret] in E. unfold bind in E. destruct (store _ _ _ o) as [[hd o2]| |] eqn:E2; try done.
    injection E as _ <-. by eapply store_keeps.
Qed.

Lemma Trie_Commit_keeps t d h t' d' :
  t_cachegen t = cachegen -> t_cachelimit t = cachelimit ->
  Trie_Commit t onleaf d = Ret (h, t', d') -> d_preimages d' = d_preimages d.
Proof.
  intros Hg Hl. unfold Trie_Commit, hashRoot. rewrite Hg, Hl.
  assert (forall m : M (option Database) (node * node),
    (forall r o', m (Some d) = Ret (r, o') -> same_preimages (Some d) o') ->
    match m (Some d) with
    | Ret (h, cached, Some d) =>
        match rootHash h with
        | Some h => Ret (h, mkTrie cached (t_originalRoot t) (u16 (cachegen + 1)) cachelimit, d)
        | None => Panic
        end
    | Ret (h, cached, None) => Panic
    | Panic => Panic
    | OutOfFuel => OutOfFuel
    end = Ret (h, t', d') -> d_preimages d' = d_preimages d) as Hm.
  { intros m Hm E. destruct (m (Some d)) as [[[hd c] [d1|]]| |] eqn:Em; try done.
    destruct (rootHash hd); [|done]. injection E as _ _ <-. exact (Hm (hd, c) (Some d1) eq_refl). }
  destruct (t_root t) as [|cs fl|k v fl|hh|w] eqn:Er; apply Hm; intros r o' E.
  - by injection E as _ <-.
  - by eapply hash_keeps.
  - by eapply hash_keeps.
  - by eapply hash_keeps.
  - by eapply hash_keeps.
Qed.
End walk.
End secure.
