(* ===== verification/TrieIterator.v ===== *)
(** * trie/iterator.go: walking a trie

    [nodeIterator] visits the nodes of a trie in pre-order and loads them as it
    goes; [Iterator] stops at the values.  The stack of the iterator is kept with
    its top first; a pointer to the index of a stack entry is the entry below the
    top.  The loops that look for a start and for the next value go on as long
    as the trie has nodes: they run on fuel.

    The iterators over differences and unions of tries are left out. *)

From Stdlib Require Import ZArith Lia Bool.
From S2P Require Import Prelude GoMath TrieEncoding Trie TrieNode TrieDatabase TrieHasher.
Local Open Scope Z_scope.
Local Open Scope go_scope.

Record nodeIteratorState := mkState {
  st_hash : Hash;
  st_node : node;
  st_parent : Hash;
  st_index : Z;
  st_pathlen : Z
}.

Inductive iterErr := errIteratorEnd | seekError (key : list byte) (err : trieErr) | loadError (err : trieErr).

Record nodeIterator := mkNI {
  ni_trie : option Trie;
  ni_stack : list nodeIteratorState;
  ni_path : list byte;
  ni_err : option iterErr
}.

Definition with_index (i : Z) (st : nodeIteratorState) : nodeIteratorState :=
  mkState (st_hash st) (st_node st) (st_parent st) i (st_pathlen st).

Abbreviation NM := (M nodeIterator).

Definition set_trie (t : Trie) (it : nodeIterator) : nodeIterator := mkNI (Some t) (ni_stack it) (ni_path it) (ni_err it).
Definition set_walk (stack : list nodeIteratorState) (path : list byte) (it : nodeIterator) : nodeIterator :=
  mkNI (ni_trie it) stack path (ni_err it).
Definition set_err (e : option iterErr) (it : nodeIterator) : nodeIterator := mkNI (ni_trie it) (ni_stack it) (ni_path it) e.

(** [bytes.Compare]. *)
Fixpoint bytesCompare (a b : list byte) : comparison :=
  match a, b with
  | [], [] => Eq
  | [], _ :: _ => Lt
  | _ :: _, [] => Gt
  | x :: a, y :: b => match byteZ x ?= byteZ y with Eq => bytesCompare a b | c => c end
  end.

(** [bytes.HasPrefix(s, prefix)]. *)
Definition HasPrefix (s prefix : list byte) : bool := bool_decide (take (length prefix) s = prefix).

Section iterator.
Context {K : Sha3} {R : NodeReader}.

(** The known hash of an empty state trie entry. *)
Definition emptyState : Hash := BytesToHash (keccak256 []).

Definition resolveState (tr : Trie) (path : list byte) (st : nodeIteratorState) : TM nodeIteratorState :=
  match st_node st with
  | hashNode h =>
      match resolveHash (t_cachegen tr) h path with
      | Ret (inr resolved) => tok (mkState (BytesToHash h) resolved (st_parent st) (st_index st) (st_pathlen st))
      | Ret (inl e) => terr e
      | Panic => Panic
      | OutOfFuel => OutOfFuel
      end
  | _ => tok st
  end.

(** The first child that is not nil, and its index. *)
Fixpoint firstChild (i : nat) (children : list node) : option (nat * node) :=
  match children with
  | [] => None
  | c :: cs => if isNil c then firstChild (S i) cs else Some (i, c)
  end.

(** [BytesToHash] of a hash that may be nil. *)
Definition cachedHash (n : node) : Hash := match fst (cache n) with Some h => BytesToHash h | None => 0 end.

(** The next child of the top of the stack, its path, and the top with its new
    index. *)
Definition nextChild (path : list byte) (parent : nodeIteratorState) (ancestor : Hash) :
    option (nodeIteratorState * list byte * nodeIteratorState) :=
  match st_node parent with
  | fullNode children _ =>
      let from := Z.to_nat (st_index parent + 1) in
      match firstChild from (drop from children) with
      | Some (i, child) =>
          Some (mkState (cachedHash child) child ancestor (-1) (zlen path), path ++ [Zbyte (Z.of_nat i)],
                with_index (Z.of_nat i - 1) parent)
      | None => None
      end
  | shortNode key val _ =>
      if st_index parent <? 0 then
        Some (mkState (cachedHash val) val ancestor (-1) (zlen path), path ++ key, parent)
      else None
  | _ => None
  end.

(** The loop of [peek]: go up until there is a next child; the rest of the stack
    and the path are what [pop] leaves. *)
Fixpoint peekLoop (tr : Trie) (stack : list nodeIteratorState) (path : list byte) :
    outcome ((iterErr + (nodeIteratorState * list byte)) * list nodeIteratorState * list byte) :=
  match stack with
  | [] => Ret (inl errIteratorEnd, [], path)
  | parent :: rest =>
      let ancestor := if st_hash parent =? 0 then st_parent parent else st_hash parent in
      match nextChild path parent ancestor with
      | Some (state, path', parent) =>
          match resolveState tr path' state with
          | Ret (inr state) => Ret (inr (state, path'), parent :: rest, path)
          | Ret (inl e) => Ret (inl (loadError e), parent :: rest, path)
          | Panic => Panic
          | OutOfFuel => OutOfFuel
          end
      | None =>
          match slice path 0 (st_pathlen parent) with
          | Some path => peekLoop tr rest path
          | None => Panic
          end
      end
  end.

Definition pop : NM unit :=
  let* it := get in
  match ni_stack it with
  | [] => panic
  | parent :: stack =>
      let* path := must (slice (ni_path it) 0 (st_pathlen parent)) in
      modify (set_walk stack path)
  end.

(** The next state, whether its parent is on the stack, and its path. *)
Definition peek (descend : bool) : NM (iterErr + (nodeIteratorState * bool * list byte)) :=
  let* it := get in
  let* tr := must (ni_trie it) in
  match ni_stack it with
  | [] =>
      match Hash_ tr with
      | Ret (root, tr) =>
          modify (set_trie tr) ;;
          let state := mkState (if root =? emptyRoot then 0 else root) (t_root tr) 0 (-1) 0 in
          match resolveState tr [] state with
          | Ret (inr state) => ret (inr (state, false, []))
          | Ret (inl e) => ret (inl (loadError e))
          | Panic => panic
          | OutOfFuel => fun _ => OutOfFuel
          end
      | Panic => panic
      | OutOfFuel => fun _ => OutOfFuel
      end
  | _ =>
      (if descend then ret tt else pop) ;;
      let* it := get in
      match peekLoop tr (ni_stack it) (ni_path it) with
      | Ret (r, stack, path) =>
          modify (set_walk stack path) ;;
          ret (match r with inl e => inl e | inr (state, path) => inr (state, true, path) end)
      | Panic => panic
      | OutOfFuel => fun _ => OutOfFuel
      end
  end.

Definition push (state : nodeIteratorState) (parentIndex : bool) (path : list byte) : NM unit :=
  modify (fun it =>
    let stack :=
      match ni_stack it with
      | parent :: stack => (if parentIndex then with_index (st_index parent + 1) parent else parent) :: stack
      | [] => []
      end in
    set_walk (state :: stack) path it).

(** Move to just before the first node at [key] or behind; the error to keep. *)
Fixpoint seekLoop (fuel : nat) (prefix key : list byte) : NM (option iterErr) :=
  match fuel with
  | O => fun _ => OutOfFuel
  | S fuel =>
      let* it := get in
      let* r := peek (HasPrefix key (ni_path it)) in
      match r with
      | inl errIteratorEnd => ret (Some errIteratorEnd)
      | inl (loadError e) => ret (Some (seekError prefix e))
      | inl (seekError _ e) => ret (Some (seekError prefix e))
      | inr (state, parentIndex, path) =>
          match bytesCompare path key with
          | Lt => push state parentIndex path ;; seekLoop fuel prefix key
          | _ => ret None
          end
      end
  end.

Definition seek (fuel : nat) (prefix : list byte) : NM (option iterErr) :=
  let key := keybytesToHex prefix in
  let* key := must (slice key 0 (zlen key - 1)) in
  seekLoop fuel prefix key.

(** [Trie.NodeIterator]; the result shares the trie. *)
Definition newNodeIterator (fuel : nat) (trie : Trie) (start : list byte) : outcome nodeIterator :=
  match Hash_ trie with
  | Ret (root, trie) =>
      if root =? emptyState then Ret (mkNI None [] [] None)
      else
        match seek fuel start (mkNI (Some trie) [] [] None) with
        | Ret (err, it) => Ret (set_err err it)
        | Panic => Panic
        | OutOfFuel => OutOfFuel
        end
  | Panic => Panic
  | OutOfFuel => OutOfFuel
  end.

Definition Next_ (fuel : nat) (descend : bool) : NM bool :=
  let step : NM bool :=
    let* r := peek descend in
    match r with
    | inl err => modify (set_err (Some err)) ;; ret false
    | inr (state, parentIndex, path) =>
        modify (set_err None) ;;
        push state parentIndex path ;;
        ret true
    end in
  let* it := get in
  match ni_err it with
  | Some errIteratorEnd => ret false
  | Some (seekError key _) =>
      let* err := seek fuel key in
      modify (set_err err) ;;
      match err with Some _ => ret false | None => step end
  | _ => step
  end.

Definition Leaf (it : nodeIterator) : bool := hasTerm (ni_path it).

(** [None]: not at a leaf, or a key of half a byte, which panics. *)
Definition LeafKey (it : nodeIterator) : option (list byte) :=
  match ni_stack it with
  | st :: _ => match st_node st with valueNode _ => hexToKeybytes (ni_path it) | _ => None end
  | [] => None
  end.

Definition LeafBlob (it : nodeIterator) : option (list byte) :=
  match ni_stack it with
  | st :: _ => match st_node st with valueNode v => Some v | _ => None end
  | [] => None
  end.

Definition Error_ (it : nodeIterator) : option trieErr :=
  match ni_err it with
  | None | Some errIteratorEnd => None
  | Some (seekError _ e) => Some e
  | Some (loadError e) => Some e
  end.

Definition Hash_of (it : nodeIterator) : Hash := match ni_stack it with st :: _ => st_hash st | [] => 0 end.
Definition Parent (it : nodeIterator) : Hash := match ni_stack it with st :: _ => st_parent st | [] => 0 end.
Definition Path (it : nodeIterator) : list byte := ni_path it.

(** The nodes from the root down that end up as hash nodes, encoded, and the
    root in any case; [first] is [i == 0]. *)
Fixpoint leafProofs (first : bool) (nodes : list node) : outcome (list (list byte)) :=
  match nodes with
  | [] => Ret []
  | n :: nodes =>
      match hashChildren (fun c => hash 0 0 None c false) n None with
      | Ret ((n, _), _) =>
          match store None n false None with
          | Ret (hashed, _) =>
              match leafProofs false nodes with
              | Ret proofs =>
                  if isHash hashed || first then
                    match encodeNode n with Some enc => Ret (enc :: proofs) | None => Panic end
                  else Ret proofs
              | r => r
              end
          | Panic => Panic
          | OutOfFuel => OutOfFuel
          end
      | Panic => Panic
      | OutOfFuel => OutOfFuel
      end
  end.

Definition LeafProof (it : nodeIterator) : outcome (list (list byte)) :=
  match ni_stack it with
  | st :: stack =>
      match st_node st with
      | valueNode _ => leafProofs true (map st_node (rev stack))
      | _ => Panic
      end
  | [] => Panic
  end.

(** [Iterator.Next]: the next key and value, or the end. *)
Fixpoint IterNext (fuel : nat) : NM (option (list byte * list byte)) :=
  match fuel with
  | O => fun _ => OutOfFuel
  | S fuel =>
      let* more := Next_ (S fuel) true in
      if more then
        let* it := get in
        if Leaf it then
          let* key := must (LeafKey it) in
          let* value := must (LeafBlob it) in
          ret (Some (key, value))
        else IterNext fuel
      else ret None
  end.

(** All the entries from [start] on, as a caller collects them, and the error. *)
Fixpoint collect (fuel : nat) : NM (list (list byte * list byte)) :=
  match fuel with
  | O => fun _ => OutOfFuel
  | S fuel =>
      let* r := IterNext (S fuel) in
      match r with
      | None => ret []
      | Some kv => let* l := collect fuel in ret (kv :: l)
      end
  end.

Definition entriesFrom (fuel : nat) (trie : Trie) (start : list byte) : outcome (list (list byte * list byte) * option trieErr) :=
  match newNodeIterator fuel trie start with
  | Ret it =>
      match collect fuel it with
      | Ret (l, it) => Ret (l, Error_ it)
      | Panic => Panic
      | OutOfFuel => OutOfFuel
      end
  | Panic => Panic
  | OutOfFuel => OutOfFuel
  end.
End iterator.
