(* ===== verification/VmStack.v ===== *)
(** * core/vm: errors, the operand stack and its validation

    [core/vm/errors.go], [core/vm/stack.go] and [core/vm/stack_table.go].
    The data of a [Stack] is kept top first: element [i] of the list is
    [st.data\[len-1-i\]].  Operations that index the slice return [None] where
    the code panics.  The values are the contents of the [*big.Int] cells; each
    cell is owned by one stack slot (a [dup] copies into a fresh cell), so an
    in-place update of the top cell is the replacement of the head. *)

From Stdlib Require Import ZArith Lia Bool.
From S2P Require Import Prelude GoMath Params.
Local Open Scope Z_scope.

(** ** Errors of the virtual machine *)

Inductive vmErr : Type :=
| ErrOutOfGas
| ErrCodeStoreOutOfGas
| ErrDepth
| ErrTraceLimitReached
| ErrInsufficientBalance
| ErrContractAddressCollision
| errWriteProtection
| errReturnDataOutOfBounds
| errExecutionReverted
| errMaxCodeSizeExceeded
| errGasUintOverflow
| errBadPairingInput
| errCurvePoint                       (** a bn256 point that does not decode *)
| errStackUnderflow (len n : Z)
| errStackLimit (len : Z)
| errInvalidOpcode (op : Z)
| errInvalidJump (op pos : Z).

#[export] Instance vmErr_eq_dec : EqDecision vmErr.
Proof. solve_decision. Defined.

(** ** core/vm/stack.go *)

Abbreviation Stack := (list Z) (only parsing).

Definition newstack : Stack := [].
Definition push (d : Z) (st : Stack) : Stack := d :: st.
Definition pushN (ds : list Z) (st : Stack) : Stack := rev ds ++ st.

Definition pop (st : Stack) : option (Z * Stack) :=
  match st with
  | [] => None
  | x :: st' => Some (x, st')
  end.

Definition stack_len (st : Stack) : Z := zlen st.

(** [st.data\[len-n\]] and [st.data\[len-1\]] trade places. *)
Definition swap (n : nat) (st : Stack) : option Stack :=
  match st, n with
  | x :: _, S i =>
      match st !! i with
      | Some y => Some (<[O := y]> (<[i := x]> st))
      | None => None
      end
  | _, _ => None
  end.

(** [st.data\[len-n\]] is copied to a fresh top cell. *)
Definition dup (n : nat) (st : Stack) : option Stack :=
  match n with
  | S i => match st !! i with Some x => Some (push x st) | None => None end
  | O => None
  end.

Definition peek (st : Stack) : option Z := head st.

(** [Back(n)]: the [n]'th item from the top. *)
Definition Back (st : Stack) (n : nat) : option Z := st !! n.

Definition require (st : Stack) (n : Z) : option vmErr :=
  if stack_len st <? n then Some (errStackUnderflow (stack_len st) n) else None.

(** In-place update of the cell on top. *)
Definition set_top (v : Z) (st : Stack) : option Stack :=
  match st with [] => None | _ :: st' => Some (v :: st') end.

(** ** core/vm/stack_table.go *)

Definition makeStackFunc (pop push : Z) (st : Stack) : option vmErr :=
  match require st pop with
  | Some e => Some e
  | None =>
      if stack_len st + push - pop >? StackLimit
      then Some (errStackLimit (stack_len st)) else None
  end.

Definition makeDupStackFunc (n : Z) : Stack -> option vmErr :=
  makeStackFunc n (n + 1).
Definition makeSwapStackFunc (n : Z) : Stack -> option vmErr := makeStackFunc n n.

(** ** Invariant: 256-bit words, at most [StackLimit] of them *)

Definition stack_words (st : Stack) : Prop := Forall is_word st.
Definition stack_ok (st : Stack) : Prop :=
  stack_words st /\ stack_len st <= StackLimit.

(** Validation is exact: it passes iff the operands are there and the results
    fit under the limit. *)
Lemma makeStackFunc_None npop npush st :
  makeStackFunc npop npush st = None <->
  npop <= stack_len st /\ stack_len st + npush - npop <= StackLimit.
Proof.
  unfold makeStackFunc, require. repeat split_if; split; try done; lia.
Qed.

Lemma stack_cells n st :
  Z.of_nat n <= stack_len st ->
  exists ops rest, st = ops ++ rest /\ length ops = n.
Proof.
  unfold stack_len, zlen. intros H. exists (take n st), (drop n st).
  rewrite take_drop, length_take. split; [done|lia].
Qed.

Lemma swap_length n st st' : swap n st = Some st' -> length st' = length st.
Proof.
  unfold swap. destruct st as [|x st], n as [|i]; try done.
  destruct (_ !! i); [|done]. intros <-%(inj Some). by rewrite !length_insert.
Qed.

Lemma swap_words n st st' :
  stack_words st -> swap n st = Some st' -> stack_words st'.
Proof.
  unfold swap, stack_words. destruct st as [|x st], n as [|i]; try done.
  intros H. destruct (_ !! i) as [y|] eqn:E; [|done]. intros <-%(inj Some).
  assert (is_word y) by (eapply Forall_lookup_1; eauto).
  assert (is_word x) by (by inversion H).
  by apply Forall_insert; [apply Forall_insert|].
Qed.

(** A [swap] exchanges exactly two cells. *)
Lemma swap_spec n st st' :
  swap (S n) st = Some st' ->
  st' !! O = st !! n /\ st' !! n = st !! O /\
  forall i, i <> O -> i <> n -> st' !! i = st !! i.
Proof.
  unfold swap. destruct st as [|x st]; [done|].
  destruct ((x :: st) !! n) as [y|] eqn:E; [|done]. intros <-%(inj Some).
  pose proof (lookup_lt_Some _ _ _ E) as Hlt.
  split; [|split].
  - by rewrite list_lookup_insert_eq by (rewrite length_insert; cbn; lia).
  - destruct (decide (n = O)) as [->|Hn].
    + rewrite list_lookup_insert_eq by (rewrite length_insert; cbn; lia). done.
    + rewrite list_lookup_insert_ne by done. by rewrite list_lookup_insert_eq.
  - intros i H0 Hi. by rewrite !list_lookup_insert_ne by done.
Qed.

Lemma dup_spec n st st' :
  dup (S n) st = Some st' -> exists x, st !! n = Some x /\ st' = x :: st.
Proof.
  unfold dup. destruct (st !! n) as [x|]; [|done]. intros [= <-]. by exists x.
Qed.
