(* ===== verification/VmMemory.v ===== *)
(** * core/vm: byte memory, calldata slices and memory sizing

    [core/vm/memory.go], [core/vm/common.go] and [core/vm/memory_table.go].
    [None] is a Go panic: the explicit ones of [Set] and [Set32], and the
    slice-bounds ones. *)

From Stdlib Require Import ZArith Lia Bool.
From S2P Require Import Prelude GoMath Params VmStack.
Local Open Scope Z_scope.

(** ** core/vm/memory.go *)

Record Memory := mkMemory {
  mem_store : list byte;
  mem_lastGasCost : Z
}.

Definition NewMemory : Memory := mkMemory [] 0.

Definition mem_Len (m : Memory) : Z := zlen (mem_store m).

Definition with_store (m : Memory) (s : list byte) : Memory :=
  mkMemory s (mem_lastGasCost m).

(** [copy(m.store\[offset:offset+size\], value)]. *)
Definition mem_Set (m : Memory) (offset size : Z) (value : list byte)
    : option Memory :=
  if size >? 0 then
    let top := u64 (offset + size) in
    if top >? mem_Len m then None
    else
      match slice (mem_store m) offset top with
      | None => None
      | Some _ => Some (with_store m (splice (mem_store m) offset size value))
      end
  else Some m.

(** The 32 bytes at [offset] are zeroed, then filled by [ReadBits]. *)
Definition mem_Set32 (m : Memory) (offset val : Z) : option Memory :=
  let top := u64 (offset + 32) in
  if top >? mem_Len m then None
  else
    match slice (mem_store m) offset top with
    | None => None
    | Some _ =>
        Some (with_store m
          (splice (mem_store m) offset 32 (ReadBits val (replicate 32 x00))))
    end.

Definition mem_Resize (m : Memory) (size : Z) : Memory :=
  if mem_Len m <? size
  then with_store m (mem_store m ++ replicate (Z.to_nat (size - mem_Len m)) x00)
  else m.

(** [Get] copies, [GetPtr] aliases; both read the same bytes. *)
Definition mem_Get (m : Memory) (offset size : Z) : option (list byte) :=
  if size =? 0 then Some []
  else if mem_Len m >? offset then
    if size <? 0 then None
    else slice (mem_store m) offset (i64 (offset + size))
  else Some [].

Definition mem_GetPtr (m : Memory) (offset size : Z) : option (list byte) :=
  if size =? 0 then Some []
  else if mem_Len m >? offset
  then slice (mem_store m) offset (i64 (offset + size))
  else Some [].

(** [memory.store\[off\] = b]. *)
Definition mem_SetByte (m : Memory) (off : Z) (b : byte) : option Memory :=
  match store (mem_store m) off b with
  | Some s => Some (with_store m s)
  | None => None
  end.

(** ** core/vm/common.go *)

Definition calcMemSize (off l : Z) : Z := if l =? 0 then 0 else off + l.

Definition getData (data : list byte) (start size : Z) : option (list byte) :=
  let length := zlen data in
  let start := if start >? length then length else start in
  let end_ := u64 (start + size) in
  let end_ := if end_ >? length then length else end_ in
  match slice data start end_ with
  | Some s => Some (RightPadBytes s (i64 size))
  | None => None
  end.

Definition getDataBig (data : list byte) (start size : Z) : option (list byte) :=
  let dlen := zlen data in
  let s := BigMin start dlen in
  let e := BigMin (s + size) dlen in
  match slice data (Uint64 s) (Uint64 e) with
  | Some d => Some (RightPadBytes d (i64 (Uint64 size)))
  | None => None
  end.

Definition bigUint64 (v : Z) : Z * bool := (Uint64 v, BitLen v >? 64).

Definition toWordSize (size : Z) : Z :=
  if size >? MaxUint64 - 31 then MaxUint64 / 32 + 1
  else u64 (size + 31) / 32.

Definition allZero (b : list byte) : bool :=
  forallb (fun x => bool_decide (x = x00)) b.

(** ** core/vm/memory_table.go

    The operands are read with [Back]; [None] is an out-of-range index. *)

Definition sized (off len : option Z) : option Z :=
  match off, len with
  | Some o, Some l => Some (calcMemSize o l)
  | _, _ => None
  end.

Definition larger (x y : option Z) : option Z :=
  match x, y with Some a, Some b => Some (BigMax a b) | _, _ => None end.

Definition memorySha3 (st : Stack) := sized (Back st 0) (Back st 1).
Definition memoryCallDataCopy (st : Stack) := sized (Back st 0) (Back st 2).
Definition memoryReturnDataCopy (st : Stack) := sized (Back st 0) (Back st 2).
Definition memoryCodeCopy (st : Stack) := sized (Back st 0) (Back st 2).
Definition memoryExtCodeCopy (st : Stack) := sized (Back st 1) (Back st 3).
Definition memoryMLoad (st : Stack) := sized (Back st 0) (Some 32).
Definition memoryMStore8 (st : Stack) := sized (Back st 0) (Some 1).
Definition memoryMStore (st : Stack) := sized (Back st 0) (Some 32).
Definition memoryCreate (st : Stack) := sized (Back st 1) (Back st 2).
Definition memoryCall (st : Stack) :=
  larger (sized (Back st 5) (Back st 6)) (sized (Back st 3) (Back st 4)).
Definition memoryDelegateCall (st : Stack) :=
  larger (sized (Back st 4) (Back st 5)) (sized (Back st 2) (Back st 3)).
Definition memoryStaticCall (st : Stack) :=
  larger (sized (Back st 4) (Back st 5)) (sized (Back st 2) (Back st 3)).
Definition memoryReturn (st : Stack) := sized (Back st 0) (Back st 1).
Definition memoryRevert (st : Stack) := sized (Back st 0) (Back st 1).
Definition memoryLog (st : Stack) := sized (Back st 0) (Back st 1).

(** ** Lemmas: memory *)

(** The bound the gas function puts on every memory size (see [Gas]). *)
Definition mem_small (m : Memory) : Prop := mem_Len m <= 2 ^ 40.

Lemma mem_Resize_Len m size : mem_Len (mem_Resize m size) = Z.max (mem_Len m) size.
Proof.
  unfold mem_Resize. split_if; [|lia].
  unfold mem_Len in *. cbn. rewrite zlen_app, zlen_replicate. lia.
Qed.

Lemma mem_Set_ok m offset size value :
  mem_small m -> 0 <= size -> (0 < size -> 0 <= offset /\ offset + size <= mem_Len m) ->
  exists m', mem_Set m offset size value = Some m' /\ mem_Len m' = mem_Len m /\
             mem_lastGasCost m' = mem_lastGasCost m.
Proof.
  unfold mem_small, mem_Set, mem_Len. intros Hs Hsz Hr. split_if; [|by exists m].
  destruct Hr as [H0 H1]; [lia|].
  rewrite (u64_small (offset + size)) by (unfold is_u64; lia).
  replace (offset + size >? zlen (mem_store m)) with false by lia.
  rewrite slice_Some by lia. eexists. split; [done|]. cbn.
  by rewrite splice_zlen by lia.
Qed.

Lemma mem_Set32_ok m offset val :
  mem_small m -> 0 <= offset -> offset + 32 <= mem_Len m ->
  exists m', mem_Set32 m offset val = Some m' /\ mem_Len m' = mem_Len m /\
             mem_lastGasCost m' = mem_lastGasCost m.
Proof.
  unfold mem_small, mem_Set32, mem_Len. intros Hs H0 H1.
  rewrite (u64_small (offset + 32)) by (unfold is_u64; lia).
  replace (offset + 32 >? zlen (mem_store m)) with false by lia.
  rewrite slice_Some by lia. eexists. split; [done|]. cbn.
  by rewrite splice_zlen by lia.
Qed.

Lemma mem_Get_ok m offset size :
  mem_small m -> 0 <= size -> (0 < size -> 0 <= offset /\ offset + size <= mem_Len m) ->
  mem_Get m offset size =
    Some (take (Z.to_nat size) (drop (Z.to_nat offset) (mem_store m))).
Proof.
  unfold mem_small, mem_Get, mem_Len. intros Hs Hsz Hr.
  split_if; [by subst|]. destruct Hr as [H0 H1]; [lia|].
  replace (zlen (mem_store m) >? offset) with true by lia.
  replace (size <? 0) with false by lia.
  rewrite i64_small, slice_Some by lia. do 3 f_equal. lia.
Qed.

Lemma mem_GetPtr_ok m offset size :
  mem_small m -> 0 <= size -> (0 < size -> 0 <= offset /\ offset + size <= mem_Len m) ->
  mem_GetPtr m offset size =
    Some (take (Z.to_nat size) (drop (Z.to_nat offset) (mem_store m))).
Proof.
  intros Hs Hsz Hr. rewrite <- mem_Get_ok by done. unfold mem_Get, mem_GetPtr.
  repeat split_if; try done. lia.
Qed.

Lemma mem_SetByte_ok m off b :
  0 <= off < mem_Len m ->
  exists m', mem_SetByte m off b = Some m' /\ mem_Len m' = mem_Len m /\
             mem_lastGasCost m' = mem_lastGasCost m.
Proof.
  unfold mem_SetByte, mem_Len. intros H. rewrite store_Some by done.
  eexists. split; [done|]. cbn. unfold zlen. by rewrite length_insert.
Qed.

(** ** Lemmas: slices of calldata and code *)

(** The bytes [start, start+size) of [data] extended with zeros. *)
Definition padded (data : list byte) (start size : Z) : list byte :=
  take (Z.to_nat size)
    (drop (Z.to_nat start) data ++ replicate (Z.to_nat size) x00).

Lemma RightPad_padded data start size :
  0 <= start <= zlen data -> 0 <= size ->
  RightPadBytes (take (Z.to_nat (Z.min (start + size) (zlen data) - start))
                      (drop (Z.to_nat start) data)) size
  = padded data start size.
Proof.
  unfold RightPadBytes, padded. intros Hs Hz.
  assert (zlen (drop (Z.to_nat start) data) = zlen data - start) as Hd.
  { unfold zlen in *. rewrite length_drop. lia. }
  destruct (Z.leb_spec (start + size) (zlen data)).
  - rewrite Z.min_l by lia. replace (start + size - start) with size by lia.
    rewrite take_app_le by (unfold zlen in *; lia).
    assert (zlen (take (Z.to_nat size) (drop (Z.to_nat start) data)) = size) as ->.
    { unfold zlen in *. rewrite length_take. lia. }
    by rewrite Z.leb_refl.
  - rewrite Z.min_r by lia.
    rewrite (take_ge (drop _ _)) by (unfold zlen in *; lia). rewrite Hd.
    replace (size <=? zlen data - start) with false by lia.
    rewrite take_app_ge by (unfold zlen in *; lia). f_equal.
    rewrite take_replicate. f_equal. unfold zlen in *. lia.
Qed.

(** [getDataBig] never panics for a size that fits an [int], and returns the
    requested window of the zero-extended data. *)
Lemma getDataBig_padded data start size :
  zlen data < 2 ^ 63 -> 0 <= start -> 0 <= size < 2 ^ 63 ->
  getDataBig data start size =
    Some (padded data (Z.min start (zlen data)) size).
Proof.
  intros Hd Hs Hz. unfold getDataBig, BigMin. pose proof (zlen_nonneg data).
  assert ((if zlen data <? start then zlen data else start) =
          Z.min start (zlen data)) as -> by (split_if; lia).
  set (s := Z.min start (zlen data)).
  assert ((if zlen data <? s + size then zlen data else s + size) =
          Z.min (s + size) (zlen data)) as -> by (split_if; lia).
  unfold Uint64. rewrite !Z.abs_eq by lia.
  rewrite !u64_small by (unfold is_u64; lia).
  rewrite slice_Some, i64_small by lia. by rewrite RightPad_padded by lia.
Qed.

Lemma getData_padded data start size :
  zlen data < 2 ^ 63 -> 0 <= start -> 0 <= size < 2 ^ 63 ->
  getData data start size = Some (padded data (Z.min start (zlen data)) size).
Proof.
  intros Hd Hs Hz. unfold getData. pose proof (zlen_nonneg data).
  assert ((if start >? zlen data then zlen data else start) =
          Z.min start (zlen data)) as -> by (split_if; lia).
  set (s := Z.min start (zlen data)).
  rewrite (u64_small (s + size)) by (unfold is_u64; lia).
  assert ((if s + size >? zlen data then zlen data else s + size) =
          Z.min (s + size) (zlen data)) as -> by (split_if; lia).
  rewrite slice_Some, i64_small by lia. by rewrite RightPad_padded by lia.
Qed.

Lemma zlen_padded data start size : 0 <= size -> zlen (padded data start size) = size.
Proof.
  intros. unfold padded, zlen. rewrite length_take, length_app, length_replicate. lia.
Qed.

(** A window read is byte-for-byte the data, then zeros. *)
Lemma padded_lookup data start size i :
  0 <= start -> 0 <= size -> Z.of_nat i < size ->
  padded data start size !! i = Some (default x00 (data !! (Z.to_nat start + i)%nat)).
Proof.
  intros Hs Hz Hi. unfold padded. rewrite lookup_take_lt by lia.
  destruct (decide (i < length (drop (Z.to_nat start) data))%nat) as [Hl|Hl].
  - rewrite lookup_app_l, lookup_drop by done.
    destruct (data !! _) eqn:E; [done|].
    apply lookup_ge_None in E. rewrite length_drop in Hl. lia.
  - rewrite lookup_app_r, lookup_replicate_2 by lia.
    rewrite length_drop in Hl. by rewrite lookup_ge_None_2 by lia.
Qed.

(** ** Lemmas: sizes *)

Lemma calcMemSize_covers off l :
  0 <= off -> 0 <= l -> (0 < l -> off + l <= calcMemSize off l) /\ 0 <= calcMemSize off l.
Proof. unfold calcMemSize. intros. split_if; lia. Qed.

Lemma toWordSize_u64 size : is_u64 size -> is_u64 (toWordSize size).
Proof.
  unfold toWordSize, is_u64, MaxUint64. intros. split_if; [done|].
  rewrite u64_small by (unfold is_u64; lia).
  split; [apply Z.div_pos; lia|]. apply Z.div_lt_upper_bound; lia.
Qed.

(** The number of 32-byte words that cover [size] bytes. *)
Lemma toWordSize_exact size : is_u64 size -> toWordSize size = (size + 31) / 32.
Proof.
  unfold toWordSize, is_u64, MaxUint64. intros. split_if.
  - change ((2 ^ 64 - 1) / 32 + 1) with (2 ^ 59).
    apply Z.div_unique with (r := size + 31 - 2 ^ 64); lia.
  - by rewrite u64_small by (unfold is_u64; lia).
Qed.

Lemma toWordSize_covers size :
  is_u64 size -> size <= toWordSize size * 32 < size + 32.
Proof.
  intros H. rewrite toWordSize_exact by done.
  pose proof (Z.div_mod (size + 31) 32 ltac:(lia)).
  pose proof (Z.mod_pos_bound (size + 31) 32 ltac:(lia)). lia.
Qed.
