(* ===== verification/Opcodes.v ===== *)
(** * core/vm/opcodes.go: the opcode numbers and names

    An [OpCode] is the value of its byte.  The constants follow the [iota]
    blocks of the source; the names are the two maps between opcodes and
    strings. *)

From Stdlib Require Import ZArith Lia Bool.
From Stdlib Require Import ZArith Lia Bool String.
From S2P Require Import Prelude.
Local Open Scope Z_scope.

(** 0x0 range: arithmetic. *)
Definition STOP : Z := 0.
Definition ADD : Z := 1.
Definition MUL : Z := 2.
Definition SUB : Z := 3.
Definition DIV : Z := 4.
Definition SDIV : Z := 5.
Definition MOD : Z := 6.
Definition SMOD : Z := 7.
Definition ADDMOD : Z := 8.
Definition MULMOD : Z := 9.
Definition EXP : Z := 10.
Definition SIGNEXTEND : Z := 11.

(** 0x10 range: comparison and bits. *)
Definition LT : Z := 16.
Definition GT : Z := 17.
Definition SLT : Z := 18.
Definition SGT : Z := 19.
Definition EQ : Z := 20.
Definition ISZERO : Z := 21.
Definition AND : Z := 22.
Definition OR : Z := 23.
Definition XOR : Z := 24.
Definition NOT : Z := 25.
Definition BYTE : Z := 26.
Definition SHL : Z := 27.
Definition SHR : Z := 28.
Definition SAR : Z := 29.

(** 0x20 range. *)
Definition SHA3 : Z := 32.

(** 0x30 range: closure state. *)
Definition ADDRESS : Z := 48.
Definition BALANCE : Z := 49.
Definition ORIGIN : Z := 50.
Definition CALLER : Z := 51.
Definition CALLVALUE : Z := 52.
Definition CALLDATALOAD : Z := 53.
Definition CALLDATASIZE : Z := 54.
Definition CALLDATACOPY : Z := 55.
Definition CODESIZE : Z := 56.
Definition CODECOPY : Z := 57.
Definition GASPRICE : Z := 58.
Definition EXTCODESIZE : Z := 59.
Definition EXTCODECOPY : Z := 60.
Definition RETURNDATASIZE : Z := 61.
Definition RETURNDATACOPY : Z := 62.

(** 0x40 range: block operations. *)
Definition BLOCKHASH : Z := 64.
Definition COINBASE : Z := 65.
Definition TIMESTAMP : Z := 66.
Definition NUMBER : Z := 67.
Definition DIFFICULTY : Z := 68.
Definition GASLIMIT : Z := 69.

(** 0x50 range: storage and execution. *)
Definition POP : Z := 80.
Definition MLOAD : Z := 81.
Definition MSTORE : Z := 82.
Definition MSTORE8 : Z := 83.
Definition SLOAD : Z := 84.
Definition SSTORE : Z := 85.
Definition JUMP : Z := 86.
Definition JUMPI : Z := 87.
Definition PC : Z := 88.
Definition MSIZE : Z := 89.
Definition GAS : Z := 90.
Definition JUMPDEST : Z := 91.

(** 0x60 range: the first and the last of PUSH1..PUSH32, DUP1..DUP16, SWAP1..SWAP16. *)
Definition PUSH1 : Z := 96.
Definition PUSH32 : Z := 127.
Definition DUP1 : Z := 128.
Definition DUP16 : Z := 143.
Definition SWAP1 : Z := 144.
Definition SWAP16 : Z := 159.

(** 0xa0 range: logging. *)
Definition LOG0 : Z := 160.
Definition LOG1 : Z := 161.
Definition LOG2 : Z := 162.
Definition LOG3 : Z := 163.
Definition LOG4 : Z := 164.

(** 0xf0 range: closures. *)
Definition CREATE : Z := 240.
Definition CALL : Z := 241.
Definition CALLCODE : Z := 242.
Definition RETURN : Z := 243.
Definition DELEGATECALL : Z := 244.
Definition STATICCALL : Z := 250.
Definition REVERT : Z := 253.
Definition SELFDESTRUCT : Z := 255.

(** [OpCode(b)]. *)
Definition OpCode (b : byte) : Z := byteZ b.

(** [op.IsPush()]: the switch lists [PUSH1] to [PUSH32]. *)
Definition IsPush (op : Z) : bool := (PUSH1 <=? op) && (op <=? PUSH32).
Definition IsStaticJump (op : Z) : bool := op =? JUMP.

(** ** The names of the opcodes

    [opCodeToString] and [stringToOp] are the two maps of the source, entry by
    entry; they are written separately there, so that one can be the inverse of
    the other is a theorem about them. *)

Local Open Scope string_scope.
Local Open Scope Z_scope.

(** ** The opcodes of the 0x60 to 0x90 ranges, and the unofficial ones *)

Definition PUSH2 : Z := PUSH1 + 1.
Definition PUSH3 : Z := PUSH1 + 2.
Definition PUSH4 : Z := PUSH1 + 3.
Definition PUSH5 : Z := PUSH1 + 4.
Definition PUSH6 : Z := PUSH1 + 5.
Definition PUSH7 : Z := PUSH1 + 6.
Definition PUSH8 : Z := PUSH1 + 7.
Definition PUSH9 : Z := PUSH1 + 8.
Definition PUSH10 : Z := PUSH1 + 9.
Definition PUSH11 : Z := PUSH1 + 10.
Definition PUSH12 : Z := PUSH1 + 11.
Definition PUSH13 : Z := PUSH1 + 12.
Definition PUSH14 : Z := PUSH1 + 13.
Definition PUSH15 : Z := PUSH1 + 14.
Definition PUSH16 : Z := PUSH1 + 15.
Definition PUSH17 : Z := PUSH1 + 16.
Definition PUSH18 : Z := PUSH1 + 17.
Definition PUSH19 : Z := PUSH1 + 18.
Definition PUSH20 : Z := PUSH1 + 19.
Definition PUSH21 : Z := PUSH1 + 20.
Definition PUSH22 : Z := PUSH1 + 21.
Definition PUSH23 : Z := PUSH1 + 22.
Definition PUSH24 : Z := PUSH1 + 23.
Definition PUSH25 : Z := PUSH1 + 24.
Definition PUSH26 : Z := PUSH1 + 25.
Definition PUSH27 : Z := PUSH1 + 26.
Definition PUSH28 : Z := PUSH1 + 27.
Definition PUSH29 : Z := PUSH1 + 28.
Definition PUSH30 : Z := PUSH1 + 29.
Definition PUSH31 : Z := PUSH1 + 30.
Definition DUP2 : Z := DUP1 + 1.
Definition DUP3 : Z := DUP1 + 2.
Definition DUP4 : Z := DUP1 + 3.
Definition DUP5 : Z := DUP1 + 4.
Definition DUP6 : Z := DUP1 + 5.
Definition DUP7 : Z := DUP1 + 6.
Definition DUP8 : Z := DUP1 + 7.
Definition DUP9 : Z := DUP1 + 8.
Definition DUP10 : Z := DUP1 + 9.
Definition DUP11 : Z := DUP1 + 10.
Definition DUP12 : Z := DUP1 + 11.
Definition DUP13 : Z := DUP1 + 12.
Definition DUP14 : Z := DUP1 + 13.
Definition DUP15 : Z := DUP1 + 14.
Definition SWAP2 : Z := SWAP1 + 1.
Definition SWAP3 : Z := SWAP1 + 2.
Definition SWAP4 : Z := SWAP1 + 3.
Definition SWAP5 : Z := SWAP1 + 4.
Definition SWAP6 : Z := SWAP1 + 5.
Definition SWAP7 : Z := SWAP1 + 6.
Definition SWAP8 : Z := SWAP1 + 7.
Definition SWAP9 : Z := SWAP1 + 8.
Definition SWAP10 : Z := SWAP1 + 9.
Definition SWAP11 : Z := SWAP1 + 10.
Definition SWAP12 : Z := SWAP1 + 11.
Definition SWAP13 : Z := SWAP1 + 12.
Definition SWAP14 : Z := SWAP1 + 13.
Definition SWAP15 : Z := SWAP1 + 14.
Definition PUSH : Z := 0xb0.
Definition DUP : Z := 0xb1.
Definition SWAP : Z := 0xb2.

(** ** The maps *)

Definition opCodeToString : list (Z * string) :=
  [ (STOP, "STOP"); (ADD, "ADD"); (MUL, "MUL"); (SUB, "SUB"); (DIV, "DIV");
    (SDIV, "SDIV"); (MOD, "MOD"); (SMOD, "SMOD"); (EXP, "EXP"); (NOT, "NOT");
    (LT, "LT"); (GT, "GT"); (SLT, "SLT"); (SGT, "SGT"); (EQ, "EQ");
    (ISZERO, "ISZERO"); (SIGNEXTEND, "SIGNEXTEND"); (AND, "AND"); (OR, "OR");
    (XOR, "XOR"); (BYTE, "BYTE"); (SHL, "SHL"); (SHR, "SHR"); (SAR, "SAR");
    (ADDMOD, "ADDMOD"); (MULMOD, "MULMOD"); (SHA3, "SHA3"); (ADDRESS, "ADDRESS");
    (BALANCE, "BALANCE"); (ORIGIN, "ORIGIN"); (CALLER, "CALLER");
    (CALLVALUE, "CALLVALUE"); (CALLDATALOAD, "CALLDATALOAD");
    (CALLDATASIZE, "CALLDATASIZE"); (CALLDATACOPY, "CALLDATACOPY");
    (CODESIZE, "CODESIZE"); (CODECOPY, "CODECOPY"); (GASPRICE, "GASPRICE");
    (EXTCODESIZE, "EXTCODESIZE"); (EXTCODECOPY, "EXTCODECOPY");
    (RETURNDATASIZE, "RETURNDATASIZE"); (RETURNDATACOPY, "RETURNDATACOPY");
    (BLOCKHASH, "BLOCKHASH"); (COINBASE, "COINBASE"); (TIMESTAMP, "TIMESTAMP");
    (NUMBER, "NUMBER"); (DIFFICULTY, "DIFFICULTY"); (GASLIMIT, "GASLIMIT");
    (POP, "POP"); (MLOAD, "MLOAD"); (MSTORE, "MSTORE"); (MSTORE8, "MSTORE8");
    (SLOAD, "SLOAD"); (SSTORE, "SSTORE"); (JUMP, "JUMP"); (JUMPI, "JUMPI");
    (PC, "PC"); (MSIZE, "MSIZE"); (GAS, "GAS"); (JUMPDEST, "JUMPDEST");
    (PUSH1, "PUSH1"); (PUSH2, "PUSH2"); (PUSH3, "PUSH3"); (PUSH4, "PUSH4");
    (PUSH5, "PUSH5"); (PUSH6, "PUSH6"); (PUSH7, "PUSH7"); (PUSH8, "PUSH8");
    (PUSH9, "PUSH9"); (PUSH10, "PUSH10"); (PUSH11, "PUSH11"); (PUSH12, "PUSH12");
    (PUSH13, "PUSH13"); (PUSH14, "PUSH14"); (PUSH15, "PUSH15"); (PUSH16, "PUSH16");
    (PUSH17, "PUSH17"); (PUSH18, "PUSH18"); (PUSH19, "PUSH19"); (PUSH20, "PUSH20");
    (PUSH21, "PUSH21"); (PUSH22, "PUSH22"); (PUSH23, "PUSH23"); (PUSH24, "PUSH24");
    (PUSH25, "PUSH25"); (PUSH26, "PUSH26"); (PUSH27, "PUSH27"); (PUSH28, "PUSH28");
    (PUSH29, "PUSH29"); (PUSH30, "PUSH30"); (PUSH31, "PUSH31"); (PUSH32, "PUSH32");
    (DUP1, "DUP1"); (DUP2, "DUP2"); (DUP3, "DUP3"); (DUP4, "DUP4"); (DUP5, "DUP5");
    (DUP6, "DUP6"); (DUP7, "DUP7"); (DUP8, "DUP8"); (DUP9, "DUP9");
    (DUP10, "DUP10"); (DUP11, "DUP11"); (DUP12, "DUP12"); (DUP13, "DUP13");
    (DUP14, "DUP14"); (DUP15, "DUP15"); (DUP16, "DUP16"); (SWAP1, "SWAP1");
    (SWAP2, "SWAP2"); (SWAP3, "SWAP3"); (SWAP4, "SWAP4"); (SWAP5, "SWAP5");
    (SWAP6, "SWAP6"); (SWAP7, "SWAP7"); (SWAP8, "SWAP8"); (SWAP9, "SWAP9");
    (SWAP10, "SWAP10"); (SWAP11, "SWAP11"); (SWAP12, "SWAP12"); (SWAP13, "SWAP13");
    (SWAP14, "SWAP14"); (SWAP15, "SWAP15"); (SWAP16, "SWAP16"); (LOG0, "LOG0");
    (LOG1, "LOG1"); (LOG2, "LOG2"); (LOG3, "LOG3"); (LOG4, "LOG4");
    (CREATE, "CREATE"); (CALL, "CALL"); (RETURN, "RETURN"); (CALLCODE, "CALLCODE");
    (DELEGATECALL, "DELEGATECALL"); (STATICCALL, "STATICCALL"); (REVERT, "REVERT");
    (SELFDESTRUCT, "SELFDESTRUCT"); (PUSH, "PUSH"); (DUP, "DUP"); (SWAP, "SWAP") ].

Definition stringToOp : list (string * Z) :=
  [ ("STOP", STOP); ("ADD", ADD); ("MUL", MUL); ("SUB", SUB); ("DIV", DIV);
    ("SDIV", SDIV); ("MOD", MOD); ("SMOD", SMOD); ("EXP", EXP); ("NOT", NOT);
    ("LT", LT); ("GT", GT); ("SLT", SLT); ("SGT", SGT); ("EQ", EQ);
    ("ISZERO", ISZERO); ("SIGNEXTEND", SIGNEXTEND); ("AND", AND); ("OR", OR);
    ("XOR", XOR); ("BYTE", BYTE); ("SHL", SHL); ("SHR", SHR); ("SAR", SAR);
    ("ADDMOD", ADDMOD); ("MULMOD", MULMOD); ("SHA3", SHA3); ("ADDRESS", ADDRESS);
    ("BALANCE", BALANCE); ("ORIGIN", ORIGIN); ("CALLER", CALLER);
    ("CALLVALUE", CALLVALUE); ("CALLDATALOAD", CALLDATALOAD);
    ("CALLDATASIZE", CALLDATASIZE); ("CALLDATACOPY", CALLDATACOPY);
    ("DELEGATECALL", DELEGATECALL); ("STATICCALL", STATICCALL);
    ("CODESIZE", CODESIZE); ("CODECOPY", CODECOPY); ("GASPRICE", GASPRICE);
    ("EXTCODESIZE", EXTCODESIZE); ("EXTCODECOPY", EXTCODECOPY);
    ("RETURNDATASIZE", RETURNDATASIZE); ("RETURNDATACOPY", RETURNDATACOPY);
    ("BLOCKHASH", BLOCKHASH); ("COINBASE", COINBASE); ("TIMESTAMP", TIMESTAMP);
    ("NUMBER", NUMBER); ("DIFFICULTY", DIFFICULTY); ("GASLIMIT", GASLIMIT);
    ("POP", POP); ("MLOAD", MLOAD); ("MSTORE", MSTORE); ("MSTORE8", MSTORE8);
    ("SLOAD", SLOAD); ("SSTORE", SSTORE); ("JUMP", JUMP); ("JUMPI", JUMPI);
    ("PC", PC); ("MSIZE", MSIZE); ("GAS", GAS); ("JUMPDEST", JUMPDEST);
    ("PUSH1", PUSH1); ("PUSH2", PUSH2); ("PUSH3", PUSH3); ("PUSH4", PUSH4);
    ("PUSH5", PUSH5); ("PUSH6", PUSH6); ("PUSH7", PUSH7); ("PUSH8", PUSH8);
    ("PUSH9", PUSH9); ("PUSH10", PUSH10); ("PUSH11", PUSH11); ("PUSH12", PUSH12);
    ("PUSH13", PUSH13); ("PUSH14", PUSH14); ("PUSH15", PUSH15); ("PUSH16", PUSH16);
    ("PUSH17", PUSH17); ("PUSH18", PUSH18); ("PUSH19", PUSH19); ("PUSH20", PUSH20);
    ("PUSH21", PUSH21); ("PUSH22", PUSH22); ("PUSH23", PUSH23); ("PUSH24", PUSH24);
    ("PUSH25", PUSH25); ("PUSH26", PUSH26); ("PUSH27", PUSH27); ("PUSH28", PUSH28);
    ("PUSH29", PUSH29); ("PUSH30", PUSH30); ("PUSH31", PUSH31); ("PUSH32", PUSH32);
    ("DUP1", DUP1); ("DUP2", DUP2); ("DUP3", DUP3); ("DUP4", DUP4); ("DUP5", DUP5);
    ("DUP6", DUP6); ("DUP7", DUP7); ("DUP8", DUP8); ("DUP9", DUP9);
    ("DUP10", DUP10); ("DUP11", DUP11); ("DUP12", DUP12); ("DUP13", DUP13);
    ("DUP14", DUP14); ("DUP15", DUP15); ("DUP16", DUP16); ("SWAP1", SWAP1);
    ("SWAP2", SWAP2); ("SWAP3", SWAP3); ("SWAP4", SWAP4); ("SWAP5", SWAP5);
    ("SWAP6", SWAP6); ("SWAP7", SWAP7); ("SWAP8", SWAP8); ("SWAP9", SWAP9);
    ("SWAP10", SWAP10); ("SWAP11", SWAP11); ("SWAP12", SWAP12); ("SWAP13", SWAP13);
    ("SWAP14", SWAP14); ("SWAP15", SWAP15); ("SWAP16", SWAP16); ("LOG0", LOG0);
    ("LOG1", LOG1); ("LOG2", LOG2); ("LOG3", LOG3); ("LOG4", LOG4);
    ("CREATE", CREATE); ("CALL", CALL); ("RETURN", RETURN); ("CALLCODE", CALLCODE);
    ("REVERT", REVERT); ("SELFDESTRUCT", SELFDESTRUCT) ].

(** Map access: the value of the key, or the zero value. *)
Definition lookupName (op : Z) : string :=
  match find (fun e => e.1 =? op) opCodeToString with
  | Some e => e.2
  | None => EmptyString
  end.

(** [%x] of a byte. *)
Definition hexDigit (d : Z) : string :=
  match String.get (Z.to_nat d) "0123456789abcdef" with
  | Some c => String c EmptyString
  | None => EmptyString
  end.
Definition hexByte (op : Z) : string :=
  if op <? 16 then hexDigit op else (hexDigit (op / 16) ++ hexDigit (op mod 16))%string.

(** [op.String()]. *)
Definition OpCode_String (op : Z) : string :=
  let str := lookupName op in
  match str with
  | EmptyString => ("Missing opcode 0x" ++ hexByte op)%string
  | _ => str
  end.

Definition StringToOp (str : string) : Z :=
  match find (fun e => bool_decide (e.1 = str)) stringToOp with
  | Some e => e.2
  | None => STOP
  end.

(** ** All byte values *)

Definition allOps : list Z := Z.of_nat <$> seq 0 256.

Lemma allOps_spec (P : Z -> bool) op :
  forallb P allOps = true -> 0 <= op < 256 -> P op = true.
Proof.
  intros H Ho. rewrite forallb_forall in H. apply H. apply in_map_iff.
  exists (Z.to_nat op). split; [lia|]. apply in_seq. lia.
Qed.
