(* ===== verification/Analysis.v ===== *)
(** * core/vm/analysis.go: the JUMPDEST analysis

    [codeBitmap] marks the bytes of a program that are arguments of a [PUSH];
    [destinations.has] caches the bitmaps by code hash.  The bit vector is a
    list of bytes as [Z]; indexing it out of range is a panic.

    The specification is [boundary]: the positions at which the code, decoded
    from its start, has an opcode.  The theorems: [codeBitmap] always returns
    (its four spare bytes are enough for a trailing [PUSH32]), and the bit of a
    position is clear exactly when the position is a boundary; hence [has]
    accepts exactly the [JUMPDEST] opcodes at boundaries. *)

From Stdlib Require Import ZArith Lia Bool.
From S2P Require Import Prelude GoMath Opcodes.
Local Open Scope Z_scope.
Local Open Scope go_scope.

(** ** Bit vectors *)

Abbreviation bitvec := (list Z) (only parsing).

(** [( *bits)\[i\] |= mask]. *)
Definition or_byte (bits : bitvec) (i mask : Z) : option bitvec :=
  match index bits i with
  | Some b => store bits i (Z.lor b mask)
  | None => None
  end.

Definition bitvec_set (bits : bitvec) (pos : Z) : option bitvec :=
  or_byte bits (pos / 8) (Z.shiftr 0x80 (pos mod 8)).

(** The complement is that of a byte. *)
Definition bitvec_set8 (bits : bitvec) (pos : Z) : option bitvec :=
  match or_byte bits (pos / 8) (Z.shiftr 0xFF (pos mod 8)) with
  | Some bits' =>
      or_byte bits' (pos / 8 + 1) (Z.lxor 0xFF (Z.shiftr 0xFF (pos mod 8)))
  | None => None
  end.

Definition codeSegment (bits : bitvec) (pos : Z) : option bool :=
  match index bits (pos / 8) with
  | Some b => Some (Z.land b (Z.shiftr 0x80 (pos mod 8)) =? 0)
  | None => None
  end.

(** [for ; numbits >= 8; numbits -= 8]. *)
Fixpoint mark8 (fuel : nat) (numbits pc : Z) (bits : bitvec)
    : option (Z * Z * bitvec) :=
  match fuel with
  | O => Some (numbits, pc, bits)
  | S f =>
      if numbits >=? 8 then
        match bitvec_set8 bits pc with
        | Some bits' => mark8 f (numbits - 8) (u64 (pc + 8)) bits'
        | None => None
        end
      else Some (numbits, pc, bits)
  end.

(** [for ; numbits > 0; numbits--]. *)
Fixpoint mark1 (fuel : nat) (numbits pc : Z) (bits : bitvec)
    : option (Z * bitvec) :=
  match fuel with
  | O => Some (pc, bits)
  | S f =>
      if numbits >? 0 then
        match bitvec_set bits pc with
        | Some bits' => mark1 f (numbits - 1) (u64 (pc + 1)) bits'
        | None => None
        end
      else Some (pc, bits)
  end.

(** The outer loop; one unit of fuel per opcode. *)
Fixpoint bitmapLoop (fuel : nat) (code : list byte) (pc : Z) (bits : bitvec)
    : outcome bitvec :=
  match fuel with
  | O => OutOfFuel
  | S f =>
      if pc <? zlen code then
        match index code pc with
        | None => Panic
        | Some b =>
            let op := OpCode b in
            if (op >=? PUSH1) && (op <=? PUSH32) then
              match mark8 4 (op - PUSH1 + 1) (u64 (pc + 1)) bits with
              | None => Panic
              | Some (numbits, pc', bits') =>
                  match mark1 7 numbits pc' bits' with
                  | None => Panic
                  | Some (pc'', bits'') => bitmapLoop f code pc'' bits''
                  end
              end
            else bitmapLoop f code (u64 (pc + 1)) bits
        end
      else Ret bits
  end.

Definition codeBitmap (code : list byte) : outcome bitvec :=
  bitmapLoop (S (length code)) code 0
    (replicate (Z.to_nat (zlen code / 8 + 1 + 4)) 0).

(** ** [destinations]: one bitmap per code hash *)

Section destinations.
Context {CodeHash : Type} `{Countable CodeHash}.

(** [OpCode(code\[udest\]) == JUMPDEST && m.codeSegment(udest)]. *)
Definition jumpdestAt (m : bitvec) (code : list byte) (udest : Z) : outcome bool :=
  match index code udest with
  | None => Panic
  | Some b =>
      if OpCode b =? JUMPDEST then
        match codeSegment m udest with Some seg => Ret seg | None => Panic end
      else Ret false
  end.

(** Returns the answer and the map, in which a missing analysis is cached. *)
Definition has (d : gmap CodeHash bitvec) (codehash : CodeHash)
    (code : list byte) (dest : Z) : outcome (bool * gmap CodeHash bitvec) :=
  let udest := Uint64 dest in
  if (BitLen dest >=? 63) || (udest >=? zlen code) then Ret (false, d)
  else
    let analysis :=
      match d !! codehash with
      | Some m => Ret (m, d)
      | None =>
          match codeBitmap code with
          | Ret m => Ret (m, <[codehash := m]> d)
          | Panic => Panic
          | OutOfFuel => OutOfFuel
          end
      end in
    match analysis with
    | Ret (m, d') =>
        match jumpdestAt m code udest with
        | Ret b => Ret (b, d')
        | Panic => Panic
        | OutOfFuel => OutOfFuel
        end
    | Panic => Panic
    | OutOfFuel => OutOfFuel
    end.

(** The cache is right for a program: its entry, if any, is its bitmap. *)
Definition cache_ok (d : gmap CodeHash bitvec) (codehash : CodeHash)
    (code : list byte) : Prop :=
  forall m, d !! codehash = Some m -> codeBitmap code = Ret m.
End destinations.

(** ** Specification: where the opcodes of a program are *)

(** The number of argument bytes of the opcode at [pc]. *)
Definition arglen (op : Z) : Z :=
  if (PUSH1 <=? op) && (op <=? PUSH32) then op - PUSH1 + 1 else 0.

Inductive boundary (code : list byte) : Z -> Prop :=
| boundary_start : boundary code 0
| boundary_next pc b :
    boundary code pc -> code !! Z.to_nat pc = Some b ->
    boundary code (pc + 1 + arglen (OpCode b)).

Definition valid_jumpdest (code : list byte) (dest : Z) : Prop :=
  boundary code dest /\ index code dest = Some (Zbyte JUMPDEST).

(** ** Bit-level lemmas *)

(** Position [p] of a bit vector, most significant bit of each byte first. *)
Definition bit (bits : bitvec) (p : Z) : bool :=
  Z.testbit (nth (Z.to_nat (p / 8)) bits 0) (7 - p mod 8).

Ltac eight k :=
  let H := fresh in
  assert (k = 0 \/ k = 1 \/ k = 2 \/ k = 3 \/ k = 4 \/ k = 5 \/ k = 6 \/ k = 7)
    as H by lia;
  destruct H as [->|[->|[->|[->|[->|[->|[->| ->]]]]]]].

Lemma mask_one k j :
  0 <= k < 8 -> 0 <= j < 8 -> Z.testbit (Z.shiftr 0x80 k) (7 - j) = (k =? j).
Proof. intros Hk Hj. eight k; eight j; reflexivity. Qed.

Lemma mask_low k j :
  0 <= k < 8 -> 0 <= j < 8 -> Z.testbit (Z.shiftr 0xFF k) (7 - j) = (k <=? j).
Proof. intros Hk Hj. eight k; eight j; reflexivity. Qed.

Lemma mask_high k j :
  0 <= k < 8 -> 0 <= j < 8 ->
  Z.testbit (Z.lxor 0xFF (Z.shiftr 0xFF k)) (7 - j) = (j <? k).
Proof. intros Hk Hj. eight k; eight j; reflexivity. Qed.

Lemma or_byte_spec bits i mask :
  0 <= i < zlen bits ->
  exists bits', or_byte bits i mask = Some bits' /\ length bits' = length bits /\
  forall p, 0 <= p ->
    bit bits' p = bit bits p || ((p / 8 =? i) && Z.testbit mask (7 - p mod 8)).
Proof.
  intros Hi. unfold or_byte. destruct (index_Some bits i Hi) as [b Hb].
  rewrite Hb, store_Some by done. eexists. split; [done|].
  split; [by rewrite length_insert|]. intros p Hp. unfold bit.
  assert (0 <= p / 8) by (apply Z.div_pos; lia).
  unfold index in Hb. replace (0 <=? i) with true in Hb by lia.
  rewrite !nth_lookup. destruct (decide (p / 8 = i)) as [->|Hne].
  - rewrite list_lookup_insert_eq by (unfold zlen in *; lia).
    rewrite Hb, Z.eqb_refl. cbn. by rewrite Z.lor_spec.
  - rewrite list_lookup_insert_ne by lia.
    replace (p / 8 =? i) with false by lia. by rewrite orb_false_r.
Qed.

Lemma bitvec_set_spec bits pos :
  0 <= pos -> pos / 8 < zlen bits ->
  exists bits', bitvec_set bits pos = Some bits' /\ length bits' = length bits /\
  forall p, 0 <= p -> bit bits' p = bit bits p || (p =? pos).
Proof.
  intros H0 Hl. assert (0 <= pos / 8) by (apply Z.div_pos; lia).
  destruct (or_byte_spec bits (pos / 8) (Z.shiftr 0x80 (pos mod 8)))
    as (bits' & H1 & H2 & H3); [lia|].
  exists bits'. split; [done|]. split; [done|]. intros p Hp. rewrite H3 by done.
  f_equal. rewrite mask_one by (apply Z.mod_pos_bound; lia).
  pose proof (Z.div_mod p 8 ltac:(lia)). pose proof (Z.div_mod pos 8 ltac:(lia)).
  destruct (p =? pos) eqn:E; zbool; [subst; lia|].
  apply andb_false_iff. rewrite !Z.eqb_neq. lia.
Qed.

Lemma bitvec_set8_spec bits pos :
  0 <= pos -> pos / 8 + 1 < zlen bits ->
  exists bits', bitvec_set8 bits pos = Some bits' /\ length bits' = length bits /\
  forall p, 0 <= p -> bit bits' p = bit bits p || ((pos <=? p) && (p <? pos + 8)).
Proof.
  intros H0 Hl. assert (0 <= pos / 8) by (apply Z.div_pos; lia).
  unfold bitvec_set8.
  destruct (or_byte_spec bits (pos / 8) (Z.shiftr 0xFF (pos mod 8)))
    as (b1 & -> & L1 & B1); [lia|].
  destruct (or_byte_spec b1 (pos / 8 + 1) (Z.lxor 0xFF (Z.shiftr 0xFF (pos mod 8))))
    as (b2 & -> & L2 & B2); [unfold zlen in *; lia|].
  exists b2. split; [done|]. split; [lia|]. intros p Hp.
  rewrite B2, B1 by done.
  rewrite mask_low, mask_high by (apply Z.mod_pos_bound; lia).
  rewrite <- orb_assoc. f_equal.
  pose proof (Z.div_mod p 8 ltac:(lia)). pose proof (Z.div_mod pos 8 ltac:(lia)).
  pose proof (Z.mod_pos_bound p 8 ltac:(lia)).
  pose proof (Z.mod_pos_bound pos 8 ltac:(lia)).
  apply eq_true_iff_eq.
  rewrite orb_true_iff, !andb_true_iff, !Z.eqb_eq, !Z.leb_le, !Z.ltb_lt. lia.
Qed.

Lemma mark8_spec fuel : forall n pc bits,
  0 <= pc -> 0 <= n -> pc + n < 2 ^ 64 -> n < 8 * Z.of_nat fuel + 8 ->
  (8 <= n -> (pc + n) / 8 < zlen bits) ->
  exists k bits', mark8 fuel n pc bits = Some (n - 8 * k, pc + 8 * k, bits') /\
    0 <= k /\ 0 <= n - 8 * k < 8 /\ length bits' = length bits /\
    forall p, 0 <= p -> bit bits' p = bit bits p || ((pc <=? p) && (p <? pc + 8 * k)).
Proof.
  induction fuel as [|f IH]; intros n pc bits Hpc Hn Hw Hf Hb.
  - exists 0, bits. cbn [mark8]. rewrite Z.mul_0_r, Z.sub_0_r, Z.add_0_r.
    repeat split; try lia; try done. intros p Hp.
    replace ((pc <=? p) && (p <? pc)) with false by lia. by rewrite orb_false_r.
  - cbn [mark8]. split_if.
    + assert (pc / 8 + 1 <= (pc + n) / 8).
      { replace (pc / 8 + 1) with ((pc + 1 * 8) / 8) by (rewrite Z.div_add; lia).
        apply Z.div_le_mono; lia. }
      destruct (bitvec_set8_spec bits pc) as (b1 & -> & L1 & B1); [lia|lia|].
      rewrite u64_small by (unfold is_u64; lia).
      destruct (IH (n - 8) (pc + 8) b1) as (k & b2 & -> & Hk & Hr & L2 & B2);
        try lia.
      { intros. replace (pc + 8 + (n - 8)) with (pc + n) by lia.
        unfold zlen in *. lia. }
      exists (k + 1), b2.
      repeat split; [do 3 f_equal; lia | lia.. | ].
      intros p Hp. rewrite B2, B1 by done. rewrite <- orb_assoc. f_equal. lia.
    + exists 0, bits. rewrite Z.mul_0_r, Z.sub_0_r, Z.add_0_r.
      repeat split; try lia; try done. intros p Hp.
      replace ((pc <=? p) && (p <? pc)) with false by lia. by rewrite orb_false_r.
Qed.

Lemma mark1_spec fuel : forall n pc bits,
  0 <= pc -> 0 <= n <= Z.of_nat fuel -> pc + n < 2 ^ 64 ->
  (0 < n -> (pc + n - 1) / 8 < zlen bits) ->
  exists bits', mark1 fuel n pc bits = Some (pc + n, bits') /\
    length bits' = length bits /\
    forall p, 0 <= p -> bit bits' p = bit bits p || ((pc <=? p) && (p <? pc + n)).
Proof.
  induction fuel as [|f IH]; intros n pc bits Hpc Hn Hw Hb.
  1: cbn [mark1]. 2: cbn [mark1]; split_if.
  1,3: exists bits; replace n with 0 by lia; rewrite Z.add_0_r;
    repeat split; intros p Hp;
    replace ((pc <=? p) && (p <? pc)) with false by lia; by rewrite orb_false_r.
  assert (pc / 8 <= (pc + n - 1) / 8) by (apply Z.div_le_mono; lia).
  destruct (bitvec_set_spec bits pc) as (b1 & -> & L1 & B1); [lia|lia|].
  rewrite u64_small by (unfold is_u64; lia).
  destruct (IH (n - 1) (pc + 1) b1) as (b2 & -> & L2 & B2); try lia.
  { intros. replace (pc + 1 + (n - 1) - 1) with (pc + n - 1) by lia.
    unfold zlen in *. lia. }
  exists b2. repeat split; [do 2 f_equal; lia | lia |].
  intros p Hp. rewrite B2, B1 by done. rewrite <- orb_assoc. f_equal. lia.
Qed.

(** The arguments of one [PUSH]: both loops together mark [n] positions. *)
Lemma mark_args n pc bits :
  0 <= pc -> 0 <= n <= 32 -> pc + n < 2 ^ 64 -> (pc + n) / 8 < zlen bits ->
  exists numbits pc' bits' bits'',
    mark8 4 n pc bits = Some (numbits, pc', bits') /\
    mark1 7 numbits pc' bits' = Some (pc + n, bits'') /\
    length bits'' = length bits /\
    forall p, 0 <= p -> bit bits'' p = bit bits p || ((pc <=? p) && (p <? pc + n)).
Proof.
  intros Hpc Hn Hw Hb.
  destruct (mark8_spec 4 n pc bits) as (k & b1 & E1 & Hk & Hr & L1 & B1); try lia.
  destruct (mark1_spec 7 (n - 8 * k) (pc + 8 * k) b1) as (b2 & E2 & L2 & B2); try lia.
  { intros. assert ((pc + 8 * k + (n - 8 * k) - 1) / 8 <= (pc + n) / 8)
      by (apply Z.div_le_mono; lia). unfold zlen in *. lia. }
  exists (n - 8 * k), (pc + 8 * k), b1, b2. split; [done|].
  split; [rewrite E2; do 2 f_equal; lia|]. split; [lia|].
  intros p Hp. rewrite B2, B1 by done. rewrite <- orb_assoc. f_equal. lia.
Qed.

(** ** Boundaries *)

(** The total successor of a position, and the chain from the start. *)
Definition next_pc (code : list byte) (pc : Z) : Z :=
  pc + 1 + arglen (OpCode (default x00 (code !! Z.to_nat pc))).
Definition chain (code : list byte) (k : nat) : Z :=
  Nat.iter k (next_pc code) 0.

Lemma arglen_range op : 0 <= arglen op <= 32.
Proof. unfold arglen, PUSH1, PUSH32. split_if; lia. Qed.

Lemma chain_S code k : chain code (S k) = next_pc code (chain code k).
Proof. done. Qed.

Lemma next_pc_Some code pc b :
  code !! Z.to_nat pc = Some b -> next_pc code pc = pc + 1 + arglen (OpCode b).
Proof. intros H. unfold next_pc. by rewrite H. Qed.

Lemma next_pc_gt code pc : pc < next_pc code pc.
Proof.
  unfold next_pc. pose proof (arglen_range (OpCode (default x00 (code !! Z.to_nat pc)))).
  lia.
Qed.

Lemma chain_lt code i j : (i < j)%nat -> chain code i < chain code j.
Proof.
  induction 1 as [|j _ IH]; rewrite chain_S; [apply next_pc_gt|].
  pose proof (next_pc_gt code (chain code j)). lia.
Qed.

Lemma boundary_chain code p : boundary code p -> exists k, p = chain code k.
Proof.
  induction 1 as [|pc b _ (k & ->) Hb]; [by exists O|].
  exists (S k). by rewrite chain_S, (next_pc_Some _ _ b).
Qed.

Lemma chain_nonneg code k : 0 <= chain code k.
Proof.
  destruct k; [done|]. pose proof (chain_lt code 0 (S k) ltac:(lia)) as H.
  change (chain code 0) with 0 in H. lia.
Qed.

Lemma boundary_nonneg code p : boundary code p -> 0 <= p.
Proof. intros (k & ->)%boundary_chain. apply chain_nonneg. Qed.

(** Nothing between an opcode and the end of its arguments is a boundary. *)
Lemma boundary_gap code pc b p :
  boundary code pc -> code !! Z.to_nat pc = Some b ->
  pc < p < pc + 1 + arglen (OpCode b) -> ~ boundary code p.
Proof.
  intros (i & ->)%boundary_chain Hb Hp (j & ->)%boundary_chain.
  assert (i < j)%nat as Hij.
  { destruct (decide (i < j)%nat); [done|].
    destruct (decide (i = j)) as [->|]; [lia|].
    pose proof (chain_lt code j i ltac:(lia)). lia. }
  assert (chain code (S i) <= chain code j).
  { destruct (decide (S i = j)) as [->|]; [done|].
    pose proof (chain_lt code (S i) j ltac:(lia)). lia. }
  rewrite chain_S, (next_pc_Some _ _ b) in * by done. lia.
Qed.

(** What the loop maintains at position [pc]. *)
Definition marked (code : list byte) (pc : Z) (bits : bitvec) : Prop :=
  length bits = Z.to_nat (zlen code / 8 + 5) /\ boundary code pc /\
  forall p, 0 <= p ->
    if p <? pc then bit bits p = false <-> boundary code p else bit bits p = false.

Lemma marked_step code pc b bits bits' :
  marked code pc bits -> code !! Z.to_nat pc = Some b ->
  length bits' = length bits ->
  (forall p, 0 <= p ->
     bit bits' p = bit bits p ||
       ((pc + 1 <=? p) && (p <? pc + 1 + arglen (OpCode b)))) ->
  marked code (pc + 1 + arglen (OpCode b)) bits'.
Proof.
  intros (L & Hpc & B) Hb L' B'. split; [by rewrite L'|].
  split; [by apply boundary_next|]. intros p Hp. rewrite (B' p Hp).
  specialize (B p Hp). pose proof (arglen_range (OpCode b)).
  destruct (p <? pc) eqn:E; zbool.
  - replace (p <? pc + 1 + arglen (OpCode b)) with true by lia.
    replace (pc + 1 <=? p) with false by lia. by rewrite orb_false_r.
  - rewrite B. cbn [orb]. destruct (p <? pc + 1 + arglen (OpCode b)) eqn:E2; zbool.
    + destruct (decide (p = pc)) as [->|Hne].
      * replace (pc + 1 <=? pc) with false by lia. done.
      * replace (pc + 1 <=? p) with true by lia. split; [done|].
        intros Hc. exfalso. by apply (boundary_gap code pc b p); [..|lia|].
    + by rewrite andb_false_r.
Qed.

Lemma bitmapLoop_spec code fuel : forall pc bits,
  zlen code < 2 ^ 62 -> marked code pc bits ->
  Z.max 0 (zlen code - pc) < Z.of_nat fuel ->
  exists bits', bitmapLoop fuel code pc bits = Ret bits' /\
    length bits' = Z.to_nat (zlen code / 8 + 5) /\
    forall p, 0 <= p < zlen code -> bit bits' p = false <-> boundary code p.
Proof.
  induction fuel as [|f IH]; intros pc bits Hsz Hm Hf; [lia|].
  destruct (Hm) as (L & Hpc & B). pose proof (boundary_nonneg _ _ Hpc) as H0.
  cbn [bitmapLoop]. split_if.
  - destruct (index_Some code pc ltac:(lia)) as [b Hb]. rewrite Hb.
    unfold index in Hb. replace (0 <=? pc) with true in Hb by lia.
    pose proof (arglen_range (OpCode b)) as Ha.
    rewrite u64_small by (unfold is_u64; lia).
    assert (arglen (OpCode b) =
      if (OpCode b >=? PUSH1) && (OpCode b <=? PUSH32)
      then OpCode b - PUSH1 + 1 else 0) as Harg.
    { unfold arglen. by rewrite Z.geb_leb. }
    destruct (_ && _).
    + rewrite <- Harg. destruct (mark_args (arglen (OpCode b)) (pc + 1) bits)
        as (nb & pc' & b1 & b2 & -> & -> & L2 & B2); try lia.
      { assert ((pc + 1 + arglen (OpCode b)) / 8 <= (zlen code + 4 * 8) / 8) as Hd
          by (apply Z.div_le_mono; lia).
        rewrite Z.div_add in Hd by lia. unfold zlen in *. lia. }
      apply IH; [done| |lia]. by apply (marked_step code pc b bits).
    + apply IH; [done| |lia].
      replace (pc + 1) with (pc + 1 + arglen (OpCode b)) by lia.
      apply (marked_step code pc b bits); [done..|].
      intros p Hp. replace (_ && _) with false by lia. by rewrite orb_false_r.
  - exists bits. split; [done|]. split; [done|]. intros p Hp.
    specialize (B p ltac:(lia)). by replace (p <? pc) with true in B by lia.
Qed.

Lemma marked_init code :
  marked code 0 (replicate (Z.to_nat (zlen code / 8 + 1 + 4)) 0).
Proof.
  split; [rewrite length_replicate; f_equal; lia|].
  split; [constructor|]. intros p Hp. replace (p <? 0) with false by lia.
  unfold bit. rewrite nth_lookup. destruct (_ !! _) eqn:E; [|apply Z.testbit_0_l].
  apply lookup_replicate in E as [-> _]. apply Z.testbit_0_l.
Qed.

(** The bitmap of a program exists, and the bit of a position inside the
    program is clear exactly at the opcode boundaries. *)
Lemma codeBitmap_spec code :
  zlen code < 2 ^ 62 ->
  exists bits, codeBitmap code = Ret bits /\
    length bits = Z.to_nat (zlen code / 8 + 5) /\
    forall p, 0 <= p < zlen code -> bit bits p = false <-> boundary code p.
Proof.
  intros H. apply bitmapLoop_spec; [done|apply marked_init|]. unfold zlen. lia.
Qed.

Lemma codeSegment_bit bits pos :
  0 <= pos -> pos / 8 < zlen bits ->
  codeSegment bits pos = Some (negb (bit bits pos)).
Proof.
  intros H0 Hl. assert (0 <= pos / 8) by (apply Z.div_pos; lia).
  unfold codeSegment, bit. destruct (index_Some bits (pos / 8)) as [b Hb]; [lia|].
  rewrite Hb. unfold index in Hb. replace (0 <=? pos / 8) with true in Hb by lia.
  rewrite nth_lookup, Hb. change (default 0 (Some b)) with b. f_equal.
  pose proof (Z.mod_pos_bound pos 8 ltac:(lia)) as Hm.
  assert (Z.shiftr 128 (pos mod 8) = 2 ^ (7 - pos mod 8)) as ->.
  { eight (pos mod 8); reflexivity. }
  destruct (Z.testbit b (7 - pos mod 8)) eqn:T; cbn [negb].
  - apply Z.eqb_neq. intros Hz.
    apply (f_equal (fun z => Z.testbit z (7 - pos mod 8))) in Hz.
    rewrite Z.land_spec, T, Z.pow2_bits_true, Z.testbit_0_l in Hz by lia. done.
  - apply Z.eqb_eq. apply Z.bits_inj_0. intros i. rewrite Z.land_spec.
    destruct (decide (i = 7 - pos mod 8)) as [->|Hne]; [by rewrite T|].
    rewrite Z.pow2_bits_false by lia. apply andb_false_r.
Qed.

Lemma jumpdestAt_spec code m dest :
  zlen code < 2 ^ 62 -> 0 <= dest < zlen code -> codeBitmap code = Ret m ->
  exists b, jumpdestAt m code dest = Ret b /\ (b = true <-> valid_jumpdest code dest).
Proof.
  intros Hsz Hd Hm. destruct (codeBitmap_spec code Hsz) as (m' & Hm' & L & B).
  assert (m' = m) as -> by congruence.
  unfold jumpdestAt, valid_jumpdest.
  destruct (index_Some code dest Hd) as [b0 Hb0]. rewrite Hb0. split_if.
  - assert (dest / 8 <= zlen code / 8) by (apply Z.div_le_mono; lia).
    assert (0 <= zlen code / 8) by (apply Z.div_pos; lia).
    rewrite codeSegment_bit by (unfold zlen in *; lia).
    eexists. split; [done|]. rewrite negb_true_iff, B by done.
    assert (b0 = Zbyte JUMPDEST) as -> by (apply byteZ_inj; done).
    split; [done|]. by intros [? _].
  - exists false. split; [done|]. split; [done|]. intros [_ [= ->]]. done.
Qed.

Section has.
Context {CodeHash : Type} `{Countable CodeHash}.

(** [has] never panics on a right cache, answers the specification, and leaves
    a right cache behind. *)
Lemma has_spec (d : gmap CodeHash bitvec) h code dest :
  zlen code < 2 ^ 62 -> 0 <= dest -> cache_ok d h code ->
  exists b d', has d h code dest = Ret (b, d') /\
    (b = true <-> valid_jumpdest code dest) /\
    cache_ok d' h code /\ (forall h', h' <> h -> d' !! h' = d !! h').
Proof.
  intros Hsz H0 Hc. unfold has. cbv zeta. pose proof (zlen_nonneg code).
  assert (dest < zlen code -> Uint64 dest = dest /\ BitLen dest < 63) as Hin.
  { intros. split.
    - unfold Uint64. by rewrite Z.abs_eq, u64_small by (unfold is_u64; lia).
    - enough (BitLen dest <= 62) by lia. apply BitLen_le; lia. }
  destruct (_ || _) eqn:E.
  - exists false, d. split; [done|]. split; [|done]. split; [done|].
    intros [_ Hi]. exfalso. unfold index in Hi.
    replace (0 <=? dest) with true in Hi by lia. apply lookup_lt_Some in Hi.
    destruct Hin as [Hu ?]; [unfold zlen; lia|]. rewrite Hu in E.
    apply orb_true_iff in E as [E|E]; zbool; unfold zlen in *; lia.
  - zbool. assert (BitLen dest <= 62) as Hb by lia. apply BitLen_le in Hb; [|lia].
    assert (Uint64 dest = dest) as Hu.
    { unfold Uint64. by rewrite Z.abs_eq, u64_small by (unfold is_u64; lia). }
    rewrite Hu. destruct (codeBitmap_spec code Hsz) as (m & Hm & _).
    destruct (d !! h) as [m'|] eqn:Ed.
    + destruct (jumpdestAt_spec code m' dest) as (b & -> & Hb'); try done; try lia.
      { by apply Hc. }
      exists b, d. done.
    + rewrite Hm.
      destruct (jumpdestAt_spec code m dest) as (b & -> & Hb'); try done; try lia.
      exists b, (<[h := m]> d). split; [done|]. split; [done|]. split.
      * intros m1. rewrite lookup_insert_eq. congruence.
      * intros h' Hne. by rewrite lookup_insert_ne.
Qed.
End has.
