(* ===== verification/StateInterface.v ===== *)
(** * core/vm/interface.go: what the EVM asks of the state database

    [StateDB] is the interface as a class of operations over an arbitrary
    database type: each operation is a state transformer that may panic.
    [StateDBSpec] is the contract the EVM's theorems rely on.  It relates a
    database to an abstract [world] (accounts, refund counter, logs) and to the
    stack of worlds saved by the snapshots that are still valid: an operation
    acts on the world, [Snapshot] pushes it, [RevertToSnapshot] restores the
    one it names and drops the later ones.  [JournalSpec] proves the contract
    for the journalled implementation of [core/state].

    [Crypto] holds the primitives the EVM takes from [crypto], [crypto/bn256]
    and the Go cryptography packages, which stay parameters. *)

From Stdlib Require Import ZArith Lia Bool.
From S2P Require Import Prelude GoMath.
Local Open Scope Z_scope.

(** ** Cryptographic primitives *)

(** Code hashes have a type of their own: the EVM only compares them and uses
    them as map keys. *)
Class Crypto := {
  CodeHash : Type;
  CodeHash_eq_dec :: EqDecision CodeHash;
  CodeHash_countable :: Countable CodeHash;
  Keccak256Hash : list byte -> CodeHash;
  zeroHash : CodeHash;                              (** [common.Hash{}] *)
  Keccak256 : list byte -> list byte;
  CreateAddress : Address -> Z -> Address;
  Ecrecover : list byte -> list byte -> option (list byte);
  Sha256 : list byte -> list byte;
  Ripemd160 : list byte -> list byte;
  G1 : Type;
  G2 : Type;
  G1_Unmarshal : list byte -> option G1;
  G2_Unmarshal : list byte -> option G2;
  G1_Marshal : G1 -> list byte;
  G1_Add : G1 -> G1 -> G1;
  G1_ScalarMult : G1 -> Z -> G1;
  PairingCheck : list (G1 * G2) -> bool
}.

(** Documented output sizes. *)
Class CryptoSizes (C : Crypto) := {
  Keccak256_length b : zlen (Keccak256 b) = 32;
  Sha256_length b : zlen (Sha256 b) = 32;
  Ripemd160_length b : zlen (Ripemd160 b) = 20;
  Ecrecover_length h s pk : Ecrecover h s = Some pk -> zlen pk = 65;
  G1_Marshal_length p : zlen (G1_Marshal p) = 64;
  CreateAddress_addr a n : is_addr (CreateAddress a n)
}.

(** Collision resistance, idealised: different programs have different code
    hashes. *)
Class CodeHashIdeal (C : Crypto) := {
  Keccak256Hash_inj c1 c2 : Keccak256Hash c1 = Keccak256Hash c2 -> c1 = c2
}.

(** ** core/types/log.go *)

Record Log := mkLog {
  log_Address : Address;
  log_Topics : list Hash;
  log_Data : list byte;
  log_BlockNumber : Z;
  log_TxHash : Hash;
  log_TxIndex : Z;
  log_BlockHash : Hash;
  log_Index : Z
}.

(** The log as the EVM emits it: the database fills in the rest. *)
Definition emitLog (addr : Address) (topics : list Hash) (data : list byte)
    (blockNumber : Z) : Log :=
  mkLog addr topics data blockNumber 0 0 0 0.

(** ** The interface *)

Class StateDB {C : Crypto} (S : Type) := {
  CreateAccount : Address -> M S unit;
  SubBalance : Address -> Z -> M S unit;
  AddBalance : Address -> Z -> M S unit;
  GetBalance : Address -> M S Z;
  GetNonce : Address -> M S Z;
  SetNonce : Address -> Z -> M S unit;
  GetCodeHash : Address -> M S CodeHash;
  GetCode : Address -> M S (list byte);
  SetCode : Address -> list byte -> M S unit;
  GetCodeSize : Address -> M S Z;
  AddRefund : Z -> M S unit;
  GetRefund : M S Z;
  GetState : Address -> Hash -> M S Hash;
  SetState : Address -> Hash -> Hash -> M S unit;
  Suicide : Address -> M S bool;
  HasSuicided : Address -> M S bool;
  Exist : Address -> M S bool;
  Empty : Address -> M S bool;
  RevertToSnapshot : Z -> M S unit;
  Snapshot : M S Z;
  AddLog : Log -> M S unit;
  AddPreimage : Hash -> list byte -> M S unit
}.

(** ** The abstract world *)

Record account := mkAccount {
  acc_nonce : Z;
  acc_balance : Z;
  acc_code : list byte;
  acc_storage : gmap Hash Hash;      (** only the non-zero entries *)
  acc_suicided : bool
}.

Definition new_account : account := mkAccount 0 0 [] ∅ false.

Record world := mkWorld {
  w_accounts : gmap Address account;
  w_refund : Z;
  w_logs : gmap Hash (list Log);
  w_logSize : Z;
  w_preimages : gmap Hash (list byte);
  w_thash : Hash;
  w_bhash : Hash;
  w_txIndex : Z
}.

Section world.
Context {C : Crypto}.
Implicit Types (w : world) (a : Address).

Definition with_accounts w m : world :=
  mkWorld m (w_refund w) (w_logs w) (w_logSize w) (w_preimages w) (w_thash w)
    (w_bhash w) (w_txIndex w).

Definition w_get w a : option account := w_accounts w !! a.

(** The account of [a], or the fresh one that would be created. *)
Definition w_acc w a : account := default new_account (w_get w a).

Definition w_put a (acc : account) w : world :=
  with_accounts w (<[a := acc]> (w_accounts w)).

(** [GetOrNewStateObject] followed by an update. *)
Definition w_update a (f : account -> account) w : world :=
  w_put a (f (w_acc w a)) w.

Definition set_balance v acc :=
  mkAccount (acc_nonce acc) v (acc_code acc) (acc_storage acc) (acc_suicided acc).
Definition set_nonce v acc :=
  mkAccount v (acc_balance acc) (acc_code acc) (acc_storage acc) (acc_suicided acc).
Definition set_code v acc :=
  mkAccount (acc_nonce acc) (acc_balance acc) v (acc_storage acc) (acc_suicided acc).
Definition set_slot (k v : Hash) acc :=
  mkAccount (acc_nonce acc) (acc_balance acc) (acc_code acc)
    (if v =? 0 then delete k (acc_storage acc) else <[k := v]> (acc_storage acc))
    (acc_suicided acc).
Definition set_suicided v acc :=
  mkAccount (acc_nonce acc) (acc_balance acc) (acc_code acc) (acc_storage acc) v.

Definition w_CreateAccount a w : world :=
  w_put a (set_balance (acc_balance (w_acc w a)) new_account) w.
Definition w_AddBalance a v : world -> world :=
  w_update a (fun acc => set_balance (acc_balance acc + v) acc).
Definition w_SubBalance a v : world -> world :=
  w_update a (fun acc => set_balance (acc_balance acc - v) acc).
Definition w_SetNonce a v : world -> world := w_update a (set_nonce v).
Definition w_SetCode a v : world -> world := w_update a (set_code v).
Definition w_SetState a k v : world -> world := w_update a (set_slot k v).

Definition w_Suicide a w : world :=
  match w_get w a with
  | None => w
  | Some acc => w_put a (set_suicided true (set_balance 0 acc)) w
  end.

Definition w_AddRefund gas w : world :=
  mkWorld (w_accounts w) (u64 (w_refund w + gas)) (w_logs w) (w_logSize w)
    (w_preimages w) (w_thash w) (w_bhash w) (w_txIndex w).

Definition w_AddLog (l : Log) w : world :=
  let l' := mkLog (log_Address l) (log_Topics l) (log_Data l) (log_BlockNumber l)
              (w_thash w) (w_txIndex w) (w_bhash w) (w_logSize w) in
  mkWorld (w_accounts w) (w_refund w)
    (<[w_thash w := default [] (w_logs w !! w_thash w) ++ [l']]> (w_logs w))
    (u64 (w_logSize w + 1)) (w_preimages w) (w_thash w) (w_bhash w) (w_txIndex w).

Definition w_AddPreimage (h : Hash) (d : list byte) w : world :=
  match w_preimages w !! h with
  | Some _ => w
  | None =>
      mkWorld (w_accounts w) (w_refund w) (w_logs w) (w_logSize w)
        (<[h := d]> (w_preimages w)) (w_thash w) (w_bhash w) (w_txIndex w)
  end.

Definition w_GetBalance w a : Z := acc_balance (w_acc w a).
Definition w_GetNonce w a : Z := acc_nonce (w_acc w a).
Definition w_GetCode w a : list byte := acc_code (w_acc w a).
Definition w_GetCodeHash w a : CodeHash :=
  match w_get w a with
  | None => zeroHash
  | Some acc => Keccak256Hash (acc_code acc)
  end.
Definition w_GetState w a k : Hash := default 0 (acc_storage (w_acc w a) !! k).
Definition w_HasSuicided w a : bool := acc_suicided (w_acc w a).
Definition w_Exist w a : bool := bool_decide (is_Some (w_get w a)).
Definition w_Empty w a : bool :=
  match w_get w a with
  | None => true
  | Some acc =>
      (acc_nonce acc =? 0) && (acc_balance acc =? 0) &&
      bool_decide (Keccak256Hash (acc_code acc) = Keccak256Hash [])
  end.
End world.

(** ** The contract *)

Class StateDBSpec {C : Crypto} (S : Type) `{!StateDB S} := {
  db_inv : S -> Prop;
  view : S -> world;
  saved : S -> list (Z * world);

  (** What holds of the data of every database: nonces, storage cells and the
      refund counter are of their widths, code fits a slice. *)
  view_ok s a : db_inv s ->
    is_u64 (w_GetNonce (view s) a) /\ (forall k, is_word (w_GetState (view s) a k)) /\
    is_u64 (w_refund (view s)) /\ zlen (w_GetCode (view s) a) < 2 ^ 62;

  spec_CreateAccount s a : db_inv s ->
    runs (CreateAccount a) s (fun _ s' =>
      db_inv s' /\ view s' = w_CreateAccount a (view s) /\ saved s' = saved s);
  spec_SubBalance s a v : db_inv s ->
    runs (SubBalance a v) s (fun _ s' =>
      db_inv s' /\ view s' = w_SubBalance a v (view s) /\ saved s' = saved s);
  spec_AddBalance s a v : db_inv s ->
    runs (AddBalance a v) s (fun _ s' =>
      db_inv s' /\ view s' = w_AddBalance a v (view s) /\ saved s' = saved s);
  spec_SetNonce s a v : db_inv s -> is_u64 v ->
    runs (SetNonce a v) s (fun _ s' =>
      db_inv s' /\ view s' = w_SetNonce a v (view s) /\ saved s' = saved s);
  spec_SetCode s a v : db_inv s -> zlen v < 2 ^ 62 ->
    runs (SetCode a v) s (fun _ s' =>
      db_inv s' /\ view s' = w_SetCode a v (view s) /\ saved s' = saved s);
  spec_SetState s a k v : db_inv s -> is_word v ->
    runs (SetState a k v) s (fun _ s' =>
      db_inv s' /\ view s' = w_SetState a k v (view s) /\ saved s' = saved s);
  spec_AddRefund s v : db_inv s ->
    runs (AddRefund v) s (fun _ s' =>
      db_inv s' /\ view s' = w_AddRefund v (view s) /\ saved s' = saved s);
  spec_Suicide s a : db_inv s ->
    runs (Suicide a) s (fun r s' =>
      r = w_Exist (view s) a /\
      db_inv s' /\ view s' = w_Suicide a (view s) /\ saved s' = saved s);
  spec_AddLog s l : db_inv s ->
    runs (AddLog l) s (fun _ s' =>
      db_inv s' /\ view s' = w_AddLog l (view s) /\ saved s' = saved s);
  spec_AddPreimage s h d : db_inv s ->
    runs (AddPreimage h d) s (fun _ s' =>
      db_inv s' /\ view s' = w_AddPreimage h d (view s) /\ saved s' = saved s);

  spec_GetBalance s a : db_inv s ->
    runs (GetBalance a) s (fun r s' =>
      r = w_GetBalance (view s) a /\ db_inv s' /\ view s' = view s /\ saved s' = saved s);
  spec_GetNonce s a : db_inv s ->
    runs (GetNonce a) s (fun r s' =>
      r = w_GetNonce (view s) a /\ db_inv s' /\ view s' = view s /\ saved s' = saved s);
  spec_GetCodeHash s a : db_inv s ->
    runs (GetCodeHash a) s (fun r s' =>
      r = w_GetCodeHash (view s) a /\ db_inv s' /\ view s' = view s /\ saved s' = saved s);
  spec_GetCode s a : db_inv s ->
    runs (GetCode a) s (fun r s' =>
      r = w_GetCode (view s) a /\ db_inv s' /\ view s' = view s /\ saved s' = saved s);
  spec_GetCodeSize s a : db_inv s ->
    runs (GetCodeSize a) s (fun r s' =>
      r = zlen (w_GetCode (view s) a) /\
      db_inv s' /\ view s' = view s /\ saved s' = saved s);
  spec_GetRefund s : db_inv s ->
    runs GetRefund s (fun r s' =>
      r = w_refund (view s) /\ db_inv s' /\ view s' = view s /\ saved s' = saved s);
  spec_GetState s a k : db_inv s ->
    runs (GetState a k) s (fun r s' =>
      r = w_GetState (view s) a k /\ db_inv s' /\ view s' = view s /\ saved s' = saved s);
  spec_HasSuicided s a : db_inv s ->
    runs (HasSuicided a) s (fun r s' =>
      r = w_HasSuicided (view s) a /\ db_inv s' /\ view s' = view s /\ saved s' = saved s);
  spec_Exist s a : db_inv s ->
    runs (Exist a) s (fun r s' =>
      r = w_Exist (view s) a /\ db_inv s' /\ view s' = view s /\ saved s' = saved s);
  spec_Empty s a : db_inv s ->
    runs (Empty a) s (fun r s' =>
      r = w_Empty (view s) a /\ db_inv s' /\ view s' = view s /\ saved s' = saved s);

  spec_Snapshot s : db_inv s ->
    runs Snapshot s (fun id s' =>
      db_inv s' /\ view s' = view s /\ saved s' = saved s ++ [(id, view s)]);
  spec_RevertToSnapshot s pre id w post : db_inv s ->
    saved s = pre ++ (id, w) :: post ->
    runs (RevertToSnapshot id) s (fun _ s' =>
      db_inv s' /\ view s' = w /\ saved s' = pre)
}.
