(* ===== verification/StateDB.v ===== *)
(** * core/state: the journalled state database

    [core/state/statedb.go], [state_object.go] and [journal.go].  The account
    trie is the finite map of its (decoded) entries and a storage trie that of
    its slots; opening tries, missing nodes, loading code and computing a root
    are the parameters [Database].  A missing node makes reads and writes of
    the path fail, which the code memoises in [dbErr].  Which slots fail is
    asked by address and slot, also of an account that was replaced by one with an
    empty trie, of which the code would not miss a node: there the model may set
    an error flag that the code does not set.

    State objects are values in the map [stateObjects]: the code only mutates
    an object while it is in the map, and the object a [resetObjectChange]
    keeps is not reachable otherwise.  A [nil] code is the empty list. *)

From Stdlib Require Import ZArith Lia Bool.
From S2P Require Import Prelude GoMath StateInterface.
Local Open Scope Z_scope.
Local Open Scope go_scope.

(** What the database below delivers. *)
Class Database {C : Crypto} := {
  accountErr : Address -> bool;                       (** a node on the path is missing *)
  slotErr : Address -> Hash -> bool;
  OpenStorageTrie : Address -> Hash -> option (gmap Hash Hash);
  ContractCode : Address -> CodeHash -> option (list byte);
  StorageRoot : gmap Hash Hash -> Hash                (** [trie.Hash()] *)
}.

(** ** Data *)

Section data.
Context {C : Crypto}.

Record Account := mkAcct {
  Nonce : Z;
  Balance : Z;
  Root : Hash;
  acct_CodeHash : CodeHash
}.

Record stateObject := mkObj {
  o_address : Address;
  o_data : Account;
  o_dbErr : bool;
  o_trie : option (gmap Hash Hash);
  o_code : list byte;
  o_cachedStorage : gmap Hash Hash;
  o_dirtyStorage : gmap Hash Hash;
  o_dirtyCode : bool;
  o_suicided : bool;
  o_deleted : bool
}.

Inductive journalEntry :=
| createObjectChange (account : Address)
| resetObjectChange (prev : stateObject)
| suicideChange (account : Address) (prev : bool) (prevbalance : Z)
| balanceChange (account : Address) (prev : Z)
| nonceChange (account : Address) (prev : Z)
| storageChange (account : Address) (key prevalue : Hash)
| codeChange (account : Address) (prevcode : list byte) (prevhash : CodeHash)
| refundChange (prev : Z)
| addLogChange (txhash : Hash)
| addPreimageChange (hash : Hash)
| touchChange (account : Address).

(** [entries] has the newest entry first. *)
Record journal := mkJournal {
  entries : list journalEntry;
  dirties : gmap Address Z
}.

Record revision := mkRevision { rev_id : Z; journalIndex : Z }.

Record stateDB := mkStateDB {
  s_trie : gmap Address Account;
  stateObjects : gmap Address stateObject;
  stateObjectsDirty : gset Address;
  s_dbErr : bool;
  s_refund : Z;
  s_thash : Hash;
  s_bhash : Hash;
  s_txIndex : Z;
  s_logs : gmap Hash (list Log);
  s_logSize : Z;
  s_preimages : gmap Hash (list byte);
  s_journal : journal;
  validRevisions : list revision;
  nextRevisionId : Z
}.

Definition newJournal : journal := mkJournal [] ∅.

(** [New], for a trie that opens. *)
Definition New (tr : gmap Address Account) : stateDB :=
  mkStateDB tr ∅ ∅ false 0 0 0 0 ∅ 0 ∅ newJournal [] 0.

(** *** Field updates *)

Definition set_objects m s := mkStateDB (s_trie s) m (stateObjectsDirty s) (s_dbErr s)
  (s_refund s) (s_thash s) (s_bhash s) (s_txIndex s) (s_logs s) (s_logSize s)
  (s_preimages s) (s_journal s) (validRevisions s) (nextRevisionId s).
Definition set_objectsDirty d s := mkStateDB (s_trie s) (stateObjects s) d (s_dbErr s)
  (s_refund s) (s_thash s) (s_bhash s) (s_txIndex s) (s_logs s) (s_logSize s)
  (s_preimages s) (s_journal s) (validRevisions s) (nextRevisionId s).
Definition set_trie t s := mkStateDB t (stateObjects s) (stateObjectsDirty s) (s_dbErr s)
  (s_refund s) (s_thash s) (s_bhash s) (s_txIndex s) (s_logs s) (s_logSize s)
  (s_preimages s) (s_journal s) (validRevisions s) (nextRevisionId s).
Definition set_dbErr b s := mkStateDB (s_trie s) (stateObjects s) (stateObjectsDirty s) b
  (s_refund s) (s_thash s) (s_bhash s) (s_txIndex s) (s_logs s) (s_logSize s)
  (s_preimages s) (s_journal s) (validRevisions s) (nextRevisionId s).
Definition set_refund r s := mkStateDB (s_trie s) (stateObjects s) (stateObjectsDirty s)
  (s_dbErr s) r (s_thash s) (s_bhash s) (s_txIndex s) (s_logs s) (s_logSize s)
  (s_preimages s) (s_journal s) (validRevisions s) (nextRevisionId s).
Definition set_logs l n s := mkStateDB (s_trie s) (stateObjects s) (stateObjectsDirty s)
  (s_dbErr s) (s_refund s) (s_thash s) (s_bhash s) (s_txIndex s) l n
  (s_preimages s) (s_journal s) (validRevisions s) (nextRevisionId s).
Definition set_preimages p s := mkStateDB (s_trie s) (stateObjects s) (stateObjectsDirty s)
  (s_dbErr s) (s_refund s) (s_thash s) (s_bhash s) (s_txIndex s) (s_logs s) (s_logSize s)
  p (s_journal s) (validRevisions s) (nextRevisionId s).
Definition set_journal j s := mkStateDB (s_trie s) (stateObjects s) (stateObjectsDirty s)
  (s_dbErr s) (s_refund s) (s_thash s) (s_bhash s) (s_txIndex s) (s_logs s) (s_logSize s)
  (s_preimages s) j (validRevisions s) (nextRevisionId s).
Definition set_revisions r n s := mkStateDB (s_trie s) (stateObjects s) (stateObjectsDirty s)
  (s_dbErr s) (s_refund s) (s_thash s) (s_bhash s) (s_txIndex s) (s_logs s) (s_logSize s)
  (s_preimages s) (s_journal s) r n.

Definition set_data d o := mkObj (o_address o) d (o_dbErr o) (o_trie o) (o_code o)
  (o_cachedStorage o) (o_dirtyStorage o) (o_dirtyCode o) (o_suicided o) (o_deleted o).
Definition set_oErr o := mkObj (o_address o) (o_data o) true (o_trie o) (o_code o)
  (o_cachedStorage o) (o_dirtyStorage o) (o_dirtyCode o) (o_suicided o) (o_deleted o).
Definition set_oTrie t o := mkObj (o_address o) (o_data o) (o_dbErr o) (Some t) (o_code o)
  (o_cachedStorage o) (o_dirtyStorage o) (o_dirtyCode o) (o_suicided o) (o_deleted o).
Definition set_oCode c o := mkObj (o_address o) (o_data o) (o_dbErr o) (o_trie o) c
  (o_cachedStorage o) (o_dirtyStorage o) (o_dirtyCode o) (o_suicided o) (o_deleted o).
Definition set_storage c d o := mkObj (o_address o) (o_data o) (o_dbErr o) (o_trie o) (o_code o)
  c d (o_dirtyCode o) (o_suicided o) (o_deleted o).
Definition set_oSuicided b o := mkObj (o_address o) (o_data o) (o_dbErr o) (o_trie o) (o_code o)
  (o_cachedStorage o) (o_dirtyStorage o) (o_dirtyCode o) b (o_deleted o).
Definition set_oDeleted b o := mkObj (o_address o) (o_data o) (o_dbErr o) (o_trie o) (o_code o)
  (o_cachedStorage o) (o_dirtyStorage o) (o_dirtyCode o) (o_suicided o) b.
Definition set_oDirtyCode b o := mkObj (o_address o) (o_data o) (o_dbErr o) (o_trie o) (o_code o)
  (o_cachedStorage o) (o_dirtyStorage o) b (o_suicided o) (o_deleted o).
End data.

(** The root of the account trie, as the database computes it. *)
Class AccountTrie {C : Crypto} := AccountRoot : gmap Address Account -> Hash.

(** What [Commit] adds to the database: code, and the nodes of a storage trie. *)
Inductive dbWrite {C : Crypto} :=
| InsertBlob (hash : CodeHash) (code : list byte)
| StorageCommit (t : gmap Hash Hash).

(** ** journal.go *)

Section journal.
Context {C : Crypto}.

Definition dirtied (e : journalEntry) : option Address :=
  match e with
  | createObjectChange a | suicideChange a _ _ | balanceChange a _ | nonceChange a _
  | storageChange a _ _ | codeChange a _ _ | touchChange a => Some a
  | resetObjectChange _ | refundChange _ | addLogChange _ | addPreimageChange _ => None
  end.

(** [j.dirties\[addr\]++]. *)
Definition journal_dirty (addr : Address) (j : journal) : journal :=
  mkJournal (entries j) (<[addr := default 0 (dirties j !! addr) + 1]> (dirties j)).

Definition journal_append (e : journalEntry) (j : journal) : journal :=
  let j' := mkJournal (e :: entries j) (dirties j) in
  match dirtied e with Some a => journal_dirty a j' | None => j' end.

Definition journal_length (j : journal) : Z := zlen (entries j).

(** The end of the loop body of [journal.revert]. *)
Definition undirty (e : journalEntry) (d : gmap Address Z) : gmap Address Z :=
  match dirtied e with
  | None => d
  | Some a =>
      let n := default 0 (d !! a) - 1 in
      if n =? 0 then delete a d else <[a := n]> d
  end.
End journal.

(** ** state_object.go *)

Module Obj.
Section obj.
Context {C : Crypto} {D : Database}.

Definition ripemd : Address := 3.

Definition empty (o : stateObject) : bool :=
  (Nonce (o_data o) =? 0) && (Z.sgn (Balance (o_data o)) =? 0) &&
  bool_decide (acct_CodeHash (o_data o) = Keccak256Hash []).

Definition newObject (address : Address) (data : Account) : stateObject :=
  mkObj address data false None [] ∅ ∅ false false false.

(** [Account{}], with the code hash [newObject] fills in. *)
Definition emptyAccount : Account := mkAcct 0 0 0 (Keccak256Hash []).

Definition setBalance (amount : Z) (o : stateObject) : stateObject :=
  let d := o_data o in set_data (mkAcct (Nonce d) amount (Root d) (acct_CodeHash d)) o.
Definition setNonce (nonce : Z) (o : stateObject) : stateObject :=
  let d := o_data o in set_data (mkAcct nonce (Balance d) (Root d) (acct_CodeHash d)) o.
Definition setRoot (root : Hash) (o : stateObject) : stateObject :=
  let d := o_data o in set_data (mkAcct (Nonce d) (Balance d) root (acct_CodeHash d)) o.
Definition setCode (codeHash : CodeHash) (code : list byte) (o : stateObject) : stateObject :=
  let d := o_data o in
  set_oDirtyCode true
    (set_oCode code (set_data (mkAcct (Nonce d) (Balance d) (Root d) codeHash) o)).
Definition setState (key value : Hash) (o : stateObject) : stateObject :=
  set_storage (<[key := value]> (o_cachedStorage o)) (<[key := value]> (o_dirtyStorage o)) o.
Definition markSuicided (o : stateObject) : stateObject := set_oSuicided true o.

(** The trie, and the object that has it open. *)
Definition getTrie (o : stateObject) : gmap Hash Hash * stateObject :=
  match o_trie o with
  | Some t => (t, o)
  | None =>
      match OpenStorageTrie (o_address o) (Root (o_data o)) with
      | Some t => (t, set_oTrie t o)
      | None => (∅, set_oErr (set_oTrie ∅ o))
      end
  end.

Definition GetState (key : Hash) (o : stateObject) : Hash * stateObject :=
  match o_cachedStorage o !! key with
  | Some value => (value, o)
  | None =>
      let '(t, o) := getTrie o in
      if slotErr (o_address o) key then (0, set_oErr o)
      else
        let value := default 0 (t !! key) in
        (value, set_storage (<[key := value]> (o_cachedStorage o)) (o_dirtyStorage o) o)
  end.

Definition Code (o : stateObject) : list byte * stateObject :=
  match o_code o with
  | _ :: _ => (o_code o, o)
  | [] =>
      if bool_decide (acct_CodeHash (o_data o) = Keccak256Hash []) then ([], o)
      else
        match ContractCode (o_address o) (acct_CodeHash (o_data o)) with
        | Some code => (code, set_oCode code o)
        | None => ([], set_oErr o)
        end
  end.

(** One pass of the loop over [dirtyStorage]. *)
Definition flushSlot (addr : Address) (kv : Hash * Hash) (t : gmap Hash Hash * bool)
    : gmap Hash Hash * bool :=
  let '(key, value) := kv in
  if slotErr addr key then (t.1, true)
  else if value =? 0 then (delete key t.1, t.2) else (<[key := value]> t.1, t.2).

Definition updateTrie (o : stateObject) : stateObject :=
  let '(t, o) := getTrie o in
  let '(t', err) := foldr (flushSlot (o_address o)) (t, false) (map_to_list (o_dirtyStorage o)) in
  let o := set_oTrie t' (set_storage (o_cachedStorage o) ∅ o) in
  if err then set_oErr o else o.

Definition updateRoot (o : stateObject) : stateObject :=
  let o := updateTrie o in
  setRoot (StorageRoot (getTrie o).1) o.

(** The object, and the trie that was committed; [None] is an error.  Committing
    a storage trie, without a callback for its leaves, cannot fail. *)
Definition CommitTrie (o : stateObject) : option (gmap Hash Hash) * stateObject :=
  let o := updateTrie o in
  if o_dbErr o then (None, o)
  else let t := (getTrie o).1 in (Some t, setRoot (StorageRoot t) o).

(** The cache of the copy has the slots that are to be written only. *)
Definition deepCopy (o : stateObject) : stateObject :=
  let c := newObject (o_address o) (o_data o) in
  mkObj (o_address c) (o_data c) (o_dbErr c) (o_trie o) (o_code o) (o_dirtyStorage o) (o_dirtyStorage o)
    (o_dirtyCode o) (o_suicided o) (o_deleted o).
End obj.
End Obj.

(** ** statedb.go *)

Module State.
Section state.
Context {C : Crypto} {D : Database}.

Definition setStateObject (object : stateObject) : M stateDB unit :=
  modify (fun s => set_objects (<[o_address object := object]> (stateObjects s)) s).

(** [setError] of a non-nil error. *)
Definition setError : M stateDB unit := modify (set_dbErr true).

Definition append (e : journalEntry) : M stateDB unit :=
  modify (fun s => set_journal (journal_append e (s_journal s)) s).

Definition getStateObject (addr : Address) : M stateDB (option stateObject) :=
  let* s := get in
  match stateObjects s !! addr with
  | Some obj => ret (if o_deleted obj then None else Some obj)
  | None =>
      if accountErr addr then setError ;; ret None
      else
        match s_trie s !! addr with
        | None => ret None
        | Some data =>
            let obj := Obj.newObject addr data in
            setStateObject obj ;; ret (Some obj)
        end
  end.

(** The new object and the one it overwrites. *)
Definition createObject (addr : Address) : M stateDB (stateObject * option stateObject) :=
  let* prev := getStateObject addr in
  let newobj := Obj.setNonce 0 (Obj.newObject addr Obj.emptyAccount) in
  append (match prev with
          | None => createObjectChange addr
          | Some p => resetObjectChange p
          end) ;;
  setStateObject newobj ;;
  ret (newobj, prev).

Definition GetOrNewStateObject (addr : Address) : M stateDB stateObject :=
  let* obj := getStateObject addr in
  match obj with
  | Some o => if o_deleted o then (let* '(o, _) := createObject addr in ret o) else ret o
  | None => let* '(o, _) := createObject addr in ret o
  end.

Definition CreateAccount (addr : Address) : M stateDB unit :=
  let* '(newobj, prev) := createObject addr in
  match prev with
  | Some p => setStateObject (Obj.setBalance (Balance (o_data p)) newobj)
  | None => ret tt
  end.

(** *** Getters *)

Definition Exist (addr : Address) : M stateDB bool :=
  let* o := getStateObject addr in ret (bool_decide (is_Some o)).

Definition Empty (addr : Address) : M stateDB bool :=
  let* o := getStateObject addr in
  ret (match o with None => true | Some o => Obj.empty o end).

Definition GetBalance (addr : Address) : M stateDB Z :=
  let* o := getStateObject addr in
  ret (match o with Some o => Balance (o_data o) | None => 0 end).

Definition GetNonce (addr : Address) : M stateDB Z :=
  let* o := getStateObject addr in
  ret (match o with Some o => Nonce (o_data o) | None => 0 end).

Definition GetCode (addr : Address) : M stateDB (list byte) :=
  let* o := getStateObject addr in
  match o with
  | Some o => let '(code, o') := Obj.Code o in setStateObject o' ;; ret code
  | None => ret []
  end.

Definition GetCodeSize (addr : Address) : M stateDB Z :=
  let* o := getStateObject addr in
  match o with
  | None => ret 0
  | Some o =>
      match o_code o with
      | _ :: _ => ret (zlen (o_code o))
      | [] =>
          match ContractCode (o_address o) (acct_CodeHash (o_data o)) with
          | Some code => ret (zlen code)
          | None => setError ;; ret 0
          end
      end
  end.

Definition GetCodeHash (addr : Address) : M stateDB CodeHash :=
  let* o := getStateObject addr in
  ret (match o with Some o => acct_CodeHash (o_data o) | None => zeroHash end).

Definition GetState (addr : Address) (bhash : Hash) : M stateDB Hash :=
  let* o := getStateObject addr in
  match o with
  | Some o => let '(v, o') := Obj.GetState bhash o in setStateObject o' ;; ret v
  | None => ret 0
  end.

Definition HasSuicided (addr : Address) : M stateDB bool :=
  let* o := getStateObject addr in
  ret (match o with Some o => o_suicided o | None => false end).

Definition GetRefund : M stateDB Z := gets s_refund.

(** *** Setters, with the methods of [stateObject] they call *)

Definition obj_SetBalance (amount : Z) (o : stateObject) : M stateDB unit :=
  append (balanceChange (o_address o) (Balance (o_data o))) ;;
  setStateObject (Obj.setBalance amount o).

Definition obj_touch (o : stateObject) : M stateDB unit :=
  append (touchChange (o_address o)) ;;
  if o_address o =? Obj.ripemd
  then modify (fun s => set_journal (journal_dirty (o_address o) (s_journal s)) s)
  else ret tt.

Definition obj_AddBalance (amount : Z) (o : stateObject) : M stateDB unit :=
  if Z.sgn amount =? 0 then
    if Obj.empty o then obj_touch o else ret tt
  else obj_SetBalance (Balance (o_data o) + amount) o.

Definition obj_SubBalance (amount : Z) (o : stateObject) : M stateDB unit :=
  if Z.sgn amount =? 0 then ret tt
  else obj_SetBalance (Balance (o_data o) - amount) o.

Definition obj_SetNonce (nonce : Z) (o : stateObject) : M stateDB unit :=
  append (nonceChange (o_address o) (Nonce (o_data o))) ;;
  setStateObject (Obj.setNonce nonce o).

Definition obj_SetCode (codeHash : CodeHash) (code : list byte) (o : stateObject)
    : M stateDB unit :=
  let '(prevcode, o) := Obj.Code o in
  append (codeChange (o_address o) prevcode (acct_CodeHash (o_data o))) ;;
  setStateObject (Obj.setCode codeHash code o).

Definition obj_SetState (key value : Hash) (o : stateObject) : M stateDB unit :=
  let '(prevalue, o) := Obj.GetState key o in
  append (storageChange (o_address o) key prevalue) ;;
  setStateObject (Obj.setState key value o).

Definition AddBalance (addr : Address) (amount : Z) : M stateDB unit :=
  let* o := GetOrNewStateObject addr in obj_AddBalance amount o.
Definition SubBalance (addr : Address) (amount : Z) : M stateDB unit :=
  let* o := GetOrNewStateObject addr in obj_SubBalance amount o.
Definition SetBalance (addr : Address) (amount : Z) : M stateDB unit :=
  let* o := GetOrNewStateObject addr in obj_SetBalance amount o.
Definition SetNonce (addr : Address) (nonce : Z) : M stateDB unit :=
  let* o := GetOrNewStateObject addr in obj_SetNonce nonce o.
Definition SetCode (addr : Address) (code : list byte) : M stateDB unit :=
  let* o := GetOrNewStateObject addr in obj_SetCode (Keccak256Hash code) code o.
Definition SetState (addr : Address) (key value : Hash) : M stateDB unit :=
  let* o := GetOrNewStateObject addr in obj_SetState key value o.

Definition Suicide (addr : Address) : M stateDB bool :=
  let* obj := getStateObject addr in
  match obj with
  | None => ret false
  | Some o =>
      append (suicideChange addr (o_suicided o) (Balance (o_data o))) ;;
      setStateObject (Obj.setBalance 0 (Obj.markSuicided o)) ;;
      ret true
  end.

Definition AddRefund (gas : Z) : M stateDB unit :=
  let* s := get in
  append (refundChange (s_refund s)) ;;
  modify (fun s => set_refund (u64 (s_refund s + gas)) s).

Definition AddLog (log : Log) : M stateDB unit :=
  let* s := get in
  append (addLogChange (s_thash s)) ;;
  modify (fun s =>
    let log := mkLog (log_Address log) (log_Topics log) (log_Data log) (log_BlockNumber log)
                 (s_thash s) (s_txIndex s) (s_bhash s) (s_logSize s) in
    set_logs (<[s_thash s := default [] (s_logs s !! s_thash s) ++ [log]]> (s_logs s))
      (u64 (s_logSize s + 1)) s).

Definition AddPreimage (hash : Hash) (preimage : list byte) : M stateDB unit :=
  let* s := get in
  match s_preimages s !! hash with
  | Some _ => ret tt
  | None =>
      append (addPreimageChange hash) ;;
      modify (fun s => set_preimages (<[hash := preimage]> (s_preimages s)) s)
  end.

(** *** Snapshots *)

(** [journalEntry.revert]; a missing object is a nil dereference. *)
Definition entry_revert (ch : journalEntry) : M stateDB unit :=
  match ch with
  | createObjectChange a =>
      modify (fun s => set_objectsDirty (stateObjectsDirty s ∖ {[a]})
                         (set_objects (delete a (stateObjects s)) s))
  | resetObjectChange prev => setStateObject prev
  | suicideChange a prev prevbalance =>
      let* o := getStateObject a in
      match o with
      | Some o => setStateObject (Obj.setBalance prevbalance (set_oSuicided prev o))
      | None => ret tt
      end
  | balanceChange a prev =>
      let* o := getStateObject a in
      let* o := must o in setStateObject (Obj.setBalance prev o)
  | nonceChange a prev =>
      let* o := getStateObject a in
      let* o := must o in setStateObject (Obj.setNonce prev o)
  | storageChange a key prevalue =>
      let* o := getStateObject a in
      let* o := must o in setStateObject (Obj.setState key prevalue o)
  | codeChange a prevcode prevhash =>
      let* o := getStateObject a in
      let* o := must o in setStateObject (Obj.setCode prevhash prevcode o)
  | refundChange prev => modify (set_refund prev)
  | addLogChange txhash =>
      let* s := get in
      let logs := default [] (s_logs s !! txhash) in
      let* logs' :=
        if zlen logs =? 1 then ret (delete txhash (s_logs s))
        else
          let* l := must (slice logs 0 (zlen logs - 1)) in
          ret (<[txhash := l]> (s_logs s)) in
      modify (fun s => set_logs logs' (u64 (s_logSize s - 1)) s)
  | addPreimageChange hash =>
      modify (fun s => set_preimages (delete hash (s_preimages s)) s)
  | touchChange _ => ret tt
  end.

(** [for i := len(j.entries) - 1; i >= snapshot; i--]; the entry is dropped as
    it is undone (the code truncates the slice after the loop). *)
Fixpoint journal_revert (n : nat) : M stateDB unit :=
  match n with
  | O => ret tt
  | S n' =>
      let* s := get in
      match entries (s_journal s) with
      | [] => panic
      | e :: es =>
          entry_revert e ;;
          modify (fun s =>
            set_journal (mkJournal es (undirty e (dirties (s_journal s)))) s) ;;
          journal_revert n'
      end
  end.

Definition Snapshot : M stateDB Z :=
  let* s := get in
  let id := nextRevisionId s in
  put (set_revisions (validRevisions s ++ [mkRevision id (journal_length (s_journal s))])
         (id + 1) s) ;;
  ret id.

(** [sort.Search]: the first revision whose id is not below [revid]. *)
Fixpoint searchRevision (revid : Z) (l : list revision) : nat :=
  match l with
  | [] => O
  | r :: l' => if rev_id r >=? revid then O else S (searchRevision revid l')
  end.

Definition RevertToSnapshot (revid : Z) : M stateDB unit :=
  let* s := get in
  let idx := searchRevision revid (validRevisions s) in
  match validRevisions s !! idx with
  | None => panic
  | Some r =>
      if negb (rev_id r =? revid) then panic
      else
        journal_revert (Z.to_nat (journal_length (s_journal s) - journalIndex r)) ;;
        modify (fun s => set_revisions (take idx (validRevisions s)) (nextRevisionId s) s)
  end.

(** *** Between transactions *)

Definition clearJournalAndRefund : M stateDB unit :=
  modify (fun s => set_refund 0 (set_revisions [] (nextRevisionId s)
                                   (set_journal newJournal s))).

Definition Prepare (thash bhash : Hash) (ti : Z) : M stateDB unit :=
  modify (fun s => mkStateDB (s_trie s) (stateObjects s) (stateObjectsDirty s) (s_dbErr s)
    (s_refund s) thash bhash ti (s_logs s) (s_logSize s) (s_preimages s) (s_journal s)
    (validRevisions s) (nextRevisionId s)).

Definition updateStateObject (o : stateObject) : M stateDB unit :=
  if accountErr (o_address o) then setError
  else modify (fun s => set_trie (<[o_address o := o_data o]> (s_trie s)) s).

Definition deleteStateObject (o : stateObject) : M stateDB unit :=
  setStateObject (set_oDeleted true o) ;;
  if accountErr (o_address o) then setError
  else modify (fun s => set_trie (delete (o_address o) (s_trie s)) s).

(** One pass of the loop of [Finalise]. *)
Definition finaliseOne (deleteEmptyObjects : bool) (addr : Address) : M stateDB unit :=
  let* s := get in
  match stateObjects s !! addr with
  | None => ret tt
  | Some o =>
      (if o_suicided o || (deleteEmptyObjects && Obj.empty o) then deleteStateObject o
       else
         let o := Obj.updateRoot o in
         setStateObject o ;; updateStateObject o) ;;
      modify (fun s => set_objectsDirty (stateObjectsDirty s ∪ {[addr]}) s)
  end.

Fixpoint finaliseAll (deleteEmptyObjects : bool) (l : list Address) : M stateDB unit :=
  match l with
  | [] => ret tt
  | a :: l' => finaliseOne deleteEmptyObjects a ;; finaliseAll deleteEmptyObjects l'
  end.

Definition Finalise (deleteEmptyObjects : bool) : M stateDB unit :=
  let* s := get in
  finaliseAll deleteEmptyObjects (map fst (map_to_list (dirties (s_journal s)))) ;;
  clearJournalAndRefund.

(** One pass of the loop of [Commit]: an error, and what is written.  An empty code
    that is not nil would be written too; it is never loaded. *)
Definition commitOne (deleteEmptyObjects : bool) (addr : Address) : M stateDB (bool * list dbWrite) :=
  let* s := get in
  let done (w : list dbWrite) : M stateDB (bool * list dbWrite) :=
    modify (fun s => set_objectsDirty (stateObjectsDirty s ∖ {[addr]}) s) ;; ret (false, w) in
  match stateObjects s !! addr with
  | None => ret (false, [])
  | Some o =>
      let isDirty := bool_decide (addr ∈ stateObjectsDirty s) in
      if o_suicided o || (isDirty && deleteEmptyObjects && Obj.empty o) then
        deleteStateObject o ;; done []
      else if isDirty then
        let '(blobs, o) :=
          match o_code o with
          | _ :: _ => if o_dirtyCode o then ([InsertBlob (acct_CodeHash (o_data o)) (o_code o)], set_oDirtyCode false o) else ([], o)
          | [] => ([], o)
          end in
        let '(r, o) := Obj.CommitTrie o in
        setStateObject o ;;
        match r with
        | None => ret (true, blobs)
        | Some t => updateStateObject o ;; done (blobs ++ [StorageCommit t])
        end
      else done []
  end.

(** The loop, in the order in which it ranges over [stateObjects]. *)
Fixpoint commitAll (deleteEmptyObjects : bool) (order : list Address) : M stateDB (bool * list dbWrite) :=
  match order with
  | [] => ret (false, [])
  | a :: order =>
      let* '(err, w) := commitOne deleteEmptyObjects a in
      if err then ret (true, w)
      else let* '(err, w') := commitAll deleteEmptyObjects order in ret (err, w ++ w')
  end.

(** The root, or an error, and what is written.  The references between the nodes
    of the trie database, for its garbage collection, are left out. *)
Definition Commit {T : AccountTrie} (deleteEmptyObjects : bool) (order : list Address) : M stateDB (option Hash * list dbWrite) :=
  modify (fun s => set_objectsDirty (stateObjectsDirty s ∪ dom (dirties (s_journal s))) s) ;;
  let* '(err, w) := commitAll deleteEmptyObjects order in
  let* s := get in
  clearJournalAndRefund ;;
  ret (if err then None else Some (AccountRoot (s_trie s)), w).

(** The objects the copy gets: those the journal counts as dirty, if they exist,
    and those an earlier transaction changed. *)
Definition copiedObjects (s : stateDB) : option (gmap Address stateObject) :=
  let fromJournal := Obj.deepCopy <$> filter (fun kv => is_Some (dirties (s_journal s) !! kv.1)) (stateObjects s) in
  foldr (fun addr objs =>
    match objs with
    | None => None
    | Some objs =>
        match objs !! addr with
        | Some _ => Some objs
        | None => match stateObjects s !! addr with Some o => Some (<[addr := Obj.deepCopy o]> objs) | None => None end
        end
    end) (Some fromJournal) (elements (stateObjectsDirty s)).

Definition Copy : M stateDB stateDB :=
  let* s := get in
  let* objs := must (copiedObjects s) in
  ret (mkStateDB (s_trie s) objs (dom objs) false (s_refund s) 0 0 0 (s_logs s) (s_logSize s) (s_preimages s) newJournal [] 0).

(** A copy of the storage trie of an account, with its changes. *)
Definition StorageTrie (addr : Address) : M stateDB (option (gmap Hash Hash)) :=
  let* so := getStateObject addr in
  match so with
  | None => ret None
  | Some o => ret (o_trie (Obj.updateTrie (Obj.deepCopy o)))
  end.

(** The new trie is what [OpenTrie] returns for the root; [false] is its error. *)
Definition Reset (tr : option (gmap Address Account)) : M stateDB bool :=
  match tr with
  | None => ret false
  | Some tr =>
      modify (fun s => mkStateDB tr ∅ ∅ (s_dbErr s) (s_refund s) 0 0 0 ∅ 0 ∅ (s_journal s) (validRevisions s) (nextRevisionId s)) ;;
      clearJournalAndRefund ;;
      ret true
  end.
End state.
End State.

(** The database the EVM is given. *)
#[export] Instance journalled {C : Crypto} {D : Database} : StateDB stateDB := {
  CreateAccount := State.CreateAccount;
  SubBalance := State.SubBalance;
  AddBalance := State.AddBalance;
  GetBalance := State.GetBalance;
  GetNonce := State.GetNonce;
  SetNonce := State.SetNonce;
  GetCodeHash := State.GetCodeHash;
  GetCode := State.GetCode;
  SetCode := State.SetCode;
  GetCodeSize := State.GetCodeSize;
  AddRefund := State.AddRefund;
  GetRefund := State.GetRefund;
  GetState := State.GetState;
  SetState := State.SetState;
  Suicide := State.Suicide;
  HasSuicided := State.HasSuicided;
  Exist := State.Exist;
  Empty := State.Empty;
  RevertToSnapshot := State.RevertToSnapshot;
  Snapshot := State.Snapshot;
  AddLog := State.AddLog;
  AddPreimage := State.AddPreimage
}.
