(* ===== verification/JournalSpec.v ===== *)
(** * The journalled database implements the contract of the EVM

    The world a [stateDB] stands for ([view]) reads live objects first and the
    account trie behind them; deleted objects hide the trie.  Each journal
    entry has an action on worlds ([w_undo]); every operation appends entries
    whose undoing restores the world it started from ([mut]), so the world each
    valid revision stands for ([saved]) never changes until it is reverted to.
    The last section is the instance [StateDBSpec] for [stateDB]: a refinement
    of the snapshot stack by the journal. *)

From Stdlib Require Import ZArith Lia Bool.
From S2P Require Import Prelude GoMath StateInterface StateDB.
Local Open Scope Z_scope.
Local Open Scope go_scope.

(** What the database promises: the zero root opens an empty trie, and code is
    stored under its hash. *)
Class DatabaseOk {C : Crypto} (D : Database) := {
  OpenStorageTrie_zero a : OpenStorageTrie a 0 = Some ∅;
  ContractCode_hash a h c : ContractCode a h = Some c -> Keccak256Hash c = h
}.

Section journal_spec.
Context {C : Crypto} {D : Database} {DOK : DatabaseOk D} {CI : CodeHashIdeal C}.
Implicit Types (s : stateDB) (o : stateObject) (a : Address) (w : world).

(** ** The account an object stands for *)

Definition abs_code o : list byte :=
  match o_code o with
  | _ :: _ => o_code o
  | [] =>
      if bool_decide (acct_CodeHash (o_data o) = Keccak256Hash []) then []
      else default [] (ContractCode (o_address o) (acct_CodeHash (o_data o)))
  end.

(** The slots behind the cache, as far as they can be read. *)
Definition content o : gmap Hash Hash :=
  match o_trie o with
  | Some t => t
  | None => default ∅ (OpenStorageTrie (o_address o) (Root (o_data o)))
  end.

Definition abs_slot o (k : Hash) : Hash :=
  match o_cachedStorage o !! k with
  | Some v => v
  | None => if slotErr (o_address o) k then 0 else default 0 (content o !! k)
  end.

Definition abs_storage o : gmap Hash Hash :=
  filter (fun kv => kv.2 <> 0)
    (o_cachedStorage o ∪
     filter (fun kv => slotErr (o_address o) kv.1 = false) (content o)).

Definition abs_obj o : account :=
  mkAccount (Nonce (o_data o)) (Balance (o_data o)) (abs_code o) (abs_storage o)
    (o_suicided o).

(** A map without zero entries is determined by its reads. *)
Lemma abs_storage_lookup o k :
  abs_storage o !! k = if abs_slot o k =? 0 then None else Some (abs_slot o k).
Proof.
  unfold abs_storage, abs_slot. rewrite map_lookup_filter, lookup_union.
  rewrite map_lookup_filter.
  assert (forall v : Z, (guard (v <> 0) ≫= fun _ => Some v) =
    if v =? 0 then None else Some v) as Hg.
  { intros v. destruct (v =? 0) eqn:E; zbool.
    - by rewrite option_guard_False by congruence.
    - by rewrite option_guard_True by done. }
  destruct (o_cachedStorage o !! k) as [v|] eqn:Ec.
  - rewrite union_Some_l. apply Hg.
  - rewrite (left_id_L None (∪)). destruct (content o !! k) as [v|] eqn:Et; cbn.
    + destruct (slotErr (o_address o) k) eqn:Es.
      * by rewrite option_guard_False by (cbn; congruence).
      * rewrite option_guard_True by done. apply Hg.
    + by destruct (slotErr (o_address o) k).
Qed.

Lemma abs_storage_ext o o' :
  (forall k, abs_slot o k = abs_slot o' k) -> abs_storage o = abs_storage o'.
Proof. intros H. apply map_eq. intros k. by rewrite !abs_storage_lookup, H. Qed.

(** [set_slot] on a map of non-zero entries. *)
Lemma abs_storage_set o o' k v :
  (forall k', abs_slot o' k' = if decide (k = k') then v else abs_slot o k') ->
  abs_storage o' =
    if v =? 0 then delete k (abs_storage o) else <[k := v]> (abs_storage o).
Proof.
  intros H. apply map_eq. intros k'. rewrite abs_storage_lookup, H.
  case_decide as E.
  - subst k'. destruct (v =? 0); [by rewrite lookup_delete_eq|by rewrite lookup_insert_eq].
  - destruct (v =? 0);
      [rewrite lookup_delete_ne by done|rewrite lookup_insert_ne by done];
      by rewrite abs_storage_lookup.
Qed.

(** ** Reading an object *)

(** The cached slots that are not waiting to be written are those of the trie,
    which holds no zero. *)
Definition flush_ok (content cached dirty : gmap Hash Hash) : Prop :=
  (forall k v, dirty !! k = Some v -> cached !! k = Some v) /\
  (forall k v, cached !! k = Some v -> dirty !! k = None -> v = default 0 (content !! k)) /\
  (forall k, content !! k <> Some 0).

(** Code that is in memory only is marked as dirty. *)
Definition code_kept o : Prop :=
  o_code o = [] \/ o_dirtyCode o = true \/ ContractCode (o_address o) (acct_CodeHash (o_data o)) = Some (o_code o).

(** Widths, and the code hash is the hash of the code. *)
Record obj_ok o : Prop := {
  ok_flush : flush_ok (content o) (o_cachedStorage o) (o_dirtyStorage o);
  ok_nonce : is_u64 (Nonce (o_data o));
  ok_hash : acct_CodeHash (o_data o) = Keccak256Hash (abs_code o);
  ok_code : zlen (abs_code o) < 2 ^ 62;
  ok_slots k : is_word (abs_slot o k);
  ok_kept : code_kept o
}.

(** Two objects that stand for the same account. *)
Record obj_eqv o o' : Prop := {
  eqv_address : o_address o' = o_address o;
  eqv_deleted : o_deleted o' = o_deleted o;
  eqv_hash : acct_CodeHash (o_data o') = acct_CodeHash (o_data o);
  eqv_nonce : Nonce (o_data o') = Nonce (o_data o);
  eqv_balance : Balance (o_data o') = Balance (o_data o);
  eqv_suicided : o_suicided o' = o_suicided o;
  eqv_code : abs_code o' = abs_code o;
  eqv_slot k : abs_slot o' k = abs_slot o k;
  eqv_flush : flush_ok (content o) (o_cachedStorage o) (o_dirtyStorage o) ->
    flush_ok (content o') (o_cachedStorage o') (o_dirtyStorage o');
  eqv_kept : code_kept o -> code_kept o'
}.

Lemma obj_eqv_abs o o' : obj_eqv o o' -> abs_obj o' = abs_obj o.
Proof.
  intros []. unfold abs_obj. rewrite (abs_storage_ext o' o) by done. congruence.
Qed.

Lemma obj_eqv_ok o o' : obj_eqv o o' -> obj_ok o -> obj_ok o'.
Proof.
  intros [_ _ Hh Hn _ _ Hc Hs Hf Hk] []. split; intros; rewrite ?Hn, ?Hh, ?Hc, ?Hs; auto.
Qed.

Lemma Code_ok o :
  obj_ok o -> exists o', Obj.Code o = (abs_code o, o') /\ obj_eqv o o'.
Proof.
  intros Hok. unfold Obj.Code, abs_code.
  destruct (o_code o) as [|b c] eqn:Ec; [|by eexists].
  case_bool_decide as Eh; [by eexists|].
  destruct (ContractCode _ _) as [code|] eqn:Ek; (eexists; split; [done|]; split; try done);
    unfold abs_code; cbn.
  - rewrite Ec, bool_decide_eq_false_2, Ek by done. by destruct code.
  - intros _. right. by right.
Qed.

Lemma getTrie_content o :
  exists o', Obj.getTrie o = (content o, o') /\ obj_eqv o o' /\
    o_cachedStorage o' = o_cachedStorage o /\ o_dirtyStorage o' = o_dirtyStorage o /\
    o_trie o' = Some (content o).
Proof.
  unfold Obj.getTrie, content. destruct (o_trie o) as [t|] eqn:Et; [by eexists|].
  destruct (OpenStorageTrie _ _) as [t|] eqn:Eo; eexists; (split; [done|]); cbn;
    (split; [|done]); (split; try done; [intros k; unfold abs_slot|]); unfold content; cbn;
    by rewrite Et, Eo.
Qed.

(** Caching a slot that was read. *)
Lemma flush_cache c cached dirty k :
  flush_ok c cached dirty -> cached !! k = None ->
  flush_ok c (<[k := default 0 (c !! k)]> cached) dirty.
Proof.
  intros (H1 & H2 & H3) Hk. split; [|split; [|done]].
  - intros k' v Hd. destruct (decide (k = k')) as [<-|Hne].
    + apply H1 in Hd. congruence.
    + rewrite lookup_insert_ne by done. by apply H1.
  - intros k' v. destruct (decide (k = k')) as [<-|Hne].
    + rewrite lookup_insert_eq. by intros [= <-].
    + rewrite lookup_insert_ne by done. apply H2.
Qed.

(** Writing a slot. *)
Lemma flush_write c cached dirty k v :
  flush_ok c cached dirty -> flush_ok c (<[k := v]> cached) (<[k := v]> dirty).
Proof.
  intros (H1 & H2 & H3). split; [|split; [|done]]; intros k' v';
    (destruct (decide (k = k')) as [<-|Hne];
      [rewrite !lookup_insert_eq|rewrite !lookup_insert_ne by done]); auto; congruence.
Qed.

Lemma GetState_ok o k :
  exists o', Obj.GetState k o = (abs_slot o k, o') /\ obj_eqv o o'.
Proof.
  unfold Obj.GetState. destruct (o_cachedStorage o !! k) as [v|] eqn:Ec.
  { exists o. unfold abs_slot. by rewrite Ec. }
  destruct (getTrie_content o) as (o1 & -> & He & Hc & Hd & Ht).
  pose proof He as [Ha ? ? ? ? ? ? Hs Hf]. rewrite Ha.
  destruct (slotErr (o_address o) k) eqn:Es.
  - exists (set_oErr o1). split; [unfold abs_slot; by rewrite Ec, Es|]. by split.
  - eexists. split; [unfold abs_slot; by rewrite Ec, Es|]. split; try done.
    2: { intros Hfo. assert (content o1 = content o) as Hco by (unfold content at 1; by rewrite Ht).
         change (content (set_storage ?c ?d o1)) with (content o1). cbn [o_cachedStorage set_storage].
         rewrite Hc, Hd, Hco. by apply flush_cache. }
    intros k'. rewrite <- Hs. unfold abs_slot. cbn. destruct (decide (k = k')) as [->|Hne].
    + rewrite lookup_insert_eq, Hc, Ec, Ha, Es. unfold content. by rewrite Ht.
    + rewrite lookup_insert_ne by done. done.
Qed.

(** ** All accounts: live objects over the trie *)

Definition trie_objects s : gmap Address stateObject :=
  map_imap (fun a acc => if accountErr a then None else Some (Obj.newObject a acc)) (s_trie s).

Definition all s : gmap Address stateObject := stateObjects s ∪ trie_objects s.

Definition shown o : option account := if o_deleted o then None else Some (abs_obj o).

Definition s_view s : world :=
  mkWorld (omap shown (all s)) (s_refund s) (s_logs s) (s_logSize s) (s_preimages s)
    (s_thash s) (s_bhash s) (s_txIndex s).

(** The object [getStateObject] finds. *)
Definition live s a : option stateObject :=
  match all s !! a with
  | Some o => if o_deleted o then None else Some o
  | None => None
  end.

Lemma view_get s a : w_get (s_view s) a = abs_obj <$> live s a.
Proof.
  unfold w_get, s_view, live. cbn. rewrite lookup_omap.
  destruct (all s !! a) as [o|]; [|done]. cbn. unfold shown. by destruct (o_deleted o).
Qed.

(** The addresses the journal mentions, or counts as dirty. *)
Definition touched (j : journal) a : Prop :=
  is_Some (dirties j !! a) \/ exists e, e ∈ entries j /\ dirtied e = Some a.

Record core_inv s : Prop := {
  ci_touched a o : touched (s_journal s) a -> all s !! a = Some o ->
    stateObjects s !! a = Some o /\ o_deleted o = false;
  ci_objects a o : all s !! a = Some o ->
    o_address o = a /\ (o_deleted o = false -> obj_ok o);
  ci_deleted a o : stateObjects s !! a = Some o -> o_deleted o = true ->
    trie_objects s !! a = None /\ o_suicided o || Obj.empty o = true;
  ci_refund : is_u64 (s_refund s);
  ci_logSize : is_u64 (s_logSize s);
  ci_logs h l : s_logs s !! h = Some l -> l <> [];
  ci_marked a : a ∈ stateObjectsDirty s -> is_Some (stateObjects s !! a);
  ci_clean a o : trie_objects s !! a = Some o -> a ∉ stateObjectsDirty s -> obj_ok o
}.

Lemma live_ok s a o : core_inv s -> live s a = Some o ->
  all s !! a = Some o /\ o_address o = a /\ o_deleted o = false /\ obj_ok o.
Proof.
  intros Hi. unfold live. destruct (all s !! a) as [o'|] eqn:E; [|done].
  destruct (o_deleted o') eqn:Ed; [done|]. intros [= <-].
  destruct (ci_objects _ Hi _ _ E) as [? Hok]. auto.
Qed.

(** ** Changing one object *)

Lemma all_insert s o :
  all (set_objects (<[o_address o := o]> (stateObjects s)) s) = <[o_address o := o]> (all s).
Proof. unfold all, trie_objects. cbn. by rewrite insert_union_l. Qed.

Lemma view_insert s o :
  o_deleted o = false ->
  s_view (set_objects (<[o_address o := o]> (stateObjects s)) s) =
    w_put (o_address o) (abs_obj o) (s_view s).
Proof.
  intros Hd. unfold s_view at 1, w_put, with_accounts. rewrite all_insert. cbn.
  f_equal. apply omap_insert_Some. unfold shown. by rewrite Hd.
Qed.

Lemma core_insert s o :
  core_inv s -> o_deleted o = false -> obj_ok o ->
  core_inv (set_objects (<[o_address o := o]> (stateObjects s)) s).
Proof.
  intros [T A B R L G E X] Hd Hok. split; try done.
  - intros a o' Ht. rewrite all_insert. cbn [stateObjects set_objects].
    destruct (decide (o_address o = a)) as [<-|Hne].
    + rewrite !lookup_insert_eq. by intros [= <-].
    + rewrite !lookup_insert_ne by done. by apply T.
  - intros a o'. rewrite all_insert. destruct (decide (o_address o = a)) as [<-|Hne].
    + rewrite lookup_insert_eq. by intros [= <-].
    + rewrite lookup_insert_ne by done. apply A.
  - intros a o'. cbn. destruct (decide (o_address o = a)) as [<-|Hne].
    + rewrite lookup_insert_eq. intros [= <-]. congruence.
    + rewrite lookup_insert_ne by done. apply B.
  - intros a Ha. cbn. destruct (decide (o_address o = a)) as [<-|Hne]; [by rewrite lookup_insert_eq|].
    rewrite lookup_insert_ne by done. by apply E.
Qed.

(** A journal that mentions more addresses, all with an object. *)
Lemma core_journal s j :
  core_inv s ->
  (forall a, touched j a -> touched (s_journal s) a \/
     exists o, stateObjects s !! a = Some o /\ o_deleted o = false) ->
  core_inv (set_journal j s).
Proof.
  intros [T A B R L G] Hj. split; try done. intros a o Ht Hall.
  destruct (Hj a Ht) as [Ht'|(o' & Ho & Hd)]; [by apply T|].
  unfold all in Hall. cbn in Hall. cbn.
  rewrite lookup_union, Ho, union_Some_l in Hall. by apply (inj Some) in Hall as <-.
Qed.

Lemma touched_append j e a :
  touched (journal_append e j) a -> touched j a \/ dirtied e = Some a.
Proof.
  assert (forall d : gmap Address Z, is_Some (d !! a) \/ (exists e', e' ∈ e :: entries j /\ dirtied e' = Some a) ->
    (is_Some (d !! a) -> touched j a \/ dirtied e = Some a) ->
    touched j a \/ dirtied e = Some a) as H.
  { intros d [Hd|(e' & Hin & He')] Hi; [by apply Hi|].
    apply elem_of_cons in Hin as [->|Hin]; [by right|]. left. right. eauto. }
  unfold journal_append. destruct (dirtied e) as [b|] eqn:Ed; intros Ht;
    (eapply H; [exact Ht|]); cbn; [|intros Hs; left; by left].
  destruct (decide (b = a)) as [<-|Hne]; [by right|].
  rewrite lookup_insert_ne by done. intros Hs. left. by left.
Qed.

(** An entry that is not about an account. *)
Lemma core_append s e :
  core_inv s -> dirtied e = None -> core_inv (set_journal (journal_append e (s_journal s)) s).
Proof.
  intros Hi He. apply core_journal; [done|]. intros a Ht.
  apply touched_append in Ht as [|Hd]; [by left|congruence].
Qed.

Lemma touched_dirty j a b : touched (journal_dirty b j) a -> touched j a \/ a = b.
Proof.
  intros [Hs|(e & Hin & He)]; [|left; right; eauto]. cbn in Hs.
  destruct (decide (b = a)) as [<-|Hne]; [by right|].
  rewrite lookup_insert_ne in Hs by done. left. by left.
Qed.

Lemma touched_new a : ~ touched newJournal a.
Proof. intros [[x Hx]|(e & He & _)]; [done|by apply elem_of_nil in He]. Qed.

(** The journal after undoing its newest entry mentions no new address. *)
Lemma touched_undirty j e es a :
  entries j = e :: es -> touched (mkJournal es (undirty e (dirties j))) a -> touched j a.
Proof.
  intros Hj [Hs|(e' & Hin & He')]; cbn in *.
  - unfold undirty in Hs. destruct (dirtied e) as [b|] eqn:Ed; [|by left].
    destruct (decide (b = a)) as [<-|Hne].
    { right. exists e. rewrite Hj. split; [by apply elem_of_cons; left|done]. }
    left. destruct (_ =? 0); [by rewrite lookup_delete_ne in Hs|by rewrite lookup_insert_ne in Hs].
  - right. exists e'. rewrite Hj. split; [by apply elem_of_cons; right|done].
Qed.

Lemma w_put_same w a acc : w_get w a = Some acc -> w_put a acc w = w.
Proof.
  intros H. unfold w_put, with_accounts. unfold w_get in H. rewrite insert_id by done.
  by destruct w.
Qed.

Lemma w_put_put w a acc acc' : w_put a acc (w_put a acc' w) = w_put a acc w.
Proof. unfold w_put, with_accounts. cbn. by rewrite insert_insert_eq. Qed.

Lemma w_get_put w a acc : w_get (w_put a acc w) a = Some acc.
Proof. unfold w_get, w_put. cbn. by rewrite lookup_insert_eq. Qed.

(** ** Undoing on worlds *)

Definition w_alter a (f : account -> account) w : world :=
  match w_get w a with Some acc => w_put a (f acc) w | None => w end.

Definition w_undo (e : journalEntry) w : world :=
  match e with
  | createObjectChange a => with_accounts w (delete a (w_accounts w))
  | resetObjectChange p => w_put (o_address p) (abs_obj p) w
  | suicideChange a prev bal => w_alter a (fun acc => set_suicided prev (set_balance bal acc)) w
  | balanceChange a v => w_alter a (set_balance v) w
  | nonceChange a v => w_alter a (set_nonce v) w
  | storageChange a k v => w_alter a (set_slot k v) w
  | codeChange a code _ => w_alter a (set_code code) w
  | refundChange v =>
      mkWorld (w_accounts w) v (w_logs w) (w_logSize w) (w_preimages w) (w_thash w)
        (w_bhash w) (w_txIndex w)
  | addLogChange h =>
      mkWorld (w_accounts w) (w_refund w)
        (let l := default [] (w_logs w !! h) in
         if zlen l =? 1 then delete h (w_logs w) else <[h := removelast l]> (w_logs w))
        (u64 (w_logSize w - 1)) (w_preimages w) (w_thash w) (w_bhash w) (w_txIndex w)
  | addPreimageChange h =>
      mkWorld (w_accounts w) (w_refund w) (w_logs w) (w_logSize w)
        (delete h (w_preimages w)) (w_thash w) (w_bhash w) (w_txIndex w)
  | touchChange _ => w
  end.

(** What makes an entry fit to be undone, in itself and in a world. *)
Definition entry_ok (tr : gmap Address stateObject) (e : journalEntry) : Prop :=
  match e with
  | createObjectChange a => tr !! a = None
  | resetObjectChange p => o_deleted p = false /\ obj_ok p
  | nonceChange _ v | refundChange v => is_u64 v
  | storageChange _ _ v => is_word v
  | codeChange _ code h => h = Keccak256Hash code /\ zlen code < 2 ^ 62
  | _ => True
  end.

Definition applicable (e : journalEntry) w : Prop :=
  match e with
  | balanceChange a _ | nonceChange a _ | storageChange a _ _ | codeChange a _ _ =>
      is_Some (w_get w a)
  | addLogChange h => exists l, w_logs w !! h = Some l /\ l <> []
  | _ => True
  end.

(** Undoing [es], newest first, leads from [w] to [w0]. *)
Fixpoint undoes (tr : gmap Address stateObject) (es : list journalEntry) w w0 : Prop :=
  match es with
  | [] => w = w0
  | e :: es' => entry_ok tr e /\ applicable e w /\ undoes tr es' (w_undo e w) w0
  end.

Definition w_undos (es : list journalEntry) w : world := foldl (fun w e => w_undo e w) w es.

Lemma undoes_app tr es1 es2 w w1 w0 :
  undoes tr es1 w w1 -> undoes tr es2 w1 w0 -> undoes tr (es1 ++ es2) w w0.
Proof.
  revert w. induction es1 as [|e es1 IH]; intros w; cbn; [by intros ->|].
  intros (H1 & H2 & H3) H4. split; [done|]. split; [done|]. by apply IH.
Qed.

Lemma undoes_result tr es w w0 : undoes tr es w w0 -> w_undos es w = w0.
Proof.
  revert w. induction es as [|e es IH]; intros w; cbn; [done|].
  intros (_ & _ & H). by apply IH.
Qed.

(** ** The effect of an operation *)

Record mut s s' : Prop := {
  mut_core : core_inv s';
  mut_trie : trie_objects s' = trie_objects s;
  mut_revisions : validRevisions s' = validRevisions s;
  mut_next : nextRevisionId s' = nextRevisionId s;
  mut_journal : exists new, entries (s_journal s') = new ++ entries (s_journal s) /\
                  undoes (trie_objects s) new (s_view s') (s_view s)
}.

Lemma mut_refl s : core_inv s -> mut s s.
Proof. intros H. split; try done. by exists []. Qed.

Lemma mut_trans s1 s2 s3 : mut s1 s2 -> mut s2 s3 -> mut s1 s3.
Proof.
  intros [A1 B1 C1 D1 (n1 & E1 & F1)] [A2 B2 C2 D2 (n2 & E2 & F2)].
  split; try congruence. exists (n2 ++ n1). split; [by rewrite E2, E1, app_assoc|].
  rewrite B1 in F2. by eapply undoes_app.
Qed.

(** A change that is not journalled and not visible. *)
Record silent s s' : Prop := {
  sl_core : core_inv s';
  sl_trie : trie_objects s' = trie_objects s;
  sl_revisions : validRevisions s' = validRevisions s;
  sl_next : nextRevisionId s' = nextRevisionId s;
  sl_entries : entries (s_journal s') = entries (s_journal s);
  sl_view : s_view s' = s_view s
}.

Lemma silent_mut s s' : silent s s' -> mut s s'.
Proof. intros []. split; try done. exists []. by split. Qed.

Lemma silent_trans s1 s2 s3 : silent s1 s2 -> silent s2 s3 -> silent s1 s3.
Proof. intros [] []. split; congruence. Qed.

(** An entry appended and its object stored: the entry undoes the change. *)
Lemma mut_object s e o w :
  core_inv s -> o_deleted o = false -> obj_ok o -> s_view s = w ->
  (forall a, dirtied e = Some a -> o_address o = a) ->
  entry_ok (trie_objects s) e -> applicable e (w_put (o_address o) (abs_obj o) w) ->
  w_undo e (w_put (o_address o) (abs_obj o) w) = w ->
  runs (State.append e ;; State.setStateObject o) s (fun _ s' =>
    mut s s' /\ s_view s' = w_put (o_address o) (abs_obj o) w /\
    all s' !! o_address o = Some o /\
    entries (s_journal s') = e :: entries (s_journal s) /\
    stateObjects s' !! o_address o = Some o).
Proof.
  intros Hi Hd Hok <- Hdi He Ha Hu. apply runs_bind, runs_modify, runs_modify.
  set (s1 := set_journal _ s).
  assert (s_view s1 = s_view s) as Hv1 by done.
  assert (s_view (set_objects (<[o_address o := o]> (stateObjects s1)) s1) =
          w_put (o_address o) (abs_obj o) (s_view s)) as Hv
    by by rewrite view_insert, Hv1.
  assert (entries (s_journal s1) = e :: entries (s_journal s)) as Hj.
  { cbn. unfold journal_append. by destruct (dirtied e). }
  split; [|split; [exact Hv|split; [rewrite all_insert; apply lookup_insert_eq|
    split; [exact Hj|apply lookup_insert_eq]]]].
  split; try done.
  - set (j := journal_append e (s_journal s)).
    change (core_inv (set_journal j (set_objects (<[o_address o := o]> (stateObjects s)) s))).
    apply core_journal; [by apply core_insert|]. intros a Ht.
    destruct (touched_append _ _ _ Ht) as [|Hda]; [by left|]. right. exists o. cbn.
    by rewrite <- (Hdi a Hda), lookup_insert_eq.
  - exists [e]. split; [exact Hj|]. rewrite Hv. cbn. done.
Qed.

(** ** Finding an object *)

Lemma getStateObject_ok s a :
  core_inv s ->
  runs (State.getStateObject a) s (fun r s' =>
    r = live s a /\ silent s s' /\ all s' = all s /\
    (forall o, r = Some o -> stateObjects s' !! a = Some o)).
Proof.
  intros Hi. unfold State.getStateObject. apply runs_bind, runs_get.
  assert (live s a = match stateObjects s !! a with
    | Some o => if o_deleted o then None else Some o
    | None => trie_objects s !! a end) as Hl.
  { unfold live, all. rewrite lookup_union. destruct (stateObjects s !! a) as [o|].
    - by rewrite union_Some_l.
    - rewrite (left_id_L None (∪)). unfold trie_objects. rewrite map_lookup_imap.
      destruct (s_trie s !! a); [|done]. cbn. by destruct (accountErr a). }
  rewrite Hl. unfold trie_objects at 1. rewrite map_lookup_imap.
  destruct (stateObjects s !! a) as [o|] eqn:Eo.
  { apply runs_ret. split; [done|]. split; [done|]. split; [done|].
    intros o'. destruct (o_deleted o); [done|]. by intros [= <-]. }
  destruct (accountErr a) eqn:Ee.
  { apply runs_bind, runs_modify, runs_ret. split; [by destruct (s_trie s !! a)|].
    split; [|done]. split; try done. by destruct Hi. }
  destruct (s_trie s !! a) as [data|] eqn:Et; cbn; [|by apply runs_ret].
  apply runs_bind, runs_modify, runs_ret. split; [done|].
  change (o_address (Obj.newObject a data)) with a.
  assert (all (set_objects (<[a := Obj.newObject a data]> (stateObjects s)) s) = all s) as Ha.
  { unfold all, trie_objects. cbn. rewrite <- insert_union_l, insert_id; [done|].
    rewrite lookup_union, Eo, (left_id_L None (∪)), map_lookup_imap, Et. cbn. by rewrite Ee. }
  split; [|split; [exact Ha|intros o' [= <-]; apply lookup_insert_eq]]. split; try done.
  - destruct Hi as [T A B R L G E X]. split; try done.
    + intros b o' Ht. rewrite Ha. intros Hb. cbn. destruct (T b o' Ht Hb) as [Hb' Hd].
      destruct (decide (a = b)) as [<-|Hne]; [congruence|]. by rewrite lookup_insert_ne.
    + intros b o'. rewrite Ha. apply A.
    + intros b o'. cbn. destruct (decide (a = b)) as [<-|Hne].
      * rewrite lookup_insert_eq. by intros [= <-].
      * rewrite lookup_insert_ne by done. apply B.
    + intros b Hb. cbn. destruct (decide (a = b)) as [<-|Hne]; [by rewrite lookup_insert_eq|].
      rewrite lookup_insert_ne by done. by apply E.
  - unfold s_view. by rewrite Ha.
Qed.

(** Storing an equivalent object: a cache fill. *)
Lemma store_eqv s o o' :
  core_inv s -> live s (o_address o) = Some o -> obj_eqv o o' ->
  runs (State.setStateObject o') s (fun _ s' => silent s s').
Proof.
  intros Hi Hl He. destruct (live_ok _ _ _ Hi Hl) as (Ha & _ & Hd & Hok).
  pose proof (eqv_deleted _ _ He) as Hd'. pose proof (eqv_address _ _ He) as Hadr.
  apply runs_modify. split; try done.
  - apply core_insert; [done|congruence|by eapply obj_eqv_ok].
  - rewrite view_insert by congruence. rewrite (obj_eqv_abs _ _ He), Hadr.
    apply w_put_same. by rewrite view_get, Hl.
Qed.

(** ** Creating objects *)

Definition fresh a : stateObject := Obj.setNonce 0 (Obj.newObject a Obj.emptyAccount).

Lemma fresh_slot a k : abs_slot (fresh a) k = 0.
Proof.
  unfold abs_slot, content. cbn. rewrite OpenStorageTrie_zero. cbn.
  by destruct (slotErr a k).
Qed.

Lemma fresh_abs a : abs_obj (fresh a) = new_account.
Proof.
  unfold abs_obj, new_account. f_equal.
  - unfold abs_code. cbn. by rewrite bool_decide_eq_true_2.
  - apply map_eq. intros k. by rewrite abs_storage_lookup, fresh_slot.
Qed.

Lemma fresh_ok a : obj_ok (fresh a).
Proof.
  assert (abs_code (fresh a) = []) as Hc.
  { unfold abs_code. cbn. by rewrite bool_decide_eq_true_2. }
  split; [|done|by rewrite Hc|by rewrite Hc| |by left].
  - unfold content. cbn. rewrite OpenStorageTrie_zero. split; [done|]. by split; intros ?.
  - intros k. by rewrite fresh_slot.
Qed.

Lemma live_None_trie s a : core_inv s -> live s a = None -> trie_objects s !! a = None.
Proof.
  intros Hi. unfold live, all. rewrite lookup_union.
  destruct (stateObjects s !! a) as [o|] eqn:Eo.
  - rewrite union_Some_l. destruct (o_deleted o) eqn:Ed; [|done].
    intros _. by destruct (ci_deleted _ Hi a o Eo Ed).
  - rewrite (left_id_L None (∪)). destruct (trie_objects s !! a) as [o|] eqn:Et; [|done].
    unfold trie_objects in Et. rewrite map_lookup_imap in Et.
    destruct (s_trie s !! a); [|done]. cbn in Et. destruct (accountErr a); [done|].
    apply (inj Some) in Et as <-. done.
Qed.

Lemma live_all s s' a : all s' = all s -> live s' a = live s a.
Proof. unfold live. by intros ->. Qed.

Lemma createObject_ok s a :
  core_inv s ->
  runs (State.createObject a) s (fun r s' =>
    r = (fresh a, live s a) /\ mut s s' /\ s_view s' = w_put a new_account (s_view s) /\
    all s' !! a = Some (fresh a) /\
    entries (s_journal s') =
      match live s a with None => createObjectChange a | Some p => resetObjectChange p end
      :: entries (s_journal s) /\
    stateObjects s' !! a = Some (fresh a)).
Proof.
  intros Hi. unfold State.createObject. apply runs_bind.
  eapply runs_mono; [by apply getStateObject_ok|]. intros r s1 (-> & Hsl & Hall & Hst).
  fold (fresh a). apply runs_bind.
  pose proof (live_all s s1 a Hall) as Hlv. pose proof (sl_view _ _ Hsl) as Hv1.
  pose proof (sl_core _ _ Hsl) as Hi1.
  set (e := match live s a with None => _ | Some p => _ end).
  assert (runs (State.append e ;; State.setStateObject (fresh a)) s1 (fun _ s' =>
    mut s1 s' /\ s_view s' = w_put a (abs_obj (fresh a)) (s_view s1) /\
    all s' !! a = Some (fresh a) /\
    entries (s_journal s') = e :: entries (s_journal s1) /\
    stateObjects s' !! a = Some (fresh a))) as Hrun.
  { apply (mut_object s1 e (fresh a)); try done; [apply fresh_ok|..]; unfold e.
    - intros b. destruct (live s a); [done|]. by intros [= <-].
    - rewrite (sl_trie _ _ Hsl). destruct (live s a) as [p|] eqn:El; cbn.
      + by apply live_ok in El as (_ & _ & ? & ?).
      + by apply live_None_trie.
    - by destruct (live s a).
    - rewrite Hv1. change (o_address (fresh a)) with a.
      destruct (live s a) as [p|] eqn:El; cbn [w_undo].
      + destruct (live_ok _ _ _ Hi El) as (_ & -> & _). rewrite w_put_put.
        apply w_put_same. by rewrite view_get, El.
      + unfold w_put, with_accounts. cbn.
        rewrite delete_insert_id; [done|].
        pose proof (view_get s a) as Hg. rewrite El in Hg. exact Hg. }
  destruct Hrun as (x & s2 & Hr & Hm & Hv & Ha & Hj & Ho). unfold bind in Hr.
  destruct (State.append e s1) as [[u s1']| |] eqn:Eap; try done.
  exists u, s1'. split; [done|]. apply runs_bind. exists x, s2. split; [done|].
  apply runs_ret. split; [done|]. split; [eapply mut_trans; [by apply silent_mut|done]|].
  split; [by rewrite Hv, fresh_abs, Hv1|]. split; [done|].
  split; [|done]. by rewrite Hj, (sl_entries _ _ Hsl).
Qed.

Lemma w_acc_live s a : w_acc (s_view s) a = from_option abs_obj new_account (live s a).
Proof. unfold w_acc. rewrite view_get. by destruct (live s a). Qed.

Lemma all_live s a o : all s !! a = Some o -> o_deleted o = false -> live s a = Some o.
Proof. unfold live. by intros -> ->. Qed.

Lemma GetOrNew_ok s a :
  core_inv s ->
  runs (State.GetOrNewStateObject a) s (fun o s' =>
    mut s s' /\ s_view s' = w_put a (w_acc (s_view s) a) (s_view s) /\
    live s' a = Some o /\ abs_obj o = w_acc (s_view s) a /\ stateObjects s' !! a = Some o).
Proof.
  intros Hi. unfold State.GetOrNewStateObject. apply runs_bind.
  eapply runs_mono; [by apply getStateObject_ok|]. intros r s1 (-> & Hsl & Hall & Hst).
  rewrite w_acc_live. destruct (live s a) as [o|] eqn:El.
  - destruct (live_ok _ _ _ Hi El) as (_ & _ & Hd & _). rewrite Hd. apply runs_ret. cbn.
    split; [by apply silent_mut|].
    split; [|split; [by rewrite (live_all s s1)|split; [done|by apply Hst]]].
    rewrite (sl_view _ _ Hsl). symmetry. apply w_put_same. by rewrite view_get, El.
  - apply runs_bind. eapply runs_mono; [apply createObject_ok, Hsl|].
    intros [o p] s2 ([= -> _] & Hm & Hv & Ha & _ & Ho). apply runs_ret. cbn.
    split; [eapply mut_trans; [by apply silent_mut|done]|].
    split; [by rewrite Hv, (sl_view _ _ Hsl)|].
    split; [by apply all_live|split; [apply fresh_abs|done]].
Qed.

(** ** Updating an object *)

Lemma undo_alter w a acc g x :
  w_get w a = Some acc -> g x = acc -> w_alter a g (w_put a x w) = w.
Proof.
  intros Hg Hx. unfold w_alter. rewrite w_get_put, w_put_put, Hx. by apply w_put_same.
Qed.

(** A journalled update of the object [GetOrNewStateObject] returned. *)
Lemma mutate_ok s a o o' e f g :
  core_inv s -> live s a = Some o ->
  o_address o' = a -> o_deleted o' = false -> obj_ok o' -> abs_obj o' = f (abs_obj o) ->
  entry_ok (trie_objects s) e -> dirtied e = Some a ->
  (forall w, w_undo e w = w_alter a g w) -> (forall w, is_Some (w_get w a) -> applicable e w) ->
  g (f (abs_obj o)) = abs_obj o ->
  runs (State.append e ;; State.setStateObject o') s (fun _ s' =>
    mut s s' /\ s_view s' = w_put a (f (abs_obj o)) (s_view s)).
Proof.
  intros Hi Hl Ha Hd Hok Habs He Hdi Hu Hap Hg. subst a.
  assert (w_get (s_view s) (o_address o') = Some (abs_obj o)) as Hw.
  { by rewrite view_get, Hl. }
  eapply runs_mono; [apply (mut_object s e o' _ Hi Hd Hok eq_refl); [|exact He|..]|].
  - intros b. rewrite Hdi. by intros [= <-].
  - apply Hap. rewrite w_get_put. eauto.
  - rewrite Hu, Habs. by eapply undo_alter.
  - intros _ s' (Hm & Hv & _). split; [done|]. by rewrite Hv, Habs.
Qed.

(** A setter: find or create, then update. *)
Lemma setter_ok s a (k : stateObject -> M stateDB unit) f :
  core_inv s ->
  (forall s1 o, core_inv s1 -> live s1 a = Some o -> stateObjects s1 !! a = Some o ->
     runs (k o) s1 (fun _ s' => mut s1 s' /\ s_view s' = w_put a (f (abs_obj o)) (s_view s1))) ->
  runs (let* o := State.GetOrNewStateObject a in k o) s (fun _ s' =>
    mut s s' /\ s_view s' = w_update a f (s_view s)).
Proof.
  intros Hi Hk. apply runs_bind. eapply runs_mono; [by apply GetOrNew_ok|].
  intros o s1 (Hm & Hv & Hl & Habs & Ho).
  eapply runs_mono; [apply Hk; [apply Hm|done|done]|]. intros _ s2 (Hm2 & Hv2).
  split; [by eapply mut_trans|]. rewrite Hv2, Hv, w_put_put, Habs. done.
Qed.

Lemma set_balance_same acc : set_balance (acc_balance acc) acc = acc.
Proof. by destruct acc. Qed.

Lemma obj_SetBalance_ok s a o v :
  core_inv s -> live s a = Some o ->
  runs (State.obj_SetBalance v o) s (fun _ s' =>
    mut s s' /\ s_view s' = w_put a (set_balance v (abs_obj o)) (s_view s)).
Proof.
  intros Hi Hl. destruct (live_ok _ _ _ Hi Hl) as (_ & Ha & Hd & Hok).
  eapply (mutate_ok s a o _ _ _ (set_balance (Balance (o_data o)))); try done.
  - destruct Hok. by split.
  - cbn. by rewrite Ha.
  - intros w. by rewrite Ha.
  - intros w. by rewrite Ha.
Qed.

(** An update that leaves the account as it is. *)
Lemma unchanged_ok s a o :
  live s a = Some o -> s_view s = w_put a (abs_obj o) (s_view s).
Proof. intros Hl. symmetry. apply w_put_same. by rewrite view_get, Hl. Qed.

Lemma obj_touch_ok s a o :
  core_inv s -> stateObjects s !! a = Some o -> o_address o = a -> o_deleted o = false ->
  runs (State.obj_touch o) s (fun _ s' => mut s s' /\ s_view s' = s_view s).
Proof.
  intros Hi Ho Ha Hd. unfold State.obj_touch. apply runs_bind, runs_modify.
  set (j1 := journal_append _ _).
  assert (forall b, touched j1 b -> touched (s_journal s) b \/ a = b) as H1.
  { intros b Ht. apply touched_append in Ht as [|Hb]; [by left|]. right. cbn in Hb. congruence. }
  assert (forall j, entries j = touchChange (o_address o) :: entries (s_journal s) ->
    (forall b, touched j b -> touched (s_journal s) b \/ a = b) -> mut s (set_journal j s)) as Hm.
  { intros j Hj Hb. split; try done; [|cbn; rewrite Hj; by exists [touchChange (o_address o)]].
    apply core_journal; [done|]. intros b Ht. destruct (Hb b Ht) as [|<-]; [by left|right; eauto]. }
  split_if; [apply runs_modify|apply runs_ret]; (split; [|done]); apply Hm; try done.
  intros b Ht. apply touched_dirty in Ht as [| ->]; [by apply H1|by right].
Qed.

Lemma obj_AddBalance_ok s a o v :
  core_inv s -> live s a = Some o -> stateObjects s !! a = Some o ->
  runs (State.obj_AddBalance v o) s (fun _ s' =>
    mut s s' /\ s_view s' = w_put a (set_balance (acc_balance (abs_obj o) + v) (abs_obj o)) (s_view s)).
Proof.
  intros Hi Hl Ho. destruct (live_ok _ _ _ Hi Hl) as (_ & Ha & Hd & _). unfold State.obj_AddBalance. split_if; [|by apply obj_SetBalance_ok].
  replace v with 0 by lia. rewrite Z.add_0_r, set_balance_same.
  destruct (Obj.empty o).
  - eapply runs_mono; [by eapply obj_touch_ok|]. intros _ s' [Hm Hv].
    split; [done|]. rewrite Hv. by apply unchanged_ok.
  - apply runs_ret. split; [by apply mut_refl|by apply unchanged_ok].
Qed.

Lemma obj_SubBalance_ok s a o v :
  core_inv s -> live s a = Some o ->
  runs (State.obj_SubBalance v o) s (fun _ s' =>
    mut s s' /\ s_view s' = w_put a (set_balance (acc_balance (abs_obj o) - v) (abs_obj o)) (s_view s)).
Proof.
  intros Hi Hl. unfold State.obj_SubBalance. split_if; [|by apply obj_SetBalance_ok].
  replace v with 0 by lia. rewrite Z.sub_0_r, set_balance_same.
  apply runs_ret. split; [by apply mut_refl|by apply unchanged_ok].
Qed.

Lemma obj_SetNonce_ok s a o v :
  is_u64 v -> core_inv s -> live s a = Some o ->
  runs (State.obj_SetNonce v o) s (fun _ s' =>
    mut s s' /\ s_view s' = w_put a (set_nonce v (abs_obj o)) (s_view s)).
Proof.
  intros Hv Hi Hl. destruct (live_ok _ _ _ Hi Hl) as (_ & Ha & Hd & Hok).
  eapply (mutate_ok s a o _ _ _ (set_nonce (Nonce (o_data o)))); try done.
  - destruct Hok. by split.
  - apply Hok.
  - cbn. by rewrite Ha.
  - intros w. by rewrite Ha.
  - intros w. by rewrite Ha.
Qed.

(** [setCode] and [setState] on the account an object stands for. *)
Lemma setCode_abs o code :
  abs_obj (Obj.setCode (Keccak256Hash code) code o) = set_code code (abs_obj o).
Proof.
  unfold abs_obj, set_code. cbn. f_equal. unfold abs_code. cbn.
  destruct code; [|done]. by rewrite bool_decide_eq_true_2.
Qed.

Lemma setCode_ok o code :
  obj_ok o -> zlen code < 2 ^ 62 -> obj_ok (Obj.setCode (Keccak256Hash code) code o).
Proof.
  intros [] Hl. assert (abs_code (Obj.setCode (Keccak256Hash code) code o) = code) as Hc.
  { unfold abs_code. cbn. destruct code; [|done]. by rewrite bool_decide_eq_true_2. }
  split; [done|done|by rewrite Hc|by rewrite Hc|done|by right; left].
Qed.

Lemma setState_slot o k v k' :
  abs_slot (Obj.setState k v o) k' = if decide (k = k') then v else abs_slot o k'.
Proof.
  unfold abs_slot. cbn. case_decide as E.
  - subst. by rewrite lookup_insert_eq.
  - by rewrite lookup_insert_ne.
Qed.

Lemma setState_abs o k v : abs_obj (Obj.setState k v o) = set_slot k v (abs_obj o).
Proof.
  unfold abs_obj, set_slot. cbn. f_equal. apply abs_storage_set. apply setState_slot.
Qed.

Lemma setState_ok o k v : obj_ok o -> is_word v -> obj_ok (Obj.setState k v o).
Proof.
  intros [] Hv. split; try done; [by apply flush_write|].
  intros k'. rewrite setState_slot. by case_decide.
Qed.

Lemma set_slot_back o k v :
  set_slot k (abs_slot o k) (set_slot k v (abs_obj o)) = abs_obj o.
Proof.
  unfold set_slot, abs_obj. cbn. f_equal. apply map_eq. intros k'.
  destruct (decide (k = k')) as [<-|Hne].
  - rewrite abs_storage_lookup. destruct (abs_slot o k =? 0);
      [by rewrite lookup_delete_eq|by rewrite lookup_insert_eq].
  - destruct (abs_slot o k =? 0), (v =? 0);
      rewrite ?lookup_delete_ne, ?lookup_insert_ne, ?lookup_delete_ne, ?lookup_insert_ne; done.
Qed.

Lemma obj_SetCode_ok s a o code :
  zlen code < 2 ^ 62 -> core_inv s -> live s a = Some o ->
  runs (State.obj_SetCode (Keccak256Hash code) code o) s (fun _ s' =>
    mut s s' /\ s_view s' = w_put a (set_code code (abs_obj o)) (s_view s)).
Proof.
  intros Hsz Hi Hl. destruct (live_ok _ _ _ Hi Hl) as (_ & Ha & Hd & Hok).
  unfold State.obj_SetCode. destruct (Code_ok o Hok) as (o1 & -> & He).
  pose proof (obj_eqv_abs _ _ He) as Habs.
  assert (o_address o1 = a) as Ha1 by (rewrite (eqv_address _ _ He); done).
  eapply (mutate_ok s a o _ _ _ (set_code (abs_code o))); try done.
  - cbn. by rewrite (eqv_deleted _ _ He).
  - apply setCode_ok; [by eapply obj_eqv_ok|done].
  - by rewrite setCode_abs, Habs.
  - cbn. rewrite (eqv_hash _ _ He). split; apply Hok.
  - cbn. by rewrite Ha1.
  - intros w. by rewrite Ha1.
  - intros w. by rewrite Ha1.
Qed.

Lemma obj_SetState_ok s a o k v :
  is_word v -> core_inv s -> live s a = Some o ->
  runs (State.obj_SetState k v o) s (fun _ s' =>
    mut s s' /\ s_view s' = w_put a (set_slot k v (abs_obj o)) (s_view s)).
Proof.
  intros Hw Hi Hl. destruct (live_ok _ _ _ Hi Hl) as (_ & Ha & Hd & Hok).
  unfold State.obj_SetState. destruct (GetState_ok o k) as (o1 & -> & He).
  pose proof (obj_eqv_abs _ _ He) as Habs.
  assert (o_address o1 = a) as Ha1 by (rewrite (eqv_address _ _ He); done).
  eapply (mutate_ok s a o _ _ _ (set_slot k (abs_slot o k))); try done.
  - cbn. by rewrite (eqv_deleted _ _ He).
  - apply setState_ok; [by eapply obj_eqv_ok|done].
  - by rewrite setState_abs, Habs.
  - cbn. apply Hok.
  - cbn. by rewrite Ha1.
  - intros w. by rewrite Ha1.
  - intros w. by rewrite Ha1.
  - apply set_slot_back.
Qed.

(** ** The other writes *)

Lemma CreateAccount_ok s a :
  core_inv s ->
  runs (State.CreateAccount a) s (fun _ s' =>
    mut s s' /\ s_view s' = w_CreateAccount a (s_view s)).
Proof.
  intros Hi. unfold State.CreateAccount. apply runs_bind.
  eapply runs_mono; [by apply createObject_ok|].
  intros [o p] s1 ([= -> ->] & Hm & Hv & Ha & Hj & _).
  unfold w_CreateAccount. rewrite w_acc_live.
  destruct (live s a) as [p|] eqn:El; cbn [from_option abs_obj acc_balance].
  2: { apply runs_ret. by split. }
  destruct (live_ok _ _ _ Hi El) as (_ & Hpa & Hpd & Hpok).
  set (o' := Obj.setBalance (Balance (o_data p)) (fresh a)).
  assert (obj_ok o') as Hok' by (destruct (fresh_ok a); by split).
  assert (abs_obj o' = set_balance (Balance (o_data p)) new_account) as Habs.
  { rewrite <- (fresh_abs a). done. }
  apply runs_modify.
  assert (s_view (set_objects (<[o_address o' := o']> (stateObjects s1)) s1) =
    w_put a (set_balance (Balance (o_data p)) new_account) (s_view s)) as Hv'.
  { rewrite view_insert by done. rewrite Habs, Hv. apply w_put_put. }
  split; [|exact Hv']. destruct Hm as [M1 M2 M3 M4 _]. split; try done.
  - by apply core_insert.
  - exists [resetObjectChange p]. split; [done|]. rewrite Hv'. cbn. split; [done|].
    split; [done|]. rewrite Hpa, w_put_put. apply w_put_same. by rewrite view_get, El.
Qed.

Lemma Suicide_ok s a :
  core_inv s ->
  runs (State.Suicide a) s (fun r s' =>
    r = w_Exist (s_view s) a /\ mut s s' /\ s_view s' = w_Suicide a (s_view s)).
Proof.
  intros Hi. unfold State.Suicide. apply runs_bind.
  eapply runs_mono; [by apply getStateObject_ok|]. intros r s1 (-> & Hsl & Hall & Hst).
  unfold w_Exist, w_Suicide. rewrite view_get.
  destruct (live s a) as [o|] eqn:El; cbn.
  2: { apply runs_ret. split; [done|]. split; [by apply silent_mut|apply Hsl]. }
  destruct (live_ok _ _ _ Hi El) as (_ & Ha & Hd & Hok).
  rewrite <- (live_all s s1) in El by done.
  destruct (mutate_ok s1 a o (Obj.setBalance 0 (Obj.markSuicided o))
    (suicideChange a (o_suicided o) (Balance (o_data o)))
    (fun acc => set_suicided true (set_balance 0 acc))
    (fun acc => set_suicided (o_suicided o) (set_balance (Balance (o_data o)) acc)))
    as (x & s2 & Hr & Hm & Hv); try done; [apply Hsl|destruct Hok; by split|].
  unfold bind in Hr. destruct (State.append _ s1) as [[u s1']| |] eqn:Eap; try done.
  apply runs_bind. exists u, s1'. split; [done|]. apply runs_bind. exists x, s2.
  split; [done|]. apply runs_ret. split; [done|].
  split; [eapply mut_trans; [by apply silent_mut|done]|].
  by rewrite Hv, (sl_view _ _ Hsl).
Qed.

(** Writes outside the objects: one entry, which undoes the change. *)
Lemma mut_entry s s' e :
  core_inv s' -> trie_objects s' = trie_objects s -> validRevisions s' = validRevisions s ->
  nextRevisionId s' = nextRevisionId s ->
  entries (s_journal s') = e :: entries (s_journal s) ->
  entry_ok (trie_objects s) e -> applicable e (s_view s') -> w_undo e (s_view s') = s_view s ->
  mut s s'.
Proof. intros. split; try done. by exists [e]. Qed.

Lemma AddRefund_ok s v :
  core_inv s ->
  runs (State.AddRefund v) s (fun _ s' => mut s s' /\ s_view s' = w_AddRefund v (s_view s)).
Proof.
  intros Hi. unfold State.AddRefund.
  apply runs_bind, runs_get, runs_bind, runs_modify, runs_modify. split; [|done].
  eapply (mut_entry _ _ (refundChange (s_refund s))); try done.
  - destruct (core_append s (refundChange (s_refund s)) Hi eq_refl). split; try done. apply u64_range.
  - apply Hi.
Qed.

Lemma AddPreimage_ok s h d :
  core_inv s ->
  runs (State.AddPreimage h d) s (fun _ s' =>
    mut s s' /\ s_view s' = w_AddPreimage h d (s_view s)).
Proof.
  intros Hi. unfold State.AddPreimage. apply runs_bind, runs_get.
  unfold w_AddPreimage. cbn. destruct (s_preimages s !! h) eqn:Eh.
  - apply runs_ret. split; [by apply mut_refl|done].
  - apply runs_bind, runs_modify, runs_modify. split; [|done].
    eapply (mut_entry _ _ (addPreimageChange h)); try done.
    { destruct (core_append s (addPreimageChange h) Hi eq_refl). by split. }
    unfold s_view. cbn. by rewrite delete_insert_id.
Qed.

Lemma AddLog_ok s l :
  core_inv s ->
  runs (State.AddLog l) s (fun _ s' => mut s s' /\ s_view s' = w_AddLog l (s_view s)).
Proof.
  intros Hi. unfold State.AddLog.
  apply runs_bind, runs_get, runs_bind, runs_modify, runs_modify. split; [|done].
  cbn. set (x := mkLog _ _ _ _ _ _ _ _). set (ls := default [] (s_logs s !! s_thash s)).
  eapply (mut_entry _ _ (addLogChange (s_thash s))); try done.
  - destruct (core_append s (addLogChange (s_thash s)) Hi eq_refl) as [T A B R L G].
    split; try done; [apply u64_range|].
    intros h l'. cbn. destruct (decide (s_thash s = h)) as [<-|Hne].
    + rewrite lookup_insert_eq. intros [= <-]. by destruct ls.
    + rewrite lookup_insert_ne by done. apply G.
  - cbn. rewrite lookup_insert_eq. eexists. split; [done|]. by destruct ls.
  - unfold s_view. cbn. rewrite lookup_insert_eq. cbn. f_equal.
    + rewrite zlen_app. change (zlen [x]) with 1. unfold ls.
      destruct (s_logs s !! s_thash s) as [l0|] eqn:El; cbn.
      * pose proof (ci_logs _ Hi _ _ El) as Hne. destruct l0 as [|y l0]; [done|].
        rewrite zlen_cons. pose proof (zlen_nonneg l0).
        replace (zlen l0 + 1 + 1 =? 1) with false by lia.
        rewrite insert_insert_eq. rewrite (removelast_last (y :: l0)).
        by apply insert_id.
      * by rewrite delete_insert_id.
    + unfold u64. rewrite Zminus_mod_idemp_l, Z.add_simpl_r.
      apply u64_small, Hi.
Qed.

(** ** Undoing *)

(** What undoing keeps besides the invariant. *)
Record undone s s' w : Prop := {
  un_core : core_inv s';
  un_trie : trie_objects s' = trie_objects s;
  un_revisions : validRevisions s' = validRevisions s;
  un_next : nextRevisionId s' = nextRevisionId s;
  un_journal : s_journal s' = s_journal s;
  un_view : s_view s' = w
}.

Lemma getStateObject_journal s a r s' :
  State.getStateObject a s = Ret (r, s') -> s_journal s' = s_journal s.
Proof.
  unfold State.getStateObject, bind, get. destruct (stateObjects s !! a); [by intros [= _ <-]|].
  destruct (accountErr a); [by intros [= _ <-]|].
  destruct (s_trie s !! a); by intros [= _ <-].
Qed.

(** The entries that change one field of an object that is there. *)
Lemma undo_object s a o g (k : stateObject -> stateObject) :
  core_inv s -> live s a = Some o ->
  o_address (k o) = a -> o_deleted (k o) = false -> obj_ok (k o) ->
  abs_obj (k o) = g (abs_obj o) ->
  runs (let* o := State.getStateObject a in
        let* o := must o in State.setStateObject (k o)) s (fun _ s' =>
    undone s s' (w_alter a g (s_view s))).
Proof.
  intros Hi Hl Ha Hd Hok Habs. apply runs_bind.
  destruct (getStateObject_ok s a Hi) as (r & s1 & Hr & -> & Hsl & Hall & Hst).
  pose proof (getStateObject_journal _ _ _ _ Hr) as Hj.
  exists (live s a), s1. split; [done|]. rewrite Hl. apply runs_bind, runs_ret, runs_modify.
  destruct Hsl. split; try done.
  - by apply core_insert.
  - rewrite view_insert by done. unfold w_alter. rewrite view_get, Hl. cbn.
    by rewrite Ha, Habs, sl_view0.
Qed.

(** An account in the world has a live object. *)
Lemma get_live s a : is_Some (w_get (s_view s) a) -> exists o, live s a = Some o.
Proof. rewrite view_get. intros [x Hx]. destruct (live s a) as [o|]; [by exists o|done]. Qed.

Lemma revert_createObject_ok s a :
  core_inv s -> trie_objects s !! a = None ->
  runs (State.entry_revert (createObjectChange a)) s
    (fun _ s' => undone s s' (w_undo (createObjectChange a) (s_view s))).
Proof.
  intros Hi He. apply runs_modify.
  assert (delete a (stateObjects s) ∪ trie_objects s = delete a (all s)) as Hall.
  { unfold all. rewrite delete_union. f_equal. symmetry. by apply delete_id. }
  split; try done.
  - destruct Hi as [T A B R L G E X]. split; try done.
    + intros b o Ht Hb. unfold all, trie_objects in Hb. cbn in Hb.
      fold (trie_objects s) in Hb. rewrite Hall in Hb.
      apply lookup_delete_Some in Hb as [Hne Hb]. cbn. rewrite lookup_delete_ne by done.
      by apply T.
    + intros b o Hb. apply A. unfold all, trie_objects in Hb. cbn in Hb.
      fold (trie_objects s) in Hb. rewrite Hall in Hb.
      by apply lookup_delete_Some in Hb as [_ Hb].
    + intros b o Hb. cbn in Hb. apply lookup_delete_Some in Hb as [_ Hb]. by apply B.
    + intros b Hb. cbn in Hb. apply elem_of_difference in Hb as [Hb Hne%not_elem_of_singleton]. cbn. rewrite lookup_delete_ne by done. by apply E.
    + intros b o Hb Hd. destruct (decide (b = a)) as [->|Hne]; [by change (trie_objects s !! a = Some o) in Hb; rewrite He in Hb|].
      apply (X b o Hb). intros Hin. apply Hd. cbn. apply elem_of_difference. split; [done|by apply not_elem_of_singleton].
  - unfold s_view at 1, all, trie_objects. cbn. fold (trie_objects s).
    rewrite Hall. unfold with_accounts, s_view. cbn. f_equal. apply omap_delete.
Qed.

Lemma revert_suicide_ok s a prev bal :
  core_inv s ->
  runs (State.entry_revert (suicideChange a prev bal)) s
    (fun _ s' => undone s s' (w_undo (suicideChange a prev bal) (s_view s))).
Proof.
  intros Hi. cbn [State.entry_revert]. apply runs_bind.
  destruct (getStateObject_ok s a Hi) as (r & s1 & Hr & -> & Hsl & Hall & Hst).
  pose proof (getStateObject_journal _ _ _ _ Hr) as Hj.
  exists (live s a), s1. split; [done|]. cbn [w_undo]. unfold w_alter. rewrite view_get.
  destruct (live s a) as [o|] eqn:El; cbn [fmap option_fmap option_map].
  2: { apply runs_ret. destruct Hsl. by split. }
  destruct (live_ok _ _ _ Hi El) as (_ & Hadr & Hd & Hok). apply runs_modify.
  destruct Hsl. split; try done.
  - apply core_insert; [done|done|]. destruct Hok. by split.
  - rewrite view_insert by done. cbn [o_address Obj.setBalance set_data set_oSuicided].
    by rewrite Hadr, sl_view0.
Qed.

(** The logs of a transaction without the last one, as the code computes them. *)
Lemma dropLast_runs s h (l : list Log) :
  l <> [] ->
  runs (if zlen l =? 1 then ret (delete h (s_logs s))
        else let* l' := must (slice l 0 (zlen l - 1)) in ret (<[h := l']> (s_logs s))) s
    (fun m s1 => s1 = s /\
       m = if zlen l =? 1 then delete h (s_logs s) else <[h := removelast l]> (s_logs s)).
Proof.
  intros Hne. destruct (zlen l =? 1) eqn:E1; [by apply runs_ret|].
  destruct (exists_last Hne) as (l' & x & ->). rewrite zlen_app. change (zlen [x]) with 1.
  pose proof (zlen_nonneg l').
  rewrite slice_Some by (rewrite ?zlen_app; change (zlen [x]) with 1; lia).
  apply runs_bind, runs_ret, runs_ret. split; [done|]. rewrite removelast_last.
  change (Z.to_nat 0) with O. rewrite drop_0.
  replace (Z.to_nat (zlen l' + 1 - 1 - 0)) with (length l') by (unfold zlen; lia).
  by rewrite take_app_length.
Qed.

Lemma revert_addLog_ok s h :
  core_inv s -> applicable (addLogChange h) (s_view s) ->
  runs (State.entry_revert (addLogChange h)) s
    (fun _ s' => undone s s' (w_undo (addLogChange h) (s_view s))).
Proof.
  intros Hi (l & Hl & Hne). cbn in Hl. cbn [State.entry_revert].
  apply runs_bind, runs_get. rewrite Hl. cbn [default]. cbn [w_undo s_view w_logs].
  apply runs_bind. change (id l) with l. eapply runs_mono; [by apply dropLast_runs|].
  intros m s1 [-> ->]. apply runs_modify. split; try done.
  - destruct Hi as [T A B R L G]. split; try done; [apply u64_range|].
    intros h' l'. cbn. destruct (zlen l =? 1) eqn:E1.
    + intros Hx. apply lookup_delete_Some in Hx as [_ Hx]. by apply (G h').
    + destruct (decide (h = h')) as [<-|Hh]; [|rewrite lookup_insert_ne by done; apply G].
      rewrite lookup_insert_eq. intros [= <-] Hr.
      destruct (exists_last Hne) as (l0 & x & ->). rewrite removelast_last in Hr.
      subst l0. change (zlen ([] ++ [x])) with 1 in E1. done.
  - unfold s_view at 1. cbn. by rewrite Hl.
Qed.

Lemma entry_revert_ok s e :
  core_inv s -> entry_ok (trie_objects s) e -> applicable e (s_view s) ->
  runs (State.entry_revert e) s (fun _ s' => undone s s' (w_undo e (s_view s))).
Proof.
  intros Hi He Ha.
  assert (forall a, is_Some (w_get (s_view s) a) ->
    exists o, live s a = Some o /\ o_address o = a /\ o_deleted o = false /\ obj_ok o) as Hget.
  { intros a Hs. destruct (get_live s a Hs) as [o Ho].
    destruct (live_ok _ _ _ Hi Ho) as (_ & ? & ? & ?). by exists o. }
  destruct e as [a|p|a prev bal|a v|a v|a k v|a code h|v|h|h|a].
  - by apply revert_createObject_ok.
  - destruct He as [Hd Hok]. apply runs_modify. split; try done.
    + by apply core_insert.
    + by rewrite view_insert.
  - by apply revert_suicide_ok.
  - destruct (Hget a Ha) as (o & Ho & Hadr & Hd & Hok).
    apply (undo_object s a o (set_balance v) (Obj.setBalance v)); try done.
    destruct Hok. by split.
  - destruct (Hget a Ha) as (o & Ho & Hadr & Hd & Hok).
    apply (undo_object s a o (set_nonce v) (Obj.setNonce v)); try done.
    destruct Hok. by split.
  - destruct (Hget a Ha) as (o & Ho & Hadr & Hd & Hok).
    apply (undo_object s a o (set_slot k v) (Obj.setState k v)); try done;
      [by apply setState_ok|apply setState_abs].
  - destruct (Hget a Ha) as (o & Ho & Hadr & Hd & Hok). destruct He as [-> Hsz].
    apply (undo_object s a o (set_code code) (Obj.setCode (Keccak256Hash code) code)); try done;
      [by apply setCode_ok|apply setCode_abs].
  - apply runs_modify. split; try done. by destruct Hi.
  - by apply revert_addLog_ok.
  - apply runs_modify. split; try done. by destruct Hi.
  - apply runs_ret. by split.
Qed.

(** ** Revisions *)

Definition jlen s : Z := journal_length (s_journal s).

(** The world a revision stands for. *)
Definition world_at s (r : revision) : world :=
  w_undos (take (Z.to_nat (jlen s - journalIndex r)) (entries (s_journal s))) (s_view s).

Definition s_saved s : list (Z * world) :=
  (fun r => (rev_id r, world_at s r)) <$> validRevisions s.

Record revisions_ok s : Prop := {
  ro_sorted i j r r' : (i < j)%nat -> validRevisions s !! i = Some r ->
    validRevisions s !! j = Some r' ->
    rev_id r < rev_id r' /\ journalIndex r <= journalIndex r';
  ro_bound i r : validRevisions s !! i = Some r ->
    rev_id r < nextRevisionId s /\ 0 <= journalIndex r <= jlen s
}.

Record s_inv s : Prop := {
  si_core : core_inv s;
  si_revisions : revisions_ok s;
  si_undo : exists w0, undoes (trie_objects s) (entries (s_journal s)) (s_view s) w0
}.

Lemma w_undos_app es1 es2 w : w_undos (es1 ++ es2) w = w_undos es2 (w_undos es1 w).
Proof. apply foldl_app. Qed.

(** Operations keep the invariant and what the revisions stand for. *)
Lemma mut_spec s s' : s_inv s -> mut s s' -> s_inv s' /\ s_saved s' = s_saved s.
Proof.
  intros [Hc [R1 R2] [w0 Hu]] [M1 M2 M3 M4 (new & M5 & M6)].
  assert (jlen s' = zlen new + jlen s) as Hj.
  { unfold jlen, journal_length. rewrite M5. apply zlen_app. }
  pose proof (zlen_nonneg new). split.
  - split; [done| |].
    + split.
      * rewrite M3. apply R1.
      * intros i r Hr. rewrite M3 in Hr. rewrite M4, Hj. specialize (R2 i r Hr). lia.
    + exists w0. rewrite M2, M5. by eapply undoes_app.
  - unfold s_saved. rewrite M3. apply list_fmap_ext. intros i r Hr. f_equal.
    destruct (R2 i r Hr) as [_ Hb]. unfold world_at. rewrite Hj, M5.
    replace (Z.to_nat (zlen new + jlen s - journalIndex r))
      with (length new + Z.to_nat (jlen s - journalIndex r))%nat by (unfold zlen; lia).
    rewrite take_app_add, w_undos_app. by rewrite (undoes_result _ _ _ _ M6).
Qed.

(** ** Reverting *)

Lemma journal_revert_ok n : forall s w0,
  core_inv s -> (n <= length (entries (s_journal s)))%nat ->
  undoes (trie_objects s) (entries (s_journal s)) (s_view s) w0 ->
  runs (State.journal_revert n) s (fun _ s' =>
    core_inv s' /\ trie_objects s' = trie_objects s /\
    validRevisions s' = validRevisions s /\ nextRevisionId s' = nextRevisionId s /\
    entries (s_journal s') = drop n (entries (s_journal s)) /\
    s_view s' = w_undos (take n (entries (s_journal s))) (s_view s) /\
    undoes (trie_objects s') (entries (s_journal s')) (s_view s') w0).
Proof.
  induction n as [|n IH]; intros s w0 Hi Hn Hu.
  { apply runs_ret. by rewrite drop_0. }
  cbn [State.journal_revert]. apply runs_bind, runs_get.
  destruct (entries (s_journal s)) as [|e es] eqn:Ee; cbn in Hn; [lia|].
  destruct Hu as (He & Ha & Hu). apply runs_bind.
  eapply runs_mono; [by apply entry_revert_ok|]. intros _ s1 [U1 U2 U3 U4 U5 U6].
  apply runs_bind, runs_modify. set (s2 := set_journal _ s1).
  eapply runs_mono.
  { apply (IH s2 w0); [|cbn; lia|].
    { apply core_journal; [done|]. intros a Ht. left. rewrite U5 in Ht |- *.
      eapply touched_undirty; [exact Ee|exact Ht]. }
    change (s_view s2) with (s_view s1). change (trie_objects s2) with (trie_objects s1).
    cbn [entries s_journal s2 set_journal]. rewrite U2, U6. exact Hu. }
  intros _ s' (V1 & V2 & V3 & V4 & V5 & V6 & V7).
  split; [done|]. split; [by rewrite V2|]. split; [by rewrite V3|]. split; [by rewrite V4|].
  split; [done|]. split; [|done]. rewrite V6. change (s_view s2) with (s_view s1).
  rewrite U6. done.
Qed.

Lemma searchRevision_at l i r :
  (forall i j r r', (i < j)%nat -> l !! i = Some r -> l !! j = Some r' -> rev_id r < rev_id r') ->
  l !! i = Some r -> State.searchRevision (rev_id r) l = i.
Proof.
  revert i. induction l as [|r0 l IH]; intros i Hs Hi; [done|]. cbn.
  destruct i as [|i]; cbn in Hi.
  - apply (inj Some) in Hi as ->. by rewrite Z.geb_leb, Z.leb_refl.
  - pose proof (Hs O (S i) r0 r ltac:(lia) eq_refl Hi).
    replace (rev_id r0 >=? rev_id r) with false by lia. f_equal. apply IH; [|done].
    intros j k r1 r2 Hjk Hj Hk. apply (Hs (S j) (S k) r1 r2); [lia|done|done].
Qed.

Lemma RevertToSnapshot_ok s pre id w post :
  s_inv s -> s_saved s = pre ++ (id, w) :: post ->
  runs (State.RevertToSnapshot id) s (fun _ s' =>
    s_inv s' /\ s_view s' = w /\ s_saved s' = pre).
Proof.
  intros [Hc [R1 R2] [w0 Hu]] Hs.
  assert (s_saved s !! length pre = Some (id, w)) as Hlk by by rewrite Hs, list_lookup_middle.
  unfold s_saved in Hlk. rewrite list_lookup_fmap in Hlk.
  destruct (validRevisions s !! length pre) as [r|] eqn:Er; [|done]. cbn in Hlk.
  injection Hlk as Hid Hw. destruct (R2 _ _ Er) as [_ Hb].
  unfold State.RevertToSnapshot. apply runs_bind, runs_get.
  rewrite <- Hid, (searchRevision_at _ (length pre)); [|intros; by eapply R1|done].
  rewrite Er, Z.eqb_refl. cbn [negb]. fold (jlen s).
  set (n := Z.to_nat (jlen s - journalIndex r)).
  assert (zlen (entries (s_journal s)) = jlen s) as Hjl by done.
  apply runs_bind. eapply runs_mono.
  { apply (journal_revert_ok n s w0); [done| |done]. unfold n, zlen in *. lia. }
  intros _ s1 (V1 & V2 & V3 & V4 & V5 & V6 & V7). apply runs_modify.
  rewrite V3, V4. set (s2 := set_revisions _ _ s1).
  assert (jlen s2 = journalIndex r) as Hj2.
  { unfold jlen, journal_length, zlen. cbn. rewrite V5, length_drop. unfold n, zlen in *. lia. }
  split; [|split].
  - split; [by destruct V1| |by exists w0]. split.
    + intros i j r1 r2 Hij Hi Hj. cbn in Hi, Hj.
      apply lookup_take_Some in Hi as [Hi _]. apply lookup_take_Some in Hj as [Hj _]. by eapply R1.
    + intros i r1 Hi. cbn in Hi. apply lookup_take_Some in Hi as [Hi Hlt].
      rewrite Hj2. destruct (R2 _ _ Hi). destruct (R1 _ _ _ _ Hlt Hi Er). cbn. lia.
  - change (s_view s2) with (s_view s1). by rewrite V6.
  - assert (s_saved s2 = take (length pre) (s_saved s)) as ->.
    { unfold s_saved. cbn. rewrite <- fmap_take. apply list_fmap_ext. intros i r1 Hi.
      f_equal. apply lookup_take_Some in Hi as [Hi Hlt].
      destruct (R2 _ _ Hi). destruct (R1 _ _ _ _ Hlt Hi Er).
      unfold world_at. rewrite Hj2. cbn. change (s_view s2) with (s_view s1).
      rewrite V5, V6, <- w_undos_app, take_take_drop. do 2 f_equal. unfold n. lia. }
    rewrite Hs. by rewrite take_app_length.
Qed.

Lemma Snapshot_ok s :
  s_inv s ->
  runs State.Snapshot s (fun id s' =>
    s_inv s' /\ s_view s' = s_view s /\ s_saved s' = s_saved s ++ [(id, s_view s)]).
Proof.
  intros [Hc [R1 R2] Hu]. unfold State.Snapshot. apply runs_bind, runs_get.
  eexists _, _. split; [done|]. set (s' := set_revisions _ _ s).
  assert (0 <= jlen s) by apply zlen_nonneg.
  split; [|split; [done|]].
  - split; [by destruct Hc| |done]. split.
    + intros i j r r' Hij Hi Hj. cbn in Hi, Hj.
      apply lookup_app_Some in Hj as [Hj|[Hge Hj]].
      * apply lookup_app_Some in Hi as [Hi|[Hge Hi]]; [by eapply R1|].
        apply lookup_lt_Some in Hj. lia.
      * apply list_lookup_singleton_Some in Hj as [Hz <-].
        rewrite lookup_app_l in Hi by lia. destruct (R2 _ _ Hi). cbn. unfold jlen in *. lia.
    + intros i r Hi. cbn in Hi. apply lookup_app_Some in Hi as [Hi|[Hge Hi]].
      * destruct (R2 _ _ Hi). cbn. change (jlen s') with (jlen s). lia.
      * apply list_lookup_singleton_Some in Hi as [_ <-]. cbn.
        change (jlen s') with (jlen s). unfold jlen in *. lia.
  - unfold s_saved. cbn. rewrite fmap_app. cbn. do 3 f_equal. unfold world_at. cbn.
    change (jlen s') with (jlen s). unfold jlen. by rewrite Z.sub_diag.
Qed.

(** ** Reading *)

Lemma getter_ok {A} s a (f : option stateObject -> A) :
  core_inv s ->
  runs (let* o := State.getStateObject a in ret (f o)) s (fun r s' =>
    r = f (live s a) /\ silent s s').
Proof.
  intros Hi. apply runs_bind. eapply runs_mono; [by apply getStateObject_ok|].
  intros r s1 (-> & Hsl & _). by apply runs_ret.
Qed.

(** A getter against the world, from its reading of the object. *)
Lemma read_spec {A} s (m : M stateDB A) v v' :
  s_inv s -> (core_inv s -> runs m s (fun r s' => r = v /\ silent s s')) -> v = v' ->
  runs m s (fun r s' =>
    r = v' /\ s_inv s' /\ s_view s' = s_view s /\ s_saved s' = s_saved s).
Proof.
  intros Hi Hm <-. eapply runs_mono; [apply Hm, Hi|]. intros r s' [-> Hsl].
  destruct (mut_spec s s' Hi (silent_mut _ _ Hsl)). split; [done|]. split; [done|].
  split; [apply Hsl|done].
Qed.

Lemma GetCode_read s a :
  core_inv s ->
  runs (State.GetCode a) s (fun r s' => r = w_GetCode (s_view s) a /\ silent s s').
Proof.
  intros Hi. unfold State.GetCode, w_GetCode. rewrite w_acc_live. apply runs_bind.
  eapply runs_mono; [by apply getStateObject_ok|]. intros r s1 (-> & Hsl & Hall & Hst).
  destruct (live s a) as [o|] eqn:El; [|by apply runs_ret].
  destruct (live_ok _ _ _ Hi El) as (_ & Ha & _ & Hok).
  destruct (Code_ok o Hok) as (o' & -> & He). apply runs_bind.
  eapply runs_mono; [apply (store_eqv s1 o o'); [apply Hsl| |done]|].
  - by rewrite Ha, (live_all s s1).
  - intros ? s2 Hsl2. apply runs_ret. split; [done|by eapply silent_trans].
Qed.

Lemma abs_slot_default o k : default 0 (abs_storage o !! k) = abs_slot o k.
Proof.
  rewrite abs_storage_lookup. destruct (abs_slot o k =? 0) eqn:E; zbool; [by rewrite E|done].
Qed.

Lemma GetState_read s a k :
  core_inv s ->
  runs (State.GetState a k) s (fun r s' => r = w_GetState (s_view s) a k /\ silent s s').
Proof.
  intros Hi. unfold State.GetState, w_GetState. rewrite w_acc_live. apply runs_bind.
  eapply runs_mono; [by apply getStateObject_ok|]. intros r s1 (-> & Hsl & Hall & Hst).
  destruct (live s a) as [o|] eqn:El; [|by apply runs_ret].
  destruct (live_ok _ _ _ Hi El) as (_ & Ha & _ & Hok). cbn [from_option abs_obj acc_storage].
  rewrite abs_slot_default. destruct (GetState_ok o k) as (o' & -> & He). apply runs_bind.
  eapply runs_mono; [apply (store_eqv s1 o o'); [apply Hsl| |done]|].
  - by rewrite Ha, (live_all s s1).
  - intros ? s2 Hsl2. apply runs_ret. split; [done|by eapply silent_trans].
Qed.

Lemma GetCodeSize_read s a :
  core_inv s ->
  runs (State.GetCodeSize a) s (fun r s' =>
    r = zlen (w_GetCode (s_view s) a) /\ silent s s').
Proof.
  intros Hi. unfold State.GetCodeSize, w_GetCode. rewrite w_acc_live. apply runs_bind.
  eapply runs_mono; [by apply getStateObject_ok|]. intros r s1 (-> & Hsl & Hall & Hst).
  destruct (live s a) as [o|] eqn:El; [|by apply runs_ret].
  destruct (live_ok _ _ _ Hi El) as (_ & Ha & _ & Hok).
  cbn [from_option abs_obj acc_code]. pose proof (ok_hash _ Hok) as Hh. unfold abs_code in *.
  destruct (o_code o) as [|b c]; [|by apply runs_ret].
  destruct (ContractCode _ _) as [code|] eqn:Ek; cbn [default] in *.
  - apply runs_ret. split; [|done]. case_bool_decide as Eb; [|done].
    apply ContractCode_hash in Ek. rewrite Eb in Ek. by apply Keccak256Hash_inj in Ek as ->.
  - apply runs_bind, runs_modify, runs_ret. split; [by case_bool_decide|].
    eapply silent_trans; [done|]. destruct Hsl as [[] _ _ _ _ _]. by split.
Qed.

Lemma empty_abs o :
  obj_ok o ->
  Obj.empty o = (acc_nonce (abs_obj o) =? 0) && (acc_balance (abs_obj o) =? 0) &&
    bool_decide (Keccak256Hash (acc_code (abs_obj o)) = Keccak256Hash []).
Proof.
  intros Hok. unfold Obj.empty. cbn. rewrite <- (ok_hash _ Hok). f_equal. f_equal. lia.
Qed.

(** ** The contract *)

Lemma s_view_ok s a :
  s_inv s ->
  is_u64 (w_GetNonce (s_view s) a) /\ (forall k, is_word (w_GetState (s_view s) a k)) /\
  is_u64 (w_refund (s_view s)) /\ zlen (w_GetCode (s_view s) a) < 2 ^ 62.
Proof.
  intros [Hc _ _]. unfold w_GetNonce, w_GetState, w_GetCode. rewrite w_acc_live.
  destruct (live s a) as [o|] eqn:El; cbn [from_option].
  - destruct (live_ok _ _ _ Hc El) as (_ & _ & _ & []). split; [done|].
    split; [|split; [apply Hc|done]]. intros k. cbn [abs_obj acc_storage].
    by rewrite abs_slot_default.
  - split; [done|]. split; [done|]. split; [apply Hc|done].
Qed.

(** A write, from its effect. *)
Lemma write_spec {A} s (m : M stateDB A) f :
  s_inv s -> (core_inv s -> runs m s (fun _ s' => mut s s' /\ s_view s' = f (s_view s))) ->
  runs m s (fun _ s' => s_inv s' /\ s_view s' = f (s_view s) /\ s_saved s' = s_saved s).
Proof.
  intros Hi Hm. eapply runs_mono; [apply Hm, Hi|]. intros _ s' [Hmu Hv].
  by destruct (mut_spec s s' Hi Hmu).
Qed.

#[export] Instance journalled_spec : StateDBSpec stateDB.
Proof.
  refine {| db_inv := s_inv; view := s_view; saved := s_saved |}.
  - apply s_view_ok.
  - intros s a Hi. by apply write_spec; [|apply CreateAccount_ok].
  - intros s a v Hi. apply write_spec; [done|]. intros Hc. apply setter_ok; [done|].
    intros. by apply obj_SubBalance_ok.
  - intros s a v Hi. apply write_spec; [done|]. intros Hc. apply setter_ok; [done|].
    intros. by apply obj_AddBalance_ok.
  - intros s a v Hi Hv. apply write_spec; [done|]. intros Hc. apply setter_ok; [done|].
    intros. by apply obj_SetNonce_ok.
  - intros s a v Hi Hv. apply write_spec; [done|]. intros Hc. apply setter_ok; [done|].
    intros. by apply obj_SetCode_ok.
  - intros s a k v Hi Hv. apply write_spec; [done|]. intros Hc. apply setter_ok; [done|].
    intros. by apply obj_SetState_ok.
  - intros s v Hi. by apply write_spec; [|apply AddRefund_ok].
  - intros s a Hi. eapply runs_mono; [apply Suicide_ok, Hi|]. intros r s' (-> & Hm & Hv).
    by destruct (mut_spec s s' Hi Hm).
  - intros s l Hi. by apply write_spec; [|apply AddLog_ok].
  - intros s h d Hi. by apply write_spec; [|apply AddPreimage_ok].
  - intros s a Hi. eapply read_spec; [done|by apply getter_ok|].
    unfold w_GetBalance. rewrite w_acc_live. by destruct (live s a).
  - intros s a Hi. eapply read_spec; [done|by apply getter_ok|].
    unfold w_GetNonce. rewrite w_acc_live. by destruct (live s a).
  - intros s a Hi. eapply read_spec; [done|by apply getter_ok|].
    unfold w_GetCodeHash. rewrite view_get. destruct (live s a) as [o|] eqn:El; [|done].
    destruct (live_ok _ _ _ (si_core _ Hi) El) as (_ & _ & _ & Hok). apply Hok.
  - intros s a Hi. eapply read_spec; [done|by apply GetCode_read|done].
  - intros s a Hi. eapply read_spec; [done|by apply GetCodeSize_read|done].
  - intros s Hi. by apply runs_gets.
  - intros s a k Hi. eapply read_spec; [done|by apply GetState_read|done].
  - intros s a Hi. eapply read_spec; [done|by apply getter_ok|].
    unfold w_HasSuicided. rewrite w_acc_live. by destruct (live s a).
  - intros s a Hi. eapply read_spec; [done|by apply getter_ok|].
    unfold w_Exist. rewrite view_get. by destruct (live s a).
  - intros s a Hi. eapply read_spec; [done|by apply getter_ok|].
    unfold w_Empty. rewrite view_get. destruct (live s a) as [o|] eqn:El; [|done].
    destruct (live_ok _ _ _ (si_core _ Hi) El) as (_ & _ & _ & Hok). by apply empty_abs.
  - apply Snapshot_ok.
  - apply RevertToSnapshot_ok.
Defined.

(** ** A fresh database

    It shows the accounts of the trie, has no snapshots and meets the
    invariant, given that the accounts are well-formed. *)

Lemma all_New tr : all (New tr) = trie_objects (New tr).
Proof. unfold all. cbn. apply map_empty_union. Qed.

Lemma New_inv tr :
  (forall a acc, tr !! a = Some acc -> accountErr a = false -> obj_ok (Obj.newObject a acc)) ->
  s_inv (New tr).
Proof.
  intros Htr. split.
  - assert (forall a o, trie_objects (New tr) !! a = Some o -> o_address o = a /\ obj_ok o) as Ho.
    { intros a o. unfold trie_objects. rewrite map_lookup_imap. cbn [New s_trie].
      destruct (tr !! a) as [acc|] eqn:E; [|done]. cbn.
      destruct (accountErr a) eqn:Ea; [done|]. intros [= <-].
      split; [done|]. by apply Htr. }
    split; try done.
    + intros a o Ht; by apply touched_new in Ht.
    + intros a o. rewrite all_New. intros E. by destruct (Ho a o E).
    + intros a o E _. by destruct (Ho a o E).
  - split; intros; done.
  - by exists (s_view (New tr)).
Qed.
End journal_spec.
