(* ===== verification/FinaliseSpec.v ===== *)
(** * What Finalise and Commit leave in the tries, and what a copy shows

    At the end of a transaction [StateDB.Finalise] deletes the accounts that
    destroyed themselves (and, from EIP-158 on, the empty ones that were
    touched), writes the dirty slots of the others into their storage tries and
    the accounts into the account trie, and clears the journal.  Shown for a
    database without missing nodes: the world afterwards is the world before
    without those accounts, and the trie holds, for every dirty account, exactly
    what the world shows.  [Commit] does the same for all accounts that any
    transaction changed and writes code and storage into the database, from
    which a new state shows them again; [Copy] takes over the changed objects. *)

From Stdlib Require Import ZArith Lia Bool.
From S2P Require Import Prelude GoMath StateInterface StateDB JournalSpec.
Local Open Scope Z_scope.
Local Open Scope go_scope.

Section finalise_spec.
Context {C : Crypto} {D : Database} {DOK : DatabaseOk D} {CI : CodeHashIdeal C}.
Implicit Types (s : stateDB) (o : stateObject) (a : Address) (w : world).

(** ** The specification *)

Definition acc_empty (acc : account) : bool :=
  (acc_nonce acc =? 0) && (acc_balance acc =? 0) &&
  bool_decide (Keccak256Hash (acc_code acc) = Keccak256Hash []).

(** The accounts that do not survive the end of the transaction. *)
Definition dies (deleteEmpty : bool) (acc : account) : bool :=
  acc_suicided acc || (deleteEmpty && acc_empty acc).

Definition survivor (deleteEmpty : bool) (acc : account) : option account :=
  if dies deleteEmpty acc then None else Some acc.

Definition w_finalise (deleteEmpty : bool) (dirty : gmap Address Z) w : world :=
  mkWorld
    (map_imap (fun a acc =>
       if bool_decide (is_Some (dirty !! a)) then survivor deleteEmpty acc else Some acc)
       (w_accounts w))
    0 (w_logs w) (w_logSize w) (w_preimages w) (w_thash w) (w_bhash w) (w_txIndex w).

(** An account as the account trie stores it. *)
Definition trie_entry (acc : account) : Account :=
  mkAcct (acc_nonce acc) (acc_balance acc) (StorageRoot (acc_storage acc))
    (Keccak256Hash (acc_code acc)).

(** Every node of the account trie and of the storage tries is there. *)
Record complete_db : Prop := {
  no_accountErr a : accountErr a = false;
  no_slotErr a k : slotErr a k = false
}.

(** ** Flushing the storage of one object *)

Context (DB : complete_db).

Lemma flush_fold a l t k :
  NoDup l.*1 ->
  (foldr (Obj.flushSlot a) (t, false) l).2 = false /\
  (foldr (Obj.flushSlot a) (t, false) l).1 !! k =
    match (list_to_map l : gmap Hash Hash) !! k with
    | Some v => if v =? 0 then None else Some v
    | None => t !! k
    end.
Proof.
  induction l as [|[k0 v0] l IH]; intros Hnd; [done|]. apply NoDup_cons in Hnd as [Hni Hnd].
  destruct (IH Hnd) as [He Hl]. cbn [foldr list_to_map]. unfold Obj.flushSlot at 1 3.
  rewrite (no_slotErr DB). split; [by destruct (v0 =? 0)|].
  destruct (decide (k0 = k)) as [<-|Hne].
  - rewrite lookup_insert_eq. cbn. destruct (v0 =? 0); cbn;
      [apply lookup_delete_eq|apply lookup_insert_eq].
  - rewrite lookup_insert_ne by done. rewrite <- Hl.
    destruct (v0 =? 0); cbn; [by rewrite lookup_delete_ne|by rewrite lookup_insert_ne].
Qed.

(** The storage trie after the flush is the storage the object shows. *)
Lemma flushed_storage o :
  obj_ok o ->
  foldr (Obj.flushSlot (o_address o)) (content o, false) (map_to_list (o_dirtyStorage o)) =
    (abs_storage o, false).
Proof.
  intros Hok. destruct (ok_flush _ Hok) as (F1 & F2 & F3).
  pose proof (fun k => flush_fold (o_address o) (map_to_list (o_dirtyStorage o)) (content o) k
    (NoDup_fst_map_to_list _)) as H.
  destruct (foldr _ _ _) as [t e] eqn:E. cbn in H. f_equal; [|by apply (H 0)].
  apply map_eq. intros k. rewrite (proj2 (H k)), list_to_map_to_list, abs_storage_lookup.
  unfold abs_slot. rewrite (no_slotErr DB).
  destruct (o_dirtyStorage o !! k) as [v|] eqn:Ed; [by rewrite (F1 k v Ed)|].
  assert (content o !! k = if default 0 (content o !! k) =? 0 then None
    else Some (default 0 (content o !! k))) as Hc.
  { specialize (F3 k). destruct (content o !! k) as [v|]; [|done]. cbn.
    destruct (v =? 0) eqn:Ev; zbool; [congruence|done]. }
  destruct (o_cachedStorage o !! k) as [v|] eqn:Ec; [|done]. by rewrite (F2 k v Ec Ed).
Qed.

(** [updateRoot] changes neither the account nor its invariant. *)
Lemma updateRoot_ok o :
  obj_ok o ->
  let o' := Obj.updateRoot o in
  o_address o' = o_address o /\ o_deleted o' = o_deleted o /\ abs_obj o' = abs_obj o /\
  obj_ok o' /\ o_data o' = trie_entry (abs_obj o).
Proof.
  intros Hok. cbv zeta. unfold Obj.updateRoot, Obj.updateTrie.
  destruct (getTrie_content o) as (o1 & -> & He & Hc & Hd & Ht).
  pose proof He as [Ha Hdel Hh Hn Hb Hsu Hco Hs Hf Hkept]. rewrite Ha, Hd, flushed_storage by done.
  set (o2 := set_oTrie _ _).
  change (Obj.getTrie o2) with (abs_storage o, o2). cbn [fst].
  set (o3 := Obj.setRoot _ o2).
  assert (o_data o3 = trie_entry (abs_obj o)) as Hdata.
  { unfold o3, trie_entry. cbn. by rewrite Hn, Hb, Hh, (ok_hash _ Hok). }
  assert (forall k, abs_slot o3 k = abs_slot o k) as Hsl.
  { intros k. unfold abs_slot at 1, content. cbn. rewrite Hc, (no_slotErr DB).
    rewrite abs_slot_default. unfold abs_slot. by destruct (o_cachedStorage o !! k). }
  assert (abs_code o3 = abs_code o) as Hco3 by (rewrite <- Hco; done).
  split; [done|]. split; [done|]. split; [|split; [|done]].
  - unfold abs_obj. rewrite (abs_storage_ext o3 o Hsl), Hco3, Hdata. f_equal. done.
  - split.
    + unfold content. cbn. rewrite Hc. split; [done|]. split.
      * intros k v Hk _. rewrite abs_slot_default. unfold abs_slot. by rewrite Hk.
      * intros k. rewrite abs_storage_lookup. destruct (abs_slot o k =? 0) eqn:E; zbool; congruence.
    + rewrite Hdata. apply (ok_nonce _ Hok).
    + rewrite Hco3, Hdata. done.
    + rewrite Hco3. apply (ok_code _ Hok).
    + intros k. rewrite Hsl. apply (ok_slots _ Hok).
    + exact (Hkept (ok_kept _ Hok)).
Qed.

(** ** One account *)

(** The invariant while the journal is being worked off. *)
Definition flushing s : Prop := core_inv (set_journal newJournal s).

(** The object of a dirty account, if there is one, is live. *)
Definition flushable s a : Prop :=
  forall o, all s !! a = Some o -> stateObjects s !! a = Some o /\ o_deleted o = false.

(** [s'] differs from [s] at [a] only, where it shows [acc] and stores it. *)
Record settled_at s s' a (acc : option account) : Prop := {
  sa_inv : flushing s';
  sa_journal : s_journal s' = s_journal s;
  sa_objects b : b <> a -> stateObjects s' !! b = stateObjects s !! b;
  sa_trie b : b <> a -> s_trie s' !! b = s_trie s !! b;
  sa_view : s_view s' = with_accounts (s_view s) (w_accounts (s_view s'));
  sa_get b : w_get (s_view s') b = if decide (a = b) then acc else w_get (s_view s) b;
  sa_entry : s_trie s' !! a = trie_entry <$> acc
}.

Lemma trie_objects_lookup s a : trie_objects s !! a = Obj.newObject a <$> s_trie s !! a.
Proof.
  unfold trie_objects. rewrite map_lookup_imap.
  destruct (s_trie s !! a); [|done]. cbn. by rewrite (no_accountErr DB).
Qed.

Lemma all_lookup s a :
  all s !! a = match stateObjects s !! a with
               | Some o => Some o | None => Obj.newObject a <$> s_trie s !! a end.
Proof.
  unfold all. rewrite lookup_union, trie_objects_lookup.
  destruct (stateObjects s !! a); [apply union_Some_l|apply (left_id_L None (∪))].
Qed.

Lemma view_lookup s a : w_get (s_view s) a = all s !! a ≫= shown.
Proof. unfold w_get, s_view. cbn. apply lookup_omap. Qed.

(** A state that agrees with [s] outside [a]. *)
Lemma settle_at s s' a o' acc d :
  flushing s -> s_journal s' = s_journal s ->
  stateObjects s' = <[a := o']> (stateObjects s) ->
  s_trie s' = match d with Some e => <[a := e]> (s_trie s) | None => delete a (s_trie s) end ->
  s_view s' = with_accounts (s_view s) (w_accounts (s_view s')) ->
  o_address o' = a -> (o_deleted o' = false -> obj_ok o') -> (o_deleted o' = true -> d = None /\ o_suicided o' || Obj.empty o' = true) ->
  shown o' = acc -> d = trie_entry <$> acc -> stateObjectsDirty s' = stateObjectsDirty s ∪ {[a]} ->
  settled_at s s' a acc.
Proof.
  intros [T A B R L G Mk X] Hj Ho Ht Hv Ha Hok Hdel Hs Hd Hdirty.
  assert (forall b, b <> a -> stateObjects s' !! b = stateObjects s !! b) as Hob.
  { intros b Hb. rewrite Ho. by rewrite lookup_insert_ne. }
  assert (s_trie s' !! a = d) as Hta.
  { rewrite Ht. destruct d; [apply lookup_insert_eq|apply lookup_delete_eq]. }
  assert (forall b, b <> a -> s_trie s' !! b = s_trie s !! b) as Htb.
  { intros b Hb. rewrite Ht. destruct d; [by rewrite lookup_insert_ne|by rewrite lookup_delete_ne]. }
  assert (forall b, all s' !! b = if decide (a = b) then Some o' else all s !! b) as Hall.
  { intros b. rewrite !all_lookup. case_decide as E; [subst b|].
    - by rewrite Ho, lookup_insert_eq.
    - by rewrite Hob, Htb. }
  pose proof (f_equal w_refund Hv) as V1. pose proof (f_equal w_logs Hv) as V2.
  pose proof (f_equal w_logSize Hv) as V3. cbn in V1, V2, V3.
  split; try done.
  - split.
    + intros b o Hto. by apply touched_new in Hto.
    + intros b o Hb. change (all s' !! b = Some o) in Hb. rewrite Hall in Hb.
      case_decide; [|by apply A]. apply (inj Some) in Hb as <-. subst b. by split.
    + intros b o Hb Hd'. change (stateObjects s' !! b = Some o) in Hb.
      change (trie_objects s' !! b = None /\ o_suicided o || Obj.empty o = true). rewrite trie_objects_lookup.
      destruct (decide (b = a)) as [->|Hne].
      * rewrite Ho, lookup_insert_eq in Hb. apply (inj Some) in Hb as <-. destruct (Hdel Hd') as [-> ?].
        by rewrite Hta.
      * rewrite Hob in Hb by done. rewrite Htb, <- trie_objects_lookup by done. by apply (B b o).
    + cbn. by rewrite V1.
    + cbn. by rewrite V3.
    + cbn. rewrite V2. apply G.
    + intros b Hb. change (is_Some (stateObjects s' !! b)). destruct (decide (b = a)) as [->|Hne]; [by rewrite Ho, lookup_insert_eq|].
      change (b ∈ stateObjectsDirty s') in Hb. rewrite Hdirty in Hb. rewrite Hob by done. apply Mk.
      by apply elem_of_union in Hb as [?|?%elem_of_singleton].
    + intros b o Hb Hn. change (trie_objects s' !! b = Some o) in Hb. change (b ∉ stateObjectsDirty s') in Hn.
      rewrite Hdirty in Hn. apply not_elem_of_union in Hn as [Hn Hne%not_elem_of_singleton].
      apply (X b o); [|done]. change (trie_objects s !! b = Some o). rewrite trie_objects_lookup in Hb |- *. by rewrite <- Htb.
  - intros b. rewrite !view_lookup, Hall. by case_decide.
  - by rewrite Hta.
Qed.

Lemma dead_empty o (flag : bool) : o_suicided o || (flag && Obj.empty o) = true -> o_suicided o || Obj.empty o = true.
Proof. destruct (o_suicided o), flag; done. Qed.

Lemma finaliseOne_ok s a (flag : bool) :
  flushing s -> flushable s a ->
  runs (State.finaliseOne flag a) s (fun _ s' =>
    settled_at s s' a (w_get (s_view s) a ≫= survivor flag)).
Proof.
  intros Hi Hf. unfold State.finaliseOne. apply runs_bind, runs_get.
  pose proof (all_lookup s a) as Hall. rewrite view_lookup.
  destruct (stateObjects s !! a) as [o|] eqn:Eo.
  2: { apply runs_ret. assert (s_trie s !! a = None) as Et.
       { destruct (s_trie s !! a) as [d|]; [|done]. destruct (Hf _ Hall). congruence. }
       rewrite Hall, Et. split; try done.
       intros b. rewrite view_lookup. case_decide; [subst b; by rewrite Hall, Et|done]. }
  destruct (Hf o Hall) as [_ Hd]. destruct (ci_objects _ Hi a o Hall) as [Ha Hok].
  specialize (Hok Hd). rewrite Hall. cbn [mbind option_bind]. unfold shown. rewrite Hd.
  cbn [mbind option_bind].
  assert (o_suicided o || (flag && Obj.empty o) = dies flag (abs_obj o)) as Edies.
  { unfold dies. by rewrite (empty_abs o Hok). }
  rewrite Edies. unfold survivor. apply runs_bind. destruct (dies flag (abs_obj o)).
  - unfold State.deleteStateObject. cbn [o_address set_oDeleted]. rewrite Ha.
    rewrite (no_accountErr DB). apply runs_bind, runs_modify, runs_modify, runs_modify.
    cbn [o_address set_oDeleted]. rewrite Ha.
    eapply (settle_at s _ a (set_oDeleted true o) None None); try done.
    intros _. split; [done|]. by apply dead_empty with flag.
  - destruct (updateRoot_ok o Hok) as (U1 & U2 & U3 & U4 & U5).
    unfold State.updateStateObject. rewrite U1, (no_accountErr DB), Ha.
    apply runs_bind, runs_modify, runs_modify, runs_modify. rewrite U1, Ha.
    eapply (settle_at s _ a (Obj.updateRoot o) (Some (abs_obj o)) (Some (o_data (Obj.updateRoot o))));
      try done.
    + by rewrite U1.
    + by rewrite U2, Hd.
    + unfold shown. by rewrite U2, Hd, U3.
    + by rewrite U5.
Qed.

(** ** All dirty accounts *)

(** The same for a list of accounts. *)
Record settled_all (flag : bool) s s' (l : list Address) : Prop := {
  sl_inv : flushing s';
  sl_journal : s_journal s' = s_journal s;
  sl_with : s_view s' = with_accounts (s_view s) (w_accounts (s_view s'));
  sl_get b : w_get (s_view s') b =
    if decide (b ∈ l) then w_get (s_view s) b ≫= survivor flag else w_get (s_view s) b;
  sl_entry b : b ∈ l -> s_trie s' !! b = trie_entry <$> w_get (s_view s') b;
  sl_kept b : b ∉ l -> s_trie s' !! b = s_trie s !! b
}.

Lemma finaliseAll_ok (flag : bool) l : forall s,
  NoDup l -> flushing s -> (forall a, a ∈ l -> flushable s a) ->
  runs (State.finaliseAll flag l) s (fun _ s' => settled_all flag s s' l).
Proof.
  induction l as [|a l IH]; intros s Hnd Hi Hf.
  { apply runs_ret. split; try done. intros b Hb. by apply elem_of_nil in Hb. }
  apply NoDup_cons in Hnd as [Hni Hnd]. cbn [State.finaliseAll]. apply runs_bind.
  eapply runs_mono; [apply finaliseOne_ok; [done|apply Hf; by left]|].
  intros _ s1 [I1 J1 O1 T1 V1 G1 E1].
  eapply runs_mono; [apply IH; [done..|]|].
  { intros b Hb o. assert (b <> a) as Hne by congruence.
    rewrite all_lookup, O1, T1, <- all_lookup by done. apply Hf. by right. }
  intros _ s2 [I2 J2 V2 G2 E2 K2]. split; try done.
  - by rewrite J2.
  - rewrite V2, V1. done.
  - intros b. rewrite G2, !G1. destruct (decide (a = b)) as [<-|Hne].
    + rewrite (decide_False (P := a ∈ l)), (decide_True (P := a ∈ a :: l)) by (done || by left). done.
    + destruct (decide (b ∈ l)) as [Hin|Hin].
      * by rewrite decide_True by by right.
      * rewrite decide_False; [done|]. by intros [|]%elem_of_cons.
  - intros b Hb. destruct (decide (b ∈ l)) as [Hin|Hin]; [by apply E2|].
    apply elem_of_cons in Hb as [->|]; [|done].
    rewrite K2 by done. rewrite E1, G2, decide_False by done. by rewrite G1, decide_True.
  - intros b Hb. apply not_elem_of_cons in Hb as [Hne Hin].
    by rewrite K2, T1.
Qed.

(** The addresses the loop of [Finalise] ranges over. *)
Lemma dirty_addresses (d : gmap Address Z) a :
  a ∈ map fst (map_to_list d) <-> is_Some (d !! a).
Proof.
  split.
  - intros Hin. apply list_elem_of_fmap in Hin as ([a' n] & -> & Hin).
    apply elem_of_map_to_list in Hin. eauto.
  - intros [n Hn]. apply list_elem_of_fmap. exists (a, n).
    split; [done|by apply elem_of_map_to_list].
Qed.

Lemma refund_cleared w w' :
  w' = with_accounts w (w_accounts w') ->
  mkWorld (w_accounts w') 0 (w_logs w') (w_logSize w') (w_preimages w') (w_thash w')
    (w_bhash w') (w_txIndex w') =
  mkWorld (w_accounts w') 0 (w_logs w) (w_logSize w) (w_preimages w) (w_thash w)
    (w_bhash w) (w_txIndex w).
Proof. destruct w'. cbn. by intros [= -> -> -> -> -> -> ->]. Qed.

Lemma Finalise_ok s (flag : bool) :
  s_inv s ->
  runs (State.Finalise flag) s (fun _ s' =>
    s_inv s' /\ s_saved s' = [] /\ s_journal s' = newJournal /\
    s_view s' = w_finalise flag (dirties (s_journal s)) (s_view s) /\
    (forall a, is_Some (dirties (s_journal s) !! a) ->
       s_trie s' !! a = trie_entry <$> w_get (s_view s') a) /\
    (forall a, dirties (s_journal s) !! a = None -> s_trie s' !! a = s_trie s !! a)).
Proof.
  intros [Hc _ _]. unfold State.Finalise. apply runs_bind, runs_get, runs_bind.
  set (dirty := dirties (s_journal s)). set (l := map fst (map_to_list dirty)).
  eapply runs_mono; [apply (finaliseAll_ok flag l)|].
  { apply NoDup_fst_map_to_list. }
  { apply core_journal; [done|]. intros a Ht. by apply touched_new in Ht. }
  { intros a Ha o. apply (ci_touched _ Hc). left. by apply dirty_addresses. }
  intros _ s1 [I J V G E K]. apply runs_modify. set (s2 := set_refund _ _).
  assert (s_view s2 = w_finalise flag dirty (s_view s)) as Hv.
  { assert (w_accounts (s_view s1) = w_accounts (w_finalise flag dirty (s_view s))) as Hw.
    { apply map_eq. intros a. unfold w_finalise. cbn [w_accounts]. rewrite map_lookup_imap.
      specialize (G a). unfold w_get in G. rewrite G. destruct (decide (a ∈ l)) as [Hin|Hin];
        unfold l in Hin; rewrite dirty_addresses in Hin.
      - rewrite bool_decide_eq_true_2 by done. by destruct (w_accounts (s_view s) !! a).
      - rewrite bool_decide_eq_false_2 by done. by destruct (w_accounts (s_view s) !! a). }
    unfold w_finalise in Hw |- *. cbn [w_accounts] in Hw. rewrite <- Hw.
    by rewrite <- (refund_cleared _ _ V). }
  split; [|split; [done|split; [done|split; [exact Hv|split]]]].
  - destruct I as [T A B R L Q]. split; [by split|by split|by exists (s_view s2)].
  - intros a Ha. change (s_trie s2) with (s_trie s1).
    change (w_get (s_view s2) a) with (w_get (s_view s1) a). apply E. by apply dirty_addresses.
  - intros a Ha. change (s_trie s2) with (s_trie s1). apply K. unfold l. rewrite dirty_addresses.
    fold dirty in Ha. rewrite Ha. by intros [].
Qed.

(** ** Copies *)

Lemma deepCopy_ok o : obj_ok o -> obj_ok (Obj.deepCopy o) /\ abs_obj (Obj.deepCopy o) = abs_obj o.
Proof.
  intros [(F1 & F2 & F3) Hn Hh Hc Hs Hk].
  assert (forall k, abs_slot (Obj.deepCopy o) k = abs_slot o k) as Hsl.
  { intros k. unfold abs_slot. cbn. rewrite (no_slotErr DB). change (content (Obj.deepCopy o)) with (content o).
    destruct (o_dirtyStorage o !! k) as [v|] eqn:Ed; [by rewrite (F1 k v Ed)|].
    destruct (o_cachedStorage o !! k) as [v|] eqn:Ec; [by rewrite (F2 k v Ec Ed)|done]. }
  split.
  - split; try done; [|intros k; by rewrite Hsl]. split; [done|]. split; [|done]. cbn. intros k v -> [=].
  - unfold abs_obj. by rewrite (abs_storage_ext _ o Hsl).
Qed.

(** [StorageTrie] returns the storage the account shows, changes included, and
    does not write them. *)
Lemma StorageTrie_ok s a :
  core_inv s -> runs (State.StorageTrie a) s (fun r s' => r = acc_storage <$> w_get (s_view s) a /\ silent s s').
Proof.
  intros Hi. unfold State.StorageTrie. apply runs_bind. eapply runs_mono; [by apply getStateObject_ok|].
  intros r s1 (-> & Hs & _ & _). rewrite view_get. destruct (live s a) as [o|] eqn:El; apply runs_ret; (split; [|done]); [|done].
  destruct (live_ok _ _ _ Hi El) as (_ & _ & _ & Hok). destruct (deepCopy_ok o Hok) as [Hc Habs]. cbn. unfold Obj.updateTrie.
  destruct (getTrie_content (Obj.deepCopy o)) as (o1 & -> & He & _ & Hd & _). rewrite (eqv_address _ _ He), Hd, flushed_storage by done.
  cbn. f_equal. exact (f_equal acc_storage Habs).
Qed.

(** The addresses of the objects a copy takes over. *)
Definition is_marked s a : Prop := is_Some (dirties (s_journal s) !! a) \/ a ∈ stateObjectsDirty s.

#[global] Instance is_marked_dec s a : Decision (is_marked s a) := _.

(** What the account trie holds, as an account. *)
Definition trie_account s a : option account := (fun acc => abs_obj (Obj.newObject a acc)) <$> s_trie s !! a.

(** The accounts that are not marked are those of the trie.  [CreateAccount]
    over an existing account breaks this: it replaces the account without a
    mark. *)
Definition tracked s : Prop := forall a, ~ is_marked s a -> w_get (s_view s) a = trie_account s a.

(** The storage tries of the accounts that are not marked can be opened. *)
Definition loadable s : Prop := forall a acc,
  ~ is_marked s a -> s_trie s !! a = Some acc -> is_Some (OpenStorageTrie a (Root acc)).

Lemma tracked_alive s a acc : tracked s -> ~ is_marked s a -> w_get (s_view s) a = Some acc -> acc_suicided acc = false.
Proof. intros Ht Hm. rewrite (Ht a Hm). unfold trie_account. by intros (e & _ & ->)%fmap_Some. Qed.

(** Objects that are marked or show what the trie has make a state tracked; a
    fresh state has none. *)
Lemma objects_tracked s :
  (forall a o, stateObjects s !! a = Some o -> is_marked s a \/ w_get (s_view s) a = trie_account s a) -> tracked s.
Proof.
  intros H a Hm. destruct (stateObjects s !! a) as [o|] eqn:Eo; [by destruct (H a o Eo)|].
  rewrite view_lookup, all_lookup, Eo. unfold trie_account. by destruct (s_trie s !! a).
Qed.

Lemma copiedObjects_ok s :
  (forall a, a ∈ stateObjectsDirty s -> is_Some (stateObjects s !! a)) ->
  exists objs, State.copiedObjects s = Some objs /\
    forall a, objs !! a = if decide (is_marked s a) then Obj.deepCopy <$> stateObjects s !! a else None.
Proof.
  intros Hm. unfold State.copiedObjects. set (m0 := Obj.deepCopy <$> _).
  assert (forall a, m0 !! a = if decide (is_Some (dirties (s_journal s) !! a)) then Obj.deepCopy <$> stateObjects s !! a else None) as H0.
  { intros a. unfold m0. rewrite lookup_fmap, map_lookup_filter. destruct (stateObjects s !! a) as [o|]; cbn; [|by case_decide].
    case_decide; by simplify_option_eq. }
  assert (forall l, (forall a, a ∈ l -> is_Some (stateObjects s !! a)) -> exists objs,
    foldr (fun addr objs => match objs with None => None | Some objs => match objs !! addr with Some _ => Some objs
      | None => match stateObjects s !! addr with Some o => Some (<[addr := Obj.deepCopy o]> objs) | None => None end end end) (Some m0) l = Some objs /\
    forall a, objs !! a = if decide (is_Some (dirties (s_journal s) !! a) \/ a ∈ l) then Obj.deepCopy <$> stateObjects s !! a else None) as Hl.
  { induction l as [|b l IH]; intros Hb.
    - exists m0. split; [done|]. intros a. rewrite H0. destruct (decide (is_Some _)) as [Hd|Hd]; [by rewrite decide_True by (by left)|].
      rewrite decide_False; [done|]. by intros [?|?%not_elem_of_nil].
    - destruct IH as (objs & E & H); [intros a Ha; apply Hb; by right|]. cbn [foldr]. rewrite E. destruct (Hb b ltac:(by left)) as [o Eo].
      destruct (objs !! b) as [c|] eqn:Ec.
      + exists objs. split; [done|]. intros a. rewrite H. destruct (decide (a = b)) as [->|Hne].
        * rewrite H in Ec. destruct (decide _) in Ec; [|done]. rewrite !decide_True; [done|right; by left|done].
        * apply decide_ext. rewrite elem_of_cons. clear -Hne. intuition congruence.
      + rewrite Eo. eexists. split; [done|]. intros a. destruct (decide (a = b)) as [->|Hne].
        * rewrite lookup_insert_eq, Eo, decide_True by (right; by left). done.
        * rewrite lookup_insert_ne, H by done. apply decide_ext. rewrite elem_of_cons. clear -Hne. intuition congruence. }
  destruct (Hl (elements (stateObjectsDirty s))) as (objs & E & H); [intros a Ha%elem_of_elements; by apply Hm|].
  exists objs. split; [done|]. intros a. rewrite H. apply decide_ext. unfold is_marked. by rewrite elem_of_elements.
Qed.

Lemma State_Copy_ok s :
  s_inv s ->
  runs State.Copy s (fun s' s1 =>
    s1 = s /\ s_inv s' /\ s_saved s' = [] /\
    (forall a, w_get (s_view s') a = if decide (is_marked s a) then w_get (s_view s) a else trie_account s a) /\
    s_view s' = mkWorld (w_accounts (s_view s')) (s_refund s) (s_logs s) (s_logSize s) (s_preimages s) 0 0 0).
Proof.
  intros [[T A B R L G Mk X] _ _]. destruct (copiedObjects_ok s Mk) as (objs & E & Ho). unfold State.Copy.
  apply runs_bind, runs_get. rewrite E. apply runs_bind, runs_ret, runs_ret. split; [done|]. set (s' := mkStateDB _ _ _ _ _ _ _ _ _ _ _ _ _ _).
  assert (forall a c, objs !! a = Some c -> exists o, stateObjects s !! a = Some o /\ all s !! a = Some o /\ c = Obj.deepCopy o) as Hc.
  { intros a c. rewrite Ho, all_lookup. case_decide; [|done]. destruct (stateObjects s !! a) as [o|]; [|done]. intros [= <-]. by exists o. }
  assert (forall a, a ∉ dom objs -> a ∉ stateObjectsDirty s) as Hn.
  { intros a Ha Hin. apply Ha, elem_of_dom. rewrite Ho, decide_True by (by right). destruct (Mk a Hin) as [o ->]. by eexists. }
  assert (trie_objects s' = trie_objects s) as Ht by done.
  split; [|split; [done|split; [|done]]].
  - split; [|by split; intros|by exists (s_view s')]. split; try done.
    + intros a o Htch. by apply touched_new in Htch.
    + intros a o. unfold all. cbn [stateObjects s']. rewrite lookup_union, Ht. destruct (objs !! a) as [c|] eqn:Ec.
      * rewrite union_Some_l. intros [= <-]. destruct (Hc a c Ec) as (o' & _ & Ea & ->). destruct (A a o' Ea) as [H1 H2]. split; [done|]. intros Hd. by apply deepCopy_ok, H2.
      * rewrite (left_id_L None (∪)). intros Hto. rewrite trie_objects_lookup in Hto. split; [by destruct (s_trie s !! a); [injection Hto as <-|]|].
        intros _. apply (X a o); [by rewrite trie_objects_lookup|]. by apply Hn, not_elem_of_dom.
    + intros a c Ec Hd. destruct (Hc a c Ec) as (o & Eo & _ & ->). rewrite Ht. by apply (B a o).
    + intros a Ha. cbn in Ha. by apply elem_of_dom in Ha.
    + intros a o Ea Hd. cbn in Hd. apply (X a o); [done|by apply Hn].
  - intros a. rewrite !view_lookup, !all_lookup. cbn [stateObjects s' s_trie]. rewrite Ho. unfold trie_account. case_decide as Hm.
    + destruct (stateObjects s !! a) as [o|] eqn:Eo; cbn.
      * unfold shown. cbn. destruct (o_deleted o) eqn:Ed; [done|]. f_equal. destruct (A a o) as [_ Hok]; [by rewrite all_lookup, Eo|]. by apply deepCopy_ok, Hok.
      * done.
    + by destruct (s_trie s !! a).
Qed.

(** ** Commit *)

(** Clearing the mark of dirty code commutes with flushing the storage. *)
Lemma updateTrie_dirtyCode o b : Obj.updateTrie (set_oDirtyCode b o) = set_oDirtyCode b (Obj.updateTrie o).
Proof.
  unfold Obj.updateTrie, Obj.getTrie. cbn. destruct (o_trie o) as [t|]; [|destruct (OpenStorageTrie _ _) as [t|]]; cbn;
    by destruct (foldr _ _ _) as [t' []].
Qed.

(** [CommitTrie] writes what the object shows. *)
Lemma CommitTrie_ok o b :
  obj_ok o -> o_dbErr (Obj.updateTrie o) = false ->
  exists o', Obj.CommitTrie (set_oDirtyCode b o) = (Some (abs_storage o), o') /\
    o_address o' = o_address o /\ o_data o' = trie_entry (abs_obj o).
Proof.
  intros Hok He. unfold Obj.CommitTrie. rewrite updateTrie_dirtyCode. cbn [o_dbErr set_oDirtyCode]. rewrite He.
  destruct (updateRoot_ok o Hok) as (U1 & _ & _ & _ & U5). unfold Obj.updateRoot in *.
  assert ((Obj.getTrie (Obj.updateTrie o)).1 = abs_storage o) as Ht.
  { unfold Obj.updateTrie. destruct (getTrie_content o) as (o1 & -> & Heq & Hc & Hd & Ht). pose proof (eqv_address _ _ Heq) as Ha.
    by rewrite Ha, Hd, flushed_storage. }
  assert ((Obj.getTrie (set_oDirtyCode b (Obj.updateTrie o))).1 = abs_storage o) as ->.
  { rewrite <- Ht. unfold Obj.getTrie. cbn. destruct (o_trie _); [done|]. by destruct (OpenStorageTrie _ _). }
  eexists. split; [done|]. rewrite Ht in U1, U5. done.
Qed.

(** What becomes of an account: [flag] is [deleteEmptyObjects]. *)
Definition doomed (flag : bool) s a o : bool :=
  o_suicided o || (bool_decide (a ∈ stateObjectsDirty s) && flag && Obj.empty o).

Definition written (flag : bool) s a o : bool := negb (doomed flag s a o) && bool_decide (a ∈ stateObjectsDirty s).

Definition fails (flag : bool) s a : bool :=
  match stateObjects s !! a with Some o => written flag s a o && o_dbErr (Obj.updateTrie o) | None => false end.

Definition commit_entry (flag : bool) s a : option Account :=
  match stateObjects s !! a with
  | Some o => if doomed flag s a o then None else if bool_decide (a ∈ stateObjectsDirty s) then Some (trie_entry (abs_obj o)) else s_trie s !! a
  | None => s_trie s !! a
  end.

Definition commit_blobs o : list dbWrite :=
  match o_code o with _ :: _ => if o_dirtyCode o then [InsertBlob (acct_CodeHash (o_data o)) (o_code o)] else [] | [] => [] end.

Definition commit_writes (flag : bool) s a : list dbWrite :=
  match stateObjects s !! a with
  | Some o => if written flag s a o then commit_blobs o ++ [StorageCommit (abs_storage o)] else []
  | None => []
  end.

(** Two states agree at an address. *)
Definition agree_at s s' a : Prop :=
  stateObjects s' !! a = stateObjects s !! a /\ s_trie s' !! a = s_trie s !! a /\ (a ∈ stateObjectsDirty s' <-> a ∈ stateObjectsDirty s).

(** The objects to be written are in order. *)
Definition committable (flag : bool) s a : Prop :=
  forall o, stateObjects s !! a = Some o -> o_address o = a /\ (written flag s a o = true -> obj_ok o).

Lemma agree_doomed flag s s' a o : agree_at s s' a -> doomed flag s' a o = doomed flag s a o.
Proof. intros (_ & _ & E). unfold doomed. by rewrite (bool_decide_ext _ _ E). Qed.

Lemma agree_written flag s s' a o : agree_at s s' a -> written flag s' a o = written flag s a o.
Proof. intros H. unfold written. by rewrite (agree_doomed flag s s' a o H), (bool_decide_ext _ _ (proj2 (proj2 H))). Qed.

Lemma agree_commit flag s s' a : agree_at s s' a ->
  fails flag s' a = fails flag s a /\ commit_entry flag s' a = commit_entry flag s a /\ commit_writes flag s' a = commit_writes flag s a /\
  (committable flag s a -> committable flag s' a).
Proof.
  intros H. pose proof H as (Eo & Et & Ed). unfold fails, commit_entry, commit_writes, committable. rewrite Eo, Et.
  destruct (stateObjects s !! a) as [o|]; [|done]. rewrite (agree_doomed flag s s' a o H), (agree_written flag s s' a o H), (bool_decide_ext _ _ Ed).
  split; [done|]. split; [done|]. split; [done|]. intros Hc o' [= <-]. rewrite (agree_written flag s s' a o H). by apply Hc.
Qed.

Lemma commitOne_ok (flag : bool) s a :
  committable flag s a ->
  runs (State.commitOne flag a) s (fun r s' =>
    r.1 = fails flag s a /\ (forall b, b <> a -> agree_at s s' b) /\
    (r.1 = false -> r.2 = commit_writes flag s a /\ s_trie s' !! a = commit_entry flag s a)).
Proof.
  intros Hc. unfold State.commitOne. apply runs_bind, runs_get. unfold fails, commit_entry, commit_writes, written.
  destruct (stateObjects s !! a) as [o|] eqn:Eo; [|by apply runs_ret]. destruct (Hc o Eo) as [Ha Hok]. fold (doomed flag s a o).
  assert (forall s1 : stateDB, (forall b, b <> a -> agree_at s s1 b) -> forall b, b <> a -> agree_at s (set_objectsDirty (stateObjectsDirty s1 ∖ {[a]}) s1) b) as Hdone.
  { intros s1 H1 b Hb. destruct (H1 b Hb) as (E1 & E2 & E3). split; [done|]. split; [done|]. cbn. rewrite <- E3, elem_of_difference, elem_of_singleton. tauto. }
  destruct (doomed flag s a o) eqn:Ed; cbn [negb andb].
  - apply runs_bind. unfold State.deleteStateObject. cbn [o_address set_oDeleted]. rewrite Ha, (no_accountErr DB).
    apply runs_bind, runs_modify, runs_modify, runs_bind, runs_modify, runs_ret. split; [done|]. split.
    + apply Hdone. intros b Hb. split; cbn; [by rewrite Ha, lookup_insert_ne|]. split; [by rewrite lookup_delete_ne|done].
    + intros _. split; [done|]. cbn. apply lookup_delete_eq.
  - destruct (bool_decide (a ∈ stateObjectsDirty s)) eqn:Em; cbn [negb andb].
    2: { apply runs_bind, runs_modify, runs_ret. split; [done|]. split; [|done]. by apply Hdone. }
    assert (written flag s a o = true) as Hw by (unfold written; by rewrite Ed, Em). specialize (Hok Hw).
    assert (exists b, match o_code o with _ :: _ => if o_dirtyCode o then ([InsertBlob (acct_CodeHash (o_data o)) (o_code o)], set_oDirtyCode false o) else ([], o)
      | [] => ([], o) end = (commit_blobs o, set_oDirtyCode b o)) as (b0 & ->).
    { unfold commit_blobs. destruct o as [? ? ? ? [|] ? ? [] ? ?]; by eexists. }
    destruct (o_dbErr (Obj.updateTrie o)) eqn:Ee.
    + assert (exists o', Obj.CommitTrie (set_oDirtyCode b0 o) = (None, o') /\ o_address o' = a) as (o' & -> & Ha').
      { unfold Obj.CommitTrie. rewrite updateTrie_dirtyCode. cbn. rewrite Ee. eexists. split; [done|]. destruct (updateRoot_ok o Hok) as (U1 & _). rewrite <- Ha. exact U1. }
      apply runs_bind, runs_modify, runs_ret. split; [done|]. split; [|done]. intros b Hb. split; cbn; [by rewrite Ha', lookup_insert_ne|done].
    + destruct (CommitTrie_ok o b0 Hok Ee) as (o' & -> & Ha' & Hd'). apply runs_bind, runs_modify. unfold State.updateStateObject.
      rewrite (no_accountErr DB). apply runs_bind, runs_modify, runs_bind, runs_modify, runs_ret. split; [done|]. split.
      * apply Hdone. intros b Hb. split; cbn; [by rewrite Ha', Ha, lookup_insert_ne|]. split; [by rewrite Ha', Ha, lookup_insert_ne|done].
      * intros _. split; [done|]. cbn. rewrite Ha', Ha, Hd'. apply lookup_insert_eq.
Qed.

Lemma commitAll_ok (flag : bool) l : forall s,
  NoDup l -> (forall a, a ∈ l -> committable flag s a) ->
  runs (State.commitAll flag l) s (fun r s' =>
    r.1 = existsb (fails flag s) l /\
    (r.1 = false -> (forall a, a ∈ l -> commit_writes flag s a ⊆ r.2 /\ s_trie s' !! a = commit_entry flag s a) /\
      forall a, a ∉ l -> s_trie s' !! a = s_trie s !! a)).
Proof.
  induction l as [|a l IH]; intros s Hnd Hc.
  { apply runs_ret. split; [done|]. intros _. split; [by intros a ?%not_elem_of_nil|done]. }
  apply NoDup_cons in Hnd as [Hni Hnd]. cbn [State.commitAll existsb]. apply runs_bind.
  eapply runs_mono; [apply commitOne_ok, Hc; by left|]. intros [err w] s1 (Ee & Hag & H1). cbn [fst snd] in *.
  assert (forall b, b ∈ l -> agree_at s s1 b) as Hag' by (intros b Hb; apply Hag; congruence).
  rewrite <- Ee. destruct err; [by apply runs_ret|]. destruct (H1 eq_refl) as [-> Ht]. apply runs_bind.
  eapply runs_mono; [apply IH; [done|]|].
  { intros b Hb. apply (agree_commit flag s s1 b (Hag' b Hb)), Hc. by right. }
  intros [err w'] s2 (Ee2 & H2). cbn [fst snd] in *. apply runs_ret. cbn [fst snd orb].
  assert (existsb (fails flag s1) l = existsb (fails flag s) l) as Eex.
  { clear -Hag'. induction l as [|b l IHl]; [done|]. cbn. f_equal; [apply (agree_commit flag s s1 b), Hag'; by left|]. apply IHl. intros c Hx. apply Hag'. by right. }
  split; [by rewrite Ee2|]. intros Hf. destruct (H2 Hf) as [Hin Hout]. split.
  - intros b [->|Hb]%elem_of_cons.
    + split; [apply list_subseteq_app_l; done|]. by rewrite Hout.
    + destruct (agree_commit flag s s1 b (Hag' b Hb)) as (_ & <- & <- & _). destruct (Hin b Hb) as [Hsub ->]. split; [|done].
      by apply list_subseteq_app_r.
  - intros b [Hne Hb]%not_elem_of_cons. rewrite Hout by done. by destruct (Hag b Hne) as (_ & -> & _).
Qed.

(** Deleted accounts stay deleted: with [deleteEmptyObjects] they all do, without
    it only those that destroyed themselves. *)
Definition deletable (flag : bool) s : Prop :=
  flag = true \/ forall a o, stateObjects s !! a = Some o -> o_deleted o = true -> o_suicided o = true.

Definition with_marks s : stateDB := set_objectsDirty (stateObjectsDirty s ∪ dom (dirties (s_journal s))) s.

Lemma with_marks_spec s a : a ∈ stateObjectsDirty (with_marks s) <-> is_marked s a.
Proof. unfold is_marked. cbn. rewrite elem_of_union, elem_of_dom. tauto. Qed.

(** An object that [Commit] is to write has failed. *)
Definition failing (flag : bool) s a : Prop := fails flag (with_marks s) a = true.

Lemma deleted_doomed (flag : bool) s a o :
  core_inv s -> deletable flag s -> stateObjects s !! a = Some o -> o_deleted o = true -> is_marked s a -> doomed flag (with_marks s) a o = true.
Proof.
  intros Hi Hdel Eo Ed Hm. destruct (ci_deleted _ Hi a o Eo Ed) as [_ Hdead]. unfold doomed.
  rewrite bool_decide_eq_true_2 by (by apply with_marks_spec). destruct Hdel as [->|Hs]; [by destruct (o_suicided o)|]. by rewrite (Hs a o Eo Ed).
Qed.

Lemma all_committable (flag : bool) s a : core_inv s -> deletable flag s -> committable flag (with_marks s) a.
Proof.
  intros Hi Hdel o Eo. change (stateObjects s !! a = Some o) in Eo.
  destruct (ci_objects _ Hi a o) as [Ha Hok]; [by rewrite all_lookup, Eo|]. split; [done|]. unfold written. intros [Hd Hm]%andb_true_iff.
  apply Hok. destruct (o_deleted o) eqn:Ed; [|done]. apply bool_decide_eq_true, with_marks_spec in Hm.
  by rewrite (deleted_doomed flag s a o Hi Hdel Eo Ed Hm) in Hd.
Qed.

(** The code of an object is empty, in the database, or among what is written. *)
Lemma code_found o : obj_ok o ->
  abs_code o = [] \/ ContractCode (o_address o) (Keccak256Hash (abs_code o)) = Some (abs_code o) \/
  InsertBlob (Keccak256Hash (abs_code o)) (abs_code o) ∈ commit_blobs o.
Proof.
  intros Hok. rewrite <- (ok_hash _ Hok). destruct (ok_kept _ Hok) as [H|H]; unfold abs_code, commit_blobs.
  - rewrite H. case_bool_decide; [by left|]. destruct (ContractCode _ _) as [c|]; [right; by left|by left].
  - destruct (o_code o) as [|b c]; [case_bool_decide; [by left|]; destruct (ContractCode _ _); [right; by left|by left]|].
    right. destruct H as [->|H]; [right; apply list_elem_of_singleton; done|by left].
Qed.

(** What is left of an account after [Commit]. *)
Lemma commit_entry_marked (flag : bool) s a :
  core_inv s -> deletable flag s -> is_marked s a ->
  commit_entry flag (with_marks s) a = trie_entry <$> (w_get (s_view s) a ≫= survivor flag).
Proof.
  intros Hi Hdel Hm. unfold commit_entry. change (stateObjects (with_marks s)) with (stateObjects s).
  rewrite view_lookup, all_lookup. destruct (stateObjects s !! a) as [o|] eqn:Eo; cbn [mbind option_bind].
  - unfold shown. destruct (o_deleted o) eqn:Ed; [by rewrite (deleted_doomed flag s a o Hi Hdel Eo Ed Hm)|]. cbn [mbind option_bind].
    destruct (ci_objects _ Hi a o) as [_ Hok]; [by rewrite all_lookup, Eo|]. unfold survivor, dies, doomed.
    rewrite !bool_decide_eq_true_2 by (by apply with_marks_spec). unfold acc_empty. rewrite <- (empty_abs o (Hok Ed)). cbn [andb].
    change (acc_suicided (abs_obj o)) with (o_suicided o). by destruct (o_suicided o || (flag && Obj.empty o)).
  - assert (s_trie s !! a = None) as Et; [|cbn; by rewrite Et]. destruct (s_trie s !! a) as [acc|] eqn:Et; [|done]. destruct Hm as [Hm|Hm].
    + destruct (ci_touched _ Hi a (Obj.newObject a acc)) as [E _]; [by left|by rewrite all_lookup, Eo, Et|congruence].
    + destruct (ci_marked _ Hi a Hm). congruence.
Qed.

Lemma commit_entry_unmarked (flag : bool) s a :
  core_inv s -> ~ is_marked s a -> (forall acc, w_get (s_view s) a = Some acc -> acc_suicided acc = false) ->
  commit_entry flag (with_marks s) a = s_trie s !! a.
Proof.
  intros Hi Hm Hs. unfold commit_entry. change (stateObjects (with_marks s)) with (stateObjects s). change (s_trie (with_marks s)) with (s_trie s).
  rewrite view_lookup, all_lookup in Hs. destruct (stateObjects s !! a) as [o|] eqn:Eo; [|done]. unfold doomed.
  rewrite !bool_decide_eq_false_2 by (by rewrite with_marks_spec). cbn [andb]. rewrite orb_false_r. destruct (o_suicided o) eqn:Es; [|done].
  cbn in Hs. unfold shown in Hs. destruct (o_deleted o) eqn:Ed; [|by specialize (Hs _ eq_refl); cbn in Hs; congruence].
  destruct (ci_deleted _ Hi a o Eo Ed) as [Ht _]. rewrite trie_objects_lookup in Ht. by destruct (s_trie s !! a).
Qed.

Lemma commit_writes_marked (flag : bool) s a acc :
  core_inv s -> deletable flag s -> is_marked s a -> w_get (s_view s) a ≫= survivor flag = Some acc ->
  StorageCommit (acc_storage acc) ∈ commit_writes flag (with_marks s) a /\
  (acc_code acc = [] \/ ContractCode a (Keccak256Hash (acc_code acc)) = Some (acc_code acc) \/
   InsertBlob (Keccak256Hash (acc_code acc)) (acc_code acc) ∈ commit_writes flag (with_marks s) a) /\
  acc_suicided acc = false /\ forall k, acc_storage acc !! k <> Some 0.
Proof.
  intros Hi Hdel Hm Hacc. pose proof (commit_entry_marked flag s a Hi Hdel Hm) as He. rewrite Hacc in He. unfold commit_entry in He. unfold commit_writes.
  rewrite view_lookup, all_lookup in Hacc. change (stateObjects (with_marks s)) with (stateObjects s) in *. destruct (stateObjects s !! a) as [o|] eqn:Eo.
  - unfold written. rewrite bool_decide_eq_true_2 in He |- * by (by apply with_marks_spec). destruct (doomed flag (with_marks s) a o); [done|].
    cbn [mbind option_bind] in Hacc. unfold shown in Hacc. destruct (o_deleted o) eqn:Ed; [done|]. cbn [mbind option_bind negb andb] in *. unfold survivor, dies in Hacc.
    destruct (acc_suicided (abs_obj o)) eqn:Es; [done|]. cbn [orb] in Hacc. destruct (flag && acc_empty (abs_obj o)); [done|]. injection Hacc as <-.
    destruct (ci_objects _ Hi a o) as [Ha Hok]; [by rewrite all_lookup, Eo|]. specialize (Hok Ed). split; [apply elem_of_app; right; by left|]. split; [|split; [done|]].
    + rewrite elem_of_app. destruct (code_found o Hok) as [?|[?|?]]; [by left|right; left; by rewrite <- Ha|right; right; by left].
    + intros k. cbn. rewrite abs_storage_lookup. destruct (abs_slot o k =? 0) eqn:E; [done|]. zbool. congruence.
  - exfalso. destruct Hm as [Hm|Hm].
    + destruct (s_trie s !! a) as [x|] eqn:Et; [|done]. destruct (ci_touched _ Hi a (Obj.newObject a x)) as [E _]; [by left|by rewrite all_lookup, Eo, Et|congruence].
    + destruct (ci_marked _ Hi a Hm). congruence.
Qed.

(** [Commit] fails exactly when an object it is to write has failed. *)
Lemma State_Commit_ok {T : AccountTrie} (flag : bool) s order :
  core_inv s -> deletable flag s -> order ≡ₚ (map_to_list (stateObjects s)).*1 ->
  runs (State.Commit flag order) s (fun r s' =>
    (r.1 = None <-> exists a, failing flag s a) /\
    forall root, r.1 = Some root -> root = AccountRoot (s_trie s') /\
      (forall a, is_Some (stateObjects s !! a) -> commit_writes flag (with_marks s) a ⊆ r.2) /\
      forall a, s_trie s' !! a = commit_entry flag (with_marks s) a).
Proof.
  intros Hi Hdel Ho. assert (forall a, a ∈ order <-> is_Some (stateObjects s !! a)) as Hin.
  { intros a. rewrite Ho, list_elem_of_fmap. split; [intros ([a' o] & -> & H%elem_of_map_to_list); by exists o|].
    intros [o H]. exists (a, o). by rewrite elem_of_map_to_list. }
  unfold State.Commit. apply runs_bind, runs_modify. fold (with_marks s). apply runs_bind.
  eapply runs_mono; [apply commitAll_ok|].
  - rewrite Ho. apply NoDup_fst_map_to_list.
  - intros a _. by apply all_committable.
  - intros [err w] s1 (Ee & H1). cbn [fst snd] in *. apply runs_bind, runs_get, runs_bind, runs_modify, runs_ret. cbn [fst snd]. split.
    + transitivity (err = true); [by destruct err|]. rewrite Ee, existsb_exists. unfold failing. split; [intros (a & _ & H); by exists a|].
      intros [a H]. exists a. split; [|done]. apply list_elem_of_In, Hin. unfold fails in H. cbn in H. by destruct (stateObjects s !! a).
    + intros root Hr. destruct err; [done|]. injection Hr as <-. destruct (H1 eq_refl) as [Ha Hb]. split; [done|]. split.
      * intros a Hx%Hin. by apply Ha.
      * intros a. cbn. destruct (stateObjects s !! a) as [o|] eqn:Eo; [apply Ha, Hin; by eexists|]. rewrite Hb by (rewrite Hin, Eo; by intros []).
        unfold commit_entry. cbn. by rewrite Eo.
Qed.

(** ** CreateAccount over an existing account *)

(** The journal entry of a reset account does not mark it dirty. *)
Lemma reset_not_dirty s a p :
  core_inv s -> live s a = Some p ->
  runs (State.CreateAccount a) s (fun _ s' =>
    dirties (s_journal s') = dirties (s_journal s) /\ s_trie s' = s_trie s).
Proof.
  intros Hi Hl. unfold State.CreateAccount, State.createObject.
  destruct (getStateObject_ok s a Hi) as (r & s1 & Hr & -> & _).
  pose proof (getStateObject_journal _ _ _ _ Hr) as Hj.
  assert (s_trie s1 = s_trie s) as Ht.
  { revert Hr. unfold State.getStateObject, bind, get.
    destruct (stateObjects s !! a); [by intros [= _ <-]|].
    destruct (accountErr a); [by intros [= _ <-]|].
    destruct (s_trie s !! a) eqn:E; by intros [= _ <-]. }
  apply runs_bind, runs_bind. exists (live s a), s1. split; [done|]. rewrite Hl.
  apply runs_bind, runs_modify, runs_bind, runs_modify, runs_ret, runs_modify.
  split; [by cbn; rewrite Hj|done].
Qed.
End finalise_spec.

(** ** Opening the state again *)

(** A database that holds what a commit over [D] wrote, and the code and the
    storage tries of [D]. *)
Record holds {C : Crypto} (D D' : Database) (w : list dbWrite) : Prop := {
  holds_storage a t : StorageCommit t ∈ w -> OpenStorageTrie (Database := D') a (StorageRoot (Database := D) t) = Some t;
  holds_code a h c : InsertBlob h c ∈ w -> ContractCode (Database := D') a h = Some c;
  holds_old a h c : ContractCode (Database := D) a h = Some c -> ContractCode (Database := D') a h = Some c;
  holds_trie a r t : OpenStorageTrie (Database := D) a r = Some t -> OpenStorageTrie (Database := D') a r = Some t
}.

(** An entry of the trie shows the account it was made from. *)
Lemma reopened_account {C : Crypto} {CI : CodeHashIdeal C} (D D' : Database) a acc :
  complete_db (D := D') -> (forall k, acc_storage acc !! k <> Some 0) -> acc_suicided acc = false ->
  OpenStorageTrie (Database := D') a (StorageRoot (Database := D) (acc_storage acc)) = Some (acc_storage acc) ->
  acc_code acc = [] \/ ContractCode (Database := D') a (Keccak256Hash (acc_code acc)) = Some (acc_code acc) ->
  abs_obj (D := D') (Obj.newObject a (trie_entry (D := D) acc)) = acc.
Proof.
  intros DB Hz Hs Ht Hc. assert (abs_storage (D := D') (Obj.newObject a (trie_entry (D := D) acc)) = acc_storage acc) as Est.
  { apply map_eq. intros k. rewrite abs_storage_lookup. unfold abs_slot, content. cbn. rewrite lookup_empty, (no_slotErr DB), Ht. cbn.
    specialize (Hz k). destruct (acc_storage acc !! k) as [v|]; [|done]. cbn. destruct (v =? 0) eqn:Ev; zbool; [congruence|done]. }
  assert (abs_code (D := D') (Obj.newObject a (trie_entry (D := D) acc)) = acc_code acc) as Ec.
  { unfold abs_code. cbn. case_bool_decide as Eh; [by apply Keccak256Hash_inj in Eh|]. destruct Hc as [E|E]; [by rewrite E in Eh|by rewrite E]. }
  unfold abs_obj. rewrite Est, Ec. cbn. destruct acc. cbn in *. by subst.
Qed.

(** An entry of the trie that is left alone shows over [D'] what it shows over
    [D]. *)
Lemma reopened_entry {C : Crypto} (D D' : Database) w a acc t :
  complete_db (D := D) -> complete_db (D := D') -> holds D D' w -> obj_ok (D := D) (Obj.newObject a acc) ->
  OpenStorageTrie (Database := D) a (Root acc) = Some t ->
  abs_obj (D := D') (Obj.newObject a acc) = abs_obj (D := D) (Obj.newObject a acc).
Proof.
  intros DB DB' Hh Hok Ht.
  assert (abs_storage (D := D') (Obj.newObject a acc) = abs_storage (D := D) (Obj.newObject a acc)) as Est.
  { apply map_eq. intros k. rewrite !abs_storage_lookup. unfold abs_slot, content. cbn.
    by rewrite !lookup_empty, (no_slotErr DB), (no_slotErr DB'), Ht, (holds_trie _ _ _ Hh _ _ _ Ht). }
  assert (abs_code (D := D') (Obj.newObject a acc) = abs_code (D := D) (Obj.newObject a acc)) as Ec.
  { pose proof (ok_hash _ Hok) as Hk. unfold abs_code in *. cbn in *. case_bool_decide as Eh; [done|].
    destruct (ContractCode a (acct_CodeHash acc)) as [c|] eqn:E; [by rewrite (holds_old _ _ _ Hh _ _ _ E)|]. by rewrite Hk in Eh. }
  unfold abs_obj. by rewrite Est, Ec.
Qed.
