(* ===== verification/World.v ===== *)
(** * The abstract world: supply, observations, evolution

    What the EVM's theorems say about a [world]: its balances and their sum,
    what can be observed of it, and [evolves], the relation every instruction
    and every call establishes between the world before and after. *)

From Stdlib Require Import ZArith Lia Bool.
From S2P Require Import Prelude GoMath StateInterface.
Local Open Scope Z_scope.

(** ** Balances and supply *)

Definition supply_map (m : gmap Address account) : Z :=
  map_fold (fun _ acc s => acc_balance acc + s) 0 m.
Definition supply (w : world) : Z := supply_map (w_accounts w).

Definition nonneg (w : world) : Prop := forall a, 0 <= w_GetBalance w a.

(** Balances are non-negative and their sum fits a word. *)
Definition world_ok (w : world) : Prop := nonneg w /\ supply w < 2 ^ 256.

Lemma supply_insert_new m a acc :
  m !! a = None -> supply_map (<[a := acc]> m) = acc_balance acc + supply_map m.
Proof.
  intros H. unfold supply_map. rewrite map_fold_insert_L; [done| |done].
  intros. lia.
Qed.

Lemma supply_delete m a acc :
  m !! a = Some acc -> supply_map m = acc_balance acc + supply_map (delete a m).
Proof.
  intros H. rewrite <- (insert_id m a acc) at 1 by done.
  rewrite <- insert_delete_eq. apply supply_insert_new, lookup_delete_eq.
Qed.

Lemma supply_put a acc w :
  supply (w_put a acc w) = supply w - w_GetBalance w a + acc_balance acc.
Proof.
  unfold supply, w_put, w_GetBalance, w_acc, w_get. cbn.
  destruct (w_accounts w !! a) as [old|] eqn:E; cbn.
  - rewrite <- insert_delete_eq, supply_insert_new by apply lookup_delete_eq.
    rewrite (supply_delete _ a old E). cbn. lia.
  - rewrite supply_insert_new by done. lia.
Qed.

Lemma supply_map_nonneg m :
  (forall a acc, m !! a = Some acc -> 0 <= acc_balance acc) -> 0 <= supply_map m.
Proof.
  induction m as [|a acc m Hn Hf IH] using map_first_key_ind; intros H; [done|].
  rewrite supply_insert_new by done.
  assert (0 <= acc_balance acc) by (eapply H; apply lookup_insert_eq).
  enough (0 <= supply_map m) by lia. apply IH. intros b acc' Hb.
  apply (H b). rewrite lookup_insert_ne; [done|]. congruence.
Qed.

Lemma nonneg_lookup w a acc :
  nonneg w -> w_accounts w !! a = Some acc -> 0 <= acc_balance acc.
Proof.
  intros H E. specialize (H a). unfold w_GetBalance, w_acc, w_get in H.
  by rewrite E in H.
Qed.

Lemma balance_le_supply w a : nonneg w -> w_GetBalance w a <= supply w.
Proof.
  intros H. unfold supply, w_GetBalance, w_acc, w_get.
  destruct (w_accounts w !! a) as [acc|] eqn:E; cbn.
  - rewrite (supply_delete _ a acc E).
    enough (0 <= supply_map (delete a (w_accounts w))) by lia.
    apply supply_map_nonneg. intros b acc' Hb.
    apply lookup_delete_Some in Hb as [_ Hb]. by eapply nonneg_lookup.
  - apply supply_map_nonneg. intros b acc' Hb. by eapply nonneg_lookup.
Qed.

Lemma balance_word w a : world_ok w -> is_word (w_GetBalance w a).
Proof.
  intros [Hn Hs]. pose proof (balance_le_supply w a Hn). specialize (Hn a).
  unfold is_word. lia.
Qed.

(** ** Reading after writing *)

Lemma w_acc_put a b acc w :
  w_acc (w_put a acc w) b = if decide (a = b) then acc else w_acc w b.
Proof.
  unfold w_acc, w_get, w_put. cbn. case_decide as E.
  - subst. by rewrite lookup_insert_eq.
  - by rewrite lookup_insert_ne.
Qed.

(** [w_update], which every mutator of a single account is. *)
Lemma w_acc_update a b f w :
  w_acc (w_update a f w) b = if decide (a = b) then f (w_acc w b) else w_acc w b.
Proof. unfold w_update. rewrite w_acc_put. case_decide; [by subst|done]. Qed.

Lemma supply_update a f w :
  supply (w_update a f w) =
    supply w - w_GetBalance w a + acc_balance (f (w_acc w a)).
Proof. apply supply_put. Qed.

(** ** Observations *)

(** What a contract can observe of the accounts, with logs and refund; whether
    an account without content has an entry is left out. *)
Definition same_obs (w w' : world) : Prop :=
  (forall a, w_acc w' a = w_acc w a) /\
  w_logs w' = w_logs w /\ w_logSize w' = w_logSize w /\ w_refund w' = w_refund w.

#[export] Instance same_obs_preorder : PreOrder same_obs.
Proof.
  split.
  - by intros w.
  - intros w1 w2 w3 (A1 & B1 & C1 & D1) (A2 & B2 & C2 & D2).
    split; [intros a; by rewrite A2, A1|]. repeat split; congruence.
Qed.

(** Balances stay non-negative, the supply never grows, and in a static
    context nothing observable changes. *)
Definition evolves (static : bool) (w w' : world) : Prop :=
  (nonneg w -> nonneg w' /\ supply w' <= supply w) /\
  (static = true -> same_obs w w').

#[export] Instance evolves_preorder static : PreOrder (evolves static).
Proof.
  split.
  - intros w. split; [|done]. intros H. split; [done|lia].
  - intros w1 w2 w3 [A1 B1] [A2 B2]. split.
    + intros H. destruct (A1 H) as [H2 ?]. destruct (A2 H2) as [H3 ?].
      split; [done|lia].
    + intros H. etrans; eauto.
Qed.

Lemma evolves_ok static w w' : world_ok w -> evolves static w w' -> world_ok w'.
Proof. intros [H1 H2] [H _]. destruct (H H1). split; [done|lia]. Qed.

(** In a static context the balances are the same, so more is known. *)
Lemma nonneg_balances w w' :
  (forall a, w_GetBalance w' a = w_GetBalance w a) -> nonneg w -> nonneg w'.
Proof. intros H Hn a. rewrite H. apply Hn. Qed.

Lemma evolves_update_same a f w :
  (forall acc, acc_balance (f acc) = acc_balance acc) ->
  evolves false w (w_update a f w).
Proof.
  intros Hf. split; [|done]. intros Hn. split.
  - revert Hn. apply nonneg_balances. intros b. unfold w_GetBalance.
    rewrite w_acc_update. case_decide; [by rewrite Hf|done].
  - rewrite supply_update, Hf. unfold w_GetBalance. lia.
Qed.

Lemma evolves_SetNonce a v w : evolves false w (w_SetNonce a v w).
Proof. by apply evolves_update_same. Qed.
Lemma evolves_SetCode a v w : evolves false w (w_SetCode a v w).
Proof. by apply evolves_update_same. Qed.
Lemma evolves_SetState a k v w : evolves false w (w_SetState a k v w).
Proof. by apply evolves_update_same. Qed.

(** Creating over an account keeps its balance; without one, it changes
    nothing observable. *)
Lemma evolves_CreateAccount static a w :
  (static = true -> w_Exist w a = false) -> evolves static w (w_CreateAccount a w).
Proof.
  intros Hs. split.
  - intros Hn. split.
    + revert Hn. apply nonneg_balances. intros b. unfold w_GetBalance, w_CreateAccount.
      rewrite w_acc_put. by case_decide; [subst|].
    + unfold w_CreateAccount. rewrite supply_put. cbn. unfold w_GetBalance. lia.
  - intros E. specialize (Hs E). split; [|done]. intros b. unfold w_CreateAccount.
    rewrite w_acc_put. case_decide as Eb; [|done]. subst b.
    unfold w_Exist in Hs. apply bool_decide_eq_false in Hs.
    unfold w_acc. destruct (w_get w a); [|done]. destruct Hs. eauto.
Qed.

(** A covered transfer; a static one is of nothing. *)
Lemma evolves_transfer static a b v w :
  0 <= v <= w_GetBalance w a -> (static = true -> v = 0) ->
  evolves static w (w_AddBalance b v (w_SubBalance a v w)).
Proof.
  intros Hv Hs.
  assert (forall x, w_GetBalance (w_AddBalance b v (w_SubBalance a v w)) x =
    w_GetBalance w x - (if decide (a = x) then v else 0) +
    (if decide (b = x) then v else 0)) as Hb.
  { intros x. unfold w_GetBalance, w_AddBalance, w_SubBalance.
    rewrite !w_acc_update. repeat case_decide; subst; cbn; lia. }
  split.
  - intros Hn. split.
    + intros x. rewrite Hb. specialize (Hn x). repeat case_decide; subst; lia.
    + unfold w_AddBalance at 1. rewrite supply_update. cbn.
      unfold w_SubBalance. rewrite supply_update. cbn.
      unfold w_GetBalance. lia.
  - intros E. rewrite (Hs E). split; [|done]. intros x.
    unfold w_AddBalance, w_SubBalance. rewrite !w_acc_update.
    destruct (w_acc w x) eqn:Ex.
    repeat case_decide; unfold set_balance; cbn; rewrite ?Z.sub_0_r, ?Z.add_0_r; done.
Qed.

(** [opSuicide]: the balance moves to the beneficiary, then the account is
    emptied; it is destroyed when the two are the same. *)
Lemma evolves_suicide self b w :
  evolves false w
    (w_Suicide self (w_AddBalance b (w_GetBalance w self) w)).
Proof.
  split; [|done]. intros Hn.
  set (v := w_GetBalance w self). set (w1 := w_AddBalance b v w).
  assert (forall x, w_GetBalance w1 x = w_GetBalance w x + if decide (b = x) then v else 0) as H1.
  { intros x. unfold w1, w_GetBalance, w_AddBalance. rewrite w_acc_update.
    case_decide; cbn; lia. }
  assert (supply w1 = supply w + v) as Hs1.
  { unfold w1, w_AddBalance. rewrite supply_update. cbn. unfold w_GetBalance. lia. }
  assert (0 <= v) by apply Hn.
  assert (nonneg w1) as Hn1.
  { intros x. rewrite H1. specialize (Hn x). case_decide; lia. }
  unfold w_Suicide. destruct (w_get w1 self) as [acc|] eqn:E.
  - split.
    + intros x. unfold w_GetBalance. rewrite w_acc_put. case_decide; [done|].
      apply Hn1.
    + rewrite supply_put, Hs1, H1. cbn. fold v. case_decide; lia.
  - assert (w_GetBalance w1 self = 0) as Hz by (unfold w_GetBalance, w_acc; by rewrite E).
    rewrite H1 in Hz. fold v in Hz. split; [done|]. rewrite Hs1. case_decide; lia.
Qed.

(** Changes outside the accounts. *)
Lemma evolves_accounts w w' :
  w_accounts w' = w_accounts w -> evolves false w w'.
Proof.
  intros H. split; [|done]. intros Hn. split.
  - revert Hn. apply nonneg_balances. intros a. unfold w_GetBalance, w_acc, w_get.
    by rewrite H.
  - unfold supply. rewrite H. lia.
Qed.

Lemma evolves_AddPreimage static h d w : evolves static w (w_AddPreimage h d w).
Proof.
  unfold w_AddPreimage. destruct (w_preimages w !! h); [done|].
  split; [by apply evolves_accounts|]. by intros _.
Qed.

Lemma evolves_weaken static w w' :
  evolves false w w' -> static = false -> evolves static w w'.
Proof. by intros H ->. Qed.

(** ** Balances under the other updates *)

Lemma balance_SetNonce a v w b : w_GetBalance (w_SetNonce a v w) b = w_GetBalance w b.
Proof.
  unfold w_GetBalance, w_SetNonce. rewrite w_acc_update. by case_decide.
Qed.

Lemma balance_CreateAccount a w b : w_GetBalance (w_CreateAccount a w) b = w_GetBalance w b.
Proof.
  unfold w_GetBalance, w_CreateAccount. rewrite w_acc_put. by case_decide; [subst|].
Qed.
