(* ===== verification/Machine.v ===== *)
(** * The state of the EVM: contracts, call context, frames

    [core/vm/contract.go], and the structs of [core/vm/evm.go] and
    [core/vm/interpreter.go].  The mutable fields of [EVM] and [Interpreter],
    which are one shared object during a transaction, are [EVMState]; the
    immutable ones are [Env].  One activation of [Interpreter.Run] works on a
    [Frame]: the program counter, the shared state, its contract, its memory
    and its stack.

    Aliasing: a callee contract shares the [jumpdests] map of its caller when
    the caller is a contract.  The map is handed to the callee in
    [ContractPtr] and handed back in [CallResult]. *)

From Stdlib Require Import ZArith Lia Bool.
From S2P Require Import Prelude GoMath Params VmStack VmMemory Opcodes Analysis.
From S2P Require Import StateInterface.
Local Open Scope Z_scope.
Local Open Scope go_scope.

(** ** core/vm/contract.go *)

Section contract.
Context {C : Crypto}.

Abbreviation destinations := (gmap CodeHash (list Z)) (only parsing).

(** A [ContractRef] is an [AccountRef] or a [*Contract]; of the latter the
    callee reads the address, the caller, the value and the jump map. *)
Inductive ContractRef : Type :=
| AccountRef (a : Address)
| ContractPtr (self callerAddress : Address) (value : option Z)
    (jumpdests : destinations).

Definition ref_Address (r : ContractRef) : Address :=
  match r with AccountRef a => a | ContractPtr self _ _ _ => self end.

Record Contract := mkContract {
  c_CallerAddress : Address;
  c_caller : ContractRef;
  c_self : Address;
  c_jumpdests : destinations;
  c_Code : list byte;
  c_CodeHash : CodeHash;
  c_CodeAddr : option Address;
  c_Input : list byte;
  c_Gas : Z;
  c_value : option Z;                  (** [nil] only before [AsDelegate] *)
  c_DelegateCall : bool
}.

Definition NewContract (caller : ContractRef) (object : Address)
    (value : option Z) (gas : Z) : Contract :=
  mkContract (ref_Address caller) caller object
    (match caller with ContractPtr _ _ _ d => d | AccountRef _ => ∅ end)
    [] zeroHash None [] gas value false.

(** [None] is the failed type assertion on a caller that is no contract. *)
Definition AsDelegate (c : Contract) : option Contract :=
  match c_caller c with
  | AccountRef _ => None
  | ContractPtr _ callerAddress value _ =>
      Some (mkContract callerAddress (c_caller c) (c_self c) (c_jumpdests c)
              (c_Code c) (c_CodeHash c) (c_CodeAddr c) (c_Input c) (c_Gas c)
              value true)
  end.

Definition GetByte (c : Contract) (n : Z) : byte :=
  if n <? zlen (c_Code c) then default x00 (index (c_Code c) n) else x00.
Definition GetOp (c : Contract) (n : Z) : Z := OpCode (GetByte c n).

Definition with_gas (c : Contract) (g : Z) : Contract :=
  mkContract (c_CallerAddress c) (c_caller c) (c_self c) (c_jumpdests c) (c_Code c)
    (c_CodeHash c) (c_CodeAddr c) (c_Input c) g (c_value c) (c_DelegateCall c).
Definition with_jumpdests (c : Contract) (d : destinations) : Contract :=
  mkContract (c_CallerAddress c) (c_caller c) (c_self c) d (c_Code c)
    (c_CodeHash c) (c_CodeAddr c) (c_Input c) (c_Gas c) (c_value c) (c_DelegateCall c).
Definition with_input (c : Contract) (i : list byte) : Contract :=
  mkContract (c_CallerAddress c) (c_caller c) (c_self c) (c_jumpdests c) (c_Code c)
    (c_CodeHash c) (c_CodeAddr c) i (c_Gas c) (c_value c) (c_DelegateCall c).

(** [UseGas]: whether there was enough, and the contract afterwards. *)
Definition UseGas (c : Contract) (gas : Z) : bool * Contract :=
  if c_Gas c <? gas then (false, c)
  else (true, with_gas c (u64 (c_Gas c - gas))).

Definition SetCallCode (c : Contract) (addr : Address) (hash : CodeHash)
    (code : list byte) : Contract :=
  mkContract (c_CallerAddress c) (c_caller c) (c_self c) (c_jumpdests c) code
    hash (Some addr) (c_Input c) (c_Gas c) (c_value c) (c_DelegateCall c).

(** The contract as its callees see it. *)
Definition contract_ref (c : Contract) : ContractRef :=
  ContractPtr (c_self c) (c_CallerAddress c) (c_value c) (c_jumpdests c).

Lemma UseGas_spec c gas :
  is_u64 (c_Gas c) -> 0 <= gas ->
  UseGas c gas =
    if c_Gas c <? gas then (false, c) else (true, with_gas c (c_Gas c - gas)).
Proof.
  intros Hc Hg. unfold UseGas. split_if; [done|].
  unfold is_u64 in Hc. by rewrite u64_small by (unfold is_u64; lia).
Qed.
End contract.

(** ** The EVM *)

Section machine.
Context {C : Crypto} (S : Type) `{!StateDB S}.

(** [vm.Context]. *)
Record Context := mkContext {
  CanTransfer : Address -> Z -> M S bool;
  Transfer : Address -> Address -> Z -> M S unit;
  GetHash : Z -> Hash;
  Origin : Address;
  GasPrice : Z;
  Coinbase : Address;
  GasLimit : Z;
  BlockNumber : Z;
  Time : Z;
  Difficulty : Z
}.

(** [vm.Config] without the tracer; [abort] is the schedule of the calls to
    [Cancel]: [abort n] is what the [n]-th load of [evm.abort] returns. *)
Record Env := mkEnv {
  env_ctx : Context;
  env_chainConfig : ChainConfig;
  env_NoRecursion : bool;
  env_EnablePreimageRecording : bool;
  env_abort : nat -> bool
}.

Record EVMState := mkEVMState {
  e_StateDB : S;
  e_depth : Z;
  e_callGasTemp : Z;
  e_readOnly : bool;
  e_returnData : list byte;
  e_loads : nat                     (** loads of [evm.abort] so far *)
}.

Record Frame := mkFrame {
  f_pc : Z;
  f_evm : EVMState;
  f_contract : Contract;
  f_mem : Memory;
  f_stack : Stack
}.

(** What the call operations hand back besides the state. *)
Record CallResult := mkCallResult {
  cr_ret : list byte;
  cr_gas : Z;
  cr_err : option vmErr;
  cr_jumpdests : gmap CodeHash (list Z)
}.

(** The operations of [*EVM] that instructions call back. *)
Record Calls := mkCalls {
  evm_Call : ContractRef -> Address -> list byte -> Z -> Z -> M EVMState CallResult;
  evm_CallCode : ContractRef -> Address -> list byte -> Z -> Z -> M EVMState CallResult;
  evm_DelegateCall : ContractRef -> Address -> list byte -> Z -> M EVMState CallResult;
  evm_StaticCall : ContractRef -> Address -> list byte -> Z -> M EVMState CallResult;
  evm_Create : ContractRef -> list byte -> Z -> Z -> M EVMState (CallResult * Address)
}.

Definition env_rules (env : Env) : Rules :=
  ChainConfig_Rules (env_chainConfig env) (BlockNumber (env_ctx env)).
Definition env_gasTable (env : Env) : GasTable :=
  ChainConfig_GasTable (env_chainConfig env) (BlockNumber (env_ctx env)).
End machine.

Arguments CanTransfer {S}.
Arguments Transfer {S}.
Arguments GetHash {S}.
Arguments Origin {S}.
Arguments GasPrice {S}.
Arguments Coinbase {S}.
Arguments GasLimit {S}.
Arguments BlockNumber {S}.
Arguments Time {S}.
Arguments Difficulty {S}.
Arguments mkContext {S}.
Arguments mkEnv {S}.
Arguments env_ctx {S}.
Arguments env_chainConfig {S}.
Arguments env_NoRecursion {S}.
Arguments env_EnablePreimageRecording {S}.
Arguments env_abort {S}.
Arguments env_rules {S}.
Arguments env_gasTable {S}.
Arguments mkEVMState {S}.
Arguments e_StateDB {S}.
Arguments e_depth {S}.
Arguments e_callGasTemp {S}.
Arguments e_readOnly {S}.
Arguments e_returnData {S}.
Arguments e_loads {S}.
Arguments mkFrame {C S}.
Arguments f_pc {C S}.
Arguments f_evm {C S}.
Arguments f_contract {C S}.
Arguments f_mem {C S}.
Arguments f_stack {C S}.
Arguments evm_Call {C S}.
Arguments evm_CallCode {C S}.
Arguments evm_DelegateCall {C S}.
Arguments evm_StaticCall {C S}.
Arguments evm_Create {C S}.
Arguments mkCalls {C S}.

(** ** Access to the parts of the state *)

Section access.
Context {C : Crypto} {S : Type} `{!StateDB S}.

Definition set_db (d : S) (e : EVMState S) : EVMState S :=
  mkEVMState d (e_depth e) (e_callGasTemp e) (e_readOnly e) (e_returnData e) (e_loads e).
Definition set_depth (d : Z) (e : EVMState S) : EVMState S :=
  mkEVMState (e_StateDB e) d (e_callGasTemp e) (e_readOnly e) (e_returnData e) (e_loads e).
Definition set_callGasTemp (g : Z) (e : EVMState S) : EVMState S :=
  mkEVMState (e_StateDB e) (e_depth e) g (e_readOnly e) (e_returnData e) (e_loads e).
Definition set_readOnly (b : bool) (e : EVMState S) : EVMState S :=
  mkEVMState (e_StateDB e) (e_depth e) (e_callGasTemp e) b (e_returnData e) (e_loads e).
Definition set_returnData (r : list byte) (e : EVMState S) : EVMState S :=
  mkEVMState (e_StateDB e) (e_depth e) (e_callGasTemp e) (e_readOnly e) r (e_loads e).
Definition tick (e : EVMState S) : EVMState S :=
  mkEVMState (e_StateDB e) (e_depth e) (e_callGasTemp e) (e_readOnly e) (e_returnData e)
    (e_loads e + 1)%nat.

Definition set_pc (pc : Z) (f : Frame S) : Frame S :=
  mkFrame pc (f_evm f) (f_contract f) (f_mem f) (f_stack f).
Definition set_evm (e : EVMState S) (f : Frame S) : Frame S :=
  mkFrame (f_pc f) e (f_contract f) (f_mem f) (f_stack f).
Definition set_contract (c : Contract) (f : Frame S) : Frame S :=
  mkFrame (f_pc f) (f_evm f) c (f_mem f) (f_stack f).
Definition set_mem (m : Memory) (f : Frame S) : Frame S :=
  mkFrame (f_pc f) (f_evm f) (f_contract f) m (f_stack f).
Definition set_stack (st : Stack) (f : Frame S) : Frame S :=
  mkFrame (f_pc f) (f_evm f) (f_contract f) (f_mem f) st.

(** [evm.StateDB.op()], from the EVM and from a frame. *)
Definition onDB {A} (m : M S A) : M (EVMState S) A := zoom e_StateDB set_db m.
Definition onEVM {A} (m : M (EVMState S) A) : M (Frame S) A := zoom f_evm set_evm m.
Definition db {A} (m : M S A) : M (Frame S) A := onEVM (onDB m).

(** Stack operations of an instruction; [must] is the panic of an index. *)
Definition s_pop : M (Frame S) Z :=
  let* f := get in
  let* '(x, st) := must (pop (f_stack f)) in
  put (set_stack st f) ;; ret x.
Definition s_push (x : Z) : M (Frame S) unit :=
  modify (fun f => set_stack (push x (f_stack f)) f).
Definition s_peek : M (Frame S) Z :=
  let* f := get in must (peek (f_stack f)).
(** The update of the cell [s_peek] returned. *)
Definition s_settop (x : Z) : M (Frame S) unit :=
  let* f := get in
  let* st := must (set_top x (f_stack f)) in
  put (set_stack st f).
Definition s_back (n : nat) : M (Frame S) Z :=
  let* f := get in must (Back (f_stack f) n).

(** Memory operations of an instruction. *)
Definition m_set (offset size : Z) (value : list byte) : M (Frame S) unit :=
  let* f := get in
  let* m := must (mem_Set (f_mem f) offset size value) in
  put (set_mem m f).
Definition m_get (offset size : Z) : M (Frame S) (list byte) :=
  let* f := get in must (mem_Get (f_mem f) offset size).
Definition m_getptr (offset size : Z) : M (Frame S) (list byte) :=
  let* f := get in must (mem_GetPtr (f_mem f) offset size).
End access.
