(* ===== verification/Gas.v ===== *)
(** * Gas: core/vm/gas.go and core/vm/gas_table.go

    A gas function reads the stack and the database, may record a refund, the
    memory fee and the gas of a call, and returns a price or an error.
    [uint64] arithmetic is written with its wrap-around; the checked additions
    return [errGasUintOverflow]. *)

From Stdlib Require Import ZArith Lia Bool.
From S2P Require Import Prelude GoMath Params VmStack VmMemory Opcodes Analysis.
From S2P Require Import StateInterface Machine.
Local Open Scope Z_scope.
Local Open Scope go_scope.

(** ** Results with an error *)

Abbreviation checked A := (vmErr + A)%type (only parsing).

Definition ebind {St A B} (m : M St (checked A)) (f : A -> M St (checked B))
    : M St (checked B) :=
  let* r := m in
  match r with inl e => ret (inl e) | inr a => f a end.

Definition ok {St A} (a : A) : M St (checked A) := ret (inr a).
Definition fail {St A} (e : vmErr) : M St (checked A) := ret (inl e).

Notation "'let?' x := m 'in' k" := (ebind m (fun x => k))
  (at level 10, x name, m at level 100, k at level 200) : go_scope.

(** [if v, overflow = f(x, y); overflow { return 0, errGasUintOverflow }]. *)
Definition noOverflow {St} (r : Z * bool) : M St (checked Z) :=
  if r.2 then fail errGasUintOverflow else ok r.1.

(** ** core/vm/gas.go *)

Definition GasQuickStep : Z := 2.
Definition GasFastestStep : Z := 3.
Definition GasFastStep : Z := 5.
Definition GasMidStep : Z := 8.
Definition GasSlowStep : Z := 10.
Definition GasExtStep : Z := 20.

Definition callGas (gasTable : GasTable) (availableGas base callCost : Z)
    : checked Z :=
  let gas := u64 (u64 (availableGas - base) - u64 (availableGas - base) / 64) in
  if (gt_CreateBySuicide gasTable >? 0) &&
     ((BitLen callCost >? 64) || (gas <? Uint64 callCost))
  then inr gas
  else if BitLen callCost >? 64 then inl errGasUintOverflow
  else inr (Uint64 callCost).

(** ** core/vm/gas_table.go *)

Definition memoryGasCost (mem : Memory) (newMemSize : Z) : checked Z * Memory :=
  if newMemSize =? 0 then (inr 0, mem)
  else if newMemSize >? 0xffffffffe0 then (inl errGasUintOverflow, mem)
  else
    let newMemSizeWords := toWordSize newMemSize in
    let newMemSize := u64 (newMemSizeWords * 32) in
    if newMemSize >? mem_Len mem then
      let square := u64 (newMemSizeWords * newMemSizeWords) in
      let linCoef := u64 (newMemSizeWords * MemoryGas) in
      let quadCoef := square / QuadCoeffDiv in
      let newTotalFee := u64 (linCoef + quadCoef) in
      let fee := u64 (newTotalFee - mem_lastGasCost mem) in
      (inr fee, mkMemory (mem_store mem) newTotalFee)
    else (inr 0, mem).

Section gas.
Context {C : Crypto} {S : Type} `{!StateDB S}.

Definition gasFunc : Type :=
  GasTable -> Env S -> Z -> M (Frame S) (checked Z).

(** [memoryGasCost(mem, memorySize)] on the frame's memory. *)
Definition memGas (memorySize : Z) : M (Frame S) (checked Z) :=
  let* f := get in
  let '(r, m) := memoryGasCost (f_mem f) memorySize in
  put (set_mem m f) ;; ret r.

(** [bigUint64(stack.Back(n))]. *)
Definition backUint64 (n : nat) : M (Frame S) (checked Z) :=
  let* v := s_back n in noOverflow (bigUint64 v).

Definition constGasFunc (gas : Z) : gasFunc := fun gt env memorySize => ok gas.

(** The copying instructions: memory, a base price, a price per word of the
    operand at [n]. *)
Definition gasCallDataCopy : gasFunc := fun gt env memorySize =>
  let? gas := memGas memorySize in
  let? gas := noOverflow (SafeAdd gas GasFastestStep) in
  let? words := backUint64 2 in
  let? words := noOverflow (SafeMul (toWordSize words) CopyGas) in
  noOverflow (SafeAdd gas words).

Definition gasReturnDataCopy : gasFunc := fun gt env memorySize =>
  let? gas := memGas memorySize in
  let? gas := noOverflow (SafeAdd gas GasFastestStep) in
  let? words := backUint64 2 in
  let? words := noOverflow (SafeMul (toWordSize words) CopyGas) in
  noOverflow (SafeAdd gas words).

Definition gasSStore : gasFunc := fun gt env memorySize =>
  let* y := s_back 1 in
  let* x := s_back 0 in
  let* f := get in
  let* val := db (GetState (c_self (f_contract f)) (BigToHash x)) in
  if (val =? 0) && negb (y =? 0) then ok SstoreSetGas
  else if negb (val =? 0) && (y =? 0) then
    db (AddRefund SstoreRefundGas) ;; ok SstoreClearGas
  else ok SstoreResetGas.

Definition makeGasLog (n : Z) : gasFunc := fun gt env memorySize =>
  let? requestedSize := backUint64 1 in
  let? gas := memGas memorySize in
  let? gas := noOverflow (SafeAdd gas LogGas) in
  let? gas := noOverflow (SafeAdd gas (u64 (n * LogTopicGas))) in
  let? memorySizeGas := noOverflow (SafeMul requestedSize LogDataGas) in
  noOverflow (SafeAdd gas memorySizeGas).

Definition gasSha3 : gasFunc := fun gt env memorySize =>
  let? gas := memGas memorySize in
  let? gas := noOverflow (SafeAdd gas Sha3Gas) in
  let? wordGas := backUint64 1 in
  let? wordGas := noOverflow (SafeMul (toWordSize wordGas) Sha3WordGas) in
  noOverflow (SafeAdd gas wordGas).

Definition gasCodeCopy : gasFunc := fun gt env memorySize =>
  let? gas := memGas memorySize in
  let? gas := noOverflow (SafeAdd gas GasFastestStep) in
  let? wordGas := backUint64 2 in
  let? wordGas := noOverflow (SafeMul (toWordSize wordGas) CopyGas) in
  noOverflow (SafeAdd gas wordGas).

Definition gasExtCodeCopy : gasFunc := fun gt env memorySize =>
  let? gas := memGas memorySize in
  let? gas := noOverflow (SafeAdd gas (gt_ExtcodeCopy gt)) in
  let? wordGas := backUint64 3 in
  let? wordGas := noOverflow (SafeMul (toWordSize wordGas) CopyGas) in
  noOverflow (SafeAdd gas wordGas).

(** [gasMLoad], [gasMStore8], [gasMStore]: any memory error is reported as an
    overflow. *)
Definition memGasOverflow (memorySize : Z) : M (Frame S) (checked Z) :=
  let* r := memGas memorySize in
  match r with inl _ => fail errGasUintOverflow | inr g => ok g end.

Definition gasMLoad : gasFunc := fun gt env memorySize =>
  let? gas := memGasOverflow memorySize in
  noOverflow (SafeAdd gas GasFastestStep).
Definition gasMStore8 : gasFunc := fun gt env memorySize =>
  let? gas := memGasOverflow memorySize in
  noOverflow (SafeAdd gas GasFastestStep).
Definition gasMStore : gasFunc := fun gt env memorySize =>
  let? gas := memGasOverflow memorySize in
  noOverflow (SafeAdd gas GasFastestStep).

Definition gasCreate : gasFunc := fun gt env memorySize =>
  let? gas := memGas memorySize in
  noOverflow (SafeAdd gas CreateGas).

Definition gasBalance : gasFunc := fun gt env memorySize => ok (gt_Balance gt).
Definition gasExtCodeSize : gasFunc := fun gt env memorySize => ok (gt_ExtcodeSize gt).
Definition gasSLoad : gasFunc := fun gt env memorySize => ok (gt_SLoad gt).

Definition gasExp : gasFunc := fun gt env memorySize =>
  let* e := s_back 1 in
  let expByteLen := (BitLen e + 7) / 8 in
  noOverflow (SafeAdd (u64 (expByteLen * gt_ExpByte gt)) GasSlowStep).

(** [evm.callGasTemp, err = callGas(gt, contract.Gas, gas, stack.Back(0))],
    then the checked addition of the result.  On an error the code stores the
    zero that [callGas] returns with it. *)
Definition chargeCall (gt : GasTable) (gas : Z) : M (Frame S) (checked Z) :=
  let* f := get in
  let* requested := s_back 0 in
  match callGas gt (c_Gas (f_contract f)) gas requested with
  | inl e => onEVM (modify (set_callGasTemp 0)) ;; fail e
  | inr temp =>
      onEVM (modify (set_callGasTemp temp)) ;;
      noOverflow (SafeAdd gas temp)
  end.

Definition gasCall : gasFunc := fun gt env memorySize =>
  let* value := s_back 2 in
  let transfersValue := negb (value =? 0) in
  let* target := s_back 1 in
  let address := BigToAddress target in
  let eip158 := IsEIP158 (env_chainConfig env) (BlockNumber (env_ctx env)) in
  let* newAccount :=
    if eip158 then
      if transfersValue then db (Empty address) else ret false
    else
      let* e := db (Exist address) in ret (negb e) in
  let gas := if newAccount then u64 (gt_Calls gt + CallNewAccountGas) else gt_Calls gt in
  let gas := if transfersValue then u64 (gas + CallValueTransferGas) else gas in
  let? memoryGas := memGas memorySize in
  let? gas := noOverflow (SafeAdd gas memoryGas) in
  chargeCall gt gas.

Definition gasCallCode : gasFunc := fun gt env memorySize =>
  let* value := s_back 2 in
  let gas := if negb (value =? 0) then u64 (gt_Calls gt + CallValueTransferGas)
             else gt_Calls gt in
  let? memoryGas := memGas memorySize in
  let? gas := noOverflow (SafeAdd gas memoryGas) in
  chargeCall gt gas.

Definition gasReturn : gasFunc := fun gt env memorySize => memGas memorySize.
Definition gasRevert : gasFunc := fun gt env memorySize => memGas memorySize.

Definition gasSuicide : gasFunc := fun gt env memorySize =>
  let num := BlockNumber (env_ctx env) in
  let* f := get in
  let self := c_self (f_contract f) in
  let* gas :=
    if IsEIP150 (env_chainConfig env) num then
      let* target := s_back 0 in
      let address := BigToAddress target in
      let* created :=
        if IsEIP158 (env_chainConfig env) num then
          let* e := db (Empty address) in
          if e then (let* bal := db (GetBalance self) in ret (negb (bal =? 0)))
          else ret false
        else
          let* e := db (Exist address) in ret (negb e) in
      ret (if (created : bool) then u64 (gt_Suicide gt + gt_CreateBySuicide gt)
           else gt_Suicide gt)
    else ret 0 in
  let* suicided := db (HasSuicided self) in
  (if suicided then ret tt else db (AddRefund SuicideRefundGas)) ;;
  ok gas.

Definition gasDelegateCall : gasFunc := fun gt env memorySize =>
  let? gas := memGas memorySize in
  let? gas := noOverflow (SafeAdd gas (gt_Calls gt)) in
  chargeCall gt gas.

Definition gasStaticCall : gasFunc := fun gt env memorySize =>
  let? gas := memGas memorySize in
  let? gas := noOverflow (SafeAdd gas (gt_Calls gt)) in
  chargeCall gt gas.

Definition gasPush : gasFunc := fun gt env memorySize => ok GasFastestStep.
Definition gasSwap : gasFunc := fun gt env memorySize => ok GasFastestStep.
Definition gasDup : gasFunc := fun gt env memorySize => ok GasFastestStep.
End gas.
