(* ===== verification/Instructions.v ===== *)
(** * core/vm/instructions.go: the execution functions

    One definition per instruction.  An execution function works on the frame,
    may call back into the EVM, and returns the bytes and the error of the Go
    function.  In-place updates of a popped or peeked cell are written as the
    value pushed or stored on top; cells given back to the integer pool
    disappear. *)

From Stdlib Require Import ZArith Lia Bool.
From S2P Require Import Prelude GoMath Params VmStack VmMemory Opcodes Analysis.
From S2P Require Import StateInterface Machine.
Local Open Scope Z_scope.
Local Open Scope go_scope.

(** ** The arithmetic of the instructions *)

(** Values as the instructions compute them, operands in popping order. *)

(** [new(big.Int).Div]: Euclidean division; the code only divides
    non-negative numbers by positive ones. *)
Definition val_div (x y : Z) : Z := if y =? 0 then 0 else U256 (x / y).

Definition val_sdiv (x0 y0 : Z) : Z :=
  let x := S256 x0 in
  let y := S256 y0 in
  if (Z.sgn y =? 0) || (Z.sgn x =? 0) then 0
  else if negb (Z.sgn x =? Z.sgn y) then U256 (- (Z.abs x / Z.abs y))
  else U256 (Z.abs x / Z.abs y).

Definition val_mod (x y : Z) : Z := if y =? 0 then 0 else U256 (x mod y).

Definition val_smod (x0 y0 : Z) : Z :=
  let x := S256 x0 in
  let y := S256 y0 in
  if Z.sgn y =? 0 then 0
  else if Z.sgn x <? 0 then U256 (- (Z.abs x mod Z.abs y))
  else U256 (Z.abs x mod Z.abs y).

(** [back] below 31: the bits above the sign bit are set or cleared. *)
Definition val_signextend (back num : Z) : Z :=
  let bit := u64 (Uint64 back * 8 + 7) in
  let mask := Z.shiftl 1 bit - 1 in
  if Z.testbit num bit then U256 (Z.lor num (Z.lnot mask))
  else U256 (Z.land num mask).

Definition bool_word (b : bool) : Z := if b then 1 else 0.

Definition val_slt (x y : Z) : Z :=
  let xneg := x >=? tt255 in
  let yneg := y >=? tt255 in
  if xneg && negb yneg then 1
  else if negb xneg && yneg then 0
  else bool_word (x <? y).

Definition val_sgt (x y : Z) : Z :=
  let xneg := x >=? tt255 in
  let yneg := y >=? tt255 in
  if xneg && negb yneg then 0
  else if negb xneg && yneg then 1
  else bool_word (x >? y).

Definition val_byte (th val : Z) : Z :=
  if th <? 32 then byteZ (Byte_ val 32 (Int64 th)) else 0.

Definition val_addmod (x y z : Z) : Z := if z >? 0 then U256 ((x + y) mod z) else 0.
Definition val_mulmod (x y z : Z) : Z := if z >? 0 then U256 ((x * y) mod z) else 0.

Definition val_shl (shift0 value0 : Z) : Z :=
  let shift := U256 shift0 in
  let value := U256 value0 in
  if shift >=? 256 then 0 else U256 (Z.shiftl value (Uint64 shift)).

Definition val_shr (shift0 value0 : Z) : Z :=
  let shift := U256 shift0 in
  let value := U256 value0 in
  if shift >=? 256 then 0 else U256 (Z.shiftr value (Uint64 shift)).

Definition val_sar (shift0 value0 : Z) : Z :=
  let shift := U256 shift0 in
  let value := S256 value0 in
  if shift >=? 256 then
    if Z.sgn value >? 0 then U256 0 else U256 (-1)
  else U256 (Z.shiftr value (Uint64 shift)).

Section instructions.
Context {C : Crypto} {S : Type} `{!StateDB S}.

Definition executionFunc : Type :=
  Env S -> Calls S -> M (Frame S) (list byte * option vmErr).

(** [return nil, nil]. *)
Definition done_nil : M (Frame S) (list byte * option vmErr) := ret ([], None).

(** [x, y := stack.pop(), stack.peek(); ...; y := op x y]. *)
Definition binop (op : Z -> Z -> Z) : executionFunc := fun env calls =>
  let* x := s_pop in
  let* y := s_peek in
  s_settop (op x y) ;; done_nil.

(** [x, y := stack.pop(), stack.pop(); ...; stack.push(op x y)]. *)
Definition binop_push (op : Z -> Z -> Z) : executionFunc := fun env calls =>
  let* x := s_pop in
  let* y := s_pop in
  s_push (op x y) ;; done_nil.

Definition opAdd : executionFunc := binop (fun x y => U256 (x + y)).
Definition opSub : executionFunc := binop (fun x y => U256 (x - y)).
Definition opMul : executionFunc := binop_push (fun x y => U256 (x * y)).
Definition opDiv : executionFunc := binop val_div.
Definition opSdiv : executionFunc := binop_push val_sdiv.
Definition opMod : executionFunc := binop_push val_mod.
Definition opSmod : executionFunc := binop_push val_smod.
Definition opExp : executionFunc := binop_push Exp.

Definition opSignExtend : executionFunc := fun env calls =>
  let* back := s_pop in
  (if back <? 31 then
     let* num := s_pop in s_push (val_signextend back num)
   else ret tt) ;;
  done_nil.

Definition opNot : executionFunc := fun env calls =>
  let* x := s_peek in
  s_settop (U256 (Z.lnot x)) ;; done_nil.

Definition opLt : executionFunc := binop (fun x y => bool_word (x <? y)).
Definition opGt : executionFunc := binop (fun x y => bool_word (x >? y)).
Definition opSlt : executionFunc := binop val_slt.
Definition opSgt : executionFunc := binop val_sgt.
Definition opEq : executionFunc := binop (fun x y => bool_word (x =? y)).

Definition opIszero : executionFunc := fun env calls =>
  let* x := s_peek in
  s_settop (bool_word (negb (Z.sgn x >? 0))) ;; done_nil.

Definition opAnd : executionFunc := binop_push Z.land.
Definition opOr : executionFunc := binop Z.lor.
Definition opXor : executionFunc := binop Z.lxor.
Definition opByte : executionFunc := binop val_byte.

(** Three pops and a push. *)
Definition ternop_push (op : Z -> Z -> Z -> Z) : executionFunc := fun env calls =>
  let* x := s_pop in
  let* y := s_pop in
  let* z := s_pop in
  s_push (op x y z) ;; done_nil.

Definition opAddmod : executionFunc := ternop_push val_addmod.
Definition opMulmod : executionFunc := ternop_push val_mulmod.

Definition opSHL : executionFunc := binop val_shl.
Definition opSHR : executionFunc := binop val_shr.
Definition opSAR : executionFunc := binop_push val_sar.

Definition opSha3 : executionFunc := fun env calls =>
  let* offset := s_pop in
  let* size := s_pop in
  let* data := m_get (Int64 offset) (Int64 size) in
  let hash := Keccak256 data in
  (if env_EnablePreimageRecording env
   then db (AddPreimage (BytesToHash hash) data) else ret tt) ;;
  s_push (SetBytes hash) ;; done_nil.

(** ** Environment of the call *)

Definition push_of (v : Env S -> Frame S -> Z) : executionFunc := fun env calls =>
  let* f := get in
  s_push (v env f) ;; done_nil.

Definition opAddress : executionFunc := push_of (fun env f => c_self (f_contract f)).

Definition opBalance : executionFunc := fun env calls =>
  let* slot := s_peek in
  let* b := db (GetBalance (BigToAddress slot)) in
  s_settop b ;; done_nil.

Definition opOrigin : executionFunc := push_of (fun env f => Origin (env_ctx env)).
Definition opCaller : executionFunc :=
  push_of (fun env f => c_CallerAddress (f_contract f)).

Definition opCallValue : executionFunc := fun env calls =>
  let* f := get in
  let* v := must (c_value (f_contract f)) in
  s_push v ;; done_nil.

Definition opCallDataLoad : executionFunc := fun env calls =>
  let* off := s_pop in
  let* f := get in
  let* d := must (getDataBig (c_Input (f_contract f)) off 32) in
  s_push (SetBytes d) ;; done_nil.

Definition opCallDataSize : executionFunc :=
  push_of (fun env f => i64 (zlen (c_Input (f_contract f)))).

Definition opCallDataCopy : executionFunc := fun env calls =>
  let* memOffset := s_pop in
  let* dataOffset := s_pop in
  let* length := s_pop in
  let* f := get in
  let* d := must (getDataBig (c_Input (f_contract f)) dataOffset length) in
  m_set (Uint64 memOffset) (Uint64 length) d ;; done_nil.

Definition opReturnDataSize : executionFunc :=
  push_of (fun env f => zlen (e_returnData (f_evm f))).

Definition opReturnDataCopy : executionFunc := fun env calls =>
  let* memOffset := s_pop in
  let* dataOffset := s_pop in
  let* length := s_pop in
  let end_ := dataOffset + length in
  let* f := get in
  let returnData := e_returnData (f_evm f) in
  if (BitLen end_ >? 64) || (zlen returnData <? Uint64 end_)
  then ret ([], Some errReturnDataOutOfBounds)
  else
    let* d := must (slice returnData (Uint64 dataOffset) (Uint64 end_)) in
    m_set (Uint64 memOffset) (Uint64 length) d ;; done_nil.

Definition opExtCodeSize : executionFunc := fun env calls =>
  let* slot := s_peek in
  let* n := db (GetCodeSize (BigToAddress slot)) in
  s_settop (u64 n) ;; done_nil.

Definition opCodeSize : executionFunc :=
  push_of (fun env f => i64 (zlen (c_Code (f_contract f)))).

Definition opCodeCopy : executionFunc := fun env calls =>
  let* memOffset := s_pop in
  let* codeOffset := s_pop in
  let* length := s_pop in
  let* f := get in
  let* codeCopy := must (getDataBig (c_Code (f_contract f)) codeOffset length) in
  m_set (Uint64 memOffset) (Uint64 length) codeCopy ;; done_nil.

Definition opExtCodeCopy : executionFunc := fun env calls =>
  let* a := s_pop in
  let addr := BigToAddress a in
  let* memOffset := s_pop in
  let* codeOffset := s_pop in
  let* length := s_pop in
  let* code := db (GetCode addr) in
  let* codeCopy := must (getDataBig code codeOffset length) in
  m_set (Uint64 memOffset) (Uint64 length) codeCopy ;; done_nil.

Definition opGasprice : executionFunc := push_of (fun env f => GasPrice (env_ctx env)).

Definition opBlockhash : executionFunc := fun env calls =>
  let* num := s_pop in
  let n := BlockNumber (env_ctx env) - 257 in
  (if (num >? n) && (num <? BlockNumber (env_ctx env))
   then s_push (GetHash (env_ctx env) (Uint64 num))
   else s_push 0) ;;
  done_nil.

Definition opCoinbase : executionFunc := push_of (fun env f => Coinbase (env_ctx env)).
Definition opTimestamp : executionFunc := push_of (fun env f => U256 (Time (env_ctx env))).
Definition opNumber : executionFunc :=
  push_of (fun env f => U256 (BlockNumber (env_ctx env))).
Definition opDifficulty : executionFunc :=
  push_of (fun env f => U256 (Difficulty (env_ctx env))).
Definition opGasLimit : executionFunc :=
  push_of (fun env f => U256 (GasLimit (env_ctx env))).

(** ** Stack, memory, storage and flow *)

Definition opPop : executionFunc := fun env calls =>
  let* _ := s_pop in done_nil.

Definition opMload : executionFunc := fun env calls =>
  let* offset := s_pop in
  let* d := m_get (Int64 offset) 32 in
  s_push (SetBytes d) ;; done_nil.

Definition opMstore : executionFunc := fun env calls =>
  let* mStart := s_pop in
  let* val := s_pop in
  let* f := get in
  let* m := must (mem_Set32 (f_mem f) (Uint64 mStart) val) in
  put (set_mem m f) ;; done_nil.

Definition opMstore8 : executionFunc := fun env calls =>
  let* off := s_pop in
  let* val := s_pop in
  let* f := get in
  let* m := must (mem_SetByte (f_mem f) (Int64 off) (Zbyte (Z.land (Int64 val) 0xff))) in
  put (set_mem m f) ;; done_nil.

Definition opSload : executionFunc := fun env calls =>
  let* loc := s_peek in
  let* f := get in
  let* val := db (GetState (c_self (f_contract f)) (BigToHash loc)) in
  s_settop val ;; done_nil.

Definition opSstore : executionFunc := fun env calls =>
  let* l := s_pop in
  let loc := BigToHash l in
  let* val := s_pop in
  let* f := get in
  db (SetState (c_self (f_contract f)) loc (BigToHash val)) ;; done_nil.

(** [contract.jumpdests.has(...)], which may extend the shared map. *)
Definition hasJumpdest (pos : Z) : M (Frame S) bool := fun f =>
  let c := f_contract f in
  match has (c_jumpdests c) (c_CodeHash c) (c_Code c) pos with
  | Ret (b, d) => Ret (b, set_contract (with_jumpdests c d) f)
  | Panic => Panic
  | OutOfFuel => OutOfFuel
  end.

(** The two exits of a taken jump. *)
Definition jumpTo (pos : Z) : M (Frame S) (list byte * option vmErr) :=
  let* valid := hasJumpdest pos in
  let* f := get in
  if (valid : bool) then put (set_pc (Uint64 pos) f) ;; done_nil
  else ret ([], Some (errInvalidJump (GetOp (f_contract f) (Uint64 pos)) pos)).

Definition opJump : executionFunc := fun env calls =>
  let* pos := s_pop in jumpTo pos.

Definition opJumpi : executionFunc := fun env calls =>
  let* pos := s_pop in
  let* cond := s_pop in
  if negb (cond =? 0) then jumpTo pos
  else modify (fun f => set_pc (u64 (f_pc f + 1)) f) ;; done_nil.

Definition opJumpdest : executionFunc := fun env calls => done_nil.
Definition opPc : executionFunc := push_of (fun env f => f_pc f).
Definition opMsize : executionFunc := push_of (fun env f => i64 (mem_Len (f_mem f))).
Definition opGas : executionFunc := push_of (fun env f => c_Gas (f_contract f)).

(** ** Calls *)

(** [contract.Gas += returnGas], and the jump map as the callee left it. *)
Definition settle (r : CallResult) : M (Frame S) unit :=
  modify (fun f =>
    let c := f_contract f in
    set_contract (with_jumpdests (with_gas c (u64 (c_Gas c + cr_gas r))) (cr_jumpdests r)) f).

Definition opCreate : executionFunc := fun env calls =>
  let* value := s_pop in
  let* offset := s_pop in
  let* size := s_pop in
  let* input := m_get (Int64 offset) (Int64 size) in
  let* f := get in
  let g0 := c_Gas (f_contract f) in
  let num := BlockNumber (env_ctx env) in
  let gas := if IsEIP150 (env_chainConfig env) num then u64 (g0 - g0 / 64) else g0 in
  put (set_contract (UseGas (f_contract f) gas).2 f) ;;
  let* '(r, addr) :=
    onEVM (evm_Create calls (contract_ref (f_contract f)) input gas value) in
  let suberr := cr_err r in
  (if IsHomestead (env_chainConfig env) num &&
      bool_decide (suberr = Some ErrCodeStoreOutOfGas) then s_push 0
   else if bool_decide (suberr <> None) &&
           negb (bool_decide (suberr = Some ErrCodeStoreOutOfGas)) then s_push 0
   else s_push addr) ;;
  settle r ;;
  if bool_decide (suberr = Some errExecutionReverted) then ret (cr_ret r, None)
  else done_nil.

(** What follows the callee in all four call instructions: the success flag,
    the copied return data, the refund of the gas left. *)
Definition finishCall (r : CallResult) (retOffset retSize : Z)
    : M (Frame S) (list byte * option vmErr) :=
  s_push (if bool_decide (cr_err r = None) then 1 else 0) ;;
  (if bool_decide (cr_err r = None) || bool_decide (cr_err r = Some errExecutionReverted)
   then m_set (Uint64 retOffset) (Uint64 retSize) (cr_ret r) else ret tt) ;;
  settle r ;;
  ret (cr_ret r, None).

Definition opCall : executionFunc := fun env calls =>
  let* _ := s_pop in
  let* f := get in
  let gas := e_callGasTemp (f_evm f) in
  let* addr := s_pop in
  let* value0 := s_pop in
  let* inOffset := s_pop in
  let* inSize := s_pop in
  let* retOffset := s_pop in
  let* retSize := s_pop in
  let toAddr := BigToAddress addr in
  let value := U256 value0 in
  let* args := m_get (Int64 inOffset) (Int64 inSize) in
  let gas := if negb (value =? 0) then u64 (gas + CallStipend) else gas in
  let* r := onEVM (evm_Call calls (contract_ref (f_contract f)) toAddr args gas value) in
  finishCall r retOffset retSize.

Definition opCallCode : executionFunc := fun env calls =>
  let* _ := s_pop in
  let* f := get in
  let gas := e_callGasTemp (f_evm f) in
  let* addr := s_pop in
  let* value0 := s_pop in
  let* inOffset := s_pop in
  let* inSize := s_pop in
  let* retOffset := s_pop in
  let* retSize := s_pop in
  let toAddr := BigToAddress addr in
  let value := U256 value0 in
  let* args := m_get (Int64 inOffset) (Int64 inSize) in
  let gas := if negb (value =? 0) then u64 (gas + CallStipend) else gas in
  let* r := onEVM (evm_CallCode calls (contract_ref (f_contract f)) toAddr args gas value) in
  finishCall r retOffset retSize.

Definition opDelegateCall : executionFunc := fun env calls =>
  let* _ := s_pop in
  let* f := get in
  let gas := e_callGasTemp (f_evm f) in
  let* addr := s_pop in
  let* inOffset := s_pop in
  let* inSize := s_pop in
  let* retOffset := s_pop in
  let* retSize := s_pop in
  let toAddr := BigToAddress addr in
  let* args := m_get (Int64 inOffset) (Int64 inSize) in
  let* r := onEVM (evm_DelegateCall calls (contract_ref (f_contract f)) toAddr args gas) in
  finishCall r retOffset retSize.

Definition opStaticCall : executionFunc := fun env calls =>
  let* _ := s_pop in
  let* f := get in
  let gas := e_callGasTemp (f_evm f) in
  let* addr := s_pop in
  let* inOffset := s_pop in
  let* inSize := s_pop in
  let* retOffset := s_pop in
  let* retSize := s_pop in
  let toAddr := BigToAddress addr in
  let* args := m_get (Int64 inOffset) (Int64 inSize) in
  let* r := onEVM (evm_StaticCall calls (contract_ref (f_contract f)) toAddr args gas) in
  finishCall r retOffset retSize.

Definition opReturn : executionFunc := fun env calls =>
  let* offset := s_pop in
  let* size := s_pop in
  let* r := m_getptr (Int64 offset) (Int64 size) in
  ret (r, None).

Definition opRevert : executionFunc := fun env calls =>
  let* offset := s_pop in
  let* size := s_pop in
  let* r := m_getptr (Int64 offset) (Int64 size) in
  ret (r, None).

Definition opStop : executionFunc := fun env calls => done_nil.

Definition opSuicide : executionFunc := fun env calls =>
  let* f := get in
  let self := c_self (f_contract f) in
  let* balance := db (GetBalance self) in
  let* b := s_pop in
  db (AddBalance (BigToAddress b) balance) ;;
  let* _ := db (Suicide self) in
  done_nil.

(** ** Instruction makers *)

(** [for i := 0; i < size; i++ { topics\[i\] = BigToHash(stack.pop()) }]. *)
Fixpoint popTopics (n : nat) : M (Frame S) (list Hash) :=
  match n with
  | O => ret []
  | Datatypes.S n' =>
      let* t := s_pop in
      let* ts := popTopics n' in
      ret (BigToHash t :: ts)
  end.

Definition makeLog (size : nat) : executionFunc := fun env calls =>
  let* mStart := s_pop in
  let* mSize := s_pop in
  let* topics := popTopics size in
  let* d := m_get (Int64 mStart) (Int64 mSize) in
  let* f := get in
  db (AddLog (emitLog (c_self (f_contract f)) topics d
                (Uint64 (BlockNumber (env_ctx env))))) ;;
  done_nil.

Definition makePush (size pushByteSize : Z) : executionFunc := fun env calls =>
  let* f := get in
  let code := c_Code (f_contract f) in
  let codeLen := zlen code in
  let pc1 := i64 (u64 (f_pc f + 1)) in
  let startMin := if pc1 <? codeLen then pc1 else codeLen in
  let endMin := if startMin + pushByteSize <? codeLen
                then startMin + pushByteSize else codeLen in
  let* d := must (slice code startMin endMin) in
  s_push (SetBytes (RightPadBytes d pushByteSize)) ;;
  modify (fun f => set_pc (u64 (f_pc f + size)) f) ;;
  done_nil.

Definition makeDup (size : nat) : executionFunc := fun env calls =>
  let* f := get in
  let* st := must (dup size (f_stack f)) in
  put (set_stack st f) ;; done_nil.

(** The code switches [size + 1] so that [n] is not swapped with itself. *)
Definition makeSwap (size : nat) : executionFunc := fun env calls =>
  let* f := get in
  let* st := must (swap (Datatypes.S size) (f_stack f)) in
  put (set_stack st f) ;; done_nil.
End instructions.
