(* ===== verification/JumpTable.v ===== *)
(** * core/vm/jump_table.go: the instruction sets

    An [operation] is the record of the source.  The frontier set is given as
    the list of its entries, in the groups in which the source lists them; an
    opcode without an entry is the zero record, whose [valid] is [false].  The
    later sets overwrite entries. *)

From Stdlib Require Import ZArith Lia Bool.
From S2P Require Import Prelude GoMath Params VmStack VmMemory Opcodes Analysis.
From S2P Require Import StateInterface Machine Gas Instructions.
Local Open Scope Z_scope.
Local Open Scope go_scope.

Section jump_table.
Context {C : Crypto} {S : Type} `{!StateDB S}.

Record operation := mkOperation {
  op_execute : executionFunc (S := S);
  op_gasCost : gasFunc (S := S);
  op_validateStack : Stack -> option vmErr;
  op_memorySize : option (Stack -> option Z);
  op_halts : bool;
  op_jumps : bool;
  op_writes : bool;
  op_valid : bool;
  op_reverts : bool;
  op_returns : bool
}.

(** The zero record: its function fields are [nil], calling them panics. *)
Definition invalid_operation : operation :=
  mkOperation (fun _ _ => panic) (fun _ _ _ => panic) (fun _ => None) None
    false false false false false false.

Definition JumpTable : Type := Z -> operation.

Definition tableOf (entries : list (Z * operation)) : JumpTable := fun op =>
  match find (fun e => e.1 =? op) entries with
  | Some e => e.2
  | None => invalid_operation
  end.

(** [instructionSet\[op\] = o]. *)
Definition overwrite (t : JumpTable) (op : Z) (o : operation) : JumpTable :=
  fun op' => if op' =? op then o else t op'.

(** STOP to SIGNEXTEND. *)
Definition frontier_arithmetic : list (Z * operation) :=
  [ (STOP, mkOperation opStop (constGasFunc 0) (makeStackFunc 0 0) None
      true false false true false false);
    (ADD, mkOperation opAdd (constGasFunc GasFastestStep) (makeStackFunc 2 1) None
      false false false true false false);
    (MUL, mkOperation opMul (constGasFunc GasFastStep) (makeStackFunc 2 1) None
      false false false true false false);
    (SUB, mkOperation opSub (constGasFunc GasFastestStep) (makeStackFunc 2 1) None
      false false false true false false);
    (DIV, mkOperation opDiv (constGasFunc GasFastStep) (makeStackFunc 2 1) None
      false false false true false false);
    (SDIV, mkOperation opSdiv (constGasFunc GasFastStep) (makeStackFunc 2 1) None
      false false false true false false);
    (MOD, mkOperation opMod (constGasFunc GasFastStep) (makeStackFunc 2 1) None
      false false false true false false);
    (SMOD, mkOperation opSmod (constGasFunc GasFastStep) (makeStackFunc 2 1) None
      false false false true false false);
    (ADDMOD, mkOperation opAddmod (constGasFunc GasMidStep) (makeStackFunc 3 1) None
      false false false true false false);
    (MULMOD, mkOperation opMulmod (constGasFunc GasMidStep) (makeStackFunc 3 1) None
      false false false true false false);
    (EXP, mkOperation opExp gasExp (makeStackFunc 2 1) None
      false false false true false false);
    (SIGNEXTEND, mkOperation opSignExtend (constGasFunc GasFastStep) (makeStackFunc 2 1) None
      false false false true false false) ].

(** LT to BYTE. *)
Definition frontier_comparison : list (Z * operation) :=
  [ (LT, mkOperation opLt (constGasFunc GasFastestStep) (makeStackFunc 2 1) None
      false false false true false false);
    (GT, mkOperation opGt (constGasFunc GasFastestStep) (makeStackFunc 2 1) None
      false false false true false false);
    (SLT, mkOperation opSlt (constGasFunc GasFastestStep) (makeStackFunc 2 1) None
      false false false true false false);
    (SGT, mkOperation opSgt (constGasFunc GasFastestStep) (makeStackFunc 2 1) None
      false false false true false false);
    (EQ, mkOperation opEq (constGasFunc GasFastestStep) (makeStackFunc 2 1) None
      false false false true false false);
    (ISZERO, mkOperation opIszero (constGasFunc GasFastestStep) (makeStackFunc 1 1) None
      false false false true false false);
    (AND, mkOperation opAnd (constGasFunc GasFastestStep) (makeStackFunc 2 1) None
      false false false true false false);
    (XOR, mkOperation opXor (constGasFunc GasFastestStep) (makeStackFunc 2 1) None
      false false false true false false);
    (OR, mkOperation opOr (constGasFunc GasFastestStep) (makeStackFunc 2 1) None
      false false false true false false);
    (NOT, mkOperation opNot (constGasFunc GasFastestStep) (makeStackFunc 1 1) None
      false false false true false false);
    (BYTE, mkOperation opByte (constGasFunc GasFastestStep) (makeStackFunc 2 1) None
      false false false true false false) ].

(** SHA3 to EXTCODECOPY. *)
Definition frontier_environment : list (Z * operation) :=
  [ (SHA3, mkOperation opSha3 gasSha3 (makeStackFunc 2 1) (Some memorySha3)
      false false false true false false);
    (ADDRESS, mkOperation opAddress (constGasFunc GasQuickStep) (makeStackFunc 0 1) None
      false false false true false false);
    (BALANCE, mkOperation opBalance gasBalance (makeStackFunc 1 1) None
      false false false true false false);
    (ORIGIN, mkOperation opOrigin (constGasFunc GasQuickStep) (makeStackFunc 0 1) None
      false false false true false false);
    (CALLER, mkOperation opCaller (constGasFunc GasQuickStep) (makeStackFunc 0 1) None
      false false false true false false);
    (CALLVALUE, mkOperation opCallValue (constGasFunc GasQuickStep) (makeStackFunc 0 1) None
      false false false true false false);
    (CALLDATALOAD, mkOperation opCallDataLoad (constGasFunc GasFastestStep) (makeStackFunc 1 1) None
      false false false true false false);
    (CALLDATASIZE, mkOperation opCallDataSize (constGasFunc GasQuickStep) (makeStackFunc 0 1) None
      false false false true false false);
    (CALLDATACOPY, mkOperation opCallDataCopy gasCallDataCopy (makeStackFunc 3 0) (Some memoryCallDataCopy)
      false false false true false false);
    (CODESIZE, mkOperation opCodeSize (constGasFunc GasQuickStep) (makeStackFunc 0 1) None
      false false false true false false);
    (CODECOPY, mkOperation opCodeCopy gasCodeCopy (makeStackFunc 3 0) (Some memoryCodeCopy)
      false false false true false false);
    (GASPRICE, mkOperation opGasprice (constGasFunc GasQuickStep) (makeStackFunc 0 1) None
      false false false true false false);
    (EXTCODESIZE, mkOperation opExtCodeSize gasExtCodeSize (makeStackFunc 1 1) None
      false false false true false false);
    (EXTCODECOPY, mkOperation opExtCodeCopy gasExtCodeCopy (makeStackFunc 4 0) (Some memoryExtCodeCopy)
      false false false true false false) ].

(** BLOCKHASH to GASLIMIT. *)
Definition frontier_block : list (Z * operation) :=
  [ (BLOCKHASH, mkOperation opBlockhash (constGasFunc GasExtStep) (makeStackFunc 1 1) None
      false false false true false false);
    (COINBASE, mkOperation opCoinbase (constGasFunc GasQuickStep) (makeStackFunc 0 1) None
      false false false true false false);
    (TIMESTAMP, mkOperation opTimestamp (constGasFunc GasQuickStep) (makeStackFunc 0 1) None
      false false false true false false);
    (NUMBER, mkOperation opNumber (constGasFunc GasQuickStep) (makeStackFunc 0 1) None
      false false false true false false);
    (DIFFICULTY, mkOperation opDifficulty (constGasFunc GasQuickStep) (makeStackFunc 0 1) None
      false false false true false false);
    (GASLIMIT, mkOperation opGasLimit (constGasFunc GasQuickStep) (makeStackFunc 0 1) None
      false false false true false false) ].

(** POP to JUMPDEST. *)
Definition frontier_flow : list (Z * operation) :=
  [ (POP, mkOperation opPop (constGasFunc GasQuickStep) (makeStackFunc 1 0) None
      false false false true false false);
    (MLOAD, mkOperation opMload gasMLoad (makeStackFunc 1 1) (Some memoryMLoad)
      false false false true false false);
    (MSTORE, mkOperation opMstore gasMStore (makeStackFunc 2 0) (Some memoryMStore)
      false false false true false false);
    (MSTORE8, mkOperation opMstore8 gasMStore8 (makeStackFunc 2 0) (Some memoryMStore8)
      false false false true false false);
    (SLOAD, mkOperation opSload gasSLoad (makeStackFunc 1 1) None
      false false false true false false);
    (SSTORE, mkOperation opSstore gasSStore (makeStackFunc 2 0) None
      false false true true false false);
    (JUMP, mkOperation opJump (constGasFunc GasMidStep) (makeStackFunc 1 0) None
      false true false true false false);
    (JUMPI, mkOperation opJumpi (constGasFunc GasSlowStep) (makeStackFunc 2 0) None
      false true false true false false);
    (PC, mkOperation opPc (constGasFunc GasQuickStep) (makeStackFunc 0 1) None
      false false false true false false);
    (MSIZE, mkOperation opMsize (constGasFunc GasQuickStep) (makeStackFunc 0 1) None
      false false false true false false);
    (GAS, mkOperation opGas (constGasFunc GasQuickStep) (makeStackFunc 0 1) None
      false false false true false false);
    (JUMPDEST, mkOperation opJumpdest (constGasFunc JumpdestGas) (makeStackFunc 0 0) None
      false false false true false false) ].

(** PUSH1 to PUSH32. *)
Definition pushOperation (i : nat) : operation :=
  mkOperation (makePush (Z.of_nat i) (Z.of_nat i)) gasPush (makeStackFunc 0 1) None
    false false false true false false.
Definition frontier_push : list (Z * operation) :=
  map (fun i => (PUSH1 + Z.of_nat i - 1, pushOperation i)) (seq 1 32).

(** DUP1 to DUP16. *)
Definition dupOperation (i : nat) : operation :=
  mkOperation (makeDup i) gasDup (makeDupStackFunc (Z.of_nat i)) None
    false false false true false false.
Definition frontier_dup : list (Z * operation) :=
  map (fun i => (DUP1 + Z.of_nat i - 1, dupOperation i)) (seq 1 16).

(** SWAP1 to SWAP16. *)
Definition swapOperation (i : nat) : operation :=
  mkOperation (makeSwap i) gasSwap (makeSwapStackFunc (Z.of_nat i + 1)) None
    false false false true false false.
Definition frontier_swap : list (Z * operation) :=
  map (fun i => (SWAP1 + Z.of_nat i - 1, swapOperation i)) (seq 1 16).

(** LOG0 to LOG4. *)
Definition frontier_log : list (Z * operation) :=
  [ (LOG0, mkOperation (makeLog 0) (makeGasLog 0) (makeStackFunc 2 0) (Some memoryLog)
      false false true true false false);
    (LOG1, mkOperation (makeLog 1) (makeGasLog 1) (makeStackFunc 3 0) (Some memoryLog)
      false false true true false false);
    (LOG2, mkOperation (makeLog 2) (makeGasLog 2) (makeStackFunc 4 0) (Some memoryLog)
      false false true true false false);
    (LOG3, mkOperation (makeLog 3) (makeGasLog 3) (makeStackFunc 5 0) (Some memoryLog)
      false false true true false false);
    (LOG4, mkOperation (makeLog 4) (makeGasLog 4) (makeStackFunc 6 0) (Some memoryLog)
      false false true true false false) ].

(** CREATE to SELFDESTRUCT. *)
Definition frontier_closure : list (Z * operation) :=
  [ (CREATE, mkOperation opCreate gasCreate (makeStackFunc 3 1) (Some memoryCreate)
      false false true true false true);
    (CALL, mkOperation opCall gasCall (makeStackFunc 7 1) (Some memoryCall)
      false false false true false true);
    (CALLCODE, mkOperation opCallCode gasCallCode (makeStackFunc 7 1) (Some memoryCall)
      false false false true false true);
    (RETURN, mkOperation opReturn gasReturn (makeStackFunc 2 0) (Some memoryReturn)
      true false false true false false);
    (SELFDESTRUCT, mkOperation opSuicide gasSuicide (makeStackFunc 1 0) None
      true false true true false false) ].

Definition frontier_entries : list (Z * operation) :=
  frontier_arithmetic ++ frontier_comparison ++ frontier_environment ++
  frontier_block ++ frontier_flow ++ frontier_push ++ frontier_dup ++
  frontier_swap ++ frontier_log ++ frontier_closure.

Definition newFrontierInstructionSet : JumpTable := tableOf frontier_entries.

Definition newHomesteadInstructionSet : JumpTable :=
  overwrite newFrontierInstructionSet DELEGATECALL
    (mkOperation opDelegateCall gasDelegateCall (makeStackFunc 6 1) (Some memoryDelegateCall)
      false false false true false true).

Definition newByzantiumInstructionSet : JumpTable :=
  overwrite (overwrite (overwrite (overwrite newHomesteadInstructionSet STATICCALL
    (mkOperation opStaticCall gasStaticCall (makeStackFunc 6 1) (Some memoryStaticCall)
      false false false true false true)) RETURNDATASIZE
    (mkOperation opReturnDataSize (constGasFunc GasQuickStep) (makeStackFunc 0 1) None
      false false false true false false)) RETURNDATACOPY
    (mkOperation opReturnDataCopy gasReturnDataCopy (makeStackFunc 3 0) (Some memoryReturnDataCopy)
      false false false true false false)) REVERT
    (mkOperation opRevert gasRevert (makeStackFunc 2 0) (Some memoryRevert)
      false false false true true true).

Definition newConstantinopleInstructionSet : JumpTable :=
  overwrite (overwrite (overwrite newByzantiumInstructionSet SHL
    (mkOperation opSHL (constGasFunc GasFastestStep) (makeStackFunc 2 1) None
      false false false true false false)) SHR
    (mkOperation opSHR (constGasFunc GasFastestStep) (makeStackFunc 2 1) None
      false false false true false false)) SAR
    (mkOperation opSAR (constGasFunc GasFastestStep) (makeStackFunc 2 1) None
      false false false true false false).

(** The switch of [NewInterpreter] for a configuration that leaves the jump
    table uninitialised. *)
Definition jumpTable (env : Env S) : JumpTable :=
  let cfg := env_chainConfig env in
  let num := BlockNumber (env_ctx env) in
  if IsConstantinople cfg num then newConstantinopleInstructionSet
  else if IsByzantium cfg num then newByzantiumInstructionSet
  else if IsHomestead cfg num then newHomesteadInstructionSet
  else newFrontierInstructionSet.
End jump_table.
Arguments operation {C} S.
Arguments JumpTable {C} S.
