(* ===== verification/Precompiles.v ===== *)
(** * core/vm/contracts.go: the precompiled contracts

    A precompile prices its input ([RequiredGas]) and runs it ([Run]).  [None]
    is a panic.  The curve and hash primitives are those of [Crypto]; the
    modular exponentiation is the real one.

    Shown: every precompile that is paid for with less than 2^60 gas returns
    (the windows [bigModExp] cuts out of its input stay in the range of an
    [int]), the price of [bigModExp] bounds the lengths its input declares, and
    its result is [base ^ exp mod m] on the declared windows of the zero-padded
    input. *)

From Stdlib Require Import ZArith Lia Bool Zpow_facts.
From S2P Require Import Prelude GoMath Params VmStack VmMemory StateInterface Machine.
Local Open Scope Z_scope.
Local Open Scope go_scope.

(** ** crypto/crypto.go: signature values *)

Definition secp256k1N : Z :=
  0xfffffffffffffffffffffffffffffffebaaedce6af48a03bbfd25e8cd0364141.
Definition secp256k1halfN : Z := secp256k1N / 2.

Definition ValidateSignatureValues (v r s : Z) (homestead : bool) : bool :=
  if (r <? 1) || (s <? 1) then false
  else if homestead && (s >? secp256k1halfN) then false
  else (r <? secp256k1N) && (s <? secp256k1N) && ((v =? 0) || (v =? 1)).

(** ** bigModExp *)

(** [if len(input) > 96 { input = input\[96:\] } else { input = input\[:0\] }]. *)
Definition modexp_body (input : list byte) : list byte :=
  if zlen input >? 96 then drop 96 input else [].

(** [new(big.Int).SetBytes(getData(input, start, size))]. *)
Definition bigData (input : list byte) (start size : Z) : option Z :=
  match getData input start size with Some d => Some (SetBytes d) | None => None end.

(** The three-way formula for the cost of a multiplication. *)
Definition modexp_multComplexity (gas : Z) : Z :=
  if gas <=? 64 then gas * gas
  else if gas <=? 1024 then gas * gas / 4 + (96 * gas - 3072)
  else gas * gas / 16 + (480 * gas - 199680).

Definition modexp_adjExpLen (expLen expHead : Z) : Z :=
  let bitlen := BitLen expHead in
  let msb := if bitlen >? 0 then bitlen - 1 else 0 in
  (if expLen >? 32 then 8 * (expLen - 32) else 0) + msb.

Definition bigModExp_RequiredGas (input : list byte) : option Z :=
  match bigData input 0 32, bigData input 32 32, bigData input 64 32 with
  | Some baseLen, Some expLen, Some modLen =>
      let input := modexp_body input in
      match
        (if zlen input <=? baseLen then Some 0
         else if expLen >? 32 then bigData input (Uint64 baseLen) 32
         else bigData input (Uint64 baseLen) (Uint64 expLen))
      with
      | None => None
      | Some expHead =>
          let adjExpLen := modexp_adjExpLen expLen expHead in
          let gas := modexp_multComplexity (BigMax modLen baseLen) in
          let gas := gas * BigMax adjExpLen 1 / ModExpQuadCoeffDiv in
          Some (if BitLen gas >? 64 then MaxUint64 else Uint64 gas)
      end
  | _, _, _ => None
  end.

Definition bigModExp_Run (input : list byte) : option (list byte * option vmErr) :=
  match bigData input 0 32, bigData input 32 32, bigData input 64 32 with
  | Some baseLen, Some expLen, Some modLen =>
      let baseLen := Uint64 baseLen in
      let expLen := Uint64 expLen in
      let modLen := Uint64 modLen in
      let input := modexp_body input in
      if (baseLen =? 0) && (modLen =? 0) then Some ([], None)
      else
        match bigData input 0 baseLen, bigData input baseLen expLen,
              bigData input (baseLen +u expLen) modLen with
        | Some base, Some exp, Some m =>
            if BitLen m =? 0 then Some (LeftPadBytes [] (i64 modLen), None)
            else Some (LeftPadBytes (Bytes (Zpow_mod base exp m)) (i64 modLen), None)
        | _, _, _ => None
        end
  | _, _, _ => None
  end.

Section precompiles.
Context {C : Crypto}.

(** ** ecrecover *)

(** The result, and the bytes of [input] after the call: [append] writes [v]
    behind [input\[64:128\]], into the caller's array when that is longer than
    128 bytes. *)
Definition ecrecover_Run (input0 : list byte)
    : option (list byte * option vmErr * list byte) :=
  let input := RightPadBytes input0 128 in
  match slice input 64 96, slice input 96 128, index input 63, slice input 32 63,
        slice input 0 32, slice input 64 128 with
  | Some rb, Some sb, Some v0, Some zeros, Some hash, Some rs =>
      let v := (byteZ v0 - 27) mod 256 in
      if negb (allZero zeros) ||
         negb (ValidateSignatureValues v (SetBytes rb) (SetBytes sb) false)
      then Some ([], None, input0)
      else
        let input1 := if zlen input0 >? 128 then <[128%nat := Zbyte v]> input0
                      else input0 in
        match Ecrecover hash (rs ++ [Zbyte v]) with
        | None => Some ([], None, input1)
        | Some pubKey =>
            match slice pubKey 1 (zlen pubKey) with
            | None => None
            | Some key =>
                match slice (Keccak256 key) 12 (zlen (Keccak256 key)) with
                | None => None
                | Some a => Some (LeftPadBytes a 32, None, input1)
                end
            end
        end
  | _, _, _, _, _, _ => None
  end.

(** ** bn256 *)

Definition newCurvePoint (blob : list byte) : option G1 := G1_Unmarshal blob.
Definition newTwistPoint (blob : list byte) : option G2 := G2_Unmarshal blob.

Definition bn256Add_Run (input : list byte) : option (list byte * option vmErr) :=
  match getData input 0 64, getData input 64 64 with
  | Some bx, Some b_y =>
      match newCurvePoint bx with
      | None => Some ([], Some errCurvePoint)
      | Some x =>
          match newCurvePoint b_y with
          | None => Some ([], Some errCurvePoint)
          | Some y => Some (G1_Marshal (G1_Add x y), None)
          end
      end
  | _, _ => None
  end.

Definition bn256ScalarMul_Run (input : list byte) : option (list byte * option vmErr) :=
  match getData input 0 64, bigData input 64 32 with
  | Some bp, Some k =>
      match newCurvePoint bp with
      | None => Some ([], Some errCurvePoint)
      | Some p => Some (G1_Marshal (G1_ScalarMult p k), None)
      end
  | _, _ => None
  end.

Definition true32Byte : list byte := replicate 31 x00 ++ [x01].
Definition false32Byte : list byte := replicate 32 x00.

(** The loop over the 192-byte blocks; [fuel] bounds their number. *)
Fixpoint pairingPoints (fuel : nat) (input : list byte)
    : option (vmErr + list (G1 * G2)) :=
  match fuel, input with
  | _, [] => Some (inr [])
  | O, _ => None
  | S f, _ =>
      match slice input 0 64, slice input 64 192 with
      | Some b1, Some b2 =>
          match newCurvePoint b1, newTwistPoint b2 with
          | Some c, Some t =>
              match pairingPoints f (drop 192 input) with
              | Some (inr rest) => Some (inr ((c, t) :: rest))
              | r => r
              end
          | _, _ => Some (inl errCurvePoint)
          end
      | _, _ => None
      end
  end.

Definition bn256Pairing_Run (input : list byte) : option (list byte * option vmErr) :=
  if zlen input mod 192 >? 0 then Some ([], Some errBadPairingInput)
  else
    match pairingPoints (Z.to_nat (zlen input / 192)) input with
    | None => None
    | Some (inl e) => Some ([], Some e)
    | Some (inr points) =>
        Some (if PairingCheck points then true32Byte else false32Byte, None)
    end.

(** ** The tables *)

Inductive precompile :=
| ecrecover | sha256hash | ripemd160hash | dataCopy
| bigModExp | bn256Add | bn256ScalarMul | bn256Pairing.

Definition perWordGas (input : list byte) (perWord base : Z) : Z :=
  (zlen input + 31) / 32 *u perWord +u base.

Definition RequiredGas (p : precompile) (input : list byte) : option Z :=
  match p with
  | ecrecover => Some EcrecoverGas
  | sha256hash => Some (perWordGas input Sha256PerWordGas Sha256BaseGas)
  | ripemd160hash => Some (perWordGas input Ripemd160PerWordGas Ripemd160BaseGas)
  | dataCopy => Some (perWordGas input IdentityPerWordGas IdentityBaseGas)
  | bigModExp => bigModExp_RequiredGas input
  | bn256Add => Some Bn256AddGas
  | bn256ScalarMul => Some Bn256ScalarMulGas
  | bn256Pairing =>
      Some (Bn256PairingBaseGas +u (zlen input / 192 *u Bn256PairingPerPointGas))
  end.

Definition precompile_Run (p : precompile) (input : list byte)
    : option (list byte * option vmErr) :=
  match p with
  | ecrecover =>
      match ecrecover_Run input with Some (r, e, _) => Some (r, e) | None => None end
  | sha256hash => Some (Sha256 input, None)
  | ripemd160hash => Some (LeftPadBytes (Ripemd160 input) 32, None)
  | dataCopy => Some (input, None)
  | bigModExp => bigModExp_Run input
  | bn256Add => bn256Add_Run input
  | bn256ScalarMul => bn256ScalarMul_Run input
  | bn256Pairing => bn256Pairing_Run input
  end.

Definition PrecompiledContractsHomestead (a : Address) : option precompile :=
  if a =? 1 then Some ecrecover
  else if a =? 2 then Some sha256hash
  else if a =? 3 then Some ripemd160hash
  else if a =? 4 then Some dataCopy
  else None.

Definition PrecompiledContractsByzantium (a : Address) : option precompile :=
  if a =? 1 then Some ecrecover
  else if a =? 2 then Some sha256hash
  else if a =? 3 then Some ripemd160hash
  else if a =? 4 then Some dataCopy
  else if a =? 5 then Some bigModExp
  else if a =? 6 then Some bn256Add
  else if a =? 7 then Some bn256ScalarMul
  else if a =? 8 then Some bn256Pairing
  else None.

(** The result, and the contract with the price deducted. *)
Definition RunPrecompiledContract (p : precompile) (input : list byte)
    (contract : Contract) : option (list byte * option vmErr * Contract) :=
  match RequiredGas p input with
  | None => None
  | Some gas =>
      let '(paid, contract') := UseGas contract gas in
      if paid then
        match precompile_Run p input with
        | None => None
        | Some (r, e) => Some (r, e, contract')
        end
      else Some ([], Some ErrOutOfGas, contract')
  end.
End precompiles.

(** ** Lemmas: bigModExp *)

Lemma bigData_padded input start size :
  zlen input < 2 ^ 63 -> 0 <= start -> 0 <= size < 2 ^ 63 ->
  bigData input start size = Some (SetBytes (padded input (Z.min start (zlen input)) size)).
Proof. intros. unfold bigData. by rewrite getData_padded. Qed.

Lemma zlen_modexp_body input : zlen (modexp_body input) <= zlen input.
Proof.
  unfold modexp_body. pose proof (zlen_nonneg input).
  split_if; [|done]. unfold zlen. rewrite length_drop. lia.
Qed.

(** The three length words in front of the operands. *)
Definition modexp_len (input : list byte) (start : Z) : Z :=
  SetBytes (padded input (Z.min start (zlen input)) 32).

Lemma modexp_len_word input start : is_word (modexp_len input start).
Proof. apply SetBytes_word. by rewrite zlen_padded. Qed.

(** The multiplication cost dominates the size. *)
Lemma multComplexity_lower x :
  0 <= x -> (1 <= x -> 1 <= modexp_multComplexity x) /\
  (2 ^ 36 <= x -> 2 ^ 68 <= modexp_multComplexity x) /\ 0 <= modexp_multComplexity x.
Proof.
  intros H. unfold modexp_multComplexity. repeat split_if.
  - nia.
  - pose proof (Z.div_pos (x * x) 4 ltac:(nia) ltac:(lia)). lia.
  - pose proof (Z.div_pos (x * x) 16 ltac:(nia) ltac:(lia)). repeat split; try lia.
    intros Hx. assert (2 ^ 68 <= x * x / 16); [|lia].
    apply Z.div_le_lower_bound; nia.
Qed.

Lemma bigModExp_RequiredGas_some input :
  zlen input < 2 ^ 63 ->
  exists expHead, 0 <= expHead /\
    let g := modexp_multComplexity (BigMax (modexp_len input 64) (modexp_len input 0)) *
             BigMax (modexp_adjExpLen (modexp_len input 32) expHead) 1
             / ModExpQuadCoeffDiv in
    bigModExp_RequiredGas input = Some (if BitLen g >? 64 then MaxUint64 else Uint64 g).
Proof.
  intros Hl. unfold bigModExp_RequiredGas.
  rewrite !bigData_padded by lia.
  fold (modexp_len input 0) (modexp_len input 32) (modexp_len input 64).
  pose proof (zlen_modexp_body input). pose proof (modexp_len_word input 32) as Hw.
  unfold is_word in Hw. cbv zeta.
  assert (0 <= Uint64 (modexp_len input 0)) by apply Uint64_u64.
  destruct (_ <=? modexp_len input 0); [by exists 0|].
  split_if; rewrite bigData_padded; try lia.
  1, 2: eexists; split; [apply SetBytes_range|reflexivity].
  rewrite Uint64_exact by (try apply BitLen_le; lia). lia.
Qed.

(** What is paid for with less than 2^60 gas is small, unless base and modulus
    are both empty. *)
Lemma bigModExp_gas_bounds input g :
  zlen input < 2 ^ 63 -> bigModExp_RequiredGas input = Some g -> g < 2 ^ 60 ->
  (modexp_len input 0 = 0 /\ modexp_len input 64 = 0) \/
  (modexp_len input 0 < 2 ^ 36 /\ modexp_len input 64 < 2 ^ 36 /\
   modexp_len input 32 < 2 ^ 62).
Proof.
  intros Hl Hg Hb. destruct (bigModExp_RequiredGas_some input Hl) as (h & Hh & E).
  rewrite Hg in E. apply (inj Some) in E. revert E.
  pose proof (modexp_len_word input 0) as H0. pose proof (modexp_len_word input 64) as H1.
  pose proof (modexp_len_word input 32) as H2. unfold is_word in *.
  set (x := BigMax (modexp_len input 64) (modexp_len input 0)).
  set (a := BigMax (modexp_adjExpLen (modexp_len input 32) h) 1).
  assert (0 <= x /\ modexp_len input 0 <= x /\ modexp_len input 64 <= x) as (Hx & Hx0 & Hx1).
  { unfold x, BigMax. split_if; lia. }
  assert (1 <= a /\ 8 * (modexp_len input 32 - 32) <= a) as [Ha Ha2].
  { unfold a, BigMax, modexp_adjExpLen. pose proof (BitLen_nonneg h). cbv zeta.
    destruct (modexp_len input 32 >? 32) eqn:?; destruct (BitLen h >? 0) eqn:?;
      zbool; split_if; lia. }
  destruct (multComplexity_lower x Hx) as (Hc1 & Hc2 & Hc0).
  set (c := modexp_multComplexity x) in *. cbv zeta. intros E.
  assert (c * a < 20 * 2 ^ 60) as Hca.
  { assert (c * a / ModExpQuadCoeffDiv < 2 ^ 60) as Hd.
    { assert (0 <= c * a / ModExpQuadCoeffDiv) by (apply Z.div_pos; [nia|done]).
      revert E. split_if; intros ->; [unfold MaxUint64 in Hb; lia|].
      by rewrite Uint64_exact in Hb by lia. }
    unfold ModExpQuadCoeffDiv in Hd.
    pose proof (Z.div_mod (c * a) 20 ltac:(lia)).
    pose proof (Z.mod_pos_bound (c * a) 20 ltac:(lia)). lia. }
  destruct (decide (x = 0)) as [->|Hne]; [left; lia|right].
  assert (x < 2 ^ 36) by (destruct (Z.lt_ge_cases x (2 ^ 36)); [done|nia]).
  repeat split; try lia. assert (a < 20 * 2 ^ 60) by nia. lia.
Qed.

(** The operands as windows of the padded input behind the three lengths. *)
Definition modexp_operand (input : list byte) (start size : Z) : Z :=
  let body := modexp_body input in
  SetBytes (padded body (Z.min start (zlen body)) size).

Lemma bigModExp_Run_eq input g :
  zlen input < 2 ^ 62 -> bigModExp_RequiredGas input = Some g -> g < 2 ^ 60 ->
  let bl := modexp_len input 0 in
  let el := modexp_len input 32 in
  let ml := modexp_len input 64 in
  let m := modexp_operand input (bl + el) ml in
  bigModExp_Run input =
    Some (if (bl =? 0) && (ml =? 0) then []
          else if m =? 0 then replicate (Z.to_nat ml) x00
          else be_bytes (Z.to_nat ml)
                 ((modexp_operand input 0 bl ^ modexp_operand input bl el) mod m), None).
Proof.
  intros Hl Hg Hb bl el ml m. unfold bigModExp_Run.
  rewrite !bigData_padded by lia. fold (modexp_len input 0) (modexp_len input 32)
    (modexp_len input 64). fold bl el ml. cbv zeta.
  destruct (bigModExp_gas_bounds input g ltac:(lia) Hg Hb) as [[H0 H1]|(H0 & H1 & H2)].
  { fold bl in H0. fold ml in H1. by rewrite H0, H1. }
  pose proof (modexp_len_word input 0) as W0. pose proof (modexp_len_word input 64) as W1.
  pose proof (modexp_len_word input 32) as W2. unfold is_word in *.
  fold bl in H0, W0. fold ml in H1, W1. fold el in H2, W2.
  rewrite !Uint64_exact by (try apply BitLen_le; lia). split_if; [done|].
  pose proof (zlen_modexp_body input).
  rewrite (u64_small (bl + el)) by (unfold is_u64; lia).
  rewrite !bigData_padded by lia. rewrite i64_small by lia.
  fold (modexp_operand input 0 bl) (modexp_operand input bl el)
    (modexp_operand input (bl + el) ml). fold m.
  assert (0 <= m < 256 ^ ml) as Hm.
  { pose proof (SetBytes_range (padded (modexp_body input)
      (Z.min (bl + el) (zlen (modexp_body input))) ml)) as Hr.
    rewrite zlen_padded in Hr by lia. exact Hr. }
  assert ((BitLen m =? 0) = (m =? 0)) as ->.
  { unfold BitLen. destruct (m =? 0) eqn:Em; [done|].
    pose proof (Z.log2_nonneg (Z.abs m)). lia. }
  split_if.
  - do 2 f_equal. unfold LeftPadBytes. change (zlen []) with 0.
    rewrite Z.sub_0_r, app_nil_r. split_if; [|done]. by replace ml with 0 by lia.
  - rewrite Zpow_mod_correct by done. do 2 f_equal. apply LeftPad_Bytes; [lia|].
    match goal with |- context [?e mod m] => pose proof (Z.mod_pos_bound e m) end. lia.
Qed.

(** ** Lemmas: every precompile returns *)

Section precompiles_ok.
Context {C : Crypto} {CS : CryptoSizes C}.

Lemma ecrecover_Run_ok input :
  exists r input', ecrecover_Run input = Some (r, None, input') /\ zlen r <= 32.
Proof.
  unfold ecrecover_Run.
  pose proof (zlen_RightPadBytes input 128) as Hl. set (i := RightPadBytes input 128) in *.
  rewrite !slice_Some by lia. destruct (index_Some i 63) as [v ->]; [lia|].
  cbv zeta. split_if; [by eexists _, _|].
  destruct (Ecrecover _ _) as [pk|] eqn:Ek; [|by eexists _, _].
  pose proof (Ecrecover_length _ _ _ Ek). rewrite slice_Some by lia.
  rewrite slice_Some by (rewrite Keccak256_length; lia).
  eexists _, _. split; [done|]. rewrite zlen_LeftPadBytes, Keccak256_length.
  unfold zlen. rewrite length_take. lia.
Qed.

Lemma pairingPoints_ok n : forall input,
  zlen input = 192 * Z.of_nat n -> exists r, pairingPoints n input = Some r.
Proof.
  induction n as [|n IH]; intros input Hl.
  - destruct input; [by eexists|]. rewrite zlen_cons in Hl.
    pose proof (zlen_nonneg input). lia.
  - destruct input as [|b input']; [by eexists|]. cbn [pairingPoints].
    set (input := b :: input') in *. rewrite !slice_Some by lia.
    destruct (newCurvePoint _); [|by eexists].
    destruct (newTwistPoint _); [|by eexists].
    destruct (IH (drop 192 input)) as [[e|rest] ->]; [|by eexists..].
    unfold zlen in *. rewrite length_drop. lia.
Qed.

Lemma bn256Pairing_ok input :
  exists r e, bn256Pairing_Run input = Some (r, e) /\ zlen r <= 32.
Proof.
  unfold bn256Pairing_Run. split_if; [by eexists _, _|].
  pose proof (zlen_nonneg input). pose proof (Z.mod_pos_bound (zlen input) 192 ltac:(lia)).
  pose proof (Z.div_mod (zlen input) 192 ltac:(lia)).
  pose proof (Z.div_pos (zlen input) 192 ltac:(lia) ltac:(lia)).
  destruct (pairingPoints_ok (Z.to_nat (zlen input / 192)) input) as [[e|pts] ->].
  - lia.
  - by eexists _, _.
  - eexists _, _. split; [done|]. by destruct (PairingCheck pts).
Qed.

Lemma RequiredGas_ok p input :
  zlen input < 2 ^ 62 -> exists g, RequiredGas p input = Some g /\ is_u64 g.
Proof.
  intros Hl. destruct p; cbn [RequiredGas]; try (by eexists).
  all: try (eexists; split; [done|apply u64_range]).
  destruct (bigModExp_RequiredGas_some input ltac:(lia)) as (h & _ & E).
  cbv zeta in E. rewrite E. eexists. split; [done|].
  split_if; [done|apply Uint64_u64].
Qed.

Lemma precompile_Run_ok p input g :
  zlen input < 2 ^ 62 -> RequiredGas p input = Some g -> g < 2 ^ 60 ->
  exists r e, precompile_Run p input = Some (r, e) /\ zlen r < 2 ^ 62.
Proof.
  intros Hl Hg Hb. destruct p; cbn [precompile_Run RequiredGas] in *.
  - destruct (ecrecover_Run_ok input) as (r & i & -> & ?). eexists _, _.
    split; [done|lia].
  - eexists _, _. split; [done|]. by rewrite Sha256_length.
  - eexists _, _. split; [done|]. by rewrite zlen_LeftPadBytes, Ripemd160_length.
  - by eexists _, _.
  - pose proof (bigModExp_Run_eq input g Hl Hg Hb) as E. cbv zeta in E. rewrite E.
    eexists _, _. split; [done|].
    pose proof (modexp_len_word input 64) as W. unfold is_word in W.
    destruct (bigModExp_gas_bounds input g ltac:(lia) Hg Hb) as [[-> ->]|(H0 & H1 & H2)].
    { done. }
    repeat split_if; [done| |].
    + rewrite zlen_replicate. lia.
    + unfold zlen. rewrite length_be_bytes. lia.
  - unfold bn256Add_Run. rewrite !getData_padded by lia.
    destruct (newCurvePoint _); [|by eexists _, _].
    destruct (newCurvePoint _); [|by eexists _, _].
    eexists _, _. split; [done|]. by rewrite G1_Marshal_length.
  - unfold bn256ScalarMul_Run. rewrite getData_padded, bigData_padded by lia.
    destruct (newCurvePoint _); [|by eexists _, _].
    eexists _, _. split; [done|]. by rewrite G1_Marshal_length.
  - destruct (bn256Pairing_ok input) as (r & e & -> & ?). eexists _, _.
    split; [done|lia].
Qed.

(** A precompile charged to a contract with less than 2^60 gas returns, and
    only the gas of the contract changes. *)
Lemma RunPrecompiledContract_ok p input c :
  zlen input < 2 ^ 62 -> 0 <= c_Gas c < 2 ^ 60 ->
  exists r e g, RunPrecompiledContract p input c = Some (r, e, with_gas c g) /\
    zlen r < 2 ^ 62 /\ 0 <= g <= c_Gas c.
Proof.
  intros Hl Hg. unfold RunPrecompiledContract.
  destruct (RequiredGas_ok p input Hl) as (g & Eg & Hu). rewrite Eg.
  unfold is_u64 in Hu. rewrite UseGas_spec by (unfold is_u64; lia).
  split_if.
  - exists [], (Some ErrOutOfGas), (c_Gas c). split; [by destruct c|]. split; [done|lia].
  - destruct (precompile_Run_ok p input g Hl Eg ltac:(lia)) as (r & e & -> & Hr).
    exists r, e, (c_Gas c - g). split; [done|]. lia.
Qed.
End precompiles_ok.
