(* ===== verification/Interpreter.v ===== *)
(** * core/vm/interpreter.go, core/vm/evm.go, core/evm.go: the machine

    [step] is one iteration of the loop of [Interpreter.Run]; [Run] is the rest
    of that function around the loop.  The call operations of [EVM] are written
    against an interpreter given as an argument, and [loop] ties the knot: the
    calls an iteration makes run the loop again on one unit of fuel less.  The
    theorems show that any fuel above the gas of the frame is enough.

    Tracing ([cfg.Debug]) is left out: the tracer is a callback outside the
    machine.  [depth] is a Go [int] that stays below 1026. *)

From Stdlib Require Import ZArith Lia Bool.
From S2P Require Import Prelude GoMath Params VmStack VmMemory Opcodes Analysis.
From S2P Require Import StateInterface Machine Gas Instructions JumpTable Precompiles.
Local Open Scope Z_scope.
Local Open Scope go_scope.

(** ** core/evm.go: the transfer functions of the context *)

Section transfer.
Context {C : Crypto} {S : Type} `{!StateDB S}.

Definition core_CanTransfer (addr : Address) (amount : Z) : M S bool :=
  let* b := GetBalance addr in ret (b >=? amount).

Definition core_Transfer (sender recipient : Address) (amount : Z) : M S unit :=
  SubBalance sender amount ;; AddBalance recipient amount.
End transfer.

Section interpreter.
Context {C : Crypto} {S : Type} `{!StateDB S}.

(** ** One iteration of the loop *)

Definition enforceRestrictions (env : Env S) (op : Z) (operation : operation S)
    : M (Frame S) (option vmErr) :=
  let* f := get in
  if rules_IsByzantium (env_rules env) && e_readOnly (f_evm f) then
    if op_writes operation then ret (Some errWriteProtection)
    else if op =? CALL then
      let* value := s_back 2 in
      ret (if BitLen value >? 0 then Some errWriteProtection else None)
    else ret None
  else ret None.

(** The memory the operation needs, rounded up to words. *)
Definition memorySizeOf (operation : operation S) : M (Frame S) (checked Z) :=
  match op_memorySize operation with
  | None => ok 0
  | Some memorySize =>
      let* f := get in
      let* size := must (memorySize (f_stack f)) in
      let? memSize := noOverflow (bigUint64 size) in
      noOverflow (SafeMul (toWordSize memSize) 32)
  end.

(** [err != nil || !contract.UseGas(cost)]. *)
Definition chargeGas (cost : checked Z) : M (Frame S) bool :=
  match cost with
  | inl _ => ret false
  | inr cost =>
      let* f := get in
      let '(paid, c) := UseGas (f_contract f) cost in
      put (set_contract c f) ;; ret paid
  end.

(** What ends the loop: the results of [Run]; [None] goes on. *)
Definition step (env : Env S) (calls : Calls S)
    : M (Frame S) (option (list byte * option vmErr)) :=
  let* f := get in
  let op := GetOp (f_contract f) (f_pc f) in
  let operation := jumpTable env op in
  if negb (op_valid operation) then ret (Some ([], Some (errInvalidOpcode op)))
  else
    match op_validateStack operation (f_stack f) with
    | Some e => ret (Some ([], Some e))
    | None =>
        let* restricted := enforceRestrictions env op operation in
        match restricted with
        | Some e => ret (Some ([], Some e))
        | None =>
            let* size := memorySizeOf operation in
            match size with
            | inl e => ret (Some ([], Some e))
            | inr memorySize =>
                let* cost := op_gasCost operation (env_gasTable env) env memorySize in
                let* paid := chargeGas cost in
                if negb paid then ret (Some ([], Some ErrOutOfGas))
                else
                  (if memorySize >? 0
                   then modify (fun f => set_mem (mem_Resize (f_mem f) memorySize) f)
                   else ret tt) ;;
                  let* '(res, err) := op_execute operation env calls in
                  (if op_returns operation
                   then onEVM (modify (set_returnData res)) else ret tt) ;;
                  match err with
                  | Some e => ret (Some ([], Some e))
                  | None =>
                      if op_reverts operation
                      then ret (Some (res, Some errExecutionReverted))
                      else if op_halts operation then ret (Some (res, None))
                      else
                        (if negb (op_jumps operation)
                         then modify (fun f => set_pc (u64 (f_pc f + 1)) f)
                         else ret tt) ;;
                        ret None
                  end
            end
        end
    end.

(** [atomic.LoadInt32(&in.evm.abort) == 0]. *)
Definition loadAbort (env : Env S) : M (Frame S) bool :=
  let* f := get in
  onEVM (modify tick) ;;
  ret (env_abort env (e_loads (f_evm f))).

(** ** Interpreter.Run around its loop *)

(** The results and the contract, which is mutated in place. *)
Definition Interp : Type :=
  Contract -> list byte -> M (EVMState S) (list byte * option vmErr * Contract).

Definition Run (body : M (Frame S) (list byte * option vmErr)) : Interp :=
  fun contract input =>
  modify (fun e => set_depth (e_depth e + 1) e) ;;
  modify (set_returnData []) ;;
  let* r :=
    if zlen (c_Code contract) =? 0 then ret ([], None, contract)
    else fun e =>
      match body (mkFrame 0 e (with_input contract input) NewMemory newstack) with
      | Ret (r, f) => Ret ((r, f_contract f), f_evm f)
      | Panic => Panic
      | OutOfFuel => OutOfFuel
      end in
  modify (fun e => set_depth (e_depth e - 1) e) ;;
  ret r.

(** ** evm.go *)

Definition precompiles (env : Env S) : Address -> option precompile :=
  if IsByzantium (env_chainConfig env) (BlockNumber (env_ctx env))
  then PrecompiledContractsByzantium else PrecompiledContractsHomestead.

Definition run (env : Env S) (interp : Interp) : Interp := fun contract input =>
  match
    match c_CodeAddr contract with Some a => precompiles env a | None => None end
  with
  | Some p => must (RunPrecompiledContract p input contract)
  | None => interp contract input
  end.

(** [return ret, contract.Gas, err]. *)
Definition callResult (r : list byte) (err : option vmErr) (c : Contract) : CallResult :=
  mkCallResult r (c_Gas c) err (c_jumpdests c).

(** A return before a contract exists: the caller's jump map is as it was. *)
Definition earlyResult (caller : ContractRef) (gas : Z) (err : option vmErr) : CallResult :=
  mkCallResult [] gas err
    (match caller with ContractPtr _ _ _ d => d | AccountRef _ => ∅ end).

(** [if err != errExecutionReverted { contract.UseGas(contract.Gas) }]. *)
Definition consumeUnlessReverted (err : option vmErr) (c : Contract) : Contract :=
  if bool_decide (err = Some errExecutionReverted) then c else (UseGas c (c_Gas c)).2.

(** [run] and the rollback that follows it in the four call operations. *)
Definition runOrRevert (env : Env S) (interp : Interp) (snapshot : Z)
    (contract : Contract) (input : list byte) : M (EVMState S) CallResult :=
  let* '(r, err, contract) := run env interp contract input in
  match err with
  | None => ret (callResult r err contract)
  | Some _ =>
      onDB (RevertToSnapshot snapshot) ;;
      ret (callResult r err (consumeUnlessReverted err contract))
  end.

(** [contract.SetCallCode(&addr, GetCodeHash(addr), GetCode(addr))]. *)
Definition loadCode (addr : Address) (c : Contract) : M (EVMState S) Contract :=
  let* h := onDB (GetCodeHash addr) in
  let* code := onDB (GetCode addr) in
  ret (SetCallCode c addr h code).

Section calls.
Variable env : Env S.
Variable interp : Interp.

Let cfg := env_chainConfig env.
Let num := BlockNumber (env_ctx env).

Definition Call (caller : ContractRef) (addr : Address) (input : list byte)
    (gas value : Z) : M (EVMState S) CallResult :=
  let* e := get in
  if env_NoRecursion env && (e_depth e >? 0) then ret (earlyResult caller gas None)
  else if e_depth e >? CallCreateDepth then ret (earlyResult caller gas (Some ErrDepth))
  else
    let* can := onDB (CanTransfer (env_ctx env) (ref_Address caller) value) in
    if negb can then ret (earlyResult caller gas (Some ErrInsufficientBalance))
    else
      let* snapshot := onDB Snapshot in
      let* exists_ := onDB (Exist addr) in
      if negb exists_ && bool_decide (precompiles env addr = None) &&
         IsEIP158 cfg num && (Z.sgn value =? 0)
      then ret (earlyResult caller gas None)
      else
        (if exists_ then ret tt else onDB (CreateAccount addr)) ;;
        onDB (Transfer (env_ctx env) (ref_Address caller) addr value) ;;
        let* contract := loadCode addr (NewContract caller addr (Some value) gas) in
        runOrRevert env interp snapshot contract input.

Definition CallCode (caller : ContractRef) (addr : Address) (input : list byte)
    (gas value : Z) : M (EVMState S) CallResult :=
  let* e := get in
  if env_NoRecursion env && (e_depth e >? 0) then ret (earlyResult caller gas None)
  else if e_depth e >? CallCreateDepth then ret (earlyResult caller gas (Some ErrDepth))
  else
    let* can := onDB (CanTransfer (env_ctx env) (ref_Address caller) value) in
    if negb can then ret (earlyResult caller gas (Some ErrInsufficientBalance))
    else
      let* snapshot := onDB Snapshot in
      let* contract :=
        loadCode addr (NewContract caller (ref_Address caller) (Some value) gas) in
      runOrRevert env interp snapshot contract input.

Definition DelegateCall (caller : ContractRef) (addr : Address) (input : list byte)
    (gas : Z) : M (EVMState S) CallResult :=
  let* e := get in
  if env_NoRecursion env && (e_depth e >? 0) then ret (earlyResult caller gas None)
  else if e_depth e >? CallCreateDepth then ret (earlyResult caller gas (Some ErrDepth))
  else
    let* snapshot := onDB Snapshot in
    let* delegate :=
      must (AsDelegate (NewContract caller (ref_Address caller) None gas)) in
    let* contract := loadCode addr delegate in
    runOrRevert env interp snapshot contract input.

Definition StaticCall (caller : ContractRef) (addr : Address) (input : list byte)
    (gas : Z) : M (EVMState S) CallResult :=
  let* e := get in
  if env_NoRecursion env && (e_depth e >? 0) then ret (earlyResult caller gas None)
  else if e_depth e >? CallCreateDepth then ret (earlyResult caller gas (Some ErrDepth))
  else
    modify (set_readOnly true) ;;
    let* snapshot := onDB Snapshot in
    let* contract := loadCode addr (NewContract caller addr (Some 0) gas) in
    let* r := runOrRevert env interp snapshot contract input in
    modify (set_readOnly (e_readOnly e)) ;;
    ret r.

(** The end of [Create]: the price of the code, and the rollback. *)
Definition storeCode (snapshot : Z) (contractAddr : Address) (r : list byte)
    (err : option vmErr) (contract : Contract) : M (EVMState S) CallResult :=
  let maxCodeSizeExceeded := IsEIP158 cfg num && (zlen r >? MaxCodeSize) in
  let* '(err, contract) :=
    if bool_decide (err = None) && negb maxCodeSizeExceeded then
      let createDataGas := u64 (zlen r * CreateDataGas) in
      let '(paid, contract) := UseGas contract createDataGas in
      if (paid : bool) then
        onDB (SetCode contractAddr r) ;; ret (err, contract)
      else ret (Some ErrCodeStoreOutOfGas, contract)
    else ret (err, contract) in
  let* contract :=
    if maxCodeSizeExceeded ||
       (bool_decide (err <> None) &&
        (IsHomestead cfg num || negb (bool_decide (err = Some ErrCodeStoreOutOfGas))))
    then
      onDB (RevertToSnapshot snapshot) ;;
      ret (consumeUnlessReverted err contract)
    else ret contract in
  let err := if maxCodeSizeExceeded && bool_decide (err = None)
             then Some errMaxCodeSizeExceeded else err in
  ret (callResult r err contract).

Definition Create (caller : ContractRef) (code : list byte) (gas value : Z)
    : M (EVMState S) (CallResult * Address) :=
  let* e := get in
  if e_depth e >? CallCreateDepth
  then ret (earlyResult caller gas (Some ErrDepth), 0)
  else
    let* can := onDB (CanTransfer (env_ctx env) (ref_Address caller) value) in
    if negb can then ret (earlyResult caller gas (Some ErrInsufficientBalance), 0)
    else
      let* nonce := onDB (GetNonce (ref_Address caller)) in
      onDB (SetNonce (ref_Address caller) (u64 (nonce + 1))) ;;
      let contractAddr := CreateAddress (ref_Address caller) nonce in
      let* contractHash := onDB (GetCodeHash contractAddr) in
      let* nonce' := onDB (GetNonce contractAddr) in
      if negb (nonce' =? 0) ||
         (bool_decide (contractHash <> zeroHash) &&
          bool_decide (contractHash <> Keccak256Hash []))
      then ret (earlyResult caller 0 (Some ErrContractAddressCollision), 0)
      else
        let* snapshot := onDB Snapshot in
        onDB (CreateAccount contractAddr) ;;
        (if IsEIP158 cfg num then onDB (SetNonce contractAddr 1) else ret tt) ;;
        onDB (Transfer (env_ctx env) (ref_Address caller) contractAddr value) ;;
        let contract :=
          SetCallCode (NewContract caller contractAddr (Some value) gas)
            contractAddr (Keccak256Hash code) code in
        if env_NoRecursion env && (e_depth e >? 0)
        then ret (earlyResult caller gas None, contractAddr)
        else
          let* '(r, err, contract) := run env interp contract [] in
          let* res := storeCode snapshot contractAddr r err contract in
          ret (res, contractAddr).

Definition evmCalls : Calls S := mkCalls Call CallCode DelegateCall StaticCall Create.
End calls.

(** ** The loop *)

Fixpoint loop (fuel : nat) (env : Env S) : M (Frame S) (list byte * option vmErr) :=
  match fuel with
  | O => fun _ => OutOfFuel
  | Datatypes.S k =>
      let* aborted := loadAbort env in
      if (aborted : bool) then ret ([], None)
      else
        let* r := step env (evmCalls env (Run (loop k env))) in
        match r with
        | Some res => ret res
        | None => loop k env
        end
  end.

(** The operations of [*EVM], on fuel that covers the gas they are given. *)
Definition gasFuel (gas : Z) : nat := Datatypes.S (Z.to_nat gas).

Definition EVM_Call env caller addr input gas value :=
  Call env (Run (loop (gasFuel gas) env)) caller addr input gas value.
Definition EVM_CallCode env caller addr input gas value :=
  CallCode env (Run (loop (gasFuel gas) env)) caller addr input gas value.
Definition EVM_DelegateCall env caller addr input gas :=
  DelegateCall env (Run (loop (gasFuel gas) env)) caller addr input gas.
Definition EVM_StaticCall env caller addr input gas :=
  StaticCall env (Run (loop (gasFuel gas) env)) caller addr input gas.
Definition EVM_Create env caller code gas value :=
  Create env (Run (loop (gasFuel gas) env)) caller code gas value.
End interpreter.
