(* ===== verification/EvmInv.v ===== *)
(** * The invariant of the EVM and the contract of its calls

    [evm_ok], [contract_ok] and [frame_ok] are what every activation keeps.
    [evm_step] relates the shared state before and after; [call_post] is what
    a call operation promises to the instruction that makes it, [exec_post]
    what an execution function promises to the loop.  The lemmas at the end run
    the primitive operations symbolically. *)

From Stdlib Require Import ZArith Lia Bool.
From S2P Require Import Prelude GoMath Params VmStack VmMemory Opcodes Analysis.
From S2P Require Import StateInterface World Machine Gas Instructions JumpTable.
From S2P Require Import Precompiles Interpreter.
Local Open Scope Z_scope.
Local Open Scope go_scope.

(** Gas in a frame: with more, [bigModExp] could be paid to read windows that
    do not fit an [int]. *)
Definition gas_limit : Z := 2 ^ 60.

(** Lengths of code, input and return data. *)
Definition short (l : list byte) : Prop := zlen l < 2 ^ 62.

Section inv.
Context {C : Crypto} {S : Type} `{SDB : !StateDB S} {SPEC : StateDBSpec S}.

(** ** The environment *)

Record env_ok (env : Env S) : Prop := {
  env_CanTransfer : CanTransfer (env_ctx env) = core_CanTransfer;
  env_Transfer : Transfer (env_ctx env) = core_Transfer;
  env_GetHash n : is_word (GetHash (env_ctx env) n);
  env_Origin : is_addr (Origin (env_ctx env));
  env_Coinbase : is_addr (Coinbase (env_ctx env));
  env_GasPrice : is_word (GasPrice (env_ctx env));
  env_BlockNumber : 0 <= BlockNumber (env_ctx env)
}.

(** State changes are forbidden. *)
Definition static (env : Env S) (e : EVMState S) : bool :=
  rules_IsByzantium (env_rules env) && e_readOnly e.

(** ** The shared state *)

Definition e_view (e : EVMState S) : world := view (e_StateDB e).
Definition e_saved (e : EVMState S) : list (Z * world) := saved (e_StateDB e).

Record evm_ok (e : EVMState S) : Prop := {
  evm_inv : db_inv (e_StateDB e);
  evm_world : world_ok (e_view e);
  evm_callGasTemp : is_u64 (e_callGasTemp e);
  evm_returnData : short (e_returnData e);
  evm_depth : 0 <= e_depth e <= CallCreateDepth + 1
}.

(** Depth and mode are restored, the caller's snapshots stay, the world
    evolves. *)
Record evm_step (env : Env S) (e e' : EVMState S) : Prop := {
  step_depth : e_depth e' = e_depth e;
  step_readOnly : e_readOnly e' = e_readOnly e;
  step_saved : exists l, e_saved e' = e_saved e ++ l;
  step_evolves : evolves (static env e) (e_view e) (e_view e')
}.

#[export] Instance evm_step_preorder env : PreOrder (evm_step env).
Proof.
  split.
  - intros e. split; try done. exists []. by rewrite app_nil_r.
  - intros e1 e2 e3 [A1 B1 [l1 C1] D1] [A2 B2 [l2 C2] D2]. split; try congruence.
    + exists (l1 ++ l2). by rewrite C2, C1, app_assoc.
    + etrans; [apply D1|]. unfold static in *. rewrite B1 in D2. done.
Qed.

(** The step of a database operation. *)
Lemma evm_step_db env e d' l :
  saved d' = e_saved e ++ l -> evolves (static env e) (e_view e) (view d') ->
  evm_step env e (set_db d' e).
Proof. intros H1 H2. split; try done. by exists l. Qed.

(** A read of the database: nothing the EVM can see changes. *)
Record quiet (e e' : EVMState S) : Prop := {
  quiet_depth : e_depth e' = e_depth e;
  quiet_readOnly : e_readOnly e' = e_readOnly e;
  quiet_callGasTemp : e_callGasTemp e' = e_callGasTemp e;
  quiet_returnData : e_returnData e' = e_returnData e;
  quiet_view : e_view e' = e_view e;
  quiet_saved : e_saved e' = e_saved e
}.

#[export] Instance quiet_preorder : PreOrder quiet.
Proof.
  split; [by intros e|].
  intros e1 e2 e3 [A1 B1 C1 D1 E1 F1] [A2 B2 C2 D2 E2 F2]. split; congruence.
Qed.

Lemma quiet_step env e e' : quiet e e' -> evm_step env e e'.
Proof.
  intros []. split; try done.
  - exists []. by rewrite app_nil_r.
  - by rewrite quiet_view0.
Qed.

Lemma quiet_set_db e d' :
  view d' = e_view e -> saved d' = e_saved e -> quiet e (set_db d' e).
Proof. by split. Qed.

Lemma evm_ok_set_db e d' :
  evm_ok e -> db_inv d' -> world_ok (view d') -> evm_ok (set_db d' e).
Proof. intros [] ? ?. by split. Qed.

(** A database operation, from the EVM: its specification lifted. *)
Lemma runs_onDB {A} (m : M S A) e (P : A -> EVMState S -> Prop) :
  runs m (e_StateDB e) (fun x d => P x (set_db d e)) -> runs (onDB m) e P.
Proof. apply runs_zoom. Qed.

Section db_ops.
Context (e : EVMState S) (OK : evm_ok e).

(** A read returns what the world holds. *)
Lemma runs_read {A} (m : M S A) (v : A) P :
  runs m (e_StateDB e) (fun r d =>
    r = v /\ db_inv d /\ view d = view (e_StateDB e) /\ saved d = saved (e_StateDB e)) ->
  (forall e', quiet e e' -> evm_ok e' -> P v e') ->
  runs (onDB m) e P.
Proof.
  intros Hm HP. apply runs_onDB. eapply runs_mono; [exact Hm|].
  intros r d (-> & Hi & Hv & Hs). apply HP.
  - by apply quiet_set_db.
  - apply evm_ok_set_db; [done..|]. rewrite Hv. apply OK.
Qed.

(** A write acts on the world, which evolves. *)
Lemma runs_write env {A} (m : M S A) w' P :
  runs m (e_StateDB e) (fun _ d =>
    db_inv d /\ view d = w' /\ saved d = saved (e_StateDB e)) ->
  evolves (static env e) (e_view e) w' ->
  (forall r e', evm_step env e e' -> evm_ok e' -> e_view e' = w' ->
     e_callGasTemp e' = e_callGasTemp e -> e_saved e' = e_saved e -> P r e') ->
  runs (onDB m) e P.
Proof.
  intros Hm He HP. apply runs_onDB. eapply runs_mono; [exact Hm|].
  intros r d (Hi & Hv & Hs). apply HP; try done.
  - apply evm_step_db with (l := []); [by rewrite app_nil_r|]. by rewrite Hv.
  - apply evm_ok_set_db; [done..|]. rewrite Hv. eapply evolves_ok; [apply OK|done].
Qed.
End db_ops.

(** ** Contracts *)

(** The cached jump analyses are those of the programs with these hashes. *)
Definition cache_good (d : gmap CodeHash (list Z)) : Prop :=
  forall code, cache_ok d (Keccak256Hash code) code.

Lemma cache_good_empty : cache_good ∅.
Proof. by intros code m. Qed.

Record contract_ok (c : Contract) : Prop := {
  c_ok_Gas : 0 <= c_Gas c < gas_limit;
  c_ok_self : is_addr (c_self c);
  c_ok_caller : is_addr (c_CallerAddress c);
  c_ok_value : exists v, c_value c = Some v /\ is_word v;
  c_ok_Code : short (c_Code c);
  c_ok_Input : short (c_Input c);
  c_ok_hash : c_Code c = [] \/ c_CodeHash c = Keccak256Hash (c_Code c);
  c_ok_jumpdests : cache_good (c_jumpdests c)
}.

Definition ref_ok (r : ContractRef) : Prop :=
  match r with
  | AccountRef a => is_addr a
  | ContractPtr self caller value d =>
      is_addr self /\ is_addr caller /\ (exists v, value = Some v /\ is_word v) /\
      cache_good d
  end.

Lemma contract_ref_ok c : contract_ok c -> ref_ok (contract_ref c).
Proof. by intros []. Qed.

Lemma ref_ok_address r : ref_ok r -> is_addr (ref_Address r).
Proof. destruct r; [done|]. by intros (? & _). Qed.

(** What an activation changes of its contract. *)
Definition contract_step (c c' : Contract) (bound : Z) : Prop :=
  exists g d, c' = with_jumpdests (with_gas c g) d /\ cache_good d /\ 0 <= g <= bound.

Lemma contract_step_refl c : contract_ok c -> contract_step c c (c_Gas c).
Proof.
  intros []. exists (c_Gas c), (c_jumpdests c). split; [by destruct c|]. split; [done|lia].
Qed.

Lemma contract_step_trans c1 c2 c3 b1 b2 :
  contract_step c1 c2 b1 -> contract_step c2 c3 b2 -> contract_step c1 c3 b2.
Proof. intros (g1 & d1 & -> & _) (g2 & d2 & -> & Hd & Hg). by exists g2, d2. Qed.

Lemma contract_step_mono c c' b b' :
  contract_step c c' b -> b <= b' -> contract_step c c' b'.
Proof. intros (g & d & -> & Hd & Hg) Hb. exists g, d. split; [done|]. split; [done|lia]. Qed.

Lemma contract_step_ok c c' b :
  contract_ok c -> contract_step c c' b -> b < gas_limit -> contract_ok c'.
Proof. intros [] (g & d & -> & Hd & Hg) Hb. split; try done. cbn. lia. Qed.

Lemma contract_step_gas c c' b : contract_step c c' b -> 0 <= c_Gas c' <= b.
Proof. by intros (g & d & -> & _ & Hg). Qed.

Lemma contract_step_code c c' b : contract_step c c' b -> c_Code c' = c_Code c.
Proof. by intros (g & d & -> & _). Qed.

(** ** Calls *)

(** What every call operation promises. *)
Record call_post (env : Env S) (e : EVMState S) (gas : Z) (r : CallResult)
    (e' : EVMState S) : Prop := {
  call_ok : evm_ok e';
  call_step : evm_step env e e';
  call_gas : 0 <= cr_gas r <= gas;
  call_ret : short (cr_ret r);
  call_jumpdests : cache_good (cr_jumpdests r)
}.

(** [Call], [CallCode], [DelegateCall] and [StaticCall] have no effect when
    they fail. *)
Definition atomic (e : EVMState S) (r : CallResult) (e' : EVMState S) : Prop :=
  cr_err r <> None -> e_view e' = e_view e.

(** A failed [Create] has at most counted up the creator's nonce; before
    Homestead, unpaid code leaves an account without code behind. *)
Definition create_atomic (env : Env S) (caller : Address) (e : EVMState S)
    (r : CallResult) (e' : EVMState S) : Prop :=
  cr_err r <> None ->
  e_view e' = e_view e \/
  e_view e' = w_SetNonce caller (u64 (w_GetNonce (e_view e) caller + 1)) (e_view e) \/
  (IsHomestead (env_chainConfig env) (BlockNumber (env_ctx env)) = false /\
   cr_err r = Some ErrCodeStoreOutOfGas).

(** The arguments of a call. *)
Record call_pre (e : EVMState S) (caller : ContractRef) (input : list byte)
    (gas bound : Z) : Prop := {
  pre_evm : evm_ok e;
  pre_caller : ref_ok caller;
  pre_input : short input;
  pre_gas : 0 <= gas <= bound
}.

Record calls_ok (env : Env S) (bound : Z) (calls : Calls S) : Prop := {
  calls_Call e caller addr input gas value :
    call_pre e caller input gas bound -> is_addr addr -> is_word value ->
    (static env e = true -> value = 0) ->
    runs (evm_Call calls caller addr input gas value) e (fun r e' =>
      call_post env e gas r e' /\ atomic e r e');
  calls_CallCode e caller addr input gas value :
    call_pre e caller input gas bound -> is_addr addr -> is_word value ->
    runs (evm_CallCode calls caller addr input gas value) e (fun r e' =>
      call_post env e gas r e' /\ atomic e r e');
  calls_DelegateCall e caller addr input gas :
    call_pre e caller input gas bound -> is_addr addr ->
    (exists self ca v d, caller = ContractPtr self ca v d) ->
    runs (evm_DelegateCall calls caller addr input gas) e (fun r e' =>
      call_post env e gas r e' /\ atomic e r e');
  calls_StaticCall e caller addr input gas :
    call_pre e caller input gas bound -> is_addr addr ->
    runs (evm_StaticCall calls caller addr input gas) e (fun r e' =>
      call_post env e gas r e' /\ atomic e r e');
  calls_Create e caller code gas value :
    call_pre e caller code gas bound -> is_word value -> static env e = false ->
    runs (evm_Create calls caller code gas value) e (fun r e' =>
      call_post env e gas r.1 e' /\ is_addr r.2 /\
      create_atomic env (ref_Address caller) e r.1 e')
}.

(** ** Frames *)

Record frame_ok (f : Frame S) : Prop := {
  frame_evm : evm_ok (f_evm f);
  frame_contract : contract_ok (f_contract f);
  frame_mem : mem_small (f_mem f);
  frame_stack : stack_words (f_stack f)
}.

(** How an instruction uses the call operations: not at all, [CREATE],
    [DELEGATECALL] and [STATICCALL], [CALLCODE], [CALL]. *)
Inductive opkind := Plain | Creates | CallsOnly | CallsValue | CallsTransfer.

(** The gas handed to the callee of one of the four call operations, which has
    been charged for already. *)
Definition callGasOf (kind : opkind) (f : Frame S) : Z :=
  match kind with
  | Plain | Creates => 0
  | CallsOnly => e_callGasTemp (f_evm f)
  | CallsValue | CallsTransfer =>
      e_callGasTemp (f_evm f) +
      match f_stack f !! 2%nat with Some v => if v =? 0 then 0 else CallStipend | None => 0 end
  end.

(** The most gas a callee gets. *)
Definition calleeGas (kind : opkind) (f : Frame S) : Z :=
  match kind with
  | Creates => c_Gas (f_contract f)
  | _ => callGasOf kind f
  end.

Record exec_pre (env : Env S) (bound npop : Z) (msz : option (Stack -> option Z))
    (kind : opkind) (writes : bool) (f : Frame S) : Prop := {
  pre_frame : frame_ok f;
  pre_stack : npop <= zlen (f_stack f);
  pre_pc : 0 <= f_pc f < zlen (c_Code (f_contract f));
  pre_mem g sz : msz = Some g -> g (f_stack f) = Some sz -> sz <= mem_Len (f_mem f);
  pre_static : static env (f_evm f) = true -> writes = false;
  pre_value : kind = CallsTransfer -> static env (f_evm f) = true ->
    f_stack f !! 2%nat = Some 0;
  pre_calleeGas : kind <> Plain -> calleeGas kind f <= bound;
  pre_totalGas : c_Gas (f_contract f) + callGasOf kind f < gas_limit
}.

Record exec_post (env : Env S) (npop npush : Z) (kind : opkind) (f : Frame S)
    (r : list byte * option vmErr) (f' : Frame S) : Prop := {
  post_evm : evm_ok (f_evm f');
  post_step : evm_step env (f_evm f) (f_evm f');
  post_contract : contract_step (f_contract f) (f_contract f')
                    (c_Gas (f_contract f) + callGasOf kind f);
  post_mem : mem_small (f_mem f');
  post_stack : exists ys, f_stack f' = ys ++ drop (Z.to_nat npop) (f_stack f) /\
                 zlen ys <= npush /\ stack_words ys;
  post_pc : 0 <= f_pc f' <= zlen (c_Code (f_contract f)) + 32;
  post_ret : short r.1
}.

(** The common case: contract and program counter stay. *)
Lemma exec_post_plain env bound npop npush msz writes pc e c m st ys r e' m' st' :
  exec_pre env bound npop msz Plain writes (mkFrame pc e c m st) ->
  evm_ok e' -> evm_step env e e' -> mem_small m' ->
  st' = ys ++ drop (Z.to_nat npop) st -> zlen ys <= npush -> stack_words ys ->
  short r.1 ->
  exec_post env npop npush Plain (mkFrame pc e c m st) r (mkFrame pc e' c m' st').
Proof.
  intros [[He Hc Hm Hst] ? Hpc] He' Hs Hm' -> Hl Hw Hr. cbn in *. split; cbn; try done.
  - rewrite Z.add_0_r. by apply contract_step_refl.
  - by exists ys.
  - lia.
Qed.

(** The promise of an execution function. *)
Definition exec_ok (npop npush : Z) (msz : option (Stack -> option Z)) (kind : opkind)
    (writes : bool) (x : executionFunc) : Prop :=
  forall env calls bound f,
    env_ok env -> calls_ok env bound calls ->
    exec_pre env bound npop msz kind writes f ->
    runs (x env calls) f (exec_post env npop npush kind f).
End inv.
