(* ===== verification/ExecSafe.v ===== *)
(** * The instructions keep the invariant

    For every execution function of [Instructions]: from a frame that meets
    the invariant, with the operands its entry in the jump table asks for and
    the memory the loop has provided, it returns without a panic and meets
    [exec_post]. *)

From Stdlib Require Import ZArith Lia Bool.
From S2P Require Import Prelude GoMath Params VmStack VmMemory Opcodes Analysis.
From S2P Require Import StateInterface World Machine Gas Instructions JumpTable.
From S2P Require Import Precompiles Interpreter EvmInv.
Local Open Scope Z_scope.
Local Open Scope go_scope.

(** ** Words *)

Lemma bool_word_word b : is_word (bool_word b).
Proof. by destruct b. Qed.

Lemma zero_word : is_word 0.
Proof. done. Qed.

Lemma small_word z : 0 <= z < 2 ^ 255 -> is_word z.
Proof. unfold is_word. lia. Qed.

#[export] Hint Resolve bool_word_word zero_word addr_word : width.

Ltac val_word :=
  intros; repeat split_if; auto with width; done.

Lemma val_div_word x y : is_word (val_div x y).
Proof. unfold val_div. val_word. Qed.
Lemma val_sdiv_word x y : is_word (val_sdiv x y).
Proof. unfold val_sdiv. val_word. Qed.
Lemma val_mod_word x y : is_word (val_mod x y).
Proof. unfold val_mod. val_word. Qed.
Lemma val_smod_word x y : is_word (val_smod x y).
Proof. unfold val_smod. val_word. Qed.
Lemma val_signextend_word x y : is_word (val_signextend x y).
Proof. unfold val_signextend. val_word. Qed.
Lemma val_slt_word x y : is_word (val_slt x y).
Proof. unfold val_slt. val_word. Qed.
Lemma val_sgt_word x y : is_word (val_sgt x y).
Proof. unfold val_sgt. val_word. Qed.
Lemma val_byte_word x y : is_word (val_byte x y).
Proof.
  unfold val_byte. split_if; [|done].
  match goal with |- is_word (byteZ ?b) => pose proof (byteZ_range b) end.
  apply small_word. lia.
Qed.
Lemma val_addmod_word x y z : is_word (val_addmod x y z).
Proof. unfold val_addmod. val_word. Qed.
Lemma val_mulmod_word x y z : is_word (val_mulmod x y z).
Proof. unfold val_mulmod. val_word. Qed.
Lemma val_shl_word x y : is_word (val_shl x y).
Proof. unfold val_shl. val_word. Qed.
Lemma val_shr_word x y : is_word (val_shr x y).
Proof. unfold val_shr. val_word. Qed.
Lemma val_sar_word x y : is_word (val_sar x y).
Proof. unfold val_sar. val_word. Qed.

#[export] Hint Resolve val_div_word val_sdiv_word val_mod_word val_smod_word
  val_signextend_word val_slt_word val_sgt_word val_byte_word val_addmod_word
  val_mulmod_word val_shl_word val_shr_word val_sar_word : width.

(** ** Symbolic execution of the primitives *)

Section primitives.
Context {C : Crypto} {S : Type} `{SDB : !StateDB S}.
Context (pc : Z) (e : EVMState S) (c : Contract) (m : Memory).

Lemma s_pop_eq x st : s_pop (mkFrame pc e c m (x :: st)) = Ret (x, mkFrame pc e c m st).
Proof. done. Qed.
Lemma s_push_eq x st : s_push x (mkFrame pc e c m st) = Ret (tt, mkFrame pc e c m (x :: st)).
Proof. done. Qed.
Lemma s_peek_eq x st :
  s_peek (mkFrame pc e c m (x :: st)) = Ret (x, mkFrame pc e c m (x :: st)).
Proof. done. Qed.
Lemma s_settop_eq y x st :
  s_settop y (mkFrame pc e c m (x :: st)) = Ret (tt, mkFrame pc e c m (y :: st)).
Proof. done. Qed.
Lemma s_back_eq n x st :
  st !! n = Some x -> s_back n (mkFrame pc e c m st) = Ret (x, mkFrame pc e c m st).
Proof. intros H. unfold s_back, bind, get, must, Back. cbn. by rewrite H. Qed.
Lemma get_eq {St} (s : St) : get s = Ret (s, s).
Proof. done. Qed.
Lemma put_eq {St} (s s' : St) : put s' s = Ret (tt, s').
Proof. done. Qed.
Lemma ret_eq {St A} (s : St) (a : A) : ret a s = Ret (a, s).
Proof. done. Qed.
Lemma modify_eq {St} (g : St -> St) (s : St) : modify g s = Ret (tt, g s).
Proof. done. Qed.
Lemma must_eq {St A} (s : St) (o : option A) a : o = Some a -> must o s = Ret (a, s).
Proof. by intros ->. Qed.

(** A database operation, from a frame. *)
Lemma runs_db {A} (x : M S A) st (P : A -> Frame S -> Prop) :
  runs (onDB x) e (fun r e' => P r (mkFrame pc e' c m st)) ->
  runs (db x) (mkFrame pc e c m st) P.
Proof. intros H. by apply (runs_zoom f_evm set_evm (onDB x)). Qed.

Lemma runs_onEVM {A} (x : M (EVMState S) A) st (P : A -> Frame S -> Prop) :
  runs x e (fun r e' => P r (mkFrame pc e' c m st)) ->
  runs (onEVM x) (mkFrame pc e c m st) P.
Proof. intros H. by apply (runs_zoom f_evm set_evm x). Qed.
End primitives.

(** One primitive of an instruction. *)
Ltac xop :=
  eapply runs_bind_eq;
  [ first [ apply s_pop_eq | apply s_push_eq | apply s_peek_eq | apply s_settop_eq
          | apply get_eq | apply put_eq | apply ret_eq | apply modify_eq ] |];
  cbn beta iota;
  cbn [f_pc f_evm f_contract f_mem f_stack set_pc set_evm set_contract set_mem set_stack].

Ltac xops := repeat xop.

(** Name the first cell of the stack, which the precondition provides. *)
Ltac cell st x :=
  destruct st as [|x st];
  [ exfalso;
    match goal with H : exec_pre _ _ _ _ _ _ _ |- _ =>
      apply pre_stack in H; unfold zlen in H; cbn in H; lia end |].

(** The words of the named cells. *)
Ltac cell_words :=
  match goal with H : exec_pre _ _ _ _ _ _ _ |- _ =>
    let W := fresh "W" in
    pose proof (frame_stack _ (pre_frame _ _ _ _ _ _ _ H)) as W;
    unfold stack_words in W; cbn [f_stack] in W;
    repeat (let X := fresh "Wx" in apply Forall_cons in W as [X W])
  end.

(** The parts of the invariant. *)
Ltac open_pre :=
  match goal with H : exec_pre _ _ _ _ _ _ _ |- _ =>
    let F := fresh "F" in
    pose proof (pre_frame _ _ _ _ _ _ _ H) as F;
    let Ev := fresh "Hev" in let Co := fresh "Hco" in let Me := fresh "Hme" in
    pose proof (frame_evm _ F) as Ev; pose proof (frame_contract _ F) as Co;
    pose proof (frame_mem _ F) as Me; cbn [f_evm f_contract f_mem] in Ev, Co, Me;
    let Pc := fresh "Hpc" in
    pose proof (pre_pc _ _ _ _ _ _ _ H) as Pc; cbn [f_pc f_contract] in Pc
  end.

(** Finish an instruction that pushes [ys]. *)
Ltac finish ys :=
  unfold done_nil; apply runs_ret;
  eapply (exec_post_plain _ _ _ _ _ _ _ _ _ _ _ ys);
  [ eassumption | try done | try first [assumption | reflexivity] | try done
  | reflexivity | done
  | unfold stack_words; repeat (apply Forall_cons; split);
    auto using Forall_nil_2 with width
  | try first [exact (eq_refl : (0 ?= 2 ^ 62) = Lt) | assumption] ].

(** The memory the loop has provided covers the operands. *)
Ltac covers H :=
  match goal with Hp : exec_pre _ _ _ _ _ _ _ |- _ =>
    pose proof (pre_mem _ _ _ _ _ _ _ Hp _ _ eq_refl eq_refl) as H; cbn [f_mem] in H
  end.

(** A read of the database. *)
Ltac xread spec :=
  apply runs_bind, runs_db;
  eapply runs_read; [eassumption | by apply spec, evm_inv |];
  let e' := fresh "e'" in let Hq := fresh "Hq" in let Hok := fresh "Hok" in
  intros e' Hq Hok; cbn beta.

Section exec.
Context {C : Crypto} {S : Type} `{SDB : !StateDB S} {SPEC : StateDBSpec S}.
Implicit Types (env : Env S) (calls : Calls S).

(** ** Arithmetic *)

Lemma binop_ok op :
  (forall x y, is_word x -> is_word y -> is_word (op x y)) ->
  exec_ok 2 1 None Plain false (binop op).
Proof.
  intros Hop env calls bound [pc e c m st] He Hc Hpre. unfold binop.
  cell st x. cell st y. cell_words. open_pre. xops. finish [op x y].
Qed.

Lemma binop_push_ok op :
  (forall x y, is_word x -> is_word y -> is_word (op x y)) ->
  exec_ok 2 1 None Plain false (binop_push op).
Proof.
  intros Hop env calls bound [pc e c m st] He Hc Hpre. unfold binop_push.
  cell st x. cell st y. cell_words. open_pre. xops. finish [op x y].
Qed.

Lemma ternop_push_ok op :
  (forall x y z, is_word x -> is_word y -> is_word z -> is_word (op x y z)) ->
  exec_ok 3 1 None Plain false (ternop_push op).
Proof.
  intros Hop env calls bound [pc e c m st] He Hc Hpre. unfold ternop_push.
  cell st x. cell st y. cell st z. cell_words. open_pre. xops. finish [op x y z].
Qed.

Lemma opNot_ok : exec_ok 1 1 None Plain false opNot.
Proof.
  intros env calls bound [pc e c m st] He Hc Hpre. unfold opNot.
  cell st x. cell_words. open_pre. xops. finish [U256 (Z.lnot x)].
Qed.

Lemma opIszero_ok : exec_ok 1 1 None Plain false opIszero.
Proof.
  intros env calls bound [pc e c m st] He Hc Hpre. unfold opIszero.
  cell st x. cell_words. open_pre. xops. finish [bool_word (negb (Z.sgn x >? 0))].
Qed.

Lemma opSignExtend_ok : exec_ok 2 1 None Plain false opSignExtend.
Proof.
  intros env calls bound [pc e c m st] He Hc Hpre. unfold opSignExtend.
  cell st x. cell st y. cell_words. open_pre. xops. split_if.
  - apply runs_bind. xops. unfold s_push. apply runs_modify. finish [val_signextend x y].
  - xops. finish [y].
Qed.

(** ** Values of the environment *)

Lemma push_of_ok v :
  (forall env f, env_ok env -> frame_ok f -> 0 <= f_pc f < zlen (c_Code (f_contract f)) ->
     is_word (v env f)) ->
  exec_ok 0 1 None Plain false (push_of v).
Proof.
  intros Hv env calls bound [pc e c m st] He Hc Hpre. unfold push_of.
  open_pre. xops. finish [v env (mkFrame pc e c m st)].
Qed.

Lemma short_word l : short l -> is_word (zlen l).
Proof. unfold short. pose proof (zlen_nonneg l). intros. apply small_word. lia. Qed.

Lemma short_i64 l : short l -> i64 (zlen l) = zlen l.
Proof. unfold short. pose proof (zlen_nonneg l). intros. apply i64_small. lia. Qed.

Lemma opAddress_ok : exec_ok 0 1 None Plain false opAddress.
Proof. apply push_of_ok. intros env f He [? [] ? ?] Hpc. by apply addr_word. Qed.
Lemma opOrigin_ok : exec_ok 0 1 None Plain false opOrigin.
Proof. apply push_of_ok. intros env f [] F Hpc. by apply addr_word. Qed.
Lemma opCaller_ok : exec_ok 0 1 None Plain false opCaller.
Proof. apply push_of_ok. intros env f He [? [] ? ?] Hpc. by apply addr_word. Qed.
Lemma opGasprice_ok : exec_ok 0 1 None Plain false opGasprice.
Proof. apply push_of_ok. by intros env f [] F Hpc. Qed.
Lemma opCoinbase_ok : exec_ok 0 1 None Plain false opCoinbase.
Proof. apply push_of_ok. intros env f [] F Hpc. by apply addr_word. Qed.
Lemma opTimestamp_ok : exec_ok 0 1 None Plain false opTimestamp.
Proof. apply push_of_ok. auto with width. Qed.
Lemma opNumber_ok : exec_ok 0 1 None Plain false opNumber.
Proof. apply push_of_ok. auto with width. Qed.
Lemma opDifficulty_ok : exec_ok 0 1 None Plain false opDifficulty.
Proof. apply push_of_ok. auto with width. Qed.
Lemma opGasLimit_ok : exec_ok 0 1 None Plain false opGasLimit.
Proof. apply push_of_ok. auto with width. Qed.
Lemma opCallDataSize_ok : exec_ok 0 1 None Plain false opCallDataSize.
Proof.
  apply push_of_ok. intros env f He [? [] ? ?] Hpc.
  rewrite short_i64 by done. by apply short_word.
Qed.
Lemma opCodeSize_ok : exec_ok 0 1 None Plain false opCodeSize.
Proof.
  apply push_of_ok. intros env f He [? [] ? ?] Hpc.
  rewrite short_i64 by done. by apply short_word.
Qed.
Lemma opReturnDataSize_ok : exec_ok 0 1 None Plain false opReturnDataSize.
Proof. apply push_of_ok. intros env f He [[] ? ? ?] Hpc. by apply short_word. Qed.
Lemma opPc_ok : exec_ok 0 1 None Plain false opPc.
Proof.
  apply push_of_ok. intros env f He [? [] ? ?] Hpc. unfold short in *.
  apply small_word. lia.
Qed.
Lemma opMsize_ok : exec_ok 0 1 None Plain false opMsize.
Proof.
  apply push_of_ok. intros env f He [? ? Hm ?] Hpc. unfold mem_small in Hm.
  pose proof (zlen_nonneg (mem_store (f_mem f))). unfold mem_Len in *.
  rewrite i64_small by lia. apply small_word. lia.
Qed.
Lemma opGas_ok : exec_ok 0 1 None Plain false opGas.
Proof.
  apply push_of_ok. intros env f He [? [] ? ?] Hpc. unfold gas_limit in *.
  apply small_word. lia.
Qed.

Lemma opCallValue_ok : exec_ok 0 1 None Plain false opCallValue.
Proof.
  intros env calls bound [pc e c m st] He Hc Hpre. unfold opCallValue.
  open_pre. destruct (c_ok_value _ Hco) as (v & Ev & Hv). xops.
  eapply runs_bind_eq; [by apply must_eq|]. xops. finish [v].
Qed.

Lemma opBlockhash_ok : exec_ok 1 1 None Plain false opBlockhash.
Proof.
  intros env calls bound [pc e c m st] He Hc Hpre. unfold opBlockhash.
  cell st x. open_pre. xops. pose proof (env_GetHash _ He). split_if; xops.
  - finish [GetHash (env_ctx env) (Uint64 x)].
  - finish [0].
Qed.

Lemma opPop_ok : exec_ok 1 0 None Plain false opPop.
Proof.
  intros env calls bound [pc e c m st] He Hc Hpre. unfold opPop.
  cell st x. open_pre. xops. finish (@nil Z).
Qed.

Lemma opJumpdest_ok : exec_ok 0 0 None Plain false opJumpdest.
Proof.
  intros env calls bound [pc e c m st] He Hc Hpre. unfold opJumpdest.
  open_pre. finish (@nil Z).
Qed.

Lemma opStop_ok : exec_ok 0 0 None Plain false opStop.
Proof.
  intros env calls bound [pc e c m st] He Hc Hpre. unfold opStop.
  open_pre. finish (@nil Z).
Qed.

(** ** Memory *)

Section mem_ops.
Context (pc : Z) (e : EVMState S) (c : Contract) (m : Memory) (st : Stack).
Context (Hm : mem_small m).

(** What a covered window is. *)
Lemma covered off size :
  is_word off -> is_word size -> calcMemSize off size <= mem_Len m ->
  size = 0 \/ (0 < size /\ 0 <= off /\ off + size <= mem_Len m /\
              off < 2 ^ 63 /\ size <= 2 ^ 40).
Proof.
  unfold is_word. intros Ho Hs Hc. destruct (decide (size = 0)); [by left|right].
  destruct (calcMemSize_covers off size) as [Hk _]; [lia..|]. unfold mem_small in Hm. lia.
Qed.

Lemma window_ok off size :
  is_word off -> is_word size -> calcMemSize off size <= mem_Len m ->
  0 <= Int64 size /\
  (0 < Int64 size -> 0 <= Int64 off /\ Int64 off + Int64 size <= mem_Len m) /\
  Int64 size <= 2 ^ 40.
Proof.
  intros Ho Hs Hc. destruct (covered off size Ho Hs Hc) as [->|(? & ? & ? & ? & ?)].
  - change (Int64 0) with 0. lia.
  - rewrite !Int64_small by lia. lia.
Qed.

Lemma m_get_ok off size :
  is_word off -> is_word size -> calcMemSize off size <= mem_Len m ->
  exists d, m_get (Int64 off) (Int64 size) (mkFrame pc e c m st) =
              Ret (d, mkFrame pc e c m st) /\ short d /\ zlen d <= Int64 size.
Proof.
  intros Ho Hs Hc. destruct (window_ok off size Ho Hs Hc) as (H0 & H1 & H2).
  unfold m_get, bind, get, must. cbn [f_mem]. rewrite mem_Get_ok by done.
  eexists. split; [done|]. unfold short, zlen. rewrite length_take. lia.
Qed.

Lemma m_getptr_ok off size :
  is_word off -> is_word size -> calcMemSize off size <= mem_Len m ->
  exists d, m_getptr (Int64 off) (Int64 size) (mkFrame pc e c m st) =
              Ret (d, mkFrame pc e c m st) /\ short d.
Proof.
  intros Ho Hs Hc. destruct (window_ok off size Ho Hs Hc) as (H0 & H1 & H2).
  unfold m_getptr, bind, get, must. cbn [f_mem]. rewrite mem_GetPtr_ok by done.
  eexists. split; [done|]. unfold short, zlen. rewrite length_take. lia.
Qed.

Lemma Uint64_small x : 0 <= x < 2 ^ 64 -> Uint64 x = x.
Proof. intros. unfold Uint64. rewrite Z.abs_eq, u64_small; unfold is_u64; lia. Qed.

Lemma m_set_ok off size v :
  is_word off -> is_word size -> calcMemSize off size <= mem_Len m ->
  exists m', m_set (Uint64 off) (Uint64 size) v (mkFrame pc e c m st) =
              Ret (tt, mkFrame pc e c m' st) /\ mem_small m' /\ mem_Len m' = mem_Len m.
Proof.
  intros Ho Hs Hc. unfold m_set, bind, get, must. cbn [f_mem].
  assert (0 <= Uint64 size /\
    (0 < Uint64 size -> 0 <= Uint64 off /\ Uint64 off + Uint64 size <= mem_Len m)) as [H0 H1].
  { destruct (covered off size Ho Hs Hc) as [->|(? & ? & ? & ? & ?)].
    - change (Uint64 0) with 0. lia.
    - rewrite !Uint64_small by lia. lia. }
  destruct (mem_Set_ok m (Uint64 off) (Uint64 size) v Hm H0 H1) as (m' & -> & Hl & _).
  eexists. split; [done|]. split; [|done]. unfold mem_small in *. lia.
Qed.

Lemma getDataBig_ok data start off size :
  short data -> is_word start -> is_word off -> is_word size ->
  calcMemSize off size <= mem_Len m -> exists d, getDataBig data start size = Some d.
Proof.
  intros Hd Hst Ho Hs Hc. unfold short, is_word in *.
  destruct (covered off size Ho Hs Hc) as [->|(? & ? & ? & ? & ?)];
    eexists; apply getDataBig_padded; lia.
Qed.
End mem_ops.

(** Copy [d] to the covered window, the end of the copying instructions. *)
Ltac copy_out off len :=
  match goal with
  | Hme : mem_small ?m, Hcov : calcMemSize _ _ <= mem_Len ?m
    |- runs (bind (m_set _ _ ?d) _) (mkFrame ?pc ?e ?c ?m ?st) _ =>
      destruct (m_set_ok pc e c m st Hme off len d) as (?m' & ?E & ?Hm' & _); [done..|];
      eapply runs_bind_eq; [eassumption|]
  end.

Lemma opMload_ok : exec_ok 1 1 (Some memoryMLoad) Plain false opMload.
Proof.
  intros env calls bound [pc e c m st] He Hc Hpre. unfold opMload.
  cell st off. cell_words. open_pre. covers Hcov. xops.
  destruct (m_get_ok pc e c m st Hme off 32) as (d & E & _ & Hd); [done..|].
  change (Int64 32) with 32 in *. eapply runs_bind_eq; [exact E|].
  xops. finish [SetBytes d]. by apply SetBytes_word.
Qed.

Lemma opMstore_ok : exec_ok 2 0 (Some memoryMStore) Plain false opMstore.
Proof.
  intros env calls bound [pc e c m st] He Hc Hpre. unfold opMstore.
  cell st off. cell st v. cell_words. open_pre. covers Hcov. xops.
  destruct (covered m Hme off 32) as [|(? & ? & ? & ? & ?)]; [done..|].
  rewrite Uint64_small by lia.
  destruct (mem_Set32_ok m off v Hme) as (m' & -> & Hl & _); [lia..|].
  eapply runs_bind_eq; [by apply must_eq|]. xops. finish (@nil Z).
  unfold mem_small in *. lia.
Qed.

Lemma opMstore8_ok : exec_ok 2 0 (Some memoryMStore8) Plain false opMstore8.
Proof.
  intros env calls bound [pc e c m st] He Hc Hpre. unfold opMstore8.
  cell st off. cell st v. cell_words. open_pre. covers Hcov. xops.
  destruct (covered m Hme off 1) as [|(? & ? & ? & ? & ?)]; [done..|].
  rewrite (Int64_small off) by lia.
  destruct (mem_SetByte_ok m off (Zbyte (Z.land (Int64 v) 0xff))) as (m' & -> & Hl & _);
    [lia|].
  eapply runs_bind_eq; [by apply must_eq|]. xops. finish (@nil Z).
  unfold mem_small in *. lia.
Qed.

Lemma opCallDataCopy_ok : exec_ok 3 0 (Some memoryCallDataCopy) Plain false opCallDataCopy.
Proof.
  intros env calls bound [pc e c m st] He Hc Hpre. unfold opCallDataCopy.
  cell st mo. cell st off. cell st len. cell_words. open_pre. covers Hcov. xops.
  destruct (getDataBig_ok m Hme (c_Input c) off mo len) as [d ->]; try done; [apply Hco|].
  eapply runs_bind_eq; [by apply must_eq|]. copy_out mo len. finish (@nil Z).
Qed.

Lemma opCodeCopy_ok : exec_ok 3 0 (Some memoryCodeCopy) Plain false opCodeCopy.
Proof.
  intros env calls bound [pc e c m st] He Hc Hpre. unfold opCodeCopy.
  cell st mo. cell st off. cell st len. cell_words. open_pre. covers Hcov. xops.
  destruct (getDataBig_ok m Hme (c_Code c) off mo len) as [d ->]; try done; [apply Hco|].
  eapply runs_bind_eq; [by apply must_eq|]. copy_out mo len. finish (@nil Z).
Qed.

Lemma opExtCodeCopy_ok : exec_ok 4 0 (Some memoryExtCodeCopy) Plain false opExtCodeCopy.
Proof.
  intros env calls bound [pc e c m st] He Hc Hpre. unfold opExtCodeCopy.
  cell st a. cell st mo. cell st off. cell st len. cell_words. open_pre. covers Hcov. xops.
  xread spec_GetCode.
  destruct (getDataBig_ok m Hme (w_GetCode (view (e_StateDB e)) (BigToAddress a)) off mo len)
    as [d ->]; try done.
  { apply view_ok, Hev. }
  eapply runs_bind_eq; [by apply must_eq|]. copy_out mo len. finish (@nil Z).
  by apply quiet_step.
Qed.

Lemma opReturnDataCopy_ok :
  exec_ok 3 0 (Some memoryReturnDataCopy) Plain false opReturnDataCopy.
Proof.
  intros env calls bound [pc e c m st] He Hc Hpre. unfold opReturnDataCopy.
  cell st mo. cell st off. cell st len. cell_words. open_pre. covers Hcov. xops.
  destruct (_ || _) eqn:E; [finish (@nil Z)|]. zbool. unfold is_word in *.
  rewrite (Uint64_exact (off + len)) in * by lia.
  rewrite Uint64_small by (assert (off + len < 2 ^ 64); [|lia];
    rewrite <- (Z.abs_eq (off + len)) by lia; apply BitLen_le; lia).
  rewrite slice_Some by lia.
  eapply runs_bind_eq; [by apply must_eq|]. copy_out mo len. finish (@nil Z).
Qed.

Lemma opCallDataLoad_ok : exec_ok 1 1 None Plain false opCallDataLoad.
Proof.
  intros env calls bound [pc e c m st] He Hc Hpre. unfold opCallDataLoad.
  cell st off. cell_words. open_pre. xops. unfold is_word in *.
  pose proof (c_ok_Input _ Hco) as Hi. unfold short in Hi.
  rewrite getDataBig_padded by lia.
  eapply runs_bind_eq; [by apply must_eq|]. xops.
  finish [SetBytes (padded (c_Input c) (Z.min off (zlen (c_Input c))) 32)].
  apply SetBytes_word. by rewrite zlen_padded.
Qed.

(** ** Reads of the state *)

Lemma opBalance_ok : exec_ok 1 1 None Plain false opBalance.
Proof.
  intros env calls bound [pc e c m st] He Hc Hpre. unfold opBalance.
  cell st a. open_pre. xops. xread spec_GetBalance. xops.
  finish [w_GetBalance (view (e_StateDB e)) (BigToAddress a)].
  - by apply quiet_step.
  - apply balance_word, Hev.
Qed.

Lemma opExtCodeSize_ok : exec_ok 1 1 None Plain false opExtCodeSize.
Proof.
  intros env calls bound [pc e c m st] He Hc Hpre. unfold opExtCodeSize.
  cell st a. open_pre. xops. xread spec_GetCodeSize. xops.
  finish [u64 (zlen (w_GetCode (view (e_StateDB e)) (BigToAddress a)))].
  - by apply quiet_step.
  - match goal with |- is_word (u64 ?x) => pose proof (u64_range x) as Hu end.
    unfold is_u64 in Hu. apply small_word. lia.
Qed.

Lemma opSload_ok : exec_ok 1 1 None Plain false opSload.
Proof.
  intros env calls bound [pc e c m st] He Hc Hpre. unfold opSload.
  cell st a. open_pre. xops. xread spec_GetState. xops.
  finish [w_GetState (view (e_StateDB e)) (c_self c) (BigToHash a)].
  - by apply quiet_step.
  - by apply view_ok, Hev.
Qed.
End exec.
