(* ===== verification/ExecFlow.v ===== *)
(** * Jumps, writes and calls keep the invariant

    The rest of the execution functions: control flow, the stack shuffles, the
    instructions that write, and those that call back into the EVM. *)

From Stdlib Require Import ZArith Lia Bool.
From S2P Require Import Prelude GoMath Params VmStack VmMemory Opcodes Analysis.
From S2P Require Import StateInterface World Machine Gas Instructions JumpTable.
From S2P Require Import Precompiles Interpreter EvmInv ExecSafe.
Local Open Scope Z_scope.
Local Open Scope go_scope.

Section flow.
Context {C : Crypto} {S : Type} `{SDB : !StateDB S} {SPEC : StateDBSpec S}.
Context {CS : CryptoSizes C} {CI : CodeHashIdeal C}.
Implicit Types (env : Env S) (calls : Calls S).

(** ** Jumps *)

(** The jump analysis of the running contract, against its specification. *)
Lemma hasJumpdest_ok c pos :
  contract_ok c -> c_Code c <> [] -> 0 <= pos ->
  exists b d', has (c_jumpdests c) (c_CodeHash c) (c_Code c) pos = Ret (b, d') /\
    (b = true <-> valid_jumpdest (c_Code c) pos) /\ cache_good d'.
Proof.
  intros [] Hne Hp. destruct c_ok_hash as [|Hh]; [done|]. rewrite Hh.
  destruct (has_spec (c_jumpdests c) (Keccak256Hash (c_Code c)) (c_Code c) pos)
    as (b & d' & E & Hb & Hc & Ho); [done..|].
  exists b, d'. split; [done|]. split; [done|]. intros code.
  destruct (decide (Keccak256Hash code = Keccak256Hash (c_Code c))) as [Eq|Nq].
  - by rewrite (Keccak256Hash_inj _ _ Eq).
  - unfold cache_ok. rewrite Ho by done. apply c_ok_jumpdests.
Qed.

(** The two outcomes of a jump. *)
Lemma jumpTo_eq pc (e : EVMState S) c m st pos :
  contract_ok c -> c_Code c <> [] -> is_word pos ->
  exists d', cache_good d' /\
    ((valid_jumpdest (c_Code c) pos /\
      jumpTo pos (mkFrame pc e c m st) =
        Ret (([], None), mkFrame pos e (with_jumpdests c d') m st)) \/
     (~ valid_jumpdest (c_Code c) pos /\
      jumpTo pos (mkFrame pc e c m st) =
        Ret (([], Some (errInvalidJump (GetOp c (Uint64 pos)) pos)),
             mkFrame pc e (with_jumpdests c d') m st))).
Proof.
  intros Hc Hne Hp. destruct (hasJumpdest_ok c pos Hc Hne) as (b & d' & E & Hb & Hd);
    [apply Hp|].
  exists d'. split; [done|]. unfold jumpTo, hasJumpdest, bind, get. cbn [f_contract].
  rewrite E. destruct b.
  - left. assert (valid_jumpdest (c_Code c) pos) as Hv by by apply Hb. split; [done|].
    destruct Hv as [_ Hi]. unfold index in Hi.
    destruct (0 <=? pos) eqn:E0; [|done]. zbool. apply lookup_lt_Some in Hi.
    pose proof (c_ok_Code _ Hc) as Hs. unfold short, zlen in Hs.
    rewrite Uint64_small by lia. done.
  - right. split; [|done]. intros Hv. by apply Hb in Hv.
Qed.

Lemma valid_jumpdest_lt code pos : valid_jumpdest code pos -> 0 <= pos < zlen code.
Proof.
  intros [_ Hi]. unfold index in Hi. destruct (0 <=? pos) eqn:E0; [|done]. zbool.
  apply lookup_lt_Some in Hi. unfold zlen. lia.
Qed.

Lemma exec_post_jump env bound npop msz writes pc e c m st r d' pc' st' :
  exec_pre env bound npop msz Plain writes (mkFrame pc e c m st) ->
  cache_good d' -> 0 <= pc' < zlen (c_Code c) + 1 ->
  st' = drop (Z.to_nat npop) st -> short r.1 ->
  exec_post env npop 0 Plain (mkFrame pc e c m st) r
    (mkFrame pc' e (with_jumpdests c d') m st').
Proof.
  intros [[He Hc Hm Hst] ? Hpc] Hd Hp -> Hr. cbn in *. split; cbn; try done.
  - rewrite Z.add_0_r. exists (c_Gas c), d'. split; [by destruct c|]. split; [done|].
    pose proof (c_ok_Gas _ Hc). lia.
  - exists []. split; [done|]. split; [done|]. apply Forall_nil_2.
  - lia.
Qed.

Lemma short_nil : short [].
Proof. unfold short. done. Qed.

Lemma code_nonempty (c : Contract) pc : 0 <= pc < zlen (c_Code c) -> c_Code c <> [].
Proof. intros H E. rewrite E in H. change (zlen []) with 0 in H. lia. Qed.

Lemma opJump_ok : exec_ok 1 0 None Plain false opJump.
Proof.
  intros env calls bound [pc e c m st] He Hc Hpre. unfold opJump.
  cell st pos. cell_words. open_pre. xops.
  destruct (jumpTo_eq pc e c m st pos Hco (code_nonempty _ _ Hpc) Wx)
    as (d' & Hd & [[Hv Ej]|[Hv Ej]]); eexists _, _; (split; [exact Ej|]).
  - apply valid_jumpdest_lt in Hv.
    eapply exec_post_jump; [done|done|lia|done|apply short_nil].
  - eapply exec_post_jump; [done|done|lia|done|apply short_nil].
Qed.

Lemma opJumpi_ok : exec_ok 2 0 None Plain false opJumpi.
Proof.
  intros env calls bound [pc e c m st] He Hc Hpre. unfold opJumpi.
  cell st pos. cell st cond. cell_words. open_pre. xops. split_if.
  - destruct (jumpTo_eq pc e c m st pos Hco (code_nonempty _ _ Hpc) Wx)
      as (d' & Hd & [[Hv Ej]|[Hv Ej]]); eexists _, _; (split; [exact Ej|]).
    + apply valid_jumpdest_lt in Hv.
      eapply exec_post_jump; [done|done|lia|done|apply short_nil].
    + eapply exec_post_jump; [done|done|lia|done|apply short_nil].
  - xops. unfold done_nil. apply runs_ret. pose proof (c_ok_Code _ Hco) as Hs.
    unfold short in Hs. rewrite u64_small by (unfold is_u64; lia).
    replace c with (with_jumpdests c (c_jumpdests c)) at 2 by by destruct c.
    eapply exec_post_jump; [done|apply Hco|lia|done|apply short_nil].
Qed.

Lemma opReturn_ok : exec_ok 2 0 (Some memoryReturn) Plain false opReturn.
Proof.
  intros env calls bound [pc e c m st] He Hc Hpre. unfold opReturn.
  cell st off. cell st len. cell_words. open_pre. covers Hcov. xops.
  destruct (m_getptr_ok pc e c m st Hme off len) as (d & E & Hd); [done..|].
  eapply runs_bind_eq; [exact E|]. finish (@nil Z).
Qed.

Lemma opRevert_ok : exec_ok 2 0 (Some memoryRevert) Plain false opRevert.
Proof.
  intros env calls bound [pc e c m st] He Hc Hpre. unfold opRevert.
  cell st off. cell st len. cell_words. open_pre. covers Hcov. xops.
  destruct (m_getptr_ok pc e c m st Hme off len) as (d & E & Hd); [done..|].
  eapply runs_bind_eq; [exact E|]. finish (@nil Z).
Qed.

(** ** Stack shuffles *)

Lemma makePush_ok n :
  1 <= n <= 32 -> exec_ok 0 1 None Plain false (makePush n n).
Proof.
  intros Hn env calls bound [pc e c m st] He Hc Hpre. unfold makePush. open_pre. xops.
  pose proof (c_ok_Code _ Hco) as Hs. unfold short in Hs.
  rewrite (u64_small (pc + 1)) by (unfold is_u64; lia). rewrite (i64_small (pc + 1)) by lia.
  set (lo := if pc + 1 <? zlen (c_Code c) then pc + 1 else zlen (c_Code c)).
  set (hi := if lo + n <? zlen (c_Code c) then lo + n else zlen (c_Code c)).
  assert (0 <= lo <= zlen (c_Code c)) by (unfold lo; split_if; lia).
  assert (lo <= hi <= zlen (c_Code c) /\ hi - lo <= n) as [? ?] by (unfold hi; split_if; lia).
  eapply runs_bind_eq; [apply must_eq, slice_Some; lia|].
  set (d := take _ _). xops. unfold done_nil. apply runs_ret.
  rewrite (u64_small (pc + n)) by (unfold is_u64; lia).
  split; cbn; try done.
  - rewrite Z.add_0_r. by apply contract_step_refl.
  - exists [SetBytes (RightPadBytes d n)]. split; [done|]. split; [done|].
    apply Forall_singleton, SetBytes_word. rewrite zlen_RightPadBytes.
    unfold d, zlen. rewrite length_take. lia.
  - lia.
Qed.

Lemma makeDup_ok n :
  exec_ok (Z.of_nat (Datatypes.S n)) (Z.of_nat (Datatypes.S n) + 1) None Plain false
    (makeDup (Datatypes.S n)).
Proof.
  intros env calls bound [pc e c m st] He Hc Hpre. unfold makeDup. open_pre. xops.
  pose proof (pre_stack _ _ _ _ _ _ _ Hpre) as Hl. cbn [f_stack] in Hl. unfold zlen in Hl.
  pose proof (frame_stack _ F) as Hw. cbn [f_stack] in Hw.
  destruct (lookup_lt_is_Some_2 st n ltac:(lia)) as [x Hx].
  eapply runs_bind_eq; [apply must_eq; unfold dup; by rewrite Hx|]. xops.
  unfold done_nil, push. apply runs_ret.
  eapply (exec_post_plain _ _ _ _ _ _ _ _ _ _ _ (x :: take (Datatypes.S n) st)); try done.
  - rewrite Nat2Z.id. cbn [app]. by rewrite take_drop.
  - rewrite zlen_cons. unfold zlen. rewrite length_take. lia.
  - apply Forall_cons. split; [by eapply Forall_lookup_1|]. by apply Forall_take.
Qed.

Lemma makeSwap_ok n :
  exec_ok (Z.of_nat n + 1) (Z.of_nat n + 1) None Plain false (makeSwap n).
Proof.
  intros env calls bound [pc e c m st] He Hc Hpre. unfold makeSwap. open_pre. xops.
  pose proof (pre_stack _ _ _ _ _ _ _ Hpre) as Hl. cbn [f_stack] in Hl. unfold zlen in Hl.
  pose proof (frame_stack _ F) as Hw. cbn [f_stack] in Hw.
  destruct (swap (Datatypes.S n) st) as [st'|] eqn:E.
  2: { exfalso. unfold swap in E. destruct st as [|y st]; [cbn in Hl; lia|].
       destruct (lookup_lt_is_Some_2 (y :: st) n ltac:(lia)) as [x Hx].
       by rewrite Hx in E. }
  eapply runs_bind_eq; [by apply must_eq|]. xops. unfold done_nil. apply runs_ret.
  destruct (swap_spec _ _ _ E) as (_ & _ & Ho).
  eapply (exec_post_plain _ _ _ _ _ _ _ _ _ _ _ (take (Datatypes.S n) st')); try done.
  - replace (Z.to_nat (Z.of_nat n + 1)) with (Datatypes.S n) by lia.
    rewrite <- (take_drop (Datatypes.S n) st') at 1. f_equal.
    apply list_eq. intros i. rewrite !lookup_drop. apply Ho; lia.
  - unfold zlen. rewrite length_take. lia.
  - apply Forall_take. by eapply swap_words.
Qed.

(** ** Writes *)

Lemma not_static env bound npop msz kind f :
  exec_pre env bound npop msz kind true f -> static env (f_evm f) = false.
Proof.
  intros H. destruct (static env (f_evm f)) eqn:E; [|done].
  by apply (pre_static _ _ _ _ _ _ _ H) in E.
Qed.

(** A write to the database. *)
Ltac xwrite env spec :=
  apply runs_bind, runs_db;
  eapply (runs_write _ ltac:(eassumption) env);
  [apply spec; first [by apply evm_inv | idtac] | |].

Lemma opSha3_ok : exec_ok 2 1 (Some memorySha3) Plain false opSha3.
Proof.
  intros env calls bound [pc e c m st] He Hc Hpre. unfold opSha3.
  cell st off. cell st len. cell_words. open_pre. covers Hcov. xops.
  destruct (m_get_ok pc e c m st Hme off len) as (d & E & Hd & _); [done..|].
  eapply runs_bind_eq; [exact E|]. cbv zeta.
  assert (is_word (SetBytes (Keccak256 d))).
  { apply SetBytes_word. by rewrite Keccak256_length. }
  destruct (env_EnablePreimageRecording env).
  - xwrite env spec_AddPreimage; [apply evolves_AddPreimage|].
    intros _ e' Hs Hok _ _ _. xops. finish [SetBytes (Keccak256 d)].
  - xops. finish [SetBytes (Keccak256 d)].
Qed.

Lemma opSstore_ok : exec_ok 2 0 None Plain true opSstore.
Proof.
  intros env calls bound [pc e c m st] He Hc Hpre. unfold opSstore.
  pose proof (not_static _ _ _ _ _ _ Hpre) as Hns. cbn [f_evm] in Hns.
  cell st off. cell st v. open_pre. xops.
  xwrite env spec_SetState; [apply BigToHash_word|rewrite Hns; apply evolves_SetState|].
  intros _ e' Hs Hok _ _ _. finish (@nil Z).
Qed.

Lemma opSuicide_ok : exec_ok 1 0 None Plain true opSuicide.
Proof.
  intros env calls bound [pc e c m st] He Hc Hpre. unfold opSuicide.
  pose proof (not_static _ _ _ _ _ _ Hpre) as Hns. cbn [f_evm] in Hns.
  cell st b. open_pre. xops. xread spec_GetBalance. xops.
  set (bal := w_GetBalance (view (e_StateDB e)) (c_self c)).
  apply runs_bind, runs_db, runs_onDB.
  eapply runs_mono; [apply spec_AddBalance, Hok|]. intros _ d (Hi & Hv & Hsv).
  apply runs_bind, runs_db, runs_onDB.
  eapply runs_mono; [by apply spec_Suicide|]. intros _ d2 (_ & Hi2 & Hv2 & Hsv2).
  cbn [set_db e_StateDB] in *.
  assert (evolves false (e_view e) (view d2)) as Hevo.
  { rewrite Hv2, Hv. fold (e_view e'). rewrite (quiet_view _ _ Hq).
    apply evolves_suicide. }
  finish (@nil Z).
  - change (set_db d2 (set_db d e')) with (set_db d2 e').
    apply evm_ok_set_db; [done..|]. eapply evolves_ok; [apply Hev|done].
  - change (set_db d2 (set_db d e')) with (set_db d2 e'). destruct Hq.
    split; try done; cbn.
    + exists []. rewrite app_nil_r. unfold e_saved in *. cbn. congruence.
    + by rewrite Hns.
Qed.

Lemma popTopics_ok n : forall pc (e : EVMState S) c m st,
  (n <= length st)%nat ->
  exists ts, popTopics n (mkFrame pc e c m st) = Ret (ts, mkFrame pc e c m (drop n st)).
Proof.
  induction n as [|n IH]; intros pc e c m st Hl; [by exists []|].
  destruct st as [|x st]; cbn in Hl; [lia|].
  destruct (IH pc e c m st ltac:(lia)) as (ts & E).
  exists (BigToHash x :: ts). cbn [popTopics drop]. unfold bind. rewrite s_pop_eq, E. done.
Qed.

Lemma makeLog_ok n :
  exec_ok (Z.of_nat n + 2) 0 (Some memoryLog) Plain true (makeLog n).
Proof.
  intros env calls bound [pc e c m st] He Hc Hpre. unfold makeLog.
  pose proof (not_static _ _ _ _ _ _ Hpre) as Hns. cbn [f_evm] in Hns.
  cell st off. cell st len. cell_words. open_pre. covers Hcov. xops.
  pose proof (pre_stack _ _ _ _ _ _ _ Hpre) as Hl. cbn [f_stack] in Hl.
  rewrite !zlen_cons in Hl. unfold zlen in Hl.
  destruct (popTopics_ok n pc e c m st ltac:(lia)) as (ts & E).
  eapply runs_bind_eq; [exact E|].
  destruct (m_get_ok pc e c m (drop n st) Hme off len) as (d & Ed & Hd & _); [done..|].
  eapply runs_bind_eq; [exact Ed|]. xops.
  xwrite env spec_AddLog; [rewrite Hns; by apply evolves_accounts|].
  intros _ e' Hs Hok _ _ _. unfold done_nil. apply runs_ret.
  eapply (exec_post_plain _ _ _ _ _ _ _ _ _ _ _ []); try done.
  - replace (Z.to_nat (Z.of_nat n + 2)) with (Datatypes.S (Datatypes.S n)) by lia. done.
  - apply Forall_nil_2.
Qed.

(** ** Calls *)

(** The frame a returned call leaves behind. *)
Lemma exec_post_call env bound npop msz kind writes pc e c m st r e' gas g1 x m' st' y :
  exec_pre env bound npop msz kind writes (mkFrame pc e c m st) ->
  call_post env e gas r e' -> 0 <= g1 ->
  g1 + gas <= c_Gas c + callGasOf kind (mkFrame pc e c m st) ->
  mem_small m' -> is_word y -> st' = y :: drop (Z.to_nat npop) st -> short x.1 ->
  exec_post env npop 1 kind (mkFrame pc e c m st) x
    (mkFrame pc e' (with_jumpdests (with_gas c (u64 (g1 + cr_gas r))) (cr_jumpdests r)) m' st').
Proof.
  intros Hpre [] Hg1 Hg Hm Hy -> Hx. pose proof (pre_totalGas _ _ _ _ _ _ _ Hpre) as Ht.
  destruct Hpre as [[He Hc Hme Hst] ? Hpc]. unfold gas_limit in Ht.
  cbn [f_contract f_evm f_mem f_stack f_pc] in *.
  assert (u64 (g1 + cr_gas r) = g1 + cr_gas r) as Hu by (apply u64_small; unfold is_u64; lia).
  split; cbn [f_contract f_evm f_mem f_stack f_pc]; try done.
  - exists (g1 + cr_gas r), (cr_jumpdests r). rewrite Hu. split; [done|]. split; [done|lia].
  - exists [y]. split; [done|]. split; [done|]. by apply Forall_singleton.
  - lia.
Qed.

Lemma settle_eq r pc (e : EVMState S) c m st :
  settle r (mkFrame pc e c m st) =
    Ret (tt, mkFrame pc e (with_jumpdests (with_gas c (u64 (c_Gas c + cr_gas r)))
                             (cr_jumpdests r)) m st).
Proof. done. Qed.

Lemma finishCall_ok r ro rs pc (e : EVMState S) c m st :
  mem_small m -> is_word ro -> is_word rs -> calcMemSize ro rs <= mem_Len m ->
  exists m' y, finishCall r ro rs (mkFrame pc e c m st) =
      Ret ((cr_ret r, None),
           mkFrame pc e (with_jumpdests (with_gas c (u64 (c_Gas c + cr_gas r)))
                           (cr_jumpdests r)) m' (y :: st)) /\
    mem_small m' /\ is_word y.
Proof.
  intros Hm Ho Hs Hc. unfold finishCall.
  set (y := if bool_decide (cr_err r = None) then 1 else 0).
  assert (is_word y) by (unfold y; by case_bool_decide).
  destruct (m_set_ok pc e c m (y :: st) Hm ro rs (cr_ret r)) as (m' & E & Hm' & _);
    [done..|].
  destruct (_ || _).
  - exists m', y. split; [|done]. unfold bind. rewrite s_push_eq, E. done.
  - exists m, y. done.
Qed.

(** The gas of a created contract leaves its creator some. *)
Lemma create_gas_bound env g0 :
  0 <= g0 < gas_limit ->
  let gas := if IsEIP150 (env_chainConfig env) (BlockNumber (env_ctx env))
             then u64 (g0 - g0 / 64) else g0 in
  0 <= gas <= g0.
Proof.
  intros Hg gas. unfold gas_limit in Hg. unfold gas. split_if; [|lia].
  pose proof (Z.div_pos g0 64 ltac:(lia) ltac:(lia)).
  pose proof (Z.div_le_upper_bound g0 64 g0 ltac:(lia) ltac:(lia)).
  rewrite u64_small; unfold is_u64; lia.
Qed.

Lemma opCreate_ok : exec_ok 3 1 (Some memoryCreate) Creates true opCreate.
Proof.
  intros env calls bound [pc e c m st] He Hc Hpre. unfold opCreate.
  pose proof (not_static _ _ _ _ _ _ Hpre) as Hns. cbn [f_evm] in Hns.
  cell st v. cell st off. cell st len. cell_words. open_pre. covers Hcov. xops.
  destruct (m_get_ok pc e c m st Hme off len) as (input & E & Hd & _); [done..|].
  eapply runs_bind_eq; [exact E|]. xop.
  pose proof (create_gas_bound env (c_Gas c) (c_ok_Gas _ Hco)) as Hg. cbv zeta in Hg |- *.
  set (gas := if IsEIP150 _ _ then _ else _) in *.
  pose proof (c_ok_Gas _ Hco) as Hcg. unfold gas_limit in Hcg.
  rewrite UseGas_spec by (unfold is_u64; lia).
  replace (c_Gas c <? gas) with false by lia. xop. cbn [snd].
  apply runs_bind, runs_onEVM.
  eapply runs_mono.
  { apply (calls_Create _ _ _ Hc); [|done|done]. split; [done|by apply contract_ref_ok|done|].
    pose proof (pre_calleeGas _ _ _ _ _ _ _ Hpre ltac:(done)) as Hb. cbn in Hb. lia. }
  intros [r addr] e' (Hp & Ha & _). cbn [fst snd] in *.
  assert (exists y, is_word y /\
    (if IsHomestead (env_chainConfig env) (BlockNumber (env_ctx env)) &&
        bool_decide (cr_err r = Some ErrCodeStoreOutOfGas) then s_push (S := S) 0
     else if bool_decide (cr_err r <> None) &&
             negb (bool_decide (cr_err r = Some ErrCodeStoreOutOfGas)) then s_push 0
     else s_push addr) = s_push y) as (y & Hy & ->).
  { destruct (_ && _); [by exists 0|]. destruct (_ && _); [by exists 0|].
    exists addr. auto with width. }
  xop. eapply runs_bind_eq; [apply settle_eq|].
  assert (forall x, short x.1 ->
    exec_post env 3 1 Creates (mkFrame pc e c m (v :: off :: len :: st)) x
      (mkFrame pc e' (with_jumpdests (with_gas c (u64 (c_Gas c - gas + cr_gas r)))
         (cr_jumpdests r)) m (y :: st))) as Hpost.
  { intros x Hx. eapply (exec_post_call _ _ _ _ _ _ _ _ _ _ _ r e' gas); try done; cbn; lia. }
  case_bool_decide; apply runs_ret; apply Hpost; [apply Hp|apply short_nil].
Qed.

(** A window of the two that a call covers. *)
Lemma BigMax_le a b n : BigMax a b <= n -> a <= n /\ b <= n.
Proof. unfold BigMax. split_if; lia. Qed.

(** The four call instructions from the callee's return on. *)
Ltac after_call ro rs :=
  let r := fresh "r" in let e' := fresh "e'" in let Hp := fresh "Hp" in
  intros r e' (Hp & _);
  match goal with
  | Hme : mem_small ?m |- runs (finishCall _ _ _) (mkFrame ?pc _ ?c ?m ?st) _ =>
      destruct (finishCall_ok r ro rs pc e' c m st Hme) as (?m' & ?y & ?Ef & ?Hm' & ?Hy);
      [done..|]
  end;
  eexists _, _; split; [eassumption|];
  eapply exec_post_call;
  [ eassumption | exact Hp | | | done | done | done | apply Hp ].

Lemma opDelegateCall_ok :
  exec_ok 6 1 (Some memoryDelegateCall) CallsOnly false opDelegateCall.
Proof.
  intros env calls bound [pc e c m st] He Hc Hpre. unfold opDelegateCall.
  cell st g. cell st a. cell st io. cell st il. cell st ro. cell st rl.
  cell_words. open_pre. covers Hcov. apply BigMax_le in Hcov as [Hcr Hci]. xops.
  destruct (m_get_ok pc e c m st Hme io il) as (input & E & Hd & _); [done..|].
  eapply runs_bind_eq; [exact E|].
  pose proof (pre_calleeGas _ _ _ _ _ _ _ Hpre ltac:(done)) as Hb. cbn in Hb.
  pose proof (evm_callGasTemp _ Hev) as Hu. unfold is_u64 in Hu.
  apply runs_bind, runs_onEVM. eapply runs_mono.
  { apply (calls_DelegateCall _ _ _ Hc); [|apply BigToAddress_addr|by eexists _, _, _, _].
    split; [done|by apply contract_ref_ok|done|lia]. }
  after_call ro rl; [apply Hco|cbn; lia].
Qed.

Lemma opStaticCall_ok :
  exec_ok 6 1 (Some memoryStaticCall) CallsOnly false opStaticCall.
Proof.
  intros env calls bound [pc e c m st] He Hc Hpre. unfold opStaticCall.
  cell st g. cell st a. cell st io. cell st il. cell st ro. cell st rl.
  cell_words. open_pre. covers Hcov. apply BigMax_le in Hcov as [Hcr Hci]. xops.
  destruct (m_get_ok pc e c m st Hme io il) as (input & E & Hd & _); [done..|].
  eapply runs_bind_eq; [exact E|].
  pose proof (pre_calleeGas _ _ _ _ _ _ _ Hpre ltac:(done)) as Hb. cbn in Hb.
  pose proof (evm_callGasTemp _ Hev) as Hu. unfold is_u64 in Hu.
  apply runs_bind, runs_onEVM. eapply runs_mono.
  { apply (calls_StaticCall _ _ _ Hc); [|apply BigToAddress_addr].
    split; [done|by apply contract_ref_ok|done|lia]. }
  after_call ro rl; [apply Hco|cbn; lia].
Qed.

(** The gas of a callee that is sent value. *)
Lemma stipend_gas env bound npop msz kind writes pc e c m g a v st :
  kind = CallsValue \/ kind = CallsTransfer ->
  exec_pre env bound npop msz kind writes (mkFrame pc e c m (g :: a :: v :: st)) ->
  is_word v ->
  let gas := if negb (U256 v =? 0) then u64 (e_callGasTemp e + CallStipend)
             else e_callGasTemp e in
  gas = callGasOf kind (mkFrame pc e c m (g :: a :: v :: st)) /\ 0 <= gas <= bound.
Proof.
  intros Hk Hpre Hv gas.
  pose proof (pre_calleeGas _ _ _ _ _ _ _ Hpre ltac:(by destruct Hk as [-> | ->])) as Hb.
  pose proof (pre_totalGas _ _ _ _ _ _ _ Hpre) as Ht.
  pose proof (pre_frame _ _ _ _ _ _ _ Hpre) as [[] [] _ _]. cbn [f_evm f_contract] in *.
  assert (calleeGas kind (mkFrame pc e c m (g :: a :: v :: st)) =
          callGasOf kind (mkFrame pc e c m (g :: a :: v :: st))) as Eb by by destruct Hk as [-> | ->].
  rewrite Eb in Hb. unfold gas. rewrite U256_small by done.
  assert (callGasOf kind (mkFrame pc e c m (g :: a :: v :: st)) =
          e_callGasTemp e + if v =? 0 then 0 else CallStipend) as Ec by by destruct Hk as [-> | ->].
  rewrite Ec in *. unfold is_u64, gas_limit in *. unfold CallStipend in *.
  destruct (v =? 0); cbn [negb]; [lia|]. rewrite u64_small by (unfold is_u64; lia). lia.
Qed.

Lemma opCall_ok : exec_ok 7 1 (Some memoryCall) CallsTransfer false opCall.
Proof.
  intros env calls bound [pc e c m st] He Hc Hpre. unfold opCall.
  cell st g. cell st a. cell st v. cell st io. cell st il. cell st ro. cell st rl.
  cell_words. open_pre. covers Hcov. apply BigMax_le in Hcov as [Hcr Hci]. xops.
  destruct (m_get_ok pc e c m st Hme io il) as (input & E & Hd & _); [done..|].
  eapply runs_bind_eq; [exact E|]. cbv zeta.
  destruct (stipend_gas _ _ _ _ _ _ _ _ _ _ _ _ _ _ (or_intror eq_refl) Hpre Wx1)
    as [Hgas Hb]. cbv zeta in Hgas, Hb.
  apply runs_bind, runs_onEVM. eapply runs_mono.
  { apply (calls_Call _ _ _ Hc); [|apply BigToAddress_addr|apply U256_word|].
    - split; [done|by apply contract_ref_ok|done|exact Hb].
    - intros Hst. pose proof (pre_value _ _ _ _ _ _ _ Hpre eq_refl Hst) as Hv.
      cbn in Hv. apply (inj Some) in Hv. by rewrite Hv. }
  after_call ro rl; [apply Hco|]. rewrite Hgas. lia.
Qed.

Lemma opCallCode_ok : exec_ok 7 1 (Some memoryCall) CallsValue false opCallCode.
Proof.
  intros env calls bound [pc e c m st] He Hc Hpre. unfold opCallCode.
  cell st g. cell st a. cell st v. cell st io. cell st il. cell st ro. cell st rl.
  cell_words. open_pre. covers Hcov. apply BigMax_le in Hcov as [Hcr Hci]. xops.
  destruct (m_get_ok pc e c m st Hme io il) as (input & E & Hd & _); [done..|].
  eapply runs_bind_eq; [exact E|]. cbv zeta.
  destruct (stipend_gas _ _ _ _ _ _ _ _ _ _ _ _ _ _ (or_introl eq_refl) Hpre Wx1)
    as [Hgas Hb]. cbv zeta in Hgas, Hb.
  apply runs_bind, runs_onEVM. eapply runs_mono.
  { apply (calls_CallCode _ _ _ Hc); [|apply BigToAddress_addr|apply U256_word].
    split; [done|by apply contract_ref_ok|done|exact Hb]. }
  after_call ro rl; [apply Hco|]. rewrite Hgas. lia.
Qed.
End flow.
