(* ===== verification/TableSafe.v ===== *)
(** * Gas functions and every entry of the jump tables keep the invariant

    First the gas functions: they return, and with a price that covers the memory
    the instruction will use.

    [op_ok] ties together what the loop relies on in one entry: the execution
    function, the gas function, the stack validation and the memory function
    agree with each other.  It is proved for the four instruction sets. *)

From Stdlib Require Import ZArith Lia Bool.
From S2P Require Import Prelude GoMath Params VmStack VmMemory Opcodes Analysis StateInterface World Machine Gas Instructions JumpTable Precompiles.
From S2P Require Import Interpreter EvmInv ExecSafe ExecFlow.
Local Open Scope Z_scope.
Local Open Scope go_scope.

(** ** The gas functions

    For every gas function: it returns, it leaves program counter, contract,
    stack and memory contents alone, and a price it returns is a [uint64] that
    covers the gas handed to a callee plus at least one unit for an instruction
    after which the loop goes on.  A function that charges for memory has
    checked that the size is below 2^40.  Hence every continuing iteration
    consumes gas. *)

Section gas_safe.
Context {C : Crypto} {S : Type} `{SDB : !StateDB S} {SPEC : StateDBSpec S}.
Implicit Types (env : Env S) (f : Frame S).

(** ** What a gas function may change *)

Record gas_frame env f f' : Prop := {
  gf_pc : f_pc f' = f_pc f;
  gf_contract : f_contract f' = f_contract f;
  gf_stack : f_stack f' = f_stack f;
  gf_store : mem_store (f_mem f') = mem_store (f_mem f);
  gf_step : evm_step env (f_evm f) (f_evm f');
  gf_ok : evm_ok (f_evm f) -> evm_ok (f_evm f')
}.

#[export] Instance gas_frame_preorder env : PreOrder (gas_frame env).
Proof.
  split; [by intros f; split|].
  intros f1 f2 f3 [A1 B1 C1 D1 E1 F1] [A2 B2 C2 D2 E2 F2].
  split; try congruence; [by etrans|auto].
Qed.

Lemma gas_frame_ok env f f' : gas_frame env f f' -> frame_ok f -> frame_ok f'.
Proof.
  intros [A B C' D E F] [G H I J]. split; auto.
  - by rewrite B.
  - unfold mem_small, mem_Len in *. by rewrite D.
  - by rewrite C'.
Qed.

Lemma gas_frame_static env f f' :
  gas_frame env f f' -> static env (f_evm f') = static env (f_evm f).
Proof. intros [? ? ? ? [] _]. unfold static. by rewrite step_readOnly. Qed.

(** [m] returns from [f]; a result satisfies [P]. *)
Definition gas_run env f (m : M (Frame S) (checked Z)) (P : Z -> Frame S -> Prop) : Prop :=
  runs m f (fun r f' =>
    gas_frame env f f' /\ match r with inl _ => True | inr x => P x f' end).

Lemma gas_run_ok env f x (P : Z -> Frame S -> Prop) : P x f -> gas_run env f (ok x) P.
Proof. intros H. by apply runs_ret. Qed.

Lemma gas_run_fail env f e (P : Z -> Frame S -> Prop) : gas_run env f (fail e) P.
Proof. by apply runs_ret. Qed.

Lemma gas_run_mono env f m (P Q : Z -> Frame S -> Prop) :
  gas_run env f m P -> (forall x f', gas_frame env f f' -> P x f' -> Q x f') ->
  gas_run env f m Q.
Proof.
  intros H HQ. eapply runs_mono; [exact H|]. intros [e|x] f' [Hf HP]; [done|].
  split; [done|]. by apply HQ.
Qed.

Lemma gas_run_ebind env f m k (P Q : Z -> Frame S -> Prop) :
  gas_run env f m P ->
  (forall x f', gas_frame env f f' -> P x f' -> gas_run env f' (k x) Q) ->
  gas_run env f (ebind m k) Q.
Proof.
  intros Hm Hk. unfold gas_run, ebind. apply runs_bind. eapply runs_mono; [exact Hm|].
  intros [e|x] f' [Hf HP]; [by apply runs_ret|].
  eapply runs_mono; [by apply Hk|]. intros r f'' [Hf' HQ].
  split; [by etrans|done].
Qed.

(** ** Checked arithmetic *)

Lemma gas_run_add env f x y :
  is_u64 x -> is_u64 y ->
  gas_run env f (noOverflow (SafeAdd x y)) (fun z f' => z = x + y /\ is_u64 z /\ f' = f).
Proof.
  intros Hx Hy. unfold noOverflow. destruct (SafeAdd x y) as [z o] eqn:E. cbn [fst snd].
  destruct o; [apply gas_run_fail|]. apply gas_run_ok.
  apply SafeAdd_ok in E as [-> ?]; done.
Qed.

Lemma gas_run_mul env f x y :
  is_u64 x -> is_u64 y ->
  gas_run env f (noOverflow (SafeMul x y)) (fun z f' => is_u64 z /\ f' = f).
Proof.
  intros Hx Hy. unfold noOverflow. destruct (SafeMul x y) as [z o] eqn:E. cbn [fst snd].
  destruct o; [apply gas_run_fail|]. apply gas_run_ok.
  apply SafeMul_ok in E as [-> ?]; done.
Qed.

Lemma stack_lookup f n :
  Z.of_nat n < zlen (f_stack f) -> stack_words (f_stack f) ->
  exists v, f_stack f !! n = Some v /\ is_word v.
Proof.
  intros Hn Hw. unfold zlen in Hn.
  destruct (lookup_lt_is_Some_2 (f_stack f) n ltac:(lia)) as [v Hv].
  exists v. split; [done|]. by eapply Forall_lookup_1.
Qed.

Lemma gas_run_back env f n :
  frame_ok f -> Z.of_nat n < zlen (f_stack f) ->
  gas_run env f (backUint64 n) (fun z f' => is_u64 z /\ f' = f).
Proof.
  intros Hf Hn. destruct (stack_lookup f n Hn (frame_stack _ Hf)) as (v & Hv & Hw).
  unfold backUint64, gas_run. destruct f as [pc e c m st].
  eapply runs_bind_eq; [by apply s_back_eq|]. fold (gas_run env (mkFrame pc e c m st)).
  unfold noOverflow, bigUint64. cbn [fst snd].
  destruct (BitLen v >? 64); [apply gas_run_fail|]. apply gas_run_ok.
  split; [apply Uint64_u64|done].
Qed.

(** ** The memory fee *)

Definition max_mem : Z := 0xffffffffe0.

Lemma gas_run_mem env f ms :
  gas_run env f (memGas ms) (fun z f' => is_u64 z /\ ms <= max_mem /\ f_evm f' = f_evm f).
Proof.
  destruct f as [pc e c m st]. unfold gas_run, memGas. xop.
  assert (exists r m', memoryGasCost m ms = (r, m') /\ mem_store m' = mem_store m /\
    match r with inl _ => True | inr z => is_u64 z /\ ms <= max_mem end)
    as (r & m' & -> & Hm & Hr).
  { unfold memoryGasCost. cbv zeta. repeat split_if; eexists _, _; repeat split; try done;
      try (unfold max_mem; lia); apply u64_range. }
  xop. apply runs_ret. split; [by split|].
  destruct r; [done|]. by destruct Hr.
Qed.

(** ** The contract of a gas function *)

(** [mincost] is 1 for the instructions after which the loop goes on. *)
Definition gas_ok (n : Z) (hasmem : bool) (kind : opkind) (writes : bool) (mincost : Z)
    (g : gasFunc) : Prop :=
  forall env f ms,
    env_ok env -> frame_ok f -> n <= zlen (f_stack f) ->
    (static env (f_evm f) = true -> writes = false) ->
    gas_run env f (g (env_gasTable env) env ms) (fun cost f' =>
      is_u64 cost /\ (hasmem = true -> ms <= max_mem) /\
      mincost + callGasOf kind f' <= cost).

Lemma gasTable_cases env :
  env_gasTable env = GasTableEIP158 \/ env_gasTable env = GasTableEIP150 \/
  env_gasTable env = GasTableHomestead.
Proof.
  unfold env_gasTable, ChainConfig_GasTable. repeat split_if; auto.
Qed.

(** Every entry of the tables that is used as a price is a positive [uint64]. *)
Lemma gasTable_bounds env :
  let gt := env_gasTable env in
  1 <= gt_ExtcodeSize gt < 2 ^ 20 /\ 1 <= gt_ExtcodeCopy gt < 2 ^ 20 /\
  1 <= gt_Balance gt < 2 ^ 20 /\ 1 <= gt_SLoad gt < 2 ^ 20 /\
  1 <= gt_Calls gt < 2 ^ 20 /\ 0 <= gt_Suicide gt < 2 ^ 20 /\
  0 <= gt_ExpByte gt < 2 ^ 20 /\ 0 <= gt_CreateBySuicide gt < 2 ^ 20.
Proof. cbv zeta. destruct (gasTable_cases env) as [-> | [-> | ->]]; cbn; lia. Qed.

(** One checked operation of a gas function. *)
Ltac gas_step :=
  match goal with
  | Hok : frame_ok ?f, Hn : _ <= zlen (f_stack ?f) |- gas_run _ ?f _ _ =>
      eapply gas_run_ebind;
      [ first [ apply gas_run_mem
              | apply gas_run_add; first [done | by apply toWordSize_u64]
              | apply gas_run_mul; first [done | by apply toWordSize_u64]
              | apply gas_run_back; [done | lia] ]
      | let z := fresh "z" in let f1 := fresh "f1" in let Hf := fresh "Hf" in
        intros z f1 Hf; apply (gas_frame_ok _ _ _ Hf) in Hok;
        rewrite <- (gf_stack _ _ _ Hf) in Hn; clear Hf;
        let H := fresh "H" in intros H; cbv beta in H;
        repeat match type of H with
        | _ /\ _ => let H' := fresh "H" in destruct H as [H' H]
        end; try subst f1 ]
  end.

Lemma gas_run_last env f x y lo ms (hasmem : bool) :
  is_u64 x -> is_u64 y -> lo <= x + y -> (hasmem = true -> ms <= max_mem) ->
  gas_run env f (noOverflow (SafeAdd x y)) (fun cost f' =>
    is_u64 cost /\ (hasmem = true -> ms <= max_mem) /\ lo + callGasOf Plain f' <= cost).
Proof.
  intros Hx Hy Hlo Hm. eapply gas_run_mono; [by apply gas_run_add|].
  cbn. intros z f' _ (-> & Hz & ->). split; [done|]. split; [done|lia].
Qed.

Ltac gas_last :=
  apply gas_run_last;
  [ done | done
  | unfold is_u64, GasFastestStep, GasSlowStep, Sha3Gas, LogGas, CreateGas in *; lia
  | done ].

Lemma constGasFunc_ok n g mincost :
  0 <= mincost <= g -> g < 2 ^ 64 -> gas_ok n false Plain false mincost (constGasFunc g).
Proof.
  intros Hg Hb env f ms He Hf Hn Hw. apply gas_run_ok.
  split; [unfold is_u64; lia|]. split; [done|]. cbn. lia.
Qed.

Lemma gasCopy_ok (g : gasFunc) :
  (g = gasCallDataCopy \/ g = gasReturnDataCopy \/ g = gasCodeCopy) ->
  gas_ok 3 true Plain false 1 g.
Proof.
  intros Hg env f ms He Hok Hn Hw.
  destruct Hg as [-> | [-> | ->]];
    unfold gasCallDataCopy, gasReturnDataCopy, gasCodeCopy; repeat gas_step; gas_last.
Qed.

Lemma gasSha3_ok : gas_ok 2 true Plain false 1 gasSha3.
Proof. intros env f ms He Hok Hn Hw. unfold gasSha3. repeat gas_step. gas_last. Qed.

Lemma gasExtCodeCopy_ok : gas_ok 4 true Plain false 1 gasExtCodeCopy.
Proof.
  intros env f ms He Hok Hn Hw. unfold gasExtCodeCopy.
  destruct (gasTable_bounds env) as (_ & Hx & _).
  assert (is_u64 (gt_ExtcodeCopy (env_gasTable env))) by (unfold is_u64; lia).
  repeat gas_step. gas_last.
Qed.

Lemma makeGasLog_ok n : 0 <= n <= 4 -> gas_ok (n + 2) true Plain true 1 (makeGasLog n).
Proof.
  intros Hr env f ms He Hok Hn Hw. unfold makeGasLog.
  pose proof (u64_range (n * LogTopicGas)). repeat gas_step. gas_last.
Qed.

Lemma memGasOverflow_run env f ms :
  gas_run env f (memGasOverflow ms) (fun z f' => is_u64 z /\ ms <= max_mem).
Proof.
  unfold memGasOverflow, gas_run. apply runs_bind.
  eapply runs_mono; [apply (gas_run_mem env f ms)|].
  intros [e|z] f' [Hf H]; apply runs_ret; [done|]. destruct H as (? & ? & _). done.
Qed.

Lemma gasMWord_ok (g : gasFunc) :
  (g = gasMLoad \/ g = gasMStore \/ g = gasMStore8) -> gas_ok 1 true Plain false 1 g.
Proof.
  intros Hg env f ms He Hok Hn Hw.
  destruct Hg as [-> | [-> | ->]]; unfold gasMLoad, gasMStore, gasMStore8;
    (eapply gas_run_ebind; [apply memGasOverflow_run|]);
    intros z f1 Hf [Hz Hm]; gas_last.
Qed.

Lemma gasCreate_ok : gas_ok 3 true Creates true 1 gasCreate.
Proof. intros env f ms He Hok Hn Hw. unfold gasCreate. repeat gas_step. gas_last. Qed.

Lemma gasTablePrice_ok n (g : gasFunc) :
  (g = gasBalance \/ g = gasExtCodeSize \/ g = gasSLoad) -> gas_ok n false Plain false 1 g.
Proof.
  intros Hg env f ms He Hok Hn Hw. destruct (gasTable_bounds env) as (A & B & D & E & _).
  destruct Hg as [-> | [-> | ->]]; apply gas_run_ok; cbn; unfold is_u64; lia.
Qed.

Lemma gasFastest_ok n (g : gasFunc) :
  (g = gasPush \/ g = gasSwap \/ g = gasDup) -> gas_ok n false Plain false 1 g.
Proof.
  intros Hg env f ms He Hok Hn Hw.
  destruct Hg as [-> | [-> | ->]]; apply gas_run_ok; by cbn.
Qed.

Lemma gasExp_ok : gas_ok 2 false Plain false 1 gasExp.
Proof.
  intros env f ms He Hok Hn Hw. unfold gasExp, gas_run.
  destruct (stack_lookup f 1) as (v & Hv & _); [lia|apply Hok|].
  destruct f as [pc e c m st]. eapply runs_bind_eq; [by apply s_back_eq|].
  fold (gas_run env (mkFrame pc e c m st)).
  match goal with |- context [u64 ?x] => pose proof (u64_range x) end. gas_last.
Qed.

Lemma gasReturn_ok (g : gasFunc) :
  (g = gasReturn \/ g = gasRevert) -> gas_ok 2 true Plain false 0 g.
Proof.
  intros Hg env f ms He Hok Hn Hw.
  destruct Hg as [-> | ->];
    (eapply gas_run_mono; [apply gas_run_mem|]); cbn; unfold is_u64; intros; lia.
Qed.

(** ** Reads and refunds *)

Lemma gas_frame_evm env f e' :
  evm_step env (f_evm f) e' -> evm_ok e' -> gas_frame env f (set_evm e' f).
Proof. intros H1 H2. by split. Qed.

Lemma gas_run_db {A} env f (m : M S A) k (P : Z -> Frame S -> Prop) :
  runs (onDB m) (f_evm f) (fun r e' =>
    evm_step env (f_evm f) e' /\ evm_ok e' /\ gas_run env (set_evm e' f) (k r) P) ->
  gas_run env f (bind (db m) k) P.
Proof.
  intros H. unfold gas_run. apply runs_bind. apply runs_zoom.
  eapply runs_mono; [exact H|]. intros r e' (Hs & Hok & Hk).
  eapply runs_mono; [exact Hk|]. intros x f' [Hf HP]. split; [|done].
  etrans; [by apply gas_frame_evm|done].
Qed.

Lemma gas_run_read {A} env f (m : M S A) v k (P : Z -> Frame S -> Prop) :
  frame_ok f ->
  runs m (e_StateDB (f_evm f)) (fun r d =>
    r = v /\ db_inv d /\ view d = view (e_StateDB (f_evm f)) /\
    saved d = saved (e_StateDB (f_evm f))) ->
  (forall e', frame_ok (set_evm e' f) -> quiet (f_evm f) e' ->
     gas_run env (set_evm e' f) (k v) P) ->
  gas_run env f (bind (db m) k) P.
Proof.
  intros Hok Hm Hk. apply gas_run_db.
  eapply runs_read; [apply Hok|exact Hm|]. intros e' Hq He'.
  split; [by apply quiet_step|]. split; [done|]. apply Hk; [|done].
  destruct Hok. by split.
Qed.

Lemma gas_run_refund env f v x (P : Z -> Frame S -> Prop) :
  frame_ok f -> static env (f_evm f) = false ->
  (forall f', f_stack f' = f_stack f -> P x f') ->
  gas_run env f (db (AddRefund v) ;; ok x) P.
Proof.
  intros Hok Hs HP. apply gas_run_db.
  eapply (runs_write _ (frame_evm _ Hok) env); [apply spec_AddRefund, Hok| |].
  - rewrite Hs. by apply evolves_accounts.
  - intros _ e' Hst He' _ _ _. split; [done|]. split; [done|]. apply gas_run_ok. by apply HP.
Qed.

Lemma gas_run_s_back env f n v k (P : Z -> Frame S -> Prop) :
  f_stack f !! n = Some v -> gas_run env f (k v) P -> gas_run env f (bind (s_back n) k) P.
Proof.
  intros Hv Hk. destruct f as [pc e c m st]. unfold gas_run.
  eapply runs_bind_eq; [by apply s_back_eq|done].
Qed.

Lemma gas_run_get env f k (P : Z -> Frame S -> Prop) :
  gas_run env f (k f) P -> gas_run env f (bind get k) P.
Proof. intros Hk. unfold gas_run. eapply runs_bind_eq; [apply get_eq|done]. Qed.

(** The [writes] flag excludes static contexts. *)
Lemma writes_not_static env f :
  (static env (f_evm f) = true -> true = false) -> static env (f_evm f) = false.
Proof. intros H. destruct (static env (f_evm f)); [|done]. by discriminate H. Qed.

Lemma gasSStore_ok : gas_ok 2 false Plain true 1 gasSStore.
Proof.
  intros env f ms He Hok Hn Hw. apply writes_not_static in Hw. unfold gasSStore.
  destruct (stack_lookup f 1) as (y & Hy & _); [lia|apply Hok|].
  destruct (stack_lookup f 0) as (x & Hx & _); [lia|apply Hok|].
  eapply gas_run_s_back; [exact Hy|]. eapply gas_run_s_back; [exact Hx|].
  apply gas_run_get. eapply gas_run_read; [done|apply spec_GetState, Hok|].
  intros e' Hok' Hq. split_if; [by apply gas_run_ok|]. split_if.
  - apply gas_run_refund; [done| |by intros].
    unfold static in *. cbn [f_evm set_evm]. by rewrite (quiet_readOnly _ _ Hq).
  - by apply gas_run_ok.
Qed.

(** ** Calls *)

Lemma callGas_u64 gt avail base cost g : callGas gt avail base cost = inr g -> is_u64 g.
Proof.
  unfold callGas. cbv zeta. repeat split_if; intros [= <-]; [apply u64_range|apply Uint64_u64].
Qed.

Lemma gas_run_chargeCall env f gas :
  frame_ok f -> 1 <= zlen (f_stack f) -> is_u64 gas ->
  gas_run env f (chargeCall (env_gasTable env) gas) (fun cost f' =>
    is_u64 cost /\ f_stack f' = f_stack f /\ cost = gas + e_callGasTemp (f_evm f')).
Proof.
  intros Hok Hn Hg. destruct f as [pc e c m st]. unfold chargeCall.
  apply gas_run_get. destruct (stack_lookup (mkFrame pc e c m st) 0) as (v & Hv & _);
    [lia|apply Hok|].
  eapply gas_run_s_back; [exact Hv|].
  assert (forall t, is_u64 t ->
    gas_frame env (mkFrame pc e c m st) (mkFrame pc (set_callGasTemp t e) c m st)) as Hfr.
  { intros t Ht. split; try done.
    - split; try done. exists []. by rewrite app_nil_r.
    - intros []. by split. }
  destruct (callGas _ _ _ _) as [err|temp] eqn:E.
  - unfold gas_run. apply runs_bind, runs_onEVM, runs_modify, runs_ret.
    split; [by apply Hfr|done].
  - apply callGas_u64 in E. unfold gas_run. apply runs_bind, runs_onEVM, runs_modify.
    eapply runs_mono; [by apply (gas_run_add env _ gas temp)|].
    intros [err|z] f' [Hf Hz]; (split; [etrans; [by apply (Hfr temp)|done]|]); [done|].
    destruct Hz as (-> & Hu & ->). done.
Qed.

(** The price of a call: memory, base, and the gas of the callee. *)
Lemma gas_run_call env f gas lo kind ms :
  frame_ok f -> 1 <= zlen (f_stack f) -> is_u64 gas -> ms <= max_mem ->
  (forall f', f_stack f' = f_stack f ->
     lo + callGasOf kind f' <= gas + e_callGasTemp (f_evm f')) ->
  gas_run env f (chargeCall (env_gasTable env) gas) (fun cost f' =>
    is_u64 cost /\ (true = true -> ms <= max_mem) /\ lo + callGasOf kind f' <= cost).
Proof.
  intros Hok Hn Hg Hm Hlo. eapply gas_run_mono; [by apply gas_run_chargeCall|].
  intros cost f' _ (Hu & Hs & ->). split; [done|]. split; [done|]. by apply Hlo.
Qed.

Lemma gasDelegateCall_ok (g : gasFunc) :
  (g = gasDelegateCall \/ g = gasStaticCall) -> gas_ok 6 true CallsOnly false 1 g.
Proof.
  intros Hg env f ms He Hok Hn Hw.
  destruct (gasTable_bounds env) as (_ & _ & _ & _ & Hc & _).
  assert (is_u64 (gt_Calls (env_gasTable env))) by (unfold is_u64; lia).
  destruct Hg as [-> | ->]; unfold gasDelegateCall, gasStaticCall; repeat gas_step;
    (apply gas_run_call; [done|lia|done|done|]);
    intros f' _; cbn; unfold is_u64 in *; lia.
Qed.

(** The value of a call, seen from the price: a transfer costs more than the
    stipend it adds. *)
Lemma call_base_covers kind f' st v base :
  (kind = CallsValue \/ kind = CallsTransfer) -> st !! 2%nat = Some v ->
  f_stack f' = st -> 1 + (if v =? 0 then 0 else CallValueTransferGas) <= base ->
  1 + callGasOf kind f' <= base + e_callGasTemp (f_evm f').
Proof.
  intros Hk Hv Hs Hb.
  assert (callGasOf kind f' = e_callGasTemp (f_evm f') + if v =? 0 then 0 else CallStipend) as ->.
  { destruct Hk as [-> | ->]; cbn; by rewrite Hs, Hv. }
  unfold CallStipend, CallValueTransferGas in *. destruct (v =? 0); lia.
Qed.

Lemma gas_run_priced env f base v kind ms :
  (kind = CallsValue \/ kind = CallsTransfer) ->
  frame_ok f -> 7 <= zlen (f_stack f) -> f_stack f !! 2%nat = Some v -> is_u64 base ->
  1 + (if v =? 0 then 0 else CallValueTransferGas) <= base ->
  gas_run env f
    (let? memoryGas := memGas ms in
     let? gas := noOverflow (SafeAdd base memoryGas) in
     chargeCall (env_gasTable env) gas) (fun cost f' =>
    is_u64 cost /\ (true = true -> ms <= max_mem) /\ 1 + callGasOf kind f' <= cost).
Proof.
  intros Hk Hok Hn Hv Hb Hlo. eapply gas_run_ebind; [apply gas_run_mem|].
  intros z f1 Hf (Hz & Hm & _). apply (gas_frame_ok _ _ _ Hf) in Hok.
  rewrite <- (gf_stack _ _ _ Hf) in Hn, Hv.
  eapply gas_run_ebind; [by apply gas_run_add|]. intros g f2 _ (-> & Hu & ->).
  apply gas_run_call; [done|lia|done|done|]. intros f' Hs.
  eapply call_base_covers; [done|exact Hv|done|]. unfold is_u64 in *. lia.
Qed.

Lemma gasCallCode_ok : gas_ok 7 true CallsValue false 1 gasCallCode.
Proof.
  intros env f ms He Hok Hn Hw. unfold gasCallCode.
  destruct (stack_lookup f 2) as (v & Hv & _); [lia|apply Hok|].
  eapply gas_run_s_back; [exact Hv|].
  destruct (gasTable_bounds env) as (_ & _ & _ & _ & Hc & _).
  apply (gas_run_priced _ _ _ v); [by left|done|lia|done|..];
    destruct (v =? 0); cbn [negb]; rewrite ?u64_small; unfold is_u64, CallValueTransferGas; lia.
Qed.

Lemma gasCall_ok : gas_ok 7 true CallsTransfer false 1 gasCall.
Proof.
  intros env f ms He Hok Hn Hw. unfold gasCall.
  destruct (stack_lookup f 2) as (v & Hv & _); [lia|apply Hok|].
  destruct (stack_lookup f 1) as (a & Ha & _); [lia|apply Hok|].
  eapply gas_run_s_back; [exact Hv|]. eapply gas_run_s_back; [exact Ha|].
  destruct (gasTable_bounds env) as (_ & _ & _ & _ & Hc & _).
  assert (forall f', frame_ok f' -> f_stack f' = f_stack f -> forall newAccount : bool,
    gas_run env f'
      (let gas := if newAccount then u64 (gt_Calls (env_gasTable env) + CallNewAccountGas)
                  else gt_Calls (env_gasTable env) in
       let gas := if negb (v =? 0) then u64 (gas + CallValueTransferGas) else gas in
       let? memoryGas := memGas ms in
       let? gas := noOverflow (SafeAdd gas memoryGas) in
       chargeCall (env_gasTable env) gas) (fun cost f' =>
      is_u64 cost /\ (true = true -> ms <= max_mem) /\
      1 + callGasOf CallsTransfer f' <= cost)) as Hrest.
  { intros f' Hok' Hs b. cbv zeta.
    apply (gas_run_priced _ _ _ v); [by right|done|rewrite Hs; lia|by rewrite Hs|..];
      destruct b, (v =? 0); cbn [negb]; rewrite ?u64_small;
      unfold is_u64, CallValueTransferGas, CallNewAccountGas; rewrite ?u64_small;
      unfold is_u64; lia. }
  destruct (IsEIP158 _ _).
  - destruct (negb (v =? 0)) eqn:Ev.
    + eapply gas_run_read; [done|apply spec_Empty, Hok|]. intros e' Hok' Hq.
      by apply (Hrest _ Hok' eq_refl).
    + unfold gas_run. eapply runs_bind_eq; [apply ret_eq|]. by apply (Hrest f Hok eq_refl false).
  - unfold gas_run. apply runs_bind. apply runs_bind. apply runs_zoom.
    eapply runs_read; [apply Hok|apply spec_Exist, Hok|]. intros e' Hq He'. apply runs_ret.
    assert (frame_ok (set_evm e' f)) as Hok' by (destruct Hok; by split).
    eapply runs_mono; [by apply (Hrest _ Hok' eq_refl)|].
    intros r f' [Hf HP]. split; [|done]. etrans; [|exact Hf].
    apply gas_frame_evm; [by apply quiet_step|done].
Qed.

(** ** SELFDESTRUCT *)

(** Code that only reads the database. *)
Definition reads {A} f (m : M (Frame S) A) (P : A -> Prop) : Prop :=
  runs m f (fun x f' => exists e', f' = set_evm e' f /\ quiet (f_evm f) e' /\
    evm_ok e' /\ P x).

Lemma reads_ret {A} f (x : A) (P : A -> Prop) : frame_ok f -> P x -> reads f (ret x) P.
Proof.
  intros Hok HP. apply runs_ret. exists (f_evm f). split; [by destruct f|].
  split; [done|]. split; [apply Hok|done].
Qed.

Lemma reads_bind {A B} f (m : M (Frame S) A) (k : A -> M (Frame S) B) (P : A -> Prop)
    (Q : B -> Prop) :
  frame_ok f -> reads f m P ->
  (forall x f', frame_ok f' -> f_stack f' = f_stack f -> P x -> reads f' (k x) Q) ->
  reads f (bind m k) Q.
Proof.
  intros Hok Hm Hk. apply runs_bind. eapply runs_mono; [exact Hm|].
  intros x f' (e1 & -> & Hq1 & Hok1 & HP).
  assert (frame_ok (set_evm e1 f)) as Hok' by (destruct Hok; by split).
  eapply runs_mono; [by apply (Hk x _ Hok')|].
  intros y f'' (e2 & -> & Hq2 & Hok2 & HQ). exists e2. split; [done|].
  split; [by etrans|done].
Qed.

Lemma reads_db {A} f (m : M S A) v :
  frame_ok f ->
  runs m (e_StateDB (f_evm f)) (fun r d =>
    r = v /\ db_inv d /\ view d = view (e_StateDB (f_evm f)) /\
    saved d = saved (e_StateDB (f_evm f))) ->
  reads f (db m) (fun _ => True).
Proof.
  intros Hok Hm. apply runs_zoom. eapply runs_read; [apply Hok|exact Hm|].
  intros e' Hq He'. by exists e'.
Qed.

Lemma reads_back f n v :
  frame_ok f -> f_stack f !! n = Some v -> reads f (s_back n) (fun _ => True).
Proof.
  intros Hok Hv. destruct f as [pc e c m st]. eexists _, _.
  split; [by apply s_back_eq|]. exists e. split; [done|]. split; [done|].
  split; [apply Hok|done].
Qed.

Lemma gas_run_reads {A} env f (m : M (Frame S) A) (P : A -> Prop) k
    (Q : Z -> Frame S -> Prop) :
  frame_ok f -> reads f m P ->
  (forall x e', frame_ok (set_evm e' f) -> quiet (f_evm f) e' -> P x ->
     gas_run env (set_evm e' f) (k x) Q) ->
  gas_run env f (bind m k) Q.
Proof.
  intros Hok Hm Hk. unfold gas_run. apply runs_bind. eapply runs_mono; [exact Hm|].
  intros x f' (e1 & -> & Hq1 & Hok1 & HP).
  assert (frame_ok (set_evm e1 f)) as Hok' by (destruct Hok; by split).
  eapply runs_mono; [by apply (Hk x e1)|]. intros r f'' [Hf HQ]. split; [|done].
  etrans; [|exact Hf]. apply gas_frame_evm; [by apply quiet_step|done].
Qed.

Lemma gasSuicide_ok : gas_ok 1 false Plain true 0 gasSuicide.
Proof.
  intros env f ms He Hok Hn Hw. apply writes_not_static in Hw. unfold gasSuicide.
  apply gas_run_get. destruct (gasTable_bounds env) as (_ & _ & _ & _ & _ & Hs & _ & Hc).
  destruct (stack_lookup f 0) as (a & Ha & _); [lia|apply Hok|].
  eapply gas_run_reads with (P := fun g => is_u64 g); [done| |].
  - destruct (IsEIP150 _ _); [|by apply reads_ret].
    eapply reads_bind; [done|by eapply reads_back|]. intros b f1 Hok1 Hs1 _.
    eapply reads_bind with (P := fun _ => True); [done| |].
    + destruct (IsEIP158 _ _).
      * eapply reads_bind; [done|eapply reads_db; [done|apply spec_Empty, Hok1]|].
        intros e f2 Hok2 _ _. destruct e; [|by apply reads_ret].
        eapply reads_bind; [done|eapply reads_db; [done|apply spec_GetBalance, Hok2]|].
        intros bal f3 Hok3 _ _. by apply reads_ret.
      * eapply reads_bind; [done|eapply reads_db; [done|apply spec_Exist, Hok1]|].
        intros e f2 Hok2 _ _. by apply reads_ret.
    + intros created f2 Hok2 _ _. apply reads_ret; [done|].
      destruct created; [apply u64_range|]. unfold is_u64. lia.
  - intros g e1 Hok1 Hq1 Hg.
    eapply gas_run_read; [done|apply spec_HasSuicided, Hok1|]. intros e2 Hok2 Hq2.
    destruct (w_HasSuicided _ _).
    + unfold gas_run. eapply runs_bind_eq; [apply ret_eq|]. apply gas_run_ok. cbn.
      unfold is_u64 in *. lia.
    + apply gas_run_refund; [done| |].
      * unfold static in *. cbn [f_evm set_evm] in *.
        by rewrite (quiet_readOnly _ _ Hq2), (quiet_readOnly _ _ Hq1).
      * intros f' _. cbn. unfold is_u64 in *. lia.
Qed.
End gas_safe.

Create HintDb evm_ops discriminated.
#[local] Hint Constants Opaque : evm_ops.

Section table.
Context {C : Crypto} {S : Type} `{SDB : !StateDB S} {SPEC : StateDBSpec S}.
Context {CS : CryptoSizes C} {CI : CodeHashIdeal C}.

(** The memory function reads operands the validation has checked. *)
Definition memsize_ok (npop : Z) (msz : option (Stack -> option Z)) : Prop :=
  forall g st, msz = Some g -> npop <= zlen st -> stack_words st ->
    exists sz, g st = Some sz /\ 0 <= sz.

Definition has_mem (msz : option (Stack -> option Z)) : bool :=
  match msz with Some _ => true | None => false end.

Definition op_ends (o : operation S) : bool := op_halts o || op_reverts o.

Definition op_ok (op : Z) (o : operation S) : Prop :=
  exists npop npush kind,
    0 <= npop /\
    (forall st, op_validateStack o st = makeStackFunc npop npush st) /\
    exec_ok npop npush (op_memorySize o) kind (op_writes o) (op_execute o) /\
    gas_ok npop (has_mem (op_memorySize o)) kind (op_writes o)
      (if op_ends o then 0 else 1) (op_gasCost o) /\
    memsize_ok npop (op_memorySize o) /\
    (kind = CallsTransfer -> op = CALL) /\ (op_ends o = true -> kind = Plain).

Lemma gas_ok_mono n hm kind w m g n' w' m' :
  gas_ok n hm kind w m g -> n <= n' -> (w = true -> w' = true) -> m' <= m ->
  gas_ok n' hm kind w' m' g.
Proof.
  intros H Hn Hw Hm env f ms He Hf Hl Hs.
  eapply gas_run_mono; [apply H; try done; [lia|]|].
  - intros Hst. destruct w; [|done]. rewrite Hw in Hs by done. by apply Hs.
  - cbn. intros cost f' _ (? & ? & ?). split; [done|]. split; [done|lia].
Qed.

Lemma op_ok_intro op x g npop npush kind msz h j w r rets :
  exec_ok npop npush msz kind w x ->
  gas_ok npop (has_mem msz) kind w (if h || r then 0 else 1) g ->
  memsize_ok npop msz -> 0 <= npop ->
  (kind = CallsTransfer -> op = CALL) -> (h || r = true -> kind = Plain) ->
  op_ok op (mkOperation x g (makeStackFunc npop npush) msz h j w true r rets).
Proof. intros. exists npop, npush, kind. split; [done|]. split; [done|]. done. Qed.

(** ** Memory functions *)

Lemma memsize_None npop : memsize_ok npop None.
Proof. by intros g st. Qed.

Lemma back_word st n :
  Z.of_nat n < zlen st -> stack_words st -> exists v, Back st n = Some v /\ is_word v.
Proof.
  intros Hn Hw. unfold zlen in Hn. unfold Back.
  destruct (lookup_lt_is_Some_2 st n ltac:(lia)) as [v Hv].
  exists v. split; [done|]. by eapply Forall_lookup_1.
Qed.

Lemma sized_ok o l (x y : Z) :
  o = Some x -> l = Some y -> is_word x -> is_word y ->
  exists sz, sized o l = Some sz /\ 0 <= sz.
Proof.
  intros -> -> Hx Hy. eexists. split; [done|]. unfold calcMemSize, is_word in *.
  split_if; lia.
Qed.

Lemma memsize_sized npop i j :
  Z.of_nat i < npop -> Z.of_nat j < npop ->
  memsize_ok npop (Some (fun st => sized (Back st i) (Back st j))).
Proof.
  intros Hi Hj g st [= <-] Hl Hw.
  destruct (back_word st i ltac:(lia) Hw) as (x & -> & Hx).
  destruct (back_word st j ltac:(lia) Hw) as (y & -> & Hy).
  by eapply sized_ok.
Qed.

Lemma memsize_const npop i n :
  Z.of_nat i < npop -> is_word n ->
  memsize_ok npop (Some (fun st => sized (Back st i) (Some n))).
Proof.
  intros Hi Hn g st [= <-] Hl Hw.
  destruct (back_word st i ltac:(lia) Hw) as (x & -> & Hx).
  by eapply sized_ok.
Qed.

Lemma memsize_larger npop g1 g2 :
  memsize_ok npop (Some g1) -> memsize_ok npop (Some g2) ->
  memsize_ok npop (Some (fun st => larger (g1 st) (g2 st))).
Proof.
  intros H1 H2 g st [= <-] Hl Hw.
  destruct (H1 g1 st eq_refl Hl Hw) as (x & -> & Hx).
  destruct (H2 g2 st eq_refl Hl Hw) as (y & -> & Hy).
  eexists. split; [done|]. unfold BigMax. split_if; lia.
Qed.

(** ** Automation for the entries *)

#[local] Hint Resolve
  opSignExtend_ok opNot_ok opIszero_ok opSha3_ok opAddress_ok opBalance_ok
  opOrigin_ok opCaller_ok opCallValue_ok opCallDataLoad_ok opCallDataSize_ok
  opCallDataCopy_ok opCodeSize_ok opCodeCopy_ok opGasprice_ok opExtCodeSize_ok
  opExtCodeCopy_ok opReturnDataSize_ok opReturnDataCopy_ok opBlockhash_ok
  opCoinbase_ok opTimestamp_ok opNumber_ok opDifficulty_ok opGasLimit_ok opPop_ok
  opMload_ok opMstore_ok opMstore8_ok opSload_ok opSstore_ok opJump_ok opJumpi_ok
  opPc_ok opMsize_ok opGas_ok opJumpdest_ok opStop_ok opReturn_ok opRevert_ok
  opSuicide_ok opCreate_ok opCall_ok opCallCode_ok opDelegateCall_ok opStaticCall_ok : evm_ops.

Ltac exec_entry :=
  first [ solve [eauto 3 with evm_ops nocore] | apply binop_ok; auto with width
        | apply binop_push_ok; auto with width | apply ternop_push_ok; auto with width ].

Ltac gas_fun :=
  lazymatch goal with
  | |- gas_ok _ _ _ _ _ (constGasFunc ?g) =>
      apply (constGasFunc_ok 0); cbn; [split; [|reflexivity]|]; done
  | |- gas_ok _ _ _ _ _ gasSha3 => apply gasSha3_ok
  | |- gas_ok _ _ _ _ _ gasExtCodeCopy => apply gasExtCodeCopy_ok
  | |- gas_ok _ _ _ _ _ gasCreate => apply gasCreate_ok
  | |- gas_ok _ _ _ _ _ gasExp => apply gasExp_ok
  | |- gas_ok _ _ _ _ _ gasSStore => apply gasSStore_ok
  | |- gas_ok _ _ _ _ _ gasSuicide => apply gasSuicide_ok
  | |- gas_ok _ _ _ _ _ gasCall => apply gasCall_ok
  | |- gas_ok _ _ _ _ _ gasCallCode => apply gasCallCode_ok
  | |- gas_ok _ _ CallsOnly _ _ _ => apply gasDelegateCall_ok; auto
  | |- gas_ok _ true _ _ _ _ =>
      first [ apply gasCopy_ok; solve [auto] | apply gasMWord_ok; solve [auto]
            | apply gasReturn_ok; solve [auto] ]
  | |- gas_ok _ false _ _ _ _ =>
      first [ apply (gasTablePrice_ok 0); solve [auto] | apply (gasFastest_ok 0); solve [auto] ]
  end.

Ltac gas_entry := cbn [has_mem]; eapply gas_ok_mono; [gas_fun | done | done | done].

Ltac mem_entry :=
  first [ apply memsize_None | apply memsize_sized; done | apply memsize_const; done
        | apply memsize_larger; apply memsize_sized; done ].

Ltac entry :=
  eapply op_ok_intro; [exec_entry | gas_entry | mem_entry | done | done | done].

Abbreviation entry_ok := (fun en : Z * operation S => op_ok en.1 en.2) (only parsing).

Lemma frontier_arithmetic_ok : Forall entry_ok frontier_arithmetic.
Proof. unfold frontier_arithmetic. repeat (apply Forall_cons; split; [entry|]). done. Qed.

Lemma frontier_comparison_ok : Forall entry_ok frontier_comparison.
Proof. unfold frontier_comparison. repeat (apply Forall_cons; split; [entry|]). done. Qed.
Lemma frontier_environment_ok : Forall entry_ok frontier_environment.
Proof. unfold frontier_environment. repeat (apply Forall_cons; split; [entry|]). done. Qed.
Lemma frontier_block_ok : Forall entry_ok frontier_block.
Proof. unfold frontier_block. repeat (apply Forall_cons; split; [entry|]). done. Qed.
Lemma frontier_flow_ok : Forall entry_ok frontier_flow.
Proof. unfold frontier_flow. repeat (apply Forall_cons; split; [entry|]). done. Qed.
Lemma frontier_closure_ok : Forall entry_ok frontier_closure.
Proof. unfold frontier_closure. repeat (apply Forall_cons; split; [entry|]). done. Qed.

Lemma frontier_push_ok : Forall entry_ok frontier_push.
Proof.
  apply Forall_map, Forall_forall. intros i Hi%elem_of_seq. cbn.
  eapply op_ok_intro; [apply makePush_ok; lia|gas_entry|mem_entry|done..].
Qed.

Lemma frontier_dup_ok : Forall entry_ok frontier_dup.
Proof.
  apply Forall_map, Forall_forall. intros i Hi%elem_of_seq. cbn.
  destruct i as [|i]; [lia|].
  eapply op_ok_intro; [apply makeDup_ok| |mem_entry|lia|done..].
  eapply gas_ok_mono; [apply (gasFastest_ok 0); auto|lia|done..].
Qed.

Lemma frontier_swap_ok : Forall entry_ok frontier_swap.
Proof.
  apply Forall_map, Forall_forall. intros i Hi%elem_of_seq. cbn.
  eapply op_ok_intro; [apply makeSwap_ok| |mem_entry|lia|done..].
  eapply gas_ok_mono; [apply (gasFastest_ok 0); auto|lia|done..].
Qed.

Lemma logEntry_ok op (n : nat) npop :
  npop = Z.of_nat n + 2 -> (n <= 4)%nat ->
  op_ok op (mkOperation (makeLog n) (makeGasLog (Z.of_nat n)) (makeStackFunc npop 0)
              (Some memoryLog) false false true true false false).
Proof.
  intros -> Hn. eapply op_ok_intro; [apply makeLog_ok|apply makeGasLog_ok; lia| |lia|done..].
  apply memsize_sized; lia.
Qed.

Lemma frontier_log_ok : Forall entry_ok frontier_log.
Proof.
  repeat apply Forall_cons_2; try apply Forall_nil_2.
  - apply (logEntry_ok LOG0 0); lia.
  - apply (logEntry_ok LOG1 1); lia.
  - apply (logEntry_ok LOG2 2); lia.
  - apply (logEntry_ok LOG3 3); lia.
  - apply (logEntry_ok LOG4 4); lia.
Qed.

Lemma frontier_entries_ok : Forall entry_ok frontier_entries.
Proof.
  unfold frontier_entries. rewrite !Forall_app.
  auto 15 using frontier_arithmetic_ok, frontier_comparison_ok, frontier_environment_ok,
    frontier_block_ok, frontier_flow_ok, frontier_push_ok, frontier_dup_ok,
    frontier_swap_ok, frontier_log_ok, frontier_closure_ok.
Qed.

(** ** The instruction sets *)

Definition table_ok (t : JumpTable S) : Prop :=
  forall op, op_valid (t op) = true -> op_ok op (t op).

Lemma overwrite_ok t op o : table_ok t -> op_ok op o -> table_ok (overwrite t op o).
Proof.
  intros Ht Ho op'. unfold overwrite. destruct (op' =? op) eqn:E; [|apply Ht].
  zbool. by subst.
Qed.

Lemma newFrontierInstructionSet_ok : table_ok newFrontierInstructionSet.
Proof.
  intros op. unfold newFrontierInstructionSet, tableOf.
  destruct (find _ _) as [[op' o]|] eqn:E; [|done]. intros _.
  apply find_some in E as [Hin Heq]. cbn [fst] in Heq. zbool. subst op'.
  pose proof frontier_entries_ok as H. rewrite Forall_forall in H.
  apply list_elem_of_In in Hin. exact (H _ Hin).
Qed.

Lemma newHomesteadInstructionSet_ok : table_ok newHomesteadInstructionSet.
Proof. apply overwrite_ok; [apply newFrontierInstructionSet_ok|entry]. Qed.

Lemma newByzantiumInstructionSet_ok : table_ok newByzantiumInstructionSet.
Proof.
  do 4 (apply overwrite_ok; [|entry]). apply newHomesteadInstructionSet_ok.
Qed.

Lemma newConstantinopleInstructionSet_ok : table_ok newConstantinopleInstructionSet.
Proof.
  do 3 (apply overwrite_ok; [|entry]). apply newByzantiumInstructionSet_ok.
Qed.

Lemma jumpTable_ok env : table_ok (jumpTable env).
Proof.
  unfold jumpTable. cbv zeta. repeat split_if;
    auto using newConstantinopleInstructionSet_ok, newByzantiumInstructionSet_ok,
      newHomesteadInstructionSet_ok, newFrontierInstructionSet_ok.
Qed.

(** STOP, which is also what the loop reads behind the end of the code. *)
Lemma jumpTable_STOP env :
  jumpTable env STOP =
    mkOperation opStop (constGasFunc 0) (makeStackFunc 0 0) None
      true false false true false false.
Proof. unfold jumpTable. cbv zeta. by repeat split_if. Qed.
End table.
