(* ===== verification/EvmSafe.v ===== *)
(** * The loop and the call operations keep the invariant

    One iteration ([step_ok]), the loop and [Run] by induction on the fuel, and
    the five call operations against [calls_ok].  The induction hypothesis is
    that the calls of an iteration behave for less gas; [TableSafe] shows that a
    callee always gets less than the frame had. *)

From Stdlib Require Import ZArith Lia Bool.
From S2P Require Import Prelude GoMath Params VmStack VmMemory Opcodes Analysis.
From S2P Require Import StateInterface World Machine Gas Instructions JumpTable.
From S2P Require Import Precompiles Interpreter EvmInv ExecSafe ExecFlow TableSafe.
Local Open Scope Z_scope.
Local Open Scope go_scope.

Section evm.
Context {C : Crypto} {S : Type} `{SDB : !StateDB S} {SPEC : StateDBSpec S}.
Context {CS : CryptoSizes C} {CI : CodeHashIdeal C}.
Implicit Types (env : Env S) (f : Frame S).

(** ** The parts of an iteration *)

Lemma jumpTable_CALL env : op_validateStack (jumpTable env CALL) = makeStackFunc 7 1.
Proof. unfold jumpTable. cbv zeta. by repeat split_if. Qed.

Lemma enforceRestrictions_ok env op f :
  let o := jumpTable env op in
  op_validateStack o (f_stack f) = None -> stack_words (f_stack f) ->
  exists r, enforceRestrictions env op o f = Ret (r, f) /\
    (r = None -> static env (f_evm f) = true ->
     op_writes o = false /\ (op = CALL -> f_stack f !! 2%nat = Some 0)).
Proof.
  intros o Hv Hw. unfold enforceRestrictions, bind, get.
  fold (static env (f_evm f)). destruct (static env (f_evm f)) eqn:Es.
  2: { exists None. by split. }
  destruct (op_writes o) eqn:Ew; [by exists (Some errWriteProtection)|].
  destruct (op =? CALL) eqn:Ec; zbool.
  - subst op. unfold o in Hv. rewrite jumpTable_CALL in Hv.
    apply makeStackFunc_None in Hv as [Hl _]. unfold stack_len in Hl.
    destruct (stack_lookup f 2) as (v & Ev & Hwv); [lia|done|].
    destruct f as [pc e c m st]. rewrite (s_back_eq pc e c m 2 v) by done.
    eexists. split; [done|]. intros Hn _. split; [done|]. intros _. rewrite Ev.
    f_equal. unfold BitLen in Hn. destruct (v =? 0) eqn:E0; zbool; [done|].
    pose proof (Z.log2_nonneg (Z.abs v)).
    destruct (_ >? 0) eqn:Eg in Hn; [done|]. zbool. lia.
  - exists None. split; [done|]. done.
Qed.

Lemma memorySizeOf_ok o npop f :
  memsize_ok npop (op_memorySize o) -> npop <= zlen (f_stack f) ->
  stack_words (f_stack f) ->
  exists r, memorySizeOf o f = Ret (r, f) /\
    match r with
    | inl _ => True
    | inr ms => is_u64 ms /\ (has_mem (op_memorySize o) = false -> ms = 0) /\
        forall g sz, op_memorySize o = Some g -> g (f_stack f) = Some sz -> sz <= ms
    end.
Proof.
  intros Hm Hl Hw. unfold memorySizeOf. destruct (op_memorySize o) as [g|] eqn:Eo.
  2: { exists (inr 0). split; [done|]. split; [done|]. done. }
  destruct (Hm g (f_stack f) eq_refl Hl Hw) as (sz & Eg & Hsz).
  unfold ebind, bind, get, must. rewrite Eg. unfold noOverflow, bigUint64. cbn [fst snd].
  unfold ret. destruct (BitLen sz >? 64) eqn:Eb; [by eexists|]. zbool.
  rewrite Uint64_exact by lia.
  assert (is_u64 sz) as Hu.
  { unfold is_u64. split; [done|]. rewrite <- (Z.abs_eq sz) by done. apply BitLen_le; lia. }
  unfold ok, ret. destruct (SafeMul (toWordSize sz) 32) as [ms ov] eqn:Es. cbn [fst snd].
  destruct ov; [by eexists|]. apply SafeMul_ok in Es as [-> Hms];
    [|by apply toWordSize_u64|done].
  eexists. split; [done|]. split; [done|]. split; [done|].
  intros g' sz' [= <-] Eg'. rewrite Eg in Eg'. apply (inj Some) in Eg' as <-.
  pose proof (toWordSize_covers sz Hu). lia.
Qed.

(** ** One iteration *)

Record loop_frame f : Prop := {
  lf_frame : frame_ok f;
  lf_pc : 0 <= f_pc f <= zlen (c_Code (f_contract f)) + 33;
  lf_stack : zlen (f_stack f) <= StackLimit
}.

Record step_post env f (o : option (list byte * option vmErr)) f' : Prop := {
  sp_evm : evm_ok (f_evm f');
  sp_step : evm_step env (f_evm f) (f_evm f');
  sp_contract : contract_step (f_contract f) (f_contract f') (c_Gas (f_contract f));
  sp_out : match o with
           | Some r => short r.1
           | None => loop_frame f' /\ c_Gas (f_contract f') < c_Gas (f_contract f)
           end
}.

(** Leaving the loop early, in a frame only the gas function has touched. *)
Lemma step_exit env f f' e :
  frame_ok f -> gas_frame env f f' -> step_post env f (Some ([], e)) f'.
Proof.
  intros Hok [_ Hc _ _ Hs He]. split; [apply He, Hok|done| |apply short_nil].
  rewrite Hc. apply contract_step_refl, Hok.
Qed.

Lemma step_STOP env calls f :
  frame_ok f -> GetOp (f_contract f) (f_pc f) = STOP ->
  runs (step env calls) f (step_post env f).
Proof.
  intros Hok Hop. unfold step. apply runs_bind, runs_get. cbv zeta.
  rewrite Hop, jumpTable_STOP. cbn [op_valid op_validateStack negb].
  destruct (makeStackFunc 0 0 (f_stack f)); [by apply runs_ret, step_exit|].
  unfold enforceRestrictions. apply runs_bind, runs_bind, runs_get.
  cbn [op_writes]. change (STOP =? CALL) with false.
  destruct (_ && _); apply runs_ret.
  all: unfold memorySizeOf; cbn [op_memorySize op_gasCost]; apply runs_bind, runs_ret.
  all: apply runs_bind, runs_ret; unfold chargeGas; apply runs_bind, runs_bind, runs_get.
  all: rewrite UseGas_spec by (pose proof (c_ok_Gas _ (frame_contract _ Hok));
         unfold is_u64, gas_limit in *; lia).
  all: replace (c_Gas (f_contract f) <? 0) with false
         by (pose proof (c_ok_Gas _ (frame_contract _ Hok)); lia).
  all: rewrite Z.sub_0_r; replace (with_gas (f_contract f) (c_Gas (f_contract f)))
         with (f_contract f) by by destruct (f_contract f).
  all: replace (set_contract (f_contract f) f) with f by by destruct f.
  all: apply runs_bind; exists tt, f; (split; [done|]); apply runs_ret; cbn [negb].
  all: apply runs_bind, runs_ret, runs_bind, runs_ret, runs_bind, runs_ret, runs_ret.
  all: by apply step_exit.
Qed.

Lemma GetOp_end (c : Contract) pc : zlen (c_Code c) <= pc -> GetOp c pc = STOP.
Proof.
  intros H. unfold GetOp, GetByte. by replace (pc <? zlen (c_Code c)) with false by lia.
Qed.

(** What the execution function sees: the frame with the price deducted and
    the memory resized. *)
Record charged env (cost : Z) f f3 : Prop := {
  ch_pc : f_pc f3 = f_pc f;
  ch_stack : f_stack f3 = f_stack f;
  ch_contract : f_contract f3 = with_gas (f_contract f) (c_Gas (f_contract f) - cost);
  ch_step : evm_step env (f_evm f) (f_evm f3);
  ch_frame : frame_ok f3
}.

(** The frame after the execution function. *)
Lemma exec_done env f cost f3 npop npush kind res f4 :
  loop_frame f -> charged env cost f f3 ->
  0 <= npop <= zlen (f_stack f) -> zlen (f_stack f) + npush - npop <= StackLimit ->
  callGasOf kind f3 <= cost -> exec_post env npop npush kind f3 res f4 ->
  evm_step env (f_evm f) (f_evm f4) /\
  contract_step (f_contract f) (f_contract f4)
    (c_Gas (f_contract f) - cost + callGasOf kind f3) /\
  frame_ok f4 /\ zlen (f_stack f4) <= StackLimit.
Proof.
  intros [Hok _ _] [Hpc Hst Hc Hs Hok3] Hn Hlim Hg [A B D E (ys & Es & Hl & Hw) F G].
  rewrite Hc in D. cbn [with_gas c_Gas] in D.
  assert (contract_step (f_contract f) (f_contract f4)
    (c_Gas (f_contract f) - cost + callGasOf kind f3)) as Hcs by exact D.
  split; [by etrans|]. split; [done|]. split.
  - split; [done| |done|].
    + eapply contract_step_ok; [apply Hok|exact Hcs|].
      pose proof (c_ok_Gas _ (frame_contract _ Hok)). lia.
    + rewrite Es, Hst. apply Forall_app. split; [done|]. apply Forall_drop, Hok.
  - rewrite Es, Hst, zlen_app. unfold zlen in *. rewrite length_drop. lia.
Qed.

(** From the execution function to the end of the iteration. *)
Lemma step_finish env f cost f3 o npop npush kind calls :
  loop_frame f -> charged env cost f f3 ->
  f_pc f < zlen (c_Code (f_contract f)) ->
  0 <= npop <= zlen (f_stack f) -> zlen (f_stack f) + npush - npop <= StackLimit ->
  (if op_ends o then 0 else 1) + callGasOf kind f3 <= cost ->
  runs (op_execute o env calls) f3 (exec_post env npop npush kind f3) ->
  runs
    (let* '(res, err) := op_execute o env calls in
     (if op_returns o then onEVM (modify (set_returnData res)) else ret tt) ;;
     match err with
     | Some e => ret (Some ([], Some e))
     | None =>
         if op_reverts o then ret (Some (res, Some errExecutionReverted))
         else if op_halts o then ret (Some (res, None))
         else
           (if negb (op_jumps o)
            then modify (fun f => set_pc (u64 (f_pc f + 1)) f) else ret tt) ;;
           ret None
     end) f3 (step_post env f).
Proof.
  intros Hf Hch Hpc Hn Hlim Hcost Hx. apply runs_bind. eapply runs_mono; [exact Hx|].
  intros [res err] f4 Hp.
  destruct (exec_done env f cost f3 npop npush kind (res, err) f4) as (Hs & Hcs & Hok4 & Hl4);
    [done..| |done|]. { destruct (op_ends o); lia. }
  pose proof (post_ret _ _ _ _ _ _ _ Hp) as Hr. cbn [fst] in Hr.
  pose proof (post_pc _ _ _ _ _ _ _ Hp) as Hp4. rewrite (ch_contract _ _ _ _ Hch) in Hp4.
  cbn [with_gas c_Code] in Hp4.
  apply runs_bind.
  assert (runs (if op_returns o then onEVM (modify (set_returnData res)) else ret tt) f4
    (fun _ f5 => frame_ok f5 /\ evm_step env (f_evm f) (f_evm f5) /\
       f_contract f5 = f_contract f4 /\ f_pc f5 = f_pc f4 /\ f_stack f5 = f_stack f4))
    as H5.
  { destruct (op_returns o).
    - destruct f4 as [pc4 e4 c4 m4 st4]. apply runs_onEVM, runs_modify.
      destruct Hok4 as [[]]. split; [by split|]. split; [|done].
      etrans; [exact Hs|]. split; try done. exists []. by rewrite app_nil_r.
    - by apply runs_ret. }
  eapply runs_mono; [exact H5|]. intros _ f5 (Hok5 & Hs5 & Hc5 & Hpc5 & Hst5).
  assert (contract_step (f_contract f) (f_contract f5) (c_Gas (f_contract f))) as Hcs5.
  { rewrite Hc5. eapply contract_step_mono; [exact Hcs|]. destruct (op_ends o); lia. }
  assert (forall r, short r.1 -> step_post env f (Some r) f5) as Hexit.
  { intros r Hsr. split; [apply Hok5|done..]. }
  destruct err; [apply runs_ret, Hexit, short_nil|].
  unfold op_ends in Hcost.
  destruct (op_reverts o); [by apply runs_ret, Hexit|].
  destruct (op_halts o); [by apply runs_ret, Hexit|]. cbn [orb] in Hcost.
  pose proof (contract_step_gas _ _ _ Hcs) as Hg4.
  pose proof (c_ok_Code _ (frame_contract _ (lf_frame _ Hf))) as Hsh. unfold short in Hsh.
  apply runs_bind.
  destruct (op_jumps o); cbn [negb]; [apply runs_ret|apply runs_modify]; apply runs_ret.
  - split; [apply Hok5|done..|]. rewrite Hc5. split; [|lia].
    split; [done| |by rewrite Hst5]. rewrite Hpc5, Hc5, (contract_step_code _ _ _ Hcs). lia.
  - split; [apply Hok5|done..|]. cbn [set_pc f_contract]. rewrite Hc5. split; [|lia].
    split; cbn [set_pc f_contract f_pc f_stack].
    + by destruct Hok5.
    + rewrite Hpc5, Hc5, (contract_step_code _ _ _ Hcs), u64_small by (unfold is_u64; lia). lia.
    + by rewrite Hst5.
Qed.

(** Charging and resizing: the loop ends, or goes on from a [charged] frame. *)
Lemma charge_ok env f f1 r ms (hm : bool) K :
  frame_ok f -> gas_frame env f f1 -> is_u64 ms -> (hm = false -> ms = 0) ->
  match r with inl _ => True | inr cost => is_u64 cost /\ (hm = true -> ms <= max_mem) end ->
  (forall cost f3, r = inr cost -> charged env cost f f3 -> f_evm f3 = f_evm f1 ->
     ms <= mem_Len (f_mem f3) -> cost <= c_Gas (f_contract f) ->
     runs K f3 (step_post env f)) ->
  runs
    (let* paid := chargeGas r in
     if negb paid then ret (Some ([], Some ErrOutOfGas))
     else
       (if ms >? 0 then modify (fun f => set_mem (mem_Resize (f_mem f) ms) f) else ret tt) ;;
       K) f1 (step_post env f).
Proof.
  intros Hok Hf1 Hms Hhm Hr HK. destruct r as [e|cost].
  { apply runs_bind, runs_ret, runs_ret. by apply step_exit. }
  destruct Hr as [Hu Hm]. pose proof (c_ok_Gas _ (frame_contract _ Hok)) as Hg.
  unfold chargeGas. apply runs_bind, runs_bind, runs_get.
  rewrite (gf_contract _ _ _ Hf1). unfold gas_limit, is_u64 in *.
  rewrite UseGas_spec by (unfold is_u64; lia).
  split_if.
  { apply runs_bind. eexists _, _. split; [done|]. apply runs_ret, runs_ret.
    apply step_exit; [done|]. destruct Hf1. by split. }
  apply runs_bind. eexists _, _. split; [done|]. apply runs_ret. cbn [negb].
  pose proof (gas_frame_ok _ _ _ Hf1 Hok) as [A B D F].
  destruct Hf1 as [F1 F2 F3 F4 F5 F6].
  assert (contract_ok (with_gas (f_contract f) (c_Gas (f_contract f) - cost))) as Hc.
  { destruct (frame_contract _ Hok). split; try done. cbn. unfold gas_limit. lia. }
  assert (ms <= max_mem) as Hmm.
  { destruct hm; [by apply Hm|]. rewrite Hhm by done. done. }
  unfold max_mem in Hmm. apply runs_bind. split_if.
  - apply runs_modify. apply (HK cost); [done| |done| |done].
    + split; try done. split; try done. cbn. unfold mem_small in *.
      rewrite mem_Resize_Len. lia.
    + cbn [set_mem f_mem]. rewrite mem_Resize_Len. lia.
  - apply runs_ret. apply (HK cost); [done| |done| |done].
    + by split.
    + pose proof (zlen_nonneg (mem_store (f_mem f1))). cbn. unfold mem_Len. lia.
Qed.

(** One iteration: it ends the loop, or leaves a frame that can go on with less
    gas. *)
Lemma step_ok env calls bound f :
  env_ok env -> calls_ok env bound calls -> loop_frame f ->
  c_Gas (f_contract f) <= bound + 1 ->
  runs (step env calls) f (step_post env f).
Proof.
  intros He Hc Hf HB. pose proof Hf as [Hok Hpc Hst].
  destruct (decide (GetOp (f_contract f) (f_pc f) = STOP)) as [|Hns]; [by apply step_STOP|].
  assert (f_pc f < zlen (c_Code (f_contract f))) as Hlt.
  { destruct (Z.lt_ge_cases (f_pc f) (zlen (c_Code (f_contract f)))) as [|Hge]; [done|].
    by apply GetOp_end in Hge. }
  unfold step. apply runs_bind, runs_get. cbv zeta.
  set (op := GetOp _ _). set (o := jumpTable env op).
  destruct (op_valid o) eqn:Ev; cbn [negb]; [|by apply runs_ret, step_exit].
  destruct (jumpTable_ok env op Ev) as (npop & npush & kind & Hnp & Hval & Hx & Hg & Hms & HCT & Hends).
  fold o in Hval, Hx, Hg, Hms, Hends.
  destruct (op_validateStack o (f_stack f)) eqn:Evs; [by apply runs_ret, step_exit|].
  destruct (enforceRestrictions_ok env op f Evs (frame_stack _ Hok)) as (r & Er & Hr).
  rewrite Hval in Evs. apply makeStackFunc_None in Evs as [Hl Hlim]. unfold stack_len in *.
  eapply runs_bind_eq; [exact Er|]. destruct r as [e|]; [by apply runs_ret, step_exit|].
  specialize (Hr eq_refl). fold o in Hr.
  destruct (memorySizeOf_ok o npop f Hms Hl (frame_stack _ Hok)) as (r & Em & Hm).
  eapply runs_bind_eq; [exact Em|].
  destruct r as [e|ms]; [by apply runs_ret, step_exit|]. destruct Hm as (Hu & Hm0 & Hcov).
  apply runs_bind. eapply runs_mono.
  { apply (Hg env f ms); try done. intros Es. by apply Hr. }
  intros cost f1 [Hf1 Hcost].
  apply (charge_ok env f f1 cost ms (has_mem (op_memorySize o))); [done..| |].
  { destruct cost; [done|]. by destruct Hcost as (? & ? & _). }
  intros c f3 -> Hch Hevm Hlen Hpaid. destruct Hcost as (Huc & Hmm & Hmin).
  assert (callGasOf kind f3 = callGasOf kind f1) as Hcg.
  { unfold callGasOf. by rewrite (ch_stack _ _ _ _ Hch), (gf_stack _ _ _ Hf1), Hevm. }
  eapply (step_finish env f c f3 o npop npush kind); [done..|by rewrite Hcg|].
  apply (Hx env calls bound f3); [done..|].
  pose proof (c_ok_Gas _ (frame_contract _ Hok)) as Hgl.
  assert (static env (f_evm f3) = static env (f_evm f)) as Hsteq.
  { rewrite Hevm. by apply gas_frame_static. }
  destruct Hch as [C1 C2 C3 C4 C5]. split; try done.
  - by rewrite C2.
  - rewrite C1, C3. cbn. lia.
  - intros g sz Eg Esz. rewrite C2 in Esz. specialize (Hcov g sz Eg Esz). lia.
  - rewrite Hsteq. intros Es. by apply Hr.
  - intros Ek Es. rewrite Hsteq in Es. rewrite C2. apply Hr; [done|]. by apply HCT.
  - intros Hk. assert (op_ends o = false) as Eo.
    { destruct (op_ends o); [|done]. by destruct Hk; apply Hends. }
    rewrite Eo in Hmin. destruct kind; cbn [calleeGas]; try lia; try done.
    rewrite C3. cbn in *. lia.
  - rewrite C3, Hcg. cbn. destruct (op_ends o); lia.
Qed.
End evm.
