(* ===== verification/CallSafe.v ===== *)
(** * Run, the call operations and the loop

    [interp_ok] is what [Interpreter.Run] promises to the call operations;
    against it, the five operations meet [calls_ok], snapshots and rollback
    included.  [loop_ok] closes the circle by induction on the fuel: any fuel
    above the gas of the frame is enough. *)

From Stdlib Require Import ZArith Lia Bool.
From S2P Require Import Prelude GoMath Params VmStack VmMemory Opcodes Analysis.
From S2P Require Import StateInterface World Machine Gas Instructions JumpTable.
From S2P Require Import Precompiles Interpreter EvmInv ExecSafe ExecFlow TableSafe.
From S2P Require Import EvmSafe.
Local Open Scope Z_scope.
Local Open Scope go_scope.

Section calls.
Context {C : Crypto} {S : Type} `{SDB : !StateDB S} {SPEC : StateDBSpec S}.
Context {CS : CryptoSizes C} {CI : CodeHashIdeal C}.
Implicit Types (env : Env S) (e : EVMState S).

(** ** The promise of an interpreter *)

Record interp_post env e (c : Contract) (x : list byte * option vmErr * Contract) e'
    : Prop := {
  ip_evm : evm_ok e';
  ip_step : evm_step env e e';
  ip_gas : 0 <= c_Gas x.2 <= c_Gas c;
  ip_jumpdests : cache_good (c_jumpdests x.2);
  ip_ret : short x.1.1
}.

Definition interp_ok env (bound : Z) (interp : Interp) : Prop :=
  forall e c input,
    evm_ok e -> e_depth e <= CallCreateDepth -> contract_ok c -> short input ->
    c_Gas c <= bound -> runs (interp c input) e (interp_post env e c).

(** A precompile in front of the interpreter. *)
Lemma run_ok env bound interp : interp_ok env bound interp -> interp_ok env bound (run env interp).
Proof.
  intros H e c input He Hd Hc Hi Hb. unfold run.
  destruct (match c_CodeAddr c with Some a => _ | None => _ end) as [p|]; [|by apply H].
  destruct (RunPrecompiledContract_ok p input c) as (r & err & g & E & Hr & Hg);
    [done|apply Hc|].
  apply runs_must. eexists. split; [exact E|]. split; try done. by apply Hc.
Qed.

(** ** Reading, transferring and taking snapshots from the EVM *)

Lemma runs_CanTransfer e a v (P : bool -> EVMState S -> Prop) :
  evm_ok e ->
  (forall e', quiet e e' -> evm_ok e' -> P (w_GetBalance (e_view e) a >=? v) e') ->
  runs (onDB (core_CanTransfer a v)) e P.
Proof.
  intros Hok HP. eapply (runs_read e Hok) with (v := w_GetBalance (e_view e) a >=? v); [|done].
  apply runs_bind. eapply runs_mono; [apply spec_GetBalance, Hok|].
  intros r d (-> & Hrest). by apply runs_ret.
Qed.

Lemma runs_Transfer env e a b v (P : unit -> EVMState S -> Prop) :
  evm_ok e -> 0 <= v <= w_GetBalance (e_view e) a -> (static env e = true -> v = 0) ->
  (forall e', evm_step env e e' -> evm_ok e' -> e_saved e' = e_saved e -> P tt e') ->
  runs (onDB (core_Transfer a b v)) e P.
Proof.
  intros Hok Hv Hs HP.
  eapply (runs_write e Hok env); [|by apply (evolves_transfer _ a b v)|].
  - apply runs_bind. eapply runs_mono; [apply spec_SubBalance, Hok|].
    intros _ d (Hi & Hw & Hsv). eapply runs_mono; [by apply spec_AddBalance|].
    intros _ d' (Hi' & Hw' & Hsv'). split; [done|]. rewrite Hw', Hw. split; [done|congruence].
  - intros [] e' Hst Hok' _ _ Hsv. by apply HP.
Qed.

(** [e] is a descendant of [e0], whose world the snapshot [id] holds. *)
Record since env e0 (id : Z) e : Prop := {
  si_evm : evm_ok e;
  si_depth : e_depth e = e_depth e0;
  si_readOnly : e_readOnly e = e_readOnly e0;
  si_saved : e_saved e = e_saved e0 ++ [(id, e_view e0)];
  si_evolves : evolves (static env e0) (e_view e0) (e_view e)
}.

Lemma since_static env e0 id e : since env e0 id e -> static env e = static env e0.
Proof. intros []. unfold static. by rewrite si_readOnly0. Qed.

Lemma since_step env e0 id e : since env e0 id e -> evm_step env e0 e.
Proof. intros []. split; try done. eauto. Qed.

Lemma since_next env e0 id e e' :
  since env e0 id e -> evm_step env e e' -> evm_ok e' -> e_saved e' = e_saved e ->
  since env e0 id e'.
Proof.
  intros Hsi Hs Hok Hsv. pose proof (since_static _ _ _ _ Hsi) as Hst.
  destruct Hsi, Hs. split; try congruence. etrans; [done|]. by rewrite <- Hst.
Qed.

Lemma since_quiet env e0 id e e' :
  since env e0 id e -> quiet e e' -> evm_ok e' -> since env e0 id e'.
Proof.
  intros Hsi Hq Hok. eapply since_next; [done|by apply quiet_step|done|apply Hq].
Qed.

Lemma runs_Snapshot env e (P : Z -> EVMState S -> Prop) :
  evm_ok e -> (forall id e', since env e id e' -> e_view e' = e_view e -> P id e') ->
  runs (onDB Snapshot) e P.
Proof.
  intros Hok HP. apply runs_onDB. eapply runs_mono; [apply spec_Snapshot, Hok|].
  intros id d (Hi & Hv & Hsv). apply HP; [|done]. split; try done.
  - apply evm_ok_set_db; [done..|]. rewrite Hv. apply Hok.
  - unfold e_view. cbn. by rewrite Hv.
Qed.

(** Rolling back to the snapshot of [e0], after anything the caller's frame
    allows. *)
Lemma runs_Revert env e0 id e l (P : unit -> EVMState S -> Prop) :
  evm_ok e0 -> evm_ok e -> e_depth e = e_depth e0 -> e_readOnly e = e_readOnly e0 ->
  e_saved e = e_saved e0 ++ (id, e_view e0) :: l ->
  (forall e', evm_ok e' -> evm_step env e0 e' -> e_view e' = e_view e0 -> P tt e') ->
  runs (onDB (RevertToSnapshot id)) e P.
Proof.
  intros Hok0 Hok Hd Hr Hsv HP. apply runs_onDB.
  eapply runs_mono; [eapply spec_RevertToSnapshot; [apply Hok|exact Hsv]|].
  intros [] d (Hi & Hv & Hs). apply HP.
  - apply evm_ok_set_db; [done..|]. rewrite Hv. apply Hok0.
  - split; try done.
    + exists []. by rewrite app_nil_r.
    + unfold e_view at 2. cbn. by rewrite Hv.
  - done.
Qed.

(** ** Results *)

Lemma consume_ok err (c : Contract) :
  0 <= c_Gas c < gas_limit ->
  0 <= c_Gas (consumeUnlessReverted err c) <= c_Gas c /\
  c_jumpdests (consumeUnlessReverted err c) = c_jumpdests c.
Proof.
  intros Hg. unfold consumeUnlessReverted. case_bool_decide; [split; [lia|done]|].
  unfold gas_limit in Hg. rewrite UseGas_spec by (unfold is_u64; lia).
  replace (c_Gas c <? c_Gas c) with false by lia. cbn. split; [lia|done].
Qed.

Lemma early_ok env e caller gas gas' err :
  evm_ok e -> ref_ok caller -> 0 <= gas' <= gas ->
  call_post env e gas (earlyResult caller gas' err) e.
Proof.
  intros Hok Hr Hg. split; try done. destruct caller; [apply cache_good_empty|].
  by destruct Hr as (_ & _ & _ & ?).
Qed.

Lemma call_post_trans env e e1 gas r e' :
  evm_step env e e1 -> call_post env e1 gas r e' -> call_post env e gas r e'.
Proof. intros H []. split; try done. by etrans. Qed.

(** [run] and the rollback, from a state whose past is in the snapshot. *)
Lemma runOrRevert_ok env interp bound e0 id e c input :
  interp_ok env bound interp -> evm_ok e0 -> since env e0 id e ->
  e_depth e0 <= CallCreateDepth -> contract_ok c -> short input -> c_Gas c <= bound ->
  runs (runOrRevert env interp id c input) e (fun r e' =>
    call_post env e0 (c_Gas c) r e' /\ atomic e0 r e').
Proof.
  intros Hint Hok0 Hsi Hd Hc Hi Hb. unfold runOrRevert. apply runs_bind.
  eapply runs_mono.
  { apply (run_ok env bound interp Hint); try done; [apply Hsi|].
    by rewrite (si_depth _ _ _ _ Hsi). }
  intros [[r err] c'] e1 [He1 Hs1 Hg1 Hj1 Hr1]. cbn [fst snd] in *.
  assert (evm_step env e0 e1) as Hs01 by (etrans; [by eapply since_step|done]).
  destruct err as [err|].
  - destruct Hs1 as [A1 A2 [l A3] A4]. apply runs_bind.
    eapply (runs_Revert env e0 id e1 l); try done.
    + rewrite A1. apply Hsi.
    + rewrite A2. apply Hsi.
    + by rewrite A3, (si_saved _ _ _ _ Hsi), <- app_assoc.
    + intros e2 Hok2 Hs2 Hv2. apply runs_ret. split; [|by intros _].
      pose proof (c_ok_Gas _ Hc).
      destruct (consume_ok (Some err) c' ltac:(lia)) as [Hcg Hcj].
      split; try done; cbn; [lia|by rewrite Hcj].
  - apply runs_ret. split; [by split|]. by intros [].
Qed.

(** ** Contracts *)

(** [NewContract] and [SetCallCode] make a contract that meets the invariant. *)
Lemma NewContract_ok caller self v gas addr h code :
  ref_ok caller -> is_addr self -> is_word v -> 0 <= gas < gas_limit -> short code ->
  (code = [] \/ h = Keccak256Hash code) ->
  contract_ok (SetCallCode (NewContract caller self (Some v) gas) addr h code).
Proof.
  intros Hr Hs Hv Hg Hc Hh. split; try done.
  - by apply ref_ok_address.
  - by exists v.
  - destruct caller; [apply cache_good_empty|]. by destruct Hr as (_ & _ & _ & ?).
Qed.

(** The code of an account and its hash. *)
Lemma runs_loadCode e addr c (P : Contract -> EVMState S -> Prop) :
  evm_ok e ->
  (forall e' h code, quiet e e' -> evm_ok e' -> short code ->
     (code = [] \/ h = Keccak256Hash code) -> P (SetCallCode c addr h code) e') ->
  runs (loadCode addr c) e P.
Proof.
  intros Hok HP. unfold loadCode. apply runs_bind.
  eapply runs_read; [done|apply spec_GetCodeHash, Hok|]. intros e1 Hq1 Hok1. apply runs_bind.
  eapply runs_read; [done|apply spec_GetCode, Hok1|]. intros e2 Hq2 Hok2. apply runs_ret.
  apply HP; [by etrans|done|apply view_ok, Hok1|].
  pose proof (quiet_view _ _ Hq1) as Hv. unfold e_view in Hv. rewrite Hv.
  unfold w_GetCodeHash, w_GetCode, w_acc. destruct (w_get _ addr); [by right|by left].
Qed.

(** ** The call operations *)

Section operations.
Context (env : Env S) (interp : Interp (S := S)) (bound : Z).
Context (He : env_ok env) (Hint : interp_ok env bound interp) (Hbound : bound < gas_limit).

(** What all five return early: the state and the gas untouched. *)
Lemma early_both e caller gas err :
  evm_ok e -> ref_ok caller -> 0 <= gas ->
  runs (ret (earlyResult caller gas err)) e (fun r e' =>
    call_post env e gas r e' /\ atomic e r e').
Proof. intros Hok Hr Hg. apply runs_ret. split; [by apply early_ok|done]. Qed.

(** The tests in front of a call. *)
Ltac guards :=
  apply runs_bind, runs_get; split_if; [by apply early_both|];
  split_if; [by apply early_both|].

(** [call_post] and [atomic] from a quiet successor of the start. *)
Lemma post_quiet e e1 gas r e' :
  quiet e e1 -> call_post env e1 gas r e' /\ atomic e1 r e' ->
  call_post env e gas r e' /\ atomic e r e'.
Proof.
  intros Hq [Hp Ha]. split.
  - eapply call_post_trans; [by apply quiet_step|done].
  - intros Hn. rewrite (Ha Hn). apply Hq.
Qed.

Lemma quiet_balance e e1 a : quiet e e1 -> w_GetBalance (e_view e1) a = w_GetBalance (e_view e) a.
Proof. intros []. by rewrite quiet_view. Qed.

Lemma Call_ok e caller addr input gas value :
  call_pre e caller input gas bound -> is_addr addr -> is_word value ->
  (static env e = true -> value = 0) ->
  runs (Call env interp caller addr input gas value) e (fun r e' =>
    call_post env e gas r e' /\ atomic e r e').
Proof.
  intros [Hok Hr Hi Hg] Ha Hv Hst. assert (0 <= gas) by lia. unfold Call. guards.
  rewrite (env_CanTransfer _ He). apply runs_bind, runs_CanTransfer; [done|].
  intros e1 Hq1 Hok1. split_if.
  { apply runs_ret. split; [|intros _; apply Hq1].
    eapply call_post_trans; [by apply quiet_step|]. by apply early_ok. }
  eapply runs_mono; [|intros r e'; by apply (post_quiet e e1)].
  assert (static env e1 = true -> value = 0) as Hst1.
  { unfold static in *. by rewrite (quiet_readOnly _ _ Hq1). }
  pose proof (quiet_balance e e1 (ref_Address caller) Hq1) as Hbal.
  apply runs_bind, (runs_Snapshot env); [done|]. intros id e2 Hsi2 Hv2. apply runs_bind.
  eapply runs_read; [apply Hsi2|apply spec_Exist, Hsi2|]. intros e3 Hq3 Hok3.
  pose proof (since_quiet _ _ _ _ _ Hsi2 Hq3 Hok3) as Hsi3.
  fold (e_view e2). rewrite Hv2. set (ex := w_Exist (e_view e1) addr) in *.
  split_if.
  { apply runs_ret. split; [|by intros []]. eapply call_post_trans; [by eapply since_step|].
    by apply early_ok. }
  assert (runs (if ex then ret tt else onDB (CreateAccount addr)) e3 (fun _ e4 =>
    since env e1 id e4 /\
    w_GetBalance (e_view e4) (ref_Address caller) = w_GetBalance (e_view e1) (ref_Address caller)))
    as Hcreate.
  { assert (e_view e3 = e_view e1) as Hv3 by (rewrite <- Hv2; apply Hq3).
    destruct ex eqn:Eex; [apply runs_ret; by rewrite Hv3|].
    eapply (runs_write e3 Hok3 env); [apply spec_CreateAccount, Hok3| |].
    - apply evolves_CreateAccount. intros _. fold (e_view e3). by rewrite Hv3.
    - intros _ e4 Hs4 Hok4 Hv4 _ Hsv4. split; [by eapply since_next|].
      rewrite Hv4. fold (e_view e3). rewrite Hv3. apply balance_CreateAccount. }
  apply runs_bind. eapply runs_mono; [exact Hcreate|]. intros _ e4 [Hsi4 Hb4].
  rewrite (env_Transfer _ He). apply runs_bind.
  apply (runs_Transfer env); [apply Hsi4|rewrite Hb4, Hbal; unfold is_word in Hv; lia| |].
  { by rewrite (since_static _ _ _ _ Hsi4). }
  intros e5 Hs5 Hok5 Hsv5. apply runs_bind, runs_loadCode; [done|].
  intros e6 h code Hq6 Hok6 Hcode Hh.
  assert (since env e1 id e6) as Hsi6.
  { eapply since_quiet; [|done|done]. by eapply since_next. }
  apply (runOrRevert_ok env interp bound e1 id e6); try done.
  - pose proof (quiet_depth _ _ Hq1). lia.
  - apply NewContract_ok; try done. lia.
  - cbn. lia.
Qed.

Lemma CallCode_ok e caller addr input gas value :
  call_pre e caller input gas bound -> is_addr addr -> is_word value ->
  runs (CallCode env interp caller addr input gas value) e (fun r e' =>
    call_post env e gas r e' /\ atomic e r e').
Proof.
  intros [Hok Hr Hi Hg] Ha Hv. assert (0 <= gas) by lia. unfold CallCode. guards.
  rewrite (env_CanTransfer _ He). apply runs_bind, runs_CanTransfer; [done|].
  intros e1 Hq1 Hok1. split_if.
  { apply runs_ret. split; [|intros _; apply Hq1].
    eapply call_post_trans; [by apply quiet_step|]. by apply early_ok. }
  eapply runs_mono; [|intros r e'; by apply (post_quiet e e1)].
  apply runs_bind, (runs_Snapshot env); [done|]. intros id e2 Hsi2 Hv2.
  apply runs_bind, runs_loadCode; [apply Hsi2|]. intros e6 h code Hq6 Hok6 Hcode Hh.
  apply (runOrRevert_ok env interp bound e1 id e6); try done.
  - by eapply since_quiet.
  - pose proof (quiet_depth _ _ Hq1). lia.
  - apply NewContract_ok; try done; [by apply ref_ok_address|lia].
  - cbn. lia.
Qed.

Lemma DelegateCall_ok e caller addr input gas :
  call_pre e caller input gas bound -> is_addr addr ->
  (exists self ca v d, caller = ContractPtr self ca v d) ->
  runs (DelegateCall env interp caller addr input gas) e (fun r e' =>
    call_post env e gas r e' /\ atomic e r e').
Proof.
  intros [Hok Hr Hi Hg] Ha (self & ca & v & d & ->). assert (0 <= gas) by lia.
  unfold DelegateCall. guards.
  apply runs_bind, (runs_Snapshot env); [done|]. intros id e2 Hsi2 Hv2.
  eapply runs_bind_eq; [by apply must_eq|].
  apply runs_bind, runs_loadCode; [apply Hsi2|]. intros e6 h code Hq6 Hok6 Hcode Hh.
  destruct Hr as (Hself & Hca & Hval & Hd).
  apply (runOrRevert_ok env interp bound e id e6); try done.
  - by eapply since_quiet.
  - split; try done. cbn. lia.
  - cbn. lia.
Qed.

Lemma StaticCall_ok e caller addr input gas :
  call_pre e caller input gas bound -> is_addr addr ->
  runs (StaticCall env interp caller addr input gas) e (fun r e' =>
    call_post env e gas r e' /\ atomic e r e' /\
    (rules_IsByzantium (env_rules env) = true -> same_obs (e_view e) (e_view e'))).
Proof.
  intros [Hok Hr Hi Hg] Ha. assert (0 <= gas) by lia. unfold StaticCall.
  apply runs_bind, runs_get.
  split_if; [apply runs_ret; split; [by apply early_ok|]; by split|].
  split_if; [apply runs_ret; split; [by apply early_ok|]; by split|].
  apply runs_bind, runs_modify. set (e1 := set_readOnly true e).
  assert (evm_ok e1) as Hok1 by (destruct Hok; by split).
  apply runs_bind, (runs_Snapshot env); [done|]. intros id e2 Hsi2 Hv2.
  apply runs_bind, runs_loadCode; [apply Hsi2|]. intros e6 h code Hq6 Hok6 Hcode Hh.
  apply runs_bind. eapply runs_mono.
  { apply (runOrRevert_ok env interp bound e1 id e6); try done.
    - by eapply since_quiet.
    - by apply NewContract_ok; try done; lia.
    - cbn. lia. }
  intros r e7 [[A1 [B1 B2 B3 B4] A3 A4 A5] A6]. apply runs_bind, runs_modify, runs_ret.
  assert (evolves (rules_IsByzantium (env_rules env)) (e_view e) (e_view e7)) as B4'.
  { unfold static in B4. cbn in B4. by rewrite andb_true_r in B4. }
  split; [|split; [done|apply B4']].
  split; try done.
  - destruct A1. by split.
  - split; try done. destruct B4' as [X Y]. split; [done|]. intros Es. apply Y.
    unfold static in Es. by zbool.
Qed.

(** The end of [Create], from a state [e] whose past [e0] is in the snapshot. *)
(** Paying for the code and storing it. *)
Lemma payCode_ok e0 e addr r err c gas (store : bool) :
  evm_ok e -> evm_step env e0 e -> static env e = false ->
  0 <= c_Gas c <= gas -> gas < gas_limit -> short r ->
  runs (if store then
          let '(paid, c) := UseGas c (u64 (zlen r * CreateDataGas)) in
          if (paid : bool) then onDB (SetCode addr r) ;; ret (err, c)
          else ret (Some ErrCodeStoreOutOfGas, c)
        else ret (err, c)) e
    (fun x e1 => evm_ok e1 /\ evm_step env e0 e1 /\ e_saved e1 = e_saved e /\
       0 <= c_Gas x.2 <= gas /\ c_jumpdests x.2 = c_jumpdests c).
Proof.
  intros Hok Hs Hns Hg Hlim Hr. destruct store; [|apply runs_ret; by auto 10].
  unfold gas_limit in *. rewrite UseGas_spec by (try apply u64_range; unfold is_u64; lia).
  split_if; [apply runs_ret; by auto 10|]. apply runs_bind.
  eapply (runs_write e Hok env); [apply spec_SetCode; [apply Hok|done]|
    rewrite Hns; apply evolves_SetCode|].
  intros _ e1 Hs1 Hok1 _ _ Hsv1. apply runs_ret.
  pose proof (u64_range (zlen r * CreateDataGas)) as Hu. unfold is_u64 in Hu.
  split; [done|]. split; [by etrans|]. split; [done|]. split; [cbn; lia|done].
Qed.

(** The rollback of a creation that failed. *)
Lemma undoCreate_ok e0 id l e err c gas (undo : bool) :
  evm_ok e0 -> evm_ok e -> evm_step env e0 e ->
  e_saved e = e_saved e0 ++ (id, e_view e0) :: l ->
  0 <= c_Gas c <= gas -> gas < gas_limit -> cache_good (c_jumpdests c) ->
  runs (if undo then onDB (RevertToSnapshot id) ;; ret (consumeUnlessReverted err c)
        else ret c) e
    (fun c2 e2 => evm_ok e2 /\ evm_step env e0 e2 /\ 0 <= c_Gas c2 <= gas /\
       cache_good (c_jumpdests c2) /\ (undo = true -> e_view e2 = e_view e0)).
Proof.
  intros Hok0 Hok Hs Hsv Hg Hlim Hj. unfold gas_limit in *.
  destruct undo; [|apply runs_ret; by auto 10].
  apply runs_bind. destruct Hs as [B1 B2 _ _].
  eapply (runs_Revert env e0 id e l); try done.
  intros e2 Hok2 Hs2 Hv2. apply runs_ret.
  destruct (consume_ok err c ltac:(unfold gas_limit; lia)) as [Hcg Hcj].
  split; [done|]. split; [done|]. split; [lia|]. split; [by rewrite Hcj|done].
Qed.

Lemma storeCode_ok e0 id l e addr r err c gas :
  evm_ok e0 -> static env e0 = false -> evm_ok e -> evm_step env e0 e ->
  e_saved e = e_saved e0 ++ (id, e_view e0) :: l ->
  0 <= c_Gas c <= gas -> gas < gas_limit -> cache_good (c_jumpdests c) -> short r ->
  runs (storeCode env id addr r err c) e (fun res e' =>
    call_post env e0 gas res e' /\
    (cr_err res <> None -> e_view e' = e_view e0 \/
       (IsHomestead (env_chainConfig env) (BlockNumber (env_ctx env)) = false /\
        cr_err res = Some ErrCodeStoreOutOfGas))).
Proof.
  intros Hok0 Hns Hok Hs Hsv Hg Hlim Hj Hr. unfold storeCode. cbv zeta.
  set (exceeded := _ && (zlen r >? MaxCodeSize)).
  assert (static env e = false) as Hns'.
  { unfold static in *. by rewrite (step_readOnly _ _ _ Hs). }
  apply runs_bind. eapply runs_mono; [by apply (payCode_ok e0)|].
  intros [err1 c1] e1 (Hok1 & Hs1 & Hsv1 & Hg1 & Hj1). cbn [fst snd] in *.
  apply runs_bind. eapply runs_mono.
  { apply (undoCreate_ok e0 id l e1); try done; [by rewrite Hsv1|by rewrite Hj1]. }
  intros c2 e2 (Hok2 & Hs2 & Hg2 & Hj2 & Hv2). apply runs_ret. split; [by split|].
  intros Hne. cbn [callResult cr_err] in *.
  destruct exceeded; cbn [andb orb] in *; [left; by apply Hv2|].
  rewrite (bool_decide_eq_true_2 (err1 <> None)) in Hv2 by done. cbn [andb] in Hv2.
  destruct (IsHomestead _ _); [left; by apply Hv2|].
  case_bool_decide; [by right|left; by apply Hv2].
Qed.

(** The new account: created, given its nonce and the value. *)
Lemma openAccount_ok {A} e0 id e a ca value (k : M (EVMState S) A) Q :
  since env e0 id e -> static env e0 = false ->
  0 <= value <= w_GetBalance (e_view e) a ->
  (forall e', since env e0 id e' -> runs k e' Q) ->
  runs (onDB (CreateAccount ca) ;;
        (if IsEIP158 (env_chainConfig env) (BlockNumber (env_ctx env))
         then onDB (SetNonce ca 1) else ret tt) ;;
        onDB (Transfer (env_ctx env) a ca value) ;; k) e Q.
Proof.
  intros Hsi Hns Hb Hk. apply runs_bind.
  eapply (runs_write e (si_evm _ _ _ _ Hsi) env); [apply spec_CreateAccount, Hsi| |].
  { apply evolves_CreateAccount. by rewrite (since_static _ _ _ _ Hsi), Hns. }
  intros _ e1 Hs1 Hok1 Hv1 _ Hsv1. pose proof (since_next _ _ _ _ _ Hsi Hs1 Hok1 Hsv1) as Hsi1.
  assert (w_GetBalance (e_view e1) a = w_GetBalance (e_view e) a) as Hb1.
  { rewrite Hv1. fold (e_view e). apply balance_CreateAccount. }
  apply runs_bind. eapply runs_mono with (P := fun _ e2 => since env e0 id e2 /\
    w_GetBalance (e_view e2) a = w_GetBalance (e_view e) a).
  { destruct (IsEIP158 _ _); [|by apply runs_ret].
    eapply (runs_write e1 Hok1 env); [by apply spec_SetNonce; [apply Hok1|]| |].
    - rewrite (since_static _ _ _ _ Hsi1), Hns. apply evolves_SetNonce.
    - intros _ e2 Hs2 Hok2 Hv2 _ Hsv2. split; [by eapply since_next|].
      rewrite Hv2. fold (e_view e1). by rewrite balance_SetNonce. }
  intros _ e2 [Hsi2 Hb2]. rewrite (env_Transfer _ He). apply runs_bind.
  apply (runs_Transfer env); [apply Hsi2|rewrite Hb2; lia| |].
  { by rewrite (since_static _ _ _ _ Hsi2), Hns. }
  intros e3 Hs3 Hok3 Hsv3. apply Hk. by eapply since_next.
Qed.

(** Running the init code, from a state with the snapshot [id] of [e0]. *)
Lemma runInit_ok e0 id e caller ca code gas value :
  since env e0 id e -> evm_ok e0 -> static env e0 = false -> e_depth e0 <= CallCreateDepth ->
  ref_ok caller -> short code -> is_word value -> is_addr ca -> 0 <= gas <= bound ->
  runs (let* '(r, err, contract) := run env interp
          (SetCallCode (NewContract caller ca (Some value) gas) ca (Keccak256Hash code) code) [] in
        let* res := storeCode env id ca r err contract in
        ret (res, ca)) e (fun r e' =>
    call_post env e0 gas r.1 e' /\ is_addr r.2 /\
    (cr_err r.1 <> None -> e_view e' = e_view e0 \/
       (IsHomestead (env_chainConfig env) (BlockNumber (env_ctx env)) = false /\
        cr_err r.1 = Some ErrCodeStoreOutOfGas))).
Proof.
  intros Hsi Hok Hns Hd Hr Hc Hv Hca Hg. apply runs_bind. eapply runs_mono.
  { apply (run_ok env bound interp Hint); [apply Hsi| |apply NewContract_ok; try done; [lia|by right]|
      apply short_nil|cbn; lia].
    rewrite (si_depth _ _ _ _ Hsi). lia. }
  intros [[r err] c'] e1 [He1 Hs1 Hg1 Hj1 Hr1]. cbn [fst snd] in *.
  destruct (step_saved _ _ _ Hs1) as [l Hl]. apply runs_bind. eapply runs_mono.
  { apply (storeCode_ok e0 id l e1 ca r err c' gas); try done.
    - etrans; [by eapply since_step|done].
    - by rewrite Hl, (si_saved _ _ _ _ Hsi), <- app_assoc.
    - lia. }
  intros res e2 [Hp Ha]. by apply runs_ret.
Qed.

Lemma Create_ok e caller code gas value :
  call_pre e caller code gas bound -> is_word value -> static env e = false ->
  runs (Create env interp caller code gas value) e (fun r e' =>
    call_post env e gas r.1 e' /\ is_addr r.2 /\
    create_atomic env (ref_Address caller) e r.1 e').
Proof.
  intros [Hok Hr Hi Hg] Hv Hns. assert (0 <= gas) by lia. unfold Create.
  apply runs_bind, runs_get.
  split_if. { apply runs_ret. split; [by apply early_ok|]. split; [done|]. by left. }
  rewrite (env_CanTransfer _ He). apply runs_bind, runs_CanTransfer; [done|].
  intros e1 Hq1 Hok1. split_if.
  { apply runs_ret. split; [|split; [done|left; apply Hq1]].
    eapply call_post_trans; [by apply quiet_step|]. by apply early_ok. }
  set (a := ref_Address caller) in *. apply runs_bind.
  eapply runs_read; [done|apply spec_GetNonce, Hok1|]. intros e2 Hq2 Hok2.
  assert (quiet e e2) as Hq by by etrans. fold (e_view e1). rewrite (quiet_view _ _ Hq1).
  clear Hq1 Hq2. set (nonce := w_GetNonce (e_view e) a). apply runs_bind.
  assert (static env e2 = false) as Hns2.
  { unfold static in *. by rewrite (quiet_readOnly _ _ Hq). }
  eapply (runs_write e2 Hok2 env); [apply spec_SetNonce; [apply Hok2|apply u64_range]|
    rewrite Hns2; apply evolves_SetNonce|].
  intros _ e3 Hs3 Hok3 Hv3 _ _. cbv zeta. set (ca := CreateAddress a nonce).
  apply runs_bind. eapply runs_read; [done|apply spec_GetCodeHash, Hok3|]. intros e4 Hq4 Hok4.
  apply runs_bind. eapply runs_read; [done|apply spec_GetNonce, Hok4|]. intros e5 Hq5 Hok5.
  assert (quiet e3 e5) as Hq35 by by etrans. clear Hq4 Hq5.
  assert (e_view e5 = w_SetNonce a (u64 (nonce + 1)) (e_view e)) as Hv5.
  { rewrite (quiet_view _ _ Hq35), Hv3. fold (e_view e2). by rewrite (quiet_view _ _ Hq). }
  assert (evm_step env e e5) as Hs5.
  { etrans; [by apply quiet_step|]. etrans; [done|]. by apply quiet_step. }
  assert (static env e5 = false) as Hns5.
  { unfold static in *. by rewrite (step_readOnly _ _ _ Hs5). }
  split_if.
  { apply runs_ret. split; [|split; [done|right; by left]].
    eapply call_post_trans; [done|]. by apply early_ok. }
  apply runs_bind, (runs_Snapshot env); [done|]. intros id e6 Hsi6 Hv6.
  apply (openAccount_ok e5 id); [done..| |].
  { rewrite Hv6, Hv5, balance_SetNonce. unfold is_word in Hv. lia. }
  intros e9 Hsi9. pose proof (si_evm _ _ _ _ Hsi9). assert (is_addr ca) as Hca by apply CreateAddress_addr.
  destruct (env_NoRecursion env && _).
  { apply runs_ret. split; [|split; [done|by intros []]].
    eapply call_post_trans; [|by apply early_ok]. etrans; [done|by eapply since_step]. }
  eapply runs_mono.
  { apply (runInit_ok e5 id); try done; try lia. rewrite (step_depth _ _ _ Hs5). lia. }
  intros [res ca'] e11 (Hp & Ha & Hat). split; [by eapply call_post_trans|].
  split; [done|]. intros Hne. right. destruct (Hat Hne) as [Hv11|?]; [left; etrans; [exact Hv11|exact Hv5]|by right].
Qed.

(** The five together. *)
Lemma evmCalls_ok : calls_ok env bound (evmCalls env interp).
Proof.
  split.
  - apply Call_ok.
  - apply CallCode_ok.
  - apply DelegateCall_ok.
  - intros e caller addr input gas Hp Ha.
    eapply runs_mono; [by apply StaticCall_ok|]. by intros r e' (? & ? & _).
  - apply Create_ok.
Qed.
End operations.

(** ** The loop *)

Lemma loadAbort_ok env f :
  frame_ok f ->
  runs (loadAbort env) f (fun _ f' => exists e', f' = set_evm e' f /\
    evm_ok e' /\ quiet (f_evm f) e').
Proof.
  intros Hok. unfold loadAbort. apply runs_bind, runs_get, runs_bind.
  destruct f as [pc e c m st]. apply runs_onEVM, runs_modify, runs_ret.
  exists (tick e). split; [done|]. destruct (frame_evm _ Hok). by split.
Qed.

Record loop_post env (f : Frame S) (r : list byte * option vmErr) (f' : Frame S) : Prop := {
  lp_evm : evm_ok (f_evm f');
  lp_step : evm_step env (f_evm f) (f_evm f');
  lp_contract : contract_step (f_contract f) (f_contract f') (c_Gas (f_contract f));
  lp_ret : short r.1
}.

Lemma loop_post_trans env f f1 r f' :
  evm_step env (f_evm f) (f_evm f1) ->
  contract_step (f_contract f) (f_contract f1) (c_Gas (f_contract f)) ->
  loop_post env f1 r f' -> loop_post env f r f'.
Proof.
  intros Hs Hc [A B D E]. split; [done|by etrans| |done].
  eapply contract_step_mono; [by eapply contract_step_trans|].
  apply contract_step_gas in Hc. lia.
Qed.

(** [Run] around a body that behaves for frames with at most [bound] gas. *)
Lemma Run_ok env body bound :
  (forall f, loop_frame f -> c_Gas (f_contract f) <= bound ->
     runs body f (loop_post env f)) ->
  interp_ok env bound (Run body).
Proof.
  intros Hbody e c input Hok Hd Hc Hi Hb. unfold Run.
  apply runs_bind, runs_modify, runs_bind, runs_modify, runs_bind.
  set (e1 := set_returnData [] (set_depth (e_depth e + 1) e)).
  assert (evm_ok e1) as Hok1.
  { destruct Hok. split; try done. cbn. unfold CallCreateDepth in *. lia. }
  assert (forall e2, evm_ok e2 -> evm_step env e1 e2 ->
    evm_ok (set_depth (e_depth e2 - 1) e2) /\
    evm_step env e (set_depth (e_depth e2 - 1) e2)) as Hback.
  { intros e2 [] [B1 B2 B3 B4]. cbn in B1. destruct Hok. split.
    - split; try done. cbn. lia.
    - split; try done. cbn. lia. }
  split_if.
  - apply runs_ret, runs_bind, runs_modify, runs_ret.
    destruct (Hback e1 Hok1 ltac:(done)) as [? ?]. pose proof (c_ok_Gas _ Hc).
    split; try done; [cbn; lia|apply Hc].
  - pose proof (zlen_nonneg (c_Code c)).
    assert (contract_ok (with_input c input)) as Hc' by (destruct Hc; by split).
    destruct (Hbody (mkFrame 0 e1 (with_input c input) NewMemory newstack))
      as (r & f' & Eb & [A B D F]).
    { split; cbn; [|lia|done]. split; [done|done|done|apply Forall_nil_2]. }
    { done. }
    exists (r, f_contract f'), (f_evm f'). split; [by rewrite Eb|].
    apply runs_bind, runs_modify, runs_ret.
    destruct (Hback (f_evm f') A B) as [? ?]. split; try done.
    + by apply contract_step_gas in D.
    + by destruct D as (g & d & -> & ? & _).
Qed.

(** Any fuel above the gas of the frame is enough. *)
Lemma loop_ok env : env_ok env -> forall fuel f,
  loop_frame f -> c_Gas (f_contract f) < Z.of_nat fuel ->
  runs (loop fuel env) f (loop_post env f).
Proof.
  intros He. induction fuel as [|k IH]; intros f Hf Hg.
  { pose proof (c_ok_Gas _ (frame_contract _ (lf_frame _ Hf))). lia. }
  cbn [loop]. apply runs_bind. eapply runs_mono; [apply loadAbort_ok, Hf|].
  intros aborted f0 (e' & -> & Hok' & Hq). pose proof (quiet_step env _ _ Hq) as Hs0.
  assert (loop_frame (set_evm e' f)) as Hf'.
  { destruct Hf as [[] ? ?]. split; [by split|done|done]. }
  pose proof (contract_step_refl _ (frame_contract _ (lf_frame _ Hf))) as Hrefl.
  destruct aborted.
  { apply runs_ret. split; [done..|apply short_nil]. }
  apply runs_bind. eapply runs_mono.
  { pose proof (c_ok_Gas _ (frame_contract _ (lf_frame _ Hf))).
    apply (step_ok env _ (Z.min (Z.of_nat k - 1) (gas_limit - 1))); [done| |done|cbn; lia].
    apply evmCalls_ok; [done| |lia]. apply Run_ok. intros f1 Hf1 Hg1. apply IH; [done|lia]. }
  intros r f1 [A B D F].
  assert (evm_step env (f_evm f) (f_evm f1)) as Hs1 by by etrans.
  destruct r as [res|].
  - apply runs_ret. by split.
  - destruct F as [Hf1 Hlt]. cbn in Hlt. eapply runs_mono; [apply IH; [done|lia]|].
    intros r f2 Hp. by eapply loop_post_trans.
Qed.

(** ** The entry points *)

Lemma interp_loop env gas :
  env_ok env -> 0 <= gas < gas_limit -> interp_ok env gas (Run (loop (gasFuel gas) env)).
Proof.
  intros He Hg. apply Run_ok. intros f Hf Hgas. apply loop_ok; [done..|].
  unfold gasFuel. rewrite Nat2Z.inj_succ, Z2Nat.id by lia. lia.
Qed.

Section entry.
Context (env : Env S) (e : EVMState S) (caller : ContractRef) (gas : Z).
Context (He : env_ok env) (Hok : evm_ok e) (Hr : ref_ok caller) (Hg : 0 <= gas < gas_limit).

Lemma entry_pre input : short input -> call_pre e caller input gas gas.
Proof. intros Hi. split; [done..|lia]. Qed.

Lemma EVM_Call_ok addr input value :
  is_addr addr -> short input -> is_word value -> (static env e = true -> value = 0) ->
  runs (EVM_Call env caller addr input gas value) e (fun r e' =>
    call_post env e gas r e' /\ atomic e r e').
Proof.
  intros. apply (Call_ok env _ gas He (interp_loop env gas He Hg)); try done; [lia|].
  by apply entry_pre.
Qed.

Lemma EVM_CallCode_ok addr input value :
  is_addr addr -> short input -> is_word value ->
  runs (EVM_CallCode env caller addr input gas value) e (fun r e' =>
    call_post env e gas r e' /\ atomic e r e').
Proof.
  intros. apply (CallCode_ok env _ gas He (interp_loop env gas He Hg)); try done; [lia|].
  by apply entry_pre.
Qed.

Lemma EVM_DelegateCall_ok addr input :
  is_addr addr -> short input -> (exists self ca v d, caller = ContractPtr self ca v d) ->
  runs (EVM_DelegateCall env caller addr input gas) e (fun r e' =>
    call_post env e gas r e' /\ atomic e r e').
Proof.
  intros. apply (DelegateCall_ok env _ gas (interp_loop env gas He Hg)); try done; [lia|].
  by apply entry_pre.
Qed.

Lemma EVM_StaticCall_ok addr input :
  is_addr addr -> short input ->
  runs (EVM_StaticCall env caller addr input gas) e (fun r e' =>
    call_post env e gas r e' /\ atomic e r e' /\
    (rules_IsByzantium (env_rules env) = true -> same_obs (e_view e) (e_view e'))).
Proof.
  intros. apply (StaticCall_ok env _ gas (interp_loop env gas He Hg)); try done; [lia|].
  by apply entry_pre.
Qed.

Lemma EVM_Create_ok code value :
  short code -> is_word value -> static env e = false ->
  runs (EVM_Create env caller code gas value) e (fun r e' =>
    call_post env e gas r.1 e' /\ is_addr r.2 /\
    create_atomic env (ref_Address caller) e r.1 e').
Proof.
  intros. apply (Create_ok env _ gas He (interp_loop env gas He Hg)); try done; [lia|].
  by apply entry_pre.
Qed.
End entry.
End calls.
