(* ===== verification/StateTransition.v ===== *)
(** * core/state_transition.go and core/gaspool.go

    The application of one message: nonce check, purchase of the gas, intrinsic
    gas, the EVM, refund, payment of the miner.  The mutable fields of
    [StateTransition] that change, the pool it shares with the block and the
    EVM with its state are one record, [TxState]. *)

From Stdlib Require Import ZArith Lia Bool.
From S2P Require Import Prelude GoMath Params VmStack VmMemory Opcodes Analysis.
From S2P Require Import StateInterface World Machine Gas Instructions JumpTable.
From S2P Require Import Precompiles Interpreter EvmInv ExecSafe ExecFlow TableSafe.
From S2P Require Import EvmSafe CallSafe.
Local Open Scope Z_scope.
Local Open Scope go_scope.

Inductive txErr :=
| ErrNonceTooHigh | ErrNonceTooLow | errInsufficientBalanceForGas | ErrGasLimitReached
| errVM (e : vmErr).

(** ** gaspool.go *)

(** [None] is the panic. *)
Definition GasPool_AddGas (gp amount : Z) : option Z :=
  if gp >? MaxUint64 - amount then None else Some (u64 (gp + amount)).

Definition GasPool_SubGas (gp amount : Z) : option txErr * Z :=
  if gp <? amount then (Some ErrGasLimitReached, gp) else (None, u64 (gp - amount)).

(** ** IntrinsicGas *)

(** [for _, byt := range data { if byt != 0 { nz++ } }]. *)
Definition nonZeroBytes (data : list byte) : Z :=
  fold_left (fun nz b => if bool_decide (b = x00) then nz else u64 (nz + 1)) data 0.

Definition IntrinsicGas (data : list byte) (contractCreation homestead : bool) : txErr + Z :=
  let gas := if contractCreation && homestead then TxGasContractCreation else TxGas in
  if zlen data >? 0 then
    let nz := nonZeroBytes data in
    if (MaxUint64 - gas) / TxDataNonZeroGas <? nz then inl (errVM ErrOutOfGas)
    else
      let gas := gas +u (nz *u TxDataNonZeroGas) in
      let z := u64 (zlen data - nz) in
      if (MaxUint64 - gas) / TxDataZeroGas <? z then inl (errVM ErrOutOfGas)
      else inr (gas +u (z *u TxDataZeroGas))
  else inr gas.

(** ** The transition *)

Record Message := mkMessage {
  msg_From : Address;
  msg_To : option Address;
  msg_GasPrice : Z;
  msg_Gas : Z;
  msg_Value : Z;
  msg_Nonce : Z;
  msg_CheckNonce : bool;
  msg_Data : list byte
}.

Section transition.
Context {C : Crypto} {S : Type} `{SDB : !StateDB S}.

Record TxState := mkTxState {
  t_evm : EVMState S;
  t_gp : Z;
  t_gas : Z;
  t_initialGas : Z
}.

Definition set_tevm (e : EVMState S) (t : TxState) : TxState :=
  mkTxState e (t_gp t) (t_gas t) (t_initialGas t).
Definition set_gp (gp : Z) (t : TxState) : TxState :=
  mkTxState (t_evm t) gp (t_gas t) (t_initialGas t).
Definition set_tgas (g : Z) (t : TxState) : TxState :=
  mkTxState (t_evm t) (t_gp t) g (t_initialGas t).
Definition set_initialGas (g : Z) (t : TxState) : TxState :=
  mkTxState (t_evm t) (t_gp t) (t_gas t) g.

Definition onTx {A} (m : M (EVMState S) A) : M TxState A := zoom t_evm set_tevm m.
Definition txDB {A} (m : M S A) : M TxState A := onTx (onDB m).

Definition gasUsed (t : TxState) : Z := u64 (t_initialGas t - t_gas t).

Definition useGas (amount : Z) : M TxState (option txErr) :=
  let* t := get in
  if t_gas t <? amount then ret (Some (errVM ErrOutOfGas))
  else put (set_tgas (u64 (t_gas t - amount)) t) ;; ret None.

Definition buyGas (msg : Message) : M TxState (option txErr) :=
  let mgval := msg_Gas msg * msg_GasPrice msg in
  let* b := txDB (GetBalance (msg_From msg)) in
  if b <? mgval then ret (Some errInsufficientBalanceForGas)
  else
    let* t := get in
    let '(err, gp) := GasPool_SubGas (t_gp t) (msg_Gas msg) in
    put (set_gp gp t) ;;
    match err with
    | Some e => ret (Some e)
    | None =>
        modify (fun t => set_initialGas (msg_Gas msg) (set_tgas (u64 (t_gas t + msg_Gas msg)) t)) ;;
        txDB (SubBalance (msg_From msg) mgval) ;;
        ret None
    end.

Definition preCheck (msg : Message) : M TxState (option txErr) :=
  let* nonceErr :=
    if msg_CheckNonce msg then
      let* nonce := txDB (GetNonce (msg_From msg)) in
      ret (if nonce <? msg_Nonce msg then Some ErrNonceTooHigh
           else if nonce >? msg_Nonce msg then Some ErrNonceTooLow else None)
    else ret None in
  match nonceErr with
  | Some e => ret (Some e)
  | None => buyGas msg
  end.

Definition refundGas (msg : Message) : M TxState unit :=
  let* r := txDB GetRefund in
  let* t := get in
  let refund := gasUsed t / 2 in
  let refund := if refund >? r then r else refund in
  let gas := u64 (t_gas t + refund) in
  put (set_tgas gas t) ;;
  txDB (AddBalance (msg_From msg) (gas * msg_GasPrice msg)) ;;
  let* t := get in
  let* gp := must (GasPool_AddGas (t_gp t) gas) in
  put (set_gp gp t).

(** The EVM part: the return data, and the error of the virtual machine. *)
Definition execute (env : Env S) (msg : Message) : M TxState (list byte * option vmErr) :=
  let sender := AccountRef (msg_From msg) in
  let* t := get in
  match msg_To msg with
  | None =>
      let* '(r, _) := onTx (EVM_Create env sender (msg_Data msg) (t_gas t) (msg_Value msg)) in
      modify (set_tgas (cr_gas r)) ;; ret (cr_ret r, cr_err r)
  | Some to =>
      let* nonce := txDB (GetNonce (msg_From msg)) in
      txDB (SetNonce (msg_From msg) (u64 (nonce + 1))) ;;
      let* r := onTx (EVM_Call env sender to (msg_Data msg) (t_gas t) (msg_Value msg)) in
      modify (set_tgas (cr_gas r)) ;; ret (cr_ret r, cr_err r)
  end.

(** [ret, usedGas, failed, err]. *)
Definition TransitionDb (env : Env S) (msg : Message)
    : M TxState (list byte * Z * bool * option txErr) :=
  let* err := preCheck msg in
  match err with
  | Some e => ret ([], 0, false, Some e)
  | None =>
      let homestead := IsHomestead (env_chainConfig env) (BlockNumber (env_ctx env)) in
      let contractCreation := bool_decide (msg_To msg = None) in
      match IntrinsicGas (msg_Data msg) contractCreation homestead with
      | inl e => ret ([], 0, false, Some e)
      | inr gas =>
          let* err := useGas gas in
          match err with
          | Some e => ret ([], 0, false, Some e)
          | None =>
              let* '(r, vmerr) := execute env msg in
              if bool_decide (vmerr = Some ErrInsufficientBalance)
              then ret ([], 0, false, Some (errVM ErrInsufficientBalance))
              else
                refundGas msg ;;
                let* t := get in
                txDB (AddBalance (Coinbase (env_ctx env)) (gasUsed t * msg_GasPrice msg)) ;;
                ret (r, gasUsed t, bool_decide (vmerr <> None), None)
          end
      end
  end.

(** [NewStateTransition(evm, msg, gp).TransitionDb()]. *)
Definition ApplyMessage (env : Env S) (e : EVMState S) (msg : Message) (gp : Z)
    : outcome (list byte * Z * bool * option txErr * TxState) :=
  TransitionDb env msg (mkTxState e gp 0 0).
End transition.
Arguments TxState : clear implicits.

(** ** IntrinsicGas: exact, and its overflow checks are sufficient *)

Lemma nonZeroBytes_count data :
  zlen data < 2 ^ 62 ->
  nonZeroBytes data = zlen (List.filter (fun b => negb (bool_decide (b = x00))) data).
Proof.
  unfold nonZeroBytes. induction data as [|b l IH] using rev_ind; [done|].
  rewrite zlen_app. change (zlen [b]) with 1. intros Hl. pose proof (zlen_nonneg l).
  rewrite fold_left_app, List.filter_app, zlen_app. cbn [fold_left List.filter].
  rewrite IH by lia. case_bool_decide; cbn [negb]; [change (zlen []) with 0; lia|].
  change (zlen [b]) with 1. apply u64_small.
  pose proof (List.filter_length_le (fun b => negb (bool_decide (b = x00))) l).
  unfold is_u64, zlen in *. lia.
Qed.

Lemma nonZeroBytes_range data :
  zlen data < 2 ^ 62 -> 0 <= nonZeroBytes data <= zlen data.
Proof.
  intros H. rewrite nonZeroBytes_count by done.
  pose proof (List.filter_length_le (fun b => negb (bool_decide (b = x00))) data).
  unfold zlen. lia.
Qed.

(** The mathematical price. *)
Definition intrinsic_price (data : list byte) (contractCreation homestead : bool) : Z :=
  (if contractCreation && homestead then TxGasContractCreation else TxGas) +
  nonZeroBytes data * TxDataNonZeroGas + (zlen data - nonZeroBytes data) * TxDataZeroGas.

Lemma IntrinsicGas_spec data cc hs :
  zlen data < 2 ^ 62 ->
  IntrinsicGas data cc hs =
    if intrinsic_price data cc hs <? 2 ^ 64 then inr (intrinsic_price data cc hs)
    else inl (errVM ErrOutOfGas).
Proof.
  intros Hl. unfold IntrinsicGas, intrinsic_price, MaxUint64. cbv zeta.
  pose proof (nonZeroBytes_range data Hl) as Hn. pose proof (zlen_nonneg data).
  set (g := if cc && hs then TxGasContractCreation else TxGas).
  assert (21000 <= g <= 53000) as Hg.
  { unfold g, TxGasContractCreation, TxGas. destruct (cc && hs); lia. }
  set (nz := nonZeroBytes data) in *. unfold TxDataNonZeroGas, TxDataZeroGas.
  destruct (zlen data >? 0) eqn:E0; zbool.
  2: { replace nz with 0 by lia. replace (zlen data) with 0 by lia.
       replace (g + 0 * 68 + (0 - 0) * 4) with g by lia.
       by replace (g <? 2 ^ 64) with true by lia. }
  pose proof (Z.div_mod (2 ^ 64 - 1 - g) 68 ltac:(lia)).
  pose proof (Z.mod_pos_bound (2 ^ 64 - 1 - g) 68 ltac:(lia)).
  destruct (_ <? nz) eqn:E1; zbool.
  { by replace (g + nz * 68 + (zlen data - nz) * 4 <? 2 ^ 64) with false by lia. }
  rewrite (u64_small (nz * 68)) by (unfold is_u64; lia).
  rewrite (u64_small (g + nz * 68)) by (unfold is_u64; lia).
  rewrite (u64_small (zlen data - nz)) by (unfold is_u64; lia).
  pose proof (Z.div_mod (2 ^ 64 - 1 - (g + nz * 68)) 4 ltac:(lia)).
  pose proof (Z.mod_pos_bound (2 ^ 64 - 1 - (g + nz * 68)) 4 ltac:(lia)).
  destruct (_ <? zlen data - nz) eqn:E2; zbool.
  { by replace (g + nz * 68 + (zlen data - nz) * 4 <? 2 ^ 64) with false by lia. }
  rewrite (u64_small ((zlen data - nz) * 4)) by (unfold is_u64; lia).
  rewrite u64_small by (unfold is_u64; lia).
  by replace (g + nz * 68 + (zlen data - nz) * 4 <? 2 ^ 64) with true by lia.
Qed.

(** ** The transition runs, and its accounts balance *)

Section transition_ok.
Context {C : Crypto} {S : Type} `{SDB : !StateDB S} {SPEC : StateDBSpec S}.
Context {CS : CryptoSizes C} {CI : CodeHashIdeal C}.
Implicit Types (env : Env S) (e : EVMState S) (t : TxState S).

Record msg_ok (msg : Message) : Prop := {
  msg_ok_From : is_addr (msg_From msg);
  msg_ok_To to : msg_To msg = Some to -> is_addr to;
  msg_ok_GasPrice : 0 <= msg_GasPrice msg;
  msg_ok_Gas : 0 <= msg_Gas msg < gas_limit;
  msg_ok_Value : is_word (msg_Value msg);
  msg_ok_Data : short (msg_Data msg)
}.

(** The state during a transition that started from [e0]. *)
Record tx_inv e0 t : Prop := {
  tx_evm : evm_ok (t_evm t);
  tx_depth : e_depth (t_evm t) = e_depth e0;
  tx_readOnly : e_readOnly (t_evm t) = e_readOnly e0;
  tx_saved : exists l, e_saved (t_evm t) = e_saved e0 ++ l
}.

(** The fields of the transition itself. *)
Definition same_fields t t' : Prop :=
  t_gp t' = t_gp t /\ t_gas t' = t_gas t /\ t_initialGas t' = t_initialGas t.

Abbreviation t_view t := (e_view (t_evm t)) (only parsing).

Lemma tx_inv_evm e0 t e' :
  tx_inv e0 t -> evm_ok e' -> e_depth e' = e_depth (t_evm t) ->
  e_readOnly e' = e_readOnly (t_evm t) -> (exists l, e_saved e' = e_saved (t_evm t) ++ l) ->
  tx_inv e0 (set_tevm e' t).
Proof.
  intros [A B D [l F]] Hok Hd Hr [l' Hs]. split; cbn; [done|congruence|congruence|].
  exists (l ++ l'). by rewrite Hs, F, app_assoc.
Qed.

Lemma tx_inv_fields e0 t t' : tx_inv e0 t -> t_evm t' = t_evm t -> tx_inv e0 t'.
Proof. intros [] E. by split; rewrite E. Qed.

Lemma tx_read e0 t {A} (m : M S A) v (P : A -> TxState S -> Prop) :
  tx_inv e0 t ->
  runs m (e_StateDB (t_evm t)) (fun r d => r = v /\ db_inv d /\
    view d = view (e_StateDB (t_evm t)) /\ saved d = saved (e_StateDB (t_evm t))) ->
  (forall t', tx_inv e0 t' -> t_view t' = t_view t -> same_fields t t' -> P v t') ->
  runs (txDB m) t P.
Proof.
  intros Ht Hm HP. apply runs_zoom. eapply runs_read; [apply Ht|exact Hm|].
  intros e' Hq Hok'. apply HP; [|apply Hq|done].
  apply tx_inv_evm; try done; try apply Hq. exists []. rewrite app_nil_r. apply Hq.
Qed.

Lemma tx_write e0 t {A} (m : M S A) w' (P : A -> TxState S -> Prop) :
  tx_inv e0 t -> world_ok w' ->
  runs m (e_StateDB (t_evm t)) (fun _ d => db_inv d /\ view d = w' /\
    saved d = saved (e_StateDB (t_evm t))) ->
  (forall r t', tx_inv e0 t' -> t_view t' = w' -> same_fields t t' -> P r t') ->
  runs (txDB m) t P.
Proof.
  intros Ht Hw Hm HP. apply runs_zoom, runs_onDB. eapply runs_mono; [exact Hm|].
  intros r d (Hi & Hv & Hs). apply HP; [|done|done]. apply tx_inv_evm; try done.
  - apply evm_ok_set_db; [apply Ht|done|]. by rewrite Hv.
  - exists []. by rewrite app_nil_r.
Qed.

(** Paying into and out of an account. *)
Lemma world_ok_credit w a v :
  world_ok w -> 0 <= v -> supply w + v < 2 ^ 256 ->
  world_ok (w_AddBalance a v w) /\ supply (w_AddBalance a v w) = supply w + v.
Proof.
  intros [Hn Hs] Hv Hl.
  assert (supply (w_AddBalance a v w) = supply w + v) as E.
  { unfold w_AddBalance. rewrite supply_update. cbn. unfold w_GetBalance. lia. }
  split; [|done]. split; [|lia]. intros b. specialize (Hn b).
  unfold w_GetBalance, w_AddBalance in *. rewrite w_acc_update. case_decide; cbn; lia.
Qed.

Lemma world_ok_debit w a v :
  world_ok w -> 0 <= v <= w_GetBalance w a ->
  world_ok (w_SubBalance a v w) /\ supply (w_SubBalance a v w) = supply w - v.
Proof.
  intros [Hn Hs] Hv.
  assert (supply (w_SubBalance a v w) = supply w - v) as E.
  { unfold w_SubBalance. rewrite supply_update. cbn. unfold w_GetBalance. lia. }
  split; [|done]. split; [|lia]. intros b. specialize (Hn b).
  unfold w_GetBalance, w_SubBalance in *. rewrite w_acc_update.
  case_decide; subst; cbn; lia.
Qed.

(** Why [preCheck] refuses a message. *)
Definition check_fails (msg : Message) t (err : txErr) : Prop :=
  match err with
  | ErrNonceTooHigh => msg_CheckNonce msg = true /\ w_GetNonce (t_view t) (msg_From msg) < msg_Nonce msg
  | ErrNonceTooLow => msg_CheckNonce msg = true /\ msg_Nonce msg < w_GetNonce (t_view t) (msg_From msg)
  | errInsufficientBalanceForGas => w_GetBalance (t_view t) (msg_From msg) < msg_Gas msg * msg_GasPrice msg
  | ErrGasLimitReached => t_gp t < msg_Gas msg
  | errVM _ => False
  end.

(** [preCheck]: an error changes nothing; otherwise the gas has been bought. *)
Record bought (msg : Message) t t' : Prop := {
  bought_view : t_view t' =
    w_SubBalance (msg_From msg) (msg_Gas msg * msg_GasPrice msg) (t_view t);
  bought_supply : supply (t_view t') = supply (t_view t) - msg_Gas msg * msg_GasPrice msg;
  bought_gp : msg_Gas msg <= t_gp t /\ t_gp t' = t_gp t - msg_Gas msg;
  bought_gas : t_gas t' = msg_Gas msg;
  bought_initial : t_initialGas t' = msg_Gas msg
}.

Lemma buyGas_ok e0 msg t :
  msg_ok msg -> tx_inv e0 t -> is_u64 (t_gp t) -> t_gas t = 0 ->
  runs (buyGas msg) t (fun err t' => tx_inv e0 t' /\
    match err with
    | Some e => check_fails msg t e /\ t_view t' = t_view t /\ same_fields t t'
    | None => bought msg t t'
    end).
Proof.
  intros Hm Ht Hgp Hg0. unfold buyGas. cbv zeta. apply runs_bind.
  eapply tx_read; [done|apply spec_GetBalance, Ht|]. intros t1 Ht1 Hv1 (F1 & F2 & F3).
  fold (t_view t). destruct Hm as [M1 M2 M3 M4 M5 M6]. unfold gas_limit, is_u64 in *.
  split_if; [by apply runs_ret|]. apply runs_bind, runs_get.
  unfold GasPool_SubGas. destruct (t_gp t1 <? msg_Gas msg) eqn:Eg; zbool.
  - apply runs_bind. exists tt, (set_gp (t_gp t1) t1). split; [done|]. apply runs_ret.
    split; [by eapply tx_inv_fields|]. split; [cbn; lia|done].
  - apply runs_bind. exists tt, (set_gp (u64 (t_gp t1 - msg_Gas msg)) t1). split; [done|].
    apply runs_bind, runs_modify, runs_bind. cbn [set_gp t_gas].
    set (t2 := set_initialGas _ _).
    assert (tx_inv e0 t2) as Ht2 by by eapply tx_inv_fields.
    destruct (world_ok_debit (t_view t) (msg_From msg) (msg_Gas msg * msg_GasPrice msg))
      as [Hw Hs]; [apply Ht|lia|].
    eapply (tx_write e0 t2); [done|exact Hw| |].
    { rewrite <- Hv1. apply (spec_SubBalance (e_StateDB (t_evm t2))), Ht2. }
    intros _ t3 Ht3 Hv3 (G1 & G2 & G3). apply runs_ret. split; [done|].
    split; [done|by rewrite Hv3| | |done].
    + rewrite G1. cbn. rewrite u64_small by (unfold is_u64; lia). lia.
    + rewrite G2. cbn. rewrite F2, Hg0, u64_small by (unfold is_u64; lia). lia.
Qed.

Lemma bought_quiet msg t t1 t' :
  t_view t1 = t_view t -> same_fields t t1 -> bought msg t1 t' -> bought msg t t'.
Proof.
  intros Hv (F1 & F2 & F3) [A B D E F]. rewrite Hv in A, B. rewrite F1 in D. by split.
Qed.

Lemma preCheck_ok e0 msg t :
  msg_ok msg -> tx_inv e0 t -> is_u64 (t_gp t) -> t_gas t = 0 ->
  runs (preCheck msg) t (fun err t' => tx_inv e0 t' /\
    match err with
    | Some e => check_fails msg t e /\ t_view t' = t_view t /\ same_fields t t'
    | None => bought msg t t' /\
        (msg_CheckNonce msg = true -> w_GetNonce (t_view t) (msg_From msg) = msg_Nonce msg)
    end).
Proof.
  intros Hm Ht Hgp Hg0. unfold preCheck. apply runs_bind.
  assert (forall t1, tx_inv e0 t1 -> t_view t1 = t_view t -> same_fields t t1 ->
    (msg_CheckNonce msg = true -> w_GetNonce (t_view t) (msg_From msg) = msg_Nonce msg) ->
    runs (buyGas msg) t1 (fun err t' => tx_inv e0 t' /\
      match err with
      | Some e => check_fails msg t e /\ t_view t' = t_view t /\ same_fields t t'
      | None => bought msg t t' /\
          (msg_CheckNonce msg = true -> w_GetNonce (t_view t) (msg_From msg) = msg_Nonce msg)
      end)) as Hbuy.
  { intros t1 Ht1 Hv1 Hf1 Hn. pose proof Hf1 as (F1 & F2 & F3).
    eapply runs_mono; [apply (buyGas_ok e0); [done|done|by rewrite F1|by rewrite F2]|].
    intros [err|] t' [Ht' Hp]; (split; [done|]).
    - destruct Hp as (Hf & Hv & G1 & G2 & G3). split; [by destruct err; cbn in Hf |- *; rewrite ?Hv1, ?F1 in Hf|].
      split; [congruence|]. unfold same_fields. repeat split; congruence.
    - split; [by eapply bought_quiet|done]. }
  destruct (msg_CheckNonce msg) eqn:Ec; [|by apply runs_ret, Hbuy].
  apply runs_bind. eapply tx_read; [done|apply spec_GetNonce, Ht|].
  intros t1 Ht1 Hv1 Hf1. apply runs_ret. fold (t_view t).
  split_if; [apply runs_ret; split; [done|]; split; [split; [done|lia]|done]|].
  split_if; [apply runs_ret; split; [done|]; split; [split; [done|lia]|done]|].
  apply Hbuy; try done. intros _. lia.
Qed.

(** [refundGas] and the payment of the miner, after the EVM has left [t_gas]. *)
Record settled (msg : Message) t t' : Prop := {
  settled_gas : t_gas t <= t_gas t' <= t_gas t + (t_initialGas t - t_gas t) / 2;
  settled_initial : t_initialGas t' = t_initialGas t;
  settled_gp : t_gp t' = t_gp t + t_gas t';
  settled_supply : supply (t_view t') = supply (t_view t) + t_gas t' * msg_GasPrice msg
}.

Lemma refundGas_ok e0 msg t :
  msg_ok msg -> tx_inv e0 t ->
  0 <= t_gas t <= t_initialGas t -> t_initialGas t < gas_limit ->
  0 <= t_gp t -> t_gp t + t_initialGas t < 2 ^ 64 ->
  supply (t_view t) + t_initialGas t * msg_GasPrice msg < 2 ^ 256 ->
  runs (refundGas msg) t (fun _ t' => tx_inv e0 t' /\ settled msg t t').
Proof.
  intros Hm Ht Hg Hi Hgp Hsum Hsup. unfold refundGas. apply runs_bind.
  eapply tx_read; [done|apply spec_GetRefund, Ht|]. intros t1 Ht1 Hv1 (F1 & F2 & F3).
  apply runs_bind, runs_get. cbv zeta. fold (t_view t).
  assert (is_u64 (w_refund (t_view t))) as Hr by apply (view_ok _ 0 (evm_inv _ (tx_evm _ _ Ht))).
  pose proof (msg_ok_GasPrice _ Hm) as Hprice. unfold gas_limit, is_u64 in *.
  unfold gasUsed. rewrite F2, F3.
  rewrite (u64_small (_ - _)) by (unfold is_u64; lia).
  set (half := (t_initialGas t - t_gas t) / 2).
  assert (0 <= half /\ t_gas t + half <= t_initialGas t) as Hh.
  { unfold half. pose proof (Z.div_mod (t_initialGas t - t_gas t) 2 ltac:(lia)).
    pose proof (Z.mod_pos_bound (t_initialGas t - t_gas t) 2 ltac:(lia)). lia. }
  set (refund := if half >? _ then _ else _).
  assert (0 <= refund <= half) as Href.
  { unfold refund. split_if; lia. }
  rewrite u64_small by (unfold is_u64; lia). set (gas := t_gas t + refund).
  apply runs_bind. exists tt, (set_tgas gas t1). split; [done|]. apply runs_bind.
  assert (tx_inv e0 (set_tgas gas t1)) as Ht2 by by eapply tx_inv_fields.
  assert (0 <= gas * msg_GasPrice msg <= t_initialGas t * msg_GasPrice msg) as Hpay.
  { unfold gas. split; [apply Z.mul_nonneg_nonneg; lia|].
    apply Z.mul_le_mono_nonneg_r; lia. }
  destruct (world_ok_credit (t_view t) (msg_From msg) (gas * msg_GasPrice msg)) as [Hw Hs];
    [apply Ht|lia|lia|].
  eapply (tx_write e0 (set_tgas gas t1)); [done|exact Hw| |].
  { rewrite <- Hv1. apply (spec_AddBalance (e_StateDB (t_evm (set_tgas gas t1)))), Ht2. }
  intros _ t3 Ht3 Hv3 (G1 & G2 & G3). cbn in G1, G2, G3.
  apply runs_bind, runs_get, runs_bind, runs_must. unfold GasPool_AddGas, MaxUint64.
  rewrite G1, F1. replace (t_gp t >? 2 ^ 64 - 1 - gas) with false by lia.
  eexists. split; [done|]. exists tt. eexists. split; [done|].
  split; [by eapply tx_inv_fields|]. rewrite u64_small by (unfold is_u64; lia).
  split; cbn [set_gp t_gas t_initialGas t_gp t_evm]; rewrite ?G2, ?G3, ?F3; try done; [lia|].
  by rewrite Hv3.
Qed.

(** What the EVM part leaves of the transition. *)
Record executed t t' : Prop := {
  executed_gas : 0 <= t_gas t' <= t_gas t;
  executed_gp : t_gp t' = t_gp t;
  executed_initial : t_initialGas t' = t_initialGas t;
  executed_supply : supply (t_view t') <= supply (t_view t)
}.

Lemma executed_call e0 env t t1 r e' :
  tx_inv e0 t1 -> same_fields t t1 -> supply (t_view t1) <= supply (t_view t) ->
  call_post env (t_evm t1) (t_gas t) r e' ->
  tx_inv e0 (set_tgas (cr_gas r) (set_tevm e' t1)) /\
  executed t (set_tgas (cr_gas r) (set_tevm e' t1)).
Proof.
  intros Ht1 (F1 & F2 & F3) Hs [A [B1 B2 B3 [B4 _]] D _ _]. split.
  - apply (tx_inv_fields e0 (set_tevm e' t1)); [|done]. by apply tx_inv_evm.
  - split; [done..|]. cbn. destruct (B4 (proj1 (evm_world _ (tx_evm _ _ Ht1)))). lia.
Qed.

Lemma execute_ok e0 env msg t :
  env_ok env -> msg_ok msg -> tx_inv e0 t -> e_readOnly e0 = false ->
  0 <= t_gas t < gas_limit ->
  runs (execute env msg) t (fun _ t' => tx_inv e0 t' /\ executed t t').
Proof.
  intros He Hm Ht Hro Hg. unfold execute. apply runs_bind, runs_get.
  pose proof (interp_loop env (t_gas t) He Hg) as Hint.
  assert (forall t1, tx_inv e0 t1 -> static env (t_evm t1) = false) as Hns.
  { intros t1 H1. unfold static. by rewrite (tx_readOnly _ _ H1), Hro, andb_false_r. }
  assert (forall t1, tx_inv e0 t1 ->
    call_pre (t_evm t1) (AccountRef (msg_From msg)) (msg_Data msg) (t_gas t) (t_gas t)) as Hpre.
  { intros t1 H1. split; [apply H1|apply Hm|apply Hm|lia]. }
  destruct (msg_To msg) as [to|] eqn:Eto.
  - apply runs_bind. eapply tx_read; [done|apply spec_GetNonce, Ht|].
    intros t1 Ht1 Hv1 (F1 & F2 & F3). apply runs_bind. fold (t_view t).
    assert (evolves false (t_view t) (w_SetNonce (msg_From msg)
      (u64 (w_GetNonce (t_view t) (msg_From msg) + 1)) (t_view t))) as Hev
      by apply evolves_SetNonce.
    pose proof (evm_world _ (tx_evm _ _ Ht)) as Hw.
    eapply (tx_write e0 t1); [done|by eapply evolves_ok| |].
    { rewrite <- Hv1. apply (spec_SetNonce (e_StateDB (t_evm t1))); [apply Ht1|apply u64_range]. }
    intros _ t2 Ht2 Hv2 (G1 & G2 & G3). apply runs_bind, runs_zoom.
    eapply runs_mono.
    { eapply (Call_ok env _ (t_gas t) He Hint); [apply Hg|by apply Hpre|by eapply msg_ok_To|
        apply Hm|by rewrite Hns]. }
    intros r e' [Hp _]. apply runs_bind, runs_modify, runs_ret.
    apply (executed_call e0 env t t2); [done|by repeat split; congruence| |done].
    rewrite Hv2. by apply Hev, Hw.
  - apply runs_bind, runs_zoom. eapply runs_mono.
    { eapply (Create_ok env _ (t_gas t) He Hint); [apply Hg|by apply Hpre|apply Hm|by apply Hns]. }
    intros [r a] e' [Hp _]. apply runs_bind, runs_modify, runs_ret.
    by apply (executed_call e0 env t t).
Qed.

(** The intrinsic gas of a message. *)
Definition messagePrice env (msg : Message) : Z :=
  intrinsic_price (msg_Data msg) (bool_decide (msg_To msg = None))
    (IsHomestead (env_chainConfig env) (BlockNumber (env_ctx env))).

(** The result of a transition.  A message that is applied uses at most its
    gas and at least half its intrinsic price, the block's pool goes down by
    what was used, and no value is created.  One that is refused by [preCheck]
    changes nothing; one that is refused later has had its gas taken from the
    pool, and the caller has to discard the state. *)
Record applied env (msg : Message) t (used : Z) t' : Prop := {
  applied_used : 0 <= used <= msg_Gas msg;
  applied_intrinsic : messagePrice env msg <= 2 * used;
  applied_gp : t_gp t' = t_gp t - used;
  applied_pool : used <= t_gp t;
  applied_supply : supply (t_view t') <= supply (t_view t);
  applied_nonce : msg_CheckNonce msg = true ->
    w_GetNonce (t_view t) (msg_From msg) = msg_Nonce msg
}.

Definition refused env (msg : Message) t (err : txErr) t' : Prop :=
  match err with
  | errVM e =>
      t_gp t' = t_gp t - msg_Gas msg /\ supply (t_view t') <= supply (t_view t) /\
      (e = ErrOutOfGas /\ msg_Gas msg < messagePrice env msg /\
         t_view t' = w_SubBalance (msg_From msg) (msg_Gas msg * msg_GasPrice msg) (t_view t) \/
       e = ErrInsufficientBalance /\ messagePrice env msg <= msg_Gas msg)
  | _ => check_fails msg t err /\ t_view t' = t_view t /\ same_fields t t'
  end.

(** A refused message creates no value. *)
Lemma refused_supply env msg t err t' : refused env msg t err t' -> supply (t_view t') <= supply (t_view t).
Proof. destruct err; cbn; [intros (_ & -> & _); lia..|by intros (_ & ? & _)]. Qed.

Definition transition_post env msg t (res : list byte * Z * bool * option txErr) t' : Prop :=
  tx_inv (t_evm t) t' /\
  match res with
  | (_, used, _, None) => applied env msg t used t'
  | (_, used, failed, Some err) => used = 0 /\ failed = false /\ refused env msg t err t'
  end.

(** An error after the gas has been bought. *)
Lemma refuse_late env msg t t1 t' (e : vmErr) :
  0 <= msg_Gas msg * msg_GasPrice msg -> bought msg t t1 ->
  e = ErrOutOfGas /\ msg_Gas msg < messagePrice env msg /\ t_view t' = t_view t1 \/
    e = ErrInsufficientBalance /\ messagePrice env msg <= msg_Gas msg ->
  tx_inv (t_evm t) t' -> t_gp t' = t_gp t1 -> supply (t_view t') <= supply (t_view t1) ->
  runs (ret ([], 0, false, Some (errVM e))) t' (transition_post env msg t).
Proof.
  intros Hm [A B [_ D] _ _] He Ht Hg Hs. apply runs_ret. split; [done|]. split; [done|].
  split; [done|]. split; [congruence|]. split; [lia|]. by rewrite <- A.
Qed.

Lemma payCoinbase_ok e0 env msg t :
  msg_ok msg -> tx_inv e0 t -> 0 <= t_gas t <= t_initialGas t ->
  t_initialGas t < gas_limit ->
  supply (t_view t) + (t_initialGas t - t_gas t) * msg_GasPrice msg < 2 ^ 256 ->
  runs (txDB (AddBalance (Coinbase (env_ctx env)) (gasUsed t * msg_GasPrice msg))) t
    (fun _ t' => tx_inv e0 t' /\ same_fields t t' /\
       supply (t_view t') =
         supply (t_view t) + (t_initialGas t - t_gas t) * msg_GasPrice msg).
Proof.
  intros Hm Ht Hg Hi Hs. unfold gasUsed, gas_limit in *.
  rewrite u64_small by (unfold is_u64; lia). pose proof (msg_ok_GasPrice _ Hm) as Hp.
  destruct (world_ok_credit (t_view t) (Coinbase (env_ctx env))
    ((t_initialGas t - t_gas t) * msg_GasPrice msg)) as [Hw Hsup]; [apply Ht| |lia|].
  { apply Z.mul_nonneg_nonneg; lia. }
  eapply tx_write; [done|exact Hw|apply spec_AddBalance, Ht|].
  intros _ t' Ht' Hv Hf. split; [done|]. split; [done|]. by rewrite Hv.
Qed.

Lemma TransitionDb_ok env msg t :
  env_ok env -> msg_ok msg -> evm_ok (t_evm t) -> e_readOnly (t_evm t) = false ->
  is_u64 (t_gp t) -> t_gas t = 0 ->
  runs (TransitionDb env msg) t (transition_post env msg t).
Proof.
  intros He Hm Hok Hro Hgp Hg0. unfold TransitionDb.
  assert (tx_inv (t_evm t) t) as Ht by (split; try done; exists []; by rewrite app_nil_r).
  apply runs_bind. eapply runs_mono; [by apply preCheck_ok|].
  intros [err|] t1 [Ht1 Hp1].
  { apply runs_ret. split; [done|]. split; [done|]. split; [done|]. by destruct err; [..|destruct Hp1 as [[] _]]. }
  destruct Hp1 as [Hb Hnonce]. pose proof Hm as [M1 M2 M3 M4 M5 M6].
  assert (0 <= msg_Gas msg * msg_GasPrice msg) as Hpay by (apply Z.mul_nonneg_nonneg; lia).
  cbv zeta. rewrite IntrinsicGas_spec by done.
  fold (messagePrice env msg). set (price := messagePrice env msg). unfold gas_limit in M4.
  destruct (price <? 2 ^ 64) eqn:Ep; zbool; [|apply (refuse_late env msg t t1); [done|done|left; split; [done|split; [lia|done]]|done..]].
  pose proof Hb as [B1 B2 [B3 B3'] B4 B5]. unfold gas_limit, is_u64 in *.
  assert (0 <= price) as Hprice.
  { unfold price, messagePrice, intrinsic_price. pose proof (nonZeroBytes_range (msg_Data msg) M6).
    unfold TxDataNonZeroGas, TxDataZeroGas, TxGas, TxGasContractCreation. split_if; lia. }
  apply runs_bind. unfold useGas. apply runs_bind, runs_get.
  destruct (t_gas t1 <? price) eqn:Eu; zbool.
  { apply runs_ret. apply (refuse_late env msg t t1); [done|done|left; split; [done|split; [lia|done]]|done..]. }
  rewrite u64_small by (unfold is_u64; lia). apply runs_bind.
  exists tt, (set_tgas (t_gas t1 - price) t1). split; [done|]. apply runs_ret, runs_bind.
  assert (tx_inv (t_evm t) (set_tgas (t_gas t1 - price) t1)) as Ht2 by by eapply tx_inv_fields.
  eapply runs_mono; [apply (execute_ok (t_evm t)); try done; cbn; unfold gas_limit; lia|].
  intros [r vmerr] t3 [Ht3 [X1 X2 X3 X4]]. cbn [set_tgas t_gas t_gp t_initialGas t_evm] in *.
  case_bool_decide; [apply (refuse_late env msg t t1); [done|done|right; split; [done|lia]|done..]|].
  pose proof (evm_world _ Hok) as [_ Hcap].
  assert (0 <= t_gas t3 * msg_GasPrice msg <= msg_Gas msg * msg_GasPrice msg).
  { split; [apply Z.mul_nonneg_nonneg|apply Z.mul_le_mono_nonneg_r]; lia. }
  apply runs_bind. eapply runs_mono.
  { apply (refundGas_ok (t_evm t)); try done; rewrite ?X3, ?B5; unfold gas_limit; lia. }
  intros [] t4 [Ht4 [Y1 Y2 Y3 Y4]]. apply runs_bind, runs_get, runs_bind.
  rewrite X3, B5 in *.
  pose proof (Z.div_mod (msg_Gas msg - t_gas t3) 2 ltac:(lia)).
  pose proof (Z.mod_pos_bound (msg_Gas msg - t_gas t3) 2 ltac:(lia)).
  assert (supply (t_view t4) + (t_initialGas t4 - t_gas t4) * msg_GasPrice msg <=
    supply (t_view t)) as Hfinal.
  { rewrite Y4, Y2, Z.mul_sub_distr_r. lia. }
  eapply runs_mono.
  { apply (payCoinbase_ok (t_evm t)); try done; rewrite ?Y2; unfold gas_limit; lia. }
  intros _ t5 (Ht5 & (Z1 & Z2 & Z3) & Hs5). apply runs_ret. split; [done|].
  unfold gasUsed. rewrite Y2, u64_small by (unfold is_u64; lia).
  split; try lia. done.
Qed.
End transition_ok.
