(* ===== verification/Sample.v ===== *)
(** * A concrete instance

    Every class and hypothesis of the development holds of a small concrete
    system: an ideal code hash that keeps the whole program, a database that
    finds a program by its hash, four accounts, and the call context of
    [core/evm.go].  The theorems are applied to it with evaluated results. *)

From Stdlib Require Import ZArith Lia Bool.
From S2P Require Import Prelude GoMath Params VmStack VmMemory Opcodes Analysis.
From S2P Require Import StateInterface StateDB JournalSpec World Machine Gas Instructions.
From S2P Require Import JumpTable Precompiles Interpreter EvmInv ExecSafe.
Local Open Scope Z_scope.

#[export] Instance byte_countable : Countable byte.
Proof. apply (inj_countable Byte.to_N Byte.of_N). intros b. apply Byte.of_to_N. Defined.

(** Outputs of the documented sizes; the code hash of a program is the program;
    every signature is by the same key. *)
#[export] Instance sampleCrypto : Crypto := {|
  CodeHash := option (list byte);
  Keccak256Hash := Some;
  zeroHash := None;
  Keccak256 b := be_bytes 32 (SetBytes b);
  CreateAddress a n := (a * 1000 + n) mod 2 ^ 160;
  Ecrecover h s := Some (x04 :: replicate 32 x00 ++ x65 :: replicate 31 x00);
  Sha256 b := be_bytes 32 (SetBytes b + 1);
  Ripemd160 b := be_bytes 20 (SetBytes b + 2);
  G1 := unit;
  G2 := unit;
  G1_Unmarshal b := None;
  G2_Unmarshal b := None;
  G1_Marshal p := replicate 64 x00;
  G1_Add p q := tt;
  G1_ScalarMult p n := tt;
  PairingCheck l := true
|}.

#[export] Instance sampleSizes : CryptoSizes sampleCrypto.
Proof.
  split; try done.
  - by intros h s pk [= <-].
  - intros a n. unfold is_addr. apply Z.mod_pos_bound. lia.
Qed.

#[export] Instance sampleIdeal : CodeHashIdeal sampleCrypto.
Proof. constructor. by intros c1 c2 [= <-]. Qed.

#[export] Instance sampleDatabase : Database := {|
  accountErr a := false;
  slotErr a k := false;
  OpenStorageTrie a root := if root =? 0 then Some ∅ else None;
  ContractCode a h := h;
  StorageRoot t := if bool_decide (t = ∅) then 0 else 1
|}.

#[export] Instance sampleDatabaseOk : DatabaseOk sampleDatabase.
Proof. by split. Qed.

(** ** The accounts *)

(** [sstore(0, 1); stop]. *)
Definition storeProgram : list byte := [x60; x01; x60; x00; x55; x00].
(** [sstore(0, 1); revert(0, 0)]. *)
Definition revertProgram : list byte := [x60; x01; x60; x00; x55; x60; x00; x60; x00; xfd].
(** An endless loop. *)
Definition loopProgram : list byte := [x5b; x60; x00; x56].

Definition sampleTrie : gmap Address Account :=
  <[101 := mkAcct 7 1000000000 0 (Some [])]>
  (<[102 := mkAcct 1 5 0 (Some storeProgram)]>
  (<[103 := mkAcct 1 0 0 (Some revertProgram)]>
  (<[104 := mkAcct 1 0 0 (Some loopProgram)]> ∅))).

Definition sampleDB : stateDB := New sampleTrie.

Definition sampleContext : Context stateDB :=
  mkContext core_CanTransfer core_Transfer (fun _ => 0) 101 1 109 8000000 5000000 0 0.

Definition sampleEnv : Env stateDB :=
  mkEnv sampleContext MainnetChainConfig false false (fun _ => false).

Definition sampleEVM : EVMState stateDB := mkEVMState sampleDB 0 0 false [] 0%nat.

(** ** They meet the hypotheses *)

Lemma sampleEnv_ok : env_ok sampleEnv.
Proof. by split. Qed.

Lemma sampleTrie_ok a acc :
  sampleTrie !! a = Some acc -> accountErr a = false -> obj_ok (Obj.newObject a acc).
Proof.
  assert (map_Forall (fun a acc => obj_ok (Obj.newObject a acc)) sampleTrie) as H.
  { unfold sampleTrie. repeat (apply map_Forall_insert_2; [|]).
    all: try apply map_Forall_empty.
    all: split; try done; first [by left|intros k; unfold abs_slot; cbn; rewrite lookup_empty; done]. }
  intros Ha _. by apply H.
Qed.

Lemma sampleDB_inv : db_inv sampleDB.
Proof. apply New_inv, sampleTrie_ok. Qed.

Lemma sampleWorld_ok : world_ok (view sampleDB).
Proof.
  split; [|by vm_compute].
  assert (map_Forall (fun _ acc => 0 <= acc_balance acc) (w_accounts (view sampleDB))) as H.
  { apply (bool_decide_unpack _). by vm_compute. }
  intros a. unfold w_GetBalance, w_acc, w_get.
  destruct (w_accounts (view sampleDB) !! a) as [acc|] eqn:E; [|done]. by apply (H a).
Qed.

Lemma sampleEVM_ok : evm_ok sampleEVM.
Proof. split; [apply sampleDB_inv|apply sampleWorld_ok|done..]. Qed.

(** The error a call returned. *)
Definition errOf {X} (o : outcome (CallResult * X)) : option (option vmErr) :=
  match o with Ret (r, _) => Some (cr_err r) | _ => None end.
