(* ===== verification/BlockTypes.v ===== *)
(** * core/types: headers, transactions, blocks and bloom filters

    [block.go], [transaction.go] and [bloom9.go]: the data the consensus
    engines and the transaction pool work on, and their hashes.  A [big.Int]
    that the code keeps behind a pointer is a [Z]; the pointers of a decoded
    header or transaction are not nil.  A [BlockNonce] is the number its eight
    bytes encode ([EncodeNonce], [Uint64]). *)

From Stdlib Require Import ZArith Lia Bool.
From S2P Require Import Prelude GoMath Rlp RlpStream RlpStreamSpec TrieNode TrieDatabase TrieHasher Params StateInterface.
Local Open Scope Z_scope.

(** ** The encoding of structs

    [rlp/encode.go]: a struct and a slice of interfaces are both written as the
    list of their fields. *)

#[local] Set Warnings "-register-all".
Inductive field :=
| FBytes (b : list byte)
| FUint (i : Z)
| FBig (i : Z)
| FList (l : list field).

Fixpoint writeField (v : field) (w : encbuf) : rlpErr + encbuf :=
  match v with
  | FBytes b => inr (encodeString b w)
  | FUint i => inr (writeUint i w)
  | FBig i => writeBigInt i w
  | FList l =>
      let '(lh, w) := eb_list w in
      match (fix go (l : list field) (w : encbuf) : rlpErr + encbuf :=
               match l with
               | [] => inr w
               | v :: l => match writeField v w with inr w => go l w | inl e => inl e end
               end) l w with
      | inr w => inr (listEnd lh w)
      | inl e => inl e
      end
  end.

(** [encbuf.toWriter]: the writer takes everything; [None] is a slice out of
    range. *)
Fixpoint toWriterLoop (str : list byte) (heads : list listhead) (strpos : Z) : option (Z * list byte) :=
  match heads with
  | [] => Some (strpos, [])
  | head :: heads =>
      let piece :=
        if lh_offset head - strpos >? 0 then slice str strpos (lh_offset head) else Some [] in
      match piece with
      | None => None
      | Some piece =>
          match toWriterLoop str heads (strpos + zlen piece) with
          | Some (strpos, out) => Some (strpos, piece ++ listhead_encode head ++ out)
          | None => None
          end
      end
  end.

Definition toWriter (w : encbuf) : option (list byte) :=
  match toWriterLoop (eb_str w) (eb_lheads w) 0 with
  | None => None
  | Some (strpos, out) =>
      if strpos <? zlen (eb_str w) then
        match slice (eb_str w) strpos (zlen (eb_str w)) with
        | Some piece => Some (out ++ piece)
        | None => None
        end
      else Some out
  end.

(** [rlp.Encode]: an error, or what is written; [None] is a panic. *)
Definition Encode (v : field) : option (rlpErr + list byte) :=
  match writeField v eb_reset with
  | inl e => Some (inl e)
  | inr w => match toWriter w with Some b => Some (inr b) | None => None end
  end.

(** A [Hash] and an [Address] are byte arrays. *)
Definition FHash (h : Hash) : field := FBytes (be_bytes 32 h).
Definition FAddress (a : Address) : field := FBytes (be_bytes 20 a).

(** ** block.go *)

Record Header := mkHeader {
  h_ParentHash : Hash;
  h_UncleHash : Hash;
  h_Coinbase : Address;
  h_Root : Hash;
  h_TxHash : Hash;
  h_ReceiptHash : Hash;
  h_Bloom : Z;
  h_Difficulty : Z;
  h_Number : Z;
  h_GasLimit : Z;
  h_GasUsed : Z;
  h_Time : Z;
  h_Extra : list byte;
  h_MixDigest : Hash;
  h_Nonce : Z
}.

Definition set_Difficulty (d : Z) (h : Header) : Header :=
  mkHeader (h_ParentHash h) (h_UncleHash h) (h_Coinbase h) (h_Root h) (h_TxHash h) (h_ReceiptHash h)
    (h_Bloom h) d (h_Number h) (h_GasLimit h) (h_GasUsed h) (h_Time h) (h_Extra h) (h_MixDigest h)
    (h_Nonce h).

Definition EncodeNonce (i : Z) : list byte := be_bytes 8 i.

(** The fields both hashes start with. *)
Definition headerPrefix (h : Header) : list field :=
  [FHash (h_ParentHash h); FHash (h_UncleHash h); FAddress (h_Coinbase h); FHash (h_Root h);
   FHash (h_TxHash h); FHash (h_ReceiptHash h); FBytes (be_bytes 256 (h_Bloom h));
   FBig (h_Difficulty h); FBig (h_Number h); FUint (h_GasLimit h); FUint (h_GasUsed h); FBig (h_Time h)].

Definition headerField (h : Header) : field :=
  FList (headerPrefix h ++ [FBytes (h_Extra h); FHash (h_MixDigest h); FBytes (EncodeNonce (h_Nonce h))]).

Section hashes.
Context {K : Sha3}.

(** [rlp.Encode] writes nothing when it fails, and its error is dropped; it does
    not panic ([Encode_total]). *)
Definition rlpHash (v : field) : Hash :=
  match Encode v with
  | Some (inr b) => BytesToHash (keccak256 b)
  | _ => BytesToHash (keccak256 [])
  end.

Definition Header_Hash (h : Header) : Hash := rlpHash (headerField h).

Definition HashNoNonce (h : Header) : Hash :=
  rlpHash (FList (headerPrefix h ++ [FBytes (h_Extra h)])).

Definition CalcUncleHash (uncles : list Header) : Hash := rlpHash (FList (map headerField uncles)).
End hashes.

(** ** transaction.go *)

Record Transaction := mkTx {
  tx_AccountNonce : Z;
  tx_Price : Z;
  tx_GasLimit : Z;
  tx_Recipient : option Address;
  tx_Amount : Z;
  tx_Payload : list byte;
  tx_V : Z;
  tx_R : Z;
  tx_S : Z
}.

#[export] Instance Transaction_eq_dec : EqDecision Transaction.
Proof. solve_decision. Defined.

Definition tx_Nonce (tx : Transaction) : Z := tx_AccountNonce tx.
Definition tx_GasPrice (tx : Transaction) : Z := tx_Price tx.
Definition tx_Gas (tx : Transaction) : Z := tx_GasLimit tx.

Definition Cost (tx : Transaction) : Z := tx_Price tx * tx_GasLimit tx + tx_Amount tx.

(** A nil recipient is the empty string (tag [rlp:"nil"]). *)
Definition txField (tx : Transaction) : field :=
  FList [FUint (tx_AccountNonce tx); FBig (tx_Price tx); FUint (tx_GasLimit tx);
         match tx_Recipient tx with Some a => FAddress a | None => FBytes [] end;
         FBig (tx_Amount tx); FBytes (tx_Payload tx); FBig (tx_V tx); FBig (tx_R tx); FBig (tx_S tx)].

Definition tx_Hash {K : Sha3} (tx : Transaction) : Hash := rlpHash (txField tx).

Record Block := mkBlock {
  b_header : Header;
  b_uncles : list Header;
  b_transactions : list Transaction
}.

Definition NumberU64 (b : Block) : Z := u64 (h_Number (b_header b)).
Definition Block_ParentHash (b : Block) : Hash := h_ParentHash (b_header b).
Definition Block_Hash {K : Sha3} (b : Block) : Hash := Header_Hash (b_header b).

(** ** bloom9.go

    A bloom filter of 256 bytes is the number they encode ([Big]); [SetBytes]
    writes a number of at most 256 bytes at the end of zeros. *)

Definition BloomByteLength : Z := 256.
Definition BloomBitLength : Z := 8 * BloomByteLength.

(** [BytesToBloom]: [None] is the panic on more than 256 bytes. *)
Definition BytesToBloom (b : list byte) : option Z :=
  if BloomByteLength <? zlen b then None else Some (SetBytes b).

Section bloom.
Context {K : Sha3}.

Definition bloom9 (b : list byte) : Z :=
  let b := keccak256 b in
  let at_ i := byteZ (nth i b x00) in
  let bit i := Z.shiftl 1 (Z.land (at_ (i + 1)%nat + Z.shiftl (at_ i) 8) 2047) in
  Z.lor (Z.lor (Z.lor 0 (bit 0%nat)) (bit 2%nat)) (bit 4%nat).

Definition Bloom_Add (bloom : Z) (d : Z) : option Z := BytesToBloom (Bytes (Z.lor bloom (bloom9 (Bytes d)))).

Definition LogsBloom (logs : list Log) : Z :=
  fold_left (fun bin log =>
    let bin := Z.lor bin (bloom9 (be_bytes 20 (log_Address log))) in
    fold_left (fun bin b => Z.lor bin (bloom9 (be_bytes 32 b))) (log_Topics log) bin) logs 0.

(** The logs of the receipts. *)
Definition CreateBloom (receipts : list (list Log)) : option Z :=
  BytesToBloom (Bytes (fold_left (fun bin logs => Z.lor bin (LogsBloom logs)) receipts 0)).

Definition BloomLookup (bin : Z) (topic : list byte) : bool :=
  let cmp := bloom9 topic in Z.land bin cmp =? cmp.

Definition Bloom_Test (bloom test : Z) : bool := BloomLookup bloom (Bytes test).
Definition TestBytes (bloom : Z) (test : list byte) : bool := Bloom_Test bloom (SetBytes test).
End bloom.

(** ** The encoding is RLP *)

Lemma field_ind' (P : field -> Prop) :
  (forall b, P (FBytes b)) -> (forall i, P (FUint i)) -> (forall i, P (FBig i)) ->
  (forall l, Forall P l -> P (FList l)) -> forall v, P v.
Proof.
  intros HB HU HI HL. fix IH 1. intros [b|i|i|l]; [apply HB|apply HU|apply HI|]. apply HL.
  induction l as [|v l IHl]; constructor; [apply IH|exact IHl].
Qed.

(** The value a struct stands for. *)
Fixpoint itemOf (v : field) : item :=
  match v with
  | FBytes b => Str b
  | FUint i => Str (Bytes i)
  | FBig i => Str (Bytes i)
  | FList l => Lst (map itemOf l)
  end.

(** Integers in range. *)
Fixpoint encodable (v : field) : Prop :=
  match v with
  | FBytes b => True
  | FUint i => is_u64 i
  | FBig i => 0 <= i
  | FList l => foldr (fun v P => encodable v /\ P) True l
  end.

Definition writeFields (l : list field) (w : encbuf) : rlpErr + encbuf :=
  (fix go (l : list field) (w : encbuf) : rlpErr + encbuf :=
     match l with
     | [] => inr w
     | v :: l => match writeField v w with inr w => go l w | inl e => inl e end
     end) l w.

Lemma writeFields_cons v l w :
  writeFields (v :: l) w = match writeField v w with inr w => writeFields l w | inl e => inl e end.
Proof. done. Qed.

Lemma writeField_list l w :
  writeField (FList l) w =
  match writeFields l (eb_list w).2 with inr w' => inr (listEnd (eb_list w).1 w') | inl e => inl e end.
Proof. done. Qed.

Lemma toWriter_spec str hs : forall pos,
  0 <= pos -> heads_in pos (zlen str) hs ->
  exists pos' out, toWriterLoop str hs pos = Some (pos', out) /\ 0 <= pos' <= zlen str /\
    out ++ drop (Z.to_nat pos') str = render pos hs (drop (Z.to_nat pos) str).
Proof.
  induction hs as [|h hs IH]; intros pos Hp Hin; cbn [toWriterLoop render heads_in] in *.
  { exists pos, []. split; [done|]. split; [lia|done]. }
  destruct Hin as [Hle Hin]. pose proof (heads_in_le _ _ _ Hin) as Hle2.
  set (n := Z.to_nat (lh_offset h - pos)). set (piece := take n (drop (Z.to_nat pos) str)).
  assert ((if lh_offset h - pos >? 0 then slice str pos (lh_offset h) else Some []) = Some piece) as ->.
  { destruct (Z.gtb_spec (lh_offset h - pos) 0) as [Hgt|Hgt].
    - by rewrite slice_Some by lia.
    - unfold piece, n. by replace (Z.to_nat (lh_offset h - pos)) with O by lia. }
  assert (zlen piece = lh_offset h - pos) as Hpl.
  { unfold piece, zlen, n in *. rewrite length_take, length_drop. lia. }
  replace (pos + zlen piece) with (lh_offset h) by lia.
  destruct (IH (lh_offset h)) as (pos' & out & -> & Hb & E); [lia|done|].
  eexists _, _. split; [done|]. split; [done|]. rewrite <- !app_assoc, E, drop_drop.
  do 4 f_equal. unfold n. lia.
Qed.

(** Everything a writer adds is behind what was there, headers in order. *)
Definition laid (w w' : encbuf) : Prop :=
  exists s hs n,
    w' = mkEncbuf (eb_str w ++ s) (eb_lheads w ++ hs) n /\
    heads_in (zlen (eb_str w)) (zlen (eb_str w) + zlen s) hs.

Lemma laid_refl w : laid w w.
Proof.
  exists [], [], (eb_lhsize w). destruct w. cbn. rewrite !app_nil_r. split; [done|].
  unfold zlen. cbn. lia.
Qed.

Lemma laid_trans w1 w2 w3 : laid w1 w2 -> laid w2 w3 -> laid w1 w3.
Proof.
  intros (s1 & h1 & n1 & -> & H1) (s2 & h2 & n2 & -> & H2). cbn in *. rewrite zlen_app in *.
  exists (s1 ++ s2), (h1 ++ h2), n2. rewrite !app_assoc, zlen_app, Z.add_assoc. split; [done|].
  by eapply heads_in_app.
Qed.

Lemma laid_write b w : laid w (eb_write b w).
Proof.
  exists b, [], (eb_lhsize w). destruct w. unfold eb_write. cbn. rewrite !app_nil_r. split; [done|].
  pose proof (zlen_nonneg b). lia.
Qed.

Lemma laid_string b w : laid w (encodeString b w).
Proof.
  assert (forall n b', laid w (eb_write b' (encodeStringHeader n w))) as H.
  { intros n b'. eapply laid_trans; [|apply laid_write]. unfold encodeStringHeader.
    split_if; apply laid_write. }
  unfold encodeString. destruct b as [|x [|y b]]; try apply H. split_if; [apply laid_write|apply H].
Qed.

Lemma laid_list w w2 : laid (eb_list w).2 w2 -> laid w (listEnd (eb_list w).1 w2).
Proof.
  intros (s & hs & n & -> & H). cbn in *. unfold listEnd. cbn [eb_lheads].
  rewrite <- app_assoc. cbn [app]. rewrite list_lookup_middle by done. cbn [lh_offset lh_size].
  rewrite insert_app_r_alt, Nat.sub_diag by done. cbn [list_insert eb_str].
  eexists s, (_ :: hs), _. split; [done|]. cbn [heads_in lh_offset]. split; [lia|done].
Qed.

Lemma writeField_laid v : forall w w', writeField v w = inr w' -> laid w w'.
Proof.
  induction v as [b|i|i|l IH] using field_ind'; intros w w' E.
  - injection E as <-. apply laid_string.
  - injection E as <-. unfold writeUint. repeat split_if; apply laid_write.
  - cbn [writeField] in E. unfold writeBigInt in E.
    destruct (i <? 0); [done|]. destruct (i =? 0); injection E as <-; [apply laid_write|apply laid_string].
  - rewrite writeField_list in E. destruct (writeFields l _) as [e|w2] eqn:El; [done|].
    injection E as <-. apply laid_list. revert El. generalize (eb_list w).2. clear w.
    induction IH as [|v l Hv _ IHl]; intros w El; [injection El as <-; apply laid_refl|].
    rewrite writeFields_cons in El. destruct (writeField v w) as [e|w1] eqn:Ev; [done|].
    eapply laid_trans; [by apply Hv|by apply IHl].
Qed.

(** Encoding never panics. *)
Lemma Encode_total v : Encode v <> None.
Proof.
  unfold Encode. destruct (writeField v eb_reset) as [e|w] eqn:E; [done|].
  destruct (writeField_laid _ _ _ E) as (s & hs & n & -> & H). unfold toWriter. cbn [eb_reset eb_str eb_lheads app] in *.
  destruct (toWriter_spec s hs 0) as (pos & out & -> & Hp & _); [lia|done|].
  split_if; [|done]. by rewrite slice_Some by lia.
Qed.

(** In range, the encoding is the one of the value. *)
Lemma writeField_writes v : forall w,
  encodable v -> zlen (rlp (itemOf v)) < 2 ^ 63 ->
  exists w', writeField v w = inr w' /\ writes w w' (rlp (itemOf v)).
Proof.
  induction v as [b|i|i|l IH] using field_ind'; intros w He Hz; cbn [itemOf rlp encodable] in *.
  - eexists. split; [done|]. apply encodeString_writes. pose proof (zlen_rlp_string b). lia.
  - eexists. split; [done|]. rewrite writeUint_rlp by exact He. apply writes_str.
  - cbn [writeField]. unfold writeBigInt. replace (i <? 0) with false by lia.
    destruct (Z.eqb_spec i 0) as [->|]; (eexists; split; [done|]); [apply writes_str|].
    apply encodeString_writes. pose proof (zlen_rlp_string (Bytes i)). lia.
  - rewrite writeField_list. pose proof (zlen_rlp_list (concat (map rlp (map itemOf l)))) as Hc.
    assert (forall w, exists w', writeFields l w = inr w' /\
      writes w w' (concat (map rlp (map itemOf l)))) as Hl.
    { assert (zlen (concat (map rlp (map itemOf l))) < 2 ^ 63) as Hz' by lia. clear Hz Hc w.
      induction IH as [|v l Hv _ IHl]; intros w; [exists w; split; [done|apply writes_refl]|].
      destruct He as [He Hes]. cbn [map concat] in *. rewrite zlen_app in Hz'.
      pose proof (zlen_nonneg (rlp (itemOf v))). pose proof (zlen_nonneg (concat (map rlp (map itemOf l)))).
      destruct (Hv w He ltac:(lia)) as (w1 & E1 & W1). destruct (IHl Hes ltac:(lia) w1) as (w2 & E2 & W2).
      exists w2. rewrite writeFields_cons, E1. split; [done|]. by eapply writes_trans. }
    destruct (Hl (eb_list w).2) as (w' & -> & W). eexists. split; [done|]. apply list_writes; [lia|done].
Qed.

Lemma Encode_rlp v :
  encodable v -> zlen (rlp (itemOf v)) < 2 ^ 63 -> Encode v = Some (inr (rlp (itemOf v))).
Proof.
  intros He Hz. unfold Encode.
  destruct (writeField_writes v eb_reset He Hz) as (w & -> & s & hs & n & -> & H & R & _).
  unfold toWriter. cbn [eb_reset eb_str eb_lheads app] in *.
  destruct (toWriter_spec s hs 0) as (pos & out & -> & Hp & E); [lia|done|].
  change (Z.to_nat 0) with O in E. rewrite drop_0 in E. change (zlen []) with 0 in R. rewrite <- R, <- E.
  destruct (Z.ltb_spec pos (zlen s)).
  - rewrite slice_Some by lia. by rewrite take_ge by (unfold zlen; rewrite length_drop; lia).
  - rewrite drop_ge by (unfold zlen in *; lia). by rewrite app_nil_r.
Qed.

(** ** What bloom filters cover

    [bloom9.go]: a filter is a set of bits; adding is union, and the filter of a
    list covers the filters of its parts. *)

Section bloom.
Context {K : Sha3}.

(** [c] is covered by [b]. *)
Definition covers (b c : Z) : Prop := Z.land b c = c.

Lemma covers_lor_l a b c : covers a c -> covers (Z.lor a b) c.
Proof. unfold covers. intros E. rewrite Z.land_lor_distr_l, E, Z.lor_comm. apply Z.bits_inj'. intros n _. rewrite Z.lor_spec, Z.land_spec. by destruct (Z.testbit c n), (Z.testbit b n). Qed.

Lemma covers_lor_r a b c : covers b c -> covers (Z.lor a b) c.
Proof. rewrite Z.lor_comm. apply covers_lor_l. Qed.

Lemma covers_refl a : covers a a.
Proof. apply Z.land_diag. Qed.

(** A fold of unions covers what it starts from and what its parts cover. *)
Lemma covers_fold {A} (f : A -> Z) l : forall b c, covers b c \/ (exists x, x ∈ l /\ covers (f x) c) ->
  covers (fold_left (fun bin x => Z.lor bin (f x)) l b) c.
Proof.
  induction l as [|y l IH]; intros b c [Hb|(x & Hx & Hc)]; cbn [fold_left]; [done|by apply elem_of_nil in Hx|..].
  - apply IH. left. by apply covers_lor_l.
  - apply elem_of_cons in Hx as [->|Hx]; apply IH; [left; by apply covers_lor_r|right; eauto].
Qed.

(** The filter of one log. *)
Definition logBloom (l : Log) : Z :=
  fold_left (fun bin b => Z.lor bin (bloom9 (be_bytes 32 b))) (log_Topics l) (bloom9 (be_bytes 20 (log_Address l))).

Lemma fold_lor_start {A} (f : A -> Z) l : forall a b,
  fold_left (fun bin x => Z.lor bin (f x)) l (Z.lor a b) = Z.lor a (fold_left (fun bin x => Z.lor bin (f x)) l b).
Proof. induction l as [|x l IH]; intros a b; cbn [fold_left]; [done|]. by rewrite <- Z.lor_assoc, IH. Qed.

Lemma LogsBloom_fold logs : LogsBloom logs = fold_left (fun bin l => Z.lor bin (logBloom l)) logs 0.
Proof.
  unfold LogsBloom. generalize 0. induction logs as [|l logs IH]; intros b; cbn [fold_left]; [done|].
  rewrite IH. f_equal. apply (fold_lor_start (fun b => bloom9 (be_bytes 32 b))).
Qed.

Lemma lor_range x y : 0 <= x < 2 ^ 2048 -> 0 <= y < 2 ^ 2048 -> 0 <= Z.lor x y < 2 ^ 2048.
Proof.
  intros Hx Hy. assert (0 <= Z.lor x y) as H0 by (apply Z.lor_nonneg; lia). split; [done|].
  destruct (Z.eq_dec (Z.lor x y) 0) as [->|Hne]; [lia|]. apply Z.log2_lt_pow2; [lia|]. rewrite Z.log2_lor by lia.
  apply Z.max_lub_lt; [destruct (Z.eq_dec x 0) as [->|]|destruct (Z.eq_dec y 0) as [->|]]; try (cbn; lia); apply Z.log2_lt_pow2; lia.
Qed.

Lemma bloom9_range b : 0 <= bloom9 b < 2 ^ 2048.
Proof.
  unfold bloom9. cbv zeta. assert (forall x, 0 <= x -> 0 <= Z.shiftl 1 (Z.land x 2047) < 2 ^ 2048) as Hbit.
  { intros x Hx. change 2047 with (Z.ones 11). rewrite Z.land_ones, Z.shiftl_1_l by lia.
    pose proof (Z.mod_pos_bound x (2 ^ 11) ltac:(lia)). split; [apply Z.pow_nonneg; lia|apply Z.pow_lt_mono_r; lia]. }
  assert (forall i j, 0 <= byteZ i + Z.shiftl (byteZ j) 8) as Hb.
  { intros i j. pose proof (byteZ_range i). pose proof (byteZ_range j). rewrite Z.shiftl_mul_pow2 by lia. lia. }
  repeat apply lor_range; try apply Hbit; auto. lia.
Qed.

(** The filter of receipts always fits. *)
Lemma fold_lor_range {A} (f : A -> Z) l : (forall x, 0 <= f x < 2 ^ 2048) -> forall b, 0 <= b < 2 ^ 2048 ->
  0 <= fold_left (fun bin x => Z.lor bin (f x)) l b < 2 ^ 2048.
Proof. intros Hf. induction l as [|x l IH]; intros b Hb; cbn [fold_left]; [done|]. apply IH. by apply lor_range. Qed.

Lemma LogsBloom_range logs : 0 <= LogsBloom logs < 2 ^ 2048.
Proof.
  rewrite LogsBloom_fold. apply fold_lor_range; [|lia]. intros l. unfold logBloom.
  apply fold_lor_range; [intros; apply bloom9_range|apply bloom9_range].
Qed.

Definition receiptsBloom (receipts : list (list Log)) : Z := fold_left (fun bin logs => Z.lor bin (LogsBloom logs)) receipts 0.

Lemma CreateBloom_ok receipts : CreateBloom receipts = Some (receiptsBloom receipts) /\ 0 <= receiptsBloom receipts < 2 ^ 2048.
Proof.
  assert (0 <= receiptsBloom receipts < 2 ^ 2048) as Hr by (apply fold_lor_range; [apply LogsBloom_range|lia]). split; [|done].
  unfold CreateBloom, BytesToBloom. fold (receiptsBloom receipts).
  assert (zlen (Bytes (receiptsBloom receipts)) <= 256) as Hl.
  { apply zlen_Bytes_le; [lia|]. by change (256 ^ 256) with (2 ^ 2048). }
  unfold BloomByteLength. replace (256 <? _) with false by lia. by rewrite SetBytes_Bytes by lia.
Qed.

Lemma receiptsBloom_covers receipts logs l :
  logs ∈ receipts -> l ∈ logs ->
  covers (receiptsBloom receipts) (bloom9 (be_bytes 20 (log_Address l))) /\
  forall t, t ∈ log_Topics l -> covers (receiptsBloom receipts) (bloom9 (be_bytes 32 t)).
Proof.
  intros Hr Hl. assert (forall c, covers (logBloom l) c -> covers (receiptsBloom receipts) c) as H.
  { intros c Hc. apply covers_fold. right. exists logs. split; [done|]. rewrite LogsBloom_fold. apply covers_fold. right. eauto. }
  split; [apply H, covers_fold; left; apply covers_refl|].
  intros t Ht. apply H, covers_fold. right. exists t. split; [done|apply covers_refl].
Qed.
End bloom.
