(* ===== verification/RlpTypes.v ===== *)
(** * rlp/decode.go: decoding into types

    The decoders that [makeDecoder] builds for byte slices and arrays, unsigned
    and big integers, slices, structs and pointers with the tag [nil].  A type
    is an [rtype], a decoded value a [field]; [parseAs] says which item stands for
    which value.  [wrapStreamError] and [addErrorContext] only change what an
    error prints.

    Shown: decoding into a type accepts exactly the encodings of items of that
    type; headers and transactions are read back as they were written. *)

From Stdlib Require Import ZArith Lia Bool.
From S2P Require Import Prelude GoMath Rlp RlpStream RlpStreamSpec StateInterface BlockTypes.
Local Open Scope Z_scope.
Local Open Scope go_scope.

#[local] Set Warnings "-register-all".

(** [TUint w] has [w] bytes. *)
Inductive rtype :=
| TBytes | TArray (n : nat) | TUint (w : Z) | TBig
| TOpt (t : rtype) | TSlice (t : rtype) | TStruct (ts : list rtype).

(** ** The decoders *)

Definition decodeByteSlice : SM field := try b := Stream_Bytes in sok (FBytes b).

Definition decodeByteArray (vlen : nat) : SM field :=
  try '(kind, size) := Kind_ in
  match kind with
  | KByte =>
      if (vlen =? 0)%nat then serr errStringTooLong
      else if (1 <? vlen)%nat then serr errStringTooShort
      else
        let* bv := Stream_Uint in
        sok (FBytes [Zbyte (match bv with inr v => v | inl _ => 0 end)])
  | KString =>
      if Z.of_nat vlen <? size then serr errStringTooLong
      else if size <? Z.of_nat vlen then serr errStringTooShort
      else
        try slice := readFull (Z.of_nat vlen) in
        if (size =? 1) && (byteAt slice 0 <? 128) then serr ErrCanonSize else sok (FBytes slice)
  | KList => serr ErrExpectedString
  end.

Definition decodeUint (w : Z) : SM field := try v := Stream_uint (8 * w) in sok (FUint v).

Definition bigOf (b : list byte) : rlpErr + field :=
  if (0 <? zlen b) && (byteAt b 0 =? 0) then inl ErrCanonInt else inr (FBig (SetBytes b)).

Definition decodeBigInt : SM field :=
  try b := Stream_Bytes in match bigOf b with inl e => serr e | inr v => sok v end.

(** [makeOptionalPtrDecoder]: a nil pointer is the empty value. *)
Definition decodeOptional (dec : SM field) : SM field :=
  let* r := Kind_ in
  match r with
  | inl e => modify (set_kind None) ;; serr e
  | inr (kind, size) =>
      if (size =? 0) && negb (bool_decide (kind = KByte)) then modify (set_kind None) ;; sok (FBytes [])
      else dec
  end.

(** The loop of [makeStructDecoder] over the fields. *)
Fixpoint decodeFields (decs : list (SM field)) : SM (list field) :=
  match decs with
  | [] => sok []
  | dec :: decs =>
      let* r := dec in
      match r with
      | inl EOL => serr errTooFewElements
      | inl e => serr e
      | inr v => try vs := decodeFields decs in sok (v :: vs)
      end
  end.

Definition decodeStruct (decs : list (SM field)) : SM field :=
  try _ := Stream_List in
  try vs := decodeFields decs in
  try _ := Stream_ListEnd in
  sok (FList vs).

Fixpoint decodeType (t : rtype) : SM field :=
  match t with
  | TBytes => decodeByteSlice
  | TArray n => decodeByteArray n
  | TUint w => decodeUint w
  | TBig => decodeBigInt
  | TOpt t => decodeOptional (decodeType t)
  | TSlice t => try l := decodeListSlice (decodeType t) in sok (FList l)
  | TStruct ts => decodeStruct (map decodeType ts)
  end.

(** [rlp.Decode] of a [bytes.Reader]: the rest is not looked at. *)
Definition Decode (t : rtype) (b : list byte) : outcome (rlpErr + field) :=
  match decodeType t (NewStream b 0) with
  | Ret (r, _) => Ret r
  | Panic => Panic
  | OutOfFuel => OutOfFuel
  end.

(** [rlp.DecodeBytes]. *)
Definition DecodeBytesAs (t : rtype) (b : list byte) : outcome (rlpErr + field) :=
  match decodeType t (NewStream b (zlen b)) with
  | Ret (inl e, _) => Ret (inl e)
  | Ret (inr v, s) => match st_r s with [] => Ret (inr v) | _ => Ret (inl ErrMoreThanOneValue) end
  | Panic => Panic
  | OutOfFuel => OutOfFuel
  end.

(** ** What they should accept *)

Fixpoint parseFields (ps : list (item -> option field)) (l : list item) : option (list field) :=
  match ps, l with
  | [], [] => Some []
  | p :: ps, it :: l => v ← p it; vs ← parseFields ps l; Some (v :: vs)
  | _, _ => None
  end.

Definition emptyItem (it : item) : bool := match it with Str [] | Lst [] => true | _ => false end.

Fixpoint parseAs (t : rtype) (it : item) : option field :=
  match t with
  | TBytes => match it with Str b => Some (FBytes b) | Lst _ => None end
  | TArray n => match it with Str b => if bool_decide (length b = n) then Some (FBytes b) else None | Lst _ => None end
  | TUint w =>
      match it with
      | Str b => if bool_decide (Bytes (SetBytes b) = b /\ zlen b <= w) then Some (FUint (SetBytes b)) else None
      | Lst _ => None
      end
  | TBig =>
      match it with
      | Str b => if bool_decide (Bytes (SetBytes b) = b) then Some (FBig (SetBytes b)) else None
      | Lst _ => None
      end
  | TOpt t => if emptyItem it then Some (FBytes []) else parseAs t it
  | TSlice t => match it with Lst l => FList <$> mapM (parseAs t) l | Str _ => None end
  | TStruct ts => match it with Lst l => FList <$> parseFields (map parseAs ts) l | Str _ => None end
  end.

(** Types the decoders are right for: no arrays of one byte
    ([array_of_one_zero]), integers of 1 to 8 bytes. *)
Fixpoint type_ok (t : rtype) : Prop :=
  match t with
  | TArray n => n <> 1%nat
  | TUint w => 1 <= w <= 8
  | TOpt t => type_ok t
  | TSlice t => type_ok t
  | TStruct ts => foldr (fun t P => type_ok t /\ P) True ts
  | TBytes | TBig => True
  end.

Lemma rtype_ind' (P : rtype -> Prop) :
  P TBytes -> (forall n, P (TArray n)) -> (forall w, P (TUint w)) -> P TBig ->
  (forall t, P t -> P (TOpt t)) -> (forall t, P t -> P (TSlice t)) ->
  (forall ts, Forall P ts -> P (TStruct ts)) -> forall t, P t.
Proof.
  intros HB HA HU HI HO HS HT. fix IH 1. intros [|n|w| |t|t|ts];
    [apply HB|apply HA|apply HU|apply HI|apply HO, IH|apply HS, IH|]. apply HT.
  induction ts as [|t ts IHl]; constructor; [apply IH|exact IHl].
Qed.

(** ** Decoders that start with the kind of the value *)

(** They may be called again after [Kind]. *)
Record led {A} (m : SM A) : Prop := {
  led_err s e s1 : Kind_ s = Ret (inl e, s1) -> exists s2, m s = Ret (inl e, s2) /\ (s2 = s1 \/ s2 = set_kind None s1);
  led_ok s kc s1 : Kind_ s = Ret (inr kc, s1) -> Kind_ s1 = Ret (inr kc, s1) -> m s1 = m s
}.

Lemma led_kind {A} (f : Kind * Z -> SM A) : led (sbind Kind_ f).
Proof.
  split.
  - intros s e s1 E. exists s1. unfold sbind, bind. rewrite E. split; [done|by left].
  - intros s kc s1 E E1. unfold sbind, bind. by rewrite E, E1.
Qed.

Lemma led_bind {A B} (m : SM A) (f : A -> SM B) : led m -> led (sbind m f).
Proof.
  intros [H1 H2]. split.
  - intros s e s1 E. destruct (H1 s e s1 E) as (s2 & E2 & H). exists s2. unfold sbind, bind. by rewrite E2.
  - intros s kc s1 E E1. unfold sbind, bind. by rewrite (H2 s kc s1 E E1).
Qed.

Lemma decodeOptional_led m : led m -> led (decodeOptional m).
Proof.
  intros [H1 H2]. split.
  - intros s e s1 E. exists (set_kind None s1). unfold decodeOptional, bind. rewrite E. split; [done|by right].
  - intros s [k cs] s1 E E1. unfold decodeOptional, bind. rewrite E, E1. done.
Qed.

Lemma decodeType_led t : led (decodeType t).
Proof.
  induction t as [|n|w| |t IH|t IH|ts IH] using rtype_ind'; cbn [decodeType];
    [apply led_bind, led_kind|apply led_kind|apply led_bind, led_kind|apply led_bind, led_kind|by apply decodeOptional_led
    |apply led_bind, led_bind, led_kind|apply led_bind, led_kind].
Qed.

(** From the kind on. *)
Lemma dec_from_kind {A} bound (parse : item -> option A) (m : SM A) : led m ->
  (forall s k cs h r stk, seen s k cs r (adv (zlen h) stk) -> header k cs (st_byteval s) h ->
     cs <= space r (adv (zlen h) stk) -> zlen h <= room (h ++ r) stk -> zlen (h ++ r) < 2 ^ 62 -> (length (h ++ r) <= bound)%nat ->
     sruns m s (fun e s' => hard e s' /\ parseBad parse (h ++ r) stk) (parseOk parse (h ++ r) stk)) ->
  dec_ok bound parse m.
Proof.
  intros [Le Lo] Hm s r stk Hb Hlen. destruct (eol stk) eqn:Ee.
  { destruct (Kind_eol _ _ _ Hb Ee) as (s1 & E & Hk & Ha). destruct (Le s EOL s1 E) as (s2 & E2 & [->| ->]); eexists; (split; [exact E2|]).
    - done.
    - split; [done|]. by destruct Ha. }
  assert (zlen r < 2 ^ 62) as Hr by apply Hb.
  destruct (Kind_ok s r stk Hb Ee) as ([e|[k cs]] & s1 & E & H).
  - destruct (Le s e s1 E) as (s2 & E2 & _). exists (inl e), s2. split; [done|]. destruct H as [He Hbad].
    split; [done|]. by apply itemBad_parse, itemBad_kind.
  - destruct H as (h & r' & -> & Hroom & Hh & Hcs & Hs). unfold sruns, runs. rewrite <- (Lo s _ s1 E (Kind_seen _ _ _ _ _ Hs)).
    by eapply Hm.
Qed.

(** The item behind a header. *)
Lemma item_at k cs bv h r stk it r' :
  header k cs bv h -> zlen (h ++ r) < 2 ^ 62 -> h ++ r = rlp it ++ r' -> zlen (rlp it) <= room (h ++ r) stk ->
  match k with
  | KByte => it = Str [bv] /\ r = r'
  | KString => exists b, it = Str b /\ r = b ++ r' /\ zlen b = cs /\ kind_ok KString b /\ cs <= room r (adv (zlen h) stk)
  | KList => exists l, it = Lst l /\ r = concat (map rlp l) ++ r' /\ zlen (concat (map rlp l)) = cs /\ cs <= room r (adv (zlen h) stk)
  end.
Proof.
  intros Hh Hr E Hz. rewrite E, zlen_app in Hr. pose proof (zlen_nonneg r').
  destruct (rlp_parts it) as (k' & bv' & h' & c & Ei & Hh' & D); [lia|].
  rewrite Ei, <- app_assoc in E. destruct (header_unique _ _ _ _ _ _ _ _ _ _ Hh Hh' E) as (<- & -> & <- & ->).
  assert (zlen c <= room (c ++ r') (adv (zlen h) stk)) as Hle.
  { rewrite (room_adv _ h) by done. rewrite Ei, zlen_app in Hz. lia. }
  destruct it as [b|l].
  - destruct D as [(-> & -> & ->)|(-> & -> & Hk)].
    + destruct Hh as (_ & -> & _), Hh' as (_ & [= ->] & _). done.
    + by exists b.
  - destruct D as [-> ->]. by exists l.
Qed.

(** Two values at the same place. *)
Lemma item_unique r it1 it2 r1 r2 : zlen r < 2 ^ 62 -> r = rlp it1 ++ r1 -> r = rlp it2 ++ r2 -> it1 = it2 /\ r1 = r2.
Proof.
  intros Hr -> E. pose proof (f_equal zlen E) as Hl. rewrite !zlen_app in *. pose proof (zlen_nonneg r1). pose proof (zlen_nonneg r2).
  apply rlp_prefix in E; [done|lia..].
Qed.

(** A check behind a decoder. *)
Lemma dec_check {A B} bound (parse : item -> option A) m (g : A -> rlpErr + B) :
  (forall v e, g v = inl e -> e <> EOL) -> dec_ok bound parse m ->
  dec_ok bound (fun it => v ← parse it; match g v with inr w => Some w | inl _ => None end)
    (try v := m in match g v with inl e => serr e | inr w => sok w end).
Proof.
  intros Hg Hm s r stk Hb Hlen. assert (zlen r < 2 ^ 62) as Hr by apply Hb. specialize (Hm s r stk Hb Hlen). destruct (eol stk).
  { destruct Hm as (s' & E & Hb'). exists s'. unfold sbind, bind. by rewrite E. }
  apply sruns_bind. eapply sruns_mono; [exact Hm| |].
  - intros e s' [He Hbad]. split; [done|]. intros it w r' Hp. destruct (parse it) as [v|] eqn:Ep; [|done]. by eapply Hbad.
  - intros v s' (it & Hp & Hok). destruct (g v) as [e|w] eqn:Eg.
    + apply sruns_err. split; [by eapply Hg|]. intros it' w r' Hp' E _. destruct Hok as (r1 & E1 & _).
      destruct (item_unique r it' it r' r1 Hr E E1) as [-> _]. rewrite Hp in Hp'. cbn in Hp'. by rewrite Eg in Hp'.
    + apply sruns_ret. exists it. split; [|done]. rewrite Hp. cbn. by rewrite Eg.
Qed.

Lemma dec_ext {A} bound (p1 p2 : item -> option A) m : (forall it, p1 it = p2 it) -> dec_ok bound p1 m -> dec_ok bound p2 m.
Proof.
  intros E Hm s r stk Hb Hlen. specialize (Hm s r stk Hb Hlen). destruct (eol stk); [done|].
  eapply sruns_mono; [exact Hm| |].
  - intros e s' [He Hbad]. split; [done|]. intros it v r' Hp. rewrite <- E in Hp. by eapply Hbad.
  - intros v s' (it & Hp & Hok). exists it. by rewrite <- E.
Qed.

(** ** Each type *)

Definition parseStr (it : item) : option (list byte) := match it with Str b => Some b | Lst _ => None end.

Lemma Stream_Bytes_dec bound : dec_ok bound parseStr Stream_Bytes.
Proof.
  apply dec_from_kind; [apply led_kind|]. intros s k cs h r stk Hs Hh Hcs Hroom Hr _. destruct (decide (k = KList)) as [->|Hk].
  - unfold Stream_Bytes. apply sruns_bind. exists (inr (KList, cs)), s. split; [by eapply Kind_seen|]. apply sruns_err. split; [done|].
    intros it v r' Hp E Hz. destruct (item_at _ _ _ _ _ _ _ _ Hh Hr E Hz) as (l & -> & _). done.
  - eapply sruns_mono; [by eapply Stream_Bytes_ok| |].
    + intros e s' [He Hbad]. split; [done|]. by apply itemBad_parse.
    + intros b s' Hok. by exists (Str b).
Qed.

Lemma bytes_ok bound : dec_ok bound (parseAs TBytes) decodeByteSlice.
Proof.
  eapply dec_ext; [|apply (dec_check bound parseStr Stream_Bytes (fun b => inr (FBytes b))); [done|apply Stream_Bytes_dec]].
  by intros [].
Qed.

(** A number without leading zeros. *)
Lemma canonical_bytes b : Bytes (SetBytes b) = b <-> (0 <? zlen b) && (byteAt b 0 =? 0) = false.
Proof.
  destruct b as [|x b]; [done|]. rewrite zlen_cons. pose proof (zlen_nonneg b). replace (0 <? zlen b + 1) with true by lia.
  cbn [andb]. unfold byteAt. cbn [nth]. split.
  - intros E. apply Z.eqb_neq. intros H0. pose proof (SetBytes_range b) as Hr. rewrite SetBytes_cons, H0 in E.
    assert (zlen (Bytes (SetBytes b)) <= zlen b) as Hl by (apply zlen_Bytes_le; [lia|done]).
    rewrite Z.mul_0_l, Z.add_0_l in E. rewrite E, zlen_cons in Hl. lia.
  - intros H0. apply Z.eqb_neq in H0. by apply Bytes_SetBytes.
Qed.

Lemma big_ok bound : dec_ok bound (parseAs TBig) decodeBigInt.
Proof.
  eapply dec_ext; [|apply (dec_check bound parseStr Stream_Bytes bigOf); [|apply Stream_Bytes_dec]].
  - intros [b|l]; [|done]. cbn. unfold bigOf. destruct (_ && _) eqn:E.
    + rewrite bool_decide_false; [done|]. rewrite canonical_bytes, E. done.
    + rewrite bool_decide_true; [done|]. by apply canonical_bytes.
  - intros v e. unfold bigOf. split_if; [|done]. by intros [= <-].
Qed.

Lemma uint_ok bound w : 1 <= w <= 8 -> dec_ok bound (parseAs (TUint w)) (decodeUint w).
Proof.
  intros Hw s r stk Hb _. unfold decodeUint. destruct (eol stk) eqn:Ee.
  { destruct (Kind_eol _ _ _ Hb Ee) as (s1 & E & Hb1). exists s1. split; [|done]. unfold Stream_uint, sbind, bind. by rewrite E. }
  apply sruns_bind. eapply sruns_mono; [by apply Stream_uint_ok| |].
  - intros e s' [He Hbad]. split; [done|]. intros it v r' Hp E Hz. destruct it as [b|]; [|done]. cbn in Hp.
    case_bool_decide as Hc; [|done]. destruct Hc as [Hc Hl]. apply (Hbad (SetBytes b) r'); [|by rewrite Hc|by rewrite Hc].
    pose proof (SetBytes_range b). assert (256 ^ zlen b <= 256 ^ w) by (apply Z.pow_le_mono_r; lia). lia.
  - intros v s' [Hv Hok]. apply sruns_ret. exists (Str (Bytes v)). split; [|done]. cbn.
    rewrite SetBytes_Bytes by lia. rewrite bool_decide_true; [done|]. split; [done|]. apply zlen_Bytes_le; lia.
Qed.

Lemma array_ok bound n : n <> 1%nat -> dec_ok bound (parseAs (TArray n)) (decodeByteArray n).
Proof.
  intros Hn. apply dec_from_kind; [apply led_kind|]. intros s k cs h r stk Hs Hh Hcs Hroom Hr _.
  unfold decodeByteArray. apply sruns_bind. exists (inr (k, cs)), s. split; [by eapply Kind_seen|].
  assert (forall e, e <> EOL -> (forall it v r', parseAs (TArray n) it = Some v -> h ++ r = rlp it ++ r' -> zlen (rlp it) <= room (h ++ r) stk -> False) ->
    sruns (serr e) s (fun e s' => hard e s' /\ parseBad (parseAs (TArray n)) (h ++ r) stk) (parseOk (parseAs (TArray n)) (h ++ r) stk)) as Hfail.
  { intros e He Hbad. by apply sruns_err. }
  destruct k.
  - repeat split_if.
    + apply Hfail; [done|]. intros it v r' Hp Eq Hz. destruct (item_at _ _ _ _ _ _ _ _ Hh Hr Eq Hz) as [-> _]. cbn in Hp.
      case_bool_decide; [|done]. subst n. done.
    + apply Hfail; [done|]. intros it v r' Hp Eq Hz. destruct (item_at _ _ _ _ _ _ _ _ Hh Hr Eq Hz) as [-> _]. cbn in Hp.
      case_bool_decide; [|done]. by subst n.
    + destruct n as [|[|n]]; done.
  - destruct (Z.ltb_spec (Z.of_nat n) cs) as [Hlt|Hge]; [|destruct (Z.ltb_spec cs (Z.of_nat n)) as [Hlt|Hge']].
    1, 2: apply Hfail; [done|]; intros it v r' Hp Eq Hz; destruct (item_at _ _ _ _ _ _ _ _ Hh Hr Eq Hz) as (b & -> & _ & Hb & _);
      cbn in Hp; case_bool_decide; [|done]; unfold zlen in Hb; lia.
    assert (cs = Z.of_nat n) as -> by lia. apply sruns_bind. pose proof Hh as [Hcs0 Eh].
    eapply sruns_mono; [apply readFull_ok; [apply Hs|lia]| |].
    + intros e s' [He Hlt]. split; [done|]. intros it v r' Hp Eq Hz. destruct (item_at _ _ _ _ _ _ _ _ Hh Hr Eq Hz) as (b & _ & _ & _ & _ & Hle). lia.
    + intros b s' (r' & -> & Hb & Hle & Hbn & _). replace (Z.of_nat n =? 1) with false by lia. cbn [andb]. apply sruns_ret.
      exists (Str b). split; [cbn; by rewrite bool_decide_true by (unfold zlen in Hb; lia)|]. exists r'. rewrite adv_adv in Hbn.
      rewrite (room_adv _ h) in Hle by done.
      assert (kind_ok KString b) as Hok by (intros x ->; change (zlen [x]) with 1 in Hb; lia).
      assert (rlp (Str b) = h ++ b) as ->.
      { change (rlp (Str b)) with (enc KString b). rewrite enc_head, Hb by done. by rewrite Eh. }
      rewrite <- app_assoc, zlen_app, Hb. split; [done|]. split; [lia|done].
  - apply Hfail; [done|]. intros it v r' Hp Eq Hz. by destruct (item_at _ _ _ _ _ _ _ _ Hh Hr Eq Hz) as (l & -> & _).
Qed.

Lemma optional_ok bound parse m : led m -> dec_ok bound parse m ->
  dec_ok bound (fun it => if emptyItem it then Some (FBytes []) else parse it) (decodeOptional m).
Proof.
  intros Hl Hm s r stk Hb Hlen. specialize (Hm s r stk Hb Hlen). destruct (eol stk) eqn:Ee.
  { destruct (Kind_eol _ _ _ Hb Ee) as (s1 & E & Hk & Ha). exists (set_kind None s1). unfold decodeOptional, bind. rewrite E.
    split; [done|]. split; [done|]. by destruct Ha. }
  assert (zlen r < 2 ^ 62) as Hr by apply Hb.
  destruct (Kind_ok s r stk Hb Ee) as ([e|[k cs]] & s1 & E & H).
  { exists (inl e), (set_kind None s1). unfold decodeOptional, bind. rewrite E. split; [done|]. destruct H as [He Hbad].
    split; [done|]. by apply itemBad_parse, itemBad_kind. }
  destruct H as (h & r' & -> & Hroom & Hh & Hcs & Hs). eapply runs_bind_eq; [exact E|]. cbn beta iota.
  destruct ((cs =? 0) && negb (bool_decide (k = KByte))) eqn:Ez.
  - apply andb_prop in Ez as [E0 Hk]. apply Z.eqb_eq in E0 as ->. apply negb_true_iff, bool_decide_eq_false in Hk.
    assert (exists it, emptyItem it = true /\ rlp it = h) as (it & Hi & Eh).
    { destruct k; [done|exists (Str [])|exists (Lst [])]; by destruct Hh as [_ ->]. }
    exists (inr (FBytes [])), (set_kind None s1). split; [done|]. exists it. rewrite Hi. split; [done|]. exists r'. rewrite Eh.
    split; [done|]. split; [done|]. split; [done|]. by destruct Hs as (_ & _ & _ & []).
  - assert (forall it r'', h ++ r' = rlp it ++ r'' -> zlen (rlp it) <= room (h ++ r') stk -> emptyItem it = false) as Hi.
    { intros it r'' Eq Hz. pose proof (item_at _ _ _ _ _ _ _ _ Hh Hr Eq Hz) as D. destruct k; [by destruct D as [-> _]| |].
      - destruct D as (b & -> & _ & Hb' & _). destruct b; [|done]. change (zlen []) with 0 in Hb'. by subst cs.
      - destruct D as (l & -> & _ & Hb' & _). destruct l; [|done]. change (zlen (concat (map rlp []))) with 0 in Hb'. by subst cs. }
    unfold sruns, runs. rewrite (led_ok _ Hl s _ s1 E (Kind_seen _ _ _ _ _ Hs)). eapply sruns_mono; [exact Hm| |].
    + intros e s' [He Hbad]. split; [done|]. intros it v r'' Hp Eq Hz. rewrite (Hi it r'' Eq Hz) in Hp. by eapply Hbad.
    + intros v s' (it & Hp & Hok). exists it. split; [|done]. destruct Hok as (r'' & Eq & Hz & _). by rewrite (Hi it r'' Eq Hz).
Qed.

Lemma slice_ok bound parse m : dec_ok bound parse m ->
  dec_ok bound (fun it => match it with Lst l => FList <$> mapM parse l | Str _ => None end) (try l := decodeListSlice m in sok (FList l)).
Proof.
  intros Hm. eapply dec_ext; [|apply (dec_check bound (parseList parse) (decodeListSlice m) (fun l => inr (FList l))); [done|]].
  - by intros [].
  - apply dec_from_kind; [apply led_bind, led_kind|]. intros s k cs h r stk Hs Hh Hcs Hroom Hr Hlen. destruct (decide (k = KList)) as [->|Hk].
    + rewrite length_app in Hlen. apply (decodeListSlice_ok bound parse m s cs h r stk); try done. lia.
    + unfold decodeListSlice, Stream_List. do 2 apply sruns_bind. exists (inr (k, cs)), s. split; [by eapply Kind_seen|].
      rewrite bool_decide_false by done. apply sruns_err. split; [done|]. intros it v r' Hp E Hz.
      pose proof (item_at _ _ _ _ _ _ _ _ Hh Hr E Hz) as D. destruct k; [by destruct D as [-> _]|by destruct D as (b & -> & _)|done].
Qed.

(** The fields of a struct, from position [p] of a list of [cs] bytes. *)
Lemma fields_ok bound cs stk ps decs : Forall2 (dec_ok bound) ps decs -> forall s r p,
  bnd s r (mkListpos p cs :: stk) -> (length r <= bound)%nat ->
  sruns (decodeFields decs) s
    (fun e s' => hard e s' /\ forall l vs r', parseFields ps l = Some vs -> r = concat (map rlp l) ++ r' ->
       p + zlen (concat (map rlp l)) = cs -> False)
    (fun vs s' => exists l r', parseFields ps l = Some vs /\ r = concat (map rlp l) ++ r' /\
       bnd s' r' (mkListpos (p + zlen (concat (map rlp l))) cs :: stk)).
Proof.
  induction 1 as [|parse dec ps decs Hd _ IH]; intros s r p Hb Hlen; cbn [decodeFields].
  { apply sruns_ret. exists [], r. change (zlen (concat (map rlp []))) with 0. rewrite Z.add_0_r. done. }
  specialize (Hd s r _ Hb Hlen). cbn [eol lp_pos lp_size] in Hd. assert (zlen r < 2 ^ 62) as Hr by apply Hb.
  destruct (p =? cs) eqn:Ep; zbool.
  { subst p. destruct Hd as (s' & E & _). eapply runs_bind_eq; [exact E|]. apply sruns_err. split; [done|].
    intros [|it l] vs r' Hv _ Hz; [done|]. cbn [map concat] in Hz. rewrite zlen_app in Hz. pose proof (rlp_nonempty it).
    pose proof (zlen_nonneg (concat (map rlp l))). lia. }
  destruct Hd as ([e|v] & s' & E & Hres); (eapply runs_bind_eq; [exact E|]).
  - destruct Hres as [He Hbad]. assert (e <> EOL) by done. destruct e; try done;
      (apply sruns_err; split; [done|]; intros [|it l] vs r' Hv -> Hz; [done|]; cbn [parseFields map concat] in *;
       destruct (parse it) as [v|] eqn:Epi; [|done]; rewrite zlen_app in Hz;
       apply (Hbad it v (concat (map rlp l) ++ r')); [done|by rewrite <- app_assoc|];
       cbn [room lp_pos lp_size]; rewrite !zlen_app;
       pose proof (zlen_nonneg (concat (map rlp l))); pose proof (zlen_nonneg r'); lia).
  - destruct Hres as (it & Hv & r' & -> & Hz & Hb'). cbn [adv lp_pos lp_size] in Hb'. rewrite length_app in Hlen.
    apply sruns_bind. eapply sruns_mono; [apply (IH _ r' _ Hb'); lia| |].
    + intros e s'' [He Hbad]. split; [done|]. intros [|it' l] vs r'' Hvs Eq Hp'; [done|]. cbn [parseFields map concat] in *.
      rewrite <- app_assoc in Eq. destruct (item_unique _ it it' _ _ Hr eq_refl Eq) as [<- ->].
      rewrite Hv in Hvs. cbn in Hvs. destruct (parseFields ps l) as [vs'|] eqn:El; [|done]. rewrite zlen_app in Hp'.
      eapply (Hbad l vs' r''); [done|done|lia].
    + intros vs s'' (l & r'' & Hl & -> & Hb''). apply sruns_ret. exists (it :: l), r''. cbn [parseFields map concat].
      rewrite Hv. cbn. rewrite Hl. cbn. rewrite <- app_assoc, zlen_app, Z.add_assoc. done.
Qed.

Lemma items_unique l1 : forall l2 r1 r2, length l1 = length l2 -> zlen (concat (map rlp l1) ++ r1) < 2 ^ 62 ->
  concat (map rlp l1) ++ r1 = concat (map rlp l2) ++ r2 -> l1 = l2 /\ r1 = r2.
Proof.
  induction l1 as [|i1 l1 IH]; intros [|i2 l2] r1 r2 Hl Hz E; try done. cbn [map concat] in *. rewrite <- !app_assoc in *.
  destruct (item_unique _ i1 i2 _ _ Hz eq_refl E) as [-> Er]. rewrite zlen_app in Hz. pose proof (zlen_nonneg (rlp i2)).
  destruct (IH l2 r1 r2) as [-> ->]; [by injection Hl|lia|done|done].
Qed.

Lemma parseFields_length ps : forall l vs, parseFields ps l = Some vs -> length l = length ps.
Proof.
  induction ps as [|p ps IH]; intros [|it l] vs E; try done. cbn [parseFields] in E. destruct (p it); [|done]. cbn in E.
  destruct (parseFields ps l) as [vs'|] eqn:El; [|done]. cbn. f_equal. by eapply IH.
Qed.

Lemma struct_ok bound ps decs : Forall2 (dec_ok bound) ps decs ->
  dec_ok bound (fun it => match it with Lst l => FList <$> parseFields ps l | Str _ => None end) (decodeStruct decs).
Proof.
  intros Hd. apply dec_from_kind; [apply led_bind, led_kind|]. intros s k cs h r stk Hs Hh Hcs Hroom Hr Hlen.
  unfold decodeStruct. apply sruns_bind. destruct (decide (k = KList)) as [->|Hk].
  2: { unfold Stream_List. apply sruns_bind. exists (inr (k, cs)), s. split; [by eapply Kind_seen|].
       rewrite bool_decide_false by done. apply sruns_err. split; [done|]. intros it v r' Hp E Hz.
       pose proof (item_at _ _ _ _ _ _ _ _ Hh Hr E Hz) as D. destruct k; [by destruct D as [-> _]|by destruct D as (b & -> & _)|done]. }
  pose proof Hh as [Hcs0 _]. destruct (Stream_List_ok _ _ _ _ Hs ltac:(lia)) as (s1 & E1 & Hb1). exists (inr cs), s1. split; [done|].
  rewrite length_app in Hlen. apply sruns_bind. eapply sruns_mono; [eapply (fields_ok bound cs _ ps decs Hd); [exact Hb1|lia]| |].
  - intros e s' [He Hbad]. split; [done|]. intros it v r' Hp E Hz. destruct (item_at _ _ _ _ _ _ _ _ Hh Hr E Hz) as (l & -> & -> & Hc & _).
    destruct (parseFields ps l) as [vs|] eqn:El; [|done]. by apply (Hbad l vs r').
  - intros vs s' (l & r' & Hl & -> & Hb'). rewrite Z.add_0_l in Hb'. apply sruns_bind.
    destruct (Z.eq_dec (zlen (concat (map rlp l))) cs) as [Hc|Hc].
    + rewrite Hc in Hb'. destruct (Stream_ListEnd_ok _ _ _ _ Hb') as (s2 & E2 & Hb2). exists (inr tt), s2. split; [done|].
      apply sruns_ret. exists (Lst l). split; [by rewrite Hl|]. by eapply itemOk_list.
    + destruct Hb' as [_ Ha]. exists (inl errNotAtEOL), s'. split.
      { unfold Stream_ListEnd, bind, get. rewrite (ah_stk _ _ _ Ha). cbn [lp_pos lp_size].
        by replace (zlen (concat (map rlp l)) =? cs) with false by lia. }
      split; [done|]. intros it v r'' Hp E Hz. destruct (item_at _ _ _ _ _ _ _ _ Hh Hr E Hz) as (l' & -> & Eq & Hc' & _).
      destruct (parseFields ps l') as [vs'|] eqn:El'; [|done]. rewrite zlen_app in Hr. pose proof (zlen_nonneg h).
      destruct (items_unique l l' r' r'') as [-> _]; [|lia|done|lia].
      by rewrite (parseFields_length _ _ _ Hl), (parseFields_length _ _ _ El').
Qed.

(** ** All types *)

Lemma decodeType_ok bound t : type_ok t -> dec_ok bound (parseAs t) (decodeType t).
Proof.
  induction t as [|n|w| |t IH|t IH|ts IH] using rtype_ind'; intros Ht; cbn [decodeType].
  - apply bytes_ok.
  - by apply array_ok.
  - by apply uint_ok.
  - apply big_ok.
  - apply optional_ok; [apply decodeType_led|by apply IH].
  - by apply slice_ok, IH.
  - apply (struct_ok bound (map parseAs ts)). cbn [type_ok] in Ht.
    induction IH as [|t ts H _ IHl]; cbn [map]; constructor; [apply H|apply IHl]; apply Ht.
Qed.

Lemma Decode_ok t b s : type_ok t -> zlen b < 2 ^ 62 -> bnd s b [] ->
  sruns (decodeType t) s (fun _ _ => forall it v r, parseAs t it = Some v -> b <> rlp it ++ r)
    (fun v s' => exists it, parseAs t it = Some v /\ b = rlp it ++ st_r s').
Proof.
  intros Ht Hb Hs. pose proof (decodeType_ok (length b) t Ht s b [] Hs ltac:(lia)) as H. cbn [eol] in H.
  eapply sruns_mono; [exact H| |].
  - intros e s' [_ Hbad] it v r Hp ->. apply (Hbad it v r Hp eq_refl). cbn [room]. rewrite zlen_app. pose proof (zlen_nonneg r). lia.
  - intros v s' (it & Hp & r & -> & _ & _ & Ha). exists it. split; [done|]. by rewrite (ah_r _ _ _ Ha).
Qed.

Lemma NewStream_fresh b n : zlen b < 2 ^ 62 -> n = 0 \/ n = zlen b -> bnd (NewStream b n) b [].
Proof.
  intros Hb Hn. split; [done|]. split; cbn [NewStream st_r st_remaining st_limited st_stack stk_ok]; try done.
  destruct Hn as [->| ->]; [done|]. by destruct (zlen b >? 0).
Qed.

Lemma DecodeBytesAs_spec t b : type_ok t -> zlen b < 2 ^ 62 ->
  exists r, DecodeBytesAs t b = Ret r /\
    match r with
    | inr v => exists it, parseAs t it = Some v /\ b = rlp it
    | inl _ => forall it v, parseAs t it = Some v -> b <> rlp it
    end.
Proof.
  intros Ht Hb. unfold DecodeBytesAs.
  destruct (Decode_ok t b (NewStream b (zlen b)) Ht Hb) as ([e|v] & s' & E & H); [apply NewStream_fresh; [done|by right]|..]; rewrite E.
  - exists (inl e). split; [done|]. intros it v Hp Eb. apply (H it v [] Hp). by rewrite app_nil_r.
  - destruct H as (it & Hp & Eb). destruct (st_r s') as [|x r] eqn:Er.
    + exists (inr v). split; [done|]. exists it. by rewrite Eb, app_nil_r.
    + exists (inl ErrMoreThanOneValue). split; [done|]. intros it' v' Hp' Eb'. rewrite <- (app_nil_r (rlp it')) in Eb'.
      destruct (item_unique b it it' _ _ Hb Eb Eb') as [_ ?]. done.
Qed.

(** What was written is read back, whatever follows. *)
Lemma Decode_back t it v r : type_ok t -> zlen (rlp it ++ r) < 2 ^ 62 -> parseAs t it = Some v -> Decode t (rlp it ++ r) = Ret (inr v).
Proof.
  intros Ht Hb Hp. unfold Decode.
  destruct (Decode_ok t (rlp it ++ r) (NewStream (rlp it ++ r) 0) Ht Hb) as ([e|v'] & s' & E & H); [apply NewStream_fresh; [done|by left]|..]; rewrite E.
  - by destruct (H it v r Hp).
  - destruct H as (it' & Hp' & Eb). destruct (item_unique _ it it' _ _ Hb eq_refl Eb) as [<- _]. rewrite Hp in Hp'. by injection Hp' as ->.
Qed.

(** ** Values of a type *)

Fixpoint has_type (t : rtype) (v : field) : Prop :=
  match t, v with
  | TBytes, FBytes _ => True
  | TArray n, FBytes b => length b = n
  | TUint w, FUint i => 0 <= i < 256 ^ w
  | TBig, FBig i => 0 <= i
  | TOpt t, _ => v = FBytes [] \/ (has_type t v /\ emptyItem (itemOf v) = false)
  | TSlice t, FList l => foldr (fun v P => has_type t v /\ P) True l
  | TStruct ts, FList l =>
      (fix go (ts : list rtype) (l : list field) : Prop :=
         match ts, l with
         | [], [] => True
         | t :: ts, v :: l => has_type t v /\ go ts l
         | _, _ => False
         end) ts l
  | _, _ => False
  end.

Lemma parse_itemOf t : type_ok t -> forall v, has_type t v -> parseAs t (itemOf v) = Some v.
Proof.
  induction t as [|n|w| |t IH|t IH|ts IH] using rtype_ind'; intros Ht v Hv; destruct v as [b|i|i|l]; cbn [has_type] in Hv; try done; cbn [parseAs itemOf].
  - by rewrite bool_decide_true.
  - cbn [type_ok] in Ht. rewrite SetBytes_Bytes by lia. rewrite bool_decide_true; [done|]. split; [done|]. apply zlen_Bytes_le; lia.
  - rewrite SetBytes_Bytes by lia. by rewrite bool_decide_true.
  - destruct Hv as [[= ->]|[Hv He]]; [done|]. cbn [itemOf] in He. rewrite He. by apply (IH Ht (FBytes b)).
  - destruct Hv as [?|[Hv He]]; [done|]. cbn [itemOf] in He. rewrite He. by apply (IH Ht (FUint i)).
  - destruct Hv as [?|[Hv He]]; [done|]. cbn [itemOf] in He. rewrite He. by apply (IH Ht (FBig i)).
  - destruct Hv as [?|[Hv He]]; [done|]. cbn [itemOf] in He. rewrite He. by apply (IH Ht (FList l)).
  - assert (mapM (parseAs t) (map itemOf l) = Some l) as ->; [|done].
    induction l as [|v l IHl]; [done|]. destruct Hv as [Hv Hl]. cbn [map mapM]. rewrite (IH Ht v Hv). cbn. by rewrite IHl.
  - assert (parseFields (map parseAs ts) (map itemOf l) = Some l) as ->; [|done]. revert l Hv. cbn [type_ok] in Ht.
    induction IH as [|t ts H _ IHl]; intros [|v l] Hv; try done. destruct Hv as [Hv Hl], Ht as [Ht Hts]. cbn [map parseFields].
    rewrite (H Ht v Hv). cbn. by rewrite (IHl Hts l Hl).
Qed.

(** ** core/types *)

Definition headerType : rtype :=
  TStruct [TArray 32; TArray 32; TArray 20; TArray 32; TArray 32; TArray 32; TArray 256;
           TBig; TBig; TUint 8; TUint 8; TBig; TBytes; TArray 32; TArray 8].

Definition headerOf (v : field) : option Header :=
  match v with
  | FList [FBytes a; FBytes b; FBytes c; FBytes d; FBytes e; FBytes f; FBytes g;
           FBig h; FBig i; FUint j; FUint k; FBig l; FBytes m; FBytes n; FBytes o] =>
      Some (mkHeader (SetBytes a) (SetBytes b) (SetBytes c) (SetBytes d) (SetBytes e) (SetBytes f) (SetBytes g)
        h i j k l m (SetBytes n) (SetBytes o))
  | _ => None
  end.

Definition txType : rtype :=
  TStruct [TUint 8; TBig; TUint 8; TOpt (TArray 20); TBig; TBytes; TBig; TBig; TBig].

Definition txOf (v : field) : option Transaction :=
  match v with
  | FList [FUint a; FBig b; FUint c; FBytes d; FBig e; FBytes f; FBig g; FBig h; FBig i] =>
      Some (mkTx a b c (match d with [] => None | _ => Some (SetBytes d) end) e f g h i)
  | _ => None
  end.

(** [extblock]. *)
Definition blockType : rtype := TStruct [headerType; TSlice txType; TSlice headerType].

Definition blockField (b : Block) : field :=
  FList [headerField (b_header b); FList (map txField (b_transactions b)); FList (map headerField (b_uncles b))].

Definition blockOf (v : field) : option Block :=
  match v with
  | FList [h; FList txs; FList uncles] =>
      h ← headerOf h; txs ← mapM txOf txs; uncles ← mapM headerOf uncles; Some (mkBlock h uncles txs)
  | _ => None
  end.

(** A header as it is decoded. *)
Record header_ok (h : Header) : Prop := {
  hk_ParentHash : is_word (h_ParentHash h);
  hk_UncleHash : is_word (h_UncleHash h);
  hk_Coinbase : is_addr (h_Coinbase h);
  hk_Root : is_word (h_Root h);
  hk_TxHash : is_word (h_TxHash h);
  hk_ReceiptHash : is_word (h_ReceiptHash h);
  hk_Bloom : 0 <= h_Bloom h < 2 ^ 2048;
  hk_Difficulty : 0 <= h_Difficulty h;
  hk_Number : 0 <= h_Number h;
  hk_GasLimit : is_u64 (h_GasLimit h);
  hk_GasUsed : is_u64 (h_GasUsed h);
  hk_Time : 0 <= h_Time h;
  hk_MixDigest : is_word (h_MixDigest h);
  hk_Nonce : is_u64 (h_Nonce h)
}.

Lemma header_typed h : header_ok h -> has_type headerType (headerField h) /\ headerOf (headerField h) = Some h /\ encodable (headerField h).
Proof.
  intros []. unfold is_u64, is_word, is_addr in *. split; [|split].
  - cbn [has_type headerType headerField headerPrefix app FHash FAddress]. change (256 ^ 8) with (2 ^ 64). repeat match goal with |- _ /\ _ => split end; try done; try lia; apply length_be_bytes.
  - unfold headerField, headerPrefix, EncodeNonce. cbn [headerOf app FHash FAddress]. rewrite !SetBytes_be_bytes by lia.
    change (256 ^ Z.of_nat 32) with (2 ^ 256). change (256 ^ Z.of_nat 20) with (2 ^ 160). change (256 ^ Z.of_nat 8) with (2 ^ 64).
    change (256 ^ Z.of_nat 256) with (2 ^ 2048). rewrite !Z.mod_small by (assumption || lia). by destruct h.
  - cbn. unfold is_u64. tauto.
Qed.

(** A transaction as it is decoded. *)
Record tx_wf (tx : Transaction) : Prop := {
  tw_nonce : is_u64 (tx_AccountNonce tx);
  tw_gas : is_u64 (tx_GasLimit tx);
  tw_price : 0 <= tx_Price tx;
  tw_amount : 0 <= tx_Amount tx;
  tw_V : 0 <= tx_V tx;
  tw_R : 0 <= tx_R tx;
  tw_S : 0 <= tx_S tx;
  tw_to a : tx_Recipient tx = Some a -> is_addr a
}.

Lemma tx_typed tx : tx_wf tx -> has_type txType (txField tx) /\ txOf (txField tx) = Some tx /\ encodable (txField tx).
Proof.
  intros []. destruct tx as [n p g to a d v r s]. cbn in *. change (256 ^ 8) with (2 ^ 64). unfold is_u64 in *. destruct to as [to|].
  - specialize (tw_to0 to eq_refl). unfold is_addr in tw_to0. cbn [FAddress itemOf]. pose proof (length_be_bytes 20 to) as Hl.
    destruct (be_bytes 20 to) as [|x l] eqn:E; [done|]. split; [|split].
    + repeat match goal with |- _ /\ _ => split end; try done; try lia. right. by split.
    + do 2 f_equal. f_equal. rewrite <- E, SetBytes_be_bytes by lia. by apply Z.mod_small.
    + repeat match goal with |- _ /\ _ => split end; try done; lia.
  - split; [|split; [done|repeat match goal with |- _ /\ _ => split end; try done; lia]]. repeat match goal with |- _ /\ _ => split end; try done; try lia. by left.
Qed.

(** Lists of them. *)
Lemma typed_list {A} (t : rtype) (f : A -> field) (g : field -> option A) l :
  Forall (fun a => has_type t (f a) /\ g (f a) = Some a /\ encodable (f a)) l ->
  has_type (TSlice t) (FList (map f l)) /\ mapM g (map f l) = Some l /\ encodable (FList (map f l)).
Proof.
  induction 1 as [|a l (H1 & H2 & H3) _ (I1 & I2 & I3)]; [done|]. cbn in *. split; [done|]. split; [|done]. rewrite H2. cbn. by rewrite I2.
Qed.

Lemma block_typed b : header_ok (b_header b) -> Forall tx_wf (b_transactions b) -> Forall header_ok (b_uncles b) ->
  has_type blockType (blockField b) /\ blockOf (blockField b) = Some b /\ encodable (blockField b).
Proof.
  intros Hh Ht Hu. destruct (header_typed _ Hh) as (A1 & A2 & A3).
  destruct (typed_list txType txField txOf (b_transactions b)) as (B1 & B2 & B3).
  { eapply Forall_impl; [exact Ht|]. apply tx_typed. }
  destruct (typed_list headerType headerField headerOf (b_uncles b)) as (C1 & C2 & C3).
  { eapply Forall_impl; [exact Hu|]. apply header_typed. }
  unfold blockField. split; [by cbn [has_type blockType]|]. split; [|by cbn [encodable foldr]]. cbn [blockOf]. rewrite A2. cbn. rewrite B2. cbn. rewrite C2. by destruct b.
Qed.

(** [rlp.Decode] into a header; nil for an error. *)
Definition DecodeHeader (b : list byte) : outcome (option Header) :=
  match Decode headerType b with
  | Ret (inr v) => Ret (headerOf v)
  | Ret (inl _) => Ret None
  | Panic => Panic
  | OutOfFuel => OutOfFuel
  end.

Lemma headerType_ok : type_ok headerType.
Proof. cbn. repeat match goal with |- _ /\ _ => split end; done || lia. Qed.

Lemma txType_ok : type_ok txType.
Proof. cbn. repeat match goal with |- _ /\ _ => split end; done || lia. Qed.

Lemma blockType_ok : type_ok blockType.
Proof. cbn. repeat match goal with |- _ /\ _ => split end; done || lia. Qed.

Lemma DecodeHeader_back h r : header_ok h -> zlen (rlp (itemOf (headerField h)) ++ r) < 2 ^ 62 ->
  DecodeHeader (rlp (itemOf (headerField h)) ++ r) = Ret (Some h).
Proof.
  intros Hh Hz. destruct (header_typed h Hh) as (H1 & H2 & _). unfold DecodeHeader.
  by rewrite (Decode_back _ _ _ r headerType_ok Hz (parse_itemOf _ headerType_ok _ H1)), H2.
Qed.

(** An array of one zero byte is not read to its end: the next field sees the
    byte again. *)
Example array_of_one_zero :
  rlp (itemOf (FList [FBytes [x00]; FUint 7])) = [xc2; x00; x07] /\
  DecodeBytesAs (TStruct [TArray 1; TUint 8]) [xc2; x00; x07] = Ret (inl ErrCanonInt).
Proof. by vm_compute. Qed.

(** A recipient that is an empty list is read as none. *)
Example recipient_as_list :
  let b to := rlp (Lst [Str [x01]; Str [x02]; Str [x03]; to; Str []; Str []; Str [x1b]; Str [x01]; Str [x01]]) in
  b (Str []) <> b (Lst []) /\ DecodeBytesAs txType (b (Str [])) = DecodeBytesAs txType (b (Lst [])).
Proof. by vm_compute. Qed.

(** Types without pointers that may be nil: there is one encoding of a value. *)
Fixpoint strict (t : rtype) : Prop :=
  match t with
  | TOpt _ => False
  | TSlice t => strict t
  | TStruct ts => foldr (fun t P => strict t /\ P) True ts
  | _ => True
  end.

Lemma parse_strict t : strict t -> forall it v, parseAs t it = Some v -> it = itemOf v.
Proof.
  induction t as [|n|w| |t IH|t IH|ts IH] using rtype_ind'; intros Ht it v E; cbn [parseAs] in E; destruct it as [b|l]; try done.
  - by injection E as <-.
  - case_bool_decide; [|done]. by injection E as <-.
  - case_bool_decide as Hb; [|done]. injection E as <-. cbn. f_equal. symmetry. apply Hb.
  - case_bool_decide as Hb; [|done]. injection E as <-. cbn. by f_equal.
  - destruct (mapM (parseAs t) l) as [vs|] eqn:El; [|done]. injection E as <-. cbn. f_equal.
    apply mapM_Some_1 in El. induction El as [|it v l vs Hv _ IHl]; [done|]. cbn. by rewrite (IH Ht it v Hv), <- IHl.
  - destruct (parseFields (map parseAs ts) l) as [vs|] eqn:El; [|done]. injection E as <-. cbn. f_equal. revert l vs El. cbn [strict] in Ht.
    induction IH as [|t ts H _ IHl]; intros [|it l] vs El; try done; cbn [map parseFields] in El; [by injection El as <-|].
    destruct (parseAs t it) as [v|] eqn:Ev; [|done]. cbn in El. destruct (parseFields (map parseAs ts) l) as [vs'|] eqn:El'; [|done].
    injection El as <-. cbn. destruct Ht as [Ht Hts]. by rewrite (H Ht it v Ev), (IHl Hts l vs' El').
Qed.

Lemma headerType_strict : strict headerType.
Proof. cbn. tauto. Qed.
