(* ===== verification/Receipts.v ===== *)
(** * core/types: receipts, roots of lists, and assembling a block

    [receipt.go], [derive_sha.go], the encoding of [log.go] and [NewBlock] of
    [block.go].  The root of a list is the root of a trie of its own that holds
    element [i] under the encoding of [i]; that trie has no database, so loading
    a node from it would be a nil dereference. *)

From Stdlib Require Import ZArith Lia Bool.
From S2P Require Import Prelude GoMath Rlp RlpStream RlpStreamSpec TrieEncoding Trie TrieNode TrieDatabase TrieHasher StateInterface BlockTypes.
Local Open Scope Z_scope.

(** ** log.go and receipt.go *)

Definition logField (l : Log) : field :=
  FList [FAddress (log_Address l); FList (map FHash (log_Topics l)); FBytes (log_Data l)].

Definition receiptStatusFailedRLP : list byte := [].
Definition receiptStatusSuccessfulRLP : list byte := [x01].
Definition ReceiptStatusFailed : Z := 0.
Definition ReceiptStatusSuccessful : Z := 1.

Record Receipt := mkReceipt {
  r_PostState : list byte;
  r_Status : Z;
  r_CumulativeGasUsed : Z;
  r_Bloom : Z;
  r_Logs : list Log;
  r_TxHash : Hash;
  r_ContractAddress : Address;
  r_GasUsed : Z
}.

Definition NewReceipt (root : list byte) (failed : bool) (cumulativeGasUsed : Z) : Receipt :=
  mkReceipt root (if failed then ReceiptStatusFailed else ReceiptStatusSuccessful) cumulativeGasUsed 0 [] 0 0 0.

Definition statusEncoding (r : Receipt) : list byte :=
  if zlen (r_PostState r) =? 0 then
    if r_Status r =? ReceiptStatusFailed then receiptStatusFailedRLP else receiptStatusSuccessfulRLP
  else r_PostState r.

(** The new state and status, or [None] for the error. *)
Definition setStatus (postStateOrStatus : list byte) (r : Receipt) : option Receipt :=
  let set st s := mkReceipt st s (r_CumulativeGasUsed r) (r_Bloom r) (r_Logs r) (r_TxHash r) (r_ContractAddress r) (r_GasUsed r) in
  if bool_decide (postStateOrStatus = receiptStatusSuccessfulRLP) then Some (set (r_PostState r) ReceiptStatusSuccessful)
  else if bool_decide (postStateOrStatus = receiptStatusFailedRLP) then Some (set (r_PostState r) ReceiptStatusFailed)
  else if zlen postStateOrStatus =? 32 then Some (set postStateOrStatus (r_Status r))
  else None.

Definition receiptField (r : Receipt) : field :=
  FList [FBytes (statusEncoding r); FUint (r_CumulativeGasUsed r); FBytes (be_bytes 256 (r_Bloom r));
         FList (map logField (r_Logs r))].

(** ** Lists with a root *)

(** [rlp.EncodeToBytes]: [None] is a panic. *)
Definition EncodeFieldToBytes (v : field) : option (rlpErr + list byte) :=
  match writeField v eb_reset with
  | inl e => Some (inl e)
  | inr w => match toBytes w with Some b => Some (inr b) | None => None end
  end.

Lemma EncodeField_rlp v : encodable v -> zlen (rlp (itemOf v)) < 2 ^ 63 -> EncodeFieldToBytes v = Some (inr (rlp (itemOf v))).
Proof.
  intros He Hz. unfold EncodeFieldToBytes. destruct (writeField_writes v eb_reset He Hz) as (w & -> & W).
  by rewrite (toBytes_writes w _ W).
Qed.

(** The interface [DerivableList]; [None] is a panic of [GetRlp]. *)
Record DerivableList := mkDerivable { dl_Len : nat; dl_GetRlp : nat -> option (list byte) }.

(** [Transactions]: the error is dropped. *)
Definition Transactions_list (txs : list Transaction) : DerivableList := mkDerivable (length txs) (fun i =>
  match txs !! i with
  | None => None
  | Some tx =>
      match EncodeFieldToBytes (txField tx) with
      | Some (inr b) => Some b
      | Some (inl _) => Some []
      | None => None
      end
  end).

(** [Receipts]: the error is a panic. *)
Definition Receipts_list (receipts : list Receipt) : DerivableList := mkDerivable (length receipts) (fun i =>
  match receipts !! i with
  | None => None
  | Some r => match EncodeFieldToBytes (receiptField r) with Some (inr b) => Some b | _ => None end
  end).

(** The database of [new(trie.Trie)] is nil. *)
Definition nilReader : NodeReader := fun _ _ => Panic.

(** [Trie.Update] logs the error. *)
Definition Trie_Update {R : NodeReader} (t : Trie) (key value : list byte) : outcome Trie :=
  match TryUpdate t key value with
  | Ret (inr t) => Ret t
  | Ret (inl _) => Ret t
  | Panic => Panic
  | OutOfFuel => OutOfFuel
  end.

Section derive.
Context {K : Sha3}.

(** The key of an index: [rlp.Encode] of a [uint] into an empty buffer. *)
Definition indexKey (i : nat) : list byte :=
  match Encode (FUint (Z.of_nat i)) with Some (inr b) => b | _ => [] end.

Fixpoint deriveLoop (l : DerivableList) (todo i : nat) (t : Trie) : outcome Trie :=
  match todo with
  | O => Ret t
  | S todo =>
      match dl_GetRlp l i with
      | None => Panic
      | Some b =>
          match Trie_Update (R := nilReader) t (indexKey i) b with
          | Ret t => deriveLoop l todo (i + 1) t
          | Panic => Panic
          | OutOfFuel => OutOfFuel
          end
      end
  end.

Definition DeriveSha (l : DerivableList) : outcome Hash :=
  match deriveLoop l (dl_Len l) 0 (mkTrie NilNode 0 0 0) with
  | Ret t => match Hash_ t with Ret (h, _) => Ret h | Panic => Panic | OutOfFuel => OutOfFuel end
  | Panic => Panic
  | OutOfFuel => OutOfFuel
  end.

(** ** block.go: NewBlock *)

Definition set_body (txHash receiptHash uncleHash : Hash) (bloom : Z) (h : Header) : Header :=
  mkHeader (h_ParentHash h) uncleHash (h_Coinbase h) (h_Root h) txHash receiptHash bloom (h_Difficulty h) (h_Number h)
    (h_GasLimit h) (h_GasUsed h) (h_Time h) (h_Extra h) (h_MixDigest h) (h_Nonce h).

(** The hash of an empty list, as the package computes it. *)
Definition EmptyRootHash : outcome Hash := DeriveSha (Transactions_list []).

Definition NewBlock (header : Header) (txs : list Transaction) (uncles : list Header) (receipts : list Receipt) : outcome Block :=
  let txRoot := if zlen txs =? 0 then EmptyRootHash else DeriveSha (Transactions_list txs) in
  let receiptRoot := if zlen receipts =? 0 then EmptyRootHash else DeriveSha (Receipts_list receipts) in
  let bloom := if zlen receipts =? 0 then Some (h_Bloom header) else CreateBloom (map r_Logs receipts) in
  let uncleHash := if zlen uncles =? 0 then CalcUncleHash [] else CalcUncleHash uncles in
  match txRoot, receiptRoot, bloom with
  | Ret txHash, Ret receiptHash, Some bloom =>
      Ret (mkBlock (set_body txHash receiptHash uncleHash bloom header) uncles txs)
  | OutOfFuel, _, _ | _, OutOfFuel, _ => OutOfFuel
  | _, _, _ => Panic
  end.
End derive.
