(* ===== verification/HeaderChain.v ===== *)
(** * core/headerchain.go: the stored header chain

    [HeaderChain] keeps every header it is given with its total difficulty, marks
    one branch as canonical and follows the heaviest one.  Headers live in the
    key-value store under the keys of [core/rawdb/schema.go], behind three caches
    ([hashicorp/golang-lru]).

    [log.Crit] ends the process and is a panic here; the operations of the store
    cannot fail ([Mem] in TrieDatabase.v).  The coin that decides between
    branches of the same weight, the interrupt flag and the random choice of
    seals to verify are arguments. *)

From Stdlib Require Import ZArith Lia Bool.
From Stdlib Require Import String.
From S2P Require Import Prelude GoMath Rlp TrieNode TrieDatabase TrieHasher StateInterface BlockTypes RlpTypes Receipts.
Local Open Scope Z_scope.
Local Open Scope go_scope.

(** ** The cache

    [simplelru]: the list of entries, the most recently used first; the map
    [items] points into it. *)

Module LRU.
Record t (V : Type) := mk { size : Z; evictList : list (Hash * V) }.
Arguments mk {V}.
Arguments size {V}.
Arguments evictList {V}.

Section lru.
Context {V : Type}.

Fixpoint items (key : Hash) (l : list (Hash * V)) : option V :=
  match l with
  | [] => None
  | (k, v) :: l => if k =? key then Some v else items key l
  end.

Definition New (size : Z) : t V := mk size [].

Definition toFront (key : Hash) (value : V) (c : t V) : t V :=
  mk (size c) ((key, value) :: List.filter (fun kv => negb (fst kv =? key)) (evictList c)).

Definition Add (key : Hash) (value : V) (c : t V) : t V :=
  match items key (evictList c) with
  | Some _ => toFront key value c
  | None =>
      let l := (key, value) :: evictList c in
      mk (size c) (if zlen l >? size c then removelast l else l)
  end.

Definition Get (key : Hash) (c : t V) : option V * t V :=
  match items key (evictList c) with
  | Some value => (Some value, toFront key value c)
  | None => (None, c)
  end.

Definition Contains (key : Hash) (c : t V) : bool :=
  match items key (evictList c) with Some _ => true | None => false end.

Definition Purge (c : t V) : t V := mk (size c) [].
End lru.
End LRU.

(** ** core/rawdb *)

Module Raw.
Definition headHeaderKey : list byte := list_byte_of_string "LastHeader".
Definition headBlockKey : list byte := list_byte_of_string "LastBlock".
Definition headerPrefix : list byte := list_byte_of_string "h".
Definition headerTDSuffix : list byte := list_byte_of_string "t".
Definition headerHashSuffix : list byte := list_byte_of_string "n".
Definition headerNumberPrefix : list byte := list_byte_of_string "H".

Definition blockBodyPrefix : list byte := list_byte_of_string "b".

Definition encodeBlockNumber (number : Z) : list byte := be_bytes 8 number.

Definition headerKey (number : Z) (hash : Hash) : list byte :=
  (headerPrefix ++ encodeBlockNumber number) ++ hashBytes hash.

Definition headerTDKey (number : Z) (hash : Hash) : list byte := headerKey number hash ++ headerTDSuffix.

Definition headerHashKey (number : Z) : list byte :=
  (headerPrefix ++ encodeBlockNumber number) ++ headerHashSuffix.

Definition headerNumberKey (hash : Hash) : list byte := headerNumberPrefix ++ hashBytes hash.

Definition blockBodyKey (number : Z) (hash : Hash) : list byte :=
  (blockBodyPrefix ++ encodeBlockNumber number) ++ hashBytes hash.

(** A stored hash; the zero hash where there is none. *)
Definition readHash (key : list byte) (db : Mem.db) : Hash :=
  match Mem.Get key db with
  | None | Some [] => 0
  | Some data => BytesToHash data
  end.

Definition ReadCanonicalHash (db : Mem.db) (number : Z) : Hash := readHash (headerHashKey number) db.

Definition WriteCanonicalHash (hash : Hash) (number : Z) (db : Mem.db) : Mem.db :=
  Mem.Put (headerHashKey number) (hashBytes hash) db.

Definition DeleteCanonicalHash (number : Z) (b : Mem.batch) : Mem.batch :=
  Mem.batch_Delete (headerHashKey number) b.

Definition ReadHeaderNumber (db : Mem.db) (hash : Hash) : option Z :=
  match Mem.Get (headerNumberKey hash) db with
  | Some data => if zlen data =? 8 then Some (SetBytes data) else None
  | None => None
  end.

Definition ReadHeadHeaderHash (db : Mem.db) : Hash := readHash headHeaderKey db.

Definition WriteHeadHeaderHash (hash : Hash) (db : Mem.db) : Mem.db := Mem.Put headHeaderKey (hashBytes hash) db.

Definition ReadHeadBlockHash (db : Mem.db) : Hash := readHash headBlockKey db.

Definition WriteHeadBlockHash (hash : Hash) (db : Mem.db) : Mem.db := Mem.Put headBlockKey (hashBytes hash) db.

Definition HasHeader (db : Mem.db) (hash : Hash) (number : Z) : bool := Mem.Has (headerKey number hash) db.

Definition ReadHeader (db : Mem.db) (hash : Hash) (number : Z) : outcome (option Header) :=
  match Mem.Get (headerKey number hash) db with
  | None | Some [] => Ret None
  | Some data => DecodeHeader data
  end.

(** [None]: the header cannot be encoded, which is logged as critical. *)
Definition WriteHeader {K : Sha3} (header : Header) (db : Mem.db) : option Mem.db :=
  let hash := Header_Hash header in
  let number := u64 (h_Number header) in
  let db := Mem.Put (headerNumberKey hash) (encodeBlockNumber number) db in
  match EncodeFieldToBytes (headerField header) with
  | Some (inr data) => Some (Mem.Put (headerKey number hash) data db)
  | _ => None
  end.

Definition DeleteHeader (hash : Hash) (number : Z) (b : Mem.batch) : Mem.batch :=
  Mem.batch_Delete (headerNumberKey hash) (Mem.batch_Delete (headerKey number hash) b).

Definition ReadTd (db : Mem.db) (hash : Hash) (number : Z) : outcome (option Z) :=
  match Mem.Get (headerTDKey number hash) db with
  | None | Some [] => Ret None
  | Some data =>
      match Decode TBig data with
      | Ret (inr (FBig td)) => Ret (Some td)
      | Ret _ => Ret None
      | Panic => Panic
      | OutOfFuel => OutOfFuel
      end
  end.

Definition WriteTd (hash : Hash) (number td : Z) (db : Mem.db) : option Mem.db :=
  match EncodeFieldToBytes (FBig td) with
  | Some (inr data) => Some (Mem.Put (headerTDKey number hash) data db)
  | _ => None
  end.

Definition DeleteTd (hash : Hash) (number : Z) (b : Mem.batch) : Mem.batch :=
  Mem.batch_Delete (headerTDKey number hash) b.

Definition DeleteBody (hash : Hash) (number : Z) (b : Mem.batch) : Mem.batch :=
  Mem.batch_Delete (blockBodyKey number hash) b.
End Raw.

(** ** The chain *)

Record HeaderChain := mkHC {
  hc_chainDb : Mem.db;
  hc_genesisHeader : option Header;
  hc_currentHeader : option Header;
  hc_currentHeaderHash : Hash;
  hc_headerCache : LRU.t Header;
  hc_tdCache : LRU.t Z;
  hc_numberCache : LRU.t Z
}.

Definition headerCacheLimit : Z := 512.
Definition tdCacheLimit : Z := 1024.
Definition numberCacheLimit : Z := 2048.

Definition set_chainDb (db : Mem.db) (s : HeaderChain) : HeaderChain :=
  mkHC db (hc_genesisHeader s) (hc_currentHeader s) (hc_currentHeaderHash s) (hc_headerCache s) (hc_tdCache s) (hc_numberCache s).
Definition set_genesis (h : option Header) (s : HeaderChain) : HeaderChain :=
  mkHC (hc_chainDb s) h (hc_currentHeader s) (hc_currentHeaderHash s) (hc_headerCache s) (hc_tdCache s) (hc_numberCache s).
Definition set_current (h : option Header) (s : HeaderChain) : HeaderChain :=
  mkHC (hc_chainDb s) (hc_genesisHeader s) h (hc_currentHeaderHash s) (hc_headerCache s) (hc_tdCache s) (hc_numberCache s).
Definition set_currentHash (h : Hash) (s : HeaderChain) : HeaderChain :=
  mkHC (hc_chainDb s) (hc_genesisHeader s) (hc_currentHeader s) h (hc_headerCache s) (hc_tdCache s) (hc_numberCache s).
Definition set_headerCache (c : LRU.t Header) (s : HeaderChain) : HeaderChain :=
  mkHC (hc_chainDb s) (hc_genesisHeader s) (hc_currentHeader s) (hc_currentHeaderHash s) c (hc_tdCache s) (hc_numberCache s).
Definition set_tdCache (c : LRU.t Z) (s : HeaderChain) : HeaderChain :=
  mkHC (hc_chainDb s) (hc_genesisHeader s) (hc_currentHeader s) (hc_currentHeaderHash s) (hc_headerCache s) c (hc_numberCache s).
Definition set_numberCache (c : LRU.t Z) (s : HeaderChain) : HeaderChain :=
  mkHC (hc_chainDb s) (hc_genesisHeader s) (hc_currentHeader s) (hc_currentHeaderHash s) (hc_headerCache s) (hc_tdCache s) c.

Abbreviation HM := (M HeaderChain).

Definition lift {A} (o : outcome A) : HM A := fun s =>
  match o with Ret a => Ret (a, s) | Panic => Panic | OutOfFuel => OutOfFuel end.

(** A lookup in a cache, which moves the entry to the front. *)
Definition fromCache {V} (getter : HeaderChain -> LRU.t V) (setter : LRU.t V -> HeaderChain -> HeaderChain)
    (hash : Hash) : HM (option V) := fun s =>
  let '(v, c) := LRU.Get hash (getter s) in Ret (v, setter c s).

Definition GetBlockNumber (hash : Hash) : HM (option Z) :=
  let* cached := fromCache hc_numberCache set_numberCache hash in
  match cached with
  | Some number => ret (Some number)
  | None =>
      let* number := gets (fun s => Raw.ReadHeaderNumber (hc_chainDb s) hash) in
      match number with
      | Some n => modify (fun s => set_numberCache (LRU.Add hash n (hc_numberCache s)) s) ;; ret number
      | None => ret number
      end
  end.

Definition GetTd (hash : Hash) (number : Z) : HM (option Z) :=
  let* cached := fromCache hc_tdCache set_tdCache hash in
  match cached with
  | Some td => ret (Some td)
  | None =>
      let* s := get in
      let* td := lift (Raw.ReadTd (hc_chainDb s) hash number) in
      match td with
      | Some td => modify (fun s => set_tdCache (LRU.Add hash td (hc_tdCache s)) s) ;; ret (Some td)
      | None => ret None
      end
  end.

Definition GetTdByHash (hash : Hash) : HM (option Z) :=
  let* number := GetBlockNumber hash in
  match number with None => ret None | Some n => GetTd hash n end.

Definition WriteTd (hash : Hash) (number td : Z) : HM unit :=
  let* s := get in
  let* db := must (Raw.WriteTd hash number td (hc_chainDb s)) in
  modify (fun s => set_tdCache (LRU.Add hash td (hc_tdCache s)) (set_chainDb db s)).

Definition GetHeader (hash : Hash) (number : Z) : HM (option Header) :=
  let* cached := fromCache hc_headerCache set_headerCache hash in
  match cached with
  | Some header => ret (Some header)
  | None =>
      let* s := get in
      let* header := lift (Raw.ReadHeader (hc_chainDb s) hash number) in
      match header with
      | Some header => modify (fun s => set_headerCache (LRU.Add hash header (hc_headerCache s)) s) ;; ret (Some header)
      | None => ret None
      end
  end.

Definition GetHeaderByHash (hash : Hash) : HM (option Header) :=
  let* number := GetBlockNumber hash in
  match number with None => ret None | Some n => GetHeader hash n end.

Definition HasHeader (hash : Hash) (number : Z) : HM bool := gets (fun s =>
  if LRU.Contains hash (hc_numberCache s) || LRU.Contains hash (hc_headerCache s) then true
  else Raw.HasHeader (hc_chainDb s) hash number).

Definition GetHeaderByNumber (number : Z) : HM (option Header) :=
  let* hash := gets (fun s => Raw.ReadCanonicalHash (hc_chainDb s) number) in
  if hash =? 0 then ret None else GetHeader hash number.

Definition CurrentHeader : HM (option Header) := gets hc_currentHeader.

Definition updateDb (f : Mem.db -> Mem.db) : HM unit := modify (fun s => set_chainDb (f (hc_chainDb s)) s).

Inductive WriteStatus := NonStatTy | CanonStatTy | SideStatTy.

Inductive chainErr := ErrUnknownAncestor | ErrNoGenesis | ErrBlacklistedHash | errNonContiguous | errAborted.

Section chain.
Context {K : Sha3}.

Definition SetCurrentHeader (head : Header) : HM unit :=
  updateDb (Raw.WriteHeadHeaderHash (Header_Hash head)) ;;
  modify (fun s => set_currentHash (Header_Hash head) (set_current (Some head) s)).

Definition SetGenesis (head : option Header) : HM unit := modify (set_genesis head).

(** The constructor, with empty caches of the sizes above; the state is that of
    the new object. *)
Definition NewHeaderChain (chainDb : Mem.db) : outcome (chainErr + HeaderChain) :=
  let init : HM (chainErr + unit) :=
    let* genesis := GetHeaderByNumber 0 in
    modify (set_genesis genesis) ;;
    match genesis with
    | None => ret (inl ErrNoGenesis)
    | Some _ =>
        modify (set_current genesis) ;;
        let* head := gets (fun s => Raw.ReadHeadBlockHash (hc_chainDb s)) in
        (if negb (head =? 0) then
           let* chead := GetHeaderByHash head in
           match chead with Some _ => modify (set_current chead) | None => ret tt end
         else ret tt) ;;
        let* current := CurrentHeader in
        let* current := must current in
        modify (set_currentHash (Header_Hash current)) ;;
        ret (inr tt)
    end in
  match init (mkHC chainDb None None 0 (LRU.New headerCacheLimit) (LRU.New tdCacheLimit) (LRU.New numberCacheLimit)) with
  | Ret (inr _, s) => Ret (inr s)
  | Ret (inl e, _) => Ret (inl e)
  | Panic => Panic
  | OutOfFuel => OutOfFuel
  end.

(** ** WriteHeader *)

(** The first loop: the canonical numbers from [i] on; nothing is deleted before
    the batch is written. *)
Fixpoint deleteAbove (fuel : nat) (db : Mem.db) (i : Z) (batch : Mem.batch) : outcome Mem.batch :=
  match fuel with
  | O => OutOfFuel
  | S fuel =>
      if Raw.ReadCanonicalHash db i =? 0 then Ret batch
      else deleteAbove fuel db (i +u 1) (Raw.DeleteCanonicalHash i batch)
  end.

(** The second loop: follow the parents until the branch meets the canonical one. *)
Fixpoint reassign (fuel : nat) (headHash : Hash) (headNumber : Z) (headHeader : option Header) : HM unit :=
  match fuel with
  | O => fun _ => OutOfFuel
  | S fuel =>
      let* canonical := gets (fun s => Raw.ReadCanonicalHash (hc_chainDb s) headNumber) in
      if canonical =? headHash then ret tt
      else
        updateDb (Raw.WriteCanonicalHash headHash headNumber) ;;
        let* header := must headHeader in
        let headHash := h_ParentHash header in
        let headNumber := u64 (h_Number header) -u 1 in
        let* headHeader := GetHeader headHash headNumber in
        reassign fuel headHash headNumber headHeader
  end.

(** The fuel of the loops: the first one stops at a number that is not in the
    store; the second one follows parents, each of them a header in the cache or in
    the store, and stops at a header that is in neither. *)
Definition loopFuel (height : Z) (s : HeaderChain) : nat :=
  S (Z.to_nat height + size (hc_chainDb s) + length (LRU.evictList (hc_headerCache s))).

Definition makeCanonical (header : Header) (hash : Hash) (number height : Z) : HM unit :=
  let* s := get in
  let* batch := lift (deleteAbove (loopFuel height s) (hc_chainDb s) (number +u 1) Mem.NewBatch) in
  updateDb (Mem.batch_Write batch) ;;
  let headHash := h_ParentHash header in
  let headNumber := u64 (h_Number header) -u 1 in
  let* headHeader := GetHeader headHash headNumber in
  reassign (loopFuel number s) headHash headNumber headHeader ;;
  updateDb (Raw.WriteCanonicalHash hash number) ;;
  updateDb (Raw.WriteHeadHeaderHash hash) ;;
  modify (fun s => set_current (Some header) (set_currentHash hash s)).

(** [coin] is [mrand.Float64() < 0.5]. *)
Definition WriteHeader (coin : bool) (header : Header) : HM (chainErr + WriteStatus) :=
  let hash := Header_Hash header in
  let number := u64 (h_Number header) in
  let* ptd := GetTd (h_ParentHash header) (number -u 1) in
  match ptd with
  | None => ret (inl ErrUnknownAncestor)
  | Some ptd =>
      let* current := CurrentHeader in
      let* current := must current in
      let* currentHash := gets hc_currentHeaderHash in
      let* localTd := GetTd currentHash (u64 (h_Number current)) in
      let externTd := h_Difficulty header + ptd in
      WriteTd hash number externTd ;;
      let* s := get in
      let* db := must (Raw.WriteHeader header (hc_chainDb s)) in
      updateDb (fun _ => db) ;;
      let* localTd := must localTd in
      let* status :=
        (if (externTd >? localTd) || ((externTd =? localTd) && coin) then
           makeCanonical header hash number (u64 (h_Number current)) ;; ret CanonStatTy
         else ret SideStatTy) in
      modify (fun s => set_headerCache (LRU.Add hash header (hc_headerCache s)) s) ;;
      modify (fun s => set_numberCache (LRU.Add hash number (hc_numberCache s)) s) ;;
      ret (inr status)
  end.

(** ** Inserting chains of headers *)

Definition BadHashes : list Hash :=
  [0x05bef30ef572270f654746da22639a7a0c97dd97a7050b9e252391996aaeb689;
   0x7d05d08cbc596a2e5e4f13b80a743e53e09221b5323c3a61946b20873e58583f].

Fixpoint contiguous (prev : Header) (chain : list Header) : bool :=
  match chain with
  | [] => true
  | h :: chain =>
      if negb (u64 (h_Number h) =? u64 (h_Number prev) +u 1) || negb (h_ParentHash h =? Header_Hash prev) then false
      else contiguous h chain
  end.

(** The choice of the seals to verify: one in every [checkFreq], and the last. *)
Fixpoint chooseSeals (rnd : nat -> Z) (checkFreq : Z) (rounds i : nat) (seals : list bool) : option (list bool) :=
  match rounds with
  | O => Prelude.store seals (zlen seals - 1) true
  | S rounds =>
      let index := Z.of_nat i * checkFreq + rnd i in
      let index := if index >=? zlen seals then zlen seals - 1 else index in
      match Prelude.store seals index true with
      | Some seals => chooseSeals rnd checkFreq rounds (S i) seals
      | None => None
      end
  end.

Section engine.
(** The errors of the engine, the interrupt flag before the [i]th header, and
    the [i]th result of [engine.VerifyHeaders]. *)
Context {E : Type}.
Variable interrupted : nat -> bool.
Variable VerifyHeaders : list Header -> list bool -> nat -> option E.

Fixpoint checkResults (results : nat -> option E) (i : nat) (chain : list Header) : Z * option (chainErr + E) :=
  match chain with
  | [] => (0, None)
  | header :: chain =>
      if interrupted i then (0, Some (inl errAborted))
      else if existsb (Z.eqb (Header_Hash header)) BadHashes then (Z.of_nat i, Some (inl ErrBlacklistedHash))
      else
        match results i with
        | Some err => (Z.of_nat i, Some (inr err))
        | None => checkResults results (S i) chain
        end
  end.

(** [rnd i] is the [i]th [rand.Intn(checkFreq)]; a division by zero, and the last
    seal of an empty chain, are panics. *)
Definition ValidateHeaderChain (rnd : nat -> Z) (chain : list Header) (checkFreq : Z) :
    outcome (Z * option (chainErr + E)) :=
  if match chain with [] => true | h :: rest => contiguous h rest end then
    if checkFreq =? 0 then Panic
    else
      match chooseSeals rnd checkFreq (Z.to_nat (Z.quot (zlen chain) checkFreq)) 0 (replicate (length chain) false) with
      | None => Panic
      | Some seals => Ret (checkResults (VerifyHeaders chain seals) 0 chain)
      end
  else Ret (0, Some (inl errNonContiguous)).
End engine.

(** The loop of [InsertHeaderChain]; [None] is a nil error. *)
Fixpoint insertLoop (interrupted : nat -> bool) (writeHeader : nat -> Header -> HM (option chainErr)) (i : nat)
    (chain : list Header) : HM (Z * option chainErr) :=
  match chain with
  | [] => ret (0, None)
  | header :: chain =>
      if interrupted i then ret (Z.of_nat i, Some errAborted)
      else
        let* has := HasHeader (Header_Hash header) (u64 (h_Number header)) in
        if has then insertLoop interrupted writeHeader (S i) chain
        else
          let* err := writeHeader i header in
          match err with
          | Some e => ret (Z.of_nat i, Some e)
          | None => insertLoop interrupted writeHeader (S i) chain
          end
  end.

(** The statistics read the last header of the chain: an empty one panics. *)
Definition InsertHeaderChain (interrupted : nat -> bool) (chain : list Header)
    (writeHeader : nat -> Header -> HM (option chainErr)) : HM (Z * option chainErr) :=
  let* r := insertLoop interrupted writeHeader 0 chain in
  match r.2, chain with
  | None, [] => panic
  | _, _ => ret r
  end.

(** The callback of [BlockChain.InsertHeaderChain]; [coins i] is for the [i]th
    header. *)
Definition whFunc (coins : nat -> bool) (i : nat) (header : Header) : HM (option chainErr) :=
  let* r := WriteHeader (coins i) header in
  ret (match r with inl e => Some e | inr _ => None end).

(** [BlockChain.InsertHeaderChain]. *)
Definition InsertHeaders {E} (interrupted : nat -> bool) (VerifyHeaders : list Header -> list bool -> nat -> option E)
    (rnd : nat -> Z) (coins : nat -> bool) (chain : list Header) (checkFreq : Z) : HM (Z * option (chainErr + E)) :=
  let* r := lift (ValidateHeaderChain interrupted VerifyHeaders rnd chain checkFreq) in
  match r with
  | (i, Some err) => ret (i, Some err)
  | (_, None) =>
      let* '(i, err) := InsertHeaderChain interrupted chain (whFunc coins) in
      ret (i, inl <$> err)
  end.

(** ** Reading the chain *)

Fixpoint hashesFrom (max : nat) (header : Header) : HM (list Hash) :=
  match max with
  | O => ret []
  | S max =>
      let next := h_ParentHash header in
      let* header := GetHeader next (u64 (h_Number header) -u 1) in
      match header with
      | None => ret []
      | Some header =>
          if h_Number header =? 0 then ret [next]
          else let* chain := hashesFrom max header in ret (next :: chain)
      end
  end.

Definition GetBlockHashesFromHash (hash : Hash) (max : Z) : HM (list Hash) :=
  let* header := GetHeaderByHash hash in
  match header with
  | None => ret []
  | Some header => hashesFrom (Z.to_nat max) header
  end.

(** The loop of [GetAncestor]; the last component is what is left of
    [maxNonCanonical]. *)
Fixpoint ancestorLoop (ancestor : nat) (hash : Hash) (number maxNonCanonical : Z) : HM (Hash * Z * Z) :=
  match ancestor with
  | O => ret (hash, number, maxNonCanonical)
  | S ancestor' =>
      let* s := get in
      if Raw.ReadCanonicalHash (hc_chainDb s) number =? hash then
        let number := number -u Z.of_nat ancestor in
        ret (Raw.ReadCanonicalHash (hc_chainDb s) number, number, maxNonCanonical)
      else if maxNonCanonical =? 0 then ret (0, 0, maxNonCanonical)
      else
        let maxNonCanonical := maxNonCanonical -u 1 in
        let* header := GetHeader hash number in
        match header with
        | None => ret (0, 0, maxNonCanonical)
        | Some header => ancestorLoop ancestor' (h_ParentHash header) (number -u 1) maxNonCanonical
        end
  end.

Definition GetAncestor (hash : Hash) (number ancestor maxNonCanonical : Z) : HM (Hash * Z * Z) :=
  if ancestor >? number then ret (0, 0, maxNonCanonical)
  else if ancestor =? 1 then
    let* header := GetHeader hash number in
    match header with
    | Some header => ret (h_ParentHash header, number -u 1, maxNonCanonical)
    | None => ret (0, 0, maxNonCanonical)
    end
  else ancestorLoop (Z.to_nat ancestor) hash number maxNonCanonical.

(** ** SetHead *)

(** The first loop: delete the current header and step to its parent. *)
Fixpoint rewind (delFn : option (Hash -> Z -> Mem.batch -> Mem.batch)) (fuel : nat) (head : Z) (batch : Mem.batch) :
    HM Mem.batch :=
  match fuel with
  | O => fun _ => OutOfFuel
  | S fuel =>
      let* hdr := CurrentHeader in
      match hdr with
      | None => ret batch
      | Some hdr =>
          if u64 (h_Number hdr) >? head then
            let hash := Header_Hash hdr in
            let num := u64 (h_Number hdr) in
            let batch := match delFn with Some f => f hash num batch | None => batch end in
            let batch := Raw.DeleteTd hash num (Raw.DeleteHeader hash num batch) in
            let* parent := GetHeader (h_ParentHash hdr) (u64 (h_Number hdr) -u 1) in
            modify (set_current parent) ;;
            rewind delFn fuel head batch
          else ret batch
      end
  end.

(** The second loop counts down from [height] to [head]. *)
Fixpoint deleteDown (n : nat) (i : Z) (batch : Mem.batch) : Mem.batch :=
  match n with
  | O => batch
  | S n => deleteDown n (i - 1) (Raw.DeleteCanonicalHash i batch)
  end.

(** The first loop steps to a parent each time. *)
Definition SetHead (head : Z) (delFn : option (Hash -> Z -> Mem.batch -> Mem.batch)) : HM unit :=
  let* hdr := CurrentHeader in
  let height := match hdr with Some hdr => u64 (h_Number hdr) | None => 0 end in
  let* s := get in
  let* batch := rewind delFn (loopFuel height s) head Mem.NewBatch in
  let batch := deleteDown (Z.to_nat (height - head)) height batch in
  updateDb (Mem.batch_Write batch) ;;
  modify (fun s => set_headerCache (LRU.Purge (hc_headerCache s)) s) ;;
  modify (fun s => set_tdCache (LRU.Purge (hc_tdCache s)) s) ;;
  modify (fun s => set_numberCache (LRU.Purge (hc_numberCache s)) s) ;;
  let* hdr := CurrentHeader in
  (match hdr with
   | None => let* s := get in modify (set_current (hc_genesisHeader s))
   | Some _ => ret tt
   end) ;;
  let* hdr := CurrentHeader in
  let* hdr := must hdr in
  modify (set_currentHash (Header_Hash hdr)) ;;
  let* hash := gets hc_currentHeaderHash in
  updateDb (Raw.WriteHeadHeaderHash hash).

(** The writes of [Genesis.Commit] that concern the header; bodies, receipts and
    the configuration have keys of their own.  [difficulty] is [g.Difficulty], of
    which a nil pointer is written as zero. *)
Definition CommitHeader (g : Header) (difficulty : option Z) (db : Mem.db) : option Mem.db :=
  let hash := Header_Hash g in
  let number := u64 (h_Number g) in
  match Raw.WriteTd hash number (default 0 difficulty) db with
  | None => None
  | Some db =>
      match Raw.WriteHeader g db with
      | None => None
      | Some db =>
          Some (Raw.WriteHeadHeaderHash hash (Raw.WriteHeadBlockHash hash (Raw.WriteCanonicalHash hash number db)))
      end
  end.
End chain.
