(* ===== verification/Hashimoto.v ===== *)
(** * consensus/ethash/algorithm.go: the proof of work

    The verification cache, the items of the mining dataset, and hashimoto,
    which mixes the dataset into a digest, with the two ways of looking an item
    up: from the cache (verification) and from the dataset (mining).  A
    [uint32] is a [Z] with its wrap-around written out.  The values are those
    on both kinds of machines: the byte swaps of a big-endian machine make its
    words the same.  Logging and the progress counters are left out, except
    that reporting progress divides by a hundredth of the number of items.
    [None] is a Go panic. *)

From Stdlib Require Import ZArith Lia Bool.
From S2P Require Import Prelude GoMath TrieNode TrieDatabase TrieHasher.
Local Open Scope Z_scope.

(** [makeHasher(sha3.NewKeccak512())] and [crypto.Keccak512]. *)
Class Sha3_512 := {
  keccak512 : list byte -> list byte;
  keccak512_length : forall b, length (keccak512 b) = 64%nat
}.

Definition u32 (x : Z) : Z := x mod 2 ^ 32.

Definition datasetInitBytes : Z := 2 ^ 30.
Definition datasetGrowthBytes : Z := 2 ^ 23.
Definition cacheInitBytes : Z := 2 ^ 24.
Definition cacheGrowthBytes : Z := 2 ^ 17.
Definition epochLength : Z := 30000.
Definition mixBytes : Z := 128.
Definition hashBytes : Z := 64.
Definition hashWords : Z := 16.
Definition datasetParents : nat := 256.
Definition cacheRounds : nat := 3.
Definition loopAccesses : nat := 64.

(** [binary.LittleEndian] for 32-bit words. *)
Definition Uint32LE (b : list byte) : Z := SetBytes (rev (take 4 b)).
Definition PutUint32LE (w : Z) : list byte := rev (be_bytes 4 w).

(** The [n] words at the start of a byte string. *)
Fixpoint wordsLE (n : nat) (b : list byte) : list Z :=
  match n with
  | O => []
  | S n => Uint32LE b :: wordsLE n (drop 4 b)
  end.

Definition bytesLE (ws : list Z) : list byte := concat (map PutUint32LE ws).

(** [prepare]: as many words as [dest] holds. *)
Definition prepare (dest : nat) (src : list byte) : option (list Z) :=
  if (4 * dest <=? length src)%nat then Some (wordsLE dest src) else None.

Definition fnv (a b : Z) : Z := Z.lxor (u32 (a * 0x01000193)) b.

Fixpoint fnvHash (mix data : list Z) : option (list Z) :=
  match mix, data with
  | [], _ => Some []
  | _, [] => None
  | m :: mix, d :: data => rest ← fnvHash mix data; Some (fnv m d :: rest)
  end.

(** [bitutil.XORBytes]: as many bytes as the shorter operand has. *)
Definition XORBytes (a b : list byte) : list byte :=
  zip_with (fun x y => Zbyte (Z.lxor (byteZ x) (byteZ y))) a b.

Section pow.
Context {K : Sha3} {K5 : Sha3_512}.

(** ** seedHash, generateCache *)

Definition seedHash (block : Z) : list byte :=
  let seed := replicate 32 x00 in
  if block <? epochLength then seed
  else Nat.iter (Z.to_nat (block / epochLength)) keccak256 seed.

(** The first pass: row after row, each the hash of the one before; [rows] rows
    are left. *)
Fixpoint fillRows (rows : nat) (prev : list byte) : list byte :=
  match rows with
  | O => []
  | S rows => let row := keccak512 prev in row ++ fillRows rows row
  end.

(** One step of randmemohash on row [j]. *)
Definition mixRow (rows : Z) (cache : list byte) (j : Z) : option (list byte) :=
  let srcOff := ((j - 1 + rows) mod rows) * hashBytes in
  let dstOff := j * hashBytes in
  dst ← slice cache dstOff (dstOff + 4);
  let xorOff := u32 ((Uint32LE dst mod u32 rows) * hashBytes) in
  a ← slice cache srcOff (srcOff + hashBytes);
  b ← slice cache xorOff (u32 (xorOff + hashBytes));
  Some (splice cache dstOff hashBytes (keccak512 (XORBytes a b))).

Definition mixRows (rows : Z) (cache : list byte) : option (list byte) :=
  foldl (fun c j => cache ← c; mixRow rows cache j) (Some cache) (seqZ 0 rows).

(** The cache of [size] bytes, as words.  A row that does not fit panics. *)
Definition generateCache (size : Z) (seed : list byte) : option (list Z) :=
  let rows := size / hashBytes in
  if (size <? hashBytes) || negb (size mod hashBytes =? 0) then None
  else
    let cache := fillRows (Z.to_nat rows) seed in
    cache ← Nat.iter cacheRounds (fun c => cache ← c; mixRows rows cache) (Some cache);
    Some (wordsLE (Z.to_nat (size / 4)) cache).

(** ** generateDatasetItem *)

(** The rounds [i] to [i + n - 1] of the loop over the parents. *)
Fixpoint parentsLoop (cache : list Z) (rows index : Z) (n : nat) (i : Z) (intMix : list Z) : option (list Z) :=
  match n with
  | O => Some intMix
  | S n =>
      w ← Prelude.index intMix (i mod 16);
      let parent := fnv (Z.lxor index i) w mod rows in
      data ← slice cache (u32 (parent * hashWords)) (zlen cache);
      intMix ← fnvHash intMix data;
      parentsLoop cache rows index n (i + 1) intMix
  end.

Definition generateDatasetItem (cache : list Z) (index : Z) : option (list byte) :=
  let rows := u32 (zlen cache / hashWords) in
  if rows =? 0 then None
  else
    let base := u32 ((index mod rows) * hashWords) in
    row ← slice cache base (base + hashWords);
    let row := match row with w :: ws => Z.lxor w index :: ws | [] => [] end in
    let mix := keccak512 (bytesLE row) in
    let intMix := wordsLE 16 mix in
    intMix ← parentsLoop cache rows index datasetParents 0 intMix;
    Some (keccak512 (bytesLE intMix)).

(** ** generateDataset *)

(** What one goroutine computes: the items [first] to [limit - 1]. *)
Definition segment (size threads id : Z) : list Z :=
  let batch := u32 ((size + hashBytes * threads - 1) / (hashBytes * threads)) in
  let first := u32 (id * batch) in
  let limit := u32 (first + batch) in
  let limit := if limit >? u32 (size / hashBytes) then u32 (size / hashBytes) else limit in
  seqZ first (limit - first).

(** One item: computed and copied to its place.  The offset is in bytes and is
    computed in 32 bits; [dataset] is made of words. *)
Definition storeItem (cache : list Z) (dataset : list Z) (index : Z) : option (list Z) :=
  item ← generateDatasetItem cache index;
  let offset := u32 (index * hashBytes) in
  let percent := u32 (4 * zlen dataset / hashBytes / 100) in
  if (4 * zlen dataset <? offset) || (percent =? 0) then None
  else Some (splice dataset (offset / 4) (zlen dataset - offset / 4) (wordsLE 16 item)).

(** The goroutines write items in an order that the scheduler decides. *)
Definition generateDataset (dest cache : list Z) (schedule : list Z) : option (list Z) :=
  foldl (fun d index => dataset ← d; storeItem cache dataset index) (Some dest) schedule.

(** All items of all goroutines. *)
Definition allItems (size threads : Z) : list Z := concat (map (segment size threads) (seqZ 0 threads)).

(** ** hashimoto *)

(** The accesses [i] to [i + n - 1]. *)
Fixpoint accessLoop (lookup : Z -> option (list Z)) (rows seedHead : Z) (n : nat) (i : Z) (mix : list Z) :
    option (list Z) :=
  match n with
  | O => Some mix
  | S n =>
      w ← Prelude.index mix (i mod zlen mix);
      let parent := fnv (Z.lxor i seedHead) w mod rows in
      d0 ← lookup (u32 (2 * parent));
      d1 ← lookup (u32 (2 * parent + 1));
      let temp := splice (splice (replicate 32 0) 0 32 d0) hashWords 16 d1 in
      mix ← fnvHash mix temp;
      accessLoop lookup rows seedHead n (i + 1) mix
  end.

(** [mix\[i/4\] = fnv(fnv(fnv(mix\[i\], ...)))], in place. *)
Definition compressAt (mix : list Z) (i : nat) : list Z :=
  let at_ k := nth (i + k) mix 0 in
  <[Nat.div i 4 := fnv (fnv (fnv (at_ 0%nat) (at_ 1%nat)) (at_ 2%nat)) (at_ 3%nat)]> mix.

Definition compress (mix : list Z) : list Z :=
  take (Nat.div (length mix) 4) (foldl compressAt mix (map (Nat.mul 4) (seq 0 (Nat.div (length mix + 3) 4)))).

Definition hashimoto (hash : list byte) (nonce size : Z) (lookup : Z -> option (list Z)) :
    option (list byte * list byte) :=
  let rows := u32 (size / mixBytes) in
  let seed := splice (replicate 40 x00) 0 40 hash in
  let seed := splice seed 32 8 (rev (be_bytes 8 nonce)) in
  let seed := keccak512 seed in
  let seedHead := Uint32LE seed in
  let mix := wordsLE 16 seed ++ wordsLE 16 seed in
  if rows =? 0 then None
  else
    mix ← accessLoop lookup rows seedHead loopAccesses 0 mix;
    let digest := bytesLE (compress mix) in
    Some (digest, keccak256 (seed ++ digest)).

Definition hashimotoLight (size : Z) (cache : list Z) (hash : list byte) (nonce : Z) :
    option (list byte * list byte) :=
  hashimoto hash nonce size (fun index =>
    rawData ← generateDatasetItem cache index;
    Some (wordsLE (Nat.div (length rawData) 4) rawData)).

Definition hashimotoFull (dataset : list Z) (hash : list byte) (nonce : Z) :
    option (list byte * list byte) :=
  hashimoto hash nonce (4 * zlen dataset) (fun index =>
    let offset := u32 (index * hashWords) in
    slice dataset offset (u32 (offset + hashWords))).

(** ** Lemmas: words *)

Lemma length_wordsLE n : forall b, length (wordsLE n b) = n.
Proof. induction n as [|n IH]; intros b; cbn; [done|]. by rewrite IH. Qed.

Lemma u32_small x : 0 <= x < 2 ^ 32 -> u32 x = x.
Proof. apply Z.mod_small. Qed.

Lemma u32_range x : 0 <= u32 x < 2 ^ 32.
Proof. apply Z.mod_pos_bound. lia. Qed.

Lemma fnvHash_total mix : forall data, (length mix <= length data)%nat ->
  exists r, fnvHash mix data = Some r /\ length r = length mix.
Proof.
  induction mix as [|m mix IH]; intros data Hl; [by exists []|].
  destruct data as [|d data]; [cbn in Hl; lia|]. cbn in Hl.
  destruct (IH data) as (r & E & Hr); [lia|]. exists (fnv m d :: r). cbn. rewrite E. cbn. by rewrite Hr.
Qed.

Lemma index_total (l : list Z) i : 0 <= i < zlen l -> exists x, Prelude.index l i = Some x.
Proof.
  intros Hi. unfold Prelude.index. replace (0 <=? i) with true by lia.
  apply lookup_lt_is_Some. unfold zlen in Hi. lia.
Qed.

(** ** Lemmas: the cache *)

Lemma length_fillRows rows : forall prev, length (fillRows rows prev) = (64 * rows)%nat.
Proof.
  induction rows as [|rows IH]; intros prev; cbn [fillRows length]; [done|].
  rewrite length_app, keccak512_length, IH. lia.
Qed.

Lemma mixRow_total rows cache j :
  0 < rows < 2 ^ 26 -> 0 <= j < rows -> zlen cache = rows * hashBytes ->
  exists c, mixRow rows cache j = Some c /\ zlen c = zlen cache.
Proof.
  unfold hashBytes. intros Hr Hj Hc. unfold mixRow, hashBytes.
  rewrite (slice_Some cache (j * 64)) by nia. cbn [mbind option_bind].
  rewrite (u32_small rows) by lia.
  pose proof (Z.mod_pos_bound (j - 1 + rows) rows ltac:(lia)) as Hs.
  pose proof (Z.mod_pos_bound (Uint32LE (take (Z.to_nat (j * 64 + 4 - j * 64)) (drop (Z.to_nat (j * 64)) cache)))
    rows ltac:(lia)) as Hx.
  revert Hs Hx. generalize ((j - 1 + rows) mod rows) as s.
  generalize (Uint32LE (take (Z.to_nat (j * 64 + 4 - j * 64)) (drop (Z.to_nat (j * 64)) cache)) mod rows) as x.
  intros x s Hs Hx. rewrite (slice_Some cache (s * 64)) by lia. cbn [mbind option_bind].
  rewrite (u32_small (x * 64)), (u32_small (x * 64 + 64)) by lia.
  rewrite slice_Some by lia. cbn [mbind option_bind]. eexists. split; [done|].
  by rewrite splice_zlen by lia.
Qed.

Lemma mixRows_total rows cache :
  0 < rows < 2 ^ 26 -> zlen cache = rows * hashBytes ->
  exists c, mixRows rows cache = Some c /\ zlen c = zlen cache.
Proof.
  intros Hr. unfold mixRows.
  assert (Forall (fun j => 0 <= j < rows) (seqZ 0 rows)) as Hj.
  { apply Forall_forall. intros j Hj. apply elem_of_seqZ in Hj. lia. }
  revert cache. induction Hj as [|j l Hj _ IH]; intros cache Hc; cbn [foldl]; [by exists cache|].
  cbn [mbind option_bind]. destruct (mixRow_total rows cache j) as (c & -> & Hz); [done..|].
  destruct (IH c) as (c' & E & Hz'); [lia|]. exists c'. rewrite E. split; [done|lia].
Qed.

(** A cache of whole rows is generated, with the right number of words. *)
Lemma generateCache_total size seed :
  0 < size < 2 ^ 32 -> size mod hashBytes = 0 ->
  exists c, generateCache size seed = Some c /\ zlen c = size / 4.
Proof.
  intros Hs Hm. unfold generateCache. rewrite Hm. unfold hashBytes in *.
  pose proof (Z.div_mod size 64 ltac:(lia)) as Hd. rewrite Hm in Hd.
  replace (size <? 64) with false by (symmetry; apply Z.ltb_ge; lia). cbn [orb negb Z.eqb].
  set (rows := size / 64) in *. set (c0 := fillRows _ seed).
  assert (zlen c0 = rows * hashBytes) as H0.
  { unfold zlen, c0, hashBytes. rewrite length_fillRows. lia. }
  assert (forall n, exists c, Nat.iter n (fun c => cache ← c; mixRows rows cache) (Some c0) = Some c /\
    zlen c = rows * hashBytes) as Hn.
  { induction n as [|n (c & E & Hz)]; [by exists c0|]. rewrite Nat.iter_succ, E. cbn [mbind option_bind].
    destruct (mixRows_total rows c) as (c' & -> & Hz'); [lia|done|]. exists c'. split; [done|lia]. }
  destruct (Hn cacheRounds) as (c & -> & _). cbn [mbind option_bind]. eexists. split; [done|].
  unfold zlen. rewrite length_wordsLE. pose proof (Z.div_pos size 4). lia.
Qed.

(** ** Lemmas: items *)

Section items.
Variable cache : list Z.
Hypothesis cache_rows : hashWords <= zlen cache <= 2 ^ 32.

Lemma parentsLoop_total index n : forall i m, length m = 16%nat ->
  exists r, parentsLoop cache (zlen cache / 16) index n i m = Some r /\ length r = 16%nat.
Proof.
  unfold hashWords in cache_rows.
  induction n as [|n IH]; intros i m Hm; cbn [parentsLoop]; [by exists m|].
  pose proof (Z.mod_pos_bound i 16 ltac:(lia)) as Hi.
  destruct (index_total m (i mod 16)) as (w & ->); [unfold zlen; lia|]. cbn [mbind option_bind].
  set (rows := zlen cache / 16). assert (0 < rows) by (apply Z.div_str_pos; lia).
  assert (16 * rows <= zlen cache) by (apply Z.mul_div_le; lia).
  pose proof (Z.mod_pos_bound (fnv (Z.lxor index i) w) rows ltac:(lia)) as Hp.
  revert Hp. generalize (fnv (Z.lxor index i) w mod rows) as p. intros p Hp. unfold hashWords.
  rewrite u32_small by lia. rewrite slice_Some by lia. cbn [mbind option_bind].
  destruct (fnvHash_total m (take (Z.to_nat (zlen cache - p * 16)) (drop (Z.to_nat (p * 16)) cache)))
    as (r & -> & Hr).
  { rewrite length_take, length_drop, Hm. unfold zlen in *. lia. }
  cbn [mbind option_bind]. apply IH. lia.
Qed.

Lemma item_total index : exists item, generateDatasetItem cache index = Some item /\ length item = 64%nat.
Proof.
  unfold generateDatasetItem, hashWords in *.
  assert (0 < zlen cache / 16) by (apply Z.div_str_pos; lia).
  assert (16 * (zlen cache / 16) <= zlen cache) by (apply Z.mul_div_le; lia).
  rewrite (u32_small (zlen cache / 16)) by lia. replace (_ =? 0) with false by lia.
  pose proof (Z.mod_pos_bound index (zlen cache / 16) ltac:(lia)) as Hp.
  rewrite (u32_small (index mod (zlen cache / 16) * 16)) by lia. rewrite slice_Some by lia.
  cbn [mbind option_bind].
  destruct (parentsLoop_total index datasetParents 0
    (wordsLE 16 (keccak512 (bytesLE (match take (Z.to_nat (index mod (zlen cache / 16) * 16 + 16 -
       index mod (zlen cache / 16) * 16)) (drop (Z.to_nat (index mod (zlen cache / 16) * 16)) cache) with
       | w :: ws => Z.lxor w index :: ws | [] => [] end))))) as (r & -> & _).
  { apply length_wordsLE. }
  cbn [mbind option_bind]. eexists. split; [done|apply keccak512_length].
Qed.

(** The words of an item. *)
Definition itemWords (index : Z) : list Z :=
  match generateDatasetItem cache index with Some item => wordsLE 16 item | None => [] end.

Lemma length_itemWords index : length (itemWords index) = 16%nat.
Proof. unfold itemWords. destruct (item_total index) as (item & -> & _). apply length_wordsLE. Qed.

(** ** Lemmas: the dataset *)

(** An item goes to the place its offset modulo 2^32 names. *)
Lemma storeItem_ok ds index :
  6400 <= 4 * zlen ds < 2 ^ 38 -> 16 * index + 16 <= zlen ds -> 0 <= index ->
  exists ds', storeItem cache ds index = Some ds' /\ zlen ds' = zlen ds /\
    forall i, ds' !! i =
      (if bool_decide (u32 (index * 64) / 4 <= Z.of_nat i < u32 (index * 64) / 4 + 16)
       then itemWords index !! (i - Z.to_nat (u32 (index * 64) / 4))%nat else ds !! i).
Proof.
  intros Hz Hi H0. unfold storeItem, hashBytes, itemWords.
  destruct (item_total index) as (item & -> & Hl). cbn [mbind option_bind].
  assert (1 <= 4 * zlen ds / 64 / 100 < 2 ^ 32).
  { rewrite Z.div_div by lia. split; [apply Z.div_le_lower_bound; lia|apply Z.div_lt_upper_bound; lia]. }
  rewrite (u32_small (4 * zlen ds / 64 / 100)) by lia.
  pose proof (u32_range (index * 64)) as Ho.
  assert (u32 (index * 64) <= index * 64) by (apply Z.mod_le; lia).
  replace (4 * zlen ds <? u32 (index * 64)) with false by lia.
  replace (4 * zlen ds / 64 / 100 =? 0) with false by lia. cbn [orb].
  assert (0 <= u32 (index * 64) / 4) as Hp by (apply Z.div_pos; lia).
  assert (u32 (index * 64) / 4 + 16 <= zlen ds) as Hq.
  { assert (u32 (index * 64) / 4 <= index * 16); [|lia]. apply Z.div_le_upper_bound; lia. }
  set (off := u32 (index * 64) / 4) in *.
  assert (splice ds off (zlen ds - off) (wordsLE 16 item) = splice ds off 16 (wordsLE 16 item)) as ->.
  { unfold splice. rewrite !(take_ge (wordsLE 16 item)) by (rewrite length_wordsLE; lia). done. }
  eexists. split; [done|]. split; [by rewrite splice_zlen by lia|]. intros i. case_bool_decide as Hb.
  - apply splice_lookup_in; try lia. unfold zlen. rewrite length_wordsLE. lia.
  - apply splice_lookup_out; lia.
Qed.

Lemma generateDataset_cons ds index l :
  generateDataset ds cache (index :: l) =
  match storeItem cache ds index with Some ds' => generateDataset ds' cache l | None => None end.
Proof.
  unfold generateDataset. cbn [foldl mbind option_bind]. destruct (storeItem cache ds index); [done|].
  by induction l.
Qed.

(** In range, and however they are ordered, items go to their own places. *)
Lemma generateDataset_ok sched : forall ds,
  6400 <= 4 * zlen ds <= 2 ^ 32 -> Forall (fun i => 0 <= i /\ 16 * i + 16 <= zlen ds) sched ->
  exists ds', generateDataset ds cache sched = Some ds' /\ zlen ds' = zlen ds /\
    forall (j k : nat), (k < 16)%nat -> ds' !! (16 * j + k)%nat =
      (if bool_decide (Z.of_nat j ∈ sched) then itemWords (Z.of_nat j) !! k else ds !! (16 * j + k)%nat).
Proof.
  induction sched as [|i l IH]; intros ds Hz Hf; [exists ds; split; [done|]; by split|].
  apply Forall_cons in Hf as [[H0 Hi] Hf]. rewrite generateDataset_cons.
  destruct (storeItem_ok ds i) as (d1 & -> & Hl & E1); [lia..|].
  rewrite u32_small in E1 by lia. replace (i * 64 / 4) with (16 * i) in E1
    by (replace (i * 64) with (16 * i * 4) by lia; by rewrite Z.div_mul).
  destruct (IH d1) as (d2 & E & Hl2 & E2); [lia|by rewrite Hl|].
  exists d2. split; [done|]. split; [lia|]. intros j k Hk. rewrite (E2 j k Hk), E1.
  destruct (decide (i = Z.of_nat j)) as [->|Hne].
  - rewrite (bool_decide_true (16 * _ <= _ < _)) by lia.
    rewrite (bool_decide_true (_ ∈ _ :: _)) by (by left).
    replace (16 * j + k - Z.to_nat (16 * Z.of_nat j))%nat with k by lia. by case_bool_decide.
  - rewrite (bool_decide_false (16 * _ <= _ < _)) by lia.
    assert (bool_decide (Z.of_nat j ∈ i :: l) = bool_decide (Z.of_nat j ∈ l)) as ->; [|done].
    apply bool_decide_ext. rewrite elem_of_cons. split; [intros [?|?]; congruence|by right].
Qed.

(** Beyond 2^32 bytes nothing is ever written. *)
Lemma generateDataset_beyond sched : forall ds,
  6400 <= 4 * zlen ds < 2 ^ 38 -> Forall (fun i => 0 <= i /\ 16 * i + 16 <= zlen ds) sched ->
  exists ds', generateDataset ds cache sched = Some ds' /\ zlen ds' = zlen ds /\
    forall i : nat, 2 ^ 30 <= Z.of_nat i -> ds' !! i = ds !! i.
Proof.
  induction sched as [|x l IH]; intros ds Hz Hf; [by exists ds|].
  apply Forall_cons in Hf as [[H0 Hi] Hf]. rewrite generateDataset_cons.
  destruct (storeItem_ok ds x) as (d1 & -> & Hl & E1); [lia..|].
  destruct (IH d1) as (d2 & E & Hl2 & E2); [lia|by rewrite Hl|].
  exists d2. split; [done|]. split; [lia|]. intros i Hi'. rewrite (E2 i Hi'), E1.
  assert (u32 (x * 64) / 4 + 16 <= 2 ^ 30).
  { unfold u32. change (2 ^ 32) with (2 ^ 26 * 64). rewrite Z.mul_mod_distr_r by lia.
    pose proof (Z.mod_pos_bound x (2 ^ 26) ltac:(lia)).
    replace (x mod 2 ^ 26 * 64) with (x mod 2 ^ 26 * 16 * 4) by lia. rewrite Z.div_mul by lia. lia. }
  by rewrite bool_decide_false by lia.
Qed.
End items.

(** Together the goroutines compute every item. *)
Lemma allItems_spec size threads i :
  0 < size < 2 ^ 37 -> 0 < threads <= 2 ^ 16 ->
  i ∈ allItems size threads <-> 0 <= i < size / 64.
Proof.
  intros Hs Ht. unfold allItems, segment, hashBytes.
  set (total := size / 64). set (batch := (size + 64 * threads - 1) / (64 * threads)).
  assert (0 <= total < 2 ^ 31) by (split; [apply Z.div_pos; lia|apply Z.div_lt_upper_bound; lia]).
  assert (0 < batch) as Hb by (apply Z.div_str_pos; lia).
  assert (64 * threads * batch <= size + 64 * threads - 1) as Hb1 by (apply Z.mul_div_le; lia).
  assert (size + 64 * threads - 1 < 64 * threads * batch + 64 * threads) as Hb2.
  { pose proof (Z.mul_succ_div_gt (size + 64 * threads - 1) (64 * threads) ltac:(lia)). unfold batch. lia. }
  assert (64 * total <= size < 64 * total + 64) as Ht2.
  { pose proof (Z.mul_div_le size 64 ltac:(lia)). pose proof (Z.mul_succ_div_gt size 64 ltac:(lia)).
    unfold total. lia. }
  assert (threads * batch <= total + threads) as Hb3 by nia.
  assert (total <= threads * batch) as Hb4 by nia.
  rewrite (u32_small batch), (u32_small total) by nia.
  rewrite list_elem_of_In, in_concat. setoid_rewrite in_map_iff.
  assert (forall id, 0 <= id < threads -> u32 (id * batch) = id * batch /\
    u32 (id * batch + batch) = id * batch + batch) as Hu.
  { intros id Hid. split; apply u32_small; nia. }
  split.
  - intros (l & (id & <- & Hid) & Hi). rewrite <- list_elem_of_In, elem_of_seqZ in Hid, Hi.
    destruct (Hu id ltac:(lia)) as [E1 E2]. rewrite E1, E2 in Hi.
    assert (0 <= id * batch) by (apply Z.mul_nonneg_nonneg; lia).
    destruct (Z.gtb_spec (id * batch + batch) total); lia.
  - intros Hi. exists (seqZ (u32 (i / batch * batch))
      ((if u32 (u32 (i / batch * batch) + batch) >? total then total else u32 (u32 (i / batch * batch) + batch))
       - u32 (i / batch * batch))).
    pose proof (Z.mul_div_le i batch ltac:(lia)). pose proof (Z.mul_succ_div_gt i batch ltac:(lia)).
    assert (0 <= i / batch) by (apply Z.div_pos; lia).
    assert (i / batch < threads) by (apply Z.div_lt_upper_bound; nia).
    split; [exists (i / batch); split; [done|]; rewrite <- list_elem_of_In, elem_of_seqZ; lia|].
    destruct (Hu (i / batch) ltac:(lia)) as [E1 E2]. rewrite E1, E2. rewrite <- list_elem_of_In, elem_of_seqZ.
    destruct (Z.gtb_spec (i / batch * batch + batch) total); lia.
Qed.

(** ** Lemmas: hashimoto *)

Lemma accessLoop_ext (f g : Z -> option (list Z)) rows head n :
  0 < rows < 2 ^ 31 -> (forall index, 0 <= index < 2 * rows -> f index = g index) ->
  forall i mix, accessLoop f rows head n i mix = accessLoop g rows head n i mix.
Proof.
  intros Hr Hfg. induction n as [|n IH]; intros i mix; cbn [accessLoop]; [done|].
  destruct (Prelude.index mix _) as [w|]; [|done]. cbn [mbind option_bind].
  pose proof (Z.mod_pos_bound (fnv (Z.lxor i head) w) rows ltac:(lia)) as Hp.
  revert Hp. generalize (fnv (Z.lxor i head) w mod rows) as p. intros p Hp.
  rewrite (u32_small (2 * p)), (u32_small (2 * p + 1)), !Hfg by lia.
  destruct (g (2 * p)); [|done]. cbn [mbind option_bind].
  destruct (g (2 * p + 1)); [|done]. cbn [mbind option_bind].
  destruct (fnvHash _ _); [|done]. cbn [mbind option_bind]. apply IH.
Qed.

Lemma accessLoop_total (f : Z -> option (list Z)) rows head n :
  0 < rows < 2 ^ 31 ->
  (forall index, 0 <= index < 2 * rows -> exists d, f index = Some d /\ length d = 16%nat) ->
  forall i mix, length mix = 32%nat ->
  exists r, accessLoop f rows head n i mix = Some r /\ length r = 32%nat.
Proof.
  intros Hr Hf. induction n as [|n IH]; intros i mix Hm; cbn [accessLoop]; [by exists mix|].
  assert (zlen mix = 32) as Hz by (unfold zlen; lia). rewrite Hz.
  pose proof (Z.mod_pos_bound i 32 ltac:(lia)). destruct (index_total mix (i mod 32)) as (w & ->); [lia|].
  cbn [mbind option_bind]. pose proof (Z.mod_pos_bound (fnv (Z.lxor i head) w) rows ltac:(lia)) as Hp.
  revert Hp. generalize (fnv (Z.lxor i head) w mod rows) as p. intros p Hp.
  rewrite (u32_small (2 * p)), (u32_small (2 * p + 1)) by lia.
  destruct (Hf (2 * p)) as (d0 & -> & H0); [lia|]. cbn [mbind option_bind].
  destruct (Hf (2 * p + 1)) as (d1 & -> & H1); [lia|]. cbn [mbind option_bind].
  destruct (fnvHash_total mix (splice (splice (replicate 32 0) 0 32 d0) hashWords 16 d1)) as (r & -> & Hr').
  { unfold splice. rewrite !length_app, !length_drop, !length_take, ?length_app, ?length_drop, ?length_take,
      ?length_replicate, H0, H1, Hm. unfold hashWords. cbn. lia. }
  cbn [mbind option_bind]. apply IH. lia.
Qed.
End pow.
