(* ===== verification/Ethash.v ===== *)
(** * consensus/ethash/consensus.go and consensus/misc: the rules of blocks

    The verification of headers, seals and uncles, the difficulty of a block,
    the rewards, and the rules of the DAO fork.  An error is a value of
    [headerErr]; [Ret None] is success ([nil]).  The clock is the argument
    [now].  What the engine reads of the chain is the class [ChainReader]
    (consensus/consensus.go); the verification caches, which ethash.go keeps in
    memory and in files, and the table of dataset sizes are the class [PowData]. *)

From Stdlib Require Import ZArith Lia Bool.
From S2P Require Import Prelude GoMath Rlp TrieHasher Params StateInterface World StateDB BlockTypes Hashimoto.
Local Open Scope Z_scope.
Local Open Scope go_scope.

Class ChainReader := {
  Config : ChainConfig;
  GetHeader : Hash -> Z -> option Header;
  GetBlock : Hash -> Z -> option Block
}.

Class PowData := {
  cacheOf : Z -> list Z;
  datasetSize : Z -> Z
}.

Definition FrontierBlockReward : Z := 5 * 10 ^ 18.
Definition ByzantiumBlockReward : Z := 3 * 10 ^ 18.
Definition maxUncles : nat := 2.
Definition allowedFutureBlockTime : Z := 15.
Definition maxUint256 : Z := 2 ^ 256.
Definition expDiffPeriod : Z := 100000.

Inductive headerErr :=
| ErrUnknownAncestor | ErrFutureBlock | ErrInvalidNumber
| errLargeBlockTime | errZeroBlockTime | errTooManyUncles | errDuplicateUncle | errUncleIsAncestor
| errDanglingUncle | errInvalidDifficulty | errInvalidMixDigest | errInvalidPoW
| errExtraTooLong | errWrongDifficulty | errGasLimitTooBig | errGasUsedTooBig | errGasLimitBounds
| ErrBadProDAOExtra | ErrBadNoDAOExtra | errForkHash.

#[export] Instance headerErr_eq_dec : EqDecision headerErr.
Proof. solve_decision. Defined.

Inductive Mode := ModeNormal | ModeShared | ModeTest | ModeFake | ModeFullFake.

#[export] Instance Mode_eq_dec : EqDecision Mode.
Proof. solve_decision. Defined.

(** The engine: its mode, the block number at which a fake seal fails, and the
    shared engine it delegates to. *)
#[local] Set Warnings "-register-all".
Inductive Ethash := mkEthash (PowMode : Mode) (fakeFail : Z) (shared : option Ethash).

Definition PowMode (e : Ethash) : Mode := match e with mkEthash m _ _ => m end.

(** ** The difficulty *)

(** [2^(periodCount - 2)], once the period count is above one. *)
Definition bomb (periodCount diff : Z) : Z :=
  if periodCount >? 1 then diff + 2 ^ (periodCount - 2) else diff.

Definition atLeastMinimum (x : Z) : Z := if x <? MinimumDifficulty then MinimumDifficulty else x.

Section rules.
Context {K : Sha3} {K5 : Sha3_512}.

Definition EmptyUncleHash : Hash := CalcUncleHash [].

Definition calcDifficultyByzantium (time : Z) (parent : Header) : Z :=
  let x := (time - h_Time parent) / 9 in
  let x := if h_UncleHash parent =? EmptyUncleHash then 1 - x else 2 - x in
  let x := if x <? -99 then -99 else x in
  let y := h_Difficulty parent / DifficultyBoundDivisor in
  let x := h_Difficulty parent + y * x in
  let x := atLeastMinimum x in
  let fakeBlockNumber := if h_Number parent >=? 2999999 then h_Number parent - 2999999 else 0 in
  bomb (fakeBlockNumber / expDiffPeriod) x.

Definition calcDifficultyHomestead (time : Z) (parent : Header) : Z :=
  let x := (time - h_Time parent) / 10 in
  let x := 1 - x in
  let x := if x <? -99 then -99 else x in
  let y := h_Difficulty parent / DifficultyBoundDivisor in
  let x := h_Difficulty parent + y * x in
  let x := atLeastMinimum x in
  bomb ((h_Number parent + 1) / expDiffPeriod) x.

Definition calcDifficultyFrontier (time : Z) (parent : Header) : Z :=
  let adjust := h_Difficulty parent / DifficultyBoundDivisor in
  let diff := if time - h_Time parent <? DurationLimit then h_Difficulty parent + adjust
              else h_Difficulty parent - adjust in
  let diff := atLeastMinimum diff in
  let periodCount := (h_Number parent + 1) / expDiffPeriod in
  if periodCount >? 1 then Z.max (diff + 2 ^ (periodCount - 2)) MinimumDifficulty else diff.

Definition CalcDifficulty (config : ChainConfig) (time : Z) (parent : Header) : Z :=
  let next := h_Number parent + 1 in
  if IsByzantium config next then calcDifficultyByzantium time parent
  else if IsHomestead config next then calcDifficultyHomestead time parent
  else calcDifficultyFrontier time parent.

(** ** consensus/misc *)

Definition VerifyDAOHeaderExtraData (config : ChainConfig) (header : Header) : option headerErr :=
  match DAOForkBlock config with
  | None => None
  | Some fork =>
      let limit := fork + DAOForkExtraRange in
      if (h_Number header <? fork) || (h_Number header >=? limit) then None
      else if DAOForkSupport config then
        if bool_decide (h_Extra header = DAOForkBlockExtra) then None else Some ErrBadProDAOExtra
      else
        if bool_decide (h_Extra header = DAOForkBlockExtra) then Some ErrBadNoDAOExtra else None
  end.

Definition VerifyForkHashes (config : ChainConfig) (header : Header) (uncle : bool) : option headerErr :=
  if uncle then None
  else
    match EIP150Block config with
    | Some b =>
        if (b =? h_Number header) &&
           (negb (EIP150Hash config =? 0) && negb (EIP150Hash config =? Header_Hash header))
        then Some errForkHash else None
    | None => None
    end.

(** ** Seals *)

Section engine.
Context {D : PowData}.

Fixpoint VerifySeal (ethash : Ethash) (header : Header) : outcome (option headerErr) :=
  match ethash with
  | mkEthash mode fakeFail shared =>
      if bool_decide (mode = ModeFake) || bool_decide (mode = ModeFullFake) then
        Ret (if fakeFail =? u64 (h_Number header) then Some errInvalidPoW else None)
      else
        match shared with
        | Some e => VerifySeal e header
        | None =>
            if h_Difficulty header <=? 0 then Ret (Some errInvalidDifficulty)
            else
              let number := u64 (h_Number header) in
              let size := if bool_decide (mode = ModeTest) then 32 * 1024 else datasetSize number in
              match hashimotoLight size (cacheOf number) (be_bytes 32 (HashNoNonce header)) (h_Nonce header) with
              | None => Panic
              | Some (digest, result) =>
                  if negb (bool_decide (be_bytes 32 (h_MixDigest header) = digest))
                  then Ret (Some errInvalidMixDigest)
                  else
                    let target := maxUint256 / h_Difficulty header in
                    Ret (if SetBytes result >? target then Some errInvalidPoW else None)
              end
        end
  end.

(** ** Headers *)

Definition verifyHeader (ethash : Ethash) (config : ChainConfig) (now : Z) (header parent : Header)
    (uncle seal : bool) : outcome (option headerErr) :=
  if zlen (h_Extra header) >? MaximumExtraDataSize then Ret (Some errExtraTooLong)
  else if uncle && (h_Time header >? 2 ^ 256 - 1) then Ret (Some errLargeBlockTime)
  else if negb uncle && (h_Time header >? now + allowedFutureBlockTime) then Ret (Some ErrFutureBlock)
  else if h_Time header <=? h_Time parent then Ret (Some errZeroBlockTime)
  else
    let expected := CalcDifficulty config (u64 (h_Time header)) parent in
    if negb (expected =? h_Difficulty header) then Ret (Some errWrongDifficulty)
    else if h_GasLimit header >? 2 ^ 63 - 1 then Ret (Some errGasLimitTooBig)
    else if h_GasUsed header >? h_GasLimit header then Ret (Some errGasUsedTooBig)
    else
      let diff := i64 (i64 (h_GasLimit parent) - i64 (h_GasLimit header)) in
      let diff := if diff <? 0 then i64 (diff * -1) else diff in
      let limit := h_GasLimit parent / GasLimitBoundDivisor in
      if (u64 diff >=? limit) || (h_GasLimit header <? MinGasLimit) then Ret (Some errGasLimitBounds)
      else if negb (h_Number header - h_Number parent =? 1) then Ret (Some ErrInvalidNumber)
      else
        let rest :=
          match VerifyDAOHeaderExtraData config header with
          | Some e => Some e
          | None => VerifyForkHashes config header uncle
          end in
        if seal then
          match VerifySeal ethash header with
          | Ret None => Ret rest
          | r => r
          end
        else Ret rest.

Context {chain : ChainReader}.

Definition VerifyHeader (ethash : Ethash) (now : Z) (header : Header) (seal : bool) : outcome (option headerErr) :=
  if bool_decide (PowMode ethash = ModeFullFake) then Ret None
  else
    let number := u64 (h_Number header) in
    match GetHeader (Header_Hash header) number with
    | Some _ => Ret None
    | None =>
        match GetHeader (h_ParentHash header) (u64 (number - 1)) with
        | None => Ret (Some ErrUnknownAncestor)
        | Some parent => verifyHeader ethash Config now header parent false seal
        end
    end.

Definition verifyHeaderWorker (ethash : Ethash) (now : Z) (headers : list Header) (seals : list bool)
    (index : nat) : outcome (option headerErr) :=
  match headers !! index, seals !! index with
  | Some header, Some seal =>
      let parent :=
        match index with
        | O => GetHeader (h_ParentHash header) (u64 (u64 (h_Number header) - 1))
        | S prev =>
            match headers !! prev with
            | Some p => if Header_Hash p =? h_ParentHash header then Some p else None
            | None => None
            end
        end in
      match parent with
      | None => Ret (Some ErrUnknownAncestor)
      | Some parent =>
          match GetHeader (Header_Hash header) (u64 (h_Number header)) with
          | Some _ => Ret None
          | None => verifyHeader ethash Config now header parent false seal
          end
      end
  | _, _ => Panic
  end.

(** ** Uncles *)

(** The loop over the last [n] ancestors. *)
Fixpoint gatherAncestors (n : nat) (parent : Hash) (number : Z) (uncles : gset Hash)
    (ancestors : gmap Hash Header) : gset Hash * gmap Hash Header :=
  match n with
  | O => (uncles, ancestors)
  | S n =>
      match GetBlock parent number with
      | None => (uncles, ancestors)
      | Some ancestor =>
          let ancestors := <[Block_Hash ancestor := b_header ancestor]> ancestors in
          let uncles := foldl (fun s u => {[Header_Hash u]} ∪ s) uncles (b_uncles ancestor) in
          gatherAncestors n (Block_ParentHash ancestor) (u64 (number - 1)) uncles ancestors
      end
  end.

Fixpoint checkUncles (ethash : Ethash) (now : Z) (block : Block) (ancestors : gmap Hash Header)
    (uncles : gset Hash) (l : list Header) : outcome (option headerErr) :=
  match l with
  | [] => Ret None
  | uncle :: l =>
      let hash := Header_Hash uncle in
      if bool_decide (hash ∈ uncles) then Ret (Some errDuplicateUncle)
      else
        let uncles := {[hash]} ∪ uncles in
        if bool_decide (is_Some (ancestors !! hash)) then Ret (Some errUncleIsAncestor)
        else
          match ancestors !! h_ParentHash uncle with
          | None => Ret (Some errDanglingUncle)
          | Some parent =>
              if h_ParentHash uncle =? Block_ParentHash block then Ret (Some errDanglingUncle)
              else
                match verifyHeader ethash Config now uncle parent true true with
                | Ret None => checkUncles ethash now block ancestors uncles l
                | r => r
                end
          end
  end.

Definition VerifyUncles (ethash : Ethash) (now : Z) (block : Block) : outcome (option headerErr) :=
  if bool_decide (PowMode ethash = ModeFullFake) then Ret None
  else if (maxUncles <? length (b_uncles block))%nat then Ret (Some errTooManyUncles)
  else
    let '(uncles, ancestors) := gatherAncestors 7 (Block_ParentHash block) (u64 (NumberU64 block - 1)) ∅ ∅ in
    let ancestors := <[Block_Hash block := b_header block]> ancestors in
    let uncles := {[Block_Hash block]} ∪ uncles in
    checkUncles ethash now block ancestors uncles (b_uncles block).

(** The difficulty is written into the header. *)
Definition Prepare (header : Header) : option headerErr * Header :=
  match GetHeader (h_ParentHash header) (u64 (u64 (h_Number header) - 1)) with
  | None => (Some ErrUnknownAncestor, header)
  | Some parent => (None, set_Difficulty (CalcDifficulty Config (u64 (h_Time header)) parent) header)
  end.
End engine.
End rules.

(** ** Rewards *)

Section state.
Context {C : Crypto} {S : Type} {DB : StateDB S}.

Fixpoint uncleRewards (blockReward : Z) (header : Header) (uncles : list Header) (reward : Z) : M S Z :=
  match uncles with
  | [] => ret reward
  | uncle :: uncles =>
      let r := h_Number uncle + 8 in
      let r := r - h_Number header in
      let r := r * blockReward in
      let r := r / 8 in
      AddBalance (h_Coinbase uncle) r ;;
      uncleRewards blockReward header uncles (reward + blockReward / 32)
  end.

Definition blockRewardOf (config : ChainConfig) (header : Header) : Z :=
  if IsByzantium config (h_Number header) then ByzantiumBlockReward else FrontierBlockReward.

Definition accumulateRewards (config : ChainConfig) (header : Header) (uncles : list Header) : M S unit :=
  let blockReward := blockRewardOf config header in
  let* reward := uncleRewards blockReward header uncles blockReward in
  AddBalance (h_Coinbase header) reward.
End state.

(** ** The DAO fork *)

Section dao.
Context {C : Crypto} {DBase : Database}.

Fixpoint drain (l : list Address) : M stateDB unit :=
  match l with
  | [] => ret tt
  | addr :: l =>
      let* b := State.GetBalance addr in
      State.AddBalance DAORefundContract b ;;
      State.SetBalance addr 0 ;;
      drain l
  end.

Definition ApplyDAOHardFork : M stateDB unit :=
  let* e := State.Exist DAORefundContract in
  (if negb e then State.CreateAccount DAORefundContract else ret tt) ;;
  drain DAODrainList.
End dao.
