(* ===== verification/HeaderPipeline.v ===== *)
(** * Ethash.VerifyHeaders: verification of a batch by goroutines

    [consensus/ethash/consensus.go]: a coordinator hands the indices of the
    headers to workers over an unbuffered channel, collects the indices they
    have finished from the channel [done], whose buffer has a place per worker,
    and sends the results in the order of the input to a channel with room for
    all of them.  The goroutines interleave freely: a run is a sequence of
    steps of the relation [pstep].  Closing the channel [abort] stops the
    coordinator; when it stops, it closes the channel of the inputs. *)

From Stdlib Require Import ZArith Lia Bool.
From stdpp Require Import relations.
From S2P Require Import Prelude.
Local Open Scope nat_scope.

(** Where a worker is: waiting for an index, verifying, sending to [done], or
    returned. *)
Inductive worker := Waiting | Verifying (index : nat) | Sending (index : nat) | Returned.

#[export] Instance worker_eq_dec : EqDecision worker.
Proof. solve_decision. Defined.

Section pipeline.
Context {E : Type}.
(** The number of headers, and what [verifyHeaderWorker] returns for each. *)
Variable n : nat.
Variable verify : nat -> E.
(** The zero value of an error. *)
Variable nilError : E.

Record pipeline := mkPipeline {
  p_in : nat;
  p_out : nat;
  p_checked : gset nat;
  p_errors : gmap nat E;
  p_workers : list worker;
  p_done : list nat;
  p_errorsOut : list E;
  p_stopped : bool;
  p_aborted : bool
}.

(** All slices are allocated and the workers started. *)
Definition startPipeline (workers : nat) : pipeline :=
  mkPipeline 0 0 ∅ ∅ (replicate workers Waiting) [] [] false false.

(** The loop that sends what is ready, from [out] on; [k] bounds what is left.
    The result says whether the last header was reached, which returns. *)
Fixpoint flush (k : nat) (checked : gset nat) (errors : gmap nat E) (out : nat) (sent : list E) :
    nat * list E * bool :=
  match k with
  | O => (out, sent, false)
  | S k =>
      if bool_decide (out ∈ checked) then
        let sent := sent ++ [default nilError (errors !! out)] in
        if out =? n - 1 then (out, sent, true) else flush k checked errors (S out) sent
      else (out, sent, false)
  end.

Inductive pstep : pipeline -> pipeline -> Prop :=
| step_send i out checked errors ws w dn eo ab :
    i < n -> ws !! w = Some Waiting ->
    pstep (mkPipeline i out checked errors ws dn eo false ab)
          (mkPipeline (S i) out checked errors (<[w := Verifying i]> ws) dn eo false ab)
| step_verify i out checked errors ws w k dn eo st ab :
    ws !! w = Some (Verifying k) ->
    pstep (mkPipeline i out checked errors ws dn eo st ab)
          (mkPipeline i out checked (<[k := verify k]> errors) (<[w := Sending k]> ws) dn eo st ab)
| step_done i out checked errors ws w k dn eo st ab :
    ws !! w = Some (Sending k) -> length dn < length ws ->
    pstep (mkPipeline i out checked errors ws dn eo st ab)
          (mkPipeline i out checked errors (<[w := Waiting]> ws) (dn ++ [k]) eo st ab)
| step_collect i out checked errors ws k dn eo ab out' eo' fin :
    flush (n - out) ({[k]} ∪ checked) errors out eo = (out', eo', fin) ->
    pstep (mkPipeline i out checked errors ws (k :: dn) eo false ab)
          (mkPipeline i out' ({[k]} ∪ checked) errors ws dn eo' fin ab)
| step_abort i out checked errors ws dn eo :
    pstep (mkPipeline i out checked errors ws dn eo false false)
          (mkPipeline i out checked errors ws dn eo true true)
| step_exit i out checked errors ws w dn eo ab :
    ws !! w = Some Waiting ->
    pstep (mkPipeline i out checked errors ws dn eo true ab)
          (mkPipeline i out checked errors (<[w := Returned]> ws) dn eo true ab).

Definition results : list E := map verify (seq 0 n).

(** ** The invariant *)

(** The index a worker holds. *)
Definition held (w : worker) : list nat :=
  match w with Verifying k | Sending k => [k] | _ => [] end.

Definition holding (ws : list worker) : list nat := concat (map held ws).

(** Every index handed out is with a worker, in [done], or checked. *)
Record pinv (workers : nat) (s : pipeline) : Prop := {
  pi_workers : length (p_workers s) = workers;
  pi_done : length (p_done s) <= workers;
  pi_in : p_in s <= n;
  pi_split : holding (p_workers s) ++ p_done s ++ elements (p_checked s) ≡ₚ seq 0 (p_in s);
  pi_errors : forall k, k ∈ p_done s ++ elements (p_checked s) \/ Sending k ∈ p_workers s ->
    p_errors s !! k = Some (verify k);
  pi_sent : p_errorsOut s = take (length (p_errorsOut s)) results;
  pi_running : p_stopped s = false -> length (p_errorsOut s) = p_out s /\ p_out s < n /\
    (p_out s ∉ p_checked s) /\ Returned ∉ p_workers s;
  pi_before : forall k, k < p_out s -> k ∈ p_checked s;
  pi_finished : p_stopped s = true -> p_aborted s = false -> p_errorsOut s = results
    /\ holding (p_workers s) = [] /\ p_done s = []
}.

(** ** Lemmas *)

Lemma holding_insert ws w x y :
  ws !! w = Some y -> held y ++ holding (<[w := x]> ws) ≡ₚ held x ++ holding ws.
Proof.
  revert w. induction ws as [|v ws IH]; intros [|w] Hw; try done.
  - injection Hw as ->. change (held y ++ held x ++ holding ws ≡ₚ held x ++ held y ++ holding ws).
    by rewrite !app_assoc, (Permutation_app_comm (held y)).
  - change (held y ++ held v ++ holding (<[w := x]> ws) ≡ₚ held x ++ held v ++ holding ws).
    rewrite !app_assoc, (Permutation_app_comm (held y)), (Permutation_app_comm (held x)), <- !app_assoc.
    by rewrite (IH w).
Qed.

Lemma elem_insert {A} (l : list A) i x y z :
  l !! i = Some x -> z ∈ <[i := y]> l -> z = y \/ z ∈ l.
Proof.
  intros Hi Hz. apply list_elem_of_lookup in Hz as [j Hj].
  destruct (decide (i = j)) as [->|Hne].
  - rewrite list_lookup_insert_eq in Hj by (by eapply lookup_lt_Some). left. congruence.
  - rewrite list_lookup_insert_ne in Hj by done. right. by eapply list_elem_of_lookup_2.
Qed.

Lemma holding_nil ws k : holding ws = [] -> (Verifying k ∉ ws) /\ Sending k ∉ ws.
Proof.
  intros Hh. split; intros Hin; apply list_elem_of_split in Hin as (l1 & l2 & ->);
    unfold holding in Hh; rewrite map_app, concat_app in Hh; apply app_nil in Hh as [_ Hh]; done.
Qed.

(** What the loop sends: the results from [out] on, as far as they are there. *)
Lemma flush_spec checked errors k : forall out sent out' sent' fin,
  (forall j, j ∈ checked -> errors !! j = Some (verify j)) -> k = n - out -> out < n ->
  flush k checked errors out sent = (out', sent', fin) ->
  sent' = sent ++ map verify (seq out (length sent' - length sent)) /\
  out <= out' < n /\ (forall j, out <= j < out' -> j ∈ checked) /\
  (if fin then out' = n - 1 /\ out' ∈ checked /\ length sent' = length sent + (n - out)
   else (out' ∉ checked) /\ length sent' = length sent + (out' - out)).
Proof.
  induction k as [|k IH]; intros out sent out' sent' fin He Hk Hn Hf; [lia|]. cbn [flush] in Hf.
  case_bool_decide as Hc.
  - rewrite (He _ Hc) in Hf. cbn [default] in Hf. destruct (Nat.eqb_spec out (n - 1)) as [E1|E1].
    + injection Hf as <- <- <-. rewrite length_app. cbn [length].
      replace (length sent + 1 - length sent) with 1 by lia.
      split; [done|]. split; [lia|]. split; [intros j Hj; lia|]. split; [done|]. split; [done|]. lia.
    + apply IH in Hf as (E2 & Ho & Hj & Hfin); [|done|lia|lia]. rewrite length_app in *. cbn [length] in *.
      split; [|split; [lia|]; split].
      * rewrite E2 at 1. rewrite <- app_assoc. f_equal. cbn [app].
        destruct fin; destruct_and!; replace (length sent' - length sent) with
          (S (length sent' - (length sent + 1))) by lia; done.
      * intros j Hj'. destruct (Nat.eq_dec j out) as [->|]; [done|]. apply Hj. lia.
      * destruct fin; destruct_and!; repeat split; try done; lia.
  - injection Hf as <- <- <-. rewrite Nat.sub_diag. cbn [map seq]. rewrite app_nil_r.
    split; [done|]. split; [lia|]. split; [intros j Hj; lia|]. split; [done|lia].
Qed.

Lemma take_results a m : take a results ++ map verify (seq a m) = take (a + m) results \/ n < a + m.
Proof.
  destruct (Nat.le_gt_cases (a + m) n) as [Hle|]; [left|by right]. unfold results.
  replace n with (a + (m + (n - (a + m)))) by lia. rewrite !seq_app, !map_app.
  rewrite take_app_length' by (by rewrite length_map, length_seq).
  rewrite app_assoc, take_app_length' by (by rewrite length_app, !length_map, !length_seq). done.
Qed.

Lemma start_inv workers : 0 < n -> pinv workers (startPipeline workers).
Proof.
  intros Hn. assert (holding (replicate workers Waiting) = []) as Hh.
  { unfold holding. by induction workers. }
  split; cbn [startPipeline p_in p_out p_checked p_errors p_workers p_done p_errorsOut p_stopped p_aborted]; try done; try (cbn; lia).
  - apply length_replicate.
  - rewrite Hh, elements_empty. done.
  - intros k [Hk|Hk]; [by rewrite elements_empty, elem_of_nil in Hk|].
    by apply elem_of_replicate_inv in Hk.
  - intros _. split; [done|]. split; [done|]. split; [set_solver|].
    intros Hk. by apply elem_of_replicate_inv in Hk.
Qed.

Ltac pcbn := cbn [p_in p_out p_checked p_errors p_workers p_done p_errorsOut p_stopped p_aborted] in *.

(** Collecting a finished index: results are sent as far as they are there. *)
Lemma collect_inv workers i out checked errors ws k dn eo ab out' eo' fin :
  pinv workers (mkPipeline i out checked errors ws (k :: dn) eo false ab) ->
  flush (n - out) ({[k]} ∪ checked) errors out eo = (out', eo', fin) ->
  pinv workers (mkPipeline i out' ({[k]} ∪ checked) errors ws dn eo' fin ab).
Proof.
  intros [Hw Hd Hin Hsp He Hse Hr Hb Hf] H. pcbn.
  assert (NoDup (holding ws ++ (k :: dn) ++ elements checked)) as Hnd.
  { rewrite Hsp. apply NoDup_seq. }
  assert (k ∉ checked) as Hk.
  { apply NoDup_app in Hnd as (_ & _ & Hnd). apply NoDup_app in Hnd as (_ & Hnd & _).
    intros Hx. apply (Hnd k); [by left|by apply elem_of_elements]. }
  assert (holding ws ++ dn ++ elements ({[k]} ∪ checked) ≡ₚ seq 0 i) as Hsp'.
  { rewrite elements_union_singleton by done. rewrite <- Hsp. cbn [app].
    by rewrite app_assoc, <- !Permutation_middle, <- app_assoc. }
  assert (forall j, j ∈ {[k]} ∪ checked -> errors !! j = Some (verify j)) as Hc.
  { intros j Hj. apply He. left. apply elem_of_app. apply elem_of_union in Hj as [Hj|Hj].
    - apply elem_of_singleton in Hj as ->. left. by left.
    - right. by apply elem_of_elements. }
  destruct (Hr eq_refl) as (Hlen & Ho & Hno & Hret).
  destruct (flush_spec _ _ _ _ _ _ _ _ Hc eq_refl Ho H) as (Es & Hout & Hbetween & Hfin).
  assert (forall j, j < out' -> j ∈ {[k]} ∪ checked) as Hall.
  { intros j Hj. destruct (decide (j < out)); [apply elem_of_union_r; by apply Hb|apply Hbetween; lia]. }
  assert (length eo' = out + (length eo' - length eo) /\ length eo' <= n) as [El Eln].
  { destruct fin; destruct_and!; lia. }
  assert (eo' = take (length eo') results) as Htake.
  { rewrite Hlen in *. rewrite Hse in Es. destruct (take_results out (length eo' - out)) as [E1|E1]; [|lia].
    rewrite E1, <- El in Es. exact Es. }
  split; pcbn; try done; [cbn in Hd; lia|..].
  - intros j [Hj|Hj]; [|by apply He; right]. apply elem_of_app in Hj as [Hj|Hj].
    + apply He. left. apply elem_of_app. left. by right.
    + by apply Hc, elem_of_elements.
  - intros ->. destruct Hfin as [H1 H2]. repeat split; try done; lia.
  - intros -> _. destruct Hfin as (H1 & H2 & H3).
    assert (eo' = results) as Hres.
    { rewrite Htake, take_ge; [done|]. unfold results. rewrite length_map, length_seq. lia. }
    assert (n <= length (elements ({[k]} ∪ checked))) as Hsz.
    { rewrite <- (length_seq n 0) at 1. apply submseteq_length, NoDup_submseteq; [apply NoDup_seq|].
      intros j Hj. apply elem_of_seq in Hj. apply elem_of_elements.
      destruct (decide (j < out')); [by apply Hall|]. by replace j with out' by lia. }
    apply Permutation_length in Hsp'. rewrite !length_app, length_seq in Hsp'.
    split; [done|]. split; apply nil_length_inv; lia.
Qed.

(** No step loses an index or sends a result out of order. *)
Lemma pstep_inv workers s s' : pinv workers s -> pstep s s' -> pinv workers s'.
Proof.
  intros Hi Hs. destruct Hi as [Hw Hd Hin Hsp He Hse Hr Hb Hf]. destruct Hs; pcbn.
  - (* send *)
    pose proof (holding_insert ws w (Verifying i) Waiting H0) as Hh. cbn [held app] in Hh.
    split; pcbn; rewrite ?length_insert; try done.
    + rewrite Hh, seq_S, <- Hsp. cbn. apply Permutation_cons_append.
    + intros k [Hk|Hk]; apply He; [by left|right].
      by destruct (elem_insert _ _ _ _ _ H0 Hk).
    + intros _. destruct (Hr eq_refl) as (H1 & H2 & H3 & H4). repeat split; try done.
      intros Hk. by destruct (elem_insert _ _ _ _ _ H0 Hk).
  - (* verify *)
    pose proof (holding_insert ws w (Sending k) (Verifying k) H) as Hh. cbn [held app] in Hh.
    apply Permutation.Permutation_cons_inv in Hh.
    split; pcbn; rewrite ?length_insert; try done.
    + by rewrite Hh.
    + intros j Hj. destruct (decide (k = j)) as [->|Hne]; [apply lookup_insert_eq|].
      rewrite lookup_insert_ne by done. apply He. destruct Hj as [Hj|Hj]; [by left|right].
      destruct (elem_insert _ _ _ _ _ H Hj) as [Hx|]; [congruence|done].
    + intros Hst. destruct (Hr Hst) as (H1 & H2 & H3 & H4). repeat split; try done.
      intros Hk. by destruct (elem_insert _ _ _ _ _ H Hk).
    + intros Hst Hab. destruct (Hf Hst Hab) as (H1 & H2 & H3).
      destruct (holding_nil _ k H2) as [Hv _]. destruct Hv. by eapply list_elem_of_lookup_2.
  - (* done *)
    pose proof (holding_insert ws w Waiting (Sending k) H) as Hh. cbn [held app] in Hh.
    split; pcbn; rewrite ?length_insert, ?length_app; cbn [length]; try done; try lia.
    + rewrite <- Hsp, <- Hh, <- app_assoc. cbn [app].
      by rewrite app_assoc, <- Permutation_middle, <- app_assoc.
    + intros j Hj. apply He. destruct Hj as [Hj|Hj].
      * rewrite <- app_assoc in Hj. apply elem_of_app in Hj as [Hj|Hj]; [left; by apply elem_of_app; left|].
        cbn [app] in Hj. apply elem_of_cons in Hj as [->|Hj]; [|left; by apply elem_of_app; right].
        right. by eapply list_elem_of_lookup_2.
      * right. by destruct (elem_insert _ _ _ _ _ H Hj).
    + intros Hst. destruct (Hr Hst) as (H1 & H2 & H3 & H4). repeat split; try done.
      intros Hk. by destruct (elem_insert _ _ _ _ _ H Hk).
    + intros Hst Hab. destruct (Hf Hst Hab) as (H1 & H2 & H3).
      destruct (holding_nil _ k H2) as [_ Hv]. destruct Hv. by eapply list_elem_of_lookup_2.
  - (* collect *) eapply collect_inv; [|done]. by split.
  - (* abort *) split; pcbn; done.
  - (* exit *)
    pose proof (holding_insert ws w Returned Waiting H) as Hh. cbn [held app] in Hh.
    split; pcbn; rewrite ?length_insert; try done.
    + by rewrite Hh.
    + intros j [Hj|Hj]; apply He; [by left|right]. by destruct (elem_insert _ _ _ _ _ H Hj).
    + intros Hst Hab. destruct (Hf Hst Hab) as (H1 & H2 & H3). split; [done|]. split; [|done].
      rewrite H2 in Hh. by apply Permutation_nil_r in Hh.
Qed.

Lemma reachable_inv workers s : 0 < n -> rtc pstep (startPipeline workers) s -> pinv workers s.
Proof.
  intros Hn Hs. pose proof (start_inv workers Hn) as Hi. revert Hi.
  induction Hs as [|s1 s2 s3 H12 _ IH]; [done|]. intros Hi. by apply IH, (pstep_inv workers s1).
Qed.

(** ** Termination *)

Definition weight (w : worker) : nat :=
  match w with Returned => 0 | Waiting => 1 | Sending _ => 3 | Verifying _ => 4 end.

Definition weights (ws : list worker) : nat := sum_list_with weight ws.

Lemma weights_insert ws w x y :
  ws !! w = Some y -> weights (<[w := x]> ws) + weight y = weights ws + weight x.
Proof.
  revert w. induction ws as [|v ws IH]; intros [|w] Hw; try done.
  - injection Hw as ->. cbn. lia.
  - specialize (IH w Hw). change (weight v + weights (<[w := x]> ws) + weight y = weight v + weights ws + weight x). lia.
Qed.

Definition work (s : pipeline) : nat :=
  4 * (n - p_in s) + weights (p_workers s) + length (p_done s) + (if p_stopped s then 0 else 1).

Lemma pstep_work s s' : pstep s s' -> work s' < work s.
Proof.
  intros Hs. unfold work. destruct Hs; pcbn; rewrite ?length_app; cbn [length];
    try (match goal with Hw : _ !! ?w = Some ?y |- context [<[?w := ?x]> ?ws] =>
           pose proof (weights_insert ws w x y Hw) as Hx; cbn [weight] in Hx end);
    try destruct fin; try destruct st; lia.
Qed.

(** Every run ends. *)
Lemma pipeline_sn s : sn pstep s.
Proof.
  induction s as [s IH] using (well_founded_induction (Wf_nat.well_founded_ltof _ work)).
  constructor. intros s' Hs. apply IH. by apply pstep_work.
Qed.

(** Where a run without an abort ends, everything has been sent and every
    worker has returned. *)
Lemma pipeline_end workers s :
  0 < workers -> pinv workers s -> nf pstep s -> p_aborted s = false ->
  p_errorsOut s = results /\ Forall (eq Returned) (p_workers s).
Proof.
  intros Hw Hi Hnf Hab. destruct Hi as [Hlw Hd Hin Hsp He Hse Hr Hb Hf].
  destruct s as [i out checked errors ws dn eo st ab]. pcbn. subst ab.
  assert (forall w x, ws !! w = Some x -> match x with Verifying _ => False | _ => True end) as Hv.
  { intros w [|k|k|] Hx; try done. apply Hnf. eexists. by apply (step_verify i out checked errors ws w k). }
  destruct st.
  - destruct (Hf eq_refl eq_refl) as (-> & Hh & ->). split; [done|]. apply Forall_lookup. intros w x Hx.
    destruct x as [|k|k|]; [|by destruct (Hv _ _ Hx)| |done].
    + destruct Hnf. eexists. by eapply step_exit.
    + destruct (holding_nil ws k Hh) as [_ Hs]. destruct Hs. by eapply list_elem_of_lookup_2.
  - destruct (Hr eq_refl) as (_ & Ho & Hno & Hret). exfalso.
    destruct dn as [|k dn].
    2:{ apply Hnf. destruct (flush (n - out) ({[k]} ∪ checked) errors out eo) as [[o e] f] eqn:Ef.
        eexists. by eapply step_collect. }
    assert (forall w x, ws !! w = Some x -> x = Waiting) as Hall.
    { intros w [|k|k|] Hx; [done|by destruct (Hv _ _ Hx)| |].
      - destruct Hnf. eexists. eapply step_done; [done|]. cbn. lia.
      - destruct Hret. by eapply list_elem_of_lookup_2. }
    assert (holding ws = []) as Hh.
    { clear - Hall. unfold holding. induction ws as [|x ws IH]; [done|]. cbn.
      rewrite (Hall 0 x eq_refl). apply IH. intros w y Hy. by apply (Hall (S w)). }
    destruct (lookup_lt_is_Some_2 ws 0) as [x Hx]; [lia|].
    destruct (decide (i < n)) as [Hlt|Hge].
    + apply Hnf. eexists. apply (step_send i out checked errors ws 0); [done|]. by rewrite Hx, (Hall _ _ Hx).
    + apply Hno. rewrite Hh in Hsp. cbn [app] in Hsp. apply elem_of_elements. rewrite Hsp.
      apply elem_of_seq. lia.
Qed.
End pipeline.
