(* ===== verification/TxSigning.v ===== *)
(** * core/types/transaction_signing.go: who signed a transaction

    The three signers, the address their [Sender] recovers from the signature
    values of a transaction, the cache in the transaction, and the values a
    signature is stored as.  [crypto.Sign] is an argument and [crypto.Ecrecover]
    a member of [Crypto]; the check of the values is [ValidateSignatureValues].
    [None] is a panic. *)

From Stdlib Require Import ZArith Lia Bool.
From S2P Require Import Prelude GoMath TrieHasher Params StateInterface Precompiles BlockTypes.
Local Open Scope Z_scope.

(** ** The signers *)

Inductive Signer :=
| EIP155Signer (chainId chainIdMul : Z)
| HomesteadSigner
| FrontierSigner.

Inductive sigErr := ErrInvalidSig | ErrInvalidChainId | ErrRecover | ErrInvalidPublicKey.

Definition NewEIP155Signer (chainId : option Z) : Signer :=
  let chainId := match chainId with None => 0 | Some c => c end in
  EIP155Signer chainId (chainId * 2).

Definition MakeSigner (config : ChainConfig) (blockNumber : Z) : Signer :=
  if IsEIP155 config blockNumber then NewEIP155Signer (ChainID config)
  else if IsHomestead config blockNumber then HomesteadSigner
  else FrontierSigner.

Definition signer_Equal (s s2 : Signer) : bool :=
  match s, s2 with
  | EIP155Signer chainId _, EIP155Signer chainId2 _ => chainId2 =? chainId
  | HomesteadSigner, HomesteadSigner => true
  | FrontierSigner, FrontierSigner => true
  | _, _ => false
  end.

(** ** The chain a transaction is signed for *)

Definition isProtectedV (V : Z) : bool :=
  if BitLen V <=? 8 then
    let v := Uint64 V in negb (v =? 27) && negb (v =? 28)
  else true.

Definition deriveChainId (v : Z) : Z :=
  if BitLen v <=? 64 then
    let v := Uint64 v in
    if (v =? 27) || (v =? 28) then 0 else u64 (v - 35) / 2
  else (v - 35) / 2.

Definition Protected (tx : Transaction) : bool := isProtectedV (tx_V tx).
Definition ChainId (tx : Transaction) : Z := deriveChainId (tx_V tx).

(** ** Signing *)

Definition signature_values (sig : list byte) : option (Z * Z * Z) :=
  if negb (zlen sig =? 65) then None
  else
    match slice sig 0 32, slice sig 32 64, index sig 64 with
    | Some r, Some s, Some v => Some (SetBytes r, SetBytes s, (byteZ v + 27) mod 256)
    | _, _, _ => None
    end.

Definition SignatureValues (s : Signer) (sig : list byte) : option (Z * Z * Z) :=
  match s with
  | EIP155Signer chainId chainIdMul =>
      match signature_values sig with
      | None => None
      | Some (R, S_, V) =>
          if negb (Z.sgn chainId =? 0) then
            match index sig 64 with
            | None => None
            | Some v => Some (R, S_, (byteZ v + 35) mod 256 + chainIdMul)
            end
          else Some (R, S_, V)
      end
  | HomesteadSigner | FrontierSigner => signature_values sig
  end.

Definition WithSignature (tx : Transaction) (s : Signer) (sig : list byte) : option Transaction :=
  match SignatureValues s sig with
  | None => None
  | Some (r, s, v) =>
      Some (mkTx (tx_AccountNonce tx) (tx_Price tx) (tx_GasLimit tx) (tx_Recipient tx) (tx_Amount tx) (tx_Payload tx) v r s)
  end.

(** The fields a signature covers. *)
Definition signedFields (tx : Transaction) : list field :=
  [FUint (tx_AccountNonce tx); FBig (tx_Price tx); FUint (tx_GasLimit tx);
   match tx_Recipient tx with Some a => FAddress a | None => FBytes [] end;
   FBig (tx_Amount tx); FBytes (tx_Payload tx)].

Section signing.
Context {K : Sha3} {C : Crypto}.

Definition signer_Hash (s : Signer) (tx : Transaction) : Hash :=
  match s with
  | EIP155Signer chainId _ => rlpHash (FList (signedFields tx ++ [FBig chainId; FUint 0; FUint 0]))
  | HomesteadSigner | FrontierSigner => rlpHash (FList (signedFields tx))
  end.

(** [crypto.Sign]: an error, or the signature. *)
Variable Sign : list byte -> option (list byte).

(** [inl] is the error of [crypto.Sign]. *)
Definition SignTx (tx : Transaction) (s : Signer) : option (unit + Transaction) :=
  match Sign (be_bytes 32 (signer_Hash s tx)) with
  | None => Some (inl tt)
  | Some sig => match WithSignature tx s sig with Some tx => Some (inr tx) | None => None end
  end.

(** ** Recovering the sender *)

(** The 65 bytes [r || s || v]; [None] is a slice out of range. *)
Definition plainSignature (R S_ V : Z) : option (list byte) :=
  let r := Bytes R in
  let s := Bytes S_ in
  if (32 - zlen r <? 0) || (64 - zlen s <? 0) then None
  else
    let sig := replicate 65 x00 in
    let sig := splice sig (32 - zlen r) (zlen r) r in
    let sig := splice sig (64 - zlen s) (zlen s) s in
    Prelude.store sig 64 (Zbyte V).

(** The address of a public key. *)
Definition pubAddress (pub : list byte) : Address := SetBytes (drop 12 (keccak256 (drop 1 pub))).

Definition recoverPlain (sighash : Hash) (R S_ Vb : Z) (homestead : bool) : option (sigErr + Address) :=
  if 8 <? BitLen Vb then Some (inl ErrInvalidSig)
  else
    let V := u64 (Uint64 Vb - 27) mod 256 in
    if negb (ValidateSignatureValues V R S_ homestead) then Some (inl ErrInvalidSig)
    else
      match plainSignature R S_ V with
      | None => None
      | Some sig =>
          match Ecrecover (be_bytes 32 sighash) sig with
          | None => Some (inl ErrRecover)
          | Some pub =>
              match pub with
              | x04 :: _ => Some (inr (pubAddress pub))
              | _ => Some (inl ErrInvalidPublicKey)
              end
          end
      end.

Definition homesteadSender (tx : Transaction) : option (sigErr + Address) :=
  recoverPlain (signer_Hash HomesteadSigner tx) (tx_R tx) (tx_S tx) (tx_V tx) true.

Definition signer_Sender (s : Signer) (tx : Transaction) : option (sigErr + Address) :=
  match s with
  | EIP155Signer chainId chainIdMul =>
      if negb (Protected tx) then homesteadSender tx
      else if negb (ChainId tx =? chainId) then Some (inl ErrInvalidChainId)
      else
        let V := tx_V tx - chainIdMul in
        let V := V - 8 in
        recoverPlain (signer_Hash s tx) (tx_R tx) (tx_S tx) V true
  | HomesteadSigner => homesteadSender tx
  | FrontierSigner => recoverPlain (signer_Hash s tx) (tx_R tx) (tx_S tx) (tx_V tx) false
  end.

(** [types.Sender]: the cache [from] of the transaction is the state. *)
Definition Sender (signer : Signer) (tx : Transaction) (from : option (Signer * Address))
    : option ((sigErr + Address) * option (Signer * Address)) :=
  match from with
  | Some (cached, addr) =>
      if signer_Equal cached signer then Some (inr addr, from)
      else
        match signer_Sender signer tx with
        | None => None
        | Some (inl e) => Some (inl e, from)
        | Some (inr addr) => Some (inr addr, Some (signer, addr))
        end
  | None =>
      match signer_Sender signer tx with
      | None => None
      | Some (inl e) => Some (inl e, from)
      | Some (inr addr) => Some (inr addr, Some (signer, addr))
      end
  end.
End signing.

(** ** What a signature stands for *)

Section spec.
Context {K : Sha3} {C : Crypto}.

(** A number at the end of a run of zeros is its fixed-width encoding. *)
Lemma splice_Bytes (pre post : list byte) n x :
  0 <= x < 256 ^ Z.of_nat n ->
  splice (pre ++ replicate n x00 ++ post) (zlen pre + Z.of_nat n - zlen (Bytes x)) (zlen (Bytes x)) (Bytes x) =
  pre ++ be_bytes n x ++ post.
Proof.
  intros Hx. pose proof (zlen_Bytes_le x (Z.of_nat n) ltac:(lia) Hx) as Hle.
  pose proof (LeftPad_Bytes x (Z.of_nat n) ltac:(lia) Hx) as Hp. rewrite Nat2Z.id in Hp. rewrite <- Hp.
  unfold splice, LeftPadBytes in *. set (b := Bytes x) in *. unfold zlen in *.
  rewrite (take_ge b) by lia.
  replace (Z.to_nat (Z.of_nat (length pre) + Z.of_nat n - Z.of_nat (length b))) with (length pre + (n - length b))%nat by lia.
  rewrite take_app_add, take_app_le, take_replicate by (rewrite length_replicate; lia).
  replace ((n - length b) `min` n)%nat with (n - length b)%nat by lia.
  replace (length pre + (n - length b) + length b)%nat with (length pre + n)%nat by lia.
  rewrite drop_app_add, drop_app_length' by (by rewrite length_replicate).
  rewrite <- !app_assoc. f_equal. rewrite app_assoc. f_equal.
  destruct (Z.leb_spec (Z.of_nat n) (Z.of_nat (length b))) as [H|H].
  - replace (n - length b)%nat with 0%nat by lia. done.
  - do 2 f_equal. lia.
Qed.

Lemma plainSignature_ok R S_ V :
  0 <= R < 2 ^ 256 -> 0 <= S_ < 2 ^ 256 ->
  plainSignature R S_ V = Some (be_bytes 32 R ++ be_bytes 32 S_ ++ [Zbyte V]).
Proof.
  intros HR HS. change (2 ^ 256) with (256 ^ Z.of_nat 32) in *. unfold plainSignature. cbv zeta.
  pose proof (zlen_Bytes_le R 32 ltac:(lia) HR). pose proof (zlen_Bytes_le S_ 32 ltac:(lia) HS).
  replace (32 - zlen (Bytes R) <? 0) with false by lia. replace (64 - zlen (Bytes S_) <? 0) with false by lia. cbn [orb].
  pose proof (splice_Bytes [] (replicate 32 x00 ++ [x00]) 32 R HR) as E1.
  change (zlen [] + Z.of_nat 32) with 32 in E1. change ([] ++ replicate 32 x00 ++ replicate 32 x00 ++ [x00]) with (replicate 65 x00) in E1.
  rewrite E1. cbn [app].
  pose proof (splice_Bytes (be_bytes 32 R) [x00] 32 S_ HS) as E2.
  assert (zlen (be_bytes 32 R) = 32) as L by (unfold zlen; by rewrite length_be_bytes).
  rewrite L in E2. change (32 + Z.of_nat 32) with 64 in E2. rewrite E2. unfold Prelude.store.
  assert (zlen (be_bytes 32 R ++ be_bytes 32 S_ ++ [x00]) = 65) as L2.
  { rewrite !zlen_app. unfold zlen in *. rewrite !length_be_bytes. done. }
  by rewrite L2.
Qed.

(** A signing function with the key of the account [a]: the documented output of
    [crypto.Sign]. *)
Definition signs_as (Sign : list byte -> option (list byte)) (a : Address) : Prop :=
  forall h sig, Sign h = Some sig -> exists r s v,
    sig = be_bytes 32 r ++ be_bytes 32 s ++ [Zbyte v] /\ ValidateSignatureValues v r s true = true /\
    exists pub, Ecrecover h sig = Some (x04 :: pub) /\ pubAddress (x04 :: pub) = a.

(** Values in range, the low half of the curve and the two parities. *)
Lemma valid_values v r s homestead : ValidateSignatureValues v r s homestead = true ->
  1 <= r < secp256k1N /\ 1 <= s < secp256k1N /\ (v = 0 \/ v = 1).
Proof.
  unfold ValidateSignatureValues. destruct ((r <? 1) || (s <? 1)) eqn:E; [done|]. destruct (homestead && _); [done|].
  intros H. apply andb_prop in H as [H Hv]. apply orb_prop in Hv as [Hv|Hv]; zbool; lia.
Qed.

Lemma secp256k1N_word : secp256k1N < 2 ^ 256.
Proof. by vm_compute. Qed.

(** The transaction a signature makes of [tx]. *)
Definition signed (tx : Transaction) (V R S_ : Z) : Transaction :=
  mkTx (tx_AccountNonce tx) (tx_Price tx) (tx_GasLimit tx) (tx_Recipient tx) (tx_Amount tx) (tx_Payload tx) V R S_.

Lemma signer_Hash_signed s tx V R S_ : signer_Hash s (signed tx V R S_) = signer_Hash s tx.
Proof. by destruct s. Qed.

(** The parity in the last byte, plus 27, or plus 35 and twice the chain id. *)
Definition storedV (s : Signer) (v : Z) : Z :=
  match s with
  | EIP155Signer chainId chainIdMul => if chainId =? 0 then v + 27 else v + 35 + chainIdMul
  | _ => v + 27
  end.

Lemma SignatureValues_ok s r w v :
  0 <= r < 2 ^ 256 -> 0 <= w < 2 ^ 256 -> v = 0 \/ v = 1 ->
  SignatureValues s (be_bytes 32 r ++ be_bytes 32 w ++ [Zbyte v]) = Some (r, w, storedV s v).
Proof.
  intros Hr Hw Hv. set (sig := be_bytes 32 r ++ be_bytes 32 w ++ [Zbyte v]).
  assert (zlen sig = 65) as L by (unfold sig, zlen; rewrite !length_app, !length_be_bytes; done).
  assert (index sig 64 = Some (Zbyte v)) as I.
  { unfold index, sig. cbn [Z.leb Z.compare]. rewrite app_assoc, lookup_app_r by (rewrite length_app, !length_be_bytes; done).
    by rewrite length_app, !length_be_bytes. }
  assert (signature_values sig = Some (r, w, v + 27)) as E.
  { unfold signature_values. rewrite L, I. cbn [Z.eqb Pos.eqb negb]. rewrite !slice_Some by lia.
    assert (take (Z.to_nat (32 - 0)) (drop (Z.to_nat 0) sig) = be_bytes 32 r) as ->.
    { unfold sig. by rewrite drop_0, take_app_length' by (by rewrite length_be_bytes). }
    assert (take (Z.to_nat (64 - 32)) (drop (Z.to_nat 32) sig) = be_bytes 32 w) as ->.
    { unfold sig. rewrite drop_app_length', take_app_length' by (by rewrite length_be_bytes). done. }
    rewrite !SetBytes_be_bytes by lia. change (256 ^ Z.of_nat 32) with (2 ^ 256). rewrite !Z.mod_small by lia.
    rewrite byteZ_Zbyte. by destruct Hv as [->| ->]. }
  destruct s as [c m| |]; cbn [SignatureValues storedV]; rewrite E; try done.
  rewrite I, byteZ_Zbyte. destruct (Z.eqb_spec c 0) as [->|Hc]; [done|].
  replace (Z.sgn c =? 0) with false by lia. cbn [negb]. by destruct Hv as [->| ->].
Qed.

(** The values of a fresh signature are accepted and lead to the account. *)
Lemma recover_signed Sign a h r w v V homestead :
  signs_as Sign a -> Sign (be_bytes 32 h) = Some (be_bytes 32 r ++ be_bytes 32 w ++ [Zbyte v]) ->
  ValidateSignatureValues v r w true = true -> V = v + 27 -> recoverPlain h r w V homestead = Some (inr a).
Proof.
  intros Hs E Hv ->. destruct (valid_values _ _ _ _ Hv) as (Hr & Hw & H01). pose proof secp256k1N_word.
  unfold recoverPlain. replace (8 <? BitLen (v + 27)) with false by (by destruct H01 as [->| ->]).
  replace (u64 (Uint64 (v + 27) - 27) mod 256) with v by (by destruct H01 as [->| ->]).
  assert (ValidateSignatureValues v r w homestead = true) as ->.
  { destruct homestead; [done|]. revert Hv. unfold ValidateSignatureValues. split_if; [done|]. cbn [andb].
    by destruct (w >? secp256k1halfN). }
  cbn [negb]. rewrite plainSignature_ok by lia. destruct (Hs _ _ E) as (r' & w' & v' & _ & _ & pub & -> & Ha). by rewrite Ha.
Qed.

(** Signers as [NewEIP155Signer] makes them. *)
Definition signer_ok (s : Signer) : Prop :=
  match s with EIP155Signer chainId chainIdMul => 0 <= chainId /\ chainIdMul = chainId * 2 | _ => True end.

Lemma MakeSigner_ok config n : 0 <= default 0 (ChainID config) -> signer_ok (MakeSigner config n).
Proof. unfold MakeSigner, NewEIP155Signer. intros H. repeat split_if; [|done|done]. by destruct (ChainID config). Qed.

(** Outside 27 and 28 the chain id is what the value was made of. *)
Lemma protected_V c v : 0 < c -> v = 0 \/ v = 1 -> isProtectedV (v + 35 + c * 2) = true.
Proof.
  intros Hc Hv. unfold isProtectedV. destruct (BitLen _ <=? 8) eqn:E; [|done]. zbool. apply BitLen_le in E; [|lia].
  unfold Uint64. rewrite u64_small by (unfold is_u64; lia). apply andb_true_intro. split; apply negb_true_iff, Z.eqb_neq; lia.
Qed.

Lemma chainId_V c v : 0 <= c -> v = 0 \/ v = 1 -> deriveChainId (v + 35 + c * 2) = c.
Proof.
  intros Hc Hv. unfold deriveChainId. replace (v + 35 + c * 2 - 35) with (v + c * 2) by lia.
  assert ((v + c * 2) / 2 = c) as Hd by (rewrite Z.div_add by lia; by destruct Hv as [->| ->]).
  destruct (BitLen _ <=? 64) eqn:E; [|done]. zbool. apply BitLen_le in E; [|lia].
  unfold Uint64. rewrite (u64_small (Z.abs _)) by (unfold is_u64; lia). rewrite Z.abs_eq by lia.
  replace (v + 35 + c * 2 =? 27) with false by lia. replace (v + 35 + c * 2 =? 28) with false by lia. cbn [orb].
  replace (v + 35 + c * 2 - 35) with (v + c * 2) by lia. by rewrite u64_small by (unfold is_u64; lia).
Qed.

(** What [SignTx] returns. *)
Lemma SignTx_signed Sign a tx s tx' : signs_as Sign a -> SignTx Sign tx s = Some (inr tx') ->
  exists r w v, tx' = signed tx (storedV s v) r w /\ ValidateSignatureValues v r w true = true /\
    Sign (be_bytes 32 (signer_Hash s tx)) = Some (be_bytes 32 r ++ be_bytes 32 w ++ [Zbyte v]).
Proof.
  intros Hs. unfold SignTx. destruct (Sign _) as [sig|] eqn:E; [|done].
  destruct (Hs _ _ E) as (r & w & v & -> & Hv & _). destruct (valid_values _ _ _ _ Hv) as (Hr & Hw & H01).
  pose proof secp256k1N_word. unfold WithSignature. rewrite SignatureValues_ok by lia. intros [= <-].
  by exists r, w, v.
Qed.

(** A value outside 27 and 28 and a small correction of it is no parity. *)
Lemma recoverPlain_V h r w V homestead : 29 <= V -> recoverPlain h r w V homestead = Some (inl ErrInvalidSig).
Proof.
  intros HV. unfold recoverPlain. destruct (8 <? BitLen V) eqn:E; [done|]. zbool. apply BitLen_le in E; [|lia].
  unfold Uint64. rewrite (u64_small (Z.abs _)) by (unfold is_u64; lia). rewrite u64_small by (unfold is_u64; lia).
  rewrite Z.mod_small by lia. destruct (ValidateSignatureValues _ _ _ _) eqn:Ev; [|done].
  destruct (valid_values _ _ _ _ Ev) as (_ & _ & H). lia.
Qed.

(** The cache holds the answer of its signer. *)
Definition cache_ok (tx : Transaction) (from : option (Signer * Address)) : Prop :=
  match from with Some (s, a) => signer_ok s /\ signer_Sender s tx = Some (inr a) | None => True end.

Lemma Sender_ok s tx from : signer_ok s -> cache_ok tx from ->
  match signer_Sender s tx with
  | None => True
  | Some r => exists from', Sender s tx from = Some (r, from') /\ cache_ok tx from'
  end.
Proof.
  intros Hs Hc. unfold Sender. destruct from as [[s' a]|].
  - destruct Hc as [Hs' Hc]. destruct (signer_Equal s' s) eqn:E.
    + assert (s' = s) as ->.
      { destruct s' as [c m| |], s as [c2 m2| |]; try done. cbn in E. zbool. destruct Hs as [_ ->], Hs' as [_ ->]. by subst. }
      rewrite Hc. eexists. split; [done|]. by split.
    + destruct (signer_Sender s tx) as [[e|b]|] eqn:Es; [| |done]; (eexists; split; [done|]); by split.
  - destruct (signer_Sender s tx) as [[e|b]|] eqn:Es; [| |done]; (eexists; split; [done|]); by try split.
Qed.

Lemma signer_Sender_total s tx : signer_Sender s tx <> None.
Proof.
  assert (forall h R S_ V hs, recoverPlain h R S_ V hs <> None) as H.
  { intros h R S_ V hs. unfold recoverPlain. split_if; [done|]. destruct (ValidateSignatureValues _ _ _ _) eqn:Ev; [|done].
    destruct (valid_values _ _ _ _ Ev) as (Hr & Hs & _). pose proof secp256k1N_word. cbn [negb].
    rewrite plainSignature_ok by lia. destruct (Ecrecover _ _) as [[|[] ?]|]; done. }
  destruct s; cbn [signer_Sender]; unfold homesteadSender; repeat split_if; auto.
Qed.
End spec.
