(* ===== verification/Processor.v ===== *)
(** * core/state_processor.go, block_validator.go: blocks

    The processing of a block: the transactions one after the other, each as a
    message to a fresh EVM, and the end of the block by the consensus engine; and
    the validation of a block's body and of the state it leads to.  With
    [NewEVMContext] and [GetHashFn] of core/evm.go, [AsMessage] of
    core/types/transaction.go and the [Finalize] of both engines.

    The interface [consensus.Engine] is the class [Engine], the block store
    [BlockStore]; [AccountTrie] is the root of the account trie as the database
    computes it. *)

From Stdlib Require Import ZArith Lia Bool.
From S2P Require Import Prelude GoMath Rlp TrieHasher Params VmStack VmMemory StateInterface World StateDB Machine Interpreter StateTransition.
From S2P Require Import BlockTypes Receipts TxSigning Ethash.
Local Open Scope Z_scope.
Local Open Scope go_scope.

Inductive blockErr :=
| errSender (e : sigErr) | errMessage (e : txErr) | errUncles (e : headerErr)
| ErrKnownBlock | errUnknownAncestor | ErrPrunedAncestor
| errUncleRoot | errTxRoot | errGasUsed | errBloom | errReceiptRoot | errStateRoot.

(** An outcome inside the monad. *)
Definition lift {St A} (o : outcome A) : M St A := fun s =>
  match o with Ret a => Ret (a, s) | Panic => Panic | OutOfFuel => OutOfFuel end.

Section processor.
Context {K : Sha3} {C : Crypto} {D : StateDB.Database} {T : AccountTrie}.

(** ** core/state *)

Definition IntermediateRoot (deleteEmptyObjects : bool) : M stateDB Hash :=
  State.Finalise deleteEmptyObjects ;;
  let* s := get in ret (AccountRoot (s_trie s)).

Definition GetLogs (hash : Hash) : M stateDB (list Log) :=
  let* s := get in ret (default [] (s_logs s !! hash)).

(** ** The engines *)

Class Engine := {
  Author : Header -> option Address;                       (** [None] is an error *)
  eng_VerifyUncles : Block -> outcome (option headerErr);
  Finalize : Header -> list Transaction -> list Header -> list Receipt -> M stateDB Block
}.

Definition set_Root (root : Hash) (h : Header) : Header :=
  mkHeader (h_ParentHash h) (h_UncleHash h) (h_Coinbase h) root (h_TxHash h) (h_ReceiptHash h)
    (h_Bloom h) (h_Difficulty h) (h_Number h) (h_GasLimit h) (h_GasUsed h) (h_Time h) (h_Extra h) (h_MixDigest h) (h_Nonce h).

Definition set_UncleHash (hash : Hash) (h : Header) : Header :=
  mkHeader (h_ParentHash h) hash (h_Coinbase h) (h_Root h) (h_TxHash h) (h_ReceiptHash h)
    (h_Bloom h) (h_Difficulty h) (h_Number h) (h_GasLimit h) (h_GasUsed h) (h_Time h) (h_Extra h) (h_MixDigest h) (h_Nonce h).

Definition ethash_Finalize (config : ChainConfig) (header : Header) (txs : list Transaction) (uncles : list Header)
    (receipts : list Receipt) : M stateDB Block :=
  accumulateRewards config header uncles ;;
  let* root := IntermediateRoot (IsEIP158 config (h_Number header)) in
  lift (NewBlock (set_Root root header) txs uncles receipts).

Definition clique_Finalize (config : ChainConfig) (header : Header) (txs : list Transaction) (uncles : list Header)
    (receipts : list Receipt) : M stateDB Block :=
  let* root := IntermediateRoot (IsEIP158 config (h_Number header)) in
  lift (NewBlock (set_UncleHash (CalcUncleHash []) (set_Root root header)) txs [] receipts).

(** ** core/evm.go *)

(** The loop of the closure that [GetHashFn] returns, with its cache. *)
Fixpoint hashLoop {R : ChainReader} (fuel : nat) (n : Z) (header : option Header) (cache : gmap Z Hash)
    : outcome (Hash * gmap Z Hash) :=
  match header with
  | None => Ret (0, cache)
  | Some header =>
      let cache := <[u64 (Uint64 (h_Number header) - 1) := h_ParentHash header]> cache in
      if n =? u64 (Uint64 (h_Number header) - 1) then Ret (h_ParentHash header, cache)
      else
        match fuel with
        | O => OutOfFuel
        | S fuel => hashLoop fuel n (GetHeader (h_ParentHash header) (u64 (Uint64 (h_Number header) - 1))) cache
        end
  end.

Definition GetHashFn {R : ChainReader} (ref : Header) (cache : option (gmap Z Hash)) (n : Z) : outcome (Hash * gmap Z Hash) :=
  let number := u64 (Uint64 (h_Number ref) - 1) in
  let cache := match cache with None => {[ number := h_ParentHash ref ]} | Some cache => cache end in
  match cache !! n with
  | Some hash => Ret (hash, cache)
  | None => hashLoop (Z.to_nat (Uint64 (h_Number ref))) n (GetHeader (h_ParentHash ref) number) cache
  end.

(** The answer to a first call, which is the answer to every call
    ([GetHashFn_cached]). *)
Definition getHash {R : ChainReader} (ref : Header) (n : Z) : Hash :=
  match GetHashFn ref None n with Ret (h, _) => h | _ => 0 end.

Definition NewEVMContext {R : ChainReader} {E : Engine} (msg : Message) (header : Header) (author : option Address) : Context stateDB :=
  let beneficiary := match author with None => default 0 (Author header) | Some a => a end in
  mkContext core_CanTransfer core_Transfer (getHash header) (msg_From msg) (msg_GasPrice msg) beneficiary (h_GasLimit header)
    (h_Number header) (h_Time header) (h_Difficulty header).

(** ** core/state_processor.go *)

(** [types.Sender] without its cache, which never changes an answer
    ([Sender_ok]). *)
Definition AsMessage (s : Signer) (tx : Transaction) : option (sigErr + Message) :=
  match signer_Sender s tx with
  | None => None
  | Some (inl e) => Some (inl e)
  | Some (inr from) =>
      Some (inr (mkMessage from (tx_Recipient tx) (tx_Price tx) (tx_GasLimit tx) (tx_Amount tx) (tx_AccountNonce tx) true (tx_Payload tx)))
  end.

(** The state a block works on: the database, the gas left in the block and the
    gas used. *)
Record BlockState := mkBlockState { bs_db : stateDB; bs_gp : Z; bs_usedGas : Z }.

Definition set_bsdb (s : stateDB) (b : BlockState) : BlockState := mkBlockState s (bs_gp b) (bs_usedGas b).
Definition onState {A} (m : M stateDB A) : M BlockState A := zoom bs_db set_bsdb m.

(** [vm.Config] that matters here: no recursion, recording of preimages, and the
    schedule of [Cancel]. *)
Record VmConfig := mkVmConfig { cfg_NoRecursion : bool; cfg_Preimages : bool; cfg_abort : nat -> bool }.

Definition newEVM (db : stateDB) : EVMState stateDB := mkEVMState db 0 0 false [] 0.

Definition vmEnv {R : ChainReader} {E : Engine} (config : ChainConfig) (cfg : VmConfig) (msg : Message) (header : Header)
    (author : option Address) : Env stateDB :=
  mkEnv (NewEVMContext msg header author) config (cfg_NoRecursion cfg) (cfg_Preimages cfg) (cfg_abort cfg).

(** The end of a transaction: what is pending is flushed, before Byzantium for the
    sake of the root. *)
Definition endTransaction (config : ChainConfig) (number : Z) : M stateDB (list byte) :=
  if IsByzantium config number then State.Finalise true ;; ret []
  else let* root := IntermediateRoot (IsEIP158 config number) in ret (be_bytes 32 root).

Definition ApplyTransaction {R : ChainReader} {E : Engine} (config : ChainConfig) (author : option Address) (header : Header)
    (tx : Transaction) (cfg : VmConfig) : M BlockState (blockErr + Receipt) :=
  let* r := must (AsMessage (MakeSigner config (h_Number header)) tx) in
  match r with
  | inl e => ret (inl (errSender e))
  | inr msg =>
      let* b := get in
      let* '((_, gas, failed, err), t) := lift (ApplyMessage (vmEnv config cfg msg header author) (newEVM (bs_db b)) msg (bs_gp b)) in
      put (mkBlockState (e_StateDB (t_evm t)) (t_gp t) (bs_usedGas b)) ;;
      match err with
      | Some e => ret (inl (errMessage e))
      | None =>
          let* root := onState (endTransaction config (h_Number header)) in
          modify (fun b => mkBlockState (bs_db b) (bs_gp b) (u64 (bs_usedGas b + gas))) ;;
          let* b := get in
          let receipt := NewReceipt root failed (bs_usedGas b) in
          let address := match msg_To msg with None => CreateAddress (msg_From msg) (tx_Nonce tx) | Some _ => r_ContractAddress receipt end in
          let* logs := onState (GetLogs (tx_Hash tx)) in
          let* bloom := must (CreateBloom [logs]) in
          ret (inr (mkReceipt (r_PostState receipt) (r_Status receipt) (r_CumulativeGasUsed receipt) bloom logs (tx_Hash tx) address gas))
      end
  end.

Fixpoint processLoop {R : ChainReader} {E : Engine} (config : ChainConfig) (block : Block) (cfg : VmConfig) (i : Z) (txs : list Transaction)
    (receipts : list Receipt) (allLogs : list Log) : M BlockState (blockErr + list Receipt * list Log) :=
  match txs with
  | [] => ret (inr (receipts, allLogs))
  | tx :: txs =>
      onState (State.Prepare (tx_Hash tx) (Block_Hash block) i) ;;
      let* r := ApplyTransaction config None (b_header block) tx cfg in
      match r with
      | inl e => ret (inl e)
      | inr receipt => processLoop config block cfg (i + 1) txs (receipts ++ [receipt]) (allLogs ++ r_Logs receipt)
      end
  end.

Definition daoFork (config : ChainConfig) (number : Z) : bool :=
  DAOForkSupport config && match DAOForkBlock config with Some n => n =? number | None => false end.

(** The part of [Process] up to [Finalize]: receipts, logs and gas used, or the
    error. *)
Definition processTransactions {R : ChainReader} {E : Engine} (config : ChainConfig) (block : Block) (cfg : VmConfig)
    : M stateDB (blockErr + list Receipt * list Log * Z) :=
  let* gp := must (GasPool_AddGas 0 (h_GasLimit (b_header block))) in
  (if daoFork config (h_Number (b_header block)) then ApplyDAOHardFork else ret tt) ;;
  let* s := get in
  let* '(r, b) := lift (processLoop config block cfg 0 (b_transactions block) [] [] (mkBlockState s gp 0)) in
  put (bs_db b) ;;
  ret (match r with inl e => inl e | inr (receipts, allLogs) => inr (receipts, allLogs, bs_usedGas b) end).

(** [Finalize] gets a copy of the header, and its block is dropped. *)
Definition Process {R : ChainReader} {E : Engine} (config : ChainConfig) (block : Block) (cfg : VmConfig)
    : M stateDB (blockErr + list Receipt * list Log * Z) :=
  let* r := processTransactions config block cfg in
  match r with
  | inl e => ret (inl e)
  | inr (receipts, allLogs, usedGas) =>
      let* _ := Finalize (b_header block) (b_transactions block) (b_uncles block) receipts in
      ret (inr (receipts, allLogs, usedGas))
  end.

(** ** core/block_validator.go *)

Class BlockStore := {
  HasBlockAndState : Hash -> Z -> bool;
  HasBlock : Hash -> Z -> bool
}.

Definition ValidateBody {B : BlockStore} {E : Engine} (block : Block) : outcome (option blockErr) :=
  let number := u64 (NumberU64 block - 1) in
  if HasBlockAndState (Block_Hash block) (NumberU64 block) then Ret (Some ErrKnownBlock)
  else if negb (HasBlockAndState (Block_ParentHash block) number) then
    if negb (HasBlock (Block_ParentHash block) number) then Ret (Some errUnknownAncestor) else Ret (Some ErrPrunedAncestor)
  else
    match eng_VerifyUncles block with
    | Ret (Some e) => Ret (Some (errUncles e))
    | Ret None =>
        if negb (CalcUncleHash (b_uncles block) =? h_UncleHash (b_header block)) then Ret (Some errUncleRoot)
        else
          match DeriveSha (Transactions_list (b_transactions block)) with
          | Ret hash => if negb (hash =? h_TxHash (b_header block)) then Ret (Some errTxRoot) else Ret None
          | Panic => Panic
          | OutOfFuel => OutOfFuel
          end
    | Panic => Panic
    | OutOfFuel => OutOfFuel
    end.

Definition ValidateState (config : ChainConfig) (block : Block) (receipts : list Receipt) (usedGas : Z) : M stateDB (option blockErr) :=
  let header := b_header block in
  if negb (h_GasUsed header =? usedGas) then ret (Some errGasUsed)
  else
    let* rbloom := must (CreateBloom (map r_Logs receipts)) in
    if negb (rbloom =? h_Bloom header) then ret (Some errBloom)
    else
      let* receiptSha := lift (DeriveSha (Receipts_list receipts)) in
      if negb (receiptSha =? h_ReceiptHash header) then ret (Some errReceiptRoot)
      else
        let* root := IntermediateRoot (IsEIP158 config (h_Number header)) in
        ret (if negb (h_Root header =? root) then Some errStateRoot else None).
End processor.

(** [CalcGasLimit]: the limit a miner chooses, given the configured target. *)
Definition CalcGasLimit (TargetGasLimit : Z) (parent : Block) : Z :=
  let gasUsed := h_GasUsed (b_header parent) in
  let gasLimit := h_GasLimit (b_header parent) in
  let contrib := (gasUsed +u gasUsed / 2) / GasLimitBoundDivisor in
  let decay := gasLimit / GasLimitBoundDivisor -u 1 in
  let limit := (gasLimit -u decay) +u contrib in
  let limit := if limit <? MinGasLimit then MinGasLimit else limit in
  if limit <? TargetGasLimit then
    let limit := gasLimit +u decay in
    if limit >? TargetGasLimit then TargetGasLimit else limit
  else limit.
