(* ===== verification/Clique.v ===== *)
(** * consensus/clique: proof of authority

    [snapshot.go] (the votes on the set of signers) and the verification half
    of [clique.go].  Sets and maps of the code are [gset] and [gmap]; the order
    in which a [range] over the set of signers runs is the argument [order].
    The cache of recovered signatures is read through [sigcache]: it may miss
    any entry at any time.  An error is the left side of a sum.  [New] replaces
    an epoch of zero by the default, so an epoch is positive. *)

From Stdlib Require Import ZArith Lia Bool.
From S2P Require Import Prelude GoMath Rlp TrieHasher Params StateInterface BlockTypes Ethash.
Local Open Scope Z_scope.

Definition extraVanity : Z := 32.
Definition extraSeal : Z := 65.
Definition nonceAuthVote : Z := 0xffffffffffffffff.
Definition nonceDropVote : Z := 0.
Definition diffInTurn : Z := 2.
Definition diffNoTurn : Z := 1.
Definition checkpointInterval : Z := 1024.
Definition AddressLength : Z := 20.

Record CliqueConfig := mkCliqueConfig { Period : Z; Epoch : Z }.

Inductive cliqueErr :=
| errUnknownBlock | errInvalidCheckpointBeneficiary | errInvalidVote | errInvalidCheckpointVote
| errMissingVanity | errMissingSignature | errExtraSigners | errInvalidCheckpointSigners
| errMixDigest | errInvalidUncleHash | errDifficulty | ErrInvalidTimestamp
| errInvalidVotingChain | errUnauthorized | errRecovery | errUnknownAncestor | errFutureBlock
| errForkHashes | errStore | errWaitTransactions | errSign.

#[export] Instance cliqueErr_eq_dec : EqDecision cliqueErr.
Proof. solve_decision. Defined.

Record Vote := mkVote { v_Signer : Address; v_Block : Z; v_Address : Address; v_Authorize : bool }.
Record Tally := mkTally { t_Authorize : bool; t_Votes : Z }.

Record Snapshot := mkSnapshot {
  s_Number : Z;
  s_Hash : Hash;
  s_Signers : gset Address;
  s_Recents : gmap Z Address;
  s_Votes : list Vote;
  s_Tally : gmap Address Tally
}.

(** ** Single fields *)

Definition set_Recents (r : gmap Z Address) (s : Snapshot) : Snapshot :=
  mkSnapshot (s_Number s) (s_Hash s) (s_Signers s) r (s_Votes s) (s_Tally s).
Definition set_Signers (g : gset Address) (s : Snapshot) : Snapshot :=
  mkSnapshot (s_Number s) (s_Hash s) g (s_Recents s) (s_Votes s) (s_Tally s).
Definition set_Votes (v : list Vote) (t : gmap Address Tally) (s : Snapshot) : Snapshot :=
  mkSnapshot (s_Number s) (s_Hash s) (s_Signers s) (s_Recents s) v t.

(** ** snapshot.go *)

Definition newSnapshot (number : Z) (hash : Hash) (signers : list Address) : Snapshot :=
  mkSnapshot number hash (list_to_set signers) ∅ [] ∅.

Definition validVote (s : Snapshot) (address : Address) (authorize : bool) : bool :=
  let signer := bool_decide (address ∈ s_Signers s) in
  (signer && negb authorize) || (negb signer && authorize).

(** The tally after the vote, and whether it counts. *)
Definition cast (s : Snapshot) (address : Address) (authorize : bool) : bool * gmap Address Tally :=
  if negb (validVote s address authorize) then (false, s_Tally s)
  else
    match s_Tally s !! address with
    | Some old => (true, <[address := mkTally (t_Authorize old) (t_Votes old + 1)]> (s_Tally s))
    | None => (true, <[address := mkTally authorize 1]> (s_Tally s))
    end.

Definition uncast (tally : gmap Address Tally) (address : Address) (authorize : bool) : gmap Address Tally :=
  match tally !! address with
  | None => tally
  | Some t =>
      if negb (eqb (t_Authorize t) authorize) then tally
      else if t_Votes t >? 1 then <[address := mkTally (t_Authorize t) (t_Votes t - 1)]> tally
      else delete address tally
  end.

(** [uint64(len(snap.Signers)/2 + 1)]; a length plus one fits. *)
Definition limitOf (s : Snapshot) : Z := Z.of_nat (size (s_Signers s)) / 2 + 1.

(** [delete(snap.Recents, number-limit)], once there are as many blocks. *)
Definition shiftRecents (number : Z) (s : Snapshot) : Snapshot :=
  if number >=? limitOf s then set_Recents (delete (u64 (number - limitOf s)) (s_Recents s)) s else s.

(** The first vote of [signer] about [address] is uncast and taken out. *)
Fixpoint discardVote (signer address : Address) (votes : list Vote) (tally : gmap Address Tally) :
    list Vote * gmap Address Tally :=
  match votes with
  | [] => ([], tally)
  | v :: votes =>
      if (v_Signer v =? signer) && (v_Address v =? address) then (votes, uncast tally (v_Address v) (v_Authorize v))
      else let '(votes, tally) := discardVote signer address votes tally in (v :: votes, tally)
  end.

(** All votes a removed signer has cast are uncast and taken out. *)
Fixpoint discardVotesOf (signer : Address) (votes : list Vote) (tally : gmap Address Tally) :
    list Vote * gmap Address Tally :=
  match votes with
  | [] => ([], tally)
  | v :: votes =>
      if v_Signer v =? signer then discardVotesOf signer votes (uncast tally (v_Address v) (v_Authorize v))
      else let '(votes, tally) := discardVotesOf signer votes tally in (v :: votes, tally)
  end.

Definition discardVotesOn (address : Address) (votes : list Vote) : list Vote :=
  filter (fun v => v_Address v <> address) votes.

(** A recent signer, whatever the block. *)
Definition isRecent (s : Snapshot) (signer : Address) : bool :=
  bool_decide (signer ∈ (map_to_list (s_Recents s)).*2).

(** The end of a step of [apply]: the vote about [c] may pass. *)
Definition settle (number : Z) (c : Address) (snap : Snapshot) : Snapshot :=
  let t := default (mkTally false 0) (s_Tally snap !! c) in
  if t_Votes t >? Z.of_nat (size (s_Signers snap)) / 2 then
    let snap :=
      if t_Authorize t then set_Signers ({[c]} ∪ s_Signers snap) snap
      else
        let snap := set_Signers (s_Signers snap ∖ {[c]}) snap in
        let snap := shiftRecents number snap in
        let '(votes, tally) := discardVotesOf c (s_Votes snap) (s_Tally snap) in
        set_Votes votes tally snap in
    set_Votes (discardVotesOn c (s_Votes snap)) (delete c (s_Tally snap)) snap
  else snap.

Section clique.
Context {K : Sha3} {C : Crypto}.
Variable sigcache : Hash -> option Address.

(** [sigHash]: [None] is the panic on a short extra field. *)
Definition sigHash (header : Header) : option Hash :=
  match slice (h_Extra header) 0 (zlen (h_Extra header) - extraSeal) with
  | None => None
  | Some extra =>
      Some (rlpHash (FList (headerPrefix header ++
        [FBytes extra; FHash (h_MixDigest header); FBytes (EncodeNonce (h_Nonce header))])))
  end.

Definition ecrecover (header : Header) : cliqueErr + Address :=
  match sigcache (Header_Hash header) with
  | Some address => inr address
  | None =>
      if zlen (h_Extra header) <? extraSeal then inl errMissingSignature
      else
        let signature := drop (Z.to_nat (zlen (h_Extra header) - extraSeal)) (h_Extra header) in
        match sigHash header with
        | None => inl errRecovery
        | Some h =>
            match Ecrecover (be_bytes 32 h) signature with
            | None => inl errRecovery
            | Some pubkey => inr (SetBytes (drop 12 (keccak256 (drop 1 pubkey))))
            end
        end
  end.

(** The body of the loop of [apply], on a header that has been checked for its
    number. *)
Definition applyHeader (config : CliqueConfig) (snap : Snapshot) (header : Header) : cliqueErr + Snapshot :=
  let number := u64 (h_Number header) in
  let snap := if number mod Epoch config =? 0 then set_Votes [] ∅ snap else snap in
  let snap := shiftRecents number snap in
  match ecrecover header with
  | inl e => inl e
  | inr signer =>
      if negb (bool_decide (signer ∈ s_Signers snap)) then inl errUnauthorized
      else if isRecent snap signer then inl errUnauthorized
      else
        let snap := set_Recents (<[number := signer]> (s_Recents snap)) snap in
        let '(votes, tally) := discardVote signer (h_Coinbase header) (s_Votes snap) (s_Tally snap) in
        let snap := set_Votes votes tally snap in
        let vote :=
          if h_Nonce header =? nonceAuthVote then Some true
          else if h_Nonce header =? nonceDropVote then Some false else None in
        match vote with
        | None => inl errInvalidVote
        | Some authorize =>
            let '(counted, tally) := cast snap (h_Coinbase header) authorize in
            let votes :=
              if counted then s_Votes snap ++ [mkVote signer number (h_Coinbase header) authorize]
              else s_Votes snap in
            inr (settle number (h_Coinbase header) (set_Votes votes tally snap))
        end
  end.

Fixpoint applyLoop (config : CliqueConfig) (snap : Snapshot) (headers : list Header) : cliqueErr + Snapshot :=
  match headers with
  | [] => inr snap
  | header :: headers =>
      match applyHeader config snap header with
      | inl e => inl e
      | inr snap => applyLoop config snap headers
      end
  end.

(** Each header follows the one before. *)
Fixpoint contiguous (headers : list Header) : bool :=
  match headers with
  | h1 :: (h2 :: _) as rest => (u64 (h_Number h2) =? u64 (u64 (h_Number h1) + 1)) && contiguous rest
  | _ => true
  end.

Definition apply (config : CliqueConfig) (s : Snapshot) (headers : list Header) : cliqueErr + Snapshot :=
  match headers with
  | [] => inr s
  | first :: _ =>
      if negb (contiguous headers) then inl errInvalidVotingChain
      else if negb (u64 (h_Number first) =? u64 (s_Number s + 1)) then inl errInvalidVotingChain
      else
        match applyLoop config s headers with
        | inl e => inl e
        | inr snap =>
            inr (mkSnapshot (u64 (s_Number snap + u64 (zlen headers)))
              (Header_Hash (List.last headers first)) (s_Signers snap) (s_Recents snap) (s_Votes snap) (s_Tally snap))
        end
  end.

(** ** signers, inturn *)

Variable order : gset Address -> list Address.

(** One pass of the outer loop: the smallest address comes to the front. *)
Fixpoint pass (x : Address) (l : list Address) : Address * list Address :=
  match l with
  | [] => (x, [])
  | y :: l =>
      if x >? y then let '(m, l) := pass y l in (m, x :: l)
      else let '(m, l) := pass x l in (m, y :: l)
  end.

Fixpoint exchangeSort (n : nat) (l : list Address) : list Address :=
  match n, l with
  | S n, x :: l => let '(m, l) := pass x l in m :: exchangeSort n l
  | _, _ => l
  end.

Definition signers (s : Snapshot) : list Address :=
  let l := order (s_Signers s) in exchangeSort (length l) l.

(** The position of [signer], or the length. *)
Fixpoint offsetOf (signer : Address) (l : list Address) : Z :=
  match l with
  | [] => 0
  | a :: l => if a =? signer then 0 else 1 + offsetOf signer l
  end.

(** [None] is the division by zero without signers. *)
Definition inturn (s : Snapshot) (number : Z) (signer : Address) : option bool :=
  let l := signers s in
  if zlen l =? 0 then None else Some (number mod zlen l =? offsetOf signer l).

(** ** clique.go *)

Definition CalcDifficultyOf (s : Snapshot) (signer : Address) : option Z :=
  match inturn s (u64 (s_Number s + 1)) signer with
  | None => None
  | Some true => Some diffInTurn
  | Some false => Some diffNoTurn
  end.

(** The rest of [verifySeal], with the snapshot of the parent.  [None] is a
    panic. *)
Definition verifySealWith (snap : Snapshot) (header : Header) : option (option cliqueErr) :=
  let number := u64 (h_Number header) in
  if number =? 0 then Some (Some errUnknownBlock)
  else
    match ecrecover header with
    | inl e => Some (Some e)
    | inr signer =>
        if negb (bool_decide (signer ∈ s_Signers snap)) then Some (Some errUnauthorized)
        else if existsb (fun e => (e.2 =? signer) && (e.1 >? u64 (number - limitOf snap))) (map_to_list (s_Recents snap))
        then Some (Some errUnauthorized)
        else
          match inturn snap number signer with
          | None => None
          | Some inturn =>
              Some (if inturn && negb (h_Difficulty header =? diffInTurn) then Some errDifficulty
                    else if negb inturn && negb (h_Difficulty header =? diffNoTurn) then Some errDifficulty
                    else None)
          end
    end.
End clique.
