(* ===== verification/CliqueSpec.v ===== *)
(** * What the snapshots of clique keep true

    The tally counts the votes, every vote is by a signer and about a change
    that is still open, and the recent signers are those of the last blocks.
    [snap_ok] says so of a snapshot at a block number; [applyHeader] keeps it. *)

From Stdlib Require Import ZArith Lia Bool Sorting.Sorted.
From stdpp Require Import sorting.
From S2P Require Import Prelude GoMath Rlp TrieHasher Params StateInterface BlockTypes Ethash Clique.
Local Open Scope Z_scope.

(** ** Votes and tallies *)

(** The number of votes about [a]. *)
Definition count (a : Address) (votes : list Vote) : nat := length (filter (fun v => v_Address v = a) votes).

(** The entry for an account with [n] votes. *)
Definition entry (authorize : bool) (n : nat) : option Tally :=
  match n with O => None | S _ => Some (mkTally authorize (Z.of_nat n)) end.

(** The tally is what counting the votes gives; [open_ a] says whether a vote
    about [a] asks for its authorisation. *)
Definition tally_right (open_ : Address -> bool) (votes : list Vote) (tally : gmap Address Tally) : Prop :=
  forall a, tally !! a = entry (open_ a) (count a votes).

#[export] Instance count_perm a : Proper ((≡ₚ) ==> eq) (count a).
Proof. intros l1 l2 H. unfold count. by rewrite H. Qed.

#[export] Instance tally_right_perm open_ : Proper ((≡ₚ) ==> eq ==> iff) (tally_right open_).
Proof.
  intros l1 l2 H t1 t2 ->. unfold tally_right. split; intros Ht a; rewrite (Ht a).
  - by rewrite H.
  - by rewrite <- H.
Qed.

Lemma count_cons a v l : count a (v :: l) = ((if decide (v_Address v = a) then 1 else 0) + count a l)%nat.
Proof. unfold count. rewrite filter_cons. by destruct (decide (v_Address v = a)). Qed.

Lemma tally_uncast open_ v l tally :
  tally_right open_ (v :: l) tally -> v_Authorize v = open_ (v_Address v) ->
  tally_right open_ l (uncast tally (v_Address v) (v_Authorize v)).
Proof.
  intros Ht Hv. unfold uncast. rewrite (Ht (v_Address v)), count_cons, decide_True by done.
  cbn [entry Nat.add t_Authorize t_Votes]. rewrite Hv, eqb_reflx. cbn [negb].
  assert (forall a, a <> v_Address v -> tally !! a = entry (open_ a) (count a l)) as Ho.
  { intros a Ha. by rewrite (Ht a), count_cons, decide_False by congruence. }
  destruct (Z.gtb_spec (Z.of_nat (S (count (v_Address v) l))) 1) as [Hgt|Hle]; intros a;
    (destruct (decide (a = v_Address v)) as [->|Hne]).
  - rewrite lookup_insert_eq. destruct (count (v_Address v) l); [lia|]. cbn [entry]. do 2 f_equal. lia.
  - rewrite lookup_insert_ne by congruence. by apply Ho.
  - rewrite lookup_delete_eq. by destruct (count (v_Address v) l); [|lia].
  - rewrite lookup_delete_ne by congruence. by apply Ho.
Qed.

Lemma tally_add open_ v l tally :
  tally_right open_ l tally -> v_Authorize v = open_ (v_Address v) ->
  tally_right open_ (l ++ [v])
    (<[v_Address v := match tally !! v_Address v with
                      | Some old => mkTally (t_Authorize old) (t_Votes old + 1)
                      | None => mkTally (v_Authorize v) 1 end]> tally).
Proof.
  intros Ht Hv. rewrite <- Permutation_cons_append. intros a. rewrite count_cons.
  destruct (decide (v_Address v = a)) as [<-|Hne].
  - rewrite lookup_insert_eq, (Ht (v_Address v)). destruct (count (v_Address v) l); cbn [entry t_Authorize t_Votes Nat.add].
    + by rewrite Hv.
    + do 2 f_equal. lia.
  - rewrite lookup_insert_ne by done. apply Ht.
Qed.

Lemma count_discard a c l : count a (discardVotesOn c l) = if decide (a = c) then 0%nat else count a l.
Proof.
  induction l as [|v l IH]; [by destruct (decide (a = c))|].
  unfold discardVotesOn. rewrite filter_cons. destruct (decide (v_Address v <> c)) as [Hv|Hv].
  - rewrite count_cons. fold (discardVotesOn c l). rewrite IH, count_cons.
    destruct (decide (a = c)); [|done]. by rewrite decide_False by congruence.
  - fold (discardVotesOn c l). rewrite IH, count_cons. destruct (decide (a = c)); [done|].
    rewrite decide_False; [done|]. intros E. apply Hv. congruence.
Qed.

(** The proposal about [c] is settled. *)
Lemma tally_settle open_ open' c l tally :
  tally_right open_ l tally -> (forall a, a <> c -> open' a = open_ a) ->
  tally_right open' (discardVotesOn c l) (delete c tally).
Proof.
  intros Ht Ho a. rewrite count_discard. destruct (decide (a = c)) as [->|Hne].
  - apply lookup_delete_eq.
  - rewrite lookup_delete_ne by congruence. by rewrite (Ht a), Ho.
Qed.

(** ** Votes that are in order *)

Definition ballot (v : Vote) : Address * Address := (v_Signer v, v_Address v).

(** Votes by signers, about open changes, one per signer and account. *)
Record votes_ok (S : gset Address) (open_ : Address -> bool) (votes : list Vote) : Prop := {
  vo_signer : Forall (fun v => v_Signer v ∈ S) votes;
  vo_open : Forall (fun v => v_Authorize v = open_ (v_Address v)) votes;
  vo_once : NoDup (map ballot votes)
}.

Lemma votes_sublist S open_ l l' : votes_ok S open_ l -> l' `sublist_of` l -> votes_ok S open_ l'.
Proof.
  intros [H1 H2 H3] Hs. induction Hs as [|v l1 l2 Hs IH|v l1 l2 Hs IH]; [by split| |].
  - apply Forall_cons in H1 as [A1 H1], H2 as [A2 H2]. cbn [map] in H3. apply NoDup_cons in H3 as [A3 H3].
    destruct (IH H1 H2 H3) as [B1 B2 B3]. split; [by constructor..|]. cbn [map]. constructor; [|done].
    intros Hin. apply A3. apply list_elem_of_fmap in Hin as (w & E & Hw). apply list_elem_of_fmap. exists w.
    split; [done|]. eapply elem_of_submseteq; [done|by apply sublist_submseteq].
  - apply Forall_cons in H1 as [_ H1], H2 as [_ H2]. cbn [map] in H3. apply NoDup_cons in H3 as [_ H3]. auto.
Qed.

Lemma discardVote_ok S open_ signer address votes : forall tally votes' tally',
  votes_ok S open_ votes -> tally_right open_ votes tally ->
  discardVote signer address votes tally = (votes', tally') ->
  votes' `sublist_of` votes /\ tally_right open_ votes' tally' /\ (signer, address) ∉ map ballot votes'.
Proof.
  assert (forall votes, votes_ok S open_ votes -> forall pre tally votes' tally',
    tally_right open_ (pre ++ votes) tally -> discardVote signer address votes tally = (votes', tally') ->
    votes' `sublist_of` votes /\ tally_right open_ (pre ++ votes') tally' /\ (signer, address) ∉ map ballot votes') as H.
  { clear votes. induction votes as [|v votes IH]; intros Hok pre tally votes' tally' Ht E; cbn [discardVote] in E.
    - injection E as <- <-. split; [done|]. split; [done|]. apply not_elem_of_nil.
    - destruct Hok as [H1 H2 H3]. apply Forall_cons in H1 as [_ H1], H2 as [Hv H2].
      apply NoDup_cons in H3 as [Hn H3].
      destruct (Z.eqb_spec (v_Signer v) signer) as [E1|E1]; [destruct (Z.eqb_spec (v_Address v) address) as [E2|E2]|];
        cbn [andb] in E.
      + injection E as <- <-. split; [by apply sublist_cons|]. split.
        * apply tally_uncast; [|done]. by rewrite Permutation_middle.
        * unfold ballot in Hn at 1. by rewrite E1, E2 in Hn.
      + destruct (discardVote signer address votes tally) as [vs t] eqn:Ed. injection E as <- <-.
        destruct (IH ltac:(by split) (pre ++ [v]) tally vs t) as (I1 & I2 & I3);
          [by rewrite <- app_assoc|done|]. split; [by apply sublist_skip|]. rewrite <- app_assoc in I2.
        split; [done|]. cbn [map]. apply not_elem_of_cons. split; [|done]. unfold ballot. congruence.
      + destruct (discardVote signer address votes tally) as [vs t] eqn:Ed. injection E as <- <-.
        destruct (IH ltac:(by split) (pre ++ [v]) tally vs t) as (I1 & I2 & I3);
          [by rewrite <- app_assoc|done|]. split; [by apply sublist_skip|]. rewrite <- app_assoc in I2.
        split; [done|]. cbn [map]. apply not_elem_of_cons. split; [|done]. unfold ballot. congruence. }
  intros tally votes' tally' Hok Ht E. by apply (H votes Hok [] tally).
Qed.

Lemma discardVotesOf_ok open_ signer votes : forall pre tally votes' tally',
  Forall (fun v => v_Authorize v = open_ (v_Address v)) votes ->
  tally_right open_ (pre ++ votes) tally ->
  discardVotesOf signer votes tally = (votes', tally') ->
  votes' = filter (fun v => v_Signer v <> signer) votes /\ tally_right open_ (pre ++ votes') tally'.
Proof.
  induction votes as [|v votes IH]; intros pre tally votes' tally' Hf Ht E; cbn [discardVotesOf] in E.
  - by injection E as <- <-.
  - apply Forall_cons in Hf as [Hv Hf]. rewrite filter_cons. destruct (Z.eqb_spec (v_Signer v) signer) as [Es|Es].
    + rewrite decide_False by (intros Hx; by apply Hx). eapply IH; [done| |done]. apply tally_uncast; [|done].
      by rewrite Permutation_middle.
    + rewrite decide_True by done. destruct (discardVotesOf signer votes tally) as [vs t] eqn:Ed. injection E as <- <-.
      destruct (IH (pre ++ [v]) tally vs t) as (-> & I2); [done|by rewrite <- app_assoc|done|].
      split; [done|]. by rewrite <- app_assoc in I2.
Qed.

(** ** Changes of the set of signers *)

(** A vote about an account that is no signer asks for its authorisation. *)
Definition opened (S : gset Address) (a : Address) : bool := negb (bool_decide (a ∈ S)).

Lemma validVote_spec s a auth : validVote s a auth = true <-> auth = opened (s_Signers s) a.
Proof. unfold validVote, opened. destruct (bool_decide _), auth; naive_solver. Qed.

Lemma cast_ok s signer number c auth counted tally :
  votes_ok (s_Signers s) (opened (s_Signers s)) (s_Votes s) ->
  tally_right (opened (s_Signers s)) (s_Votes s) (s_Tally s) ->
  signer ∈ s_Signers s -> (signer, c) ∉ map ballot (s_Votes s) ->
  cast s c auth = (counted, tally) ->
  let votes := if counted then s_Votes s ++ [mkVote signer number c auth] else s_Votes s in
  votes_ok (s_Signers s) (opened (s_Signers s)) votes /\ tally_right (opened (s_Signers s)) votes tally.
Proof.
  intros [H1 H2 H3] Ht Hs Hn E. unfold cast in E. destruct (validVote s c auth) eqn:Ev; cbn [negb] in E.
  - apply validVote_spec in Ev.
    assert (counted = true /\ tally = <[c := match s_Tally s !! c with
      | Some old => mkTally (t_Authorize old) (t_Votes old + 1) | None => mkTally auth 1 end]> (s_Tally s)) as [-> ->].
    { destruct (s_Tally s !! c); by injection E as <- <-. }
    split; [split|].
    + by apply Forall_app_2, Forall_singleton.
    + by apply Forall_app_2, Forall_singleton.
    + rewrite map_app. cbn [map ballot v_Signer v_Address]. rewrite <- Permutation_cons_append. by constructor.
    + exact (tally_add _ (mkVote signer number c auth) _ _ Ht Ev).
  - injection E as <- <-. by split.
Qed.

(** The vote about [c] has passed: the votes about it and, when it leaves, the
    votes it cast are gone. *)
Lemma settle_ok S S' c votes tally :
  votes_ok S (opened S) votes -> tally_right (opened S) votes tally ->
  (forall a, a <> c -> (a ∈ S' <-> a ∈ S)) -> (c ∈ S' \/ Forall (fun v => v_Signer v <> c) votes) ->
  votes_ok S' (opened S') (discardVotesOn c votes) /\ tally_right (opened S') (discardVotesOn c votes) (delete c tally).
Proof.
  intros Hv Ht HS Hc.
  assert (forall a, a <> c -> opened S' a = opened S a) as Ho.
  { intros a Ha. unfold opened. f_equal. apply bool_decide_ext. by apply HS. }
  split; [|by eapply tally_settle].
  assert (votes_ok S (opened S) (discardVotesOn c votes)) as [H1 H2 H3].
  { eapply votes_sublist; [done|]. unfold discardVotesOn. clear. induction votes as [|v l IH]; [done|].
    rewrite filter_cons. destruct (decide _); [by apply sublist_skip|by apply sublist_cons]. }
  rewrite Forall_forall in H1, H2. split; [|..|done]; apply Forall_forall; intros v Hin.
  - destruct (decide (v_Signer v = c)) as [E|E].
    + destruct Hc as [Hc|Hc]; [by rewrite E|]. rewrite Forall_forall in Hc.
      apply list_elem_of_filter in Hin as [_ Hin]. by destruct (Hc v Hin).
    + apply HS; [done|]. by apply H1.
  - rewrite (H2 v Hin). apply list_elem_of_filter in Hin as [Hin _]. by rewrite Ho.
Qed.

(** ** Recent signers *)

(** Up to block [n], each of the signers in [r] has signed one of the last
    [lim] blocks. *)
Definition recents_ok (n lim : Z) (r : gmap Z Address) : Prop :=
  (forall k a, r !! k = Some a -> 0 <= k /\ n - lim < k <= n) /\
  (forall k1 k2 a, r !! k1 = Some a -> r !! k2 = Some a -> k1 = k2).

Lemma recents_subseteq n lim r r' : recents_ok n lim r -> r' ⊆ r -> recents_ok n lim r'.
Proof.
  intros [H1 H2] Hs. split.
  - intros k a Hk. apply (H1 k a). by eapply lookup_weaken.
  - intros k1 k2 a E1 E2. apply (H2 k1 k2 a); by eapply lookup_weaken.
Qed.

(** The recent signers once the oldest has been shifted out. *)
Definition shifted (number lim : Z) (r : gmap Z Address) : gmap Z Address :=
  if number >=? lim then delete (number - lim) r else r.

Lemma shiftRecents_eq number s :
  0 <= number < 2 ^ 63 -> shiftRecents number s = set_Recents (shifted number (limitOf s) (s_Recents s)) s.
Proof.
  intros Hn. unfold shiftRecents, shifted. destruct (Z.geb_spec number (limitOf s)); [|by destruct s].
  assert (0 < limitOf s). { unfold limitOf. assert (0 <= Z.of_nat (size (s_Signers s)) / 2) by (apply Z.div_pos; lia). lia. }
  unfold u64, u64_modulus. by rewrite Z.mod_small by lia.
Qed.

Lemma shifted_subseteq number lim r : shifted number lim r ⊆ r.
Proof. unfold shifted. destruct (_ >=? _); [apply delete_subseteq|done]. Qed.

Lemma shifted_window n lim r k a :
  recents_ok n lim r -> shifted (n + 1) lim r !! k = Some a -> 0 <= k /\ n + 1 - lim < k <= n.
Proof.
  intros [H1 _] E. pose proof (lookup_weaken _ _ _ _ E (shifted_subseteq _ _ _)) as E'. apply H1 in E'.
  unfold shifted in E. destruct (Z.geb_spec (n + 1) lim); [|lia].
  apply lookup_delete_Some in E as [Hne _]. lia.
Qed.

Lemma shifted_keeps number lim r k : number - lim < k -> shifted number lim r !! k = r !! k.
Proof. intros Hk. unfold shifted. destruct (_ >=? _); [|done]. apply lookup_delete_ne. lia. Qed.

Lemma isRecent_spec s a : isRecent s a = false <-> forall k, s_Recents s !! k <> Some a.
Proof.
  unfold isRecent. rewrite bool_decide_eq_false. split.
  - intros H k Hk. apply H, list_elem_of_fmap. exists (k, a). split; [done|]. by apply elem_of_map_to_list.
  - intros H Hin. apply list_elem_of_fmap in Hin as ([k a'] & -> & Hin). apply elem_of_map_to_list in Hin. by apply (H k).
Qed.

(** A new block: its signer joins. *)
Lemma recents_step n lim r a :
  0 <= n -> 0 < lim -> recents_ok n lim r -> (forall k, shifted (n + 1) lim r !! k <> Some a) ->
  recents_ok (n + 1) lim (<[n + 1 := a]> (shifted (n + 1) lim r)).
Proof.
  intros Hn Hl Hr Ha. pose proof (shifted_window n lim r) as Hw. destruct Hr as [H1 H2]. split.
  - intros k b. destruct (decide (k = n + 1)) as [->|Hne]; [lia|]. rewrite lookup_insert_ne by done.
    intros Hk. apply Hw in Hk; [lia|by split].
  - intros k1 k2 b. destruct (decide (k1 = n + 1)) as [->|N1]; destruct (decide (k2 = n + 1)) as [->|N2]; [done|..].
    + rewrite lookup_insert_eq, lookup_insert_ne by done. intros [= ->] E. by destruct (Ha k2).
    + rewrite lookup_insert_eq, lookup_insert_ne by done. intros E [= ->]. by destruct (Ha k1).
    + rewrite !lookup_insert_ne by done. intros E1 E2.
      apply (H2 k1 k2 b); (eapply lookup_weaken; [done|apply shifted_subseteq]).
Qed.

(** The limit may shrink by one, and the window with it. *)
Lemma recents_shrink n lim lim' r :
  0 < lim' -> lim - 1 <= lim' <= lim -> recents_ok n lim r -> recents_ok n lim' (shifted n lim' r).
Proof.
  intros H0 Hl Hr. pose proof (recents_subseteq _ _ _ _ Hr (shifted_subseteq n lim' r)) as [S1 S2].
  split; [|done]. intros k a Hk. destruct (S1 k a Hk). split; [done|].
  unfold shifted in Hk. destruct (Z.geb_spec n lim'); [|lia]. apply lookup_delete_Some in Hk as [Hne _]. lia.
Qed.

Lemma recents_widen n lim lim' r : lim <= lim' -> recents_ok n lim r -> recents_ok n lim' r.
Proof. intros Hl [H1 H2]. split; [|done]. intros k a Hk. destruct (H1 k a Hk). lia. Qed.

(** ** The invariant *)

(** A snapshot after block [n]. *)
Record snap_ok (n : Z) (s : Snapshot) : Prop := {
  so_votes : votes_ok (s_Signers s) (opened (s_Signers s)) (s_Votes s);
  so_tally : tally_right (opened (s_Signers s)) (s_Votes s) (s_Tally s);
  so_recents : recents_ok n (limitOf s) (s_Recents s)
}.

Lemma snap_new n number hash l : snap_ok n (newSnapshot number hash l).
Proof. split; [by split; constructor|done|]. split; intros *; cbn [s_Recents newSnapshot]; by rewrite lookup_empty. Qed.

Lemma snap_reset n s : snap_ok n s -> snap_ok n (set_Votes [] ∅ s).
Proof. intros [_ _ Hr]. split; [by split; constructor|done|exact Hr]. Qed.

Lemma limit_pos s : 0 < limitOf s.
Proof. unfold limitOf. assert (0 <= Z.of_nat (size (s_Signers s)) / 2) by (apply Z.div_pos; lia). lia. Qed.

(** One signer more or less moves the limit by one at most. *)
Lemma half_mono (a b : nat) : (a <= b <= S a)%nat -> Z.of_nat a / 2 <= Z.of_nat b / 2 <= Z.of_nat a / 2 + 1.
Proof. intros H. split; [apply Z.div_le_mono; lia|]. rewrite <- Z.div_add by lia. apply Z.div_le_mono; lia. Qed.

Lemma size_without (c : Address) (S : gset Address) : (size (S ∖ {[c]}) <= size S <= Datatypes.S (size (S ∖ {[c]})))%nat.
Proof.
  split; [by apply subseteq_size, subseteq_difference_l|]. pose proof (size_union_alt ({[c]} : gset Address) S) as Hu.
  rewrite size_singleton in Hu. assert (size S <= size ({[c]} ∪ S))%nat by (apply subseteq_size, union_subseteq_r). lia.
Qed.

Lemma in_add (c : Address) (S : gset Address) : forall a, a <> c -> (a ∈ {[c]} ∪ S <-> a ∈ S).
Proof. intros a Ha. rewrite elem_of_union, elem_of_singleton. split; [by intros [?|?]|by right]. Qed.

Lemma in_remove (c : Address) (S : gset Address) : forall a, a <> c -> (a ∈ S ∖ {[c]} <-> a ∈ S).
Proof. intros a Ha. rewrite elem_of_difference, elem_of_singleton. split; [by intros [? _]|done]. Qed.

Lemma limit_add c s s' : s_Signers s' = {[c]} ∪ s_Signers s -> limitOf s <= limitOf s' <= limitOf s + 1.
Proof.
  intros E. unfold limitOf. rewrite E. pose proof (size_without c (s_Signers s)).
  assert (size (s_Signers s) <= size ({[c]} ∪ s_Signers s))%nat by (apply subseteq_size, union_subseteq_r).
  assert (size ({[c]} ∪ s_Signers s) <= S (size (s_Signers s)))%nat by (rewrite size_union_alt, size_singleton; lia).
  pose proof (half_mono (size (s_Signers s)) (size ({[c]} ∪ s_Signers s))). lia.
Qed.

Lemma limit_remove c s s' : s_Signers s' = s_Signers s ∖ {[c]} -> limitOf s - 1 <= limitOf s' <= limitOf s.
Proof.
  intros E. unfold limitOf. rewrite E. pose proof (size_without c (s_Signers s)).
  pose proof (half_mono (size (s_Signers s ∖ {[c]})) (size (s_Signers s))). lia.
Qed.

(** What a step leaves alone. *)
Definition recents_kept (number : Z) (s s' : Snapshot) : Prop :=
  forall k, number + 1 - limitOf s' < k -> s_Recents s' !! k = s_Recents s !! k.

Lemma settle_snap n c s :
  0 <= n < 2 ^ 63 -> snap_ok n s ->
  snap_ok n (settle n c s) /\ recents_kept n s (settle n c s) /\ limitOf (settle n c s) <= limitOf s + 1 /\
  s_Number (settle n c s) = s_Number s /\ s_Hash (settle n c s) = s_Hash s.
Proof.
  intros Hn [Hv Ht Hr]. unfold settle, recents_kept.
  assert (snap_ok n s /\ (forall k, n + 1 - limitOf s < k -> s_Recents s !! k = s_Recents s !! k) /\
    limitOf s <= limitOf s + 1 /\ s_Number s = s_Number s /\ s_Hash s = s_Hash s) as Hsame by (split; [done|split; [done|lia]]).
  destruct (s_Tally s !! c) as [t|] eqn:Et; cbn -[Z.div Z.of_nat limitOf].
  2: { assert (0 <= Z.of_nat (size (s_Signers s)) / 2) by (apply Z.div_pos; lia).
       destruct (Z.gtb_spec 0 (Z.of_nat (size (s_Signers s)) / 2)); [lia|done]. }
  destruct (t_Votes t >? _); [|done]. destruct (t_Authorize t).
  - set (s1 := set_Signers ({[c]} ∪ s_Signers s) s). pose proof (limit_add c s s1 eq_refl) as Hl.
    destruct (settle_ok _ ({[c]} ∪ s_Signers s) c _ _ Hv Ht) as [A B]; [by apply in_add|left; by apply elem_of_union_l, elem_of_singleton|].
    split; [split; [exact A|exact B|]|]; [|by split; [|split; [apply Hl|]]].
    apply (recents_widen n (limitOf s)); [apply Hl|exact Hr].
  - set (s1 := set_Signers (s_Signers s ∖ {[c]}) s). pose proof (limit_remove c s s1 eq_refl) as Hl.
    rewrite shiftRecents_eq by done.
    destruct (discardVotesOf c _ _) as [votes tally] eqn:Ed. cbn [s_Votes s_Tally set_Recents s1 set_Signers] in Ed.
    destruct (discardVotesOf_ok (opened (s_Signers s)) c (s_Votes s) [] (s_Tally s) votes tally) as [-> Ht'];
      [apply Hv|exact Ht|exact Ed|]. clear Ed. cbn [app] in Ht'.
    assert (votes_ok (s_Signers s) (opened (s_Signers s)) (filter (fun v => v_Signer v <> c) (s_Votes s))) as Hv'.
    { eapply votes_sublist; [exact Hv|apply sublist_filter]. }
    destruct (settle_ok _ (s_Signers s ∖ {[c]}) c _ _ Hv' Ht') as [A B]; [by apply in_remove| |].
    { right. apply Forall_forall. intros v Hin. by apply list_elem_of_filter in Hin as [? _]. }
    split; [split; [exact A|exact B|]|].
    + apply (recents_shrink n (limitOf s)); [apply limit_pos|exact Hl|exact Hr].
    + split; [|split; [change (limitOf s1 <= limitOf s + 1); lia|done]].
      intros k Hk. cbn [s_Recents set_Votes set_Recents]. apply shifted_keeps. change (n + 1 - limitOf s1 < k) in Hk. lia.
Qed.

(** ** Numbered headers *)

(** The headers of the blocks after [n]. *)
Fixpoint numbered (n : Z) (headers : list Header) : Prop :=
  match headers with
  | [] => True
  | h :: headers => u64 (h_Number h) = n + 1 /\ numbered (n + 1) headers
  end.

Lemma numbered_app n l1 l2 : numbered n (l1 ++ l2) <-> numbered n l1 /\ numbered (n + zlen l1) l2.
Proof.
  revert n. induction l1 as [|h l1 IH]; intros n; cbn [app numbered].
  - unfold zlen. cbn [length Z.of_nat]. rewrite Z.add_0_r. tauto.
  - rewrite IH. unfold zlen. cbn [length]. replace (n + 1 + Z.of_nat (length l1)) with (n + Z.of_nat (S (length l1))) by lia. tauto.
Qed.

Lemma numbered_lookup n l i h : numbered n l -> l !! i = Some h -> u64 (h_Number h) = n + 1 + Z.of_nat i.
Proof.
  revert n i. induction l as [|h0 l IH]; intros n [|i] Hn E; [done..| |].
  - injection E as ->. cbn in Hn. lia.
  - rewrite (IH (n + 1) i); [lia|apply Hn|done].
Qed.

(** ** One header *)

Section apply.
Context {K : Sha3} {C : Crypto}.
Variable sigcache : Hash -> option Address.
Variable config : CliqueConfig.

(** What an accepted header tells: who signed it, and that the signer had a
    right to. *)
Record header_step (n : Z) (s : Snapshot) (header : Header) (s' : Snapshot) (signer : Address) : Prop := {
  hs_signer : ecrecover sigcache header = inr signer;
  hs_authorised : signer ∈ s_Signers s;
  hs_rested : forall k, n + 1 - limitOf s < k -> s_Recents s !! k <> Some signer;
  hs_ok : snap_ok (n + 1) s';
  hs_recorded : 1 < limitOf s' -> s_Recents s' !! (n + 1) = Some signer;
  hs_kept : forall k, n + 2 - limitOf s' < k <= n -> s_Recents s' !! k = s_Recents s !! k;
  hs_limit : limitOf s' <= limitOf s + 1;
  hs_number : s_Number s' = s_Number s;
  hs_hash : s_Hash s' = s_Hash s
}.

Lemma applyHeader_ok n s header s' :
  0 <= n -> n + 1 < 2 ^ 63 -> u64 (h_Number header) = n + 1 -> snap_ok n s ->
  applyHeader sigcache config s header = inr s' -> exists signer, header_step n s header s' signer.
Proof.
  intros Hn Hlt Hnum Hok E. unfold applyHeader in E. rewrite Hnum in E. cbv zeta in E.
  set (s1 := if _ =? 0 then _ else _) in E.
  assert (snap_ok n s1 /\ s_Signers s1 = s_Signers s /\ s_Recents s1 = s_Recents s /\
    s_Number s1 = s_Number s /\ s_Hash s1 = s_Hash s) as (Hok1 & F1 & F2 & F3 & F4).
  { subst s1. destruct (_ =? 0); [|done]. by split; [apply snap_reset|]. }
  clearbody s1. rewrite shiftRecents_eq in E by lia.
  assert (limitOf s1 = limitOf s) as Fl by (unfold limitOf; by rewrite F1). rewrite Fl, F2 in E.
  destruct (ecrecover sigcache header) as [e|signer] eqn:Es; [done|].
  cbn [s_Signers set_Recents] in E. rewrite F1 in E. destruct (bool_decide_reflect (signer ∈ s_Signers s)) as [Hin|]; [|done].
  cbn [negb] in E. destruct (isRecent _ signer) eqn:Er; [done|]. rewrite isRecent_spec in Er.
  cbn [s_Recents set_Recents s_Votes s_Tally] in E, Er.
  destruct (discardVote _ _ _ _) as [votes tally] eqn:Ed.
  destruct (discardVote_ok _ _ _ _ _ _ _ _ (so_votes _ _ Hok1) (so_tally _ _ Hok1) Ed) as (D1 & D2 & D3).
  destruct (if h_Nonce header =? nonceAuthVote then _ else _) as [auth|]; [|done].
  destruct (cast _ _ auth) as [counted tally'] eqn:Ec. injection E as <-.
  pose proof (votes_sublist _ _ _ _ (so_votes _ _ Hok1) D1) as D4. pose proof Hin as Hin1. rewrite <- F1 in Hin1.
  destruct ((fun A B D G => cast_ok _ signer (n + 1) _ _ _ _ A B D G Ec) D4 D2 Hin1 D3) as [C1 C2].
  set (s2 := set_Votes _ tally' _) in *.
  assert (limitOf s2 = limitOf s) as Hl2 by exact Fl.
  assert (snap_ok (n + 1) s2) as Hok2.
  { split; [exact C1|exact C2|]. rewrite Hl2. apply recents_step; [lia|apply limit_pos| |exact Er].
    rewrite <- F2, <- Fl. apply Hok1. }
  destruct (settle_snap (n + 1) (h_Coinbase header) s2 ltac:(lia) Hok2) as (S1 & S2 & S3 & S4 & S5).
  exists signer. unfold recents_kept in S2. split; try done.
  - intros k Hk. rewrite <- (shifted_keeps (n + 1) (limitOf s)) by lia. apply Er.
  - intros Hl. rewrite S2 by lia. apply lookup_insert_eq.
  - intros k Hk. rewrite S2 by lia. cbn [s2 s_Recents set_Votes set_Recents]. rewrite lookup_insert_ne by lia.
    apply shifted_keeps. lia.
  - lia.
  - by rewrite S4, <- F3.
  - by rewrite S5, <- F4.
Qed.

(** ** Several headers *)

Lemma applyLoop_app s l1 l2 :
  applyLoop sigcache config s (l1 ++ l2) =
  match applyLoop sigcache config s l1 with
  | inl e => inl e
  | inr s1 => applyLoop sigcache config s1 l2
  end.
Proof. revert s. induction l1 as [|h l1 IH]; intros s; [done|]. cbn [app applyLoop]. by destruct (applyHeader _ _ s h). Qed.

(** A snapshot with its block replaced. *)
Definition stamp (n : Z) (h : Hash) (s : Snapshot) : Snapshot :=
  mkSnapshot n h (s_Signers s) (s_Recents s) (s_Votes s) (s_Tally s).

Definition sum_map {A B E} (f : A -> B) (x : E + A) : E + B :=
  match x with inl e => inl e | inr a => inr (f a) end.

Lemma settle_stamp n h number c s : settle number c (stamp n h s) = stamp n h (settle number c s).
Proof.
  unfold settle. cbn [stamp s_Tally s_Signers]. destruct (_ >? _); [|done].
  destruct (t_Authorize _); [done|]. unfold shiftRecents. cbn [limitOf s_Signers set_Signers].
  change (limitOf (set_Signers (s_Signers s ∖ {[c]}) (stamp n h s))) with (limitOf (set_Signers (s_Signers s ∖ {[c]}) s)).
  destruct (_ >=? _); cbn [s_Votes s_Tally set_Recents set_Signers]; by destruct (discardVotesOf _ _ _).
Qed.

Lemma applyHeader_stamp n h s header :
  applyHeader sigcache config (stamp n h s) header = sum_map (stamp n h) (applyHeader sigcache config s header).
Proof.
  unfold applyHeader. set (number := u64 (h_Number header)).
  assert ((if number mod Epoch config =? 0 then set_Votes [] ∅ (stamp n h s) else stamp n h s) =
    stamp n h (if number mod Epoch config =? 0 then set_Votes [] ∅ s else s)) as -> by by destruct (_ =? 0).
  generalize (if number mod Epoch config =? 0 then set_Votes [] ∅ s else s). intros s1.
  assert (shiftRecents number (stamp n h s1) = stamp n h (shiftRecents number s1)) as ->.
  { unfold shiftRecents. change (limitOf (stamp n h s1)) with (limitOf s1). by destruct (_ >=? _). }
  generalize (shiftRecents number s1). intros s2. destruct (ecrecover sigcache header) as [e|signer]; [done|].
  change (s_Signers (stamp n h s2)) with (s_Signers s2). destruct (negb _); [done|].
  change (isRecent (stamp n h s2) signer) with (isRecent s2 signer). destruct (isRecent _ _); [done|].
  cbn [stamp s_Votes s_Tally set_Recents s_Recents]. destruct (discardVote _ _ _ _) as [votes tally].
  destruct (if h_Nonce header =? nonceAuthVote then _ else _) as [auth|]; [|done].
  set (s3 := set_Votes votes tally (set_Recents _ s2)).
  change (cast _ (h_Coinbase header) auth) with (cast s3 (h_Coinbase header) auth).
  destruct (cast s3 _ auth) as [counted tally']. cbn [sum_map]. f_equal. by rewrite <- settle_stamp.
Qed.

Lemma applyLoop_stamp n h l s :
  applyLoop sigcache config (stamp n h s) l = sum_map (stamp n h) (applyLoop sigcache config s l).
Proof.
  revert s. induction l as [|hd l IH]; intros s; [done|]. cbn [applyLoop]. rewrite applyHeader_stamp.
  destruct (applyHeader _ _ s hd); [done|]. apply IH.
Qed.

(** The block a snapshot is at after [headers]. *)
Definition tipHash (h : Hash) (headers : list Header) : Hash :=
  match last headers with Some header => Header_Hash header | None => h end.

Definition at_tip (s : Snapshot) (headers : list Header) (s1 : Snapshot) : Snapshot :=
  stamp (s_Number s + zlen headers) (tipHash (s_Hash s) headers) s1.

Lemma applyHeader_block s header s' :
  applyHeader sigcache config s header = inr s' -> s_Number s' = s_Number s /\ s_Hash s' = s_Hash s.
Proof.
  intros E. pose proof (applyHeader_stamp (s_Number s) (s_Hash s) s header) as Hs.
  replace (stamp (s_Number s) (s_Hash s) s) with s in Hs by by destruct s. rewrite E in Hs. injection Hs as ->. done.
Qed.

Lemma applyLoop_block s l s' :
  applyLoop sigcache config s l = inr s' -> s_Number s' = s_Number s /\ s_Hash s' = s_Hash s.
Proof.
  revert s. induction l as [|h l IH]; intros s E; cbn [applyLoop] in E; [by injection E as ->|].
  destruct (applyHeader _ _ s h) as [e|s1] eqn:E1; [done|]. apply applyHeader_block in E1 as [<- <-]. by apply IH.
Qed.

Lemma u64_id x : 0 <= x < 2 ^ 64 -> u64 x = x.
Proof. intros H. unfold u64, u64_modulus. by apply Z.mod_small. Qed.

Lemma contiguous_cons h1 h2 l :
  contiguous (h1 :: h2 :: l) = (u64 (h_Number h2) =? u64 (u64 (h_Number h1) + 1)) && contiguous (h2 :: l).
Proof. done. Qed.

Lemma numbered_contiguous n l : 0 <= n -> n + zlen l < 2 ^ 64 -> numbered n l -> contiguous l = true.
Proof.
  revert n. induction l as [|h1 l IH]; intros n Hn Hl Hc; [done|]. destruct l as [|h2 l]; [done|].
  destruct Hc as (E1 & E2 & Hc). rewrite contiguous_cons. unfold zlen in *. cbn [length] in *. rewrite E1, E2, u64_id by lia.
  rewrite Z.eqb_refl. apply (IH (n + 1)); [lia|cbn [length]; lia|done].
Qed.

Lemma contiguous_numbered n h l :
  0 <= n -> n + zlen (h :: l) < 2 ^ 64 -> u64 (h_Number h) = n + 1 -> contiguous (h :: l) = true -> numbered n (h :: l).
Proof.
  revert n h. induction l as [|h2 l IH]; intros n h Hn Hl E Hc; [done|].
  rewrite contiguous_cons in Hc. apply andb_prop in Hc as [E2 Hc]. unfold zlen in *. cbn [length] in *.
  rewrite E, (u64_id (n + 1 + 1)) in E2 by lia. split; [done|]. apply IH; [lia|cbn [length]; lia|lia|done].
Qed.

Lemma last_header h d d' l :
  Header_Hash (List.last (h :: l) d) = match last (h :: l) with Some x => Header_Hash x | None => d' end.
Proof. revert h. induction l as [|h2 l IH]; intros h; [done|]. apply IH. Qed.

(** [apply] on headers that are numbered in order. *)
Lemma apply_numbered s l :
  0 <= s_Number s -> s_Number s + zlen l < 2 ^ 64 -> numbered (s_Number s) l ->
  apply sigcache config s l = sum_map (at_tip s l) (applyLoop sigcache config s l).
Proof.
  intros H0 Hl Hn. destruct l as [|h l].
  - cbn. unfold at_tip, stamp, zlen. cbn. rewrite Z.add_0_r. by destruct s.
  - unfold apply. rewrite (numbered_contiguous (s_Number s)) by done. cbn [negb]. destruct Hn as [Hh Hn].
    assert (0 < zlen (h :: l)) as Hp by (unfold zlen; cbn [length]; lia).
    rewrite Hh, (u64_id (s_Number s + 1)), Z.eqb_refl by lia. cbn [negb].
    destruct (applyLoop _ _ s (h :: l)) as [e|s1] eqn:E; [done|]. cbn [sum_map].
    apply applyLoop_block in E as [-> _]. rewrite (u64_id (zlen _)), u64_id by lia.
    unfold at_tip, stamp, tipHash. do 2 f_equal. apply last_header.
Qed.

(** A result of [apply] comes from headers that are numbered in order. *)
Lemma apply_inv s l s' :
  0 <= s_Number s -> s_Number s + zlen l < 2 ^ 64 -> apply sigcache config s l = inr s' ->
  numbered (s_Number s) l /\ exists s1, applyLoop sigcache config s l = inr s1 /\ s' = at_tip s l s1.
Proof.
  intros H0 Hl E. assert (numbered (s_Number s) l) as Hn.
  { destruct l as [|h l]; [done|]. unfold apply in E. destruct (contiguous (h :: l)) eqn:Hc; [|done]. cbn [negb] in E.
    assert (0 < zlen (h :: l)) as Hp by (unfold zlen; cbn [length]; lia).
    destruct (Z.eqb_spec (u64 (h_Number h)) (u64 (s_Number s + 1))) as [Hh|]; [|done]. rewrite (u64_id (s_Number s + 1)) in Hh by lia.
    by apply contiguous_numbered. }
  split; [done|]. rewrite apply_numbered in E by done. destruct (applyLoop _ _ s l) as [e|s1]; [done|].
  injection E as <-. by exists s1.
Qed.

(** ** A run of headers *)

Lemma applyLoop_ok l : forall n s s',
  0 <= n -> n + zlen l < 2 ^ 63 -> numbered n l -> snap_ok n s -> applyLoop sigcache config s l = inr s' ->
  snap_ok (n + zlen l) s'.
Proof.
  induction l as [|h l IH]; intros n s s' Hn Hl Hc Hok E; cbn [applyLoop] in E; unfold zlen in *; cbn [length] in *.
  - injection E as <-. by rewrite Z.add_0_r.
  - destruct Hc as [Hh Hc]. destruct (applyHeader _ _ s h) as [e|s1] eqn:E1; [done|].
    destruct (applyHeader_ok n s h s1 Hn ltac:(lia) Hh Hok E1) as [a Ha].
    replace (n + Z.of_nat (S (length l))) with (n + 1 + Z.of_nat (length l)) by lia.
    by apply (IH (n + 1) s1 s' ltac:(lia) ltac:(lia) Hc (hs_ok _ _ _ _ _ Ha)).
Qed.

(** A run stopped at one of its headers. *)
Lemma applyLoop_at l1 h l2 n s s' :
  0 <= n -> n + zlen (l1 ++ h :: l2) < 2 ^ 63 -> numbered n (l1 ++ h :: l2) -> snap_ok n s ->
  applyLoop sigcache config s (l1 ++ h :: l2) = inr s' ->
  exists before after signer, applyLoop sigcache config s l1 = inr before /\
    applyHeader sigcache config before h = inr after /\ header_step (n + zlen l1) before h after signer /\
    applyLoop sigcache config after l2 = inr s' /\
    numbered (n + zlen l1 + 1) l2.
Proof.
  intros Hn Hl Hc Hok E. apply numbered_app in Hc as [Hc1 [Hh Hc2]]. unfold zlen in *. rewrite length_app in Hl.
  cbn [length] in Hl. rewrite applyLoop_app in E. destruct (applyLoop _ _ s l1) as [e|s1] eqn:E1; [done|].
  cbn [applyLoop] in E. destruct (applyHeader _ _ s1 h) as [e|s2] eqn:E2; [done|].
  pose proof (applyLoop_ok l1 n s s1 Hn ltac:(unfold zlen; lia) Hc1 Hok E1) as Hok1.
  destruct (applyHeader_ok (n + Z.of_nat (length l1)) s1 h s2 ltac:(lia) ltac:(lia) Hh Hok1 E2) as [a Ha].
  by exists s1, s2, a.
Qed.

(** The signer of block [m] is remembered for as long as it has to rest. *)
Definition remembered (m : Z) (a : Address) (n : Z) (s : Snapshot) : Prop :=
  n + 1 - limitOf s < m -> s_Recents s !! m = Some a.

Lemma remembered_loop m a l : forall n s s',
  0 <= n -> n + zlen l < 2 ^ 63 -> numbered n l -> snap_ok n s -> m <= n -> remembered m a n s ->
  applyLoop sigcache config s l = inr s' -> remembered m a (n + zlen l) s'.
Proof.
  induction l as [|h l IH]; intros n s s' Hn Hl Hc Hok Hm Hr E; cbn [applyLoop] in E; unfold zlen in *; cbn [length] in *.
  - injection E as <-. by rewrite Z.add_0_r.
  - destruct Hc as [Hh Hc]. destruct (applyHeader _ _ s h) as [e|s1] eqn:E1; [done|].
    destruct (applyHeader_ok n s h s1 Hn ltac:(lia) Hh Hok E1) as [b Hb].
    replace (n + Z.of_nat (S (length l))) with (n + 1 + Z.of_nat (length l)) by lia.
    apply (IH (n + 1) s1 s'); [lia|lia|done|apply Hb|lia| |done].
    intros Hw. pose proof (hs_limit _ _ _ _ _ Hb). rewrite (hs_kept _ _ _ _ _ Hb) by lia. apply Hr. lia.
Qed.
End apply.

(** ** Which headers are accepted *)

Lemma eq_iff_eq_false (b1 b2 : bool) : (b1 = false <-> b2 = false) -> b1 = b2.
Proof. destruct b1, b2; intros [H1 H2]; auto; symmetry; auto. Qed.

Section accept.
Context {K : Sha3} {C : Crypto}.
Variable sigcache : Hash -> option Address.
Variable config : CliqueConfig.
Variable order : gset Address -> list Address.

Definition voteNonce (header : Header) : Prop := h_Nonce header = nonceAuthVote \/ h_Nonce header = nonceDropVote.

(** What [apply] asks of a header, and how it answers. *)
Lemma applyHeader_accepts n s header :
  0 <= n -> n + 1 < 2 ^ 63 -> u64 (h_Number header) = n + 1 -> voteNonce header ->
  match ecrecover sigcache header with
  | inl e => applyHeader sigcache config s header = inl e
  | inr signer =>
      if bool_decide (signer ∈ s_Signers s) && negb (isRecent (set_Recents (shifted (n + 1) (limitOf s) (s_Recents s)) s) signer)
      then exists s', applyHeader sigcache config s header = inr s'
      else applyHeader sigcache config s header = inl errUnauthorized
  end.
Proof.
  intros Hn Hlt Hnum Hv. unfold applyHeader. rewrite Hnum. cbv zeta.
  set (s1 := if _ =? 0 then _ else _).
  assert (limitOf s1 = limitOf s /\ s_Signers s1 = s_Signers s /\ s_Recents s1 = s_Recents s) as (F1 & F2 & F3).
  { subst s1. by destruct (_ =? 0). }
  clearbody s1. rewrite shiftRecents_eq by lia. rewrite F1, F3.
  destruct (ecrecover sigcache header) as [e|signer]; [done|].
  cbn [s_Signers set_Recents]. rewrite F2. destruct (bool_decide_reflect (signer ∈ s_Signers s)); [|done]. cbn [negb andb].
  set (r := shifted _ _ _). change (isRecent (set_Recents r s1) signer) with (isRecent (set_Recents r s) signer).
  destruct (isRecent _ signer); [done|]. cbn [negb].
  destruct (discardVote _ _ _ _) as [votes tally].
  assert (exists a, (if h_Nonce header =? nonceAuthVote then Some true
    else if h_Nonce header =? nonceDropVote then Some false else None) = Some a) as [a ->].
  { destruct Hv as [-> | ->]; by eexists. }
  destruct (cast _ _ a) as [counted tally']. by eexists.
Qed.

(** The refusal of [verifySeal] to a recent signer. *)
Definition sealRefuses (s : Snapshot) (number : Z) (signer : Address) : bool :=
  existsb (fun e => (e.2 =? signer) && (e.1 >? u64 (number - limitOf s))) (map_to_list (s_Recents s)).

Lemma sealRefuses_spec s number signer :
  sealRefuses s number signer = false <-> forall k, s_Recents s !! k = Some signer -> k <= u64 (number - limitOf s).
Proof.
  unfold sealRefuses. rewrite <- not_true_iff_false, existsb_exists. split.
  - intros H k Hk. apply Z.nlt_ge. intros Hgt. apply H. exists (k, signer). rewrite <- list_elem_of_In, elem_of_map_to_list.
    split; [done|]. cbn [fst snd]. rewrite Z.eqb_refl. cbn [andb]. lia.
  - intros H ([k a] & Hin & E). rewrite <- list_elem_of_In, elem_of_map_to_list in Hin. cbn [fst snd] in E.
    apply andb_prop in E as [E1 E2]. apply Z.eqb_eq in E1 as ->. specialize (H k Hin). lia.
Qed.

(** Once there are as many blocks as the limit, both check the same. *)
Lemma recents_agree n s signer :
  0 <= n -> n + 1 < 2 ^ 63 -> limitOf s <= n + 1 -> snap_ok n s ->
  sealRefuses s (n + 1) signer = isRecent (set_Recents (shifted (n + 1) (limitOf s) (s_Recents s)) s) signer.
Proof.
  intros Hn Hlt Hl Hok. pose proof (limit_pos s) as Hp. apply eq_iff_eq_false.
  rewrite sealRefuses_spec, isRecent_spec. cbn [s_Recents set_Recents].
  rewrite u64_id by lia. split.
  - intros H k Hk. destruct (shifted_window n _ _ _ _ (so_recents _ _ Hok) Hk).
    pose proof (lookup_weaken _ _ _ _ Hk (shifted_subseteq _ _ _)) as Hk'. specialize (H k Hk'). lia.
  - intros H k Hk. apply Z.nlt_ge. intros Hgt. apply (H k). by rewrite shifted_keeps by lia.
Qed.

(** On the first blocks the subtraction of [verifySeal] wraps. *)
Lemma recents_early n s signer :
  0 <= n -> n + 1 < limitOf s -> limitOf s < 2 ^ 63 -> snap_ok n s -> sealRefuses s (n + 1) signer = false.
Proof.
  intros Hn Hl Hs Hok. apply sealRefuses_spec. intros k Hk. apply (so_recents _ _ Hok) in Hk as [_ Hk].
  assert (u64 (n + 1 - limitOf s) = 2 ^ 64 + (n + 1 - limitOf s)) as ->; [|lia].
  unfold u64, u64_modulus. symmetry. apply (Z.mod_unique_pos _ _ (-1)); lia.
Qed.
End accept.

(** ** The order of the signers *)

Lemma pass_spec x l m l' : pass x l = (m, l') -> m :: l' ≡ₚ x :: l /\ m <= x /\ Forall (Z.le m) l' /\ length l' = length l.
Proof.
  revert x m l'. induction l as [|y l IH]; intros x m l' E; cbn [pass] in E.
  - injection E as <- <-. split; [done|]. split; [lia|]. by split; [constructor|].
  - destruct (Z.gtb_spec x y) as [Hxy|Hxy].
    + destruct (pass y l) as [m1 l1] eqn:E1. injection E as <- <-. destruct (IH y m1 l1 E1) as (I1 & I2 & I3 & I4).
      split; [|split; [lia|split; [constructor; [lia|done]|cbn [length]; lia]]].
      etransitivity; [apply perm_swap|]. by rewrite I1.
    + destruct (pass x l) as [m1 l1] eqn:E1. injection E as <- <-. destruct (IH x m1 l1 E1) as (I1 & I2 & I3 & I4).
      split; [|split; [lia|split; [constructor; [lia|done]|cbn [length]; lia]]].
      etransitivity; [apply perm_swap|]. rewrite I1. apply perm_swap.
Qed.

Lemma exchangeSort_spec n l : length l = n -> exchangeSort n l ≡ₚ l /\ StronglySorted Z.le (exchangeSort n l).
Proof.
  revert l. induction n as [|n IH]; intros [|x l] Hl; try done; cbn [exchangeSort].
  - split; [done|constructor].
  - destruct (pass x l) as [m l'] eqn:E. destruct (pass_spec x l m l' E) as (P1 & P2 & P3 & P4). cbn [length] in Hl.
    destruct (IH l' ltac:(lia)) as [I1 I2]. split; [by rewrite I1|]. constructor; [done|].
    rewrite Forall_forall in *. intros y Hy. apply P3. by rewrite <- I1.
Qed.

(** The range over the set finds each signer once. *)
Definition ranges (order : gset Address -> list Address) (s : Snapshot) : Prop :=
  order (s_Signers s) ≡ₚ elements (s_Signers s).

Lemma signers_perm order s : ranges order s -> signers order s ≡ₚ elements (s_Signers s).
Proof. intros H. etransitivity; [|exact H]. by apply exchangeSort_spec. Qed.

Lemma signers_unique order1 order2 s : ranges order1 s -> ranges order2 s -> signers order1 s = signers order2 s.
Proof.
  intros H1 H2. apply (StronglySorted_unique Z.le); [apply exchangeSort_spec; done..|].
  by rewrite !signers_perm.
Qed.

Lemma offsetOf_spec a l (i : nat) : NoDup l -> (i < length l)%nat -> offsetOf a l = Z.of_nat i <-> l !! i = Some a.
Proof.
  intros Hnd. revert i. induction Hnd as [|b l Hb Hnd IH]; intros i Hi; cbn [length] in Hi; [lia|]. cbn [offsetOf].
  assert (forall a l, 0 <= offsetOf a l) as Hpos.
  { clear. intros a l. induction l as [|b l IH]; cbn [offsetOf]; [done|]. destruct (_ =? _); lia. }
  destruct (Z.eqb_spec b a) as [->|Hne]; destruct i as [|i]; cbn.
  - done.
  - split; [lia|]. intros E. exfalso. by eapply Hb, list_elem_of_lookup_2.
  - split; [|congruence]. specialize (Hpos a l). lia.
  - rewrite <- (IH i) by lia. lia.
Qed.

Lemma signers_length order s : ranges order s -> zlen (signers order s) = Z.of_nat (size (s_Signers s)).
Proof. intros H. unfold zlen, size, set_size. cbn. by rewrite (signers_perm order s H). Qed.

Lemma inturn_spec order s number a :
  ranges order s -> s_Signers s <> ∅ ->
  inturn order s number a =
    Some (bool_decide (signers order s !! Z.to_nat (number mod Z.of_nat (size (s_Signers s))) = Some a)).
Proof.
  intros Hr Hne. assert (0 < Z.of_nat (size (s_Signers s))) as Hp.
  { assert (size (s_Signers s) <> 0%nat); [|lia]. intros H0. by apply Hne, leibniz_equiv, size_empty_iff. }
  unfold inturn. rewrite (signers_length order s Hr). destruct (Z.eqb_spec (Z.of_nat (size (s_Signers s))) 0); [lia|].
  pose proof (Z.mod_pos_bound number (Z.of_nat (size (s_Signers s))) Hp) as Hb.
  f_equal. set (k := number mod _) in *. pose proof (signers_length order s Hr) as Hlen. unfold zlen in Hlen.
  assert (NoDup (signers order s)) as Hnd by (rewrite signers_perm by done; apply NoDup_elements).
  pose proof (offsetOf_spec a _ (Z.to_nat k) Hnd ltac:(lia)) as Ho. rewrite Z2Nat.id in Ho by lia.
  destruct (Z.eqb_spec k (offsetOf a (signers order s))) as [E|E]; symmetry;
    [apply bool_decide_eq_true|apply bool_decide_eq_false]; rewrite <- Ho; congruence.
Qed.
