(* ===== verification/CliqueEngine.v ===== *)
(** * consensus/clique/clique.go: the engine

    [snapshot] finds the votes at a block by going back to a snapshot it has
    kept and applying the headers since; [verifyHeader], [verifySeal],
    [Prepare] and [Seal] use it.  The two stores of snapshots, the cache in
    memory (a third-party ARC cache) and the database (which holds them as
    JSON), are the class [SnapshotStores]: either may have forgotten anything.
    [genesis] is [chain.GetHeaderByNumber(0)] and [now] the clock.

    Shown: with stores that hold only snapshots of the chain, [snapshot] returns
    what replaying all the headers gives. *)

From Stdlib Require Import ZArith Lia Bool.
From S2P Require Import Prelude GoMath Rlp TrieHasher Params StateInterface BlockTypes Ethash Clique CliqueSpec.
Local Open Scope Z_scope.
Local Open Scope go_scope.

Class SnapshotStores := {
  stores : Type;
  recentsGet : stores -> Hash -> option Snapshot;
  recentsAdd : stores -> Hash -> Snapshot -> stores;
  loadSnapshot : stores -> Hash -> option Snapshot;
  storeSnapshot : stores -> Snapshot -> option stores      (** [None]: the write failed *)
}.

(** A step that may fail. *)
Notation "'let?' x := m 'in' k" :=
  (bind m (fun r => match r with inl e => ret (inl e) | inr x => k end))
  (at level 10, x name, m at level 100, k at level 200) : go_scope.

(** The signers in the extra field of the genesis block. *)
Fixpoint genesisSigners (n : nat) (bytes : list byte) : list Address :=
  match n with
  | O => []
  | S n => SetBytes (take (Z.to_nat AddressLength) bytes) :: genesisSigners n (drop (Z.to_nat AddressLength) bytes)
  end.

(** The checkpoint list of signers, as bytes. *)
Definition signersBytes (l : list Address) : list byte := concat (map (be_bytes (Z.to_nat AddressLength)) l).

Section engine.
Context {K : Sha3} {C : Crypto} {chain : ChainReader} {D : SnapshotStores}.
Variable sigcache : Hash -> option Address.
Variable order : gset Address -> list Address.
Variable config : CliqueConfig.
Variable genesis : option Header.
Variable now : Z.

Definition M' (A : Type) : Type := M stores (cliqueErr + A).

(** The checks of [verifyHeader] that need no other header. *)
Definition verifyBasic (header : Header) : option cliqueErr :=
  let number := u64 (h_Number header) in
  let checkpoint := number mod Epoch config =? 0 in
  if h_Time header >? now then Some errFutureBlock
  else if checkpoint && negb (h_Coinbase header =? 0) then Some errInvalidCheckpointBeneficiary
  else if negb (h_Nonce header =? nonceAuthVote) && negb (h_Nonce header =? nonceDropVote) then Some errInvalidVote
  else if checkpoint && negb (h_Nonce header =? nonceDropVote) then Some errInvalidCheckpointVote
  else if zlen (h_Extra header) <? extraVanity then Some errMissingVanity
  else if zlen (h_Extra header) <? extraVanity + extraSeal then Some errMissingSignature
  else
    let signersBytes := zlen (h_Extra header) - extraVanity - extraSeal in
    if negb checkpoint && negb (signersBytes =? 0) then Some errExtraSigners
    else if checkpoint && negb (signersBytes mod AddressLength =? 0) then Some errInvalidCheckpointSigners
    else if negb (h_MixDigest header =? 0) then Some errMixDigest
    else if negb (h_UncleHash header =? EmptyUncleHash) then Some errInvalidUncleHash
    else if (number >? 0) && (negb (h_Difficulty header =? diffInTurn) && negb (h_Difficulty header =? diffNoTurn))
    then Some errDifficulty
    else match VerifyForkHashes Config header false with Some _ => Some errForkHashes | None => None end.

(** ** snapshot *)

Section snapshot.
Variable verify : Header -> M' unit.

Definition genesisSnapshot : M' Snapshot :=
  let* g := must genesis in
  let? _ := verify g in
  let n := (zlen (h_Extra g) - extraVanity - extraSeal) ÷ AddressLength in
  let snap := newSnapshot 0 (Header_Hash g)
    (genesisSigners (Z.to_nat n) (drop (Z.to_nat extraVanity) (h_Extra g))) in
  let* st := get in
  match storeSnapshot st snap with
  | None => ret (inl errStore)
  | Some st => put st ;; ret (inr snap)
  end.

(** The header with this hash and number: the last of the explicit parents,
    while there are any, and else what the chain has. *)
Definition nextHeader (number : Z) (hash : Hash) (parents : list Header) : cliqueErr + Header * list Header :=
  match last parents with
  | Some header =>
      if negb (Header_Hash header =? hash) || negb (u64 (h_Number header) =? number) then inl errUnknownAncestor
      else inr (header, removelast parents)
  | None =>
      match GetHeader hash number with
      | None => inl errUnknownAncestor
      | Some header => inr (header, [])
      end
  end.

(** The loop of [snapshot] at block [number]: the nearest snapshot at or below
    it, and the headers above, the highest first. *)
Fixpoint gather (number : nat) (hash : Hash) (parents headers : list Header) : M' (Snapshot * list Header) :=
  let* st := get in
  match recentsGet st hash with
  | Some s => ret (inr (s, headers))
  | None =>
      match (if Z.of_nat number mod checkpointInterval =? 0 then loadSnapshot st hash else None) with
      | Some s => ret (inr (s, headers))
      | None =>
          match number with
          | O => let? s := genesisSnapshot in ret (inr (s, headers))
          | S number' =>
              match nextHeader (Z.of_nat number) hash parents with
              | inl e => ret (inl e)
              | inr (header, parents) => gather number' (h_ParentHash header) parents (headers ++ [header])
              end
          end
      end
  end.

Definition snapshot (number : Z) (hash : Hash) (parents : list Header) : M' Snapshot :=
  let? found := gather (Z.to_nat number) hash parents [] in
  match apply sigcache config found.1 (rev found.2) with
  | inl e => ret (inl e)
  | inr snap =>
      modify (fun st => recentsAdd st (s_Hash snap) snap) ;;
      if (s_Number snap mod checkpointInterval =? 0) && (0 <? zlen found.2) then
        let* st := get in
        match storeSnapshot st snap with
        | None => ret (inl errStore)
        | Some st => put st ;; ret (inr snap)
        end
      else ret (inr snap)
  end.

(** ** Verification *)

Definition verifySeal (header : Header) (parents : list Header) : M' unit :=
  let number := u64 (h_Number header) in
  if number =? 0 then ret (inl errUnknownBlock)
  else
    let? snap := snapshot (number - 1) (h_ParentHash header) parents in
    let* r := must (verifySealWith sigcache order snap header) in
    match r with
    | Some e => ret (inl e)
    | None => ret (inr tt)
    end.

Definition verifyCascadingFields (header : Header) (parents : list Header) : M' unit :=
  let number := u64 (h_Number header) in
  if number =? 0 then ret (inr tt)
  else
    let parent := match last parents with
                  | Some p => Some p
                  | None => GetHeader (h_ParentHash header) (number - 1)
                  end in
    match parent with
    | None => ret (inl errUnknownAncestor)
    | Some parent =>
        if negb (u64 (h_Number parent) =? number - 1) || negb (Header_Hash parent =? h_ParentHash header)
        then ret (inl errUnknownAncestor)
        else if u64 (u64 (h_Time parent) + Period config) >? u64 (h_Time header) then ret (inl ErrInvalidTimestamp)
        else
          let? snap := snapshot (number - 1) (h_ParentHash header) parents in
          if number mod Epoch config =? 0 then
            let* extra := must (slice (h_Extra header) extraVanity (zlen (h_Extra header) - extraSeal)) in
            if negb (bool_decide (extra = signersBytes (signers order snap))) then ret (inl errInvalidCheckpointSigners)
            else verifySeal header parents
          else verifySeal header parents
    end.
End snapshot.

(** The genesis block is verified from within [snapshot]: the fuel bounds how
    deep. *)
Fixpoint verifyHeader (fuel : nat) (header : Header) (parents : list Header) : M' unit :=
  match fuel with
  | O => fun _ => OutOfFuel
  | S fuel =>
      match verifyBasic header with
      | Some e => ret (inl e)
      | None => verifyCascadingFields (fun g => verifyHeader fuel g []) header parents
      end
  end.

(** ** Sealing *)

Section sealing.
Variable verify : Header -> M' unit.
Variable signer : Address.

(** The [proposals] in the order [range] finds them; [rand] is [rand.Intn]. *)
Definition Prepare (proposals : list (Address * bool)) (rand : Z -> Z) (header : Header) : M' Header :=
  let number := u64 (h_Number header) in
  let? snap := snapshot verify (u64 (number - 1)) (h_ParentHash header) [] in
  let valid := List.filter (fun p => validVote snap p.1 p.2) proposals in
  let* vote :=
    if (number mod Epoch config =? 0) || (zlen valid =? 0) then ret (0, nonceDropVote)
    else
      let* p := must (index valid (rand (zlen valid))) in
      ret (p.1, if (p.2 : bool) then nonceAuthVote else nonceDropVote) in
  let* difficulty := must (CalcDifficultyOf order snap signer) in
  let vanity := take (Z.to_nat extraVanity) (h_Extra header ++ replicate (Z.to_nat extraVanity) x00) in
  let list := if number mod Epoch config =? 0 then signersBytes (signers order snap) else [] in
  let extra := vanity ++ list ++ replicate (Z.to_nat extraSeal) x00 in
  match GetHeader (h_ParentHash header) (u64 (number - 1)) with
  | None => ret (inl errUnknownAncestor)
  | Some parent =>
      let time := h_Time parent + Period config in
      let time := if i64 time <? now then now else time in
      ret (inr (mkHeader (h_ParentHash header) (h_UncleHash header) vote.1 (h_Root header) (h_TxHash header)
        (h_ReceiptHash header) (h_Bloom header) difficulty (h_Number header) (h_GasLimit header) (h_GasUsed header)
        time extra 0 vote.2))
  end.

Definition set_Extra (e : list byte) (h : Header) : Header :=
  mkHeader (h_ParentHash h) (h_UncleHash h) (h_Coinbase h) (h_Root h) (h_TxHash h) (h_ReceiptHash h)
    (h_Bloom h) (h_Difficulty h) (h_Number h) (h_GasLimit h) (h_GasUsed h) (h_Time h) e (h_MixDigest h) (h_Nonce h).

(** [copy(extra\[len(extra)-extraSeal:\], sighash)]. *)
Definition copySeal (extra sighash : list byte) : list byte :=
  let n := Z.to_nat (zlen extra - extraSeal) in
  let s := take (Z.to_nat extraSeal) sighash in
  take n extra ++ s ++ drop (n + length s) extra.

(** How a sealing ends: stopped from outside, or with a sealed header.  [Waits]
    blocks until it is stopped. *)
Inductive sealing := Stopped | Waits | Sealed (header : Header).

(** Whether the signer has to wait for others. *)
Definition mustWait (snap : Snapshot) (number : Z) : bool :=
  existsb (fun e => (e.2 =? signer) && ((number <? limitOf snap) || (e.1 >? u64 (number - limitOf snap))))
    (map_to_list (s_Recents snap)).

(** [txs] is the number of transactions; [stopped] says that the stop comes
    before the timer. *)
Definition Seal (signFn : Address -> list byte -> option (list byte)) (stopped : bool) (txs : Z) (header : Header) :
    M' sealing :=
  let number := u64 (h_Number header) in
  if number =? 0 then ret (inl errUnknownBlock)
  else if (Period config =? 0) && (txs =? 0) then ret (inl errWaitTransactions)
  else
    let? snap := snapshot verify (number - 1) (h_ParentHash header) [] in
    if negb (bool_decide (signer ∈ s_Signers snap)) then ret (inl errUnauthorized)
    else if mustWait snap number then ret (inr Waits)
    else if stopped then ret (inr Stopped)
    else
      let* h := must (sigHash header) in
      match signFn signer (be_bytes 32 h) with
      | None => ret (inl errSign)
      | Some sighash => ret (inr (Sealed (set_Extra (copySeal (h_Extra header) sighash) header)))
      end.
End sealing.
End engine.

(** ** The engine's invariants

    Along a chain of headers, the snapshot of a block is what [apply] makes of
    all headers from the genesis block on ([replay]).  The engine keeps
    snapshots in two stores; as long as those are [right], it finds the same. *)

(** What is found in a store has been put there. *)
Class StoresLaws (D : SnapshotStores) := {
  recents_found st h s k t : recentsGet (recentsAdd st h s) k = Some t -> k = h /\ t = s \/ recentsGet st k = Some t;
  recents_load st h s k : loadSnapshot (recentsAdd st h s) k = loadSnapshot st k;
  store_found st s st' k t :
    storeSnapshot st s = Some st' -> loadSnapshot st' k = Some t -> k = s_Hash s /\ t = s \/ loadSnapshot st k = Some t;
  store_recents st s st' k : storeSnapshot st s = Some st' -> recentsGet st' k = recentsGet st k
}.

Lemma apply_app {K : Sha3} {C : Crypto} sigcache config s l1 l2 s1 :
  0 <= s_Number s -> s_Number s + zlen (l1 ++ l2) < 2 ^ 63 -> numbered (s_Number s) (l1 ++ l2) ->
  apply sigcache config s l1 = inr s1 -> apply sigcache config s (l1 ++ l2) = apply sigcache config s1 l2.
Proof.
  intros H0 Hl Hn E. unfold zlen in Hl. rewrite length_app in Hl.
  pose proof (apply_inv sigcache config s l1 s1 H0 ltac:(unfold zlen; lia) E) as (_ & s2 & E1 & ->).
  rewrite numbered_app in Hn. destruct Hn as [Hn1 Hn2].
  rewrite apply_numbered; [|done|unfold zlen; rewrite length_app; lia|by rewrite numbered_app].
  rewrite applyLoop_app, E1. rewrite apply_numbered; [|cbn [at_tip stamp s_Number]; unfold zlen; lia..|exact Hn2].
  change (applyLoop sigcache config (at_tip s l1 s2) l2) with
    (applyLoop sigcache config (stamp (s_Number s + zlen l1) (tipHash (s_Hash s) l1) s2) l2). rewrite applyLoop_stamp. destruct (applyLoop _ _ s2 l2) as [e|s3]; [done|]. cbn [sum_map]. f_equal.
  unfold at_tip, stamp. cbn [s_Number s_Hash s_Signers s_Recents s_Votes s_Tally]. f_equal.
  - unfold zlen. rewrite length_app. lia.
  - unfold tipHash. destruct l2 as [|h l2 _] using rev_ind; [by rewrite app_nil_r|]. by rewrite app_assoc, !last_snoc.
Qed.

Section chain.
Context {K : Sha3} {C : Crypto} {chain : ChainReader} {D : SnapshotStores} {L : StoresLaws D}.
Variable sigcache : Hash -> option Address.
Variable config : CliqueConfig.
Variable genesis : option Header.
Variable verify : Header -> M' unit.

(** The genesis block and the headers after it; the chain has the first [known]
    of them. *)
Variable g : Header.
Variable hs : list Header.
Variable known : nat.

Definition hashAt (k : nat) : Hash := tipHash (Header_Hash g) (take k hs).

Record chain_ok : Prop := {
  ch_genesis : genesis = Some g;
  ch_verified st : verify g st = Ret (inr tt, st);
  ch_numbered : numbered 0 hs;
  ch_length : zlen hs < 2 ^ 63;
  ch_parent k h : hs !! k = Some h -> h_ParentHash h = hashAt k;
  ch_known k h : (k < known)%nat -> hs !! k = Some h -> GetHeader (Header_Hash h) (Z.of_nat (S k)) = Some h;
  ch_inj i j : (i <= length hs)%nat -> (j <= length hs)%nat -> hashAt i = hashAt j -> i = j
}.

(** The snapshot of the genesis block. *)
Definition genesisOf : Snapshot :=
  newSnapshot 0 (Header_Hash g)
    (genesisSigners (Z.to_nat ((zlen (h_Extra g) - extraVanity - extraSeal) ÷ AddressLength))
       (drop (Z.to_nat extraVanity) (h_Extra g))).

(** The snapshot of block [k], from the genesis block on. *)
Definition replay (k : nat) : cliqueErr + Snapshot := apply sigcache config genesisOf (take k hs).

Definition right (st : stores) : Prop :=
  forall k s, (k <= length hs)%nat ->
    recentsGet st (hashAt k) = Some s \/ loadSnapshot st (hashAt k) = Some s -> replay k = inr s.

Hypothesis Hc : chain_ok.

Lemma hashAt_S k h : hs !! k = Some h -> hashAt (S k) = Header_Hash h.
Proof. intros Hk. unfold hashAt. rewrite (take_S_r _ _ h Hk). unfold tipHash. by rewrite last_snoc. Qed.

Lemma replay_hash k s : (k <= length hs)%nat -> replay k = inr s -> s_Hash s = hashAt k /\ s_Number s = Z.of_nat k.
Proof.
  intros Hk E. pose proof (ch_length Hc). unfold zlen in *.
  assert (s_Number genesisOf + zlen (take k hs) < 2 ^ 64) as Hl.
  { cbn [genesisOf newSnapshot s_Number]. unfold zlen. rewrite length_take. lia. }
  destruct (apply_inv sigcache config genesisOf (take k hs) s ltac:(done) Hl E) as (_ & s1 & _ & ->).
  split; [done|]. cbn [at_tip stamp s_Number genesisOf newSnapshot]. unfold zlen. rewrite length_take. lia.
Qed.

Lemma replay_from i k s : (i <= k <= length hs)%nat -> replay i = inr s ->
  apply sigcache config s (drop i (take k hs)) = replay k.
Proof.
  intros Hik E. unfold replay in *. pose proof (ch_length Hc) as Hl. pose proof (ch_numbered Hc) as Hn.
  rewrite <- (take_drop k hs), numbered_app in Hn. destruct Hn as [Hn _].
  pose proof (take_drop i (take k hs)) as Hs. rewrite take_take, Nat.min_l in Hs by lia.
  rewrite <- Hs at 2. symmetry. apply apply_app; rewrite ?Hs; try done.
  cbn [genesisOf newSnapshot s_Number]. unfold zlen in *. rewrite length_take. lia.
Qed.

Lemma right_recents st k s : (k <= length hs)%nat -> right st -> replay k = inr s -> right (recentsAdd st (s_Hash s) s).
Proof.
  intros Hk Hr E j t Hj. rewrite recents_load. intros [[[E1 ->]|E1]%recents_found|E1].
  - destruct (replay_hash k s Hk E) as [E2 _]. assert (j = k) as -> by (apply (ch_inj Hc); congruence). done.
  - apply (Hr j t); auto.
  - apply (Hr j t); auto.
Qed.

Lemma right_store st k s st' :
  (k <= length hs)%nat -> right st -> replay k = inr s -> storeSnapshot st s = Some st' -> right st'.
Proof.
  intros Hk Hr E Est j t Hj. rewrite (store_recents st s st' _ Est). intros [E1|E1].
  - apply (Hr j t); auto.
  - destruct (store_found _ _ _ _ _ Est E1) as [[E2 ->]|E2]; [|apply (Hr j t); auto].
    destruct (replay_hash k s Hk E) as [E3 _]. assert (j = k) as -> by (apply (ch_inj Hc); congruence). done.
Qed.

(** No write to the database fails. *)
Definition writable : Prop := forall st s, is_Some (storeSnapshot st s).

Lemma nextHeader_right k h :
  hs !! k = Some h -> nextHeader (Z.of_nat (S k)) (hashAt (S k)) (drop known (take (S k) hs)) =
    inr (h, drop known (take k hs)).
Proof.
  intros Hk. rewrite (hashAt_S k h Hk). unfold nextHeader.
  pose proof (lookup_lt_Some _ _ _ Hk) as Hlt. rewrite (take_S_r _ _ h Hk).
  assert (length (take k hs) = k) as Hlen by (rewrite length_take; lia).
  destruct (Nat.lt_ge_cases k known) as [Hlt'|Hge].
  - rewrite !drop_ge by (rewrite ?length_app; cbn [length]; lia). cbn [last]. by rewrite (ch_known Hc k h).
  - rewrite drop_app_le by lia. rewrite last_snoc, removelast_last, Z.eqb_refl.
    rewrite (numbered_lookup 0 hs k h (ch_numbered Hc) Hk). destruct (Z.eqb_spec (0 + 1 + Z.of_nat k) (Z.of_nat (S k))); [done|lia].
Qed.

(** The loop of [snapshot] ends at some block [i] below, whose snapshot it has. *)
Lemma gather_right k : forall acc st, (k <= length hs)%nat -> writable -> right st ->
  exists i s st', gather genesis verify k (hashAt k) (drop known (take k hs)) acc st =
    Ret (inr (s, acc ++ rev (drop i (take k hs))), st') /\ right st' /\ (i <= k)%nat /\ replay i = inr s.
Proof.
  assert (forall k acc st s, (k <= length hs)%nat -> right st ->
    recentsGet st (hashAt k) = Some s \/ loadSnapshot st (hashAt k) = Some s ->
    exists i s1 st', (Ret (inr (s, acc), st) : outcome ((cliqueErr + Snapshot * list Header) * stores)) = Ret (inr (s1, acc ++ rev (drop i (take k hs))), st') /\
      right st' /\ (i <= k)%nat /\ replay i = inr s1) as Hhit.
  { intros k' acc st s Hk Hr Hs. exists k', s, st. rewrite drop_ge by (rewrite length_take; lia). rewrite app_nil_r.
    split; [done|]. split; [done|]. split; [done|]. by apply Hr with (k := k'). }
  induction k as [|k IH]; intros acc st Hk Hw Hr; cbn [gather]; unfold bind, get;
    (destruct (recentsGet st _) as [s|] eqn:Er; [by apply Hhit; auto|]);
    (set (found := if _ =? 0 then _ else _); destruct found as [s|] eqn:Ef;
      [apply Hhit; [done..|]; right; subst found; destruct (_ =? 0); [exact Ef|done]|]).
  - unfold genesisSnapshot, must. rewrite (ch_genesis Hc). unfold bind, ret, get, put. rewrite (ch_verified Hc).
    fold genesisOf. destruct (Hw st genesisOf) as [st' Hst]. rewrite Hst. exists 0%nat, genesisOf, st'.
    rewrite take_0, drop_nil, app_nil_r. split; [done|]. split; [|done].
    eapply (right_store st 0 genesisOf); [lia|done|done|done].
  - destruct (lookup_lt_is_Some_2 hs k ltac:(lia)) as [h Hh]. rewrite (nextHeader_right k h Hh), (ch_parent Hc k h Hh).
    destruct (IH (acc ++ [h]) st ltac:(lia) Hw Hr) as (i & s & st' & E & Hr' & Hi & Hs). exists i, s, st'.
    rewrite E. split; [|split; [done|split; [lia|done]]]. do 3 f_equal.
    assert (length (take k hs) = k) as Hlen by (rewrite length_take; lia).
    rewrite (take_S_r _ _ h Hh), drop_app_le, rev_app_distr by lia. by rewrite <- app_assoc.
Qed.

(** The engine's snapshot is the replay, and the stores stay right. *)
Lemma snapshot_right k st : (k <= length hs)%nat -> writable -> right st ->
  exists st', snapshot sigcache config genesis verify (Z.of_nat k) (hashAt k) (drop known (take k hs)) st =
    Ret (replay k, st') /\ right st'.
Proof.
  intros Hk Hw Hr. unfold snapshot, bind. rewrite Nat2Z.id.
  destruct (gather_right k [] st Hk Hw Hr) as (i & s & st1 & -> & Hr1 & Hi & Hs). cbn [fst snd app].
  rewrite rev_involutive, (replay_from i k s) by done. destruct (replay k) as [e|s'] eqn:Es; [by exists st1|].
  pose proof (right_recents st1 k s' Hk Hr1 Es) as Hr2. unfold modify, get, put, ret.
  destruct (_ && _); [|by eexists]. destruct (Hw (recentsAdd st1 (s_Hash s') s') s') as [st2 Hst]. rewrite Hst.
  exists st2. split; [done|]. by eapply (right_store _ k s').
Qed.
End chain.

(** ** Verification on the replayed snapshot *)

Section verdict.
Context {K : Sha3} {C : Crypto} {chain : ChainReader} {D : SnapshotStores} {L : StoresLaws D}.
Variable sigcache : Hash -> option Address.
Variable order : gset Address -> list Address.
Variable config : CliqueConfig.
Variable genesis : option Header.
Variable now : Z.
Variable g : Header.
Variable hs : list Header.
Variable known : nat.

(** The block below header [k]. *)
Definition parentAt (k : nat) : Header := default g (last (take k hs)).

(** The answer to header [k] that follows from the headers below alone.  [None]
    is a panic. *)
Definition verdict (k : nat) (h : Header) : option (cliqueErr + unit) :=
  match verifyBasic config now h with
  | Some e => Some (inl e)
  | None =>
      if u64 (u64 (h_Time (parentAt k)) + Period config) >? u64 (h_Time h) then Some (inl ErrInvalidTimestamp)
      else
        match replay sigcache config g hs k with
        | inl e => Some (inl e)
        | inr snap =>
            if (u64 (h_Number h) mod Epoch config =? 0) &&
               negb (bool_decide (slice (h_Extra h) extraVanity (zlen (h_Extra h) - extraSeal) =
                                  Some (signersBytes (signers order snap))))
            then Some (inl errInvalidCheckpointSigners)
            else (fun r => match r with Some e => inl e | None => inr tt end) <$> verifySealWith sigcache order snap h
        end
  end.

Lemma genesis_verified fuel st :
  verifyBasic config now g = None -> u64 (h_Number g) = 0 ->
  verifyHeader sigcache order config genesis now (S fuel) g [] st = Ret (inr tt, st).
Proof. intros Hb Hn. cbn [verifyHeader]. rewrite Hb. unfold verifyCascadingFields. by rewrite Hn. Qed.

Lemma verifyBasic_extra h : verifyBasic config now h = None ->
  is_Some (slice (h_Extra h) extraVanity (zlen (h_Extra h) - extraSeal)).
Proof.
  unfold verifyBasic. cbv zeta. destruct (Z.ltb_spec (zlen (h_Extra h)) (extraVanity + extraSeal)) as [Hl|Hl]; intros H.
  - exfalso. repeat (match type of H with (if ?b then _ else _) = _ => destruct b; [discriminate H|] end). discriminate H.
  - unfold slice, extraVanity, extraSeal in *. cbn [Z.leb]. change (32 + 65) with 97 in Hl.
    destruct (Z.leb_spec 32 (zlen (h_Extra h) - 65)); [|lia]. destruct (Z.leb_spec (zlen (h_Extra h) - 65) (zlen (h_Extra h))); [|lia].
    by eexists.
Qed.

(** The parent is among the explicit ones, or on the chain. *)
Lemma parent_found verify k :
  chain_ok genesis verify g hs known -> GetHeader (Header_Hash g) 0 = Some g -> u64 (h_Number g) = 0 ->
  (k <= length hs)%nat ->
  (match last (drop known (take k hs)) with Some p => Some p | None => GetHeader (hashAt g hs k) (Z.of_nat k) end) =
    Some (parentAt k) /\ u64 (h_Number (parentAt k)) = Z.of_nat k /\ Header_Hash (parentAt k) = hashAt g hs k.
Proof.
  intros Hc Hg Hg0 Hk. destruct k as [|k]; [by rewrite take_0, drop_nil|].
  destruct (lookup_lt_is_Some_2 hs k Hk) as [p Hp]. rewrite (hashAt_S g hs k p Hp).
  unfold parentAt. rewrite (take_S_r _ _ p Hp), last_snoc. cbn [default from_option id].
  split; [|split; [|done]].
  - assert (length (take k hs) = k) as Hlen by (rewrite length_take; lia).
    destruct (Nat.lt_ge_cases k known) as [Hlt|Hge].
    + rewrite drop_ge by (rewrite length_app; cbn [length]; lia). by apply (ch_known _ _ _ _ _ Hc).
    + rewrite drop_app_le by lia. by rewrite last_snoc.
  - rewrite (numbered_lookup 0 hs k p (ch_numbered _ _ _ _ _ Hc) Hp). lia.
Qed.

End verdict.

(** ** Sealing *)

Section seal.
Context {K : Sha3} {C : Crypto} {chain : ChainReader} {D : SnapshotStores}.
Variable sigcache : Hash -> option Address.

(** The signing function has the key of the account. *)
Definition signs (signFn : Address -> list byte -> option (list byte)) (signer : Address) : Prop :=
  forall h sig, signFn signer h = Some sig ->
    length sig = 65%nat /\
    exists pubkey, Ecrecover h sig = Some pubkey /\ SetBytes (drop 12 (keccak256 (drop 1 pubkey))) = signer.

Lemma slice_seal (extra e : list byte) : slice extra 0 (zlen extra - extraSeal) = Some e ->
  (65 <= length extra)%nat /\ e = take (length extra - 65) extra.
Proof.
  unfold slice, zlen, extraSeal. destruct (_ && _) eqn:E; [|done]. apply andb_prop in E as [E _]. apply andb_prop in E as [_ E].
  intros [= <-]. split; [lia|]. rewrite drop_0. f_equal. lia.
Qed.

(** The seal is not part of what is signed. *)
Lemma sealed_recovers header signFn signer h sig :
  signs signFn signer -> sigHash header = Some h -> signFn signer (be_bytes 32 h) = Some sig ->
  let sealed := set_Extra (copySeal (h_Extra header) sig) header in
  sigcache (Header_Hash sealed) = None -> ecrecover sigcache sealed = inr signer.
Proof.
  intros Hs Hh Hsig sealed Hcache. destruct (Hs _ _ Hsig) as (Hlen & pubkey & Hr & Ha). unfold sigHash in Hh.
  destruct (slice (h_Extra header) 0 _) as [e|] eqn:He; [|done]. destruct (slice_seal _ _ He) as [Hl ->]. apply (inj Some) in Hh.
  assert (h_Extra sealed = take (length (h_Extra header) - 65) (h_Extra header) ++ sig) as Hx.
  { cbn [sealed set_Extra h_Extra]. unfold copySeal, zlen, extraSeal.
    rewrite (take_ge sig) by (change (Z.to_nat 65) with 65%nat; lia).
    replace (Z.to_nat _) with (length (h_Extra header) - 65)%nat by lia.
    rewrite (drop_ge (h_Extra header)), app_nil_r by lia. done. }
  assert (length (take (length (h_Extra header) - 65) (h_Extra header)) = length (h_Extra header) - 65)%nat as Ht
    by (rewrite length_take; lia).
  assert (Z.to_nat (zlen (h_Extra sealed) - extraSeal) = length (h_Extra header) - 65)%nat as Hd.
  { unfold zlen, extraSeal. rewrite Hx, length_app, Ht. lia. }
  unfold ecrecover. rewrite Hcache. destruct (Z.ltb_spec (zlen (h_Extra sealed)) extraSeal) as [Hlt|_].
  { exfalso. unfold zlen, extraSeal in Hlt. rewrite Hx, length_app, Ht in Hlt. lia. }
  rewrite Hd. unfold sigHash, slice.
  destruct (Z.leb_spec 0 (zlen (h_Extra sealed) - extraSeal)) as [_|Hlt].
  2: { exfalso. unfold zlen, extraSeal in Hlt. rewrite Hx, length_app, Ht in Hlt. lia. }
  destruct (Z.leb_spec (zlen (h_Extra sealed) - extraSeal) (zlen (h_Extra sealed))) as [_|Hlt]; [|unfold extraSeal in Hlt; lia].
  cbn [andb Z.leb Z.compare]. rewrite Z.sub_0_r, Hd, drop_0, Hx, drop_app_length', take_app_length' by done.
  change (headerPrefix sealed) with (headerPrefix header). change (h_MixDigest sealed) with (h_MixDigest header).
  change (h_Nonce sealed) with (h_Nonce header). by rewrite Hh, Hr, Ha.
Qed.

Lemma mustWait_spec signer s number : mustWait signer s number = false <->
  forall k, s_Recents s !! k = Some signer -> limitOf s <= number /\ k <= u64 (number - limitOf s).
Proof.
  unfold mustWait. rewrite <- not_true_iff_false, existsb_exists. split.
  - intros H k Hk. apply dec_stable. intros Hn. apply H. exists (k, signer).
    rewrite <- list_elem_of_In, elem_of_map_to_list. split; [done|]. cbn [fst snd]. rewrite Z.eqb_refl. cbn [andb].
    destruct (Z.ltb_spec number (limitOf s)); [done|]. cbn [orb]. lia.
  - intros H ([k a] & Hin & E). rewrite <- list_elem_of_In, elem_of_map_to_list in Hin. cbn [fst snd] in E.
    apply andb_prop in E as [E1 E2]. apply Z.eqb_eq in E1 as ->. destruct (H k Hin). lia.
Qed.
End seal.
