(* ===== verification/TxOrder.v ===== *)
(** * core/types/transaction.go: transactions by price and nonce

    What a miner takes transactions from: a heap of the next transaction of each
    account by price, and the rest of each account in the order of its nonces.
    [sender] is [types.Sender] with the signer of the set; where it fails the
    code goes on with the zero address.  A range over the map that inserts and
    deletes entries is given as the list of the keys it visits.  [None] is a
    panic. *)

From Stdlib Require Import ZArith Lia Bool.
From S2P Require Import Prelude GoMath GoHeap TrieHasher StateInterface BlockTypes.
Local Open Scope Z_scope.

(** [TxByPrice.Less]: the highest price first. *)
Definition byPrice (x y : Transaction) : bool := tx_Price y <? tx_Price x.

#[export] Instance byPrice_order : WeakOrder byPrice.
Proof. unfold byPrice. split; intros; zbool; apply Z.ltb_ge; lia. Qed.

Abbreviation Accounts := (gmap Address (list Transaction)).

Record TransactionsByPriceAndNonce := mkByPriceAndNonce {
  o_txs : Accounts;
  o_heads : list Transaction
}.

Section order.
Variable sender : Transaction -> option Address.

Definition senderOf (tx : Transaction) : Address := default 0 (sender tx).

(** The loop of the constructor over the keys it visits. *)
Fixpoint takeHeads (order : list Address) (txs : Accounts) (heads : list Transaction) : option (Accounts * list Transaction) :=
  match order with
  | [] => Some (txs, heads)
  | from :: order =>
      match txs !! from with
      | None => takeHeads order txs heads
      | Some [] => None
      | Some (tx :: rest) =>
          let heads := heads ++ [tx] in
          let acc := senderOf tx in
          let txs := <[acc := rest]> txs in
          let txs := if negb (from =? acc) then delete from txs else txs in
          takeHeads order txs heads
      end
  end.

Definition NewTransactionsByPriceAndNonce (order : list Address) (txs : Accounts) : option TransactionsByPriceAndNonce :=
  match takeHeads order txs [] with
  | None => None
  | Some (txs, heads) => Some (mkByPriceAndNonce txs (Init byPrice heads))
  end.

Definition Peek (t : TransactionsByPriceAndNonce) : option Transaction := o_heads t !! 0%nat.

Definition dropHead (t : TransactionsByPriceAndNonce) : option TransactionsByPriceAndNonce :=
  match Pop byPrice (o_heads t) with
  | None => None
  | Some (_, heads) => Some (mkByPriceAndNonce (o_txs t) heads)
  end.

Definition Shift (t : TransactionsByPriceAndNonce) : option TransactionsByPriceAndNonce :=
  match o_heads t !! 0%nat with
  | None => None
  | Some head =>
      let acc := senderOf head in
      match o_txs t !! acc with
      | Some (tx :: rest) =>
          Some (mkByPriceAndNonce (<[acc := rest]> (o_txs t)) (Fix byPrice (<[0%nat := tx]> (o_heads t)) 0))
      | _ => dropHead t
      end
  end.

Definition Pop_ (t : TransactionsByPriceAndNonce) : option TransactionsByPriceAndNonce := dropHead t.

(** A miner: after each transaction it goes on with the account, or drops the
    account. *)
Fixpoint drain (drops : list bool) (t : TransactionsByPriceAndNonce) : option (list Transaction * TransactionsByPriceAndNonce) :=
  match drops with
  | [] => Some ([], t)
  | d :: drops =>
      match Peek t with
      | None => Some ([], t)
      | Some tx =>
          match (if d : bool then Pop_ t else Shift t) with
          | None => None
          | Some t => match drain drops t with Some (txs, t) => Some (tx :: txs, t) | None => None end
          end
      end
  end.
End order.

(** ** The specification *)

(** The next transaction is the first of some account and as dear as the first
    of any other; its account loses it, or everything. *)
Inductive greedy : Accounts -> list (Transaction * bool) -> Accounts -> Prop :=
| greedy_stop m : greedy m [] m
| greedy_next m a tx rest d l m' :
    m !! a = Some (tx :: rest) ->
    (forall b u r, m !! b = Some (u :: r) -> tx_Price u <= tx_Price tx) ->
    greedy (<[a := if d : bool then [] else rest]> m) l m' ->
    greedy m ((tx, d) :: l) m'.

Section spec.
Variable sender : Transaction -> option Address.

(** Every transaction is under its sender. *)
Definition grouped (m : Accounts) : Prop :=
  forall a l, m !! a = Some l -> Forall (fun tx => sender tx = Some a) l.

(** The lists [m] as heads and rests. *)
Record holds (m : Accounts) (t : TransactionsByPriceAndNonce) : Prop := {
  h_heap : heap_ok byPrice (o_heads t);
  h_grouped : grouped m;
  h_heads tx : tx ∈ o_heads t -> exists a rest, m !! a = Some (tx :: rest);
  h_firsts a tx rest : m !! a = Some (tx :: rest) -> tx ∈ o_heads t /\ default [] (o_txs t !! a) = rest;
  h_nodup : NoDup (senderOf sender <$> o_heads t)
}.

Lemma grouped_insert m a l l' : grouped m -> m !! a = Some l' -> (forall tx, tx ∈ l -> tx ∈ l') -> grouped (<[a := l]> m).
Proof.
  intros Hg Ha Hl b k. destruct (decide (a = b)) as [<-|Hne].
  - rewrite lookup_insert_eq. intros [= <-]. apply Forall_forall. intros tx Hin. pose proof (Hg a l' Ha) as H.
    rewrite Forall_forall in H. auto.
  - rewrite lookup_insert_ne by done. apply Hg.
Qed.

Lemma sender_head m a tx rest : grouped m -> m !! a = Some (tx :: rest) -> senderOf sender tx = a.
Proof. intros Hg Ha. pose proof (Hg _ _ Ha) as H. apply Forall_cons in H as [H _]. unfold senderOf. by rewrite H. Qed.

(** The first of the heap is the dearest of the firsts. *)
Lemma peek_ok m t tx : holds m t -> Peek t = Some tx ->
  exists rest, m !! senderOf sender tx = Some (tx :: rest) /\
    forall b u r, m !! b = Some (u :: r) -> tx_Price u <= tx_Price tx.
Proof.
  intros [H1 H2 H3 H4 H5] Hp. destruct (H3 tx) as (a & rest & Ha); [by eapply list_elem_of_lookup_2|].
  exists rest. rewrite (sender_head _ _ _ _ H2 Ha). split; [done|]. intros b u r Hb. destruct (H4 b u r Hb) as [Hin _].
  pose proof (root_least byPrice _ _ H1 Hp) as Hl. rewrite Forall_forall in Hl. specialize (Hl u Hin). unfold byPrice in Hl. zbool. lia.
Qed.

Lemma peek_none m t : holds m t -> Peek t = None -> forall a l, m !! a = Some l -> l = [].
Proof.
  intros [_ _ _ H4 _] Hp a [|tx rest] Ha; [done|]. destruct (H4 a tx rest Ha) as [Hin _].
  unfold Peek in Hp. by destruct (o_heads t); [apply elem_of_nil in Hin|].
Qed.

(** The heap without its root. *)
Lemma dropHead_ok m t tx rest : holds m t -> Peek t = Some tx -> m !! senderOf sender tx = Some (tx :: rest) ->
  exists t', dropHead t = Some t' /\ holds (<[senderOf sender tx := []]> m) t'.
Proof.
  intros [H1 H2 H3 H4 H5] Hp Ha. set (a := senderOf sender tx) in *. unfold dropHead.
  destruct (Pop_ok byPrice (o_heads t) H1) as (x & heads & E & Hx & Hperm & Hh & _).
  { intros E. unfold Peek in Hp. by rewrite E in Hp. }
  unfold Peek in Hp. rewrite Hp in Hx. injection Hx as <-. rewrite E. eexists. split; [done|].
  rewrite Hperm in H5. cbn [fmap list_fmap] in H5. apply NoDup_cons in H5 as [Hni Hnd]. fold a in Hni.
  split; cbn [o_heads o_txs]; [done|by eapply grouped_insert; [done..|inversion 1]| | |done].
  - intros u Hu. destruct (H3 u) as (b & r & Hb); [rewrite Hperm; by right|].
    assert (b <> a) as Hne.
    { intros ->. apply Hni. rewrite <- (sender_head _ _ _ _ H2 Hb). by apply list_elem_of_fmap_2. }
    exists b, r. by rewrite lookup_insert_ne.
  - intros b u r Hb. destruct (decide (a = b)) as [<-|Hne]; [by rewrite lookup_insert_eq in Hb|].
    rewrite lookup_insert_ne in Hb by done. destruct (H4 b u r Hb) as [Hin Hr]. split; [|done].
    rewrite Hperm in Hin. apply elem_of_cons in Hin as [->|]; [|done].
    destruct Hne. by apply (sender_head m b tx r).
Qed.

(** The next one of the account takes the place of the first. *)
Lemma Shift_ok m t tx rest : holds m t -> Peek t = Some tx -> m !! senderOf sender tx = Some (tx :: rest) ->
  exists t', Shift sender t = Some t' /\ holds (<[senderOf sender tx := rest]> m) t'.
Proof.
  intros Ht Hp Ha. pose proof Ht as [H1 H2 H3 H4 H5]. set (a := senderOf sender tx) in *. unfold Shift.
  unfold Peek in Hp. rewrite Hp. fold a. destruct (H4 _ _ _ Ha) as [_ Hr].
  destruct rest as [|u rest].
  { destruct (o_txs t !! a) as [[|? ?]|]; [|done|]; by apply (dropHead_ok m t tx []). }
  destruct (o_txs t !! a) as [l|]; [|done]. cbn in Hr. subst l.
  destruct (Fix_root_ok byPrice _ _ u H1 Hp) as (heads & E & Hperm & Hh). rewrite E. eexists. split; [done|].
  assert (senderOf sender u = a) as Hu.
  { pose proof (H2 _ _ Ha) as H. rewrite Forall_forall in H. unfold senderOf. by rewrite H by (right; left). }
  assert (senderOf sender <$> heads ≡ₚ senderOf sender <$> o_heads t) as Hs.
  { apply (Permutation_cons_inv (a := a)). rewrite <- Hu at 2. by apply (fmap_Permutation (senderOf sender)) in Hperm. }
  assert (forall b v r, b <> a -> m !! b = Some (v :: r) -> v ∈ heads) as Hothers.
  { intros b v r Hne Hb. destruct (H4 b v r Hb) as [Hin _]. assert (v ∈ tx :: heads) as Hv by (rewrite Hperm; by right).
    apply elem_of_cons in Hv as [->|]; [|done]. destruct Hne. symmetry. by apply (sender_head m b tx r). }
  assert (u ∈ heads) as Hin_u.
  { assert (u ∈ tx :: heads) as H by (rewrite Hperm; by left). apply elem_of_cons in H as [->|]; [|done].
    apply (Permutation_cons_inv (a := tx)) in Hperm. rewrite Hperm. by eapply list_elem_of_lookup_2. }
  split; cbn [o_heads o_txs]; [done|eapply grouped_insert; [done..|intros v Hv; by right]| | |by rewrite Hs].
  - intros v Hv. assert (v ∈ u :: o_heads t) as Hin by (rewrite <- Hperm; by right).
    destruct (decide (senderOf sender v = a)) as [Ev|Ev].
    + exists a, rest. rewrite lookup_insert_eq. do 2 f_equal.
      assert (NoDup (senderOf sender <$> heads)) as Hnd by (by rewrite Hs).
      apply list_elem_of_lookup in Hv as [i Ei], Hin_u as [j Ej].
      assert (i = j) as -> by (eapply (NoDup_lookup _ i j a Hnd); rewrite list_lookup_fmap, ?Ei, ?Ej; cbn; congruence). congruence.
    + apply elem_of_cons in Hin as [->|Hin]; [done|]. destruct (H3 v Hin) as (b & r & Hb).
      exists b, r. rewrite lookup_insert_ne; [done|]. intros <-. by rewrite (sender_head _ _ _ _ H2 Hb) in Ev.
  - intros b v r Hb. destruct (decide (a = b)) as [<-|Hne].
    + rewrite lookup_insert_eq in Hb |- *. by injection Hb as <- <-.
    + rewrite lookup_insert_ne in Hb |- * by done. split; [by eapply Hothers|]. by apply (H4 b v r).
Qed.

(** ** The constructor *)

Definition firstOf (m : Accounts) (a : Address) : option Transaction := m !! a ≫= head.

Lemma takeHeads_ok m order : forall txs heads,
  grouped m -> NoDup order -> (forall a, a ∈ order -> txs !! a = m !! a /\ exists tx rest, m !! a = Some (tx :: rest)) ->
  exists txs', takeHeads sender order txs heads = Some (txs', heads ++ omap (firstOf m) order) /\
    forall a, txs' !! a = if decide (a ∈ order) then tail <$> m !! a else txs !! a.
Proof.
  induction order as [|a order IH]; intros txs heads Hg Hnd Ho; cbn [takeHeads omap list_omap].
  { exists txs. rewrite app_nil_r. split; [done|]. intros a. by rewrite decide_False by inversion 1. }
  apply NoDup_cons in Hnd as [Hni Hnd]. destruct (Ho a) as (E & tx & rest & Ha); [by left|].
  unfold firstOf at 1. rewrite E, Ha, (sender_head _ _ _ _ Hg Ha), Z.eqb_refl. cbn [negb mbind option_bind head].
  destruct (IH (<[a := rest]> txs) (heads ++ [tx]) Hg Hnd) as (txs' & E' & Hl).
  { intros b Hb. rewrite lookup_insert_ne by congruence. apply Ho. by right. }
  exists txs'. rewrite E', <- app_assoc. split; [done|]. intros b. rewrite Hl.
  destruct (decide (b = a)) as [->|Hne].
  - rewrite (decide_False (P := a ∈ order)), (decide_True (P := a ∈ a :: order)) by (done || by left).
    by rewrite lookup_insert_eq, Ha.
  - rewrite lookup_insert_ne by done. destruct (decide (b ∈ order)) as [Hin|Hin].
    + by rewrite decide_True by by right.
    + by rewrite decide_False by (intros [|]%elem_of_cons; done).
Qed.

Lemma firsts_ok m (order : list Address) tx : grouped m ->
  tx ∈ omap (firstOf m) order <-> exists a rest, a ∈ order /\ m !! a = Some (tx :: rest).
Proof.
  intros Hg. rewrite list_elem_of_omap. unfold firstOf. split.
  - intros (a & Ha & E). destruct (m !! a) as [[|u rest]|] eqn:Em; [done| |done]. injection E as ->. by exists a, rest.
  - intros (a & rest & Ha & E). exists a. by rewrite E.
Qed.

Lemma firsts_senders m (order : list Address) : grouped m -> (forall a, a ∈ order -> exists tx rest, m !! a = Some (tx :: rest)) ->
  senderOf sender <$> omap (firstOf m) order = order.
Proof.
  intros Hg. induction order as [|a order IH]; intros Ho; [done|]. destruct (Ho a) as (tx & rest & Ha); [by left|].
  cbn [omap list_omap]. unfold firstOf at 1. rewrite Ha. cbn [mbind option_bind head fmap list_fmap].
  rewrite (sender_head _ _ _ _ Hg Ha). f_equal. apply IH. intros b Hb. apply Ho. by right.
Qed.

(** The range visits every account once. *)
Lemma New_holds m order : grouped m -> order ≡ₚ (map_to_list m).*1 -> (forall a, m !! a <> Some []) ->
  exists t, NewTransactionsByPriceAndNonce sender order m = Some t /\ holds m t.
Proof.
  intros Hg Hperm Hne. assert (NoDup order) as Hnd by (rewrite Hperm; apply NoDup_fst_map_to_list).
  assert (forall a, a ∈ order <-> is_Some (m !! a)) as Hin.
  { intros a. rewrite Hperm, list_elem_of_fmap. split.
    - intros ([b l] & -> & H%elem_of_map_to_list). by exists l.
    - intros [l Hl]. exists (a, l). by rewrite elem_of_map_to_list. }
  assert (forall a, a ∈ order -> exists tx rest, m !! a = Some (tx :: rest)) as Hfirst.
  { intros a [[|tx rest] Ha]%Hin; [by destruct (Hne a)|by exists tx, rest]. }
  destruct (takeHeads_ok m order m [] Hg Hnd) as (txs & E & Hl); [auto|]. unfold NewTransactionsByPriceAndNonce.
  rewrite E. eexists. split; [done|]. cbn [app]. destruct (Init_ok byPrice (omap (firstOf m) order)) as [Hp Hh].
  split; cbn [o_heads o_txs]; [done|done| | |].
  - intros tx. rewrite Hp, firsts_ok by done. intros (a & rest & _ & Ha). by exists a, rest.
  - intros a tx rest Ha. rewrite Hp, firsts_ok by done. assert (a ∈ order) as Ho by (apply Hin; by rewrite Ha).
    split; [by exists a, rest|]. by rewrite Hl, decide_True, Ha.
  - by rewrite Hp, firsts_senders.
Qed.

(** ** Draining *)

Definition empty_lists (m : Accounts) : Prop := forall a l, m !! a = Some l -> l = [].

Lemma drain_greedy drops : forall m t, holds m t ->
  exists out t' m', drain sender drops t = Some (out, t') /\ greedy m (zip out drops) m' /\ holds m' t' /\
    (length out <= length drops)%nat /\ ((length out < length drops)%nat -> empty_lists m').
Proof.
  induction drops as [|d drops IH]; intros m t Ht; cbn [drain].
  { exists [], t, m. split; [done|]. split; [constructor|]. split; [done|]. split; [done|]. cbn. lia. }
  destruct (Peek t) as [tx|] eqn:Ep.
  2: { exists [], t, m. split; [done|]. split; [constructor|]. split; [done|]. split; [cbn; lia|]. intros _ a l. by eapply peek_none. }
  destruct (peek_ok m t tx Ht Ep) as (rest & Ha & Hmax).
  assert (exists t1, (if d then Pop_ t else Shift sender t) = Some t1 /\
    holds (<[senderOf sender tx := if d then [] else rest]> m) t1) as (t1 & -> & H1).
  { destruct d; [by apply (dropHead_ok m t tx rest)|by apply Shift_ok]. }
  destruct (IH _ _ H1) as (out & t' & m' & -> & Hg & Ht' & Hl & Hend).
  exists (tx :: out), t', m'. split; [done|]. split; [by econstructor|]. split; [done|]. cbn [length]. split; [lia|].
  intros H. apply Hend. lia.
Qed.

(** ** What greedy sequences are *)

Definition ofSender (a : Address) (l : list Transaction) : list Transaction :=
  filter (fun tx => sender tx = Some a) l.

Lemma greedy_keys m l m' k : greedy m l m' -> is_Some (m !! k) -> is_Some (m' !! k).
Proof.
  induction 1 as [|m b tx r d l m' _ _ _ IH]; [done|]. intros Hk. apply IH.
  destruct (decide (b = k)) as [->|]; [by rewrite lookup_insert_eq|by rewrite lookup_insert_ne].
Qed.

Lemma greedy_accounts m l m' : grouped m -> greedy m l m' -> forall a,
  exists rest, ofSender a l.*1 ++ rest = default [] (m !! a) /\ (default [] (m' !! a) = rest \/ m' !! a = Some []) /\
    (Forall (fun d => d = false) l.*2 -> default [] (m' !! a) = rest).
Proof.
  intros Hg Hl. induction Hl as [m|m b tx r d l m' Hb Hmax Hl IH]; intros a.
  { exists (default [] (m !! a)). split; [done|]. split; [by left|done]. }
  assert (grouped (<[b := if d then [] else r]> m)) as Hg'.
  { eapply grouped_insert; [done..|]. intros u Hu. destruct d; [by apply elem_of_nil in Hu|by right]. }
  destruct (IH Hg' a) as (rest & E & H1 & H2). unfold ofSender in *. cbn [fmap list_fmap fst snd].
  pose proof (Hg _ _ Hb) as Hs. apply Forall_cons in Hs as [Hs _]. destruct (decide (a = b)) as [->|Hne].
  - rewrite filter_cons_True by done. rewrite lookup_insert_eq in E. cbn [default] in E. rewrite Hb. cbn [default].
    destruct d.
    + apply app_eq_nil in E as [E ->]. rewrite E. exists r. split; [done|]. split.
      * right. destruct H1 as [H1|H1]; [|done]. destruct (greedy_keys _ _ _ b Hl) as [x Hx]; [by rewrite lookup_insert_eq|].
        rewrite Hx in *. cbn in H1. by subst.
      * intros H. apply Forall_cons in H as [? _]. done.
    + exists rest. split; [by rewrite <- app_comm_cons, E|]. split; [done|]. intros H. apply Forall_cons in H as [_ H]. auto.
  - rewrite filter_cons_False by congruence. rewrite lookup_insert_ne in E by done. exists rest. split; [done|].
    split; [done|]. intros H. apply Forall_cons in H as [_ H]. auto.
Qed.
End spec.
