(* ===== verification/TxList.v ===== *)
(** * core/tx_list.go: the transactions of an account

    [txSortedMap] is a map from nonces to transactions with a heap of the nonces
    and a cache of the sorted list ([None] is a nil cache).  [txList] adds the
    caps; [txPricedList] is the heap of all transactions by price.  The order in
    which a [range] over a map runs is the argument [range_]; [sort.Sort] on
    distinct nonces has one result, which [merge_sort] computes. *)

From Stdlib Require Import ZArith Lia Bool.
From stdpp Require Import sorting.
From S2P Require Import Prelude GoMath GoHeap TrieHasher BlockTypes.
Local Open Scope Z_scope.

(** ** nonceHeap and txSortedMap *)

Definition nonceLess (x y : Z) : bool := x <? y.

Record txSortedMap := mkSortedMap {
  sm_items : gmap Z Transaction;
  sm_index : list Z;
  sm_cache : option (list Transaction)
}.

Definition newTxSortedMap : txSortedMap := mkSortedMap ∅ [] None.

Definition sm_Get (m : txSortedMap) (nonce : Z) : option Transaction := sm_items m !! nonce.

Definition sm_Put (m : txSortedMap) (tx : Transaction) : txSortedMap :=
  let nonce := tx_Nonce tx in
  let index := match sm_items m !! nonce with
               | None => Push nonceLess (sm_index m) nonce
               | Some _ => sm_index m
               end in
  mkSortedMap (<[nonce := tx]> (sm_items m)) index None.

(** The loop of [Forward]; [None] is a panic, or a nil transaction.  The fuel is
    the number of nonces. *)
Fixpoint forwardLoop (fuel : nat) (threshold : Z) (items : gmap Z Transaction) (index : list Z) :
    option (list Transaction * gmap Z Transaction * list Z) :=
  match fuel with
  | O => Some ([], items, index)
  | S fuel =>
      match index !! 0%nat with
      | Some first =>
          if first <? threshold then
            match Pop nonceLess index with
            | None => None
            | Some (nonce, index) =>
                match items !! nonce with
                | None => None
                | Some tx =>
                    match forwardLoop fuel threshold (delete nonce items) index with
                    | None => None
                    | Some (removed, items, index) => Some (tx :: removed, items, index)
                    end
                end
            end
          else Some ([], items, index)
      | None => Some ([], items, index)
      end
  end.

Definition sm_Forward (m : txSortedMap) (threshold : Z) : option (list Transaction * txSortedMap) :=
  match forwardLoop (length (sm_index m)) threshold (sm_items m) (sm_index m) with
  | None => None
  | Some (removed, items, index) =>
      match sm_cache m with
      | None => Some (removed, mkSortedMap items index None)
      | Some cache =>
          match slice cache (zlen removed) (zlen cache) with
          | None => None
          | Some cache => Some (removed, mkSortedMap items index (Some cache))
          end
      end
  end.

(** The highest nonces, the highest first: [count] of them go. *)
Fixpoint capLoop (count : nat) (items : gmap Z Transaction) (index : list Z) :
    option (list Transaction * gmap Z Transaction) :=
  match count with
  | O => Some ([], items)
  | S count =>
      match index !! (size items - 1)%nat with
      | None => None
      | Some nonce =>
          match items !! nonce with
          | None => None
          | Some tx =>
              match capLoop count (delete nonce items) index with
              | None => None
              | Some (drops, items) => Some (tx :: drops, items)
              end
          end
      end
  end.

Definition sm_Cap (m : txSortedMap) (threshold : Z) : option (list Transaction * txSortedMap) :=
  if Z.of_nat (size (sm_items m)) <=? threshold then Some ([], m)
  else
    let index := merge_sort Z.le (sm_index m) in
    match capLoop (Z.to_nat (Z.of_nat (size (sm_items m)) - threshold)) (sm_items m) index with
    | None => None
    | Some (drops, items) =>
        match slice index 0 threshold with
        | None => None
        | Some index =>
            let index := Init nonceLess index in
            match sm_cache m with
            | None => Some (drops, mkSortedMap items index None)
            | Some cache =>
                match slice cache 0 (zlen cache - zlen drops) with
                | None => None
                | Some cache => Some (drops, mkSortedMap items index (Some cache))
                end
            end
        end
    end.

(** The place of a nonce in the heap. *)
Fixpoint findNonce (nonce : Z) (index : list Z) (i : nat) : option nat :=
  match index with
  | [] => None
  | n :: index => if n =? nonce then Some i else findNonce nonce index (S i)
  end.

Definition sm_Remove (m : txSortedMap) (nonce : Z) : option (bool * txSortedMap) :=
  match sm_items m !! nonce with
  | None => Some (false, m)
  | Some _ =>
      let index :=
        match findNonce nonce (sm_index m) 0 with
        | None => Some (sm_index m)
        | Some i => snd <$> Remove nonceLess (sm_index m) i
        end in
      (fun index => (true, mkSortedMap (delete nonce (sm_items m)) index None)) <$> index
  end.

(** [next] counts up with the wrap-around of a [uint64]. *)
Fixpoint readyLoop (fuel : nat) (next : Z) (items : gmap Z Transaction) (index : list Z) :
    option (list Transaction * gmap Z Transaction * list Z) :=
  match fuel with
  | O => Some ([], items, index)
  | S fuel =>
      match index !! 0%nat with
      | Some first =>
          if first =? next then
            match items !! next, Pop nonceLess index with
            | Some tx, Some (_, index) =>
                match readyLoop fuel (u64 (next + 1)) (delete next items) index with
                | None => None
                | Some (ready, items, index) => Some (tx :: ready, items, index)
                end
            | _, _ => None
            end
          else Some ([], items, index)
      | None => Some ([], items, index)
      end
  end.

Definition sm_Ready (m : txSortedMap) (start : Z) : option (list Transaction * txSortedMap) :=
  match sm_index m !! 0%nat with
  | None => Some ([], m)
  | Some first =>
      if first >? start then Some ([], m)
      else
        match readyLoop (length (sm_index m)) first (sm_items m) (sm_index m) with
        | None => None
        | Some (ready, items, index) => Some (ready, mkSortedMap items index None)
        end
  end.

Definition sm_Len (m : txSortedMap) : Z := Z.of_nat (size (sm_items m)).

Definition byNonce (a b : Transaction) : Prop := tx_Nonce a <= tx_Nonce b.
#[export] Instance byNonce_dec : RelDecision byNonce := fun a b => Z_le_dec (tx_Nonce a) (tx_Nonce b).

Definition sm_Flatten (m : txSortedMap) : list Transaction * txSortedMap :=
  match sm_cache m with
  | Some cache => (cache, m)
  | None =>
      let cache := merge_sort byNonce (map_to_list (sm_items m)).*2 in
      (cache, mkSortedMap (sm_items m) (sm_index m) (Some cache))
  end.

Section lists.
Variable range_ : gmap Z Transaction -> list (Z * Transaction).

Definition sm_Filter (m : txSortedMap) (f : Transaction -> bool) : list Transaction * txSortedMap :=
  let removed := (filter (fun e => f e.2 = true) (range_ (sm_items m))).*2 in
  let items := filter (fun e => f e.2 = false) (sm_items m) in
  if 0 <? zlen removed then
    (removed, mkSortedMap items (Init nonceLess (range_ items).*1) None)
  else (removed, mkSortedMap items (sm_index m) (sm_cache m)).

(** ** txList *)

Record txList := mkTxList {
  l_strict : bool;
  l_txs : txSortedMap;
  l_costcap : Z;
  l_gascap : Z
}.

Definition newTxList (strict : bool) : txList := mkTxList strict newTxSortedMap 0 0.

Definition set_txs (m : txSortedMap) (l : txList) : txList := mkTxList (l_strict l) m (l_costcap l) (l_gascap l).

Definition Overlaps (l : txList) (tx : Transaction) : bool :=
  match sm_Get (l_txs l) (tx_Nonce tx) with Some _ => true | None => false end.

(** The threshold for a replacement: [old * (100 + priceBump) / 100]. *)
Definition bumped (price priceBump : Z) : Z := price * (i64 (100 + i64 priceBump)) / 100.

Definition l_Add (l : txList) (tx : Transaction) (priceBump : Z) : bool * option Transaction * txList :=
  let old := sm_Get (l_txs l) (tx_Nonce tx) in
  let refused := match old with
                 | Some old => (tx_GasPrice old >=? tx_GasPrice tx) || (bumped (tx_GasPrice old) priceBump >? tx_GasPrice tx)
                 | None => false
                 end in
  if refused then (false, None, l)
  else
    (true, old, mkTxList (l_strict l) (sm_Put (l_txs l) tx)
      (if l_costcap l <? Cost tx then Cost tx else l_costcap l)
      (if l_gascap l <? tx_Gas tx then tx_Gas tx else l_gascap l)).

Definition on_txs {A} (l : txList) (r : option (A * txSortedMap)) : option (A * txList) :=
  match r with Some (a, m) => Some (a, set_txs m l) | None => None end.

Definition l_Forward (l : txList) (threshold : Z) : option (list Transaction * txList) :=
  on_txs l (sm_Forward (l_txs l) threshold).

Definition l_Cap (l : txList) (threshold : Z) : option (list Transaction * txList) := on_txs l (sm_Cap (l_txs l) threshold).

Definition l_Ready (l : txList) (start : Z) : option (list Transaction * txList) := on_txs l (sm_Ready (l_txs l) start).

Definition lowestNonce (txs : list Transaction) : Z :=
  fold_left (fun lowest tx => if lowest >? tx_Nonce tx then tx_Nonce tx else lowest) txs MaxUint64.

Definition tooCostly (costLimit gasLimit : Z) (tx : Transaction) : bool := (Cost tx >? costLimit) || (tx_Gas tx >? gasLimit).

(** The transactions that cost too much, those that are left without a
    predecessor, and the list. *)
Definition l_Filter (l : txList) (costLimit gasLimit : Z) : list Transaction * list Transaction * txList :=
  if (l_costcap l <=? costLimit) && (l_gascap l <=? gasLimit) then ([], [], l)
  else
    let '(removed, m) := sm_Filter (l_txs l) (tooCostly costLimit gasLimit) in
    let '(invalids, m) :=
      if l_strict l && (0 <? zlen removed) then sm_Filter m (fun tx => tx_Nonce tx >? lowestNonce removed)
      else ([], m) in
    (removed, invalids, mkTxList (l_strict l) m costLimit gasLimit).

Definition l_Remove (l : txList) (tx : Transaction) : option (bool * list Transaction * txList) :=
  let nonce := tx_Nonce tx in
  match sm_Remove (l_txs l) nonce with
  | None => None
  | Some (false, m) => Some (false, [], set_txs m l)
  | Some (true, m) =>
      if l_strict l then
        let '(invalids, m) := sm_Filter m (fun tx => tx_Nonce tx >? nonce) in Some (true, invalids, set_txs m l)
      else Some (true, [], set_txs m l)
  end.

Definition l_Len (l : txList) : Z := sm_Len (l_txs l).
Definition l_Empty (l : txList) : bool := l_Len l =? 0.

Definition l_Flatten (l : txList) : list Transaction * txList :=
  let '(txs, m) := sm_Flatten (l_txs l) in (txs, set_txs m l).
End lists.

(** ** priceHeap and txPricedList *)

Definition priceLess (a b : Transaction) : bool :=
  match tx_GasPrice a ?= tx_GasPrice b with
  | Lt => true
  | Gt => false
  | Eq => tx_Nonce a >? tx_Nonce b
  end.

Record txPricedList := mkPriced { p_items : list Transaction; p_stales : Z }.

Definition newTxPricedList : txPricedList := mkPriced [] 0.

Definition p_Put (l : txPricedList) (tx : Transaction) : txPricedList := mkPriced (Push priceLess (p_items l) tx) (p_stales l).

Section priced.
Context {K : Sha3}.

(** [all] is the table of all transactions, in the order [Range] finds them. *)
Variable rangeAll : gmap Hash Transaction -> list (Hash * Transaction).

Definition p_Removed (all : gmap Hash Transaction) (l : txPricedList) : txPricedList :=
  let stales := p_stales l + 1 in
  if stales <=? zlen (p_items l) / 4 then mkPriced (p_items l) stales
  else mkPriced (Init priceLess (rangeAll all).*2) 0.

Variable local : Transaction -> bool.

Definition stale (all : gmap Hash Transaction) (tx : Transaction) : bool :=
  match all !! tx_Hash tx with None => true | Some _ => false end.

(** The loop of [Cap]: the transactions to drop and to save, and what is left. *)
Fixpoint capPriced (fuel : nat) (all : gmap Hash Transaction) (threshold : Z) (items : list Transaction) (stales : Z) :
    option (list Transaction * list Transaction * txPricedList) :=
  match fuel with
  | O => Some ([], [], mkPriced items stales)
  | S fuel =>
      match items with
      | [] => Some ([], [], mkPriced items stales)
      | _ =>
          match Pop priceLess items with
          | None => None
          | Some (tx, items) =>
              if stale all tx then capPriced fuel all threshold items (stales - 1)
              else if tx_GasPrice tx >=? threshold then Some ([], [tx], mkPriced items stales)
              else
                match capPriced fuel all threshold items stales with
                | None => None
                | Some (drop, save, l) => Some (if local tx then (drop, tx :: save, l) else (tx :: drop, save, l))
                end
          end
      end
  end.

Definition pushAll (save : list Transaction) (l : txPricedList) : txPricedList := fold_left p_Put save l.

Definition p_Cap (all : gmap Hash Transaction) (l : txPricedList) (threshold : Z) : option (list Transaction * txPricedList) :=
  match capPriced (length (p_items l)) all threshold (p_items l) (p_stales l) with
  | None => None
  | Some (drop, save, l) => Some (drop, pushAll save l)
  end.

(** Stale price points at the start of the heap go. *)
Fixpoint dropStale (fuel : nat) (all : gmap Hash Transaction) (l : txPricedList) : option txPricedList :=
  match fuel with
  | O => Some l
  | S fuel =>
      match p_items l !! 0%nat with
      | None => Some l
      | Some head =>
          if stale all head then
            match Pop priceLess (p_items l) with
            | None => None
            | Some (_, items) => dropStale fuel all (mkPriced items (p_stales l - 1))
            end
          else Some l
      end
  end.

Definition Underpriced (all : gmap Hash Transaction) (l : txPricedList) (tx : Transaction) : option (bool * txPricedList) :=
  if local tx then Some (false, l)
  else
    match dropStale (length (p_items l)) all l with
    | None => None
    | Some l =>
        match p_items l !! 0%nat with
        | None => Some (false, l)
        | Some cheapest => Some (tx_GasPrice cheapest >=? tx_GasPrice tx, l)
        end
    end.

Fixpoint discardLoop (fuel : nat) (all : gmap Hash Transaction) (count : Z) (items : list Transaction) (stales : Z) :
    option (list Transaction * list Transaction * txPricedList) :=
  match fuel with
  | O => Some ([], [], mkPriced items stales)
  | S fuel =>
      match items with
      | [] => Some ([], [], mkPriced items stales)
      | _ =>
          if count >? 0 then
            match Pop priceLess items with
            | None => None
            | Some (tx, items) =>
                if stale all tx then discardLoop fuel all count items (stales - 1)
                else if local tx then
                  match discardLoop fuel all count items stales with
                  | None => None
                  | Some (drop, save, l) => Some (drop, tx :: save, l)
                  end
                else
                  match discardLoop fuel all (count - 1) items stales with
                  | None => None
                  | Some (drop, save, l) => Some (tx :: drop, save, l)
                  end
            end
          else Some ([], [], mkPriced items stales)
      end
  end.

(** [make] panics on a negative capacity. *)
Definition Discard (all : gmap Hash Transaction) (l : txPricedList) (count : Z) : option (list Transaction * txPricedList) :=
  if count <? 0 then None
  else match discardLoop (length (p_items l)) all count (p_items l) (p_stales l) with
  | None => None
  | Some (drop, save, l) => Some (drop, pushAll save l)
  end.
End priced.
