(* ===== verification/TxListSpec.v ===== *)
(** * The lists of core/tx_list.go refine maps from nonces

    [sm_ok] ties the heap and the cache of a [txSortedMap] to its map; under it
    every operation is one on the map, and what it returns is listed by nonce
    ([flat]).  The price heap of [txPricedList] follows. *)

From Stdlib Require Import ZArith Lia Bool Sorting.Sorted.
From stdpp Require Import sorting.
From Stdlib Require Import ZArith Lia Bool.
From S2P Require Import Prelude GoMath GoHeap Rlp TrieHasher BlockTypes TxList.
Local Open Scope Z_scope.

#[export] Instance nonceLess_order : WeakOrder nonceLess.
Proof. split; unfold nonceLess; intros; lia. Qed.

Abbreviation Items := (gmap Z Transaction).

(** ** Listing a map by nonce *)

(** Each transaction is filed under its nonce. *)
Definition filed (m : Items) : Prop := forall n tx, m !! n = Some tx -> tx_Nonce tx = n.

Definition values (m : Items) : list Transaction := (map_to_list m).*2.

Definition flat (m : Items) : list Transaction := merge_sort byNonce (values m).

Definition nonceLt (a b : Transaction) : Prop := tx_Nonce a < tx_Nonce b.

Lemma elem_of_values m tx : tx ∈ values m <-> exists n, m !! n = Some tx.
Proof.
  unfold values. rewrite list_elem_of_fmap. split.
  - intros ([n t] & -> & Hin). exists n. by apply elem_of_map_to_list.
  - intros [n Hn]. exists (n, tx). split; [done|]. by apply elem_of_map_to_list.
Qed.

Lemma values_insert m n tx : m !! n = None -> values (<[n := tx]> m) ≡ₚ tx :: values m.
Proof. intros Hn. unfold values. by rewrite map_to_list_insert. Qed.

Lemma values_delete m n tx : m !! n = Some tx -> values m ≡ₚ tx :: values (delete n m).
Proof. intros Hn. unfold values. by rewrite <- (map_to_list_delete m n tx Hn). Qed.

Lemma filed_delete m n : filed m -> filed (delete n m).
Proof. intros Hm k tx [_ Hk]%lookup_delete_Some. by apply Hm. Qed.

Lemma filed_insert m tx : filed m -> filed (<[tx_Nonce tx := tx]> m).
Proof. intros Hm k t. rewrite lookup_insert_Some. intros [[<- <-]|[_ Hk]]; [done|by apply Hm]. Qed.

Lemma filed_subseteq (m m' : Items) : m' ⊆ m -> filed m -> filed m'.
Proof. intros Hs Hm n tx Hn. apply Hm. by eapply lookup_weaken. Qed.

Lemma filed_filter (P : Z * Transaction -> Prop) `{!forall x, Decision (P x)} m : filed m -> filed (filter P m).
Proof. apply filed_subseteq, map_filter_subseteq. Qed.

#[export] Instance byNonce_total : Total byNonce.
Proof. intros a b. unfold byNonce. lia. Qed.
#[export] Instance byNonce_trans : Transitive byNonce.
Proof. intros a b c. unfold byNonce. lia. Qed.

Lemma flat_perm m : flat m ≡ₚ values m.
Proof. apply merge_sort_Permutation. Qed.

(** The list is the only one in the order of the nonces. *)
Lemma flat_unique m l : filed m -> StronglySorted byNonce l -> l ≡ₚ values m -> l = flat m.
Proof.
  intros Hm Hs Hp. apply (StronglySorted_unique_strong byNonce); [|done|apply (StronglySorted_merge_sort byNonce)|by rewrite flat_perm].
  intros x1 x2 H1 H2 R1 R2. rewrite Hp in H1. rewrite flat_perm in H2.
  apply elem_of_values in H1 as [n1 H1], H2 as [n2 H2]. pose proof (Hm _ _ H1). pose proof (Hm _ _ H2).
  unfold byNonce in *. assert (n1 = n2) as -> by lia. congruence.
Qed.

Lemma flat_elem m tx : tx ∈ flat m <-> exists n, m !! n = Some tx.
Proof. by rewrite flat_perm, elem_of_values. Qed.

Lemma flat_empty : flat ∅ = [].
Proof. done. Qed.

Lemma flat_length m : length (flat m) = size m.
Proof. rewrite flat_perm. unfold values. rewrite length_fmap. apply length_map_to_list. Qed.

(** The lowest nonce comes first. *)
Lemma flat_cons m n tx : filed m -> m !! n = Some tx -> (forall k t, m !! k = Some t -> n <= k) ->
  flat m = tx :: flat (delete n m).
Proof.
  intros Hm Hn Hmin. symmetry. apply flat_unique; [done| |].
  - constructor; [apply (StronglySorted_merge_sort byNonce)|]. apply Forall_forall. intros t Ht.
    apply flat_elem in Ht as [k Hk]. apply lookup_delete_Some in Hk as [_ Hk].
    unfold byNonce. rewrite (Hm _ _ Hn), (Hm _ _ Hk). by eapply Hmin.
  - by rewrite flat_perm, <- values_delete.
Qed.

(** And the highest last. *)
Lemma flat_snoc m n tx : filed m -> m !! n = Some tx -> (forall k t, m !! k = Some t -> k <= n) ->
  flat m = flat (delete n m) ++ [tx].
Proof.
  intros Hm Hn Hmax. symmetry. apply flat_unique; [done| |].
  - apply StronglySorted_app_2; [|apply (StronglySorted_merge_sort byNonce)|repeat constructor].
    intros t t' Ht ->%list_elem_of_singleton.
    apply flat_elem in Ht as [k Hk]. apply lookup_delete_Some in Hk as [_ Hk].
    unfold byNonce. rewrite (Hm _ _ Hn), (Hm _ _ Hk). by eapply Hmax.
  - by rewrite <- Permutation_cons_append, flat_perm, <- values_delete.
Qed.

(** ** Keys *)

Definition keys (m : Items) : list Z := (map_to_list m).*1.

Lemma elem_of_keys m n : n ∈ keys m <-> is_Some (m !! n).
Proof.
  unfold keys. rewrite list_elem_of_fmap. split.
  - intros ([k t] & -> & Hin). exists t. by apply elem_of_map_to_list.
  - intros [t Hn]. exists (n, t). split; [done|]. by apply elem_of_map_to_list.
Qed.

Lemma keys_insert m n tx : m !! n = None -> keys (<[n := tx]> m) ≡ₚ n :: keys m.
Proof. intros Hn. unfold keys. by rewrite map_to_list_insert. Qed.

Lemma keys_delete m n tx : m !! n = Some tx -> keys m ≡ₚ n :: keys (delete n m).
Proof. intros Hn. unfold keys. by rewrite <- (map_to_list_delete m n tx Hn). Qed.

Lemma keys_overwrite m n tx tx' : m !! n = Some tx -> keys (<[n := tx']> m) ≡ₚ keys m.
Proof.
  intros Hn. rewrite <- insert_delete_eq, keys_insert by apply lookup_delete_eq. by rewrite <- (keys_delete m n tx).
Qed.

Lemma keys_length m : length (keys m) = size m.
Proof. unfold keys. rewrite length_fmap. apply length_map_to_list. Qed.

Lemma keys_nil m : [] ≡ₚ keys m -> m = ∅.
Proof. intros Hp. apply map_empty. intros k. apply eq_None_not_Some. rewrite <- elem_of_keys, <- Hp. apply not_elem_of_nil. Qed.

(** ** The invariant *)

Record sm_ok (m : txSortedMap) : Prop := {
  sm_heap : heap_ok nonceLess (sm_index m);
  sm_nonces : sm_index m ≡ₚ keys (sm_items m);
  sm_filed : filed (sm_items m);
  sm_cached c : sm_cache m = Some c -> c = flat (sm_items m)
}.

Lemma new_ok : sm_ok newTxSortedMap.
Proof. by split. Qed.

Lemma Put_ok m tx : sm_ok m -> sm_ok (sm_Put m tx) /\ sm_items (sm_Put m tx) = <[tx_Nonce tx := tx]> (sm_items m).
Proof.
  intros [H1 H2 H3 H4]. split; [|done]. unfold sm_Put. destruct (sm_items m !! tx_Nonce tx) as [old|] eqn:Ho.
  - split; cbn; [done| |by apply filed_insert|done]. by rewrite H2, (keys_overwrite _ _ old).
  - destruct (Push_ok nonceLess (sm_index m) (tx_Nonce tx) H1) as [P1 P2].
    split; cbn; [done| |by apply filed_insert|done]. by rewrite P1, H2, keys_insert.
Qed.

(** The root of the heap is the lowest nonce. *)
Lemma first_lowest index (items : Items) n : heap_ok nonceLess index -> index ≡ₚ keys items -> index !! 0%nat = Some n ->
  is_Some (items !! n) /\ forall k t, items !! k = Some t -> n <= k.
Proof.
  intros Hh Hp Hn. split.
  - apply elem_of_keys. rewrite <- Hp. by eapply list_elem_of_lookup_2.
  - intros k t Hk. pose proof (root_least nonceLess index n Hh Hn) as Hf. rewrite Forall_forall in Hf.
    assert (k ∈ index) as Hin by (rewrite Hp; apply elem_of_keys; by eexists).
    specialize (Hf k Hin). unfold nonceLess in Hf. lia.
Qed.

Lemma pop_lowest index (items : Items) n : heap_ok nonceLess index -> index ≡ₚ keys items -> index !! 0%nat = Some n ->
  exists tx index', Pop nonceLess index = Some (n, index') /\ items !! n = Some tx /\ heap_ok nonceLess index' /\
    index' ≡ₚ keys (delete n items).
Proof.
  intros Hh Hp Hn. destruct (first_lowest index items n Hh Hp Hn) as [[tx Htx] _].
  destruct (Pop_ok nonceLess index Hh) as (x & index' & E & Hx & Hp' & Hh' & _); [by destruct index|].
  rewrite Hn in Hx. injection Hx as <-. exists tx, index'. split; [done|]. split; [done|]. split; [done|].
  apply (Permutation_cons_inv (a := n)). by rewrite <- Hp', Hp, <- (keys_delete items n tx Htx).
Qed.

(** Transactions below and from a nonce on. *)
Definition lower (b : Z) (m : Items) : Items := filter (fun e => e.1 < b) m.
Definition upper (b : Z) (m : Items) : Items := filter (fun e => b <= e.1) m.

Lemma lookup_lower b m k t : lower b m !! k = Some t <-> m !! k = Some t /\ k < b.
Proof. unfold lower. rewrite map_lookup_filter_Some. done. Qed.

Lemma lookup_upper b m k t : upper b m !! k = Some t <-> m !! k = Some t /\ b <= k.
Proof. unfold upper. rewrite map_lookup_filter_Some. done. Qed.

Lemma lower_all b m : (forall k t, m !! k = Some t -> k < b) -> lower b m = m /\ upper b m = ∅.
Proof.
  intros H. split.
  - apply map_filter_id. intros k t Hk. by eapply H.
  - apply map_empty. intros k. apply map_lookup_filter_None. right. intros t Hk Hb. cbn in Hb. specialize (H k t Hk). lia.
Qed.

Lemma upper_all b m : (forall k t, m !! k = Some t -> b <= k) -> upper b m = m /\ lower b m = ∅.
Proof.
  intros H. split.
  - apply map_filter_id. intros k t Hk. by eapply H.
  - apply map_empty. intros k. apply map_lookup_filter_None. right. intros t Hk Hb. cbn in Hb. specialize (H k t Hk). lia.
Qed.

Lemma lower_delete b m n : lower b (delete n m) = delete n (lower b m).
Proof. apply map_filter_delete. Qed.

Lemma upper_delete_low b m n : n < b -> upper b (delete n m) = upper b m.
Proof. intros Hn. unfold upper. rewrite map_filter_delete. apply delete_id, map_lookup_filter_None. right. cbn. lia. Qed.

(** Taking out the lowest nonces one by one. *)
Lemma lower_step b m n tx : filed m -> m !! n = Some tx -> n < b -> (forall k t, m !! k = Some t -> n <= k) ->
  flat (lower b m) = tx :: flat (lower b (delete n m)) /\ upper b (delete n m) = upper b m.
Proof.
  intros Hm Hn Hb Hmin. split; [|by apply upper_delete_low]. rewrite lower_delete. apply flat_cons.
  - by apply filed_filter.
  - by apply lookup_lower.
  - intros k t [Hk _]%lookup_lower. by eapply Hmin.
Qed.

(** ** Forward *)

Lemma forwardLoop_ok fuel b : forall items index, heap_ok nonceLess index -> index ≡ₚ keys items -> filed items ->
  (length index <= fuel)%nat ->
  exists index', forwardLoop fuel b items index = Some (flat (lower b items), upper b items, index') /\
    heap_ok nonceLess index' /\ index' ≡ₚ keys (upper b items).
Proof.
  induction fuel as [|fuel IH]; intros items index Hh Hp Hm Hf; cbn [forwardLoop].
  - destruct index; [|cbn in Hf; lia]. rewrite (keys_nil items) by done. by exists [].
  - destruct (index !! 0%nat) as [n|] eqn:Hn.
    + destruct (first_lowest index items n Hh Hp Hn) as [_ Hmin]. destruct (Z.ltb_spec n b) as [Hlt|Hge].
      * destruct (pop_lowest index items n Hh Hp Hn) as (tx & index' & -> & Htx & Hh' & Hp').
        rewrite Htx. assert (length index' <= fuel)%nat as Hf'.
        { apply Permutation_length in Hp, Hp'. rewrite (Permutation_length (keys_delete items n tx Htx)) in Hp. cbn in Hp. lia. }
        destruct (IH (delete n items) index' Hh' Hp' (filed_delete _ _ Hm) Hf') as (index'' & -> & Hh'' & Hp'').
        destruct (lower_step b items n tx Hm Htx Hlt Hmin) as [-> Hu]. rewrite Hu in Hp'' |- *. by exists index''.
      * destruct (upper_all b items) as [-> ->]; [intros k t Hk; specialize (Hmin k t Hk); lia|]. by exists index.
    + destruct index; [|done]. rewrite (keys_nil items) by done. by exists [].
Qed.

(** A map falls into the nonces below [b] and the rest. *)
Lemma flat_split b m : filed m -> flat m = flat (lower b m) ++ flat (upper b m).
Proof.
  intros Hm. symmetry. apply flat_unique; [done| |].
  - apply StronglySorted_app_2; [|apply (StronglySorted_merge_sort byNonce)..].
    intros x1 x2 H1 H2. apply flat_elem in H1 as [n1 [H1 L1]%lookup_lower], H2 as [n2 [H2 L2]%lookup_upper].
    unfold byNonce. rewrite (Hm _ _ H1), (Hm _ _ H2). lia.
  - rewrite !flat_perm. unfold values. rewrite <- fmap_app. apply fmap_Permutation.
    apply NoDup_Permutation; [|apply NoDup_map_to_list|].
    + apply NoDup_app. split; [apply NoDup_map_to_list|]. split; [|apply NoDup_map_to_list].
      intros [k t]. rewrite !elem_of_map_to_list, lookup_lower, lookup_upper. lia.
    + intros [k t]. rewrite elem_of_app, !elem_of_map_to_list, lookup_lower, lookup_upper. split; [intuition|].
      intros Hk. destruct (Z.lt_ge_cases k b); auto.
Qed.

Lemma slice_all {A} (l1 l2 : list A) : slice (l1 ++ l2) (zlen l1) (zlen (l1 ++ l2)) = Some l2.
Proof.
  unfold slice, zlen. rewrite length_app.
  rewrite !(proj2 (Z.leb_le _ _)) by lia. cbn [andb].
  rewrite Nat2Z.id, drop_app_length. f_equal. apply take_ge. lia.
Qed.

Lemma Forward_ok m b : sm_ok m ->
  exists m', sm_Forward m b = Some (flat (lower b (sm_items m)), m') /\ sm_ok m' /\ sm_items m' = upper b (sm_items m).
Proof.
  intros [H1 H2 H3 H4]. unfold sm_Forward.
  destruct (forwardLoop_ok (length (sm_index m)) b (sm_items m) (sm_index m) H1 H2 H3 ltac:(done)) as (index' & -> & Hh & Hp).
  destruct (sm_cache m) as [c|].
  - rewrite (H4 c eq_refl), (flat_split b) by done. rewrite slice_all. eexists. split; [done|]. split; [|done].
    split; cbn; [done|done|by apply filed_filter|by intros c' [= <-]].
  - eexists. split; [done|]. split; [|done]. split; cbn; [done|done|by apply filed_filter|done].
Qed.

(** ** Ready *)

Definition nonces_u64 (m : Items) : Prop := forall n t, m !! n = Some t -> 0 <= n < 2 ^ 64.

(** The nonces from [first] on, up to [b], without a gap. *)
Record run (m : Items) (first b : Z) : Prop := {
  run_all n : first <= n < b -> is_Some (m !! n);
  run_end : m !! b = None;
  run_le : first <= b
}.

Lemma readyLoop_ok fuel : forall next items index, heap_ok nonceLess index -> index ≡ₚ keys items -> filed items ->
  nonces_u64 items -> (length index <= fuel)%nat -> 0 <= next < 2 ^ 64 -> (forall k t, items !! k = Some t -> next <= k) ->
  exists b index', readyLoop fuel next items index = Some (flat (lower b items), upper b items, index') /\
    heap_ok nonceLess index' /\ index' ≡ₚ keys (upper b items) /\ run items next b.
Proof.
  assert (forall next index, heap_ok nonceLess index -> index ≡ₚ keys ∅ -> exists b index',
    Some ([], ∅ : Items, index) = Some (flat (lower b ∅), upper b ∅, index') /\
    heap_ok nonceLess index' /\ index' ≡ₚ keys (upper b ∅) /\ run ∅ next b) as Hnone.
  { intros next index Hh Hp. exists next, index. split; [done|]. split; [done|]. split; [done|].
    split; [lia|apply lookup_empty|lia]. }
  induction fuel as [|fuel IH]; intros next items index Hh Hp Hm Hu Hf Hn Hmin; cbn [readyLoop].
  - destruct index; [|cbn in Hf; lia]. rewrite (keys_nil items) in Hp |- * by done. by apply Hnone.
  - destruct (index !! 0%nat) as [n|] eqn:Ei.
    2: { destruct index; [|done]. rewrite (keys_nil items) in Hp |- * by done. by apply Hnone. }
    destruct (first_lowest index items n Hh Hp Ei) as [[tx0 Hn0] Hlow]. destruct (Z.eqb_spec n next) as [->|Hne].
    + destruct (pop_lowest index items next Hh Hp Ei) as (tx & index' & -> & Htx & Hh' & Hp'). rewrite Htx.
      assert (length index' <= fuel)%nat as Hf'.
      { apply Permutation_length in Hp, Hp'. rewrite (Permutation_length (keys_delete items next tx Htx)) in Hp. cbn in Hp. lia. }
      assert (nonces_u64 (delete next items)) as Hu' by (intros k t [_ Hk]%lookup_delete_Some; by eapply Hu).
      destruct (Z.eq_dec next (2 ^ 64 - 1)) as [E|E].
      * assert (delete next items = ∅) as Hd.
        { apply map_empty. intros k. apply eq_None_not_Some. intros [t [Hk Ht]%lookup_delete_Some].
          pose proof (Hu k t Ht). pose proof (Hlow k t Ht). lia. }
        destruct (IH (u64 (next + 1)) (delete next items) index' Hh' Hp' (filed_delete _ _ Hm) Hu' Hf') as (b & index'' & Hr & Hh'' & Hp'' & _).
        { rewrite E. by vm_compute. }
        { rewrite Hd. intros k t. by rewrite lookup_empty. }
        rewrite Hr. exists (2 ^ 64), index''. rewrite Hd in Hp'' |- *.
        destruct (lower_step (2 ^ 64) items next tx Hm Htx ltac:(lia) Hmin) as [-> Hup]. rewrite Hd in Hup |- *.
        rewrite <- Hup. split; [done|]. split; [done|]. split; [done|]. split; [|apply eq_None_not_Some; intros [t Ht]; pose proof (Hu _ _ Ht); lia|lia].
        intros k Hk. assert (k = next) as -> by lia. by rewrite Htx.
      * assert (u64 (next + 1) = next + 1) as Hs by (unfold u64, u64_modulus; apply Z.mod_small; lia).
        destruct (IH (u64 (next + 1)) (delete next items) index' Hh' Hp' (filed_delete _ _ Hm) Hu' Hf') as (b & index'' & Hr & Hh'' & Hp'' & Hrun).
        { lia. }
        { intros k t [Hk Ht]%lookup_delete_Some. pose proof (Hmin k t Ht). lia. }
        rewrite Hr. rewrite Hs in Hrun. destruct Hrun as [R1 R2 R3]. exists b, index''.
        destruct (lower_step b items next tx Hm Htx ltac:(lia) Hmin) as [-> Hup]. rewrite Hup in Hp'' |- *.
        split; [done|]. split; [done|]. split; [done|]. split; [| |lia].
        { intros k Hk. destruct (Z.eq_dec k next) as [->|Hkn]; [by rewrite Htx|].
          destruct (R1 k ltac:(lia)) as [t Ht]. apply lookup_delete_Some in Ht as [_ Ht]. by exists t. }
        { by rewrite lookup_delete_ne in R2 by lia. }
    + pose proof (Hmin n tx0 Hn0). exists next, index.
      destruct (upper_all next items) as [-> ->]; [done|]. split; [done|]. split; [done|]. split; [done|].
      split; [lia| |lia]. apply eq_None_not_Some. intros [t Ht]. pose proof (Hlow _ _ Ht). lia.
Qed.

Lemma Ready_ok m start : sm_ok m -> nonces_u64 (sm_items m) ->
  exists b m', sm_Ready m start = Some (flat (lower b (sm_items m)), m') /\ sm_ok m' /\ sm_items m' = upper b (sm_items m) /\
    (lower b (sm_items m) = ∅ /\ (forall k t, sm_items m !! k = Some t -> start < k) \/
     exists first, first <= start /\ (forall k t, sm_items m !! k = Some t -> first <= k) /\ first < b /\ run (sm_items m) first b).
Proof.
  intros Hok Hu. pose proof Hok as [H1 H2 H3 H4]. unfold sm_Ready.
  assert (forall b, (forall k t, sm_items m !! k = Some t -> start < k /\ b <= k) ->
    exists b m', Some ([], m) = Some (flat (lower b (sm_items m)), m') /\ sm_ok m' /\ sm_items m' = upper b (sm_items m) /\
    (lower b (sm_items m) = ∅ /\ (forall k t, sm_items m !! k = Some t -> start < k) \/
     exists first, first <= start /\ (forall k t, sm_items m !! k = Some t -> first <= k) /\ first < b /\ run (sm_items m) first b)) as Hnone.
  { intros b Hb. destruct (upper_all b (sm_items m)) as [E1 E2]; [intros k t Hk; by apply (Hb k t)|]. exists b, m.
    rewrite E1, E2. split; [done|]. split; [done|]. split; [done|]. left. split; [done|]. intros k t Hk. by apply (Hb k t). }
  destruct (sm_index m !! 0%nat) as [n|] eqn:Ei.
  - destruct (first_lowest _ _ n H1 H2 Ei) as [[tx Htx] Hlow]. destruct (Z.gtb_spec n start) as [Hgt|Hle].
    + apply (Hnone n). intros k t Hk. specialize (Hlow k t Hk). lia.
    + destruct (readyLoop_ok (length (sm_index m)) n _ _ H1 H2 H3 Hu ltac:(done) (Hu n tx Htx) Hlow) as (b & index' & -> & Hh & Hp & Hr).
      exists b, (mkSortedMap (upper b (sm_items m)) index' None). split; [done|]. split.
      * split; cbn; [done|done|by apply filed_filter|done].
      * split; [done|]. right. exists n. split; [done|]. split; [done|]. split; [|done].
        destruct Hr as [R1 R2 R3]. destruct (Z.eq_dec n b) as [->|]; [congruence|lia].
  - assert (sm_items m = ∅) as E by (apply keys_nil; rewrite <- H2; by destruct (sm_index m)).
    apply (Hnone 0). intros k t. by rewrite E, lookup_empty.
Qed.

(** ** Cap *)

Lemma cap_step b (items : Items) n tx : filed items -> items !! n = Some tx -> (forall k t, items !! k = Some t -> k <= n) ->
  lower b (delete n items) = lower (Z.min b n) items /\
  flat (upper (Z.min b n) items) = flat (upper b (delete n items)) ++ [tx].
Proof.
  intros Hm Hn Hmax. split.
  - apply map_eq. intros k. apply option_eq. intros t. rewrite !lookup_lower, lookup_delete_Some. split.
    + intros [[Hk Ht] Hb]. pose proof (Hmax k t Ht). split; [done|lia].
    + intros [Ht Hb]. split; [split; [lia|done]|lia].
  - assert (upper b (delete n items) = delete n (upper (Z.min b n) items)) as ->.
    { apply map_eq. intros k. apply option_eq. intros t. rewrite lookup_upper, !lookup_delete_Some, lookup_upper. split.
      - intros [[Hk Ht] Hb]. split; [done|]. split; [done|lia].
      - intros [Hk [Ht Hb]]. pose proof (Hmax k t Ht). split; [done|]. destruct (Z.min_spec b n) as [[_ E]|[_ E]]; rewrite E in Hb; lia. }
    apply flat_snoc; [by apply filed_filter|apply lookup_upper; split; [done|lia]|].
    intros k t [Hk _]%lookup_upper. by eapply Hmax.
Qed.

Lemma sorted_nth_max (l : list Z) i n : StronglySorted Z.le l -> l !! i = Some n -> forall k, k ∈ take (S i) l -> k <= n.
Proof.
  intros Hs Hi k Hk. rewrite (take_S_r l i n Hi) in Hk. apply elem_of_app in Hk as [Hk|Hk]; [|apply list_elem_of_singleton in Hk; lia].
  rewrite <- (take_drop i l) in Hs. apply (StronglySorted_app_1_elem_of Z.le _ _ k n Hs Hk).
  apply list_elem_of_lookup. exists 0%nat. by rewrite lookup_drop, Nat.add_0_r.
Qed.

Lemma capLoop_ok count : forall (items : Items) index, filed items -> nonces_u64 items -> StronglySorted Z.le index ->
  (size items <= length index)%nat -> take (size items) index ≡ₚ keys items -> (count <= size items)%nat ->
  exists b, capLoop count items index = Some (rev (flat (upper b items)), lower b items) /\
    size (lower b items) = (size items - count)%nat /\ take (size items - count) index ≡ₚ keys (lower b items).
Proof.
  induction count as [|count IH]; intros items index Hm Hu Hs Hl Hp Hc; cbn [capLoop].
  - exists (2 ^ 64). destruct (lower_all (2 ^ 64) items) as [-> ->]; [intros k t Hk; apply Hu in Hk; lia|].
    rewrite Nat.sub_0_r. done.
  - destruct (lookup_lt_is_Some_2 index (size items - 1)%nat ltac:(lia)) as [n Hn]. rewrite Hn.
    replace (size items) with (S (size items - 1)) in Hp by lia.
    assert (n ∈ take (S (size items - 1)) index) as Hin.
    { rewrite (take_S_r _ _ n Hn). apply elem_of_app. right. by apply list_elem_of_singleton. }
    rewrite Hp in Hin. apply elem_of_keys in Hin as [tx Htx]. rewrite Htx.
    assert (forall k t, items !! k = Some t -> k <= n) as Hmax.
    { intros k t Hk. eapply (sorted_nth_max index _ n Hs Hn). rewrite Hp. apply elem_of_keys. by eexists. }
    assert (size (delete n items) = (size items - 1)%nat) as Hsize by (rewrite map_size_delete, Htx; lia).
    destruct (IH (delete n items) index) as (b & -> & Hb & Hk); [by apply filed_delete| |done|lia| |lia|].
    + intros k t [_ Hk]%lookup_delete_Some. by eapply Hu.
    + rewrite Hsize. apply (Permutation_cons_inv (a := n)). rewrite <- (keys_delete items n tx Htx), <- Hp.
      rewrite (take_S_r _ _ n Hn). apply Permutation_cons_append.
    + exists (Z.min b n). destruct (cap_step b items n tx Hm Htx Hmax) as [E1 E2]. rewrite E1 in Hb, Hk |- *. rewrite E2.
      rewrite rev_app_distr. split; [done|]. rewrite Hsize in Hb, Hk. split; [lia|].
      by replace (size items - S count)%nat with (size items - 1 - count)%nat by lia.
Qed.

Lemma Cap_ok m threshold : sm_ok m -> nonces_u64 (sm_items m) -> 0 <= threshold ->
  exists b m', sm_Cap m threshold = Some (rev (flat (upper b (sm_items m))), m') /\ sm_ok m' /\ sm_items m' = lower b (sm_items m) /\
    Z.of_nat (size (sm_items m')) = Z.min threshold (Z.of_nat (size (sm_items m))).
Proof.
  intros Hok Hu Ht. pose proof Hok as [H1 H2 H3 H4]. unfold sm_Cap.
  destruct (Z.leb_spec (Z.of_nat (size (sm_items m))) threshold) as [Hle|Hgt].
  - exists (2 ^ 64), m. destruct (lower_all (2 ^ 64) (sm_items m)) as [-> ->]; [intros k t Hk; apply Hu in Hk; lia|].
    split; [done|]. split; [done|]. split; [done|lia].
  - set (index := merge_sort Z.le (sm_index m)). set (items := sm_items m) in *.
    assert (index ≡ₚ keys items) as Hp by (unfold index; by rewrite merge_sort_Permutation).
    assert (length index = size items) as Hl by by rewrite Hp, keys_length.
    destruct (capLoop_ok (Z.to_nat (Z.of_nat (size items) - threshold)) items index) as (b & -> & Hb & Hk);
      [done|done|apply (StronglySorted_merge_sort Z.le)|lia|by rewrite take_ge by lia|lia|].
    assert (slice index 0 threshold = Some (take (Z.to_nat threshold) index)) as ->.
    { unfold slice, zlen. rewrite !(proj2 (Z.leb_le _ _)) by lia. cbn [andb]. by rewrite Z.sub_0_r, drop_0. }
    replace (size items - Z.to_nat (Z.of_nat (size items) - threshold))%nat with (Z.to_nat threshold) in Hb, Hk by lia.
    destruct (Init_ok nonceLess (take (Z.to_nat threshold) index)) as [I1 I2]. pose proof (Permutation_trans I1 Hk) as I3. clear I1.
    exists b. destruct (sm_cache m) as [c|].
    + rewrite (H4 c eq_refl), (flat_split b items) by done.
      assert (slice (flat (lower b items) ++ flat (upper b items)) 0
        (zlen (flat (lower b items) ++ flat (upper b items)) - zlen (rev (flat (upper b items)))) = Some (flat (lower b items))) as ->.
      { unfold slice, zlen. rewrite length_app, length_rev. rewrite !(proj2 (Z.leb_le _ _)) by lia. cbn [andb].
        rewrite drop_0. f_equal. apply take_app_length'. lia. }
      eexists. split; [done|]. cbn [sm_items]. split; [|split; [done|lia]].
      split; cbn; [done|done|by apply filed_filter|by intros c' [= <-]].
    + eexists. split; [done|]. cbn [sm_items]. split; [|split; [done|lia]].
      split; cbn; [done|done|by apply filed_filter|done].
Qed.

(** ** Remove, Filter, Flatten *)

Lemma findNonce_ok n index i : n ∈ index -> exists j, findNonce n index i = Some (i + j)%nat /\ index !! j = Some n.
Proof.
  revert i. induction index as [|k index IH]; intros i Hin; [by apply not_elem_of_nil in Hin|]. cbn [findNonce].
  destruct (Z.eqb_spec k n) as [->|Hne]; [exists 0%nat; by rewrite Nat.add_0_r|].
  apply elem_of_cons in Hin as [->|Hin]; [done|]. destruct (IH (S i) Hin) as (j & E & Hj). exists (S j).
  rewrite E. split; [f_equal; lia|done].
Qed.

Lemma Remove_sm_ok m n : sm_ok m ->
  exists m', sm_Remove m n = Some (bool_decide (is_Some (sm_items m !! n)), m') /\ sm_ok m' /\
    sm_items m' = delete n (sm_items m).
Proof.
  intros Hok. pose proof Hok as [H1 H2 H3 H4]. unfold sm_Remove. destruct (sm_items m !! n) as [tx|] eqn:Hn.
  - destruct (findNonce_ok n (sm_index m) 0) as (j & -> & Hj).
    { rewrite H2. apply elem_of_keys. by rewrite Hn. }
    destruct (Remove_ok nonceLess (sm_index m) _ n H1 Hj) as (index' & E & Hp & Hh). cbn [Nat.add]. rewrite E.
    exists (mkSortedMap (delete n (sm_items m)) index' None). split; [done|]. split; [|done].
    split; cbn; [done| |by apply filed_delete|done].
    apply (Permutation_cons_inv (a := n)). by rewrite <- Hp, H2, <- (keys_delete (sm_items m) n tx Hn).
  - exists m. split; [done|]. split; [done|]. symmetry. by apply delete_id.
Qed.

Lemma Flatten_ok m : sm_ok m -> sm_ok (sm_Flatten m).2 /\ (sm_Flatten m).1 = flat (sm_items m) /\
  sm_items (sm_Flatten m).2 = sm_items m.
Proof.
  intros [H1 H2 H3 H4]. unfold sm_Flatten. destruct (sm_cache m) as [c|] eqn:Ec; cbn.
  - split; [by split; rewrite ?Ec|]. split; [by apply H4|done].
  - split; [|done]. split; cbn; [done..|]. by intros c [= <-].
Qed.

(** A [range] finds each entry of a map once. *)
Class Ranges (range_ : Items -> list (Z * Transaction)) := ranges m : range_ m ≡ₚ map_to_list m.

Section filter.
Context (range_ : Items -> list (Z * Transaction)) {R : Ranges range_}.

Definition select (f : Transaction -> bool) (m : Items) : Items := filter (fun e => f e.2 = true) m.
Definition reject (f : Transaction -> bool) (m : Items) : Items := filter (fun e => f e.2 = false) m.

Lemma lookup_select f m k t : select f m !! k = Some t <-> m !! k = Some t /\ f t = true.
Proof. unfold select. rewrite map_lookup_filter_Some. done. Qed.

Lemma lookup_reject f m k t : reject f m !! k = Some t <-> m !! k = Some t /\ f t = false.
Proof. unfold reject. rewrite map_lookup_filter_Some. done. Qed.

Lemma filter_values f m : (filter (fun e => f e.2 = true) (range_ m)).*2 ≡ₚ values (select f m).
Proof.
  unfold values. apply fmap_Permutation. rewrite (ranges m). apply NoDup_Permutation; [apply NoDup_filter, NoDup_map_to_list|apply NoDup_map_to_list|].
  intros [k t]. rewrite list_elem_of_filter, !elem_of_map_to_list, lookup_select. tauto.
Qed.

Lemma Filter_ok m f : sm_ok m ->
  sm_ok (sm_Filter range_ m f).2 /\ (sm_Filter range_ m f).1 ≡ₚ values (select f (sm_items m)) /\
  sm_items (sm_Filter range_ m f).2 = reject f (sm_items m).
Proof.
  intros [H1 H2 H3 H4]. unfold sm_Filter. pose proof (filter_values f (sm_items m)) as Hv.
  set (removed := (filter _ (range_ (sm_items m))).*2) in *.
  fold (reject f (sm_items m)). destruct (Z.ltb_spec 0 (zlen removed)) as [Hlt|Hge]; cbn.
  - split; [|done]. destruct (Init_ok nonceLess (range_ (reject f (sm_items m))).*1) as [I1 I2].
    split; cbn; [exact I2| |by apply filed_filter|done].
    rewrite I1. unfold keys. apply fmap_Permutation, ranges.
  - assert (removed = []) as E by (destruct removed; [done|unfold zlen in Hge; cbn in Hge; lia]). rewrite E in Hv |- *.
    assert (reject f (sm_items m) = sm_items m) as Er.
    { apply map_filter_id. intros k t Hk. cbn. destruct (f t) eqn:Ef; [|done]. exfalso.
      assert (t ∈ values (select f (sm_items m))) as Hin by (apply elem_of_values; exists k; by apply lookup_select).
      rewrite <- Hv in Hin. by apply not_elem_of_nil in Hin. }
    rewrite Er. split; [by split|]. done.
Qed.
End filter.

(** ** What an operation takes out of a map *)

(** [l] lists what [m] has and [m'] has not. *)
Record taken (m : Items) (l : list Transaction) (m' : Items) : Prop := {
  tk_sub : m' ⊆ m;
  tk_list : l ≡ₚ values (m ∖ m')
}.

#[export] Instance taken_proper : Proper (eq ==> (≡ₚ) ==> eq ==> iff) taken.
Proof. intros m ? <- l l' Hl m' ? <-. split; intros [H1 H2]; (split; [done|]); [by rewrite <- Hl|by rewrite Hl]. Qed.

Lemma taken_in m l m' tx : taken m l m' -> tx ∈ l <-> exists n, m !! n = Some tx /\ m' !! n = None.
Proof.
  intros [_ Hl]. rewrite Hl, elem_of_values. split; intros [n Hn]; exists n; by apply lookup_difference_Some.
Qed.

Lemma taken_kept m l m' n tx : taken m l m' -> m !! n = Some tx -> m' !! n = Some tx \/ m' !! n = None /\ tx ∈ l.
Proof.
  intros Ht Hn. destruct (m' !! n) as [t|] eqn:E; [left|right].
  - pose proof (lookup_weaken _ _ _ _ E (tk_sub _ _ _ Ht)). congruence.
  - split; [done|]. apply (taken_in _ _ _ _ Ht). by exists n.
Qed.

Lemma taken_none m : taken m [] m.
Proof. split; [done|]. by rewrite map_difference_diag. Qed.

(** Two filters that exclude each other and leave nothing. *)
Lemma taken_filter (P Q : Z * Transaction -> Prop) `{!forall x, Decision (P x)} `{!forall x, Decision (Q x)} m l :
  (forall x, P x <-> ~ Q x) -> l ≡ₚ values (filter Q m) -> taken m l (filter P m).
Proof.
  intros HPQ Hl. split; [apply map_filter_subseteq|]. rewrite Hl. f_equiv. apply map_eq. intros k. apply option_eq. intros t.
  rewrite lookup_difference_Some, map_lookup_filter_Some, map_lookup_filter_None. split.
  - intros [Hk HQ]. split; [done|]. right. intros t' Hk' HP. rewrite Hk in Hk'. injection Hk' as <-. by apply HPQ in HP.
  - intros [Hk [Hn|Hn]]; [congruence|]. split; [done|]. specialize (Hn t Hk). rewrite HPQ in Hn. by apply dec_stable.
Qed.

Lemma taken_trans m l1 m1 l2 m2 : taken m l1 m1 -> taken m1 l2 m2 -> taken m (l1 ++ l2) m2.
Proof.
  intros [S1 L1] [S2 L2]. split; [by transitivity m1|]. rewrite L1, L2. unfold values. rewrite <- fmap_app.
  apply fmap_Permutation, NoDup_Permutation; [|apply NoDup_map_to_list|].
  - apply NoDup_app. split; [apply NoDup_map_to_list|]. split; [|apply NoDup_map_to_list].
    intros [k t]. rewrite !elem_of_map_to_list, !lookup_difference_Some. intros [_ H1] [H2 _]. congruence.
  - intros [k t]. rewrite elem_of_app, !elem_of_map_to_list, !lookup_difference_Some. split.
    + intros [[H1 H2]|[H1 H2]].
      * split; [done|]. by eapply lookup_weaken_None.
      * split; [by eapply lookup_weaken|done].
    + intros [H1 H2]. destruct (m1 !! k) as [t'|] eqn:E; [right|by left].
      pose proof (lookup_weaken _ _ _ _ E S1). split; congruence.
Qed.

Lemma taken_delete m n tx : m !! n = Some tx -> taken m [tx] (delete n m).
Proof.
  intros Hn. split; [apply delete_subseteq|]. assert (m ∖ delete n m = {[ n := tx ]}) as ->.
  { apply map_eq. intros k. apply option_eq. intros t.
    rewrite lookup_difference_Some, lookup_delete_None, lookup_singleton_Some. split.
    - intros [H1 [<-|H2]]; [split; congruence|congruence].
    - intros [<- <-]. auto. }
  unfold values. by rewrite map_to_list_singleton.
Qed.

Lemma taken_upper b m : taken m (flat (lower b m)) (upper b m).
Proof. apply (taken_filter _ (fun e => e.1 < b)); [intros x; lia|apply flat_perm]. Qed.

Lemma taken_lower b m l : l ≡ₚ flat (upper b m) -> taken m l (lower b m).
Proof. intros Hl. apply (taken_filter _ (fun e => b <= e.1)); [intros x; lia|by rewrite Hl, flat_perm]. Qed.

(** ** txList *)

Definition l_items (l : txList) : Items := sm_items (l_txs l).

Record l_ok (l : txList) : Prop := {
  lo_map : sm_ok (l_txs l);
  lo_u64 : nonces_u64 (l_items l);
  lo_caps n tx : l_items l !! n = Some tx -> Cost tx <= l_costcap l /\ tx_Gas tx <= l_gascap l
}.

Lemma l_new_ok strict : l_ok (newTxList strict).
Proof. split; [apply new_ok|..]; intros n tx; unfold l_items; cbn; by rewrite lookup_empty. Qed.

(** A list with fewer transactions and the same caps. *)
Lemma l_shrink l m : l_ok l -> sm_ok m -> sm_items m ⊆ l_items l -> l_ok (set_txs m l).
Proof.
  intros [H1 H2 H3] Hm Hs. split; cbn; [done|..]; intros n tx Hn; unfold l_items in Hn; cbn in Hn.
  - eapply H2. by eapply lookup_weaken.
  - eapply H3. by eapply lookup_weaken.
Qed.

Lemma l_Add_ok l tx bump : l_ok l -> 0 <= tx_Nonce tx < 2 ^ 64 ->
  match l_Add l tx bump with
  | (inserted, old, l') =>
      l_ok l' /\ l_strict l' = l_strict l /\
      if inserted then l_items l' = <[tx_Nonce tx := tx]> (l_items l) /\ old = l_items l !! tx_Nonce tx
      else l' = l /\ old = None /\ is_Some (l_items l !! tx_Nonce tx)
  end.
Proof.
  intros Hok Hn. pose proof Hok as [H1 H2 H3]. unfold l_Add. unfold sm_Get. fold (l_items l).
  destruct (match l_items l !! tx_Nonce tx with Some _ => _ | None => _ end) eqn:Er.
  - split; [done|]. split; [done|]. split; [done|]. split; [done|]. destruct (l_items l !! tx_Nonce tx); [by eexists|done].
  - split; [|done]. destruct (Put_ok (l_txs l) tx H1) as [P1 P2]. split; [exact P1|..]; unfold l_items; cbn [l_txs l_costcap l_gascap]; rewrite P2.
    + intros n t. rewrite lookup_insert_Some. intros [[<- <-]|[_ Hk]]; [done|by eapply H2].
    + intros n t. rewrite lookup_insert_Some. intros [[<- <-]|[_ Hk]].
      * destruct (Z.ltb_spec (l_costcap l) (Cost tx)), (Z.ltb_spec (l_gascap l) (tx_Gas tx)); lia.
      * destruct (H3 n t Hk). destruct (Z.ltb_spec (l_costcap l) (Cost tx)), (Z.ltb_spec (l_gascap l) (tx_Gas tx)); lia.
Qed.

Lemma l_Forward_ok l b : l_ok l -> exists l', l_Forward l b = Some (flat (lower b (l_items l)), l') /\ l_ok l' /\
  l_strict l' = l_strict l /\ l_items l' = upper b (l_items l).
Proof.
  intros Hok. destruct (Forward_ok (l_txs l) b (lo_map l Hok)) as (m' & E & Hm & Hi). unfold l_Forward. rewrite E.
  exists (set_txs m' l). split; [done|]. split; [|done]. apply l_shrink; [done|done|]. rewrite Hi. apply map_filter_subseteq.
Qed.

Lemma l_Ready_ok l start : l_ok l ->
  exists b l', l_Ready l start = Some (flat (lower b (l_items l)), l') /\ l_ok l' /\ l_strict l' = l_strict l /\
    l_items l' = upper b (l_items l) /\
    (lower b (l_items l) = ∅ /\ (forall k t, l_items l !! k = Some t -> start < k) \/
     exists first, first <= start /\ (forall k t, l_items l !! k = Some t -> first <= k) /\ first < b /\ run (l_items l) first b).
Proof.
  intros Hok. destruct (Ready_ok (l_txs l) start (lo_map l Hok) (lo_u64 l Hok)) as (b & m' & E & Hm & Hi & Hr).
  unfold l_Ready. rewrite E. exists b, (set_txs m' l). split; [done|]. split; [|done].
  apply l_shrink; [done|done|]. rewrite Hi. apply map_filter_subseteq.
Qed.

Lemma l_Cap_ok l threshold : l_ok l -> 0 <= threshold ->
  exists b l', l_Cap l threshold = Some (rev (flat (upper b (l_items l))), l') /\ l_ok l' /\ l_strict l' = l_strict l /\
    l_items l' = lower b (l_items l) /\ l_Len l' = Z.min threshold (l_Len l).
Proof.
  intros Hok Ht. destruct (Cap_ok (l_txs l) threshold (lo_map l Hok) (lo_u64 l Hok) Ht) as (b & m' & E & Hm & Hi & Hl).
  unfold l_Cap. rewrite E. exists b, (set_txs m' l). split; [done|]. split; [|done].
  apply l_shrink; [done|done|]. rewrite Hi. apply map_filter_subseteq.
Qed.

Section filters.
Context (range_ : Items -> list (Z * Transaction)) {R : Ranges range_}.

Lemma lowest_spec txs : Forall (fun tx => lowestNonce txs <= tx_Nonce tx) txs /\
  (txs <> [] -> Forall (fun tx => tx_Nonce tx < 2 ^ 64) txs -> exists tx, tx ∈ txs /\ lowestNonce txs = tx_Nonce tx).
Proof.
  unfold lowestNonce. assert (forall txs lowest,
    let r := fold_left (fun lowest tx => if lowest >? tx_Nonce tx then tx_Nonce tx else lowest) txs lowest in
    r <= lowest /\ Forall (fun tx => r <= tx_Nonce tx) txs /\ (r = lowest \/ exists tx, tx ∈ txs /\ r = tx_Nonce tx)) as H.
  { clear. induction txs as [|tx txs IH]; intros lowest; cbn [fold_left]; [by split; [lia|split; [constructor|left]]|].
    destruct (IH (if lowest >? tx_Nonce tx then tx_Nonce tx else lowest)) as (I1 & I2 & I3).
    destruct (Z.gtb_spec lowest (tx_Nonce tx)); (split; [lia|]); (split; [by constructor; [lia|]|]).
    - right. destruct I3 as [E|(t & Ht & E)]; [exists tx; split; [by left|done]|exists t; split; [by right|done]].
    - destruct I3 as [E|(t & Ht & E)]; [by left|right; exists t; split; [by right|done]]. }
  destruct (H txs MaxUint64) as (H1 & H2 & H3). split; [done|]. intros Hne Hf. destruct H3 as [E|H3]; [|done].
  destruct txs as [|tx txs]; [done|]. apply Forall_cons in H2 as [H2 _], Hf as [Hf _]. exists tx. split; [by left|].
  unfold MaxUint64 in *. lia.
Qed.

(** The two parts that [Filter] takes out, and what is left. *)
Lemma l_Filter_ok l cost gas : l_ok l ->
  match l_Filter range_ l cost gas with
  | (removed, invalids, l') =>
      l_ok l' /\ l_strict l' = l_strict l /\ taken (l_items l) (removed ++ invalids) (l_items l') /\
      Forall (fun tx => tooCostly cost gas tx = true) removed /\ Forall (fun tx => tooCostly cost gas tx = false) invalids /\
      (forall n tx, l_items l' !! n = Some tx -> tooCostly cost gas tx = false) /\
      (l_strict l = false -> invalids = []) /\
      (l_strict l = true -> forall n tx t, l_items l' !! n = Some tx -> t ∈ removed ++ invalids -> n < tx_Nonce t)
  end.
Proof.
  intros Hok. pose proof Hok as [H1 H2 H3]. unfold l_Filter.
  destruct ((l_costcap l <=? cost) && (l_gascap l <=? gas)) eqn:Eq.
  { split; [done|]. split; [done|]. split; [apply taken_none|]. split; [done|]. split; [done|]. split; [|split; [done|]].
    - intros n tx Hn. destruct (H3 n tx Hn). unfold tooCostly. lia.
    - intros _ n tx t _ Ht. by apply not_elem_of_nil in Ht. }
  pose proof (Filter_ok range_ (l_txs l) (tooCostly cost gas) H1) as (F1 & F2 & F3). fold (l_items l) in F2, F3.
  destruct (sm_Filter range_ (l_txs l) (tooCostly cost gas)) as [removed m]. cbn [fst snd] in *.
  assert (taken (l_items l) removed (sm_items m)) as Ht1.
  { rewrite F3. apply (taken_filter _ (fun e => tooCostly cost gas e.2 = true)); [intros x; symmetry; apply not_true_iff_false|done]. }
  assert (Forall (fun tx => tooCostly cost gas tx = true) removed) as Hcostly.
  { rewrite F2. apply Forall_forall. intros tx [n [_ Hn]%lookup_select]%elem_of_values. done. }
  assert (forall n tx, sm_items m !! n = Some tx -> tooCostly cost gas tx = false) as Hcheap.
  { intros n tx. rewrite F3, lookup_reject. by intros [_ ?]. }
  assert (forall n tx, sm_items m !! n = Some tx -> Cost tx <= cost /\ tx_Gas tx <= gas) as Hcap.
  { intros n tx Hn. apply Hcheap in Hn. unfold tooCostly in Hn. lia. }
  destruct (l_strict l && (0 <? zlen removed)) eqn:Es.
  - apply andb_prop in Es as [Es Hne]. set (f2 := fun tx => tx_Nonce tx >? lowestNonce removed).
    pose proof (Filter_ok range_ m f2 F1) as (G1 & G2 & G3).
    destruct (sm_Filter range_ m f2) as [invalids m2]. cbn [fst snd] in *.
    assert (taken (sm_items m) invalids (sm_items m2)) as Ht2.
    { rewrite G3. apply (taken_filter _ (fun e => f2 e.2 = true)); [intros x; symmetry; apply not_true_iff_false|done]. }
    pose proof (tk_sub _ _ _ Ht1) as Hsub1. pose proof (tk_sub _ _ _ Ht2) as Hsub2.
    split; [|split; [done|split; [by eapply taken_trans|split; [done|split; [|split; [|split; [by rewrite Es|]]]]]]].
    + split; cbn; [done|..]; intros n tx Hn; unfold l_items in Hn; cbn in Hn;
        pose proof (lookup_weaken _ _ _ _ Hn Hsub2) as Hn'; [|by eapply Hcap].
      eapply H2. by eapply lookup_weaken.
    + rewrite G2. apply Forall_forall. intros tx [n [Hn _]%lookup_select]%elem_of_values. by eapply Hcheap.
    + intros n tx Hn. unfold l_items in Hn. cbn in Hn. eapply Hcheap. by eapply lookup_weaken.
    + intros _ n tx t Hn Hin. unfold l_items in Hn. cbn in Hn.
      pose proof (lookup_weaken _ _ _ _ Hn Hsub2) as Hn1. pose proof (lookup_weaken _ _ _ _ Hn1 Hsub1) as Hn2.
      pose proof (sm_filed _ H1 _ _ Hn2) as En. rewrite G3, lookup_reject in Hn. destruct Hn as [_ Hf2]. unfold f2 in Hf2.
      destruct (lowest_spec removed) as [Hlow Hex]. rewrite Forall_forall in Hlow.
      destruct Hex as (r & Hr & Er).
      { intros ->. done. }
      { apply Forall_forall. intros x [k [Hk _]]%(taken_in _ _ _ _ Ht1). rewrite (sm_filed _ H1 _ _ Hk). apply H2 in Hk. lia. }
      assert (n <> tx_Nonce r).
      { intros ->. apply (taken_in _ _ _ _ Ht1) in Hr as (k & Hk & Hk'). rewrite (sm_filed _ H1 _ _ Hk) in Hn1. congruence. }
      apply elem_of_app in Hin as [Hin|Hin].
      * specialize (Hlow t Hin). lia.
      * rewrite G2 in Hin. apply elem_of_values in Hin as [k [_ Hk]%lookup_select]. unfold f2 in Hk. lia.
  - split; [|split; [done|split; [by rewrite app_nil_r|split; [done|split; [done|split; [done|split; [done|]]]]]]].
    + split; cbn; [done| |done]. intros n tx Hn. eapply H2. eapply lookup_weaken; [exact Hn|apply Ht1].
    + intros E n tx t Hn Hin. rewrite app_nil_r in Hin. rewrite E in Es. cbn [andb] in Es.
      apply Z.ltb_ge in Es. destruct removed; [by apply not_elem_of_nil in Hin|]. unfold zlen in Es. cbn [length] in Es. lia.
Qed.

Lemma l_Remove_ok l tx : l_ok l ->
  match l_Remove range_ l tx with
  | Some (found, invalids, l') =>
      l_ok l' /\ l_strict l' = l_strict l /\
      match l_items l !! tx_Nonce tx with
      | None => found = false /\ invalids = [] /\ l_items l' = l_items l
      | Some old => found = true /\ taken (l_items l) (old :: invalids) (l_items l') /\
          (if l_strict l then
             (forall n t, l_items l' !! n = Some t -> n < tx_Nonce tx) /\ Forall (fun t => tx_Nonce tx < tx_Nonce t) invalids
           else invalids = [] /\ l_items l' = delete (tx_Nonce tx) (l_items l))
      end
  | None => False
  end.
Proof.
  intros Hok. pose proof Hok as [H1 H2 H3]. unfold l_Remove.
  destruct (Remove_sm_ok (l_txs l) (tx_Nonce tx) H1) as (m' & -> & Hm & Hi). fold (l_items l) in *.
  destruct (l_items l !! tx_Nonce tx) as [old|] eqn:Eo.
  - rewrite bool_decide_true by by eexists. pose proof (taken_delete _ _ _ Eo) as Ht. rewrite <- Hi in Ht.
    destruct (l_strict l) eqn:Es.
    + set (f := fun t => tx_Nonce t >? tx_Nonce tx). pose proof (Filter_ok range_ m' f Hm) as (G1 & G2 & G3).
      destruct (sm_Filter range_ m' f) as [invalids m2]. cbn [fst snd] in *.
      assert (taken (sm_items m') invalids (sm_items m2)) as Ht2.
      { rewrite G3. apply (taken_filter _ (fun e => f e.2 = true)); [intros x; symmetry; apply not_true_iff_false|done]. }
      pose proof (taken_trans _ _ _ _ _ Ht Ht2) as Ht3. cbn [app] in Ht3.
      split; [apply l_shrink; [done|done|apply Ht3]|]. split; [done|]. split; [done|]. split; [exact Ht3|]. split.
      * intros n t Hn. unfold l_items in Hn. cbn in Hn. rewrite G3, lookup_reject, Hi, lookup_delete_Some in Hn.
        destruct Hn as [[Hne Hn] Hf]. pose proof (sm_filed _ H1 _ _ Hn). unfold f in Hf. lia.
      * rewrite G2. apply Forall_forall. intros t [n [_ Hn]%lookup_select]%elem_of_values. unfold f in Hn. lia.
    + split; [apply l_shrink; [done|done|apply Ht]|]. split; [done|]. split; [done|]. by split.
  - rewrite bool_decide_false by (intros [? ?]; done).
    assert (sm_items m' = l_items l) as E by (rewrite Hi; by apply delete_id).
    split; [apply l_shrink; [done|done|by rewrite E]|]. done.
Qed.
End filters.

Lemma l_Flatten_ok l : l_ok l -> l_ok (l_Flatten l).2 /\ (l_Flatten l).1 = flat (l_items l) /\
  l_items (l_Flatten l).2 = l_items l /\ l_strict (l_Flatten l).2 = l_strict l.
Proof.
  intros Hok. unfold l_Flatten. destruct (Flatten_ok (l_txs l) (lo_map l Hok)) as (F1 & F2 & F3).
  destruct (sm_Flatten (l_txs l)) as [txs m]. cbn [fst snd] in *. split; [|by split].
  apply l_shrink; [done|done|]. unfold l_items. by rewrite F3.
Qed.

(** ** The price heap

    The heap has a price point for every known transaction, and some stale ones,
    of transactions that have gone.  [Cap] and [Discard] find the known remote
    transactions with the lowest prices; [Underpriced] compares with the lowest
    price known. *)

#[export] Instance priceLess_order : WeakOrder priceLess.
Proof.
  split; unfold priceLess; intros x y *;
    repeat match goal with |- context [?a ?= ?b] => destruct (Z.compare_spec a b) end; intros; try done; try lia.
Qed.

Lemma priceLess_price a b : priceLess a b = false -> tx_GasPrice b <= tx_GasPrice a.
Proof. unfold priceLess. destruct (Z.compare_spec (tx_GasPrice a) (tx_GasPrice b)); [lia|done|lia]. Qed.

Section priced.
Context {K : Sha3}.
Variable local : Transaction -> bool.
Variable all : gmap Hash Transaction.

Abbreviation stale := (stale all).

(** What a loop over the heap leaves: the price points it has taken, sorted
    into stale ones, those to drop and those to save, and the rest, none of which
    is cheaper than any taken. *)
Record sorted_out (items drop save rest : list Transaction) : Prop := {
  so_items : exists gone, items ≡ₚ gone ++ drop ++ save ++ rest /\ Forall (fun tx => stale tx = true) gone;
  so_drop : Forall (fun tx => stale tx = false /\ local tx = false) drop;
  so_save : Forall (fun tx => stale tx = false) save;
  so_heap : heap_ok priceLess rest;
  so_least : forall d t, d ∈ drop ++ save -> t ∈ rest -> priceLess t d = false
}.

Lemma sorted_nothing rest : heap_ok priceLess rest -> sorted_out rest [] [] rest.
Proof. intros H. split; [by exists []|done|done|done|]. intros d t Hd. by apply not_elem_of_nil in Hd. Qed.

(** One step: the least price point is taken. *)
Lemma sorted_step x items items' drop save rest : items ≡ₚ x :: items' -> Forall (fun y => priceLess y x = false) items ->
  sorted_out items' drop save rest ->
  (stale x = true -> sorted_out items drop save rest) /\
  (stale x = false -> sorted_out items drop (x :: save) rest) /\
  (stale x = false -> local x = false -> sorted_out items (x :: drop) save rest).
Proof.
  intros Hp Hx [(gone & Hi & Hg) Hd Hs Hh Hl]. rewrite Forall_forall in Hx.
  assert (forall t, t ∈ rest -> priceLess t x = false) as Hr.
  { intros t Ht. apply Hx. rewrite Hp, Hi. right. rewrite !elem_of_app. tauto. }
  split; [|split].
  - intros Ex. split; try done. exists (x :: gone). split; [by rewrite Hp, Hi|by constructor].
  - intros Ex. split; try done; [|by constructor|].
    + exists gone. split; [|done]. rewrite Hp, Hi. solve_Permutation.
    + intros d t Hd' Ht. apply elem_of_app in Hd' as [Hd'|[->|Hd']%elem_of_cons]; [apply Hl; [apply elem_of_app; by left|done]|by apply Hr|].
      apply Hl; [apply elem_of_app; by right|done].
  - intros Ex El. split; try done; [|by constructor|].
    + exists gone. split; [|done]. rewrite Hp, Hi. solve_Permutation.
    + intros d t Hd' Ht. apply elem_of_app in Hd' as [[->|Hd']%elem_of_cons|Hd']; [by apply Hr|apply Hl; [apply elem_of_app; by left|done]|].
      apply Hl; [apply elem_of_app; by right|done].
Qed.

Lemma pushAll_ok save : forall l, heap_ok priceLess (p_items l) ->
  p_items (pushAll save l) ≡ₚ save ++ p_items l /\ heap_ok priceLess (p_items (pushAll save l)).
Proof.
  induction save as [|x save IH]; intros l Hl; [done|]. cbn [pushAll fold_left]. fold (pushAll save (p_Put l x)).
  destruct (Push_ok priceLess (p_items l) x Hl) as [P1 P2]. destruct (IH (p_Put l x) P2) as [I1 I2]. split; [|done].
  rewrite I1. unfold p_Put. cbn [p_items]. rewrite P1. solve_Permutation.
Qed.

Lemma Pop_cons x items : heap_ok priceLess (x :: items) -> exists y items', Pop priceLess (x :: items) = Some (y, items') /\
  x :: items ≡ₚ y :: items' /\ heap_ok priceLess items' /\ Forall (fun t => priceLess t y = false) (x :: items) /\
  length items' = length items.
Proof.
  intros Hh. destruct (Pop_ok priceLess (x :: items) Hh ltac:(done)) as (y & items' & E & _ & Hp & Hh' & Hl).
  exists y, items'. do 4 (split; [done|]). apply Permutation_length in Hp. cbn in Hp. lia.
Qed.

Lemma discardLoop_ok fuel : forall count items stales, heap_ok priceLess items -> (length items <= fuel)%nat -> 0 <= count ->
  exists drop save l, discardLoop local fuel all count items stales = Some (drop, save, l) /\
    sorted_out items drop save (p_items l) /\ Forall (fun tx => local tx = true) save /\
    zlen drop <= count /\ (zlen drop = count \/ p_items l = []).
Proof.
  induction fuel as [|fuel IH]; intros count items stales Hh Hf Hc; cbn [discardLoop].
  { destruct items; [|cbn in Hf; lia]. exists [], [], (mkPriced [] stales). split; [done|]. split; [by apply sorted_nothing|].
    split; [done|]. unfold zlen. cbn. split; [lia|by right]. }
  destruct items as [|x items].
  { exists [], [], (mkPriced [] stales). split; [done|]. split; [by apply sorted_nothing|]. split; [done|]. unfold zlen. cbn. split; [lia|by right]. }
  destruct (Z.gtb_spec count 0) as [Hgt|Hle].
  2: { exists [], [], (mkPriced (x :: items) stales). split; [done|]. split; [by apply sorted_nothing|]. split; [done|]. unfold zlen. cbn.
       split; [lia|left; lia]. }
  destruct (Pop_cons x items Hh) as (y & items' & -> & Hp & Hh' & Hl & Elen). cbn [length] in Hf.
  assert (forall c, 0 <= c -> forall st, exists drop save l, discardLoop local fuel all c items' st = Some (drop, save, l) /\
    sorted_out items' drop save (p_items l) /\ Forall (fun tx => local tx = true) save /\
    zlen drop <= c /\ (zlen drop = c \/ p_items l = [])) as IH' by (intros c Hc' st; apply IH; [done|lia|done]).
  destruct (stale y) eqn:Es.
  - destruct (IH' count Hc (stales - 1)) as (drop & save & l & -> & Hs & Hrest). exists drop, save, l. split; [done|].
    split; [by apply (sorted_step y (x :: items) items' drop save (p_items l))|done].
  - destruct (local y) eqn:El.
    + destruct (IH' count Hc stales) as (drop & save & l & -> & Hs & Hsv & Hrest). exists drop, (y :: save), l. split; [done|].
      split; [by apply (sorted_step y (x :: items) items' drop save (p_items l))|]. split; [by constructor|done].
    + destruct (IH' (count - 1) ltac:(lia) stales) as (drop & save & l & -> & Hs & Hsv & H1 & H2). exists (y :: drop), save, l. split; [done|].
      split; [by apply (sorted_step y (x :: items) items' drop save (p_items l))|]. split; [done|]. unfold zlen in *. cbn [length].
      split; [lia|]. destruct H2 as [H2|H2]; [left; lia|by right].
Qed.

Lemma capPriced_ok threshold fuel : forall items stales, heap_ok priceLess items -> (length items <= fuel)%nat ->
  exists drop save l, capPriced local fuel all threshold items stales = Some (drop, save, l) /\
    sorted_out items drop save (p_items l) /\ Forall (fun tx => tx_GasPrice tx < threshold) drop /\
    Forall (fun tx => local tx = true \/ threshold <= tx_GasPrice tx) save /\
    Forall (fun tx => threshold <= tx_GasPrice tx) (p_items l).
Proof.
  induction fuel as [|fuel IH]; intros items stales Hh Hf; cbn [capPriced].
  { destruct items; [|cbn in Hf; lia]. exists [], [], (mkPriced [] stales). split; [done|]. by split; [apply sorted_nothing|]. }
  destruct items as [|x items].
  { exists [], [], (mkPriced [] stales). split; [done|]. by split; [apply sorted_nothing|]. }
  destruct (Pop_cons x items Hh) as (y & items' & -> & Hp & Hh' & Hl & Elen). cbn [length] in Hf.
  destruct (stale y) eqn:Es.
  { destruct (IH items' (stales - 1) Hh' ltac:(lia)) as (drop & save & l & -> & Hs & Hrest). exists drop, save, l. split; [done|].
    by split; [apply (sorted_step y (x :: items) items' drop save (p_items l))|]. }
  destruct (Z.geb_spec (tx_GasPrice y) threshold) as [Hge|Hlt].
  { exists [], [y], (mkPriced items' stales). split; [done|].
    split; [by apply (sorted_step y (x :: items) items' [] [] items'); [..|apply sorted_nothing|]|]. split; [done|].
    split; [constructor; [by right|done]|]. cbn [p_items]. rewrite Forall_forall in Hl |- *. intros t Ht.
    assert (priceLess t y = false) as Hty by (apply Hl; rewrite Hp; by right). apply priceLess_price in Hty. lia. }
  destruct (IH items' stales Hh' ltac:(lia)) as (drop & save & l & -> & Hs & H1 & H2 & H3).
  destruct (local y) eqn:El.
  - exists drop, (y :: save), l. split; [done|]. split; [by apply (sorted_step y (x :: items) items' drop save (p_items l))|].
    split; [done|]. split; [constructor; [by left|done]|done].
  - exists (y :: drop), save, l. split; [done|]. split; [by apply (sorted_step y (x :: items) items' drop save (p_items l))|].
    split; [by constructor|done].
Qed.

(** What is left of the heap after the saved ones are back. *)
Record heap_after (items drop : list Transaction) (l' : txPricedList) : Prop := {
  ha_heap : heap_ok priceLess (p_items l');
  ha_kept tx : tx ∈ items -> stale tx = false -> tx ∈ p_items l' \/ tx ∈ drop;
  ha_drop tx : tx ∈ drop -> tx ∈ items /\ stale tx = false /\ local tx = false;
  ha_sub tx : tx ∈ p_items l' -> tx ∈ items
}.

Lemma sorted_after items drop save l : sorted_out items drop save (p_items l) -> heap_after items drop (pushAll save l).
Proof.
  intros [(gone & Hi & Hg) Hd Hs Hh Hl]. destruct (pushAll_ok save l Hh) as [P1 P2]. rewrite Forall_forall in Hg, Hd. split; [done|..].
  - intros tx. rewrite Hi, P1, !elem_of_app. intros [Hx|Hx] E; [rewrite (Hg _ Hx) in E; done|]. tauto.
  - intros tx Hx. split; [rewrite Hi, !elem_of_app; tauto|by apply Hd].
  - intros tx. rewrite P1, Hi, !elem_of_app. tauto.
Qed.

(** [Discard] gives the cheapest known remote transactions, as many as asked
    for if there are so many. *)
Lemma Discard_ok l count : heap_ok priceLess (p_items l) -> 0 <= count ->
  exists drop l', Discard local all l count = Some (drop, l') /\ heap_after (p_items l) drop l' /\ zlen drop <= count /\
    (forall d t, d ∈ drop -> t ∈ p_items l' -> local t = false -> tx_GasPrice d <= tx_GasPrice t) /\
    (zlen drop = count \/ forall t, t ∈ p_items l' -> local t = true).
Proof.
  intros Hh Hc. unfold Discard. destruct (Z.ltb_spec count 0); [lia|].
  destruct (discardLoop_ok (length (p_items l)) count (p_items l) (p_stales l) Hh ltac:(lia) Hc) as (drop & save & l1 & -> & Hs & Hsv & H1 & H2).
  exists drop, (pushAll save l1). split; [done|]. split; [by apply sorted_after|]. split; [done|].
  destruct (pushAll_ok save l1 (so_heap _ _ _ _ Hs)) as [P1 _]. rewrite Forall_forall in Hsv. split.
  - intros d t Hd Ht Hlo. apply priceLess_price, (so_least _ _ _ _ Hs); [apply elem_of_app; by left|].
    rewrite P1 in Ht. apply elem_of_app in Ht as [Ht|Ht]; [|done]. rewrite (Hsv _ Ht) in Hlo. done.
  - destruct H2 as [H2|H2]; [by left|right]. intros t. rewrite P1, H2, app_nil_r. apply Hsv.
Qed.

(** [Cap] gives the known remote transactions below the threshold. *)
Lemma p_Cap_ok l threshold : heap_ok priceLess (p_items l) ->
  exists drop l', p_Cap local all l threshold = Some (drop, l') /\ heap_after (p_items l) drop l' /\
    (forall d, d ∈ drop -> tx_GasPrice d < threshold) /\
    (forall t, t ∈ p_items l' -> local t = false -> threshold <= tx_GasPrice t).
Proof.
  intros Hh. unfold p_Cap.
  destruct (capPriced_ok threshold (length (p_items l)) (p_items l) (p_stales l) Hh ltac:(lia)) as (drop & save & l1 & -> & Hs & H1 & H2 & H3).
  exists drop, (pushAll save l1). split; [done|]. split; [by apply sorted_after|].
  destruct (pushAll_ok save l1 (so_heap _ _ _ _ Hs)) as [P1 _]. rewrite Forall_forall in H1, H2, H3. split; [done|].
  intros t. rewrite P1, elem_of_app. intros [Ht|Ht] Hlo; [destruct (H2 _ Ht) as [E|E]; [congruence|done]|by apply H3].
Qed.

Lemma dropStale_ok fuel : forall l, heap_ok priceLess (p_items l) -> (length (p_items l) <= fuel)%nat ->
  exists l', dropStale fuel all l = Some l' /\ heap_after (p_items l) [] l' /\
    (forall t, p_items l' !! 0%nat = Some t -> stale t = false).
Proof.
  assert (forall l, heap_ok priceLess (p_items l) -> heap_after (p_items l) [] l) as Hid.
  { intros l Hh. split; [done|by left| |done]. intros tx Hx. by apply not_elem_of_nil in Hx. }
  induction fuel as [|fuel IH]; intros l Hh Hf; cbn [dropStale].
  { exists l. split; [done|]. split; [by apply Hid|]. destruct (p_items l); [done|cbn in Hf; lia]. }
  destruct (p_items l) as [|x items] eqn:Ei; cbn [lookup list_lookup].
  { exists l. split; [done|]. pose proof (Hid l) as A. rewrite Ei in A. split; [by apply A|]. by rewrite Ei. }
  destruct (stale x) eqn:Es.
  2: { exists l. split; [done|]. pose proof (Hid l) as A. rewrite Ei in A. split; [by apply A|]. rewrite Ei. cbn. by intros t [= <-]. }
  destruct (Pop_ok priceLess (x :: items) Hh ltac:(done)) as (y & items' & -> & [= <-] & Hp & Hh' & Hl).
  destruct (IH (mkPriced items' (p_stales l - 1)) Hh') as (l' & -> & [A1 A2 A3 A4] & H0).
  { apply Permutation_length in Hp. cbn in Hp, Hf |- *. lia. }
  exists l'. split; [done|]. split; [|done]. split; [done|..].
  - intros tx. rewrite Hp. intros [->|Hx]%elem_of_cons E; [congruence|by apply A2].
  - intros tx Hx. by apply not_elem_of_nil in Hx.
  - intros tx Hx. rewrite Hp. right. by apply A4.
Qed.

(** [Underpriced]: a remote transaction no dearer than any known one. *)
Lemma Underpriced_ok l tx : heap_ok priceLess (p_items l) ->
  exists b l', Underpriced local all l tx = Some (b, l') /\ heap_after (p_items l) [] l' /\
    (local tx = true -> b = false) /\
    (local tx = false -> (exists t, t ∈ p_items l /\ stale t = false) ->
      b = true <-> forall t, t ∈ p_items l -> stale t = false -> tx_GasPrice tx <= tx_GasPrice t).
Proof.
  intros Hh. unfold Underpriced. destruct (local tx).
  { exists false, l. split; [done|]. split; [|done]. split; [done|by left| |done]. intros t Hx. by apply not_elem_of_nil in Hx. }
  destruct (dropStale_ok (length (p_items l)) l Hh ltac:(lia)) as (l' & -> & A & H0). pose proof A as [A1 A2 A3 A4].
  assert (forall t, t ∈ p_items l -> stale t = false -> t ∈ p_items l') as Hin.
  { intros t Ht E. destruct (A2 t Ht E) as [?|Hx]; [done|by apply not_elem_of_nil in Hx]. }
  destruct (p_items l' !! 0%nat) as [c|] eqn:Ec.
  - eexists _, l'. split; [done|]. split; [done|]. split; [done|]. intros _ _. rewrite Z.geb_le.
    pose proof (root_least priceLess _ _ A1 Ec) as Hr. rewrite Forall_forall in Hr. split.
    + intros Hle t Ht E. pose proof (priceLess_price _ _ (Hr t (Hin t Ht E))). lia.
    + intros Hall. apply Hall; [apply A4; by eapply list_elem_of_lookup_2|by apply H0].
  - exists false, l'. split; [done|]. split; [done|]. split; [done|]. intros _ (t & Ht & E). exfalso.
    specialize (Hin t Ht E). destruct (p_items l'); [by apply not_elem_of_nil in Hin|done].
Qed.
End priced.
