(* ===== verification/TxPool.v ===== *)
(** * core/tx_pool.go: the transaction pool

    The pool keeps the transactions of an account that can run now ([pending])
    and those that cannot yet ([queue]), a table of all by hash, a heap of all by
    price, and the nonces the accounts will have.  An operation is code over the
    pool that may panic.  What the pool is given: [sender], the account a
    transaction is signed by (elliptic curve cryptography); the orders in which
    Go ranges over maps; [prque], the third-party priority queue, as the order in
    which it gives accounts back (its priorities are lengths as [float32], exact
    below 2^24); the clock.  Logging, metrics, the event feed
    and the journal file are left out; the lock makes each operation one step. *)

From Stdlib Require Import ZArith Lia Bool.
From S2P Require Import Prelude GoMath Rlp GoHeap TrieHasher Params StateInterface World BlockTypes StateTransition TxList.
Local Open Scope Z_scope.
Local Open Scope go_scope.

Inductive poolErr :=
| ErrKnown | ErrInvalidSender | ErrNonceTooLow | ErrUnderpriced | ErrReplaceUnderpriced
| ErrInsufficientFunds | ErrIntrinsicGas | ErrGasLimit | ErrNegativeValue | ErrOversizedData | ErrGas (e : txErr).

Record TxPoolConfig := mkPoolConfig {
  PriceLimit : Z;
  PriceBump : Z;
  AccountSlots : Z;
  GlobalSlots : Z;
  AccountQueue : Z;
  GlobalQueue : Z;
  Lifetime : Z
}.

Definition DefaultTxPoolConfig : TxPoolConfig := mkPoolConfig 1 10 16 4096 64 1024 (3 * 3600 * 10 ^ 9).

(** The limits that [sanitize] makes workable; the interval of the journal is
    left out. *)
Definition sanitize (conf : TxPoolConfig) : TxPoolConfig :=
  mkPoolConfig
    (if PriceLimit conf <? 1 then PriceLimit DefaultTxPoolConfig else PriceLimit conf)
    (if PriceBump conf <? 1 then PriceBump DefaultTxPoolConfig else PriceBump conf)
    (AccountSlots conf) (GlobalSlots conf) (AccountQueue conf) (GlobalQueue conf) (Lifetime conf).

(** What the pool reads of the state at the head of the chain. *)
Record ChainState := mkChainState { cs_nonce : Address -> Z; cs_balance : Address -> Z }.

(** ** core/state/managed_state.go

    The pool never takes single nonces, so the [nonces] of an account stay
    empty and an account is its [nstart]. *)

Record ManagedState := mkManaged { ms_nonce : Address -> Z; ms_accounts : gmap Address Z }.

Definition ManageState (s : ChainState) : ManagedState := mkManaged (cs_nonce s) ∅.

Definition ms_GetNonce (ms : ManagedState) (addr : Address) : Z :=
  match ms_accounts ms !! addr with
  | Some nstart => if nstart <? ms_nonce ms addr then ms_nonce ms addr else nstart
  | None => ms_nonce ms addr
  end.

Definition ms_SetNonce (addr : Address) (nonce : Z) (ms : ManagedState) : ManagedState :=
  mkManaged (fun a => if a =? addr then nonce else ms_nonce ms a) (<[addr := nonce]> (ms_accounts ms)).

(** ** The pool *)

Record TxPool := mkPool {
  tp_gasPrice : Z;
  tp_state : ChainState;
  tp_pendingState : ManagedState;
  tp_maxGas : Z;
  tp_locals : gset Address;
  tp_pending : gmap Address txList;
  tp_queue : gmap Address txList;
  tp_beats : gmap Address Z;
  tp_all : gmap Hash Transaction;
  tp_priced : txPricedList;
  tp_homestead : bool
}.

Definition upd_gasPrice (x : Z) (p : TxPool) : TxPool :=
  mkPool x (tp_state p) (tp_pendingState p) (tp_maxGas p) (tp_locals p) (tp_pending p) (tp_queue p) (tp_beats p)
    (tp_all p) (tp_priced p) (tp_homestead p).
Definition upd_head (s : ChainState) (ms : ManagedState) (g : Z) (p : TxPool) : TxPool :=
  mkPool (tp_gasPrice p) s ms g (tp_locals p) (tp_pending p) (tp_queue p) (tp_beats p) (tp_all p) (tp_priced p)
    (tp_homestead p).
Definition upd_pendingState (f : ManagedState -> ManagedState) (p : TxPool) : TxPool :=
  upd_head (tp_state p) (f (tp_pendingState p)) (tp_maxGas p) p.
Definition upd_locals (x : gset Address) (p : TxPool) : TxPool :=
  mkPool (tp_gasPrice p) (tp_state p) (tp_pendingState p) (tp_maxGas p) x (tp_pending p) (tp_queue p) (tp_beats p)
    (tp_all p) (tp_priced p) (tp_homestead p).
Definition upd_pending (f : gmap Address txList -> gmap Address txList) (p : TxPool) : TxPool :=
  mkPool (tp_gasPrice p) (tp_state p) (tp_pendingState p) (tp_maxGas p) (tp_locals p) (f (tp_pending p)) (tp_queue p)
    (tp_beats p) (tp_all p) (tp_priced p) (tp_homestead p).
Definition upd_queue (f : gmap Address txList -> gmap Address txList) (p : TxPool) : TxPool :=
  mkPool (tp_gasPrice p) (tp_state p) (tp_pendingState p) (tp_maxGas p) (tp_locals p) (tp_pending p) (f (tp_queue p))
    (tp_beats p) (tp_all p) (tp_priced p) (tp_homestead p).
Definition upd_beats (f : gmap Address Z -> gmap Address Z) (p : TxPool) : TxPool :=
  mkPool (tp_gasPrice p) (tp_state p) (tp_pendingState p) (tp_maxGas p) (tp_locals p) (tp_pending p) (tp_queue p)
    (f (tp_beats p)) (tp_all p) (tp_priced p) (tp_homestead p).
Definition upd_all (f : gmap Hash Transaction -> gmap Hash Transaction) (p : TxPool) : TxPool :=
  mkPool (tp_gasPrice p) (tp_state p) (tp_pendingState p) (tp_maxGas p) (tp_locals p) (tp_pending p) (tp_queue p)
    (tp_beats p) (f (tp_all p)) (tp_priced p) (tp_homestead p).
Definition upd_priced (x : txPricedList) (p : TxPool) : TxPool :=
  mkPool (tp_gasPrice p) (tp_state p) (tp_pendingState p) (tp_maxGas p) (tp_locals p) (tp_pending p) (tp_queue p)
    (tp_beats p) (tp_all p) x (tp_homestead p).

Definition upd_homestead (x : bool) (p : TxPool) : TxPool :=
  mkPool (tp_gasPrice p) (tp_state p) (tp_pendingState p) (tp_maxGas p) (tp_locals p) (tp_pending p) (tp_queue p)
    (tp_beats p) (tp_all p) (tp_priced p) x.

(** The pool [NewTxPool] starts from, before its first [reset]; [s] stands for
    the state it does not have yet. *)
Definition emptyPool (config : TxPoolConfig) (s : ChainState) : TxPool :=
  mkPool (u64 (PriceLimit (sanitize config))) s (ManageState s) 0 ∅ ∅ ∅ ∅ ∅ newTxPricedList false.

(** An operation on the list of an account, in place; [None] is a panic. *)
Definition onPending {A} (addr : Address) (f : txList -> option (A * txList)) : M TxPool A :=
  let* p := get in
  let* l := must (tp_pending p !! addr) in
  let* r := must (f l) in
  modify (upd_pending (<[addr := r.2]>)) ;;
  ret r.1.

Definition onQueue {A} (addr : Address) (f : txList -> option (A * txList)) : M TxPool A :=
  let* p := get in
  let* l := must (tp_queue p !! addr) in
  let* r := must (f l) in
  modify (upd_queue (<[addr := r.2]>)) ;;
  ret r.1.

(** An empty list is deleted. *)
Definition deleteIfEmpty (addr : Address) (m : gmap Address txList) : gmap Address txList :=
  match m !! addr with
  | Some l => if l_Empty l then delete addr m else m
  | None => m
  end.

Definition tidyQueue (addr : Address) : M TxPool unit := modify (upd_queue (deleteIfEmpty addr)).

Definition tidyPending (addr : Address) : M TxPool unit :=
  modify (fun p =>
    match tp_pending p !! addr with
    | Some l => if l_Empty l then upd_beats (delete addr) (upd_pending (delete addr) p) else p
    | None => p
    end).

(** A loop over a slice. *)
Fixpoint forEach {A} (f : A -> M TxPool unit) (l : list A) : M TxPool unit :=
  match l with
  | [] => ret tt
  | x :: l => f x ;; forEach f l
  end.

Section pool.
Context {K : Sha3}.
Variable sender : Transaction -> option Address.
Variable range_ : gmap Z Transaction -> list (Z * Transaction).
Variable rangeAll : gmap Hash Transaction -> list (Hash * Transaction).
Variable rangeAddr : gmap Address txList -> list Address.
Variable prque : list (Address * Z) -> list Address.
Variable byHeartbeat : list (Address * Z) -> list Address.
Variable config : TxPoolConfig.
Variable now : Z.

(** [from, _ := types.Sender(pool.signer, tx)]: the zero address on an error. *)
Definition from (tx : Transaction) : Address := default 0 (sender tx).

(** accountSet. *)
Definition contains (p : TxPool) (addr : Address) : bool := bool_decide (addr ∈ tp_locals p).
Definition containsTx (p : TxPool) (tx : Transaction) : bool :=
  match sender tx with Some addr => contains p addr | None => false end.

Definition allRemove (hash : Hash) : M TxPool unit := modify (upd_all (delete hash)).
Definition pricedRemoved : M TxPool unit := modify (fun p => upd_priced (p_Removed rangeAll (tp_all p) (tp_priced p)) p).

(** A known transaction goes for good. *)
Definition forget (tx : Transaction) : M TxPool unit := allRemove (tx_Hash tx) ;; pricedRemoved.

(** The transaction is entered in the table and the heap, unless known. *)
Definition enter (hash : Hash) (tx : Transaction) : M TxPool unit :=
  modify (fun p =>
    match tp_all p !! hash with
    | Some _ => p
    | None => upd_priced (p_Put (tp_priced p) tx) (upd_all (<[tx_Hash tx := tx]>) p)
    end).

(** [tx.Size()]. *)
Definition txSize (tx : Transaction) : Z :=
  match Encode (txField tx) with Some (inr b) => zlen b | _ => 0 end.

Definition validateTx (p : TxPool) (tx : Transaction) (local : bool) : option poolErr :=
  if txSize tx >? 32 * 1024 then Some ErrOversizedData
  else if tx_Amount tx <? 0 then Some ErrNegativeValue
  else if tp_maxGas p <? tx_Gas tx then Some ErrGasLimit
  else
    match sender tx with
    | None => Some ErrInvalidSender
    | Some addr =>
        let local := local || contains p addr in
        if negb local && (tp_gasPrice p >? tx_GasPrice tx) then Some ErrUnderpriced
        else if cs_nonce (tp_state p) addr >? tx_Nonce tx then Some ErrNonceTooLow
        else if cs_balance (tp_state p) addr <? Cost tx then Some ErrInsufficientFunds
        else
          match IntrinsicGas (tx_Payload tx) (match tx_Recipient tx with None => true | Some _ => false end) (tp_homestead p) with
          | inl e => Some (ErrGas e)
          | inr intrGas => if tx_Gas tx <? intrGas then Some ErrIntrinsicGas else None
          end
    end.

Definition enqueueTx (hash : Hash) (tx : Transaction) : M TxPool (poolErr + bool) :=
  let* p := get in
  let l := default (newTxList false) (tp_queue p !! from tx) in
  let '(inserted, old, l) := l_Add l tx (PriceBump config) in
  modify (upd_queue (<[from tx := l]>)) ;;
  if negb (inserted : bool) then ret (inl ErrReplaceUnderpriced)
  else
    (match old with Some old => forget old | None => ret tt end) ;;
    enter hash tx ;;
    ret (inr (match old with Some _ => true | None => false end)).

Definition promoteTx (addr : Address) (hash : Hash) (tx : Transaction) : M TxPool bool :=
  let* p := get in
  let l := default (newTxList true) (tp_pending p !! addr) in
  let '(inserted, old, l) := l_Add l tx (PriceBump config) in
  modify (upd_pending (<[addr := l]>)) ;;
  if negb (inserted : bool) then allRemove hash ;; pricedRemoved ;; ret false
  else
    (match old with Some old => forget old | None => ret tt end) ;;
    enter hash tx ;;
    modify (upd_beats (<[addr := now]>)) ;;
    modify (upd_pendingState (ms_SetNonce addr (u64 (tx_Nonce tx + 1)))) ;;
    ret true.

(** The account's next nonce is not above a transaction that has gone. *)
Definition lowerNonce (addr : Address) (tx : Transaction) : M TxPool unit :=
  modify (fun p =>
    if ms_GetNonce (tp_pendingState p) addr >? tx_Nonce tx
    then upd_pendingState (ms_SetNonce addr (tx_Nonce tx)) p else p).

(** Back to the queue. *)
Definition postpone (tx : Transaction) : M TxPool unit := enqueueTx (tx_Hash tx) tx ;; ret tt.

Definition removeTx (hash : Hash) (outofbound : bool) : M TxPool unit :=
  let* p := get in
  match tp_all p !! hash with
  | None => ret tt
  | Some tx =>
      let addr := from tx in
      allRemove hash ;;
      (if outofbound then pricedRemoved else ret tt) ;;
      let* r := match tp_pending p !! addr with
                | None => ret (false, [])
                | Some _ => onPending addr (fun l => l_Remove range_ l tx)
                end in
      if r.1 : bool then
        tidyPending addr ;;
        forEach postpone r.2 ;;
        lowerNonce addr tx
      else
        match tp_queue p !! addr with
        | None => ret tt
        | Some _ => onQueue addr (fun l => l_Remove range_ l tx) ;; tidyQueue addr
        end
  end.

(** ** promoteExecutables *)

(** The queue of one account: what is too old or too costly goes, what is
    ready is promoted, and what is over the limit goes. *)
Definition promoteAccount (addr : Address) : M TxPool unit :=
  let* p := get in
  match tp_queue p !! addr with
  | None => ret tt
  | Some _ =>
      let* olds := onQueue addr (fun l => l_Forward l (cs_nonce (tp_state p) addr)) in
      forEach forget olds ;;
      let* drops := onQueue addr (fun l => Some (l_Filter range_ l (cs_balance (tp_state p) addr) (tp_maxGas p))) in
      forEach forget drops.1 ;;
      let* q := get in
      let* ready := onQueue addr (fun l => l_Ready l (ms_GetNonce (tp_pendingState q) addr)) in
      forEach (fun tx => promoteTx addr (tx_Hash tx) tx ;; ret tt) ready ;;
      (if contains p addr then ret tt
       else
         let* over := onQueue addr (fun l => l_Cap l (i64 (AccountQueue config))) in
         forEach forget over) ;;
      tidyQueue addr
  end.

(** The number of transactions, in a [uint64]. *)
Definition countTxs (m : gmap Address txList) : Z :=
  fold_left (fun n addr => n + default 0 (l_Len <$> m !! addr)) (rangeAddr m) 0.

(** One transaction fewer for an account. *)
Definition dropLast (addr : Address) : M TxPool unit :=
  let* drops := onPending addr (fun l => l_Cap l (l_Len l - 1)) in
  forEach (fun tx => forget tx ;; lowerNonce addr tx) drops.

(** [pool.pending\[addr\].Len()]. *)
Definition pendingLen (addr : Address) : M TxPool Z :=
  let* p := get in let* l := must (tp_pending p !! addr) in ret (l_Len l).

(** [for pending > GlobalSlots && Len(watched) > threshold]: one transaction of
    each of [accounts] goes in turn.  The result is the number left; it counts the
    transactions, so the subtraction does not wrap. *)
Fixpoint equalize (fuel : nat) (accounts : list Address) (watched : Address) (threshold pending : Z) : M TxPool Z :=
  match fuel with
  | O => fun _ => OutOfFuel
  | S fuel =>
      if pending >? GlobalSlots config then
        let* n := pendingLen watched in
        if n >? threshold then
          forEach dropLast accounts ;;
          equalize fuel accounts watched threshold (pending - zlen accounts)
        else ret pending
      else ret pending
  end.

(** The offenders in the order of the priority queue, until the pool is small
    enough. *)
Fixpoint punish (fuel : nat) (offenders spammers : list Address) (pending : Z) : M TxPool (list Address * Z) :=
  match spammers with
  | [] => ret (offenders, pending)
  | offender :: spammers =>
      if pending >? GlobalSlots config then
        match last offenders with
        | None => punish fuel (offenders ++ [offender]) spammers pending
        | Some previous =>
            let* threshold := pendingLen offender in
            let* pending := equalize fuel offenders previous threshold pending in
            punish fuel (offenders ++ [offender]) spammers pending
        end
      else ret (offenders, pending)
  end.

Definition truncatePending : M TxPool unit :=
  let* p := get in
  let pending := countTxs (tp_pending p) in
  if pending >? GlobalSlots config then
    let lens := (fun addr => (addr, default 0 (l_Len <$> tp_pending p !! addr))) <$> rangeAddr (tp_pending p) in
    let spammers := prque (List.filter (fun e => negb (contains p e.1) && (e.2 >? AccountSlots config)) lens) in
    let fuel := (Z.to_nat pending + 1)%nat in
    let* r := punish fuel [] spammers pending in
    let '(offenders, pending) := r in
    match last offenders with
    | None => ret tt
    | Some l => let* _ := equalize fuel offenders l (AccountSlots config) pending in ret tt
    end
  else ret tt.

(** The transactions of the accounts that have been quiet the shortest go, the
    highest nonces first; [drop] are too many. *)
Fixpoint dropQueued (drop : Z) (addresses : list Address) : M TxPool unit :=
  match addresses with
  | [] => ret tt
  | addr :: addresses =>
      if drop >? 0 then
        let* txs := onQueue addr (fun l => Some (l_Flatten l)) in
        let size := zlen txs in
        if size <=? drop then
          forEach (fun tx => removeTx (tx_Hash tx) true) txs ;;
          dropQueued (drop - size) addresses
        else forEach (fun tx => removeTx (tx_Hash tx) true) (take (Z.to_nat drop) (rev txs))
      else ret tt
  end.

Definition truncateQueue : M TxPool unit :=
  let* p := get in
  let queued := countTxs (tp_queue p) in
  if queued >? GlobalQueue config then
    let remote := List.filter (fun addr => negb (contains p addr)) (rangeAddr (tp_queue p)) in
    let addresses := byHeartbeat ((fun addr => (addr, default 0 (tp_beats p !! addr))) <$> remote) in
    dropQueued (queued - GlobalQueue config) (rev addresses)
  else ret tt.

(** [None]: all accounts of the queue. *)
Definition promoteExecutables (accounts : option (list Address)) : M TxPool unit :=
  let* p := get in
  forEach promoteAccount (default (rangeAddr (tp_queue p)) accounts) ;;
  truncatePending ;;
  truncateQueue.

(** ** demoteUnexecutables *)

Definition demoteAccount (addr : Address) : M TxPool unit :=
  let* p := get in
  match tp_pending p !! addr with
  | None => ret tt
  | Some _ =>
      let nonce := cs_nonce (tp_state p) addr in
      let* olds := onPending addr (fun l => l_Forward l nonce) in
      forEach forget olds ;;
      let* r := onPending addr (fun l => Some (l_Filter range_ l (cs_balance (tp_state p) addr) (tp_maxGas p))) in
      forEach forget r.1 ;;
      forEach postpone r.2 ;;
      let* gapped := onPending addr (fun l =>
        if (l_Len l >? 0) && match sm_Get (l_txs l) nonce with None => true | Some _ => false end
        then l_Cap l 0 else Some ([], l)) in
      forEach postpone gapped ;;
      tidyPending addr
  end.

Definition demoteUnexecutables : M TxPool unit :=
  let* p := get in forEach demoteAccount (rangeAddr (tp_pending p)).

(** ** Adding *)

Definition add (tx : Transaction) (local : bool) : M TxPool (poolErr + bool) :=
  let hash := tx_Hash tx in
  let* p := get in
  match tp_all p !! hash with
  | Some _ => ret (inl ErrKnown)
  | None =>
      match validateTx p tx local with
      | Some e => ret (inl e)
      | None =>
          let full := u64 (Z.of_nat (size (tp_all p))) >=? u64 (GlobalSlots config + GlobalQueue config) in
          let* underpriced :=
            if full && negb local then
              let* r := must (Underpriced (containsTx p) (tp_all p) (tp_priced p) tx) in
              modify (upd_priced r.2) ;; ret r.1
            else ret false in
          if underpriced : bool then ret (inl ErrUnderpriced)
          else
            (if full then
               let* p := get in
               let count := i64 (Z.of_nat (size (tp_all p)) - i64 (u64 (GlobalSlots config + GlobalQueue config - 1))) in
               let* r := must (Discard (containsTx p) (tp_all p) (tp_priced p) count) in
               modify (upd_priced r.2) ;;
               forEach (fun tx => removeTx (tx_Hash tx) false) r.1
             else ret tt) ;;
            let* p := get in
            match (match tp_pending p !! from tx with Some l => if Overlaps l tx then Some l else None | None => None end) with
            | Some l =>
                let '(inserted, old, l) := l_Add l tx (PriceBump config) in
                if negb (inserted : bool) then ret (inl ErrReplaceUnderpriced)
                else
                  modify (upd_pending (<[from tx := l]>)) ;;
                  (match old with Some old => forget old | None => ret tt end) ;;
                  modify (fun p => upd_priced (p_Put (tp_priced p) tx) (upd_all (<[hash := tx]>) p)) ;;
                  ret (inr (match old with Some _ => true | None => false end))
            | None =>
                let* r := enqueueTx hash tx in
                match r with
                | inl e => ret (inl e)
                | inr replace =>
                    (if local then modify (fun p => upd_locals ({[from tx]} ∪ tp_locals p) p) else ret tt) ;;
                    ret (inr replace)
                end
            end
      end
  end.

Definition addTx (tx : Transaction) (local : bool) : M TxPool (option poolErr) :=
  let* r := add tx local in
  match r with
  | inl e => ret (Some e)
  | inr true => ret None
  | inr false => promoteExecutables (Some [from tx]) ;; ret None
  end.

(** The errors, and the accounts that have a new transaction. *)
Fixpoint addLoop (txs : list Transaction) (local : bool) (dirty : gset Address) : M TxPool (list (option poolErr) * gset Address) :=
  match txs with
  | [] => ret ([], dirty)
  | tx :: txs =>
      let* r := add tx local in
      let dirty := match r with inr false => {[from tx]} ∪ dirty | _ => dirty end in
      let* rest := addLoop txs local dirty in
      ret ((match r with inl e => Some e | inr _ => None end) :: rest.1, rest.2)
  end.

(** The order of [range] over the dirty accounts is that of [elements]. *)
Definition addTxsLocked (txs : list Transaction) (local : bool) : M TxPool (list (option poolErr)) :=
  let* r := addLoop txs local ∅ in
  if bool_decide (r.2 = ∅) then ret r.1
  else promoteExecutables (Some (elements r.2)) ;; ret r.1.

(** ** Price limit and eviction *)

Definition SetGasPrice (price : Z) : M TxPool unit :=
  modify (upd_gasPrice price) ;;
  let* p := get in
  let* r := must (p_Cap (containsTx p) (tp_all p) (tp_priced p) price) in
  modify (upd_priced r.2) ;;
  forEach (fun tx => removeTx (tx_Hash tx) false) r.1.

(** The eviction of quiet accounts, in the event loop. *)
Definition evictAccount (addr : Address) : M TxPool unit :=
  let* p := get in
  match tp_queue p !! addr with
  | None => ret tt
  | Some _ =>
      if contains p addr then ret tt
      else if now - default 0 (tp_beats p !! addr) >? Lifetime config then
        let* txs := onQueue addr (fun l => Some (l_Flatten l)) in
        forEach (fun tx => removeTx (tx_Hash tx) true) txs
      else ret tt
  end.

Definition evict : M TxPool unit := let* p := get in forEach evictAccount (rangeAddr (tp_queue p)).

(** ** A new head *)

(** [types.TxDifference]. *)
Definition TxDifference (a b : list Transaction) : list Transaction :=
  List.filter (fun tx => negb (bool_decide (tx_Hash tx ∈ map tx_Hash b))) a.

Variable GetBlock : Hash -> Z -> option Block.

(** The block below: [chain.GetBlock(b.ParentHash(), b.NumberU64()-1)]. *)
Definition below_ (b : Block) : option Block := GetBlock (Block_ParentHash b) (u64 (NumberU64 b - 1)).

(** Down to the height of [target], gathering the transactions: [Some None] is
    an unrooted chain. *)
Fixpoint descend (fuel : nat) (b : Block) (target : Z) (acc : list Transaction) : option (option (Block * list Transaction)) :=
  match fuel with
  | O => None
  | S fuel =>
      if NumberU64 b >? target then
        match below_ b with
        | None => Some None
        | Some b' => descend fuel b' target (acc ++ b_transactions b)
        end
      else Some (Some (b, acc))
  end.

(** Down on both sides to the common block. *)
Fixpoint meet (fuel : nat) (rem add : Block) (discarded included : list Transaction) :
    option (option (list Transaction * list Transaction)) :=
  match fuel with
  | O => None
  | S fuel =>
      if Block_Hash rem =? Block_Hash add then Some (Some (discarded, included))
      else
        match below_ rem with
        | None => Some None
        | Some rem' =>
            match below_ add with
            | None => Some None
            | Some add' => meet fuel rem' add' (discarded ++ b_transactions rem) (included ++ b_transactions add)
            end
        end
  end.

(** The transactions to reinject; [Ret None] gives up.  The depth compares two
    floats; they are exact below 2^53. *)
Definition reinjected (fuel : nat) (oldHead : option Header) (newHead : Header) : outcome (option (list Transaction)) :=
  match oldHead with
  | None => Ret (Some [])
  | Some oldHead =>
      if Header_Hash oldHead =? h_ParentHash newHead then Ret (Some [])
      else if Z.abs (u64 (h_Number oldHead) - u64 (h_Number newHead)) >? 64 then Ret (Some [])
      else
        match GetBlock (Header_Hash oldHead) (u64 (h_Number oldHead)), GetBlock (Header_Hash newHead) (u64 (h_Number newHead)) with
        | Some rem, Some add =>
            match descend fuel rem (NumberU64 add) [] with
            | None => OutOfFuel
            | Some None => Ret None
            | Some (Some (rem, discarded)) =>
                match descend fuel add (NumberU64 rem) [] with
                | None => OutOfFuel
                | Some None => Ret None
                | Some (Some (add, included)) =>
                    match meet fuel rem add discarded included with
                    | None => OutOfFuel
                    | Some None => Ret None
                    | Some (Some (discarded, included)) => Ret (Some (TxDifference discarded included))
                    end
                end
            end
        | _, _ => Panic
        end
  end.

(** The state at a root, unless it is missing. *)
Variable StateAt : Hash -> option ChainState.

Definition setPendingNonce (addr : Address) : M TxPool unit :=
  let* p := get in
  match tp_pending p !! addr with
  | None => ret tt
  | Some _ =>
      let* txs := onPending addr (fun l => Some (l_Flatten l)) in
      let* tx := must (last txs) in
      modify (upd_pendingState (ms_SetNonce addr (u64 (tx_Nonce tx + 1))))
  end.

Definition reset (fuel : nat) (oldHead : option Header) (newHead : Header) : M TxPool unit :=
  let* reinject := fun p => match reinjected fuel oldHead newHead with Ret r => Ret (r, p) | Panic => Panic | OutOfFuel => OutOfFuel end in
  match reinject with
  | None => ret tt
  | Some reinject =>
      match StateAt (h_Root newHead) with
      | None => ret tt
      | Some statedb =>
          modify (upd_head statedb (ManageState statedb) (h_GasLimit newHead)) ;;
          addTxsLocked reinject false ;;
          demoteUnexecutables ;;
          (let* p := get in forEach setPendingNonce (rangeAddr (tp_pending p))) ;;
          promoteExecutables None
      end
  end.

(** A [ChainHeadEvent] in the event loop. *)
Definition headEvent (chainconfig : ChainConfig) (fuel : nat) (head : Header) (ev : Header) : M TxPool unit :=
  (if IsHomestead chainconfig (h_Number ev) then modify (upd_homestead true) else ret tt) ;;
  reset fuel (Some head) ev.
End pool.
