(* ===== verification/TxPoolSpec.v ===== *)
(** * What the transaction pool keeps true

    [inv] ties the lists, the table and the heap of the pool together.  Inside an
    operation some transactions are in no list for a while (in limbo, [X]) and
    some have been taken from the heap and not yet from the table ([D]); between
    operations both are empty. *)

From Stdlib Require Import ZArith Lia Bool Sorting.Sorted.
From stdpp Require Import sorting.
From S2P Require Import Prelude GoMath Rlp GoHeap TrieHasher Params StateInterface World BlockTypes StateTransition TxList TxListSpec TxPool.
Local Open Scope Z_scope.
Local Open Scope go_scope.

(** ** Slots *)

Abbreviation Lists := (gmap Address txList).

(** The transaction of an account with a nonce. *)
Definition slot (m : Lists) (a : Address) (n : Z) : option Transaction :=
  match m !! a with Some l => l_items l !! n | None => None end.

Lemma slot_insert (m : Lists) a l b n : slot (<[a := l]> m) b n = if decide (b = a) then l_items l !! n else slot m b n.
Proof.
  unfold slot. destruct (decide (b = a)) as [->|Hne]; [by rewrite lookup_insert_eq|by rewrite lookup_insert_ne].
Qed.

Lemma l_Empty_items l : l_Empty l = true <-> l_items l = ∅.
Proof.
  unfold l_Empty, l_Len, sm_Len. fold (l_items l). rewrite Z.eqb_eq. split.
  - intros H. apply map_size_empty_inv. lia.
  - intros ->. done.
Qed.

Lemma slot_delete_empty (m : Lists) a b n l : m !! a = Some l -> l_Empty l = true -> slot (delete a m) b n = slot m b n.
Proof.
  intros Hl He. apply l_Empty_items in He. unfold slot. destruct (decide (b = a)) as [->|Hne].
  - by rewrite lookup_delete_eq, Hl, He, lookup_empty.
  - by rewrite lookup_delete_ne.
Qed.

Lemma slot_tidy (m : Lists) a b n : slot (deleteIfEmpty a m) b n = slot m b n.
Proof.
  unfold deleteIfEmpty. destruct (m !! a) as [l|] eqn:E; [|done]. destruct (l_Empty l) eqn:He; [|done].
  by apply (slot_delete_empty m a b n l).
Qed.

(** A list sorted for one relation is sorted for another that its elements
    share. *)
Lemma StronglySorted_on {A} (Q Q' : A -> A -> Prop) l :
  (forall x y, x ∈ l -> y ∈ l -> Q x y -> Q' x y) -> StronglySorted Q l -> StronglySorted Q' l.
Proof.
  induction l as [|x l IH]; intros HQ Hs; [constructor|]. apply StronglySorted_inv in Hs as [Hs Hx]. constructor.
  - apply IH; [|done]. intros y z Hy Hz. apply HQ; by right.
  - rewrite Forall_forall in Hx |- *. intros y Hy. apply HQ; [by left|by right|by apply Hx].
Qed.

Section spec.
Context {K : Sha3}.
Variable sender : Transaction -> option Address.
Variable range_ : Items -> list (Z * Transaction).
Context {R : Ranges range_}.
Variable rangeAll : gmap Hash Transaction -> list (Hash * Transaction).
Hypothesis HrangeAll : forall m, rangeAll m ≡ₚ map_to_list m.
Variable config : TxPoolConfig.
Variable now : Z.

(** The transactions that may turn up: their hashes do not collide, and an [int]
    counts them. *)
Variable U : Transaction -> Prop.
Record universe : Prop := {
  u_nonce tx : U tx -> 0 <= tx_Nonce tx < 2 ^ 64;
  u_hash a b : U a -> U b -> tx_Hash a = tx_Hash b -> a = b;
  u_few : exists l, (forall tx, U tx -> tx ∈ l) /\ zlen l < 2 ^ 63 - 1
}.
Hypothesis HU : universe.

Abbreviation from := (from sender).

Definition place (tx : Transaction) : Address * Z := (from tx, tx_Nonce tx).

(** Where a transaction is. *)
Definition pendingAt (p : TxPool) (tx : Transaction) : Prop := slot (tp_pending p) (from tx) (tx_Nonce tx) = Some tx.
Definition queuedAt (p : TxPool) (tx : Transaction) : Prop := slot (tp_queue p) (from tx) (tx_Nonce tx) = Some tx.

(** No list has a transaction in that place. *)
Definition vacant (p : TxPool) (a : Address) (n : Z) : Prop :=
  slot (tp_pending p) a n = None /\ slot (tp_queue p) a n = None.

Definition home (a : Address) (n : Z) (tx : Transaction) : Prop := from tx = a /\ tx_Nonce tx = n /\ U tx.

Record inv (D X : list Transaction) (p : TxPool) : Prop := {
  i_pending a l : tp_pending p !! a = Some l -> l_ok l /\ l_strict l = true;
  i_queue a l : tp_queue p !! a = Some l -> l_ok l /\ l_strict l = false;
  i_pending_home a n tx : slot (tp_pending p) a n = Some tx -> home a n tx;
  i_queue_home a n tx : slot (tp_queue p) a n = Some tx -> home a n tx;
  i_apart a n : slot (tp_pending p) a n = None \/ slot (tp_queue p) a n = None;
  i_limbo tx : tx ∈ X -> U tx /\ vacant p (from tx) (tx_Nonce tx);
  i_once : NoDup (map place X);
  i_all h tx : tp_all p !! h = Some tx <-> h = tx_Hash tx /\ (pendingAt p tx \/ queuedAt p tx \/ tx ∈ X);
  i_heap : heap_ok priceLess (p_items (tp_priced p));
  i_priced h tx : tp_all p !! h = Some tx -> tx ∈ p_items (tp_priced p) \/ tx ∈ D;
  i_points tx : tx ∈ p_items (tp_priced p) -> U tx
}.

(** All known transactions are of the universe. *)
Lemma known_U D X p tx : inv D X p -> pendingAt p tx \/ queuedAt p tx \/ tx ∈ X -> U tx.
Proof.
  intros H [Hp|[Hq|Hx]]; [by apply (i_pending_home _ _ _ H) in Hp as (_ & _ & ?)|by apply (i_queue_home _ _ _ H) in Hq as (_ & _ & ?)|].
  by apply (i_limbo _ _ _ H).
Qed.

Lemma known_hash D X p tx : inv D X p -> U tx -> pendingAt p tx \/ queuedAt p tx \/ tx ∈ X <-> is_Some (tp_all p !! tx_Hash tx).
Proof.
  intros H Hu. split.
  - intros Hk. exists tx. by apply (i_all _ _ _ H).
  - intros [tx' Hk]. pose proof Hk as Hk'. apply (i_all _ _ _ H) in Hk' as [E Hw].
    pose proof (known_U _ _ _ _ H Hw). by rewrite (u_hash HU tx tx').
Qed.

(** ** forget *)

Definition forgotten (tx : Transaction) (p : TxPool) : TxPool :=
  let p := upd_all (delete (tx_Hash tx)) p in upd_priced (p_Removed rangeAll (tp_all p) (tp_priced p)) p.

Lemma forget_eq tx p : forget rangeAll tx p = Ret (tt, forgotten tx p).
Proof. done. Qed.

(** The heap after [Removed] has all known transactions again, or what it had. *)
Lemma Removed_ok all l : heap_ok priceLess (p_items l) ->
  heap_ok priceLess (p_items (p_Removed rangeAll all l)) /\
  (forall tx h, all !! h = Some tx -> tx ∈ p_items l -> tx ∈ p_items (p_Removed rangeAll all l)) /\
  (forall tx, tx ∈ p_items (p_Removed rangeAll all l) -> tx ∈ p_items l \/ exists h, all !! h = Some tx).
Proof.
  intros Hh. unfold p_Removed. destruct (_ <=? _); cbn [p_items]; [split; [done|]; split; [done|by left]|].
  destruct (Init_ok priceLess (rangeAll all).*2) as [I1 I2]. split; [done|].
  assert (forall tx, tx ∈ Init priceLess (rangeAll all).*2 <-> exists h, all !! h = Some tx) as Hin.
  { intros tx. rewrite I1, (HrangeAll all), list_elem_of_fmap. split.
    - intros ([h t] & -> & Hx). exists h. by apply elem_of_map_to_list.
    - intros [h Hx]. exists (h, tx). split; [done|]. by apply elem_of_map_to_list. }
  split; [intros tx h Hall _; apply Hin; by exists h|]. intros tx Hx. right. by apply Hin.
Qed.

Lemma forgotten_ok D tx X p : inv D (tx :: X) p -> inv D X (forgotten tx p).
Proof.
  intros H. pose proof (i_limbo _ _ _ H tx ltac:(by left)) as (Hu & Hv1 & Hv2). pose proof (i_once _ _ _ H) as Hnd.
  cbn [map] in Hnd. apply NoDup_cons in Hnd as [Hnotin Hnd].
  assert (forall t, pendingAt p t \/ queuedAt p t \/ t ∈ X -> tx_Hash t <> tx_Hash tx) as Hne.
  { intros t Ht E. assert (t = tx) as ->.
    { apply (u_hash HU); [|done|done]. apply (known_U _ _ _ _ H). destruct Ht as [?|[?|?]]; [by left|by right; left|by right; right; right]. }
    destruct Ht as [Ht|[Ht|Ht]]; [unfold pendingAt in Ht; congruence|unfold queuedAt in Ht; congruence|].
    apply Hnotin. by apply (list_elem_of_fmap_2 place). }
  destruct (Removed_ok (delete (tx_Hash tx) (tp_all p)) (tp_priced p) (i_heap _ _ _ H)) as (R1 & R2 & R3).
  split; cbn [forgotten upd_priced upd_all tp_pending tp_queue tp_all tp_priced]; try apply H; try done.
  - intros t Ht. apply (i_limbo _ _ _ H). by right.
  - intros h t. rewrite lookup_delete_Some, (i_all _ _ _ H). split.
    + intros (Hh & -> & Hw). split; [done|]. destruct Hw as [?|[?|Hx]]; [by left|by right; left|].
      apply elem_of_cons in Hx as [->|Hx]; [done|by right; right].
    + intros (-> & Hw). split; [intros E; by apply (Hne t Hw)|]. split; [done|].
      destruct Hw as [?|[?|?]]; [by left|by right; left|by right; right; right].
  - intros h t Hall. pose proof Hall as Hall'. apply lookup_delete_Some in Hall' as [_ Hall'].
    destruct (i_priced _ _ _ H h t Hall') as [Hp|Hd]; [left; by eapply R2|by right].
  - intros t Ht. apply R3 in Ht as [Ht|[h Ht]]; [by apply (i_points _ _ _ H)|]. apply lookup_delete_Some in Ht as [_ Ht].
    apply (i_all _ _ _ H) in Ht as [_ Ht]. by apply (known_U _ _ _ _ H).
Qed.

Lemma forget_all D txs X p : inv D (txs ++ X) p ->
  exists p', forEach (forget rangeAll) txs p = Ret (tt, p') /\ inv D X p' /\
    tp_pending p' = tp_pending p /\ tp_queue p' = tp_queue p /\ tp_state p' = tp_state p /\ tp_maxGas p' = tp_maxGas p /\
    tp_pendingState p' = tp_pendingState p /\ tp_locals p' = tp_locals p.
Proof.
  revert p. induction txs as [|tx txs IH]; intros p H; [by exists p|]. cbn [forEach app] in *. unfold bind. rewrite forget_eq.
  destruct (IH (forgotten tx p) (forgotten_ok D tx _ p H)) as (p' & E & Hi & Hf). rewrite E. by exists p'.
Qed.

(** ** Taking transactions out of a list *)

Lemma filed_nonces (m : Items) : filed m -> map tx_Nonce (values m) = keys m.
Proof.
  intros Hm. unfold values, keys. change (map tx_Nonce) with (fmap (M := list) tx_Nonce).
  rewrite <- list_fmap_compose. apply list_fmap_ext.
  intros i [n tx] Hi. cbn. apply Hm, elem_of_map_to_list. by eapply list_elem_of_lookup_2.
Qed.

Lemma taken_places a (m m' : Items) txs : taken m txs m' -> (forall n tx, m !! n = Some tx -> home a n tx) -> NoDup (map place txs).
Proof.
  intros Ht Hh. assert (filed (m ∖ m')) as Hf.
  { intros n tx [Hn _]%lookup_difference_Some. by apply Hh in Hn as (_ & ? & _). }
  assert (NoDup (map tx_Nonce txs)) as Hnd.
  { rewrite (tk_list _ _ _ Ht), filed_nonces by done. apply NoDup_fst_map_to_list. }
  apply (NoDup_fmap_1 snd). change (fmap snd (map place txs)) with (map snd (map place txs)). by rewrite map_map.
Qed.

Lemma places_app D X p txs : inv D X p -> NoDup (map place txs) ->
  (forall tx, tx ∈ txs -> pendingAt p tx \/ queuedAt p tx) -> NoDup (map place (txs ++ X)).
Proof.
  intros H Hnd Hin. rewrite map_app. apply NoDup_app. split; [done|]. split; [|apply H].
  intros pl Hp Hx. apply list_elem_of_fmap in Hp as (tx & -> & Htx), Hx as (t & E & Ht).
  destruct (i_limbo _ _ _ H t Ht) as (_ & Hv1 & Hv2). injection E as E1 E2.
  destruct (Hin tx Htx) as [Hs|Hs]; [unfold pendingAt in Hs|unfold queuedAt in Hs]; congruence.
Qed.

Lemma take_queue D X p a l l' txs : inv D X p -> tp_queue p !! a = Some l -> l_ok l' -> l_strict l' = false ->
  taken (l_items l) txs (l_items l') -> inv D (txs ++ X) (upd_queue (<[a := l']>) p).
Proof.
  intros H Hl Hok Hst Ht. set (p' := upd_queue _ p).
  assert (forall n, slot (tp_queue p) a n = l_items l !! n) as Hold by (intros n; unfold slot; by rewrite Hl).
  assert (forall b n, slot (tp_queue p') b n = if decide (b = a) then l_items l' !! n else slot (tp_queue p) b n) as Hslot
    by (intros b n; apply slot_insert).
  assert (forall n tx, l_items l !! n = Some tx -> home a n tx) as Hhome.
  { intros n tx Hn. apply (i_queue_home _ _ _ H). by rewrite Hold. }
  assert (forall b n tx, slot (tp_queue p') b n = Some tx -> slot (tp_queue p) b n = Some tx) as Hsub.
  { intros b n tx. rewrite Hslot. destruct (decide (b = a)) as [->|]; [|done]. rewrite Hold. intros Hn. eapply lookup_weaken; [exact Hn|apply Ht]. }
  assert (forall tx, tx ∈ txs -> queuedAt p tx /\ from tx = a /\ l_items l' !! tx_Nonce tx = None) as Htxs.
  { intros tx Htx. apply (taken_in _ _ _ _ Ht) in Htx as (n & Hn & Hn'). destruct (Hhome n tx Hn) as (E1 & E2 & _).
    unfold queuedAt. rewrite E1, E2, Hold. done. }
  assert (forall tx, queuedAt p tx <-> queuedAt p' tx \/ tx ∈ txs) as Hq.
  { intros tx. unfold queuedAt. rewrite Hslot. destruct (decide (from tx = a)) as [E|E].
    - rewrite E, Hold. split.
      + intros Hn. destruct (taken_kept _ _ _ _ _ Ht Hn) as [Hk|[_ Hk]]; [by left|by right].
      + intros [Hn|Hn]; [eapply lookup_weaken; [exact Hn|apply Ht]|]. destruct (Htxs tx Hn) as (Hs & _). unfold queuedAt in Hs. by rewrite E, Hold in Hs.
    - split; [by left|]. intros [?|Hn]; [done|]. destruct (Htxs tx Hn) as (_ & ? & _). done. }
  split; try apply H.
  - intros b l0. change (tp_queue p') with (<[a := l']> (tp_queue p)). rewrite lookup_insert_Some.
    intros [[_ <-]|[_ Hb]]; [done|by eapply (i_queue _ _ _ H)].
  - intros b n tx Hn. by apply (i_queue_home _ _ _ H), Hsub.
  - intros b n. destruct (i_apart _ _ _ H b n) as [Hp|Hp]; [by left|right].
    destruct (slot (tp_queue p') b n) as [tx|] eqn:E; [|done]. apply Hsub in E. congruence.
  - intros tx [Hx|Hx]%elem_of_app.
    + destruct (Htxs tx Hx) as (Hs & E & Hn). split; [apply (known_U _ _ _ _ H); by right; left|]. split.
      * destruct (i_apart _ _ _ H (from tx) (tx_Nonce tx)) as [Hp|Hp]; [done|unfold queuedAt in Hs; congruence].
      * rewrite Hslot, decide_True by done. done.
    + destruct (i_limbo _ _ _ H tx Hx) as (Hu & Hv1 & Hv2). split; [done|]. split; [done|].
      destruct (slot (tp_queue p') (from tx) (tx_Nonce tx)) as [t|] eqn:E; [|done]. apply Hsub in E. congruence.
  - eapply places_app; [exact H|by eapply taken_places|]. intros tx Hx. right. by apply Htxs.
  - intros h tx. change (tp_all p') with (tp_all p). rewrite (i_all _ _ _ H). rewrite elem_of_app, Hq.
    change (pendingAt p' tx) with (pendingAt p tx). tauto.
Qed.

Lemma take_pending D X p a l l' txs : inv D X p -> tp_pending p !! a = Some l -> l_ok l' -> l_strict l' = true ->
  taken (l_items l) txs (l_items l') -> inv D (txs ++ X) (upd_pending (<[a := l']>) p).
Proof.
  intros H Hl Hok Hst Ht. set (p' := upd_pending _ p).
  assert (forall n, slot (tp_pending p) a n = l_items l !! n) as Hold by (intros n; unfold slot; by rewrite Hl).
  assert (forall b n, slot (tp_pending p') b n = if decide (b = a) then l_items l' !! n else slot (tp_pending p) b n) as Hslot
    by (intros b n; apply slot_insert).
  assert (forall n tx, l_items l !! n = Some tx -> home a n tx) as Hhome.
  { intros n tx Hn. apply (i_pending_home _ _ _ H). by rewrite Hold. }
  assert (forall b n tx, slot (tp_pending p') b n = Some tx -> slot (tp_pending p) b n = Some tx) as Hsub.
  { intros b n tx. rewrite Hslot. destruct (decide (b = a)) as [->|]; [|done]. rewrite Hold. intros Hn. eapply lookup_weaken; [exact Hn|apply Ht]. }
  assert (forall tx, tx ∈ txs -> pendingAt p tx /\ from tx = a /\ l_items l' !! tx_Nonce tx = None) as Htxs.
  { intros tx Htx. apply (taken_in _ _ _ _ Ht) in Htx as (n & Hn & Hn'). destruct (Hhome n tx Hn) as (E1 & E2 & _).
    unfold pendingAt. rewrite E1, E2, Hold. done. }
  assert (forall tx, pendingAt p tx <-> pendingAt p' tx \/ tx ∈ txs) as Hq.
  { intros tx. unfold pendingAt. rewrite Hslot. destruct (decide (from tx = a)) as [E|E].
    - rewrite E, Hold. split.
      + intros Hn. destruct (taken_kept _ _ _ _ _ Ht Hn) as [Hk|[_ Hk]]; [by left|by right].
      + intros [Hn|Hn]; [eapply lookup_weaken; [exact Hn|apply Ht]|]. destruct (Htxs tx Hn) as (Hs & _). unfold pendingAt in Hs. by rewrite E, Hold in Hs.
    - split; [by left|]. intros [?|Hn]; [done|]. destruct (Htxs tx Hn) as (_ & ? & _). done. }
  split; try apply H.
  - intros b l0. change (tp_pending p') with (<[a := l']> (tp_pending p)). rewrite lookup_insert_Some.
    intros [[_ <-]|[_ Hb]]; [done|by eapply (i_pending _ _ _ H)].
  - intros b n tx Hn. by apply (i_pending_home _ _ _ H), Hsub.
  - intros b n. destruct (i_apart _ _ _ H b n) as [Hp|Hp]; [left|by right].
    destruct (slot (tp_pending p') b n) as [tx|] eqn:E; [|done]. apply Hsub in E. congruence.
  - intros tx [Hx|Hx]%elem_of_app.
    + destruct (Htxs tx Hx) as (Hs & E & Hn). split; [apply (known_U _ _ _ _ H); by left|]. split.
      * rewrite Hslot, decide_True by done. done.
      * destruct (i_apart _ _ _ H (from tx) (tx_Nonce tx)) as [Hp|Hp]; [unfold pendingAt in Hs; congruence|done].
    + destruct (i_limbo _ _ _ H tx Hx) as (Hu & Hv1 & Hv2). split; [done|]. split; [|done].
      destruct (slot (tp_pending p') (from tx) (tx_Nonce tx)) as [t|] eqn:E; [|done]. apply Hsub in E. congruence.
  - eapply places_app; [exact H|by eapply taken_places|]. intros tx Hx. left. by apply Htxs.
  - intros h tx. change (tp_all p') with (tp_all p). rewrite (i_all _ _ _ H). rewrite elem_of_app, Hq.
    change (queuedAt p' tx) with (queuedAt p tx). tauto.
Qed.

(** ** Putting a transaction from limbo into a list *)

(** [l'] is [l] with one transaction more. *)
Lemma slot_put (m : Lists) a l l' tx : default l (m !! a) = l -> (m !! a = None -> l_items l = ∅) ->
  l_items l' = <[tx_Nonce tx := tx]> (l_items l) ->
  forall b n, slot (<[a := l']> m) b n = if decide ((b, n) = (a, tx_Nonce tx)) then Some tx else slot m b n.
Proof.
  intros Hd Hn Hi b n. rewrite slot_insert. destruct (decide (b = a)) as [->|Hb].
  - rewrite Hi. destruct (decide (n = tx_Nonce tx)) as [->|Hne].
    + by rewrite lookup_insert_eq, decide_True.
    + rewrite lookup_insert_ne, decide_False by congruence. unfold slot. destruct (m !! a) as [l0|] eqn:E.
      * cbn in Hd. by subst.
      * by rewrite Hn, lookup_empty.
  - rewrite decide_False by congruence. done.
Qed.

(** Two pools that differ in one list, which [tx] has joined. *)
Lemma put_queue D X p tx l' : inv D (tx :: X) p -> l_ok l' -> l_strict l' = false ->
  (forall b n, slot (<[from tx := l']> (tp_queue p)) b n = if decide ((b, n) = place tx) then Some tx else slot (tp_queue p) b n) ->
  inv D X (upd_queue (<[from tx := l']>) p).
Proof.
  intros H Hok Hst Hslot. set (p' := upd_queue _ p). change (<[from tx := l']> (tp_queue p)) with (tp_queue p') in Hslot.
  destruct (i_limbo _ _ _ H tx ltac:(by left)) as (Hu & Hv1 & Hv2).
  pose proof (i_once _ _ _ H) as Hnd. cbn [map] in Hnd. apply NoDup_cons in Hnd as [Hnotin Hnd].
  assert (forall t, queuedAt p' t <-> queuedAt p t \/ t = tx) as Hq.
  { intros t. unfold queuedAt. rewrite Hslot. destruct (decide ((from t, tx_Nonce t) = place tx)) as [E|E].
    - injection E as E1 E2. rewrite E1, E2, Hv2. split; [intros [= ->]; by right|]. by intros [?| ->].
    - split; [by left|]. intros [?| ->]; [done|]. by destruct E. }
  split; try apply H.
  - intros b l0. change (tp_queue p') with (<[from tx := l']> (tp_queue p)). rewrite lookup_insert_Some.
    intros [[_ <-]|[_ Hb]]; [done|by eapply (i_queue _ _ _ H)].
  - intros b n t. rewrite Hslot. destruct (decide ((b, n) = place tx)) as [[= -> ->]|]; [by intros [= ->]|apply H].
  - intros b n. rewrite Hslot. destruct (decide ((b, n) = place tx)) as [[= -> ->]|]; [by left|apply H].
  - intros t Ht. destruct (i_limbo _ _ _ H t ltac:(by right)) as (Hut & Ht1 & Ht2). split; [done|]. split; [done|].
    rewrite Hslot, decide_False; [done|]. intros E. apply Hnotin. change (place t = place tx) in E. rewrite <- E.
    by apply (list_elem_of_fmap_2 place).
  - done.
  - intros h t. change (tp_all p') with (tp_all p). rewrite (i_all _ _ _ H), Hq, elem_of_cons.
    change (pendingAt p' t) with (pendingAt p t). tauto.
Qed.

Lemma put_pending D X p tx l' : inv D (tx :: X) p -> l_ok l' -> l_strict l' = true ->
  (forall b n, slot (<[from tx := l']> (tp_pending p)) b n = if decide ((b, n) = place tx) then Some tx else slot (tp_pending p) b n) ->
  inv D X (upd_pending (<[from tx := l']>) p).
Proof.
  intros H Hok Hst Hslot. set (p' := upd_pending _ p). change (<[from tx := l']> (tp_pending p)) with (tp_pending p') in Hslot.
  destruct (i_limbo _ _ _ H tx ltac:(by left)) as (Hu & Hv1 & Hv2).
  pose proof (i_once _ _ _ H) as Hnd. cbn [map] in Hnd. apply NoDup_cons in Hnd as [Hnotin Hnd].
  assert (forall t, pendingAt p' t <-> pendingAt p t \/ t = tx) as Hq.
  { intros t. unfold pendingAt. rewrite Hslot. destruct (decide ((from t, tx_Nonce t) = place tx)) as [E|E].
    - injection E as E1 E2. rewrite E1, E2, Hv1. split; [intros [= ->]; by right|]. by intros [?| ->].
    - split; [by left|]. intros [?| ->]; [done|]. by destruct E. }
  split; try apply H.
  - intros b l0. change (tp_pending p') with (<[from tx := l']> (tp_pending p)). rewrite lookup_insert_Some.
    intros [[_ <-]|[_ Hb]]; [done|by eapply (i_pending _ _ _ H)].
  - intros b n t. rewrite Hslot. destruct (decide ((b, n) = place tx)) as [[= -> ->]|]; [by intros [= ->]|apply H].
  - intros b n. rewrite Hslot. destruct (decide ((b, n) = place tx)) as [[= -> ->]|]; [by right|apply H].
  - intros t Ht. destruct (i_limbo _ _ _ H t ltac:(by right)) as (Hut & Ht1 & Ht2). split; [done|]. split; [|done].
    rewrite Hslot, decide_False; [done|]. intros E. apply Hnotin. change (place t = place tx) in E. rewrite <- E.
    by apply (list_elem_of_fmap_2 place).
  - done.
  - intros h t. change (tp_all p') with (tp_all p). rewrite (i_all _ _ _ H), Hq, elem_of_cons.
    change (queuedAt p' t) with (queuedAt p t). tauto.
Qed.

(** Fields that only some operations touch. *)
Definition same_head (p p' : TxPool) : Prop :=
  tp_state p' = tp_state p /\ tp_maxGas p' = tp_maxGas p /\ tp_locals p' = tp_locals p /\
  tp_gasPrice p' = tp_gasPrice p /\ tp_homestead p' = tp_homestead p.

Definition same_pending (p p' : TxPool) : Prop :=
  tp_pending p' = tp_pending p /\ tp_pendingState p' = tp_pendingState p.

Lemma newList_ok (m : Lists) strict a : (forall l, m !! a = Some l -> l_ok l /\ l_strict l = strict) ->
  l_ok (default (newTxList strict) (m !! a)) /\ l_strict (default (newTxList strict) (m !! a)) = strict /\
  forall n, l_items (default (newTxList strict) (m !! a)) !! n = slot m a n.
Proof.
  intros H. unfold slot. destruct (m !! a) as [l|]; cbn; [by destruct (H l eq_refl)|]. split; [apply l_new_ok|done].
Qed.

(** A transaction in limbo comes to the queue. *)
Lemma enqueue_limbo D X p tx : inv D (tx :: X) p ->
  exists p', enqueueTx sender rangeAll config (tx_Hash tx) tx p = Ret (inr false, p') /\ inv D X p' /\
    same_pending p p' /\ same_head p p' /\ tp_all p' = tp_all p /\
    (forall b n, slot (tp_queue p') b n = if decide ((b, n) = place tx) then Some tx else slot (tp_queue p) b n) /\
    (forall b, b <> from tx -> tp_queue p' !! b = tp_queue p !! b).
Proof.
  intros H. destruct (i_limbo _ _ _ H tx ltac:(by left)) as (Hu & Hv1 & Hv2).
  destruct (newList_ok (tp_queue p) false (from tx)) as (N1 & N2 & N3); [apply H|].
  unfold enqueueTx, bind, get, modify. set (l := default (newTxList false) (tp_queue p !! from tx)) in *.
  pose proof (l_Add_ok l tx (PriceBump config) N1 (u_nonce HU tx Hu)) as Ha.
  destruct (l_Add l tx (PriceBump config)) as [[inserted old] l']. destruct Ha as (A1 & A2 & A3).
  rewrite N3, Hv2 in A3. destruct inserted; [|destruct A3 as (_ & _ & [? ?]); done]. destruct A3 as [A3 ->]. cbn [negb].
  assert (forall b n, slot (<[from tx := l']> (tp_queue p)) b n = if decide ((b, n) = place tx) then Some tx else slot (tp_queue p) b n) as Hslot.
  { apply (slot_put _ _ l); [by unfold l; destruct (tp_queue p !! from tx)| |done].
    intros E. unfold l. rewrite E. done. }
  pose proof (put_queue D X p tx l' H A1 ltac:(congruence) Hslot) as Hi.
  unfold enter, modify, ret. cbn [tp_all upd_queue].
  assert (tp_all p !! tx_Hash tx = Some tx) as ->.
  { apply (i_all _ _ _ H). split; [done|]. right. right. by left. }
  eexists. split; [done|]. split; [done|]. split; [done|]. split; [done|]. split; [done|]. split; [done|].
  intros b Hb. cbn. by rewrite lookup_insert_ne by congruence.
Qed.

(** And to the pending ones. *)
Lemma promote_limbo D X p tx : inv D (tx :: X) p ->
  exists p', promoteTx rangeAll config now (from tx) (tx_Hash tx) tx p = Ret (true, p') /\ inv D X p' /\
    tp_queue p' = tp_queue p /\ same_head p p' /\ tp_all p' = tp_all p /\
    tp_pendingState p' = ms_SetNonce (from tx) (u64 (tx_Nonce tx + 1)) (tp_pendingState p) /\
    (forall b n, slot (tp_pending p') b n = if decide ((b, n) = place tx) then Some tx else slot (tp_pending p) b n).
Proof.
  intros H. destruct (i_limbo _ _ _ H tx ltac:(by left)) as (Hu & Hv1 & Hv2).
  destruct (newList_ok (tp_pending p) true (from tx)) as (N1 & N2 & N3); [apply H|].
  unfold promoteTx, bind, get, modify. set (l := default (newTxList true) (tp_pending p !! from tx)) in *.
  pose proof (l_Add_ok l tx (PriceBump config) N1 (u_nonce HU tx Hu)) as Ha.
  destruct (l_Add l tx (PriceBump config)) as [[inserted old] l']. destruct Ha as (A1 & A2 & A3).
  rewrite N3, Hv1 in A3. destruct inserted; [|destruct A3 as (_ & _ & [? ?]); done]. destruct A3 as [A3 ->]. cbn [negb].
  assert (forall b n, slot (<[from tx := l']> (tp_pending p)) b n = if decide ((b, n) = place tx) then Some tx else slot (tp_pending p) b n) as Hslot.
  { apply (slot_put _ _ l); [by unfold l; destruct (tp_pending p !! from tx)| |done].
    intros E. unfold l. rewrite E. done. }
  pose proof (put_pending D X p tx l' H A1 ltac:(congruence) Hslot) as Hi.
  unfold enter, modify, ret. cbn [tp_all upd_pending].
  assert (tp_all p !! tx_Hash tx = Some tx) as ->.
  { apply (i_all _ _ _ H). split; [done|]. right. right. by left. }
  eexists. split; [done|]. split; [by destruct Hi|]. done.
Qed.

Lemma same_head_trans p1 p2 p3 : same_head p1 p2 -> same_head p2 p3 -> same_head p1 p3.
Proof. unfold same_head. intros (?&?&?&?&?) (?&?&?&?&?). repeat split; congruence. Qed.

Lemma same_head_refl p : same_head p p.
Proof. done. Qed.

Lemma postpone_all D txs X p : inv D (txs ++ X) p ->
  exists p', forEach (postpone sender rangeAll config) txs p = Ret (tt, p') /\ inv D X p' /\
    same_pending p p' /\ same_head p p' /\ tp_all p' = tp_all p /\
    (forall b, (forall tx, tx ∈ txs -> from tx <> b) -> tp_queue p' !! b = tp_queue p !! b).
Proof.
  revert p. induction txs as [|tx txs IH]; intros p H; [by exists p|]. cbn [forEach app] in *. unfold postpone, bind.
  destruct (enqueue_limbo D (txs ++ X) p tx H) as (p1 & -> & H1 & [P1 P2] & Hh1 & Ha1 & _ & Hb1). unfold ret.
  destruct (IH p1 H1) as (p' & E & H' & [Q1 Q2] & Hh' & Ha' & Hb'). unfold postpone, bind, ret in E. rewrite E. exists p'.
  split; [done|]. split; [done|]. split; [split; congruence|]. split; [by eapply same_head_trans|]. split; [congruence|].
  intros b Hb. rewrite Hb', Hb1; [done|intros E1; by apply (Hb tx ltac:(by left))|]. intros t Ht. apply Hb. by right.
Qed.

Lemma ms_set_get ms a n b : ms_GetNonce (ms_SetNonce a n ms) b = if decide (b = a) then n else ms_GetNonce ms b.
Proof.
  unfold ms_GetNonce, ms_SetNonce. cbn. destruct (decide (b = a)) as [->|Hne].
  - rewrite lookup_insert_eq, Z.eqb_refl, Z.ltb_irrefl. done.
  - rewrite lookup_insert_ne by congruence. destruct (Z.eqb_spec b a); [done|]. done.
Qed.

(** The nonce an account will have after [txs], the last of which counts. *)
Definition nonceAfter (txs : list Transaction) (n : Z) : Z :=
  match last txs with Some tx => u64 (tx_Nonce tx + 1) | None => n end.

Lemma promote_all D txs X p a : inv D (txs ++ X) p -> (forall tx, tx ∈ txs -> from tx = a) ->
  exists p', forEach (fun tx => promoteTx rangeAll config now a (tx_Hash tx) tx ;; ret tt) txs p = Ret (tt, p') /\ inv D X p' /\
    tp_queue p' = tp_queue p /\ same_head p p' /\ tp_all p' = tp_all p /\
    (forall b, ms_GetNonce (tp_pendingState p') b =
       if decide (b = a) then nonceAfter txs (ms_GetNonce (tp_pendingState p) b) else ms_GetNonce (tp_pendingState p) b) /\
    (forall tx, tx ∈ txs -> pendingAt p' tx) /\
    (forall b n, (b, n) ∉ map place txs -> slot (tp_pending p') b n = slot (tp_pending p) b n).
Proof.
  revert p. induction txs as [|tx txs IH]; intros p H Ha.
  { exists p. split; [done|]. split; [done|]. split; [done|]. split; [done|]. split; [done|]. split.
    - intros b. cbn. by destruct (decide (b = a)).
    - split; [|done]. intros tx Hx. by apply not_elem_of_nil in Hx. }
  cbn [forEach app] in *. unfold bind. assert (from tx = a) as Hfa by (apply Ha; by left).
  destruct (promote_limbo D (txs ++ X) p tx H) as (p1 & E1 & H1 & Q1 & Hh1 & Ha1 & Hm1 & Hs1).
  rewrite Hfa in E1. rewrite E1. unfold ret.
  destruct (IH p1 H1) as (p' & E & H' & Q' & Hh' & Ha' & Hm' & Hin' & Hs').
  { intros t Ht. apply Ha. by right. }
  unfold bind, ret in E. rewrite E. exists p'. split; [done|]. split; [done|]. split; [congruence|].
  split; [by eapply same_head_trans|]. split; [congruence|].
  pose proof (i_once _ _ _ H) as Hnd. cbn [map] in Hnd. apply NoDup_cons in Hnd as [Hnotin _].
  rewrite map_app, elem_of_app in Hnotin. split; [|split].
  - intros b. rewrite Hm', Hm1, ms_set_get, Hfa. destruct (decide (b = a)) as [->|]; [|done].
    unfold nonceAfter. destruct txs as [|t txs]; [done|]. rewrite last_cons_cons.
    by destruct (proj2 (last_is_Some (t :: txs)) ltac:(done)) as [x ->].
  - intros t [->|Ht]%elem_of_cons; [|by apply Hin']. unfold pendingAt. rewrite Hs' by tauto.
    rewrite Hs1, decide_True by done. done.
  - intros b n Hbn. cbn [map] in Hbn. apply not_elem_of_cons in Hbn as [Hb1 Hb2]. rewrite Hs', Hs1 by done.
    by rewrite decide_False.
Qed.

(** ** Small steps *)

Lemma inv_ext D X p p' : inv D X p -> (forall a l, tp_pending p' !! a = Some l -> l_ok l /\ l_strict l = true) ->
  (forall a l, tp_queue p' !! a = Some l -> l_ok l /\ l_strict l = false) ->
  (forall a n, slot (tp_pending p') a n = slot (tp_pending p) a n) ->
  (forall a n, slot (tp_queue p') a n = slot (tp_queue p) a n) ->
  tp_all p' = tp_all p -> tp_priced p' = tp_priced p -> inv D X p'.
Proof.
  intros H Hp Hq Sp Sq Ha Hpr. split; [done|done|..].
  - intros a n tx. rewrite Sp. apply H.
  - intros a n tx. rewrite Sq. apply H.
  - intros a n. rewrite Sp, Sq. apply H.
  - intros tx Hx. unfold vacant. rewrite Sp, Sq. by apply H.
  - apply H.
  - intros h tx. rewrite Ha. unfold pendingAt, queuedAt. rewrite Sp, Sq. apply H.
  - rewrite Hpr. apply H.
  - rewrite Ha, Hpr. apply H.
  - rewrite Hpr. apply H.
Qed.

Lemma lookup_tidy (m : Lists) a b l : deleteIfEmpty a m !! b = Some l -> m !! b = Some l.
Proof.
  unfold deleteIfEmpty. destruct (m !! a) as [l0|]; [|done]. destruct (l_Empty l0); [|done]. by intros [_ ?]%lookup_delete_Some.
Qed.

Lemma tidyQueue_ok D X p a : inv D X p -> inv D X (upd_queue (deleteIfEmpty a) p).
Proof.
  intros H. apply (inv_ext D X p); [done|apply H| |done|intros b n; apply slot_tidy|done|done].
  intros b l Hl. exact (i_queue _ _ _ H b l (lookup_tidy _ _ _ _ Hl)).
Qed.

Lemma tidyPending_ok D X p a : inv D X p ->
  exists p', tidyPending a p = Ret (tt, p') /\ inv D X p' /\ same_head p p' /\ tp_all p' = tp_all p /\
    tp_queue p' = tp_queue p /\ tp_pendingState p' = tp_pendingState p /\
    (forall b n, slot (tp_pending p') b n = slot (tp_pending p) b n).
Proof.
  intros H. unfold tidyPending, modify. destruct (tp_pending p !! a) as [l|] eqn:E; [|by exists p].
  destruct (l_Empty l) eqn:He; [|by exists p]. eexists. split; [done|].
  assert (forall b n, slot (delete a (tp_pending p)) b n = slot (tp_pending p) b n) as Hs
    by (intros b n; by apply (slot_delete_empty _ _ _ _ l)).
  split; [|done]. apply (inv_ext D X p); try done; [|apply H]. intros b l0. cbn. intros [_ Hb]%lookup_delete_Some. exact (i_pending _ _ _ H _ _ Hb).
Qed.

Lemma lowerNonce_ok D X p a tx : inv D X p ->
  exists p', lowerNonce a tx p = Ret (tt, p') /\ inv D X p' /\ same_head p p' /\ tp_all p' = tp_all p /\
    tp_queue p' = tp_queue p /\ tp_pending p' = tp_pending p /\
    (forall b, ms_GetNonce (tp_pendingState p') b =
      if decide (b = a) then Z.min (ms_GetNonce (tp_pendingState p) b) (tx_Nonce tx) else ms_GetNonce (tp_pendingState p) b).
Proof.
  intros H. unfold lowerNonce, modify. destruct (Z.gtb_spec (ms_GetNonce (tp_pendingState p) a) (tx_Nonce tx)).
  - eexists. split; [done|]. split; [by destruct H|]. do 4 (split; [done|]). intros b. cbn. rewrite ms_set_get.
    destruct (decide (b = a)) as [->|]; [lia|done].
  - exists p. do 6 (split; [done|]). intros b. destruct (decide (b = a)) as [->|]; [lia|done].
Qed.

(** A transaction leaves the table but not the heap. *)
Lemma erased_ok D tx X p : inv D (tx :: X) p -> inv D X (upd_all (delete (tx_Hash tx)) p).
Proof.
  intros H. pose proof (forgotten_ok D tx X p H) as F. split; try apply F; [apply H| |apply H].
  cbn. intros h t [_ Hall]%lookup_delete_Some. by apply (i_priced _ _ _ H h).
Qed.

(** ** removeTx *)

(** The table and the heap once a transaction is out of the lists. *)
Definition erased (outofbound : bool) (tx : Transaction) (p : TxPool) : TxPool :=
  if outofbound then forgotten tx p else upd_all (delete (tx_Hash tx)) p.

Lemma erase_ok oob D tx X p : inv D (tx :: X) p -> inv D X (erased oob tx p).
Proof. destruct oob; [apply forgotten_ok|apply erased_ok]. Qed.

(** Other accounts keep their lists. *)
Definition only_account (a : Address) (p p' : TxPool) : Prop :=
  forall b, b <> a -> tp_queue p' !! b = tp_queue p !! b /\ (forall n, slot (tp_pending p') b n = slot (tp_pending p) b n) /\
    ms_GetNonce (tp_pendingState p') b = ms_GetNonce (tp_pendingState p) b.

(** What a removal does to the pending side. *)
Definition removal (p p' : TxPool) (tx : Transaction) : Prop :=
  only_account (from tx) p p' /\
  (queuedAt p tx -> (forall b n, slot (tp_pending p') b n = slot (tp_pending p) b n) /\ tp_pendingState p' = tp_pendingState p) /\
  (pendingAt p tx ->
    (forall n, slot (tp_pending p') (from tx) n = if decide (n < tx_Nonce tx) then slot (tp_pending p) (from tx) n else None) /\
    ms_GetNonce (tp_pendingState p') (from tx) = Z.min (ms_GetNonce (tp_pendingState p) (from tx)) (tx_Nonce tx)).

Lemma erase_eq (oob : bool) tx p :
  (if oob then pricedRemoved rangeAll else ret tt) (upd_all (delete (tx_Hash tx)) p) = Ret (tt, erased oob tx p).
Proof. by destruct oob. Qed.

(** A pending transaction: the later ones go back to the queue. *)
Lemma removeTx_pending D p tx oob : inv D [] p -> tp_all p !! tx_Hash tx = Some tx -> pendingAt p tx ->
  exists p', removeTx sender range_ rangeAll config (tx_Hash tx) oob p = Ret (tt, p') /\ inv D [] p' /\ same_head p p' /\
    tp_all p' = delete (tx_Hash tx) (tp_all p) /\ removal p p' tx.
Proof.
  intros H Hkn Hp. unfold removeTx, bind, get. rewrite Hkn. set (a := from tx).
  unfold allRemove at 1, modify. rewrite erase_eq.
  assert (exists l, tp_pending p !! a = Some l /\ l_items l !! tx_Nonce tx = Some tx) as (l & El & Hl).
  { unfold pendingAt, slot in Hp. fold a in Hp. destruct (tp_pending p !! a) as [l|]; [|done]. by exists l. }
  destruct (i_pending _ _ _ H a l El) as [Hlok Hst]. rewrite El.
  assert (tp_pending (erased oob tx p) !! a = Some l) as El' by (by destruct oob).
  unfold onPending, bind, get, must, modify, ret. rewrite El'.
  pose proof (l_Remove_ok range_ l tx Hlok) as Hr. destruct (l_Remove range_ l tx) as [[[found invalids] l']|]; [|done].
  destruct Hr as (R1 & R2 & R3). rewrite Hl in R3. destruct R3 as (-> & Ht & R4). rewrite Hst in R4, R2. destruct R4 as [R5 R6].
  cbn [fst snd]. pose proof (take_pending D [] p a l l' _ H El R1 R2 Ht) as H1. rewrite app_nil_r in H1.
  apply (erase_ok oob) in H1. set (p1 := erased oob tx (upd_pending (<[a := l']>) p)) in H1.
  assert (upd_pending (<[a := l']>) (erased oob tx p) = p1) as -> by (unfold p1; by destruct oob).
  destruct (tidyPending_ok D invalids p1 a H1) as (p2 & -> & H2 & Hh2 & Ha2 & Hq2 & Hm2 & Hs2).
  rewrite <- (app_nil_r invalids) in H2.
  destruct (postpone_all D invalids [] p2 H2) as (p3 & -> & H3 & [Hs3 Hm3] & Hh3 & Ha3 & Hb3).
  destruct (lowerNonce_ok D [] p3 a tx H3) as (p4 & -> & H4 & Hh4 & Ha4 & Hq4 & Hs4 & Hm4).
  exists p4. split; [done|]. split; [done|].
  assert (same_head p p1) as Hh1 by (unfold p1; by destruct oob).
  split; [by repeat (eapply same_head_trans; [eassumption|])|].
  assert (tp_all p1 = delete (tx_Hash tx) (tp_all p)) as Ha1 by (unfold p1; by destruct oob).
  split; [congruence|].
  assert (tp_pending p1 = <[a := l']> (tp_pending p) /\ tp_queue p1 = tp_queue p /\ tp_pendingState p1 = tp_pendingState p)
    as (Ep1 & Eq1 & Em1) by (unfold p1; by destruct oob).
  assert (forall b n, slot (tp_pending p4) b n = if decide (b = a) then l_items l' !! n else slot (tp_pending p) b n) as Hslot.
  { intros b n. rewrite Hs4, Hs3, Hs2, Ep1. apply slot_insert. }
  split; [|split].
  + intros b Hb. split; [|split].
    * rewrite Hq4, Hb3, Hq2, Eq1; [done|]. intros t Ht'. assert (t ∈ tx :: invalids) as Ht2 by by right.
      apply (taken_in _ _ _ _ Ht) in Ht2 as (n & Hn & _).
      assert (slot (tp_pending p) a n = Some t) as Hn' by (unfold slot; by rewrite El).
      apply (i_pending_home _ _ _ H) in Hn' as (Ef & _). rewrite Ef. by apply not_eq_sym.
    * intros n. by rewrite Hslot, decide_False by done.
    * rewrite Hm4, decide_False by done. by rewrite Hm3, Hm2, Em1.
  + intros Hq. destruct (i_apart _ _ _ H a (tx_Nonce tx)) as [Hn|Hn];
      [unfold pendingAt in Hp; fold a in Hp; congruence|unfold queuedAt in Hq; fold a in Hq; congruence].
  + intros _. split; [|by rewrite Hm4, decide_True, Hm3, Hm2, Em1 by done].
    intros n. fold a. rewrite Hslot, decide_True by done.
    assert (slot (tp_pending p) a n = l_items l !! n) as -> by (unfold slot; by rewrite El).
    destruct (decide (n < tx_Nonce tx)) as [Hlt|Hge].
    * destruct (l_items l !! n) as [t|] eqn:En.
      -- destruct (taken_kept _ _ _ _ _ Ht En) as [Hk|[_ Hk]]; [done|]. exfalso.
         assert (tx_Nonce t = n) as Et by (by apply (sm_filed _ (lo_map _ Hlok))).
         apply elem_of_cons in Hk as [->|Hk]; [lia|]. rewrite Forall_forall in R6. specialize (R6 t Hk). lia.
      -- eapply lookup_weaken_None; [exact En|apply Ht].
    * destruct (l_items l' !! n) as [t|] eqn:En; [|done]. specialize (R5 n t En). lia.
Qed.

Lemma removeTx_queued D p tx oob : inv D [] p -> tp_all p !! tx_Hash tx = Some tx -> queuedAt p tx ->
  exists p', removeTx sender range_ rangeAll config (tx_Hash tx) oob p = Ret (tt, p') /\ inv D [] p' /\ same_head p p' /\
    tp_all p' = delete (tx_Hash tx) (tp_all p) /\ removal p p' tx.
Proof.
  intros H Hkn Hq. unfold removeTx, bind, get. rewrite Hkn. set (a := from tx).
  unfold allRemove at 1, modify. rewrite erase_eq.
  assert (slot (tp_pending p) a (tx_Nonce tx) = None) as Hnp.
  { destruct (i_apart _ _ _ H a (tx_Nonce tx)) as [Hn|Hn]; [done|unfold queuedAt in Hq; fold a in Hq; congruence]. }
  assert (exists l, tp_queue p !! a = Some l /\ l_items l !! tx_Nonce tx = Some tx) as (l & El & Hl).
  { unfold queuedAt, slot in Hq. fold a in Hq. destruct (tp_queue p !! a) as [l|]; [|done]. by exists l. }
  destruct (i_queue _ _ _ H a l El) as [Hlok Hst].
  pose proof (l_Remove_ok range_ l tx Hlok) as Hr. destruct (l_Remove range_ l tx) as [[[found invalids] l']|] eqn:Er; [|done].
  destruct Hr as (R1 & R2 & R3). rewrite Hl in R3. destruct R3 as (-> & Ht & R4). rewrite Hst in R4, R2. destruct R4 as [-> R4].
  pose proof (take_queue D [] p a l l' _ H El R1 R2 Ht) as H1. cbn [app] in H1. apply (erase_ok oob) in H1.
  assert (exists f, (match tp_pending p !! a with None => ret (false, []) | Some _ => onPending a (fun l => l_Remove range_ l tx) end)
    (erased oob tx p) = Ret ((false, []), upd_pending f (erased oob tx p)) /\
    (forall b n, slot (f (tp_pending p)) b n = slot (tp_pending p) b n) /\
    (forall b l, f (tp_pending p) !! b = Some l -> l_ok l /\ l_strict l = true)) as (f & -> & Hf & Hfl).
  { destruct (tp_pending p !! a) as [lp|] eqn:Elp.
    - unfold onPending, bind, get, must, modify, ret.
      assert (tp_pending (erased oob tx p) = tp_pending p) as -> by (by destruct oob). rewrite Elp.
      destruct (i_pending _ _ _ H a lp Elp) as [Hlpok Hlpst].
      pose proof (l_Remove_ok range_ lp tx Hlpok) as Hr. destruct (l_Remove range_ lp tx) as [[[fd iv] lp']|]; [|done].
      destruct Hr as (S1 & S2 & S3). unfold slot in Hnp. rewrite Elp in Hnp. rewrite Hnp in S3. destruct S3 as (-> & -> & S3).
      exists (<[a := lp']>). split; [done|]. split.
      + intros b n. rewrite slot_insert. destruct (decide (b = a)) as [->|]; [|done]. unfold slot. by rewrite Elp, S3.
      + intros b l0. rewrite lookup_insert_Some. intros [[_ <-]|[_ Hb]]; [split; congruence|by eapply (i_pending _ _ _ H)].
    - exists id. split; [by destruct oob|]. split; [done|]. apply H. }
  cbn [fst snd]. rewrite El. unfold onQueue, bind, get, must, modify, ret.
  assert (tp_queue (upd_pending f (erased oob tx p)) = tp_queue p) as -> by (by destruct oob). rewrite El, Er. cbn [fst snd].
  unfold tidyQueue, modify. eexists. split; [done|].
  set (p1 := erased oob tx (upd_queue (<[a := l']>) p)) in H1.
  assert (tp_pending p1 = tp_pending p /\ tp_queue p1 = <[a := l']> (tp_queue p) /\ tp_pendingState p1 = tp_pendingState p /\
    tp_all p1 = delete (tx_Hash tx) (tp_all p) /\ same_head p p1) as (Ep1 & Eq1 & Em1 & Ea1 & Hh1) by (unfold p1; by destruct oob).
  assert (upd_queue (<[a := l']>) (upd_pending f (erased oob tx p)) = upd_pending f p1) as -> by (unfold p1; by destruct oob).
  split; [apply tidyQueue_ok, (inv_ext D [] p1); [done|cbn; rewrite Ep1; exact Hfl|apply H1|cbn; rewrite Ep1; exact Hf|done|done|done]|].
  split; [done|]. split; [done|]. split; [|split].
  + intros b Hb. cbn. rewrite Ep1, Em1, Eq1. split; [|done]. unfold deleteIfEmpty. rewrite lookup_insert_eq.
    assert (a <> b) as Hab by by apply not_eq_sym.
    destruct (l_Empty l'); rewrite ?lookup_delete_ne, lookup_insert_ne by done; done.
  + intros _. split; cbn; [|done]. by rewrite Ep1.
  + intros Hp. unfold pendingAt in Hp. fold a in Hp. congruence.
Qed.

Lemma removeTx_ok D p h oob : inv D [] p ->
  exists p', removeTx sender range_ rangeAll config h oob p = Ret (tt, p') /\ inv D [] p' /\ same_head p p' /\
    tp_all p' = delete h (tp_all p) /\ (tp_all p !! h = None -> p' = p) /\ forall tx, tp_all p !! h = Some tx -> removal p p' tx.
Proof.
  intros H. destruct (tp_all p !! h) as [tx|] eqn:Eh.
  - apply (i_all _ _ _ H) in Eh as Hk. destruct Hk as [-> [Hp|[Hq|Hx]]]; [| |by apply not_elem_of_nil in Hx].
    + destruct (removeTx_pending D p tx oob H Eh Hp) as (p' & E & H1 & H2 & H3 & H4). exists p'. do 4 (split; [done|]). split; [done|]. by intros t [= <-].
    + destruct (removeTx_queued D p tx oob H Eh Hq) as (p' & E & H1 & H2 & H3 & H4). exists p'. do 4 (split; [done|]). split; [done|]. by intros t [= <-].
  - exists p. split; [unfold removeTx, bind, get; by rewrite Eh|]. split; [done|]. split; [done|]. split; [by rewrite delete_id|]. by split.
Qed.

(** ** Executable transactions *)

(** The pending nonces of an account run from its nonce in the state to the one
    it will have, without a gap. *)
Definition ready_at (p : TxPool) (a : Address) : Prop :=
  cs_nonce (tp_state p) a <= ms_GetNonce (tp_pendingState p) a /\
  forall n, is_Some (slot (tp_pending p) a n) <-> cs_nonce (tp_state p) a <= n < ms_GetNonce (tp_pendingState p) a.
Definition ready (p : TxPool) : Prop := forall a, ready_at p a.

Lemma ready_ext p p' : tp_state p' = tp_state p -> (forall a n, slot (tp_pending p') a n = slot (tp_pending p) a n) ->
  (forall a, ms_GetNonce (tp_pendingState p') a = ms_GetNonce (tp_pendingState p) a) -> ready p -> ready p'.
Proof. intros Hs Hp Hm H a. destruct (H a) as [H1 H2]. unfold ready_at. rewrite Hs, Hm. split; [done|]. intros n. by rewrite Hp. Qed.

Lemma remove_ready D p p' h tx : inv D [] p -> tp_all p !! h = Some tx -> same_head p p' -> only_account (from tx) p p' ->
  (queuedAt p tx -> (forall b n, slot (tp_pending p') b n = slot (tp_pending p) b n) /\ tp_pendingState p' = tp_pendingState p) ->
  (pendingAt p tx ->
    (forall n, slot (tp_pending p') (from tx) n = if decide (n < tx_Nonce tx) then slot (tp_pending p) (from tx) n else None) /\
    ms_GetNonce (tp_pendingState p') (from tx) = Z.min (ms_GetNonce (tp_pendingState p) (from tx)) (tx_Nonce tx)) ->
  ready p -> ready p'.
Proof.
  intros H Hh (Hst & _) Ho Hq Hp Hr. apply (i_all _ _ _ H) in Hh as [-> [Hw|[Hw|Hw]]]; [| |by apply not_elem_of_nil in Hw].
  - destruct (Hp Hw) as [P1 P2]. intros b. destruct (Hr b) as [R1 R2]. unfold ready_at. rewrite Hst. destruct (decide (b = from tx)) as [->|Hb].
    + assert (cs_nonce (tp_state p) (from tx) <= tx_Nonce tx < ms_GetNonce (tp_pendingState p) (from tx)) as Hin.
      { apply R2. unfold pendingAt in Hw. by rewrite Hw. }
      rewrite P2. split; [lia|]. intros n. rewrite P1. destruct (decide (n < tx_Nonce tx)); [rewrite R2; lia|].
      split; [by intros [? ?]|lia].
    + destruct (Ho b Hb) as (_ & O1 & O2). rewrite O2. split; [done|]. intros n. by rewrite O1.
  - destruct (Hq Hw) as [Q1 Q2]. apply (ready_ext p); [done|done|by rewrite Q2|done].
Qed.

(** Removing several. *)
Lemma remove_all D oob txs : forall p, inv D [] p ->
  exists p', forEach (fun tx => removeTx sender range_ rangeAll config (tx_Hash tx) oob) txs p = Ret (tt, p') /\
    inv D [] p' /\ same_head p p' /\ (ready p -> ready p') /\ tp_all p' ⊆ tp_all p /\
    (forall tx, tx ∈ txs -> tp_all p' !! tx_Hash tx = None) /\
    (forall a, (forall tx, tx ∈ txs -> U tx /\ from tx = a) -> forall b, b <> a -> tp_queue p' !! b = tp_queue p !! b) /\
    (forall h, h ∉ map tx_Hash txs -> tp_all p' !! h = tp_all p !! h).
Proof.
  induction txs as [|tx txs IH]; intros p H; cbn [forEach].
  { exists p. split; [done|]. split; [done|]. split; [done|]. split; [done|]. split; [done|]. split; [|done].
    intros tx Hx. by apply not_elem_of_nil in Hx. }
  unfold bind. destruct (removeTx_ok D p (tx_Hash tx) oob H) as (p1 & -> & H1 & Hh1 & Ha1 & Hn1 & Hx1).
  destruct (IH p1 H1) as (p' & -> & H' & Hh' & Hr' & Ha' & Hn' & Hq' & Hk'). exists p'. split; [done|]. split; [done|].
  split; [by eapply same_head_trans|]. split; [|split; [|split; [|split]]].
  - intros Hr. apply Hr'. destruct (tp_all p !! tx_Hash tx) as [t|] eqn:E.
    + destruct (Hx1 t eq_refl) as (O & Q & P). by apply (remove_ready D p p1 (tx_Hash tx) t).
    + by rewrite (Hn1 eq_refl).
  - etransitivity; [done|]. rewrite Ha1. apply delete_subseteq.
  - intros t [->|Ht]%elem_of_cons; [|by apply Hn']. eapply lookup_weaken_None; [|done]. rewrite Ha1. apply lookup_delete_eq.
  - intros a Hall b Hb. rewrite (Hq' a); [|intros t Ht; apply Hall; by right|done].
    destruct (tp_all p !! tx_Hash tx) as [t|] eqn:E; [|by rewrite (Hn1 eq_refl)].
    destruct (Hx1 t eq_refl) as (O & _). apply (i_all _ _ _ H) in E as [E Hw].
    destruct (Hall tx ltac:(by left)) as [Hu Hf]. assert (tx = t) as <- by (apply (u_hash HU); [done|by apply (known_U _ _ _ _ H)|done]).
    apply O. congruence.
  - intros h Hh. cbn [map] in Hh. apply not_elem_of_cons in Hh as [Hne Hin]. rewrite (Hk' h Hin), Ha1. by apply lookup_delete_ne.
Qed.

(** ** promoteAccount *)

(** No transaction has the last nonce there is. *)
Definition tight : Prop := forall tx, U tx -> tx_Nonce tx < 2 ^ 64 - 1.

Lemma onQueue_eq {A} a (f : txList -> option (A * txList)) p l r l' : tp_queue p !! a = Some l -> f l = Some (r, l') ->
  onQueue a f p = Ret (r, upd_queue (<[a := l']>) p).
Proof. intros Hl Hf. unfold onQueue, bind, get, must, modify, ret. by rewrite Hl, Hf. Qed.

Lemma onPending_eq {A} a (f : txList -> option (A * txList)) p l r l' : tp_pending p !! a = Some l -> f l = Some (r, l') ->
  onPending a f p = Ret (r, upd_pending (<[a := l']>) p).
Proof. intros Hl Hf. unfold onPending, bind, get, must, modify, ret. by rewrite Hl, Hf. Qed.

Lemma forget_head txs : forall p p', forEach (forget rangeAll) txs p = Ret (tt, p') -> same_head p p'.
Proof.
  induction txs as [|tx txs IH]; intros p p' E; [by injection E as <-|]. cbn [forEach] in E. unfold bind in E.
  rewrite forget_eq in E. by apply IH in E.
Qed.

(** Taking transactions from a queue and forgetting them, before the rest. *)
Lemma drop_queue {A} D p a l (f : txList -> option (A * txList)) (g : A -> list Transaction) r l' :
  inv D [] p -> tp_queue p !! a = Some l ->
  f l = Some (r, l') -> l_ok l' -> l_strict l' = false -> taken (l_items l) (g r) (l_items l') ->
  exists p', (forall B (k : M TxPool B), (let* r := onQueue a f in forEach (forget rangeAll) (g r) ;; k) p = k p') /\ inv D [] p' /\
    tp_queue p' !! a = Some l' /\ same_pending p p' /\ same_head p p'.
Proof.
  intros H Hl Hf Hok Hst Ht. pose proof (take_queue D [] p a l l' (g r) H Hl Hok Hst Ht) as H1.
  destruct (forget_all D (g r) [] _ H1) as (p' & E & H' & F1 & F2 & F3 & F4 & F5 & F6).
  exists p'. split; [intros B k; unfold bind; rewrite (onQueue_eq a f p l r l') by done; by rewrite E|].
  split; [done|]. split; [rewrite F2; cbn; by rewrite lookup_insert_eq|]. split; [by split|]. by apply forget_head in E.
Qed.

Lemma same_pending_ready p p' : same_pending p p' -> same_head p p' -> ready p -> ready p'.
Proof. intros [E1 E2] (E3 & _). apply ready_ext; [done|intros; by rewrite E1|intros; by rewrite E2]. Qed.

(** The transactions a queue gives up are of the account. *)
Lemma queue_home D X p a l n tx : inv D X p -> tp_queue p !! a = Some l -> l_items l !! n = Some tx -> home a n tx.
Proof. intros H Hl Hn. apply (i_queue_home _ _ _ H). unfold slot. by rewrite Hl. Qed.

Lemma flat_last m tx : filed m -> last (flat m) = Some tx -> m !! tx_Nonce tx = Some tx /\ forall k t, m !! k = Some t -> k <= tx_Nonce tx.
Proof.
  intros Hm Hl. assert (exists l, flat m = l ++ [tx]) as [l El] by (by apply last_Some).
  assert (StronglySorted byNonce (flat m)) as Hs by apply (StronglySorted_merge_sort byNonce). rewrite El in Hs.
  assert (tx ∈ flat m) as Hin by (rewrite El; apply elem_of_app; right; by left).
  apply flat_elem in Hin as [n Hn]. rewrite (Hm _ _ Hn). split; [done|]. intros k t Hk.
  assert (t ∈ flat m) as Ht by (apply flat_elem; by exists k). rewrite El in Ht. apply elem_of_app in Ht as [Ht|Ht%list_elem_of_singleton].
  - pose proof (StronglySorted_app_1_elem_of _ _ _ t tx Hs Ht ltac:(by left)) as Hle. unfold byNonce in Hle.
    rewrite (Hm _ _ Hn), (Hm _ _ Hk) in Hle. done.
  - subst t. rewrite <- (Hm _ _ Hk), (Hm _ _ Hn). done.
Qed.

(** The run of nonces that [Ready] takes goes on where the pending ones end. *)
Lemma promote_ready D p p' a l b : inv D [] p -> tight -> ready p -> tp_queue p !! a = Some l ->
  (forall n tx, l_items l !! n = Some tx -> cs_nonce (tp_state p) a <= n) ->
  (lower b (l_items l) = ∅ \/
   exists first, first <= ms_GetNonce (tp_pendingState p) a /\ (forall k t, l_items l !! k = Some t -> first <= k) /\
     first < b /\ run (l_items l) first b) ->
  tp_state p' = tp_state p ->
  (forall c, ms_GetNonce (tp_pendingState p') c = if decide (c = a) then nonceAfter (flat (lower b (l_items l))) (ms_GetNonce (tp_pendingState p) c)
     else ms_GetNonce (tp_pendingState p) c) ->
  (forall tx, tx ∈ flat (lower b (l_items l)) -> pendingAt p' tx) ->
  (forall c n, (c, n) ∉ map place (flat (lower b (l_items l))) -> slot (tp_pending p') c n = slot (tp_pending p) c n) ->
  ready p'.
Proof.
  intros H Ht Hr Hl Hlow Hb Hst Hm Hin Hout.
  assert (forall n tx, lower b (l_items l) !! n = Some tx -> home a n tx) as Hhome.
  { intros n tx [Hn _]%lookup_lower. by apply (queue_home D [] p a l). }
  destruct Hb as [Hb|(first & F1 & F2 & F3 & [R1 R2 R3])].
  { rewrite Hb in *. apply (ready_ext p); [done|intros c n; apply Hout; apply not_elem_of_nil| |done].
    intros c. rewrite Hm. cbn. by destruct (decide (c = a)). }
  destruct (Hr a) as [Ha1 Ha2].
  assert (first = ms_GetNonce (tp_pendingState p) a) as ->.
  { destruct (R1 first ltac:(lia)) as [t Hft]. pose proof (Hlow first t Hft).
    destruct (i_apart _ _ _ H a first) as [Hn|Hn].
    - assert (~ is_Some (slot (tp_pending p) a first)) as Hns by (rewrite Hn; by intros [? ?]). rewrite Ha2 in Hns. lia.
    - unfold slot in Hn. rewrite Hl in Hn. congruence. }
  set (P := ms_GetNonce (tp_pendingState p) a) in *.
  assert (nonceAfter (flat (lower b (l_items l))) P = b) as Hafter.
  { unfold nonceAfter. destruct (R1 (b - 1) ltac:(lia)) as [t Hbt].
    assert (lower b (l_items l) !! (b - 1) = Some t) as Hbl by (apply lookup_lower; split; [done|lia]).
    assert (t ∈ flat (lower b (l_items l))) as Htin by (apply flat_elem; by eexists).
    destruct (last (flat (lower b (l_items l)))) as [tx|] eqn:El.
    2: { apply last_None in El. rewrite El in Htin. by apply not_elem_of_nil in Htin. }
    assert (filed (lower b (l_items l))) as Hfl by (intros n x Hn; by apply Hhome in Hn as (_ & ? & _)).
    destruct (flat_last _ tx Hfl El) as [L1 L2]. pose proof (L2 _ _ Hbl). pose proof (proj1 (lookup_lower _ _ _ _) L1) as [_ Hlt].
    destruct (Hhome _ _ L1) as (_ & _ & Hu). pose proof (u_nonce HU _ Hu). pose proof (Ht _ Hu).
    assert (tx_Nonce tx = b - 1) as -> by lia. unfold u64, u64_modulus. rewrite Z.mod_small by lia. lia. }
  intros c. unfold ready_at. rewrite Hst, Hm. destruct (decide (c = a)) as [->|Hc].
  2: { destruct (Hr c) as [C1 C2]. split; [done|]. intros n. rewrite Hout; [done|]. intros Hx.
       apply list_elem_of_fmap in Hx as (tx & E & Hx). apply flat_elem in Hx as [k Hk]. destruct (Hhome _ _ Hk) as (Hf & _). by injection E as -> ->. }
  fold P. rewrite Hafter. split; [lia|]. intros n.
  destruct (decide ((a, n) ∈ map place (flat (lower b (l_items l))))) as [Hx|Hx].
  - pose proof Hx as Hx'. apply list_elem_of_fmap in Hx' as (tx & [= Ea En] & Hx'). pose proof (Hin tx Hx') as Hp. unfold pendingAt in Hp.
    rewrite <- Ea, <- En in Hp. rewrite Hp. apply flat_elem in Hx' as [k Hk]. destruct (Hhome _ _ Hk) as (Hf & Hk2 & _). apply lookup_lower in Hk as [Hk Hkb].
    pose proof (F2 _ _ Hk). split; [intros _; lia|by eexists].
  - rewrite Hout by done. rewrite Ha2. split; [lia|]. intros Hn. split; [lia|].
    destruct (Z.lt_ge_cases n P); [done|]. exfalso. apply Hx. destruct (R1 n ltac:(lia)) as [t Hnt].
    assert (lower b (l_items l) !! n = Some t) as Hnl by (apply lookup_lower; split; [done|lia]).
    destruct (Hhome _ _ Hnl) as (E1 & E2 & _). apply list_elem_of_fmap. exists t. split; [unfold place; congruence|].
    apply flat_elem. by eexists.
Qed.

Lemma same_head_locals p p' : same_head p p' -> contains p' = contains p.
Proof. intros (_ & _ & E & _). unfold contains. by rewrite E. Qed.

(** What the last step of [promoteAccount] does. *)
Lemma cap_queue p a l : inv [] [] p -> 0 <= AccountQueue config < 2 ^ 63 -> tp_queue p !! a = Some l -> forall local : bool,
  exists p', ((if local then ret tt
     else let* over := onQueue a (fun l => l_Cap l (i64 (AccountQueue config))) in forEach (forget rangeAll) over) ;; tidyQueue a) p
    = Ret (tt, p') /\ inv [] [] p' /\ same_pending p p' /\ same_head p p'.
Proof.
  intros H Hcfg El local. destruct (i_queue _ _ _ H a l El) as [Hok Hst]. unfold tidyQueue, modify. destruct local.
  { eexists. split; [done|]. by split; [apply tidyQueue_ok|]. }
  assert (i64 (AccountQueue config) = AccountQueue config) as Hi64 by (unfold i64, u64_modulus; rewrite Z.mod_small by lia; lia).
  destruct (l_Cap_ok l (AccountQueue config) Hok ltac:(lia)) as (c & l' & F & Hok' & Hst' & Hi & _).
  destruct (drop_queue [] p a l (fun l => l_Cap l (i64 (AccountQueue config))) (fun r => r) _ l' H El ltac:(cbn beta; by rewrite Hi64) Hok'
    ltac:(congruence)) as (p1 & E & H1 & _ & S1 & G1).
  { rewrite Hi. apply taken_lower. by rewrite <- Permutation_rev. }
  specialize (E _ (ret tt)). unfold bind, ret in E |- *. destruct (onQueue a _ p) as [[r q]| |]; [|done..].
  destruct (forEach (forget rangeAll) r q) as [[[] q']| |]; [|done..]. injection E as ->.
  eexists. split; [done|]. by split; [apply tidyQueue_ok|].
Qed.

Lemma promoteAccount_ok p a : inv [] [] p -> 0 <= AccountQueue config < 2 ^ 63 ->
  exists p', promoteAccount range_ rangeAll config now a p = Ret (tt, p') /\ inv [] [] p' /\ same_head p p' /\
    (tight -> ready p -> ready p').
Proof.
  intros H Hcfg. unfold promoteAccount. unfold bind at 1. unfold get at 1. cbn beta iota.
  destruct (tp_queue p !! a) as [l0|] eqn:E0; [|by exists p]. destruct (i_queue _ _ _ H a l0 E0) as [Hok0 Hst0].
  set (cs := cs_nonce (tp_state p) a). set (cost := cs_balance (tp_state p) a). set (gas := tp_maxGas p).
  destruct (l_Forward_ok l0 cs Hok0) as (l1 & F1 & Hok1 & Hst1 & Hi1). rewrite Hst0 in Hst1.
  edestruct (drop_queue [] p a l0 (fun l => l_Forward l cs) (fun r => r) (flat (lower cs (l_items l0))) l1) as (p1 & K1 & H1 & E1 & S1 & G1);
    [done|done|exact F1|done|done|rewrite Hi1; apply taken_upper|]. rewrite K1. clear K1.
  pose proof (l_Filter_ok range_ l1 cost gas Hok1) as F2.
  destruct (l_Filter range_ l1 cost gas) as [[removed invalids] l2] eqn:EF.
  destruct F2 as (Hok2 & Hst2 & T2 & _ & _ & _ & Hinv & _). rewrite Hst1 in Hst2. rewrite (Hinv Hst1), app_nil_r in T2.
  edestruct (drop_queue [] p1 a l1 (fun l => Some (l_Filter range_ l cost gas)) fst (removed, invalids) l2) as (p2 & K2 & H2 & E2 & S2 & G2);
    [done|done|by rewrite EF|done|done|exact T2|]. rewrite K2. clear K2.
  unfold bind at 1. unfold get at 1. cbn beta iota.
  destruct (l_Ready_ok l2 (ms_GetNonce (tp_pendingState p2) a) Hok2) as (b & l3 & F3 & Hok3 & Hst3 & Hi3 & Hrun). rewrite Hst2 in Hst3.
  unfold bind at 1. rewrite (onQueue_eq a _ p2 l2 _ l3 E2 F3). cbn beta iota.
  pose proof (take_queue [] [] p2 a l2 l3 (flat (lower b (l_items l2))) H2 E2 Hok3 Hst3 ltac:(rewrite Hi3; apply taken_upper)) as H3.
  destruct (promote_all [] _ [] _ a H3) as (p4 & X4 & H4 & Q4 & Hh4 & Ha4 & Hm4 & Hin4 & Hout4).
  { intros tx [n [Hn _]%lookup_lower]%flat_elem. by apply (queue_home _ _ _ _ _ _ _ H2 E2) in Hn as (? & _). }
  unfold bind at 1. rewrite X4. cbn beta iota.
  destruct (cap_queue p4 a l3 H4 Hcfg ltac:(rewrite Q4; cbn; by rewrite lookup_insert_eq) (contains p a)) as (p5 & -> & H5 & S5 & G5).
  exists p5. split; [done|]. split; [done|].
  assert (same_head p2 p4) as G4 by exact Hh4. split; [by repeat (eapply same_head_trans; [eassumption|])|].
  intros Ht Hr. apply (same_pending_ready p4); [done|done|].
  assert (ready p2) as Hr2 by (apply (same_pending_ready p1); [done|done|]; by apply (same_pending_ready p)).
  eapply (promote_ready [] p2 p4 a l2 b H2 Ht Hr2 E2); [| |by destruct Hh4|exact Hm4|exact Hin4|exact Hout4].
  - intros n tx Hn. pose proof (lookup_weaken _ _ _ _ Hn (tk_sub _ _ _ T2)) as Hn'. rewrite Hi1, lookup_upper in Hn'.
    destruct G1 as (G1 & _), G2 as (G2 & _). rewrite G2, G1. apply Hn'.
  - destruct Hrun as [[? _]|?]; [by left|by right].
Qed.

(** ** demoteAccount *)

(** Taking transactions from a pending list: some are forgotten, some go back
    to the queue. *)
Lemma demote_step {A} p a l (f : txList -> option (A * txList)) r l' old back :
  inv [] [] p -> tp_pending p !! a = Some l -> f l = Some (r, l') -> l_ok l' -> l_strict l' = true ->
  taken (l_items l) (old ++ back) (l_items l') ->
  exists p1 p2 p', onPending a f p = Ret (r, p1) /\ forEach (forget rangeAll) old p1 = Ret (tt, p2) /\
    forEach (postpone sender rangeAll config) back p2 = Ret (tt, p') /\ inv [] [] p' /\ same_head p p' /\
    tp_pending p' = <[a := l']> (tp_pending p) /\ tp_pendingState p' = tp_pendingState p.
Proof.
  intros H Hl Hf Hok Hst Ht. pose proof (take_pending [] [] p a l l' _ H Hl Hok Hst Ht) as H1. rewrite app_nil_r in H1.
  destruct (forget_all [] old back _ H1) as (p2 & E2 & H2 & F1 & _ & _ & _ & F2 & _). rewrite <- (app_nil_r back) in H2.
  destruct (postpone_all [] back [] p2 H2) as (p' & E' & H' & [G1 G2] & Hh & _).
  exists (upd_pending (<[a := l']>) p), p2, p'. split; [by apply (onPending_eq a f p l)|]. split; [done|]. split; [done|].
  split; [done|]. split; [apply (same_head_trans _ p2); [by apply forget_head in E2|done]|]. by rewrite G1, F1, G2, F2.
Qed.

(** The nonces of some transactions are those from [lo] up to [hi]. *)
Definition interval (m : Items) (lo hi : Z) : Prop := forall n, is_Some (m !! n) <-> lo <= n < hi.

Lemma prefix_interval (m m' : Items) lo hi : interval m lo hi -> m' ⊆ m ->
  (forall n k, is_Some (m' !! n) -> lo <= k <= n -> is_Some (m' !! k)) -> exists b, lo <= b /\ interval m' lo b.
Proof.
  intros Hm Hs Hd.
  assert (forall k : nat, exists b, lo <= b <= lo + Z.of_nat k /\ forall n, n < lo + Z.of_nat k -> is_Some (m' !! n) <-> lo <= n < b) as Hk.
  { induction k as [|k (b & Hb & IH)].
    - exists lo. split; [lia|]. intros n Hn. split; [|lia]. intros [t Ht]. assert (is_Some (m !! n)) as E by (eexists; by eapply lookup_weaken).
      apply Hm in E. lia.
    - destruct (m' !! (lo + Z.of_nat k)) as [t|] eqn:E.
      + exists (lo + Z.of_nat k + 1). split; [lia|]. intros n Hn. split; [|intros Hr; apply (Hd (lo + Z.of_nat k)); [by eexists|lia]].
        intros [t' Ht]. assert (is_Some (m !! n)) as E' by (eexists; by eapply lookup_weaken). apply Hm in E'. lia.
      + exists b. split; [lia|]. intros n Hn. destruct (decide (n = lo + Z.of_nat k)) as [->|Hne]; [|apply IH; lia].
        rewrite E. split; [by intros [? ?]|lia]. }
  destruct (Hk (Z.to_nat (hi - lo))) as (b & Hb & H). exists b. split; [lia|]. intros n.
  destruct (Z.lt_ge_cases n (lo + Z.of_nat (Z.to_nat (hi - lo)))) as [Hlt|Hge]; [by apply H|]. split; [|lia].
  intros [t Ht]. assert (is_Some (m !! n)) as E by (eexists; by eapply lookup_weaken). apply Hm in E. lia.
Qed.

(** The test for a gap in front: without the first nonce all go. *)
Definition frontGap (cs : Z) (l : txList) : option (list Transaction * txList) :=
  if (l_Len l >? 0) && match sm_Get (l_txs l) cs with None => true | Some _ => false end then l_Cap l 0 else Some ([], l).

Lemma frontGap_ok cs l : l_ok l -> l_strict l = true ->
  exists over l', frontGap cs l = Some (over, l') /\ l_ok l' /\ l_strict l' = true /\ taken (l_items l) over (l_items l') /\
    (forall b, interval (l_items l) cs b -> l' = l).
Proof.
  intros Hok Hst. unfold frontGap. destruct ((l_Len l >? 0) && _) eqn:Eg.
  2: { exists [], l. do 3 (split; [done|]). split; [apply taken_none|done]. }
  destruct (l_Cap_ok l 0 Hok ltac:(lia)) as (c & l' & F & Hok' & Hst' & Hi & _). eexists _, l'. split; [exact F|].
  split; [done|]. split; [congruence|]. split; [rewrite Hi; apply taken_lower; by rewrite <- Permutation_rev|].
  intros e Hint. exfalso. apply andb_true_iff in Eg as [Eg1 Eg2]. apply Z.gtb_lt in Eg1. unfold sm_Get in Eg2. fold (l_items l) in Eg2.
  unfold l_Len, sm_Len in Eg1. fold (l_items l) in Eg1.
  assert (l_items l <> ∅) as Hne by (intros E; by rewrite E in Eg1). apply map_choose in Hne as (n & t & Hn).
  assert (is_Some (l_items l !! n)) as Hs by (by eexists). apply Hint in Hs.
  assert (is_Some (l_items l !! cs)) as [t' Ht'] by (apply Hint; lia). by rewrite Ht' in Eg2.
Qed.

(** [Forward] and [Filter] leave a gapless list gapless. *)
Lemma filtered_interval l0 l1 l2 cs lo hi txs : l_ok l1 -> l_items l1 = upper cs (l_items l0) -> taken (l_items l1) txs (l_items l2) ->
  (forall n tx t, l_items l2 !! n = Some tx -> t ∈ txs -> n < tx_Nonce t) -> lo <= cs -> interval (l_items l0) lo hi ->
  exists b, cs <= b /\ interval (l_items l2) cs b.
Proof.
  intros Hok Hi Ht Hlow Hlo Hl. assert (interval (l_items l1) cs (Z.max cs hi)) as Hl1.
  { intros n. rewrite Hi. split.
    - intros [t [Htt Hn]%lookup_upper]. assert (is_Some (l_items l0 !! n)) as Hs by (by eexists). apply Hl in Hs. lia.
    - intros Hn. assert (is_Some (l_items l0 !! n)) as [t Htt] by (apply Hl; lia). exists t. apply lookup_upper. split; [done|lia]. }
  apply (prefix_interval _ _ cs _ Hl1 (tk_sub _ _ _ Ht)).
  intros n k [t Hn] Hk. assert (is_Some (l_items l1 !! n)) as Hn' by (eexists; eapply lookup_weaken; [exact Hn|apply Ht]). apply Hl1 in Hn'.
  assert (is_Some (l_items l1 !! k)) as [u Hu] by (apply Hl1; lia). destruct (taken_kept _ _ _ _ _ Ht Hu) as [Hkk|[_ Hkk]]; [by eexists|].
  pose proof (Hlow n t u Hn Hkk). pose proof (sm_filed _ (lo_map _ Hok) _ _ Hu). lia.
Qed.

Lemma demoteAccount_ok p a : inv [] [] p ->
  exists p', demoteAccount sender range_ rangeAll config a p = Ret (tt, p') /\ inv [] [] p' /\ same_head p p' /\
    (forall b, b <> a -> tp_pending p' !! b = tp_pending p !! b) /\
    (forall l, tp_pending p' !! a = Some l -> l_Empty l = false) /\ tp_pendingState p' = tp_pendingState p /\
    (forall l lo hi, tp_pending p !! a = Some l -> lo <= cs_nonce (tp_state p) a -> interval (l_items l) lo hi ->
      exists b, cs_nonce (tp_state p) a <= b /\ forall n, is_Some (slot (tp_pending p') a n) <-> cs_nonce (tp_state p) a <= n < b).
Proof.
  intros H. unfold demoteAccount. unfold bind at 1. unfold get at 1. cbn beta iota.
  destruct (tp_pending p !! a) as [l0|] eqn:E0; [|exists p; do 4 (split; [done|]); by rewrite E0; split].
  destruct (i_pending _ _ _ H a l0 E0) as [Hok0 Hst0].
  set (cs := cs_nonce (tp_state p) a). set (cost := cs_balance (tp_state p) a). set (gas := tp_maxGas p).
  destruct (l_Forward_ok l0 cs Hok0) as (l1 & F1 & Hok1 & Hst1 & Hi1). rewrite Hst0 in Hst1.
  destruct (demote_step p a l0 (fun l => l_Forward l cs) _ l1 (flat (lower cs (l_items l0))) [] H E0 F1 Hok1 Hst1) as (q1 & q2 & p1 & X1 & Y1 & Z1 & H1 & G1 & P1 & M1).
  { rewrite app_nil_r, Hi1. apply taken_upper. }
  injection Z1 as ->. unfold bind at 1. rewrite X1. unfold bind at 1. rewrite Y1. cbn beta iota.
  pose proof (l_Filter_ok range_ l1 cost gas Hok1) as F2.
  destruct (l_Filter range_ l1 cost gas) as [[removed invalids] l2] eqn:EF.
  destruct F2 as (Hok2 & Hst2 & T2 & _ & _ & _ & _ & Hlow2). specialize (Hlow2 Hst1). rewrite Hst1 in Hst2.
  destruct (demote_step p1 a l1 (fun l => Some (l_Filter range_ l cost gas)) (removed, invalids) l2 removed invalids H1)
    as (q3 & q4 & p2 & X2 & Y2 & Z2 & H2 & G2 & P2 & M2); [by rewrite P1, lookup_insert_eq|by rewrite EF|done|done|done|].
  unfold bind at 1. rewrite X2. unfold bind at 1. cbn [fst snd]. rewrite Y2. unfold bind at 1. rewrite Z2. cbn beta iota.
  destruct (frontGap_ok cs l2 Hok2 Hst2) as (over & l3 & F3 & Hok3 & Hst3 & T3 & Hgap).
  destruct (demote_step p2 a l2 (frontGap cs) over l3 [] over H2) as (q5 & q6 & p3 & X3 & Y3 & Z3 & H3 & G3 & P3 & M3);
    [by rewrite P2, lookup_insert_eq|done|done|done|done|].
  injection Y3 as ->. change (fun l : txList => if (l_Len l >? 0) && _ then _ else _) with (frontGap cs). unfold bind at 1. rewrite X3. unfold bind at 1. rewrite Z3. cbn beta iota.
  destruct (tidyPending_ok [] [] p3 a H3) as (p4 & E4 & H4 & G4 & _ & _ & M4 & S4). exists p4. split; [done|]. split; [done|].
  split; [by repeat (eapply same_head_trans; [eassumption|])|].
  unfold tidyPending, modify in E4. rewrite P3, lookup_insert_eq in E4.
  assert (forall b, b <> a -> tp_pending p3 !! b = tp_pending p !! b) as Hoth.
  { intros b Hb. rewrite P3, P2, P1, !lookup_insert_ne by done. done. }
  assert (forall l lo hi, Some l0 = Some l -> lo <= cs -> interval (l_items l) lo hi ->
    exists b, cs <= b /\ forall n, is_Some (slot (tp_pending p4) a n) <-> cs <= n < b) as Hint.
  { intros l lo hi [= <-] Hlo Hl. destruct (filtered_interval l0 l1 l2 cs lo hi _ Hok1 Hi1 T2 Hlow2 Hlo Hl) as (b & Hb & Hl2).
    exists b. split; [done|]. intros n. rewrite S4, P3, slot_insert, decide_True by done. rewrite (Hgap b Hl2). apply Hl2. }
  split; [|split; [|split; [by rewrite M4, M3, M2, M1|exact Hint]]]; destruct (l_Empty l3) eqn:Ee; injection E4 as <-; cbn.
  - intros b Hb. rewrite lookup_delete_ne by done. by apply Hoth.
  - done.
  - intros l. by rewrite lookup_delete_eq.
  - intros l. rewrite P3, lookup_insert_eq. by intros [= <-].
Qed.

(** The pending nonces of an account leave no gap, from its nonce in the state
    or from below. *)
Definition gapless (p : TxPool) (a : Address) : Prop :=
  exists b, cs_nonce (tp_state p) a <= b /\ forall n, is_Some (slot (tp_pending p) a n) <-> cs_nonce (tp_state p) a <= n < b.
Definition covered (p : TxPool) (a : Address) : Prop :=
  exists lo hi, lo <= cs_nonce (tp_state p) a /\ forall n, is_Some (slot (tp_pending p) a n) <-> lo <= n < hi.

Lemma gapless_covered p a : gapless p a -> covered p a.
Proof. intros (b & Hb & H). by exists (cs_nonce (tp_state p) a), b. Qed.

Lemma demote_gapless p p' a : inv [] [] p -> demoteAccount sender range_ rangeAll config a p = Ret (tt, p') -> covered p a -> gapless p' a.
Proof.
  intros H E (lo & hi & Hlo & Hs). destruct (demoteAccount_ok p a H) as (p1 & E1 & _ & (G & _) & _ & _ & _ & Hg).
  rewrite E in E1. injection E1 as <-. unfold gapless. rewrite G. destruct (tp_pending p !! a) as [l|] eqn:El.
  - apply (Hg l lo hi); [done|done|]. intros n. rewrite <- Hs. unfold slot. by rewrite El.
  - unfold demoteAccount, bind, get in E. rewrite El in E. injection E as <-. exists (cs_nonce (tp_state p) a). split; [lia|].
    intros n. unfold slot. rewrite El. split; [by intros [? ?]|lia].
Qed.

Lemma demote_all addrs : forall p, inv [] [] p ->
  exists p', forEach (demoteAccount sender range_ rangeAll config) addrs p = Ret (tt, p') /\ inv [] [] p' /\ same_head p p' /\
    (forall b, b ∉ addrs -> tp_pending p' !! b = tp_pending p !! b) /\
    (forall b l, b ∈ addrs -> tp_pending p' !! b = Some l -> l_Empty l = false) /\ tp_pendingState p' = tp_pendingState p /\
    (forall b, covered p b -> covered p' b /\ (b ∈ addrs -> gapless p' b)).
Proof.
  induction addrs as [|a addrs IH]; intros p H; cbn [forEach].
  { exists p. do 4 (split; [done|]). split; [intros b l Hb; by apply not_elem_of_nil in Hb|]. split; [done|].
    intros b Hb. split; [done|]. intros Hx. by apply not_elem_of_nil in Hx. }
  unfold bind. destruct (demoteAccount_ok p a H) as (p1 & E1 & H1 & G1 & O1 & N1 & M1 & _). rewrite E1.
  assert (forall b, covered p b -> covered p1 b /\ (b = a -> gapless p1 b)) as C1.
  { intros b Hb. destruct (decide (b = a)) as [->|Hne].
    - pose proof (demote_gapless p p1 a H E1 Hb) as Hg. split; [by apply gapless_covered|done].
    - split; [|done]. destruct Hb as (lo & hi & Hlo & Hs). exists lo, hi. destruct G1 as (-> & _). split; [done|]. intros n. rewrite <- Hs. unfold slot. by rewrite O1. }
  destruct (IH p1 H1) as (p' & -> & H' & G' & O' & N' & M' & C'). exists p'. split; [done|]. split; [done|].
  split; [by eapply same_head_trans|]. split; [|split; [|split; [congruence|]]].
  - intros b Hb. apply not_elem_of_cons in Hb as [Hb1 Hb2]. by rewrite O', O1.
  - intros b l Hb Hl. destruct (decide (b ∈ addrs)) as [Hin|Hnin]; [by eapply N'|].
    apply elem_of_cons in Hb as [->|Hb]; [|done]. rewrite O' in Hl by done. by apply N1.
  - intros b Hb. destruct (C1 b Hb) as [Hb1 Hb2]. destruct (C' b Hb1) as [Hb3 Hb4]. split; [done|].
    intros Hin. destruct (decide (b ∈ addrs)) as [Hi|Hni]; [by apply Hb4|]. apply elem_of_cons in Hin as [->|Hin]; [|done].
    destruct (Hb2 eq_refl) as (e & He & Hs). exists e. destruct G' as (-> & _). split; [done|]. intros n. rewrite <- Hs. unfold slot. by rewrite O'.
Qed.

(** ** truncateQueue *)

Variable rangeAddr : Lists -> list Address.
Hypothesis HrangeAddr : forall m, rangeAddr m ≡ₚ (map_to_list m).*1.

Lemma elem_of_rangeAddr (m : Lists) a : a ∈ rangeAddr m <-> is_Some (m !! a).
Proof.
  rewrite HrangeAddr, list_elem_of_fmap. split.
  - intros ([b l] & -> & Hin). exists l. by apply elem_of_map_to_list.
  - intros [l Hl]. exists (a, l). split; [done|]. by apply elem_of_map_to_list.
Qed.

Lemma NoDup_rangeAddr (m : Lists) : NoDup (rangeAddr m).
Proof. rewrite HrangeAddr. apply NoDup_fst_map_to_list. Qed.

Lemma flat_nodup (m : Items) : filed m -> NoDup (flat m).
Proof.
  intros Hm. rewrite flat_perm. apply (NoDup_fmap_1 tx_Nonce). change (NoDup (map tx_Nonce (values m))).
  rewrite filed_nonces by done. apply NoDup_fst_map_to_list.
Qed.

Lemma flatten_queue D p a l : inv D [] p -> tp_queue p !! a = Some l ->
  exists p', onQueue a (fun l => Some (l_Flatten l)) p = Ret (flat (l_items l), p') /\ inv D [] p' /\ same_pending p p' /\ same_head p p' /\
    (forall b, b <> a -> tp_queue p' !! b = tp_queue p !! b) /\ (forall b n, slot (tp_queue p') b n = slot (tp_queue p) b n) /\
    NoDup (flat (l_items l)) /\ (forall tx, tx ∈ flat (l_items l) <-> queuedAt p' tx /\ from tx = a).
Proof.
  intros H Hl. destruct (i_queue _ _ _ H a l Hl) as [Hok Hst]. destruct (l_Flatten_ok l Hok) as (F1 & F2 & F3 & F4).
  exists (upd_queue (<[a := (l_Flatten l).2]>) p). split.
  { apply (onQueue_eq a _ p l); [done|]. rewrite <- F2. by destruct (l_Flatten l). }
  assert (forall b n, slot (<[a := (l_Flatten l).2]> (tp_queue p)) b n = slot (tp_queue p) b n) as Hslot.
  { intros b n. rewrite slot_insert. destruct (decide (b = a)) as [->|]; [|done]. unfold slot. by rewrite Hl, F3. }
  split; [|split; [done|split; [done|split; [|split; [done|split]]]]].
  - apply (inv_ext D [] p); try done; [apply H|]. intros b l0. cbn. rewrite lookup_insert_Some.
    intros [[_ <-]|[_ Hb]]; [split; congruence|exact (i_queue _ _ _ H _ _ Hb)].
  - intros b Hb. cbn. by rewrite lookup_insert_ne by congruence.
  - apply flat_nodup. apply (sm_filed _ (lo_map _ Hok)).
  - intros tx. rewrite flat_elem. unfold queuedAt. cbn [upd_queue tp_queue]. rewrite Hslot. split.
    + intros [n Hn]. destruct (queue_home _ _ _ _ _ _ _ H Hl Hn) as (<- & <- & _). split; [|done]. unfold slot. by rewrite Hl.
    + intros [Hq <-]. unfold slot in Hq. rewrite Hl in Hq. by eexists.
Qed.

Variable byHeartbeat : list (Address * Z) -> list Address.
Hypothesis Hbeat : forall l, byHeartbeat l ≡ₚ l.*1.

(** ** truncatePending *)

(** The number of transactions in some lists. *)
Definition total (m : Lists) : Z := foldr (fun e n => l_Len e.2 + n) 0 (map_to_list m).

Lemma total_perm (l1 l2 : list (Address * txList)) : l1 ≡ₚ l2 ->
  foldr (fun e n => l_Len e.2 + n) 0 l1 = foldr (fun e n => l_Len e.2 + n) 0 l2.
Proof. induction 1; cbn; lia. Qed.

Lemma total_insert (m : Lists) a l l' : m !! a = Some l -> total (<[a := l']> m) = total m - l_Len l + l_Len l'.
Proof.
  intros Hl. unfold total. rewrite <- insert_delete_eq.
  rewrite (total_perm _ _ (map_to_list_insert (delete a m) a l' (lookup_delete_eq m a))).
  rewrite <- (total_perm _ _ (map_to_list_delete m a l Hl)). cbn. lia.
Qed.

Lemma l_Len_nonneg l : 0 <= l_Len l.
Proof. unfold l_Len, sm_Len. lia. Qed.

Lemma countTxs_total (m : Lists) : countTxs rangeAddr m = total m.
Proof.
  unfold countTxs. assert (forall addrs n, fold_left (fun n addr => n + default 0 (l_Len <$> m !! addr)) addrs n =
    n + foldr (fun a n => default 0 (l_Len <$> m !! a) + n) 0 addrs) as E.
  { induction addrs as [|a addrs IH]; intros n; cbn; [lia|]. rewrite IH. lia. }
  rewrite E. assert (forall l1 l2 : list Address, l1 ≡ₚ l2 -> foldr (fun a n => default 0 (l_Len <$> m !! a) + n) 0 l1 =
    foldr (fun a n => default 0 (l_Len <$> m !! a) + n) 0 l2) as Hp by (induction 1; cbn; lia).
  rewrite (Hp _ _ (HrangeAddr m)). unfold total.
  assert (forall l : list (Address * txList), (forall e, e ∈ l -> m !! e.1 = Some e.2) ->
    foldr (fun a n => default 0 (l_Len <$> m !! a) + n) 0 l.*1 = foldr (fun e n => l_Len e.2 + n) 0 l) as Hl.
  { induction l as [|e l IH]; intros He; [done|]. cbn. rewrite (He e ltac:(by left)). cbn. rewrite IH; [done|].
    intros e' He'. apply He. by right. }
  rewrite Hl; [lia|]. intros [a l] Hin. by apply elem_of_map_to_list.
Qed.

(** An account loses its last transaction. *)
Lemma dropLast_ok p a l : inv [] [] p -> tp_pending p !! a = Some l -> 1 <= l_Len l ->
  exists l' p', dropLast rangeAll a p = Ret (tt, p') /\ inv [] [] p' /\ same_head p p' /\ (ready p -> ready p') /\
    tp_pending p' = <[a := l']> (tp_pending p) /\ l_Len l' = l_Len l - 1 /\ tp_queue p' = tp_queue p.
Proof.
  intros H Hl Hlen. destruct (i_pending _ _ _ H a l Hl) as [Hok Hst].
  destruct (l_Cap_ok l (l_Len l - 1) Hok ltac:(lia)) as (b & l' & F & Hok' & Hst' & Hi & HL).
  assert (exists tx, flat (upper b (l_items l)) = [tx]) as [tx Ef].
  { pose proof (flat_split b (l_items l) (sm_filed _ (lo_map _ Hok))) as E. apply (f_equal length) in E.
    rewrite length_app, !flat_length, <- Hi in E. unfold l_Len, sm_Len in HL, Hlen. fold (l_items l) (l_items l') in *.
    pose proof (flat_length (upper b (l_items l))) as Eu. destruct (flat (upper b (l_items l))) as [|x [|y r]]; cbn in Eu; [lia|by exists x|lia]. }
  assert (upper b (l_items l) !! tx_Nonce tx = Some tx) as Hu.
  { assert (tx ∈ flat (upper b (l_items l))) as Hin by (rewrite Ef; by left). apply flat_elem in Hin as [n Hn].
    pose proof Hn as Hn'. apply lookup_upper in Hn' as [Hn' _]. by rewrite (sm_filed _ (lo_map _ Hok) _ _ Hn'). }
  assert (taken (l_items l) [tx] (l_items l')) as Htk by (rewrite Hi; apply taken_lower; by rewrite Ef).
  pose proof (take_pending [] [] p a l l' [tx] H Hl Hok' ltac:(congruence) Htk) as H1. apply forgotten_ok in H1.
  destruct (lowerNonce_ok [] [] _ a tx H1) as (p' & E' & H' & G' & A' & Q' & P' & M').
  exists l', p'. split; [|split; [done|split; [exact G'|split; [|split; [done|split; [lia|done]]]]]].
  - unfold dropLast, bind at 1. rewrite (onPending_eq a _ p l _ l' Hl F), Ef. cbn [rev app forEach]. unfold bind.
    rewrite forget_eq, E'. done.
  - intros Hr c. destruct (Hr c) as [R1 R2]. destruct G' as (G' & _). unfold ready_at. rewrite G'. cbn [forgotten upd_priced upd_all upd_pending tp_state].
    rewrite M', P'. cbn [forgotten upd_priced upd_all upd_pending tp_pendingState tp_pending].
    assert (forall n, slot (tp_pending p) a n = l_items l !! n) as Hsl by (intros n; unfold slot; by rewrite Hl).
    destruct (decide (c = a)) as [->|Hc]; [|split; [done|]; intros n; by rewrite slot_insert, decide_False].
    apply lookup_upper in Hu as [Hu Hb].
    assert (cs_nonce (tp_state p) a <= tx_Nonce tx < ms_GetNonce (tp_pendingState p) a) as Hin by (apply R2; rewrite Hsl; by eexists).
    split; [lia|]. intros n. rewrite slot_insert, decide_True, Hi by done. split.
    + intros [t Ht]. apply lookup_lower in Ht as [Ht Hnb]. assert (is_Some (slot (tp_pending p) a n)) as Hs by (rewrite Hsl; by eexists).
      apply R2 in Hs. lia.
    + intros Hn. assert (is_Some (slot (tp_pending p) a n)) as [t Ht] by (apply R2; lia). rewrite Hsl in Ht. exists t.
      apply lookup_lower. split; [done|]. destruct (Z.lt_ge_cases n b) as [|Hge]; [done|]. exfalso.
      assert (t ∈ flat (upper b (l_items l))) as Hin' by (apply flat_elem; exists n; by apply lookup_upper).
      rewrite Ef in Hin'. apply list_elem_of_singleton in Hin' as ->. pose proof (sm_filed _ (lo_map _ Hok) _ _ Ht). lia.
Qed.

(** Accounts with [len] transactions each. *)
Definition level (p : TxPool) (accounts : list Address) (len : Z) : Prop :=
  forall a, a ∈ accounts -> exists l, tp_pending p !! a = Some l /\ l_Len l = len.

Lemma dropEach_ok accounts : forall p len, inv [] [] p -> NoDup accounts -> level p accounts len -> 1 <= len ->
  exists p', forEach (dropLast rangeAll) accounts p = Ret (tt, p') /\ inv [] [] p' /\ same_head p p' /\ (ready p -> ready p') /\
    level p' accounts (len - 1) /\ total (tp_pending p') = total (tp_pending p) - zlen accounts /\
    (forall b, b ∉ accounts -> tp_pending p' !! b = tp_pending p !! b).
Proof.
  induction accounts as [|a accounts IH]; intros p len H Hnd Hlv Hlen; cbn [forEach].
  { exists p. split; [done|]. split; [done|]. split; [done|]. split; [done|]. split; [intros b Hb; by apply not_elem_of_nil in Hb|].
    unfold zlen. cbn. split; [lia|done]. }
  apply NoDup_cons in Hnd as [Ha Hnd]. destruct (Hlv a ltac:(by left)) as (l & Hl & El).
  destruct (dropLast_ok p a l H Hl ltac:(lia)) as (l' & p1 & E1 & H1 & G1 & R1 & P1 & L1 & Q1). unfold bind. rewrite E1.
  destruct (IH p1 len H1 Hnd) as (p' & -> & H' & G' & R' & V' & T' & O').
  { intros b Hb. rewrite P1, lookup_insert_ne by (intros ->; done). apply Hlv. by right. }
  { done. }
  exists p'. split; [done|]. split; [done|]. split; [by eapply same_head_trans|]. split; [tauto|]. split; [|split].
  - intros b [->|Hb]%elem_of_cons; [|by apply V']. exists l'. rewrite O', P1, lookup_insert_eq by done. split; [done|lia].
  - rewrite T', P1, (total_insert _ _ l) by done. unfold zlen. cbn [length]. lia.
  - intros b Hb. apply not_elem_of_cons in Hb as [Hb1 Hb2]. rewrite O', P1, lookup_insert_ne by done. done.
Qed.

(** The loop over the offenders ends: each round takes a transaction of each. *)
Lemma equalize_ok accounts watched th : NoDup accounts -> watched ∈ accounts -> 0 <= th -> 0 <= GlobalSlots config ->
  forall fuel p len pending, inv [] [] p -> level p accounts len -> total (tp_pending p) = pending -> (Z.to_nat pending < fuel)%nat ->
  exists p' pending' len', equalize rangeAll config fuel accounts watched th pending p = Ret (pending', p') /\
    inv [] [] p' /\ same_head p p' /\ (ready p -> ready p') /\ level p' accounts len' /\ total (tp_pending p') = pending' /\
    pending' <= pending /\ len' <= len /\ (th <= len -> th <= len') /\ (pending' <= GlobalSlots config \/ len' <= th) /\
    (forall b, b ∉ accounts -> tp_pending p' !! b = tp_pending p !! b).
Proof.
  intros Hnd Hw Hth Hcfg. induction fuel as [|fuel IH]; intros p len pending H Hlv Htot Hfuel; [lia|]. cbn [equalize].
  destruct (Z.gtb_spec pending (GlobalSlots config)) as [Hgt|Hle].
  2: { exists p, pending, len. do 6 (split; [done|]). do 3 (split; [lia|]). split; [by left|done]. }
  unfold bind at 1, pendingLen, get, must, ret. unfold bind at 1 2. destruct (Hlv _ Hw) as (l & El & Hl). rewrite El. cbn beta iota. rewrite Hl.
  destruct (Z.gtb_spec len th) as [Hlen|Hlen].
  2: { exists p, pending, len. do 6 (split; [done|]). do 3 (split; [lia|]). split; [by right|done]. }
  assert (1 <= zlen accounts) as Hlen1 by (destruct accounts; [by apply not_elem_of_nil in Hw|unfold zlen; cbn; lia]).
  destruct (dropEach_ok accounts p len H Hnd Hlv ltac:(lia)) as (p1 & E1 & H1 & G1 & R1 & V1 & T1 & O1). unfold bind at 1. rewrite E1.
  destruct (IH p1 (len - 1) (pending - zlen accounts) H1 V1 ltac:(lia) ltac:(lia))
    as (p' & pending' & len' & -> & H' & G' & R' & V' & T' & L1 & L2 & L3 & L4 & O').
  exists p', pending', len'. split; [done|]. split; [done|]. split; [by eapply same_head_trans|]. split; [tauto|].
  do 2 (split; [done|]). split; [lia|]. split; [lia|]. split; [intros; apply L3; lia|]. split; [done|].
  intros b Hb. by rewrite O', O1.
Qed.

(** The lengths of the pending lists. *)
Definition plen (p : TxPool) (a : Address) : Z := default 0 (l_Len <$> tp_pending p !! a).

Lemma level_plen p accounts len a : level p accounts len -> a ∈ accounts -> plen p a = len.
Proof. intros Hlv Ha. destruct (Hlv a Ha) as (l & E & Hl). unfold plen. by rewrite E. Qed.

(** The offenders are level; the spammers still to come are not longer than
    they, in descending order. *)
Lemma punish_ok spammers : forall fuel offenders p len pending,
  0 <= GlobalSlots config -> NoDup (offenders ++ spammers) -> inv [] [] p -> level p offenders len -> (offenders = [] \/ 0 <= len) ->
  (forall a, a ∈ spammers -> is_Some (tp_pending p !! a) /\ (offenders = [] \/ plen p a <= len)) ->
  StronglySorted (fun a b => plen p b <= plen p a) spammers ->
  total (tp_pending p) = pending -> (Z.to_nat pending < fuel)%nat ->
  exists p' pending' offenders' len', punish rangeAll config fuel offenders spammers pending p = Ret ((offenders', pending'), p') /\
    inv [] [] p' /\ same_head p p' /\ (ready p -> ready p') /\ total (tp_pending p') = pending' /\ pending' <= pending /\
    (pending' <= GlobalSlots config \/ offenders' = offenders ++ spammers /\ level p' offenders' len') /\
    (forall b, b ∉ offenders ++ spammers -> tp_pending p' !! b = tp_pending p !! b).
Proof.
  induction spammers as [|o spammers IH]; intros fuel offenders p len pending Hcfg Hnd H Hlv Hl0 Hsp Hsort Htot Hfuel; cbn [punish].
  { exists p, pending, offenders, len. do 5 (split; [done|]). split; [lia|]. split; [right; by rewrite app_nil_r|done]. }
  destruct (Z.gtb_spec pending (GlobalSlots config)) as [Hgt|Hle].
  2: { exists p, pending, offenders, len. do 5 (split; [done|]). split; [lia|]. split; [by left|done]. }
  assert (forall X : list Address, X ++ o :: spammers = (X ++ [o]) ++ spammers) as Happ by (intros X; by rewrite <- app_assoc).
  destruct (Hsp o ltac:(by left)) as [[lo Elo] Hlo]. apply StronglySorted_inv in Hsort as [Hsort Hfirst]. rewrite Forall_forall in Hfirst.
  assert (plen p o = l_Len lo) as Hpo by (unfold plen; by rewrite Elo). pose proof (l_Len_nonneg lo).
  rewrite Happ in Hnd. destruct (last offenders) as [previous|] eqn:Elast.
  - assert (previous ∈ offenders) as Hprev by (apply last_Some in Elast as [X ->]; apply elem_of_app; right; by left).
    assert (plen p o <= len) as Hol by (destruct Hlo as [->|?]; [by apply not_elem_of_nil in Hprev|done]).
    assert (NoDup offenders) as Hnd1 by (apply NoDup_app in Hnd as [Hnd _]; by apply NoDup_app in Hnd as [? _]).
    assert ((o ∉ offenders) /\ forall b, b ∈ spammers -> b ∉ offenders) as [Hoo Hso].
    { apply NoDup_app in Hnd as (Hnd & Hd & _). apply NoDup_app in Hnd as (_ & Hd2 & _). split.
      - intros Hx. apply (Hd2 o Hx). by left.
      - intros b Hb Hx. apply (Hd b); [apply elem_of_app; by left|done]. }
    unfold bind at 1, pendingLen, get, must, ret. unfold bind at 1 2. rewrite Elo. cbn beta iota. unfold bind at 1.
    destruct (equalize_ok offenders previous (l_Len lo) Hnd1 Hprev ltac:(lia) Hcfg fuel p len pending H Hlv Htot Hfuel)
      as (p1 & pending1 & len1 & -> & H1 & G1 & R1 & V1 & T1 & L1 & L2 & L3 & L4 & O1). cbn beta iota.
    assert (forall b, b ∉ offenders -> plen p1 b = plen p b) as Hpl by (intros b Hb; unfold plen; by rewrite O1).
    destruct (Z.le_gt_cases pending1 (GlobalSlots config)) as [Hdone|Hmore].
    + (* small enough: the loop is left at its next test *)
      assert (punish rangeAll config fuel (offenders ++ [o]) spammers pending1 p1 = Ret ((offenders ++ [o], pending1), p1)) as ->.
      { destruct spammers; cbn [punish]; [done|]. destruct (Z.gtb_spec pending1 (GlobalSlots config)); [lia|done]. }
      exists p1, pending1, (offenders ++ [o]), len1. do 5 (split; [done|]). split; [lia|]. split; [by left|].
      intros b Hb. apply O1. intros Hx. apply Hb, elem_of_app. by left.
    + assert (len1 = l_Len lo) as Elen by lia.
      destruct (IH fuel (offenders ++ [o]) p1 len1 pending1 Hcfg Hnd H1) as (p' & pending' & offenders' & len' & -> & H' & G' & R' & T' & M' & X' & O').
      * intros b [Hb|Hb]%elem_of_app; [by apply V1|]. apply list_elem_of_singleton in Hb as ->. exists lo. rewrite O1 by done. by rewrite Elen.
      * right. lia.
      * intros b Hb. rewrite (O1 b) by (by apply Hso). split; [by apply Hsp; right|]. right. rewrite Hpl by (by apply Hso).
        specialize (Hfirst b Hb). cbn beta in Hfirst. lia.
      * revert Hsort. apply StronglySorted_on. intros x y Hx Hy. by rewrite !Hpl by (by apply Hso).
      * done.
      * lia.
      * exists p', pending', offenders', len'. split; [done|]. split; [done|]. split; [by eapply same_head_trans|]. split; [tauto|].
        split; [done|]. split; [lia|]. rewrite (Happ offenders). split; [done|]. intros b Hb. rewrite O', O1; [done| |done].
        intros Hx. apply Hb, elem_of_app. left. apply elem_of_app. by left.
  - apply last_None in Elast. subst offenders. cbn [app] in *.
    destruct (IH fuel [o] p (l_Len lo) pending Hcfg Hnd H) as (p' & pending' & offenders' & len' & -> & H' & G' & R' & T' & M' & X' & O').
    + intros b ->%list_elem_of_singleton. by exists lo.
    + right. lia.
    + intros b Hb. split; [by apply Hsp; right|]. right. specialize (Hfirst b Hb). cbn beta in Hfirst. lia.
    + done.
    + done.
    + done.
    + exists p', pending', offenders', len'. done.
Qed.

Variable prque : list (Address * Z) -> list Address.
(** The priority queue gives back what it was given, the highest first. *)
Hypothesis Hprque : forall l, NoDup l.*1 -> prque l ≡ₚ l.*1 /\
  StronglySorted (fun a b => forall x y, (a, x) ∈ l -> (b, y) ∈ l -> y <= x) (prque l).

(** What the pool promises of the pending transactions: either few enough in
    all, or no remote account has more than its share. *)
Definition pending_bounded (p : TxPool) : Prop :=
  total (tp_pending p) <= GlobalSlots config \/ forall a, contains p a = false -> plen p a <= AccountSlots config.

(** The remote accounts with more than their share, the longest first. *)
Definition oversized (p : TxPool) : list (Address * Z) :=
  List.filter (fun e => negb (contains p e.1) && (e.2 >? AccountSlots config))
    ((fun addr => (addr, default 0 (l_Len <$> tp_pending p !! addr))) <$> rangeAddr (tp_pending p)).

Lemma NoDup_fst_filter {A B} (f : A * B -> bool) (l : list (A * B)) : NoDup l.*1 -> NoDup (List.filter f l).*1.
Proof.
  induction l as [|x l IH]; [done|]. rewrite fmap_cons, NoDup_cons. intros [Hx Hl]. cbn. destruct (f x); [|by apply IH].
  rewrite fmap_cons, NoDup_cons. split; [|by apply IH]. intros Hin. apply Hx. apply list_elem_of_fmap in Hin as (y & -> & Hy).
  apply list_elem_of_fmap. exists y. split; [done|]. apply list_elem_of_In, List.filter_In in Hy as [Hy _]. by apply list_elem_of_In.
Qed.

Lemma elem_of_oversized p a n :
  (a, n) ∈ oversized p <-> is_Some (tp_pending p !! a) /\ n = plen p a /\ contains p a = false /\ AccountSlots config < plen p a.
Proof.
  unfold oversized. rewrite list_elem_of_In, List.filter_In, <- list_elem_of_In, list_elem_of_fmap. cbn [fst snd]. split.
  - intros [(a' & [= <- ->] & Ha) Hb]. apply elem_of_rangeAddr in Ha. apply andb_true_iff in Hb as [Hb1 Hb2].
    apply negb_true_iff in Hb1. apply Z.gtb_lt in Hb2. done.
  - intros (Ha & -> & Hc & Hn). split; [exists a; split; [done|by apply elem_of_rangeAddr]|]. rewrite Hc. cbn. by apply Z.gtb_lt.
Qed.

Lemma spammers_ok p : let spammers := prque (oversized p) in
  NoDup spammers /\ StronglySorted (fun a b => plen p b <= plen p a) spammers /\
  forall a, a ∈ spammers <-> is_Some (tp_pending p !! a) /\ contains p a = false /\ AccountSlots config < plen p a.
Proof.
  intros spammers. assert (NoDup (oversized p).*1) as Hnd.
  { apply NoDup_fst_filter. rewrite <- list_fmap_compose. change (fst ∘ _) with (fun a : Address => a).
    rewrite list_fmap_id. apply NoDup_rangeAddr. }
  destruct (Hprque (oversized p) Hnd) as [Hperm Hsort]. fold spammers in Hperm, Hsort.
  assert (forall a, a ∈ spammers <-> is_Some (tp_pending p !! a) /\ contains p a = false /\ AccountSlots config < plen p a) as Hsp.
  { intros a. rewrite Hperm, list_elem_of_fmap. split.
    - intros ([a' n] & -> & Hin). apply elem_of_oversized in Hin as (? & _ & ? & ?). done.
    - intros (Ha & Hc & Hn). exists (a, plen p a). split; [done|]. by apply elem_of_oversized. }
  split; [|split; [|done]].
  - by rewrite Hperm.
  - revert Hsort. apply StronglySorted_on. intros x y Hx Hy HQ. apply HQ; apply elem_of_oversized; apply Hsp in Hx, Hy; tauto.
Qed.

Lemma truncatePending_ok p : inv [] [] p -> 0 <= GlobalSlots config -> 0 <= AccountSlots config ->
  exists p', truncatePending rangeAll rangeAddr prque config p = Ret (tt, p') /\ inv [] [] p' /\ same_head p p' /\
    (ready p -> ready p') /\ pending_bounded p'.
Proof.
  intros H Hgs Has. unfold truncatePending. unfold bind at 1. unfold get at 1. cbn beta iota. rewrite countTxs_total.
  destruct (Z.gtb_spec (total (tp_pending p)) (GlobalSlots config)) as [Hgt|Hle].
  2: { exists p. do 4 (split; [done|]). by left. }
  fold (oversized p). destruct (spammers_ok p) as (Hnd & Hsort & Hsp). set (spammers := prque (oversized p)) in *.
  set (fuel := (Z.to_nat (total (tp_pending p)) + 1)%nat).
  destruct (punish_ok spammers fuel [] p 0 (total (tp_pending p)) Hgs Hnd H) as (p1 & pending1 & offenders & len & E1 & H1 & G1 & R1 & T1 & M1 & X1 & O1).
  { intros a Ha. by apply not_elem_of_nil in Ha. }
  { by left. }
  { intros a Ha. apply Hsp in Ha as [Ha _]. split; [done|by left]. }
  { done. }
  { done. }
  { unfold fuel. lia. }
  unfold bind at 1. rewrite E1. cbn beta iota. cbn [app] in *.
  assert (forall a, contains p a = false -> a ∉ spammers -> plen p1 a <= AccountSlots config) as Hrest.
  { intros a Hc Ha. unfold plen. rewrite O1 by done. fold (plen p a). destruct (tp_pending p !! a) as [l|] eqn:El.
    - destruct (Z.le_gt_cases (plen p a) (AccountSlots config)) as [|Hn]; [done|]. exfalso. apply Ha, Hsp. rewrite El. split; [by eexists|]. by split.
    - unfold plen. by rewrite El. }
  destruct (last offenders) as [w|] eqn:El.
  2: { exists p1. split; [done|]. split; [done|]. split; [done|]. split; [done|].
       destruct X1 as [X1|[X1 _]]; [left; lia|]. right. intros a Ha. apply last_None in El. rewrite (same_head_locals _ _ G1) in Ha.
       apply Hrest; [done|]. rewrite <- X1, El. apply not_elem_of_nil. }
  destruct X1 as [X1|[-> V1]].
  { exists p1. unfold bind. assert (equalize rangeAll config fuel offenders w (AccountSlots config) pending1 p1 = Ret (pending1, p1)) as ->.
    { unfold fuel. rewrite Nat.add_1_r. cbn [equalize]. destruct (Z.gtb_spec pending1 (GlobalSlots config)); [lia|done]. }
    split; [done|]. split; [done|]. split; [done|]. split; [done|]. left. lia. }
  assert (w ∈ spammers) as Hw by (apply last_Some in El as [? ->]; apply elem_of_app; right; by left).
  destruct (equalize_ok spammers w (AccountSlots config) Hnd Hw Has Hgs fuel p1 len pending1 H1 V1 T1 ltac:(unfold fuel; lia))
    as (p2 & pending2 & len2 & E2 & H2 & G2 & R2 & V2 & T2 & L1 & L2 & L3 & L4 & O2).
  exists p2. unfold bind. rewrite E2. split; [done|]. split; [done|]. split; [by eapply same_head_trans|]. split; [tauto|].
  destruct L4 as [L4|L4]; [left; lia|right]. intros a Ha. rewrite (same_head_locals _ _ G2), (same_head_locals _ _ G1) in Ha.
  destruct (decide (a ∈ spammers)) as [Hin|Hnin]; [by rewrite (level_plen _ _ _ _ V2 Hin)|].
  unfold plen. rewrite O2 by done. by apply Hrest.
Qed.

(** ** Counting *)

(** The transactions in some lists. *)
Definition members (m : Lists) : list Transaction := foldr (fun e l => values (l_items e.2) ++ l) [] (map_to_list m).

Lemma members_length m : Z.of_nat (length (members m)) = total m.
Proof.
  unfold members, total. induction (map_to_list m) as [|e l IH]; [done|]. cbn [foldr]. rewrite length_app, Nat2Z.inj_add, IH.
  f_equal. unfold l_Len, sm_Len, values, l_items. by rewrite length_fmap, length_map_to_list.
Qed.

Lemma values_elem (m : Items) tx : tx ∈ values m <-> exists n, m !! n = Some tx.
Proof.
  unfold values. rewrite list_elem_of_fmap. split.
  - intros ([n t] & -> & Hin). exists n. by apply elem_of_map_to_list.
  - intros [n Hn]. exists (n, tx). split; [done|]. by apply elem_of_map_to_list.
Qed.

Lemma members_list (l : list (Address * txList)) tx :
  tx ∈ foldr (fun e l => values (l_items e.2) ++ l) [] l <-> exists e, e ∈ l /\ tx ∈ values (l_items e.2).
Proof.
  induction l as [|e l IH]; cbn [foldr].
  - split; [intros Hx; by apply not_elem_of_nil in Hx|]. intros (e & He & _). by apply not_elem_of_nil in He.
  - rewrite elem_of_app, IH. split.
    + intros [Hx|(e' & He & Hx)]; [exists e; split; [by left|done]|exists e'; split; [by right|done]].
    + intros (e' & [->|He]%elem_of_cons & Hx); [by left|right; by exists e'].
Qed.

Lemma members_elem m tx : tx ∈ members m <-> exists a n, slot m a n = Some tx.
Proof.
  unfold members. rewrite members_list. unfold slot. split.
  - intros ([a l] & Hl & Hx). apply elem_of_map_to_list in Hl. apply values_elem in Hx as [n Hn]. exists a, n. by rewrite Hl.
  - intros (a & n & Hs). destruct (m !! a) as [l|] eqn:El; [|done]. exists (a, l). split; [by apply elem_of_map_to_list|].
    apply values_elem. by exists n.
Qed.

Lemma members_nodup m : (forall a n tx, slot m a n = Some tx -> from tx = a /\ tx_Nonce tx = n) -> NoDup (members m).
Proof.
  intros Hh. unfold members. assert (forall e, e ∈ map_to_list m -> m !! e.1 = Some e.2) as Hl by (intros [a l]; apply elem_of_map_to_list).
  assert (forall a l n tx, m !! a = Some l -> l_items l !! n = Some tx -> from tx = a /\ tx_Nonce tx = n) as Hi.
  { intros a l n tx El Hn. apply Hh. unfold slot. by rewrite El. }
  clear Hh. pose proof (NoDup_fst_map_to_list m) as Hnd. revert Hl Hnd.
  induction (map_to_list m) as [|[a l] r IH]; intros Hl Hnd; cbn [foldr]; [constructor|].
  rewrite fmap_cons in Hnd. apply NoDup_cons in Hnd as [Ha Hnd]. pose proof (Hl (a, l) ltac:(by left)) as El. cbn [fst snd] in *.
  apply NoDup_app. split; [|split].
  - apply (NoDup_fmap_1 tx_Nonce). change (NoDup (map tx_Nonce (values (l_items l)))). rewrite filed_nonces; [apply NoDup_fst_map_to_list|].
    intros n tx Hn. by apply (Hi a l).
  - intros tx Hx Hr. apply values_elem in Hx as [n Hn]. destruct (Hi _ _ _ _ El Hn) as [Ef _].
    apply members_list in Hr as ([b lb] & Hb & Hx). apply values_elem in Hx as [k Hk]. cbn [snd] in Hk.
    destruct (Hi b lb k tx (Hl (b, lb) ltac:(by right)) Hk) as [Eb _]. apply Ha, list_elem_of_fmap. exists (b, lb). split; [cbn; congruence|done].
  - apply IH; [|done]. intros e He. apply Hl. by right.
Qed.

(** The number of transactions depends on the slots alone. *)
Lemma total_ext m m' : (forall a n tx, slot m a n = Some tx -> from tx = a /\ tx_Nonce tx = n) ->
  (forall a n, slot m' a n = slot m a n) -> total m' = total m.
Proof.
  intros Hh Hs. rewrite <- !members_length. f_equal. apply Permutation_length, NoDup_Permutation.
  - apply members_nodup. intros a n tx. rewrite Hs. apply Hh.
  - by apply members_nodup.
  - intros tx. rewrite !members_elem. split; intros (a & n & Hx); exists a, n; [by rewrite <- Hs|by rewrite Hs].
Qed.

(** The table counts the transactions of all lists. *)
Lemma count_all D p : inv D [] p -> Z.of_nat (size (tp_all p)) = total (tp_pending p) + total (tp_queue p).
Proof.
  intros H. rewrite <- !members_length, <- Nat2Z.inj_add, <- length_app, <- length_map_to_list, <- (length_fmap snd). f_equal.
  assert (forall a n tx, slot (tp_pending p) a n = Some tx -> from tx = a /\ tx_Nonce tx = n) as Hp.
  { intros a n tx Hx. by apply (i_pending_home _ _ _ H) in Hx as (? & ? & _). }
  assert (forall a n tx, slot (tp_queue p) a n = Some tx -> from tx = a /\ tx_Nonce tx = n) as Hq.
  { intros a n tx Hx. by apply (i_queue_home _ _ _ H) in Hx as (? & ? & _). }
  apply Permutation_length, NoDup_Permutation.
  - apply (NoDup_fmap_1 tx_Hash). rewrite <- list_fmap_compose.
    rewrite (list_fmap_ext _ fst (map_to_list (tp_all p))); [apply NoDup_fst_map_to_list|].
    intros i [h tx] Hx. cbn. apply list_elem_of_lookup_2, elem_of_map_to_list in Hx. by apply (i_all _ _ _ H) in Hx as [-> _].
  - apply NoDup_app. split; [by apply members_nodup|]. split; [|by apply members_nodup]. intros tx (a & n & Hx)%members_elem (b & k & Hy)%members_elem.
    destruct (Hp _ _ _ Hx) as [<- <-], (Hq _ _ _ Hy) as [<- <-]. destruct (i_apart _ _ _ H (from tx) (tx_Nonce tx)); congruence.
  - intros tx. rewrite elem_of_app, !members_elem, list_elem_of_fmap. split.
    + intros ([h t] & -> & Hx). apply elem_of_map_to_list, (i_all _ _ _ H) in Hx as [_ [Hx|[Hx|Hx]]];
        [left; by eexists _, _|right; by eexists _, _|by apply not_elem_of_nil in Hx].
    + intros Hx. exists (tx_Hash tx, tx). split; [done|]. apply elem_of_map_to_list, (i_all _ _ _ H). split; [done|].
      destruct Hx as [(a & n & Hx)|(a & n & Hx)]; [left; by destruct (Hp _ _ _ Hx) as [<- <-]|right; left; by destruct (Hq _ _ _ Hx) as [<- <-]].
Qed.

(** ** truncateQueue *)

(** The pending side is as it was. *)
Definition pending_kept (p p' : TxPool) : Prop :=
  (forall a n, slot (tp_pending p') a n = slot (tp_pending p) a n) /\ tp_pendingState p' = tp_pendingState p /\ same_head p p'.

Lemma pending_kept_trans p1 p2 p3 : pending_kept p1 p2 -> pending_kept p2 p3 -> pending_kept p1 p3.
Proof.
  intros (A1 & A2 & A3) (B1 & B2 & B3). split; [|split; [congruence|by eapply same_head_trans]]. intros a n. by rewrite B1, A1.
Qed.

Lemma pending_kept_ready p p' : pending_kept p p' -> ready p -> ready p'.
Proof. intros (E1 & E2 & (E3 & _)). apply ready_ext; [done|done|intros; by rewrite E2]. Qed.

Lemma homes D X p : inv D X p -> forall a n tx, slot (tp_queue p) a n = Some tx -> from tx = a /\ tx_Nonce tx = n.
Proof. intros H a n tx Hx. by apply (i_queue_home _ _ _ H) in Hx as (? & ? & _). Qed.

Lemma pending_kept_total D X p p' : inv D X p -> pending_kept p p' -> total (tp_pending p') = total (tp_pending p).
Proof.
  intros H (E & _). apply total_ext; [|done]. intros a n tx Hx. by apply (i_pending_home _ _ _ H) in Hx as (? & ? & _).
Qed.

Lemma remove_queued D oob txs : forall p, inv D [] p -> NoDup txs -> (forall tx, tx ∈ txs -> queuedAt p tx) ->
  exists p', forEach (fun tx => removeTx sender range_ rangeAll config (tx_Hash tx) oob) txs p = Ret (tt, p') /\
    inv D [] p' /\ pending_kept p p' /\ total (tp_queue p') = total (tp_queue p) - zlen txs /\
    (forall tx, tx ∈ txs -> slot (tp_queue p') (from tx) (tx_Nonce tx) = None) /\
    (forall a n, slot (tp_queue p) a n = None -> slot (tp_queue p') a n = None) /\
    (forall a, (forall tx, tx ∈ txs -> from tx = a) -> forall b, b <> a -> tp_queue p' !! b = tp_queue p !! b).
Proof.
  induction txs as [|tx txs IH]; intros p H Hnd Hin; cbn [forEach].
  { exists p. do 3 (split; [done|]). split; [unfold zlen; cbn; lia|]. split; [|done]. intros tx Hx. by apply not_elem_of_nil in Hx. }
  apply NoDup_cons in Hnd as [Hx Hnd]. pose proof (Hin tx ltac:(by left)) as Hq.
  assert (tp_all p !! tx_Hash tx = Some tx) as Ht by (apply (i_all _ _ _ H); split; [done|by right; left]).
  unfold bind. destruct (removeTx_ok D p (tx_Hash tx) oob H) as (p1 & -> & H1 & G1 & A1 & _ & X1).
  destruct (X1 tx Ht) as (O1 & Q1 & _). destruct (Q1 Hq) as [P1 M1]. assert (pending_kept p p1) as K1 by done.
  assert (forall t, queuedAt p1 t <-> queuedAt p t /\ t <> tx) as Hq1.
  { intros t. assert (U tx) as Hu by (apply (known_U _ _ _ _ H); by right; left).
    assert (forall q, inv D [] q -> (forall a n, slot (tp_pending q) a n = slot (tp_pending p) a n) ->
      queuedAt q t <-> tp_all q !! tx_Hash t = Some t /\ slot (tp_pending p) (from t) (tx_Nonce t) = None) as Hk.
    { intros q Hi Hs. split.
      - intros Hqt. split; [apply (i_all _ _ _ Hi); split; [done|by right; left]|]. rewrite <- Hs.
        destruct (i_apart _ _ _ Hi (from t) (tx_Nonce t)); [done|unfold queuedAt in Hqt; congruence].
      - intros [Hall Hn]. apply (i_all _ _ _ Hi) in Hall as [_ [Hp|[Hp|Hp]]]; [|done|by apply not_elem_of_nil in Hp].
        unfold pendingAt in Hp. rewrite Hs in Hp. congruence. }
    rewrite (Hk p1 H1 P1), (Hk p H (fun _ _ => eq_refl)), A1, lookup_delete_Some. split.
    - intros ((Hh & Ha) & Hn). split; [done|]. by intros ->.
    - intros ((Ha & Hn) & Hne). split; [split; [|done]|done]. intros Hh. apply Hne. apply (u_hash HU); [|done|done].
      apply (i_all _ _ _ H) in Ha as [_ Ha]. by apply (known_U _ _ _ _ H). }
  destruct (IH p1 H1 Hnd) as (p' & -> & H' & K' & T' & N' & S' & O').
  { intros t Htx. apply Hq1. split; [apply Hin; by right|]. by intros ->. }
  exists p'. split; [done|]. split; [done|]. split; [by eapply pending_kept_trans|].
  assert (forall a n, slot (tp_queue p) a n = None -> slot (tp_queue p1) a n = None) as S1.
  { intros a n Hn. destruct (slot (tp_queue p1) a n) as [t|] eqn:E; [|done]. destruct (homes _ _ _ H1 _ _ _ E) as [<- <-].
    apply Hq1 in E as [E _]. unfold queuedAt in E. congruence. }
  split; [|split; [|split]].
  - pose proof (count_all _ _ H) as C. pose proof (count_all _ _ H1) as C1. rewrite (pending_kept_total _ _ _ _ H K1) in C1.
    rewrite A1, map_size_delete_Some in C1 by (by eexists).
    assert (size (tp_all p) <> 0%nat) as Hne by (intros E; apply map_size_empty_inv in E; by rewrite E in Ht).
    unfold zlen in *. cbn [length]. lia.
  - intros t [->|Htx]%elem_of_cons; [|by apply N']. apply S'. destruct (slot (tp_queue p1) (from tx) (tx_Nonce tx)) as [t|] eqn:E; [|done].
    destruct (homes _ _ _ H1 _ _ _ E) as [E1 E2]. rewrite <- E1, <- E2 in E. apply Hq1 in E as [E Hne]. unfold queuedAt in E, Hq. congruence.
  - intros a n Hn. by apply S', S1.
  - intros a Hall b Hb. rewrite (O' a); [|intros t Htx; apply Hall; by right|done]. apply O1. rewrite (Hall tx); [done|by left].
Qed.


(** An account loses queued transactions. *)
Lemma dropQueued_ok addrs : forall drop p, inv [] [] p -> NoDup addrs -> (forall a, a ∈ addrs -> is_Some (tp_queue p !! a)) ->
  exists p', dropQueued sender range_ rangeAll config drop addrs p = Ret (tt, p') /\ inv [] [] p' /\ pending_kept p p' /\
    (forall a n, slot (tp_queue p) a n = None -> slot (tp_queue p') a n = None) /\
    (total (tp_queue p') <= total (tp_queue p) - drop \/ forall a n, a ∈ addrs -> slot (tp_queue p') a n = None).
Proof.
  induction addrs as [|a addrs IH]; intros drop p H Hnd Hin; cbn [dropQueued].
  { exists p. do 4 (split; [done|]). right. intros a n Ha. by apply not_elem_of_nil in Ha. }
  destruct (Z.gtb_spec drop 0) as [Hdrop|Hdrop].
  2: { exists p. do 4 (split; [done|]). left. lia. }
  apply NoDup_cons in Hnd as [Ha Hnd]. destruct (Hin a ltac:(by left)) as [l Hl].
  destruct (flatten_queue [] p a l H Hl) as (p1 & E1 & H1 & [S1 M1] & G1 & O1 & Q1 & N1 & F1). unfold bind at 1. rewrite E1. cbn beta iota.
  assert (pending_kept p p1) as K1 by (split; [by rewrite S1|done]).
  pose proof (total_ext _ _ (homes _ _ _ H) Q1) as T1.
  destruct (Z.leb_spec (zlen (flat (l_items l))) drop) as [Hsz|Hsz].
  - destruct (remove_queued [] true (flat (l_items l)) p1 H1 N1) as (p2 & E2 & H2 & K2 & T2 & C2 & V2 & O2).
    { intros tx Hx. by apply F1. }
    unfold bind at 1. rewrite E2. cbn beta iota.
    destruct (IH (drop - zlen (flat (l_items l))) p2 H2 Hnd) as (p' & -> & H' & K' & V' & B').
    { intros b Hb. rewrite (O2 a), O1; [apply Hin; by right|..]; [|intros tx Hx; by apply F1|]; intros ->; done. }
    exists p'. split; [done|]. split; [done|]. split; [by repeat (eapply pending_kept_trans; [eassumption|])|].
    split; [intros b n Hn; apply V', V2; by rewrite Q1|]. destruct B' as [B'|B']; [left; lia|right].
    intros b n [->|Hb]%elem_of_cons; [|by apply B']. apply V'. destruct (slot (tp_queue p2) a n) as [t|] eqn:E; [|done].
    destruct (homes _ _ _ H2 _ _ _ E) as [Et <-]. rewrite <- (C2 t), Et; [done|]. apply F1. split; [|done]. unfold queuedAt. rewrite Et.
    destruct (slot (tp_queue p1) a (tx_Nonce t)) as [t'|] eqn:E'; [|by rewrite (V2 _ _ E') in E].
    destruct (homes _ _ _ H1 _ _ _ E') as [Et' En']. assert (t' ∈ flat (l_items l)) as Hf by (apply F1; unfold queuedAt; by rewrite Et', En').
    pose proof (C2 t' Hf) as C. rewrite Et', En' in C. congruence.
  - set (txs := take (Z.to_nat drop) (rev (flat (l_items l)))).
    assert (forall tx, tx ∈ txs -> tx ∈ flat (l_items l)) as Hsub.
    { intros tx Hx. unfold txs in Hx. apply elem_of_take in Hx as (i & Hx & _). apply list_elem_of_lookup_2 in Hx.
      by rewrite <- Permutation_rev in Hx. }
    destruct (remove_queued [] true txs p1 H1) as (p2 & -> & H2 & K2 & T2 & C2 & V2 & O2).
    { apply (sublist_NoDup _ (rev (flat (l_items l)))); [by rewrite <- Permutation_rev|apply sublist_take]. }
    { intros tx Hx. by apply F1, Hsub. }
    exists p2. split; [done|]. split; [done|]. split; [by eapply pending_kept_trans|].
    split; [intros b n Hn; apply V2; by rewrite Q1|]. left. unfold txs, zlen in *. rewrite length_take, length_rev in T2. lia.
Qed.

Definition queue_bounded (p : TxPool) : Prop :=
  total (tp_queue p) <= GlobalQueue config \/ forall a, contains p a = false -> forall n, slot (tp_queue p) a n = None.

Lemma truncateQueue_ok p : inv [] [] p ->
  exists p', truncateQueue sender range_ rangeAll rangeAddr byHeartbeat config p = Ret (tt, p') /\ inv [] [] p' /\
    pending_kept p p' /\ queue_bounded p'.
Proof.
  intros H. unfold truncateQueue. unfold bind, get. rewrite countTxs_total.
  destruct (Z.gtb_spec (total (tp_queue p)) (GlobalQueue config)) as [Hgt|Hle].
  2: { exists p. do 3 (split; [done|]). by left. }
  set (remote := List.filter _ _). set (l := byHeartbeat _).
  assert (l ≡ₚ remote) as Hp.
  { unfold l. rewrite Hbeat. rewrite <- list_fmap_compose. change (fst ∘ _) with (fun a : Address => a). by rewrite list_fmap_id. }
  assert (NoDup remote) as Hnd by (apply NoDup_ListNoDup, List.NoDup_filter, NoDup_ListNoDup, NoDup_rangeAddr).
  assert (forall a, a ∈ rev l <-> is_Some (tp_queue p !! a) /\ contains p a = false) as Hin.
  { intros a. rewrite <- Permutation_rev, Hp. unfold remote. rewrite list_elem_of_In, List.filter_In, <- list_elem_of_In, elem_of_rangeAddr.
    by rewrite negb_true_iff. }
  destruct (dropQueued_ok (rev l) (total (tp_queue p) - GlobalQueue config) p H) as (p' & -> & H' & K' & V' & B');
    [by rewrite <- Permutation_rev, Hp|intros a Ha; by apply Hin|].
  exists p'. do 3 (split; [done|]). destruct B' as [B'|B']; [left; lia|right]. intros a Ha n. destruct K' as (_ & _ & G).
  rewrite (same_head_locals _ _ G) in Ha. destruct (tp_queue p !! a) as [la|] eqn:E.
  - apply B', Hin. by rewrite E.
  - apply V'. unfold slot. by rewrite E.
Qed.

(** ** promoteExecutables *)

Lemma promoteAccounts_ok addrs : 0 <= AccountQueue config < 2 ^ 63 -> forall p, inv [] [] p ->
  exists p', forEach (promoteAccount range_ rangeAll config now) addrs p = Ret (tt, p') /\ inv [] [] p' /\ same_head p p' /\
    (tight -> ready p -> ready p').
Proof.
  intros Hcfg. induction addrs as [|a addrs IH]; intros p H; cbn [forEach]; [by exists p|]. unfold bind.
  destruct (promoteAccount_ok p a H Hcfg) as (p1 & -> & H1 & G1 & R1). destruct (IH p1 H1) as (p' & -> & H' & G' & R').
  exists p'. do 2 (split; [done|]). split; [by eapply same_head_trans|]. tauto.
Qed.

(** The limits as they can be. *)
Record limits : Prop := {
  lim_slots : 0 <= AccountSlots config;
  lim_global : 0 <= GlobalSlots config;
  lim_queue : 0 <= AccountQueue config < 2 ^ 63;
  lim_gqueue : 0 <= GlobalQueue config;
  lim_sum : GlobalSlots config + GlobalQueue config < 2 ^ 63
}.

Lemma plen_ext p p' a : (forall n, slot (tp_pending p') a n = slot (tp_pending p) a n) -> plen p' a = plen p a.
Proof.
  intros Hs. unfold plen. assert (forall m : Lists, default 0 (l_Len <$> m !! a) = Z.of_nat (size (default ∅ (l_items <$> m !! a)))) as E
    by (intros m; by destruct (m !! a)).
  rewrite !E. do 2 f_equal. apply map_eq. intros n. specialize (Hs n). unfold slot in Hs.
  destruct (tp_pending p' !! a), (tp_pending p !! a); cbn; rewrite ?lookup_empty; done.
Qed.

Lemma promoteExecutables_ok p accounts : inv [] [] p -> limits ->
  exists p', promoteExecutables sender range_ rangeAll rangeAddr prque byHeartbeat config now accounts p = Ret (tt, p') /\
    inv [] [] p' /\ same_head p p' /\ (tight -> ready p -> ready p') /\ pending_bounded p' /\ queue_bounded p'.
Proof.
  intros H [L1 L2 L3 _ _]. unfold promoteExecutables. unfold bind at 1. unfold get at 1. cbn beta iota.
  destruct (promoteAccounts_ok (default (rangeAddr (tp_queue p)) accounts) L3 p H) as (p1 & E1 & H1 & G1 & R1). unfold bind at 1. rewrite E1. cbn beta iota.
  destruct (truncatePending_ok p1 H1 L2 L1) as (p2 & E2 & H2 & G2 & R2 & B2). unfold bind at 1. rewrite E2. cbn beta iota.
  destruct (truncateQueue_ok p2 H2) as (p3 & E3 & H3 & K3 & B3). rewrite E3. exists p3. do 2 (split; [done|]).
  pose proof K3 as (K4 & _ & G3). split; [by repeat (eapply same_head_trans; [eassumption|])|]. split; [|split; [|done]].
  - intros Ht Hr. apply (pending_kept_ready p2); [done|]. tauto.
  - destruct B2 as [B2|B2]; [left; by rewrite (pending_kept_total _ _ _ _ H2 K3)|right]. intros a Ha.
    rewrite (plen_ext p2) by done. apply B2. by rewrite <- (same_head_locals _ _ G3).
Qed.

(** ** Adding a transaction *)

(** A list with some of the transactions of another. *)
Lemma l_less l m : l_ok l -> m ⊆ l_items l -> exists l0, l_ok l0 /\ l_strict l0 = l_strict l /\ l_items l0 = m.
Proof.
  intros Hok Hm. exists (set_txs (mkSortedMap m (Init nonceLess (keys m)) None) l). split; [|done].
  destruct (Init_ok nonceLess (keys m)) as [I1 I2]. apply l_shrink; [done| |done]. split; cbn; [done|done| |done].
  intros n tx Hn. apply (sm_filed _ (lo_map _ Hok)). by eapply lookup_weaken.
Qed.

Definition entered (tx : Transaction) (p : TxPool) : TxPool :=
  upd_priced (p_Put (tp_priced p) tx) (upd_all (<[tx_Hash tx := tx]>) p).

(** A new transaction is in limbo first. *)
Lemma introduce D X p tx : inv D X p -> U tx -> tp_all p !! tx_Hash tx = None -> vacant p (from tx) (tx_Nonce tx) ->
  place tx ∉ map place X -> inv D (tx :: X) (entered tx p).
Proof.
  intros H Hu Hn Hv Hx. destruct (Push_ok priceLess (p_items (tp_priced p)) tx (i_heap _ _ _ H)) as [P1 P2].
  split; try apply H; cbn [entered upd_priced upd_all tp_all tp_priced p_Put p_items]; [|..].
  - intros t [->|Ht]%elem_of_cons; [done|by apply (i_limbo _ _ _ H)].
  - cbn [map]. apply NoDup_cons. split; [done|apply H].
  - intros h t. rewrite lookup_insert_Some, (i_all _ _ _ H), elem_of_cons. change (pendingAt (entered tx p) t) with (pendingAt p t).
    change (queuedAt (entered tx p) t) with (queuedAt p t). split.
    + intros [[<- <-]|(_ & -> & Hw)]; [by split; [|right; right; left]|tauto].
    + intros (-> & Hw). destruct (decide (t = tx)) as [->|Hne]; [by left|right].
      assert (pendingAt p t \/ queuedAt p t \/ t ∈ X) as Hw' by tauto. split; [|done]. intros E. apply Hne.
      apply (u_hash HU); [by apply (known_U _ _ _ _ H)|done|done].
  - done.
  - intros h t. rewrite lookup_insert_Some. intros [[_ <-]|[_ Ha]]; [left; rewrite P1; by left|].
    destruct (i_priced _ _ _ H h t Ha) as [Hp|Hd]; [left; rewrite P1; by right|by right].
  - intros t. rewrite P1. intros [->|Ht]%elem_of_cons; [done|by apply (i_points _ _ _ H)].
Qed.

Definition forgot (old : option Transaction) (p : TxPool) : TxPool :=
  match old with Some t => forgotten t p | None => p end.

Lemma forgot_all old p h : tp_all p !! h = None -> tp_all (forgot old p) !! h = None.
Proof. intros Hn. destruct old; [|done]. cbn. rewrite lookup_delete_None. by right. Qed.

(** The table and the heap change apart from the lists. *)
Lemma upd_queue_late x g f f0 p : upd_queue f (upd_priced x (upd_all g (upd_queue f0 p))) = upd_priced x (upd_all g (upd_queue (f ∘ f0) p)).
Proof. done. Qed.

Lemma upd_pending_late x g f f0 p : upd_pending f (upd_priced x (upd_all g (upd_pending f0 p))) = upd_priced x (upd_all g (upd_pending (f ∘ f0) p)).
Proof. done. Qed.

Lemma enter_forgotten tx t p : entered tx (forgotten t p) =
  upd_priced (p_Put (p_Removed rangeAll (delete (tx_Hash t) (tp_all p)) (tp_priced p)) tx)
    (upd_all (fun m => <[tx_Hash tx := tx]> (delete (tx_Hash t) m)) p).
Proof. done. Qed.

Lemma swap_queue_eq tx t a l0 l' p : upd_queue (<[a := l']>) (entered tx (forgotten t (upd_queue (<[a := l0]>) p))) =
  entered tx (forgotten t (upd_queue (<[a := l']>) p)).
Proof.
  rewrite !enter_forgotten, upd_queue_late. f_equal. unfold upd_queue, compose. f_equal. f_equal. apply insert_insert_eq.
Qed.

Lemma swap_pending_eq tx t a l0 l' p : upd_pending (<[a := l']>) (entered tx (forgotten t (upd_pending (<[a := l0]>) p))) =
  entered tx (forgotten t (upd_pending (<[a := l']>) p)).
Proof.
  rewrite !enter_forgotten, upd_pending_late. f_equal. unfold upd_pending, compose. f_equal. f_equal. apply insert_insert_eq.
Qed.

(** The new transaction takes the place of an old one, if any. *)
Lemma swap_queue p tx l old l' : inv [] [] p -> U tx -> tp_all p !! tx_Hash tx = None ->
  slot (tp_pending p) (from tx) (tx_Nonce tx) = None -> l = default (newTxList false) (tp_queue p !! from tx) ->
  l_Add l tx (PriceBump config) = (true, old, l') ->
  inv [] [] (entered tx (forgot old (upd_queue (<[from tx := l']>) p))).
Proof.
  intros H Hu Hn Hp El Ea. destruct (newList_ok (tp_queue p) false (from tx)) as (N1 & N2 & N3); [apply H|]. rewrite <- El in N1, N2, N3.
  pose proof (l_Add_ok l tx (PriceBump config) N1 (u_nonce HU tx Hu)) as Ha. rewrite Ea in Ha. destruct Ha as (A1 & A2 & A3 & A4).
  rewrite N3 in A4. destruct old as [t|]; symmetry in A4.
  - assert (tp_queue p !! from tx = Some l) as Hl.
    { subst l. unfold slot in A4. by destruct (tp_queue p !! from tx). }
    destruct (homes _ _ _ H _ _ _ A4) as [Ef En]. assert (l_items l !! tx_Nonce tx = Some t) as Ht by (by rewrite N3).
    destruct (l_less l (delete (tx_Nonce tx) (l_items l)) N1 (delete_subseteq _ _)) as (l0 & L1 & L2 & L3).
    assert (taken (l_items l) [t] (l_items l0)) as Htk by (rewrite L3; by apply taken_delete).
    pose proof (take_queue [] [] p (from tx) l l0 [t] H Hl L1 ltac:(congruence) Htk) as H1. apply forgotten_ok in H1.
    apply (introduce [] [] _ tx) in H1; [|done|by apply (forgot_all (Some t) p)| |by apply not_elem_of_nil].
    2: { split; [exact Hp|]. cbn. rewrite slot_insert, decide_True, L3 by done. apply lookup_delete_eq. }
    apply (put_queue [] [] _ tx l') in H1; [|done|congruence|].
    + rewrite swap_queue_eq in H1. exact H1.
    + cbn. rewrite insert_insert_eq. intros b n. rewrite !slot_insert. destruct (decide (b = from tx)) as [->|Hb].
      * rewrite A3, L3. destruct (decide (n = tx_Nonce tx)) as [->|Hne]; [by rewrite lookup_insert_eq, decide_True|].
        rewrite lookup_insert_ne, decide_False, lookup_delete_ne by (unfold place; congruence). done.
      * by rewrite decide_False by (unfold place; congruence).
  - cbn [forgot]. pose proof (introduce [] [] p tx H Hu Hn (conj Hp A4) ltac:(apply not_elem_of_nil)) as H1.
    apply (put_queue [] [] _ tx l') in H1; [exact H1|done|congruence|]. cbn.
    apply (slot_put _ _ l); [by subst l; destruct (tp_queue p !! from tx)| |done]. intros E. subst l. by rewrite E.
Qed.

Lemma swap_pending p tx l old l' : inv [] [] p -> U tx -> tp_all p !! tx_Hash tx = None ->
  tp_pending p !! from tx = Some l -> is_Some (l_items l !! tx_Nonce tx) ->
  l_Add l tx (PriceBump config) = (true, old, l') ->
  inv [] [] (entered tx (forgot old (upd_pending (<[from tx := l']>) p))) /\ l_items l' = <[tx_Nonce tx := tx]> (l_items l).
Proof.
  intros H Hu Hn Hl [t Ht] Ea. destruct (i_pending _ _ _ H _ _ Hl) as [N1 N2].
  pose proof (l_Add_ok l tx (PriceBump config) N1 (u_nonce HU tx Hu)) as Ha. rewrite Ea in Ha. destruct Ha as (A1 & A2 & A3 & ->).
  split; [|done]. rewrite Ht. assert (slot (tp_pending p) (from tx) (tx_Nonce tx) = Some t) as Hs by (unfold slot; by rewrite Hl).
  destruct (i_pending_home _ _ _ H _ _ _ Hs) as (Ef & En & _).
  assert (slot (tp_queue p) (from tx) (tx_Nonce tx) = None) as Hq by (destruct (i_apart _ _ _ H (from tx) (tx_Nonce tx)); congruence).
  destruct (l_less l (delete (tx_Nonce tx) (l_items l)) N1 (delete_subseteq _ _)) as (l0 & L1 & L2 & L3).
  assert (taken (l_items l) [t] (l_items l0)) as Htk by (rewrite L3; by apply taken_delete).
  pose proof (take_pending [] [] p (from tx) l l0 [t] H Hl L1 ltac:(congruence) Htk) as H1. apply forgotten_ok in H1.
  apply (introduce [] [] _ tx) in H1; [|done|by apply (forgot_all (Some t) p)| |by apply not_elem_of_nil].
  2: { split; [|exact Hq]. cbn. rewrite slot_insert, decide_True, L3 by done. apply lookup_delete_eq. }
  apply (put_pending [] [] _ tx l') in H1; [|done|congruence|].
  - rewrite swap_pending_eq in H1. exact H1.
  - cbn. rewrite insert_insert_eq. intros b n. rewrite !slot_insert. destruct (decide (b = from tx)) as [->|Hb].
    + rewrite A3, L3. destruct (decide (n = tx_Nonce tx)) as [->|Hne]; [by rewrite lookup_insert_eq, decide_True|].
      rewrite lookup_insert_ne, decide_False, lookup_delete_ne by (unfold place; congruence). done.
    + by rewrite decide_False by (unfold place; congruence).
Qed.

Lemma enqueue_new p tx : inv [] [] p -> U tx -> tp_all p !! tx_Hash tx = None -> slot (tp_pending p) (from tx) (tx_Nonce tx) = None ->
  exists r p', enqueueTx sender rangeAll config (tx_Hash tx) tx p = Ret (r, p') /\ inv [] [] p' /\ pending_kept p p' /\
    match r with inr _ => tp_all p' !! tx_Hash tx = Some tx | inl _ => tp_all p' = tp_all p end.
Proof.
  intros H Hu Hn Hp. unfold enqueueTx. unfold bind at 1. unfold get at 1. cbn beta iota.
  destruct (l_Add (default (newTxList false) (tp_queue p !! from tx)) tx (PriceBump config)) as [[inserted old] l'] eqn:Ea.
  destruct inserted; cbn [negb].
  - pose proof (swap_queue p tx _ old l' H Hu Hn Hp eq_refl Ea) as H1.
    exists (inr (match old with Some _ => true | None => false end)), (entered tx (forgot old (upd_queue (<[from tx := l']>) p))).
    split; [|split; [exact H1|]].
    + unfold bind, modify, ret, enter, modify. destruct old as [t|]; cbn beta iota.
      * rewrite forget_eq. cbn beta iota. pose proof (forgot_all (Some t) (upd_queue (<[from tx := l']>) p) _ Hn) as Hf.
        cbn [forgot] in Hf. by rewrite Hf.
      * cbn [upd_queue tp_all]. by rewrite Hn.
    + split; [by destruct old|]. cbn. apply lookup_insert_eq.
  - eexists (inl _), _. split; [done|]. split; [|done].
    destruct (newList_ok (tp_queue p) false (from tx)) as (N1 & N2 & N3); [apply H|].
    pose proof (l_Add_ok _ tx (PriceBump config) N1 (u_nonce HU tx Hu)) as Ha. rewrite Ea in Ha. destruct Ha as (A1 & A2 & -> & _ & [t A3]).
    rewrite N3 in A3. unfold slot in A3. destruct (tp_queue p !! from tx) as [l|] eqn:El; [|done]. cbn [default].
    apply (inv_ext [] [] p); try done; [apply H|..]; cbn; rewrite insert_id by done; [apply H|done].
Qed.

(** The heap is read. *)
Lemma reheap p drop l' local : inv [] [] p -> heap_after local (tp_all p) (p_items (tp_priced p)) drop l' -> inv drop [] (upd_priced l' p).
Proof.
  intros H A. split; try apply H; [apply A| |intros tx Hx; by apply (i_points _ _ _ H), (ha_sub _ _ _ _ _ A)]. cbn. intros h tx Hh. destruct (i_priced _ _ _ H h tx Hh) as [Hp|Hp]; [|by apply not_elem_of_nil in Hp].
  apply (ha_kept _ _ _ _ _ A); [done|]. unfold stale. apply (i_all _ _ _ H) in Hh as Hk. destruct Hk as [-> _]. by rewrite Hh.
Qed.

(** What the heap has given up is gone. *)
Lemma settle D p : inv D [] p -> (forall tx, tx ∈ D -> tp_all p !! tx_Hash tx = None) -> inv [] [] p.
Proof.
  intros H Hg. split; try apply H. intros h tx Hh. destruct (i_priced _ _ _ H h tx Hh) as [?|Hd]; [by left|].
  apply (i_all _ _ _ H) in Hh as Hk. destruct Hk as [-> _]. rewrite (Hg tx Hd) in Hh. done.
Qed.

Lemma discarded D p txs oob : inv D [] p -> D = txs ->
  exists p', forEach (fun tx => removeTx sender range_ rangeAll config (tx_Hash tx) oob) txs p = Ret (tt, p') /\ inv [] [] p' /\
    same_head p p' /\ (ready p -> ready p') /\ tp_all p' ⊆ tp_all p.
Proof.
  intros H ->. destruct (remove_all txs oob txs p H) as (p' & -> & H' & G' & R' & A' & N' & _). exists p'.
  split; [done|]. split; [by apply (settle txs)|done].
Qed.

(** The table is small enough to be counted. *)
Lemma few D X p : inv D X p -> Z.of_nat (size (tp_all p)) < 2 ^ 63 - 1.
Proof.
  intros H. destruct (u_few HU) as (l & Hl & Hlen). rewrite <- length_map_to_list, <- (length_fmap snd).
  assert (length (map_to_list (tp_all p)).*2 <= length l)%nat; [|unfold zlen in Hlen; lia].
  apply submseteq_length, NoDup_submseteq.
  - apply (NoDup_fmap_1 tx_Hash). rewrite <- list_fmap_compose.
    rewrite (list_fmap_ext _ fst (map_to_list (tp_all p))); [apply NoDup_fst_map_to_list|].
    intros i [h tx] Hx. cbn. apply list_elem_of_lookup_2, elem_of_map_to_list in Hx. by apply (i_all _ _ _ H) in Hx as [-> _].
  - intros tx ([h t] & -> & Hx)%list_elem_of_fmap. apply elem_of_map_to_list, (i_all _ _ _ H) in Hx as [_ Hx]. by apply Hl, (known_U _ _ _ _ H).
Qed.

(** The pool makes room. *)
Lemma make_room p (full : bool) : inv [] [] p -> 0 <= GlobalSlots config -> 0 <= GlobalQueue config -> GlobalSlots config + GlobalQueue config < 2 ^ 63 ->
  (full = true -> u64 (GlobalSlots config + GlobalQueue config) <= u64 (Z.of_nat (size (tp_all p)))) ->
  exists p', (if full then
       let* p := get in
       let* r := must (Discard (containsTx sender p) (tp_all p) (tp_priced p)
         (i64 (Z.of_nat (size (tp_all p)) - i64 (u64 (GlobalSlots config + GlobalQueue config - 1))))) in
       modify (upd_priced r.2) ;;
       forEach (fun tx => removeTx sender range_ rangeAll config (tx_Hash tx) false) r.1
     else ret tt) p = Ret (tt, p') /\ inv [] [] p' /\ same_head p p' /\ (ready p -> ready p') /\ tp_all p' ⊆ tp_all p.
Proof.
  intros H L1 L2 L3 Hfull. destruct full; [|by exists p]. specialize (Hfull eq_refl). pose proof (few _ _ _ H) as Hfew.
  unfold bind at 1. unfold get at 1. cbn beta iota zeta. set (count := i64 _).
  assert (0 <= count) as Hc.
  { unfold count. clear -L1 L2 L3 Hfull Hfew. unfold u64, i64, u64_modulus in *. rewrite !Z.mod_small in Hfull by lia.
    set (n := Z.of_nat _) in *. set (g := GlobalSlots config + GlobalQueue config) in *.
    assert (((g - 1) mod 2 ^ 64 + 2 ^ 63) mod 2 ^ 64 - 2 ^ 63 = g - 1) as ->.
    { rewrite Zplus_mod_idemp_l, Z.mod_small by lia. lia. }
    rewrite Z.mod_small by lia. lia. }
  destruct (Discard_ok (containsTx sender p) (tp_all p) (tp_priced p) count (i_heap _ _ _ H) Hc) as (drop & l' & E & A & _).
  unfold must. rewrite E. unfold bind, modify, ret. cbn [fst snd]. cbn beta iota.
  destruct (discarded drop (upd_priced l' p) drop false (reheap _ _ _ _ H A) eq_refl) as (p' & E' & H' & G' & R' & A').
  rewrite E'. exists p'. done.
Qed.

(** The place that [add] looks for among the pending ones. *)
Definition overlapping (p : TxPool) (tx : Transaction) : option txList :=
  match tp_pending p !! from tx with Some l => if Overlaps l tx then Some l else None | None => None end.

Lemma overlapping_spec p tx :
  match overlapping p tx with
  | Some l => tp_pending p !! from tx = Some l /\ is_Some (l_items l !! tx_Nonce tx)
  | None => slot (tp_pending p) (from tx) (tx_Nonce tx) = None
  end.
Proof.
  unfold overlapping, slot, Overlaps, sm_Get. destruct (tp_pending p !! from tx) as [l|]; [|done]. fold (l_items l).
  destruct (l_items l !! tx_Nonce tx) as [t|] eqn:E; [split; [done|by rewrite E]|done].
Qed.

(** The transaction finds its place in the pool. *)
Definition placed (p p' : TxPool) (tx : Transaction) (r : poolErr + bool) : Prop :=
  inv [] [] p' /\ (ready p -> ready p') /\
  match r with inr _ => tp_all p' !! tx_Hash tx = Some tx | inl _ => tp_all p' ⊆ tp_all p end.

Lemma settle_in p tx local : inv [] [] p -> U tx -> tp_all p !! tx_Hash tx = None ->
  exists r p', (match overlapping p tx with
     | Some l =>
         let '(inserted, old, l) := l_Add l tx (PriceBump config) in
         if negb (inserted : bool) then ret (inl ErrReplaceUnderpriced)
         else
           modify (upd_pending (<[from tx := l]>)) ;;
           (match old with Some old => forget rangeAll old | None => ret tt end) ;;
           modify (fun p => upd_priced (p_Put (tp_priced p) tx) (upd_all (<[tx_Hash tx := tx]>) p)) ;;
           ret (inr (match old with Some _ => true | None => false end))
     | None =>
         let* r := enqueueTx sender rangeAll config (tx_Hash tx) tx in
         match r with
         | inl e => ret (inl e)
         | inr replace =>
             (if local : bool then modify (fun p => upd_locals ({[from tx]} ∪ tp_locals p) p) else ret tt) ;;
             ret (inr replace)
         end
     end) p = Ret (r, p') /\ placed p p' tx r.
Proof.
  intros H Hu Hn. pose proof (overlapping_spec p tx) as Ho. destruct (overlapping p tx) as [l|].
  - destruct Ho as [Hl Hs]. destruct (l_Add l tx (PriceBump config)) as [[inserted old] l'] eqn:Ea.
    destruct inserted; cbn [negb]; [|by eexists (inl _), p].
    destruct (swap_pending p tx l old l' H Hu Hn Hl Hs Ea) as [H1 Hi].
    exists (inr (match old with Some _ => true | None => false end)), (entered tx (forgot old (upd_pending (<[from tx := l']>) p))).
    split; [by destruct old|]. split; [done|]. split; [|cbn; apply lookup_insert_eq].
    intros Hr a. destruct (Hr a) as [R1 R2]. unfold ready_at.
    replace (tp_state (entered _ _)) with (tp_state p) by (by destruct old).
    replace (tp_pendingState (entered _ _)) with (tp_pendingState p) by (by destruct old).
    replace (tp_pending (entered _ _)) with (<[from tx := l']> (tp_pending p)) by (by destruct old). split; [done|]. intros n. rewrite <- R2, slot_insert.
    destruct (decide (a = from tx)) as [->|]; [|done]. unfold slot. rewrite Hl, Hi. destruct (decide (n = tx_Nonce tx)) as [->|Hne].
    + rewrite lookup_insert_eq. split; [done|by eexists].
    + by rewrite lookup_insert_ne.
  - unfold bind at 1. destruct (enqueue_new p tx H Hu Hn Ho) as (r & p1 & -> & H1 & K1 & A1). cbn beta iota.
    pose proof (pending_kept_ready _ _ K1) as R1. destruct r as [e|b].
    + exists (inl e), p1. split; [done|]. split; [done|]. split; [done|]. by rewrite A1.
    + destruct local.
      * eexists (inr b), _. split; [done|]. split; [by destruct H1|]. done.
      * by exists (inr b), p1.
Qed.

Lemma add_ok p tx local : inv [] [] p -> U tx -> limits ->
  exists r p', add sender range_ rangeAll config tx local p = Ret (r, p') /\ placed p p' tx r.
Proof.
  intros H Hu [_ L1 _ L2 L3]. unfold add. unfold bind at 1. unfold get at 1. cbn beta iota.
  destruct (tp_all p !! tx_Hash tx) as [t|] eqn:Hn; [by eexists (inl _), p|].
  destruct (validateTx sender p tx local) as [e|]; [by eexists (inl _), p|].
  set (full := _ >=? _).
  assert (exists b p1, (if full && negb local then
      let* r := must (Underpriced (containsTx sender p) (tp_all p) (tp_priced p) tx) in modify (upd_priced r.2) ;; ret r.1
    else ret false) p = Ret (b, p1) /\ inv [] [] p1 /\ (ready p -> ready p1) /\ tp_all p1 = tp_all p) as (b & p1 & E1 & H1 & R1 & A1).
  { destruct (full && negb local); [|by exists false, p].
    destruct (Underpriced_ok (containsTx sender p) (tp_all p) (tp_priced p) tx (i_heap _ _ _ H)) as (b & l' & E & A & _).
    unfold bind, must, modify, ret. rewrite E. cbn. exists b, (upd_priced l' p). split; [done|]. split; [by apply (reheap _ _ _ _ H A)|]. done. }
  unfold bind at 1. rewrite E1. cbn beta iota. destruct b.
  { exists (inl ErrUnderpriced), p1. split; [done|]. split; [done|]. split; [done|]. by rewrite A1. }
  destruct (make_room p1 full H1 L1 L2 L3) as (p2 & E2 & H2 & G2 & R2 & A2).
  { intros Hf. rewrite A1. by apply Z.geb_le in Hf. }
  unfold bind at 1. rewrite E2. unfold bind at 1. unfold get at 1. cbn beta iota. fold (overlapping p2 tx).
  destruct (settle_in p2 tx local H2 Hu) as (r & p3 & E3 & H3 & R3 & A3).
  { eapply lookup_weaken_None; [|exact A2]. by rewrite A1. }
  rewrite E3. exists r, p3. split; [done|]. split; [done|]. split; [tauto|]. destruct r; [|done]. rewrite <- A1. by etransitivity.
Qed.

Abbreviation promoteAll := (promoteExecutables sender range_ rangeAll rangeAddr prque byHeartbeat config now).

(** What an operation keeps, and what it leaves behind. *)
Definition kept (p p' : TxPool) : Prop := inv [] [] p' /\ (tight -> ready p -> ready p').

Definition bounded (p : TxPool) : Prop := pending_bounded p /\ queue_bounded p.

Lemma addTx_ok p tx local : inv [] [] p -> U tx -> limits ->
  exists e p', addTx sender range_ rangeAll rangeAddr prque byHeartbeat config now tx local p = Ret (e, p') /\ kept p p' /\
    (e <> None -> tp_all p' ⊆ tp_all p).
Proof.
  intros H Hu L. unfold addTx. unfold bind at 1. destruct (add_ok p tx local H Hu L) as (r & p1 & -> & H1 & R1 & A1). cbn beta iota.
  destruct r as [e|[|]].
  - exists (Some e), p1. by split; [|split; [split|]].
  - exists None, p1. by split; [|split; [split|]].
  - destruct (promoteExecutables_ok p1 (Some [from tx]) H1 L) as (p2 & E2 & H2 & _ & R2 & _). unfold bind at 1. rewrite E2.
    exists None, p2. split; [done|]. split; [|done]. split; [done|]. tauto.
Qed.

Lemma addLoop_ok txs local : limits -> (forall tx, tx ∈ txs -> U tx) -> forall dirty p, inv [] [] p ->
  exists r p', addLoop sender range_ rangeAll config txs local dirty p = Ret (r, p') /\ inv [] [] p' /\ (ready p -> ready p') /\
    length r.1 = length txs.
Proof.
  intros L. induction txs as [|tx txs IH]; intros Hu dirty p H; cbn [addLoop]; [by exists ([], dirty), p|].
  unfold bind at 1. destruct (add_ok p tx local H (Hu tx ltac:(by left)) L) as (r & p1 & -> & H1 & R1 & _). cbn beta iota.
  set (dirty' := match r with inl _ => _ | inr _ => _ end).
  destruct (IH (fun t Ht => Hu t ltac:(by right)) dirty' p1 H1) as (rest & p' & E' & H' & R' & L'). unfold bind. rewrite E'.
  eexists _, p'. split; [done|]. split; [done|]. split; [tauto|]. cbn. by rewrite L'.
Qed.

Lemma addTxsLocked_ok p txs local : inv [] [] p -> (forall tx, tx ∈ txs -> U tx) -> limits ->
  exists errs p', addTxsLocked sender range_ rangeAll rangeAddr prque byHeartbeat config now txs local p = Ret (errs, p') /\ kept p p' /\
    length errs = length txs.
Proof.
  intros H Hu L. unfold addTxsLocked. unfold bind at 1. destruct (addLoop_ok txs local L Hu ∅ p H) as (r & p1 & -> & H1 & R1 & L1). cbn beta iota.
  destruct (bool_decide (r.2 = ∅)); [by exists r.1, p1|].
  destruct (promoteExecutables_ok p1 (Some (elements r.2)) H1 L) as (p2 & E2 & H2 & _ & R2 & _). unfold bind at 1. rewrite E2.
  exists r.1, p2. split; [done|]. split; [|done]. split; [done|]. tauto.
Qed.

(** The remote transactions below the new price go, and no others. *)
Lemma SetGasPrice_ok p price : inv [] [] p ->
  exists p', SetGasPrice sender range_ rangeAll config price p = Ret (tt, p') /\ kept p p' /\
    (forall h tx, tp_all p' !! h = Some tx <-> tp_all p !! h = Some tx /\ (containsTx sender p tx = true \/ price <= tx_GasPrice tx)).
Proof.
  intros H. unfold SetGasPrice. unfold bind at 1. unfold modify at 1. cbn beta iota. unfold bind at 1. unfold get at 1. cbn beta iota.
  assert (inv [] [] (upd_gasPrice price p)) as H0 by (by destruct H). set (p0 := upd_gasPrice price p) in *.
  destruct (p_Cap_ok (containsTx sender p0) (tp_all p0) (tp_priced p0) price (i_heap _ _ _ H0)) as (drop & l' & E & A & Hlow & Hcheap).
  change (containsTx sender p0) with (containsTx sender p) in *. change (tp_all p0) with (tp_all p) in *.
  unfold must. rewrite E. unfold bind, modify, ret. cbn [fst snd]. cbn beta iota.
  destruct (remove_all drop false drop (upd_priced l' p0) (reheap _ _ _ _ H0 A)) as (p' & -> & H' & G' & R' & A' & N' & _ & Q').
  exists p'. split; [done|]. split; [split; [by apply (settle drop)|by intros _]|]. cbn in A', Q'. change (tp_all p0) with (tp_all p) in *.
  intros h tx. split.
  - intros Hh. pose proof (lookup_weaken _ _ _ _ Hh A') as Hh0. split; [done|]. apply (i_all _ _ _ H) in Hh0 as Hk. destruct Hk as [-> _].
    destruct (i_priced _ _ _ H (tx_Hash tx) tx Hh0) as [Hp|Hp]; [|by apply not_elem_of_nil in Hp].
    destruct (ha_kept _ _ _ _ _ A tx Hp) as [Hx|Hx]; [unfold stale; by rewrite Hh0| |rewrite (N' tx Hx) in Hh; done].
    destruct (containsTx sender p tx) eqn:Ec; [by left|right; by apply Hcheap].
  - intros [Hh Hc]. rewrite Q'; [done|]. intros Hin. apply list_elem_of_fmap in Hin as (d & -> & Hd).
    destruct (ha_drop _ _ _ _ _ A d Hd) as (Hit & Hs & Hlo). pose proof (Hlow d Hd) as Hprice.
    destruct (decide (d = tx)) as [->|Hne]; [destruct Hc as [Hc|Hc]; [congruence|lia]|].
    apply (i_all _ _ _ H) in Hh as [Eh Hk]. apply Hne, (u_hash HU); [by apply (i_points _ _ _ H)|by apply (known_U _ _ _ _ H)|done].
Qed.

(** ** Eviction *)

Lemma kept_refl p : inv [] [] p -> kept p p.
Proof. intros H. by split. Qed.

Lemma kept_trans p1 p2 p3 : kept p1 p2 -> kept p2 p3 -> kept p1 p3.
Proof. intros [_ R1] [H R2]. split; [done|]. tauto. Qed.

Lemma evict_ok p : inv [] [] p ->
  exists p', evict sender range_ rangeAll rangeAddr config now p = Ret (tt, p') /\ kept p p'.
Proof.
  intros H. unfold evict. unfold bind at 1. unfold get at 1. cbn beta iota. revert p H.
  assert (forall p, inv [] [] p -> forall a, exists p', evictAccount sender range_ rangeAll config now a p = Ret (tt, p') /\ kept p p') as Hone.
  { intros p H a. unfold evictAccount. unfold bind at 1. unfold get at 1. cbn beta iota.
    destruct (tp_queue p !! a) as [l|] eqn:El; [|exists p; split; [done|by apply kept_refl]].
    destruct (contains p a); [exists p; split; [done|by apply kept_refl]|].
    destruct (_ >? _); [|exists p; split; [done|by apply kept_refl]].
    destruct (flatten_queue [] p a l H El) as (p1 & E1 & H1 & S1 & G1 & _). unfold bind at 1. rewrite E1. cbn beta iota.
    destruct (remove_all [] true (flat (l_items l)) p1 H1) as (p2 & -> & H2 & G2 & R2 & _). exists p2. split; [done|]. split; [done|].
    intros _ Hr. by apply R2, (same_pending_ready p). }
  assert (forall addrs p, inv [] [] p -> exists p', forEach (evictAccount sender range_ rangeAll config now) addrs p = Ret (tt, p') /\ kept p p') as Hall.
  { induction addrs as [|a addrs IH]; intros p H; cbn [forEach]; [exists p; split; [done|by apply kept_refl]|]. unfold bind.
    destruct (Hone p H a) as (p1 & -> & K1). destruct (IH p1 (proj1 K1)) as (p' & -> & K'). exists p'. split; [done|]. by eapply kept_trans. }
  intros p H. by apply Hall.
Qed.

(** ** A new head *)

Lemma setPendingNonce_ok p a : inv [] [] p -> (forall b l, tp_pending p !! b = Some l -> l_Empty l = false) ->
  exists p', setPendingNonce a p = Ret (tt, p') /\ inv [] [] p' /\ (forall b l, tp_pending p' !! b = Some l -> l_Empty l = false) /\
    tp_state p' = tp_state p /\ (forall b n, slot (tp_pending p') b n = slot (tp_pending p) b n) /\
    (forall b, b <> a -> ms_GetNonce (tp_pendingState p') b = ms_GetNonce (tp_pendingState p) b) /\
    (tight -> gapless p a -> is_Some (tp_pending p !! a) -> ready_at p' a) /\
    (tp_pending p !! a = None -> p' = p) /\ (forall b, is_Some (tp_pending p !! b) -> is_Some (tp_pending p' !! b)).
Proof.
  intros H Hne. unfold setPendingNonce. unfold bind at 1. unfold get at 1. cbn beta iota.
  destruct (tp_pending p !! a) as [l|] eqn:El; [|exists p; do 6 (split; [done|]); split; [by intros _ _ [? ?]|done]]. destruct (i_pending _ _ _ H a l El) as [Hok Hst].
  destruct (l_Flatten_ok l Hok) as (F1 & F2 & F3 & F4). unfold bind at 1.
  rewrite (onPending_eq a _ p l (l_Flatten l).1 (l_Flatten l).2 El) by (by destruct (l_Flatten l)). cbn beta iota. rewrite F2.
  assert (exists tx, last (flat (l_items l)) = Some tx) as [tx Htx].
  { apply last_is_Some. intros E. pose proof (Hne _ _ El) as He. apply (f_equal length) in E. rewrite flat_length in E.
    unfold l_Empty, l_Len, sm_Len in He. fold (l_items l) in He. rewrite E in He. done. }
  unfold bind, must, modify. rewrite Htx. cbn beta iota. eexists. split; [done|]. cbn [tp_pending upd_pending upd_pendingState upd_head].
  assert (forall b n, slot (<[a := (l_Flatten l).2]> (tp_pending p)) b n = slot (tp_pending p) b n) as Hslot.
  { intros b n. rewrite slot_insert. destruct (decide (b = a)) as [->|]; [|done]. unfold slot. by rewrite El, F3. }
  split; [|split; [|split; [done|split; [exact Hslot|split; [|split; [|split; [done|]]]]]]].
  - apply (inv_ext [] [] p); try done; cbn; [|apply H].
    intros b l0. rewrite lookup_insert_Some. intros [[_ <-]|[_ Hb]]; [split; congruence|exact (i_pending _ _ _ H _ _ Hb)].
  - intros b l0. rewrite lookup_insert_Some. intros [[_ <-]|[_ Hb]]; [|by eapply Hne].
    pose proof (Hne _ _ El) as He. unfold l_Empty, l_Len, sm_Len in He |- *. fold (l_items l) in He. fold (l_items (l_Flatten l).2). by rewrite F3.
  - intros b Hb. cbn. rewrite ms_set_get. by rewrite decide_False.
  - intros Ht (e & He & Hs) _. unfold ready_at. cbn. rewrite ms_set_get, decide_True by done.
    destruct (flat_last _ tx (sm_filed _ (lo_map _ Hok)) Htx) as [L1 L2].
    assert (forall n, is_Some (l_items l !! n) <-> cs_nonce (tp_state p) a <= n < e) as Hi by (intros n; rewrite <- Hs; unfold slot; by rewrite El).
    assert (cs_nonce (tp_state p) a <= tx_Nonce tx < e) as Hr by (apply Hi; by eexists).
    assert (is_Some (l_items l !! (e - 1))) as [t He1] by (apply Hi; lia). pose proof (L2 _ _ He1).
    assert (U tx) as Hu by (apply (known_U [] [] p); [done|left]; unfold pendingAt, slot;
      destruct (i_pending_home _ _ _ H a (tx_Nonce tx) tx) as (-> & _); [unfold slot; by rewrite El|by rewrite El]).
    pose proof (Ht _ Hu). pose proof (u_nonce HU _ Hu).
    assert (u64 (tx_Nonce tx + 1) = e) as -> by (unfold u64, u64_modulus; rewrite Z.mod_small by lia; lia).
    split; [done|]. intros n. rewrite Hslot. apply Hs.
  - intros b Hb. destruct (decide (b = a)) as [->|Hba]; [by rewrite lookup_insert_eq; eexists|by rewrite lookup_insert_ne].
Qed.

Variable GetBlock : Hash -> Z -> option Block.

(** What the chain gives: the block asked for, and no block below the genesis. *)
Record chain_blocks : Prop := {
  cb_number h n b : GetBlock h n = Some b -> NumberU64 b = n;
  cb_genesis h : GetBlock h (2 ^ 64 - 1) = None;
  cb_txs h n b tx : GetBlock h n = Some b -> tx ∈ b_transactions b -> U tx
}.
Hypothesis Hchain : chain_blocks.

Definition good (b : Block) : Prop := forall tx, tx ∈ b_transactions b -> U tx.

Lemma below_ok b b' : below_ GetBlock b = Some b' -> NumberU64 b' = NumberU64 b - 1 /\ 0 < NumberU64 b /\ good b'.
Proof.
  unfold below_. intros E. pose proof (cb_number Hchain _ _ _ E) as En.
  assert (0 <= NumberU64 b < 2 ^ 64) as Hr by apply u64_range.
  destruct (decide (NumberU64 b = 0)) as [E0|E0].
  { rewrite E0 in E. change (u64 (0 - 1)) with (2 ^ 64 - 1) in E. by rewrite (cb_genesis Hchain) in E. }
  rewrite En. unfold u64, u64_modulus. rewrite Z.mod_small by lia. split; [lia|]. split; [lia|].
  intros tx Ht. by eapply (cb_txs Hchain).
Qed.

Lemma descend_ok fuel : forall b target acc, good b -> 0 <= target -> (forall tx, tx ∈ acc -> U tx) -> (Z.to_nat (NumberU64 b) < fuel)%nat ->
  exists r, descend GetBlock fuel b target acc = Some r /\
    (forall b' acc', r = Some (b', acc') -> good b' /\ (forall tx, tx ∈ acc' -> U tx) /\ NumberU64 b' = Z.min (NumberU64 b) target).
Proof.
  induction fuel as [|fuel IH]; intros b target acc Hg Ht Ha Hf; [lia|]. cbn [descend].
  destruct (Z.gtb_spec (NumberU64 b) target) as [Hgt|Hle].
  2: { eexists. split; [done|]. intros b' acc' [= <- <-]. split; [done|]. split; [done|lia]. }
  destruct (below_ GetBlock b) as [b'|] eqn:Eb; [|by exists None]. destruct (below_ok b b' Eb) as (En & Hpos & Hg').
  destruct (IH b' target (acc ++ b_transactions b) Hg' Ht) as (r & -> & Hr); [|lia|].
  - intros tx [Hx|Hx]%elem_of_app; [by apply Ha|by apply Hg].
  - exists r. split; [done|]. intros b2 acc2 E. destruct (Hr _ _ E) as (? & ? & ?). split; [done|]. split; [done|lia].
Qed.

Lemma meet_ok fuel : forall rem add disc incl, good rem -> good add -> (forall tx, tx ∈ disc -> U tx) ->
  (Z.to_nat (NumberU64 rem) < fuel)%nat ->
  exists r, meet GetBlock fuel rem add disc incl = Some r /\ (forall d i, r = Some (d, i) -> forall tx, tx ∈ d -> U tx).
Proof.
  induction fuel as [|fuel IH]; intros rem add disc incl Hg1 Hg2 Hd Hf; [lia|]. cbn [meet].
  destruct (Block_Hash rem =? Block_Hash add); [eexists; split; [done|]; by intros d i [= <- <-]|].
  destruct (below_ GetBlock rem) as [rem'|] eqn:E1; [|by exists None]. destruct (below_ GetBlock add) as [add'|] eqn:E2; [|by exists None].
  destruct (below_ok _ _ E1) as (En & Hpos & Hg1'). destruct (below_ok _ _ E2) as (_ & _ & Hg2').
  apply IH; [done|done| |lia]. intros tx [Hx|Hx]%elem_of_app; [by apply Hd|by apply Hg1].
Qed.

(** The walk over the chain ends, when both heads are there. *)
Lemma reinjected_ok fuel oldHead newHead :
  (forall h, oldHead = Some h -> is_Some (GetBlock (Header_Hash h) (u64 (h_Number h))) /\ (Z.to_nat (u64 (h_Number h)) < fuel)%nat) ->
  is_Some (GetBlock (Header_Hash newHead) (u64 (h_Number newHead))) -> (Z.to_nat (u64 (h_Number newHead)) < fuel)%nat ->
  exists r, reinjected GetBlock fuel oldHead newHead = Ret r /\ (forall txs, r = Some txs -> forall tx, tx ∈ txs -> U tx).
Proof.
  intros Ho [bn En] Hfn. unfold reinjected.
  assert (exists r : option (list Transaction), @Ret (option (list Transaction)) (Some []) = Ret r /\ (forall txs, r = Some txs -> forall tx, tx ∈ txs -> U tx)) as Hnil.
  { eexists. split; [done|]. intros txs [= <-] tx Hx. by apply not_elem_of_nil in Hx. }
  destruct oldHead as [old|]; [|done]. destruct (_ =? _); [done|]. destruct (_ >? _); [done|].
  destruct (Ho old eq_refl) as [[bo Eo] Hfo]. rewrite Eo, En.
  assert (forall h n b, GetBlock h n = Some b -> good b) as Hgood by (intros h n b E tx Ht; by eapply (cb_txs Hchain)).
  pose proof (cb_number Hchain _ _ _ Eo) as No. pose proof (cb_number Hchain _ _ _ En) as Nn.
  assert (forall b, 0 <= NumberU64 b) as Hpos by (intros b; apply u64_range).
  destruct (descend_ok fuel bo (NumberU64 bn) []) as (r1 & -> & Hr1); [by eapply Hgood|done|intros tx Hx; by apply not_elem_of_nil in Hx|lia|].
  destruct r1 as [[rem disc]|]; [|by eexists]. destruct (Hr1 _ _ eq_refl) as (G1 & D1 & N1).
  destruct (descend_ok fuel bn (NumberU64 rem) []) as (r2 & -> & Hr2); [by eapply Hgood|done|intros tx Hx; by apply not_elem_of_nil in Hx|lia|].
  destruct r2 as [[add incl]|]; [|by eexists]. destruct (Hr2 _ _ eq_refl) as (G2 & D2 & N2).
  destruct (meet_ok fuel rem add disc incl G1 G2 D1) as (r3 & -> & Hr3); [lia|].
  destruct r3 as [[d i]|]; [|by eexists]. eexists. split; [done|]. intros txs [= <-] tx Hx.
  apply (Hr3 _ _ eq_refl). unfold TxDifference in Hx. apply list_elem_of_In, List.filter_In in Hx as [Hx _]. by apply list_elem_of_In.
Qed.

Variable StateAt : Hash -> option ChainState.

Lemma addTxsLocked_nil p local : addTxsLocked sender range_ rangeAll rangeAddr prque byHeartbeat config now [] local p = Ret ([], p).
Proof. unfold addTxsLocked, bind, addLoop, ret. cbn [fst snd]. by rewrite bool_decide_true. Qed.

(** The nonces the accounts will have are read off the pending lists. *)
Lemma setPendingNonces_ok addrs : forall p, inv [] [] p -> (forall b l, tp_pending p !! b = Some l -> l_Empty l = false) ->
  exists p', forEach setPendingNonce addrs p = Ret (tt, p') /\ inv [] [] p' /\
    (tight -> (forall a, gapless p a) -> (forall a, ready_at p a \/ a ∈ addrs /\ is_Some (tp_pending p !! a)) -> ready p').
Proof.
  induction addrs as [|a addrs IH]; intros p H Hne; cbn [forEach].
  { exists p. do 2 (split; [done|]). intros _ _ Hr b. destruct (Hr b) as [?|[Hx _]]; [done|by apply not_elem_of_nil in Hx]. }
  unfold bind. destruct (setPendingNonce_ok p a H Hne) as (p1 & -> & H1 & N1 & S1 & P1 & M1 & R1 & I1 & K1).
  destruct (IH p1 H1 N1) as (p' & -> & H' & R'). exists p'. do 2 (split; [done|]). intros Ht Hg Hr. apply R'; [done|..].
  - intros b. destruct (Hg b) as (e & He & Hs). exists e. rewrite S1. split; [done|]. intros n. by rewrite P1.
  - intros b. destruct (decide (b = a)) as [->|Hb].
    + destruct (tp_pending p !! a) as [l|] eqn:El; [left; apply R1; [done|done|by eexists]|].
      left. destruct (Hr a) as [Ha|[_ [? ?]]]; [|congruence]. by rewrite (I1 eq_refl).
    + destruct (Hr b) as [[A1 A2]|[Hin Hs]].
      * left. unfold ready_at. rewrite S1, M1 by done. split; [done|]. intros n. by rewrite P1.
      * right. apply elem_of_cons in Hin as [->|Hin]; [done|]. split; [done|by apply K1].
Qed.

Lemma reset_ok p fuel oldHead newHead : inv [] [] p -> limits ->
  (forall h, oldHead = Some h -> is_Some (GetBlock (Header_Hash h) (u64 (h_Number h))) /\ (Z.to_nat (u64 (h_Number h)) < fuel)%nat) ->
  is_Some (GetBlock (Header_Hash newHead) (u64 (h_Number newHead))) -> (Z.to_nat (u64 (h_Number newHead)) < fuel)%nat ->
  exists p', reset sender range_ rangeAll rangeAddr prque byHeartbeat config now GetBlock StateAt fuel oldHead newHead p = Ret (tt, p') /\
    inv [] [] p' /\
    (tight -> reinjected GetBlock fuel oldHead newHead = Ret (Some []) ->
      (forall st a, StateAt (h_Root newHead) = Some st -> cs_nonce (tp_state p) a <= cs_nonce st a) -> ready p -> ready p').
Proof.
  intros H L Ho Hn Hf. unfold reset. destruct (reinjected_ok fuel oldHead newHead Ho Hn Hf) as (r & E & Hr). unfold bind at 1. rewrite E. cbn beta iota.
  destruct r as [txs|]; [|by exists p]. destruct (StateAt (h_Root newHead)) as [st|]; [|by exists p].
  unfold bind at 1. unfold modify at 1. cbn beta iota. set (p0 := upd_head _ _ _ p). assert (inv [] [] p0) as H0 by (by destruct H).
  destruct (addTxsLocked_ok p0 txs false H0 (Hr _ eq_refl) L) as (errs & p1 & E1 & [H1 _] & _). unfold bind at 1. rewrite E1. cbn beta iota.
  unfold demoteUnexecutables. unfold bind at 1. unfold bind at 1. unfold get at 1. cbn beta iota.
  destruct (demote_all (rangeAddr (tp_pending p1)) p1 H1) as (p2 & E2 & H2 & G2 & O2 & N2 & M2 & C2). rewrite E2. cbn beta iota.
  assert (forall b l, tp_pending p2 !! b = Some l -> l_Empty l = false) as Hne.
  { intros b l Hb. destruct (decide (b ∈ rangeAddr (tp_pending p1))) as [Hin|Hin]; [by apply (N2 b)|].
    rewrite O2 in Hb by done. exfalso. apply Hin, elem_of_rangeAddr. by eexists. }
  destruct (setPendingNonces_ok (rangeAddr (tp_pending p2)) p2 H2 Hne) as (p3 & E3 & H3 & R3). unfold bind at 1. unfold bind at 1. unfold get at 1. cbn beta iota.
  rewrite E3. cbn beta iota. destruct (promoteExecutables_ok p3 None H3 L) as (p4 & E4 & H4 & _ & R4 & _). rewrite E4. exists p4.
  split; [done|]. split; [done|]. intros Ht [= ->] Hgrow Hrdy. apply R4; [done|]. apply R3; [done|..].
  all: rewrite addTxsLocked_nil in E1; injection E1 as <- <-; pose proof G2 as (G2' & _); cbn in G2'.
  - intros a. assert (covered p0 a) as Hc.
    { destruct (Hrdy a) as [_ A2]. exists (cs_nonce (tp_state p) a), (ms_GetNonce (tp_pendingState p) a). split; [by apply Hgrow|]. exact A2. }
    destruct (C2 a Hc) as [_ Hg]. destruct (decide (a ∈ rangeAddr (tp_pending p0))) as [Hin|Hin]; [by apply Hg|].
    exists (cs_nonce (tp_state p2) a). split; [lia|]. intros n. unfold slot. rewrite O2 by done.
    destruct (tp_pending p0 !! a) as [l|] eqn:El; [exfalso; apply Hin, elem_of_rangeAddr; by eexists|]. split; [by intros [? ?]|lia].
  - intros a. destruct (tp_pending p2 !! a) as [l|] eqn:El; [right; split; [apply elem_of_rangeAddr; by eexists|by eexists]|left].
    unfold ready_at. rewrite G2', M2. cbn. unfold ms_GetNonce, ManageState. cbn. rewrite lookup_empty. split; [lia|].
    intros n. unfold slot. rewrite El. split; [by intros [? ?]|lia].
Qed.
End spec.
