(* ===== verification/EvmTheorems.v ===== *)
(** * Theorems about the machine

    The call operations of [core/vm/evm.go] with the interpreter of
    [core/vm/interpreter.go] behind them: they always return, they are undone
    when they fail, they create no value, static calls observe only, and the
    fuel of the model does not matter.  Each theorem is applied to the concrete
    instance of [Sample]. *)

From Stdlib Require Import ZArith Lia Bool.
From S2P Require Import Prelude GoMath Params VmStack VmMemory Opcodes Analysis StateInterface StateDB JournalSpec World Machine Gas Instructions.
From S2P Require Import JumpTable Precompiles Interpreter EvmInv ExecSafe ExecFlow TableSafe EvmSafe CallSafe Sample.
Local Open Scope Z_scope.
Local Open Scope go_scope.

(** ** More fuel never changes a result

    The fuel of [loop] is an artefact of the model.  In the order in which
    running out of fuel is below everything, every definition between two
    iterations is monotone in the interpreter it calls back, so [loop] is
    monotone in its fuel: once it returns, more fuel returns the same. *)

(** ** The order *)

Definition out_le {A} (o o' : outcome A) : Prop := o = OutOfFuel \/ o = o'.
Definition m_le {St A} (m m' : M St A) : Prop := forall s, out_le (m s) (m' s).

#[export] Instance m_le_preorder {St A} : PreOrder (@m_le St A).
Proof.
  split; [by intros m s; right|]. intros m1 m2 m3 H1 H2 s.
  destruct (H1 s) as [|E]; [by left|]. unfold out_le. rewrite E. apply H2.
Qed.

Lemma bind_le {St A B} (m m' : M St A) (k k' : A -> M St B) :
  m_le m m' -> (forall a, m_le (k a) (k' a)) -> m_le (bind m k) (bind m' k').
Proof.
  intros Hm Hk s. unfold bind. destruct (Hm s) as [-> | ->]; [by left|].
  destruct (m' s) as [[a s']| |]; [apply Hk|by right|by left].
Qed.

Lemma zoom_le {B A X} (g : B -> A) (st : A -> B -> B) (m m' : M A X) :
  m_le m m' -> m_le (zoom g st m) (zoom g st m').
Proof. intros H s. unfold zoom. destruct (H (g s)) as [-> | ->]; [by left|by right]. Qed.

Lemma m_le_Ret {St A} (m m' : M St A) s x :
  m_le m m' -> m s = Ret x -> m' s = Ret x.
Proof. intros H E. destruct (H s) as [E'|E']; congruence. Qed.

(** Walk down both sides of the order, through binds and case distinctions. *)
Ltac mono :=
  repeat match goal with
  | |- m_le ?m ?m => reflexivity
  | H : forall _, _ |- m_le _ _ => solve [apply H]
  | |- m_le (bind _ _) (bind _ _) => apply bind_le; [|intros ?]
  | |- m_le (zoom _ _ _) (zoom _ _ _) => apply zoom_le
  | |- m_le (match ?x with _ => _ end) _ => destruct x
  end.

Section mono.
Context {C : Crypto} {S : Type} `{SDB : !StateDB S}.
Implicit Types (env : Env S) (calls : Calls S) (interp : Interp (S := S)).

Record calls_le calls calls' : Prop := {
  le_Call a b c d e : m_le (evm_Call calls a b c d e) (evm_Call calls' a b c d e);
  le_CallCode a b c d e : m_le (evm_CallCode calls a b c d e) (evm_CallCode calls' a b c d e);
  le_DelegateCall a b c d :
    m_le (evm_DelegateCall calls a b c d) (evm_DelegateCall calls' a b c d);
  le_StaticCall a b c d : m_le (evm_StaticCall calls a b c d) (evm_StaticCall calls' a b c d);
  le_Create a b c d : m_le (evm_Create calls a b c d) (evm_Create calls' a b c d)
}.

Definition exec_mono (x : executionFunc (S := S)) : Prop :=
  forall env calls calls', calls_le calls calls' -> m_le (x env calls) (x env calls').

(** ** The jump tables *)

(** An instruction that makes no calls. *)
Lemma exec_mono_const (x : executionFunc (S := S)) :
  (forall env calls calls', x env calls = x env calls') -> exec_mono x.
Proof. intros H env calls calls' _. by rewrite (H env calls calls'). Qed.

Lemma opCreate_mono : exec_mono opCreate.
Proof. intros env calls calls' [? ? ? ? HC]. unfold opCreate, onEVM. mono. Qed.
Lemma opCall_mono : exec_mono opCall.
Proof. intros env calls calls' [HC ? ? ? ?]. unfold opCall, onEVM. mono. Qed.
Lemma opCallCode_mono : exec_mono opCallCode.
Proof. intros env calls calls' [? HC ? ? ?]. unfold opCallCode, onEVM. mono. Qed.
Lemma opDelegateCall_mono : exec_mono opDelegateCall.
Proof. intros env calls calls' [? ? HC ? ?]. unfold opDelegateCall, onEVM. mono. Qed.
Lemma opStaticCall_mono : exec_mono opStaticCall.
Proof. intros env calls calls' [? ? ? HC ?]. unfold opStaticCall, onEVM. mono. Qed.

Definition table_mono (t : JumpTable S) : Prop := forall op, exec_mono (op_execute (t op)).

Lemma overwrite_mono t op o :
  table_mono t -> exec_mono (op_execute o) -> table_mono (overwrite t op o).
Proof. intros Ht Ho op'. unfold overwrite. by destruct (_ =? _). Qed.

Abbreviation entry_mono := (fun en : Z * operation S => exec_mono (op_execute en.2)) (only parsing).

Ltac mono_entry :=
  first [ by apply exec_mono_const | apply opCreate_mono | apply opCall_mono
        | apply opCallCode_mono | apply opDelegateCall_mono | apply opStaticCall_mono ].

Lemma frontier_entries_mono : Forall entry_mono frontier_entries.
Proof.
  unfold frontier_entries. rewrite !Forall_app.
  repeat split;
    try (apply Forall_map, Forall_forall; intros i _; by apply exec_mono_const);
    repeat (apply Forall_cons; split; [mono_entry|]); done.
Qed.

Lemma newFrontierInstructionSet_mono : table_mono newFrontierInstructionSet.
Proof.
  intros op. unfold newFrontierInstructionSet, tableOf.
  destruct (find _ _) as [en|] eqn:E; [|by apply exec_mono_const].
  apply find_some in E as [Hin _]. pose proof frontier_entries_mono as H.
  rewrite Forall_forall in H. by apply H, list_elem_of_In.
Qed.

Lemma jumpTable_mono env : table_mono (jumpTable env).
Proof.
  unfold jumpTable, newConstantinopleInstructionSet, newByzantiumInstructionSet,
    newHomesteadInstructionSet. cbv zeta.
  repeat split_if; repeat (apply overwrite_mono; [|mono_entry]);
    apply newFrontierInstructionSet_mono.
Qed.

Lemma step_mono env calls calls' :
  calls_le calls calls' -> m_le (step env calls) (step env calls').
Proof.
  intros H. unfold step. mono. by apply jumpTable_mono.
Qed.

(** ** Run and the call operations *)

Definition interp_le interp interp' : Prop :=
  forall c input, m_le (interp c input) (interp' c input).

Lemma Run_mono body body' : m_le body body' -> interp_le (Run body) (Run body').
Proof.
  intros H c input. unfold Run. mono. intros e. unfold out_le.
  destruct (H (mkFrame 0 e (with_input c input) NewMemory newstack)) as [-> | ->];
    [by left|by right].
Qed.

Lemma run_mono env interp interp' :
  interp_le interp interp' -> interp_le (run env interp) (run env interp').
Proof. intros H c input. unfold run. mono. apply H. Qed.

Lemma runOrRevert_mono env interp interp' id c input :
  interp_le interp interp' ->
  m_le (runOrRevert env interp id c input) (runOrRevert env interp' id c input).
Proof.
  intros H%(run_mono env). unfold runOrRevert. mono. apply H.
Qed.

Section call_operations.
Context (env : Env S) (interp interp' : Interp (S := S)) (H : interp_le interp interp').

Lemma Call_mono a b c d e : m_le (Call env interp a b c d e) (Call env interp' a b c d e).
Proof. unfold Call. mono. by apply runOrRevert_mono. Qed.
Lemma CallCode_mono a b c d e :
  m_le (CallCode env interp a b c d e) (CallCode env interp' a b c d e).
Proof. unfold CallCode. mono. by apply runOrRevert_mono. Qed.
Lemma DelegateCall_mono a b c d :
  m_le (DelegateCall env interp a b c d) (DelegateCall env interp' a b c d).
Proof. unfold DelegateCall. mono. by apply runOrRevert_mono. Qed.
Lemma StaticCall_mono a b c d :
  m_le (StaticCall env interp a b c d) (StaticCall env interp' a b c d).
Proof. unfold StaticCall. mono. by apply runOrRevert_mono. Qed.
Lemma Create_mono a b c d : m_le (Create env interp a b c d) (Create env interp' a b c d).
Proof. unfold Create. mono. by apply run_mono. Qed.

Lemma evmCalls_mono : calls_le (evmCalls env interp) (evmCalls env interp').
Proof.
  split; intros; cbn; [apply Call_mono|apply CallCode_mono|apply DelegateCall_mono
    |apply StaticCall_mono|apply Create_mono].
Qed.
End call_operations.

(** ** The loop *)

Lemma loop_mono env k : forall k', (k <= k')%nat -> m_le (loop k env) (loop k' env).
Proof.
  induction k as [|k IH]; intros k' Hk; [by intros f; left|].
  destruct k' as [|k']; [lia|]. cbn [loop]. specialize (IH k' ltac:(lia)). mono; [|done].
  by apply step_mono, evmCalls_mono, Run_mono.
Qed.

Lemma loop_interp_mono env k k' :
  (k <= k')%nat -> interp_le (Run (loop k env)) (Run (loop k' env)).
Proof. intros. by apply Run_mono, loop_mono. Qed.
End mono.

(** ** Helpers *)

Lemma runs_Ret {St A} (m : M St A) s P a s' : runs m s P -> m s = Ret (a, s') -> P a s'.
Proof. intros (a0 & s0 & E0 & HP) E. rewrite E0 in E. by injection E as <- <-. Qed.

Lemma bind_Ret {St A B} (m : M St A) (k : A -> M St B) s b s' :
  bind m k s = Ret (b, s') -> exists a s1, m s = Ret (a, s1) /\ k a s1 = Ret (b, s').
Proof.
  unfold bind. destruct (m s) as [[a s1]| |]; [|done..]. intros H. by exists a, s1.
Qed.

(** The gas left by [consumeUnlessReverted]. *)
Lemma consume_gas {C : Crypto} err (c : Contract) :
  err <> Some errExecutionReverted -> c_Gas (consumeUnlessReverted err c) = 0.
Proof.
  intros H. unfold consumeUnlessReverted, UseGas. rewrite bool_decide_eq_false_2 by done.
  by rewrite Z.ltb_irrefl, Z.sub_diag.
Qed.

Section evm.
Context {C : Crypto} {S : Type} `{SDB : !StateDB S} {SPEC : StateDBSpec S}.
Context {CS : CryptoSizes C} {CI : CodeHashIdeal C}.
Implicit Types (env : Env S) (e : EVMState S).

(** The promise of an operation with the rest of the state spelled out. *)
Lemma post_total env e gas r e' :
  call_post env e gas r e' ->
  evm_ok e' /\ 0 <= cr_gas r <= gas /\ e_depth e' = e_depth e /\
  e_readOnly e' = e_readOnly e /\ exists l, e_saved e' = e_saved e ++ l.
Proof. intros [A [B1 B2 B3 B4] D _ _]. done. Qed.

Lemma post_supply env e gas r e' :
  evm_ok e -> call_post env e gas r e' ->
  (forall a, 0 <= w_GetBalance (e_view e') a) /\ supply (e_view e') <= supply (e_view e).
Proof. intros Hok [_ [_ _ _ [B _]] _ _ _]. apply B, Hok. Qed.

Lemma runOrRevert_gas env interp id c input e r e' :
  runOrRevert env interp id c input e = Ret (r, e') -> cr_err r <> None ->
  cr_err r = Some errExecutionReverted \/ cr_gas r = 0.
Proof.
  unfold runOrRevert. intros ([[d err] c'] & e1 & _ & E)%bind_Ret. destruct err as [err|].
  - apply bind_Ret in E as ([] & e2 & _ & E). injection E as <- _. cbn. intros _.
    destruct (decide (Some err = Some errExecutionReverted)); [by left|right].
    by apply consume_gas.
  - by injection E as <- _.
Qed.

(** C1: a message call always returns.  From a well-formed EVM, a call to any
    address with any input, any covered or uncovered value and less than 2^60
    gas neither panics nor runs forever: it returns at most the gas it was
    given, the depth and the read-only mode are as before, the snapshots the
    caller has taken are still valid, and the EVM is well-formed. *)
Theorem evm_call_returns env e caller addr input gas value :
  env_ok env -> evm_ok e -> ref_ok caller -> is_addr addr -> short input ->
  is_word value -> 0 <= gas < gas_limit -> (static env e = true -> value = 0) ->
  exists r e', EVM_Call env caller addr input gas value e = Ret (r, e') /\
    evm_ok e' /\ 0 <= cr_gas r <= gas /\ e_depth e' = e_depth e /\
    e_readOnly e' = e_readOnly e /\ exists l, e_saved e' = e_saved e ++ l.
Proof.
  intros He Hok Hr Ha Hi Hv Hg Hs.
  destruct (EVM_Call_ok env e caller gas He Hok Hr Hg addr input value) as (r & e' & E & Hp & _);
    [done..|]. exists r, e'. split; [done|]. by eapply post_total.
Qed.

(** C2: a call that fails has no effect.  Whatever the called code has done in
    the meantime, nested calls and contract creations included, the accounts,
    storage, logs, refund counter and preimages after a failed [Call] are those
    before it. *)
Theorem failed_call_has_no_effect env e caller addr input gas value r e' :
  env_ok env -> evm_ok e -> ref_ok caller -> is_addr addr -> short input ->
  is_word value -> 0 <= gas < gas_limit -> (static env e = true -> value = 0) ->
  EVM_Call env caller addr input gas value e = Ret (r, e') -> cr_err r <> None ->
  e_view e' = e_view e.
Proof.
  intros He Hok Hr Ha Hi Hv Hg Hs E.
  by apply (runs_Ret _ _ _ _ _ (EVM_Call_ok env e caller gas He Hok Hr Hg addr input value
    Ha Hi Hv Hs) E).
Qed.

(** C3: no call creates value.  After a [Call] every balance is non-negative
    and the sum of all balances is at most what it was (it goes down when a
    contract destroys itself in favour of itself). *)
Theorem call_creates_no_value env e caller addr input gas value r e' :
  env_ok env -> evm_ok e -> ref_ok caller -> is_addr addr -> short input ->
  is_word value -> 0 <= gas < gas_limit -> (static env e = true -> value = 0) ->
  EVM_Call env caller addr input gas value e = Ret (r, e') ->
  (forall a, 0 <= w_GetBalance (e_view e') a) /\ supply (e_view e') <= supply (e_view e).
Proof.
  intros He Hok Hr Ha Hi Hv Hg Hs E. eapply post_supply; [done|].
  by apply (runs_Ret _ _ _ _ _ (EVM_Call_ok env e caller gas He Hok Hr Hg addr input value
    Ha Hi Hv Hs) E).
Qed.

(** C4: a static call changes nothing that can be observed.  From Byzantium on,
    [StaticCall] always returns, and whether it succeeds or not every account
    (nonce, balance, code, storage, suicide flag), the logs and the refund
    counter are as before. *)
Theorem static_call_observes_only env e caller addr input gas :
  env_ok env -> evm_ok e -> ref_ok caller -> is_addr addr -> short input ->
  0 <= gas < gas_limit -> rules_IsByzantium (env_rules env) = true ->
  exists r e', EVM_StaticCall env caller addr input gas e = Ret (r, e') /\
    same_obs (e_view e) (e_view e') /\ e_readOnly e' = e_readOnly e /\
    0 <= cr_gas r <= gas.
Proof.
  intros He Hok Hr Ha Hi Hg Hb.
  destruct (EVM_StaticCall_ok env e caller gas He Hok Hr Hg addr input)
    as (r & e' & E & Hp & _ & Ho); [done..|].
  exists r, e'. split; [done|]. split; [by apply Ho|]. by apply post_total in Hp as (_ & ? & _ & ? & _).
Qed.

(** C5: a contract creation always returns and creates no value; when it fails,
    the world is as before, or only the creator's nonce has gone up, or (before
    Homestead only) the code could not be paid for and the account stays
    without it. *)
Theorem create_returns_and_rolls_back env e caller code gas value :
  env_ok env -> evm_ok e -> ref_ok caller -> short code -> is_word value ->
  0 <= gas < gas_limit -> static env e = false ->
  exists r a e', EVM_Create env caller code gas value e = Ret ((r, a), e') /\
    is_addr a /\ 0 <= cr_gas r <= gas /\ supply (e_view e') <= supply (e_view e) /\
    create_atomic env (ref_Address caller) e r e'.
Proof.
  intros He Hok Hr Hi Hv Hg Hs.
  destruct (EVM_Create_ok env e caller gas He Hok Hr Hg code value)
    as ([r a] & e' & E & Hp & Ha & Hat); [done..|].
  exists r, a, e'. split; [done|]. split; [done|]. split; [apply Hp|]. split; [|done].
  by eapply (post_supply env e gas r e').
Qed.

(** [CallCode] and [DelegateCall] always return, and are undone when they
    fail. *)
Theorem code_calls_return_and_roll_back env e self ca v d addr input gas value :
  env_ok env -> evm_ok e -> ref_ok (ContractPtr self ca v d) -> is_addr addr ->
  short input -> is_word value -> 0 <= gas < gas_limit ->
  (exists r e', EVM_CallCode env (ContractPtr self ca v d) addr input gas value e = Ret (r, e') /\
     0 <= cr_gas r <= gas /\ (cr_err r <> None -> e_view e' = e_view e)) /\
  (exists r e', EVM_DelegateCall env (ContractPtr self ca v d) addr input gas e = Ret (r, e') /\
     0 <= cr_gas r <= gas /\ (cr_err r <> None -> e_view e' = e_view e)).
Proof.
  intros He Hok Hr Ha Hi Hv Hg. split.
  - destruct (EVM_CallCode_ok env e _ gas He Hok Hr Hg addr input value)
      as (r & e' & E & Hp & Hat); [done..|].
    exists r, e'. split; [done|]. split; [apply Hp|done].
  - destruct (EVM_DelegateCall_ok env e _ gas He Hok Hr Hg addr input)
      as (r & e' & E & Hp & Hat); [by eauto 6..|].
    exists r, e'. split; [done|]. split; [apply Hp|done].
Qed.

(** The fuel of the model is enough and has no influence: with any fuel
    above the gas of the call, the result is that of [EVM_Call]. *)
Theorem call_result_independent_of_fuel env e caller addr input gas value fuel :
  env_ok env -> evm_ok e -> ref_ok caller -> is_addr addr -> short input ->
  is_word value -> 0 <= gas < gas_limit -> (static env e = true -> value = 0) ->
  gas < Z.of_nat fuel ->
  Call env (Run (loop fuel env)) caller addr input gas value e =
    EVM_Call env caller addr input gas value e.
Proof.
  intros He Hok Hr Ha Hi Hv Hg Hs Hf.
  destruct (EVM_Call_ok env e caller gas He Hok Hr Hg addr input value) as (r & e' & E & _);
    [done..|]. rewrite E. revert E. apply m_le_Ret, Call_mono, loop_interp_mono.
  unfold gasFuel. lia.
Qed.

(** What a failed call costs.  A call that fails has used up all its gas,
    unless the code reverted, or the call was refused before any code ran (too
    deep, or the value is not covered), which costs nothing. *)
Theorem failed_call_consumes_gas env interp e caller addr input gas value r e' :
  Call env interp caller addr input gas value e = Ret (r, e') -> cr_err r <> None ->
  cr_gas r = 0 \/ cr_err r = Some errExecutionReverted \/
  (cr_gas r = gas /\ (cr_err r = Some ErrDepth \/ cr_err r = Some ErrInsufficientBalance)).
Proof.
  unfold Call. intros (e0 & e1 & [= <- <-] & E)%bind_Ret Hne.
  destruct (env_NoRecursion env && _); [by injection E as <- _|].
  destruct (e_depth e >? CallCreateDepth).
  { injection E as <- _. right. right. split; [done|by left]. }
  apply bind_Ret in E as (can & e2 & _ & E).
  destruct (negb can). { injection E as <- _. right. right. split; [done|by right]. }
  apply bind_Ret in E as (id & e3 & _ & E). apply bind_Ret in E as (ex & e4 & _ & E).
  destruct (negb ex && _ && _ && _); [by injection E as <- _|].
  apply bind_Ret in E as (u & e5 & _ & E). apply bind_Ret in E as (u' & e6 & _ & E).
  apply bind_Ret in E as (c & e7 & _ & E).
  destruct (runOrRevert_gas _ _ _ _ _ _ _ _ E Hne); [right; by left|by left].
Qed.

(** C10: every iteration makes progress.  From a well-formed frame, an
    iteration of the interpreter loop neither panics nor blocks; it ends the
    frame, or leaves a well-formed frame (words on the stack, at most 1024 of
    them, the program counter within the code or just behind it) with strictly
    less gas. *)
Theorem iteration_makes_progress env calls bound f :
  env_ok env -> calls_ok env bound calls -> loop_frame f ->
  c_Gas (f_contract f) <= bound + 1 ->
  exists o f', step env calls f = Ret (o, f') /\ evm_ok (f_evm f') /\
    evm_step env (f_evm f) (f_evm f') /\
    (o = None -> loop_frame f' /\ c_Gas (f_contract f') < c_Gas (f_contract f)).
Proof.
  intros He Hc Hf Hb. destruct (step_ok env calls bound f) as (o & f' & E & [A B _ D]); [done..|].
  exists o, f'. split; [done|]. split; [done|]. split; [done|]. by intros ->.
Qed.

(** Jumps land on instructions only.  [JUMP], and [JUMPI] with a non-zero
    condition, continue at their operand when that is the position of a JUMPDEST
    instruction (not of a push argument), and are an error otherwise; [JUMPI]
    with a zero condition goes on behind itself. *)
Theorem jump_lands_on_jumpdest env calls pc e c m pos cond st :
  contract_ok c -> c_Code c <> [] -> is_word pos -> 0 <= pc < zlen (c_Code c) ->
  exists d', cache_good d' /\
    (valid_jumpdest (c_Code c) pos ->
     opJump env calls (mkFrame pc e c m (pos :: st)) =
       Ret (([], None), mkFrame pos e (with_jumpdests c d') m st)) /\
    (~ valid_jumpdest (c_Code c) pos ->
     opJump env calls (mkFrame pc e c m (pos :: st)) =
       Ret (([], Some (errInvalidJump (GetOp c (Uint64 pos)) pos)),
            mkFrame pc e (with_jumpdests c d') m st)) /\
    opJumpi env calls (mkFrame pc e c m (pos :: cond :: st)) =
      if cond =? 0 then Ret (([], None), mkFrame (pc + 1) e c m st)
      else opJump env calls (mkFrame pc e c m (pos :: st)).
Proof.
  intros Hc Hne Hp Hpc. destruct (jumpTo_eq pc e c m st pos Hc Hne Hp) as (d' & Hd & Hj).
  assert (opJump env calls (mkFrame pc e c m (pos :: st)) = jumpTo pos (mkFrame pc e c m st)) as Ej
    by done.
  exists d'. split; [done|]. rewrite Ej. split; [|split].
  - intros Hv. by destruct Hj as [[_ ?]|[? _]].
  - intros Hv. by destruct Hj as [[? _]|[_ ?]].
  - pose proof (c_ok_Code _ Hc) as Hs. unfold short in Hs. rewrite <- Ej.
    unfold opJumpi, opJump, bind. rewrite !s_pop_eq. destruct (cond =? 0); [|done].
    cbn. by rewrite u64_small by (unfold is_u64; lia).
Qed.
End evm.

(** ** The theorems on the sample *)

(** Calls from account 101 of the sample. *)
Lemma sample_caller : ref_ok (AccountRef (C := sampleCrypto) 101).
Proof. by vm_compute. Qed.

Lemma sample_contract : ref_ok (ContractPtr (C := sampleCrypto) 102 101 (Some 7) ∅).
Proof.
  split; [by vm_compute|]. split; [by vm_compute|]. split; [by exists 7|apply cache_good_empty].
Qed.

Ltac sample :=
  first [ assumption | apply sampleEnv_ok | apply sampleEVM_ok | apply sample_caller | done ].

(** The endless loop of account 104 is stopped by its gas. *)
Lemma evm_call_returns_witness :
  exists r e', EVM_Call sampleEnv (AccountRef 101) 104 [] 3000 7 sampleEVM = Ret (r, e') /\
    0 <= cr_gas r <= 3000.
Proof.
  destruct (evm_call_returns sampleEnv sampleEVM (AccountRef 101) 104 [] 3000 7)
    as (r & e' & E & _ & Hg & _); [sample..|]. exists r, e'. exact (conj E Hg).
Defined.

(** Account 103 writes its storage, receives 7 and reverts. *)
Lemma failed_call_has_no_effect_witness :
  match EVM_Call sampleEnv (AccountRef 101) 103 [] 30000 7 sampleEVM with
  | Ret (r, e') => cr_err r = Some errExecutionReverted /\ e_view e' = e_view sampleEVM
  | _ => False
  end.
Proof.
  assert (errOf (EVM_Call sampleEnv (AccountRef 101) 103 [] 30000 7 sampleEVM) =
    Some (Some errExecutionReverted)) as Hr by (vm_compute; reflexivity).
  destruct (EVM_Call sampleEnv (AccountRef 101) 103 [] 30000 7 sampleEVM) as [[r e']| |] eqn:E;
    [|discriminate..].
  injection Hr as Hr. split; [exact Hr|].
  apply (failed_call_has_no_effect sampleEnv sampleEVM (AccountRef 101) 103 [] 30000 7 r e');
    [sample..|by rewrite Hr].
Defined.

(** Account 102 receives 7 and succeeds. *)
Lemma call_creates_no_value_witness :
  match EVM_Call sampleEnv (AccountRef 101) 102 [] 30000 7 sampleEVM with
  | Ret (r, e') => cr_err r = None /\ supply (e_view e') <= supply (e_view sampleEVM)
  | _ => False
  end.
Proof.
  assert (errOf (EVM_Call sampleEnv (AccountRef 101) 102 [] 30000 7 sampleEVM) = Some None)
    as Hr by (vm_compute; reflexivity).
  destruct (EVM_Call sampleEnv (AccountRef 101) 102 [] 30000 7 sampleEVM) as [[r e']| |] eqn:E;
    [|discriminate..].
  injection Hr as Hr. split; [exact Hr|].
  eapply (call_creates_no_value sampleEnv sampleEVM (AccountRef 101) 102 [] 30000 7 r e'); sample.
Defined.

(** The store of account 102, called statically. *)
Lemma static_call_observes_only_witness :
  exists r e', EVM_StaticCall sampleEnv (AccountRef 101) 102 [] 30000 sampleEVM = Ret (r, e') /\
    same_obs (e_view sampleEVM) (e_view e').
Proof.
  destruct (static_call_observes_only sampleEnv sampleEVM (AccountRef 101) 102 [] 30000)
    as (r & e' & E & Ho & _); [sample..|]. exists r, e'. exact (conj E Ho).
Defined.

(** Init code that reverts. *)
Lemma create_returns_and_rolls_back_witness :
  exists r a e',
    EVM_Create sampleEnv (AccountRef 101) revertProgram 60000 3 sampleEVM = Ret ((r, a), e') /\
    create_atomic sampleEnv 101 sampleEVM r e'.
Proof.
  destruct (create_returns_and_rolls_back sampleEnv sampleEVM (AccountRef 101) revertProgram 60000 3)
    as (r & a & e' & E & _ & _ & _ & Hat); [sample..|].
  exists r, a, e'. exact (conj E Hat).
Defined.

Lemma code_calls_return_and_roll_back_witness :
  exists r e',
    EVM_DelegateCall sampleEnv (ContractPtr 102 101 (Some 7) ∅) 103 [] 30000 sampleEVM = Ret (r, e') /\
    (cr_err r <> None -> e_view e' = e_view sampleEVM).
Proof.
  destruct (code_calls_return_and_roll_back sampleEnv sampleEVM 102 101 (Some 7) ∅ 103 [] 30000 0)
    as (_ & r & e' & E & _ & Hat);
    [apply sampleEnv_ok|apply sampleEVM_ok|apply sample_contract|sample..|].
  exists r, e'. exact (conj E Hat).
Defined.

Lemma call_result_independent_of_fuel_witness :
  Call sampleEnv (Run (loop (gasFuel 90000) sampleEnv)) (AccountRef 101) 102 [] 30000 7 sampleEVM =
    EVM_Call sampleEnv (AccountRef 101) 102 [] 30000 7 sampleEVM.
Proof.
  apply (call_result_independent_of_fuel sampleEnv sampleEVM (AccountRef 101) 102 [] 30000 7);
    [sample..|unfold gasFuel; lia].
Defined.

(** Account 104 runs out of gas. *)
Lemma failed_call_consumes_gas_witness :
  match EVM_Call sampleEnv (AccountRef 101) 104 [] 3000 7 sampleEVM with
  | Ret (r, e') => cr_err r <> None /\ cr_gas r = 0
  | _ => False
  end.
Proof.
  assert (errOf (EVM_Call sampleEnv (AccountRef 101) 104 [] 3000 7 sampleEVM) =
    Some (Some ErrOutOfGas)) as Hr by (vm_compute; reflexivity).
  destruct (EVM_Call sampleEnv (AccountRef 101) 104 [] 3000 7 sampleEVM) as [[r e']| |] eqn:E;
    [|discriminate..].
  injection Hr as Hr. split; [by rewrite Hr|].
  unfold EVM_Call in E.
  destruct (failed_call_consumes_gas sampleEnv (Run (loop (gasFuel 3000) sampleEnv)) sampleEVM
    (AccountRef 101) 104 [] 3000 7 r e' E ltac:(by rewrite Hr)) as [?|[?|[_ [?|?]]]]; congruence.
Defined.

(** The first iteration of the store program. *)
Definition sampleContract : Contract :=
  SetCallCode (NewContract (AccountRef 101) 102 (Some 0) 30000) 102 (Some storeProgram) storeProgram.
Definition sampleFrame : Frame stateDB := mkFrame 0 sampleEVM sampleContract NewMemory newstack.

Lemma sampleContract_ok : contract_ok sampleContract.
Proof. apply NewContract_ok; try done. by right. Qed.

Lemma sampleFrame_ok : loop_frame sampleFrame.
Proof. split; [|done..]. split; [apply sampleEVM_ok|apply sampleContract_ok|done|apply Forall_nil_2]. Qed.

Lemma iteration_makes_progress_witness :
  exists o f', step sampleEnv (evmCalls sampleEnv (Run (loop (gasFuel 30000) sampleEnv)))
      sampleFrame = Ret (o, f') /\
    evm_step sampleEnv sampleEVM (f_evm f').
Proof.
  destruct (iteration_makes_progress sampleEnv
    (evmCalls sampleEnv (Run (loop (gasFuel 30000) sampleEnv))) 30000 sampleFrame)
    as (o & f' & E & _ & Hs & _); [sample| |apply sampleFrame_ok|done|exists o, f'; exact (conj E Hs)].
  apply evmCalls_ok; [sample|by apply interp_loop; [sample|]|done].
Defined.

(** Position 0 of the store program is no JUMPDEST. *)
Lemma jump_lands_on_jumpdest_witness :
  exists d', opJump sampleEnv (evmCalls sampleEnv (Run (loop 1 sampleEnv)))
      (mkFrame 0 sampleEVM sampleContract NewMemory [0]) =
    Ret (([], Some (errInvalidJump PUSH1 0)),
         mkFrame 0 sampleEVM (with_jumpdests sampleContract d') NewMemory []).
Proof.
  destruct (jump_lands_on_jumpdest sampleEnv (evmCalls sampleEnv (Run (loop 1 sampleEnv))) 0
    sampleEVM sampleContract NewMemory 0 1 []) as (d' & _ & _ & H & _);
    [apply sampleContract_ok|done..|].
  exists d'. apply H. intros [_ Hi]. by vm_compute in Hi.
Defined.
