(* ===== verification/ArithTheorems.v ===== *)
(** * Theorems about the arithmetic instructions

    Each instruction of [core/vm/instructions.go] is run on a stack of words
    and its result compared with the mathematical operation it stands for, on
    the unsigned or the two's complement reading of the words. *)

From Stdlib Require Import ZArith Lia Bool.
From S2P Require Import Prelude GoMath Params VmStack VmMemory Opcodes Analysis.
From S2P Require Import StateInterface StateDB JournalSpec World Machine Gas Instructions.
From S2P Require Import JumpTable Precompiles Interpreter EvmInv ExecSafe Sample.
Local Open Scope Z_scope.
Local Open Scope go_scope.

(** ** Values *)

Lemma val_sdiv_quot x y : val_sdiv x y = U256 (Z.quot (S256 x) (S256 y)).
Proof.
  unfold val_sdiv. cbv zeta. set (a := S256 x). set (b := S256 y).
  destruct (_ || _) eqn:E0.
  - apply orb_true_iff in E0 as [E|E]; zbool; apply (proj1 (Z.sgn_null_iff _)) in E; rewrite E.
    + by destruct a.
    + by destruct b.
  - zbool. rewrite Z.quot_div by (intros Hb; by rewrite Hb in *).
    destruct (Z.sgn_spec a) as [[? Ea]|[[? Ea]|[? Ea]]],
      (Z.sgn_spec b) as [[? Eb]|[[? Eb]|[? Eb]]]; rewrite Ea, Eb in *; try done; cbn [negb Z.eqb];
      f_equal; lia.
Qed.

Lemma val_smod_rem x y :
  val_smod x y = if S256 y =? 0 then 0 else U256 (Z.rem (S256 x) (S256 y)).
Proof.
  unfold val_smod. cbv zeta. set (a := S256 x). set (b := S256 y).
  destruct (b =? 0) eqn:Eb; zbool; [by rewrite Eb|].
  replace (Z.sgn b =? 0) with false by (destruct b; done).
  rewrite Z.rem_mod by done.
  destruct (Z.sgn_spec a) as [[? Ea]|[[? Ea]|[? Ea]]]; rewrite Ea; cbn [Z.ltb]; f_equal; try lia.
  replace (Z.abs a) with 0 by lia. by rewrite Z.mod_0_l by lia.
Qed.

(** Comparisons of the two's complement readings. *)
Lemma val_slt_signed x y :
  is_word x -> is_word y -> val_slt x y = bool_word (S256 x <? S256 y).
Proof.
  unfold is_word, val_slt, S256, tt255, tt256. intros Hx Hy.
  destruct (x >=? 2 ^ 255) eqn:Ex, (y >=? 2 ^ 255) eqn:Ey; zbool; cbn [andb negb];
    repeat split_if; try lia; unfold bool_word; split_if; try split_if; lia.
Qed.

Lemma val_sgt_signed x y :
  is_word x -> is_word y -> val_sgt x y = bool_word (S256 y <? S256 x).
Proof.
  unfold is_word, val_sgt, S256, tt255, tt256. intros Hx Hy.
  destruct (x >=? 2 ^ 255) eqn:Ex, (y >=? 2 ^ 255) eqn:Ey; zbool; cbn [andb negb];
    repeat split_if; try lia; unfold bool_word; split_if; try split_if; lia.
Qed.

(** *** Sign extension *)

(** The low [t + 1] bits of [z] read as two's complement. *)
Definition signed_bits (t z : Z) : Z := (z + 2 ^ t) mod 2 ^ (t + 1) - 2 ^ t.

Lemma land_ones_low z t : 0 <= t -> Z.land z (Z.shiftl 1 t - 1) = z mod 2 ^ t.
Proof.
  intros Ht. rewrite Z.shiftl_1_l, Z.sub_1_r, <- Z.ones_equiv. by apply Z.land_ones.
Qed.

Lemma signed_bits_clear t z :
  0 <= t -> Z.testbit z t = false -> signed_bits t z = z mod 2 ^ t.
Proof.
  intros Ht Hb. unfold signed_bits. pose proof (Z.pow_pos_nonneg 2 t ltac:(lia) Ht) as Hp.
  apply Z.testbit_false in Hb; [|done]. rewrite Z.pow_add_r by lia. change (2 ^ 1) with 2.
  pose proof (Z.div_mod z (2 ^ t) ltac:(lia)) as Hz.
  pose proof (Z.mod_pos_bound z (2 ^ t) ltac:(lia)) as Hm.
  pose proof (Z.div_mod (z / 2 ^ t) 2 ltac:(lia)) as Hq. rewrite Hb in Hq.
  rewrite <- (Z.mod_unique_pos (z + 2 ^ t) (2 ^ t * 2) (z / 2 ^ t / 2) (z mod 2 ^ t + 2 ^ t));
    nia.
Qed.

Lemma signed_bits_set t z :
  0 <= t -> Z.testbit z t = true -> signed_bits t z = z mod 2 ^ t - 2 ^ t.
Proof.
  intros Ht Hb. unfold signed_bits. pose proof (Z.pow_pos_nonneg 2 t ltac:(lia) Ht) as Hp.
  apply Z.testbit_true in Hb; [|done]. rewrite Z.pow_add_r by lia. change (2 ^ 1) with 2.
  pose proof (Z.div_mod z (2 ^ t) ltac:(lia)) as Hz.
  pose proof (Z.mod_pos_bound z (2 ^ t) ltac:(lia)) as Hm.
  pose proof (Z.div_mod (z / 2 ^ t) 2 ltac:(lia)) as Hq. rewrite Hb in Hq.
  rewrite <- (Z.mod_unique_pos (z + 2 ^ t) (2 ^ t * 2) (z / 2 ^ t / 2 + 1) (z mod 2 ^ t));
    nia.
Qed.

(** Setting the bits from [t] on: [num | ^mask]. *)
Lemma lor_lnot_mask z t :
  0 <= t -> Z.lor z (Z.lnot (Z.shiftl 1 t - 1)) = z mod 2 ^ t - 2 ^ t.
Proof.
  intros Ht. pose proof (Z.sub_lor_l_same_r z (Z.lnot (Z.shiftl 1 t - 1))) as H.
  rewrite Z.lnot_involutive, land_ones_low in H by done.
  unfold Z.lnot in H at 2.
  rewrite Z.shiftl_1_l in H at 2. rewrite <- H, Z.shiftl_1_l. lia.
Qed.

Lemma val_signextend_spec back num :
  0 <= back < 31 -> is_word num ->
  S256 (val_signextend back num) = signed_bits (8 * back + 7) num.
Proof.
  intros Hb Hn. unfold val_signextend. cbv zeta. rewrite Uint64_small by lia.
  rewrite u64_small by (unfold is_u64; lia).
  replace (back * 8 + 7) with (8 * back + 7) by lia. set (t := 8 * back + 7).
  assert (0 <= t) as Ht by lia.
  assert (2 ^ t <= 2 ^ 255) as Hp by (apply Z.pow_le_mono_r; lia).
  pose proof (Z.mod_pos_bound num (2 ^ t) ltac:(apply Z.pow_pos_nonneg; lia)).
  destruct (Z.testbit num t) eqn:Et.
  - rewrite lor_lnot_mask, signed_bits_set by done. apply S256_U256. lia.
  - rewrite land_ones_low, signed_bits_clear by done. apply S256_U256. lia.
Qed.

(** *** Shifts *)

Lemma val_shl_spec shift v :
  is_word shift -> is_word v -> val_shl shift v = (v * 2 ^ shift) mod 2 ^ 256.
Proof.
  intros Hs Hv. unfold val_shl. cbv zeta. rewrite !(U256_small shift), !(U256_small v) by done.
  destruct (shift >=? 256) eqn:E; zbool.
  - replace shift with (256 + (shift - 256)) by lia. rewrite Z.pow_add_r by lia.
    rewrite Z.mul_comm, <- Z.mul_assoc, Z.mul_comm. by rewrite Z_mod_mult.
  - unfold is_word in *. rewrite Uint64_small by lia. by rewrite U256_mod, Z.shiftl_mul_pow2 by lia.
Qed.

Lemma val_shr_spec shift v :
  is_word shift -> is_word v -> val_shr shift v = v / 2 ^ shift.
Proof.
  intros Hs Hv. unfold val_shr. cbv zeta. rewrite !(U256_small shift), !(U256_small v) by done.
  unfold is_word in *. destruct (shift >=? 256) eqn:E; zbool.
  - symmetry. apply Z.div_small. split; [lia|]. eapply Z.lt_le_trans; [apply Hv|].
    apply Z.pow_le_mono_r; lia.
  - rewrite Uint64_small, Z.shiftr_div_pow2 by lia. apply U256_small. unfold is_word.
    assert (0 < 2 ^ shift) by (apply Z.pow_pos_nonneg; lia).
    split; [apply Z.div_pos; lia|]. apply Z.div_lt_upper_bound; nia.
Qed.

Lemma val_sar_spec shift v :
  is_word shift -> is_word v -> shift < 256 \/ v <> 0 ->
  S256 (val_sar shift v) = S256 v / 2 ^ shift.
Proof.
  intros Hs Hv Hne. unfold val_sar. cbv zeta. rewrite !(U256_small shift) by done.
  pose proof (S256_range v Hv) as Hr. assert (v <> 0 -> S256 v <> 0) as Hz.
  { unfold is_word in *. unfold S256, tt255, tt256. split_if; lia. }
  unfold is_word in *. assert (0 < 2 ^ shift) as Hp by (apply Z.pow_pos_nonneg; lia).
  destruct (shift >=? 256) eqn:E; zbool.
  - assert (2 ^ 256 <= 2 ^ shift) by (apply Z.pow_le_mono_r; lia).
    destruct (Z.sgn_spec (S256 v)) as [[? ->]|[[? _]|[? ->]]]; [| lia |].
    + change (1 >? 0) with true. cbv iota. by rewrite Z.div_small, S256_U256 by lia.
    + replace (if _ >? 0 then U256 0 else U256 (-1)) with (U256 (-1)) by done.
      rewrite S256_U256 by lia. apply (Z.div_unique _ _ _ (S256 v + 2 ^ shift)); lia.
  - rewrite Uint64_small, Z.shiftr_div_pow2 by lia. apply S256_U256.
    split; [apply Z.div_le_lower_bound; nia|]. apply Z.div_lt_upper_bound; nia.
Qed.

(** ** The instructions *)

Section instructions.
Context {C : Crypto} {S : Type} `{SDB : !StateDB S}.
Context (env : Env S) (calls : Calls S) (pc : Z) (e : EVMState S) (c : Contract) (m : Memory).

(** The instruction [op] replaces the operands [xs] by the result [r]. *)
Definition computes (op : executionFunc (S := S)) (xs : list Z) (r : Z) : Prop :=
  forall st, op env calls (mkFrame pc e c m (xs ++ st)) =
    Ret (([], None), mkFrame pc e c m (r :: st)).

Lemma binop_computes f x y : computes (binop f) [x; y] (f x y).
Proof. by intros st. Qed.
Lemma binop_push_computes f x y : computes (binop_push f) [x; y] (f x y).
Proof. by intros st. Qed.
Lemma ternop_push_computes f x y z : computes (ternop_push f) [x; y; z] (f x y z).
Proof. by intros st. Qed.

(** SDIV and SMOD are division towards zero and its remainder on the two's
    complement readings, wrapped to 256 bits ([-2^255 / -1] is [-2^255]);
    division by zero gives zero. *)
Theorem signed_division x y :
  exists q r, computes opSdiv [x; y] q /\ computes opSmod [x; y] r /\
    q = U256 (Z.quot (S256 x) (S256 y)) /\
    r = (if S256 y =? 0 then 0 else U256 (Z.rem (S256 x) (S256 y))).
Proof.
  exists (val_sdiv x y), (val_smod x y). split; [apply binop_push_computes|].
  split; [apply binop_push_computes|]. split; [apply val_sdiv_quot|apply val_smod_rem].
Qed.

(** SLT and SGT compare the two's complement readings. *)
Theorem signed_comparison x y :
  is_word x -> is_word y ->
  computes opSlt [x; y] (if S256 x <? S256 y then 1 else 0) /\
  computes opSgt [x; y] (if S256 y <? S256 x then 1 else 0).
Proof.
  intros Hx Hy. fold (bool_word (S256 x <? S256 y)). fold (bool_word (S256 y <? S256 x)).
  rewrite <- (val_slt_signed x y), <- (val_sgt_signed x y) by done.
  split; apply binop_computes.
Qed.

(** SIGNEXTEND reads the low bytes of its operand, [back + 1] of them, as a
    two's complement number; from [back = 31] on the word is left as it is. *)
Theorem sign_extension back num :
  is_word back -> is_word num ->
  exists r, computes opSignExtend [back; num] r /\
    (back < 31 -> S256 r = signed_bits (8 * back + 7) num) /\ (31 <= back -> r = num).
Proof.
  intros Hb Hn. unfold is_word in Hb. unfold computes, opSignExtend.
  destruct (Z.lt_ge_cases back 31).
  - exists (val_signextend back num). split; [|split; [|lia]].
    + intros st. unfold bind at 1. cbn [app]. rewrite s_pop_eq.
      by replace (back <? 31) with true by lia.
    + intros _. apply val_signextend_spec; [lia|done].
  - exists num. split; [|split; [lia|done]]. intros st. unfold bind at 1. cbn [app].
    rewrite s_pop_eq. by replace (back <? 31) with false by lia.
Qed.

(** EXP is exponentiation modulo 2^256, computed by square-and-multiply
    over the machine words of the exponent. *)
Theorem exponentiation base exponent :
  0 <= exponent -> computes opExp [base; exponent] (base ^ exponent mod 2 ^ 256).
Proof. intros He. rewrite <- Exp_pow by done. apply binop_push_computes. Qed.

(** SHL multiplies by a power of two modulo 2^256, SHR divides by it, SAR
    divides the two's complement reading rounding down; SAR is the operation of
    EIP-145 except for the operand 0 shifted by 256 or more. *)
Theorem shifts shift v :
  is_word shift -> is_word v ->
  computes opSHL [shift; v] ((v * 2 ^ shift) mod 2 ^ 256) /\
  computes opSHR [shift; v] (v / 2 ^ shift) /\
  exists r, computes opSAR [shift; v] r /\
    (shift < 256 \/ v <> 0 -> S256 r = S256 v / 2 ^ shift).
Proof.
  intros Hs Hv. rewrite <- (val_shl_spec shift v), <- (val_shr_spec shift v) by done.
  split; [apply binop_computes|]. split; [apply binop_computes|].
  exists (val_sar shift v). split; [apply binop_push_computes|by apply val_sar_spec].
Qed.

(** SAR of zero by 256 or more gives the all-ones word, not zero: the test
    is [value.Sign() > 0], which zero does not pass. *)
Theorem sar_of_zero_is_minus_one shift :
  is_word shift -> 256 <= shift -> computes opSAR [shift; 0] (2 ^ 256 - 1).
Proof.
  intros Hs Hge. replace (2 ^ 256 - 1) with (val_sar shift 0); [apply binop_push_computes|].
  unfold val_sar. cbv zeta. rewrite U256_small by done.
  by replace (shift >=? 256) with true by lia.
Qed.

(** BYTE extracts the [th] most significant byte of the 32, ADDMOD and
    MULMOD work without the wrap-around of their intermediate result. *)
Theorem byte_and_modular x y z :
  is_word x -> is_word y -> is_word z ->
  computes opByte [x; y] (if x <? 32 then y / 256 ^ (31 - x) mod 256 else 0) /\
  computes opAddmod [x; y; z] (if z =? 0 then 0 else (x + y) mod z) /\
  computes opMulmod [x; y; z] (if z =? 0 then 0 else (x * y) mod z).
Proof.
  intros Hx Hy Hz. unfold is_word in *.
  assert (forall n, U256 (n mod z) = n mod z \/ z = 0) as Hm.
  { intros n. destruct (Z.eq_dec z 0); [by right|left]. apply U256_small.
    pose proof (Z.mod_pos_bound n z ltac:(lia)). unfold is_word. lia. }
  split; [|split].
  - replace (if x <? 32 then _ else 0) with (val_byte x y); [apply binop_computes|].
    unfold val_byte. split_if; [|done]. rewrite Int64_small by lia. apply Byte__spec; lia.
  - replace (if z =? 0 then _ else _) with (val_addmod x y z); [apply ternop_push_computes|].
    unfold val_addmod. destruct (Hm (x + y)) as [-> | ->]; [|done].
    by destruct (z =? 0) eqn:E, (z >? 0) eqn:E'; zbool; try lia.
  - replace (if z =? 0 then _ else _) with (val_mulmod x y z); [apply ternop_push_computes|].
    unfold val_mulmod. destruct (Hm (x * y)) as [-> | ->]; [|done].
    by destruct (z =? 0) eqn:E, (z >? 0) eqn:E'; zbool; try lia.
Qed.
End instructions.

(** ** The theorems on the sample *)

Definition sampleCalls : Calls stateDB := evmCalls sampleEnv (Run (loop 1 sampleEnv)).
Definition sampleStart : Contract := NewContract (AccountRef 101) 102 (Some 0) 100.

(** [-1 < 2]. *)
Lemma signed_comparison_witness :
  computes sampleEnv sampleCalls 0 sampleEVM sampleStart NewMemory opSlt [2 ^ 256 - 1; 2] 1.
Proof.
  apply (signed_comparison sampleEnv sampleCalls 0 sampleEVM sampleStart NewMemory (2 ^ 256 - 1) 2);
    by vm_compute.
Defined.

(** The byte 0x80 is -128. *)
Lemma sign_extension_witness :
  exists r, computes sampleEnv sampleCalls 0 sampleEVM sampleStart NewMemory opSignExtend [0; 0x180] r /\
    S256 r = -128.
Proof.
  destruct (sign_extension sampleEnv sampleCalls 0 sampleEVM sampleStart NewMemory 0 0x180)
    as (r & Hr & Hs & _); [by vm_compute..|].
  exists r. split; [exact Hr|]. rewrite Hs by done. reflexivity.
Defined.

Lemma exponentiation_witness :
  computes sampleEnv sampleCalls 0 sampleEVM sampleStart NewMemory opExp [3; 500] (3 ^ 500 mod 2 ^ 256).
Proof. apply (exponentiation sampleEnv sampleCalls 0 sampleEVM sampleStart NewMemory 3 500). done. Defined.

Lemma shifts_witness :
  computes sampleEnv sampleCalls 0 sampleEVM sampleStart NewMemory opSHL [4; 5] ((5 * 2 ^ 4) mod 2 ^ 256).
Proof.
  apply (shifts sampleEnv sampleCalls 0 sampleEVM sampleStart NewMemory 4 5); by vm_compute.
Defined.

Lemma sar_of_zero_is_minus_one_witness :
  computes sampleEnv sampleCalls 0 sampleEVM sampleStart NewMemory opSAR [256; 0] (2 ^ 256 - 1).
Proof.
  apply (sar_of_zero_is_minus_one sampleEnv sampleCalls 0 sampleEVM sampleStart NewMemory 256);
    by vm_compute.
Defined.

Lemma byte_and_modular_witness :
  computes sampleEnv sampleCalls 0 sampleEVM sampleStart NewMemory opAddmod
    [2 ^ 256 - 1; 2; 10] ((2 ^ 256 - 1 + 2) mod 10).
Proof.
  apply (byte_and_modular sampleEnv sampleCalls 0 sampleEVM sampleStart NewMemory (2 ^ 256 - 1) 2 10);
    by vm_compute.
Defined.
