(* ===== verification/VmTheorems.v ===== *)
(** * Theorems about the parts of the machine

    Jump analysis, memory, gas schedule, stack instructions, opcode names,
    precompiled contracts, chain configuration and the helpers of
    [common/math]. *)

From Stdlib Require Import ZArith Lia Bool.
From S2P Require Import Prelude GoMath Params VmStack VmMemory Opcodes Analysis.
From S2P Require Import StateInterface StateDB JournalSpec World Machine Gas Instructions.
From S2P Require Import JumpTable Precompiles Interpreter EvmInv ExecSafe ExecFlow Sample.
Local Open Scope Z_scope.
Local Open Scope go_scope.

(** ** Jump analysis *)

(** The code bitmap separates opcodes from push arguments.  For every
    program, [codeBitmap] returns, and a position inside the program is in a
    code segment exactly when it is reached by stepping over the program
    instruction by instruction. *)
Theorem code_bitmap_marks_opcodes code :
  zlen code < 2 ^ 62 ->
  exists bits, codeBitmap code = Ret bits /\
    forall p, 0 <= p < zlen code ->
      (codeSegment bits p = Some true <-> boundary code p) /\
      (codeSegment bits p = Some false <-> ~ boundary code p).
Proof.
  intros Hl. destruct (codeBitmap_spec code Hl) as (bits & E & L & B).
  exists bits. split; [done|]. intros p Hp. specialize (B p Hp).
  rewrite codeSegment_bit; [|lia|].
  2: { unfold zlen at 1. rewrite L. pose proof (Z.div_le_mono p (zlen code) 8 ltac:(lia) ltac:(lia)).
       pose proof (Z.div_pos (zlen code) 8 ltac:(lia) ltac:(lia)). lia. }
  destruct (bit bits p); cbn [negb].
  - split; split; try done; [by intros ?%B|]. by intros _ ?%B.
  - assert (boundary code p) by by apply B. by split; split.
Qed.

Section has.
Context {CodeHash : Type} `{Countable CodeHash}.

(** The cached jump check.  With a cache whose entry for the program, if
    any, is its bitmap, [has] answers whether the destination is a JUMPDEST
    instruction (for any 256-bit destination), and leaves such a cache
    behind. *)
Theorem jumpdest_check_exact (d : gmap CodeHash (list Z)) h code dest :
  zlen code < 2 ^ 62 -> 0 <= dest -> cache_ok d h code ->
  exists b d', has d h code dest = Ret (b, d') /\
    (b = true <-> valid_jumpdest code dest) /\ cache_ok d' h code /\
    (forall h', h' <> h -> d' !! h' = d !! h').
Proof. apply has_spec. Qed.
End has.

(** ** Memory *)

Lemma lookup_window {A} (l : list A) off n i :
  (i < n)%nat -> take n (drop off l) !! i = l !! (off + i)%nat.
Proof. intros Hi. by rewrite lookup_take_lt, lookup_drop. Qed.

(** What is written to memory is read back, and nothing else changes: after
    [Set(offset, size, value)] inside the allocated memory, [Get] of that range
    returns the bytes of the value, and [Get] of a range that does not overlap
    returns what it returned before. *)
Theorem memory_read_after_write m offset size value :
  mem_small m -> 0 < size <= zlen value -> 0 <= offset -> offset + size <= mem_Len m ->
  exists m', mem_Set m offset size value = Some m' /\
    mem_Get m' offset size = Some (take (Z.to_nat size) value) /\
    forall o s, 0 < s -> 0 <= o -> o + s <= mem_Len m ->
      o + s <= offset \/ offset + size <= o -> mem_Get m' o s = mem_Get m o s.
Proof.
  intros Hm Hs Ho Hl. pose proof Hm as Hm'. unfold mem_small, mem_Len in Hm'.
  assert (mem_Set m offset size value =
    Some (with_store m (splice (mem_store m) offset size value))) as E.
  { unfold mem_Set, mem_Len in *. rewrite u64_small by (unfold is_u64; lia).
    replace (size >? 0) with true by lia.
    replace (offset + size >? zlen (mem_store m)) with false by lia.
    by rewrite slice_Some by lia. }
  rewrite E. eexists. split; [done|]. set (m' := with_store m _).
  assert (mem_Len m' = mem_Len m) as HL by (apply splice_zlen; unfold mem_Len in *; lia).
  assert (mem_small m') as Hsm by (unfold mem_small; by rewrite HL). unfold mem_Len in *. split.
  - rewrite mem_Get_ok by (try done; unfold mem_Len; lia). f_equal. apply list_eq. intros i.
    destruct (decide (i < Z.to_nat size)%nat) as [Hi|Hi].
    + rewrite lookup_window, lookup_take_lt by lia. unfold m', with_store, mem_store at 1.
      rewrite splice_lookup_in by lia. f_equal. lia.
    + rewrite !lookup_ge_None_2; [done|..]; rewrite length_take; lia.
  - intros o s H0 H1 H2 Hd. rewrite !mem_Get_ok by (try done; unfold mem_Len; lia).
    f_equal. apply list_eq. intros i. destruct (decide (i < Z.to_nat s)%nat) as [Hi|Hi].
    + rewrite !lookup_window by lia. unfold m', with_store, mem_store at 1.
      apply splice_lookup_out; lia.
    + rewrite !lookup_ge_None_2; [done|..]; rewrite length_take; lia.
Qed.

(** Reading call data or code beyond its end gives zeros: byte [i] of
    [getDataBig(data, start, size)] is byte [start + i] of the data, or zero
    when there is none, for any 256-bit start. *)
Theorem data_is_zero_padded data start size :
  zlen data < 2 ^ 63 -> 0 <= start -> 0 <= size < 2 ^ 63 ->
  exists d, getDataBig data start size = Some d /\ zlen d = size /\
    forall i, Z.of_nat i < size ->
      d !! i = Some (if start + Z.of_nat i <? zlen data
                     then default x00 (data !! Z.to_nat (start + Z.of_nat i)) else x00).
Proof.
  intros Hd Hs Hz. rewrite getDataBig_padded by done. eexists. split; [done|].
  pose proof (zlen_nonneg data). split; [apply zlen_padded; lia|]. intros i Hi.
  rewrite padded_lookup by lia. f_equal. unfold zlen in *. split_if.
  - do 2 f_equal. lia.
  - by rewrite lookup_ge_None_2 by lia.
Qed.

(** [getData], whose comment promises to be overflow safe, is not: with one
    byte of data, start 1 and the largest size, [start + size] wraps to 0 and
    slicing panics. *)
Lemma getData_overflows b : getData [b] 1 MaxUint64 = None.
Proof. reflexivity. Qed.

(** ** Gas *)

(** The fee for [words] words of memory. *)
Definition memory_fee (words : Z) : Z := 3 * words + words * words / 512.

(** The memory fee is exact below 2^32 words: expanding the memory to
    [size] bytes costs the difference between the fee for the new size, rounded
    up to words, and the fee charged last, which the memory remembers. *)
Theorem memory_fee_exact m size :
  0 < size <= 32 * (2 ^ 32 - 1) -> mem_Len m < 32 * ((size + 31) / 32) ->
  0 <= mem_lastGasCost m <= memory_fee ((size + 31) / 32) ->
  memoryGasCost m size =
    (inr (memory_fee ((size + 31) / 32) - mem_lastGasCost m),
     mkMemory (mem_store m) (memory_fee ((size + 31) / 32))).
Proof.
  intros Hs Hl Hf. unfold memoryGasCost. replace (size =? 0) with false by lia.
  replace (size >? 0xffffffffe0) with false by lia. cbv zeta.
  rewrite toWordSize_exact by (unfold is_u64; lia). set (w := (size + 31) / 32) in *.
  assert (0 < w < 2 ^ 32) as Hw.
  { unfold w. split; [apply Z.div_str_pos; lia|apply Z.div_lt_upper_bound; lia]. }
  rewrite (u64_small (w * 32)) by (unfold is_u64; lia).
  replace (w * 32 >? mem_Len m) with true by lia.
  unfold MemoryGas, QuadCoeffDiv, memory_fee in *.
  assert (0 <= w * w / 512 < 2 ^ 55) as Hq.
  { split; [apply Z.div_pos; nia|apply Z.div_lt_upper_bound; nia]. }
  rewrite (u64_small (w * w)) by (unfold is_u64; nia).
  rewrite (u64_small (w * 3)) by (unfold is_u64; lia).
  rewrite (u64_small (w * 3 + _)) by (unfold is_u64; lia).
  rewrite (u64_small (_ - _)) by (unfold is_u64; lia). by rewrite (Z.mul_comm w 3).
Qed.

(** The limit on the memory size is too high for the fee not to overflow:
    at 2^32 words, which the check admits, the square wraps to 0, and an empty
    memory can be expanded to 2^37 bytes for less than the fee of 2^36 bytes. *)
Theorem memory_fee_overflows :
  memoryGasCost NewMemory (2 ^ 37) = (inr (3 * 2 ^ 32), mkMemory [] (3 * 2 ^ 32)) /\
  memoryGasCost NewMemory (2 ^ 36) = (inr (memory_fee (2 ^ 31)), mkMemory [] (memory_fee (2 ^ 31))) /\
  3 * 2 ^ 32 < memory_fee (2 ^ 31).
Proof. by vm_compute. Qed.

(** The 63/64 rule.  From EIP-150 on, a call gets the gas it asks for, but
    at most all but one 64th of what is left after the base price of the call;
    before, it gets what it asks for or the instruction fails. *)
Theorem call_gas_all_but_one_64th gt available base requested :
  is_word requested -> 0 <= base <= available -> is_u64 available ->
  let rest := available - base in
  callGas gt available base requested =
    if gt_CreateBySuicide gt >? 0 then inr (Z.min requested (rest - rest / 64))
    else if requested <? 2 ^ 64 then inr requested else inl errGasUintOverflow.
Proof.
  intros Hr Hb Ha rest. unfold callGas, is_word, is_u64 in *.
  rewrite (u64_small (available - base)) by (unfold is_u64; lia). fold rest.
  assert (0 <= rest - rest / 64 <= rest) as Hg.
  { pose proof (Z.div_mod rest 64 ltac:(lia)). pose proof (Z.mod_pos_bound rest 64 ltac:(lia)). lia. }
  rewrite u64_small by (unfold is_u64; lia).
  assert (BitLen requested <= 64 <-> requested < 2 ^ 64) as Hbl.
  { rewrite BitLen_le by lia. lia. }
  destruct (BitLen requested >? 64) eqn:Eb; zbool; cbn [orb].
  - replace (requested <? 2 ^ 64) with false by lia. rewrite andb_true_r.
    split_if; [f_equal; lia|done].
  - rewrite Uint64_small by lia. replace (requested <? 2 ^ 64) with true by lia.
    destruct (gt_CreateBySuicide gt >? 0); cbn [andb]; [|done].
    split_if; f_equal; lia.
Qed.

(** ** Stack instructions *)

Section stack.
Context {C : Crypto} {S : Type} `{SDB : !StateDB S}.
Context (env : Env S) (calls : Calls S) (e : EVMState S) (c : Contract) (m : Memory).

(** PUSHn pushes the n bytes behind it as a big-endian number, with zeros
    where the code has ended, and moves the program counter over them. *)
Theorem push_reads_code pc n st :
  0 <= pc < zlen (c_Code c) -> zlen (c_Code c) < 2 ^ 62 -> 1 <= n <= 32 ->
  makePush n n env calls (mkFrame pc e c m st) =
    Ret (([], None), mkFrame (pc + n) e c m
      (SetBytes (padded (c_Code c) (pc + 1) n) :: st)).
Proof.
  intros Hpc Hl Hn. unfold makePush, bind at 1, get. cbn [f_contract f_pc].
  rewrite (u64_small (pc + 1)), i64_small by (unfold is_u64; lia). cbv zeta.
  replace (if pc + 1 <? zlen (c_Code c) then pc + 1 else zlen (c_Code c)) with (pc + 1)
    by (split_if; lia).
  replace (if pc + 1 + n <? zlen (c_Code c) then pc + 1 + n else zlen (c_Code c))
    with (Z.min (pc + 1 + n) (zlen (c_Code c))) by (split_if; lia).
  unfold bind at 1. rewrite slice_Some by lia. cbn [must ret].
  rewrite RightPad_padded by lia. cbn. by rewrite u64_small by (unfold is_u64; lia).
Qed.

(** DUPn pushes a copy of the n-th cell, SWAPn exchanges the first cell and
    the one n below it and leaves the rest alone, on every stack that is deep
    enough. *)
Theorem dup_and_swap pc n st :
  1 <= Z.of_nat n -> Z.of_nat n < zlen st ->
  (exists x, st !! (n - 1)%nat = Some x /\
     makeDup n env calls (mkFrame pc e c m st) = Ret (([], None), mkFrame pc e c m (x :: st))) /\
  (exists st', makeSwap n env calls (mkFrame pc e c m st) =
       Ret (([], None), mkFrame pc e c m st') /\
     st' !! O = st !! n /\ st' !! n = st !! O /\
     (forall i, i <> O -> i <> n -> st' !! i = st !! i) /\ length st' = length st).
Proof.
  intros Hn Hl. unfold zlen in Hl. split.
  - destruct n as [|n]; [lia|]. destruct (lookup_lt_is_Some_2 st n ltac:(lia)) as [x Hx].
    exists x. replace (Datatypes.S n - 1)%nat with n by lia. split; [done|].
    unfold makeDup, dup, bind, get. cbn [f_stack]. by rewrite Hx.
  - assert (exists st', swap (Datatypes.S n) st = Some st') as [st' Hs].
    { unfold swap. destruct st as [|x st]; cbn [length] in Hl; [lia|].
      destruct (lookup_lt_is_Some_2 (x :: st) n) as [y ->]; [cbn [length]; lia|]. by eexists. }
    exists st'. split.
    + unfold makeSwap, bind, get. cbn [f_stack]. by rewrite Hs.
    + destruct (swap_spec _ _ _ Hs) as (A & B & D). split; [done|]. split; [done|].
      split; [done|]. by eapply swap_length.
Qed.
End stack.

(** ** Opcode names *)

Section names.
Context {C : Crypto} {S : Type} `{SDB : !StateDB S}.

(** The names of the opcodes can be read back: every opcode that is valid
    in some instruction set has a name, and [StringToOp] maps the name to it. *)
Theorem opcode_names_round_trip op :
  0 <= op < 256 -> op_valid (newConstantinopleInstructionSet (S := S) op) = true ->
  StringToOp (OpCode_String op) = op.
Proof.
  intros Ho Hv.
  pose proof (allOps_spec (fun op =>
    negb (op_valid (newConstantinopleInstructionSet (S := S) op)) ||
    (StringToOp (OpCode_String op) =? op)) op ltac:(vm_compute; reflexivity) Ho) as H.
  cbn beta in H. rewrite Hv in H. cbn [negb orb] in H. by apply Z.eqb_eq.
Qed.
End names.

(** ** Precompiled contracts *)

(** The modular exponentiation contract, for every input whose price is
    below 2^60: with the lengths of base, exponent and modulus in the first
    three words and the operands behind them (zero-padded), it returns
    [base ^ exponent mod modulus] as a number of the length of the modulus,
    zeros for a zero modulus, and nothing when base and modulus are empty. *)
Theorem modexp_correct input g :
  zlen input < 2 ^ 62 -> bigModExp_RequiredGas input = Some g -> g < 2 ^ 60 ->
  let bl := modexp_len input 0 in
  let el := modexp_len input 32 in
  let ml := modexp_len input 64 in
  let m := modexp_operand input (bl + el) ml in
  bigModExp_Run input =
    Some (if (bl =? 0) && (ml =? 0) then []
          else if m =? 0 then replicate (Z.to_nat ml) x00
          else be_bytes (Z.to_nat ml)
                 ((modexp_operand input 0 bl ^ modexp_operand input bl el) mod m), None).
Proof. apply bigModExp_Run_eq. Qed.

Section precompiles.
Context {C : Crypto} {CS : CryptoSizes C}.

(** A precompiled contract never panics and never takes more than the gas
    it is given: for any input, it returns or fails with out of gas when the
    price is not covered, and changes nothing of the calling contract but its
    gas, by exactly the price. *)
Theorem precompiles_return p input c :
  zlen input < 2 ^ 62 -> 0 <= c_Gas c < 2 ^ 60 ->
  exists g, RequiredGas p input = Some g /\ is_u64 g /\
    if c_Gas c <? g then RunPrecompiledContract p input c = Some ([], Some ErrOutOfGas, c)
    else exists r err, RunPrecompiledContract p input c = Some (r, err, with_gas c (c_Gas c - g)) /\
      precompile_Run p input = Some (r, err) /\ zlen r < 2 ^ 62.
Proof.
  intros Hl Hg. destruct (RequiredGas_ok p input Hl) as (g & Eg & Hu).
  exists g. split; [done|]. split; [done|]. unfold RunPrecompiledContract. rewrite Eg.
  unfold is_u64 in Hu. rewrite UseGas_spec by (unfold is_u64; lia). split_if; [done|].
  destruct (precompile_Run_ok p input g Hl Eg ltac:(lia)) as (r & err & Er & Hr).
  exists r, err. by rewrite Er.
Qed.

(** [ecrecover] writes into its caller's data: when the input is longer
    than 128 bytes and holds a signature with admissible values, byte 128 of
    the input is overwritten with the recovery id. *)
Theorem ecrecover_overwrites_input input :
  zlen input > 128 ->
  allZero (take 31 (drop 32 input)) = true ->
  ValidateSignatureValues ((byteZ (nth 63 input x00) - 27) mod 256)
    (SetBytes (take 32 (drop 64 input))) (SetBytes (take 32 (drop 96 input))) false = true ->
  exists r, ecrecover_Run input =
    Some (r, None, <[128%nat := Zbyte ((byteZ (nth 63 input x00) - 27) mod 256)]> input).
Proof.
  intros Hl Hz Hv. unfold ecrecover_Run.
  assert (RightPadBytes input 128 = input) as ->.
  { unfold RightPadBytes. by replace (128 <=? zlen input) with true by lia. }
  rewrite !slice_Some by lia. destruct (index_Some input 63 ltac:(lia)) as [v Ev]. rewrite Ev.
  assert (nth 63 input x00 = v) as Hnth.
  { apply nth_lookup_Some with (d := x00) in Ev. exact Ev. }
  rewrite Hnth in *. change (Z.to_nat (63 - 32)) with 31%nat. change (Z.to_nat (96 - 64)) with 32%nat.
  change (Z.to_nat (128 - 96)) with 32%nat. change (Z.to_nat 32) with 32%nat.
  change (Z.to_nat 64) with 64%nat. change (Z.to_nat 96) with 96%nat. cbv zeta.
  rewrite Hz, Hv. cbn [negb orb]. replace (zlen input >? 128) with true by lia.
  destruct (Ecrecover _ _) as [pk|] eqn:Ek; [|by eexists].
  pose proof (Ecrecover_length _ _ _ Ek). rewrite slice_Some by lia.
  rewrite slice_Some by (rewrite Keccak256_length; lia). by eexists.
Qed.
End precompiles.

(** ** Chain configuration *)

(** [CheckCompatible] always terminates, and its verdict is right: without
    an error the configurations agree on every fork up to the head; the block
    an error says to rewind to is not above the head, and after rewinding the
    configurations agree, unless the conflict is at the genesis block. *)
Theorem check_compatible_decides c newcfg height :
  is_u64 height ->
  exists r, CheckCompatible c newcfg height = Some r /\
    match r with
    | None => checkCompatible c newcfg height = None
    | Some err =>
        0 <= RewindTo err <= height /\
        (checkCompatible c newcfg (RewindTo err) = None \/ RewindTo err = 0)
    end.
Proof.
  intros Hh. apply compatLoop_spec; [done| |by left]. unfold is_u64 in Hh. left. lia.
Qed.

(** ** common/math *)

(** [PaddedBigBytes] is a big-endian encoding of at least [n] bytes: it
    decodes to the number, and has exactly [n] bytes when the number fits. *)
Theorem padded_bytes_round_trip x n :
  0 <= x -> 0 <= n ->
  SetBytes (PaddedBigBytes x n) = x /\ n <= zlen (PaddedBigBytes x n) /\
  (x < 256 ^ n -> zlen (PaddedBigBytes x n) = n).
Proof.
  intros Hx Hn. unfold PaddedBigBytes. pose proof (BitLen_nonneg x) as Hb.
  pose proof (BitLen_bound x) as Hlt. rewrite Z.abs_eq in Hlt by done. split_if.
  - assert (n <= zlen (Bytes x)) as Hl.
    { rewrite zlen_Bytes. etrans; [exact E|]. apply Z.div_le_mono; lia. }
    split; [|split; [done|]].
    + unfold Bytes. rewrite Z.abs_eq, SetBytes_be_bytes by done. apply Z.mod_small.
      split; [done|]. eapply Z.lt_le_trans; [exact Hlt|].
      rewrite pow256 by lia. apply Z.pow_le_mono_r; [lia|].
      rewrite Z2Nat.id by (apply Z.div_pos; lia).
      pose proof (Z.div_mod (BitLen x + 7) 8 ltac:(lia)).
      pose proof (Z.mod_pos_bound (BitLen x + 7) 8 ltac:(lia)). lia.
    + intros H256. pose proof (zlen_Bytes_le x n Hn ltac:(lia)). lia.
  - assert (x < 256 ^ n) as Hfit.
    { eapply Z.lt_le_trans; [exact Hlt|]. rewrite pow256 by done.
      apply Z.pow_le_mono_r; [lia|]. pose proof (Z.div_mod (BitLen x) 8 ltac:(lia)).
      pose proof (Z.mod_pos_bound (BitLen x) 8 ltac:(lia)). lia. }
    rewrite ReadBits_zeros by done. unfold zlen. rewrite length_be_bytes, Z2Nat.id by done.
    split; [|done]. rewrite SetBytes_be_bytes, Z2Nat.id by done. apply Z.mod_small. lia.
Qed.

(** The checked 64-bit operations report an overflow exactly when there is
    one, and are exact otherwise. *)
Theorem safe_arithmetic x y :
  is_u64 x -> is_u64 y ->
  SafeAdd x y = (u64 (x + y), 2 ^ 64 <=? x + y) /\
  SafeMul x y = (u64 (x * y), 2 ^ 64 <=? x * y) /\
  SafeSub x y = (u64 (x - y), x - y <? 0).
Proof.
  intros Hx Hy. split; [|split].
  - rewrite SafeAdd_exact by done. f_equal. lia.
  - pose proof (SafeMul_overflow x y Hx Hy) as H. destruct (SafeMul x y) as [p o] eqn:E.
    assert (p = u64 (x * y)) as ->.
    { unfold SafeMul in E. destruct (_ || _) eqn:E0; injection E as <- _; [|done].
      apply orb_true_iff in E0 as [E0|E0]; zbool; subst; by rewrite ?Z.mul_0_r. }
    f_equal. cbn [snd] in H. destruct o, (2 ^ 64 <=? x * y) eqn:El; zbool; try done; lia.
  - unfold SafeSub. f_equal. lia.
Qed.

(** ** The theorems on concrete inputs *)

(** PUSH1 JUMPDEST; JUMPDEST: the first 0x5b is data, the second is not. *)
Definition dataProgram : list byte := [x60; x5b; x5b].

Lemma code_bitmap_marks_opcodes_witness :
  exists bits, codeBitmap dataProgram = Ret bits /\
    (codeSegment bits 2 = Some true <-> boundary dataProgram 2).
Proof.
  destruct (code_bitmap_marks_opcodes dataProgram) as (bits & E & H); [done|].
  exists bits. split; [exact E|]. apply H. done.
Defined.

Lemma jumpdest_check_exact_witness :
  exists b d', has (CodeHash := Z) ∅ 7 dataProgram 1 = Ret (b, d') /\
    (b = true <-> valid_jumpdest dataProgram 1).
Proof.
  destruct (jumpdest_check_exact (CodeHash := Z) ∅ 7 dataProgram 1) as (b & d' & E & H & _);
    [done|done|by intros bits|]. exists b, d'. exact (conj E H).
Defined.

Lemma memory_read_after_write_witness :
  exists m', mem_Set (mem_Resize NewMemory 64) 3 2 [x01; x02; x03] = Some m' /\
    mem_Get m' 3 2 = Some [x01; x02].
Proof.
  destruct (memory_read_after_write (mem_Resize NewMemory 64) 3 2 [x01; x02; x03])
    as (m' & E & H & _); [by vm_compute..|]. exists m'. exact (conj E H).
Defined.

Lemma data_is_zero_padded_witness :
  exists d, getDataBig [x01; x02] 1 3 = Some d /\ zlen d = 3.
Proof.
  destruct (data_is_zero_padded [x01; x02] 1 3) as (d & E & H & _); [done..|].
  exists d. exact (conj E H).
Defined.

Lemma memory_fee_exact_witness :
  memoryGasCost NewMemory 100 = (inr (memory_fee 4), mkMemory [] (memory_fee 4)).
Proof. apply (memory_fee_exact NewMemory 100); by vm_compute. Defined.

Lemma call_gas_all_but_one_64th_witness :
  callGas GasTableEIP158 6500 100 (2 ^ 200) = inr 6300.
Proof. apply (call_gas_all_but_one_64th GasTableEIP158 6500 100 (2 ^ 200)); by vm_compute. Defined.

Definition codeContract : Contract :=
  SetCallCode (NewContract (AccountRef 101) 102 (Some 0) 100) 102 (Some dataProgram) dataProgram.

Lemma push_reads_code_witness :
  makePush 32 32 sampleEnv (evmCalls sampleEnv (Run (loop 1 sampleEnv)))
    (mkFrame 0 sampleEVM codeContract NewMemory []) =
  Ret (([], None), mkFrame 32 sampleEVM codeContract NewMemory
    [SetBytes (padded dataProgram 1 32)]).
Proof.
  apply (push_reads_code sampleEnv (evmCalls sampleEnv (Run (loop 1 sampleEnv)))
    sampleEVM codeContract NewMemory 0 32 []); by vm_compute.
Defined.

Lemma dup_and_swap_witness :
  exists st', makeSwap 2 sampleEnv (evmCalls sampleEnv (Run (loop 1 sampleEnv)))
      (mkFrame 0 sampleEVM codeContract NewMemory [5; 6; 7; 8]) =
    Ret (([], None), mkFrame 0 sampleEVM codeContract NewMemory st') /\ st' !! O = Some 7.
Proof.
  destruct (dup_and_swap sampleEnv (evmCalls sampleEnv (Run (loop 1 sampleEnv)))
    sampleEVM codeContract NewMemory 0 2 [5; 6; 7; 8]) as (_ & st' & E & H & _); [by vm_compute..|].
  exists st'. exact (conj E H).
Defined.

Lemma opcode_names_round_trip_witness : StringToOp (OpCode_String 0xfa) = 0xfa.
Proof. apply (opcode_names_round_trip (C := sampleCrypto) (S := stateDB) 0xfa); by vm_compute. Defined.

(** 3^5 mod 7, with one-byte operands. *)
Definition modexpInput : list byte :=
  be_bytes 32 1 ++ be_bytes 32 1 ++ be_bytes 32 1 ++ [x03; x05; x07].

Lemma modexp_correct_witness : bigModExp_Run modexpInput = Some ([x05], None).
Proof. apply (modexp_correct modexpInput 0); by vm_compute. Defined.

Lemma precompiles_return_witness :
  exists g, RequiredGas dataCopy [x01] = Some g /\ is_u64 g.
Proof.
  destruct (precompiles_return dataCopy [x01] codeContract) as (g & E & Hu & _); [by vm_compute..|].
  exists g. exact (conj E Hu).
Defined.

(** A signature with r = s = 1 and v = 27, and one byte more. *)
Definition signatureInput : list byte :=
  be_bytes 32 9 ++ be_bytes 32 27 ++ be_bytes 32 1 ++ be_bytes 32 1 ++ [xff].

Lemma ecrecover_overwrites_input_witness :
  exists r, ecrecover_Run signatureInput =
    Some (r, None, be_bytes 32 9 ++ be_bytes 32 27 ++ be_bytes 32 1 ++ be_bytes 32 1 ++ [x00]).
Proof.
  destruct (ecrecover_overwrites_input signatureInput) as [r Hr]; [by vm_compute..|].
  exists r. exact Hr.
Defined.

(** Mainnet with the DAO fork moved, at a head behind both. *)
Lemma check_compatible_decides_witness :
  exists r, CheckCompatible MainnetChainConfig TestChainConfig 100 = Some r.
Proof.
  destruct (check_compatible_decides MainnetChainConfig TestChainConfig 100) as (r & E & _);
    [by vm_compute|]. exists r. exact E.
Defined.

Lemma padded_bytes_round_trip_witness : SetBytes (PaddedBigBytes 1000 5) = 1000.
Proof. apply (padded_bytes_round_trip 1000 5); by vm_compute. Defined.

Lemma safe_arithmetic_witness : SafeAdd (2 ^ 64 - 1) 1 = (0, true).
Proof. apply (safe_arithmetic (2 ^ 64 - 1) 1); by vm_compute. Defined.
