(* ===== verification/StateTheorems.v ===== *)
(** * Theorems about the state database

    The journalled database of [core/state] against the abstract world: every
    program of operations, with snapshots and rollbacks in any nesting, has the
    effect it has on a plain value with a stack of saved copies.  What [Finalise]
    and [Commit] write is what the world shows, and a state opened on it shows it
    again; what a copy shows. *)

From Stdlib Require Import ZArith Lia Bool.
From S2P Require Import Prelude GoMath StateInterface StateDB JournalSpec FinaliseSpec World.
From S2P Require Import Params VmStack VmMemory Opcodes Analysis Machine Gas Instructions.
From S2P Require Import JumpTable Precompiles Interpreter EvmInv Sample.
Local Open Scope Z_scope.
Local Open Scope go_scope.

(** ** Programs over the database *)

Inductive dbOp :=
| DCreateAccount (a : Address)
| DSubBalance (a : Address) (v : Z)
| DAddBalance (a : Address) (v : Z)
| DSetNonce (a : Address) (v : Z)
| DSetCode (a : Address) (code : list byte)
| DSetState (a : Address) (k v : Hash)
| DAddRefund (v : Z)
| DSuicide (a : Address)
| DAddLog (l : Log)
| DAddPreimage (h : Hash) (d : list byte)
| DRead (a : Address) (k : Hash)          (** all the reading operations *)
| DSnapshot
| DRevert (n : nat).                      (** to the [n]-th valid snapshot *)

(** Arguments of their machine widths. *)
Definition dbOp_ok (op : dbOp) : Prop :=
  match op with
  | DSetNonce _ v => is_u64 v
  | DSetCode _ code => zlen code < 2 ^ 62
  | DSetState _ _ v => is_word v
  | _ => True
  end.

Section programs.
Context {C : Crypto} {S : Type} `{SDB : !StateDB S} {SPEC : StateDBSpec S}.

(** The program keeps the identifiers of the snapshots that are valid. *)
Definition execOp (op : dbOp) (ids : list Z) : M S (list Z) :=
  match op with
  | DCreateAccount a => CreateAccount a ;; ret ids
  | DSubBalance a v => SubBalance a v ;; ret ids
  | DAddBalance a v => AddBalance a v ;; ret ids
  | DSetNonce a v => SetNonce a v ;; ret ids
  | DSetCode a code => SetCode a code ;; ret ids
  | DSetState a k v => SetState a k v ;; ret ids
  | DAddRefund v => AddRefund v ;; ret ids
  | DSuicide a => Suicide a ;; ret ids
  | DAddLog l => AddLog l ;; ret ids
  | DAddPreimage h d => AddPreimage h d ;; ret ids
  | DRead a k =>
      GetBalance a ;; GetNonce a ;; GetCode a ;; GetCodeHash a ;; GetCodeSize a ;;
      GetState a k ;; HasSuicided a ;; Exist a ;; Empty a ;; GetRefund ;; ret ids
  | DSnapshot => let* id := Snapshot in ret (ids ++ [id])
  | DRevert n =>
      match ids !! n with
      | Some id => RevertToSnapshot id ;; ret (take n ids)
      | None => ret ids
      end
  end.

Fixpoint execOps (ops : list dbOp) (ids : list Z) : M S (list Z) :=
  match ops with
  | [] => ret ids
  | op :: ops' => let* ids' := execOp op ids in execOps ops' ids'
  end.

(** The same on a world and the worlds saved so far. *)
Definition worldOp (op : dbOp) (st : world * list world) : world * list world :=
  let '(w, ws) := st in
  match op with
  | DCreateAccount a => (w_CreateAccount a w, ws)
  | DSubBalance a v => (w_SubBalance a v w, ws)
  | DAddBalance a v => (w_AddBalance a v w, ws)
  | DSetNonce a v => (w_SetNonce a v w, ws)
  | DSetCode a code => (w_SetCode a code w, ws)
  | DSetState a k v => (w_SetState a k v w, ws)
  | DAddRefund v => (w_AddRefund v w, ws)
  | DSuicide a => (w_Suicide a w, ws)
  | DAddLog l => (w_AddLog l w, ws)
  | DAddPreimage h d => (w_AddPreimage h d w, ws)
  | DRead _ _ => (w, ws)
  | DSnapshot => (w, ws ++ [w])
  | DRevert n => match ws !! n with Some w' => (w', take n ws) | None => (w, ws) end
  end.

(** The database stands for the world, and its snapshots for the saved ones,
    behind the snapshots [pre] taken before the program started. *)
Context (pre : list (Z * world)).

Record simulates (s : S) (ids : list Z) (st : world * list world) : Prop := {
  sim_inv : db_inv s;
  sim_view : view s = st.1;
  sim_ids : saved s = pre ++ zip ids st.2;
  sim_length : length ids = length st.2
}.

Lemma simulates_write {A} (m : M S A) s ids st w' :
  simulates s ids st ->
  runs m s (fun _ s' => db_inv s' /\ view s' = w' /\ saved s' = saved s) ->
  runs (m ;; ret ids) s (fun ids' s' => simulates s' ids' (w', st.2)).
Proof.
  intros [A1 A2 A3 A4] Hm. apply runs_bind. eapply runs_mono; [exact Hm|].
  intros _ s' (B1 & B2 & B3). apply runs_ret. split; cbn; congruence.
Qed.

(** A read in front of the rest. *)
Lemma simulates_read {A B} (m : M S A) (v : S -> A) (k : M S B) s ids st P :
  simulates s ids st ->
  (forall s, db_inv s -> runs m s (fun r s' =>
     r = v s /\ db_inv s' /\ view s' = view s /\ saved s' = saved s)) ->
  (forall s', simulates s' ids st -> runs k s' P) ->
  runs (m ;; k) s P.
Proof.
  intros [A1 A2 A3 A4] Hm Hk. apply runs_bind. eapply runs_mono; [by apply Hm|].
  intros _ s' (_ & B1 & B2 & B3). apply Hk. split; [done|congruence|congruence|done].
Qed.

Lemma zip_snoc {X Y} (xs : list X) (ys : list Y) x y :
  length xs = length ys -> zip (xs ++ [x]) (ys ++ [y]) = zip xs ys ++ [(x, y)].
Proof. intros H. by rewrite zip_with_app. Qed.

Lemma execOp_simulates op s ids st :
  dbOp_ok op -> simulates s ids st ->
  runs (execOp op ids) s (fun ids' s' => simulates s' ids' (worldOp op st)).
Proof.
  intros Hop Hs. pose proof Hs as [A1 A2 A3 A4]. destruct st as [w ws]. cbn [fst snd] in *. subst w.
  destruct op as [a|a v|a v|a v|a code|a k v|v|a|l|h d|a k| |n]; cbn [execOp worldOp];
    try (eapply (simulates_write _ s ids (view s, ws)); [exact Hs|]).
  - by apply spec_CreateAccount.
  - by apply spec_SubBalance.
  - by apply spec_AddBalance.
  - by apply spec_SetNonce.
  - by apply spec_SetCode.
  - by apply spec_SetState.
  - by apply spec_AddRefund.
  - eapply runs_mono; [by apply spec_Suicide|]. by intros r s' (_ & H).
  - by apply spec_AddLog.
  - by apply spec_AddPreimage.
  - clear A1 A3.
    eapply simulates_read; [exact Hs|intros; by apply spec_GetBalance|intros ? ?].
    eapply simulates_read; [done|intros; by apply spec_GetNonce|intros ? ?].
    eapply simulates_read; [done|intros; by apply spec_GetCode|intros ? ?].
    eapply simulates_read; [done|intros; by apply spec_GetCodeHash|intros ? ?].
    eapply simulates_read; [done|intros; by apply spec_GetCodeSize|intros ? ?].
    eapply simulates_read; [done|intros; by apply spec_GetState|intros ? ?].
    eapply simulates_read; [done|intros; by apply spec_HasSuicided|intros ? ?].
    eapply simulates_read; [done|intros; by apply spec_Exist|intros ? ?].
    eapply simulates_read; [done|intros; by apply spec_Empty|intros ? ?].
    eapply simulates_read; [done|intros; by apply spec_GetRefund|intros ? ?].
    by apply runs_ret.
  - apply runs_bind. eapply runs_mono; [by apply spec_Snapshot|].
    intros id s' (B1 & B2 & B3). apply runs_ret. split; [done|done| |].
    + by rewrite B3, A3, <- app_assoc, <- zip_snoc.
    + cbn. rewrite !length_app. cbn. lia.
  - destruct (ids !! n) as [id|] eqn:Ei.
    + destruct (lookup_lt_is_Some_2 ws n) as [w' Ew].
      { rewrite <- A4. by eapply lookup_lt_Some. }
      rewrite Ew. apply runs_bind. eapply runs_mono.
      { eapply (spec_RevertToSnapshot s (pre ++ zip (take n ids) (take n ws)) id w'); [done|].
        rewrite A3, <- (take_drop_middle ids n id Ei), <- (take_drop_middle ws n w' Ew) at 1.
        rewrite zip_with_app by (rewrite !length_take; lia). by rewrite app_assoc. }
      intros _ s' (B1 & B2 & B3). apply runs_ret. split; [done..|]. cbn.
      rewrite !length_take. lia.
    + apply lookup_ge_None_1 in Ei. rewrite (lookup_ge_None_2 ws n) by lia. by apply runs_ret.
Qed.

Lemma execOps_simulates ops : forall s ids st,
  Forall dbOp_ok ops -> simulates s ids st ->
  runs (execOps ops ids) s (fun ids' s' =>
    simulates s' ids' (fold_left (fun st op => worldOp op st) ops st)).
Proof.
  induction ops as [|op ops IH]; intros s ids st Hops Hs; cbn [execOps fold_left].
  { by apply runs_ret. }
  apply Forall_cons in Hops as [Hop Hops]. apply runs_bind.
  eapply runs_mono; [by apply execOp_simulates|]. intros ids' s' Hs'. by apply IH.
Qed.
End programs.

(** ** The journalled database *)

Section journalled.
Context {C : Crypto} {D : Database} {DOK : DatabaseOk D} {CI : CodeHashIdeal C}.
Implicit Types (s : stateDB).

(** C6: the journalled database refines the abstract world.  Any program of
    state operations, reads, snapshots and rollbacks to any valid snapshot runs
    without panic, and the accounts, storage, code, logs, refund counter and
    preimages afterwards are those of the same program on a plain value where a
    snapshot copies it and a rollback puts the copy back. *)
Theorem journal_refines_world s ops :
  s_inv s -> s_saved s = [] -> Forall dbOp_ok ops ->
  exists ids s', execOps ops [] s = Ret (ids, s') /\ s_inv s' /\
    s_view s' = (fold_left (fun st op => worldOp op st) ops (s_view s, [])).1.
Proof.
  intros Hi Hsv Hops.
  destruct (execOps_simulates (S := stateDB) [] ops s [] (s_view s, []))
    as (ids & s' & E & [A B _ _]); [done|by split|]. by exists ids, s'.
Qed.

(** C7: a rollback restores the world of its snapshot, whatever program has
    run since then, nested snapshots and rollbacks included, and the snapshots
    that were valid before it are valid again, with their worlds. *)
Theorem revert_restores_snapshot s ops :
  s_inv s -> Forall dbOp_ok ops ->
  exists id s1 ids s2 s3,
    State.Snapshot s = Ret (id, s1) /\ execOps ops [] s1 = Ret (ids, s2) /\
    State.RevertToSnapshot id s2 = Ret (tt, s3) /\
    s_inv s3 /\ s_view s3 = s_view s /\ s_saved s3 = s_saved s.
Proof.
  intros Hi Hops. destruct (Snapshot_ok s Hi) as (id & s1 & E1 & I1 & V1 & S1).
  destruct (execOps_simulates (S := stateDB) (s_saved s1) ops s1 [] (s_view s1, []))
    as (ids & s2 & E2 & [I2 _ S2 _]); [done|split; [done|done|by rewrite app_nil_r|done]|].
  cbn in I2, S2. rewrite S1, <- app_assoc in S2.
  destruct (RevertToSnapshot_ok _ _ _ _ _ I2 S2) as ([] & s3 & E3 & I3 & V3 & S3).
  by exists id, s1, ids, s2, s3.
Qed.

(** Reading.  Balance, nonce, code, code hash, code size, storage, suicide
    flag, existence, emptiness and refund counter, read from the journalled
    database (through its caches of objects, code and slots), are those of the
    world it stands for. *)
Theorem reads_return_world s a k :
  s_inv s ->
  (exists s', State.GetBalance a s = Ret (w_GetBalance (s_view s) a, s')) /\
  (exists s', State.GetNonce a s = Ret (w_GetNonce (s_view s) a, s')) /\
  (exists s', State.GetCode a s = Ret (w_GetCode (s_view s) a, s')) /\
  (exists s', State.GetCodeHash a s = Ret (w_GetCodeHash (s_view s) a, s')) /\
  (exists s', State.GetCodeSize a s = Ret (zlen (w_GetCode (s_view s) a), s')) /\
  (exists s', State.GetState a k s = Ret (w_GetState (s_view s) a k, s')) /\
  (exists s', State.HasSuicided a s = Ret (w_HasSuicided (s_view s) a, s')) /\
  (exists s', State.Exist a s = Ret (w_Exist (s_view s) a, s')) /\
  (exists s', State.Empty a s = Ret (w_Empty (s_view s) a, s')) /\
  (exists s', State.GetRefund s = Ret (w_refund (s_view s), s')).
Proof.
  intros Hi.
  assert (forall A (m : M stateDB A) v, runs m s (fun r s' => r = v /\ s_inv s' /\
    s_view s' = s_view s /\ s_saved s' = s_saved s) -> exists s', m s = Ret (v, s')) as H.
  { intros A m v (r & s' & E & -> & _). by exists s'. }
  repeat split; apply H.
  - exact (spec_GetBalance (S := stateDB) s a Hi).
  - exact (spec_GetNonce (S := stateDB) s a Hi).
  - exact (spec_GetCode (S := stateDB) s a Hi).
  - exact (spec_GetCodeHash (S := stateDB) s a Hi).
  - exact (spec_GetCodeSize (S := stateDB) s a Hi).
  - exact (spec_GetState (S := stateDB) s a k Hi).
  - exact (spec_HasSuicided (S := stateDB) s a Hi).
  - exact (spec_Exist (S := stateDB) s a Hi).
  - exact (spec_Empty (S := stateDB) s a Hi).
  - exact (spec_GetRefund (S := stateDB) s Hi).
Qed.





(** An account that [CreateAccount] replaces is not written back.  The
    journal entry of the replacement does not count as dirty, so that, unless
    something else marks the account, after [Finalise] the state shows a fresh
    account with the old balance where the trie still has the old account. *)
Theorem reset_account_not_flushed (DB : complete_db) s a acc (flag : bool) :
  s_inv s -> w_get (s_view s) a = Some acc -> dirties (s_journal s) !! a = None ->
  exists s1 s2, State.CreateAccount a s = Ret (tt, s1) /\ State.Finalise flag s1 = Ret (tt, s2) /\
    w_get (s_view s2) a = Some (set_balance (acc_balance acc) new_account) /\
    s_trie s2 !! a = s_trie s !! a.
Proof.
  intros Hi Ha Hd. rewrite view_get in Ha. destruct (live s a) as [p|] eqn:Hl; [|done].
  assert (runs (State.CreateAccount a) s (fun _ s' => s_inv s' /\
    s_view s' = w_CreateAccount a (s_view s) /\ s_saved s' = s_saved s)) as ([] & s1 & E1 & I1 & V1 & _)
    by exact (spec_CreateAccount (S := stateDB) s a Hi).
  destruct (reset_not_dirty s a p (si_core _ Hi) Hl) as ([] & s1' & E1' & D1 & T1).
  assert (s1' = s1) as -> by (rewrite E1 in E1'; congruence).
  destruct (Finalise_ok DB s1 flag I1) as ([] & s2 & E2 & _ & _ & _ & V2 & _ & T2).
  exists s1, s2. split; [exact E1|]. split; [exact E2|]. rewrite D1 in V2, T2. split.
  - rewrite V2. unfold w_finalise, w_get. cbn [w_accounts]. rewrite map_lookup_imap, V1.
    unfold w_CreateAccount, w_put. cbn [w_accounts with_accounts]. rewrite lookup_insert_eq. cbn [mbind option_bind].
    rewrite bool_decide_eq_false_2 by (rewrite Hd; by intros [? [=]]).
    unfold w_acc. rewrite view_get, Hl, Ha. done.
  - rewrite T2 by done. by rewrite T1.
Qed.

(** A fresh database shows exactly the accounts of its trie, with the code
    the database below delivers for the code hash, no storage cached, and has
    no snapshots. *)
Lemma new_shows_trie tr a :
  (forall a acc, tr !! a = Some acc -> accountErr a = false -> obj_ok (Obj.newObject a acc)) ->
  s_inv (New tr) /\ s_saved (New tr) = [] /\
  w_get (s_view (New tr)) a =
    match tr !! a with
    | Some acc => if accountErr a then None else Some (abs_obj (Obj.newObject a acc))
    | None => None
    end.
Proof.
  intros Htr. split; [by apply New_inv|]. split; [done|].
  rewrite view_get. unfold live. rewrite all_New. unfold trie_objects.
  rewrite map_lookup_imap. cbn [New s_trie]. destruct (tr !! a) as [acc|]; [|done]. cbn.
  by destruct (accountErr a).
Qed.
End journalled.

(** ** The theorems on the sample *)

(** Two nested snapshots, the inner one rolled back, then the outer one. *)
Definition sampleOps : list dbOp :=
  [DSnapshot; DSetState 102 1 5; DSubBalance 101 30; DSnapshot; DSuicide 102;
   DCreateAccount 104; DRevert 1; DAddRefund 15000; DRead 102 1].

Lemma sampleOps_ok : Forall dbOp_ok sampleOps.
Proof. by repeat apply Forall_cons_2. Qed.

Lemma journal_refines_world_witness :
  exists ids s', execOps sampleOps [] sampleDB = Ret (ids, s') /\
    w_GetState (s_view s') 102 1 = 5.
Proof.
  destruct (journal_refines_world sampleDB sampleOps) as (ids & s' & E & _ & V);
    [apply sampleDB_inv|reflexivity|apply sampleOps_ok|].
  exists ids, s'. split; [exact E|]. rewrite V. vm_compute. reflexivity.
Defined.

Lemma revert_restores_snapshot_witness :
  exists id s1 ids s2 s3,
    State.Snapshot sampleDB = Ret (id, s1) /\ execOps sampleOps [] s1 = Ret (ids, s2) /\
    State.RevertToSnapshot id s2 = Ret (tt, s3) /\ s_view s3 = s_view sampleDB.
Proof.
  destruct (revert_restores_snapshot sampleDB sampleOps)
    as (id & s1 & ids & s2 & s3 & E1 & E2 & E3 & _ & V & _); [apply sampleDB_inv|apply sampleOps_ok|].
  exists id, s1, ids, s2, s3. exact (conj E1 (conj E2 (conj E3 V))).
Defined.

Lemma reads_return_world_witness :
  exists s', State.GetCodeSize 102 sampleDB = Ret (6, s').
Proof.
  destruct (reads_return_world sampleDB 102 0 sampleDB_inv) as (_ & _ & _ & _ & H & _).
  assert (zlen (w_GetCode (s_view sampleDB) 102) = 6) as Hz by (vm_compute; reflexivity).
  destruct H as [s' E]. exists s'. rewrite Hz in E. exact E.
Defined.

Lemma new_shows_trie_witness :
  exists acc, w_get (s_view sampleDB) 102 = Some acc /\ acc_code acc = storeProgram.
Proof.
  destruct (new_shows_trie sampleTrie 102 sampleTrie_ok) as (_ & _ & H).
  eexists. split; [exact H|]. reflexivity.
Defined.

Lemma sample_complete : complete_db (D := sampleDatabase).
Proof. by split. Qed.

Lemma reset_account_not_flushed_witness :
  exists acc s1 s2, State.CreateAccount 104 sampleDB = Ret (tt, s1) /\ State.Finalise true s1 = Ret (tt, s2) /\
    w_get (s_view s2) 104 = Some acc /\ acc_code acc = [] /\ s_trie s2 !! 104 = sampleTrie !! 104.
Proof.
  destruct (reset_account_not_flushed sample_complete sampleDB 104
    (w_acc (s_view sampleDB) 104) true sampleDB_inv)
    as (s1 & s2 & E1 & E2 & G & T); [vm_compute; reflexivity..|].
  eexists _, s1, s2. exact (conj E1 (conj E2 (conj G (conj eq_refl T)))).
Defined.

(** ** Commit and Copy on the sample *)

#[local] Instance sampleRoot : AccountTrie := fun t => Z.of_nat (size t).














(** The copy of a state in which an account was replaced shows the old account. *)
Example copy_forgets_reset :
  match execOps [DCreateAccount 104] [] sampleDB with
  | Ret (_, s) =>
      match State.Copy s with
      | Ret (s', _) => w_GetCode (s_view s) 104 = [] /\ w_GetCode (s_view s') 104 = loopProgram
      | _ => False
      end
  | _ => False
  end.
Proof. vm_compute. split; reflexivity. Qed.

(** After a commit, an account that was touched only in a call that failed is
    still counted as changed, and a copy of the state panics: the address of
    ripemd is kept in the journal on purpose, but it has no object. *)
Example copy_after_commit_panics :
  match execOps [DSnapshot; DAddBalance 3 0; DRevert 0] [] sampleDB with
  | Ret (_, s) =>
      match State.Commit true (map_to_list (stateObjects s)).*1 s with
      | Ret (_, s) => match State.Copy s with Panic => True | _ => False end
      | _ => False
      end
  | _ => False
  end.
Proof. vm_compute. exact I. Qed.

(** An account that one transaction deleted as empty comes back when the block is
    committed without that rule. *)
Example commit_revives_deleted :
  match execOps [DAddBalance 200 0] [] sampleDB with
  | Ret (_, s) =>
      match State.Finalise true s with
      | Ret (_, s) =>
          match State.Commit false (map_to_list (stateObjects s)).*1 s with
          | Ret (_, s') => (w_get (s_view s) 200, Nonce <$> s_trie s' !! 200) = (None, Some 0)
          | _ => False
          end
      | _ => False
      end
  | _ => False
  end.
Proof. vm_compute. reflexivity. Qed.
