(* ===== verification/TxTheorems.v ===== *)
(** * Theorems about the application of messages

    [core/state_transition.go] and [core/gaspool.go] over the machine and any
    state database that meets its contract. *)

From Stdlib Require Import ZArith Lia Bool.
From S2P Require Import Prelude GoMath Params VmStack VmMemory Opcodes Analysis.
From S2P Require Import StateInterface StateDB JournalSpec World Machine Gas Instructions.
From S2P Require Import JumpTable Precompiles Interpreter EvmInv ExecSafe ExecFlow TableSafe.
From S2P Require Import EvmSafe CallSafe StateTransition Sample.
Local Open Scope Z_scope.
Local Open Scope go_scope.

Section tx.
Context {C : Crypto} {S : Type} `{SDB : !StateDB S} {SPEC : StateDBSpec S}.
Context {CS : CryptoSizes C} {CI : CodeHashIdeal C}.
Implicit Types (env : Env S) (e : EVMState S).

(** From a fresh transition. *)
Lemma ApplyMessage_ok env e msg gp :
  env_ok env -> msg_ok msg -> evm_ok e -> e_readOnly e = false -> is_u64 gp ->
  exists ret used failed err t',
    ApplyMessage env e msg gp = Ret ((ret, used, failed, err), t') /\
    transition_post env msg (mkTxState e gp 0 0) (ret, used, failed, err) t'.
Proof.
  intros He Hm Hok Hro Hgp.
  destruct (TransitionDb_ok env msg (mkTxState e gp 0 0))
    as ([[[r used] failed] err] & t' & E & Hp); [done..|].
  by exists r, used, failed, err, t'.
Qed.

(** C8: a message is always applied or refused: from a well-formed EVM and a
    message with less than 2^60 gas, [ApplyMessage] returns.  When it is
    applied (whether the called code failed or not), the gas used is at most
    the gas bought and at least half the intrinsic gas, the block's gas pool
    has gone down by exactly the gas used, no value has been created, and the
    nonce was the one of the account. *)
Theorem message_is_applied_or_refused env e msg gp :
  env_ok env -> msg_ok msg -> evm_ok e -> e_readOnly e = false -> is_u64 gp ->
  exists ret used failed err t',
    ApplyMessage env e msg gp = Ret ((ret, used, failed, err), t') /\
    evm_ok (t_evm t') /\
    (err = None ->
       0 <= used <= msg_Gas msg /\ t_gp t' = gp - used /\
       intrinsic_price (msg_Data msg) (bool_decide (msg_To msg = None))
         (IsHomestead (env_chainConfig env) (BlockNumber (env_ctx env))) <= 2 * used /\
       supply (e_view (t_evm t')) <= supply (e_view e) /\
       (msg_CheckNonce msg = true -> w_GetNonce (e_view e) (msg_From msg) = msg_Nonce msg)).
Proof.
  intros He Hm Hok Hro Hgp.
  destruct (ApplyMessage_ok env e msg gp) as (r & used & failed & err & t' & E & Ht & Hp); [done..|].
  exists r, used, failed, err, t'. split; [done|]. split; [apply Ht|].
  intros ->. by destruct Hp.
Qed.

End tx.

(** The intrinsic gas is 21000 (53000 for a creation from Homestead on),
    plus 68 for every non-zero and 4 for every zero byte of data, and the
    overflow checks refuse a message exactly when this does not fit 64 bits. *)
Theorem intrinsic_gas_exact data contractCreation homestead :
  zlen data < 2 ^ 62 ->
  let nz := zlen (List.filter (fun b => negb (bool_decide (b = x00))) data) in
  let price := (if contractCreation && homestead then 53000 else 21000) +
               68 * nz + 4 * (zlen data - nz) in
  IntrinsicGas data contractCreation homestead =
    if price <? 2 ^ 64 then inr price else inl (errVM ErrOutOfGas).
Proof.
  intros Hl nz price. rewrite IntrinsicGas_spec by done.
  assert (intrinsic_price data contractCreation homestead = price) as ->; [|done].
  unfold intrinsic_price, price. rewrite nonZeroBytes_count by done. fold nz.
  unfold TxGasContractCreation, TxGas, TxDataNonZeroGas, TxDataZeroGas. lia.
Qed.

(** The gas pool is an account: what was taken from it can be put back, it
    refuses to go below zero, and it never overflows silently. *)
Lemma gas_pool_accounts gp amount :
  is_u64 gp -> is_u64 amount ->
  (amount <= gp -> exists gp', GasPool_SubGas gp amount = (None, gp') /\ gp' = gp - amount /\
     GasPool_AddGas gp' amount = Some gp) /\
  (gp < amount -> GasPool_SubGas gp amount = (Some ErrGasLimitReached, gp)) /\
  GasPool_AddGas gp amount = (if gp + amount <? 2 ^ 64 then Some (gp + amount) else None).
Proof.
  unfold is_u64, GasPool_SubGas, GasPool_AddGas, MaxUint64. intros Hg Ha. split; [|split].
  - intros Hle. replace (gp <? amount) with false by lia. eexists. split; [done|].
    rewrite u64_small by (unfold is_u64; lia). split; [done|].
    replace (gp - amount >? 2 ^ 64 - 1 - amount) with false by lia.
    by replace (gp - amount + amount) with gp by lia; rewrite u64_small by (unfold is_u64; lia).
  - intros Hlt. by replace (gp <? amount) with true by lia.
  - destruct (gp + amount <? 2 ^ 64) eqn:E; zbool.
    + replace (gp >? 2 ^ 64 - 1 - amount) with false by lia.
      by rewrite u64_small by (unfold is_u64; lia).
    + by replace (gp >? 2 ^ 64 - 1 - amount) with true by lia.
Qed.

(** ** The theorems on the sample *)

Definition sampleMessage : Message := mkMessage 101 (Some 102) 2 60000 7 7 true [x00; x01].

Lemma sampleMessage_ok : msg_ok sampleMessage.
Proof.
  split; [by vm_compute| |by vm_compute..]. intros to [= <-]. by vm_compute.
Qed.

Lemma message_is_applied_or_refused_witness :
  exists ret used failed err t',
    ApplyMessage sampleEnv sampleEVM sampleMessage 8000000 = Ret ((ret, used, failed, err), t') /\
    evm_ok (t_evm t').
Proof.
  destruct (message_is_applied_or_refused sampleEnv sampleEVM sampleMessage 8000000)
    as (r & used & failed & err & t' & E & H & _);
    [apply sampleEnv_ok|apply sampleMessage_ok|apply sampleEVM_ok|reflexivity|by vm_compute|].
  exists r, used, failed, err, t'. exact (conj E H).
Defined.

(** The result of a message without the state. *)
Definition txResult {X} (o : outcome (list byte * Z * bool * option txErr * X))
    : option (Z * bool * option txErr) :=
  match o with Ret ((_, used, failed, err), _) => Some (used, failed, err) | _ => None end.

(** The store succeeds. *)
Example applied_message :
  txResult (ApplyMessage sampleEnv sampleEVM sampleMessage 8000000) = Some (41078, false, None).
Proof. vm_compute. reflexivity. Qed.




(** The message of [applied_message] to a block with no gas left. *)
Example refused_early :
  txResult (ApplyMessage sampleEnv sampleEVM sampleMessage 100) = Some (0, false, Some ErrGasLimitReached).
Proof. vm_compute. reflexivity. Qed.

Lemma intrinsic_gas_exact_witness : IntrinsicGas [x00; x01; x02] true true = inr 53140.
Proof. apply (intrinsic_gas_exact [x00; x01; x02] true true). by vm_compute. Defined.

Lemma gas_pool_accounts_witness :
  GasPool_SubGas 5 9 = (Some ErrGasLimitReached, 5).
Proof. apply (gas_pool_accounts 5 9); by vm_compute. Defined.
