(* ===== verification/RlpTheorems.v ===== *)
(** * The RLP codec

    Claims about [rlp/]: the encoder produces the format, the stream decoder
    accepts exactly it, into an interface and into types, and the splitting
    functions agree with both; blocks are read back as they were written. *)

From Stdlib Require Import ZArith Lia Bool.
From S2P Require Import Prelude GoMath Rlp RlpStream RlpStreamSpec.
From S2P Require Import StateInterface BlockTypes RlpTypes.
Local Open Scope Z_scope.

(** ** Lemmas *)

(** Without list headers the buffer is its string data. *)
Lemma toBytes_plain b w : eb_lheads w = [] -> eb_lhsize w = 0 -> eb_str w = b -> toBytes w = Some b.
Proof.
  intros Hh Hs <-. unfold toBytes, eb_size. rewrite Hh, Hs, Z.add_0_r. cbn [toBytesLoop].
  pose proof (zlen_nonneg (eb_str w)).
  rewrite slice_Some by lia. change (zlen (@nil byte)) with 0. cbn [app Z.to_nat drop].
  rewrite Z.sub_0_r, !(take_ge (eb_str w)) by (unfold zlen; rewrite ?length_take; lia).
  rewrite Z.sub_diag. cbn. by rewrite app_nil_r.
Qed.

Lemma toBytes_writeUint i :
  0 <= i < 2 ^ 64 -> toBytes (writeUint i eb_reset) = Some (rlp (Str (Bytes i))).
Proof. intros Hi. rewrite writeUint_rlp by done. by apply toBytes_plain. Qed.

(** ** Claims *)

(** The encoder writes the format.  For every tree of byte strings
    whose encoding is shorter than 2^63 bytes, [EncodeToBytes], which collects
    string data and list headers in separate buffers and merges them at the
    end, never slices out of range and returns the recursively defined
    encoding [rlp]. *)
Theorem encode_is_rlp (v : item) :
  zlen (rlp v) < 2 ^ 63 -> EncodeToBytes v = Some (rlp v).
Proof. apply EncodeToBytes_rlp. Qed.

Lemma encode_is_rlp_witness :
  zlen (rlp (Lst [Str [x63; x61; x74]; Lst []])) < 2 ^ 63 /\
  EncodeToBytes (Lst [Str [x63; x61; x74]; Lst []]) = Some (rlp (Lst [Str [x63; x61; x74]; Lst []])).
Proof. split; [reflexivity|apply encode_is_rlp; reflexivity]. Defined.

(** The stream decoder accepts exactly the format.  On any input below
    2^62 bytes [DecodeBytes] returns (no panic, the bounds on list elements and
    nesting are enough); it returns the value [it] exactly when the input is
    the encoding of [it], so that every value has one accepted encoding, and
    an error on everything else. *)
Theorem decode_accepts_exactly_rlp (b : list byte) :
  zlen b < 2 ^ 62 ->
  (exists v, DecodeBytes b = Ret v) /\
  (forall it, DecodeBytes b = Ret (inr it) <-> b = rlp it).
Proof.
  intros Hb. destruct (DecodeBytes_spec b Hb) as (v & E & H). split; [by exists v|].
  intros it. rewrite E. split.
  - by intros [= ->].
  - intros Eb. destruct v as [e|it']; [by destruct (H it)|]. do 2 f_equal.
    rewrite H in Hb, Eb. by apply rlp_inj in Eb.
Qed.

Lemma decode_accepts_exactly_rlp_witness :
  DecodeBytes [xc6; x83; x63; x61; x74; x7f; xc0] =
    Ret (inr (Lst [Str [x63; x61; x74]; Str [x7f]; Lst []])) /\
  (forall it, DecodeBytes [xc2; x81; x05] <> Ret (inr it)).
Proof.
  split.
  - apply (proj2 (decode_accepts_exactly_rlp [xc6; x83; x63; x61; x74; x7f; xc0] eq_refl)).
    reflexivity.
  - intros it H. vm_compute in H. discriminate.
Defined.

(** Decoding inverts encoding.  What [EncodeToBytes] returns for a
    value, [DecodeBytes] reads back as that value. *)
Theorem encode_decode (v : item) :
  zlen (rlp v) < 2 ^ 62 ->
  exists b, EncodeToBytes v = Some b /\ DecodeBytes b = Ret (inr v).
Proof.
  intros Hz. exists (rlp v). split; [apply EncodeToBytes_rlp; lia|].
  destruct (DecodeBytes_spec (rlp v) Hz) as ([e|it] & -> & H); [by destruct (H v)|].
  apply rlp_inj in H; [by subst|done].
Qed.

Lemma encode_decode_witness :
  exists b, EncodeToBytes (Lst [Str []; Str [x80]]) = Some b /\
    DecodeBytes b = Ret (inr (Lst [Str []; Str [x80]])).
Proof. apply encode_decode. reflexivity. Defined.

(** Unsigned integers.  [writeUint] writes a 64-bit integer so that
    [Stream.Uint] reads it back and is then at the end of the input; and every
    input [Uint] reads completely is the one [writeUint] writes for its result. *)
Theorem uint_round_trip (i : Z) :
  0 <= i < 2 ^ 64 ->
  (exists b s, toBytes (writeUint i eb_reset) = Some b /\
     Stream_Uint (NewStream b (zlen b)) = Ret (inr i, s) /\ st_r s = []) /\
  (forall b s, zlen b < 2 ^ 62 -> Stream_Uint (NewStream b (zlen b)) = Ret (inr i, s) ->
     st_r s = [] -> toBytes (writeUint i eb_reset) = Some b).
Proof.
  intros Hi. split.
  - set (b := rlp (Str (Bytes i))).
    assert (zlen b < 2 ^ 62) as Hb.
    { pose proof (zlen_Bytes_le i 8 ltac:(lia) Hi). pose proof (zlen_rlp_short (Bytes i)). unfold b. lia. }
    exists b.
    destruct (Stream_uint_ok 8 _ _ _ (NewStream_fresh b (zlen b) Hb (or_intror eq_refl)) eq_refl ltac:(lia)) as ([e|v] & s & E & H).
    + destruct H as [_ H]. exfalso. apply (H i []); [done|by rewrite app_nil_r|]. cbn [room].
      by unfold b.
    + exists s. split; [by apply toBytes_writeUint|]. destruct H as (Hv & r' & Eb & _ & _ & Ha).
      pose proof (f_equal zlen Eb) as Hl. rewrite zlen_app in Hl. pose proof (zlen_nonneg r').
      rewrite <- (app_nil_r b) in Eb. apply rlp_prefix in Eb as [[= Ev] <-]; [|fold b; lia|lia].
      assert (v = i) as -> by (rewrite <- (SetBytes_Bytes v), <- Ev, SetBytes_Bytes; (done || lia)).
      split; [exact E|]. by apply (ah_r _ _ _ Ha).
  - intros b s Hb E Hs.
    destruct (Stream_uint_ok 8 _ _ _ (NewStream_fresh b (zlen b) Hb (or_intror eq_refl)) eq_refl ltac:(lia)) as (v & s' & E' & H).
    unfold Stream_Uint in E. change 64 with (8 * 8) in E. rewrite E in E'. injection E' as <- <-.
    destruct H as (_ & r' & -> & _ & _ & Ha). rewrite (ah_r _ _ _ Ha) in Hs. subst r'.
    rewrite app_nil_r. by apply toBytes_writeUint.
Qed.

Lemma uint_round_trip_witness :
  (exists b s, toBytes (writeUint 1024 eb_reset) = Some b /\
     Stream_Uint (NewStream b (zlen b)) = Ret (inr 1024, s) /\ st_r s = []) /\
  toBytes (writeUint 1024 eb_reset) = Some [x82; x04; x00].
Proof.
  split; [apply uint_round_trip; split; [discriminate|reflexivity]|].
  eapply (proj2 (uint_round_trip 1024 ltac:(split; [discriminate|reflexivity]))); [reflexivity..].
Defined.

(** Splitting.  On inputs below 2^60 bytes [Split] never slices out of
    range, and it returns kind, content and rest exactly when the input is the
    encoding of that content with that kind followed by the rest: headers that
    are longer than needed are refused. *)
Theorem split_exact (b : list byte) :
  zlen b < 2 ^ 60 ->
  Split b <> None /\
  forall k c rest, Split b = Some (inr (k, c, rest)) <-> b = enc k c ++ rest /\ kind_ok k c.
Proof.
  intros Hb. split; [apply Split_total; lia|]. intros k c rest. split.
  - intros H. apply Split_inv in H; [done|lia].
  - intros [-> Hk]. rewrite zlen_app in Hb. pose proof (zlen_enc k c). pose proof (zlen_nonneg rest).
    apply Split_enc; [done|lia].
Qed.

Lemma split_exact_witness :
  Split [x82; x80; x80; x05] = Some (inr (KString, [x80; x80], [x05])) /\
  Split [xb8; x01; x80] = Some (inl ErrCanonSize).
Proof.
  split; [|reflexivity].
  apply (proj2 (split_exact [x82; x80; x80; x05] eq_refl)). split; [reflexivity|].
  intros x Hx. discriminate.
Defined.

(** Counting.  [CountValues] of a sequence of encodings is their
    number. *)
Theorem count_values (l : list item) :
  zlen (concat (map rlp l)) < 2 ^ 61 -> CountValues (concat (map rlp l)) = Some (inr (zlen l)).
Proof. intros Hz. unfold CountValues. by rewrite CountValuesLoop_rlp. Qed.

Lemma count_values_witness :
  CountValues (concat (map rlp [Str [x63; x61; x74]; Lst [Str []]; Str [x05]])) = Some (inr 3).
Proof. apply (count_values [Str [x63; x61; x74]; Lst [Str []]; Str [x05]]). reflexivity. Defined.

(** ** Decoding into types *)

(** C27: decoding into a type is exact.  The type is made of byte slices, arrays
    of bytes of any length but one, integers of up to 64 bits and big ones, slices,
    structs and optional pointers ([type_ok]; for arrays of one byte see
    [array_of_one_zero]).  [DecodeBytes] returns on every input, without a panic; it
    returns a value exactly when the input is the canonical encoding of an item that
    stands for the value in the type, and an error otherwise.  For types without
    optional pointers that item is the value's own: the input is then the encoding
    of the value and nothing else is read as it (an optional pointer is also read
    from the other empty item, see [recipient_as_list]). *)
Theorem typed_decode_exact t b :
  type_ok t -> zlen b < 2 ^ 62 ->
  exists r, DecodeBytesAs t b = Ret r /\
    (forall v, r = inr v <-> exists it, parseAs t it = Some v /\ b = rlp it) /\
    (strict t -> forall v, r = inr v -> b = rlp (itemOf v)).
Proof.
  intros Ht Hb. destruct (DecodeBytesAs_spec t b Ht Hb) as (r & E & H). exists r. split; [done|].
  assert (forall v, r = inr v <-> exists it, parseAs t it = Some v /\ b = rlp it) as Hiff.
  { intros v. split.
    - by intros ->.
    - intros (it & Hp & ->). destruct r as [e|v']; [by destruct (H it v Hp)|]. destruct H as (it' & Hp' & Eq).
      apply rlp_inj in Eq as <-; [|done]. rewrite Hp in Hp'. by injection Hp' as ->. }
  split; [done|]. intros Hs v Hr. apply Hiff in Hr as (it & Hp & ->). by rewrite (parse_strict t Hs it v Hp).
Qed.

(** A value that is accepted, and an input that encodes none: the string of one
    byte below 128 has a prefix it must not have. *)
Lemma typed_decode_exact_witness :
  (exists v, DecodeBytesAs (TStruct [TUint 8; TBytes]) [xc3; x07; x81; x80] = Ret (inr v) /\ [xc3; x07; x81; x80] = rlp (itemOf v)) /\
  (exists e, DecodeBytesAs (TStruct [TUint 8; TBytes]) [xc3; x07; x81; x7f] = Ret (inl e) /\
    forall it v, parseAs (TStruct [TUint 8; TBytes]) it = Some v -> [xc3; x07; x81; x7f] <> rlp it).
Proof.
  split.
  - destruct (typed_decode_exact (TStruct [TUint 8; TBytes]) [xc3; x07; x81; x80]) as (r & E & _ & H); [cbn; lia|by vm_compute|].
    destruct r as [e|v]; [by vm_compute in E|]. exists v. split; [exact E|]. apply H; [cbn; tauto|reflexivity].
  - destruct (typed_decode_exact (TStruct [TUint 8; TBytes]) [xc3; x07; x81; x7f]) as (r & E & H & _); [cbn; lia|by vm_compute|].
    destruct r as [e|v]; [|by vm_compute in E]. exists e. split; [exact E|]. intros it v Hp Eb.
    assert (inl e = inr v) as Hx by (apply H; by exists it). discriminate Hx.
Defined.

(** C28: blocks survive encoding.  A block whose numbers have their widths is
    encoded without error, and decoding the bytes gives the block back, header,
    transactions and uncles. *)
Theorem block_round_trip b :
  header_ok (b_header b) -> Forall tx_wf (b_transactions b) -> Forall header_ok (b_uncles b) ->
  zlen (rlp (itemOf (blockField b))) < 2 ^ 62 ->
  exists bytes v, Encode (blockField b) = Some (inr bytes) /\ DecodeBytesAs blockType bytes = Ret (inr v) /\ blockOf v = Some b.
Proof.
  intros H1 H2 H3 Hz. destruct (block_typed b H1 H2 H3) as (T1 & T2 & T3).
  exists (rlp (itemOf (blockField b))), (blockField b). split; [apply Encode_rlp; [done|lia]|]. split; [|done].
  apply (parse_itemOf _ blockType_ok) in T1.
  destruct (DecodeBytesAs_spec blockType _ blockType_ok Hz) as ([e|v] & -> & H).
  - by destruct (H _ _ T1).
  - destruct H as (it & Hp & Eq). apply rlp_inj in Eq as <-; [|done]. rewrite T1 in Hp. by injection Hp as <-.
Qed.

Definition someBlock : Block :=
  mkBlock (mkHeader 1 2 3 4 5 6 7 8 9 10 11 12 [x01; x02] 13 14) [mkHeader 0 2 3 4 5 6 0 8 9 10 11 12 [] 13 15]
    [mkTx 1 2 21000 (Some 7) 5 [x00] 27 1 1; mkTx 2 2 53000 None 0 [x60] 28 3 4].

Lemma block_round_trip_witness :
  exists bytes v, Encode (blockField someBlock) = Some (inr bytes) /\ DecodeBytesAs blockType bytes = Ret (inr v) /\ blockOf v = Some someBlock.
Proof.
  apply (block_round_trip someBlock).
  - split; by vm_compute.
  - apply Forall_cons; split; [split; [by vm_compute..|by intros a [= <-]]|].
    apply Forall_singleton. split; [by vm_compute..|by intros a].
  - apply Forall_singleton. split; by vm_compute.
  - by vm_compute.
Defined.
