(* ===== verification/TrieTheorems.v ===== *)
(** * The Merkle Patricia trie

    Claims about [trie/]: the key encodings, and the operations of [Trie]
    against a finite map from keys to values, over any database that can
    deliver the nodes the trie refers to. *)

From Stdlib Require Import ZArith Lia Bool.
From S2P Require Import Prelude GoMath Rlp TrieEncoding Trie TrieSpec TrieUpdate.
From S2P Require Import TrieNode TrieDatabase TrieHasher TrieHashSpec TrieHashOk.
Local Open Scope Z_scope.
Local Open Scope trie_scope.

(** ** Tries and maps *)


Abbreviation Map := (gmap (list byte) (list byte)).

Section map.
Context {R : NodeReader} {F : FlagInv}.

(** The root resolves to a canonical tree with the entries of [m]. *)
Definition trie_is (pt : ptree) (m : Map) (t : Trie) : Prop :=
  expands true (t_root t) pt /\ canon0 pt /\
  (forall key, plookup pt (keybytesToHex key) = m !! key) /\
  (forall k v, hexkey k -> plookup pt k = Some v -> exists key, k = keybytesToHex key).

Definition trie_ok (m : Map) (t : Trie) : Prop := exists pt, trie_is pt m t.

Lemma keyFuel_ok key n : (2 * length key + 1 + hashCost n <= keyFuel key)%nat.
Proof. unfold keyFuel, hashCost. destruct (isHash n); lia. Qed.

Lemma slot_root pt key : canon0 pt -> slot pt (keybytesToHex key).
Proof.
  intros Hc. pose proof (hexkey_keybytes key) as Hk.
  destruct (keybytesToHex key); [by apply hexkey_nonempty in Hk|]. done.
Qed.

Lemma canon0_slot pt key : slot pt (keybytesToHex key) -> canon0 pt.
Proof.
  pose proof (hexkey_keybytes key) as Hk.
  destruct (keybytesToHex key); [by apply hexkey_nonempty in Hk|]. by intros [_ ?].
Qed.

(** An update of one entry. *)
Lemma trie_updated pt pt' m key o t n :
  trie_is pt m t -> expands true n pt' -> canon0 pt' -> updated pt pt' (keybytesToHex key) o ->
  trie_ok (partial_alter (fun _ => o) key m) (set_root n t).
Proof.
  intros (_ & _ & Hm & Hkeys) He Hc Hu. exists pt'. split; [done|]. split; [done|]. split.
  - intros k. rewrite Hu by (right; apply hexkey_keybytes). case_decide as D.
    + apply keybytesToHex_inj in D as ->. by rewrite lookup_partial_alter_eq.
    + rewrite lookup_partial_alter_ne by congruence. apply Hm.
  - intros k v Hk E. rewrite Hu in E by (by right). case_decide as D; [by exists key|].
    by apply (Hkeys k v).
Qed.

Lemma TryGet_ok m t key :
  trie_ok m t -> exists t', TryGet t key = tok (m !! key, t') /\ trie_ok m t'.
Proof.
  intros (pt & He & Hc & Hm & Hkeys). unfold TryGet. set (k := keybytesToHex key).
  destruct (tryGet_ok (keyFuel k) (t_cachegen t) true (t_root t) pt k 0 He) as (n' & d & E & He').
  { lia. }
  { change (drop 0 k) with k. by apply slot_root. }
  { rewrite Nat.sub_0_r. apply keyFuel_ok. }
  rewrite E. cbn [tbind tok]. change (drop 0 k) with k. unfold k. rewrite Hm.
  eexists. split; [done|]. destruct d; by exists pt.
Qed.

Lemma delete_root pt m t key :
  trie_is pt m t ->
  exists d n, delete (keyFuel (keybytesToHex key)) (t_cachegen t) (t_root t) [] (keybytesToHex key) = tok (d, n) /\
    trie_ok (base.delete key m) (set_root n t).
Proof.
  intros Ht. pose proof Ht as (He & Hc & Hm & Hkeys).
  destruct (delete_ok (t_cachegen t) (keyFuel (keybytesToHex key)) true (t_root t) pt [] (keybytesToHex key) He)
    as (d & n & E & Hok); [by apply slot_root|apply keyFuel_ok|].
  exists d, n. split; [done|]. destruct d.
  - destruct Hok as (_ & _ & pt' & He' & Hs & Hu & _).
    eapply trie_updated; [done|done|by eapply canon0_slot|done].
  - destruct Hok as [Hnone He']. rewrite Hm in Hnone. rewrite delete_id by done. by exists pt.
Qed.

Lemma TryUpdate_ok m t key value :
  trie_ok m t ->
  exists t', TryUpdate t key value = tok t' /\
    trie_ok (if decide (value = []) then base.delete key m else <[key := value]> m) t'.
Proof.
  intros (pt & Ht). unfold TryUpdate. destruct value as [|x value].
  - change (zlen [] =? 0) with true. cbn [negb].
    destruct (delete_root _ _ _ key Ht) as (d & n & -> & Hok). cbn [tbind tok].
    eexists. split; [done|]. by rewrite decide_True.
  - replace (zlen (x :: value) =? 0) with false
      by (rewrite zlen_cons; pose proof (zlen_nonneg value); symmetry; apply Z.eqb_neq; lia).
    cbn [negb]. pose proof Ht as (He & Hc & Hm & Hkeys).
    destruct (insert_ok (t_cachegen t) (x :: value) ltac:(done) (keyFuel (keybytesToHex key))
      true (t_root t) pt [] (keybytesToHex key) He) as (d & n & -> & Hok); [by apply slot_root|apply keyFuel_ok|].
    cbn [tbind tok]. eexists. split; [done|]. rewrite decide_False by done. destruct d.
    + destruct Hok as (pt' & He' & Hs & _ & Hu & _).
      eapply (trie_updated _ _ _ _ (Some (x :: value))); [done|done|by eapply canon0_slot|done].
    + destruct Hok as [Hsome He']. rewrite Hm in Hsome. rewrite insert_id by done. by exists pt.
Qed.

Lemma TryDelete_ok m t key :
  trie_ok m t -> exists t', TryDelete t key = tok t' /\ trie_ok (base.delete key m) t'.
Proof.
  intros (pt & Ht). unfold TryDelete. destruct (delete_root _ _ _ key Ht) as (d & n & -> & Hok).
  by eexists.
Qed.

(** ** Programs *)

Inductive trieOp :=
| TGet (key : list byte)
| TUpdate (key value : list byte)
| TDelete (key : list byte).

(** The answers of the reads, and the final trie. *)
Fixpoint runTrie (t : Trie) (ops : list trieOp) : TM (list (option (list byte)) * Trie) :=
  match ops with
  | [] => tok ([], t)
  | TGet key :: ops =>
      do '(v, t) := TryGet t key in
      do '(vs, t) := runTrie t ops in
      tok (v :: vs, t)
  | TUpdate key value :: ops => do t := TryUpdate t key value in runTrie t ops
  | TDelete key :: ops => do t := TryDelete t key in runTrie t ops
  end.

Fixpoint runMap (m : Map) (ops : list trieOp) : list (option (list byte)) * Map :=
  match ops with
  | [] => ([], m)
  | TGet key :: ops => let '(vs, m') := runMap m ops in (m !! key :: vs, m')
  | TUpdate key value :: ops =>
      runMap (if decide (value = []) then base.delete key m else <[key := value]> m) ops
  | TDelete key :: ops => runMap (base.delete key m) ops
  end.

(** C16: the trie is a finite map.  Any program of reads, updates and
    deletions, run by [TryGet], [TryUpdate] and [TryDelete] on a trie whose
    nodes the database can deliver, ends without an error or a panic, returns
    the answers of the same program on a finite map from keys to values (an
    empty value deletes), and leaves a trie that again stands for the map. *)
Theorem trie_refines_map (m : Map) (t : Trie) (ops : list trieOp) :
  trie_ok m t ->
  exists t', runTrie t ops = tok ((runMap m ops).1, t') /\ trie_ok (runMap m ops).2 t'.
Proof.
  revert m t. induction ops as [|[key|key value|key] ops IH]; intros m t Ht; cbn [runTrie runMap].
  - by exists t.
  - destruct (TryGet_ok m t key Ht) as (t' & -> & Ht'). cbn [tbind tok].
    destruct (IH m t' Ht') as (t'' & -> & Ht''). cbn [tbind tok].
    destruct (runMap m ops) as [vs m']. by exists t''.
  - destruct (TryUpdate_ok m t key value Ht) as (t' & -> & Ht'). cbn [tbind tok]. by apply IH.
  - destruct (TryDelete_ok m t key Ht) as (t' & -> & Ht'). cbn [tbind tok]. by apply IH.
Qed.

End map.

(** A canonical tree is determined by the map. *)
Lemma trie_is_unique (R1 R2 : NodeReader) (F1 F2 : FlagInv) p1 p2 m t1 t2 :
  @trie_is R1 F1 p1 m t1 -> @trie_is R2 F2 p2 m t2 -> p1 = p2.
Proof.
  intros (_ & Hc1 & Hm1 & Hk1) (_ & Hc2 & Hm2 & Hk2).
  assert (same_entries p1 p2) as Hs.
  { intros k Hk. destruct (plookup p1 k) as [v|] eqn:E1.
    - destruct (Hk1 _ _ Hk E1) as (key & ->). by rewrite Hm2, <- Hm1.
    - destruct (plookup p2 k) as [v|] eqn:E2; [|done].
      destruct (Hk2 _ _ Hk E2) as (key & ->). by rewrite Hm1, <- Hm2, E2 in E1. }
  destruct Hc1 as [->|Hc1], Hc2 as [->|Hc2].
  - done.
  - destruct (canon_entry p2 Hc2) as (k & v & Hk & E). by rewrite <- Hs in E.
  - destruct (canon_entry p1 Hc1) as (k & v & Hk & E). by rewrite Hs in E.
  - by apply canon_unique.
Qed.

(** The shape of a trie is determined by its entries.  Two tries that
    stand for the same map, whatever the history of updates, deletions and
    loaded nodes, resolve to the same tree. *)
Theorem trie_shape_unique {R : NodeReader} {F : FlagInv} (m : Map) (t1 t2 : Trie) :
  trie_ok m t1 -> trie_ok m t2 ->
  exists pt, expands true (t_root t1) pt /\ expands true (t_root t2) pt.
Proof.
  intros (p1 & H1) (p2 & H2). exists p1. pose proof (trie_is_unique _ _ _ _ _ _ _ _ _ H1 H2) as <-.
  split; [apply H1|apply H2].
Qed.

(** ** Tries over a database *)

Section session.
Context {K : Sha3}.

(** The trie stands for [m] over the database [d]: what is not in memory is in
    [d], cached hashes are right, and clean nodes are stored. *)
Definition sess_is (d : Database) (pt : ptree) (m : Map) (t : Trie) : Prop :=
  @trie_is (reader d) (hashInv (stored d)) pt m t.
Definition sess (d : Database) (m : Map) (t : Trie) : Prop := exists pt, sess_is d pt m t.

(** Keys below 2^38 bytes and values below 2^40. *)
Definition small_map (m : Map) : Prop := map_Forall (fun k v => zlen k < 2 ^ 38 /\ zlen v < 2 ^ 40) m.

Lemma sess_bounded d pt m t : sess_is d pt m t -> small_map m -> bounded pt.
Proof.
  intros (_ & [->|Hc] & Hm & Hk) Hs; [apply bounded_nil|]. apply small_bounded; [done|].
  intros key v Hkey E. destruct (Hk _ _ Hkey E) as (k & ->). rewrite Hm in E.
  destruct (Hs k v E) as [H1 H2]. unfold limit. split; [|done]. unfold keybytesToHex.
  rewrite zlen_app. unfold zlen in *. rewrite length_hexOf. change (length [x10]) with 1%nat. lia.
Qed.

(** The walk of the hasher from the root. *)
Lemma hashRoot_ok d pt m t onleaf o :
  sess_is d pt m t -> bounded pt ->
  (forall f v h d, onleaf = Some f -> flush_ok d -> flush_ok (f v h d) /\ same_nodes d (f v h d)) ->
  o = None \/ o = Some d -> dbok pt o -> pt <> PNil ->
  exists n2 o', hashRoot t onleaf o = Ret ((hashNode (H pt), n2), o') /\
    dbok pt o' /\ grows o o' /\ held (Ao (stored d) o') true n2 pt /\ storedO o' pt.
Proof.
  intros (He & Hc & _) Hb Hleaf Ho Hok Hne. destruct Hc as [|Hc]; [done|].
  assert (isNil (t_root t) = false) as Hnil.
  { destruct (isNil (t_root t)) eqn:E; [|done]. by apply (expands_nil _ _ _ He) in E. }
  assert (held (Ao (stored d) o) true (t_root t) pt) as Hh.
  { apply expands_held in He. by destruct Ho as [->| ->]. }
  destruct (hash_ok (t_cachegen t) (t_cachelimit t) onleaf pt Hb Hleaf (stored d) (t_root t) true pt o Hh)
    as (n1 & n2 & o' & E & Hok' & Hg & En & Hh' & _ & Hst); [constructor|done|done|].
  exists n2, o'. split; [|by auto].
  assert (n1 = hashNode (H pt)) as -> by (destruct n1; done).
  unfold hashRoot. by destruct (t_root t).
Qed.

Lemma emptyRoot_bytes : BytesToHash (be_bytes 32 emptyRoot) = emptyRoot.
Proof. by vm_compute. Qed.

Lemma sess_nil d m t : sess_is d PNil m t -> t_root t = NilNode.
Proof.
  intros (He & _). assert (isNil (t_root t) = true) as E by (by apply (expands_nil _ _ _ He)).
  by destruct (t_root t).
Qed.

Lemma Hash_ok d pt m t :
  sess_is d pt m t -> small_map m ->
  exists t', Hash_ t = Ret (rootOf pt, t') /\ sess_is d pt m t'.
Proof.
  intros Ht Hs. pose proof (sess_bounded _ _ _ _ Ht Hs) as Hb.
  pose proof Ht as (He & Hc & Hm & Hk). destruct (pnil_dec pt) as [->|Hne].
  - unfold Hash_, hashRoot. rewrite (sess_nil _ _ _ Ht). cbn [ret rootHash].
    rewrite emptyRoot_bytes. eexists. split; [done|]. split; [constructor|done].
  - destruct (hashRoot_ok d pt m t None None Ht Hb) as (n2 & o' & E & _ & Hg & Hh & _);
      [done|by left|done|done|].
    unfold Hash_. rewrite E. cbn [rootHash]. destruct o'; [done|].
    replace (rootOf pt) with (key_of_hash pt) by (by destruct pt).
    eexists. split; [done|]. split; [|done].
    apply held_expands; [done|by left|done].
Qed.

(** Keccak gives different hashes for the nodes of the tree and whatever the
    cache holds under them, and neither zero nor the root of the empty trie for
    the root. *)
Record collision_free (d : Database) (pt : ptree) : Prop := {
  cf_cache : nocoll pt d;
  cf_tree : injective pt;
  cf_root : pt = PNil \/ (key_of_hash pt <> 0 /\ key_of_hash pt <> emptyRoot)
}.

(** The leaf callback leaves the nodes and the flush-list alone. *)
Definition leaf_callback (onleaf : option (list byte -> Hash -> Database -> Database)) : Prop :=
  forall f v h d, onleaf = Some f -> flush_ok d -> flush_ok (f v h d) /\ same_nodes d (f v h d).

Lemma New_ok d pt m t :
  sess_is d pt m t -> bounded pt -> pt <> PNil ->
  key_of_hash pt <> 0 /\ key_of_hash pt <> emptyRoot -> stored d pt ->
  exists t', @New (reader d) (key_of_hash pt) = tok t' /\ sess_is d pt m t'.
Proof.
  intros (_ & Hc & Hm & Hk) Hb Hne [H0 H1] Hst. pose proof Hc as [|Hcan]; [done|].
  pose proof (stored_expands d true pt Hcan Hb Hst ltac:(done)) as He.
  destruct (resolveHash_ok (R := reader d) (F := hashInv (stored d)) 0 true _ [] pt He)
    as (n & E & _ & Hn).
  unfold New. apply Z.eqb_neq in H0 as ->. apply Z.eqb_neq in H1 as ->. cbn [negb andb t_cachegen].
  change (be_bytes 32 (key_of_hash pt)) with (hashBytes (key_of_hash pt)). rewrite hashBytes_key, E.
  cbn [tbind tok]. eexists. split; [done|]. by split.
Qed.

Lemma Commit_ok d pt m t onleaf :
  sess_is d pt m t -> small_map m -> leaf_callback onleaf -> flush_ok d -> collision_free d pt ->
  exists t' d' t'', Trie_Commit t onleaf d = Ret (rootOf pt, t', d') /\ sess_is d' pt m t' /\
    flush_ok d' /\ @New (reader d') (rootOf pt) = tok t'' /\ sess_is d' pt m t''.
Proof.
  intros Ht Hs Hleaf Hf [Hc1 Hc2 Hc3]. pose proof (sess_bounded _ _ _ _ Ht Hs) as Hb.
  pose proof Ht as (He & Hc & Hm & Hk). destruct (pnil_dec pt) as [->|Hne].
  - unfold Trie_Commit, hashRoot. rewrite (sess_nil _ _ _ Ht). cbn [ret rootHash].
    rewrite emptyRoot_bytes. do 3 eexists. split; [done|]. split; [split; [constructor|done]|].
    split; [done|]. split; [done|]. split; [constructor|done].
  - destruct Hc3 as [|Hc3]; [done|].
    destruct (hashRoot_ok d pt m t onleaf (Some d) Ht Hb Hleaf) as (n2 & o' & E & Hok & Hg & Hh & Hst);
      [by right|done|done|].
    destruct o' as [d'|]; [|done]. cbn [Ao storedO] in *.
    unfold Trie_Commit. rewrite E. cbn [rootHash].
    replace (rootOf pt) with (key_of_hash pt) by (by destruct pt).
    assert (sess_is d' pt m (mkTrie n2 (t_originalRoot t) (u16 (t_cachegen t + 1)) (t_cachelimit t))) as Ht'.
    { split; [|done]. apply held_expands; [done|by left|done]. }
    destruct (New_ok d' pt m _ Ht' Hb Hne Hc3 Hst) as (t'' & En & Ht'').
    exists (mkTrie n2 (t_originalRoot t) (u16 (t_cachegen t + 1)) (t_cachelimit t)), d', t''.
    split; [done|]. split; [done|]. split; [apply Hok|]. split; [done|done].
Qed.

(** The root hash is a function of the entries.  Two tries that stand for
    the same map, over any two databases and with any histories, cached hashes
    and unloaded nodes, give the same root from [Hash], and hashing leaves
    both standing for the map. *)
Theorem root_hash_determined (d1 d2 : Database) (m : Map) (t1 t2 : Trie) :
  small_map m -> sess d1 m t1 -> sess d2 m t2 ->
  exists h t1' t2', Hash_ t1 = Ret (h, t1') /\ Hash_ t2 = Ret (h, t2') /\ sess d1 m t1' /\ sess d2 m t2'.
Proof.
  intros Hs (p1 & H1) (p2 & H2). pose proof (trie_is_unique _ _ _ _ _ _ _ _ _ H1 H2) as <-.
  destruct (Hash_ok _ _ _ _ H1 Hs) as (t1' & E1 & S1). destruct (Hash_ok _ _ _ _ H2 Hs) as (t2' & E2 & S2).
  exists (rootOf p1), t1', t2'. split; [done|]. split; [done|]. split; by exists p1.
Qed.

(** C19: committing a trie and opening it again gives the same map.  [Commit]
    returns the root that [Hash] returns, leaves the trie standing for the map
    over the new database, and [New] with that root and database delivers a
    trie that stands for the map as well. *)
Theorem commit_and_reload (d : Database) (pt : ptree) (m : Map) (t : Trie)
    (onleaf : option (list byte -> Hash -> Database -> Database)) :
  sess_is d pt m t -> small_map m -> leaf_callback onleaf -> flush_ok d -> collision_free d pt ->
  exists h t1 d' t2 t3, Hash_ t = Ret (h, t1) /\ Trie_Commit t onleaf d = Ret (h, t2, d') /\
    @New (reader d') h = tok t3 /\ sess d m t1 /\ sess d' m t2 /\ sess d' m t3 /\ flush_ok d'.
Proof.
  intros Ht Hs Hl Hf Hcf. destruct (Hash_ok _ _ _ _ Ht Hs) as (t1 & E1 & S1).
  destruct (Commit_ok _ _ _ _ onleaf Ht Hs Hl Hf Hcf) as (t2 & d' & t3 & E2 & S2 & Hf' & E3 & S3).
  exists (rootOf pt), t1, d', t2, t3. split; [done|]. split; [done|]. split; [done|].
  split; [by exists pt|]. split; [by exists pt|]. split; [by exists pt|done].
Qed.
End session.

(** ** A sample *)

(** A function of the right type; nothing is said about Keccak. *)
#[refine] Definition toySha3 : Sha3 :=
  {| keccak256 := fun b => take 32 (rev b ++ replicate 32 x01) |}.
Proof. intros b. rewrite length_take, length_app, length_replicate. lia. Defined.

Definition emptyTrie : Trie := mkTrie NilNode 0 0 0.
Definition sampleKey : list byte := [x64; x6f].
Definition sampleValue : list byte := [x76].
Definition sampleMap : Map := {[ sampleKey := sampleValue ]}.
Definition sampleTree : ptree := PShort (keybytesToHex sampleKey) (PVal sampleValue).
Definition sampleTrie : Trie :=
  mkTrie (shortNode (keybytesToHex sampleKey) (valueNode sampleValue) (newFlag 0)) 0 0 0.

(** It is what an update of the empty trie gives. *)
Example sampleTrie_made :
  @TryUpdate (reader (NewDatabase ∅)) emptyTrie sampleKey sampleValue = tok sampleTrie.
Proof. vm_compute. reflexivity. Qed.

Lemma emptyTrie_ok (R : NodeReader) (F : FlagInv) : trie_ok ∅ emptyTrie.
Proof. exists PNil. split; [constructor|]. split; [by left|]. split; [done|]. by intros [|] v. Qed.

Lemma plookup_leaf_inv k v key w : plookup (PShort k (PVal v)) key = Some w -> key = k.
Proof.
  intros (key' & -> & E)%plookup_short_inv. destruct key'; [|done]. apply app_nil_r.
Qed.

(** A trie with one entry. *)
Lemma leaf_is (R : NodeReader) (F : FlagInv) key v : v <> [] ->
  trie_is (PShort (keybytesToHex key) (PVal v)) {[ key := v ]}
    (mkTrie (shortNode (keybytesToHex key) (valueNode v) (newFlag 0)) 0 0 0).
Proof.
  intros Hv. split; [|split; [|split]].
  - constructor; [constructor|apply fl_new].
  - right. constructor; [apply hexkey_keybytes|done].
  - intros k. destruct (decide (k = key)) as [->|Hne].
    + by rewrite lookup_singleton_eq, plookup_leaf.
    + rewrite lookup_singleton_ne by done. destruct (plookup _ _) eqn:E; [|done].
      by apply plookup_leaf_inv, keybytesToHex_inj in E.
  - intros k w _ E%plookup_leaf_inv. by exists key.
Qed.

Lemma leaf_sub u k v : sub u (PShort k (PVal v)) -> isNode u -> u = PShort k (PVal v).
Proof. intros Hs Hn. inversion Hs as [|? ? ? Hs'|]; subst; [done|]. by inversion Hs'; subst. Qed.

Lemma sampleTrie_is (R : NodeReader) (F : FlagInv) : trie_is sampleTree sampleMap sampleTrie.
Proof. by apply leaf_is. Qed.

Lemma sampleMap_small : small_map sampleMap.
Proof. by apply map_Forall_singleton. Qed.

Lemma sampleTree_sub u : sub u sampleTree -> isNode u -> u = sampleTree.
Proof. apply leaf_sub. Qed.

Lemma sample_collision_free : @collision_free toySha3 (NewDatabase ∅) sampleTree.
Proof.
  split.
  - intros u cn Hu Hn E. rewrite (sampleTree_sub u Hu Hn) in E. by vm_compute in E.
  - intros u w Hu Hw Hnu Hnw _. by rewrite (sampleTree_sub u Hu Hnu), (sampleTree_sub w Hw Hnw).
  - right. by vm_compute.
Qed.

Lemma trie_refines_map_witness :
  exists t', @runTrie (reader (NewDatabase ∅)) emptyTrie
      [TUpdate sampleKey sampleValue; TGet sampleKey; TDelete sampleKey; TGet sampleKey]
    = tok ([Some sampleValue; None], t') /\ trie_ok (R := reader (NewDatabase ∅)) ∅ t'.
Proof.
  exact (trie_refines_map (R := reader (NewDatabase ∅)) ∅ emptyTrie
    [TUpdate sampleKey sampleValue; TGet sampleKey; TDelete sampleKey; TGet sampleKey]
    (emptyTrie_ok _ _)).
Defined.

Lemma trie_shape_unique_witness :
  exists pt, expands (R := reader (NewDatabase ∅)) true (t_root sampleTrie) pt /\
    expands (R := reader (NewDatabase ∅)) true (t_root (SetCacheLimit 7 sampleTrie)) pt.
Proof.
  apply (trie_shape_unique sampleMap); exists sampleTree; apply sampleTrie_is.
Defined.

Lemma root_hash_determined_witness :
  exists h t1 t2, @Hash_ toySha3 sampleTrie = Ret (h, t1) /\
    @Hash_ toySha3 (SetCacheLimit 7 sampleTrie) = Ret (h, t2) /\
    @sess toySha3 (NewDatabase ∅) sampleMap t1 /\
    @sess toySha3 (NewDatabase {[ [x00] := [x01] ]}) sampleMap t2.
Proof.
  apply (@root_hash_determined toySha3 (NewDatabase ∅) (NewDatabase {[ [x00] := [x01] ]}) sampleMap).
  - apply sampleMap_small.
  - exists sampleTree. apply sampleTrie_is.
  - exists sampleTree. apply sampleTrie_is.
Defined.

Lemma commit_and_reload_witness :
  exists h t1 d' t2 t3, @Hash_ toySha3 sampleTrie = Ret (h, t1) /\
    @Trie_Commit toySha3 sampleTrie None (NewDatabase ∅) = Ret (h, t2, d') /\
    @New (reader d') h = tok t3 /\ @sess toySha3 (NewDatabase ∅) sampleMap t1 /\
    @sess toySha3 d' sampleMap t2 /\ @sess toySha3 d' sampleMap t3 /\ flush_ok d'.
Proof.
  apply (@commit_and_reload toySha3 (NewDatabase ∅) sampleTree sampleMap sampleTrie None).
  - apply sampleTrie_is.
  - apply sampleMap_small.
  - by intros f v h d [=].
  - by intros H.
  - apply sample_collision_free.
Defined.

(** ** Encodings *)

(** The key encodings lose nothing.  The hex encoding of a key is decoded
    by [hexToKeybytes], and the compact encoding of a nibble path, with or
    without terminator, by [compactToHex]. *)
Theorem key_encodings_round_trip (key ns : list byte) (leaf : bool) :
  nibbles ns ->
  hexToKeybytes (keybytesToHex key) = Some key /\
  exists c, hexToCompact (key_of leaf ns) = Some c /\ compactToHex c = Some (key_of leaf ns).
Proof. intros Hn. split; [apply hexToKeybytes_keybytes|by apply compact_round_trip]. Qed.

Lemma key_encodings_round_trip_witness :
  hexToKeybytes (keybytesToHex sampleKey) = Some sampleKey /\
  exists c, hexToCompact (key_of true [x01; x02; x0f]) = Some c /\
    compactToHex c = Some (key_of true [x01; x02; x0f]).
Proof. apply (key_encodings_round_trip sampleKey [x01; x02; x0f] true). by repeat constructor. Defined.

(** A collapsed node is loaded alike from the cache and from disk.  Its
    encoding decodes ([decodeNode]) to the node that the simplified form in the
    cache expands to ([expandNode]): clean, with the hash given. *)
Theorem disk_and_cache_agree (hash : option (list byte)) (gen : Z) (c : node) :
  collapsed c -> zlen (rlp (nodeItem c)) < 2 ^ 60 ->
  exists blob r n, encodeNode c = Some blob /\ simplifyNode c = Some r /\
    decodeNode hash blob gen = tok n /\ expandNode hash r gen = Some n.
Proof.
  intros Hc Hz. destruct (load_agree hash gen c Hc Hz) as (blob & r & n & E1 & E2 & E3 & E4 & _).
  by exists blob, r, n.
Qed.

Lemma disk_and_cache_agree_witness :
  exists blob r n, encodeNode (shortNode [x20; x64] (valueNode [x76]) (newFlag 3)) = Some blob /\
    simplifyNode (shortNode [x20; x64] (valueNode [x76]) (newFlag 3)) = Some r /\
    decodeNode None blob 5 = tok n /\ expandNode None r 5 = Some n.
Proof.
  apply (disk_and_cache_agree None 5 (shortNode [x20; x64] (valueNode [x76]) (newFlag 3))).
  - by eapply col_leaf.
  - by vm_compute.
Defined.

(** ** Panics *)

(** The cache takes two nodes, both referenced from outside, loses the second,
    and takes a third. *)
Definition collect_newest (b1 b2 b3 : list byte) (v1 v2 v3 : list byte) : M Database unit :=
  let leaf v := shortNode [x20] (valueNode v) (newFlag 0) in
  (Database_insert 1 b1 (leaf v1) ;; Database_insert 2 b2 (leaf v2) ;;
   Reference 1 0 ;; Reference 2 0 ;; Dereference 2 ;;
   Database_insert 3 b3 (leaf v3))%go.

(** Garbage collecting the newest node leaves [newest] dangling: the next
    insertion follows it to a nil entry and panics. *)
Theorem insert_after_collecting_newest_panics (disk : Mem.db) (b1 b2 b3 v1 v2 v3 : list byte) :
  collect_newest b1 b2 b3 v1 v2 v3 (NewDatabase disk) = Panic.
Proof. vm_compute. reflexivity. Qed.

(** A node whose compact key is empty makes [decodeNode] panic where
    other malformed nodes are reported as errors. *)
Theorem decode_empty_key_panics (hash : option (list byte)) (gen : Z) :
  decodeNode hash [xc2; x80; x80] gen = Panic /\
  (exists e, decodeNode hash [xc2; x80] gen = terr e) /\ (exists e, decodeNode hash [] gen = terr e).
Proof. split; [reflexivity|]. split; eexists; reflexivity. Qed.
