(* ===== verification/RootSpec.v ===== *)
(** * What a root hash commits to

    Two tries with the same root have the same entries, unless two of their nodes
    collide under the hash; and [DeriveSha] is the root of the list as a trie, so
    that a header commits to its transactions. *)

From Stdlib Require Import ZArith Lia Bool.
From S2P Require Import Prelude GoMath Rlp RlpStream RlpStreamSpec TrieEncoding Trie TrieSpec TrieUpdate.
From S2P Require Import TrieNode TrieDatabase TrieHasher TrieHashSpec TrieHashOk TrieProof.
From S2P Require Import StateInterface BlockTypes RlpTypes Receipts TrieTheorems.
Local Open Scope Z_scope.
Local Open Scope trie_scope.

Section binding.
Context {K : Sha3}.

(** The nodes of the two trees do not collide. *)
Definition no_clash (p1 p2 : ptree) : Prop := forall u v,
  sub u p1 \/ sub u p2 -> sub v p1 \/ sub v p2 -> isNode u -> isNode v -> H u = H v -> enc_of u = enc_of v.

(** The nodes a lookup visits, under their hashes. *)
Definition pathDb (t : ptree) (key : list byte) : Mem.db :=
  list_to_map (map (fun u => (H u, enc_of u)) (path t key)).

Lemma path_sub t : canon t -> forall key w, w ∈ path t key -> sub w t /\ isNode w.
Proof.
  induction 1 as [k v Hk Hv|k cs Hne Hk Hcs IH|cs Hl Hn IH Hv Hex]; intros key w.
  - cbn [path]. intros [->|Hw]%elem_of_cons; [by split; [constructor|]|]. case_bool_decide; by apply elem_of_nil in Hw.
  - cbn [path]. intros [->|Hw]%elem_of_cons; [by split; [constructor|]|]. case_bool_decide; [|by apply elem_of_nil in Hw].
    destruct (IH _ _ Hw) as [Hs Hnode]. split; [by constructor|done].
  - destruct key as [|b key]; [by intros Hw%elem_of_nil|]. rewrite path_full.
    intros [->|Hw]%elem_of_cons; [by split; [constructor|]|]. destruct (cs !! bidx b) as [c|] eqn:E; [|by apply elem_of_nil in Hw].
    assert (bidx b < 17)%nat by (rewrite <- Hl; by eapply lookup_lt_Some).
    destruct (pnil_dec c) as [->|Hc]; [by apply elem_of_nil in Hw|]. destruct (decide (bidx b = 16%nat)) as [E16|].
    + rewrite E16 in E. destruct (Hv c E Hc) as (v & -> & _). by apply elem_of_nil in Hw.
    + destruct (IH (bidx b) c ltac:(lia) E Hc key w Hw) as [Hs Hnode]. split; [by eapply sub_full|done].
Qed.

Lemma pathDb_from t key k b : pathDb t key !! k = Some b -> exists u, u ∈ path t key /\ k = H u /\ b = enc_of u.
Proof.
  unfold pathDb. intros E. apply elem_of_list_to_map_2, list_elem_of_fmap in E as (u & E & Hu). injection E as -> ->. by exists u.
Qed.

Lemma pathDb_has t key u : u ∈ path t key -> pathDb t key !! H u <> None.
Proof.
  unfold pathDb. intros Hu E. apply not_elem_of_list_to_map_2 in E. apply E. apply list_elem_of_fmap.
  exists (H u, enc_of u). split; [done|]. apply list_elem_of_fmap. by exists u.
Qed.

(** Equal hashes, equal entries. *)
Lemma hash_binds p1 p2 key :
  canon p1 -> canon p2 -> bounded p1 -> bounded p2 -> no_clash p1 p2 -> key_of_hash p1 = key_of_hash p2 ->
  plookup p1 (keybytesToHex key) = plookup p2 (keybytesToHex key).
Proof.
  intros C1 C2 B1 B2 Hcl E. set (k := keybytesToHex key).
  assert (forall p, sub p p1 \/ sub p p2 -> isNode p -> forall b, pathDb p2 k !! H p = Some b -> b = enc_of p) as Hg.
  { intros p Hp Hnp b (u & Hu & Eh & ->)%pathDb_from. destruct (path_sub p2 C2 k u Hu) as [Hs Hnu]. by apply Hcl; auto. }
  assert (slot p1 k) as S1 by (apply slot_root; by right). assert (slot p2 k) as S2 by (apply slot_root; by right).
  assert (genuine p1 (pathDb p2 k)) as G1 by (intros u b Hu Hn Eb; apply Hg; auto).
  assert (genuine p2 (pathDb p2 k)) as G2 by (intros u b Hu Hn Eb; apply Hg; auto).
  destruct (verifyLoop_ok p2 B2 _ G2 (length k + 1) 0 p2 k C2 (sub_refl p2) S2) as [(n2 & E2)|[(j & w & Hw & _ & Hno & _)|[_ Hle]]].
  - destruct (verifyLoop_ok p1 B1 _ G1 (length k + 1) 0 p1 k C1 (sub_refl p1) S1) as [(n1 & E1)|[(j & w & _ & _ & _ & E1)|[_ Hle]]].
    + rewrite E, E2 in E1. by injection E1.
    + by rewrite E, E2 in E1.
    + lia.
  - by apply pathDb_has in Hw.
  - lia.
Qed.

(** A root is not the one of the empty trie by accident. *)
Definition proper_root (p : ptree) : Prop := p = PNil \/ key_of_hash p <> emptyRoot.

Lemma root_binds d1 d2 p1 p2 m1 m2 t1 t2 :
  sess_is d1 p1 m1 t1 -> sess_is d2 p2 m2 t2 -> small_map m1 -> small_map m2 ->
  no_clash p1 p2 -> proper_root p1 -> proper_root p2 -> rootOf p1 = rootOf p2 -> m1 = m2.
Proof.
  intros H1 H2 S1 S2 Hcl R1 R2 E. pose proof (sess_bounded _ _ _ _ H1 S1) as B1. pose proof (sess_bounded _ _ _ _ H2 S2) as B2.
  pose proof H1 as (_ & C1 & M1 & _). pose proof H2 as (_ & C2 & M2 & _).
  assert (forall p, canon p -> rootOf p = key_of_hash p) as Hr by (by intros ? []).
  apply map_eq. intros key. rewrite <- M1, <- M2. destruct C1 as [->|C1], C2 as [->|C2].
  - done.
  - destruct R2 as [->|R2]; [by inversion C2|]. rewrite (Hr p2 C2) in E. by rewrite <- E in R2.
  - destruct R1 as [->|R1]; [by inversion C1|]. rewrite (Hr p1 C1) in E. by rewrite E in R1.
  - rewrite !Hr in E by done. by apply hash_binds.
Qed.
End binding.

(** ** DeriveSha *)

Section derive.
Context {K : Sha3}.

(** Without a database there are no hash nodes, so any database will do. *)
Lemma expands_no_db {F : FlagInv} (R : NodeReader) b n t : expands (R := nilReader) b n t -> expands (R := R) b n t.
Proof.
  induction 1 as [| |b k c t fl _ IH Hf|b cs ts fl Hl _ IH Hf|b h f t Hr _ _ _ _]; [constructor..| | |].
  - by constructor.
  - by constructor.
  - by specialize (Hr 0).
Qed.

(** The key of an index is its encoding. *)
Lemma indexKey_rlp i : Z.of_nat i < 2 ^ 32 -> indexKey i = rlp (Str (Bytes (Z.of_nat i))).
Proof.
  intros Hi. unfold indexKey. assert (zlen (Bytes (Z.of_nat i)) <= 8) as Hb by (apply zlen_Bytes_le; lia).
  rewrite (Encode_rlp (FUint (Z.of_nat i))); [done|cbn; unfold is_u64; lia|].
  pose proof (zlen_rlp_short (Bytes (Z.of_nat i))). cbn [itemOf]. lia.
Qed.

Lemma indexKey_small i : Z.of_nat i < 2 ^ 32 -> zlen (indexKey i) < 2 ^ 38.
Proof.
  intros Hi. rewrite indexKey_rlp by done. assert (zlen (Bytes (Z.of_nat i)) <= 8) as Hb by (apply zlen_Bytes_le; lia).
  pose proof (zlen_rlp_short (Bytes (Z.of_nat i))). lia.
Qed.

Lemma indexKey_inj i j : Z.of_nat i < 2 ^ 32 -> Z.of_nat j < 2 ^ 32 -> indexKey i = indexKey j -> i = j.
Proof.
  intros Hi Hj E. pose proof (indexKey_small i Hi). rewrite !indexKey_rlp in * by done. apply rlp_inj in E; [|lia].
  injection E as E. apply (f_equal SetBytes) in E. rewrite !SetBytes_Bytes in E by lia. lia.
Qed.

(** The list as a map, from index [i] on. *)
Fixpoint indexed (i : nat) (bs : list (list byte)) (m : Map) : Map :=
  match bs with
  | [] => m
  | b :: bs => indexed (i + 1) bs (<[indexKey i := b]> m)
  end.

Lemma indexed_lookup bs : forall i j m, Z.of_nat (i + length bs) < 2 ^ 32 -> Z.of_nat j < 2 ^ 32 ->
  indexed i bs m !! indexKey j = if decide (i <= j < i + length bs)%nat then bs !! (j - i)%nat else m !! indexKey j.
Proof.
  induction bs as [|b bs IH]; intros i j m Hi Hj; cbn [indexed length] in *.
  { by rewrite decide_False by lia. }
  rewrite IH by lia. destruct (decide (i = j)) as [->|Hne].
  - rewrite decide_False, decide_True by lia. by rewrite lookup_insert_eq, Nat.sub_diag.
  - rewrite lookup_insert_ne by (intros E%indexKey_inj; lia).
    destruct (decide (i + 1 <= j < i + 1 + length bs)%nat); [rewrite decide_True by lia|by rewrite decide_False by lia].
    by replace (j - i)%nat with (S (j - (i + 1)))%nat by lia.
Qed.

Lemma indexed_small bs : forall i m, Z.of_nat (i + length bs) < 2 ^ 32 -> Forall (fun b => zlen b < 2 ^ 40) bs -> small_map m ->
  small_map (indexed i bs m).
Proof.
  induction bs as [|b bs IH]; intros i m Hi Hb Hm; cbn [indexed length] in *; [done|]. apply Forall_cons in Hb as [Hb Hbs].
  apply IH; [lia|done|]. apply map_Forall_insert_2; [|done]. split; [apply indexKey_small; lia|done].
Qed.

(** The elements of a list that can be written into the trie. *)
Record elements (l : DerivableList) (bs : list (list byte)) : Prop := {
  el_len : dl_Len l = length bs;
  el_get i b : bs !! i = Some b -> dl_GetRlp l i = Some b;
  el_nonempty : Forall (fun b => b <> [] /\ zlen b < 2 ^ 40) bs;
  el_count : zlen bs < 2 ^ 32
}.

Lemma deriveLoop_ok {F : FlagInv} l bs : forall i t m,
  (forall j b, bs !! j = Some b -> dl_GetRlp l (i + j) = Some b /\ b <> []) -> trie_ok (R := nilReader) m t ->
  exists t', deriveLoop l (length bs) i t = Ret t' /\ trie_ok (R := nilReader) (indexed i bs m) t'.
Proof.
  induction bs as [|b bs IH]; intros i t m Hb Ht; cbn [deriveLoop length indexed]; [by exists t|].
  destruct (Hb 0%nat b eq_refl) as [E Hne]. rewrite Nat.add_0_r in E. rewrite E. unfold Trie_Update.
  destruct (TryUpdate_ok (R := nilReader) m t (indexKey i) b Ht) as (t1 & -> & H1). rewrite decide_False in H1 by done.
  apply IH; [|done]. intros j c Hj. replace (i + 1 + j)%nat with (i + S j)%nat by lia. by apply Hb.
Qed.

(** The root of the list is the root of the list as a trie. *)
Lemma DeriveSha_ok l bs : elements l bs ->
  exists pt t, DeriveSha l = Ret (rootOf pt) /\ sess_is (NewDatabase ∅) pt (indexed 0 bs ∅) t /\ small_map (indexed 0 bs ∅).
Proof.
  intros [El Eg Ene Ec]. unfold DeriveSha. rewrite El.
  destruct (deriveLoop_ok (F := hashInv (stored (NewDatabase ∅))) l bs 0 (mkTrie NilNode 0 0 0) ∅) as (t & -> & pt & Ht).
  { intros j b Hj. split; [by apply Eg|]. rewrite Forall_forall in Ene. by apply (Ene b), list_elem_of_lookup_2 with j. }
  { apply emptyTrie_ok. }
  assert (sess_is (NewDatabase ∅) pt (indexed 0 bs ∅) t) as Hs.
  { destruct Ht as (He & Hrest). split; [by apply expands_no_db|done]. }
  assert (small_map (indexed 0 bs ∅)) as Hsm.
  { apply indexed_small; [unfold zlen in Ec; lia| |apply map_Forall_empty]. eapply Forall_impl; [exact Ene|]. by intros ? []. }
  destruct (Hash_ok _ _ _ _ Hs Hsm) as (t' & -> & _). by exists pt, t.
Qed.

(** Different lists are different maps. *)
Lemma indexed_inj bs1 bs2 : zlen bs1 < 2 ^ 32 -> zlen bs2 < 2 ^ 32 -> indexed 0 bs1 ∅ = indexed 0 bs2 ∅ -> bs1 = bs2.
Proof.
  intros H1 H2 E. unfold zlen in *.
  assert (forall bs j, Z.of_nat (length bs) < 2 ^ 32 -> Z.of_nat j < 2 ^ 32 -> indexed 0 bs ∅ !! indexKey j = bs !! j) as Hl.
  { intros bs j Hb Hj. rewrite indexed_lookup by lia. destruct (decide _) as [|Hn]; [by rewrite Nat.sub_0_r|].
    rewrite lookup_empty. symmetry. apply lookup_ge_None_2. lia. }
  apply list_eq. intros j. destruct (decide (Z.of_nat j < 2 ^ 32)) as [Hj|Hj]; [by rewrite <- !Hl, E|].
  by rewrite !lookup_ge_None_2 by lia.
Qed.

(** ** Transactions *)

(** A transaction as it is decoded, with an encoding below a terabyte. *)
Record tx_ok (tx : Transaction) : Prop := {
  txo_wf : tx_wf tx;
  txo_size : zlen (rlp (itemOf (txField tx))) < 2 ^ 40
}.

(** What a transaction is read back as does not depend on anything else. *)
Lemma txField_inj t1 t2 : tx_wf t1 -> tx_wf t2 -> itemOf (txField t1) = itemOf (txField t2) -> t1 = t2.
Proof.
  intros H1 H2 E. destruct (tx_typed t1 H1) as (A1 & A2 & _), (tx_typed t2 H2) as (B1 & B2 & _).
  apply (parse_itemOf txType txType_ok) in A1, B1. rewrite E, B1 in A1. apply Some_inj in A1. rewrite A1, A2 in B2. by apply Some_inj.
Qed.

Definition txBytes (tx : Transaction) : list byte := rlp (itemOf (txField tx)).

Lemma txs_elements txs : Forall tx_ok txs -> zlen txs < 2 ^ 32 -> elements (Transactions_list txs) (map txBytes txs).
Proof.
  intros Hok Hn. rewrite Forall_forall in Hok. split.
  - cbn. by rewrite length_map.
  - intros i b E. rewrite list_lookup_fmap in E. cbn. destruct (txs !! i) as [tx|] eqn:Et; [|done]. injection E as <-.
    pose proof (Hok tx (list_elem_of_lookup_2 _ _ _ Et)) as Htx. rewrite EncodeField_rlp; [done|by apply tx_typed, Htx|].
    pose proof (txo_size _ Htx). lia.
  - apply Forall_forall. intros b Hb. apply list_elem_of_fmap in Hb as (tx & -> & Hin). split; [|by apply Hok].
    apply rlp_not_nil.
  - unfold zlen in *. by rewrite length_map.
Qed.

Lemma txBytes_inj txs1 : forall txs2, Forall tx_ok txs1 -> Forall tx_ok txs2 -> map txBytes txs1 = map txBytes txs2 -> txs1 = txs2.
Proof.
  induction txs1 as [|t1 txs1 IH]; intros [|t2 txs2] H1 H2 E; [done..|]. apply Forall_cons in H1 as [H1 H1s], H2 as [H2 H2s].
  injection E as E Es. f_equal; [|by apply IH]. apply txField_inj; [apply H1|apply H2|]. apply rlp_inj; [|done]. pose proof (txo_size _ H1). lia.
Qed.
End derive.
