(* ===== verification/TypesTheorems.v ===== *)
(** * Theorems about transactions, receipts and roots

    Claims about [core/types]: signatures and the chains they are valid on, the
    order in which a miner is offered transactions, the roots of lists and the
    bloom filter. *)

From Stdlib Require Import ZArith Lia Bool.
From S2P Require Import Prelude GoMath GoHeap Rlp RlpStreamSpec TrieEncoding Trie TrieSpec TrieUpdate.
From S2P Require Import TrieNode TrieDatabase TrieHasher TrieHashSpec TrieHashOk TrieProof.
From S2P Require Import Params StateInterface Precompiles BlockTypes RlpTypes Receipts TxSigning TxOrder TrieTheorems RootSpec.
Local Open Scope Z_scope.

(** ** Roots *)

Section roots.
Context {K : Sha3}.

(** C17: the root hash commits to the entries.  Two tries, over any databases and
    with any histories, return the same root from [Hash] exactly when they stand
    for the same map, provided that no two of their nodes collide under the hash
    and that neither hashes to the fixed root of the empty trie by accident. *)
Theorem root_hash_commits d1 d2 p1 p2 m1 m2 t1 t2 :
  sess_is d1 p1 m1 t1 -> sess_is d2 p2 m2 t2 -> small_map m1 -> small_map m2 ->
  no_clash p1 p2 -> proper_root p1 -> proper_root p2 ->
  exists h1 h2 t1' t2', Hash_ t1 = Ret (h1, t1') /\ Hash_ t2 = Ret (h2, t2') /\ (h1 = h2 <-> m1 = m2).
Proof.
  intros H1 H2 S1 S2 Hc R1 R2. destruct (Hash_ok _ _ _ _ H1 S1) as (t1' & E1 & _). destruct (Hash_ok _ _ _ _ H2 S2) as (t2' & E2 & _).
  exists (rootOf p1), (rootOf p2), t1', t2'. split; [done|]. split; [done|]. split.
  - by eapply root_binds.
  - intros <-. by rewrite (trie_is_unique _ _ _ _ _ _ _ _ _ H1 H2).
Qed.

(** The transactions of a block as a trie. *)
Definition tx_tree (txs : list Transaction) (p : ptree) : Prop :=
  exists t, sess_is (NewDatabase ∅) p (indexed 0 (map txBytes txs) ∅) t.

(** C18: the transaction root of a header commits to the transactions.  On
    transactions as they are decoded [DeriveSha] always returns, and two lists
    have the same root exactly when they are the same list: same transactions,
    same order, same number (unless nodes of their tries collide). *)
Theorem tx_root_commits txs1 txs2 :
  Forall tx_ok txs1 -> Forall tx_ok txs2 -> zlen txs1 < 2 ^ 32 -> zlen txs2 < 2 ^ 32 ->
  (forall p1 p2, tx_tree txs1 p1 -> tx_tree txs2 p2 -> no_clash p1 p2 /\ proper_root p1 /\ proper_root p2) ->
  exists h1 h2, DeriveSha (Transactions_list txs1) = Ret h1 /\ DeriveSha (Transactions_list txs2) = Ret h2 /\
    (h1 = h2 <-> txs1 = txs2).
Proof.
  intros H1 H2 N1 N2 Hc. destruct (DeriveSha_ok _ _ (txs_elements txs1 H1 N1)) as (p1 & t1 & E1 & I1 & S1).
  destruct (DeriveSha_ok _ _ (txs_elements txs2 H2 N2)) as (p2 & t2 & E2 & I2 & S2).
  exists (rootOf p1), (rootOf p2). split; [done|]. split; [done|]. split.
  - intros E. destruct (Hc p1 p2) as (C & R1 & R2); [by exists t1|by exists t2|].
    apply txBytes_inj; [done..|]. apply indexed_inj; [unfold zlen in *; by rewrite length_map..|]. by eapply root_binds.
  - intros <-. rewrite E1 in E2. by injection E2.
Qed.
End roots.

(** ** Signatures *)

Section signatures.
Context {K : Sha3} {C : Crypto}.

(** Signers of a chain with an identifier, and those from before EIP 155. *)
Definition usable (s : Signer) : Prop :=
  match s with EIP155Signer c _ => signer_ok s /\ c <> 0 | _ => True end.

Lemma usable_ok s : usable s -> signer_ok s.
Proof. by destruct s as [c m| |]; [intros []|..]. Qed.

(** C23: a signature names its account, on its chain only.  The signer is one from
    before EIP 155, or that of a chain with an identifier other than 0
    ([usable]; for the identifier 0 or nil it is false, see
    [chain_zero_signature]).  What [SignTx] returns is recovered by the same signer
    as the account of the key, from the cache or not.  Signed for a chain with an identifier, a transaction is refused by the
    signer of every other chain and by the signers from before EIP 155; signed
    by one of those, it is accepted on every chain. *)
Theorem signature_names_account Sign a s tx tx' :
  signs_as Sign a -> usable s -> SignTx Sign tx s = Some (inr tx') ->
  (forall from, cache_ok tx' from -> exists from', Sender s tx' from = Some (inr a, from') /\ cache_ok tx' from') /\
  (forall c m, s = EIP155Signer c m ->
     ChainId tx' = c /\
     (forall c' m', c' <> c -> signer_Sender (EIP155Signer c' m') tx' = Some (inl ErrInvalidChainId)) /\
     signer_Sender HomesteadSigner tx' = Some (inl ErrInvalidSig) /\
     signer_Sender FrontierSigner tx' = Some (inl ErrInvalidSig)) /\
  (s = HomesteadSigner \/ s = FrontierSigner -> forall c m, signer_Sender (EIP155Signer c m) tx' = Some (inr a)).
Proof.
  intros Ha Hs E. destruct (SignTx_signed _ _ _ _ _ Ha E) as (r & w & v & -> & Hv & Esig).
  destruct (valid_values _ _ _ _ Hv) as (_ & _ & H01).
  assert (forall h hs V, Sign (be_bytes 32 h) = Some (be_bytes 32 r ++ be_bytes 32 w ++ [Zbyte v]) -> V = v + 27 ->
    recoverPlain h r w V hs = Some (inr a)) as Hrec by (intros; by eapply recover_signed).
  assert (forall c, 0 < c -> Protected (signed tx (v + 35 + c * 2) r w) = true) as Hp by (intros; by apply protected_V).
  assert (forall c, 0 <= c -> ChainId (signed tx (v + 35 + c * 2) r w) = c) as Hc by (intros; by apply chainId_V).
  assert (Protected (signed tx (v + 27) r w) = false) as Hu by (unfold Protected; by destruct H01 as [->| ->]).
  split; [|split].
  - intros from Hf. pose proof (Sender_ok s _ from (usable_ok s Hs) Hf) as H.
    assert (signer_Sender s (signed tx (storedV s v) r w) = Some (inr a)) as Hself; [|by rewrite Hself in H].
    destruct s as [c m| |]; cbn [signer_Sender storedV] in *; [|by apply Hrec; [rewrite signer_Hash_signed|]..].
    destruct Hs as [[Hc0 ->] Hne]. apply Z.eqb_neq in Hne as E0. rewrite E0, Hp, Hc, Z.eqb_refl by lia. cbn [negb].
    apply Hrec; [by rewrite signer_Hash_signed|]. cbn [signed tx_V]. lia.
  - intros c m ->. destruct Hs as [[Hc0 ->] Hne]. cbn [storedV]. apply Z.eqb_neq in Hne as E0. rewrite E0.
    split; [by apply Hc|]. cbn [signer_Sender]. split; [|split; apply recoverPlain_V; cbn [signed tx_V]; lia].
    intros c' m' Hc'. rewrite Hp, Hc by lia. apply Z.eqb_neq in Hc'. by rewrite Z.eqb_sym, Hc'.
  - intros Hold c m. assert (storedV s v = v + 27) as -> by (by destruct Hold as [->| ->]). cbn [signer_Sender]. rewrite Hu.
    cbn [negb]. apply Hrec; [|done]. rewrite signer_Hash_signed. by destruct Hold as [->| ->].
Qed.

(** Signed for chain 0 (or for a configuration without an identifier), the hash
    covers the identifier but the value stored does not show it, and the same
    signer recovers from a hash that was never signed. *)
Lemma chain_zero_signature Sign a tx tx' :
  signs_as Sign a -> SignTx Sign tx (NewEIP155Signer None) = Some (inr tx') ->
  signer_Sender (NewEIP155Signer None) tx' =
    recoverPlain (rlpHash (FList (signedFields tx))) (tx_R tx') (tx_S tx') (tx_V tx') true /\
  exists sig, Sign (be_bytes 32 (rlpHash (FList (signedFields tx ++ [FBig 0; FUint 0; FUint 0])))) = Some sig.
Proof.
  intros Ha E. destruct (SignTx_signed _ _ _ _ _ Ha E) as (r & w & v & -> & Hv & Esig).
  destruct (valid_values _ _ _ _ Hv) as (_ & _ & H01). split; [|by eexists].
  cbn [NewEIP155Signer signer_Sender storedV Z.eqb]. unfold Protected. cbn [tx_V signed].
  by replace (isProtectedV (v + 27)) with false by (by destruct H01 as [->| ->]).
Qed.
End signatures.

(** ** The order of transactions *)

(** C24: a miner is offered the dearest transaction that can run.  From lists
    grouped by sender, and for any decisions to go on with an account or to drop
    it, [Peek], [Shift] and [Pop] run without a panic and offer at each step a
    first transaction of some account with the highest price of all firsts.  The
    transactions of an account come in its order, a prefix of its list; when the
    set runs out, nothing is left, and without drops everything was offered. *)
Theorem price_nonce_order sender m order drops :
  grouped sender m -> order ≡ₚ (map_to_list m).*1 -> (forall a, m !! a <> Some []) ->
  exists t out t' m',
    NewTransactionsByPriceAndNonce sender order m = Some t /\ drain sender drops t = Some (out, t') /\
    greedy m (zip out drops) m' /\
    (forall a, ofSender sender a out `prefix_of` default [] (m !! a)) /\
    ((length out < length drops)%nat -> empty_lists m' /\
       (Forall (fun d => d = false) drops -> forall a, ofSender sender a out = default [] (m !! a))).
Proof.
  intros Hg Ho Hne. destruct (New_holds sender m order Hg Ho Hne) as (t & En & Ht).
  destruct (drain_greedy sender drops m t Ht) as (out & t' & m' & Ed & Hgr & Ht' & Hle & Hend).
  exists t, out, t', m'. pose proof (greedy_accounts sender m _ m' Hg Hgr) as Hacc.
  rewrite fst_zip in Hacc by lia. split; [done|]. split; [done|]. split; [done|]. split.
  - intros a. destruct (Hacc a) as (rest & <- & _). by exists rest.
  - intros Hlt. specialize (Hend Hlt). split; [done|]. intros Hno a. destruct (Hacc a) as (rest & <- & _ & Hrest).
    rewrite <- Hrest.
    + destruct (m' !! a) as [l|] eqn:El; cbn; [rewrite (Hend a l El)|]; by rewrite app_nil_r.
    + rewrite Forall_forall in Hno |- *. intros d Hd. apply list_elem_of_fmap in Hd as ([x y] & -> & Hin).
      apply Hno. by apply elem_of_zip_r in Hin.
Qed.

(** ** Bloom filters *)

(** A bloom filter has no false negatives.  The filter of any receipts can be
    made, and looking up in it the address of a log of theirs, or a topic of a
    log, always succeeds. *)
Theorem bloom_no_false_negatives {K : Sha3} receipts :
  exists bin, CreateBloom receipts = Some bin /\ forall logs l, logs ∈ receipts -> l ∈ logs ->
    BloomLookup bin (be_bytes 20 (log_Address l)) = true /\
    forall t, t ∈ log_Topics l -> BloomLookup bin (be_bytes 32 t) = true.
Proof.
  exists (receiptsBloom receipts). split; [apply CreateBloom_ok|]. intros logs l Hr Hl.
  destruct (receiptsBloom_covers receipts logs l Hr Hl) as [H1 H2]. unfold BloomLookup.
  split; [by apply Z.eqb_eq, H1|]. intros t Ht. by apply Z.eqb_eq, H2.
Qed.

(** The byte-wise test drops the leading zeros that the filter was made with: a
    log by the account 1 is missed. *)
Example test_bytes_misses :
  let bin := LogsBloom (K := toySha3) [mkLog 1 [] [] 0 0 0 0 0] in
  BloomLookup (K := toySha3) bin (be_bytes 20 1) = true /\ TestBytes (K := toySha3) bin (be_bytes 20 1) = false.
Proof. by vm_compute. Qed.

(** ** The theorems on a sample *)

Module TypesSample.
#[local] Instance toyHash : Sha3 := toySha3.

Lemma sample_no_clash k v : no_clash (PShort k (PVal v)) PNil.
Proof.
  assert (forall u, sub u (PShort k (PVal v)) \/ sub u PNil -> isNode u -> u = PShort k (PVal v)) as H.
  { intros u [Hu|Hu] Hn; [by apply leaf_sub|by inversion Hu; subst]. }
  intros u w Hu Hw Hnu Hnw _. by rewrite (H u Hu Hnu), (H w Hw Hnw).
Qed.

Lemma emptyTrie_is d : sess_is d PNil ∅ emptyTrie.
Proof. split; [constructor|]. split; [by left|]. split; [done|]. by intros [|] v. Qed.

Lemma root_hash_commits_witness :
  exists h1 h2 t1 t2, Hash_ sampleTrie = Ret (h1, t1) /\ Hash_ emptyTrie = Ret (h2, t2) /\ (h1 = h2 <-> sampleMap = ∅).
Proof.
  apply (root_hash_commits (NewDatabase ∅) (NewDatabase ∅) sampleTree PNil sampleMap ∅ sampleTrie emptyTrie).
  - apply sampleTrie_is.
  - apply emptyTrie_is.
  - apply sampleMap_small.
  - apply map_Forall_empty.
  - apply sample_no_clash.
  - right. by vm_compute.
  - by left.
Defined.

Definition sampleTx : Transaction := mkTx 3 20 21000 (Some 7) 5 [x01; x02] 27 1 1.

Lemma sampleTx_ok : tx_ok sampleTx.
Proof. split; [split; [by vm_compute..|by intros a [= <-]]|by vm_compute]. Qed.

Lemma tx_root_commits_witness :
  exists h1 h2, DeriveSha (Transactions_list [sampleTx]) = Ret h1 /\ DeriveSha (Transactions_list []) = Ret h2 /\
    (h1 = h2 <-> [sampleTx] = []).
Proof.
  apply (tx_root_commits [sampleTx] []).
  - constructor; [apply sampleTx_ok|constructor].
  - constructor.
  - by vm_compute.
  - by vm_compute.
  - intros p1 p2 (t1 & H1) (t2 & H2).
    assert (p1 = PShort (keybytesToHex (indexKey 0)) (PVal (txBytes sampleTx))) as ->.
    { cbn [map indexed] in H1. rewrite insert_empty in H1. eapply (trie_is_unique _ _ _ _ _ _ _ _ _ H1), (leaf_is (reader (NewDatabase ∅)) noInv). by vm_compute. }
    assert (p2 = PNil) as -> by (apply (trie_is_unique _ _ _ _ _ _ _ _ _ H2 (emptyTrie_is (NewDatabase ∅)))).
    split; [apply sample_no_clash|]. split; [right; by vm_compute|by left].
Defined.

(** A curve on which everything is signed by the account of one public key. *)
#[local] Instance curve : Crypto := {|
  CodeHash := option (list byte);
  Keccak256Hash := Some;
  zeroHash := None;
  Keccak256 b := b;
  CreateAddress a n := a;
  Ecrecover h s := Some (x04 :: replicate 64 x07);
  Sha256 b := b;
  Ripemd160 b := b;
  G1 := unit;
  G2 := unit;
  G1_Unmarshal b := None;
  G2_Unmarshal b := None;
  G1_Marshal p := [];
  G1_Add p q := tt;
  G1_ScalarMult p n := tt;
  PairingCheck l := true
|}.

Definition signer1 : Address := pubAddress (x04 :: replicate 64 x07).
Definition sign1 (h : list byte) : option (list byte) := Some (be_bytes 32 5 ++ be_bytes 32 6 ++ [Zbyte 1]).

Lemma sign1_signs : signs_as sign1 signer1.
Proof.
  intros h sig [= <-]. exists 5, 6, 1. split; [done|]. split; [by vm_compute|]. by exists (replicate 64 x07).
Qed.

(** A transaction for the main network is refused on the test network. *)
Lemma signature_names_account_witness :
  match SignTx sign1 sampleTx (NewEIP155Signer (Some 1)) with
  | Some (inr tx') =>
      ChainId tx' = 1 /\ signer_Sender (NewEIP155Signer (Some 3)) tx' = Some (inl ErrInvalidChainId) /\
      exists from, Sender (NewEIP155Signer (Some 1)) tx' None = Some (inr signer1, from)
  | _ => False
  end.
Proof.
  destruct (SignTx sign1 sampleTx (NewEIP155Signer (Some 1))) as [[[]|tx']|] eqn:E; [by vm_compute in E| |by vm_compute in E].
  assert (usable (NewEIP155Signer (Some 1))) as Hu by (by vm_compute).
  pose proof (signature_names_account sign1 signer1 (NewEIP155Signer (Some 1)) sampleTx tx' sign1_signs Hu E) as (H1 & H2 & _).
  destruct (H2 1 2 eq_refl) as (H3 & H4 & _). split; [exact H3|]. split; [by apply H4|].
  destruct (H1 None I) as (from & H5 & _). exists from. exact H5.
Defined.

(** Two accounts; the second list is dearer, but its second transaction waits. *)
Definition cheap (n p : Z) : Transaction := mkTx n p 21000 (Some 7) 0 [] 27 1 1.
Definition dear (n p : Z) : Transaction := mkTx n p 21000 (Some 7) 0 [] 28 1 1.
Definition senders (tx : Transaction) : option Address := if tx_V tx =? 27 then Some 1 else Some 2.
Definition lists : Accounts := <[1 := [cheap 0 10; cheap 1 30]]> (<[2 := [dear 4 20; dear 5 5]]> ∅).

Lemma price_nonce_order_witness :
  exists t out t' m',
    NewTransactionsByPriceAndNonce senders [2; 1] lists = Some t /\
    drain senders [false; false; false; false; false] t = Some (out, t') /\
    greedy lists (zip out [false; false; false; false; false]) m' /\
    (forall a, ofSender senders a out `prefix_of` default [] (lists !! a)).
Proof.
  destruct (price_nonce_order senders lists [2; 1] [false; false; false; false; false]) as (t & out & t' & m' & E1 & E2 & E3 & E4 & _).
  - assert (map_Forall (fun a l => Forall (fun tx => senders tx = Some a) l) lists) as H by (apply (bool_decide_unpack _); by vm_compute).
    intros a l E. by apply (H a l).
  - apply (bool_decide_unpack _). by vm_compute.
  - intros a. assert (map_Forall (fun _ l => l <> []) lists) as H by (apply (bool_decide_unpack _); by vm_compute).
    intros E. by apply (H a []).
  - exists t, out, t', m'. repeat split; [exact E1|exact E2|exact E3|exact E4].
Defined.

Example dear_first :
  match NewTransactionsByPriceAndNonce senders [2; 1] lists with
  | Some t => match drain senders [false; false; false; false; false] t with
              | Some (out, _) => map (fun tx => (senderOf senders tx, tx_Nonce tx)) out = [(2, 4); (1, 0); (1, 1); (2, 5)]
              | None => False
              end
  | None => False
  end.
Proof. by vm_compute. Qed.
End TypesSample.
