(* ===== verification/TrieProofTheorems.v ===== *)
(** * Theorems about Merkle proofs and the secure trie

    Claims about [trie/proof.go]: what [Prove] writes leads [VerifyProof] to
    the value of the trie, and what other databases can do; and about
    [trie/secure_trie.go]: it is a map of unhashed keys. *)

From Stdlib Require Import ZArith Lia Bool.
From S2P Require Import Prelude GoMath Rlp RlpStreamSpec TrieEncoding Trie TrieSpec TrieUpdate TrieNode TrieDatabase TrieHasher TrieHashSpec TrieHashOk.
From S2P Require Import TrieProof SecureTrie TrieTheorems.
Local Open Scope Z_scope.
Local Open Scope trie_scope.

Section proofs.
Context {K : Sha3}.

(** Every key of the database is the hash of its value. *)
Definition proof_keys (db : Mem.db) : Prop := map_Forall (fun k b => k = keccak256 b) db.

(** No value of the database is another preimage of the hash of a node. *)
Definition no_collision (db : Mem.db) (pt : ptree) : Prop := forall u k b,
  sub u pt -> isNode u -> db !! k = Some b -> keccak256 b = H u -> b = enc_of u.

Lemma keys_genuine db pt : proof_keys db -> no_collision db pt -> genuine pt db.
Proof. intros Hk Hn u b Hs Hu E. apply (Hn u (H u) b Hs Hu E). symmetry. by apply (Hk (H u) b E). Qed.

Lemma length_hexkey key : length (keybytesToHex key) = (2 * length key + 1)%nat.
Proof. unfold keybytesToHex. rewrite length_app, length_hexOf. cbn [length]. lia. Qed.

Lemma sess_canon d pt m t : sess_is d pt m t -> pt <> PNil -> canon pt /\ rootOf pt = key_of_hash pt.
Proof. intros (_ & [->|Hc] & _) Hne; [done|]. split; [done|]. by destruct Hc. Qed.

(** C33: proofs are complete.  The trie is not empty, its nodes can be loaded
    and have different hashes.  For every key, whether or not the trie has it,
    [Prove] from level 0 succeeds, the database it fills holds nodes under their
    own hashes only, and [VerifyProof] with the root hash of the trie and that
    database returns what the trie has under the key.  One round per nibble of
    the key is enough.  The proof of the empty trie is
    [empty_trie_has_no_proof]. *)
Theorem prove_then_verify (d : Database) (pt : ptree) (m : Map) (t : Trie) (key : list byte) (fuel : nat) :
  sess_is d pt m t -> small_map m -> pt <> PNil -> injective pt -> (2 * length key + 1 < fuel)%nat ->
  exists db n, @Prove (reader d) K t key 0 ∅ = tok db /\ proof_keys db /\
    VerifyProof fuel (rootOf pt) key db = tok (m !! key, n).
Proof.
  intros Ht Hs Hne Hinj Hf. pose proof (sess_bounded _ _ _ _ Ht Hs) as Hb.
  destruct (sess_canon _ _ _ _ Ht Hne) as [Hc Er]. rewrite Er. pose proof Ht as (He & _ & Hm & _).
  assert (slot pt (keybytesToHex key)) as Hsl by (apply slot_root; by right).
  destruct (proofNodes_ok (R := reader d) (stored d) pt (keyFuel (keybytesToHex key)) (t_cachegen t) true
    (t_root t) pt (keybytesToHex key) He Hsl) as (ns & En & Hns); [constructor| |].
  { unfold keyFuel, hashCost. destruct (isHash _); lia. }
  destruct (proofElems_ok (R := reader d) (stored d) pt Hb ns _ true ∅ Hns Hinj) as (db & Ed & Hin & _ & Hfrom).
  assert (proof_keys db) as Hk.
  { intros k b E. destruct (Hfrom k b E) as [E0|(u & _ & -> & ->)]; [by rewrite lookup_empty in E0|done]. }
  assert (genuine pt db) as Hg.
  { intros u b Hu Hnu E. destruct (Hfrom _ _ E) as [E0|(w & Hw & Eh & ->)]; [by rewrite lookup_empty in E0|].
    destruct (proj1 (Forall2_same_length_lookup _ _ _) Hns) as [_ Hl].
    apply list_elem_of_lookup in Hw as [i Ei].
    destruct (lookup_lt_is_Some_2 ns i) as [n En'].
    { rewrite (Forall2_length _ _ _ Hns). by eapply lookup_lt_Some. }
    destruct (Hl i n w En' Ei) as (_ & _ & Hcw & Hsw).
    unfold enc_of. rewrite (Hinj w u Hsw Hu (canon_isNode w Hcw) Hnu); [done|]. unfold key_of_hash. by rewrite Eh. }
  exists db. unfold Prove. rewrite En. cbn [tbind tok]. rewrite Ed.
  destruct (verifyLoop_ok pt Hb db Hg fuel 0 pt (keybytesToHex key) Hc) as [(n & E)|[(j & w & Hw & Hor & Hno & _)|[_ Hle]]].
  - constructor.
  - done.
  - exists n. split; [done|]. split; [done|]. unfold VerifyProof. by rewrite E, Hm.
  - exfalso. rewrite Hin in Hno; [done|done|]. destruct Hor as [->|]; [right|by left]. split; [done|].
    destruct Hc; cbn [path]; [done|done|]. by destruct (slot_full _ _ Hsl) as (b & r & -> & _).
  - rewrite length_hexkey in Hle. lia.
Qed.

(** C34: proofs are sound.  Given a trie that is not empty, and any database
    whose keys are the hashes of its values and none of whose values collides
    with a node of the trie, [VerifyProof] with the root hash of the trie never
    panics and never answers wrongly: it returns what the trie has under the
    key, or reports a node that the database does not have. *)
Theorem verify_is_sound (d : Database) (pt : ptree) (m : Map) (t : Trie) (key : list byte) (fuel : nat)
    (db : Mem.db) :
  sess_is d pt m t -> small_map m -> pt <> PNil -> proof_keys db -> no_collision db pt ->
  (2 * length key + 1 < fuel)%nat ->
  (exists n, VerifyProof fuel (rootOf pt) key db = tok (m !! key, n)) \/
  (exists i h, VerifyProof fuel (rootOf pt) key db = terr (ProofNodeMissing i h) /\ db !! hashBytes h = None).
Proof.
  intros Ht Hs Hne Hk Hn Hf. pose proof (sess_bounded _ _ _ _ Ht Hs) as Hb.
  destruct (sess_canon _ _ _ _ Ht Hne) as [Hc Er]. rewrite Er. pose proof Ht as (He & _ & Hm & _).
  assert (slot pt (keybytesToHex key)) as Hsl by (apply slot_root; by right).
  unfold VerifyProof.
  destruct (verifyLoop_ok pt Hb db (keys_genuine _ _ Hk Hn) fuel 0 pt (keybytesToHex key) Hc (sub_refl pt) Hsl)
    as [(n & E)|[(j & w & Hw & Hor & Hno & E)|[_ Hle]]].
  - left. exists n. by rewrite E, Hm.
  - right. exists j, (key_of_hash w). by rewrite hashBytes_key.
  - rewrite length_hexkey in Hle. lia.
Qed.

(** The verifier does not hash.  It trusts the keys of the database: for
    any root hash, key and value there is a database, with a single node whose
    hash is not checked, that makes [VerifyProof] return the value. *)
Theorem verify_trusts_keys (root : Hash) (key value : list byte) :
  zlen key < 2 ^ 38 -> zlen value < 2 ^ 40 ->
  exists db, VerifyProof 1 root key db = tok (Some value, 1).
Proof.
  intros Hk Hv. set (t := PShort (keybytesToHex key) (PVal value)).
  assert (hexkey (keybytesToHex key)) as Hh by apply hexkey_keybytes.
  assert (zlen (enc_of t) < 2 ^ 60) as Hz.
  { apply enc_leaf; [done| |done]. unfold limit, zlen in *. rewrite length_hexkey. lia. }
  exists {[ hashBytes root := enc_of t ]}. unfold VerifyProof. cbn [verifyLoop]. unfold Mem.Get.
  rewrite lookup_singleton_eq.
  assert (decodeNode (Some (hashBytes root)) (enc_of t) 0 =
    Ret (inr (expandC (Some (hashBytes root)) 0 (pcol t)))) as ->.
  { unfold decodeNode. rewrite <- (app_nil_r (enc_of t)) at 2. unfold enc_of in *.
    apply decode_collapsed; [|lia|change (zlen (@nil byte)) with 0; lia].
    destruct (compact_hexkey _ Hh) as (_ & E & Ht). by eapply col_leaf. }
  unfold t. cbn [pcol squash expandC]. destruct (compact_hexkey _ Hh) as (_ & -> & _).
  cbn [proofGet]. rewrite prefix_test, firstn_all, bool_decide_eq_true_2 by done. done.
Qed.
End proofs.

Lemma sampleTree_injective : @injective toySha3 sampleTree.
Proof. apply sample_collision_free. Qed.

(** The proof of the key of the sample, and of a key that is not there. *)
Lemma prove_then_verify_witness :
  (exists db n, @Prove (reader (NewDatabase ∅)) toySha3 sampleTrie sampleKey 0 ∅ = tok db /\
    @proof_keys toySha3 db /\ VerifyProof 20 (@rootOf toySha3 sampleTree) sampleKey db = tok (Some sampleValue, n)) /\
  (exists db n, @Prove (reader (NewDatabase ∅)) toySha3 sampleTrie [x64] 0 ∅ = tok db /\
    @proof_keys toySha3 db /\ VerifyProof 20 (@rootOf toySha3 sampleTree) [x64] db = tok (None, n)).
Proof.
  split; [apply (@prove_then_verify toySha3 (NewDatabase ∅) sampleTree sampleMap sampleTrie sampleKey 20)
         |apply (@prove_then_verify toySha3 (NewDatabase ∅) sampleTree sampleMap sampleTrie [x64] 20)];
    first [apply sampleTrie_is|apply sampleMap_small|done|apply sampleTree_injective|cbn; lia].
Defined.

(** The database [Prove] fills for the key of the sample: the single node of
    the trie under its hash. *)
Definition sampleProof : Mem.db :=
  match @Prove (reader (NewDatabase ∅)) toySha3 sampleTrie sampleKey 0 ∅ with
  | Ret (inr db) => db
  | _ => ∅
  end.

Lemma sampleProof_is : sampleProof = {[ @H toySha3 sampleTree := @enc_of toySha3 sampleTree ]}.
Proof. apply (bool_decide_eq_true_1 _). vm_compute. reflexivity. Qed.

(** The value of the sample is accepted with its proof; without its only node
    the verifier reports the root missing. *)
Lemma verify_is_sound_witness :
  @proof_keys toySha3 sampleProof /\ @no_collision toySha3 sampleProof sampleTree /\
  (exists n, VerifyProof 20 (@rootOf toySha3 sampleTree) sampleKey sampleProof = tok (Some sampleValue, n)) /\
  (exists i h, VerifyProof 20 (@rootOf toySha3 sampleTree) sampleKey ∅ = terr (ProofNodeMissing i h)).
Proof.
  assert (@proof_keys toySha3 sampleProof) as Hk.
  { rewrite sampleProof_is. by apply map_Forall_singleton. }
  assert (@no_collision toySha3 sampleProof sampleTree) as Hn.
  { intros u k b Hs Hu E _. rewrite sampleProof_is in E. apply lookup_singleton_Some in E as [_ <-].
    by rewrite (sampleTree_sub u Hs Hu). }
  split; [done|]. split; [done|]. split.
  - destruct (@verify_is_sound toySha3 (NewDatabase ∅) sampleTree sampleMap sampleTrie sampleKey 20 sampleProof)
      as [E|(i & h & E & _)]; [apply sampleTrie_is|apply sampleMap_small|done|done|done|cbn; lia|exact E|].
    by vm_compute in E.
  - destruct (@verify_is_sound toySha3 (NewDatabase ∅) sampleTree sampleMap sampleTrie sampleKey 20 ∅)
      as [(n & E)|(i & h & E & _)]; [apply sampleTrie_is|apply sampleMap_small|done|apply map_Forall_empty|
        |cbn; lia|by vm_compute in E|by exists i, h].
    intros u k b _ _ E. by rewrite lookup_empty in E.
Defined.

(** On the empty trie [Prove] writes nothing, where its comment promises the
    root node at least, and [VerifyProof] refuses the result as incomplete. *)
Example empty_trie_has_no_proof :
  @Prove (reader (NewDatabase ∅)) toySha3 emptyTrie sampleKey 0 ∅ = tok ∅ /\
  VerifyProof 20 (@rootOf toySha3 PNil) sampleKey ∅ = terr (ProofNodeMissing 0 (@rootOf toySha3 PNil)).
Proof. vm_compute. done. Qed.

Lemma verify_trusts_keys_witness :
  exists db, VerifyProof 1 77 sampleKey db = tok (Some [x01], 1).
Proof. by apply (@verify_trusts_keys toySha3 77 sampleKey [x01]). Defined.

(** ** The secure trie

    Claims about [trie/secure_trie.go]. *)

Section secure.
Context {K : Sha3} {R : NodeReader} {F : FlagInv}.
(** The keys in use; they have different hashes. *)
Variable S : list byte -> Prop.
Definition distinct_hashes : Prop := forall k1 k2, S k1 -> S k2 -> keccak256 k1 = keccak256 k2 -> k1 = k2.

(** The trie holds the entries of [m] under the hashes of their keys, and the
    cached keys are under theirs. *)
Definition cache_right (t : SecureTrie) : Prop := map_Forall (fun hk key => hk = keccak256 key) (st_secKeyCache t).
Definition secure_ok (m : Map) (t : SecureTrie) : Prop :=
  (exists hm, trie_ok hm (st_trie t) /\ forall key, S key -> hm !! keccak256 key = m !! key) /\ cache_right t.

Definition opKey (op : trieOp) : list byte :=
  match op with TGet key | TUpdate key _ | TDelete key => key end.

Fixpoint runSecure (t : SecureTrie) (ops : list trieOp) : TM (list (option (list byte)) * SecureTrie) :=
  match ops with
  | [] => tok ([], t)
  | TGet key :: ops =>
      match STryGet t key with
      | Ret (inr v, t) => do '(vs, t) := runSecure t ops in tok (v :: vs, t)
      | Ret (inl e, _) => terr e
      | Panic => Panic
      | OutOfFuel => OutOfFuel
      end
  | TUpdate key value :: ops =>
      match STryUpdate t key value with
      | Ret (None, t) => runSecure t ops
      | Ret (Some e, _) => terr e
      | Panic => Panic
      | OutOfFuel => OutOfFuel
      end
  | TDelete key :: ops =>
      match STryDelete t key with
      | Ret (None, t) => runSecure t ops
      | Ret (Some e, _) => terr e
      | Panic => Panic
      | OutOfFuel => OutOfFuel
      end
  end.

Lemma getSecKeyCache_right t : cache_right t -> cache_right (getSecKeyCache t).
Proof. unfold getSecKeyCache. case_bool_decide; [done|]. intros _. apply map_Forall_empty. Qed.

Lemma getSecKeyCache_trie t : st_trie (getSecKeyCache t) = st_trie t.
Proof. unfold getSecKeyCache. by case_bool_decide. Qed.

(** Updating one key and its hash alike. *)
Lemma hashed_update (hm m : Map) key o :
  distinct_hashes -> S key -> (forall k, S k -> hm !! keccak256 k = m !! k) ->
  forall k, S k -> partial_alter (fun _ => o) (keccak256 key) hm !! keccak256 k =
    partial_alter (fun _ => o) key m !! k.
Proof.
  intros Hd Hk Hm k Hs. destruct (decide (k = key)) as [->|Hne].
  - by rewrite !lookup_partial_alter_eq.
  - rewrite !lookup_partial_alter_ne; [by apply Hm|congruence|]. intros E. by apply Hne, Hd.
Qed.

Lemma STryGet_ok m t key :
  S key -> secure_ok m t -> exists t', STryGet t key = Ret (inr (m !! key), t') /\ secure_ok m t'.
Proof.
  intros Hs [(hm & Ht & Hm) Hc]. unfold STryGet, hashKey.
  destruct (TryGet_ok hm (st_trie t) (keccak256 key) Ht) as (tr & -> & Ht'). rewrite Hm by done.
  eexists. split; [done|]. split; [|done]. by exists hm.
Qed.

Lemma STryUpdate_ok m t key value :
  distinct_hashes -> S key -> secure_ok m t ->
  exists t', STryUpdate t key value = Ret (None, t') /\
    secure_ok (if decide (value = []) then base.delete key m else <[key := value]> m) t' /\
    st_secKeyCache t' !! keccak256 key = Some key /\ st_secKeyCacheOwner t' = Some (st_self t').
Proof.
  intros Hd Hs [(hm & Ht & Hm) Hc]. unfold STryUpdate, hashKey.
  destruct (TryUpdate_ok hm (st_trie t) (keccak256 key) value Ht) as (tr & -> & Ht').
  eexists. split; [done|]. split; [|split].
  - split.
    + cbn [set_cache st_trie]. rewrite getSecKeyCache_trie. cbn [set_strie st_trie].
      eexists. split; [exact Ht'|]. intros k Hk. destruct (decide (value = [])); by apply hashed_update.
    + unfold cache_right. cbn [set_cache st_secKeyCache]. apply map_Forall_insert_2; [done|].
      by apply getSecKeyCache_right.
  - cbn [set_cache st_secKeyCache]. apply lookup_insert_eq.
  - unfold getSecKeyCache. case_bool_decide as E; [exact E|done].
Qed.

Lemma STryDelete_ok m t key :
  distinct_hashes -> S key -> secure_ok m t ->
  exists t', STryDelete t key = Ret (None, t') /\ secure_ok (base.delete key m) t'.
Proof.
  intros Hd Hs [(hm & Ht & Hm) Hc]. unfold STryDelete, hashKey.
  cbn [set_cache st_trie]. rewrite getSecKeyCache_trie.
  destruct (TryDelete_ok hm (st_trie t) (keccak256 key) Ht) as (tr & -> & Ht').
  eexists. split; [done|]. split.
  - cbn [set_strie st_trie]. eexists. split; [exact Ht'|]. intros k Hk. by apply hashed_update.
  - unfold cache_right. cbn [set_strie set_cache st_secKeyCache].
    apply map_Forall_delete. by apply getSecKeyCache_right.
Qed.

(** A secure trie is a finite map from keys.  As long as the keys in use
    have different hashes, any program of reads, updates and deletions on a
    [SecureTrie] runs without error or panic and gives the answers of the same
    program on a map from the keys themselves to the values. *)
Theorem secure_refines_map (m : Map) (t : SecureTrie) (ops : list trieOp) :
  distinct_hashes -> secure_ok m t -> Forall (fun op => S (opKey op)) ops ->
  exists t', runSecure t ops = tok ((runMap m ops).1, t') /\ secure_ok (runMap m ops).2 t'.
Proof.
  intros Hd Ht Hops. revert m t Ht. induction Hops as [|op ops Hop _ IH]; intros m t Ht; [by exists t|].
  destruct op as [key|key value|key]; cbn [opKey] in Hop; cbn [runSecure runMap].
  - destruct (STryGet_ok m t key Hop Ht) as (t1 & -> & Ht1). destruct (IH m t1 Ht1) as (t2 & -> & Ht2).
    cbn [tbind tok]. destruct (runMap m ops) as [vs m']. by exists t2.
  - destruct (STryUpdate_ok m t key value Hd Hop Ht) as (t1 & -> & Ht1 & _). by apply IH.
  - destruct (STryDelete_ok m t key Hd Hop Ht) as (t1 & -> & Ht1). by apply IH.
Qed.

(** ** The keys *)

Lemma BytesToHash_inj a b : length a = 32%nat -> length b = 32%nat -> BytesToHash a = BytesToHash b -> a = b.
Proof.
  intros Ha Hb E. unfold BytesToHash in E.
  assert (forall l, length l = 32%nat -> SetBytes l mod 2 ^ 256 = SetBytes l) as Hs.
  { intros l Hl. apply Z.mod_small. pose proof (SetBytes_range l) as Hr. unfold zlen in Hr. rewrite Hl in Hr.
    change (256 ^ Z.of_nat 32) with (2 ^ 256) in Hr. lia. }
  rewrite !Hs in E by done. rewrite <- (be_bytes_SetBytes a), <- (be_bytes_SetBytes b), Ha, Hb. by rewrite E.
Qed.

Lemma insertPreimage_ok h p d :
  exists d', insertPreimage h p d = Ret (tt, d') /\ d_nodes d' = d_nodes d /\
    d_preimages d' = (if decide (is_Some (d_preimages d !! h)) then d_preimages d else <[h := p]> (d_preimages d)).
Proof.
  unfold insertPreimage, bind, get. destruct (d_preimages d !! h) as [q|] eqn:E.
  - exists d. split; [done|]. split; [done|]. rewrite decide_True; [done|by eexists].
  - eexists. split; [done|]. split; [done|]. rewrite decide_False; [done|]. by intros [? ?].
Qed.

(** Preimages are only added; where there was none, the first of the list. *)
Lemma insertPreimages_ok (key : list byte) (l : list (list byte * list byte)) : forall d,
  Forall (fun e => length e.1 = 32%nat /\ (e.1 = keccak256 key -> e.2 = key)) l ->
  (d_preimages d !! BytesToHash (keccak256 key) = Some key \/
   d_preimages d !! BytesToHash (keccak256 key) = None /\ (keccak256 key, key) ∈ l) ->
  exists d', insertPreimages l d = Ret (tt, d') /\
    d_preimages d' !! BytesToHash (keccak256 key) = Some key.
Proof.
  induction l as [|[hk k] l IH]; intros d HF Hd.
  { exists d. split; [done|]. destruct Hd as [|[_ Hin]]; [done|]. by apply elem_of_nil in Hin. }
  apply Forall_cons in HF as [[Hl Hk] HF]. cbn [fst snd] in Hl, Hk.
  destruct (insertPreimage_ok (BytesToHash hk) k d) as (d1 & E1 & _ & Ep).
  destruct (IH d1 HF) as (d2 & E2 & Hp2).
  - rewrite Ep. destruct (decide (BytesToHash hk = BytesToHash (keccak256 key))) as [Eh|Hne].
    + apply BytesToHash_inj in Eh; [|done|apply keccak256_length]. specialize (Hk Eh). subst hk k.
      left. case_decide as Dc; [|by rewrite lookup_insert_eq].
      destruct Hd as [|[Hn _]]; [done|]. rewrite Hn in Dc. by destruct Dc.
    + destruct Hd as [Hd|[Hd Hin]].
      * left. case_decide; [done|]. by rewrite lookup_insert_ne.
      * right. split; [case_decide; [done|by rewrite lookup_insert_ne]|].
        apply elem_of_cons in Hin as [[= <- <-]|]; done.
  - exists d2. split; [|done]. unfold insertPreimages in *. cbn [forEach fst snd]. unfold bind. by rewrite E1, E2.
Qed.

(** Keys can be recovered from their hashes.  After an update [GetKey]
    finds the key under its hash in the cache of the object; after a commit,
    which empties the cache, it finds it in the database, unless the database
    had another preimage of the same hash. *)
Theorem keys_recovered (m : Map) (t t1 t2 : SecureTrie) (d d' : Database) (key value : list byte) (h : Hash)
    (onleaf : option (list byte -> Hash -> Database -> Database)) :
  distinct_hashes -> S key -> secure_ok m t ->
  STryUpdate t key value = Ret (None, t1) -> SCommit t1 onleaf d = Ret (h, t2, d') ->
  (forall f v h d, onleaf = Some f -> d_preimages (f v h d) = d_preimages d) ->
  d_preimages d !! BytesToHash (keccak256 key) ∈ [None; Some key] ->
  (GetKey d t1 (keccak256 key)).1 = Some key /\ (GetKey d' t2 (keccak256 key)).1 = Some key.
Proof.
  intros Hd Hs Ht Hu Hcm Hleaf Hp.
  destruct (STryUpdate_ok m t key value Hd Hs Ht) as (t1' & E & Hok & Hcache & Hown).
  assert (t1' = t1) as -> by congruence.
  assert (getSecKeyCache t1 = t1) as Hg by (unfold getSecKeyCache; by rewrite bool_decide_eq_true_2).
  split; [unfold GetKey; by rewrite Hg, Hcache|].
  unfold SCommit in Hcm. rewrite Hg in Hcm.
  rewrite bool_decide_eq_false_2 in Hcm by (intros E0; by rewrite E0, lookup_empty in Hcache).
  destruct (insertPreimages_ok key (map_to_list (st_secKeyCache t1)) d) as (d1 & E1 & Hp1).
  - apply Forall_forall. intros [hk k] Hin. apply elem_of_map_to_list in Hin. cbn [fst snd].
    split; [rewrite (proj2 Hok hk k Hin); apply keccak256_length|]. intros ->. congruence.
  - rewrite !elem_of_cons, elem_of_nil in Hp. destruct Hp as [Hp|[Hp|[]]]; [right|by left].
    split; [done|]. by apply elem_of_map_to_list.
  - rewrite E1 in Hcm. destruct (Trie_Commit (st_trie (set_cache ∅ t1)) onleaf d1) as [[[h' tr] d2]| |] eqn:Ec; try done.
    injection Hcm as -> <- <-. apply (Trie_Commit_keeps (t_cachegen (st_trie t1)) (t_cachelimit (st_trie t1)) onleaf Hleaf) in Ec; [|done|done].
    set (t2 := set_strie tr (set_cache ∅ t1)).
    assert (getSecKeyCache t2 = t2) as Hg2 by (unfold getSecKeyCache; by rewrite bool_decide_eq_true_2).
    unfold GetKey. rewrite Hg2. change (st_secKeyCache t2) with (∅ : gmap (list byte) (list byte)).
    rewrite lookup_empty. unfold Database_preimage. cbn [fst]. by rewrite Ec, Hp1.
Qed.

(** Copies are independent.  A copy of a [SecureTrie] stands for the same
    entries, knows no keys before its first update, and leaves the original's
    keys alone. *)
Lemma Copy_ok m t self :
  secure_ok m t -> st_secKeyCacheOwner t = Some (st_self t) -> self <> st_self t ->
  secure_ok m (Copy self t) /\ st_secKeyCache (getSecKeyCache (Copy self t)) = ∅.
Proof.
  intros [H Hc] Ho Hs. split; [by split|]. unfold getSecKeyCache. cbn [Copy st_secKeyCacheOwner st_self].
  rewrite bool_decide_eq_false_2; [done|]. rewrite Ho. congruence.
Qed.
End secure.

(** ** The theorems on the sample *)

Definition sampleKeys (k : list byte) : Prop := k = sampleKey.

Lemma sampleKeys_distinct : @distinct_hashes toySha3 sampleKeys.
Proof. by intros k1 k2 -> ->. Qed.

Definition emptySecure : SecureTrie := mkSecure emptyTrie ∅ None 0.

Lemma emptySecure_ok : @secure_ok toySha3 (reader (NewDatabase ∅)) noInv sampleKeys ∅ emptySecure.
Proof. split; [|apply map_Forall_empty]. exists ∅. split; [apply emptyTrie_ok|done]. Qed.

Lemma secure_refines_map_witness :
  exists t', @runSecure toySha3 (reader (NewDatabase ∅)) emptySecure [TUpdate sampleKey sampleValue; TGet sampleKey]
    = tok ([Some sampleValue], t').
Proof.
  destruct (@secure_refines_map toySha3 (reader (NewDatabase ∅)) noInv sampleKeys ∅ emptySecure
    [TUpdate sampleKey sampleValue; TGet sampleKey]) as (t' & E & _).
  - apply sampleKeys_distinct.
  - apply emptySecure_ok.
  - by repeat constructor.
  - exists t'. rewrite E. f_equal.
Defined.

Definition sampleUpdated : SecureTrie :=
  match @STryUpdate toySha3 (reader (NewDatabase ∅)) emptySecure sampleKey sampleValue with
  | Ret (_, t) => t
  | _ => emptySecure
  end.
Definition sampleCommitted : Hash * SecureTrie * Database :=
  match @SCommit toySha3 sampleUpdated None (NewDatabase ∅) with
  | Ret r => r
  | _ => (0, emptySecure, NewDatabase ∅)
  end.

Lemma keys_recovered_witness :
  (GetKey (NewDatabase ∅) sampleUpdated (@keccak256 toySha3 sampleKey)).1 = Some sampleKey /\
  (GetKey sampleCommitted.2 sampleCommitted.1.2 (@keccak256 toySha3 sampleKey)).1 = Some sampleKey.
Proof.
  apply (@keys_recovered toySha3 (reader (NewDatabase ∅)) noInv sampleKeys ∅ emptySecure sampleUpdated
    sampleCommitted.1.2 (NewDatabase ∅) sampleCommitted.2 sampleKey sampleValue sampleCommitted.1.1 None).
  - apply sampleKeys_distinct.
  - done.
  - apply emptySecure_ok.
  - vm_compute. reflexivity.
  - vm_compute. reflexivity.
  - by intros f v h d [=].
  - by left.
Defined.
