(* ===== verification/TrieIteratorTheorems.v ===== *)
(** * The iterator enumerates the entries of a trie

    [visit] lists the nodes of a resolved trie in pre-order with their paths; the
    stack of the iterator stands for the part of that list that is still to come
    ([frames]).  Claim: walking a trie from a start key gives exactly the
    entries behind that key, in ascending order.  A start key that is in the
    trie is visited as well, unlike [NodeIterator] is documented
    ([start_is_included]). *)

From Stdlib Require Import ZArith Lia Bool Sorting.Sorted.
From stdpp Require Import sorting.
From S2P Require Import Prelude GoMath TrieEncoding Trie TrieSpec TrieUpdate TrieNode TrieDatabase TrieHasher TrieHashSpec TrieHashOk TrieIterator TrieTheorems.
Local Open Scope Z_scope.
Local Open Scope go_scope.

(** ** The order of paths *)

Lemma compare_refl a : bytesCompare a a = Eq.
Proof. induction a as [|x a IH]; [done|]. cbn. by rewrite Z.compare_refl. Qed.

Lemma compare_app p a b : bytesCompare (p ++ a) (p ++ b) = bytesCompare a b.
Proof. induction p as [|x p IH]; [done|]. cbn. by rewrite Z.compare_refl. Qed.

Lemma compare_extends p b s : bytesCompare p (p ++ b :: s) = Lt.
Proof. rewrite <- (app_nil_r p) at 1. by rewrite compare_app. Qed.

Lemma compare_trans a b c : bytesCompare a b = Lt -> bytesCompare b c = Lt -> bytesCompare a c = Lt.
Proof.
  revert b c. induction a as [|x a IH]; intros [|y b] [|z c]; try done. cbn.
  destruct (Z.compare_spec (byteZ x) (byteZ y)) as [E1|H1|H1], (Z.compare_spec (byteZ y) (byteZ z)) as [E2|H2|H2]; try done; intros Ha Hb.
  - rewrite E1, E2, Z.compare_refl. by apply (IH b).
  - rewrite E1. by rewrite (proj2 (Z.compare_lt_iff _ _) H2).
  - rewrite <- E2. by rewrite (proj2 (Z.compare_lt_iff _ _) H1).
  - by rewrite (proj2 (Z.compare_lt_iff _ _)) by lia.
Qed.

(** A path that is neither at the key nor on the way to it: nothing below it is. *)
Lemma compare_off_way p key s : bytesCompare p key = Lt -> HasPrefix key p = false -> bytesCompare (p ++ s) key = Lt.
Proof.
  revert key. induction p as [|x p IH]; intros key E Hp; [by unfold HasPrefix in Hp; rewrite bool_decide_true in Hp|].
  destruct key as [|y key]; [done|]. cbn in *. destruct (Z.compare_spec (byteZ x) (byteZ y)) as [Exy|H|H]; try done.
  apply IH; [done|]. apply byteZ_inj in Exy as ->. unfold HasPrefix in *. apply bool_decide_eq_false in Hp. apply bool_decide_eq_false.
  intros Et. apply Hp. cbn. by rewrite Et.
Qed.

(** Paths of keys of one length are ordered as the keys. *)
Lemma hex_order a : forall b, length a = length b -> bytesCompare (keybytesToHex a) (keybytesToHex b) = bytesCompare a b.
Proof.
  unfold keybytesToHex. induction a as [|x a IH]; intros [|y b] E; try done. injection E as E. specialize (IH b E).
  unfold hexOf in *. cbn [map concat app bytesCompare]. rewrite !byteZ_Zbyte. pose proof (byteZ_range x). pose proof (byteZ_range y).
  rewrite !(Z.mod_small (_ / 16)) by (Z.to_euclidean_division_equations; lia). rewrite !(Z.mod_small (_ mod 16)) by (Z.to_euclidean_division_equations; lia).
  destruct (Z.compare_spec (byteZ x) (byteZ y)) as [Exy|Hxy|Hxy].
  - rewrite Exy, !Z.compare_refl. exact IH.
  - destruct (Z.compare_spec (byteZ x / 16) (byteZ y / 16)) as [Ed|Hd|Hd]; [|done|exfalso; Z.to_euclidean_division_equations; lia].
    by rewrite (proj2 (Z.compare_lt_iff _ _)) by (Z.to_euclidean_division_equations; lia).
  - destruct (Z.compare_spec (byteZ x / 16) (byteZ y / 16)) as [Ed|Hd|Hd]; [|exfalso; Z.to_euclidean_division_equations; lia|done].
    by rewrite (proj2 (Z.compare_gt_iff _ _)) by (Z.to_euclidean_division_equations; lia).
Qed.

(** Unless a key is the start or a prefix of it, its path is at or behind the path
    of the start, which has no terminator, just when the key is behind the start. *)
Lemma start_order a : forall b, ~ a `prefix_of` b -> bytesCompare (keybytesToHex a) (hexOf b) <> Lt <-> bytesCompare a b = Gt.
Proof.
  unfold keybytesToHex. induction a as [|x a IH]; intros b Hp; [by destruct Hp; apply prefix_nil|]. destruct b as [|y b]; [done|].
  unfold hexOf in *. cbn [map concat app bytesCompare]. rewrite !byteZ_Zbyte. pose proof (byteZ_range x). pose proof (byteZ_range y).
  rewrite !(Z.mod_small (_ / 16)) by (Z.to_euclidean_division_equations; lia). rewrite !(Z.mod_small (_ mod 16)) by (Z.to_euclidean_division_equations; lia).
  destruct (Z.compare_spec (byteZ x) (byteZ y)) as [Exy|Hxy|Hxy].
  - rewrite Exy, !Z.compare_refl. apply IH. intros Hab. apply Hp. apply byteZ_inj in Exy as ->. by apply prefix_cons.
  - destruct (Z.compare_spec (byteZ x / 16) (byteZ y / 16)) as [Ed|Hd|Hd]; [|done|exfalso; Z.to_euclidean_division_equations; lia].
    by rewrite (proj2 (Z.compare_lt_iff _ _)) by (Z.to_euclidean_division_equations; lia).
  - destruct (Z.compare_spec (byteZ x / 16) (byteZ y / 16)) as [Ed|Hd|Hd]; [|exfalso; Z.to_euclidean_division_equations; lia|done].
    by rewrite (proj2 (Z.compare_gt_iff _ _)) by (Z.to_euclidean_division_equations; lia).
Qed.

(** ** Pre-order *)

Abbreviation visits := (list (list byte * ptree)).

Fixpoint visit (p : list byte) (t : ptree) : visits :=
  (p, t) ::
  match t with
  | PShort k c => visit (p ++ k) c
  | PFull cs =>
      (fix go (i : nat) (cs : list ptree) : visits :=
         match cs with
         | [] => []
         | c :: cs => match c with PNil => [] | _ => visit (p ++ [Zbyte (Z.of_nat i)]) c end ++ go (S i) cs
         end) O cs
  | _ => []
  end.

(** The children from [i] on. *)
Fixpoint kidsFull (p : list byte) (i : nat) (cs : list ptree) : visits :=
  match cs with
  | [] => []
  | c :: cs => match c with PNil => [] | _ => visit (p ++ [Zbyte (Z.of_nat i)]) c end ++ kidsFull p (S i) cs
  end.

(** What comes below a node of which the children up to [i] are done. *)
Definition kids (p : list byte) (t : ptree) (i : Z) : visits :=
  match t with
  | PShort k c => if i <? 0 then visit (p ++ k) c else []
  | PFull cs => kidsFull p (Z.to_nat (i + 1)) (drop (Z.to_nat (i + 1)) cs)
  | _ => []
  end.

Lemma visit_kids p t : visit p t = (p, t) :: kids p t (-1).
Proof.
  destruct t as [| | |cs]; try done. cbn [visit kids]. change (Z.to_nat (-1 + 1)) with O. rewrite drop_0. f_equal. generalize O.
  induction cs as [|c cs IH]; intros i; [done|]. cbn [kidsFull]. rewrite <- IH. reflexivity.
Qed.

Lemma visit_short p k c : visit p (PShort k c) = (p, PShort k c) :: visit (p ++ k) c.
Proof. done. Qed.

Lemma visit_full p cs : visit p (PFull cs) = (p, PFull cs) :: kidsFull p 0 cs.
Proof. apply visit_kids. Qed.

Lemma elem_of_kidsFull p x cs : forall i, x ∈ kidsFull p i cs <->
  exists j c, cs !! j = Some c /\ c <> PNil /\ x ∈ visit (p ++ [Zbyte (Z.of_nat (i + j))]) c.
Proof.
  induction cs as [|c cs IH]; intros i; cbn [kidsFull].
  - split; [by intros ?%not_elem_of_nil|]. by intros (j & c & E & _).
  - rewrite elem_of_app, IH. split.
    + intros [Hx|(j & c' & E & Hc & Hx)].
      * exists O, c. rewrite Nat.add_0_r. destruct c; [by apply not_elem_of_nil in Hx|done..].
      * exists (S j), c'. split; [done|]. split; [done|]. by rewrite Nat.add_succ_r.
    + intros ([|j] & c' & E & Hc & Hx).
      * injection E as <-. left. rewrite Nat.add_0_r in Hx. by destruct c.
      * right. exists j, c'. split; [done|]. split; [done|]. by rewrite Nat.add_succ_r in Hx.
Qed.

(** ** The values *)

Lemma visit_value t : canon t -> forall p q v, (q, PVal v) ∈ visit p t <-> exists k, q = p ++ k /\ hexkey k /\ plookup t k = Some v.
Proof.
  induction 1 as [k w Hk Hw|k cs Hne Hk Hc IH|cs Hl Hn IH Hv Hex]; intros p q v; rewrite visit_short || rewrite visit_full; rewrite elem_of_cons.
  - cbn [visit]. rewrite list_elem_of_singleton. split.
    + intros [[=]|[= -> ->]]. exists k. split; [done|]. split; [done|apply plookup_leaf].
    + intros (k' & -> & Hk' & E). apply plookup_short_inv in E as (r & -> & E). destruct r; [|done]. rewrite app_nil_r. injection E as ->. by right.
  - rewrite IH. split.
    + intros [[=]|(k' & -> & Hk' & E)]. exists (k ++ k'). rewrite app_assoc. split; [done|]. split; [by apply hexkey_app|by rewrite plookup_short_app].
    + intros (k' & -> & Hk' & E). right. apply plookup_short_inv in E as (r & -> & E). exists r. rewrite app_assoc. split; [done|]. split; [|done].
      destruct r as [|b r]; [done|]. by apply hexkey_app_inv in Hk' as [_ Hk'].
  - rewrite elem_of_kidsFull. split.
    + intros [[=]|(j & c & E & Hne & Hx)]. cbn [Nat.add] in Hx. assert (j < 17)%nat as Hj by (rewrite <- Hl; by eapply lookup_lt_Some).
      destruct (decide (j < 16)%nat) as [Hlt|Hge].
      * apply (IH j c Hlt E Hne) in Hx as (k' & -> & Hk' & Ek). exists (Zbyte (Z.of_nat j) :: k'). split; [by rewrite <- app_assoc|].
        split; [apply (hexkey_app [_]); [constructor; [by apply nibble_Zbyte|constructor]|done]|]. by rewrite plookup_full, bidx_Zbyte, E by lia.
      * replace j with 16%nat in * by lia. destruct (Hv c E Hne) as (w & -> & Hw). apply list_elem_of_singleton in Hx. injection Hx as -> ->.
        exists [x10]. split; [done|]. split; [apply hexkey_term|]. by rewrite plookup_full, bidx_term, E.
    + intros ([|b k] & -> & Hk & E); [by apply hexkey_nonempty in Hk|]. right. rewrite plookup_full in E. destruct (cs !! bidx b) as [c|] eqn:Ec; [|done].
      exists (bidx b), c. split; [done|]. assert (Zbyte (Z.of_nat (bidx b)) = b) as Eb by (unfold bidx; pose proof (byteZ_range b); rewrite Z2Nat.id by lia; apply Zbyte_byteZ).
      cbn [Nat.add]. rewrite Eb. assert (c <> PNil) as Hne by (by intros ->). split; [done|]. apply hexkey_cons in Hk as [[-> ->]|[Hb Hk]].
      * rewrite bidx_term in Ec. destruct (Hv c Ec Hne) as (w & -> & Hw). injection E as ->. apply list_elem_of_singleton. done.
      * apply (IH (bidx b) c (bidx_nibble b Hb) Ec Hne). exists k. by rewrite <- app_assoc.
Qed.

(** Values, and only they, have a complete path. *)
Lemma visit_inner t : canon t -> forall p q u, nibbles p -> (q, u) ∈ visit p t -> (exists v, u = PVal v) \/ ((forall v, u <> PVal v) /\ nibbles q).
Proof.
  induction 1 as [k w Hk Hw|k cs Hne Hk Hc IH|cs Hl Hn IH Hv Hex]; intros p q u Hp; rewrite visit_short || rewrite visit_full; rewrite elem_of_cons.
  - cbn [visit]. rewrite list_elem_of_singleton. intros [[= -> ->]|[= -> ->]]; [by right|left; by eexists].
  - intros [[= -> ->]|Hx]; [by right|]. apply (IH (p ++ k)); [by apply Forall_app|done].
  - rewrite elem_of_kidsFull. intros [[= -> ->]|(j & c & E & Hne & Hx)]; [by right|]. cbn [Nat.add] in Hx.
    assert (j < 17)%nat as Hj by (rewrite <- Hl; by eapply lookup_lt_Some). destruct (decide (j < 16)%nat) as [Hlt|Hge].
    + apply (IH j c Hlt E Hne _ _ _) in Hx; [done|]. apply Forall_app. split; [done|]. constructor; [by apply nibble_Zbyte|constructor].
    + replace j with 16%nat in * by lia. destruct (Hv c E Hne) as (w & -> & Hw). apply list_elem_of_singleton in Hx. injection Hx as -> ->. left. by eexists.
Qed.

(** ** The order of the visits *)

Lemma ptree_ind' (P : ptree -> Prop) : P PNil -> (forall v, P (PVal v)) -> (forall k c, P c -> P (PShort k c)) ->
  (forall cs, Forall P cs -> P (PFull cs)) -> forall t, P t.
Proof.
  intros H1 H2 H3 H4. fix IH 1. intros [| | |cs]; [done|apply H2|apply H3, IH|]. apply H4. induction cs as [|c cs IHc]; constructor; [apply IH|apply IHc].
Qed.

Lemma visit_extends t : forall p q u, (q, u) ∈ visit p t -> exists s, q = p ++ s.
Proof.
  induction t as [|v|k c IH|cs IH] using ptree_ind'; intros p q u Hx; rewrite visit_kids in Hx; apply elem_of_cons in Hx as [[= -> ->]|Hx];
    try (exists []; by rewrite app_nil_r); try (by apply not_elem_of_nil in Hx).
  - destruct (IH _ _ _ Hx) as (s & ->). exists (k ++ s). by rewrite app_assoc.
  - cbn [kids] in Hx. apply elem_of_kidsFull in Hx as (j & c & E & _ & Hx). rewrite Forall_forall in IH. rewrite lookup_drop in E.
    destruct (IH c (list_elem_of_lookup_2 _ _ _ E) _ _ _ Hx) as (s & ->). rewrite <- app_assoc. by eexists.
Qed.

Lemma kids_extend p t i q u : (q, u) ∈ kids p t i -> exists s, q = p ++ s.
Proof.
  destruct t as [|v|k c|cs]; cbn [kids]; try (by intros ?%not_elem_of_nil).
  - destruct (i <? 0); [|by intros ?%not_elem_of_nil]. intros Hx. destruct (visit_extends _ _ _ _ Hx) as (s & ->). exists (k ++ s). by rewrite app_assoc.
  - intros Hx. apply elem_of_kidsFull in Hx as (j & c & _ & _ & Hx). destruct (visit_extends _ _ _ _ Hx) as (s & ->). rewrite <- app_assoc. by eexists.
Qed.

Definition before (a b : list byte * ptree) : Prop := bytesCompare a.1 b.1 = Lt.

(** Below a path, and in order. *)
Definition ordered_at (t : ptree) : Prop := forall p, StronglySorted before (visit p t) /\ forall q u, (q, u) ∈ visit p t -> exists s, q = p ++ s.

Lemma kidsFull_sorted p cs : forall i, (i + length cs <= 256)%nat -> (forall j c, cs !! j = Some c -> c <> PNil -> ordered_at c) ->
  StronglySorted before (kidsFull p i cs).
Proof.
  induction cs as [|c cs IH]; intros i Hi Hc; [constructor|]. cbn [kidsFull]. cbn in Hi. apply StronglySorted_app. split; [|split].
  - intros [q u] [q' u'] Hx Hy. assert (c <> PNil) as Hne by (by intros ->; apply not_elem_of_nil in Hx).
    assert ((q, u) ∈ visit (p ++ [Zbyte (Z.of_nat i)]) c) as Hx' by (by destruct c). destruct (proj2 (Hc O c eq_refl Hne _) q u Hx') as (s & ->).
    apply elem_of_kidsFull in Hy as (j & c' & Ej & Hne' & Hy). destruct (proj2 (Hc (S j) c' Ej Hne' _) q' u' Hy) as (s' & ->).
    apply lookup_lt_Some in Ej. unfold before. cbn [fst]. rewrite <- !app_assoc, compare_app. cbn. rewrite !byteZ_Zbyte, !Z.mod_small by lia.
    by rewrite (proj2 (Z.compare_lt_iff _ _)) by lia.
  - destruct c; [constructor|apply (Hc O _ eq_refl); done..].
  - apply IH; [lia|]. intros j c' E. by apply (Hc (S j)).
Qed.

Lemma ordered_cons t q0 : (forall q u, (q, u) ∈ kids q0 t (-1) -> exists b s, q = q0 ++ b :: s) -> StronglySorted before (kids q0 t (-1)) ->
  StronglySorted before (visit q0 t) /\ forall q u, (q, u) ∈ visit q0 t -> exists s, q = q0 ++ s.
Proof.
  intros He Hs. rewrite visit_kids. split.
  - constructor; [done|]. apply Forall_forall. intros [q u] Hx. destruct (He q u Hx) as (b & s & ->). apply compare_extends.
  - intros q u [[= -> _]|Hx]%elem_of_cons; [exists []; by rewrite app_nil_r|]. destruct (He q u Hx) as (b & s & ->). by exists (b :: s).
Qed.

Lemma ordered_val v : ordered_at (PVal v).
Proof. intros p. apply ordered_cons; [by intros q u ?%not_elem_of_nil|constructor]. Qed.

Lemma ordered_short k c : (1 <= length k)%nat -> ordered_at c -> ordered_at (PShort k c).
Proof.
  intros Hk Hc p. destruct (Hc (p ++ k)) as [Hs He]. apply ordered_cons; [|done]. intros q u Hx. destruct (He q u Hx) as (s & ->).
  destruct k as [|b k]; [cbn in Hk; lia|]. exists b, (k ++ s). by rewrite <- app_assoc.
Qed.

Lemma ordered_canon t : canon t -> ordered_at t.
Proof.
  induction 1 as [k w Hk Hw|k cs Hne Hk Hc IH|cs Hl Hn IH Hv Hex].
  - apply ordered_short; [|apply ordered_val]. destruct k; [by apply hexkey_nonempty in Hk|cbn; lia].
  - apply ordered_short; [|done]. destruct k; [done|cbn; lia].
  - assert (forall j c, cs !! j = Some c -> c <> PNil -> ordered_at c) as Hc.
    { intros j c E Hne. assert (j < 17)%nat as Hj by (rewrite <- Hl; by eapply lookup_lt_Some). destruct (decide (j < 16)%nat); [by apply (IH j)|].
      replace j with 16%nat in E by lia. destruct (Hv c E Hne) as (v & -> & _). apply ordered_val. }
    intros p. apply ordered_cons; cbn [kids]; change (Z.to_nat (-1 + 1)) with O; rewrite drop_0.
    + intros q u Hx. apply elem_of_kidsFull in Hx as (j & c & E & Hne & Hx). destruct (proj2 (Hc j c E Hne _) q u Hx) as (s & ->).
      eexists _, s. by rewrite <- app_assoc.
    + apply kidsFull_sorted; [lia|done].
Qed.

(** ** From a key on *)

Fixpoint from (key : list byte) (l : visits) : visits :=
  match l with
  | [] => []
  | (q, u) :: l' => match bytesCompare q key with Lt => from key l' | _ => l end
  end.

Lemma from_skip key l1 l2 : (forall q u, (q, u) ∈ l1 -> bytesCompare q key = Lt) -> from key (l1 ++ l2) = from key l2.
Proof.
  induction l1 as [|[q u] l1 IH]; intros H; [done|]. cbn. rewrite (H q u) by (apply elem_of_cons; by left). apply IH.
  intros q' u' Hx. apply (H q' u'). apply elem_of_cons. by right.
Qed.

Lemma compare_le_trans a b c : bytesCompare a c <> Lt -> bytesCompare a b = Lt -> bytesCompare b c <> Lt.
Proof. intros H E E'. apply H. by eapply compare_trans. Qed.

Lemma elem_of_from key l q u : StronglySorted before l -> (q, u) ∈ from key l <-> (q, u) ∈ l /\ bytesCompare q key <> Lt.
Proof.
  induction 1 as [|[q0 u0] l Hs IH Ha]; cbn [from].
  - split; [by intros ?%not_elem_of_nil|by intros [?%not_elem_of_nil _]].
  - rewrite Forall_forall in Ha. destruct (bytesCompare q0 key) eqn:E.
    + split; [|by intros [? _]]. intros Hx. split; [done|]. apply elem_of_cons in Hx as [[= -> ->]|Hx]; [by rewrite E|].
      apply (compare_le_trans q0); [by rewrite E|by apply (Ha (q, u))].
    + rewrite IH, elem_of_cons. split; [intros [? ?]; split; [by right|done]|]. intros [[[= -> ->]|?] ?]; [by rewrite E in *|done].
    + split; [|by intros [? _]]. intros Hx. split; [done|]. apply elem_of_cons in Hx as [[= -> ->]|Hx]; [by rewrite E|].
      apply (compare_le_trans q0); [by rewrite E|by apply (Ha (q, u))].
Qed.

Lemma from_sorted key l : StronglySorted before l -> StronglySorted before (from key l).
Proof. induction 1 as [|[q u] l Hs IH Ha]; cbn [from]; [constructor|]. destruct (bytesCompare q key); [by constructor|done|by constructor]. Qed.

Lemma from_length key l : (length (from key l) <= length l)%nat.
Proof. induction l as [|[q u] l IH]; cbn [from]; [done|]. destruct (bytesCompare q key); cbn; lia. Qed.

(** ** The stack *)

Section walk.
Context {K : Sha3} {R : NodeReader} {FI : FlagInv}.

(** The stack of a walk, the path of its top, and what is still to come. *)
Inductive frames : list nodeIteratorState -> list byte -> visits -> Prop :=
| fr_nil : frames [] [] []
| fr_cons st stk path t rest b :
    frames stk (take (Z.to_nat (st_pathlen st)) path) rest -> 0 <= st_pathlen st <= zlen path ->
    expands b (st_node st) t -> isHash (st_node st) = false -> -1 <= st_index st ->
    frames (st :: stk) path (kids path t (st_index st) ++ rest).

Lemma firstChild_spec p : forall cs ts i, Forall2 (expands false) cs ts ->
  match firstChild i cs with
  | Some (j, c) => exists n u post, j = (i + n)%nat /\ drop n ts = u :: post /\ expands false c u /\ u <> PNil /\
      kidsFull p i ts = visit (p ++ [Zbyte (Z.of_nat j)]) u ++ kidsFull p (S j) post /\ kidsFull p j (u :: post) = kidsFull p i ts
  | None => kidsFull p i ts = []
  end.
Proof.
  intros cs ts i H. revert i. induction H as [|c t cs ts Hc _ IH]; intros i; cbn [firstChild kidsFull]; [done|]. destruct (isNil c) eqn:En.
  - assert (t = PNil) as -> by (by apply (expands_nil _ _ _ Hc)). specialize (IH (S i)). destruct (firstChild (S i) cs) as [[j c']|]; [|done].
    destruct IH as (n & u & post & -> & Ed & Hu & Hne & E1 & E2). exists (S n), u, post. split; [lia|]. split; [done|]. split; [done|]. split; [done|].
    replace (i + S n)%nat with (S i + n)%nat by lia. done.
  - assert (t <> PNil) as Hne by (intros ->; by rewrite (proj2 (expands_nil _ _ _ Hc) eq_refl) in En).
    exists O, t, ts. split; [lia|]. split; [done|]. split; [done|]. split; [done|]. split; [by destruct t|done].
Qed.

Lemma resolveState_ok b tr path st u : expands b (st_node st) u -> exists st', resolveState tr path st = tok st' /\
  expands b (st_node st') u /\ isHash (st_node st') = false /\ st_index st' = st_index st /\ st_pathlen st' = st_pathlen st.
Proof.
  intros He. unfold resolveState. destruct (st_node st) as [|cs fl|k c fl|h|v] eqn:E; try (exists st; rewrite E; done).
  destruct (resolveHash_ok (t_cachegen tr) b h path u He) as (n & -> & Hn & Hen). eexists. split; [done|]. cbn. done.
Qed.

(** The result of finding a next child. *)
Definition ahead (q : list byte) (u : ptree) (rest : visits) (st : nodeIteratorState) (stk : list nodeIteratorState) : Prop :=
  match stk with
  | [] => False
  | top :: stk => frames (st :: with_index (st_index top + 1) top :: stk) q rest
  end /\ expands false (st_node st) u /\ isHash (st_node st) = false.

Lemma nextChild_ok path st stk t b rest ancestor : frames stk (take (Z.to_nat (st_pathlen st)) path) rest -> 0 <= st_pathlen st <= zlen path ->
  expands b (st_node st) t -> isHash (st_node st) = false -> -1 <= st_index st ->
  match nextChild path st ancestor with
  | None => kids path t (st_index st) = []
  | Some (c, q, st') => exists u below later, kids path t (st_index st) = (q, u) :: below ++ later /\ expands false (st_node c) u /\
      below = kids q u (st_index c) /\ st_index c = -1 /\ st_pathlen c = zlen path /\ (exists s, q = path ++ s) /\
      frames (st' :: stk) path (kids path t (st_index st) ++ rest) /\ frames (with_index (st_index st' + 1) st' :: stk) path (later ++ rest)
  end.
Proof.
  intros Hf Hp He Hh Hi. unfold nextChild.
  assert (forall st' later, st_node st' = st_node st -> st_pathlen st' = st_pathlen st -> -1 <= st_index st' -> kids path t (st_index st') = later ->
    frames (st' :: stk) path (later ++ rest)) as Hfr.
  { intros st' later En El Ei <-. eapply fr_cons; rewrite ?En, ?El; done. }
  destruct (st_node st) as [|cs fl|k c fl|h|v] eqn:En; inversion He as [|? v'|? k' c' t' fl' Hc|? cs' ts fl' Hl Hcs Hfl|]; subst; try done.
  - set (i0 := Z.to_nat (st_index st + 1)). assert (Forall2 (expands false) (drop i0 cs) (drop i0 ts)) as H2.
    { apply Forall2_drop, Forall2_same_length_lookup. split; [done|]. intros i c u. apply Hcs. }
    cbn [kids]. fold i0. pose proof (firstChild_spec path _ _ i0 H2) as Hs. destruct (firstChild i0 (drop i0 cs)) as [[j c]|]; [|done].
    destruct Hs as (n & u & post & Ej & Ed & Hu & Hne & E1 & E2). rewrite drop_drop, <- Ej in Ed.
    exists u, (kids (path ++ [Zbyte (Z.of_nat j)]) u (-1)), (kidsFull path (S j) post). rewrite E1, visit_kids.
    split; [done|]. split; [done|]. split; [done|]. split; [done|]. split; [done|]. split; [by eexists|]. split.
    + rewrite <- visit_kids, <- E1. apply Hfr; [exact En|done|cbn; lia|]. cbn [kids with_index st_index].
      replace (Z.to_nat (Z.of_nat j - 1 + 1)) with j by lia. by rewrite Ed.
    + apply Hfr; [exact En|done|cbn; lia|]. cbn [kids with_index st_index]. replace (Z.to_nat (Z.of_nat j - 1 + 1 + 1)) with (S j) by lia.
      replace (drop (S j) ts) with (drop 1 (drop j ts)) by (rewrite drop_drop; f_equal; lia). by rewrite Ed.
  - cbn [kids]. destruct (st_index st <? 0) eqn:Ei; [|done]. rewrite visit_kids. zbool. exists t', (kids (path ++ k) t' (-1)), []. rewrite app_nil_r.
    split; [done|]. split; [done|]. split; [done|]. split; [done|]. split; [done|]. split; [by eexists|]. rewrite <- visit_kids. split.
    + apply Hfr; [exact En|done|done|]. cbn [kids]. by rewrite (proj2 (Z.ltb_lt _ _)).
    + apply Hfr; [exact En|done|cbn; lia|]. cbn [kids with_index st_index]. by rewrite (proj2 (Z.ltb_ge _ _)) by lia.
Qed.

(** The loop of [peek] finds what comes next; the walk is not changed until the
    state is pushed. *)
Lemma peekLoop_ok tr : forall stk path rest, frames stk path rest ->
  match rest with
  | [] => peekLoop tr stk path = Ret (inl errIteratorEnd, [], [])
  | (q, u) :: rest' => exists st stk' path', peekLoop tr stk path = Ret (inr (st, q), stk', path') /\ frames stk' path' rest /\ stk' <> [] /\ ahead q u rest' st stk'
  end.
Proof.
  induction 1 as [|st stk path t rest b Hf IH Hp He Hh Hi]; [done|]. cbn [peekLoop].
  pose proof (nextChild_ok path st stk t b rest (if st_hash st =? 0 then st_parent st else st_hash st) Hf Hp He Hh Hi) as Hn.
  destruct (nextChild path st _) as [[[c q] st']|].
  - destruct Hn as (u & below & later & -> & Hc & -> & Ei & El & (s & Eq) & Hf1 & Hf2).
    destruct (resolveState_ok false tr q c u Hc) as (c' & -> & Hc' & Hh' & Ei' & El'). cbn [app]. eexists c', _, _. split; [done|]. split; [done|]. split; [done|].
    split; [|done]. rewrite <- app_assoc, <- Ei'. eapply fr_cons; [|rewrite El', El, Eq, zlen_app; pose proof (zlen_nonneg path); pose proof (zlen_nonneg s); lia|done|done|lia].
    rewrite El', El, Eq. unfold zlen. rewrite Nat2Z.id, take_app_length. exact Hf2.
  - rewrite Hn. cbn [app]. rewrite slice_Some by lia. change (Z.to_nat 0) with O. rewrite drop_0, Z.sub_0_r. exact IH.
Qed.
End walk.

Section session.
Context {K : Sha3}.
Variables (d : Database) (pt : ptree) (m : Map).
Hypothesis Hsmall : small_map m.
#[local] Hint Extern 0 NodeReader => exact (reader d) : typeclass_instances.
#[local] Hint Extern 0 FlagInv => exact (hashInv (stored d)) : typeclass_instances.

(** What an iterator still has to visit; before its first step, everything. *)
Definition walk (it : nodeIterator) (rest : visits) : Prop :=
  (exists t, ni_trie it = Some t /\ sess_is d pt m t) /\
  ((ni_stack it = [] /\ ni_path it = [] /\ rest = visit [] pt) \/ (ni_stack it <> [] /\ frames (ni_stack it) (ni_path it) rest)).

Definition pushed (st : nodeIteratorState) (b : bool) (q : list byte) (it : nodeIterator) : nodeIterator :=
  let stack := match ni_stack it with p :: stk => (if b then with_index (st_index p + 1) p else p) :: stk | [] => [] end in
  set_walk (st :: stack) q it.

(** What [peek] returns, and what [push] makes of it. *)
Definition peeked (rest : visits) (it : nodeIterator) (r : iterErr + (nodeIteratorState * bool * list byte)) (it' : nodeIterator) : Prop :=
  match rest with
  | [] => r = inl errIteratorEnd
  | (q, u) :: rest' => exists st b, r = inr (st, b, q) /\ walk it' rest /\ (exists c, expands c (st_node st) u) /\ isHash (st_node st) = false /\
      forall e, walk (pushed st b q (set_err e it')) rest'
  end.

Lemma peek_fresh descend it : walk it (visit [] pt) -> ni_stack it = [] -> exists r it', peek descend it = Ret (r, it') /\ peeked (visit [] pt) it r it'.
Proof.
  intros ((t & Et & Ht) & Hw) Es. destruct (Hash_ok d pt m t Ht Hsmall) as (t' & Eh & Ht'). pose proof Ht' as (He & _).
  unfold peek. unfold bind at 1, get at 1. unfold bind at 1, must at 1. rewrite Et. cbn [ret]. rewrite Es, Eh.
  destruct (resolveState_ok true t' [] (mkState (if rootOf pt =? emptyRoot then 0 else rootOf pt) (t_root t') 0 (-1) 0) pt He) as (st & Er & Hst & Hh & Ei & El). cbn [st_index st_pathlen] in Ei, El.
  unfold bind, modify. rewrite Er. eexists _, _. split; [done|]. rewrite visit_kids. cbn [peeked]. exists st, false. split; [done|].
  assert (ni_path it = []) as Ep by (destruct Hw as [(_ & ? & _)|[? _]]; done). split; [|split; [by exists true|split; [done|]]].
  - split; [by exists t'|]. left. cbn. by rewrite visit_kids.
  - intros e. split; [by exists t'|]. right. cbn. rewrite Es. split; [done|]. rewrite <- (app_nil_r (kids [] pt (-1))), <- Ei.
    eapply fr_cons; [rewrite El; apply fr_nil|rewrite El; by vm_compute|exact Hst|done|rewrite Ei; lia].
Qed.

Lemma peek_stack it tr stk path rest (descend : bool) : ni_trie it = Some tr -> sess_is d pt m tr -> frames stk path rest ->
  ((if descend then ret tt else pop) : NM unit) it = Ret (tt, set_walk stk path it) -> ni_stack it <> [] ->
  exists r it', peek descend it = Ret (r, it') /\ peeked rest it r it'.
Proof.
  intros Et Ht Hf Hpop Hs. unfold peek. unfold bind at 1, get at 1. unfold bind at 1, must at 1. rewrite Et. cbn [ret].
  destruct (ni_stack it) as [|s0 sk]; [done|]. unfold bind at 1. rewrite Hpop. unfold bind, get. cbn [set_walk ni_stack ni_path].
  pose proof (peekLoop_ok tr stk path rest Hf) as Hl. destruct rest as [|[q u] rest'].
  - rewrite Hl. eexists _, _. split; [done|]. done.
  - destruct Hl as (st & stk' & path' & -> & Hf' & Hne & Ha & He & Hh). eexists _, _. split; [done|]. exists st, true. split; [done|].
    split; [split; [by exists tr|by right]|]. split; [by exists false|]. split; [done|]. intros e. split; [by exists tr|]. right. cbn. split; [done|]. by destruct stk'.
Qed.

(** [peek] returns the next node; without descending it skips what is below the
    current one. *)
Lemma iter_peek_ok descend it rest : walk it rest -> descend = true \/ ni_stack it <> [] ->
  exists skipped rest0 r it', rest = skipped ++ rest0 /\ (descend = true -> skipped = []) /\
    (forall q u, (q, u) ∈ skipped -> exists s, q = ni_path it ++ s) /\ peek descend it = Ret (r, it') /\ peeked rest0 it r it'.
Proof.
  intros Hw Hd. pose proof Hw as ((t & Et & Ht) & [(Es & Ep & ->)|[Hs Hf]]).
  - destruct Hd as [->|]; [|done]. destruct (peek_fresh true it Hw Es) as (r & it' & E & Hp). exists [], (visit [] pt), r, it'.
    split; [done|]. split; [done|]. split; [by intros ? ? ?%not_elem_of_nil|]. done.
  - destruct descend.
    + destruct (peek_stack it t _ _ rest true Et Ht Hf) as (r & it' & E & Hp); [by destruct it|done|]. exists [], rest, r, it'.
      split; [done|]. split; [done|]. split; [by intros ? ? ?%not_elem_of_nil|]. done.
    + inversion Hf as [|st stk path u rest0 b Hf0 Hp0 He Hh Hi Es Ep Er]; [by rewrite <- H in Hs|].
      destruct (peek_stack it t stk (take (Z.to_nat (st_pathlen st)) (ni_path it)) rest0 false Et Ht) as (r & it' & E & Hp); [done| |done|].
      * unfold pop, bind, get, must, modify. rewrite <- Es. rewrite slice_Some by lia. change (Z.to_nat 0) with O. by rewrite drop_0, Z.sub_0_r.
      * eexists (kids _ u (st_index st)), rest0, r, it'. split; [done|]. split; [done|]. split; [intros q' u' Hx; by eapply kids_extend|]. done.
Qed.

(** Moving to a key. *)
Lemma seekLoop_ok prefix key : forall fuel it rest, walk it rest -> (length rest < fuel)%nat ->
  HasPrefix key (ni_path it) = true \/ (ni_stack it <> [] /\ bytesCompare (ni_path it) key = Lt) ->
  exists err it', seekLoop fuel prefix key it = Ret (err, it') /\
    match from key rest with [] => err = Some errIteratorEnd | _ => err = None /\ walk it' (from key rest) end.
Proof.
  induction fuel as [|fuel IH]; intros it rest Hw Hf Hc; [lia|]. cbn [seekLoop]. unfold bind at 1, get at 1.
  destruct (iter_peek_ok (HasPrefix key (ni_path it)) it rest Hw) as (skipped & rest0 & r & it' & -> & Ht & Hsk & E & Hp); [destruct Hc as [?|[? _]]; tauto|].
  assert (from key (skipped ++ rest0) = from key rest0) as ->.
  { destruct (HasPrefix key (ni_path it)) eqn:Eh; [by rewrite Ht|]. destruct Hc as [|[_ Hlt]]; [done|]. apply from_skip.
    intros q u Hx. destruct (Hsk q u Hx) as (s & ->). by apply compare_off_way. }
  rewrite length_app in Hf. unfold bind at 1. rewrite E. destruct rest0 as [|[q u] rest']; cbn [peeked] in Hp; [subst r; by eexists _, _|].
  destruct Hp as (st & b & -> & Hw' & _ & _ & Hpush). cbn [from]. destruct (bytesCompare q key) eqn:Eq; [by eexists _, _| |by eexists _, _].
  cbn in Hf. destruct (IH (pushed st b q it') rest') as (err & it2 & E2 & H2).
  - specialize (Hpush (ni_err it')). by destruct it'.
  - lia.
  - right. by destruct it'.
  - exists err, it2. split; [|done]. exact E2.
Qed.

(** Where a value can be read. *)
Definition readable (l : visits) : Prop := forall q u, (q, u) ∈ l ->
  match u with PVal _ => exists k, q = keybytesToHex k | _ => nibbles q end.

(** The entries among the visits. *)
Fixpoint leaves (l : visits) : list (list byte * list byte) :=
  match l with
  | [] => []
  | (q, PVal v) :: l => match hexToKeybytes q with Some k => (k, v) :: leaves l | None => leaves l end
  | _ :: l => leaves l
  end.

Lemma Next_ok fuel it rest : walk it rest -> ni_err it = None ->
  match rest with
  | [] => exists it', Next_ fuel true it = Ret (false, it') /\ ni_err it' = Some errIteratorEnd
  | (q, u) :: rest' => exists it' st stk, Next_ fuel true it = Ret (true, it') /\ walk it' rest' /\ ni_err it' = None /\ ni_path it' = q /\
      ni_stack it' = st :: stk /\ (exists c, expands c (st_node st) u) /\ isHash (st_node st) = false
  end.
Proof.
  intros Hw He. destruct (iter_peek_ok true it rest Hw) as (skipped & rest0 & r & it' & -> & Ht & _ & E & Hp); [by left|]. rewrite Ht by done. cbn [app].
  unfold Next_, bind, get. rewrite He, E. destruct rest0 as [|[q u] rest']; cbn [peeked] in Hp.
  - subst r. eexists. split; [done|]. done.
  - destruct Hp as (st & b & -> & _ & Hx & Hh & Hpush). eexists _, _, _. split; [reflexivity|]. split; [exact (Hpush None)|]. cbn. done.
Qed.

Lemma IterNext_ok : forall fuel it rest, walk it rest -> ni_err it = None -> readable rest -> (length rest < fuel)%nat ->
  exists r it', IterNext fuel it = Ret (r, it') /\
    match r with
    | None => leaves rest = [] /\ ni_err it' = Some errIteratorEnd
    | Some kv => exists rest', leaves rest = kv :: leaves rest' /\ walk it' rest' /\ ni_err it' = None /\ readable rest' /\ (length rest' < length rest)%nat
    end.
Proof.
  induction fuel as [|fuel IH]; intros it rest Hw He Hr Hf; [lia|]. cbn [IterNext]. unfold bind at 1. pose proof (Next_ok (S fuel) it rest Hw He) as Hn.
  destruct rest as [|[q u] rest']; [destruct Hn as (it' & -> & He'); by eexists _, _|].
  destruct Hn as (it' & st & stk & -> & Hw' & He' & Ep & Es & (c & Hx) & Hh). assert (readable rest') as Hr' by (intros q' u' ?; apply Hr, elem_of_cons; by right).
  pose proof (Hr q u ltac:(apply elem_of_cons; by left)) as Hq. unfold bind at 1, get at 1. unfold Leaf. rewrite Ep. destruct u as [|v|k' c'|cs'].
  2: { destruct Hq as (k & ->). unfold keybytesToHex at 1. rewrite hasTerm_app. unfold LeafKey, LeafBlob. rewrite Es.
       destruct (st_node st) as [| | | |v0]; inversion Hx; subst; try done. rewrite Ep, hexToKeybytes_keybytes. eexists _, _. split; [done|].
       exists rest'. cbn [leaves]. rewrite hexToKeybytes_keybytes. split; [done|]. split; [done|]. split; [done|]. split; [done|]. cbn. lia. }
  all: rewrite hasTerm_nibbles by done; cbn in Hf; destruct (IH it' rest' Hw' He' Hr' ltac:(lia)) as (r & it2 & E2 & H2); exists r, it2; (split; [done|]);
    destruct r as [kv|]; [|done]; destruct H2 as (rest2 & ? & ? & ? & ? & ?); exists rest2; cbn [leaves length]; (split; [done|]); (split; [done|]); (split; [done|]); (split; [done|]); lia.
Qed.

Lemma collect_ok : forall fuel it rest, walk it rest -> ni_err it = None -> readable rest -> (length rest < fuel)%nat ->
  exists it', collect fuel it = Ret (leaves rest, it') /\ ni_err it' = Some errIteratorEnd.
Proof.
  induction fuel as [|fuel IH]; intros it rest Hw He Hr Hf; [lia|]. cbn [collect]. unfold bind at 1.
  destruct (IterNext_ok (S fuel) it rest Hw He Hr Hf) as (r & it' & -> & H). destruct r as [kv|].
  - destruct H as (rest' & -> & Hw' & He' & Hr' & Hl). destruct (IH it' rest' Hw' He' Hr' ltac:(lia)) as (it2 & E & He2). exists it2. unfold bind. by rewrite E.
  - destruct H as (-> & He'). by exists it'.
Qed.

Lemma entriesFrom_ok t start fuel : sess_is d pt m t -> rootOf pt <> emptyState -> readable (visit [] pt) -> (length (visit [] pt) < fuel)%nat ->
  entriesFrom fuel t start = Ret (leaves (from (hexOf start) (visit [] pt)), None).
Proof.
  intros Ht Hroot Hr Hf. unfold entriesFrom, newNodeIterator. destruct (Hash_ok d pt m t Ht Hsmall) as (t' & -> & Ht').
  rewrite (proj2 (Z.eqb_neq _ _) Hroot). unfold seek, bind at 1, must, keybytesToHex. rewrite zlen_app. change (zlen [x10]) with 1.
  rewrite slice_Some by (rewrite ?zlen_app; try change (zlen [x10]) with 1; pose proof (zlen_nonneg (hexOf start)); lia). change (Z.to_nat 0) with O. rewrite drop_0.
  replace (take _ (hexOf start ++ [x10])) with (hexOf start) by (replace (Z.to_nat _) with (length (hexOf start)) by (unfold zlen; lia); by rewrite take_app_length). cbn [ret].
  destruct (seekLoop_ok start (hexOf start) fuel (mkNI (Some t') [] [] None) (visit [] pt)) as (err & it & -> & Hs); [split; [by exists t'|by left]|done|by left; apply bool_decide_true|].
  destruct (from (hexOf start) (visit [] pt)) as [|x rest] eqn:Ef.
  - subst err. destruct fuel; [lia|]. cbn [collect IterNext]. done.
  - destruct Hs as [-> Hw]. pose proof (from_length (hexOf start) (visit [] pt)) as Hl. rewrite Ef in Hl.
    destruct (collect_ok fuel (set_err None it) (x :: rest)) as (it' & -> & He); [by destruct it|done| |lia|by rewrite He || unfold Error_; rewrite He].
    intros q u Hx. apply Hr. rewrite <- Ef in Hx. clear -Hx. induction (visit [] pt) as [|[q0 u0] l IH]; [done|]. cbn [from] in Hx.
    destruct (bytesCompare q0 (hexOf start)); [done|apply elem_of_cons; right; by apply IH|done].
Qed.
End session.

(** ** The entries *)

Lemma readable_cons x l : readable (x :: l) -> readable l.
Proof. intros H q u Hx. apply H, elem_of_cons. by right. Qed.

Lemma elem_of_leaves l k v : readable l -> (k, v) ∈ leaves l <-> (keybytesToHex k, PVal v) ∈ l.
Proof.
  induction l as [|[q u] l IH]; intros Hr; cbn [leaves].
  - split; by intros ?%not_elem_of_nil.
  - pose proof (Hr q u ltac:(apply elem_of_cons; by left)) as Hq. specialize (IH (readable_cons _ _ Hr)).
    destruct u as [|w|k' c|cs]; try (rewrite IH, elem_of_cons; split; [by right|by intros [[=]|?]]).
    destruct Hq as (k0 & ->). rewrite hexToKeybytes_keybytes, !elem_of_cons, IH. split; (intros [[=]|?]; [left|by right]).
    + by subst.
    + assert (Some k = Some k0) as [= ->] by (rewrite <- !hexToKeybytes_keybytes; by f_equal). by subst.
Qed.

Definition key_before (a b : list byte * list byte) : Prop := bytesCompare (keybytesToHex a.1) (keybytesToHex b.1) = Lt.

Lemma leaves_sorted l : readable l -> StronglySorted before l -> StronglySorted key_before (leaves l).
Proof.
  induction l as [|[q u] l IH]; intros Hr Hs; cbn [leaves]; [constructor|]. inversion Hs as [|? ? Hs' Ha]; subst.
  specialize (IH (readable_cons _ _ Hr) Hs'). destruct u as [|w|k c|cs]; try done.
  pose proof (Hr q _ ltac:(apply elem_of_cons; by left)) as (k0 & ->). rewrite hexToKeybytes_keybytes. constructor; [done|].
  apply Forall_forall. intros [k v] Hx. apply elem_of_leaves in Hx; [|by eapply readable_cons]. rewrite Forall_forall in Ha. exact (Ha _ Hx).
Qed.

Lemma readable_from key l : readable l -> readable (from key l).
Proof.
  intros Hr. induction l as [|[q u] l IH]; cbn [from]; [done|]. destruct (bytesCompare q key); [done|apply IH; by eapply readable_cons|done].
Qed.

Section enumeration.
Context {K : Sha3}.

(** The nodes of a session's trie are in order, and its values are the entries. *)
Lemma sess_visits d pt m t : sess_is d pt m t ->
  readable (visit [] pt) /\ StronglySorted before (visit [] pt) /\ forall k v, (keybytesToHex k, PVal v) ∈ visit [] pt <-> m !! k = Some v.
Proof.
  intros (_ & [->|Hc] & Hm & Hk).
  - split; [|split].
    + intros q u [= -> ->]%list_elem_of_singleton. constructor.
    + repeat constructor.
    + intros k v. rewrite <- Hm. split; [by intros [=]%list_elem_of_singleton|done].
  - assert (forall q v, (q, PVal v) ∈ visit [] pt -> exists k, q = keybytesToHex k) as Hkey.
    { intros q v Hx. apply (visit_value pt Hc) in Hx as (k & -> & Hh & E). by apply (Hk k v). }
    split; [|split].
    + intros q u Hx. destruct (visit_inner pt Hc [] q u) as [(v & ->)|[Hu Hn]]; [constructor|done|by apply (Hkey q v)|].
      destruct u; try done. by destruct (Hu v).
    + apply (ordered_canon pt Hc []).
    + intros k v. rewrite <- Hm, (visit_value pt Hc). split.
      * by intros (k' & -> & _ & E).
      * intros E. exists (keybytesToHex k). split; [done|]. split; [apply hexkey_keybytes|done].
Qed.

Lemma sorted_weaken {A} (P Q : A -> A -> Prop) l : (forall a b, a ∈ l -> b ∈ l -> P a b -> Q a b) -> StronglySorted P l -> StronglySorted Q l.
Proof.
  intros H Hs. induction Hs as [|a l Hs IH Ha]; [constructor|]. constructor.
  - apply IH. intros b c Hb Hc. apply H; by right.
  - rewrite Forall_forall in *. intros b Hb. apply H; [by left|by right|by apply Ha].
Qed.

(** C20: Walking a trie, whose nodes can be loaded and whose root is not the hash of
    nothing, from a start key that is not a key of it nor extends one (a start that
    is a key is included, see [start_is_included]),
    with [NodeIterator] and [Iterator.Next] until it returns false, gives no error
    and exactly the entries whose keys are behind the start in the order of
    [bytes.Compare], each once and in ascending order of their paths; when all
    keys have the same length, this is the order of [bytes.Compare] too.  Any
    fuel above the number of nodes of the trie is enough: the walk ends. *)
Theorem iterator_enumerates (d : Database) (pt : ptree) (m : Map) (t : Trie) (start : list byte) (fuel : nat) :
  sess_is d pt m t -> small_map m -> rootOf pt <> emptyState -> (forall k, is_Some (m !! k) -> ~ k `prefix_of` start) ->
  (length (visit [] pt) < fuel)%nat ->
  exists l, entriesFrom (R := reader d) fuel t start = Ret (l, None) /\
    (forall k v, (k, v) ∈ l <-> m !! k = Some v /\ bytesCompare k start = Gt) /\ StronglySorted key_before l /\
    (forall n, (forall k, is_Some (m !! k) -> length k = n) -> StronglySorted (fun a b => bytesCompare a.1 b.1 = Lt) l).
Proof.
  intros Ht Hs Hroot Hst Hf. destruct (sess_visits d pt m t Ht) as (Hr & Ho & Hv). eexists.
  split; [by apply (entriesFrom_ok d pt m Hs)|].
  assert (forall k v, (k, v) ∈ leaves (from (hexOf start) (visit [] pt)) <-> m !! k = Some v /\ bytesCompare k start = Gt) as Hl.
  { intros k v. rewrite elem_of_leaves by (by apply readable_from). rewrite elem_of_from, Hv by done.
    split; intros [E Hc]; (split; [done|]); apply start_order in Hc; try done; apply Hst; by eexists. }
  assert (StronglySorted key_before (leaves (from (hexOf start) (visit [] pt)))) as Hsort by (by apply leaves_sorted; [apply readable_from|apply from_sorted]).
  split; [done|]. split; [done|]. intros n Hn. eapply sorted_weaken; [|exact Hsort]. intros [k v] [k' v'] H1 H2 Hb.
  apply Hl in H1 as [H1 _], H2 as [H2 _]. unfold key_before in Hb. cbn [fst] in *. rewrite hex_order in Hb; [done|].
  by rewrite (Hn k), (Hn k') by (by eexists).
Qed.
End enumeration.

(** ** Samples *)

Lemma iterator_enumerates_witness :
  exists l, @entriesFrom toySha3 (reader (NewDatabase ∅)) 5 sampleTrie [x64; x00] = Ret (l, None) /\ (sampleKey, sampleValue) ∈ l.
Proof.
  destruct (@iterator_enumerates toySha3 (NewDatabase ∅) sampleTree sampleMap sampleTrie [x64; x00] 5) as (l & E & H & _).
  - apply sampleTrie_is.
  - apply sampleMap_small.
  - by vm_compute.
  - intros k [v Hk]. unfold sampleMap in Hk. apply lookup_singleton_Some in Hk as [<- _]. apply (bool_decide_unpack _). by vm_compute.
  - vm_compute. lia.
  - exists l. split; [exact E|]. apply H. split; [apply lookup_singleton_eq|by vm_compute].
Defined.

Definition sampleFilled : outcome (trieErr + Trie) :=
  match @runTrie (reader (NewDatabase ∅)) emptyTrie [TUpdate [x64] [x01]; TUpdate [x64; x01] [x02]; TUpdate [x12; x34] [x03]; TUpdate [x64; x02] [x04]] with
  | Ret (inr (_, t)) => Ret (inr t)
  | Ret (inl e) => Ret (inl e)
  | Panic => Panic
  | OutOfFuel => OutOfFuel
  end.

(** A key comes behind the keys it is a prefix of, which [bytes.Compare] puts the
    other way round: the terminator is above every nibble. *)
Example prefix_comes_last :
  match sampleFilled with
  | Ret (inr t) => @entriesFrom toySha3 (reader (NewDatabase ∅)) 20 t [x64] =
      Ret ([([x64; x01], [x02]); ([x64; x02], [x04]); ([x64], [x01])], None)
  | _ => False
  end.
Proof. vm_compute. reflexivity. Qed.

(** A start key that is in the trie is visited itself. *)
Example start_is_included :
  match sampleFilled with
  | Ret (inr t) => @entriesFrom toySha3 (reader (NewDatabase ∅)) 20 t [x64; x02] =
      Ret ([([x64; x02], [x04]); ([x64], [x01])], None)
  | _ => False
  end.
Proof. vm_compute. reflexivity. Qed.

(** The root of a trie with no entries is not the hash of nothing, which
    [newNodeIterator] looks for: the iterator visits one node, which is nil. *)
Example empty_trie_has_a_node :
  match @newNodeIterator toySha3 (reader (NewDatabase ∅)) 5 emptyTrie [] with
  | Ret it =>
      match @Next_ toySha3 (reader (NewDatabase ∅)) 5 true it with
      | Ret (more, it) => more = true /\ map st_node (ni_stack it) = [NilNode]
      | _ => False
      end
  | _ => False
  end.
Proof. vm_compute. split; reflexivity. Qed.
