(* ===== verification/KeccakTheorems.v ===== *)
(** * Theorems about crypto/sha3

    The permutation, the hashes on top of it, and the use the trie makes of
    them. *)

From Stdlib Require Import ZArith Lia Bool.
From S2P Require Import Prelude GoMath Keccak KeccakSpec Sponge Rlp TrieEncoding Trie TrieNode.
From S2P Require Import TrieDatabase TrieHasher.
Local Open Scope nat_scope.
Local Open Scope go_scope.
Local Open Scope trie_scope.
#[local] Opaque keccakF1600.

(** C31: the unrolled permutation is the one of the standard.  On 25 words,
    [keccakF1600] computes bit for bit the 24 rounds of theta, rho, pi, chi and
    iota as FIPS 202 defines them, with the rotation offsets of the walk over
    the lanes and the round constants of the shift register. *)
Theorem keccakF1600_is_keccak_f (a : list Z) :
  length a = 25 -> words a ->
  Fips202.eqv (bit_of (keccakF1600 a)) (Fips202.keccak_f (bit_of a)).
Proof. intros Hl Hw. by apply keccakF1600_ok. Qed.

Lemma keccakF1600_is_keccak_f_witness :
  Fips202.eqv (bit_of (keccakF1600 zeroState)) (Fips202.keccak_f (bit_of zeroState)).
Proof. apply (keccakF1600_is_keccak_f zeroState); [done|]. by apply Forall_replicate. Defined.

Lemma squeezed_length r a pos n : length (squeezed r a pos n) = n.
Proof. unfold squeezed. by rewrite length_map, length_seq. Qed.

Section io.
Context {xorIn : list Z -> list byte -> option (list Z)}.
Context {copyOut : list Z -> list byte -> option (list byte)}.
Context {IO : SpongeIO xorIn copyOut}.

Lemma sumOf_ok r ds outputLen data inp :
  rate_ok r ->
  sumOf xorIn copyOut (newState r outputLen ds) data inp = Ret (inp ++ sponge r ds (concat data) outputLen).
Proof.
  intros Hr. unfold sumOf.
  destruct (writeAll_ok r ds outputLen Hr data [] (newState r outputLen ds)) as ([] & d & -> & Hd).
  { unfold written. rewrite absorbed_short by (apply rate_bounds in Hr; cbn; lia). by apply newState_absorbing. }
  by apply (Sum_ok r ds outputLen Hr (concat data)).
Qed.

(** C32: the hashes are sponges.  Whatever the pieces in which the data comes,
    and for both ways of moving bytes in and out of the state, [Keccak256],
    [Keccak512] and the SHA-3 functions return the output of the sponge
    construction over the padded concatenation of the pieces, and never panic. *)
Theorem hashes_are_sponges (data : list (list byte)) (m : list byte) :
  Keccak256 xorIn copyOut data = Ret (sponge 136 x01 (concat data) 32) /\
  Keccak512 xorIn copyOut data = Ret (sponge 72 x01 (concat data) 64) /\
  Sum224 xorIn copyOut m = Ret (sponge 144 x06 m 28) /\
  Sum256 xorIn copyOut m = Ret (sponge 136 x06 m 32) /\
  Sum384 xorIn copyOut m = Ret (sponge 104 x06 m 48) /\
  Sum512 xorIn copyOut m = Ret (sponge 72 x06 m 64).
Proof.
  assert (forall r ds n, rate_ok r ->
    sumOf xorIn copyOut (newState r n ds) [m] [] = Ret (sponge r ds m n)) as H1.
  { intros r ds n Hr. rewrite sumOf_ok by done. cbn [concat app]. by rewrite app_nil_r. }
  split; [apply (sumOf_ok 136 x01 32 data []); apply (bool_decide_unpack _); done|].
  split; [apply (sumOf_ok 72 x01 64 data []); apply (bool_decide_unpack _); done|].
  split; [apply (H1 144 x06 28); apply (bool_decide_unpack _); done|].
  split; [apply (H1 136 x06 32); apply (bool_decide_unpack _); done|].
  split; [apply (H1 104 x06 48); apply (bool_decide_unpack _); done|].
  apply (H1 72 x06 64); apply (bool_decide_unpack _); done.
Qed.

(** Reading in pieces. *)
Fixpoint readAll (ns : list nat) : M state (list (list byte)) :=
  match ns with
  | [] => ret []
  | n :: ns => let* out := Read xorIn copyOut n in let* outs := readAll ns in ret (out :: outs)
  end.

Lemma readAll_ok r ds ol a ns : rate_ok r -> forall pos d,
  squeezing r ds ol a pos d ->
  runs (readAll ns) d (fun outs _ => concat outs = squeezed r a pos (sum_list ns)).
Proof.
  intros Hr. induction ns as [|n ns IH]; intros pos d Hd; cbn [readAll]; [by apply runs_ret|].
  apply runs_bind. eapply runs_mono; [by eapply Read_squeezing|]. intros out d1 [-> Hd1].
  apply runs_bind. eapply runs_mono; [by apply IH|]. intros outs d2 E. apply runs_ret.
  cbn [concat sum_list foldr]. rewrite E. unfold squeezed. rewrite <- map_app, <- seq_app. done.
Qed.

(** SHAKE output can be read in pieces.  The pieces read one after the
    other from a [ShakeHash], with the data written in pieces too, are the
    consecutive pieces of the output stream. *)
Theorem shake_reads_stream (data : list (list byte)) (n : nat) (ns : list nat) :
  (exists outs d, (writeAll xorIn copyOut data ;; readAll (n :: ns)) NewShake128 = Ret (outs, d) /\
     concat outs = sponge 168 x1f (concat data) (n + sum_list ns)) /\
  (exists outs d, (writeAll xorIn copyOut data ;; readAll (n :: ns)) NewShake256 = Ret (outs, d) /\
     concat outs = sponge 136 x1f (concat data) (n + sum_list ns)).
Proof.
  assert (forall r, rate_ok r -> exists outs d,
    (writeAll xorIn copyOut data ;; readAll (n :: ns)) (newState r 0 x1f) = Ret (outs, d) /\
    concat outs = sponge r x1f (concat data) (n + sum_list ns)) as H.
  { intros r Hr. apply runs_bind. eapply runs_mono.
    { apply (writeAll_ok r x1f 0 Hr data []). unfold written.
      rewrite absorbed_short by (apply rate_bounds in Hr; cbn; lia). by apply newState_absorbing. }
    intros [] d Hd. cbn [app] in Hd. cbn [readAll]. apply runs_bind.
    eapply runs_mono; [by eapply Read_absorbing|]. intros out d1 [-> Hd1]. apply runs_bind.
    eapply runs_mono; [by eapply readAll_ok|]. intros outs d2 E. apply runs_ret.
    cbn [concat]. rewrite E. unfold sponge, squeezed. rewrite <- map_app, <- seq_app. done. }
  split; apply H; apply (bool_decide_unpack _); done.
Qed.
End io.

Lemma hashes_are_sponges_witness :
  Keccak256 xorInUnaligned (fun a b => Some (copyOutUnaligned a b)) [[x61]; [x62; x63]]
  = Keccak256 xorInGeneric copyOutGeneric [[x61; x62; x63]].
Proof.
  rewrite (proj1 (hashes_are_sponges (IO := unaligned_io) [[x61]; [x62; x63]] [])).
  rewrite (proj1 (hashes_are_sponges (IO := generic_io) [[x61; x62; x63]] [])). reflexivity.
Defined.

Lemma shake_reads_stream_witness :
  exists outs d, (writeAll xorInGeneric copyOutGeneric [[x61]] ;;
      readAll (xorIn := xorInGeneric) (copyOut := copyOutGeneric) [3; 200]) NewShake256 = Ret (outs, d) /\
    concat outs = sponge 136 x1f [x61] 203.
Proof. exact (proj2 (shake_reads_stream (IO := generic_io) [[x61]] 3 [200])). Defined.

(** ** Cloning *)

(** Cloning a hash that has been read from.  [clone] takes the capacity of
    the buffer for what is left of a block, which is right only for a rate of
    168 bytes: a clone of a SHAKE128 that has been read from is a faithful copy,
    but [clone] of a SHAKE256 panics when less than 32 bytes of a block have
    been read. *)
Theorem clone_after_read (data : list (list byte)) (n : nat) :
  (exists out d, (writeAll xorInGeneric copyOutGeneric data ;;
      Read xorInGeneric copyOutGeneric n) NewShake128 = Ret (out, d) /\ clone d = Some d) /\
  (exists out d, (writeAll xorInGeneric copyOutGeneric data ;;
      Read xorInGeneric copyOutGeneric n) NewShake256 = Ret (out, d) /\
     (n mod 136 < 32 <-> clone d = None)).
Proof.
  assert (forall r, rate_ok r -> exists out d,
    (writeAll xorInGeneric copyOutGeneric data ;; Read xorInGeneric copyOutGeneric n) (newState r 0 x1f)
      = Ret (out, d) /\ squeezing r x1f 0 (absorbedState r x1f (concat data)) n d) as H.
  { intros r Hr. apply runs_bind. eapply runs_mono.
    { apply (writeAll_ok r x1f 0 Hr data []). unfold written.
      rewrite absorbed_short by (apply rate_bounds in Hr; cbn; lia). by apply newState_absorbing. }
    intros [] d Hd. eapply runs_mono; [by eapply Read_absorbing|]. by intros out d1 [_ Hd1]. }
  split.
  - destruct (H 168) as (out & d & E & [[F1 F2 F3 F4 F5] D A O L S]); [apply (bool_decide_unpack _); done|].
    exists out, d. split; [exact E|]. unfold clone. rewrite D, F1, O.
    assert (n mod 168 < 168) by (by apply Nat.mod_upper_bound). unfold maxRate.
    destruct (Nat.leb_spec (168 - n mod 168) 168); [|lia].
    replace (168 - (168 - n mod 168)) with (n mod 168) by lia. rewrite <- L, <- O. by destruct d.
  - destruct (H 136) as (out & d & E & [[F1 F2 F3 F4 F5] D A O L S]); [apply (bool_decide_unpack _); done|].
    exists out, d. split; [exact E|]. unfold clone. rewrite D, F1, O. unfold maxRate.
    destruct (Nat.leb_spec (168 - n mod 136) 136); split; (done || lia).
Qed.

(** ** The hash function of the trie *)

(** [hasher.makeHashNode]: the sponge of the pooled hasher is reset, written
    and read. *)
Definition hashWith (data : list byte) : M state (list byte) :=
  modify Reset ;;
  Write xorInGeneric copyOutGeneric data ;;
  let* d := get in
  Read xorInGeneric copyOutGeneric (Size d).

Lemma hashWith_ok d data :
  fixed 136 x01 32 d ->
  runs (hashWith data) d (fun h d' => h = sponge 136 x01 data 32 /\ fixed 136 x01 32 d').
Proof.
  intros F. assert (rate_ok 136) as Hr by (apply (bool_decide_unpack _); done).
  assert (written 136 x01 32 [] (Reset d)) as Hw.
  { destruct F as [F1 F2 F3 F4 F5]. split; [split|..]; try done.
    - cbn. by rewrite F5.
    - cbn. by rewrite F5. }
  apply runs_bind, runs_modify, runs_bind. eapply runs_mono.
  { apply (Write_ok (IO := generic_io) 136 x01 32 Hr data); [exact Hw|apply absorbed_rest; lia]. }
  intros [] d1 Hd1. rewrite <- absorbed_app in Hd1 by lia. apply runs_bind, runs_get. unfold Size. rewrite (fx_out _ _ _ _ (ab_fixed _ _ _ _ _ _ Hd1)).
  eapply runs_mono; [by eapply (Read_absorbing (IO := generic_io) 136 x01 32 Hr 32 data)|].
  intros h d2 [-> Hd2]. split; [done|apply Hd2].
Qed.

(** Pooled hashers do not leak.  Whatever has been done with a Keccak-256
    sponge before, absorbing or squeezing, resetting it, writing the data and
    reading [Size] bytes gives the hash of the data alone. *)
Theorem pooled_hasher_is_fresh (d : state) (data : list byte) :
  fixed 136 x01 32 d ->
  exists h d', hashWith data d = Ret (h, d') /\
    Keccak256 xorInGeneric copyOutGeneric [data] = Ret h /\ fixed 136 x01 32 d'.
Proof.
  intros F. destruct (hashWith_ok d data F) as (h & d' & E & -> & F'). exists (sponge 136 x01 data 32), d'.
  split; [done|]. split; [|done]. unfold Keccak256, NewKeccak256.
  rewrite (sumOf_ok (IO := generic_io)) by (apply (bool_decide_unpack _); done). cbn [concat app]. by rewrite app_nil_r.
Qed.

Lemma pooled_hasher_is_fresh_witness :
  exists h d', hashWith [x61] NewKeccak256 = Ret (h, d') /\
    Keccak256 xorInGeneric copyOutGeneric [[x61]] = Ret h /\ fixed 136 x01 32 d'.
Proof. by apply (pooled_hasher_is_fresh NewKeccak256 [x61]). Defined.

(** The parameter of the hasher, with the code of [crypto/sha3]. *)
#[refine] Definition keccakSha3 : Sha3 := {|
  keccak256 b := match hashWith b NewKeccak256 with Ret (h, _) => h | _ => replicate 32 x00 end
|}.
Proof.
  intros b. destruct (hashWith b NewKeccak256) as [[h d]| |] eqn:E; [|done..].
  destruct (hashWith_ok NewKeccak256 b) as (h' & d' & E' & -> & _); [done|].
  rewrite E in E'. injection E' as -> _. apply squeezed_length.
Defined.

(** The value of the constant [emptyRoot]: the hash of an empty string. *)
Example emptyRoot_is_hash : BytesToHash (keccak256 (Sha3 := keccakSha3) (rlp (Str []))) = emptyRoot.
Proof. vm_compute. reflexivity. Qed.

(** The root of a trie with three words, as in the tests of package trie. *)
Example three_words_root :
  match
    (let R := reader (NewDatabase ∅) in
     do t := TryUpdate (mkTrie NilNode 0 0 0) doe [x72; x65; x69; x6e; x64; x65; x65; x72] in
     do t := TryUpdate t dog [x70; x75; x70; x70; x79] in
     TryUpdate t dogglesworth [x63; x61; x74])
  with
  | Ret (inr t) => match @Hash_ keccakSha3 t with Ret (h, _) => h | _ => 0%Z end
  | _ => 0%Z
  end = 0x8aad789dff2f538bca5d8ea56e8abe10f4c7ba3a5dea95fea4cd6e7c3a1168d3%Z.
Proof. vm_compute. reflexivity. Qed.
