(* ===== verification/EthashTheorems.v ===== *)
(** * Theorems about the proof-of-work engine

    The difficulty, the rules of headers and uncles against declarative
    versions, the rewards on the abstract world, the DAO fork, and the
    agreement of mining and verification. *)

From Stdlib Require Import ZArith Lia Bool.
From S2P Require Import Prelude GoMath Rlp TrieHasher Params StateInterface StateDB JournalSpec World.
From stdpp Require Import relations.
From S2P Require Import TrieTheorems BlockTypes Hashimoto Ethash HeaderPipeline.
Local Open Scope Z_scope.
Local Open Scope go_scope.

(** A hash of the right size. *)
#[refine] Definition toySha3_512 : Sha3_512 :=
  {| keccak512 := fun b => take 64 (rev b ++ replicate 64 x02) |}.
Proof. intros b. rewrite length_take, length_app, length_replicate. lia. Defined.

(** ** Difficulty *)

Lemma bomb_grows p x : x <= bomb p x.
Proof.
  unfold bomb. split_if; [|done]. assert (0 <= 2 ^ (p - 2)); [|lia].
  apply Z.lt_le_incl, Z.pow_pos_nonneg; lia.
Qed.

Lemma bomb_mono p x y : x <= y -> bomb p x <= bomb p y.
Proof. unfold bomb. split_if; lia. Qed.

Lemma atLeastMinimum_spec x : atLeastMinimum x = Z.max x MinimumDifficulty.
Proof. unfold atLeastMinimum. split_if; lia. Qed.

(** One adjustment, with a factor that is at least -99. *)
Lemma adjustment p d x y :
  0 <= d -> x <= y ->
  let adjusted x := bomb p (atLeastMinimum (d + d / DifficultyBoundDivisor * (if x <? -99 then -99 else x))) in
  MinimumDifficulty <= adjusted x <= adjusted y /\ d - 99 * (d / 2048) <= adjusted x.
Proof.
  intros Hd Hxy adjusted. unfold adjusted, DifficultyBoundDivisor. rewrite !atLeastMinimum_spec.
  assert (0 <= d / 2048) as Hq by (apply Z.div_pos; lia).
  split; [split; [|apply bomb_mono]|]; try (etrans; [|apply bomb_grows]; lia);
    destruct (Z.ltb_spec x (-99)); destruct (Z.ltb_spec y (-99)); try (etrans; [|apply bomb_grows]); nia.
Qed.

(** The difficulty rule.  Under every fork the difficulty of a block is at
    least the minimum, a later timestamp never makes it larger, and it falls by
    at most 99 2048ths of the parent's difficulty. *)
Theorem difficulty_rule {K : Sha3} (config : ChainConfig) (parent : Header) (time time' : Z) :
  0 <= h_Difficulty parent -> time <= time' ->
  MinimumDifficulty <= CalcDifficulty config time' parent <= CalcDifficulty config time parent /\
  h_Difficulty parent - 99 * (h_Difficulty parent / 2048) <= CalcDifficulty config time' parent.
Proof.
  intros Hd Ht. unfold CalcDifficulty. repeat split_if.
  - unfold calcDifficultyByzantium.
    assert ((time - h_Time parent) / 9 <= (time' - h_Time parent) / 9) by (apply Z.div_le_mono; lia).
    destruct (h_UncleHash parent =? EmptyUncleHash); apply adjustment; lia.
  - unfold calcDifficultyHomestead.
    assert ((time - h_Time parent) / 10 <= (time' - h_Time parent) / 10) by (apply Z.div_le_mono; lia).
    apply adjustment; lia.
  - unfold calcDifficultyFrontier, DifficultyBoundDivisor, DurationLimit. rewrite !atLeastMinimum_spec.
    assert (0 <= h_Difficulty parent / 2048) by (apply Z.div_pos; lia).
    set (p := (h_Number parent + 1) / expDiffPeriod).
    assert (0 <= 2 ^ (p - 2)) by (destruct (Z.lt_ge_cases (p - 2) 0);
      [rewrite Z.pow_neg_r; lia|apply Z.lt_le_incl, Z.pow_pos_nonneg; lia]).
    destruct (Z.ltb_spec (time - h_Time parent) 13); destruct (Z.ltb_spec (time' - h_Time parent) 13);
      destruct (p >? 1); lia.
Qed.

Definition sampleHeader : Header := mkHeader 1 2 3 4 5 6 0 200000 10 8000000 21000 1000 [] 0 0.

Lemma difficulty_rule_witness :
  MinimumDifficulty <= CalcDifficulty (K := toySha3) TestChainConfig 1030 sampleHeader <=
    CalcDifficulty (K := toySha3) TestChainConfig 1001 sampleHeader /\
  h_Difficulty sampleHeader - 99 * (h_Difficulty sampleHeader / 2048) <=
    CalcDifficulty (K := toySha3) TestChainConfig 1030 sampleHeader.
Proof. apply (difficulty_rule (K := toySha3) TestChainConfig sampleHeader 1001 1030); cbn; lia. Defined.

(** ** Headers *)

(** The rules, as a block has to satisfy them. *)
Record valid_header {K : Sha3} {K5 : Sha3_512} {D : PowData} (e : Ethash) (config : ChainConfig) (now : Z)
    (header parent : Header) (uncle seal : bool) : Prop := {
  v_extra : zlen (h_Extra header) <= 32;
  v_time : h_Time parent < h_Time header <= (if uncle then 2 ^ 256 - 1 else now + 15);
  v_difficulty : h_Difficulty header = CalcDifficulty config (h_Time header mod 2 ^ 64) parent;
  v_gasLimit : 5000 <= h_GasLimit header < 2 ^ 63;
  v_gasStep : Z.abs (h_GasLimit parent - h_GasLimit header) < h_GasLimit parent / 1024;
  v_gasUsed : h_GasUsed header <= h_GasLimit header;
  v_number : h_Number header = h_Number parent + 1;
  v_seal : seal = true -> VerifySeal e header = Ret None;
  v_dao : forall fork, DAOForkBlock config = Some fork -> fork <= h_Number header < fork + 10 ->
    (h_Extra header = DAOForkBlockExtra <-> DAOForkSupport config = true);
  v_fork : uncle = false -> EIP150Block config = Some (h_Number header) -> EIP150Hash config <> 0 ->
    Header_Hash header = EIP150Hash config
}.

Section headers.
Context {K : Sha3} {K5 : Sha3_512} {D : PowData}.

Lemma dao_rule config header :
  VerifyDAOHeaderExtraData config header = None <->
  forall fork, DAOForkBlock config = Some fork -> fork <= h_Number header < fork + 10 ->
    (h_Extra header = DAOForkBlockExtra <-> DAOForkSupport config = true).
Proof.
  unfold VerifyDAOHeaderExtraData, DAOForkExtraRange. destruct (DAOForkBlock config) as [f|]; [|done].
  destruct (Z.ltb_spec (h_Number header) f); [split; [|done]; intros _ ? [= <-]; lia|].
  destruct (Z.geb_spec (h_Number header) (f + 10)); [split; [|done]; intros _ ? [= <-]; lia|]. cbn [orb].
  split.
  - intros E ? [= <-] _. destruct (DAOForkSupport config); case_bool_decide; naive_solver.
  - intros Hr. destruct (Hr f eq_refl ltac:(lia)) as [H1 H2].
    destruct (DAOForkSupport config); case_bool_decide as Hx; [done|by destruct (Hx (H2 eq_refl))|by specialize (H1 Hx)|done].
Qed.

Lemma fork_rule config header uncle :
  VerifyForkHashes config header uncle = None <->
  (uncle = false -> EIP150Block config = Some (h_Number header) -> EIP150Hash config <> 0 ->
   Header_Hash header = EIP150Hash config).
Proof.
  unfold VerifyForkHashes. destruct uncle; [done|]. destruct (EIP150Block config) as [b|]; [|done].
  destruct (Z.eqb_spec b (h_Number header)); destruct (Z.eqb_spec (EIP150Hash config) 0);
    destruct (Z.eqb_spec (EIP150Hash config) (Header_Hash header)); cbn; naive_solver.
Qed.

(** The bound on the gas limit, computed in 64 bits. *)
Lemma gas_step parent header :
  0 <= h_GasLimit parent < 2 ^ 63 -> 0 <= h_GasLimit header < 2 ^ 63 ->
  let diff := i64 (i64 (h_GasLimit parent) - i64 (h_GasLimit header)) in
  u64 (if diff <? 0 then i64 (diff * -1) else diff) = Z.abs (h_GasLimit parent - h_GasLimit header).
Proof.
  intros Hp Hh diff. unfold diff. rewrite (i64_small (h_GasLimit parent)), (i64_small (h_GasLimit header)) by done.
  assert (i64 (h_GasLimit parent - h_GasLimit header) = h_GasLimit parent - h_GasLimit header) as ->.
  { unfold i64, u64_modulus. rewrite Z.mod_small by lia. lia. }
  destruct (Z.ltb_spec (h_GasLimit parent - h_GasLimit header) 0).
  - rewrite i64_small by lia. unfold u64, u64_modulus. rewrite Z.mod_small by lia. lia.
  - unfold u64, u64_modulus. rewrite Z.mod_small by lia. lia.
Qed.

(** Header verification is exact.  [verifyHeader] reports no error exactly
    for the headers that satisfy the rules, with the gas limit bound computed in
    64-bit integers as over the integers. *)
Theorem verify_header_exact (e : Ethash) (config : ChainConfig) (now : Z) (header parent : Header)
    (uncle seal : bool) :
  0 <= h_GasLimit parent < 2 ^ 63 -> 0 <= h_GasLimit header ->
  verifyHeader e config now header parent uncle seal = Ret None <->
  valid_header e config now header parent uncle seal.
Proof.
  intros Hp Hh. unfold verifyHeader, MaximumExtraDataSize, allowedFutureBlockTime, GasLimitBoundDivisor, MinGasLimit.
  split.
  - intros E. destruct (Z.gtb_spec (zlen (h_Extra header)) 32); [done|].
    assert (h_Time header <= (if uncle then 2 ^ 256 - 1 else now + 15)) as Ht.
    { destruct uncle; cbn [andb negb] in E;
        [destruct (Z.gtb_spec (h_Time header) (2 ^ 256 - 1)); [done|lia]|
         destruct (Z.gtb_spec (h_Time header) (now + 15)); [done|lia]]. }
    replace (uncle && (h_Time header >? 2 ^ 256 - 1)) with false in E by (destruct uncle; lia).
    replace (negb uncle && (h_Time header >? now + 15)) with false in E by (destruct uncle; lia).
    destruct (Z.leb_spec (h_Time header) (h_Time parent)); [done|].
    destruct (Z.eqb_spec (CalcDifficulty config (u64 (h_Time header)) parent) (h_Difficulty header)); [|done].
    cbn [negb] in E. destruct (Z.gtb_spec (h_GasLimit header) (2 ^ 63 - 1)); [done|].
    destruct (Z.gtb_spec (h_GasUsed header) (h_GasLimit header)); [done|].
    rewrite gas_step in E by lia.
    destruct (Z.geb_spec (Z.abs (h_GasLimit parent - h_GasLimit header)) (h_GasLimit parent / 1024)); [done|].
    destruct (Z.ltb_spec (h_GasLimit header) 5000); [done|]. cbn [orb] in E.
    destruct (Z.eqb_spec (h_Number header - h_Number parent) 1); [|done]. cbn [negb] in E.
    assert ((seal = true -> VerifySeal e header = Ret None) /\
      VerifyDAOHeaderExtraData config header = None /\ VerifyForkHashes config header uncle = None) as (Hs & Hd & Hf).
    { destruct seal.
      - destruct (VerifySeal e header) as [[?|]| |]; try done.
        destruct (VerifyDAOHeaderExtraData config header); [done|]. by injection E.
      - destruct (VerifyDAOHeaderExtraData config header); [done|]. by injection E. }
    split; try done; [lia|lia|by apply dao_rule|by apply fork_rule].
  - intros [H1 H2 H3 H4 H5 H6 H7 H8 H9 H10].
    replace (zlen (h_Extra header) >? 32) with false by lia.
    replace (uncle && (h_Time header >? 2 ^ 256 - 1)) with false by (destruct uncle; lia).
    replace (negb uncle && (h_Time header >? now + 15)) with false by (destruct uncle; lia).
    replace (h_Time header <=? h_Time parent) with false by lia.
    change (u64 (h_Time header)) with (h_Time header mod 2 ^ 64). rewrite H3, Z.eqb_refl. cbn [negb].
    replace (h_GasLimit header >? 2 ^ 63 - 1) with false by lia.
    replace (h_GasUsed header >? h_GasLimit header) with false by lia.
    rewrite gas_step by lia. replace (_ >=? _) with false by lia.
    replace (h_GasLimit header <? 5000) with false by lia. cbn [orb].
    replace (h_Number header - h_Number parent =? 1) with true by lia. cbn [negb].
    rewrite (proj2 (dao_rule _ _)), (proj2 (fork_rule _ _ _)) by done.
    destruct seal; [by rewrite H8|done].
Qed.

Definition no_pow : PowData := {| cacheOf _ := []; datasetSize _ := 0 |}.
End headers.

(** A block on top of [sampleHeader]. *)
Definition sampleChild : Header :=
  mkHeader (Header_Hash (K := toySha3) sampleHeader) 2 7 8 9 10 0
    (CalcDifficulty (K := toySha3) TestChainConfig 1009 sampleHeader) 11 8001000 42000 1009 [] 0 0.

Lemma verify_header_exact_witness :
  valid_header (K := toySha3) (K5 := toySha3_512) (D := no_pow) (mkEthash ModeFake 0 None) TestChainConfig 1000
    sampleChild sampleHeader false true.
Proof.
  apply (verify_header_exact (K := toySha3) (K5 := toySha3_512) (D := no_pow)); [cbn; lia..|].
  vm_compute. reflexivity.
Defined.

(** ** Uncles and rewards *)

Section uncles.
Context {K : Sha3} {K5 : Sha3_512} {D : PowData} {chain : ChainReader}.

(** What the chain returns has the hash and the number it was asked for. *)
Definition chain_ok : Prop := forall h n b,
  GetBlock h n = Some b -> Block_Hash b = h /\ h_Number (b_header b) = n /\ n < 2 ^ 63.

(** Ancestors further back than the parent are two to seven blocks behind. *)
Definition generations (n : Z) (parent : Hash) (ancestors : gmap Hash Header) : Prop :=
  forall h hd, ancestors !! h = Some hd -> h = parent \/ n - 7 <= h_Number hd <= n - 2.

Lemma gather_generations n parent k : forall h num uncles anc,
  chain_ok -> n - 7 <= num - Z.of_nat k + 1 -> num <= n - 1 -> (num = n - 1 -> h = parent) ->
  generations n parent anc -> 0 <= num < 2 ^ 63 ->
  generations n parent (gatherAncestors k h num uncles anc).2.
Proof.
  induction k as [|k IH]; intros h num uncles anc Hc Hlo Hhi Hp Hg Hr; cbn [gatherAncestors]; [done|].
  destruct (GetBlock h num) as [b|] eqn:Eb; [|done]. destruct (Hc _ _ _ Eb) as (Hb & Hn & _).
  assert (generations n parent (<[Block_Hash b := b_header b]> anc)) as Hg'.
  { intros h' hd. destruct (decide (Block_Hash b = h')) as [<-|].
    - rewrite lookup_insert_eq. intros [= <-]. rewrite Hb. destruct (Z.eq_dec num (n - 1)) as [E|E]; [left; auto|].
      right. lia.
    - rewrite lookup_insert_ne by done. apply Hg. }
  destruct (Z.eq_dec num 0) as [->|].
  - (* behind the genesis block there is nothing *)
    destruct k as [|k]; cbn [gatherAncestors]; [done|].
    destruct (GetBlock (Block_ParentHash b) (u64 (0 - 1))) as [b'|] eqn:E'; [|done].
    destruct (Hc _ _ _ E') as (_ & _ & Hlt). by vm_compute in Hlt.
  - assert (u64 (num - 1) = num - 1) as -> by (unfold u64, u64_modulus; rewrite Z.mod_small; lia).
    apply IH; done || lia.
Qed.

(** What a successful check says of the uncles. *)
Record checked (now : Z) (e : Ethash) (block : Block) (anc : gmap Hash Header) (past : gset Hash)
    (uncle : Header) : Prop := {
  u_fresh : Header_Hash uncle ∉ past;
  u_ancestor : anc !! Header_Hash uncle = None;
  u_parent : exists parent, anc !! h_ParentHash uncle = Some parent /\
    verifyHeader e Config now uncle parent true true = Ret None;
  u_generation : h_ParentHash uncle <> Block_ParentHash block
}.

Lemma checkUncles_ok e now block anc l : forall past,
  checkUncles e now block anc past l = Ret None ->
  Forall (checked now e block anc past) l /\ NoDup (map Header_Hash l).
Proof.
  induction l as [|u l IH]; intros past E; [split; constructor|]. cbn [checkUncles] in E.
  case_bool_decide as Hp; [done|]. case_bool_decide as Ha; [done|].
  destruct (anc !! h_ParentHash u) as [parent|] eqn:Eu; [|done].
  destruct (Z.eqb_spec (h_ParentHash u) (Block_ParentHash block)); [done|].
  destruct (verifyHeader e Config now u parent true true) as [[?|]| |] eqn:Ev; try done.
  destruct (IH _ E) as [Hf Hnd]. split.
  - constructor; [split; [done|by apply eq_None_not_Some|by exists parent|done]|].
    eapply Forall_impl; [exact Hf|]. intros v [H1 H2 H3 H4]. split; [by apply not_elem_of_union in H1 as [_ H1]|done..].
  - cbn [map]. constructor; [|done]. intros Hin. apply list_elem_of_fmap in Hin as (v & Ev' & Hv).
    rewrite Forall_forall in Hf. destruct (Hf v Hv) as [H1 _ _ _]. rewrite <- Ev' in H1. apply H1. by apply elem_of_union_l, elem_of_singleton.
Qed.

(** The number of an uncle. *)
Lemma uncle_number e now block u :
  chain_ok -> 1 <= h_Number (b_header block) < 2 ^ 63 ->
  h_ParentHash u <> Block_Hash block ->
  checked now e block (<[Block_Hash block := b_header block]>
    (gatherAncestors 7 (Block_ParentHash block) (u64 (NumberU64 block - 1)) ∅ ∅).2)
    ({[Block_Hash block]} ∪ (gatherAncestors 7 (Block_ParentHash block) (u64 (NumberU64 block - 1)) ∅ ∅).1) u ->
  h_Number (b_header block) - 6 <= h_Number u <= h_Number (b_header block) - 1.
Proof.
  intros Hc Hn Hb [_ _ (parent & Ep & Ev) Hg]. set (n := h_Number (b_header block)) in *.
  assert (u64 (NumberU64 block - 1) = n - 1) as En.
  { unfold NumberU64, u64, u64_modulus. fold n. rewrite (Z.mod_small n), Z.mod_small by lia. done. }
  rewrite En in Ep. rewrite lookup_insert_ne in Ep by done.
  destruct (gather_generations n (Block_ParentHash block) 7 (Block_ParentHash block) (n - 1) ∅ ∅ Hc
    ltac:(lia) ltac:(lia) ltac:(done) ltac:(done) ltac:(lia) _ _ Ep) as [E|Hr]; [done|].
  assert (h_Number u = h_Number parent + 1); [|lia].
  revert Ev. unfold verifyHeader. repeat (match goal with |- context [if ?b then _ else _] =>
    destruct b eqn:?; [done|] end; cbn zeta).
  intros _. match goal with H : negb (_ =? 1) = false |- _ =>
    apply negb_false_iff, Z.eqb_eq in H; lia end.
Qed.

(** ** The state *)

Context {C : Crypto} {S : Type} {DB : StateDB S} {Sp : StateDBSpec S}.

Lemma supply_AddBalance a v w : supply (w_AddBalance a v w) = supply w + v.
Proof. unfold w_AddBalance. rewrite supply_update. unfold w_GetBalance. cbn. lia. Qed.

(** What the uncles of a block get. *)
Definition uncleReward (R n : Z) (u : Header) : Z := (h_Number u + 8 - n) * R / 8.

Definition uncleTotal (R n : Z) (l : list Header) : Z := foldr (fun u total => uncleReward R n u + total) 0 l.

Lemma nonneg_AddBalance a v w : nonneg w -> 0 <= v -> nonneg (w_AddBalance a v w).
Proof.
  intros Hn Hv b. specialize (Hn b). unfold w_GetBalance, w_AddBalance in *. rewrite w_acc_update. case_decide as E; cbn; [subst; lia|lia].
Qed.

(** Uncles young enough to be rewarded. *)
Definition near (n : Z) (u : Header) : Prop := n - 6 <= h_Number u <= n - 1.

Lemma uncleRewards_ok R header l : forall reward (s : S),
  db_inv s ->
  runs (uncleRewards R header l reward) s (fun r s' => db_inv s' /\
    r = reward + zlen l * (R / 32) /\
    supply (view s') = supply (view s) + uncleTotal R (h_Number header) l /\
    (0 <= R -> Forall (near (h_Number header)) l -> nonneg (view s) -> nonneg (view s'))).
Proof.
  induction l as [|u l IH]; intros reward s Hi; cbn [uncleRewards].
  - apply runs_ret. split; [done|]. split; [unfold zlen; cbn; lia|]. split; [cbn; lia|done].
  - apply runs_bind. eapply runs_mono; [by apply spec_AddBalance|]. intros _ s1 (Hi1 & Hv & _).
    eapply runs_mono; [by apply IH|]. intros r s2 (Hi2 & -> & Hs & Hn2). split; [done|].
    rewrite zlen_cons. split; [lia|]. split.
    + rewrite Hs, Hv, supply_AddBalance. cbn [uncleTotal foldr]. unfold uncleTotal, uncleReward. lia.
    + intros HR [Hu Hl]%Forall_cons Hn. apply Hn2; [done..|]. rewrite Hv. apply nonneg_AddBalance; [done|].
      unfold near in Hu. apply Z.div_pos; [|lia]. apply Z.mul_nonneg_nonneg; lia.
Qed.

(** All that a block creates. *)
Definition rewardTotal (config : ChainConfig) (header : Header) (uncles : list Header) : Z :=
  let R := blockRewardOf config header in
  R + zlen uncles * (R / 32) + uncleTotal R (h_Number header) uncles.

Lemma blockReward_pos config header : 0 <= blockRewardOf config header.
Proof. unfold blockRewardOf. by split_if. Qed.

Lemma accumulateRewards_ok config header uncles (s : S) : db_inv s ->
  runs (accumulateRewards config header uncles) s (fun _ s' => db_inv s' /\
    supply (view s') = supply (view s) + rewardTotal config header uncles /\
    (Forall (near (h_Number header)) uncles -> nonneg (view s) -> nonneg (view s'))).
Proof.
  intros Hi. unfold accumulateRewards, rewardTotal. apply runs_bind. eapply runs_mono; [by apply uncleRewards_ok|].
  intros r s1 (Hi1 & -> & Hs1 & Hn1). eapply runs_mono; [by apply spec_AddBalance|]. intros _ s2 (Hi2 & Hv & _).
  split; [done|]. rewrite Hv, supply_AddBalance, Hs1. split; [lia|]. intros Hu Hn. pose proof (blockReward_pos config header) as HR.
  pose proof (zlen_nonneg uncles). pose proof (Z.div_pos _ 32 HR ltac:(lia)).
  apply nonneg_AddBalance; [by apply Hn1|]. apply Z.add_nonneg_nonneg, Z.mul_nonneg_nonneg; done.
Qed.

(** Who is credited: an account gets the rewards of the uncles it mined. *)
Definition uncleCredit (R n : Z) (l : list Header) (a : Address) : Z :=
  foldr (fun u total => (if decide (h_Coinbase u = a) then uncleReward R n u else 0) + total) 0 l.

Lemma acc_AddBalance a v w b :
  w_acc (w_AddBalance a v w) b = set_balance (w_GetBalance w b + (if decide (a = b) then v else 0)) (w_acc w b).
Proof.
  unfold w_AddBalance, w_GetBalance. rewrite w_acc_update. case_decide; [done|]. rewrite Z.add_0_r. by destruct (w_acc w b).
Qed.

Lemma uncleRewards_credit R header l : forall reward (s : S),
  db_inv s ->
  runs (uncleRewards R header l reward) s (fun r s' => db_inv s' /\ r = reward + zlen l * (R / 32) /\
    forall a, w_acc (view s') a = set_balance (w_GetBalance (view s) a + uncleCredit R (h_Number header) l a) (w_acc (view s) a)).
Proof.
  induction l as [|u l IH]; intros reward s Hi; cbn [uncleRewards].
  - apply runs_ret. split; [done|]. split; [unfold zlen; cbn; lia|]. intros a. unfold w_GetBalance. cbn [uncleCredit foldr].
    rewrite Z.add_0_r. by destruct (w_acc (view s) a).
  - apply runs_bind. eapply runs_mono; [by apply spec_AddBalance|]. intros _ s1 (Hi1 & Hv & _).
    eapply runs_mono; [by apply IH|]. intros r s2 (Hi2 & -> & Ha). split; [done|]. rewrite zlen_cons. split; [lia|].
    intros a. rewrite Ha. unfold w_GetBalance at 1. rewrite Hv, acc_AddBalance. unfold set_balance at 1 2 4. cbn. f_equal.
    unfold uncleCredit, uncleReward. lia.
Qed.

Lemma accumulateRewards_credit config header uncles (s : S) : db_inv s ->
  let R := blockRewardOf config header in
  runs (accumulateRewards config header uncles) s (fun _ s' => forall a,
    w_acc (view s') a = set_balance (w_GetBalance (view s) a +
      (if decide (h_Coinbase header = a) then R + zlen uncles * (R / 32) else 0) + uncleCredit R (h_Number header) uncles a) (w_acc (view s) a)).
Proof.
  intros Hi R. unfold accumulateRewards. apply runs_bind. eapply runs_mono; [by apply uncleRewards_credit|].
  intros r s1 (Hi1 & -> & H1). eapply runs_mono; [by apply spec_AddBalance|]. intros _ s2 (Hi2 & Hv & _) a. fold R in H1.
  rewrite Hv, acc_AddBalance. unfold w_GetBalance at 1. rewrite H1. unfold set_balance at 1 2 4. cbn. f_equal. fold R. lia.
Qed.

Lemma rewardTotal_bound config header uncles :
  (length uncles <= maxUncles)%nat -> Forall (near (h_Number header)) uncles ->
  0 <= rewardTotal config header uncles <= 45 * blockRewardOf config header / 16.
Proof.
  unfold rewardTotal. set (R := blockRewardOf config header). set (n := h_Number header). intros Hlen Hall.
  assert (R = 3000000000000000000 \/ R = 5000000000000000000) as HR
    by (unfold R, blockRewardOf; split_if; auto).
  clearbody R.
  assert (45 * R / 16 = R + 2 * (7 * R / 8) + 2 * (R / 32) /\ 0 <= R / 32 /\ 0 <= 7 * R / 8 /\ 0 <= R) as HR'.
  { destruct HR as [-> | ->]; vm_compute; repeat split; done. }
  clear HR.
  assert (forall u, near n u -> 0 <= (h_Number u + 8 - n) * R / 8 <= 7 * R / 8) as Hu.
  { unfold near. intros u Hu. split; [apply Z.div_pos; [apply Z.mul_nonneg_nonneg; lia|lia]|apply Z.div_le_mono; nia]. }
  unfold maxUncles in Hlen. destruct uncles as [|u1 [|u2 [|]]]; [..|cbn in Hlen; lia];
    rewrite ?Forall_cons in Hall; cbn [uncleTotal foldr]; unfold uncleTotal, uncleReward, zlen; cbn [foldr length].
  - lia.
  - destruct Hall as [H1 _]. specialize (Hu u1 H1). lia.
  - destruct Hall as [H1 [H2 _]]. pose proof (Hu u1 H1). pose proof (Hu u2 H2). lia.
Qed.

(** C39: uncles and rewards.  When [VerifyUncles] accepts the uncles of a block
    they are different from each other, from the last seven ancestors and from
    the uncles of those, and they are one to six blocks behind; then
    [accumulateRewards] credits the miner with the block reward and a 32nd of it
    per uncle, and the miner of every uncle with the share of the block reward
    that the age of the uncle leaves; nothing else of any account changes, and
    together at most 45 sixteenths of the block reward are created. *)
Theorem block_rewards (e : Ethash) (now : Z) (block : Block) (s : S) :
  PowMode e <> ModeFullFake -> chain_ok -> 1 <= h_Number (b_header block) < 2 ^ 63 ->
  Forall (fun u => h_ParentHash u <> Block_Hash block) (b_uncles block) ->
  VerifyUncles e now block = Ret None -> db_inv s ->
  let n := h_Number (b_header block) in
  let R := blockRewardOf Config (b_header block) in
  let past := gatherAncestors 7 (Block_ParentHash block) (n - 1) ∅ ∅ in
  NoDup (map Header_Hash (b_uncles block)) /\
  Forall (fun u => (Header_Hash u ∉ past.1) /\ past.2 !! Header_Hash u = None /\ n - 6 <= h_Number u <= n - 1)
    (b_uncles block) /\
  runs (accumulateRewards Config (b_header block) (b_uncles block)) s (fun _ s' => db_inv s' /\
    (forall a, w_acc (view s') a = set_balance (w_GetBalance (view s) a +
       (if decide (h_Coinbase (b_header block) = a) then R + zlen (b_uncles block) * (R / 32) else 0) +
       uncleCredit R n (b_uncles block) a) (w_acc (view s) a)) /\
    supply (view s') = supply (view s) + R + zlen (b_uncles block) * (R / 32) + uncleTotal R n (b_uncles block) /\
    supply (view s') <= supply (view s) + 45 * R / 16).
Proof.
  intros Hm Hc Hn Hb E Hi n R past. unfold VerifyUncles in E. rewrite bool_decide_false in E by done.
  destruct (Nat.ltb_spec maxUncles (length (b_uncles block))) as [|Hlen]; [done|].
  assert (u64 (NumberU64 block - 1) = n - 1) as En.
  { unfold NumberU64, u64, u64_modulus. fold n. rewrite (Z.mod_small n), Z.mod_small by (unfold n; lia). done. }
  destruct (gatherAncestors 7 _ _ ∅ ∅) as [un anc] eqn:Eg in E. rewrite En in Eg. fold past in Eg.
  apply checkUncles_ok in E as [Hf Hnd]. split; [done|].
  assert (Forall (fun u => (Header_Hash u ∉ past.1) /\ past.2 !! Header_Hash u = None /\
    n - 6 <= h_Number u <= n - 1) (b_uncles block)) as Hall.
  { rewrite Forall_forall in *. intros u Hu. rewrite Eg.
    pose proof (uncle_number e now block u Hc Hn (Hb u Hu)) as Hnum. rewrite En in Hnum. fold past in Hnum.
    rewrite Eg in Hnum. specialize (Hnum (Hf u Hu)). destruct (Hf u Hu) as [H1 H2 _ _].
    split; [by apply not_elem_of_union in H1 as [_ H1]|]. split; [|done]. apply lookup_insert_None in H2. apply H2. }
  split; [done|]. destruct (accumulateRewards_credit Config (b_header block) (b_uncles block) s Hi) as (x & s1 & E1 & Hcr).
  destruct (accumulateRewards_ok Config (b_header block) (b_uncles block) s Hi) as (x' & s' & E2 & Hi' & Hs & _).
  rewrite E1 in E2. injection E2 as _ <-. exists x, s1. split; [done|]. split; [done|]. split; [exact Hcr|].
  rewrite Hs. unfold rewardTotal. fold n R. split; [lia|].
  assert (Forall (near n) (b_uncles block)) as Hnear by (eapply Forall_impl; [exact Hall|]; by intros u (_ & _ & ?)).
  pose proof (rewardTotal_bound Config (b_header block) (b_uncles block) Hlen Hnear) as Hb'. unfold rewardTotal in Hb'. fold n R in Hb'. lia.
Qed.
End uncles.

(** ** Mining and verification *)

Section pow.
Context {K : Sha3} {K5 : Sha3_512}.
Variable cache : list Z.
Hypothesis cache_rows : hashWords <= zlen cache <= 2 ^ 32.

(** The goroutines stay inside the dataset. *)
Lemma schedule_in_range size threads sched :
  0 < size < 2 ^ 37 -> 0 < threads <= 2 ^ 16 -> size mod 64 = 0 -> sched ≡ₚ allItems size threads ->
  Forall (fun i => 0 <= i /\ 16 * i + 16 <= size / 4) sched.
Proof.
  intros Hs Ht Hm Hp. apply Forall_forall. intros i Hi. rewrite Hp in Hi.
  apply allItems_spec in Hi; [|done..]. pose proof (Z.div_mod size 64 ltac:(lia)) as Hd.
  assert (size / 4 = 16 * (size / 64)); [|lia].
  rewrite Hd at 1. rewrite Hm. replace (64 * (size / 64) + 0) with (16 * (size / 64) * 4) by lia. by rewrite Z.div_mul.
Qed.

(** C38: what is mined can be verified.  For a dataset of at most 2^32 bytes,
    whatever number of goroutines generates it and however the scheduler
    interleaves them, the dataset is generated, and hashimoto over it
    ([hashimotoFull], mining) returns the same digest and result as hashimoto
    that computes the items it needs from the cache ([hashimotoLight],
    verification). *)
Theorem mining_agrees_with_verification (dest : list Z) (size threads nonce : Z) (sched : list Z)
    (hash : list byte) :
  size = 4 * zlen dest -> size mod mixBytes = 0 -> 6400 <= size <= 2 ^ 32 -> 0 < threads <= 2 ^ 16 ->
  sched ≡ₚ allItems size threads ->
  exists dataset r, generateDataset dest cache sched = Some dataset /\
    hashimotoFull dataset hash nonce = Some r /\ hashimotoLight size cache hash nonce = Some r.
Proof.
  intros Hz Hm Hs Ht Hp. unfold mixBytes in Hm.
  pose proof (Z.div_mod size 128 ltac:(lia)) as Hd. rewrite Hm in Hd.
  assert (size mod 64 = 0) as Hm'.
  { rewrite Hd. replace (128 * (size / 128) + 0) with (size / 128 * 2 * 64) by lia. apply Z.mod_mul. lia. }
  assert (size / 64 = 2 * (size / 128)) as H64.
  { rewrite Hd at 1. replace (128 * (size / 128) + 0) with (2 * (size / 128) * 64) by lia. by rewrite Z.div_mul. }
  assert (size / 4 = zlen dest) as H4 by (rewrite Hz, Z.mul_comm; by apply Z.div_mul).
  destruct (generateDataset_ok cache cache_rows sched dest) as (ds & Eg & Hl & Hget); [lia| |].
  { rewrite <- H4. apply (schedule_in_range size threads); [lia|done..]. }
  assert (forall index, 0 <= index < 2 * (size / 128) ->
    slice ds (u32 (index * hashWords)) (u32 (u32 (index * hashWords) + hashWords)) = Some (itemWords cache index)) as Hitem.
  { intros index Hi. unfold hashWords. rewrite !u32_small by lia. rewrite slice_Some by lia. f_equal.
    apply list_eq. intros k. destruct (decide (k < 16)%nat) as [Hk|Hk].
    - rewrite lookup_take_lt, lookup_drop by lia.
      replace (Z.to_nat (index * 16) + k)%nat with (16 * Z.to_nat index + k)%nat by lia.
      rewrite Hget by done. rewrite bool_decide_true; [by rewrite Z2Nat.id by lia|].
      rewrite Z2Nat.id, Hp by lia. apply allItems_spec; lia.
    - rewrite !lookup_ge_None_2; [done|by rewrite length_itemWords by done; lia|].
      rewrite length_take, length_drop. lia. }
  assert (forall index, (rawData ← generateDatasetItem cache index;
    Some (wordsLE (Nat.div (length rawData) 4) rawData)) = Some (itemWords cache index)) as Hlight.
  { intros index. unfold itemWords. destruct (item_total cache cache_rows index) as (item & -> & Hit).
    cbn [mbind option_bind]. by rewrite Hit. }
  exists ds. unfold hashimotoFull, hashimotoLight, hashimoto. rewrite Hl, <- Hz. unfold mixBytes.
  rewrite (u32_small (size / 128)) by lia. replace (size / 128 =? 0) with false by lia.
  set (seed := keccak512 _).
  rewrite (accessLoop_ext _ (fun index => rawData ← generateDatasetItem cache index;
    Some (wordsLE (Nat.div (length rawData) 4) rawData)) (size / 128)) by (lia || intros; by rewrite Hlight, Hitem).
  destruct (accessLoop_total (fun index => rawData ← generateDatasetItem cache index;
    Some (wordsLE (Nat.div (length rawData) 4) rawData)) (size / 128) (Uint32LE seed) loopAccesses
    ltac:(lia)) with (i := 0) (mix := wordsLE 16 seed ++ wordsLE 16 seed) as (mix & E & _).
  { intros index _. exists (itemWords cache index). split; [apply Hlight|by apply length_itemWords]. }
  { by rewrite length_app, length_wordsLE. }
  rewrite E. cbn [mbind option_bind]. by eexists.
Qed.

(** Datasets above four gigabytes.  Offsets into the dataset are computed in
    32 bits, so nothing is ever written beyond 2^32 bytes: the items that belong
    there stay as they were in the file. *)
Theorem large_dataset_not_filled (dest : list Z) (size threads : Z) (sched : list Z) :
  size = 4 * zlen dest -> size mod mixBytes = 0 -> 2 ^ 32 < size < 2 ^ 37 -> 0 < threads <= 2 ^ 16 ->
  sched ≡ₚ allItems size threads ->
  exists dataset, generateDataset dest cache sched = Some dataset /\
    forall i : nat, 2 ^ 30 <= Z.of_nat i -> dataset !! i = dest !! i.
Proof.
  intros Hz Hm Hs Ht Hp. unfold mixBytes in Hm.
  assert (size mod 64 = 0) as Hm'.
  { pose proof (Z.div_mod size 128 ltac:(lia)) as Hd. rewrite Hm in Hd. rewrite Hd.
    replace (128 * (size / 128) + 0) with (size / 128 * 2 * 64) by lia. apply Z.mod_mul. lia. }
  assert (size / 4 = zlen dest) as H4 by (rewrite Hz, Z.mul_comm; by apply Z.div_mul).
  destruct (generateDataset_beyond cache cache_rows sched dest) as (ds & E & _ & H); [lia| |].
  { rewrite <- H4. apply (schedule_in_range size threads); [lia|done..]. }
  by exists ds.
Qed.
End pow.

Lemma mining_agrees_with_verification_witness :
  exists dataset r,
    generateDataset (K5 := toySha3_512) (replicate 1600 0) (replicate 16 7) (allItems 6400 4) = Some dataset /\
    hashimotoFull (K := toySha3) (K5 := toySha3_512) dataset [x01] 5 = Some r /\
    hashimotoLight (K := toySha3) (K5 := toySha3_512) 6400 (replicate 16 7) [x01] 5 = Some r.
Proof.
  apply (mining_agrees_with_verification (K := toySha3) (K5 := toySha3_512) (replicate 16 7)) with (threads := 4);
    try (unfold zlen, hashWords; rewrite length_replicate); done.
Defined.

Lemma large_dataset_not_filled_witness :
  let dest := replicate (Z.to_nat (2 ^ 30 + 32)) 0 in
  exists dataset,
    generateDataset (K5 := toySha3_512) dest (replicate 16 7) (allItems (2 ^ 32 + 128) 8) = Some dataset /\
    forall i : nat, 2 ^ 30 <= Z.of_nat i -> dataset !! i = dest !! i.
Proof.
  intros dest.
  apply (large_dataset_not_filled (K5 := toySha3_512) (replicate 16 7)) with (size := 2 ^ 32 + 128) (threads := 8).
  - unfold zlen, hashWords. rewrite length_replicate. cbn. lia.
  - unfold dest, zlen. rewrite length_replicate, Z2Nat.id by lia. done.
  - done.
  - lia.
  - lia.
  - done.
Defined.

(** ** Batches of headers *)

Section batch.
Context {K : Sha3} {K5 : Sha3_512} {D : PowData} {chain : ChainReader}.

(** C37: batches are verified completely and in order.  Whatever the scheduler
    does with the goroutines of [VerifyHeaders], every run ends; at any time the
    results that have been sent are those of the first headers, in the order of
    the headers; and where a run that was not aborted ends, the result of every
    header has been sent and every worker has returned. *)
Theorem verify_headers_complete (e : Ethash) (now : Z) (headers : list Header) (seals : list bool)
    (result : nat -> option headerErr) (workers : nat) :
  (0 < length headers)%nat -> (0 < workers)%nat ->
  (forall i, (i < length headers)%nat -> verifyHeaderWorker e now headers seals i = Ret (result i)) ->
  let run := pstep (length headers) result None in
  sn run (startPipeline workers) /\
  forall s, rtc run (startPipeline workers) s ->
    map Ret (p_errorsOut s) `prefix_of` map (verifyHeaderWorker e now headers seals) (seq 0 (length headers)) /\
    (nf run s -> p_aborted s = false ->
     map Ret (p_errorsOut s) = map (verifyHeaderWorker e now headers seals) (seq 0 (length headers)) /\
     Forall (eq Returned) (p_workers s)).
Proof.
  intros Hn Hw Hr run. split; [apply pipeline_sn|]. intros s Hs.
  pose proof (reachable_inv _ _ _ workers s Hn Hs) as Hi.
  assert (map (verifyHeaderWorker e now headers seals) (seq 0 (length headers)) =
    map Ret (results (length headers) result)) as ->.
  { unfold results. rewrite map_map. apply map_ext_in. intros i Hin. apply in_seq in Hin. apply Hr. lia. }
  split.
  - rewrite (pi_sent _ _ _ _ Hi). exists (map Ret (drop (length (p_errorsOut s)) (results (length headers) result))).
    by rewrite <- map_app, take_drop.
  - intros Hnf Hab. destruct (pipeline_end _ _ _ workers s Hw Hi Hnf Hab) as [-> ?]. done.
Qed.

(** An abort can leave workers behind.  [done] has one place per worker, but
    a worker can be given a second header before its first index is collected:
    after an abort at that point the workers wait forever to send to [done]. *)
Theorem abort_leaves_workers (result : nat -> option headerErr) :
  exists s, rtc (pstep 4 result None) (startPipeline 2) s /\ nf (pstep 4 result None) s /\
    p_aborted s = true /\ p_workers s = [Sending 2; Sending 3].
Proof.
  eexists. split; [|split; [|split]].
  - eapply rtc_l; [apply (step_send _ _ _ 0 _ _ _ _ 0); [lia|reflexivity]|].
    eapply rtc_l; [apply (step_send _ _ _ 1 _ _ _ _ 1); [lia|reflexivity]|].
    eapply rtc_l; [eapply (step_verify _ _ _ _ _ _ _ _ 0); reflexivity|].
    eapply rtc_l; [eapply (step_verify _ _ _ _ _ _ _ _ 1); reflexivity|].
    eapply rtc_l; [eapply (step_done _ _ _ _ _ _ _ _ 0); [reflexivity|cbn; lia]|].
    eapply rtc_l; [eapply (step_done _ _ _ _ _ _ _ _ 1); [reflexivity|cbn; lia]|].
    eapply rtc_l; [apply (step_send _ _ _ 2 _ _ _ _ 0); [lia|reflexivity]|].
    eapply rtc_l; [apply (step_send _ _ _ 3 _ _ _ _ 1); [lia|reflexivity]|].
    eapply rtc_l; [eapply (step_verify _ _ _ _ _ _ _ _ 0); reflexivity|].
    eapply rtc_l; [eapply (step_verify _ _ _ _ _ _ _ _ 1); reflexivity|].
    eapply rtc_l; [apply step_abort|]. apply rtc_refl.
  - intros [s' Hs]. cbn in Hs. inversion Hs; subst; cbn in *;
      match goal with H : _ !! ?w = Some _ |- _ => destruct w as [|[|w]]; cbn in H; try discriminate; try lia end.
  - done.
  - done.
Qed.
End batch.

(** ** The DAO fork *)

Section dao.
Context {C : Crypto} {Ideal : CodeHashIdeal C} {DBase : Database} {Ok : DatabaseOk DBase}.

Lemma SetBalance_ok s a v :
  s_inv s ->
  runs (State.SetBalance a v) s (fun _ s' => s_inv s' /\ s_view s' = w_update a (set_balance v) (s_view s)).
Proof.
  intros Hi. eapply runs_mono.
  { apply (write_spec s _ (w_update a (set_balance v))); [done|]. intros Hc. apply setter_ok; [done|].
    intros. by apply obj_SetBalance_ok. }
  by intros _ s' (H1 & H2 & _).
Qed.

(** One account drained, and what is left of the rest of the world. *)
Definition drained (to : Address) (l : list Address) (w w' : world) : Prop :=
  supply w' = supply w /\
  (forall a, a ∈ l -> w_GetBalance w' a = 0) /\
  (forall a, a ∉ l -> a <> to -> w_acc w' a = w_acc w a) /\
  (nonneg w -> nonneg w').

Lemma drain_ok l : forall s,
  s_inv s -> DAORefundContract ∉ l ->
  runs (drain l) s (fun _ s' => s_inv s' /\ drained DAORefundContract l (s_view s) (s_view s')).
Proof.
  induction l as [|a l IH]; intros s Hi Hn; cbn [drain].
  { apply runs_ret. split; [done|]. split; [done|]. split; [|done]. intros a Ha. by apply not_elem_of_nil in Ha. }
  apply not_elem_of_cons in Hn as [Hne Hn]. apply runs_bind.
  eapply runs_mono; [exact (spec_GetBalance (S := stateDB) s a Hi)|]. intros b s0 (-> & Hi0 & Hv0 & _).
  apply runs_bind. eapply runs_mono; [exact (spec_AddBalance (S := stateDB) s0 _ _ Hi0)|]. intros _ s1 (Hi1 & Hv1 & _).
  apply runs_bind. eapply runs_mono; [by apply SetBalance_ok|]. intros _ s2 (Hi2 & Hv2).
  eapply runs_mono; [by apply IH|]. intros _ s3 (Hi3 & Hs & H0 & Hrest & Hnn). split; [done|].
  cbn in Hv0, Hv1. rewrite Hv0 in Hv1.
  assert (forall x, w_acc (s_view s2) x = if decide (a = x) then set_balance 0 (w_acc (s_view s) x)
    else if decide (DAORefundContract = x)
      then set_balance (w_GetBalance (s_view s) x + w_GetBalance (s_view s) a) (w_acc (s_view s) x)
    else w_acc (s_view s) x) as Hacc.
  { intros x. rewrite Hv2, w_acc_update, Hv1. unfold w_AddBalance. rewrite w_acc_update.
    destruct (decide (a = x)) as [->|]; [|done]. by rewrite decide_False. }
  split; [|split; [|split]].
  - rewrite Hs, Hv2, supply_update, Hv1, supply_AddBalance. unfold w_GetBalance, w_AddBalance.
    rewrite w_acc_update, decide_False by done. cbn. lia.
  - intros x Hx. destruct (decide (x ∈ l)) as [Hl|Hl]; [by apply H0|].
    apply elem_of_cons in Hx as [->|Hx]; [|done]. unfold w_GetBalance. rewrite Hrest by done.
    rewrite Hacc, decide_True by done. done.
  - intros x Hx Ht. apply not_elem_of_cons in Hx as [Hxa Hxl].
    rewrite Hrest, Hacc, !decide_False by done. done.
  - intros Hpos. apply Hnn. intros x. pose proof (Hpos x). pose proof (Hpos a). unfold w_GetBalance in *. rewrite Hacc.
    repeat case_decide; cbn; unfold w_GetBalance; lia.
Qed.

(** The DAO fork moves balances.  [ApplyDAOHardFork] empties the accounts of
    the list into the refund contract: no value is created or lost, and no other
    account changes. *)
Theorem dao_fork_moves_balances (s : stateDB) :
  s_inv s ->
  runs ApplyDAOHardFork s (fun _ s' => s_inv s' /\ drained DAORefundContract DAODrainList (s_view s) (s_view s')).
Proof.
  intros Hi. unfold ApplyDAOHardFork. apply runs_bind.
  eapply runs_mono; [exact (spec_Exist (S := stateDB) s _ Hi)|]. intros e s0 (-> & Hi0 & Hv0 & _). cbn in Hv0.
  assert (DAORefundContract ∉ DAODrainList) as Hn by (apply (bool_decide_unpack _); by vm_compute).
  apply runs_bind. destruct (w_Exist (view s) DAORefundContract) eqn:Ee; cbn [negb].
  - apply runs_ret. rewrite <- Hv0. by apply drain_ok.
  - eapply runs_mono; [exact (spec_CreateAccount (S := stateDB) s0 _ Hi0)|]. intros _ s1 (Hi1 & Hv1 & _).
    eapply runs_mono; [by apply drain_ok|]. intros _ s2 (Hi2 & Hs & H0 & Hr & Hnn). split; [done|].
    cbn in Hv1. rewrite Hv0 in Hv1.
    assert (w_acc (s_view s) DAORefundContract = new_account) as Hnew.
    { change (view s) with (s_view s) in Ee. unfold w_Exist in Ee. unfold w_acc.
      by destruct (w_get (s_view s) DAORefundContract). }
    split; [|split; [done|split]].
    + rewrite Hs, Hv1. unfold w_CreateAccount. rewrite supply_put. unfold w_GetBalance. rewrite Hnew. cbn. lia.
    + intros a Ha Ht. rewrite Hr, Hv1 by done. unfold w_CreateAccount. by rewrite w_acc_put, decide_False by done.
    + intros Hpos. apply Hnn. rewrite Hv1. intros a. by rewrite balance_CreateAccount.
Qed.
End dao.

(** ** Instances on the sample state *)

From S2P Require Import Sample.

(** A chain of two blocks, and a block on top with an uncle. *)
Definition sampleGrandparent : Block :=
  mkBlock (mkHeader 0 2 3 4 5 6 0 200000 9 8000000 21000 990 [] 0 1) [] [].
Definition sampleParent : Block :=
  mkBlock (mkHeader (Block_Hash (K := toySha3) sampleGrandparent) 2 3 4 5 6 0
    (CalcDifficulty (K := toySha3) TestChainConfig 1000 (b_header sampleGrandparent)) 10 8000000 21000 1000 [] 0 2) [] [].
Definition sampleUncle : Header :=
  mkHeader (Block_Hash (K := toySha3) sampleGrandparent) 2 77 4 5 6 0
    (CalcDifficulty (K := toySha3) TestChainConfig 1001 (b_header sampleGrandparent)) 10 8000000 0 1001 [] 0 3.
Definition sampleBlock : Block :=
  mkBlock (mkHeader (Block_Hash (K := toySha3) sampleParent) 2 78 4 5 6 0 200000 11 8000000 21000 1010 [] 0 4)
    [sampleUncle] [].

Definition sampleChain : ChainReader := {|
  Config := TestChainConfig;
  GetHeader h n := None;
  GetBlock h n :=
    if bool_decide (h = Block_Hash (K := toySha3) sampleParent /\ n = 10) then Some sampleParent
    else if bool_decide (h = Block_Hash (K := toySha3) sampleGrandparent /\ n = 9) then Some sampleGrandparent
    else None
|}.

Lemma sampleChain_ok : chain_ok (K := toySha3) (chain := sampleChain).
Proof.
  intros h n b. cbn [GetBlock sampleChain]. repeat case_bool_decide; intros [= <-]; destruct_and!; subst; done.
Qed.

Lemma block_rewards_witness :
  exists u s', accumulateRewards TestChainConfig (b_header sampleBlock) [sampleUncle] sampleDB = Ret (u, s') /\
    w_GetBalance (view s') 78 = 3 * 10 ^ 18 + 3 * 10 ^ 18 / 32 /\ w_GetBalance (view s') 77 = 7 * (3 * 10 ^ 18) / 8 /\
    supply (view s') = supply (view sampleDB) + 3 * 10 ^ 18 + 3 * 10 ^ 18 / 32 + 7 * (3 * 10 ^ 18) / 8.
Proof.
  destruct (block_rewards (K := toySha3) (K5 := toySha3_512) (D := no_pow) (chain := sampleChain)
    (mkEthash ModeFake 0 None) 2000 sampleBlock sampleDB) as (_ & _ & H).
  - done.
  - apply sampleChain_ok.
  - cbn. lia.
  - apply Forall_singleton. intros E. by vm_compute in E.
  - vm_compute. reflexivity.
  - apply sampleDB_inv.
  - destruct H as (u & s' & E & _ & Ha & Hs & _). exists u, s'. split; [exact E|]. rewrite Hs. unfold w_GetBalance. rewrite !Ha.
    repeat split; vm_compute; reflexivity.
Defined.

Lemma dao_fork_moves_balances_witness :
  exists u s', ApplyDAOHardFork sampleDB = Ret (u, s') /\ s_inv s' /\
    drained DAORefundContract DAODrainList (s_view sampleDB) (s_view s').
Proof. apply (dao_fork_moves_balances sampleDB). apply sampleDB_inv. Defined.

Lemma verify_headers_complete_witness :
  let run := pstep 2 (fun _ => Some ErrUnknownAncestor) None in
  sn run (startPipeline 3) /\
  forall s, rtc run (startPipeline 3) s -> nf run s -> p_aborted s = false -> Forall (eq Returned) (p_workers s).
Proof.
  intros run.
  destruct (verify_headers_complete (K := toySha3) (K5 := toySha3_512) (D := no_pow) (chain := sampleChain)
    (mkEthash ModeFake 0 None) 2000 [sampleUncle; b_header sampleBlock] [true; true]
    (fun _ => Some ErrUnknownAncestor) 3) as [H1 H2].
  - cbn. lia.
  - lia.
  - intros [|[|i]] Hi; [vm_compute; reflexivity..|cbn in Hi; lia].
  - split; [exact H1|]. intros s Hs Hnf Hab. apply (H2 s Hs); done.
Defined.
