(* ===== verification/ProcessorSpec.v ===== *)
(** * What processing a block keeps true

    One transaction after the other: the database stays well-formed, the gas of
    the block is shared out, the receipts add up, and no value is created but by
    the engine.  Also the hashes that [BLOCKHASH] sees and the gas limit of the
    next block. *)

From Stdlib Require Import ZArith Lia Bool.
From S2P Require Import Prelude GoMath Rlp TrieHasher Params VmStack VmMemory Opcodes Analysis StateInterface World StateDB JournalSpec FinaliseSpec.
From S2P Require Import Machine Interpreter EvmInv StateTransition BlockTypes Receipts TxSigning Hashimoto Ethash EthashTheorems Processor.
Local Open Scope Z_scope.
Local Open Scope go_scope.

(** ** The end of a transaction *)

Section finalise.
Context {C : Crypto} {D : StateDB.Database} {DOK : DatabaseOk D} {CI : CodeHashIdeal C}.

(** Accounts that die take their balance with them. *)
Lemma supply_imap (f : Address -> account -> option account) m :
  (forall a acc, m !! a = Some acc -> 0 <= acc_balance acc) -> (forall a acc acc', f a acc = Some acc' -> acc' = acc) ->
  supply_map (map_imap f m) <= supply_map m.
Proof.
  intros Hm Hf. induction m as [|a acc m Hn Hk IH] using map_first_key_ind; [done|].
  assert (forall b c, m !! b = Some c -> 0 <= acc_balance c) as Hm'.
  { intros b c Hb. apply (Hm b). rewrite lookup_insert_ne by congruence. done. }
  assert (0 <= acc_balance acc) as Ha by (apply (Hm a); apply lookup_insert_eq).
  specialize (IH Hm'). rewrite supply_insert_new by done. destruct (f a acc) as [acc'|] eqn:E.
  - rewrite (map_imap_insert_Some f a acc m acc' E), (Hf _ _ _ E), supply_insert_new by (by rewrite map_lookup_imap, Hn). lia.
  - rewrite map_imap_insert_None by done. rewrite delete_id by (by rewrite map_lookup_imap, Hn). lia.
Qed.

Lemma finalise_world_ok flag dirty w : world_ok w ->
  world_ok (w_finalise flag dirty w) /\ supply (w_finalise flag dirty w) <= supply w.
Proof.
  intros [Hn Hs]. set (f := fun a acc => if bool_decide (is_Some (dirty !! a)) then survivor flag acc else Some acc).
  assert (forall a acc acc', f a acc = Some acc' -> acc' = acc) as Hf.
  { intros a acc acc'. unfold f, survivor. repeat split_if; try done; by intros [= <-]. }
  assert (supply (w_finalise flag dirty w) <= supply w) as Hle.
  { apply (supply_imap f); [|done]. intros a acc. by apply nonneg_lookup. }
  split; [|done]. split; [|lia]. intros a. specialize (Hn a). unfold w_GetBalance, w_acc, w_get in *.
  assert (w_accounts (w_finalise flag dirty w) !! a = w_accounts w !! a ≫= f a) as -> by apply map_lookup_imap. clearbody f.
  destruct (w_accounts w !! a) as [acc|]; cbn in *; [|lia]. destruct (f a acc) as [acc'|] eqn:E; cbn; [by rewrite (Hf _ _ _ E)|lia].
Qed.

Context (DB : complete_db).

Lemma Finalise_world s flag : s_inv s -> world_ok (s_view s) ->
  runs (State.Finalise flag) s (fun _ s' => s_inv s' /\ world_ok (s_view s') /\ supply (s_view s') <= supply (s_view s)).
Proof.
  intros Hi Hw. eapply runs_mono; [by apply Finalise_ok|]. intros _ s' (Hi' & _ & _ & -> & _). split; [done|]. by apply finalise_world_ok.
Qed.

(** ** Prepare *)

Definition w_prepare (th bh : Hash) (ti : Z) (w : world) : world :=
  mkWorld (w_accounts w) (w_refund w) (w_logs w) (w_logSize w) (w_preimages w) th bh ti.

Lemma w_undo_prepare e th bh ti w : w_undo e (w_prepare th bh ti w) = w_prepare th bh ti (w_undo e w).
Proof. destruct e; try done; cbn; unfold w_alter, w_get; cbn; by destruct (w_accounts w !! _). Qed.

Lemma undoes_prepare tr es th bh ti : forall w w0, undoes tr es w w0 -> undoes tr es (w_prepare th bh ti w) (w_prepare th bh ti w0).
Proof.
  induction es as [|e es IH]; intros w w0; cbn [undoes]; [by intros ->|]. intros (He & Ha & Hu). split; [done|].
  split; [by destruct e|]. rewrite w_undo_prepare. by apply IH.
Qed.

Lemma Prepare_ok s th bh ti : s_inv s ->
  runs (State.Prepare th bh ti) s (fun _ s' => s_inv s' /\ s_view s' = w_prepare th bh ti (s_view s)).
Proof.
  intros [[A1 A2 A3 A4 A5 A6] [B1 B2] [w0 Hu]]. apply runs_modify. split; [|done]. split; [by split|by split|].
  exists (w_prepare th bh ti w0). exact (undoes_prepare _ _ th bh ti _ _ Hu).
Qed.
End finalise.

(** ** The hashes of ancestors *)

Section hashes.
Context {R : ChainReader}.

(** The chain finds headers by their numbers, and holds the hashes it refers to. *)
Record headers_ok : Prop := {
  ho_number h n hd : GetHeader h n = Some hd -> h_Number hd = n /\ 0 <= n < 2 ^ 63;
  ho_word h n hd : GetHeader h n = Some hd -> is_word (h_ParentHash hd)
}.
Hypothesis HO : headers_ok.

(** The hash of the ancestor [k] generations above the parent, where the chain has
    it. *)
Fixpoint ancestor (ref : Header) (k : nat) : option Hash :=
  match k with
  | O => Some (h_ParentHash ref)
  | S k => h ← ancestor ref k; hd ← GetHeader h (u64 (h_Number ref - Z.of_nat k - 1)); Some (h_ParentHash hd)
  end.

Lemma ancestor_word ref k h : is_word (h_ParentHash ref) -> ancestor ref k = Some h -> is_word h.
Proof.
  intros Hp. destruct k as [|k]; cbn [ancestor]; [by intros [= <-]|]. destruct (ancestor ref k) as [g|]; [|done].
  cbn. destruct (GetHeader g _) as [hd|] eqn:E; [|done]. intros [= <-]. by eapply ho_word.
Qed.

Lemma ancestor_ends ref k j : ancestor ref k = None -> ancestor ref (k + j) = None.
Proof. intros E. induction j as [|j IH]; [by rewrite Nat.add_0_r|]. rewrite Nat.add_succ_r. cbn [ancestor]. by rewrite IH. Qed.

(** The answer for a number: the hash of the ancestor, 0 for the block itself and
    later ones and where the chain ends. *)
Definition blockHash (ref : Header) (n : Z) : Hash :=
  if n <? h_Number ref then default 0 (ancestor ref (Z.to_nat (h_Number ref - 1 - n))) else 0.

(** Every cached hash is the one the walk would find. *)
Record cached (ref : Header) (cache : gmap Z Hash) : Prop := {
  ca_right n h : 0 <= n < 2 ^ 63 -> cache !! n = Some h -> h = blockHash ref n /\ n < h_Number ref;
  ca_parent : 0 < h_Number ref -> cache !! (h_Number ref - 1) = Some (h_ParentHash ref)
}.

Lemma cached_insert ref cache n h : 0 <= h_Number ref < 2 ^ 63 ->
  cached ref cache -> (0 <= n < 2 ^ 63 -> h = blockHash ref n /\ n < h_Number ref) -> cached ref (<[n := h]> cache).
Proof.
  intros HN [H1 H2] Hn. split.
  - intros m g Hm. destruct (decide (n = m)) as [<-|Hne]; [rewrite lookup_insert_eq; intros [= <-]; auto|].
    rewrite lookup_insert_ne by done. auto.
  - intros H0. destruct (decide (n = h_Number ref - 1)) as [->|Hne]; [|rewrite lookup_insert_ne by done; auto].
    rewrite lookup_insert_eq. destruct Hn as [-> _]; [lia|]. unfold blockHash.
    replace (h_Number ref - 1 <? h_Number ref) with true by lia. by replace (Z.to_nat _) with 0%nat by lia.
Qed.

(** The walk, [k] blocks below the parent. *)
Lemma hashLoop_ok ref n : 0 <= h_Number ref < 2 ^ 63 -> 0 <= n < 2 ^ 63 ->
  forall fuel k h cache, h_Number ref = Z.of_nat (fuel + k) -> cached ref cache -> ancestor ref k = Some h ->
  (n < h_Number ref -> n < h_Number ref - Z.of_nat k - 1) ->
  exists cache', hashLoop fuel n (GetHeader h (u64 (h_Number ref - Z.of_nat k - 1))) cache = Ret (blockHash ref n, cache') /\
    cached ref cache'.
Proof.
  intros HN Hn fuel. induction fuel as [|fuel IH]; intros k h cache Hf Hc Ha Hk.
  { replace (h_Number ref - Z.of_nat k - 1) with (-1) by lia. destruct (GetHeader h _) as [hd|] eqn:E.
    - by destruct (ho_number HO _ _ _ E) as [_ [_ Hr]].
    - exists cache. cbn [hashLoop]. unfold blockHash. replace (n <? h_Number ref) with false by lia. done. }
  rewrite u64_small by (unfold is_u64; lia).
  destruct (GetHeader h _) as [hd|] eqn:E; cbn [hashLoop].
  2: { exists cache. split; [|done]. unfold blockHash. split_if; [|done].
       assert (ancestor ref (S k) = None) as En.
       { cbn [ancestor]. rewrite Ha. cbn. rewrite u64_small by (unfold is_u64; lia). by rewrite E. }
       replace (Z.to_nat (h_Number ref - 1 - n)) with (S k + (Z.to_nat (h_Number ref - 1 - n) - S k))%nat by lia.
       by rewrite ancestor_ends. }
  assert (ancestor ref (S k) = Some (h_ParentHash hd)) as Ha'.
  { cbn [ancestor]. rewrite Ha. cbn. rewrite u64_small by (unfold is_u64; lia). by rewrite E. }
  destruct (ho_number HO _ _ _ E) as [En _]. rewrite En. unfold Uint64. rewrite Z.abs_eq, (u64_small (h_Number ref - Z.of_nat k - 1)) by (unfold is_u64; lia).
  set (m := h_Number ref - Z.of_nat k - 1 - 1).
  assert (0 <= m -> blockHash ref m = h_ParentHash hd) as Hm.
  { intros Hm. unfold blockHash. replace (m <? h_Number ref) with true by (unfold m; lia).
    replace (Z.to_nat (h_Number ref - 1 - m)) with (S k) by (unfold m; lia). by rewrite Ha'. }
  assert (cached ref (<[u64 m := h_ParentHash hd]> cache)) as Hc'.
  { apply cached_insert; [done|done|]. intros Hu. destruct (decide (0 <= m)) as [Hp|Hp].
    - rewrite u64_small by (unfold is_u64, m in *; lia). rewrite Hm by done. split; [done|unfold m; lia].
    - replace m with (-1) in Hu by (unfold m in *; lia). by destruct Hu. }
  destruct (Z.eqb_spec n (u64 m)) as [->|Hne].
  - eexists. split; [|exact Hc']. f_equal. f_equal. destruct (decide (0 <= m)) as [Hp|Hp].
    + rewrite u64_small by (unfold is_u64, m in *; lia). by rewrite Hm.
    + replace m with (-1) in Hn by (unfold m in *; lia). by destruct Hn.
  - replace m with (h_Number ref - Z.of_nat (S k) - 1) in * by (unfold m; lia). apply IH; [lia|done|done|].
    intros Hlt. specialize (Hk Hlt). destruct (decide (n = h_Number ref - Z.of_nat (S k) - 1)) as [->|]; [|lia].
    by rewrite u64_small in Hne by (unfold is_u64; lia).
Qed.

Lemma GetHashFn_cached ref cache n : 0 <= h_Number ref < 2 ^ 63 -> 0 <= n < 2 ^ 63 ->
  match cache with Some c => cached ref c | None => True end ->
  exists cache', GetHashFn ref cache n = Ret (blockHash ref n, cache') /\ cached ref cache'.
Proof.
  intros HN Hn Hc. unfold GetHashFn. unfold Uint64. rewrite Z.abs_eq, (u64_small (h_Number ref)) by (unfold is_u64; lia).
  set (c := match cache with None => _ | Some c => c end). assert (cached ref c) as Hc'.
  { unfold c. destruct cache as [c'|]; [done|]. clear c Hc. split.
    - intros m h Hm. destruct (decide (u64 (h_Number ref - 1) = m)) as [<-|Hne]; [|by rewrite lookup_singleton_ne].
      rewrite lookup_singleton_eq. intros [= <-]. destruct (decide (h_Number ref = 0)) as [E0|E0].
      { rewrite E0 in Hm. by destruct Hm. }
      rewrite u64_small by (unfold is_u64; lia). unfold blockHash. replace (_ <? _) with true by lia.
      split; [|lia]. by replace (Z.to_nat _) with 0%nat by lia.
    - intros H0. rewrite u64_small by (unfold is_u64; lia). apply lookup_singleton_eq. }
  destruct (c !! n) as [h|] eqn:E.
  { exists c. split; [|done]. by destruct (ca_right _ _ Hc' n h Hn E) as [-> _]. }
  destruct (hashLoop_ok ref n HN Hn (Z.to_nat (h_Number ref)) 0 (h_ParentHash ref) c) as (c' & E' & H').
  - lia.
  - done.
  - done.
  - intros Hlt. destruct (decide (n = h_Number ref - 1)) as [->|]; [|lia]. rewrite (ca_parent _ _ Hc') in E by lia. done.
  - rewrite Z.sub_0_r in E'. by exists c'.
Qed.

Lemma getHash_ancestor ref n : 0 <= h_Number ref < 2 ^ 63 -> 0 <= n < 2 ^ 63 -> getHash ref n = blockHash ref n.
Proof. intros HN Hn. unfold getHash. by destruct (GetHashFn_cached ref None n HN Hn I) as (c & -> & _). Qed.

Lemma hashLoop_word n fuel : forall hd cache h cache', (forall x, hd = Some x -> is_word (h_ParentHash x)) ->
  hashLoop fuel n hd cache = Ret (h, cache') -> is_word h.
Proof.
  induction fuel as [|fuel IH]; intros hd cache h cache' Hd; destruct hd as [x|]; cbn [hashLoop].
  2, 4: intros [= <- _]; unfold is_word; lia.
  - split_if; [|done]. intros [= <- _]. by apply Hd.
  - split_if; [intros [= <- _]; by apply Hd|]. apply IH. intros y. by apply ho_word.
Qed.

Lemma getHash_word ref n : is_word (h_ParentHash ref) -> is_word (getHash ref n).
Proof.
  intros Hp. assert (is_word 0) as H0 by (unfold is_word; lia). unfold getHash.
  destruct (GetHashFn ref None n) as [[h c]| |] eqn:E; [|done..]. revert E. unfold GetHashFn.
  destruct (decide (u64 (Uint64 (h_Number ref) - 1) = n)) as [<-|Hne].
  - rewrite lookup_singleton_eq. by intros [= <- _].
  - rewrite lookup_singleton_ne by done. apply hashLoop_word. intros y. by apply ho_word.
Qed.
End hashes.

(** ** One transaction *)

Section blocks.
Context {K : Sha3} {C : Crypto} {CS : CryptoSizes C} {CI : CodeHashIdeal C}.
Context {D : StateDB.Database} {DOK : DatabaseOk D} {T : AccountTrie}.
Context {R : ChainReader} {E : Engine}.
Context (DB : complete_db) (HO : headers_ok).

(** A transaction the EVM can take: numbers of their widths, a gas limit below the
    limit of the machine. *)
Record tx_fits (tx : Transaction) : Prop := {
  tf_gas : 0 <= tx_GasLimit tx < gas_limit;
  tf_price : is_word (tx_Price tx);
  tf_amount : is_word (tx_Amount tx);
  tf_data : short (tx_Payload tx);
  tf_to a : tx_Recipient tx = Some a -> is_addr a
}.

Record header_fits (h : Header) : Prop := {
  hf_number : 0 <= h_Number h;
  hf_parent : is_word (h_ParentHash h);
  hf_gasLimit : is_u64 (h_GasLimit h);
  hf_author a : Author h = Some a -> is_addr a
}.

Lemma sender_addr s tx a : signer_Sender s tx = Some (inr a) -> is_addr a.
Proof.
  assert (forall pub, is_addr (pubAddress pub)) as Hp.
  { intros pub. unfold pubAddress. pose proof (SetBytes_range (drop 12 (keccak256 (drop 1 pub)))) as H.
    unfold zlen in H. rewrite length_drop, keccak256_length in H. exact H. }
  assert (forall h r w V hs, recoverPlain h r w V hs = Some (inr a) -> is_addr a) as Hr.
  { intros h r w V hs. unfold recoverPlain. repeat split_if; try done. destruct (plainSignature _ _ _); [|done].
    destruct (Ecrecover _ _) as [[|[] pub]|]; try done. intros [= <-]. apply Hp. }
  destruct s; cbn [signer_Sender]; unfold homesteadSender; repeat split_if; try done; apply Hr.
Qed.

Lemma AsMessage_ok s tx : tx_fits tx ->
  exists r, AsMessage s tx = Some r /\ match r with inr msg => msg_ok msg /\ is_word (msg_GasPrice msg) | inl _ => True end.
Proof.
  intros [F1 F2 F3 F4 F5]. unfold AsMessage. pose proof (signer_Sender_total s tx) as Ht.
  destruct (signer_Sender s tx) as [[e|from]|] eqn:Es; [| |done]; (eexists; split; [done|]); [done|].
  split; [|done]. unfold is_word in *. split; cbn; [by eapply sender_addr|done|lia|done|done|done].
Qed.

Lemma vmEnv_ok config cfg msg header author : msg_ok msg -> is_word (msg_GasPrice msg) -> header_fits header ->
  (forall a, author = Some a -> is_addr a) -> env_ok (vmEnv config cfg msg header author).
Proof.
  intros Hm Hp [H1 H2 H3 H4] Ha. split; cbn; try done.
  - intros n. by apply getHash_word.
  - apply Hm.
  - destruct author as [a|]; [by apply Ha|]. destruct (Author header) as [a|] eqn:Ea; [by apply H4|]. unfold is_addr. cbn. lia.
Qed.

(** The database between transactions. *)
Definition db_ok (s : stateDB) : Prop := s_inv s /\ world_ok (s_view s).

Lemma endTransaction_ok config number s : db_ok s ->
  runs (endTransaction config number) s (fun _ s' => db_ok s' /\ supply (s_view s') <= supply (s_view s)).
Proof.
  intros [Hi Hw]. unfold endTransaction, IntermediateRoot. split_if.
  - apply runs_bind. eapply runs_mono; [by apply Finalise_world|]. intros _ s' (H1 & H2 & H3). apply runs_ret. by split.
  - apply runs_bind, runs_bind. eapply runs_mono; [by apply Finalise_world|]. intros _ s' (H1 & H2 & H3).
    apply runs_bind, runs_get, runs_ret, runs_ret. by split.
Qed.

(** The invariant of a block that may use [limit] gas. *)
Record block_inv (limit : Z) (b : BlockState) : Prop := {
  bi_db : db_ok (bs_db b);
  bi_used : 0 <= bs_usedGas b;
  bi_gas : bs_gp b + bs_usedGas b = limit;
  bi_gp : 0 <= bs_gp b;
  bi_limit : limit < 2 ^ 64
}.

Definition b_supply (b : BlockState) : Z := supply (s_view (bs_db b)).

(** What a receipt says about the transaction that led from [b] to [b']. *)
Record receipt_of (tx : Transaction) (b b' : BlockState) (r : Receipt) : Prop := {
  ro_tx : r_TxHash r = tx_Hash tx;
  ro_gas : 0 <= r_GasUsed r <= tx_GasLimit tx;
  ro_total : r_CumulativeGasUsed r = bs_usedGas b + r_GasUsed r;
  ro_after : bs_usedGas b' = r_CumulativeGasUsed r;
  ro_bloom : r_Bloom r = receiptsBloom [r_Logs r];
  ro_word : is_u64 (r_CumulativeGasUsed r)
}.

Lemma ApplyTransaction_ok config author header tx cfg limit b :
  tx_fits tx -> header_fits header -> (forall a, author = Some a -> is_addr a) -> block_inv limit b ->
  runs (ApplyTransaction config author header tx cfg) b (fun res b' =>
    b_supply b' <= b_supply b /\
    match res with
    | inl _ => db_ok (bs_db b')
    | inr r => block_inv limit b' /\ receipt_of tx b b' r
    end).
Proof.
  intros Ht Hh Ha Hb. pose proof Hb as [[Hi Hw] Hu Hg Hgp Hl]. unfold ApplyTransaction.
  destruct (AsMessage_ok (MakeSigner config (h_Number header)) tx Ht) as (res & Em & Hm). rewrite Em. apply runs_bind, runs_must. eexists. split; [done|].
  destruct res as [e|msg]; [apply runs_ret; split; [done|by split]|]. destruct Hm as [Hm Hp].
  apply runs_bind, runs_get, runs_bind.
  assert (msg_Gas msg = tx_GasLimit tx) as Hgas.
  { revert Em. unfold AsMessage. destruct (signer_Sender _ _) as [[?|?]|]; try done. by intros [= <-]. }
  assert (evm_ok (newEVM (bs_db b))) as Hevm.
  { split; cbn; [done|done|unfold is_u64; lia|done|vm_compute; split; discriminate]. }
  destruct (TransitionDb_ok (vmEnv config cfg msg header author) msg (mkTxState (newEVM (bs_db b)) (bs_gp b) 0 0))
    as ([[[ret_ gas] failed] err] & t & Et & Htx & Hpost); [by apply vmEnv_ok|done|done|done|unfold is_u64; cbn; lia|done|].
  unfold lift, ApplyMessage. rewrite Et. exists ((ret_, gas, failed, err), t), b. split; [done|]. cbn beta iota.
  apply runs_bind. exists tt, (mkBlockState (e_StateDB (t_evm t)) (t_gp t) (bs_usedGas b)). split; [done|].
  assert (db_ok (e_StateDB (t_evm t))) as Hdb by (split; apply Htx).
  destruct err as [e|].
  { apply runs_ret. split; [|done]. unfold b_supply. cbn [bs_db]. destruct Hpost as (_ & _ & Hr). exact (refused_supply _ _ _ _ _ Hr). }
  destruct Hpost as [A1 A2 A3 A3' A4 A5]. cbn [t_gp t_evm] in *.
  apply runs_bind, runs_zoom. eapply runs_mono; [by apply endTransaction_ok|]. intros root s1 [Hs1 Hle].
  apply runs_bind, runs_modify, runs_bind, runs_get. cbn [bs_usedGas bs_db bs_gp set_bsdb]. rewrite u64_small by (unfold is_u64; lia).
  apply runs_bind, runs_zoom, runs_bind, runs_get, runs_ret. cbn [bs_db set_bsdb bs_gp bs_usedGas].
  destruct (CreateBloom_ok [default [] (s_logs s1 !! tx_Hash tx)]) as [-> _]. apply runs_bind, runs_must. eexists. split; [done|]. apply runs_ret.
  split; [|split].
  - unfold b_supply. cbn [bs_db]. etransitivity; [exact Hle|exact A4].
  - split; cbn [bs_db bs_usedGas bs_gp set_bsdb]; [done|lia..].
  - split; cbn; [done|lia|done|done|done|unfold is_u64; lia].
Qed.

(** ** All transactions *)

(** Receipts whose gas adds up from [used] on. *)
Fixpoint adds_up (used : Z) (l : list Receipt) : Prop :=
  match l with
  | [] => True
  | r :: l => 0 <= r_GasUsed r /\ r_CumulativeGasUsed r = used + r_GasUsed r /\ adds_up (r_CumulativeGasUsed r) l
  end.

Definition totalGas (l : list Receipt) : Z := foldr (fun r total => r_GasUsed r + total) 0 l.

(** What the receipts of [txs] say. *)
Record receipts_of (txs : list Transaction) (used : Z) (l : list Receipt) : Prop := {
  rs_hashes : map r_TxHash l = map tx_Hash txs;
  rs_gas : adds_up used l;
  rs_limits : Forall2 (fun tx r => r_GasUsed r <= tx_GasLimit tx) txs l;
  rs_blooms : Forall (fun r => r_Bloom r = receiptsBloom [r_Logs r] /\ is_u64 (r_CumulativeGasUsed r)) l
}.

Lemma receipts_of_cons tx txs b b' r l : receipt_of tx b b' r -> receipts_of txs (bs_usedGas b') l ->
  receipts_of (tx :: txs) (bs_usedGas b) (r :: l).
Proof.
  intros [R1 [R2 R2'] R3 R4 R5 R6] [S1 S2 S3 S4]. split.
  - cbn [map]. by rewrite R1, S1.
  - cbn [adds_up]. rewrite <- R4. split; [done|]. split; [lia|done].
  - by constructor.
  - by constructor.
Qed.

Lemma processLoop_ok config block cfg limit txs : forall i receipts logs b,
  Forall tx_fits txs -> header_fits (b_header block) -> block_inv limit b ->
  runs (processLoop config block cfg i txs receipts logs) b (fun res b' =>
    b_supply b' <= b_supply b /\
    match res with
    | inl _ => db_ok (bs_db b')
    | inr (receipts', logs') => exists new, receipts' = receipts ++ new /\ logs' = logs ++ concat (map r_Logs new) /\
        block_inv limit b' /\ receipts_of txs (bs_usedGas b) new /\ bs_usedGas b' = bs_usedGas b + totalGas new
    end).
Proof.
  induction txs as [|tx txs IH]; intros i receipts logs b Ht Hh Hb; cbn [processLoop].
  { apply runs_ret. split; [done|]. exists []. rewrite !app_nil_r. split; [done|]. split; [done|]. split; [done|].
    split; [|cbn; lia]. by split; try constructor. }
  apply Forall_cons in Ht as [Ht Hts]. pose proof Hb as [[Hi Hw] Hu Hg Hgp Hl]. apply runs_bind, runs_zoom.
  eapply runs_mono; [by apply Prepare_ok|]. intros _ s1 [Hi1 Hv1]. set (b1 := set_bsdb s1 b).
  assert (b_supply b1 = b_supply b) as Hsup by (unfold b_supply; cbn [b1 set_bsdb bs_db]; by rewrite Hv1).
  assert (block_inv limit b1) as Hb1.
  { split; cbn; [|done..]. split; [done|]. rewrite Hv1. exact Hw. }
  apply runs_bind. eapply runs_mono; [apply (ApplyTransaction_ok _ None _ _ _ limit); try done|]. intros res b2 [Hs2 Hres].
  destruct res as [e|r]; [apply runs_ret; split; [lia|done]|]. destruct Hres as [Hb2 Hr].
  eapply runs_mono; [by apply IH|]. intros [e|[rs ls]] b3 [Hs3 H3]; (split; [lia|]); [done|].
  destruct H3 as (new & -> & -> & Hb3 & Hnew & Hused). exists (r :: new). rewrite <- !app_assoc. split; [done|]. split; [done|].
  split; [done|]. split; [by apply (receipts_of_cons tx txs b1 b2)|].
  destruct Hr as [_ _ R3 R4 _ _]. change (bs_usedGas b1) with (bs_usedGas b) in R3. unfold totalGas in *. cbn [foldr]. lia.
Qed.

Lemma processTransactions_ok config block cfg s :
  header_fits (b_header block) -> Forall tx_fits (b_transactions block) -> db_ok s ->
  runs (processTransactions config block cfg) s (fun res s' => db_ok s' /\ supply (s_view s') <= supply (s_view s) /\
    match res with
    | inl _ => True
    | inr (receipts, logs, used) =>
        receipts_of (b_transactions block) 0 receipts /\ logs = concat (map r_Logs receipts) /\
        used = totalGas receipts /\ used <= h_GasLimit (b_header block)
    end).
Proof.
  intros Hh Ht [Hi Hw]. unfold processTransactions. destruct Hh as [H1 H2 H3 H4]. unfold is_u64 in H3.
  unfold GasPool_AddGas, MaxUint64. replace (0 >? _) with false by lia. rewrite u64_small by (unfold is_u64; lia).
  rewrite Z.add_0_l. apply runs_bind, runs_must. eexists. split; [done|]. apply runs_bind.
  assert (runs (if daoFork config (h_Number (b_header block)) then ApplyDAOHardFork else ret tt) s (fun _ s1 =>
    db_ok s1 /\ supply (s_view s1) = supply (s_view s))) as Hdao.
  { split_if; [|by apply runs_ret]. eapply runs_mono; [by apply dao_fork_moves_balances|]. intros _ s1 (Hi1 & Hs1 & _ & _ & Hnn). split; [|done].
    split; [done|]. destruct Hw as [Hn Hc]. split; [auto|lia]. }
  eapply runs_mono; [exact Hdao|]. intros _ s1 [Hd1 Hs1]. apply runs_bind, runs_get, runs_bind.
  destruct (processLoop_ok config block cfg (h_GasLimit (b_header block)) (b_transactions block) 0 [] []
    (mkBlockState s1 (h_GasLimit (b_header block)) 0)) as (res & b & El & Hsup & Hres); [done|by split|split; cbn; [done|lia..]|].
  unfold lift. rewrite El. exists (res, b), s1. split; [done|]. cbn beta iota. apply runs_bind. exists tt, (bs_db b). split; [done|].
  apply runs_ret. unfold b_supply in Hsup. cbn [bs_db] in Hsup. destruct res as [e|[receipts logs]].
  { split; [done|]. split; [lia|done]. }
  destruct Hres as (new & -> & -> & [Hdb Hu Hg Hgp _] & Hnew & Hused). cbn [app bs_usedGas] in *.
  split; [done|]. split; [lia|]. split; [done|]. split; [done|]. split; lia.
Qed.

(** ** The engine at the end of a block *)

(** Receipts with encodings below a terabyte. *)
Definition receipt_fits (r : Receipt) : Prop := zlen (rlp (itemOf (receiptField r))) < 2 ^ 40.

(** The engine ends a block without losing the database, and creates at most
    [reward]. *)
Definition finalizes (reward : Z) (block : Block) : Prop := forall s receipts,
  db_ok s -> supply (s_view s) + reward < 2 ^ 256 -> receipts_of (b_transactions block) 0 receipts -> Forall receipt_fits receipts ->
  runs (Finalize (b_header block) (b_transactions block) (b_uncles block) receipts) s (fun _ s' =>
    db_ok s' /\ supply (s_view s') <= supply (s_view s) + reward).

(** The receipts that processing leads to fit. *)
Definition receipts_fit (config : ChainConfig) (block : Block) (cfg : VmConfig) (s : stateDB) : Prop := forall receipts logs used s',
  processTransactions config block cfg s = Ret (inr (receipts, logs, used), s') -> Forall receipt_fits receipts.

Lemma Process_ok config block cfg reward s :
  header_fits (b_header block) -> Forall tx_fits (b_transactions block) -> db_ok s -> finalizes reward block ->
  0 <= reward -> supply (s_view s) + reward < 2 ^ 256 -> receipts_fit config block cfg s ->
  runs (Process config block cfg) s (fun res s' => db_ok s' /\
    match res with
    | inl _ => supply (s_view s') <= supply (s_view s)
    | inr (receipts, logs, used) =>
        receipts_of (b_transactions block) 0 receipts /\ logs = concat (map r_Logs receipts) /\
        used = totalGas receipts /\ used <= h_GasLimit (b_header block) /\
        supply (s_view s') <= supply (s_view s) + reward
    end).
Proof.
  intros Hh Ht Hd Hfin H0 Hr Hf. unfold Process. apply runs_bind.
  destruct (processTransactions_ok config block cfg s Hh Ht Hd) as (res & s1 & E1 & Hd1 & Hs1 & Hres).
  exists res, s1. split; [done|]. destruct res as [e|[[receipts logs] used]]; [by apply runs_ret|].
  destruct Hres as (R1 & R2 & R3 & R4). apply runs_bind. eapply runs_mono; [apply Hfin; [done|lia|done|by eapply Hf]|].
  intros _ s2 [Hd2 Hs2]. apply runs_ret. split; [done|]. repeat (split; [done|]). lia.
Qed.
End blocks.
