(* ===== verification/ProcessorTheorems.v ===== *)
(** * Theorems about blocks

    Processing a block under proof of work, what the validator accepts, the hashes
    of ancestors and the choice of the gas limit. *)

From Stdlib Require Import ZArith Lia Bool.
From S2P Require Import Prelude GoMath Rlp RlpStreamSpec TrieHasher Params VmStack VmMemory Opcodes Analysis StateInterface World StateDB JournalSpec FinaliseSpec.
From S2P Require Import Machine Interpreter EvmInv StateTransition Sample BlockTypes RlpTypes Receipts TxSigning Hashimoto Ethash Processor.
From S2P Require Import StateTheorems TrieTheorems RootSpec EthashTheorems ProcessorSpec.
Local Open Scope Z_scope.
Local Open Scope go_scope.

(** ** Assembling a block *)

Section assembling.
Context {K : Sha3}.

Definition receiptBytes (r : Receipt) : list byte := rlp (itemOf (receiptField r)).

(** A receipt that can be encoded. *)
Definition receipt_ok (r : Receipt) : Prop := is_u64 (r_CumulativeGasUsed r) /\ receipt_fits r.

Lemma logs_encodable logs : encodable (FList (map logField logs)).
Proof.
  induction logs as [|l logs IH]; [done|]. split; [|exact IH]. cbn. split; [done|]. split; [|done].
  induction (log_Topics l) as [|t ts IHt]; [done|]. by split.
Qed.

Lemma receiptField_encodable r : receipt_ok r -> encodable (receiptField r).
Proof. intros [Hu _]. pose proof (logs_encodable (r_Logs r)). cbn in *. tauto. Qed.

Lemma receipts_elements receipts : Forall receipt_ok receipts -> zlen receipts < 2 ^ 32 ->
  elements (Receipts_list receipts) (map receiptBytes receipts).
Proof.
  intros Hok Hn. rewrite Forall_forall in Hok. split.
  - cbn. by rewrite length_map.
  - intros i b E. rewrite list_lookup_fmap in E. cbn. destruct (receipts !! i) as [r|] eqn:Er; [|done]. injection E as <-.
    pose proof (Hok r (list_elem_of_lookup_2 _ _ _ Er)) as Hr. rewrite EncodeField_rlp; [done|by apply receiptField_encodable|].
    destruct Hr as [_ Hr]. unfold receipt_fits in Hr. lia.
  - apply Forall_forall. intros b Hb. apply list_elem_of_fmap in Hb as (r & -> & Hin). split; [apply rlp_not_nil|by apply Hok].
  - unfold zlen in *. by rewrite length_map.
Qed.

Lemma root_total l bs : elements l bs -> exists h, DeriveSha l = Ret h.
Proof. intros He. destruct (DeriveSha_ok l bs He) as (p & t & -> & _). by eexists. Qed.

(** What [NewBlock] is given. *)
Record parts_ok (txs : list Transaction) (receipts : list Receipt) : Prop := {
  pa_txs : Forall tx_ok txs;
  pa_count : zlen txs < 2 ^ 32;
  pa_receipts : Forall receipt_ok receipts;
  pa_rcount : zlen receipts < 2 ^ 32
}.

Definition assembledBloom (header : Header) (receipts : list Receipt) : Z :=
  match receipts with [] => h_Bloom header | _ => receiptsBloom (map r_Logs receipts) end.

Lemma NewBlock_ok header txs uncles receipts : parts_ok txs receipts ->
  exists txHash receiptHash,
    DeriveSha (Transactions_list txs) = Ret txHash /\ DeriveSha (Receipts_list receipts) = Ret receiptHash /\
    NewBlock header txs uncles receipts =
      Ret (mkBlock (set_body txHash receiptHash (CalcUncleHash uncles) (assembledBloom header receipts) header) uncles txs).
Proof.
  intros [H1 H2 H3 H4]. destruct (root_total _ _ (txs_elements txs H1 H2)) as [th Et].
  destruct (root_total _ _ (receipts_elements receipts H3 H4)) as [rh Er]. exists th, rh. split; [done|]. split; [done|].
  unfold NewBlock, EmptyRootHash.
  assert ((if zlen txs =? 0 then DeriveSha (Transactions_list []) else DeriveSha (Transactions_list txs)) = Ret th) as ->.
  { by destruct txs. }
  assert ((if zlen receipts =? 0 then DeriveSha (Transactions_list []) else DeriveSha (Receipts_list receipts)) = Ret rh) as ->.
  { by destruct receipts. }
  assert ((if zlen uncles =? 0 then CalcUncleHash [] else CalcUncleHash uncles) = CalcUncleHash uncles) as -> by (by destruct uncles).
  destruct receipts as [|r receipts]; [done|]. destruct (CreateBloom_ok (map r_Logs (r :: receipts))) as [-> _]. done.
Qed.
End assembling.

(** ** The engines end a block *)

Section engines.
Context {K : Sha3} {C : Crypto} {CS : CryptoSizes C} {CI : CodeHashIdeal C}.
Context {D : StateDB.Database} {DOK : DatabaseOk D} {T : AccountTrie} (DB : complete_db).

Lemma IntermediateRoot_ok flag s : db_ok s ->
  runs (IntermediateRoot flag) s (fun root s' => db_ok s' /\ supply (s_view s') <= supply (s_view s) /\
    root = AccountRoot (s_trie s') /\ s_journal s' = newJournal).
Proof.
  intros [Hi Hw]. unfold IntermediateRoot. apply runs_bind. eapply runs_mono; [by apply Finalise_ok|].
  intros _ s' (Hi' & _ & Hj & Hv & _). apply runs_bind, runs_get, runs_ret.
  destruct (finalise_world_ok flag (dirties (s_journal s)) (s_view s) Hw). unfold db_ok. rewrite Hv. done.
Qed.

(** A second time there is nothing to write. *)
Lemma IntermediateRoot_again flag s : db_ok s -> s_journal s = newJournal ->
  runs (IntermediateRoot flag) s (fun root _ => root = AccountRoot (s_trie s)).
Proof.
  intros [Hi Hw] Hj. unfold IntermediateRoot. apply runs_bind. eapply runs_mono; [by apply Finalise_ok|].
  intros _ s' (_ & _ & _ & _ & _ & Ht). apply runs_bind, runs_get, runs_ret. f_equal. apply map_eq. intros a.
  apply Ht. by rewrite Hj.
Qed.

Lemma runs_lift {A} (o : outcome A) a (s : stateDB) (Q : A -> stateDB -> Prop) : o = Ret a -> Q a s -> runs (lift o) s Q.
Proof. intros -> HQ. by exists a, s. Qed.

(** The block that [ethash_Finalize] assembles. *)
Lemma ethash_Finalize_ok config header txs uncles receipts s :
  parts_ok txs receipts -> db_ok s -> Forall (near (h_Number header)) uncles -> (length uncles <= maxUncles)%nat ->
  supply (s_view s) + rewardTotal config header uncles < 2 ^ 256 ->
  exists txHash receiptHash,
  DeriveSha (Transactions_list txs) = Ret txHash /\ DeriveSha (Receipts_list receipts) = Ret receiptHash /\
  runs (ethash_Finalize config header txs uncles receipts) s (fun b s' => db_ok s' /\
    supply (s_view s') <= supply (s_view s) + rewardTotal config header uncles /\ s_journal s' = newJournal /\
    b = mkBlock (set_body txHash receiptHash (CalcUncleHash uncles) (assembledBloom header receipts)
          (set_Root (AccountRoot (s_trie s')) header)) uncles txs).
Proof.
  intros Hp [Hi Hw] Hu Hl Hs.
  destruct (NewBlock_ok header txs uncles receipts Hp) as (th & rh & Et & Er & _). exists th, rh. split; [done|]. split; [done|].
  unfold ethash_Finalize. apply runs_bind. eapply runs_mono; [exact (accumulateRewards_ok (S := stateDB) config header uncles s Hi)|].
  intros _ s1 (Hi1 & Hs1 & Hn1). change (view s1) with (s_view s1) in *. change (view s) with (s_view s) in *.
  apply runs_bind. eapply runs_mono; [apply IntermediateRoot_ok|].
  { split; [done|]. split; [apply Hn1; [done|apply Hw]|lia]. }
  intros root s2 (Hd2 & Hs2 & -> & Hj). set (h := set_Root _ header).
  destruct (NewBlock_ok h txs uncles receipts Hp) as (th' & rh' & Et' & Er' & Eb). rewrite Et in Et'. rewrite Er in Er'.
  injection Et' as <-. injection Er' as <-. eapply runs_lift; [exact Eb|]. split; [done|]. split; [lia|]. by split.
Qed.

Lemma receipts_of_ok txs used receipts : receipts_of txs used receipts -> Forall receipt_fits receipts -> Forall tx_ok txs ->
  zlen txs < 2 ^ 32 -> parts_ok txs receipts.
Proof.
  intros [R1 _ _ R4] Hf Ht Hn. split; [done..| |].
  - rewrite Forall_forall in *. intros r Hr. split; [by apply R4|by apply Hf].
  - apply (f_equal length) in R1. rewrite !length_map in R1. unfold zlen in *. by rewrite R1.
Qed.

Section ethash.
Context {K5 : Sha3_512} {P : PowData} {R : ChainReader} (e : Ethash) (now : Z).

(** consensus/ethash as an engine. *)
Definition ethashEngine : Engine := {|
  Author h := Some (h_Coinbase h);
  eng_VerifyUncles := VerifyUncles e now;
  Finalize := ethash_Finalize Config
|}.

Lemma ethash_finalizes block :
  Forall tx_ok (b_transactions block) -> zlen (b_transactions block) < 2 ^ 32 ->
  Forall (near (h_Number (b_header block))) (b_uncles block) -> (length (b_uncles block) <= maxUncles)%nat ->
  finalizes (E := ethashEngine) (rewardTotal Config (b_header block) (b_uncles block)) block.
Proof.
  intros Ht Hn Hu Hl s receipts Hd Hs Hr Hf.
  destruct (ethash_Finalize_ok Config (b_header block) (b_transactions block) (b_uncles block) receipts s) as (? & ? & _ & _ & H);
    [by eapply receipts_of_ok|done..|].
  eapply runs_mono; [exact H|]. intros b s' (H1 & H2 & _). done.
Qed.
End ethash.
End engines.

(** ** Processing *)

Section theorems.
Context {K : Sha3} {C : Crypto} {CS : CryptoSizes C} {CI : CodeHashIdeal C}.
Context {D : StateDB.Database} {DOK : DatabaseOk D} {T : AccountTrie} (DB : complete_db).
Context {K5 : Sha3_512} {P : PowData} {R : ChainReader} (HO : headers_ok) (e : Ethash) (now : Z).

(** A block whose parts have their widths, with uncles as [VerifyUncles] lets them
    pass. *)
Record block_fits (block : Block) : Prop := {
  bf_header : header_fits (E := ethashEngine e now) (b_header block);
  bf_txs : Forall tx_fits (b_transactions block);
  bf_enc : Forall tx_ok (b_transactions block);
  bf_count : zlen (b_transactions block) < 2 ^ 32;
  bf_near : Forall (near (h_Number (b_header block))) (b_uncles block);
  bf_uncles : (length (b_uncles block) <= maxUncles)%nat
}.

(** C11: a block is processed to its end.  On any well-formed state [Process]
    returns, with an error or with results, and leaves a well-formed state.  The
    receipts are those of the transactions in their order, each using at most the
    gas its transaction bought; they add up to the gas used, which is within the
    limit of the block; the logs are those of the receipts, one after the other;
    and of all accounts together no more value exists than before and the rewards
    of the block and its uncles. *)
Theorem block_processed block cfg s :
  block_fits block -> db_ok s ->
  supply (s_view s) + rewardTotal Config (b_header block) (b_uncles block) < 2 ^ 256 ->
  receipts_fit (E := ethashEngine e now) Config block cfg s ->
  runs (Process (E := ethashEngine e now) Config block cfg) s (fun res s' => db_ok s' /\
    match res with
    | inl _ => supply (s_view s') <= supply (s_view s)
    | inr (receipts, logs, used) =>
        receipts_of (b_transactions block) 0 receipts /\ logs = concat (map r_Logs receipts) /\
        used = totalGas receipts /\ used <= h_GasLimit (b_header block) /\
        supply (s_view s') <= supply (s_view s) + rewardTotal Config (b_header block) (b_uncles block)
    end).
Proof.
  intros [F1 F3 F4 F5 F6 F7] Hd Hs Hr. apply Process_ok; try done.
  - by apply ethash_finalizes.
  - by apply rewardTotal_bound.
Qed.

(** ** Validation *)

Lemma ValidateState_ok block receipts used receiptHash s :
  db_ok s -> s_journal s = newJournal -> DeriveSha (Receipts_list receipts) = Ret receiptHash ->
  runs (ValidateState Config block receipts used) s (fun r _ => r = None <->
    h_GasUsed (b_header block) = used /\ h_Bloom (b_header block) = receiptsBloom (map r_Logs receipts) /\
    h_ReceiptHash (b_header block) = receiptHash /\ h_Root (b_header block) = AccountRoot (s_trie s)).
Proof.
  intros Hd Hj Er. unfold ValidateState. destruct (Z.eqb_spec (h_GasUsed (b_header block)) used) as [E1|E1]; cbn [negb].
  2: { apply runs_ret. intuition congruence. }
  destruct (CreateBloom_ok (map r_Logs receipts)) as [-> _]. apply runs_bind, runs_must. eexists. split; [done|].
  destruct (Z.eqb_spec (receiptsBloom (map r_Logs receipts)) (h_Bloom (b_header block))) as [E2|E2]; cbn [negb].
  2: { apply runs_ret. intuition congruence. }
  apply runs_bind. eapply runs_lift; [exact Er|]. cbn beta.
  destruct (Z.eqb_spec receiptHash (h_ReceiptHash (b_header block))) as [E3|E3]; cbn [negb].
  2: { apply runs_ret. intuition congruence. }
  apply runs_bind. eapply runs_mono; [by apply IntermediateRoot_again|]. intros root s' ->. apply runs_ret.
  destruct (Z.eqb_spec (h_Root (b_header block)) (AccountRoot (s_trie s))); cbn [negb]; intuition congruence.
Qed.

Lemma ValidateBody_ok {B : BlockStore} block txHash :
  HasBlockAndState (Block_Hash block) (NumberU64 block) = false ->
  HasBlockAndState (Block_ParentHash block) (u64 (NumberU64 block - 1)) = true ->
  VerifyUncles e now block = Ret None -> DeriveSha (Transactions_list (b_transactions block)) = Ret txHash ->
  exists r, ValidateBody (E := ethashEngine e now) block = Ret r /\
    (r = None <-> h_UncleHash (b_header block) = CalcUncleHash (b_uncles block) /\ h_TxHash (b_header block) = txHash).
Proof.
  intros E1 E2 E3 E4. unfold ValidateBody. rewrite E1, E2. cbn [negb eng_VerifyUncles ethashEngine]. rewrite E3, E4.
  destruct (Z.eqb_spec (CalcUncleHash (b_uncles block)) (h_UncleHash (b_header block))); cbn [negb]; [|eexists; split; [done|]; intuition congruence].
  destruct (Z.eqb_spec txHash (h_TxHash (b_header block))); cbn [negb]; (eexists; split; [done|]; intuition congruence).
Qed.

(** C12: the validator accepts exactly the block that would be assembled.  After
    any transactions with any receipts, let the engine end the block: it
    assembles a block of its own.  [ValidateBody] and [ValidateState] both accept
    the given block exactly when it is that block, with the right gas used and,
    for a block without receipts, an empty bloom filter (which the engine copies
    from the header). *)
Theorem accepted_iff_assembled {B : BlockStore} block receipts used s :
  parts_ok (b_transactions block) receipts -> db_ok s ->
  Forall (near (h_Number (b_header block))) (b_uncles block) -> (length (b_uncles block) <= maxUncles)%nat ->
  supply (s_view s) + rewardTotal Config (b_header block) (b_uncles block) < 2 ^ 256 ->
  HasBlockAndState (Block_Hash block) (NumberU64 block) = false ->
  HasBlockAndState (Block_ParentHash block) (u64 (NumberU64 block - 1)) = true ->
  VerifyUncles e now block = Ret None ->
  exists assembled s1 body state s2,
    ethash_Finalize Config (b_header block) (b_transactions block) (b_uncles block) receipts s = Ret (assembled, s1) /\
    ValidateBody (E := ethashEngine e now) block = Ret body /\
    ValidateState Config block receipts used s1 = Ret (state, s2) /\
    (body = None /\ state = None <->
     assembled = block /\ h_GasUsed (b_header block) = used /\ (receipts = [] -> h_Bloom (b_header block) = 0)).
Proof.
  intros Hp Hd Hu Hl Hs E1 E2 E3.
  destruct (ethash_Finalize_ok DB Config (b_header block) (b_transactions block) (b_uncles block) receipts s Hp Hd Hu Hl Hs)
    as (th & rh & Et & Er & b & s1 & Ef & Hd1 & _ & Hj & ->).
  destruct (ValidateBody_ok block th E1 E2 E3 Et) as (body & Eb & Hb).
  destruct (ValidateState_ok block receipts used rh s1 Hd1 Hj Er) as (state & s2 & Ev & Hv).
  eexists _, s1, body, state, s2. split; [exact Ef|]. split; [done|]. split; [done|]. rewrite Hb, Hv. clear.
  destruct block as [[] uncles txs]. cbn. unfold set_body, set_Root. cbn. split.
  - intros [[-> ->] (-> & -> & -> & ->)]. split; [|split; [done|by intros ->]]. by destruct receipts.
  - intros (E & -> & H0). destruct receipts as [|r receipts]; cbn in E; injection E; intros; subst; [|done].
    by rewrite H0.
Qed.
End theorems.

(** ** The hashes of ancestors *)

(** The calls of one EVM context: the closure keeps its cache. *)
Fixpoint queries {R : ChainReader} (ref : Header) (cache : option (gmap Z Hash)) (ns : list Z) : outcome (list Hash) :=
  match ns with
  | [] => Ret []
  | n :: ns =>
      match GetHashFn ref cache n with
      | Ret (h, cache) =>
          match queries ref (Some cache) ns with Ret hs => Ret (h :: hs) | Panic => Panic | OutOfFuel => OutOfFuel end
      | Panic => Panic
      | OutOfFuel => OutOfFuel
      end
  end.

Lemma queries_ok {R : ChainReader} (HO : headers_ok) ref ns : 0 <= h_Number ref < 2 ^ 63 -> Forall (fun n => 0 <= n < 2 ^ 63) ns ->
  forall cache, match cache with Some c => cached ref c | None => True end -> queries ref cache ns = Ret (map (blockHash ref) ns).
Proof.
  intros HN. induction 1 as [|n ns Hn _ IH]; intros cache Hc; [done|]. cbn [queries map].
  destruct (GetHashFn_cached HO ref cache n HN Hn Hc) as (c & -> & Hc'). by rewrite IH.
Qed.

(** [BLOCKHASH] sees the ancestors.  Whatever numbers a block asks for, in
    whatever order, each answer of the function that [GetHashFn] returns is the
    hash of the ancestor with that number, reached from the block by parent
    hashes; it is zero for the block itself, for later numbers and where the chain
    has no more headers.  The cache, filled in passing, never changes an answer,
    and the walk ends. *)
Theorem blockhash_ancestors {R : ChainReader} (HO : headers_ok) ref ns :
  0 <= h_Number ref < 2 ^ 63 -> Forall (fun n => 0 <= n < 2 ^ 63) ns ->
  queries ref None ns = Ret (map (blockHash ref) ns).
Proof. intros HN Hns. by apply queries_ok. Qed.

(** ** The gas limit *)

(** A miner's gas limit passes verification.  For a parent that used at most
    its limit, of at least 6144, and any target, [CalcGasLimit] gives a limit that
    keeps the rule of [verifyHeader] (less than a 1024th away from the parent's, at
    least the minimum); it never moves away from a target that the parent's limit
    has not reached, and never overshoots it. *)
Theorem gas_limit_strategy target parent :
  let gl := h_GasLimit (b_header parent) in
  6144 <= gl < 2 ^ 62 -> 0 <= h_GasUsed (b_header parent) <= gl -> is_u64 target ->
  let limit := CalcGasLimit target parent in
  Z.abs (gl - limit) < gl / GasLimitBoundDivisor /\ MinGasLimit <= limit < 2 ^ 63 /\
  (gl <= target -> gl <= limit) /\ (limit > gl + gl / GasLimitBoundDivisor / 2 + 2 -> limit <= target).
Proof.
  intros gl Hgl Hu Ht limit. unfold limit, CalcGasLimit, GasLimitBoundDivisor, MinGasLimit, is_u64 in *. clear limit. fold gl.
  set (used := h_GasUsed (b_header parent)) in *. clearbody used gl.
  assert (0 <= used / 2 <= used) as H2 by (Z.to_euclidean_division_equations; lia).
  rewrite (u64_small (used + used / 2)) by (unfold is_u64; lia).
  assert (0 <= (used + used / 2) / 1024 <= gl / 1024 + gl / 1024 / 2 + 1) as Hc by (Z.to_euclidean_division_equations; lia).
  set (contrib := (used + used / 2) / 1024) in *. clearbody contrib.
  assert (6 <= gl / 1024 /\ 1024 * (gl / 1024) <= gl /\ 2 * (gl / 1024 / 2) <= gl / 1024) as Hq by (Z.to_euclidean_division_equations; lia). set (q := gl / 1024) in *. clearbody q.
  rewrite (u64_small (q - 1)) by (unfold is_u64; lia).
  rewrite (u64_small (gl - (q - 1))) by (unfold is_u64; lia).
  rewrite (u64_small (gl - (q - 1) + contrib)) by (unfold is_u64; lia). rewrite (u64_small (gl + (q - 1))) by (unfold is_u64; lia).
  replace (gl - (q - 1) + contrib <? 5000) with false by lia.
  repeat match goal with |- context [if ?b then _ else _] => destruct b eqn:? end; lia.
Qed.

(** Close to the minimum the bound is missed: a full parent with a limit of 5000
    gets a limit that [verifyHeader] refuses, when the target asks for no more. *)
Example gas_limit_near_minimum :
  let parent := mkBlock (mkHeader 0 0 0 0 0 0 0 131072 1 5000 5000 10 [] 0 0) [] [] in
  CalcGasLimit 5000 parent = 5004 /\ 5000 / GasLimitBoundDivisor = 4.
Proof. by vm_compute. Qed.

(** ** The theorems on a sample *)

Module BlockSample.
#[local] Instance toyHash : Sha3 := toySha3.
#[local] Instance toyHash5 : Sha3_512 := toySha3_512.
#[local] Instance toyPow : PowData := no_pow.

(** The root of the accounts, for want of a better one their number. *)
#[local] Instance countRoot : AccountTrie (C := sampleCrypto) := fun m => Z.of_nat (size m).

(** A chain with one header, the parent. *)
Definition theParent : Header := mkHeader 55 2 3 4 5 6 0 200000 9 8000000 21000 990 [] 0 1.

#[local] Instance theChain : ChainReader := {|
  Config := TestChainConfig;
  GetHeader h n := if bool_decide (h = 56 /\ n = 9) then Some theParent else None;
  GetBlock h n := None
|}.

Lemma theChain_ok : headers_ok.
Proof. split; intros h n hd; cbn; case_bool_decide as E; intros [= <-]; [by destruct E as [_ ->]|by vm_compute]. Qed.

(** Account 101 sends 5 wei to account 102, which stores a word. *)
Definition theTx : Transaction := mkTx 7 1 50000 (Some 102) 5 [] 27 1 1.

Definition theBlock : Block :=
  mkBlock (mkHeader 56 (CalcUncleHash []) 109 0 0 0 0 131072 10 8000000 0 1000 [] 0 2) [] [theTx].

Definition theConfig : VmConfig := mkVmConfig false false (fun _ => false).
Definition theEngine : Ethash := mkEthash ModeFake 0 None.

Lemma theBlock_fits : block_fits theEngine 2000 theBlock.
Proof.
  split.
  - split; [done|by vm_compute|by vm_compute|by intros a [= <-]].
  - apply Forall_singleton. split; [done|by vm_compute|by vm_compute|by vm_compute|by intros a [= <-]].
  - apply Forall_singleton. split; [split; [by vm_compute..|by intros a [= <-]]|by vm_compute].
  - by vm_compute.
  - constructor.
  - cbn. unfold maxUncles. lia.
Qed.

Lemma theDB_ok : db_ok sampleDB.
Proof. split; [apply sampleDB_inv|apply sampleWorld_ok]. Qed.

(** What the transaction leaves. *)
Definition theReceipt : Receipt := mkReceipt [] 1 41006 0 [] (tx_Hash theTx) 0 41006.

Definition valueOf {A X} (o : outcome (A * X)) : option A := match o with Ret (a, _) => Some a | _ => None end.

Lemma theReceipt_results :
  valueOf (processTransactions (E := ethashEngine theEngine 2000) TestChainConfig theBlock theConfig sampleDB) =
  Some (inr ([theReceipt], [], 41006)).
Proof. vm_compute. reflexivity. Qed.

Lemma block_processed_witness :
  exists receipts logs used s,
    Process (E := ethashEngine theEngine 2000) TestChainConfig theBlock theConfig sampleDB = Ret (inr (receipts, logs, used), s) /\
    map r_TxHash receipts = [tx_Hash theTx] /\ used = totalGas receipts /\
    supply (s_view s) <= supply (s_view sampleDB) + 3 * 10 ^ 18.
Proof.
  destruct (block_processed sample_complete theChain_ok theEngine 2000 theBlock theConfig sampleDB) as (res & s & E & _ & H).
  - apply theBlock_fits.
  - apply theDB_ok.
  - by vm_compute.
  - intros receipts logs used s' E. pose proof theReceipt_results as Hr. cbn [Config theChain] in E. rewrite E in Hr.
    injection Hr as -> _ _. apply Forall_singleton. by vm_compute.
  - destruct res as [err|[[receipts logs] used]].
    + assert (valueOf (Process (E := ethashEngine theEngine 2000) TestChainConfig theBlock theConfig sampleDB) =
        Some (inr ([theReceipt], [], 41006))) as Hr by (vm_compute; reflexivity). cbn [Config theChain] in E. by rewrite E in Hr.
    + destruct H as ([H1 _ _ _] & _ & H2 & _ & H3). exists receipts, logs, used, s. split; [exact E|]. split; [exact H1|]. split; [exact H2|].
      etransitivity; [exact H3|]. by vm_compute.
Defined.

#[local] Instance theStore : BlockStore := {| HasBlockAndState h n := n =? 9; HasBlock h n := n =? 9 |}.

Lemma accepted_iff_assembled_witness :
  exists assembled s1 body state s2,
    ethash_Finalize Config (b_header theBlock) (b_transactions theBlock) (b_uncles theBlock) [theReceipt] sampleDB = Ret (assembled, s1) /\
    ValidateBody (E := ethashEngine theEngine 2000) theBlock = Ret body /\
    ValidateState Config theBlock [theReceipt] 41006 s1 = Ret (state, s2) /\
    (body = None /\ state = None <->
     assembled = theBlock /\ h_GasUsed (b_header theBlock) = 41006 /\ ([theReceipt] = [] -> h_Bloom (b_header theBlock) = 0)).
Proof.
  apply (accepted_iff_assembled sample_complete theEngine 2000 theBlock [theReceipt] 41006 sampleDB).
  - split; [apply theBlock_fits|by vm_compute| |by vm_compute]. apply Forall_singleton. split; by vm_compute.
  - apply theDB_ok.
  - constructor.
  - cbn. unfold maxUncles. lia.
  - by vm_compute.
  - by vm_compute.
  - by vm_compute.
  - by vm_compute.
Defined.

(** Asked for the blocks 8, 9 and 10 and the future, in this order. *)
Lemma blockhash_ancestors_witness : queries (b_header theBlock) None [8; 9; 10; 11; 8; 7] = Ret [55; 56; 0; 0; 55; 0].
Proof.
  rewrite (blockhash_ancestors theChain_ok (b_header theBlock) [8; 9; 10; 11; 8; 7]).
  - by vm_compute.
  - cbn. lia.
  - apply (bool_decide_unpack _). by vm_compute.
Defined.

Lemma gas_limit_strategy_witness :
  let limit := CalcGasLimit 10000000 theBlock in Z.abs (8000000 - limit) < 7812 /\ 8000000 <= limit.
Proof.
  destruct (gas_limit_strategy 10000000 theBlock) as (H1 & _ & H2 & _).
  - by vm_compute.
  - by vm_compute.
  - by vm_compute.
  - split; [exact H1|]. apply H2. by vm_compute.
Defined.
End BlockSample.
