(* ===== verification/HeaderChainTheorems.v ===== *)
(** * Theorems about the header chain

    The chain as a set of headers with their total difficulties, of which one
    branch is canonical ([view]); [stored] says that the key-value store and the
    caches hold exactly that.  On top of it a [forest] is what [WriteHeader] should
    maintain ([write]): the known headers and one of the heaviest.

    Claims: the chain is a forest, [SetHead] cuts its canonical branch, chains
    from the network are inserted whole or refused for a reason, and ancestors
    are found. *)

From Stdlib Require Import ZArith Lia Bool.
From S2P Require Import Prelude GoMath Rlp RlpStreamSpec TrieNode TrieDatabase TrieHasher StateInterface BlockTypes RlpTypes Receipts HeaderChain TrieTheorems.
Local Open Scope Z_scope.
Local Open Scope go_scope.

(** ** Keys *)

Inductive key :=
| KHeader (n : Z) (x : Hash) | KTd (n : Z) (x : Hash) | KCanon (n : Z) | KNumber (x : Hash) | KHead | KHeadBlock.

#[export] Instance key_eq_dec : EqDecision key.
Proof. solve_decision. Defined.

Definition keyBytes (k : key) : list byte :=
  match k with
  | KHeader n x => Raw.headerKey n x
  | KTd n x => Raw.headerTDKey n x
  | KCanon n => Raw.headerHashKey n
  | KNumber x => Raw.headerNumberKey x
  | KHead => Raw.headHeaderKey
  | KHeadBlock => Raw.headBlockKey
  end.

Definition valid (k : key) : Prop :=
  match k with
  | KHeader n x | KTd n x => is_u64 n /\ is_word x
  | KCanon n => is_u64 n
  | KNumber x => is_word x
  | _ => True
  end.

Lemma be_bytes_inj n a b : 0 <= a < 256 ^ Z.of_nat n -> 0 <= b < 256 ^ Z.of_nat n -> be_bytes n a = be_bytes n b -> a = b.
Proof.
  intros Ha Hb E. apply (f_equal SetBytes) in E. rewrite !SetBytes_be_bytes in E by lia. by rewrite !Z.mod_small in E by lia.
Qed.

Lemma number_inj a b : is_u64 a -> is_u64 b -> Raw.encodeBlockNumber a = Raw.encodeBlockNumber b -> a = b.
Proof. intros Ha Hb. by apply be_bytes_inj. Qed.

Lemma hashBytes_inj a b : is_word a -> is_word b -> hashBytes a = hashBytes b -> a = b.
Proof. intros Ha Hb. by apply be_bytes_inj. Qed.

Lemma keyBytes_length k : length (keyBytes k) =
  match k with KHeader _ _ => 41 | KTd _ _ => 42 | KCanon _ => 10 | KNumber _ => 33 | KHead => 10 | KHeadBlock => 9 end%nat.
Proof.
  destruct k; cbn [keyBytes]; unfold Raw.headerKey, Raw.headerTDKey, Raw.headerHashKey, Raw.headerNumberKey, Raw.headerKey, Raw.encodeBlockNumber, hashBytes;
    rewrite ?length_app, ?length_be_bytes; done.
Qed.

Lemma headerKey_inj n x n' x' : is_u64 n -> is_u64 n' -> is_word x -> is_word x' ->
  Raw.headerKey n x = Raw.headerKey n' x' -> n = n' /\ x = x'.
Proof.
  intros ???? E. unfold Raw.headerKey in E. apply app_inj_1 in E as [E1 E2]; [|unfold Raw.encodeBlockNumber; by rewrite !length_app, !length_be_bytes].
  apply (inj (app _)) in E1. by apply number_inj in E1; apply hashBytes_inj in E2.
Qed.

(** No two keys of the schema are the same string. *)
Lemma keyBytes_inj k1 k2 : valid k1 -> valid k2 -> keyBytes k1 = keyBytes k2 -> k1 = k2.
Proof.
  intros H1 H2 E. pose proof (f_equal length E) as El. rewrite !keyBytes_length in El.
  destruct k1 as [n x|n x|n|x| |], k2 as [n' x'|n' x'|n'|x'| |]; try discriminate; cbn [keyBytes valid] in *; try done.
  - destruct H1, H2. apply headerKey_inj in E as [-> ->]; done.
  - destruct H1, H2. apply (inj (fun l => l ++ _)) in E. apply headerKey_inj in E as [-> ->]; done.
  - apply (inj (fun l => l ++ _)) in E. apply (inj (app _)) in E. f_equal. by apply number_inj.
  - apply (inj (app _)) in E. f_equal. by apply hashBytes_inj.
Qed.

Lemma at_put (d : Mem.db) k1 v k2 : valid k1 -> valid k2 ->
  <[keyBytes k1 := v]> d !! keyBytes k2 = if decide (k1 = k2) then Some v else d !! keyBytes k2.
Proof.
  intros H1 H2. destruct (decide (k1 = k2)) as [->|Hn]; [apply lookup_insert_eq|].
  apply lookup_insert_ne. intros E. by apply Hn, keyBytes_inj.
Qed.

(** A batch of deletions. *)
Definition dels (ks : list key) : list (list byte * option (list byte)) := map (fun k => (keyBytes k, None)) ks.

Lemma dels_app l k : dels (l ++ k) = dels l ++ dels k.
Proof. apply map_app. Qed.

Lemma at_dels ks : forall (d : Mem.db) k, Forall valid ks -> valid k ->
  fold_left Mem.applyWrite (dels ks) d !! keyBytes k = if decide (k ∈ ks) then None else d !! keyBytes k.
Proof.
  induction ks as [|k1 ks IH]; intros d k Hks Hk; cbn; [by rewrite decide_False by apply not_elem_of_nil|].
  inversion_clear Hks as [|? ? H1 H2]. rewrite IH by done.
  destruct (decide (k ∈ ks)) as [Hi|Hi]; [by rewrite decide_True by (by apply elem_of_cons; right)|].
  unfold Mem.applyWrite. cbn [fst snd]. destruct (decide (k = k1)) as [->|Hn].
  - rewrite decide_True by (by apply elem_of_cons; left). apply lookup_delete_eq.
  - rewrite decide_False by (by intros [?|?]%elem_of_cons). apply lookup_delete_ne. intros E. by apply Hn, keyBytes_inj.
Qed.

(** ** The cache *)

Section lru.
Context {V : Type}.
Implicit Types (c : LRU.t V) (l : list (Hash * V)).

Lemma items_filter x y l : x <> y -> LRU.items x (List.filter (fun kv => negb (fst kv =? y)) l) = LRU.items x l.
Proof.
  intros Hn. induction l as [|[k v] l IH]; [done|]. cbn. destruct (Z.eqb_spec k y) as [->|Hk]; cbn.
  - rewrite IH. by destruct (Z.eqb_spec y x); [subst|].
  - by destruct (k =? x).
Qed.

Lemma Get_items x c : let r := LRU.Get x c in
  r.1 = LRU.items x (LRU.evictList c) /\ forall y, LRU.items y (LRU.evictList r.2) = LRU.items y (LRU.evictList c).
Proof.
  cbn. unfold LRU.Get. destruct (LRU.items x (LRU.evictList c)) as [v|] eqn:E; cbn; [|done]. split; [done|]. intros y.
  destruct (Z.eqb_spec x y) as [<-|Hn]; [done|]. by apply items_filter.
Qed.

Lemma items_removelast x v l : LRU.items x (removelast l) = Some v -> LRU.items x l = Some v.
Proof.
  induction l as [|[k w] l IH]; [done|]. cbn. destruct l as [|kv l]; [done|].
  change (removelast ((k, w) :: kv :: l)) with ((k, w) :: removelast (kv :: l)). cbn [LRU.items] in *.
  destruct (k =? x); [done|]. apply IH.
Qed.

Lemma Add_items x v c y w : LRU.items y (LRU.evictList (LRU.Add x v c)) = Some w ->
  (y = x /\ w = v) \/ LRU.items y (LRU.evictList c) = Some w.
Proof.
  unfold LRU.Add. destruct (LRU.items x (LRU.evictList c)) as [v'|] eqn:E; cbn.
  - destruct (Z.eqb_spec x y) as [<-|Hn]; [intros [= ->]; by left|]. rewrite items_filter by done. by right.
  - intros H. assert (LRU.items y ((x, v) :: LRU.evictList c) = Some w) as H'.
    { destruct (_ >? _); [by apply items_removelast|done]. }
    cbn in H'. destruct (Z.eqb_spec x y) as [<-|Hn]; [injection H' as ->; by left|by right].
Qed.

End lru.

(** ** What is stored *)

Section chain.
Context {K : Sha3}.

(** The headers known by hash, with their total difficulties. *)
Abbreviation headers := (gmap Hash (Header * Z)).

(** The known headers, the canonical hash of each number, the current header,
    and the recorded heads. *)
Record view := mkView {
  v_known : headers;
  v_canon : Z -> option Hash;
  v_current : option Header;
  v_hash : Hash;
  v_top : option Hash;
  v_block : option Hash;
  v_genesis : option Header
}.

Definition entry (v : view) (k : key) : option (list byte) :=
  match k with
  | KHeader n x => '(h, _) ← v_known v !! x; if h_Number h =? n then Some (rlp (itemOf (headerField h))) else None
  | KTd n x => '(h, td) ← v_known v !! x; if h_Number h =? n then Some (rlp (itemOf (FBig td))) else None
  | KCanon n => hashBytes <$> v_canon v n
  | KNumber x => '(h, _) ← v_known v !! x; Some (be_bytes 8 (h_Number h))
  | KHead => hashBytes <$> v_top v
  | KHeadBlock => hashBytes <$> v_block v
  end.

Record stored (v : view) (s : HeaderChain) : Prop := {
  st_db : forall k, valid k -> hc_chainDb s !! keyBytes k = entry v k;
  st_headers : forall x h, LRU.items x (LRU.evictList (hc_headerCache s)) = Some h -> exists td, v_known v !! x = Some (h, td);
  st_tds : forall x td, LRU.items x (LRU.evictList (hc_tdCache s)) = Some td -> exists h, v_known v !! x = Some (h, td);
  st_numbers : forall x n, LRU.items x (LRU.evictList (hc_numberCache s)) = Some n -> exists h td, v_known v !! x = Some (h, td) /\ n = h_Number h;
  st_current : hc_currentHeader s = v_current v;
  st_hash : hc_currentHeaderHash s = v_hash v;
  st_genesis : hc_genesisHeader s = v_genesis v
}.

(** A header that can be stored: its fields have the sizes of the format, and
    its number and difficulty those of the protocol. *)
Record header_fits (h : Header) : Prop := {
  hf_ok : header_ok h;
  hf_size : zlen (rlp (itemOf (headerField h))) < 2 ^ 62;
  hf_number : h_Number h < 2 ^ 64 - 1;
  hf_difficulty : h_Difficulty h < 2 ^ 256
}.

Record view_ok (v : view) : Prop := {
  vo_known : forall x h td, v_known v !! x = Some (h, td) ->
    header_fits h /\ x = Header_Hash h /\ x <> 0 /\ 0 <= td <= (h_Number h + 1) * 2 ^ 256;
  vo_canon : forall n x, v_canon v n = Some x -> exists h td, v_known v !! x = Some (h, td) /\ h_Number h = n
}.

Lemma fits_number h : header_fits h -> is_u64 (h_Number h).
Proof. intros H. pose proof (hk_Number h (hf_ok h H)). pose proof (hf_number h H). unfold is_u64. lia. Qed.

Lemma hash_word h : is_word (Header_Hash h).
Proof. unfold Header_Hash, rlpHash, is_word, BytesToHash. repeat case_match; apply Z.mod_pos_bound; lia. Qed.

Lemma BytesToHash_bytes x : is_word x -> BytesToHash (hashBytes x) = x.
Proof.
  intros H. unfold is_word in H. unfold BytesToHash, hashBytes. rewrite SetBytes_be_bytes by lia. rewrite (Z.mod_small x) by done. by apply Z.mod_small.
Qed.

Lemma known_word v x p : view_ok v -> v_known v !! x = Some p -> is_word x.
Proof. intros Hv E. destruct p as [h td]. destruct (vo_known v Hv x h td E) as (_ & -> & _). apply hash_word. Qed.

Lemma hashBytes_cons x : exists b l, hashBytes x = b :: l.
Proof. destruct (hashBytes x) as [|b l] eqn:E; [|by eexists _, _]. apply (f_equal length) in E. by unfold hashBytes in E; rewrite length_be_bytes in E. Qed.

Lemma readHash_ok v s k o : stored v s -> valid k -> entry v k = hashBytes <$> o -> (forall x, o = Some x -> is_word x) ->
  Raw.readHash (keyBytes k) (hc_chainDb s) = default 0 o.
Proof.
  intros Hs Hk E Hw. unfold Raw.readHash, Mem.Get. rewrite (st_db v s Hs k Hk), E. destruct o as [x|]; [|done]. cbn [fmap option_fmap option_map].
  destruct (hashBytes_cons x) as (b & l & Eb). rewrite Eb, <- Eb. apply BytesToHash_bytes. by apply Hw.
Qed.

Lemma canonical_ok v s n : view_ok v -> stored v s -> is_u64 n -> Raw.ReadCanonicalHash (hc_chainDb s) n = default 0 (v_canon v n).
Proof.
  intros Hv Hs Hn. apply (readHash_ok v s (KCanon n)); try done. intros x E.
  destruct (vo_canon v Hv n x E) as (h & td & E' & _). by eapply known_word.
Qed.

(** ** Reads

    They may fill the caches and change nothing else. *)

Lemma stored_headerCache v s c : stored v s ->
  (forall x h, LRU.items x (LRU.evictList c) = Some h -> exists td, v_known v !! x = Some (h, td)) -> stored v (set_headerCache c s).
Proof. intros [] Hc. by split. Qed.

Lemma stored_tdCache v s c : stored v s ->
  (forall x td, LRU.items x (LRU.evictList c) = Some td -> exists h, v_known v !! x = Some (h, td)) -> stored v (set_tdCache c s).
Proof. intros [] Hc. by split. Qed.

Lemma stored_numberCache v s c : stored v s ->
  (forall x n, LRU.items x (LRU.evictList c) = Some n -> exists h td, v_known v !! x = Some (h, td) /\ n = h_Number h) ->
  stored v (set_numberCache c s).
Proof. intros [] Hc. by split. Qed.

Lemma fromCache_runs {V} (g : HeaderChain -> LRU.t V) st x s (P : option V -> HeaderChain -> Prop) :
  P (LRU.Get x (g s)).1 (st (LRU.Get x (g s)).2 s) -> runs (fromCache g st x) s P.
Proof. intros H. unfold runs, fromCache. destruct (LRU.Get x (g s)) as [r c]. by exists r, (st c s). Qed.

Lemma header_cached v s x : stored v s ->
  runs (fromCache hc_headerCache set_headerCache x) s (fun r s' => r = LRU.items x (LRU.evictList (hc_headerCache s)) /\ stored v s').
Proof.
  intros Hs. apply fromCache_runs. destruct (Get_items x (hc_headerCache s)) as [-> Hg]. split; [done|].
  apply stored_headerCache; [done|]. intros y h. rewrite Hg. by apply st_headers.
Qed.

Lemma td_cached v s x : stored v s ->
  runs (fromCache hc_tdCache set_tdCache x) s (fun r s' => r = LRU.items x (LRU.evictList (hc_tdCache s)) /\ stored v s').
Proof.
  intros Hs. apply fromCache_runs. destruct (Get_items x (hc_tdCache s)) as [-> Hg]. split; [done|].
  apply stored_tdCache; [done|]. intros y h. rewrite Hg. by apply st_tds.
Qed.

Lemma number_cached v s x : stored v s ->
  runs (fromCache hc_numberCache set_numberCache x) s (fun r s' => r = LRU.items x (LRU.evictList (hc_numberCache s)) /\ stored v s').
Proof.
  intros Hs. apply fromCache_runs. destruct (Get_items x (hc_numberCache s)) as [-> Hg]. split; [done|].
  apply stored_numberCache; [done|]. intros y h. rewrite Hg. by apply st_numbers.
Qed.

Lemma runs_lifted {A} (o : outcome A) a s (P : A -> HeaderChain -> Prop) : o = Ret a -> P a s -> runs (lift o) s P.
Proof. intros -> H. by exists a, s. Qed.

Lemma rlp_cons it : exists b l, rlp it = b :: l.
Proof.
  destruct (rlp it) as [|b l] eqn:E; [|by eexists _, _]. exfalso. destruct it as [b|l]; cbn in E.
  - unfold rlp_string in E. repeat case_match; try done; by apply app_eq_nil in E as [E _]; unfold rlp_head in E; case_match.
  - unfold rlp_list in E. by apply app_eq_nil in E as [E _]; unfold rlp_head in E; case_match.
Qed.

(** [number] is what the code takes for the number of the header. *)
Definition at_number (v : view) (x : Hash) (n : Z) : Prop := forall h td, v_known v !! x = Some (h, td) -> h_Number h = n.

Lemma ReadHeader_ok v s x n : view_ok v -> stored v s -> is_word x -> is_u64 n -> at_number v x n ->
  Raw.ReadHeader (hc_chainDb s) x n = Ret (fst <$> v_known v !! x).
Proof.
  intros Hv Hs Hx Hn Ha. unfold Raw.ReadHeader, Mem.Get. change (Raw.headerKey n x) with (keyBytes (KHeader n x)).
  rewrite (st_db v s Hs) by done. cbn [entry]. destruct (v_known v !! x) as [[h td]|] eqn:E; [|done]. cbn [mbind option_bind fmap option_fmap option_map fst].
  rewrite (Ha h td E), Z.eqb_refl. destruct (rlp_cons (itemOf (headerField h))) as (b & l & Eb). rewrite Eb, <- Eb.
  destruct (vo_known v Hv x h td E) as (Hh & _). pose proof (hf_size h Hh). rewrite <- (app_nil_r (rlp _)).
  apply DecodeHeader_back; [apply Hh|by rewrite app_nil_r].
Qed.

Lemma td_size td n : 0 <= n < 2 ^ 64 -> 0 <= td <= (n + 1) * 2 ^ 256 -> zlen (rlp (itemOf (FBig td))) < 2 ^ 62.
Proof.
  intros Hn Ht. assert (zlen (Bytes td) <= 41) as Hz.
  { apply zlen_Bytes_le; [lia|]. change (256 ^ 41) with (2 ^ 328). nia. }
  cbn [itemOf]. pose proof (zlen_rlp_short (Bytes td)). lia.
Qed.

Lemma ReadTd_ok v s x n : view_ok v -> stored v s -> is_word x -> is_u64 n -> at_number v x n ->
  Raw.ReadTd (hc_chainDb s) x n = Ret (snd <$> v_known v !! x).
Proof.
  intros Hv Hs Hx Hn Ha. unfold Raw.ReadTd, Mem.Get. change (Raw.headerTDKey n x) with (keyBytes (KTd n x)).
  rewrite (st_db v s Hs) by done. cbn [entry]. destruct (v_known v !! x) as [[h td]|] eqn:E; [|done]. cbn [mbind option_bind fmap option_fmap option_map snd].
  rewrite (Ha h td E), Z.eqb_refl. destruct (rlp_cons (itemOf (FBig td))) as (b & l & Eb). rewrite Eb, <- Eb.
  destruct (vo_known v Hv x h td E) as (Hh & _ & _ & Ht). pose proof (fits_number h Hh) as Hu.
  rewrite <- (app_nil_r (rlp _)). rewrite (Decode_back TBig (itemOf (FBig td)) (FBig td)); [done|done|rewrite app_nil_r; by eapply td_size|].
  apply (parse_itemOf TBig I). cbn. lia.
Qed.

Lemma GetHeader_ok v s x n : view_ok v -> stored v s -> is_word x -> is_u64 n -> at_number v x n ->
  runs (GetHeader x n) s (fun r s' => r = fst <$> v_known v !! x /\ stored v s').
Proof.
  intros Hv Hs Hx Hn Ha. unfold GetHeader. apply runs_bind. eapply runs_mono; [by apply header_cached|]. intros o s1 [-> Hs1].
  destruct (LRU.items x _) as [h|] eqn:E.
  - apply runs_ret. destruct (st_headers v s Hs x h E) as [td ->]. done.
  - run_step. run_step. apply runs_bind. eapply runs_lifted; [by eapply ReadHeader_ok|]. destruct (v_known v !! x) as [[h td]|] eqn:Ek; cbn; [|by apply runs_ret].
    run_step. run_step. apply runs_ret. split; [done|]. apply stored_headerCache; [done|]. intros y h' [[-> ->]|H]%Add_items; [by exists td|by apply (st_headers v s1 Hs1)].
Qed.

Lemma GetTd_ok v s x n : view_ok v -> stored v s -> is_word x -> is_u64 n -> at_number v x n ->
  runs (GetTd x n) s (fun r s' => r = snd <$> v_known v !! x /\ stored v s').
Proof.
  intros Hv Hs Hx Hn Ha. unfold GetTd. apply runs_bind. eapply runs_mono; [by apply td_cached|]. intros o s1 [-> Hs1].
  destruct (LRU.items x _) as [td|] eqn:E.
  - apply runs_ret. destruct (st_tds v s Hs x td E) as [h ->]. done.
  - run_step. run_step. apply runs_bind. eapply runs_lifted; [by eapply ReadTd_ok|]. destruct (v_known v !! x) as [[h td]|] eqn:Ek; cbn; [|by apply runs_ret].
    run_step. run_step. apply runs_ret. split; [done|]. apply stored_tdCache; [done|]. intros y h' [[-> ->]|H]%Add_items; [by exists h|by apply (st_tds v s1 Hs1)].
Qed.

Lemma GetBlockNumber_ok v s x : view_ok v -> stored v s -> is_word x ->
  runs (GetBlockNumber x) s (fun r s' => r = h_Number ∘ fst <$> v_known v !! x /\ stored v s').
Proof.
  intros Hv Hs Hx. unfold GetBlockNumber. apply runs_bind. eapply runs_mono; [by apply number_cached|]. intros o s1 [-> Hs1].
  destruct (LRU.items x _) as [n|] eqn:E.
  - apply runs_ret. destruct (st_numbers v s Hs x n E) as (h & td & -> & ->). done.
  - run_step. run_step. unfold Raw.ReadHeaderNumber, Mem.Get. change (Raw.headerNumberKey x) with (keyBytes (KNumber x)).
    rewrite (st_db v s1 Hs1) by done. cbn [entry]. destruct (v_known v !! x) as [[h td]|] eqn:Ek; cbn [mbind option_bind fmap option_fmap option_map]; [|by apply runs_ret].
    destruct (vo_known v Hv x h td Ek) as (Hh & _). pose proof (fits_number h Hh) as Hu. unfold is_u64 in Hu.
    unfold zlen. rewrite length_be_bytes. change (Z.of_nat 8 =? 8) with true. cbv iota. rewrite SetBytes_be_bytes by lia. rewrite Z.mod_small by done.
    run_step. run_step. apply runs_ret. split; [done|]. apply stored_numberCache; [done|]. intros y n [[-> ->]|H]%Add_items; [by exists h, td|by apply (st_numbers v s1 Hs1)].
Qed.

Lemma GetHeaderByHash_ok v s x : view_ok v -> stored v s -> is_word x ->
  runs (GetHeaderByHash x) s (fun r s' => r = fst <$> v_known v !! x /\ stored v s').
Proof.
  intros Hv Hs Hx. unfold GetHeaderByHash. apply runs_bind. eapply runs_mono; [by apply GetBlockNumber_ok|]. intros o s1 [-> Hs1].
  destruct (v_known v !! x) as [[h td]|] eqn:E; cbn [fmap option_fmap option_map compose fst]; [|by apply runs_ret].
  rewrite <- (f_equal (fmap fst) E : _ = Some h). apply GetHeader_ok; try done; [apply fits_number, (vo_known v Hv x h td E)|].
  intros h' td' E'. by rewrite E in E'; injection E' as -> ->.
Qed.

Lemma GetTdByHash_ok v s x : view_ok v -> stored v s -> is_word x ->
  runs (GetTdByHash x) s (fun r s' => r = snd <$> v_known v !! x /\ stored v s').
Proof.
  intros Hv Hs Hx. unfold GetTdByHash. apply runs_bind. eapply runs_mono; [by apply GetBlockNumber_ok|]. intros o s1 [-> Hs1].
  destruct (v_known v !! x) as [[h td]|] eqn:E; cbn [fmap option_fmap option_map compose fst snd]; [|by apply runs_ret].
  rewrite <- (f_equal (fmap snd) E : _ = Some td). apply GetTd_ok; try done; [apply fits_number, (vo_known v Hv x h td E)|].
  intros h' td' E'. by rewrite E in E'; injection E' as -> ->.
Qed.

Lemma canon_at v n x : view_ok v -> v_canon v n = Some x -> is_word x /\ x <> 0 /\ at_number v x n.
Proof.
  intros Hv E. destruct (vo_canon v Hv n x E) as (h & td & Ek & Hn). split; [by eapply known_word|].
  split; [apply (vo_known v Hv x h td Ek)|]. intros h' td' E'. rewrite Ek in E'. by injection E' as <- <-.
Qed.

Lemma GetHeaderByNumber_ok v s n : view_ok v -> stored v s -> is_u64 n ->
  runs (GetHeaderByNumber n) s (fun r s' => r = (x ← v_canon v n; fst <$> v_known v !! x) /\ stored v s').
Proof.
  intros Hv Hs Hn. unfold GetHeaderByNumber. run_step. run_step. rewrite (canonical_ok v s n Hv Hs Hn).
  destruct (v_canon v n) as [x|] eqn:E; cbn [default mbind option_bind from_option]; [|by apply runs_ret].
  destruct (canon_at v n x Hv E) as (Hw & H0 & Ha). replace (id x =? 0) with false by (symmetry; by apply Z.eqb_neq). by apply GetHeader_ok.
Qed.


(** ** Ancestors *)

Fixpoint anc (H : headers) (k : nat) (x : Hash) : option Hash :=
  match k with
  | O => Some x
  | S k => '(h, _) ← H !! x; anc H k (h_ParentHash h)
  end.

(** Every header but the genesis has its parent, and adds its difficulty to the
    parent's. *)
Record linked (g : Header) (gtd : Z) (H : headers) : Prop := {
  lk_genesis : H !! Header_Hash g = Some (g, gtd);
  lk_zero : h_Number g = 0;
  lk_parent : forall x h td, H !! x = Some (h, td) -> (h = g /\ td = gtd) \/
    exists p ptd, H !! h_ParentHash h = Some (p, ptd) /\ h_Number h = h_Number p + 1 /\ td = h_Difficulty h + ptd
}.

Lemma anc_add H j k x : anc H (j + k) x = (y ← anc H j x; anc H k y).
Proof. revert x. induction j as [|j IH]; intros x; [done|]. cbn. destruct (H !! x) as [[h td]|]; [apply IH|done]. Qed.

Lemma anc_mono H H' k x y : H ⊆ H' -> anc H k x = Some y -> anc H' k x = Some y.
Proof.
  intros Hi. revert x. induction k as [|k IH]; intros x; [done|]. cbn. destruct (H !! x) as [[h td]|] eqn:E; [|done].
  rewrite (lookup_weaken _ _ _ _ E Hi). apply IH.
Qed.

Lemma anc_known g gtd H : linked g gtd H -> forall k x h td, H !! x = Some (h, td) -> Z.of_nat k <= h_Number h ->
  exists y h' td', anc H k x = Some y /\ H !! y = Some (h', td') /\ h_Number h' = h_Number h - Z.of_nat k.
Proof.
  intros Hl. induction k as [|k IH]; intros x h td E Hk.
  - exists x, h, td. split; [done|]. split; [done|]. lia.
  - cbn [anc]. rewrite E. cbn [mbind option_bind]. destruct (lk_parent g gtd H Hl x h td E) as [[-> _]|(p & ptd & Ep & Hn & _)].
    { pose proof (lk_zero g gtd H Hl). lia. }
    destruct (IH _ p ptd Ep ltac:(lia)) as (y & h' & td' & ? & ? & ?). exists y, h', td'. split; [done|]. split; [done|]. lia.
Qed.

(** The numbers up to [n] given by the ancestors of [x], the others by [c]. *)
Definition upto (H : headers) (x : Hash) (n : Z) (c : Z -> option Hash) (m : Z) : option Hash :=
  if (0 <=? m) && (m <=? n) then anc H (Z.to_nat (n - m)) x else c m.

Definition nothing (m : Z) : option Hash := None.

Lemma upto_known g gtd H x h td m : linked g gtd H -> H !! x = Some (h, td) -> 0 <= m <= h_Number h ->
  exists y h' td', anc H (Z.to_nat (h_Number h - m)) x = Some y /\ H !! y = Some (h', td') /\ h_Number h' = m.
Proof.
  intros Hl E Hm. destruct (anc_known g gtd H Hl (Z.to_nat (h_Number h - m)) x h td E ltac:(lia)) as (y & h' & td' & ? & ? & ?).
  exists y, h', td'. split; [done|]. split; [done|]. lia.
Qed.

(** [c] is a branch as far as it goes. *)
Definition coherent (H : headers) (c : Z -> option Hash) (n : Z) : Prop := forall m y m', 0 <= m' <= m -> m <= n ->
  c m = Some y -> c m' = anc H (Z.to_nat (m - m')) y.

Lemma upto_coherent H x n : coherent H (upto H x n nothing) n.
Proof.
  intros m y m' Hm Hn E. unfold upto in *. rewrite !(proj2 (andb_true_iff _ _)) in * by (rewrite !Z.leb_le; lia).
  replace (Z.to_nat (n - m')) with (Z.to_nat (n - m) + Z.to_nat (m - m'))%nat by lia. by rewrite anc_add, E.
Qed.

(** ** The loops of WriteHeader *)

Definition with_canon (c : Z -> option Hash) (v : view) : view :=
  mkView (v_known v) c (v_current v) (v_hash v) (v_top v) (v_block v) (v_genesis v).

Lemma stored_ext v c s : stored v s -> (forall n, is_u64 n -> c n = v_canon v n) -> stored (with_canon c v) s.
Proof.
  intros Hs Hc. pose proof Hs as []. split; try done. intros k Hk. rewrite (st_db v s Hs k Hk). destruct k as [| |n| | |]; try done.
  cbn. by rewrite Hc.
Qed.

Lemma stored_db v v' s d : stored v s -> (forall k, valid k -> d !! keyBytes k = entry v' k) -> v_known v' = v_known v ->
  v_current v' = v_current v -> v_hash v' = v_hash v -> v_genesis v' = v_genesis v -> stored v' (set_chainDb d s).
Proof. intros [] Hd E1 E2 E3 E4. split; try done; cbn; rewrite ?E1, ?E2, ?E3, ?E4; done. Qed.

Lemma deleteAbove_ok v s top : view_ok v -> stored v s -> (forall m, 0 <= m <= top -> is_Some (v_canon v m)) ->
  (forall m, top < m -> v_canon v m = None) -> top < 2 ^ 64 - 1 -> forall fuel i ks b, 0 <= i < 2 ^ 64 -> top < i + Z.of_nat fuel ->
  Mem.b_writes b = dels ks -> Forall valid ks ->
  exists b' ks', deleteAbove (S fuel) (hc_chainDb s) i b = Ret b' /\ Mem.b_writes b' = dels ks' /\ Forall valid ks' /\
    forall k, k ∈ ks' <-> k ∈ ks \/ exists m, k = KCanon m /\ i <= m <= top.
Proof.
  intros Hv Hs Hin Hout Ht. induction fuel as [|fuel IH]; intros i ks b Hi Hf Eb Hks.
  - cbn [deleteAbove]. rewrite (canonical_ok v s i Hv Hs Hi), Hout by lia. exists b, ks. split; [done|]. split; [done|]. split; [done|].
    intros k. split; [by left|]. intros [|(m & _ & ?)]; [done|lia].
  - remember (S fuel) as f. cbn [deleteAbove]. rewrite (canonical_ok v s i Hv Hs Hi). destruct (decide (top < i)) as [Hti|Hti].
    { rewrite Hout by lia. exists b, ks. split; [done|]. split; [done|]. split; [done|].
      intros k. split; [by left|]. intros [|(m & _ & ?)]; [done|lia]. }
    destruct (Hin i ltac:(lia)) as [x Ex]. rewrite Ex. cbn [default from_option]. destruct (canon_at v i x Hv Ex) as (_ & H0 & _).
    replace (id x =? 0) with false by (symmetry; by apply Z.eqb_neq). rewrite (u64_small (i + 1)) by (unfold is_u64; lia). subst f.
    destruct (IH (i + 1) (ks ++ [KCanon i]) (Raw.DeleteCanonicalHash i b)) as (b' & ks' & E & Ew & Hv' & Hk'); [lia|lia| | |].
    + cbn. by rewrite Eb, dels_app.
    + apply Forall_app. split; [done|]. by constructor.
    + exists b', ks'. split; [done|]. split; [done|]. split; [done|]. intros k. rewrite Hk', elem_of_app, list_elem_of_singleton. split.
      * intros [[?| ->]|(m & -> & ?)]; [by left|right; exists i; split; [done|lia]|right; exists m; split; [done|lia]].
      * intros [?|(m & -> & ?)]; [by left; left|]. destruct (decide (m = i)) as [->|]; [by left; right|]. right. exists m. split; [done|lia].
Qed.

Lemma runs_updateDb f s (P : unit -> HeaderChain -> Prop) : P tt (set_chainDb (f (hc_chainDb s)) s) -> runs (updateDb f) s P.
Proof. intros H. by exists tt, (set_chainDb (f (hc_chainDb s)) s). Qed.

Definition set_canon (n : Z) (x : Hash) (c : Z -> option Hash) (m : Z) : option Hash := if decide (m = n) then Some x else c m.

Lemma stored_set_canon v s n x : stored v s -> is_u64 n ->
  stored (with_canon (set_canon n x (v_canon v)) v) (set_chainDb (Raw.WriteCanonicalHash x n (hc_chainDb s)) s).
Proof.
  intros Hs Hn. apply (stored_db v); [done| |done..]. intros k Hk. unfold Raw.WriteCanonicalHash, Mem.Put.
  change (Raw.headerHashKey n) with (keyBytes (KCanon n)). rewrite at_put by done. rewrite (st_db v s Hs k Hk).
  destruct k as [| |m| | |]; try done. cbn. unfold set_canon. destruct (decide (KCanon n = KCanon m)) as [[= <-]|Hne]; [by rewrite decide_True|].
  rewrite decide_False; [done|]. by intros ->.
Qed.

Lemma in_range a b m : a <= m <= b -> (a <=? m) && (m <=? b) = true.
Proof. intros. apply andb_true_iff. rewrite !Z.leb_le. lia. Qed.

Lemma above_range a b m : b < m -> (a <=? m) && (m <=? b) = false.
Proof. intros. apply andb_false_iff. right. apply Z.leb_gt. lia. Qed.

(** One step of the second loop. *)
Lemma upto_step H x n h td c m : 0 < n -> 0 <= m -> H !! x = Some (h, td) ->
  upto H x n c m = upto H (h_ParentHash h) (n - 1) (set_canon n x c) m.
Proof.
  intros Hn Hm E. unfold upto. destruct (decide (m < n)) as [Hlt|Hge].
  - rewrite !in_range by lia. replace (Z.to_nat (n - m)) with (S (Z.to_nat (n - 1 - m))) by lia. cbn [anc]. by rewrite E.
  - rewrite (above_range 0 (n - 1)) by lia. unfold set_canon. destruct (decide (m = n)) as [->|].
    + rewrite in_range by lia. by rewrite Z.sub_diag.
    + by rewrite above_range by lia.
Qed.

(** A branch that differs from the canonical one at [n] has a parent there. *)
Lemma differs_above_genesis g gtd v x h td n : view_ok v -> linked g gtd (v_known v) -> v_known v !! x = Some (h, td) -> h_Number h = n ->
  v_canon v 0 = Some (Header_Hash g) -> default 0 (v_canon v n) <> x ->
  0 < n /\ exists p ptd, v_known v !! h_ParentHash h = Some (p, ptd) /\ h_Number p = n - 1.
Proof.
  intros Hv Hl E Hn H0 Ec. destruct (vo_known v Hv x h td E) as (_ & Ex & _). destruct (lk_parent g gtd _ Hl x h td E) as [[-> _]|(p & ptd & Ep & Hnp & _)].
  - exfalso. apply Ec. by rewrite <- Hn, (lk_zero g gtd _ Hl), H0, Ex.
  - destruct (vo_known v Hv _ p ptd Ep) as (Hp & _). pose proof (fits_number p Hp) as Hup. unfold is_u64 in Hup.
    split; [lia|]. exists p, ptd. split; [done|lia].
Qed.

Lemma reassign_ok g gtd : forall fuel v s x n h td,
  view_ok v -> linked g gtd (v_known v) -> stored v s -> v_known v !! x = Some (h, td) -> h_Number h = n -> n < Z.of_nat fuel ->
  coherent (v_known v) (v_canon v) n -> v_canon v 0 = Some (Header_Hash g) ->
  runs (reassign fuel x n (Some h)) s (fun _ s' => stored (with_canon (upto (v_known v) x n (v_canon v)) v) s').
Proof.
  induction fuel as [|fuel IH]; intros v s x n h td Hv Hl Hs E Hn Hf Hc H0;
    destruct (vo_known v Hv x h td E) as (Hh & Ex & Hx0 & _); pose proof (fits_number h Hh) as Hu; rewrite Hn in Hu; [unfold is_u64 in Hu; lia|].
  cbn [reassign]. run_step. run_step. rewrite (canonical_ok v s n Hv Hs Hu). destruct (Z.eqb_spec (default 0 (v_canon v n)) x) as [Ec|Ec].
  { apply runs_ret. apply stored_ext; [done|]. intros m Hm. unfold upto. destruct ((0 <=? m) && (m <=? n)) eqn:Eb; [|done]. zbool. symmetry.
    apply Hc; [lia|lia|]. destruct (v_canon v n) as [y|]; cbn in Ec; [by f_equal|]. by subst x. }
  destruct (differs_above_genesis g gtd v x h td n Hv Hl E Hn H0 Ec) as (Hn0 & p & ptd & Ep & Hnp).
  destruct (vo_known v Hv _ p ptd Ep) as (Hp & _). pose proof (fits_number p Hp) as Hup.
  set (v1 := with_canon (set_canon n x (v_canon v)) v). run_step. apply runs_updateDb. pose proof (stored_set_canon v s n x Hs Hu) as Hs1. fold v1 in Hs1.
  assert (view_ok v1) as Hv1.
  { split; [apply Hv|]. intros m y. cbn. unfold set_canon. destruct (decide (m = n)) as [->|]; [intros [= <-]; by exists h, td|apply Hv]. }
  run_step. apply runs_ret. replace (u64 (h_Number h) -u 1) with (n - 1) by (rewrite Hn, (u64_small n Hu); symmetry; apply u64_small; unfold is_u64 in *; lia).
  apply runs_bind. eapply runs_mono; [apply (GetHeader_ok v1)|]; try done.
  - by eapply known_word.
  - by rewrite <- Hnp.
  - intros p' ptd' E'. cbn in E'. rewrite Ep in E'. by injection E' as <- <-.
  - intros r s2 [-> Hs2]. cbn [v_known v1 with_canon]. rewrite Ep. cbn [fmap option_fmap option_map fst].
    eapply runs_mono; [apply (IH v1 s2 _ (n - 1) p ptd)|]; try done.
    + lia.
    + intros m y m' Hm Hm1. cbn. unfold set_canon. rewrite !decide_False by lia. apply Hc; lia.
    + cbn. unfold set_canon. by rewrite decide_False by lia.
    + intros [] s3 Hs3. refine (stored_ext _ _ s3 Hs3 _). intros m [Hm _]. by eapply upto_step.
Qed.

(** ** The specification

    A set of headers and one of the heaviest among them. *)

Record forest := mkForest { f_known : headers; f_head : Header }.

Definition canonOf (F : forest) : Z -> option Hash := upto (f_known F) (Header_Hash (f_head F)) (h_Number (f_head F)) nothing.

Definition viewOf (g : Header) (blk : option Hash) (F : forest) : view :=
  mkView (f_known F) (canonOf F) (Some (f_head F)) (Header_Hash (f_head F)) (Some (Header_Hash (f_head F))) blk (Some g).

Definition headTd (F : forest) : Z := default 0 (snd <$> f_known F !! Header_Hash (f_head F)).

Definition heavier (coin : bool) (td local : Z) : bool := (td >? local) || ((td =? local) && coin).

(** What [WriteHeader] should do. *)
Definition write (coin : bool) (h : Header) (F : forest) : (chainErr + WriteStatus) * forest :=
  match f_known F !! h_ParentHash h with
  | None => (inl ErrUnknownAncestor, F)
  | Some (_, ptd) =>
      let td := h_Difficulty h + ptd in
      let H := <[Header_Hash h := (h, td)]> (f_known F) in
      if heavier coin td (headTd F) then (inr CanonStatTy, mkForest H h) else (inr SideStatTy, mkForest H (f_head F))
  end.

Record tree (g : Header) (gtd : Z) (F : forest) : Prop := {
  tr_known : forall x h td, f_known F !! x = Some (h, td) ->
    header_fits h /\ x = Header_Hash h /\ x <> 0 /\ 0 <= td <= (h_Number h + 1) * 2 ^ 256;
  tr_linked : linked g gtd (f_known F);
  tr_head : f_known F !! Header_Hash (f_head F) = Some (f_head F, headTd F);
  tr_heaviest : forall x h td, f_known F !! x = Some (h, td) -> td <= headTd F
}.

(** A header that may come next: its hash is new, and its number follows that of
    its parent if that is known. *)
Record writable (F : forest) (h : Header) : Prop := {
  wr_fits : header_fits h;
  wr_nonzero : Header_Hash h <> 0;
  wr_new : forall h' td, f_known F !! Header_Hash h = Some (h', td) -> h' = h;
  wr_number : forall p ptd, f_known F !! h_ParentHash h = Some (p, ptd) -> h_Number h = h_Number p + 1
}.

Lemma tree_view g gtd blk F : tree g gtd F -> view_ok (viewOf g blk F).
Proof.
  intros T. split; [apply T|]. intros n x E. cbn in E. unfold canonOf, upto in E. destruct ((0 <=? n) && _) eqn:Eb; [|done]. zbool.
  destruct (upto_known g gtd _ _ _ _ n (tr_linked g gtd F T) (tr_head g gtd F T) ltac:(lia)) as (y & h & td & Ey & Ek & Hn).
  rewrite E in Ey. injection Ey as <-. by exists h, td.
Qed.

Lemma number_zero g gtd F x h td : tree g gtd F -> f_known F !! x = Some (h, td) -> h_Number h = 0 -> x = Header_Hash g.
Proof.
  intros T E Hn. destruct (tr_known g gtd F T x h td E) as (_ & -> & _). destruct (lk_parent g gtd _ (tr_linked g gtd F T) _ h td E) as [[-> _]|(p & ptd & Ep & Hp & _)]; [done|].
  destruct (tr_known g gtd F T _ p ptd Ep) as (Hf & _). pose proof (fits_number p Hf) as Hu. unfold is_u64 in Hu. lia.
Qed.

(** The canonical numbers are those up to the head. *)
Lemma canonOf_in g gtd F m : tree g gtd F -> 0 <= m <= h_Number (f_head F) -> exists x h td, canonOf F m = Some x /\ f_known F !! x = Some (h, td) /\ h_Number h = m.
Proof. intros T Hm. unfold canonOf, upto. rewrite in_range by lia. by eapply upto_known; [apply T|apply (tr_head g gtd F T)|]. Qed.

Lemma canonOf_out F m : h_Number (f_head F) < m -> canonOf F m = None.
Proof. intros Hm. unfold canonOf, upto. by rewrite above_range by lia. Qed.

Lemma canonOf_genesis g gtd F : tree g gtd F -> canonOf F 0 = Some (Header_Hash g).
Proof.
  intros T. destruct (tr_known g gtd F T _ _ _ (tr_head g gtd F T)) as (Hf & _). pose proof (fits_number _ Hf) as Hu. unfold is_u64 in Hu.
  destruct (canonOf_in g gtd F 0 T ltac:(lia)) as (x & h & td & -> & Ek & Hn). f_equal. by eapply number_zero.
Qed.

Section write.
Variables (g : Header) (gtd : Z) (F : forest) (h p : Header) (ptd : Z).
Hypothesis T : tree g gtd F.
Hypothesis W : writable F h.
Hypothesis Ep : f_known F !! h_ParentHash h = Some (p, ptd).
Abbreviation newTd := (h_Difficulty h + ptd).
Abbreviation known' := (<[Header_Hash h := (h, newTd)]> (f_known F)).

Lemma written_number : 1 <= h_Number h /\ h_Number h = h_Number p + 1 /\ is_u64 (h_Number h) /\ is_u64 (h_Number p).
Proof.
  pose proof (wr_number F h W p ptd Ep). destruct (tr_known g gtd F T _ p ptd Ep) as (Hf & _). pose proof (fits_number p Hf) as Hu.
  pose proof (fits_number h (wr_fits F h W)). unfold is_u64 in *. lia.
Qed.

Lemma written_extends : f_known F ⊆ known'.
Proof.
  destruct (f_known F !! Header_Hash h) as [[h' td']|] eqn:E.
  - pose proof (wr_new F h W h' td' E) as ->. destruct (lk_parent g gtd _ (tr_linked g gtd F T) _ h td' E) as [[Eg _]|(q & qtd & Eq & _ & ->)].
    + pose proof (lk_zero g gtd _ (tr_linked g gtd F T)) as Hz. rewrite <- Eg in Hz. destruct written_number. lia.
    + rewrite Ep in Eq. injection Eq as <- <-. by rewrite insert_id.
  - by apply insert_subseteq.
Qed.

Lemma written_known x h1 td1 : known' !! x = Some (h1, td1) -> (x = Header_Hash h /\ h1 = h /\ td1 = newTd) \/ f_known F !! x = Some (h1, td1).
Proof. intros [[<- E]|[_ E]]%lookup_insert_Some; [left; by injection E as <- <-|by right]. Qed.

Lemma written_bounds : 0 <= newTd <= (h_Number h + 1) * 2 ^ 256.
Proof.
  destruct written_number as (_ & Hn & _). destruct (tr_known g gtd F T _ p ptd Ep) as (_ & _ & _ & Ht).
  pose proof (hk_Difficulty h (hf_ok h (wr_fits F h W))). pose proof (hf_difficulty h (wr_fits F h W)). lia.
Qed.

Lemma written_ok x h1 td1 : known' !! x = Some (h1, td1) -> header_fits h1 /\ x = Header_Hash h1 /\ x <> 0 /\ 0 <= td1 <= (h_Number h1 + 1) * 2 ^ 256.
Proof.
  intros [(-> & -> & ->)|E]%written_known; [|by apply (tr_known g gtd F T)].
  split; [apply W|]. split; [done|]. split; [apply W|apply written_bounds].
Qed.

Lemma written_linked : linked g gtd known'.
Proof.
  pose proof written_extends as Hi. split.
  - eapply lookup_weaken; [apply (tr_linked g gtd F T)|done].
  - apply (tr_linked g gtd F T).
  - intros x h1 td1 [(-> & -> & ->)|E]%written_known.
    + right. exists p, ptd. split; [by eapply lookup_weaken|]. split; [apply written_number|done].
    + destruct (lk_parent g gtd _ (tr_linked g gtd F T) x h1 td1 E) as [?|(q & qtd & Eq & ?)]; [by left|]. right. exists q, qtd. split; [by eapply lookup_weaken|done].
Qed.

Lemma written_tree coin : tree g gtd (write coin h F).2.
Proof.
  pose proof written_extends as Hi. unfold write. rewrite Ep. unfold heavier. destruct ((newTd >? headTd F) || _) eqn:Eh.
  - assert (headTd F <= newTd) as Hle by (apply orb_true_iff in Eh as [Eh|Eh]; zbool; lia).
    assert (headTd (mkForest known' h) = newTd) as Et by (unfold headTd; cbn; by rewrite lookup_insert_eq).
    split; cbn [f_known f_head fst snd]; [apply written_ok|apply written_linked| |].
    + rewrite Et. apply lookup_insert_eq.
    + rewrite Et. intros x h1 td1 [(-> & -> & ->)|E]%written_known; [done|]. etrans; [by apply (tr_heaviest g gtd F T x h1)|done].
  - assert (known' !! Header_Hash (f_head F) = Some (f_head F, headTd F)) as Eh' by (eapply lookup_weaken; [apply (tr_head g gtd F T)|done]).
    assert (headTd (mkForest known' (f_head F)) = headTd F) as Et by (unfold headTd at 1; cbn; by rewrite Eh').
    split; cbn [f_known f_head fst snd]; [apply written_ok|apply written_linked|by rewrite Et|].
    rewrite Et. intros x h1 td1 [(-> & -> & ->)|E]%written_known; [zbool; lia|by apply (tr_heaviest g gtd F T x h1)].
Qed.

Lemma written_canon m : upto known' (Header_Hash (f_head F)) (h_Number (f_head F)) nothing m = canonOf F m.
Proof.
  unfold canonOf, upto. destruct ((0 <=? m) && _) eqn:Eb; [|done]. zbool.
  destruct (upto_known g gtd _ _ _ _ m (tr_linked g gtd F T) (tr_head g gtd F T) ltac:(lia)) as (y & _ & _ & Ey & _).
  rewrite Ey. by eapply anc_mono; [apply written_extends|].
Qed.
End write.

(** ** WriteHeader *)

Definition with_known (H : headers) (v : view) : view :=
  mkView H (v_canon v) (v_current v) (v_hash v) (v_top v) (v_block v) (v_genesis v).

Lemma WriteTd_put (x : Hash) (n td m : Z) (d : Mem.db) : 0 <= m < 2 ^ 64 -> 0 <= td <= (m + 1) * 2 ^ 256 ->
  Raw.WriteTd x n td d = Some (<[keyBytes (KTd n x) := rlp (itemOf (FBig td))]> d).
Proof.
  intros Hm Ht. pose proof (td_size td m Hm Ht). unfold Raw.WriteTd. rewrite EncodeField_rlp; [done| |lia]. cbn. lia.
Qed.

Lemma WriteHeader_put (h : Header) (d : Mem.db) : header_fits h ->
  Raw.WriteHeader h d = Some (<[keyBytes (KHeader (h_Number h) (Header_Hash h)) := rlp (itemOf (headerField h))]>
    (<[keyBytes (KNumber (Header_Hash h)) := be_bytes 8 (h_Number h)]> d)).
Proof.
  intros Hh. unfold Raw.WriteHeader. rewrite (u64_small _ (fits_number h Hh)). destruct (header_typed h (hf_ok h Hh)) as (_ & _ & He).
  rewrite EncodeField_rlp; [done|done|]. pose proof (hf_size h Hh). lia.
Qed.

(** The three entries of a header. *)
Lemma entries_written (v : view) (h : Header) (td : Z) (d : Mem.db) : header_fits h -> v_known v ⊆ <[Header_Hash h := (h, td)]> (v_known v) ->
  (forall k, valid k -> d !! keyBytes k = entry v k) -> forall k, valid k ->
  (<[keyBytes (KHeader (h_Number h) (Header_Hash h)) := rlp (itemOf (headerField h))]>
    (<[keyBytes (KNumber (Header_Hash h)) := be_bytes 8 (h_Number h)]>
      (<[keyBytes (KTd (h_Number h) (Header_Hash h)) := rlp (itemOf (FBig td))]> d))) !! keyBytes k
  = entry (with_known (<[Header_Hash h := (h, td)]> (v_known v)) v) k.
Proof.
  intros Hh Hi Hd k Hk. pose proof (fits_number h Hh) as Hu. pose proof (hash_word h) as Hw. rewrite !at_put by done. rewrite (Hd k Hk).
  assert (forall x, x <> Header_Hash h -> <[Header_Hash h := (h, td)]> (v_known v) !! x = v_known v !! x) as Hne by (intros; by apply lookup_insert_ne).
  assert (forall n, n <> h_Number h -> (('(h, _) ← v_known v !! Header_Hash h; if h_Number h =? n then Some (rlp (itemOf (headerField h))) else None) = None) /\
    (('(h, td) ← v_known v !! Header_Hash h; if h_Number h =? n then Some (rlp (itemOf (FBig td))) else None) = None)) as Hno.
  { intros n Hn. destruct (v_known v !! Header_Hash h) as [[h' td']|] eqn:E; [|done]. pose proof (lookup_weaken _ _ _ _ E Hi) as E'.
    rewrite lookup_insert_eq in E'. injection E' as <- <-. cbn. by rewrite (proj2 (Z.eqb_neq _ _)). }
  destruct k as [n x|n x|n|x| |]; cbn [entry with_known v_known v_canon v_top v_block]; try done; destruct (decide (x = Header_Hash h)) as [->|Hx];
    repeat (destruct (decide _) as [[=]|]; try done); subst; rewrite ?lookup_insert_eq, ?Hne by done; cbn [mbind option_bind]; try done;
    rewrite ?Z.eqb_refl; try done; rewrite (proj2 (Z.eqb_neq _ _)) by congruence; apply Hno; congruence.
Qed.

Lemma stored_written (v : view) (s : HeaderChain) (h : Header) (td : Z) : stored v s -> header_fits h -> v_known v ⊆ <[Header_Hash h := (h, td)]> (v_known v) ->
  0 <= td <= (h_Number h + 1) * 2 ^ 256 ->
  exists d1 d2, Raw.WriteTd (Header_Hash h) (h_Number h) td (hc_chainDb s) = Some d1 /\ Raw.WriteHeader h d1 = Some d2 /\
    stored (with_known (<[Header_Hash h := (h, td)]> (v_known v)) v)
      (set_chainDb d2 (set_tdCache (LRU.Add (Header_Hash h) td (hc_tdCache s)) (set_chainDb d1 s))).
Proof.
  intros Hs Hh Hi Ht. do 2 eexists. split; [eapply WriteTd_put; [apply (fits_number h Hh)|done]|]. split; [by apply WriteHeader_put|].
  pose proof Hs as []. split; try done; cbn [set_chainDb set_tdCache hc_chainDb hc_headerCache hc_tdCache hc_numberCache with_known v_known].
  - intros k Hk. by apply entries_written.
  - intros x h1 E. destruct (st_headers0 x h1 E) as [td1 E1]. exists td1. by eapply lookup_weaken.
  - intros x td1 [[-> ->]|E]%Add_items; [exists h; apply lookup_insert_eq|]. destruct (st_tds0 x td1 E) as [h1 E1]. exists h1. by eapply lookup_weaken.
  - intros x n E. destruct (st_numbers0 x n E) as (h1 & td1 & E1 & ->). exists h1, td1. split; [by eapply lookup_weaken|done].
Qed.

Definition with_head (h : Header) (v : view) : view :=
  mkView (v_known v) (v_canon v) (Some h) (Header_Hash h) (Some (Header_Hash h)) (v_block v) (v_genesis v).

(** Recording a new head. *)
Lemma stored_head v s h : stored v s ->
  stored (with_head h v) (set_current (Some h) (set_currentHash (Header_Hash h)
    (set_chainDb (Raw.WriteHeadHeaderHash (Header_Hash h) (hc_chainDb s)) s))).
Proof.
  intros Hs. pose proof Hs as []. split; try done. intros k Hk. cbn [hc_chainDb set_current set_currentHash set_chainDb].
  unfold Raw.WriteHeadHeaderHash, Mem.Put. change Raw.headHeaderKey with (keyBytes KHead). rewrite at_put by done. rewrite (st_db v s Hs k Hk).
  by destruct k.
Qed.

Section canonical.
Variables (g : Header) (gtd : Z) (F : forest) (h p : Header) (ptd : Z) (blk : option Hash).
Hypothesis T : tree g gtd F.
Hypothesis W : writable F h.
Hypothesis Ep : f_known F !! h_ParentHash h = Some (p, ptd).
Abbreviation known' := (<[Header_Hash h := (h, h_Difficulty h + ptd)]> (f_known F)).
Abbreviation v1 := (with_known known' (viewOf g blk F)).

Lemma v1_ok : view_ok v1.
Proof.
  split; [by eapply written_ok|]. intros n x E. destruct (vo_canon _ (tree_view g gtd blk F T) n x E) as (h1 & td1 & E1 & Hn).
  exists h1, td1. split; [|done]. eapply lookup_weaken; [exact E1|by eapply written_extends].
Qed.

(** The canonical numbers up to that of the new head. *)
Definition kept (m : Z) : option Hash := if decide (h_Number h < m) then None else canonOf F m.

Lemma kept_ok : view_ok (with_canon kept v1).
Proof. destruct v1_ok as [Hk Hc]. split; [done|]. intros n x E. cbn in E. unfold kept in E. destruct (decide _); [done|by apply Hc]. Qed.

Lemma kept_coherent : coherent known' kept (h_Number h).
Proof.
  intros m y m' Hm Hn E. unfold kept in *. rewrite decide_False in E by lia. rewrite decide_False by lia.
  destruct (decide (h_Number (f_head F) < m)) as [Ho|Ho]; [by rewrite canonOf_out in E|].
  rewrite <- (written_canon g gtd F h p ptd T W Ep) in *. eapply upto_coherent; [lia| |done]. lia.
Qed.

Lemma kept_genesis : kept 0 = Some (Header_Hash g).
Proof.
  destruct (written_number g gtd F h p ptd T W Ep) as (Hn & _). unfold kept. rewrite decide_False by lia. by eapply canonOf_genesis.
Qed.

Lemma deleted_ok s : stored v1 s ->
  exists b, deleteAbove (loopFuel (h_Number (f_head F)) s) (hc_chainDb s) (h_Number h +u 1) Mem.NewBatch = Ret b /\
    stored (with_canon kept v1) (set_chainDb (Mem.batch_Write b (hc_chainDb s)) s).
Proof.
  intros Hs. destruct (written_number g gtd F h p ptd T W Ep) as (Hn1 & _ & Hu & _). pose proof (hf_number h (wr_fits F h W)) as Hb.
  destruct (tr_known g gtd F T _ _ _ (tr_head g gtd F T)) as (Hf & _). pose proof (fits_number _ Hf) as Hft. pose proof (hf_number _ Hf).
  unfold is_u64 in *. rewrite (u64_small (h_Number h + 1)) by (unfold is_u64; lia).
  destruct (deleteAbove_ok v1 s (h_Number (f_head F)) v1_ok Hs) with
    (fuel := (Z.to_nat (h_Number (f_head F)) + size (hc_chainDb s) + length (LRU.evictList (hc_headerCache s)))%nat) (i := h_Number h + 1) (ks := @nil key) (b := Mem.NewBatch)
    as (b & ks & Eb & Ew & Hvk & Hks); [| |lia|lia|lia|done|done|].
  { intros m Hm. destruct (canonOf_in g gtd F m T Hm) as (x & _ & _ & Ex & _). by exists x. }
  { intros m Hm. by apply canonOf_out. }
  exists b. split; [done|]. apply (stored_db v1); [done| |done..]. intros k Hk. unfold Mem.batch_Write. rewrite Ew, at_dels by done.
  rewrite (st_db v1 s Hs k Hk). destruct (decide (k ∈ ks)) as [Hi|Hi].
  - apply Hks in Hi as [Hi|(m & -> & Hm)]; [by apply not_elem_of_nil in Hi|]. cbn. unfold kept. by rewrite decide_True by lia.
  - destruct k as [| |m| | |]; try done. cbn. unfold kept. destruct (decide (h_Number h < m)) as [Hm|]; [|done].
    destruct (decide (m <= h_Number (f_head F))); [|by rewrite canonOf_out by lia]. exfalso. apply Hi, Hks. right. exists m. split; [done|lia].
Qed.

Lemma makeCanonical_ok s : stored v1 s ->
  runs (makeCanonical h (Header_Hash h) (h_Number h) (h_Number (f_head F))) s (fun _ s' => stored (viewOf g blk (mkForest known' h)) s').
Proof.
  intros Hs. destruct (written_number g gtd F h p ptd T W Ep) as (Hn1 & Hn & Hu & Hup). destruct (deleted_ok s Hs) as (b & Eb & Hs1).
  unfold makeCanonical. run_step. run_step. apply runs_bind. eapply runs_lifted; [exact Eb|]. run_step. apply runs_updateDb.
  assert (known' !! h_ParentHash h = Some (p, ptd)) as Ep' by (eapply lookup_weaken; [exact Ep|by eapply written_extends]).
  replace (u64 (h_Number h) -u 1) with (h_Number p) by (rewrite (u64_small _ Hu), u64_small; unfold is_u64 in *; lia).
  apply runs_bind. eapply runs_mono; [apply (GetHeader_ok (with_canon kept v1))|]; try done; [apply kept_ok|apply (hk_ParentHash h (hf_ok h (wr_fits F h W)))| |].
  { intros p' ptd' E. cbn in E. rewrite Ep' in E. by injection E as <- <-. }
  intros r s2 [-> Hs2]. cbn [v_known with_canon with_known]. rewrite Ep'. cbn [fmap option_fmap option_map fst].
  apply runs_bind. eapply runs_mono; [apply (reassign_ok g gtd _ (with_canon kept v1) s2 _ _ p ptd)|]; try done.
  - apply kept_ok.
  - by eapply written_linked.
  - unfold loopFuel. lia.
  - intros m y m' Hm Hmn. apply kept_coherent; lia.
  - apply kept_genesis.
  - intros [] s3 Hs3. run_step. apply runs_updateDb. apply (stored_set_canon _ _ (h_Number h) (Header_Hash h)) in Hs3; [|done].
    run_step. apply runs_updateDb. apply (stored_head _ _ h) in Hs3. apply runs_modify.
    refine (stored_ext _ (canonOf (mkForest known' h)) _ Hs3 _). intros m [Hm _]. unfold canonOf. cbn [f_known f_head v_canon with_head with_canon v_known with_known].
    unfold set_canon. destruct (decide (m = h_Number h)) as [->|Hne]; [unfold upto; by rewrite in_range, Z.sub_diag by lia|].
    rewrite (upto_step _ _ _ h (h_Difficulty h + ptd)) by (lia || apply lookup_insert_eq). replace (h_Number h - 1) with (h_Number p) by lia.
    unfold upto. destruct (decide (m <= h_Number p)); [by rewrite !in_range by lia|]. rewrite !above_range by lia.
    unfold set_canon, kept, nothing. by rewrite decide_False, decide_True by lia.
Qed.
End canonical.

Lemma write_known F coin h p ptd : f_known F !! h_ParentHash h = Some (p, ptd) ->
  f_known (write coin h F).2 !! Header_Hash h = Some (h, h_Difficulty h + ptd).
Proof. intros Ep. unfold write. rewrite Ep. destruct (heavier coin _ _); apply lookup_insert_eq. Qed.

Lemma remember_ok v s h td (st : WriteStatus) : stored v s -> v_known v !! Header_Hash h = Some (h, td) ->
  runs (modify (fun s => set_headerCache (LRU.Add (Header_Hash h) h (hc_headerCache s)) s) ;;
        modify (fun s => set_numberCache (LRU.Add (Header_Hash h) (h_Number h) (hc_numberCache s)) s) ;;
        ret (inr st : chainErr + WriteStatus)) s (fun r s' => r = inr st /\ stored v s').
Proof.
  intros Hs Ek. run_step. run_step. apply (stored_headerCache _ _ (LRU.Add (Header_Hash h) h (hc_headerCache s))) in Hs.
  2: { intros x h1 [[-> ->]|E]%Add_items; [by exists td|by apply (st_headers _ _ Hs)]. }
  run_step. run_step. apply runs_ret. split; [done|]. apply stored_numberCache; [done|].
  intros x n [[-> ->]|E]%Add_items; [by exists h, td|by apply (st_numbers _ _ Hs)].
Qed.

(** One header: the code answers and stores what the specification says. *)
Lemma WriteHeader_ok g gtd blk F s coin h : tree g gtd F -> stored (viewOf g blk F) s -> writable F h ->
  tree g gtd (write coin h F).2 /\
  runs (WriteHeader coin h) s (fun r s' => r = (write coin h F).1 /\ stored (viewOf g blk (write coin h F).2) s').
Proof.
  intros T Hs W. pose proof (tree_view g gtd blk F T) as Hv. pose proof (wr_fits F h W) as Hh. pose proof (fits_number h Hh) as Hu.
  assert (is_u64 (u64 (h_Number h) -u 1)) as Hu1 by apply u64_range. unfold WriteHeader.
  assert (at_number (viewOf g blk F) (h_ParentHash h) (u64 (h_Number h) -u 1)) as Ha.
  { intros q qtd E. pose proof (wr_number F h W q qtd E). destruct (tr_known g gtd F T _ q qtd E) as (Hq & _). pose proof (fits_number q Hq).
    rewrite (u64_small _ Hu), u64_small; unfold is_u64 in *; lia. }
  destruct (f_known F !! h_ParentHash h) as [[p ptd]|] eqn:Ep.
  2: { unfold write. rewrite Ep. split; [done|]. apply runs_bind. eapply runs_mono; [by apply (GetTd_ok (viewOf g blk F)); try apply (hk_ParentHash h (hf_ok h Hh))|].
       intros r s1 [-> Hs1]. cbn [viewOf v_known]. rewrite Ep. by apply runs_ret. }
  split; [by eapply written_tree|]. apply runs_bind. eapply runs_mono; [by apply (GetTd_ok (viewOf g blk F)); try apply (hk_ParentHash h (hf_ok h Hh))|].
  intros r s1 [-> Hs1]. cbn [viewOf v_known]. rewrite Ep. cbn [fmap option_fmap option_map snd]. run_step. apply runs_gets. apply runs_bind.
  apply runs_must. exists (f_head F). split; [apply (st_current _ _ Hs1)|]. run_step. run_step. rewrite (st_hash _ _ Hs1). cbn [viewOf v_hash].
  pose proof (tr_head g gtd F T) as Eh. destruct (tr_known g gtd F T _ _ _ Eh) as (Hf & _). pose proof (fits_number _ Hf) as Huf. rewrite (u64_small _ Huf), (u64_small _ Hu).
  apply runs_bind. eapply runs_mono; [apply (GetTd_ok (viewOf g blk F)); try done; [apply hash_word|]|].
  { intros h1 td1 E. cbn in E. rewrite Eh in E. by injection E as <- <-. }
  intros r s2 [-> Hs2]. cbn [viewOf v_known]. rewrite Eh. cbn [fmap option_fmap option_map snd].
  destruct (stored_written (viewOf g blk F) s2 h (h_Difficulty h + ptd) Hs2 Hh) as (d1 & d2 & E1 & E2 & Hs3); [by eapply written_extends|by eapply written_bounds|].
  run_step. unfold WriteTd. run_step. run_step. run_step. apply runs_must. exists d1. split; [done|]. run_step. run_step. run_step.
  run_step. apply runs_must. exists d2. split; [done|]. run_step. apply runs_updateDb. run_step. apply runs_must. exists (headTd F). split; [done|].
  apply runs_bind. apply runs_mono with (P := fun r s4 => inr r = (write coin h F).1 /\ stored (viewOf g blk (write coin h F).2) s4).
  - unfold write. rewrite Ep. unfold heavier. destruct (_ || _).
    2: { apply runs_ret. split; [done|]. refine (stored_ext _ _ _ Hs3 _). intros m _. by apply (written_canon g gtd F h p ptd T W Ep). }
    apply runs_bind. eapply runs_mono; [by eapply makeCanonical_ok|]. intros [] s4 Hs4. by apply runs_ret.
  - intros st s4 [Est Hs4]. rewrite <- Est. eapply remember_ok; [done|]. by eapply write_known.
Qed.

(** ** A new chain *)

Lemma stored_set_current v s o : stored v s ->
  stored (mkView (v_known v) (v_canon v) o (v_hash v) (v_top v) (v_block v) (v_genesis v)) (set_current o s).
Proof. intros []. by split. Qed.

Lemma stored_set_currentHash v s x : stored v s ->
  stored (mkView (v_known v) (v_canon v) (v_current v) x (v_top v) (v_block v) (v_genesis v)) (set_currentHash x s).
Proof. intros []. by split. Qed.

Lemma stored_set_genesis v s o : stored v s ->
  stored (mkView (v_known v) (v_canon v) (v_current v) (v_hash v) (v_top v) (v_block v) o) (set_genesis o s).
Proof. intros []. by split. Qed.

(** No key of the schema is in use. *)
Definition clean (d : Mem.db) : Prop := forall k, valid k -> d !! keyBytes k = None.

(** A genesis block that can be stored with its total difficulty. *)
Record genesis_ok (g : Header) (gtd : Z) : Prop := {
  go_fits : header_fits g;
  go_zero : h_Number g = 0;
  go_nonzero : Header_Hash g <> 0;
  go_td : 0 <= gtd <= 2 ^ 256
}.

Definition planted (g : Header) (gtd : Z) : forest := mkForest {[ Header_Hash g := (g, gtd) ]} g.

Lemma planted_tree g gtd : genesis_ok g gtd -> tree g gtd (planted g gtd).
Proof.
  intros []. assert (headTd (planted g gtd) = gtd) as Et by (unfold headTd; cbn; by rewrite lookup_singleton_eq).
  split; cbn [planted f_known f_head]; rewrite ?Et, ?lookup_singleton_eq; try done.
  - intros x h td [<- [= <- <-]]%lookup_singleton_Some. split; [done|]. split; [done|]. split; [done|]. rewrite go_zero0. lia.
  - split; [apply lookup_singleton_eq|done|]. intros x h td [<- [= <- <-]]%lookup_singleton_Some. by left.
  - by intros x h td [<- [= <- <-]]%lookup_singleton_Some.
Qed.

(** What [Genesis.Commit] leaves, seen by a chain without a current header. *)
Definition planted_view (g : Header) (gtd : Z) : view :=
  mkView {[ Header_Hash g := (g, gtd) ]} (set_canon 0 (Header_Hash g) nothing) None 0 (Some (Header_Hash g)) (Some (Header_Hash g)) None.

Lemma CommitHeader_ok g difficulty d0 : genesis_ok g (default 0 difficulty) -> clean d0 ->
  exists d, CommitHeader g difficulty d0 = Some d /\ forall k, valid k -> d !! keyBytes k = entry (planted_view g (default 0 difficulty)) k.
Proof.
  intros [Hf H0 Hn Ht] Hc. pose proof (fits_number g Hf) as Hu. pose proof (hash_word g) as Hw. unfold CommitHeader.
  rewrite (u64_small _ Hu), (WriteTd_put _ _ _ 0) by lia. rewrite (WriteHeader_put g) by done. eexists. split; [done|]. intros k Hk.
  unfold Raw.WriteHeadHeaderHash, Raw.WriteHeadBlockHash, Raw.WriteCanonicalHash, Mem.Put.
  change Raw.headHeaderKey with (keyBytes KHead). change Raw.headBlockKey with (keyBytes KHeadBlock). change (Raw.headerHashKey (h_Number g)) with (keyBytes (KCanon (h_Number g))).
  rewrite !at_put by done. rewrite (Hc k Hk), H0. unfold planted_view.
  destruct k as [n x|n x|n|x| |]; cbn [entry v_known v_canon v_top v_block]; try (destruct (decide (x = Header_Hash g)) as [->|Hx]);
    repeat (destruct (decide _) as [[=]|]; try done); subst; rewrite ?lookup_singleton_eq, ?lookup_singleton_ne by done; cbn [mbind option_bind];
    unfold set_canon; rewrite ?H0, ?decide_True, ?Z.eqb_refl by done; try done.
  - by rewrite (proj2 (Z.eqb_neq 0 n)) by congruence.
  - by rewrite (proj2 (Z.eqb_neq 0 n)) by congruence.
  - by rewrite decide_False by congruence.
Qed.

Lemma planted_view_ok g gtd : genesis_ok g gtd -> view_ok (planted_view g gtd).
Proof.
  intros []. split; cbn.
  - intros x h td [<- [= <- <-]]%lookup_singleton_Some. split; [done|]. split; [done|]. split; [done|]. rewrite go_zero0. lia.
  - intros n x. unfold set_canon. destruct (decide (n = 0)) as [->|]; [|done]. intros [= <-]. exists g, gtd. split; [apply lookup_singleton_eq|done].
Qed.

(** A chain that starts with the genesis block. *)
Lemma NewHeaderChain_ok g gtd d : genesis_ok g gtd -> (forall k, valid k -> d !! keyBytes k = entry (planted_view g gtd) k) ->
  exists s, NewHeaderChain d = Ret (inr s) /\ stored (viewOf g (Some (Header_Hash g)) (planted g gtd)) s.
Proof.
  intros Hg Hd. pose proof (planted_view_ok g gtd Hg) as Hv.
  assert (forall o1 o2, view_ok (mkView {[ Header_Hash g := (g, gtd) ]} (set_canon 0 (Header_Hash g) nothing) o1 0 (Some (Header_Hash g)) (Some (Header_Hash g)) o2)) as Hv'
    by (intros; split; apply Hv).
  unfold NewHeaderChain. set (s0 := mkHC d None None 0 _ _ _). assert (stored (planted_view g gtd) s0) as Hs0 by (by split).
  match goal with |- context [match ?m s0 with _ => _ end] => assert (runs m s0 (fun r s => r = inr tt /\ stored (viewOf g (Some (Header_Hash g)) (planted g gtd)) s)) as (r & s & E & -> & Hs) end.
  - apply runs_bind. eapply runs_mono; [by apply (GetHeaderByNumber_ok (planted_view g gtd))|]. intros r s1 [-> Hs1].
    cbn [planted_view v_canon v_known]. unfold set_canon. rewrite decide_True by done. cbn [mbind option_bind]. rewrite lookup_singleton_eq. cbn [fmap option_fmap option_map fst].
    run_step. run_step. apply (stored_set_genesis _ _ (Some g)) in Hs1. run_step. run_step. apply (stored_set_current _ _ (Some g)) in Hs1.
    run_step. run_step. unfold Raw.ReadHeadBlockHash. change Raw.headBlockKey with (keyBytes KHeadBlock). rewrite (readHash_ok _ _ KHeadBlock (Some (Header_Hash g)) Hs1); [|done|done|intros x [= <-]; apply hash_word].
    cbn [default from_option]. change (id (Header_Hash g)) with (Header_Hash g). rewrite (proj2 (Z.eqb_neq _ _) (go_nonzero g gtd Hg)). cbn [negb]. run_step. run_step.
    eapply runs_mono; [apply (GetHeaderByHash_ok _ _ _ (Hv' _ _) Hs1), hash_word|]. intros r s2 [-> Hs2]. cbn [v_known]. rewrite lookup_singleton_eq. cbn [fmap option_fmap option_map fst].
    run_step. apply (stored_set_current _ _ (Some g)) in Hs2. run_step. apply runs_gets. run_step. apply runs_must. exists g. split; [done|].
    run_step. run_step. apply (stored_set_currentHash _ _ (Header_Hash g)) in Hs2. apply runs_ret. split; [done|].
    refine (stored_ext _ (canonOf (planted g gtd)) _ Hs2 _). intros m [Hm _]. unfold canonOf, upto. cbn. rewrite (go_zero g gtd Hg). unfold set_canon.
    destruct (decide (m = 0)) as [->|]; [done|]. by rewrite above_range by lia.
  - rewrite E. by exists s.
Qed.

(** ** Sequences of headers *)

Fixpoint writeAll (l : list (bool * Header)) : HM (list (chainErr + WriteStatus)) :=
  match l with
  | [] => ret []
  | (coin, h) :: l => let* r := WriteHeader coin h in let* rs := writeAll l in ret (r :: rs)
  end.

Fixpoint writes (l : list (bool * Header)) (F : forest) : list (chainErr + WriteStatus) * forest :=
  match l with
  | [] => ([], F)
  | (coin, h) :: l => let (r, F) := write coin h F in let (rs, F) := writes l F in (r :: rs, F)
  end.

(** Headers that can be told apart: they fit, and their hashes are different and
    not zero. *)
Record kin (A : list Header) : Prop := {
  kn_fits : forall h, h ∈ A -> header_fits h;
  kn_nonzero : forall h, h ∈ A -> Header_Hash h <> 0;
  kn_distinct : forall h h', h ∈ A -> h' ∈ A -> Header_Hash h = Header_Hash h' -> h = h'
}.

(** Headers of one family: in addition a child has the next number.
    [WriteHeader] does not check that; [ValidateHeaderChain] does it for the
    headers of one chain and the engines for the first of them. *)
Record family (A : list Header) : Prop := {
  fm_fits : forall h, h ∈ A -> header_fits h;
  fm_nonzero : forall h, h ∈ A -> Header_Hash h <> 0;
  fm_distinct : forall h h', h ∈ A -> h' ∈ A -> Header_Hash h = Header_Hash h' -> h = h';
  fm_number : forall h p, h ∈ A -> p ∈ A -> h_ParentHash h = Header_Hash p -> h_Number h = h_Number p + 1
}.

Definition within (A : list Header) (F : forest) : Prop := forall x h td, f_known F !! x = Some (h, td) -> h ∈ A /\ x = Header_Hash h.

Lemma kin_writable A F h : kin A -> within A F -> h ∈ A ->
  (forall p ptd, f_known F !! h_ParentHash h = Some (p, ptd) -> h_Number h = h_Number p + 1) -> writable F h.
Proof.
  intros HA Hw Hh Hn. split; [by apply HA|by apply HA| |done].
  intros h' td E. destruct (Hw _ _ _ E) as [Hi Ex]. by apply (kn_distinct A HA).
Qed.

Lemma family_kin A : family A -> kin A.
Proof. intros HA. split; apply HA. Qed.


Lemma family_writable A F h : family A -> within A F -> h ∈ A -> writable F h.
Proof.
  intros HA Hw Hh. apply (kin_writable A); [by apply family_kin|done|done|].
  intros p ptd E. destruct (Hw _ _ _ E) as [Hi Ex]. by apply (fm_number A HA).
Qed.

Lemma write_within A F coin h : within A F -> h ∈ A -> within A (write coin h F).2.
Proof.
  intros Hw Hh. unfold write. destruct (f_known F !! h_ParentHash h) as [[p ptd]|]; [|done].
  assert (within A (mkForest (<[Header_Hash h := (h, h_Difficulty h + ptd)]> (f_known F)) h)) as H.
  { intros x h1 td1 E. cbn [f_known] in E. apply lookup_insert_Some in E as [[<- [= <- <-]]|[_ E]]; [done|by apply (Hw x h1 td1)]. }
  by destruct (heavier coin _ _).
Qed.

Lemma writeHeaders_ok g gtd blk A : family A -> forall l F s, within A F -> (forall c h, (c, h) ∈ l -> h ∈ A) ->
  tree g gtd F -> stored (viewOf g blk F) s ->
  tree g gtd (writes l F).2 /\ within A (writes l F).2 /\
  runs (writeAll l) s (fun rs s' => rs = (writes l F).1 /\ stored (viewOf g blk (writes l F).2) s').
Proof.
  intros HA. induction l as [|[c h] l IH]; intros F s Hw Hl T Hs; cbn [writes writeAll]; [split; [done|]; split; [done|]; by apply runs_ret|].
  assert (h ∈ A) as Hh by (apply (Hl c), elem_of_cons; by left).
  destruct (WriteHeader_ok g gtd blk F s c h T Hs (family_writable A F h HA Hw Hh)) as [T1 R]. pose proof (write_within A F c h Hw Hh) as Hw1.
  destruct (write c h F) as [r F1]. cbn [fst snd] in *. destruct R as (r' & s1 & E & -> & Hs1).
  destruct (IH F1 s1 Hw1) as (T2 & Hw2 & R2); [intros c' h' Hi; apply (Hl c'), elem_of_cons; by right|done|done|].
  destruct (writes l F1) as [rs F2]. cbn [fst snd] in *. split; [done|]. split; [done|]. eapply runs_bind_eq; [exact E|].
  apply runs_bind. eapply runs_mono; [exact R2|]. intros rs' s2 [-> Hs2]. by apply runs_ret.
Qed.

(** What the chain answers. *)
Record shows (F : forest) (s : HeaderChain) : Prop := {
  sh_current : runs CurrentHeader s (fun r _ => r = Some (f_head F));
  sh_top : Raw.ReadHeadHeaderHash (hc_chainDb s) = Header_Hash (f_head F);
  sh_header : forall x, is_word x -> runs (GetHeaderByHash x) s (fun r _ => r = fst <$> f_known F !! x);
  sh_td : forall x, is_word x -> runs (GetTdByHash x) s (fun r _ => r = snd <$> f_known F !! x);
  sh_number : forall n, is_u64 n -> runs (GetHeaderByNumber n) s (fun r _ => r = (x ← canonOf F n; fst <$> f_known F !! x))
}.

Lemma view_shows g blk F s : view_ok (viewOf g blk F) -> stored (viewOf g blk F) s -> shows F s.
Proof.
  intros Hv Hs. split.
  - apply runs_gets. apply (st_current _ _ Hs).
  - apply (readHash_ok (viewOf g blk F) s KHead (Some (Header_Hash (f_head F)))); try done. intros x [= <-]. apply hash_word.
  - intros x Hx. eapply runs_mono; [by apply (GetHeaderByHash_ok (viewOf g blk F))|]. by intros r s' [-> _].
  - intros x Hx. eapply runs_mono; [by apply (GetTdByHash_ok (viewOf g blk F))|]. by intros r s' [-> _].
  - intros n Hn. eapply runs_mono; [by apply (GetHeaderByNumber_ok (viewOf g blk F))|]. by intros r s' [-> _].
Qed.

Lemma stored_shows g gtd blk F s : tree g gtd F -> stored (viewOf g blk F) s -> shows F s.
Proof. intros T. by eapply view_shows, tree_view. Qed.

(** The state after writing headers to a new chain. *)
Lemma session g difficulty d0 l : clean d0 -> genesis_ok g (default 0 difficulty) -> family (g :: map snd l) ->
  let F := (writes l (planted g (default 0 difficulty))).2 in
  exists d s0 s, CommitHeader g difficulty d0 = Some d /\ NewHeaderChain d = Ret (inr s0) /\
    writeAll l s0 = Ret ((writes l (planted g (default 0 difficulty))).1, s) /\
    tree g (default 0 difficulty) F /\ within (g :: map snd l) F /\ stored (viewOf g (Some (Header_Hash g)) F) s.
Proof.
  intros Hc Hg HA F. destruct (CommitHeader_ok g difficulty d0 Hg Hc) as (d & E1 & Hd). destruct (NewHeaderChain_ok g _ d Hg Hd) as (s0 & E2 & Hs0).
  destruct (writeHeaders_ok g (default 0 difficulty) (Some (Header_Hash g)) _ HA l (planted g (default 0 difficulty)) s0) as (T & Hw & R); [| |by apply planted_tree|exact Hs0|].
  - intros x h td E. cbn [planted f_known] in E. apply lookup_singleton_Some in E as [<- [= <- <-]]. split; [apply elem_of_cons; by left|done].
  - intros c h Hi. apply elem_of_cons. right. apply (list_elem_of_fmap_2 snd l (c, h)). done.
  - destruct R as (rs & s & E3 & -> & Hs). by exists d, s0, s.
Qed.

(** ** Ancestors through the store *)

Section ancestors.
Variables (g : Header) (gtd : Z) (F : forest) (blk : option Hash).
Hypothesis T : tree g gtd F.

Lemma known_at x h td : f_known F !! x = Some (h, td) -> is_word x /\ is_u64 (h_Number h) /\ at_number (viewOf g blk F) x (h_Number h).
Proof.
  intros E. destruct (tr_known g gtd F T x h td E) as (Hf & -> & _). split; [apply hash_word|]. split; [by apply fits_number|].
  intros h' td' E'. cbn in E'. rewrite E in E'. by injection E' as <- <-.
Qed.

Lemma parent_at x h td : f_known F !! x = Some (h, td) -> 1 <= h_Number h ->
  exists p ptd, f_known F !! h_ParentHash h = Some (p, ptd) /\ h_Number p = h_Number h - 1 /\ h_Number h -u 1 = h_Number p.
Proof.
  intros E Hn. destruct (lk_parent g gtd _ (tr_linked g gtd F T) x h td E) as [[-> _]|(p & ptd & Ep & Hp & _)]; [rewrite (lk_zero g gtd _ (tr_linked g gtd F T)) in Hn; lia|].
  destruct (known_at x h td E) as (_ & Hu & _). exists p, ptd. split; [done|]. split; [lia|]. rewrite u64_small; unfold is_u64 in *; lia.
Qed.

Lemma ancestorLoop_ok : forall k x h td max s, f_known F !! x = Some (h, td) -> Z.of_nat k <= h_Number h -> is_u64 max -> stored (viewOf g blk F) s ->
  runs (ancestorLoop k x (h_Number h) max) s (fun r s' => stored (viewOf g blk F) s' /\
    ((exists y, anc (f_known F) k x = Some y /\ r.1 = (y, h_Number h - Z.of_nat k)) \/ (r.1 = (0, 0) /\ max < Z.of_nat k))).
Proof.
  pose proof (tree_view g gtd blk F T) as Hv. induction k as [|k IH]; intros x h td max s E Hk Hmax Hs; destruct (known_at x h td E) as (Hw & Hu & Ha).
  { apply runs_ret. split; [done|]. left. exists x. split; [done|]. cbn. f_equal. lia. }
  cbn [ancestorLoop]. run_step. run_step. rewrite (canonical_ok (viewOf g blk F) s _ Hv Hs Hu). cbn [viewOf v_canon].
  destruct (Z.eqb_spec (default 0 (canonOf F (h_Number h))) x) as [Ec|Ec].
  { apply runs_ret. split; [done|]. left. assert (canonOf F (h_Number h) = Some x) as Ec'.
    { destruct (canonOf F (h_Number h)) as [y|]; cbn in Ec; [by f_equal|]. by destruct (tr_known g gtd F T x h td E) as (_ & _ & [] & _). }
    assert (h_Number h <= h_Number (f_head F)) as Hle by (apply Z.nlt_ge; intros Ho; by rewrite (canonOf_out F _ Ho) in Ec').
    unfold is_u64 in Hu. rewrite (u64_small (h_Number h - Z.of_nat (S k))) by (unfold is_u64; lia). rewrite (canonical_ok (viewOf g blk F) s _ Hv Hs) by (unfold is_u64; lia).
    cbn [viewOf v_canon fst]. destruct (anc_known g gtd _ (tr_linked g gtd F T) (S k) x h td E Hk) as (y & _ & _ & Ey & _). exists y. split; [done|].
    rewrite (upto_coherent _ _ _ (h_Number h) x (h_Number h - Z.of_nat (S k)) ltac:(lia) Hle Ec' : canonOf F _ = _).
    replace (Z.to_nat (h_Number h - (h_Number h - Z.of_nat (S k)))) with (S k) by lia. by rewrite Ey. }
  destruct (Z.eqb_spec max 0) as [->|Hm]; [apply runs_ret; split; [done|]; right; split; [done|lia]|].
  apply runs_bind. eapply runs_mono; [by apply (GetHeader_ok (viewOf g blk F))|]. intros r s1 [-> Hs1]. cbn [viewOf v_known]. rewrite E. cbn [fmap option_fmap option_map fst].
  destruct (parent_at x h td E ltac:(lia)) as (p & ptd & Ep & Hp & ->). unfold is_u64 in Hmax. rewrite (u64_small (max - 1)) by (unfold is_u64; lia).
  eapply runs_mono; [apply (IH _ p ptd (max - 1) s1 Ep); [lia|unfold is_u64; lia|done]|]. intros r s2 [Hs2 [(y & Ey & Er)|[Er Hlt]]]; split; try done.
  - left. exists y. cbn [anc]. rewrite E. split; [done|]. rewrite Er. f_equal. lia.
  - right. split; [done|lia].
Qed.

Lemma GetAncestor_ok x h td k max s : f_known F !! x = Some (h, td) -> 0 <= k <= h_Number h -> is_u64 max -> stored (viewOf g blk F) s ->
  runs (GetAncestor x (h_Number h) k max) s (fun r s' => stored (viewOf g blk F) s' /\
    ((exists y, anc (f_known F) (Z.to_nat k) x = Some y /\ r.1 = (y, h_Number h - k)) \/ (r.1 = (0, 0) /\ max < k))).
Proof.
  intros E Hk Hmax Hs. pose proof (tree_view g gtd blk F T) as Hv. destruct (known_at x h td E) as (Hw & Hu & Ha). unfold GetAncestor.
  replace (k >? h_Number h) with false by (symmetry; rewrite Z.gtb_ltb; apply Z.ltb_ge; lia).
  destruct (Z.eqb_spec k 1) as [->|Hk1].
  - apply runs_bind. eapply runs_mono; [by apply (GetHeader_ok (viewOf g blk F))|]. intros r s1 [-> Hs1]. cbn [viewOf v_known]. rewrite E. cbn [fmap option_fmap option_map fst].
    destruct (parent_at x h td E ltac:(lia)) as (p & ptd & Ep & Hp & ->). apply runs_ret. split; [done|]. left. exists (h_ParentHash h). change (Z.to_nat 1) with 1%nat.
    cbn [anc]. rewrite E. split; [done|]. cbn. f_equal. lia.
  - eapply runs_mono; [by apply (ancestorLoop_ok (Z.to_nat k) x h td max s E); [lia|..]|]. intros r s1. by rewrite !Z2Nat.id by lia.
Qed.

(** The genesis block has no parent. *)
Hypothesis Hroot : f_known F !! h_ParentHash g = None.

Lemma hashesFrom_ok : forall max x h td s, f_known F !! x = Some (h, td) -> stored (viewOf g blk F) s ->
  runs (hashesFrom max h) s (fun r s' => stored (viewOf g blk F) s' /\
    forall i, r !! i = if decide ((i < max)%nat /\ Z.of_nat i < h_Number h) then anc (f_known F) (S i) x else None).
Proof.
  pose proof (tree_view g gtd blk F T) as Hv. induction max as [|max IH]; intros x h td s E Hs.
  { apply runs_ret. split; [done|]. intros i. by rewrite decide_False by lia. }
  cbn [hashesFrom]. destruct (known_at x h td E) as (_ & Hu & _). rewrite (u64_small _ Hu). destruct (tr_known g gtd F T x h td E) as (Hf & _).
  destruct (decide (h_Number h = 0)) as [H0|H0].
  { assert (h = g) as ->.
    { destruct (lk_parent g gtd _ (tr_linked g gtd F T) x h td E) as [[-> _]|(p & ptd & Ep & Hp & _)]; [done|].
      destruct (known_at _ p ptd Ep) as (_ & Hup & _). unfold is_u64 in Hup. lia. }
    apply runs_bind. eapply runs_mono; [apply (GetHeader_ok (viewOf g blk F) s _ _ Hv Hs); [apply (hk_ParentHash g (hf_ok g Hf))|apply u64_range|]|].
    - intros h' td' E'. cbn in E'. by rewrite Hroot in E'.
    - intros r s1 [-> Hs1]. cbn [viewOf v_known]. rewrite Hroot. apply runs_ret. split; [done|]. intros i. by rewrite decide_False by lia. }
  destruct (parent_at x h td E ltac:(unfold is_u64 in Hu; lia)) as (p & ptd & Ep & Hp & ->). destruct (known_at _ p ptd Ep) as (Hwp & Hup & Hap).
  apply runs_bind. eapply runs_mono; [by apply (GetHeader_ok (viewOf g blk F))|]. intros r s1 [-> Hs1]. cbn [viewOf v_known]. rewrite Ep. cbn [fmap option_fmap option_map fst].
  destruct (Z.eqb_spec (h_Number p) 0) as [Hp0|Hp0].
  - apply runs_ret. split; [done|]. intros [|i]; [rewrite decide_True by lia; cbn [anc]; by rewrite E|by rewrite decide_False by lia].
  - apply runs_bind. eapply runs_mono; [by apply (IH _ p ptd s1 Ep)|]. intros r s2 [Hs2 Hr]. apply runs_ret. split; [done|].
    intros [|i]; [unfold is_u64 in Hu; rewrite decide_True by lia; cbn [anc]; by rewrite E|]. change ((h_ParentHash h :: r) !! S i) with (r !! i). rewrite Hr.
    cbn [anc]. rewrite E. cbn [mbind option_bind]. destruct (decide (_ /\ _)); [by rewrite decide_True by lia|by rewrite decide_False by lia].
Qed.
End ancestors.

(** ** SetHead *)

(** The batch deletes [ks] and no other key of the schema. *)
Definition deletes (b : Mem.batch) (ks : list key) : Prop := forall (d : Mem.db) k, valid k ->
  Mem.batch_Write b d !! keyBytes k = if decide (k ∈ ks) then None else d !! keyBytes k.

Lemma Delete_snoc (k : list byte) (b : Mem.batch) (d : Mem.db) : Mem.batch_Write (Mem.batch_Delete k b) d = base.delete k (Mem.batch_Write b d).
Proof. unfold Mem.batch_Write, Mem.batch_Delete. cbn. by rewrite fold_left_app. Qed.

Lemma deletes_Delete b ks k : deletes b ks -> valid k -> deletes (Mem.batch_Delete (keyBytes k) b) (k :: ks).
Proof.
  intros Hb Hk d k' Hk'. rewrite Delete_snoc. destruct (decide (k' = k)) as [->|Hn].
  - rewrite decide_True by (apply elem_of_cons; by left). apply lookup_delete_eq.
  - rewrite lookup_delete_ne by (intros E; by apply Hn, keyBytes_inj). rewrite (Hb d k' Hk'). destruct (decide (k' ∈ ks)).
    + by rewrite decide_True by (apply elem_of_cons; by right).
    + by rewrite decide_False by (by intros [?|?]%elem_of_cons).
Qed.

Lemma deletes_nil : deletes Mem.NewBatch [].
Proof. intros d k _. by rewrite decide_False by apply not_elem_of_nil. Qed.

(** A callback that leaves the keys of headers alone. *)
Definition callback_ok (delFn : option (Hash -> Z -> Mem.batch -> Mem.batch)) : Prop :=
  match delFn with None => True | Some f => forall x n b ks, deletes b ks -> deletes (f x n b) ks end.

(** [BlockChain.SetHead] deletes the bodies. *)
Lemma DeleteBody_ok : callback_ok (Some Raw.DeleteBody).
Proof.
  intros x n b ks Hb d k Hk. unfold Raw.DeleteBody. rewrite Delete_snoc, lookup_delete_ne; [by apply Hb|].
  intros E. destruct k as [| | | | |]; discriminate E.
Qed.

Definition with_current (o : option Header) (v : view) : view :=
  mkView (v_known v) (v_canon v) o (v_hash v) (v_top v) (v_block v) (v_genesis v).

(** The keys of the headers from [h] down to the number above [head]. *)
Definition branchKey (H : headers) (x : Hash) (n head : Z) (k : key) : Prop :=
  exists m y, head < m <= n /\ anc H (Z.to_nat (n - m)) x = Some y /\ (k = KHeader m y \/ k = KNumber y \/ k = KTd m y).

Lemma branchKey_step H x h td n head k : H !! x = Some (h, td) -> head < n ->
  branchKey H x n head k <-> branchKey H (h_ParentHash h) (n - 1) head k \/ k = KHeader n x \/ k = KNumber x \/ k = KTd n x.
Proof.
  intros E Hn. split.
  - intros (m & y & Hm & Ea & Hk). destruct (decide (m = n)) as [->|Hne]; [right; rewrite Z.sub_diag in Ea; by injection Ea as <-|].
    left. exists m, y. split; [lia|]. split; [|done]. replace (Z.to_nat (n - m)) with (S (Z.to_nat (n - 1 - m))) in Ea by lia. cbn [anc] in Ea. by rewrite E in Ea.
  - intros [(m & y & Hm & Ea & Hk)|Hk].
    + exists m, y. split; [lia|]. split; [|done]. replace (Z.to_nat (n - m)) with (S (Z.to_nat (n - 1 - m))) by lia. cbn [anc]. by rewrite E.
    + exists n, x. split; [lia|]. by rewrite Z.sub_diag.
Qed.

Lemma rewind_ok g gtd F blk delFn head : tree g gtd F -> callback_ok delFn -> 0 <= head -> forall fuel x h td b ks s,
  f_known F !! x = Some (h, td) -> h_Number h - head < Z.of_nat fuel -> (0 < fuel)%nat -> deletes b ks -> stored (with_current (Some h) (viewOf g blk F)) s ->
  runs (rewind delFn fuel head b) s (fun b' s' => exists ks' y h' td',
    deletes b' ks' /\ (forall k, k ∈ ks' <-> k ∈ ks \/ branchKey (f_known F) x (h_Number h) head k) /\
    anc (f_known F) (Z.to_nat (h_Number h - Z.min head (h_Number h))) x = Some y /\ f_known F !! y = Some (h', td') /\
    stored (with_current (Some h') (viewOf g blk F)) s').
Proof.
  intros T Hd H0. induction fuel as [|fuel IH]; intros x h td b ks s E Hf Hf0 Hb Hs; [lia|]. clear Hf0.
  destruct (known_at g gtd F blk T x h td E) as (Hw & Hu & _). cbn [rewind]. run_step. apply runs_gets. rewrite (st_current _ _ Hs). cbn [with_current v_current].
  destruct (tr_known g gtd F T x h td E) as (_ & Ex & _). rewrite (u64_small _ Hu). destruct (h_Number h >? head) eqn:En; zbool.
  2: { apply runs_ret. exists ks, x, h, td. split; [done|]. split.
       - intros k. split; [by left|]. intros [|(m & y & Hm & _)]; [done|lia].
       - replace (Z.min head (h_Number h)) with (h_Number h) by lia. by rewrite Z.sub_diag. }
  rewrite <- Ex. destruct (parent_at g gtd F blk T x h td E ltac:(lia)) as (p & ptd & Ep & Hp & ->). destruct (known_at g gtd F blk T _ p ptd Ep) as (Hwp & Hup & Hap).
  assert (view_ok (with_current (Some h) (viewOf g blk F))) as Hv by (split; apply (tree_view g gtd blk F T)).
  apply runs_bind. eapply runs_mono; [by apply (GetHeader_ok _ _ _ _ Hv Hs)|]. intros r s1 [-> Hs1]. cbn [with_current viewOf v_known]. rewrite Ep. cbn [fmap option_fmap option_map fst].
  run_step. run_step. apply (stored_set_current _ _ (Some p)) in Hs1. set (b0 := match delFn with Some f => f x (h_Number h) b | None => b end).
  assert (deletes b0 ks) as Hb0 by (unfold b0; destruct delFn as [f|]; [by apply Hd|done]).
  assert (deletes (Raw.DeleteTd x (h_Number h) (Raw.DeleteHeader x (h_Number h) b0)) (KTd (h_Number h) x :: KNumber x :: KHeader (h_Number h) x :: ks)) as Hb1
    by (apply (deletes_Delete _ _ (KTd _ _)); [apply (deletes_Delete _ _ (KNumber _)); [by apply (deletes_Delete _ _ (KHeader _ _))|done]|done]).
  eapply runs_mono; [refine (IH _ p ptd _ _ _ Ep _ _ Hb1 Hs1); lia|].
  intros b' s' (ks' & y & h' & td' & Hb' & Hks & Ea & Ey & Hs'). exists ks', y, h', td'. split; [done|]. split; [|split; [|done]].
  - intros k. rewrite Hks, !elem_of_cons, (branchKey_step _ _ h td _ head k E) by lia. replace (h_Number p) with (h_Number h - 1) by lia. tauto.
  - replace (Z.to_nat (h_Number h - Z.min head (h_Number h))) with (S (Z.to_nat (h_Number p - Z.min head (h_Number p)))) by lia. cbn [anc]. by rewrite E.
Qed.

Lemma deleteDown_ok : forall n i b ks, Z.of_nat n <= i < 2 ^ 64 -> deletes b ks ->
  exists ks', deletes (deleteDown n i b) ks' /\ forall k, k ∈ ks' <-> k ∈ ks \/ exists m, k = KCanon m /\ i - Z.of_nat n < m <= i.
Proof.
  induction n as [|n IH]; intros i b ks Hi Hb; cbn [deleteDown].
  - exists ks. split; [done|]. intros k. split; [by left|]. intros [|(m & _ & ?)]; [done|lia].
  - destruct (IH (i - 1) (Raw.DeleteCanonicalHash i b) (KCanon i :: ks)) as (ks' & Hb' & Hk); [lia|apply (deletes_Delete _ _ (KCanon i)); [done|split; lia]|].
    exists ks'. split; [done|]. intros k. rewrite Hk, elem_of_cons. split.
    + intros [[->|?]|(m & -> & ?)]; [right; exists i; split; [done|lia]|by left|right; exists m; split; [done|lia]].
    + intros [?|(m & -> & ?)]; [by left; right|]. destruct (decide (m = i)) as [->|]; [by left; left|]. right. exists m. split; [done|lia].
Qed.

(** The canonical headers above [head] are gone; everything else stays. *)
Definition rewound (head : Z) (F : forest) : forest :=
  mkForest (filter (fun kv => ~ (head < h_Number kv.2.1 /\ canonOf F (h_Number kv.2.1) = Some kv.1)) (f_known F))
    (match canonOf F head with
     | Some x => match f_known F !! x with Some (h, _) => h | None => f_head F end
     | None => f_head F
     end).

Section rewound.
Variables (g : Header) (gtd : Z) (F : forest) (blk : option Hash) (head : Z).
Hypothesis T : tree g gtd F.
Hypothesis Hhead : 0 <= head.
Abbreviation top := (h_Number (f_head F)).

Lemma rewound_lookup x : f_known (rewound head F) !! x =
  '(h, td) ← f_known F !! x; if decide (head < h_Number h /\ canonOf F (h_Number h) = Some x) then None else Some (h, td).
Proof.
  cbn [rewound f_known]. rewrite map_lookup_filter. destruct (f_known F !! x) as [[h td]|]; [|done]. cbn [mbind option_bind fst snd].
  destruct (decide (head < _ /\ _)) as [Hd|Hd]; [by rewrite option_guard_False by (intros Hn; by apply Hn)|by rewrite option_guard_True].
Qed.

Lemma top_u64 : is_u64 top.
Proof. destruct (known_at g gtd F blk T _ _ _ (tr_head g gtd F T)) as (_ & Hu & _). exact Hu. Qed.

Lemma canonOf_known m x : canonOf F m = Some x -> 0 <= m <= top /\ exists h td, f_known F !! x = Some (h, td) /\ h_Number h = m.
Proof.
  intros E. split; [|by apply (vo_canon _ (tree_view g gtd blk F T) m x)]. unfold canonOf, upto in E. destruct ((0 <=? m) && _) eqn:Eb; [|done]. zbool. lia.
Qed.

Lemma branch_canon m x : head < m <= top -> anc (f_known F) (Z.to_nat (top - m)) (Header_Hash (f_head F)) = Some x <-> canonOf F m = Some x.
Proof. intros Hm. unfold canonOf, upto. by rewrite in_range by lia. Qed.

Lemma branch_header m x k : k = KHeader m x \/ k = KTd m x ->
  branchKey (f_known F) (Header_Hash (f_head F)) top head k <-> head < m /\ canonOf F m = Some x.
Proof.
  intros Hk. split.
  - intros (m' & y & Hm & Ea & Hk'). apply branch_canon in Ea; [|done]. destruct Hk as [->| ->], Hk' as [[=]|[[=]|[=]]]; subst; split; done || lia.
  - intros [Hm E]. destruct (canonOf_known m x E) as [Hr _]. exists m, x. split; [lia|]. split; [apply branch_canon; [lia|done]|tauto].
Qed.

Lemma branch_number x h td : f_known F !! x = Some (h, td) ->
  branchKey (f_known F) (Header_Hash (f_head F)) top head (KNumber x) <-> head < h_Number h /\ canonOf F (h_Number h) = Some x.
Proof.
  intros Ex. split.
  - intros (m & y & Hm & Ea & [[=]|[[= <-]|[=]]]). apply branch_canon in Ea; [|done]. destruct (canonOf_known m x Ea) as (_ & h' & td' & E' & Hn).
    rewrite Ex in E'. injection E' as <- <-. rewrite Hn. split; [lia|done].
  - intros [Hm E]. destruct (canonOf_known _ x E) as [Hr _]. exists (h_Number h), x. split; [lia|]. split; [apply branch_canon; [lia|done]|tauto].
Qed.

Lemma number_dropped x : branchKey (f_known F) (Header_Hash (f_head F)) top head (KNumber x) -> is_Some (f_known F !! x).
Proof.
  intros (m & y & Hm & Ea & [[=]|[[= <-]|[=]]]). apply branch_canon in Ea; [|done]. destruct (canonOf_known m x Ea) as (_ & h' & td' & E' & Hn). by eexists.
Qed.

Definition cut (m : Z) : option Hash := if decide (head < m) then None else canonOf F m.

Lemma entry_rewound v (ks : list key) k : v_known v = f_known (rewound head F) -> v_canon v = cut -> v_top v = Some (Header_Hash (f_head F)) -> v_block v = blk ->
  (forall k, k ∈ ks <-> branchKey (f_known F) (Header_Hash (f_head F)) top head k \/ exists m, k = KCanon m /\ head < m <= top) ->
  (if decide (k ∈ ks) then None else entry (viewOf g blk F) k) = entry v k.
Proof.
  intros E1 E2 E3 E4 Hks. destruct (decide (k ∈ ks)) as [Hi|Hi]; rewrite Hks in Hi.
  - destruct k as [m x|m x|m|x| |]; cbn [entry]; rewrite ?E1, ?E2, ?rewound_lookup.
    + destruct Hi as [Hi|(m' & [=] & _)]. apply (branch_header m x) in Hi as [Hm E]; [|by left]. destruct (f_known F !! x) as [[h td]|]; [|done]. cbn [mbind option_bind].
      destruct (decide _) as [|Hd]; [done|]. cbn. destruct (Z.eqb_spec (h_Number h) m) as [<-|]; [by destruct Hd|done].
    + destruct Hi as [Hi|(m' & [=] & _)]. apply (branch_header m x) in Hi as [Hm E]; [|by right]. destruct (f_known F !! x) as [[h td]|]; [|done]. cbn [mbind option_bind].
      destruct (decide _) as [|Hd]; [done|]. cbn. destruct (Z.eqb_spec (h_Number h) m) as [<-|]; [by destruct Hd|done].
    + destruct Hi as [(m' & y & _ & _ & [[=]|[[=]|[=]]])|(m' & [= <-] & Hm)]. unfold cut. by rewrite decide_True by lia.
    + destruct Hi as [Hi|(m' & [=] & _)]. destruct (number_dropped x Hi) as [[h td] Ex]. rewrite Ex. cbn [mbind option_bind].
      rewrite decide_True; [done|]. by eapply branch_number.
    + destruct Hi as [(m' & y & _ & _ & [[=]|[[=]|[=]]])|(m' & [=] & Hm)].
    + destruct Hi as [(m' & y & _ & _ & [[=]|[[=]|[=]]])|(m' & [=] & Hm)].
  - destruct k as [m x|m x|m|x| |]; cbn [entry viewOf v_known v_canon v_top v_block]; rewrite ?E1, ?E2, ?E3, ?E4, ?rewound_lookup; try done.
    + destruct (f_known F !! x) as [[h td]|]; [|done]. cbn [mbind option_bind]. destruct (decide _) as [Hd|Hd]; [|done]. cbn.
      destruct (Z.eqb_spec (h_Number h) m) as [<-|]; [|done]. exfalso. apply Hi. left. apply (branch_header (h_Number h) x); [by left|done].
    + destruct (f_known F !! x) as [[h td]|]; [|done]. cbn [mbind option_bind]. destruct (decide _) as [Hd|Hd]; [|done]. cbn.
      destruct (Z.eqb_spec (h_Number h) m) as [<-|]; [|done]. exfalso. apply Hi. left. apply (branch_header (h_Number h) x); [by right|done].
    + unfold cut. destruct (decide (head < m)) as [Hm|]; [|done]. destruct (decide (m <= top)); [|by rewrite canonOf_out by lia].
      exfalso. apply Hi. right. by exists m.
    + destruct (f_known F !! x) as [[h td]|] eqn:Ex; [|done]. cbn [mbind option_bind]. destruct (decide _) as [Hd|Hd]; [|done].
      exfalso. apply Hi. left. by eapply branch_number.
Qed.

(** The branch below the new head is whole. *)
Lemma anc_rewound : forall k x h td, f_known F !! x = Some (h, td) -> Z.of_nat k <= h_Number h -> h_Number h <= head ->
  anc (f_known (rewound head F)) k x = anc (f_known F) k x.
Proof.
  induction k as [|k IH]; intros x h td E Hk Hh; [done|]. cbn [anc]. rewrite rewound_lookup, E. cbn [mbind option_bind]. rewrite decide_False by lia. cbn [mbind option_bind].
  destruct (parent_at g gtd F blk T x h td E ltac:(lia)) as (p & ptd & Ep & Hp & _). apply (IH _ p ptd Ep); lia.
Qed.

Lemma rewound_head y h td : anc (f_known F) (Z.to_nat (top - Z.min head top)) (Header_Hash (f_head F)) = Some y -> f_known F !! y = Some (h, td) ->
  f_head (rewound head F) = h /\ y = Header_Hash h /\ h_Number h = Z.min head top /\ f_known (rewound head F) !! y = Some (h, td) /\
  forall m, 0 <= m -> canonOf (rewound head F) m = cut m.
Proof.
  intros Ea Ey. pose proof top_u64 as Hu. unfold is_u64 in Hu.
  assert (canonOf F (Z.min head top) = Some y) as Ec by (unfold canonOf, upto; by rewrite in_range by lia).
  destruct (canonOf_known _ y Ec) as (_ & h' & td' & E' & Hn). rewrite Ey in E'. injection E' as <- <-.
  destruct (tr_known g gtd F T y h td Ey) as (_ & Ex & _).
  assert (f_head (rewound head F) = h) as Eh.
  { cbn [rewound f_head]. destruct (decide (head <= top)) as [Hle|Hgt].
    - rewrite Z.min_l in Ec by lia. by rewrite Ec, Ey.
    - rewrite canonOf_out by lia. rewrite Z.min_r, Z.sub_diag in Ea by lia. injection Ea as <-. rewrite (tr_head g gtd F T) in Ey. by injection Ey as <- _. }
  assert (f_known (rewound head F) !! y = Some (h, td)) as Ek by (rewrite rewound_lookup, Ey; cbn [mbind option_bind]; by rewrite decide_False by lia).
  split; [done|]. split; [done|]. split; [done|]. split; [done|]. intros m Hm. unfold canonOf at 1. rewrite Eh, <- Ex, Hn. unfold upto, cut.
  destruct (decide (m <= Z.min head top)) as [Hle|Hgt].
  - rewrite in_range by lia. rewrite decide_False by lia. rewrite (anc_rewound _ y h td Ey) by lia. symmetry.
    apply (upto_coherent (f_known F) (Header_Hash (f_head F)) top (Z.min head top) y m); [lia|lia|exact Ec].
  - rewrite above_range by lia. destruct (decide (head < m)); [done|]. by rewrite canonOf_out by lia.
Qed.

Lemma rewound_view : view_ok (viewOf g blk (rewound head F)).
Proof.
  destruct (upto_known g gtd _ _ _ _ (Z.min head top) (tr_linked g gtd F T) (tr_head g gtd F T)) as (y & h & td & Ea & Ey & Hn); [pose proof top_u64 as Hu; unfold is_u64 in Hu; lia|].
  destruct (rewound_head y h td Ea Ey) as (_ & _ & _ & _ & Hc). split; cbn [viewOf v_known v_canon].
  - intros x h1 td1 E. rewrite rewound_lookup in E. destruct (f_known F !! x) as [[h2 td2]|] eqn:Ex; [|done]. cbn in E. destruct (decide _); [done|].
    injection E as <- <-. by apply (tr_known g gtd F T).
  - intros m x E. assert (0 <= m) as Hm by (unfold canonOf, upto in E; destruct ((0 <=? m) && _) eqn:Eb; [zbool; lia|done]). rewrite Hc in E by done. unfold cut in E.
    destruct (decide (head < m)); [done|]. destruct (canonOf_known m x E) as (_ & h1 & td1 & E1 & Hn1). exists h1, td1. split; [|done].
    rewrite rewound_lookup, E1. cbn. by rewrite decide_False by lia.
Qed.
End rewound.

Lemma stored_purged v v' s d : stored v s -> (forall k, valid k -> d !! keyBytes k = entry v' k) ->
  v_current v' = v_current v -> v_hash v' = v_hash v -> v_genesis v' = v_genesis v ->
  stored v' (set_numberCache (LRU.Purge (hc_numberCache s)) (set_tdCache (LRU.Purge (hc_tdCache s)) (set_headerCache (LRU.Purge (hc_headerCache s)) (set_chainDb d s)))).
Proof. intros [] Hd E1 E2 E3. split; try done; cbn; rewrite ?E1, ?E2, ?E3; done. Qed.

(** Forget how the current state was computed, but for [H : stored v _]. *)
Ltac at_state H s :=
  match type of H with stored ?v _ =>
    match goal with |- runs _ ?st _ =>
      let H' := fresh in assert (stored v st) as H' by exact H; clear H; revert H'; generalize st; intros s H
    end
  end.

(** [SetHead] returns and leaves the rewound chain. *)
Lemma SetHead_ok g gtd F blk delFn head s : tree g gtd F -> callback_ok delFn -> 0 <= head -> stored (viewOf g blk F) s ->
  runs (SetHead head delFn) s (fun _ s' => stored (viewOf g blk (rewound head F)) s').
Proof.
  intros T Hd H0 Hs. pose proof (top_u64 g gtd F blk T) as Hu. pose proof (tr_head g gtd F T) as Eh. unfold SetHead.
  run_step. apply runs_gets. rewrite (st_current _ _ Hs). cbn [viewOf v_current]. rewrite (u64_small _ Hu). unfold is_u64 in Hu. run_step. run_step. apply runs_bind.
  eapply runs_mono; [refine (rewind_ok g gtd F blk delFn head T Hd H0 _ _ _ _ _ _ _ Eh _ _ deletes_nil Hs); unfold loopFuel; lia|].
  intros b s1 (ks & y & h & td & Hb & Hks & Ea & Ey & Hs1). destruct (deleteDown_ok (Z.to_nat (h_Number (f_head F) - head)) (h_Number (f_head F)) b ks ltac:(lia) Hb) as (ks' & Hb' & Hks').
  destruct (rewound_head g gtd F blk head T H0 y h td Ea Ey) as (Er & Ex & Hn & Ek & Hc).
  set (v := mkView (f_known (rewound head F)) (cut F head) (Some h) (Header_Hash (f_head F)) (Some (Header_Hash (f_head F))) blk (Some g)).
  run_step. apply runs_updateDb. do 3 (run_step; run_step).
  apply (stored_purged _ v _ (Mem.batch_Write (deleteDown (Z.to_nat (h_Number (f_head F) - head)) (h_Number (f_head F)) b) (hc_chainDb s1))) in Hs1; try done.
  2: { intros k Hk. rewrite (Hb' _ k Hk), (st_db _ _ Hs1 k Hk). apply (entry_rewound g gtd F blk head T H0 v ks' k); try done. intros k'. rewrite Hks', Hks.
       split; [|intros [?|(m & -> & ?)]; [by left; right|right; exists m; split; [done|lia]]].
       intros [[Hi|Hi]|(m & -> & ?)]; [by apply not_elem_of_nil in Hi|by left|right; exists m; split; [done|lia]]. }
  at_state Hs1 s2. run_step. apply runs_gets. rewrite (st_current _ _ Hs1). run_step. apply runs_ret. run_step. apply runs_gets. run_step. apply runs_must. exists h.
  pose proof (st_current _ _ Hs1) as Ecur. split; [done|]. run_step. run_step. run_step. run_step. apply runs_updateDb. apply (stored_head _ _ h) in Hs1.
  assert (stored (with_head h v) (set_chainDb (Raw.WriteHeadHeaderHash (Header_Hash h) (hc_chainDb s2)) (set_currentHash (Header_Hash h) s2))) as Hs3.
  { destruct Hs1. by split. }
  unfold viewOf. rewrite Er. refine (stored_ext _ _ _ Hs3 _). intros m [Hm _]. by apply Hc.
Qed.

(** ** Inserting chains *)











(** A chain state, and one that has grown. *)
Definition holds (g : Header) (gtd : Z) (blk : option Hash) (A : list Header) (F : forest) (s : HeaderChain) : Prop :=
  tree g gtd F /\ within A F /\ stored (viewOf g blk F) s.






Section insert.
Variables (g : Header) (gtd : Z) (blk : option Hash) (A : list Header) (interrupted : nat -> bool) (coins : nat -> bool).
Hypothesis HA : kin A.





End insert.

(** ** Claims *)

(** [s] is a chain made for the genesis block [g] after the headers [l]. *)
Definition opened (g : Header) (difficulty : option Z) (d0 : Mem.db) (l : list (bool * Header)) (s : HeaderChain) : Prop :=
  exists d s0 rs, CommitHeader g difficulty d0 = Some d /\ NewHeaderChain d = Ret (inr s0) /\ writeAll l s0 = Ret (rs, s).

Lemma opened_holds g difficulty d0 l s : clean d0 -> genesis_ok g (default 0 difficulty) -> family (g :: map snd l) -> opened g difficulty d0 l s ->
  holds g (default 0 difficulty) (Some (Header_Hash g)) (g :: map snd l) (writes l (planted g (default 0 difficulty))).2 s.
Proof.
  intros Hc Hg HA (d & s0 & rs & E1 & E2 & E3). destruct (session g difficulty d0 l Hc Hg HA) as (d' & s0' & s' & E1' & E2' & E3' & H).
  rewrite E1 in E1'. injection E1' as <-. rewrite E2 in E2'. injection E2' as <-. rewrite E3 in E3'. by injection E3' as _ <-.
Qed.

(** C13: the header chain follows the heaviest branch.  The headers have different
    hashes that are not zero, and numbers that follow those of their parents: the
    validation of chains and the engines see to it, [WriteHeader] does not (see
    [misnumbered_depends_on_cache]).  On a new chain any sequence of [WriteHeader]
    of such headers, in any order, runs without a panic: a header is refused
    exactly when its parent is unknown, otherwise it is stored with the sum of the
    difficulties, and becomes the head exactly when it is heavier than the head (or
    as heavy and the coin says so).  Afterwards every lookup by hash answers for
    exactly the headers that were stored, every lookup by number with the ancestor
    of the head of that number and above the head with nothing, whatever was
    reorganised and whatever the three caches have evicted; no stored header is
    heavier than the head. *)
Theorem header_chain_refines g difficulty d0 l :
  clean d0 -> genesis_ok g (default 0 difficulty) -> family (g :: map snd l) ->
  let (rs, F) := writes l (planted g (default 0 difficulty)) in
  (exists d s0 s, CommitHeader g difficulty d0 = Some d /\ NewHeaderChain d = Ret (inr s0) /\ writeAll l s0 = Ret (rs, s) /\ shows F s) /\
  linked g (default 0 difficulty) (f_known F) /\ forall x h td, f_known F !! x = Some (h, td) -> td <= headTd F.
Proof.
  intros Hc Hg HA. destruct (session g difficulty d0 l Hc Hg HA) as (d & s0 & s & E1 & E2 & E3 & T & _ & Hs).
  destruct (writes l (planted g (default 0 difficulty))) as [rs F]. cbn [fst snd] in *.
  split; [exists d, s0, s; split; [done|]; split; [done|]; split; [done|]; by eapply stored_shows|]. split; apply T.
Qed.

(** What is left of the canonical branch of [F] above and below [head]. *)
Record rewinds (head : Z) (F : forest) (s : HeaderChain) : Prop := {
  rw_head : exists hd, runs CurrentHeader s (fun r _ => r = Some hd) /\ Raw.ReadHeadHeaderHash (hc_chainDb s) = Header_Hash hd /\
    h_Number hd = Z.min head (h_Number (f_head F)) /\ canonOf F (h_Number hd) = Some (Header_Hash hd);
  rw_number : forall n, is_u64 n -> runs (GetHeaderByNumber n) s (fun r _ =>
    r = if decide (head < n) then None else (x ← canonOf F n; fst <$> f_known F !! x));
  rw_below : forall x h td, f_known F !! x = Some (h, td) -> h_Number h <= head ->
    runs (GetHeaderByHash x) s (fun r _ => r = Some h) /\ runs (GetTdByHash x) s (fun r _ => r = Some td);
  rw_above : forall x h td, f_known F !! x = Some (h, td) -> head < h_Number h -> canonOf F (h_Number h) = Some x ->
    runs (GetHeaderByHash x) s (fun r _ => r = None) /\ runs (GetTdByHash x) s (fun r _ => r = None);
  rw_new : forall x, is_word x -> f_known F !! x = None -> runs (GetHeaderByHash x) s (fun r _ => r = None)
}.

Lemma rewound_rewinds g gtd F blk head s : tree g gtd F -> 0 <= head -> stored (viewOf g blk (rewound head F)) s -> rewinds head F s.
Proof.
  intros T H0 Hs. destruct (view_shows g blk (rewound head F) s (rewound_view g gtd F blk head T H0) Hs) as [Hcur Htop Hhd Htd Hnum].
  destruct (upto_known g gtd _ _ _ _ (Z.min head (h_Number (f_head F))) (tr_linked g gtd F T) (tr_head g gtd F T)) as (y & h & td & Ea & Ey & Hn).
  { pose proof (top_u64 g gtd F blk T) as Hu. unfold is_u64 in Hu. lia. }
  destruct (rewound_head g gtd F blk head T H0 y h td Ea Ey) as (Eh & -> & Hmin & _ & Hc). rewrite Eh in Hcur, Htop.
  assert (forall x h1 td1, f_known F !! x = Some (h1, td1) -> is_word x) as Hw by (intros x h1 td1 E; by apply (known_at g gtd F blk T x h1 td1 E)).
  split.
  - exists h. split; [done|]. split; [done|]. split; [done|]. rewrite Hmin. unfold canonOf, upto.
    rewrite in_range; [done|]. pose proof (top_u64 g gtd F blk T) as Hu. unfold is_u64 in Hu. lia.
  - intros n Hu. eapply runs_mono; [by apply Hnum|]. intros r _ ->. rewrite Hc by apply Hu. unfold cut. case_decide as Hd; [done|].
    destruct (canonOf F n) as [x|] eqn:Ex; [|done]. cbn [mbind option_bind]. rewrite rewound_lookup.
    destruct (canonOf_known g gtd F blk T n x Ex) as (_ & h1 & td1 & -> & Hn1). cbn [mbind option_bind]. by rewrite decide_False by lia.
  - intros x h1 td1 E Hle. split; (eapply runs_mono; [first [apply Hhd|apply Htd]; by eapply Hw|]); intros r _ ->;
      rewrite rewound_lookup, E; cbn [mbind option_bind]; by rewrite decide_False by lia.
  - intros x h1 td1 E Hlt Ec. split; (eapply runs_mono; [first [apply Hhd|apply Htd]; by eapply Hw|]); intros r _ ->;
      rewrite rewound_lookup, E; cbn [mbind option_bind]; by rewrite decide_True.
  - intros x Hx E. eapply runs_mono; [by apply Hhd|]. intros r _ ->. by rewrite rewound_lookup, E.
Qed.

(** C26: [SetHead] rewinds the canonical branch.  The headers have different
    hashes and numbers that follow their parents', and the callback leaves the keys
    of headers alone.  It returns, the new head is the
    canonical header of the number asked for, or the old head if that is below it,
    also in the store; lookups by number are as before up to that number and
    answer nothing above it; by hash, the headers up to that number are still there
    with their total difficulties, those of the canonical branch above it are gone,
    from the store and from the caches, and no others appear.  (A header of another
    branch above the new head is not deleted: [side_header_stays].) *)
Theorem set_head_rewinds g difficulty d0 l s delFn head :
  clean d0 -> genesis_ok g (default 0 difficulty) -> family (g :: map snd l) -> opened g difficulty d0 l s ->
  callback_ok delFn -> 0 <= head ->
  runs (SetHead head delFn) s (fun _ s' => rewinds head (writes l (planted g (default 0 difficulty))).2 s').
Proof.
  intros Hc Hg HA Ho Hd H0. destruct (opened_holds g difficulty d0 l s Hc Hg HA Ho) as (T & _ & Hs).
  eapply runs_mono; [by eapply SetHead_ok|]. intros [] s' Hs'. by eapply rewound_rewinds.
Qed.

(** Ancestors.  From a stored header [GetAncestor] returns its [k]th ancestor
    and that ancestor's number, or nothing if the steps off the canonical branch
    are used up, which takes fewer than [k] of them; and
    [GetBlockHashesFromHash] returns exactly the first ancestors, down to the
    genesis block at most. *)
Theorem ancestors_found g difficulty d0 l s x h td k max :
  clean d0 -> genesis_ok g (default 0 difficulty) -> family (g :: map snd l) -> opened g difficulty d0 l s ->
  let H := f_known (writes l (planted g (default 0 difficulty))).2 in
  H !! x = Some (h, td) -> 0 <= k <= h_Number h -> is_u64 max ->
  runs (GetAncestor x (h_Number h) k max) s (fun r _ =>
    (exists y, anc H (Z.to_nat k) x = Some y /\ r.1 = (y, h_Number h - k)) \/ (r.1 = (0, 0) /\ max < k)) /\
  runs (GetBlockHashesFromHash x max) s (fun r _ =>
    forall i, r !! i = if decide (Z.of_nat i < max /\ Z.of_nat i < h_Number h) then anc H (S i) x else None).
Proof.
  intros Hc Hg HA Ho H E Hk Hmax. destruct (opened_holds g difficulty d0 l s Hc Hg HA Ho) as (T & Hw & Hs). split.
  - eapply runs_mono; [by eapply GetAncestor_ok|]. by intros r s' [_ Hr].
  - assert (H !! h_ParentHash g = None) as Hroot.
    { destruct (H !! h_ParentHash g) as [[p ptd]|] eqn:Ep; [|done]. destruct (Hw _ _ _ Ep) as [Hp Ex]. pose proof (go_zero g _ Hg).
      pose proof (fm_number _ HA g p ltac:(apply elem_of_cons; by left) Hp Ex). pose proof (fits_number p (fm_fits _ HA p Hp)) as Hu. unfold is_u64 in Hu. lia. }
    destruct (known_at g _ _ (Some (Header_Hash g)) T x h td E) as (Hx & _). unfold GetBlockHashesFromHash. apply runs_bind.
    eapply runs_mono; [apply (GetHeaderByHash_ok _ _ x (tree_view _ _ _ _ T) Hs Hx)|]. intros r s1 [-> Hs1]. cbn [viewOf v_known]. fold H. rewrite E.
    cbn [fmap option_fmap option_map fst]. eapply runs_mono; [by eapply (hashesFrom_ok g _ _ _ T Hroot (Z.to_nat max) x h td s1 E)|].
    intros r s2 [_ Hr] i. rewrite Hr. unfold is_u64 in Hmax. destruct (decide (_ /\ _)); [by rewrite decide_True by lia|by rewrite decide_False by lia].
Qed.


End chain.

(** ** A small chain *)

Lemma kin_check {K : Sha3} A : Forall header_fits A -> Forall (fun h => Header_Hash h <> 0) A -> NoDup (map Header_Hash A) -> kin A.
Proof.
  rewrite !Forall_forall. intros H1 H2 H3. split; [done|done|].
  intros h h' Hh Hh' E. apply list_elem_of_lookup in Hh as [i Ei], Hh' as [j Ej].
  assert (i = j) as ->; [|rewrite Ei in Ej; by injection Ej].
  eapply (NoDup_lookup _ _ _ (Header_Hash h) H3); rewrite list_lookup_fmap; [by rewrite Ei|by rewrite Ej; cbn; rewrite E].
Qed.

Lemma family_check {K : Sha3} A : Forall header_fits A -> Forall (fun h => Header_Hash h <> 0) A -> NoDup (map Header_Hash A) ->
  Forall (fun h => Forall (fun p => h_ParentHash h = Header_Hash p -> h_Number h = h_Number p + 1) A) A -> family A.
Proof.
  intros H1 H2 H3 H4. destruct (kin_check A H1 H2 H3). split; [done..|].
  rewrite Forall_forall in H4. intros h p Hh Hp. specialize (H4 h Hh). rewrite Forall_forall in H4. by apply H4.
Qed.

Module ChainSample.
#[local] Instance toyHash : Sha3 := toySha3.

Definition hdr (parent : Hash) (difficulty number nonce : Z) : Header :=
  mkHeader parent 0 0 0 0 0 0 difficulty number 0 0 0 [] 0 nonce.

(** Two branches from [g], [a1] with [a2] and the single [b1]; [u] has no parent. *)
Definition g : Header := hdr 0 5 0 1.
Definition a1 : Header := hdr (Header_Hash g) 10 1 2.
Definition b1 : Header := hdr (Header_Hash g) 20 1 3.
Definition a2 : Header := hdr (Header_Hash a1) 15 2 4.
Definition u : Header := hdr 12345 1 9 5.
Definition a3 : Header := hdr (Header_Hash a2) 10 3 6.
Definition l : list (bool * Header) := [(false, a1); (false, b1); (true, a2); (false, u)].
Definition all : list Header := (g :: map snd l) ++ [a3].

Lemma all_fit : Forall header_fits all.
Proof.
  repeat constructor; vm_compute; try reflexivity; discriminate.
Qed.

Lemma all_family : family all.
Proof. apply family_check; [apply all_fit|apply (bool_decide_unpack _); by vm_compute..]. Qed.

Lemma l_family : family (g :: map snd l).
Proof. split; intros; apply all_family; try (apply elem_of_app; by left); done. Qed.

Lemma g_ok : genesis_ok g 5.
Proof. split; [apply (fm_fits _ all_family); by left|done|by vm_compute|by vm_compute]. Qed.

Lemma empty_clean : clean ∅.
Proof. intros k _. apply lookup_empty. Qed.

(** The chain after [m]. *)
Definition chain (m : list (bool * Header)) : outcome (list (chainErr + WriteStatus) * HeaderChain) :=
  match CommitHeader g (Some 5) ∅ with
  | Some d => match NewHeaderChain d with Ret (inr s0) => writeAll m s0 | Ret (inl _) | Panic => Panic | OutOfFuel => OutOfFuel end
  | None => Panic
  end.

Lemma chain_opened m rs s : chain m = Ret (rs, s) -> opened g (Some 5) ∅ m s.
Proof.
  unfold chain. destruct (CommitHeader g (Some 5) ∅) as [d|] eqn:E1; [|discriminate].
  destruct (NewHeaderChain d) as [[e|s0]| |] eqn:E2; [discriminate| |discriminate..]. intros E. exists d, s0, rs. split; [exact E1|]. split; [exact E2|exact E].
Qed.

Lemma header_chain_refines_witness :
  writes l (planted g 5) = ([inr CanonStatTy; inr CanonStatTy; inr CanonStatTy; inl ErrUnknownAncestor],
    (writes l (planted g 5)).2) /\
  exists d s0 s, CommitHeader g (Some 5) ∅ = Some d /\ NewHeaderChain d = Ret (inr s0) /\
    writeAll l s0 = Ret ((writes l (planted g 5)).1, s) /\ shows (writes l (planted g 5)).2 s.
Proof.
  split; [by vm_compute|]. pose proof (header_chain_refines g (Some 5) ∅ l empty_clean g_ok l_family) as H. cbn [default from_option id] in H.
  destruct (writes l (planted g 5)) as [rs F]. apply H.
Defined.

Lemma chain_l : exists rs s, chain l = Ret (rs, s).
Proof.
  assert (match chain l with Ret _ => true | _ => false end = true) as H by (vm_compute; reflexivity).
  destruct (chain l) as [[rs s]| |]; [exists rs, s; reflexivity|discriminate H..].
Qed.

(** Rewinding to number 1: [a1] is the head again and [a2] is gone. *)
Lemma set_head_rewinds_witness : exists rs s s', chain l = Ret (rs, s) /\ SetHead 1 (Some Raw.DeleteBody) s = Ret (tt, s') /\
  runs (GetHeaderByHash (Header_Hash a2)) s' (fun r _ => r = None) /\ runs (GetHeaderByNumber 2) s' (fun r _ => r = None) /\
  runs (GetTdByHash (Header_Hash b1)) s' (fun r _ => r = Some 25) /\ runs (GetHeaderByNumber 1) s' (fun r _ => r = Some a1).
Proof.
  destruct chain_l as (rs & s & E).
  destruct (set_head_rewinds g (Some 5) ∅ l s (Some Raw.DeleteBody) 1 empty_clean g_ok l_family (chain_opened l rs s E) DeleteBody_ok ltac:(lia))
    as ([] & s' & E' & [_ Hn Hb Ha _]).
  exists rs, s, s'. split; [exact E|]. split; [exact E'|]. set (F := (writes l (planted g (default 0 (Some 5)))).2) in *.
  assert (f_known F !! Header_Hash a2 = Some (a2, 30)) as K2 by (vm_compute; reflexivity).
  assert (f_known F !! Header_Hash b1 = Some (b1, 25)) as K1 by (vm_compute; reflexivity).
  assert (canonOf F 2 = Some (Header_Hash a2)) as C2 by (vm_compute; reflexivity).
  assert ((x ← canonOf F 1; fst <$> f_known F !! x) = Some a1) as C1 by (vm_compute; reflexivity).
  split; [exact (proj1 (Ha _ a2 30 K2 eq_refl C2))|].
  split; [exact (Hn 2 ltac:(unfold is_u64; lia))|].
  split; [apply (Hb _ b1 25 K1); cbn; lia|].
  eapply runs_mono; [apply (Hn 1); unfold is_u64; lia|]. intros r _ ->. exact C1.
Defined.

Lemma ancestors_found_witness : exists rs s, chain l = Ret (rs, s) /\
  let H := f_known (writes l (planted g 5)).2 in
  runs (GetAncestor (Header_Hash a2) (h_Number a2) 2 7) s (fun r _ =>
    (exists y, anc H (Z.to_nat 2) (Header_Hash a2) = Some y /\ r.1 = (y, h_Number a2 - 2)) \/ (r.1 = (0, 0) /\ 7 < 2)).
Proof.
  destruct chain_l as (rs & s & E). exists rs, s. split; [exact E|]. intros H.
  assert (H !! Header_Hash a2 = Some (a2, 30)) as Ea by (vm_compute; reflexivity).
  assert (0 <= 2 <= h_Number a2) as Hk by (cbn; lia). assert (is_u64 7) as Hm by (unfold is_u64; lia).
  exact (proj1 (ancestors_found g (Some 5) ∅ l s (Header_Hash a2) a2 30 2 7 empty_clean g_ok l_family (chain_opened l rs s E) Ea Hk Hm)).
Defined.

Definition a5 : Header := hdr (Header_Hash a3) 10 5 8.



Definition accepts (chain : list Header) (seals : list bool) (i : nat) : option unit := None.


Definition inserting (b : Header) : option (Z * option (chainErr + unit)) :=
  match chain l with
  | Ret (_, s) =>
      match InsertHeaders (fun _ => false) accepts (fun _ => 0) (fun _ => false) [a3; b] 10 s with
      | Ret (r, _) => Some r
      | _ => None
      end
  | _ => None
  end.


(** The first header is fine and the second one is not; the index that comes with
    the error is that of the first. *)
Example non_contiguous_index : inserting a5 = Some (0, Some (inl errNonContiguous)).
Proof. vm_compute. reflexivity. Qed.

(** A child of [a1] with the wrong number is stored while the total difficulty of
    [a1] is cached, and refused by a chain that is opened on the same store; once
    stored, the canonical branch has no headers between its parent and it. *)
Example misnumbered_depends_on_cache :
  let x := hdr (Header_Hash a1) 100 7 9 in
  match chain [(false, a1)] with
  | Ret (_, s) =>
      match WriteHeader false x s, NewHeaderChain (hc_chainDb s) with
      | Ret (inr CanonStatTy, s1), Ret (inr s2) =>
          match GetHeaderByNumber 7 s1, GetHeaderByNumber 2 s1, WriteHeader false x s2 with
          | Ret (Some _, _), Ret (None, _), Ret (inl ErrUnknownAncestor, _) => True
          | _, _, _ => False
          end
      | _, _ => False
      end
  | _ => False
  end.
Proof. vm_compute. exact I. Qed.

(** A child of [a1] with the number 0 or 1 replaces the canonical header of that
    number. *)
Example misnumbered_replaces :
  let at_ n m := match chain [(false, a1)] with
    | Ret (_, s) => match WriteHeader false (hdr (Header_Hash a1) 100 n 9) s with Ret (_, s) => Raw.ReadCanonicalHash (hc_chainDb s) m | _ => 0 end
    | _ => 0
    end in
  at_ 0 0 = Header_Hash (hdr (Header_Hash a1) 100 0 9) /\ at_ 1 1 = Header_Hash (hdr (Header_Hash a1) 100 1 9).
Proof. vm_compute. split; reflexivity. Qed.

(** A header of another branch above the new head is still there. *)
Example side_header_stays :
  let b2 := hdr (Header_Hash a1) 1 2 7 in
  match chain [(false, a1); (false, a2); (false, b2)] with
  | Ret (_, s) =>
      match SetHead 0 None s with
      | Ret (_, s) => match GetHeaderByHash (Header_Hash b2) s, GetHeaderByHash (Header_Hash a2) s with Ret (Some _, _), Ret (None, _) => True | _, _ => False end
      | _ => False
      end
  | _ => False
  end.
Proof. vm_compute. exact I. Qed.

(** A side header whose ancestors were rewound: writing a child of it follows a
    missing parent. *)
Example rewound_ancestor_panics :
  let b2 := hdr (Header_Hash a1) 1 2 7 in
  let b3 := hdr (Header_Hash b2) 50 3 8 in
  match chain [(false, a1); (false, a2); (false, b2)] with
  | Ret (_, s) => match SetHead 0 None s with Ret (_, s) => WriteHeader false b3 s | _ => OutOfFuel end
  | _ => OutOfFuel
  end = Panic.
Proof. by vm_compute. Qed.
End ChainSample.
