(* ===== verification/CliqueTheorems.v ===== *)
(** * What proof of authority guarantees

    The invariant of the snapshots, the rest a signer has to take, the turns of
    the signers, and that the checks of [verifySeal] and of [apply] agree except
    on the first blocks of a chain. *)

From Stdlib Require Import ZArith Lia Bool.
From S2P Require Import Prelude GoMath Rlp TrieHasher Params StateInterface BlockTypes Ethash Clique CliqueSpec CliqueEngine Sample TrieTheorems.
Local Open Scope Z_scope.

Section clique.
Context {K : Sha3} {C : Crypto}.

(** C29: Applying headers to a snapshot keeps its books straight: afterwards each vote on record is by a current
    signer, about a change that is still open, and the only one of that signer on that account; the tally of every
    account is the number of votes about it; and the recent signers are distinct, each with one of the last
    (signers/2 + 1) blocks.  The snapshot has moved on by the number of headers. *)
Theorem snapshot_invariant sigcache config s headers s' :
  0 <= s_Number s -> s_Number s + zlen headers < 2 ^ 63 -> snap_ok (s_Number s) s ->
  apply sigcache config s headers = inr s' ->
  snap_ok (s_Number s') s' /\ s_Number s' = s_Number s + zlen headers /\ s_Hash s' = tipHash (s_Hash s) headers.
Proof.
  intros H0 Hl Hok E. destruct (apply_inv _ _ s headers s' H0 ltac:(lia) E) as (Hn & s1 & E1 & ->).
  split; [|done]. pose proof (applyLoop_ok _ _ headers _ s s1 H0 Hl Hn Hok E1) as [A B D]. by split.
Qed.

(** C36: A signer rests: of two blocks of a chain of headers that have been applied, signed by the same account, the
    later comes at least (signers/2 + 1) blocks after the earlier, the signers being those before the later block.
    The set of signers may have changed in between. *)
Theorem signers_take_turns sigcache config s headers s' (i j : nat) hi hj a :
  0 <= s_Number s -> s_Number s + zlen headers < 2 ^ 63 -> snap_ok (s_Number s) s ->
  apply sigcache config s headers = inr s' ->
  headers !! i = Some hi -> headers !! j = Some hj -> (i < j)%nat ->
  ecrecover sigcache hi = inr a -> ecrecover sigcache hj = inr a ->
  exists before, applyLoop sigcache config s (take j headers) = inr before /\
    a ∈ s_Signers before /\ Z.of_nat (size (s_Signers before)) / 2 + 1 <= Z.of_nat j - Z.of_nat i.
Proof.
  intros H0 Hl Hok E Hi Hj Hij Ri Rj.
  destruct (apply_inv _ _ s headers s' H0 ltac:(lia) E) as (Hn & s1 & E1 & _). clear E.
  apply list_elem_of_split_length in Hi as (l1 & r1 & -> & ->).
  destruct (applyLoop_at _ _ l1 hi r1 _ s s1 H0 Hl Hn Hok E1) as (sa & sb & b & Ea & Eb & Hb & E2 & Hn2).
  assert (b = a) as -> by (pose proof (hs_signer _ _ _ _ _ _ Hb); congruence).
  rewrite lookup_app_r in Hj by lia. destruct (j - length l1)%nat as [|d] eqn:Ed; [lia|]. cbn in Hj.
  apply list_elem_of_split_length in Hj as (l2 & r2 & -> & ->).
  unfold zlen in *. rewrite length_app in Hl. cbn [length] in Hl.
  destruct (applyLoop_at _ _ l2 hj r2 (s_Number s + Z.of_nat (length l1) + 1) sb s1 ltac:(lia) ltac:(unfold zlen; lia) Hn2 (hs_ok _ _ _ _ _ _ Hb) E2)
    as (sc & sd & c & Ec & _ & Hc & _). rewrite length_app in Hl. cbn [length] in Hl.
  assert (c = a) as -> by (pose proof (hs_signer _ _ _ _ _ _ Hc); congruence).
  rewrite numbered_app in Hn2. destruct Hn2 as [Hn2 _].
  pose proof (remembered_loop sigcache config (s_Number s + Z.of_nat (length l1) + 1) a l2 (s_Number s + Z.of_nat (length l1) + 1) sb sc ltac:(lia)
    ltac:(unfold zlen; lia) Hn2 (hs_ok _ _ _ _ _ _ Hb) ltac:(lia)) as Hr. unfold zlen in Hr.
  exists sc. split; [|split; [apply Hc|]].
  - rewrite take_app_ge by lia. rewrite applyLoop_app, Ea, Ed. cbn [take applyLoop].
    by rewrite Eb, take_app_length.
  - change (limitOf sc <= Z.of_nat j - Z.of_nat (length l1)).
    destruct (Z.le_gt_cases (limitOf sc) (Z.of_nat j - Z.of_nat (length l1))); [done|exfalso].
    eapply (hs_rested _ _ _ _ _ _ Hc); [|apply Hr; [|done|]]; unfold zlen; [lia| |lia].
    intros Hlim. apply (hs_recorded _ _ _ _ _ _ Hb). lia.
Qed.
(** ** Seals *)

(** The turn that the difficulty of a header claims. *)
Definition difficultyOf (turn : bool) : Z := if turn then diffInTurn else diffNoTurn.

Lemma verifySealWith_eq sigcache order s header signer :
  u64 (h_Number header) <> 0 -> ecrecover sigcache header = inr signer ->
  verifySealWith sigcache order s header =
    if negb (bool_decide (signer ∈ s_Signers s)) || sealRefuses s (u64 (h_Number header)) signer
    then Some (Some errUnauthorized)
    else (fun turn => if h_Difficulty header =? difficultyOf turn then None else Some errDifficulty)
      <$> inturn order s (u64 (h_Number header)) signer.
Proof.
  intros Hn E. unfold verifySealWith. destruct (Z.eqb_spec (u64 (h_Number header)) 0); [done|]. rewrite E.
  destruct (negb _); [done|]. cbn [orb]. fold (sealRefuses s (u64 (h_Number header)) signer).
  destruct (sealRefuses _ _ _); [done|]. destruct (inturn order s _ signer) as [[]|]; [| |done]; cbn;
    destruct (_ =? _); done.
Qed.

(** The two places that check the right to sign agree: on a chain with at least (signers/2 + 1) blocks, the seal
    of a header with a well-formed vote verifies against the snapshot of its parent exactly when [apply] accepts the
    header on that snapshot and its difficulty is the one of the signer's turn. *)
Theorem seal_verified_iff_applied sigcache order config n s header :
  0 <= n -> n + 1 < 2 ^ 63 -> u64 (h_Number header) = n + 1 -> voteNonce header ->
  snap_ok n s -> limitOf s <= n + 1 ->
  verifySealWith sigcache order s header = Some None <->
  (exists s', applyHeader sigcache config s header = inr s') /\
  exists signer turn, ecrecover sigcache header = inr signer /\
    inturn order s (n + 1) signer = Some turn /\ h_Difficulty header = difficultyOf turn.
Proof.
  intros Hn Hlt Hnum Hv Hok Hl. pose proof (applyHeader_accepts sigcache config n s header Hn Hlt Hnum Hv) as Ha.
  destruct (ecrecover sigcache header) as [e|signer] eqn:Er.
  - split; [|by intros [[s' E] _]; rewrite E in Ha]. unfold verifySealWith.
    destruct (Z.eqb_spec (u64 (h_Number header)) 0); [done|]. by rewrite Er.
  - rewrite (verifySealWith_eq _ _ _ _ signer) by (done || lia). rewrite Hnum, (recents_agree n) by done.
    destruct (bool_decide (signer ∈ s_Signers s)); cbn [negb orb andb] in *;
      [|split; [done|by intros [[s' E] _]; rewrite E in Ha]].
    destruct (isRecent _ signer); cbn [negb] in Ha; [split; [done|by intros [[s' E] _]; rewrite E in Ha]|].
    destruct (inturn order s (n + 1) signer) as [turn|] eqn:Et; cbn.
    + destruct (Z.eqb_spec (h_Difficulty header) (difficultyOf turn)) as [Ed|Ed].
      * split; [|done]. intros _. split; [done|]. by exists signer, turn.
      * split; [done|]. intros [_ (a & t & [= <-] & Et' & Ed')]. congruence.
    + split; [done|]. intros [_ (a & t & [= <-] & Et' & _)]. congruence.
Qed.

(** On the first blocks of a chain they do not: below block (signers/2 + 1) the subtraction in [verifySeal] wraps
    around, and a signer that has just signed is let through, although [apply] then refuses the block, and with it
    every chain built on the block. *)
Theorem early_recent_signer_accepted sigcache order config n s header signer turn :
  0 <= n -> n + 1 < limitOf s -> limitOf s < 2 ^ 63 -> u64 (h_Number header) = n + 1 -> voteNonce header ->
  snap_ok n s -> ecrecover sigcache header = inr signer -> signer ∈ s_Signers s -> isRecent s signer = true ->
  inturn order s (n + 1) signer = Some turn -> h_Difficulty header = difficultyOf turn ->
  verifySealWith sigcache order s header = Some None /\
  applyHeader sigcache config s header = inl errUnauthorized.
Proof.
  intros Hn Hl Hs Hnum Hv Hok Er Hin Hr Et Ed. split.
  - rewrite (verifySealWith_eq _ _ _ _ signer) by (done || lia). rewrite Hnum, (recents_early n) by done.
    rewrite bool_decide_true, Et by done. cbn. by rewrite Ed, Z.eqb_refl.
  - pose proof (applyHeader_accepts sigcache config n s header Hn ltac:(lia) Hnum Hv) as Ha. rewrite Er in Ha.
    rewrite bool_decide_true in Ha by done. cbn [andb] in Ha. unfold shifted in Ha.
    destruct (Z.geb_spec (n + 1) (limitOf s)); [lia|].
    change (isRecent (set_Recents (s_Recents s) s) signer) with (isRecent s signer) in Ha. by rewrite Hr in Ha.
Qed.
(** The turns are fair and every node agrees on them: at every block number exactly one of the signers is in
    turn, which one does not depend on the order in which the set of signers is enumerated, and of any (number of
    signers) consecutive blocks each signer is in turn at exactly one.  Without signers [inturn] divides by zero. *)
Theorem one_signer_in_turn s number :
  (s_Signers s = ∅ -> forall order a, ranges order s -> inturn order s number a = None) /\
  (s_Signers s <> ∅ ->
    (exists a, a ∈ s_Signers s /\
      forall order b, ranges order s -> inturn order s number b = Some (bool_decide (b = a))) /\
    forall order a, ranges order s -> a ∈ s_Signers s ->
      exists i, 0 <= i < Z.of_nat (size (s_Signers s)) /\
        forall j, 0 <= j < Z.of_nat (size (s_Signers s)) ->
          inturn order s (number + j) a = Some (bool_decide (j = i))).
Proof.
  split.
  - intros E order a Hr. unfold inturn. rewrite (signers_length order s Hr), E. done.
  - intros Hne. set (N := Z.of_nat (size (s_Signers s))). assert (0 < N) as HN.
    { subst N. assert (size (s_Signers s) <> 0%nat); [|lia]. intros H0. by apply Hne, leibniz_equiv, size_empty_iff. }
    assert (ranges elements s) as Hel by by unfold ranges.
    assert (forall order, ranges order s -> NoDup (signers order s)) as Hnd.
    { intros order Hr. rewrite signers_perm by done. apply NoDup_elements. }
    split.
    + pose proof (signers_length elements s Hel) as Hlen. unfold zlen in Hlen. fold N in Hlen.
      pose proof (Z.mod_pos_bound number N HN) as Hb.
      destruct (lookup_lt_is_Some_2 (signers elements s) (Z.to_nat (number mod N))) as [a Ha]; [lia|]. exists a. split.
      * apply list_elem_of_lookup_2 in Ha. rewrite signers_perm in Ha by done. by apply elem_of_elements.
      * intros order b Hr. rewrite inturn_spec by done. rewrite (signers_unique order elements s Hr Hel). fold N.
        rewrite Ha. do 2 f_equal. apply bool_decide_ext. split; congruence.
    + intros order a Hr Ha. pose proof (signers_length order s Hr) as Hlen. unfold zlen in Hlen. fold N in Hlen.
      apply elem_of_elements in Ha. rewrite <- (signers_perm order s Hr) in Ha.
      apply list_elem_of_lookup_1 in Ha as [k Hk]. pose proof (lookup_lt_Some _ _ _ Hk) as Hk'.
      exists ((Z.of_nat k - number) mod N). pose proof (Z.mod_pos_bound (Z.of_nat k - number) N HN). split; [done|].
      intros j Hj. rewrite inturn_spec by done. fold N. f_equal. apply bool_decide_ext.
      pose proof (Z.mod_pos_bound (number + j) N HN) as Hb. split.
      * intros E. pose proof (proj1 (NoDup_alt _) (Hnd order Hr) _ _ _ E Hk) as Eq.
        assert (Z.of_nat k = (number + j) mod N) as -> by lia. rewrite Zminus_mod_idemp_l.
        replace (number + j - number) with j by lia. by rewrite Z.mod_small.
      * intros ->. rewrite Zplus_mod_idemp_r. replace (number + (Z.of_nat k - number)) with (Z.of_nat k) by lia.
        rewrite Z.mod_small by lia. by rewrite Nat2Z.id.
Qed.
End clique.

(** ** The engine *)

Section engine.
Context {K : Sha3} {C : Crypto} {chain : ChainReader} {D : SnapshotStores} {L : StoresLaws D}.

(** C30: Verification does not depend on what the engine remembers: whatever correct snapshots the cache and the
    database hold or have lost, and however many of the headers below come as an explicit batch instead of from the
    chain, [verifyHeader] terminates on every header of the chain with the verdict that replaying all headers from
    the genesis block gives, errors and panics included, and leaves the stores correct. *)
Theorem verify_header_independent_of_stores sigcache order config genesis now g hs known fuel k h st :
  chain_ok genesis (fun g => verifyHeader sigcache order config genesis now (S fuel) g []) g hs known ->
  GetHeader (Header_Hash g) 0 = Some g -> u64 (h_Number g) = 0 -> hs !! k = Some h -> writable ->
  right sigcache config g hs st ->
  match verdict sigcache order config now g hs k h with
  | Some r => exists st', verifyHeader sigcache order config genesis now (S (S fuel)) h (drop known (take k hs)) st =
      Ret (r, st') /\ right sigcache config g hs st'
  | None => verifyHeader sigcache order config genesis now (S (S fuel)) h (drop known (take k hs)) st = Panic
  end.
Proof.
  intros Hc Hg Hg0 Hk Hw Hr.
  pose proof (lookup_lt_Some _ _ _ Hk) as Hlt. pose proof (ch_length _ _ _ _ _ Hc) as Hlen. unfold zlen in Hlen.
  assert (u64 (h_Number h) = Z.of_nat k + 1) as Hnum.
  { rewrite (numbered_lookup 0 hs k h (ch_numbered _ _ _ _ _ Hc) Hk). lia. }
  remember (S fuel) as f eqn:Ef. cbn [verifyHeader]. unfold verdict.
  destruct (verifyBasic config now h) as [e|] eqn:Eb; [by exists st|]. unfold verifyCascadingFields. rewrite Hnum.
  destruct (Z.eqb_spec (Z.of_nat k + 1) 0); [lia|]. rewrite (ch_parent _ _ _ _ _ Hc k h Hk).
  replace (Z.of_nat k + 1 - 1) with (Z.of_nat k) by lia.
  assert ((match last (drop known (take k hs)) with Some p => Some p | None => GetHeader (hashAt g hs k) (Z.of_nat k) end) = Some (parentAt g hs k) /\
    u64 (h_Number (parentAt g hs k)) = Z.of_nat k /\ Header_Hash (parentAt g hs k) = hashAt g hs k) as (-> & -> & ->).
  { eapply parent_found; [exact Hc|done|done|lia]. }
  rewrite !Z.eqb_refl. cbn [negb orb]. destruct (_ >? _); [by exists st|].
  pose proof (fun st Hr => snapshot_right sigcache config genesis _ g hs known Hc k st ltac:(lia) Hw Hr) as Hsnap.
  unfold verifySeal. rewrite Hnum. destruct (Z.eqb_spec (Z.of_nat k + 1) 0); [lia|].
  rewrite (ch_parent _ _ _ _ _ Hc k h Hk). replace (Z.of_nat k + 1 - 1) with (Z.of_nat k) by lia.
  destruct (Hsnap st Hr) as (st1 & E1 & Hr1). destruct (Hsnap st1 Hr1) as (st2 & E2 & Hr2). clear Hsnap.
  unfold bind. rewrite E1. destruct (replay sigcache config g hs k) as [e|snap]; [by exists st1|].
  destruct (verifyBasic_extra config now h Eb) as [extra Hx]. rewrite Hx. unfold must, ret.
  destruct (_ mod Epoch config =? 0); cbn [andb].
  1: destruct (decide (extra = signersBytes (signers order snap))) as [->|Hne];
    [rewrite !bool_decide_true by done|rewrite !bool_decide_false by congruence; by exists st1].
  all: cbn [negb]; rewrite E2; destruct (verifySealWith sigcache order snap h) as [[e|]|]; [by exists st2..|done].
Qed.

(** A signer seals only what the others accept: when [Seal] produces a block, the header prepared with the
    difficulty of [CalcDifficulty] and signed with the signer's key verifies against the snapshot of the parent and
    is accepted by [apply], on the first blocks of a chain too. *)
Theorem sealed_block_accepted sigcache order config genesis verify signer signFn txs n s header sealed st st' :
  0 <= n -> n + 1 < 2 ^ 63 -> limitOf s < 2 ^ 63 -> u64 (h_Number header) = n + 1 -> voteNonce header ->
  snap_ok n s -> s_Number s = n -> signs signFn signer ->
  (exists st1, snapshot sigcache config genesis verify n (h_ParentHash header) [] st = Ret (inr s, st1)) ->
  CalcDifficultyOf order s signer = Some (h_Difficulty header) ->
  Seal sigcache config genesis verify signer signFn false txs header st = Ret (inr (Sealed sealed), st') ->
  sigcache (Header_Hash sealed) = None ->
  verifySealWith sigcache order s sealed = Some None /\ exists s', applyHeader sigcache config s sealed = inr s'.
Proof.
  intros Hn Hlt Hlim Hnum Hv Hok Hs Hsign [st1 Hsnap] Hd E Hcache. unfold Seal in E. rewrite Hnum in E.
  destruct (Z.eqb_spec (n + 1) 0); [lia|]. destruct (_ && _); [done|]. unfold bind in E.
  replace (n + 1 - 1) with n in E by lia. rewrite Hsnap in E.
  destruct (bool_decide_reflect (signer ∈ s_Signers s)) as [Hin|]; [|done]. cbn [negb] in E.
  destruct (mustWait signer s (n + 1)) eqn:Ew; [done|]. rewrite mustWait_spec in Ew.
  destruct (sigHash header) as [h|] eqn:Eh; [|done]. cbn [must] in E. unfold ret in E.
  destruct (signFn signer (be_bytes 32 h)) as [sig|] eqn:Esig; [|done]. injection E as <- <-.
  pose proof (sealed_recovers sigcache header signFn signer h sig Hsign Eh Esig Hcache) as Hr.
  set (sealed := set_Extra _ header) in *. change (h_Number header) with (h_Number sealed) in Hnum. split.
  - rewrite (verifySealWith_eq _ _ _ _ signer) by (done || lia). rewrite bool_decide_true, Hnum by done. cbn [negb orb].
    assert (sealRefuses s (n + 1) signer = false) as ->.
    { apply sealRefuses_spec. intros k Hk. by apply Ew. }
    unfold CalcDifficultyOf in Hd. rewrite Hs, u64_id in Hd by lia.
    destruct (inturn order s (n + 1) signer) as [turn|]; [|done]. cbn.
    change (h_Difficulty sealed) with (h_Difficulty header).
    destruct turn; injection Hd as <-; done.
  - pose proof (applyHeader_accepts sigcache config n s sealed Hn Hlt Hnum Hv) as Ha. rewrite Hr in Ha.
    rewrite bool_decide_true in Ha by done. destruct (isRecent _ signer) eqn:Er; [exfalso|exact Ha].
    apply not_false_iff_true in Er. apply Er, isRecent_spec. intros k Hk.
    pose proof (lookup_weaken _ _ _ _ Hk (shifted_subseteq _ _ _)) as Hk'. destruct (Ew k Hk') as [Hle Hw].
    pose proof (limit_pos s). rewrite u64_id in Hw by lia.
    destruct (shifted_window n _ _ _ _ (so_recents _ _ Hok) Hk). lia.
Qed.
End engine.

(** ** Instances *)

Module CliqueSample.
Definition config : CliqueConfig := mkCliqueConfig 15 30000.

(** Block [n] with a vote; the extra field holds the vanity and the seal. *)
Definition header (parent uncles : Hash) (n difficulty coinbase nonce mix : Z) : Header :=
  mkHeader parent uncles coinbase 0 0 0 0 difficulty n 0 0 (15 * n) (replicate 97 x00) mix nonce.

Definition hashOf : Header -> Hash := Header_Hash (K := toySha3).

(** Signers [1] to [k]. *)
Definition one : Snapshot := newSnapshot 0 0 [1].
Definition three : Snapshot := newSnapshot 1 0 [1; 2; 3].

(** Four signers, the first of which has signed block 1. *)
Definition four : Snapshot := set_Recents {[ 1 := 1 ]} (newSnapshot 1 0 [1; 2; 3; 4]).

Lemma four_ok : snap_ok 1 four.
Proof.
  destruct (snap_new 1 1 0 [1; 2; 3; 4]) as [H1 H2 _]. split; [exact H1|exact H2|].
  cbn [four s_Recents set_Recents]. split.
  - intros k a [<- _]%lookup_singleton_Some. split; [lia|]. vm_compute. by split.
  - by intros k1 k2 a [<- _]%lookup_singleton_Some [<- _]%lookup_singleton_Some.
Qed.

(** A cache that knows one signer for every header. *)
Definition known (a : Address) : Hash -> option Address := fun _ => Some a.

(** Three blocks; the middle one is by the second signer. *)
Definition block (n : Z) : Header := header 0 0 n 2 0 nonceDropVote n.
Definition alternating (h : Hash) : option Address := if h =? hashOf (block 2) then Some 2 else Some 1.

(** A signature is its own public key. *)
#[local] Instance signing : Crypto := {|
  CodeHash := option (list byte);
  Keccak256Hash := Some;
  zeroHash := None;
  Keccak256 b := b;
  CreateAddress a n := a;
  Ecrecover h s := Some s;
  Sha256 b := b;
  Ripemd160 b := b;
  G1 := unit;
  G2 := unit;
  G1_Unmarshal b := None;
  G2_Unmarshal b := None;
  G1_Marshal p := [];
  G1_Add p q := tt;
  G1_ScalarMult p n := tt;
  PairingCheck l := true
|}.

(** The signature of account [1]. *)
Definition signature : list byte := replicate 33 x00 ++ x01 :: replicate 31 x00.
Definition signFn (a : Address) (h : list byte) : option (list byte) := if a =? 1 then Some signature else None.

Lemma signFn_signs : signs (K := toySha3) signFn 1.
Proof. intros h sig [= <-]. split; [done|]. exists signature. split; [done|]. vm_compute. reflexivity. Qed.

(** Both stores as maps. *)
#[local] Instance maps : SnapshotStores := {|
  stores := gmap Hash Snapshot * gmap Hash Snapshot;
  recentsGet st h := st.1 !! h;
  recentsAdd st h s := (<[h := s]> st.1, st.2);
  loadSnapshot st h := st.2 !! h;
  storeSnapshot st s := Some (st.1, <[s_Hash s := s]> st.2)
|}.

#[local] Instance maps_laws : StoresLaws maps.
Proof.
  split; cbn; try done.
  - intros st h s k t. destruct (decide (h = k)) as [->|Hne]; [rewrite lookup_insert_eq|rewrite lookup_insert_ne by done]; naive_solver.
  - intros st s st' k t [= <-]. cbn. destruct (decide (s_Hash s = k)) as [<-|Hne];
      [rewrite lookup_insert_eq|rewrite lookup_insert_ne by done]; naive_solver.
  - by intros st s st' k [= <-].
Qed.

(** A genesis block with one signer, and the block after it. *)
Definition genesis : Header :=
  mkHeader 0 (EmptyUncleHash (K := toySha3)) 0 0 0 0 0 1 0 0 0 0
    (replicate 32 x00 ++ be_bytes 20 1 ++ replicate 65 x00) 0 nonceDropVote.
Definition first : Header := header (hashOf genesis) (EmptyUncleHash (K := toySha3)) 1 2 0 nonceAuthVote 0.

#[local] Instance chain : ChainReader := {|
  Config := TestChainConfig;
  GetHeader h n :=
    if (h =? hashOf genesis) && (n =? 0) then Some genesis
    else if (h =? hashOf first) && (n =? 1) then Some first else None;
  GetBlock h n := None
|}.

Lemma chain_is_ok : chain_ok (K := toySha3) (Some genesis)
  (fun g => verifyHeader (K := toySha3) (known 1) elements config (Some genesis) 1000 1 g []) genesis [first] 1.
Proof.
  split.
  - done.
  - intros st. apply (genesis_verified (K := toySha3)); vm_compute; reflexivity.
  - cbn [numbered]. split; [|done]. vm_compute. reflexivity.
  - vm_compute. reflexivity.
  - intros [|k] h; [|done]. intros [= <-]. reflexivity.
  - intros [|k] h _; [|done]. intros [= <-]. vm_compute. reflexivity.
  - assert (hashAt (K := toySha3) genesis [first] 0 <> hashAt (K := toySha3) genesis [first] 1) as Hne by by vm_compute.
    intros [|[|i]] [|[|j]] Hi Hj E; cbn in Hi, Hj; try lia; congruence.
Qed.

Lemma snapshot_invariant_witness :
  exists s', apply (K := toySha3) (known 1) config one [block 1; block 2] = inr s' /\ snap_ok (s_Number s') s'.
Proof.
  assert (exists s', apply (K := toySha3) (known 1) config one [block 1; block 2] = inr s') as [s' E]
    by (eexists; vm_compute; reflexivity).
  exists s'. split; [exact E|].
  apply (snapshot_invariant (K := toySha3) (known 1) config one [block 1; block 2] s'); [done|done|apply snap_new|exact E].
Defined.

Lemma signers_take_turns_witness :
  exists before, applyLoop (K := toySha3) alternating config (newSnapshot 0 0 [1; 2; 3]) [block 1; block 2] = inr before /\
    1 ∈ s_Signers before /\ Z.of_nat (size (s_Signers before)) / 2 + 1 <= 2 - 0.
Proof.
  assert (exists s', apply (K := toySha3) alternating config (newSnapshot 0 0 [1; 2; 3]) [block 1; block 2; block 3] = inr s')
    as [s' E] by (eexists; vm_compute; reflexivity).
  apply (signers_take_turns (K := toySha3) alternating config (newSnapshot 0 0 [1; 2; 3]) [block 1; block 2; block 3] s'
    0 2 (block 1) (block 3) 1); [done|done|apply snap_new|exact E|done|done|lia|vm_compute; reflexivity..].
Defined.

Lemma seal_verified_iff_applied_witness :
  exists s', applyHeader (K := toySha3) (known 3) config three (block 2) = inr s'.
Proof.
  apply (seal_verified_iff_applied (K := toySha3) (known 3) elements config 1 three (block 2));
    [lia|lia|reflexivity|by right|apply snap_new|vm_compute; congruence|vm_compute; reflexivity].
Defined.

Lemma early_recent_signer_accepted_witness :
  let second := header 0 0 2 1 0 nonceDropVote 0 in
  verifySealWith (K := toySha3) (known 1) elements four second = Some None /\
  applyHeader (K := toySha3) (known 1) config four second = inl errUnauthorized.
Proof.
  apply (early_recent_signer_accepted (K := toySha3) (known 1) elements config 1 four
    (header 0 0 2 1 0 nonceDropVote 0) 1 false);
    [lia|vm_compute; reflexivity|vm_compute; reflexivity|reflexivity|by right|apply four_ok|reflexivity
    |vm_compute; reflexivity..].
Defined.

Lemma one_signer_in_turn_witness :
  exists a, a ∈ s_Signers three /\
    forall order b, ranges order three -> inturn order three 7 b = Some (bool_decide (b = a)).
Proof. destruct (one_signer_in_turn three 7) as [_ H]. destruct H as [H _]; [by vm_compute|exact H]. Defined.

Lemma verify_header_independent_of_stores_witness :
  exists st', verifyHeader (K := toySha3) (known 1) elements config (Some genesis) 1000 2 first [] (∅, ∅) =
    Ret (inr tt, st').
Proof.
  assert (verdict (K := toySha3) (known 1) elements config 1000 genesis [first] 0 first = Some (inr tt)) as E
    by (vm_compute; reflexivity).
  pose proof (verify_header_independent_of_stores (K := toySha3) (known 1) elements config (Some genesis) 1000 genesis
    [first] 1 0 0 first (∅, ∅) chain_is_ok) as H. rewrite E in H.
  destruct H as (st' & H & _); [vm_compute; reflexivity|reflexivity|reflexivity| | |by exists st'].
  - intros st s. by eexists.
  - intros k s _ [H|H]; cbn [recentsGet loadSnapshot maps fst snd] in H; by rewrite lookup_empty in H.
Defined.

Definition kept : stores := ({[ 0 := newSnapshot 2 0 [1; 2; 3] ]} : gmap Hash Snapshot, ∅ : gmap Hash Snapshot).

Lemma sealed_block_accepted_witness :
  let h := header 0 0 3 2 0 nonceDropVote 0 in
  let sealed := set_Extra (replicate 32 x00 ++ signature) h in
  verifySealWith (K := toySha3) (fun _ => None) elements (newSnapshot 2 0 [1; 2; 3]) sealed = Some None.
Proof.
  apply (sealed_block_accepted (K := toySha3) (fun _ => None) elements config None (fun _ => ret (inl errUnknownBlock))
    1 signFn 1 2 (newSnapshot 2 0 [1; 2; 3]) (header 0 0 3 2 0 nonceDropVote 0)
    (set_Extra (replicate 32 x00 ++ signature) (header 0 0 3 2 0 nonceDropVote 0))
    kept kept);
    [lia|lia|vm_compute; reflexivity|reflexivity|by right|apply snap_new|reflexivity|apply signFn_signs
    |eexists; vm_compute; reflexivity|vm_compute; reflexivity|vm_compute; reflexivity|reflexivity].
Defined.
End CliqueSample.
