(* ===== verification/TxPoolTheorems.v ===== *)
(** * Theorems about the transaction pool

    The sorted map of an account refines a map from nonces to transactions; the
    pool keeps its tables together under every sequence of operations, keeps the
    executable nonces of every account without a gap, and keeps its limits. *)

From Stdlib Require Import ZArith Lia Bool Sorting.Sorted.
From stdpp Require Import sorting.
From S2P Require Import Prelude GoMath Rlp GoHeap TrieHasher TrieTheorems Params StateInterface World BlockTypes StateTransition TxList TxListSpec TxPool TxPoolSpec EthashTheorems.
Local Open Scope Z_scope.
Local Open Scope go_scope.

(** ** The sorted map *)

Inductive mapOp :=
| OPut (tx : Transaction)
| OForward (threshold : Z)
| OReady (start : Z)
| OCap (threshold : Z)
| ORemove (nonce : Z)
| OFlatten
| OFilter (f : Transaction -> bool).

Inductive reply := Txs (txs : list Transaction) | Found (b : bool).

Section sorted.
Context (range_ : Items -> list (Z * Transaction)) {R : Ranges range_}.

Definition runMapOp (op : mapOp) (m : txSortedMap) : option (reply * txSortedMap) :=
  match op with
  | OPut tx => Some (Txs [], sm_Put m tx)
  | OForward threshold => r ← sm_Forward m threshold; Some (Txs r.1, r.2)
  | OReady start => r ← sm_Ready m start; Some (Txs r.1, r.2)
  | OCap threshold => r ← sm_Cap m threshold; Some (Txs r.1, r.2)
  | ORemove nonce => r ← sm_Remove m nonce; Some (Found r.1, r.2)
  | OFlatten => Some (Txs (sm_Flatten m).1, (sm_Flatten m).2)
  | OFilter f => Some (Txs (sm_Filter range_ m f).1, (sm_Filter range_ m f).2)
  end.

Fixpoint runMapOps (ops : list mapOp) (m : txSortedMap) : option (list reply * txSortedMap) :=
  match ops with
  | [] => Some ([], m)
  | op :: ops =>
      r ← runMapOp op m;
      rest ← runMapOps ops r.2;
      Some (r.1 :: rest.1, rest.2)
  end.

(** What the operations mean for a map: lists come in the order of the nonces,
    capped ones in the reverse order, filtered ones in any. *)
Inductive mapSpec : Items -> mapOp -> reply -> Items -> Prop :=
| spec_put m tx : mapSpec m (OPut tx) (Txs []) (<[tx_Nonce tx := tx]> m)
| spec_forward m b : mapSpec m (OForward b) (Txs (flat (lower b m))) (upper b m)
| spec_not_ready m n : (forall k t, m !! k = Some t -> n < k) -> mapSpec m (OReady n) (Txs []) m
| spec_ready m n first b : first <= n -> (forall k t, m !! k = Some t -> first <= k) -> first < b -> run m first b ->
    mapSpec m (OReady n) (Txs (flat (lower b m))) (upper b m)
| spec_cap m n b : Z.of_nat (size (lower b m)) = Z.min n (Z.of_nat (size m)) ->
    mapSpec m (OCap n) (Txs (rev (flat (upper b m)))) (lower b m)
| spec_remove m n : mapSpec m (ORemove n) (Found (bool_decide (is_Some (m !! n)))) (delete n m)
| spec_flatten m : mapSpec m OFlatten (Txs (flat m)) m
| spec_filter m f out : out ≡ₚ values (select f m) -> mapSpec m (OFilter f) (Txs out) (reject f m).

Inductive mapSpecs : Items -> list mapOp -> list reply -> Items -> Prop :=
| specs_nil m : mapSpecs m [] [] m
| specs_cons m op r m' ops rs m'' : mapSpec m op r m' -> mapSpecs m' ops rs m'' -> mapSpecs m (op :: ops) (r :: rs) m''.

(** Nonces are [uint64]s, limits are not negative. *)
Definition fitsMap (op : mapOp) : Prop :=
  match op with
  | OPut tx => 0 <= tx_Nonce tx < 2 ^ 64
  | OCap threshold => 0 <= threshold
  | _ => True
  end.

Lemma nonces_sub (m m' : Items) : nonces_u64 m -> m' ⊆ m -> nonces_u64 m'.
Proof. intros Hm Hs n t Hn. eapply Hm. by eapply lookup_weaken. Qed.

Lemma upper_of_empty b (m : Items) : lower b m = ∅ -> upper b m = m.
Proof.
  intros He. apply map_eq. intros n. destruct (m !! n) as [t|] eqn:E.
  - apply lookup_upper. split; [done|]. destruct (Z.le_gt_cases b n); [done|]. exfalso.
    assert (lower b m !! n = Some t) as Hl by (by apply lookup_lower). by rewrite He, lookup_empty in Hl.
  - destruct (upper b m !! n) as [t|] eqn:Eu; [|done]. apply lookup_upper in Eu as [Eu _]. congruence.
Qed.

(** One operation: it does not panic, and gives what the map gives. *)
Lemma runMapOp_ok op m : sm_ok m -> nonces_u64 (sm_items m) -> fitsMap op ->
  exists r m', runMapOp op m = Some (r, m') /\ mapSpec (sm_items m) op r (sm_items m') /\ sm_ok m' /\ nonces_u64 (sm_items m').
Proof.
  intros Hm Hu Hf. destruct op as [tx|b|n|n|n| |f]; cbn [runMapOp].
  - destruct (Put_ok m tx Hm) as [H1 H2]. eexists _, _. split; [done|]. rewrite H2. split; [constructor|]. split; [done|].
    intros k t. rewrite lookup_insert_Some. intros [[<- _]|[_ Hk]]; [done|by eapply Hu].
  - destruct (Forward_ok m b Hm) as (m' & -> & H1 & H2). eexists _, m'. split; [done|]. rewrite H2. split; [constructor|].
    split; [done|]. eapply nonces_sub; [exact Hu|apply map_filter_subseteq].
  - destruct (Ready_ok m n Hm Hu) as (b & m' & -> & H1 & H2 & H3). eexists _, m'. split; [done|]. rewrite H2.
    split; [|split; [done|eapply nonces_sub; [exact Hu|apply map_filter_subseteq]]].
    destruct H3 as [[E H3]|(first & F1 & F2 & F3 & F4)]; [|by econstructor].
    cbn [fst]. rewrite (upper_of_empty _ _ E), E. by constructor.
  - destruct (Cap_ok m n Hm Hu Hf) as (b & m' & -> & H1 & H2 & H3). eexists _, m'. split; [done|]. rewrite H2 in *.
    split; [by constructor|]. split; [done|]. eapply nonces_sub; [exact Hu|apply map_filter_subseteq].
  - destruct (Remove_sm_ok m n Hm) as (m' & -> & H1 & H2). eexists _, m'. split; [done|]. rewrite H2. split; [constructor|].
    split; [done|]. eapply nonces_sub; [exact Hu|apply delete_subseteq].
  - destruct (Flatten_ok m Hm) as (H1 & H2 & H3). eexists _, _. split; [done|]. rewrite H2, H3. split; [constructor|]. by split.
  - destruct (Filter_ok range_ m f Hm) as (H1 & H2 & H3). eexists _, _. split; [done|]. rewrite H3. split; [by constructor|].
    split; [done|]. eapply nonces_sub; [exact Hu|apply map_filter_subseteq].
Qed.

Lemma runMapOps_ok ops : Forall fitsMap ops -> forall m, sm_ok m -> nonces_u64 (sm_items m) ->
  exists rs m', runMapOps ops m = Some (rs, m') /\ mapSpecs (sm_items m) ops rs (sm_items m').
Proof.
  induction 1 as [|op ops Hop _ IH]; intros m Hm Hu; cbn [runMapOps]; [eexists [], m; split; [done|constructor]|].
  destruct (runMapOp_ok op m Hm Hu Hop) as (r & m1 & -> & S1 & H1 & U1). destruct (IH m1 H1 U1) as (rs & m' & E & S'). cbn. rewrite E.
  eexists _, m'. split; [done|]. by econstructor.
Qed.
End sorted.

(** The sorted map of an account refines a map from nonces to
    transactions.  Any sequence of operations on a new [txSortedMap] runs without
    a panic, and every reply (the old transactions of [Forward], the run of
    [Ready], the highest ones of [Cap], the sorted list of [Flatten], and so on)
    is what the map gives; the heap of nonces and the cache never show. *)
Theorem sorted_map_refines (range_ : Items -> list (Z * Transaction)) (ops : list mapOp) :
  Ranges range_ -> Forall fitsMap ops ->
  exists rs m, runMapOps range_ ops newTxSortedMap = Some (rs, m) /\ mapSpecs ∅ ops rs (sm_items m).
Proof.
  intros R Hops. apply (runMapOps_ok range_ ops Hops newTxSortedMap new_ok). intros n t. cbn. by rewrite lookup_empty.
Qed.

(** A transaction of the account [a] (in its signature, for [sampleSender]). *)
Definition sampleTx (a nonce price : Z) : Transaction := mkTx nonce price 21000 (Some 7) 1 [] a 0 0.

Lemma sorted_map_refines_witness :
  exists rs m, runMapOps map_to_list [OPut (sampleTx 1 4 10); OPut (sampleTx 1 3 10); OReady 3; OFlatten] newTxSortedMap = Some (rs, m) /\
    mapSpecs ∅ [OPut (sampleTx 1 4 10); OPut (sampleTx 1 3 10); OReady 3; OFlatten] rs (sm_items m).
Proof.
  apply (sorted_map_refines map_to_list); [by intros m|]. repeat constructor; cbn; lia.
Defined.

(** ** The pool *)

(** What the pool is given. *)
Record Surroundings := mkSurroundings {
  s_sender : Transaction -> option Address;
  s_range : gmap Z Transaction -> list (Z * Transaction);
  s_rangeAll : gmap Hash Transaction -> list (Hash * Transaction);
  s_rangeAddr : gmap Address txList -> list Address;
  s_prque : list (Address * Z) -> list Address;
  s_byHeartbeat : list (Address * Z) -> list Address;
  s_config : TxPoolConfig;
  s_chain : ChainConfig;
  s_GetBlock : Hash -> Z -> option Block;
  s_StateAt : Hash -> option ChainState
}.

(** A [range] finds every entry of a map once, the priority queue gives back
    what it was given with the highest first, sorting permutes, the chain gives the
    blocks it is asked for, and the hashes of the transactions [U] do not collide. *)
Record surroundings_ok {K : Sha3} (U : Transaction -> Prop) (S : Surroundings) : Prop := {
  ok_range : Ranges (s_range S);
  ok_rangeAll m : s_rangeAll S m ≡ₚ map_to_list m;
  ok_rangeAddr m : s_rangeAddr S m ≡ₚ (map_to_list m).*1;
  ok_prque l : NoDup l.*1 -> s_prque S l ≡ₚ l.*1 /\
    StronglySorted (fun a b => forall x y, (a, x) ∈ l -> (b, y) ∈ l -> y <= x) (s_prque S l);
  ok_byHeartbeat l : s_byHeartbeat S l ≡ₚ l.*1;
  ok_limits : limits (s_config S);
  ok_universe : universe U;
  ok_chain : chain_blocks U (s_GetBlock S)
}.

Inductive poolOp :=
| OpAddTx (now : Z) (tx : Transaction) (local : bool)
| OpAddTxs (now : Z) (txs : list Transaction) (local : bool)
| OpSetGasPrice (price : Z)
| OpEvict (now : Z)
| OpHead (now : Z) (fuel : nat) (head ev : Header).

Section pool.
Context {K : Sha3} (S : Surroundings).

Definition runPoolOp (op : poolOp) : M TxPool unit :=
  match op with
  | OpAddTx now tx local =>
      addTx (s_sender S) (s_range S) (s_rangeAll S) (s_rangeAddr S) (s_prque S) (s_byHeartbeat S) (s_config S) now tx local ;; ret tt
  | OpAddTxs now txs local =>
      addTxsLocked (s_sender S) (s_range S) (s_rangeAll S) (s_rangeAddr S) (s_prque S) (s_byHeartbeat S) (s_config S) now txs local ;; ret tt
  | OpSetGasPrice price => SetGasPrice (s_sender S) (s_range S) (s_rangeAll S) (s_config S) price
  | OpEvict now => evict (s_sender S) (s_range S) (s_rangeAll S) (s_rangeAddr S) (s_config S) now
  | OpHead now fuel head ev =>
      headEvent (s_sender S) (s_range S) (s_rangeAll S) (s_rangeAddr S) (s_prque S) (s_byHeartbeat S) (s_config S) now
        (s_GetBlock S) (s_StateAt S) (s_chain S) fuel head ev
  end.

Variable U : Transaction -> Prop.
Hypothesis HS : surroundings_ok U S.

(** The transactions are of [U]; the heads are blocks of the chain, and the fuel
    is above their numbers. *)
Definition fits (op : poolOp) : Prop :=
  match op with
  | OpAddTx _ tx _ => U tx
  | OpAddTxs _ txs _ => forall tx, tx ∈ txs -> U tx
  | OpSetGasPrice _ | OpEvict _ => True
  | OpHead _ fuel head ev =>
      forall h, h ∈ [head; ev] -> is_Some (s_GetBlock S (Header_Hash h) (u64 (h_Number h))) /\ (Z.to_nat (u64 (h_Number h)) < fuel)%nat
  end.

(** A head that keeps the old chain: nothing to reinject, no nonce goes back. *)
Definition steady (p : TxPool) (op : poolOp) : Prop :=
  match op with
  | OpHead _ fuel head ev =>
      reinjected (s_GetBlock S) fuel (Some head) ev = Ret (Some []) /\
      forall st a, s_StateAt S (h_Root ev) = Some st -> cs_nonce (tp_state p) a <= cs_nonce st a
  | _ => True
  end.

Abbreviation inv := (inv (s_sender S) U [] []).

(** One operation. *)
Lemma runPoolOp_ok p op : inv p -> fits op ->
  exists p', runPoolOp op p = Ret (tt, p') /\ inv p' /\ (tight U -> steady p op -> ready p -> ready p').
Proof.
  intros H Hf. destruct HS as [R1 R2 R3 R4 R5 R6 R7 R8]. destruct op as [now tx local|now txs local|price|now|now fuel head ev]; cbn [runPoolOp fits] in *.
  - destruct (addTx_ok (s_sender S) (s_range S) (s_rangeAll S) R2 (s_config S) now U R7 (s_rangeAddr S) R3 (s_byHeartbeat S) R5 (s_prque S) R4 p tx local H Hf R6)
      as (e & p' & E & [H' K'] & _). unfold bind. rewrite E. exists p'. do 2 (split; [done|]). tauto.
  - destruct (addTxsLocked_ok (s_sender S) (s_range S) (s_rangeAll S) R2 (s_config S) now U R7 (s_rangeAddr S) R3 (s_byHeartbeat S) R5 (s_prque S) R4 p txs local H Hf R6)
      as (e & p' & E & [H' K'] & _). unfold bind. rewrite E. exists p'. do 2 (split; [done|]). tauto.
  - destruct (SetGasPrice_ok (s_sender S) (s_range S) (s_rangeAll S) R2 (s_config S) U R7 p price H) as (p' & E & [H' K'] & _).
    exists p'. do 2 (split; [done|]). tauto.
  - destruct (evict_ok (s_sender S) (s_range S) (s_rangeAll S) R2 (s_config S) now U R7 (s_rangeAddr S) p H) as (p' & E & [H' K']).
    exists p'. do 2 (split; [done|]). tauto.
  - unfold headEvent. set (p0 := if IsHomestead (s_chain S) (h_Number ev) then upd_homestead true p else p).
    assert (inv p0 /\ (ready p -> ready p0) /\ tp_state p0 = tp_state p) as (H0 & Hr0 & Hs0)
      by (unfold p0; destruct (IsHomestead _ _); [split; [by destruct H|done]|done]).
    destruct (reset_ok (s_sender S) (s_range S) (s_rangeAll S) R2 (s_config S) now U R7 (s_rangeAddr S) R3 (s_byHeartbeat S) R5 (s_prque S) R4
      (s_GetBlock S) R8 (s_StateAt S) p0 fuel (Some head) ev H0 R6) as (p' & E & H' & K').
    + intros h [= <-]. apply Hf. by left.
    + apply Hf. right. by left.
    + apply Hf. right. by left.
    + exists p'. split; [|split; [done|]].
      * unfold bind, modify, ret. unfold p0 in E. by destruct (IsHomestead _ _).
      * intros Ht [S1 S2] Hr. apply K'; [done|done| |by apply Hr0]. rewrite Hs0. exact S2.
Qed.

Lemma runPoolOps_ok ops : Forall fits ops -> forall p, inv p -> exists p', forEach runPoolOp ops p = Ret (tt, p') /\ inv p'.
Proof.
  induction 1 as [|op ops Hop _ IH]; intros p H; cbn [forEach]; [by exists p|]. unfold bind.
  destruct (runPoolOp_ok p op H Hop) as (p1 & -> & H1 & _). by apply IH.
Qed.

Lemma emptyPool_inv st : inv (emptyPool (s_config S) st).
Proof.
  split; cbn; unfold slot; try done; try (intros *; rewrite ?lookup_empty; done).
  - intros a n. left. by rewrite lookup_empty.
  - intros tx Hx. by apply not_elem_of_nil in Hx.
  - constructor.
  - intros h tx. unfold pendingAt, queuedAt, slot. cbn. rewrite !lookup_empty. split; [done|].
    intros (_ & [?|[?|Hx]]); [done|done|by apply not_elem_of_nil in Hx].
  - intros tx Hx. by apply not_elem_of_nil in Hx.
Qed.

Lemma emptyPool_ready st : ready (emptyPool (s_config S) st).
Proof.
  intros a. unfold ready_at, ms_GetNonce, slot. cbn. rewrite !lookup_empty. split; [lia|]. intros n. split; [by intros [? ?]|lia].
Qed.
End pool.

(** C21: the pool keeps its tables together.  From the empty pool any sequence
    of additions, price changes, evictions and new heads (reorganisations
    included) runs without a panic.  Afterwards the table of all transactions has
    exactly the pending and the queued ones, under their hashes; no account has a
    pending and a queued transaction with one nonce; every transaction has its
    price point in the heap, which is in heap order; and the table has as many
    entries as the lists together. *)
Theorem pool_invariant {K : Sha3} (S : Surroundings) (U : Transaction -> Prop) (st : ChainState) (ops : list poolOp) :
  surroundings_ok U S -> Forall (fits S U) ops ->
  exists p, forEach (runPoolOp S) ops (emptyPool (s_config S) st) = Ret (tt, p) /\
    (forall h tx, tp_all p !! h = Some tx <-> h = tx_Hash tx /\ (pendingAt (s_sender S) p tx \/ queuedAt (s_sender S) p tx)) /\
    (forall a n, slot (tp_pending p) a n = None \/ slot (tp_queue p) a n = None) /\
    (forall h tx, tp_all p !! h = Some tx -> tx ∈ p_items (tp_priced p)) /\ heap_ok priceLess (p_items (tp_priced p)) /\
    Z.of_nat (size (tp_all p)) = total (tp_pending p) + total (tp_queue p).
Proof.
  intros HS Hops. destruct (runPoolOps_ok S U HS ops Hops _ (emptyPool_inv S U st)) as (p & E & H). exists p. split; [done|].
  split; [|split; [apply H|split; [|split; [apply H|by apply (count_all (s_sender S) U [])]]]].
  - intros h tx. rewrite (i_all _ _ _ _ _ H). pose proof (not_elem_of_nil tx). tauto.
  - intros h tx Hh. destruct (i_priced _ _ _ _ _ H h tx Hh) as [?|Hx]; [done|by apply not_elem_of_nil in Hx].
Qed.

(** C22: what is pending can be executed.  When the pending nonces of every
    account run from its nonce in the state without a gap up to the nonce the
    pool says it will have, then so they do after every operation: additions,
    price changes, evictions, and heads that extend the chain. *)
Theorem executable_nonces {K : Sha3} (S : Surroundings) (U : Transaction -> Prop) (p : TxPool) (op : poolOp) :
  surroundings_ok U S -> tight U -> inv (s_sender S) U [] [] p -> ready p -> fits S U op -> steady S p op ->
  exists p', runPoolOp S op p = Ret (tt, p') /\ inv (s_sender S) U [] [] p' /\ ready p'.
Proof.
  intros HS Ht H Hr Hf Hst. destruct (runPoolOp_ok S U HS p op H Hf) as (p' & E & H' & K'). exists p'. tauto.
Qed.

(** C40: the limits.  After [promoteExecutables] there are at most [GlobalSlots]
    pending transactions, or no remote account has more than [AccountSlots] of
    them; and at most [GlobalQueue] queued ones, or none of a remote account. *)
Theorem pool_limits {K : Sha3} (S : Surroundings) (U : Transaction -> Prop) (p : TxPool) (now : Z) (accounts : option (list Address)) :
  surroundings_ok U S -> inv (s_sender S) U [] [] p ->
  exists p', promoteExecutables (s_sender S) (s_range S) (s_rangeAll S) (s_rangeAddr S) (s_prque S) (s_byHeartbeat S) (s_config S) now accounts p
      = Ret (tt, p') /\
    (total (tp_pending p') <= GlobalSlots (s_config S) \/
     forall a, contains p' a = false -> plen p' a <= AccountSlots (s_config S)) /\
    (total (tp_queue p') <= GlobalQueue (s_config S) \/
     forall a, contains p' a = false -> forall n, slot (tp_queue p') a n = None).
Proof.
  intros [R1 R2 R3 R4 R5 R6 R7 R8] H.
  destruct (promoteExecutables_ok (s_sender S) (s_range S) (s_rangeAll S) R2 (s_config S) now U R7 (s_rangeAddr S) R3 (s_byHeartbeat S) R5 (s_prque S) R4
    p accounts H R6) as (p' & E & _ & _ & _ & B1 & B2). exists p'. done.
Qed.

(** A new price limit.  [SetGasPrice] takes out of the pool exactly the
    transactions of remote accounts with a lower price. *)
Theorem gas_price_cut {K : Sha3} (S : Surroundings) (U : Transaction -> Prop) (p : TxPool) (price : Z) :
  surroundings_ok U S -> inv (s_sender S) U [] [] p ->
  exists p', SetGasPrice (s_sender S) (s_range S) (s_rangeAll S) (s_config S) price p = Ret (tt, p') /\
    forall h tx, tp_all p' !! h = Some tx <->
      tp_all p !! h = Some tx /\ (containsTx (s_sender S) p tx = true \/ price <= tx_GasPrice tx).
Proof.
  intros [R1 R2 R3 R4 R5 R6 R7 R8] H.
  destruct (SetGasPrice_ok (s_sender S) (s_range S) (s_rangeAll S) R2 (s_config S) U R7 p price H) as (p' & E & _ & B). by exists p'.
Qed.

(** ** A sample *)

Module PoolSample.

Definition byPriority (x y : Address * Z) : Prop := y.2 <= x.2.
#[global] Instance byPriority_dec x y : Decision (byPriority x y) := decide (y.2 <= x.2).

Definition genesis : Block := mkBlock (mkHeader 0 2 3 4 5 6 0 200000 0 8000000 0 1000 [] 0 1) [] [].
Definition oldBlock : Block :=
  mkBlock (mkHeader (Block_Hash (K := toySha3) genesis) 2 3 50 5 6 0 200000 1 8000000 42000 1010 [] 0 2) [] [sampleTx 1 3 10; sampleTx 1 4 1].
Definition newBlock : Block :=
  mkBlock (mkHeader (Block_Hash (K := toySha3) genesis) 2 3 30 5 6 0 200000 1 8000000 0 1011 [] 0 3) [] [].
Definition nextBlock : Block :=
  mkBlock (mkHeader (Block_Hash (K := toySha3) oldBlock) 2 3 60 5 6 0 200000 2 8000000 0 1020 [] 0 4) [] [].

Definition blocks : list Block := [genesis; oldBlock; newBlock; nextBlock].

(** A state in which the account 1 has a nonce. *)
Definition stateOf (n : Z) : ChainState := mkChainState (fun a => if a =? 1 then n else 0) (fun _ => 10 ^ 18).

#[global] Instance toy : Sha3 := toySha3.

Definition surroundings : Surroundings := {|
  s_sender := fun tx => Some (tx_V tx);
  s_range := map_to_list;
  s_rangeAll := map_to_list;
  s_rangeAddr := fun m => (map_to_list m).*1;
  s_prque := fun l => (merge_sort byPriority l).*1;
  s_byHeartbeat := fun l => l.*1;
  s_config := DefaultTxPoolConfig;
  s_chain := TestChainConfig;
  s_GetBlock := fun h n => list_find (fun b => Block_Hash b = h /\ NumberU64 b = n) blocks ≫= fun r => Some r.2;
  s_StateAt := fun root => if root =? 50 then Some (stateOf 5) else if root =? 30 then Some (stateOf 3) else if root =? 60 then Some (stateOf 6) else None
|}.

Definition txs : list Transaction := [sampleTx 1 3 10; sampleTx 1 4 1; sampleTx 1 5 10; sampleTx 1 6 9; sampleTx 2 0 3].
Definition U (tx : Transaction) : Prop := tx ∈ txs.

Lemma hash_inj a b : a ∈ txs -> b ∈ txs -> tx_Hash a = tx_Hash b -> a = b.
Proof.
  assert (NoDup (tx_Hash <$> txs)) as Hnd by (apply (bool_decide_unpack _); vm_compute; done).
  intros [i Ha]%list_elem_of_lookup_1 [j Hb]%list_elem_of_lookup_1 E.
  assert (i = j) as ->; [|congruence]. eapply (NoDup_lookup (tx_Hash <$> txs)); [done| |].
  - rewrite list_lookup_fmap, Ha. done.
  - by rewrite list_lookup_fmap, Hb, E.
Qed.

Lemma found h n b : s_GetBlock surroundings h n = Some b -> b ∈ blocks /\ Block_Hash b = h /\ NumberU64 b = n.
Proof.
  cbn [s_GetBlock surroundings]. destruct (list_find _ blocks) as [[i b']|] eqn:E; [|done]. cbn. intros [= <-].
  apply list_find_Some in E as (Hi & Hb & _). split; [by eapply list_elem_of_lookup_2|done].
Qed.

Lemma prque_ok l : NoDup l.*1 -> s_prque surroundings l ≡ₚ l.*1 /\
  StronglySorted (fun a b => forall x y, (a, x) ∈ l -> (b, y) ∈ l -> y <= x) (s_prque surroundings l).
Proof.
  intros Hnd. cbn [s_prque surroundings]. pose proof (merge_sort_Permutation byPriority l) as Hp. split; [by rewrite Hp|].
  assert (StronglySorted byPriority (merge_sort byPriority l)) as Hs.
  { apply StronglySorted_merge_sort; [intros x y z; unfold byPriority; lia|intros x y; unfold byPriority; lia]. }
  assert (forall e, e ∈ merge_sort byPriority l -> forall x, (e.1, x) ∈ l -> x = e.2) as Hval.
  { intros [a x] He y Hy. rewrite Hp in He. cbn in *. apply list_elem_of_lookup_1 in He as [i Hi], Hy as [j Hj].
    assert (i = j) as ->; [|congruence]. eapply (NoDup_lookup l.*1); [done| |]; [by rewrite list_lookup_fmap, Hi|by rewrite list_lookup_fmap, Hj]. }
  clear Hp. induction (merge_sort byPriority l) as [|e r IH]; cbn; constructor; apply StronglySorted_inv in Hs as [Hr Hall].
  - apply IH; [done|]. intros e' He'. apply Hval. by right.
  - rewrite Forall_forall in Hall. apply Forall_forall. intros b (e' & -> & He')%list_elem_of_fmap x y Hx Hy.
    rewrite (Hval e ltac:(by left) x Hx), (Hval e' ltac:(by right) y Hy). by apply Hall.
Qed.

Lemma surroundings_fit : surroundings_ok U surroundings.
Proof.
  split.
  - intros m. apply reflexivity.
  - intros m. apply reflexivity.
  - intros m. apply reflexivity.
  - apply prque_ok.
  - intros l. apply reflexivity.
  - split; cbn; lia.
  - split.
    + intros tx Hx. assert (Forall (fun tx => 0 <= tx_Nonce tx < 2 ^ 64) txs) as Ha by (repeat constructor; cbn; lia).
      rewrite Forall_forall in Ha. by apply Ha.
    + apply hash_inj.
    + exists txs. split; [done|]. unfold zlen. cbn. lia.
  - split.
    + intros h n b Hb. by apply found in Hb as (_ & _ & ?).
    + intros h. destruct (s_GetBlock surroundings h (2 ^ 64 - 1)) as [b|] eqn:E; [|done]. apply found in E as (Hb & _ & E).
      assert (Forall (fun b => NumberU64 b < 10) blocks) as Ha by (repeat constructor; vm_compute; done).
      rewrite Forall_forall in Ha. specialize (Ha b Hb). lia.
    + intros h n b tx Hb Ht. apply found in Hb as (Hb & _).
      assert (Forall (fun b => Forall (fun tx => tx ∈ txs) (b_transactions b)) blocks) as Ha.
      { apply (bool_decide_unpack _). vm_compute. done. }
      rewrite Forall_forall in Ha. specialize (Ha b Hb). rewrite Forall_forall in Ha. by apply Ha.
Qed.

Lemma tight_fit : tight U.
Proof.
  intros tx Hx. assert (Forall (fun tx => tx_Nonce tx < 2 ^ 64 - 1) txs) as Ha by (repeat constructor; cbn; lia).
  rewrite Forall_forall in Ha. by apply Ha.
Qed.

(** A first head, a transaction, a higher price limit. *)
Definition ops : list poolOp :=
  [OpHead 0 9 (b_header genesis) (b_header oldBlock); OpAddTx 0 (sampleTx 1 5 10) false; OpSetGasPrice 5].

Definition reorg : poolOp := OpHead 0 9 (b_header oldBlock) (b_header newBlock).

Definition after (op : poolOp) (p : TxPool) : TxPool :=
  match runPoolOp surroundings op p with Ret (_, p') => p' | _ => p end.

Definition pool0 : TxPool := emptyPool DefaultTxPoolConfig (stateOf 0).
Definition pool : TxPool := fold_left (fun p op => after op p) ops pool0.

Lemma blocks_found b : b ∈ blocks -> is_Some (s_GetBlock surroundings (Header_Hash (b_header b)) (u64 (h_Number (b_header b)))) /\
  (Z.to_nat (u64 (h_Number (b_header b))) < 9)%nat.
Proof.
  assert (Forall (fun b => is_Some (s_GetBlock surroundings (Header_Hash (b_header b)) (u64 (h_Number (b_header b)))) /\
    (Z.to_nat (u64 (h_Number (b_header b))) < 9)%nat) blocks) as Ha.
  { repeat constructor; vm_compute; first [by eexists|lia]. }
  rewrite Forall_forall in Ha. apply Ha.
Qed.

Lemma head_fits b b' now : b ∈ blocks -> b' ∈ blocks -> fits surroundings U (OpHead now 9 (b_header b) (b_header b')).
Proof.
  intros Hb Hb' h [->|[->|Hx]%elem_of_cons]%elem_of_cons; [by apply blocks_found|by apply blocks_found|by apply not_elem_of_nil in Hx].
Qed.

Lemma ops_fit : Forall (fits surroundings U) (ops ++ [reorg]).
Proof.
  unfold ops, reorg. cbn [app].
  constructor; [|constructor; [|constructor; [exact I|constructor; [|constructor]]]].
  1, 3: apply head_fits. all: unfold blocks, fits, U, txs; repeat (first [by left|right]).
Qed.

Lemma poolStep_ok p op : inv (s_sender surroundings) U [] [] p -> ready p -> fits surroundings U op -> steady surroundings p op ->
  runPoolOp surroundings op p = Ret (tt, after op p) /\ inv (s_sender surroundings) U [] [] (after op p) /\ ready (after op p).
Proof.
  intros H Hr Hf Hs. destruct (runPoolOp_ok surroundings U surroundings_fit p op H Hf) as (p' & E & H' & K').
  unfold after. rewrite E. split; [done|]. split; [done|]. by apply K'; [apply tight_fit|..].
Qed.

Lemma pool_ok : forEach (runPoolOp surroundings) ops pool0 = Ret (tt, pool) /\ inv (s_sender surroundings) U [] [] pool /\ ready pool.
Proof.
  pose proof ops_fit as Hf. apply Forall_app in Hf as [Hf _]. unfold ops in Hf. rewrite !Forall_cons in Hf. destruct Hf as (F1 & F2 & F3 & _).
  set (op1 := OpHead 0 9 (b_header genesis) (b_header oldBlock)) in *. set (op2 := OpAddTx 0 (sampleTx 1 5 10) false) in *.
  set (op3 := OpSetGasPrice 5) in *.
  destruct (poolStep_ok pool0 op1) as (E1 & H1 & R1); [apply emptyPool_inv|apply (emptyPool_ready surroundings)|done| |].
  { split; [vm_compute; reflexivity|]. intros st a. cbn. intros [= <-]. cbn. destruct (a =? 1); lia. }
  destruct (poolStep_ok (after op1 pool0) op2 H1 R1) as (E2 & H2 & R2); [done|exact I|].
  destruct (poolStep_ok (after op2 (after op1 pool0)) op3 H2 R2) as (E3 & H3 & R3); [done|exact I|].
  split; [|split; [exact H3|exact R3]]. unfold ops. fold op1 op2 op3. cbn [forEach]. unfold bind. rewrite E1, E2, E3. reflexivity.
Qed.

Lemma pool_invariant_witness :
  exists p, forEach (runPoolOp surroundings) (ops ++ [reorg]) (emptyPool (s_config surroundings) (stateOf 0)) = Ret (tt, p) /\
    (forall h tx, tp_all p !! h = Some tx <->
      h = tx_Hash tx /\ (pendingAt (s_sender surroundings) p tx \/ queuedAt (s_sender surroundings) p tx)) /\
    (forall a n, slot (tp_pending p) a n = None \/ slot (tp_queue p) a n = None) /\
    (forall h tx, tp_all p !! h = Some tx -> tx ∈ p_items (tp_priced p)) /\ heap_ok priceLess (p_items (tp_priced p)) /\
    Z.of_nat (size (tp_all p)) = total (tp_pending p) + total (tp_queue p).
Proof. apply (pool_invariant surroundings U (stateOf 0) (ops ++ [reorg])); [apply surroundings_fit|apply ops_fit]. Defined.

Lemma executable_nonces_witness :
  exists p', runPoolOp surroundings (OpAddTx 3 (sampleTx 1 6 9) false) pool = Ret (tt, p') /\
    inv (s_sender surroundings) U [] [] p' /\ ready p'.
Proof.
  apply (executable_nonces surroundings U pool (OpAddTx 3 (sampleTx 1 6 9) false));
    [apply surroundings_fit|apply tight_fit|apply pool_ok|apply pool_ok| |exact I].
  do 3 right. by left.
Defined.

Lemma pool_limits_witness :
  exists p', promoteExecutables (s_sender surroundings) (s_range surroundings) (s_rangeAll surroundings) (s_rangeAddr surroundings)
      (s_prque surroundings) (s_byHeartbeat surroundings) (s_config surroundings) 3 None pool = Ret (tt, p') /\
    (total (tp_pending p') <= GlobalSlots (s_config surroundings) \/
     forall a, contains p' a = false -> plen p' a <= AccountSlots (s_config surroundings)) /\
    (total (tp_queue p') <= GlobalQueue (s_config surroundings) \/
     forall a, contains p' a = false -> forall n, slot (tp_queue p') a n = None).
Proof. apply (pool_limits surroundings U pool 3 None); [apply surroundings_fit|apply pool_ok]. Defined.

Lemma gas_price_cut_witness :
  exists p', SetGasPrice (s_sender surroundings) (s_range surroundings) (s_rangeAll surroundings) (s_config surroundings) 20 pool = Ret (tt, p') /\
    forall h tx, tp_all p' !! h = Some tx <->
      tp_all pool !! h = Some tx /\ (containsTx (s_sender surroundings) pool tx = true \/ 20 <= tx_GasPrice tx).
Proof. apply (gas_price_cut surroundings U pool 20); [apply surroundings_fit|apply pool_ok]. Defined.

(** A reorganisation can leave a gap among the pending transactions.  The
    account 1 has the nonce 5 and the transaction 5 pending; a reorganisation
    takes the nonce back to 3, and of the transactions 3 and 4 of the old block the
    pool refuses 4, which is below its price limit.  [demoteUnexecutables] looks
    only at the first nonce: the transaction 5 stays pending though 4 is not in
    the pool, and the pool says the next nonce is 6. *)
Theorem reorg_leaves_gap :
  exists p', ready pool /\ runPoolOp surroundings reorg pool = Ret (tt, p') /\ cs_nonce (tp_state p') 1 = 3 /\
    slot (tp_pending p') 1 3 = Some (sampleTx 1 3 10) /\ slot (tp_pending p') 1 4 = None /\ slot (tp_queue p') 1 4 = None /\
    slot (tp_pending p') 1 5 = Some (sampleTx 1 5 10) /\ ms_GetNonce (tp_pendingState p') 1 = 6.
Proof.
  destruct pool_ok as (_ & H & R). pose proof ops_fit as Hf. apply Forall_app in Hf as [_ Hf]. apply Forall_cons in Hf as [Hf _].
  destruct (runPoolOp_ok surroundings U surroundings_fit pool reorg H Hf) as (p' & E & _).
  exists (after reorg pool). split; [done|]. split; [unfold after; rewrite E; reflexivity|].
  split_and!; vm_compute; reflexivity.
Qed.
End PoolSample.
